(* ===== verification/_CoqProject ===== *)
-Q . S2P
Prelude.v
Float.v
LibcBase.v
SeqMatch.v
Adler.v
Arrays.v
Mem.v
Strings.v
Qsort.v
QsortTheory.v
XArray.v
XArrayTheory.v
RangeMap.v
SetRef.v
PolicyTheory.v
Printf.v
Vprintf.v
VprintfTheory.v
StringsTheory.v
CoreOptions.v
OptionsTheory.v
BranchPred.v
CacheSim.v
DoRef.v
SimTheory.v
History.v
Safety.v
Selection.v
Arch.v
OSet.v
OSetTheory.v
WordFM.v
WordTheory.v
Merge.v
MergeText.v
MergeTheory.v
MergeTrip.v
MergeMain.v
Primop.v
IR.v
CgMain.v
Instrument.v
LineTable.v
InstrTheory.v
InstrRefine.v
Sanity.v
IRSem.v
IRRun.v
IRTyping.v
OpSem.v
Fold.v
FoldArith.v
FoldConst.v
IRConcrete.v
Flatten.v
FlattenTheory.v
FlattenTypes.v
DeadCode.v
DeadTheory.v
GetPut.v
GetTheory.v
PutTheory.v
GuestArrays.v
GuestArraysTheory.v
Cse.v
CseTheory.v
FoldTheory.v
FoldTypes.v
CProp.v
CPropTheory.v
CPropTypes.v
CPropRun.v
IrOpt.v
SanityTheory.v
CgOutput.v
Report.v
CgTheory.v
ReportTheory.v
Setup.v
MergeCg.v
