(* ===== verification/Prelude.v ===== *)
(** * Cachegrind: a verified model

    This library models Cachegrind, the cache and branch-prediction profiler of
    this repository (a Valgrind tool with selectable replacement policies), and
    the parts of the Valgrind core it is built on.  Definitions follow the C
    code function by function and keep its names; they are executable, and the
    theorems are about them.

    ** The program and its parts

    Valgrind hands every superblock of the client to [cg_instrument]
    (src/cachegrind/cg_main.c), which inserts calls of [log_...] helpers.  Run,
    those calls feed the cache simulator (cg_sim.c) and the branch predictors
    (cg_branchpred.c) and count, for the source line of each instruction, what
    happened.  Before that, Vex cleans the block up ([do_minimal_initial_iropt_BB],
    VEX/priv/ir_opt.c).  The counters live in the CC table, an ordered set (m_oset.c) of
    lines whose names are shared through a string table.  At exit [cg_fini]
    writes the table and a summary.  Which caches are simulated is decided
    before the start from options and detected hardware (cg_arch.c).  A second
    program, cg_merge (cg_merge.c), adds up several output files; it has its
    own finite map on AVL trees.

    ** Files

    - Prelude: outcomes of C code ([Ok], or how it fails), machine integers,
      arrays with checked bounds, the state-and-error monad [SE], Hoare
      triples [triple] and the equivalence [≈] of computations.
    - Float: the [double]s and [float]s of the code, on the IEEE arithmetic of
      the Standard Library.
    - LibcBase (coregrind/m_libcbase.c): character classes, [VG_(strtoll10)],
      string comparison and search, [VG_(log2)], [VG_(random)].
    - SeqMatch (coregrind/m_seqmatch.c): matching of strings against patterns.
    - Adler, Mem, Strings, StringsTheory, Qsort, QsortTheory (coregrind/
      m_libcbase.c): the Adler-32 checksum; copying, filling and comparing
      memory; the other string functions, on texts and, where they write into
      a buffer, on memory; [VG_(ssort)] against the laws of the class
      [Comparison].  Arrays: lemmas on arrays the last three share.
    - XArray, XArrayTheory (coregrind/m_xarray.c): expandable arrays, which
      refine lists; sorting and searching them.
    - RangeMap (coregrind/m_rangemap.c): maps on ranges of addresses, which
      refine functions.
    - CoreOptions, OptionsTheory (coregrind/m_options.c): expansion of output
      file names, the choice of the children to trace.
    - Printf (coregrind/m_debuglog.c): [myvprintf_int64], behind every number
      that is printed; Vprintf, VprintfTheory: the whole of
      [VG_(debugLog_vprintf)] and what it returns, and [sprintf] of
      the formats the other files use.
    - SetRef (cg_sim.c): [cache_t2] and the five policies on one set (LRU, LIP,
      RANDOM, FIFO, BIP), the class [Implements] that relates a policy to a
      reference on lists and the class [ReplacementPolicy] with its laws.
    - PolicyTheory: what the policies compute on sequences of references
      (stack distance, inclusion, throttles), which blocks leave a set, and when.
    - BranchPred (cg_branchpred.c): both predictors and their specification.
    - CacheSim (cg_sim.c): initialisation, the policies that combine others
      (DIP, DIP3, DIP3 with ageing, dueling sets), miss histories,
      [cachesim_ref_is_miss]; the record [sim] holds the static variables.
    - DoRef (cg_sim.c): the entry points [cachesim_I1_doref_Gen],
      [cachesim_I1_doref_NoX] and [cachesim_D1_doref] with the window, online,
      adaptive, naive and learning approaches.
    - SimTheory, History, Safety, Selection: theorems on the simulator: what a
      reference does, the histories, absence of failures, which policy is used.
    - Arch (cg_arch.c): the configuration of the caches.
    - OSet, OSetTheory (coregrind/m_oset.c): the AVL tree, generic in its keys
      through the class [OSetCmp], and its refinement of a sorted list against
      the laws of the class [KeyOrder].
    - Primop, IR (VEX/pub/libvex_ir.h, VEX/priv/ir_defs.c): the operators of
      the intermediate representation and their types; the representation, the
      functions instrumentation calls, and induction on expressions.
    - CgMain, Instrument, CgOutput (cg_main.c, [print_stats] of cg_sim.c): tables
      and event handlers, instrumentation, results: the output file, which the
      report of the policies ends, and the summary.
    - LineTable: the orders of the three tables (instances of [KeyOrder]) and
      their invariant.
    - InstrTheory, InstrRefine: a semantics of instrumented code, and the proof
      that it does what one call per event would do.
    - Sanity, SanityTheory (VEX/priv/ir_defs.c): [sanityCheckIRSB], which Vex
      runs on instrumented code, and the proof that instrumentation keeps a
      block sane.
    - IRSem, IRRun, IRTyping: what intermediate code does, on any [Machine] (class) that obeys
      [MachineLaws]; lemmas on runs; blocks in which every expression has a
      type; [GuestFrame]: writes of the guest state keep the other bytes.  OpSem: what they
      compute, as functions of numbers (the class [IntegerLaws] of machines whose
      operators do; [LoadLaws] and [ArrayLaws], what loads and [GetI]s depend on).  IRConcrete: a machine
      that obeys all the laws.
    - Flatten, FlattenTheory, FlattenTypes (VEX/priv/ir_opt.c): flattening of
      nested expressions, with the arguments of each call evaluated in any
      order ([order], an argument of the definitions).  GetPut, GetTheory, PutTheory: the map [HashHW], removal of
      redundant reads and writes of the guest state.  Fold: [fold_Expr], the folding of
      operators on constants and the identities; FoldArith, FoldConst, FoldTheory,
      FoldTypes: that it computes what operators mean (whose results are in
      range), keeps values and types, and when it returns.  CProp, CPropTheory, CPropTypes, CPropRun: propagation
      of constants and copies, with folding ([cprop_BB]) and without.  IrOpt: these passes as
      [do_minimal_initial_iropt_BB] composes them.  DeadCode, DeadTheory:
      removal of dead code.  GuestArrays, GuestArraysTheory: how accesses to the
      circular arrays of the guest state overlap, the collapsing of chains of
      additions, the removal of redundant [GetI]s and [PutI]s.  Cse, CseTheory:
      common subexpressions.
    - CgTheory: theorems on the output file, the summary and discarding.
    - Report, ReportTheory (cg_main.c): the formats of the output file and the
      text of the summary, through Vprintf; when [print_stats] can print its report.
    - Setup (cg_main.c): option processing, the choice of the
      policy and the start of a run; every started run keeps going.
    - WordFM, WordTheory (the second half of cg_merge.c): the finite map with
      its iterator, and its refinement of a map on the sorted list of bindings,
      against the laws of the class [WordOrder] of the keys.
    - Merge (the first half of cg_merge.c): parsing, merging and writing of
      profiles, the command line.
    - MergeText, MergeTheory, MergeTrip, MergeMain: text lemmas, the parser and
      merging, what is written is read back, the whole command.
    - MergeCg: the composition, cg_merge on the output of Cachegrind.

    ** State and interaction

    A [tool] (CgMain) contains the simulator's [sim], the predictors' [bp] and
    the three ordered sets.  C pointers are names: a [cache_t2*] is a
    [cache_ref], a [ULong*] counter the pair of a [LineCC] address and a
    field, a string its address with its text.  The size of a reference is a
    [UChar]: [cachesim_ref_is_miss] and its callers take it modulo 256.  In cg_merge, where the value of
    a map is a pointer, a change through it is written as [pokeFM], which
    replaces the value of a key in the tree.  Functions that can fail return
    an [outcome]; those that change the state are in [SE].

    ** What the theorems show

    Refinement of abstract specifications: policies on lists, sorted lists for
    the AVL tree, lists for expandable arrays, functions on addresses for range
    maps, one call per event for instrumented code.  Safety: from a
    valid configuration the simulator never reads outside an array, divides by
    zero or panics on references of 1 to 255 bytes that fit the smallest line.  Functional behaviour: misses of LRU by stack distance,
    windows, selection of policies, predictors, tables, output, sorting, the
    names of output files.  Equivalence of
    the fast path of instruction reads with the generic one, of the unrolled
    checksum with its definition, of the copying loops with one assignment.  Round trips of
    the printed numbers and options and of profiles.  Composition: what
    [fprint_CC_table_and_calc_totals] writes up to the summary line is parsed by
    cg_merge to exactly the counters of the table; the whole file, which the
    report of [print_stats] ends, is rejected.  Types: what [cg_instrument] adds to a block of
    intermediate code that passes the sanity check passes it too.  The passes of
    the optimiser return on blocks with types, keep the types and refine the
    semantics of the block: what it does to the guest state, memory and helpers,
    and where it jumps.  Errors: the inputs on which the code
    fails or divides by zero are characterised too.

    ** Fuel

    Loops whose recursion is not structural take fuel: [int64_digits] 64 (a
    [ULong] has at most 64 digits in any base), [width_loop] 20,
    [flush_loop] the number of events, [destroy_loop] and [fprint_nodes] the
    number of nodes.  In cg_merge the loops that read lines and numbers have the
    length of the text (a round takes a character at least), the iterator the
    number of nodes left ([iter_fuel]), removal twice the depth; [vprintf_loop]
    the length of the format, [digit_loop] 21.  The string functions have the
    length of the text, the memory loops the number of bytes, [bm_qsort] the
    number of elements, the searches of an array the number of its elements.
    The passes of the optimiser are structural, but for two loops of folding:
    [sameIRExprs_aux], which gives up after [NODE_LIMIT] nodes, so its fuel is
    three more, and [chase_loop], which has the number of temporaries.
    Each is shown to be enough where its result is used; running out is the failure [OutOfFuel], never a result.

    ** Not modelled

    The text of error messages and of usage; the debug information of the
    client (a parameter); [VG_(strtod)]; opening and writing files; allocators
    (an allocation counter stands for them; in cg_merge allocation succeeds).  cg_merge is modelled for a host of 64 bits
    in the "C" locale, and its [int] counters within a line are unbounded (they
    overflow for lines of 2 GB only).  Of the optimiser, the
    specialisation of helper calls, loop unrolling, tree building and
    [do_iropt_BB], which chooses among the passes, are left out.  Other tools, VEX's front and back ends, system
    calls, debug information readers and the scheduler are outside the scope:
    they are other programs, generated tables or interfaces to the machine. *)

From stdpp Require Export base tactics list numbers option strings gmap.
From Stdlib Require Export ZArith Lia.

#[global] Open Scope Z_scope.
#[global] Set Default Goal Selector "!".

(** ** Outcomes of C code *)

(** How a C function can fail to return.  [AssertFail] is a failed
    [tl_assert]/[vg_assert], [Panic] a [VG_(tool_panic)], [Exited n] a call of
    [VG_(exit)](n) or of a function that ends the process, [Undefined] an
    access outside an object, a division by zero or another operation C
    leaves undefined, and [OutOfFuel] the bound of a modelled loop. *)
Inductive failure :=
| AssertFail
| Panic
| Exited (code : Z)
| Undefined
| OutOfFuel.

Inductive outcome (A : Type) :=
| Ok (a : A)
| Err (e : failure).
Arguments Ok {A} _.
Arguments Err {A} _.

#[export] Instance failure_eq_dec : EqDecision failure.
Proof. solve_decision. Defined.

#[export] Instance outcome_eq_dec {A} `{EqDecision A} : EqDecision (outcome A).
Proof. solve_decision. Defined.

Definition obind {A B} (m : outcome A) (f : A -> outcome B) : outcome B :=
  match m with Ok a => f a | Err e => Err e end.

Declare Scope outcome_scope.
Delimit Scope outcome_scope with outcome.
Notation "'let*' p ':=' m 'in' k" := (obind m (fun p => k))
  (at level 10, p pattern, m at level 100, k at level 200,
   format "'[v' 'let*'  p  ':='  m  'in' '/' k ']'") : outcome_scope.
#[global] Open Scope outcome_scope.

(** [tl_assert(b)]. *)
Definition assert_that (b : bool) : outcome unit :=
  if b then Ok tt else Err AssertFail.

(** [b] is what C requires for the next operation to be defined. *)
Definition defined_when (b : bool) : outcome unit :=
  if b then Ok tt else Err Undefined.

Definition is_ok {A} (m : outcome A) : Prop := exists a, m = Ok a.

(** ** Machine integers *)

Definition u8 (x : Z) : Z := x mod 2 ^ 8.
Definition u16 (x : Z) : Z := x mod 2 ^ 16.
Definition u32 (x : Z) : Z := x mod 2 ^ 32.
Definition u64 (x : Z) : Z := x mod 2 ^ 64.

(** Conversion to the 32-bit and 64-bit signed types (two's complement). *)
Definition s32 (x : Z) : Z := (x + 2 ^ 31) mod 2 ^ 32 - 2 ^ 31.
Definition s64 (x : Z) : Z := (x + 2 ^ 63) mod 2 ^ 64 - 2 ^ 63.

(** Addition of [int]s: undefined when the result is not an [int]. *)
Definition int_add (x y : Z) : outcome Z :=
  if (- 2 ^ 31 <=? x + y) && (x + y <? 2 ^ 31) then Ok (x + y) else Err Undefined.

(** C's [b ? 1 : 0]. *)
Definition Z_of_bool (b : bool) : Z := if b then 1 else 0.

(** ** Arrays *)

Section Arrays.
Context {A : Type}.
Implicit Types (l : list A) (i : Z) (v : A).

(** [l[i]]: undefined outside the array. *)
Definition rd l i : outcome A :=
  if 0 <=? i then
    match l !! Z.to_nat i with Some v => Ok v | None => Err Undefined end
  else Err Undefined.

(** [l[i] = v]: undefined outside the array. *)
Definition wr l i v : outcome (list A) :=
  if (0 <=? i) && (i <? Z.of_nat (length l)) then Ok (<[Z.to_nat i := v]> l)
  else Err Undefined.

End Arrays.

(** ** Updating one field of a record

    [r <| f := v |>] is [r] with field [f] set to [v]: the assignment [r.f = v]
    of the C code.  Each record declares its [RecordEta] once. *)

Class RecordEta (R : Type) := record_eta : R -> R.
Class Setter {R E : Type} (get : R -> E) := set_field : E -> R -> R.
#[global] Arguments set_field {R E} get {_} v r.

Ltac solve_setter :=
  match goal with
  | |- @Setter ?R ?E ?get =>
      let e := eval cbv beta delta [record_eta] in (@record_eta R _) in
      let f := constr:(fun (v : E) (r : R) => ltac:(
        let t := eval hnf in (e r) in
        match t with context C [get r] => let t' := context C [v] in exact t' end)) in
      exact f
  end.
#[export] Hint Extern 1 (Setter _) => solve_setter : typeclass_instances.

Notation "r <| f := v |>" := (set_field f v r)
  (at level 1, f at level 11, v at level 60, left associativity,
   format "r  <|  f  :=  v  |>").

(** ** Stateful code

    [SE S A] is C code that reads and writes the static variables collected in
    [S] and returns an [A], or fails. *)

Definition SE (S A : Type) : Type := S -> outcome (A * S).

#[export] Instance SE_ret S : MRet (SE S) := fun A a s => Ok (a, s).
#[export] Instance SE_bind S : MBind (SE S) := fun A B f m s =>
  match m s with Ok (a, s) => f a s | Err e => Err e end.

(** Read the state, change it, run code that has no state. *)
Definition gets {S A} (f : S -> A) : SE S A := fun s => Ok (f s, s).
Definition modify {S} (f : S -> S) : SE S unit := fun s => Ok (tt, f s).
Definition lift {S A} (m : outcome A) : SE S A := fun s => let* a := m in Ok (a, s).

(** [for (x in l) f(x)], and a loop that updates a local variable. *)
Fixpoint for_each {S A} (l : list A) (f : A -> SE S unit) : SE S unit :=
  match l with [] => mret tt | x :: l => f x;; for_each l f end.
Fixpoint for_fold {S A B} (l : list A) (b : B) (f : A -> B -> SE S B) : SE S B :=
  match l with [] => mret b | x :: l => b ← f x b; for_fold l b f end.
Definition when {S} (b : bool) (m : SE S unit) : SE S unit := if b then m else mret tt.

(** ** Tactics *)

(** Turn [_ = true]/[_ = false] on integer tests into propositions. *)
Ltac zbool :=
  repeat match goal with
  | H : (_ && _) = true |- _ => apply andb_true_iff in H; destruct H
  | H : (_ || _) = false |- _ => apply orb_false_iff in H; destruct H
  | H : negb _ = true |- _ => apply negb_true_iff in H
  | H : negb _ = false |- _ => apply negb_false_iff in H
  | H : (_ <? _) = true |- _ => apply Z.ltb_lt in H
  | H : (_ <? _) = false |- _ => apply Z.ltb_ge in H
  | H : (_ <=? _) = true |- _ => apply Z.leb_le in H
  | H : (_ <=? _) = false |- _ => apply Z.leb_gt in H
  | H : (_ =? _) = true |- _ => apply Z.eqb_eq in H
  | H : (_ =? _) = false |- _ => apply Z.eqb_neq in H
  end.

(** Case analysis on the first integer or boolean test of the goal. *)
Ltac case_test :=
  match goal with
  | |- context [ if ?a =? ?b then _ else _ ] => destruct (Z.eqb_spec a b)
  | |- context [ if ?a <? ?b then _ else _ ] => destruct (Z.ltb_spec a b)
  | |- context [ if ?a <=? ?b then _ else _ ] => destruct (Z.leb_spec a b)
  | |- context [ if ?b then _ else _ ] => let E := fresh "E" in destruct b eqn:E
  end.

(** [lia] with division and remainder by constants. *)
Ltac div_lia := zify; Z.to_euclidean_division_equations; lia.

(** Invert a monadic sequence that returned. *)
Ltac inv_ok H :=
  let a := fresh "a" in let H1 := fresh "H" in
  match type of H with
  | obind ?m ?f = Ok _ => destruct m as [a|] eqn:H1; [cbn in H | discriminate H]
  | Ok _ = Ok _ => injection H as H
  | Err _ = Ok _ => discriminate H
  end.

(** ** Lemmas on outcomes *)

Lemma bind_Ok {A B} (a : A) (f : A -> outcome B) : obind (Ok a) f = f a.
Proof. reflexivity. Qed.

Lemma bind_Err {A B} e (f : A -> outcome B) : obind (Err e) f = Err e.
Proof. reflexivity. Qed.

Lemma bind_Ok_inv {A B} (m : outcome A) (f : A -> outcome B) b :
  obind m f = Ok b -> exists a, m = Ok a /\ f a = Ok b.
Proof. destruct m as [a|]; cbn; [eauto | discriminate]. Qed.

Lemma Ok_inj {A} (a b : A) : Ok a = Ok b -> a = b.
Proof. by intros [= ->]. Qed.

Lemma bind_assoc {A B C} (m : outcome A) (f : A -> outcome B) (g : B -> outcome C) :
  obind (obind m f) g = obind m (fun a => obind (f a) g).
Proof. by destruct m. Qed.

Lemma assert_that_true b : b = true -> assert_that b = Ok tt.
Proof. by intros ->. Qed.

Lemma defined_when_true b : b = true -> defined_when b = Ok tt.
Proof. by intros ->. Qed.

Lemma is_ok_Ok {A} (a : A) : is_ok (Ok a).
Proof. by exists a. Qed.

Lemma is_ok_bind {A B} (m : outcome A) (f : A -> outcome B) :
  is_ok m -> (forall a, m = Ok a -> is_ok (f a)) -> is_ok (obind m f).
Proof. intros [a ->] Hf. cbn. by apply Hf. Qed.

Create HintDb outcomes.
Create Rewrite HintDb outcomes_rw.
#[export] Hint Resolve is_ok_Ok assert_that_true defined_when_true : outcomes.
#[export] Hint Rewrite @bind_Ok @bind_Err : outcomes_rw.

(** ** Lemmas on arrays *)

Lemma rd_lookup {A} (l : list A) (n : nat) :
  rd l (Z.of_nat n) = match l !! n with Some v => Ok v | None => Err Undefined end.
Proof.
  unfold rd. destruct (Z.leb_spec 0 (Z.of_nat n)); [|lia]. by rewrite Nat2Z.id.
Qed.

Lemma rd_Some {A} (l : list A) i v :
  0 <= i -> l !! Z.to_nat i = Some v -> rd l i = Ok v.
Proof. intros Hi Hl. unfold rd. destruct (Z.leb_spec 0 i); [|lia]. by rewrite Hl. Qed.

Lemma rd_is_ok {A} (l : list A) i :
  0 <= i < Z.of_nat (length l) -> exists v, l !! Z.to_nat i = Some v /\ rd l i = Ok v.
Proof.
  intros Hi. destruct (lookup_lt_is_Some_2 l (Z.to_nat i)) as [v Hv]; [lia|].
  exists v. split; [done|]. by apply rd_Some; [lia|].
Qed.

Lemma rd_inv {A} (l : list A) i v :
  rd l i = Ok v -> 0 <= i < Z.of_nat (length l) /\ l !! Z.to_nat i = Some v.
Proof.
  unfold rd. destruct (Z.leb_spec 0 i); [|discriminate].
  destruct (l !! Z.to_nat i) eqn:E; [|discriminate]. intros [= <-].
  apply lookup_lt_Some in E as ?. split; [lia|done].
Qed.

Lemma rd_out {A} (l : list A) i :
  ¬ 0 <= i < Z.of_nat (length l) -> rd l i = Err Undefined.
Proof.
  intros Hi. unfold rd. destruct (Z.leb_spec 0 i); [|done].
  by rewrite lookup_ge_None_2 by lia.
Qed.

Lemma wr_in {A} (l : list A) i v :
  0 <= i < Z.of_nat (length l) -> wr l i v = Ok (<[Z.to_nat i := v]> l).
Proof.
  intros Hi. unfold wr.
  destruct (Z.leb_spec 0 i), (Z.ltb_spec i (Z.of_nat (length l))); (done || lia).
Qed.

Lemma wr_inv {A} (l l' : list A) i v :
  wr l i v = Ok l' -> 0 <= i < Z.of_nat (length l) /\ l' = <[Z.to_nat i := v]> l.
Proof.
  unfold wr. destruct (Z.leb_spec 0 i), (Z.ltb_spec i (Z.of_nat (length l))); cbn;
    intros [=]; done.
Qed.

Lemma rd_wr_eq {A} (l l' : list A) i v : wr l i v = Ok l' -> rd l' i = Ok v.
Proof.
  intros (Hi & ->)%wr_inv. apply rd_Some; [lia|]. apply list_lookup_insert_eq. lia.
Qed.

Lemma rd_wr_ne {A} (l l' : list A) i j v : wr l i v = Ok l' -> i <> j -> rd l' j = rd l j.
Proof.
  intros (Hi & ->)%wr_inv Hne. unfold rd. destruct (Z.leb_spec 0 j); [|done]. by rewrite list_lookup_insert_ne by lia.
Qed.

Lemma assert_that_inv {A} b (f : unit -> outcome A) x : obind (assert_that b) f = Ok x -> b = true /\ f tt = Ok x.
Proof. by destruct b. Qed.

Lemma rd_app {A} (pre s post : list A) (n : nat) v :
  s !! n = Some v -> rd (pre ++ s ++ post) (Z.of_nat (length pre) + Z.of_nat n) = Ok v.
Proof.
  intros Hn. apply rd_Some; [lia|].
  rewrite lookup_app_r by lia. apply lookup_app_l_Some.
  by replace (Z.to_nat (Z.of_nat (length pre) + Z.of_nat n) - length pre)%nat with n by lia.
Qed.

Lemma wr_app {A} (pre s post : list A) (n : nat) v :
  (n < length s)%nat ->
  wr (pre ++ s ++ post) (Z.of_nat (length pre) + Z.of_nat n) v
  = Ok (pre ++ <[n := v]> s ++ post).
Proof.
  intros Hn. rewrite wr_in by (rewrite !length_app; lia). f_equal.
  rewrite insert_app_r_alt by lia.
  replace (Z.to_nat (Z.of_nat (length pre) + Z.of_nat n) - length pre)%nat with n by lia.
  by rewrite insert_app_l.
Qed.

(** ** Lemmas on machine integers *)

Lemma u32_range x : 0 <= u32 x < 2 ^ 32.
Proof. apply Z.mod_pos_bound. lia. Qed.

Lemma u64_range x : 0 <= u64 x < 2 ^ 64.
Proof. apply Z.mod_pos_bound. lia. Qed.

Lemma u8_range x : 0 <= u8 x < 2 ^ 8.
Proof. apply Z.mod_pos_bound. lia. Qed.

Lemma u32_small x : 0 <= x < 2 ^ 32 -> u32 x = x.
Proof. apply Z.mod_small. Qed.

Lemma u64_small x : 0 <= x < 2 ^ 64 -> u64 x = x.
Proof. apply Z.mod_small. Qed.

Lemma u8_small x : 0 <= x < 2 ^ 8 -> u8 x = x.
Proof. apply Z.mod_small. Qed.

Lemma u8_idemp x : u8 (u8 x) = u8 x.
Proof. apply u8_small, u8_range. Qed.

Lemma s32_small x : - 2 ^ 31 <= x < 2 ^ 31 -> s32 x = x.
Proof. intros ?. unfold s32. rewrite Z.mod_small by lia. lia. Qed.

Lemma s64_small x : - 2 ^ 63 <= x < 2 ^ 63 -> s64 x = x.
Proof. intros ?. unfold s64. rewrite Z.mod_small by lia. lia. Qed.

Lemma int_add_ok x y : - 2 ^ 31 <= x + y < 2 ^ 31 -> int_add x y = Ok (x + y).
Proof.
  intros [H1 H2]. unfold int_add. apply Z.leb_le in H1. apply Z.ltb_lt in H2. by rewrite H1, H2.
Qed.

Lemma u64_mod_idemp_r x y : u64 (x + u64 y) = u64 (x + y).
Proof. unfold u64. by rewrite Zplus_mod_idemp_r. Qed.

Lemma land_ones_range x n : 0 <= n -> 0 <= Z.land x (2 ^ n - 1) < 2 ^ n.
Proof.
  intros Hn. replace (2 ^ n - 1) with (Z.ones n) by (rewrite Z.ones_equiv; lia).
  rewrite Z.land_ones by done. apply Z.mod_pos_bound. lia.
Qed.

(** [x & m] is at most [m]. *)
Lemma land_le_r x m : 0 <= m -> 0 <= Z.land x m <= m.
Proof.
  intros Hm. split; [apply Z.land_nonneg; lia|].
  destruct (decide (Z.land x m <= m)) as [|Hgt]; [done|exfalso].
  assert (Hdec : m = Z.land x m + Z.ldiff m x).
  { rewrite (Z.land_comm x m). rewrite Z.add_nocarry_lxor.
    - apply Z.bits_inj'. intros k Hk.
      rewrite Z.lxor_spec, Z.land_spec, Z.ldiff_spec.
      by destruct (Z.testbit m k), (Z.testbit x k).
    - apply Z.bits_inj'. intros k Hk.
      rewrite !Z.land_spec, Z.ldiff_spec, Z.bits_0.
      by destruct (Z.testbit m k), (Z.testbit x k). }
  assert (0 <= Z.ldiff m x) by (apply Z.ldiff_nonneg; lia). lia.
Qed.

Lemma testbit_above x n k : 0 <= x < 2 ^ n -> n <= k -> Z.testbit x k = false.
Proof.
  intros Hx Hk. destruct (decide (x = 0)) as [->|]; [apply Z.bits_0|].
  destruct (Z.lt_ge_cases n 0); [rewrite Z.pow_neg_r in Hx; lia|].
  apply Z.bits_above_log2; [lia|]. apply Z.log2_lt_pow2; [lia|].
  apply Z.lt_le_trans with (2 ^ n); [lia|]. apply Z.pow_le_mono_r; lia.
Qed.

(** A field put above the low [n] bits. *)
Lemma lor_shiftl_low a b n : 0 <= n -> 0 <= b < 2 ^ n -> Z.lor (Z.shiftl a n) b = a * 2 ^ n + b.
Proof.
  intros Hn Hb.
  assert (Hnc : Z.land (Z.shiftl a n) b = 0).
  { apply Z.bits_inj'. intros k Hk. rewrite Z.land_spec, Z.bits_0.
    destruct (Z.lt_ge_cases k n).
    - by rewrite Z.shiftl_spec_low.
    - by rewrite (testbit_above b n k), andb_false_r by lia. }
  by rewrite <-Z.lxor_lor, <-Z.add_nocarry_lxor, Z.shiftl_mul_pow2.
Qed.

(** ** Lemmas on lists *)

Lemma sum_list_insert (l : list nat) i v w :
  l !! i = Some w -> (sum_list (<[i := v]> l) + w = sum_list l + v)%nat.
Proof.
  revert i. induction l as [|x l IH]; intros [|i] H; simplify_eq/=; [lia|].
  specialize (IH i H). lia.
Qed.

Lemma take_drop_split {A} (l : list A) a n :
  (a + n <= length l)%nat ->
  l = take a l ++ take n (drop a l) ++ drop (a + n) l.
Proof.
  intros H. rewrite <-(take_drop a l) at 1. f_equal.
  rewrite <-drop_drop. symmetry. apply take_drop.
Qed.

Lemma elem_of_rev {A} (x : A) l : x ∈ rev l <-> x ∈ l.
Proof. by rewrite !list_elem_of_In, <-in_rev. Qed.

(** ** Reasoning about stateful code

    [triple P m Q]: from a state satisfying [P], [m] returns, with a result and
    a state satisfying [Q] (total correctness). *)

Definition triple {S A} (P : S -> Prop) (m : SE S A) (Q : A -> S -> Prop) : Prop :=
  forall s, P s -> exists a s', m s = Ok (a, s') /\ Q a s'.

Lemma SE_bind_inv {S A B} (m : SE S A) (f : A -> SE S B) s b s' :
  (m ≫= f) s = Ok (b, s') -> exists a s1, m s = Ok (a, s1) /\ f a s1 = Ok (b, s').
Proof. unfold mbind, SE_bind. destruct (m s) as [[a s1]|]; [eauto|done]. Qed.

Section Triples.
Context {S : Type}.
Implicit Types P : S -> Prop.

Lemma triple_ret {A} (a : A) P (Q : A -> S -> Prop) :
  (forall s, P s -> Q a s) -> triple P (mret a) Q.
Proof. intros H s Hs. exists a, s. split; [done|auto]. Qed.

Lemma triple_bind {A B} (m : SE S A) (f : A -> SE S B) P (R : A -> S -> Prop) Q :
  triple P m R -> (forall a, triple (R a) (f a) Q) -> triple P (m ≫= f) Q.
Proof.
  intros Hm Hf s Hs. destruct (Hm s Hs) as (a & s1 & E1 & H1).
  destruct (Hf a s1 H1) as (b & s2 & E2 & H2). exists b, s2. split; [|done].
  unfold mbind, SE_bind. by rewrite E1.
Qed.

Lemma triple_conseq {A} (m : SE S A) P P' (Q Q' : A -> S -> Prop) :
  triple P' m Q' -> (forall s, P s -> P' s) -> (forall a s, Q' a s -> Q a s) -> triple P m Q.
Proof.
  intros Hm HP HQ s Hs. destruct (Hm s (HP s Hs)) as (a & s' & E & H). exists a, s'. auto.
Qed.

Lemma triple_gets {A} (f : S -> A) P : triple P (gets f) (fun a s => P s /\ a = f s).
Proof. intros s Hs. by exists (f s), s. Qed.

Lemma triple_modify (f : S -> S) P (Q : unit -> S -> Prop) :
  (forall s, P s -> Q tt (f s)) -> triple P (modify f) Q.
Proof. intros H s Hs. exists tt, (f s). split; [done|auto]. Qed.

Lemma triple_lift {A} (m : outcome A) P (Q : A -> S -> Prop) :
  (forall s, P s -> exists a, m = Ok a /\ Q a s) -> triple P (lift m) Q.
Proof. intros H s Hs. destruct (H s Hs) as (a & -> & Ha). by exists a, s. Qed.

Lemma triple_when (b : bool) (m : SE S unit) P (Q : unit -> S -> Prop) :
  triple P m Q -> (forall s, P s -> Q tt s) -> triple P (when b m) Q.
Proof. intros Hm H. destruct b; [done|]. by apply triple_ret. Qed.

(** A loop preserves an invariant that its body preserves. *)
Lemma triple_for_each {A} (l : list A) (f : A -> SE S unit) P :
  (forall x, x ∈ l -> triple P (f x) (fun _ => P)) -> triple P (for_each l f) (fun _ => P).
Proof.
  induction l as [|x l IH]; intros Hf; cbn [for_each]; [by apply triple_ret|].
  apply triple_bind with (R := fun _ => P); [apply Hf; left|].
  intros _. apply IH. intros y Hy. apply Hf. by right.
Qed.

Lemma triple_pre {A} (m : SE S A) P Q : (forall s, P s -> triple (eq s) m Q) -> triple P m Q.
Proof. intros H s Hs. by apply (H s Hs). Qed.

End Triples.

(** [preserves R m]: when [m] returns, the old and the new state are related. *)
Definition preserves {S A} (R : S -> S -> Prop) (m : SE S A) : Prop :=
  forall s a s', m s = Ok (a, s') -> R s s'.

Section Preserves.
Context {S : Type} (R : S -> S -> Prop) `{!PreOrder R}.

Lemma preserves_ret {A} (a : A) : preserves R (mret a).
Proof. intros s b s' [= <- <-]. reflexivity. Qed.

Lemma preserves_gets {A} (f : S -> A) : preserves R (gets f).
Proof. intros s b s' [= <- <-]. reflexivity. Qed.

Lemma preserves_lift {A} (m : outcome A) : preserves R (lift m).
Proof. intros s b s'. unfold lift. destruct m; intros [= <- <-]. reflexivity. Qed.

Lemma preserves_bind {A B} (m : SE S A) (f : A -> SE S B) :
  preserves R m -> (forall a, preserves R (f a)) -> preserves R (m ≫= f).
Proof.
  intros Hm Hf s b s'. unfold mbind, SE_bind. destruct (m s) as [[a s1]|] eqn:E; [|done].
  intros E2. etrans; [by eapply Hm | by eapply Hf].
Qed.

Lemma preserves_when b (m : SE S unit) : preserves R m -> preserves R (when b m).
Proof. destruct b; [done|]. intros _. apply preserves_ret. Qed.

Lemma preserves_for_each {A} (l : list A) (f : A -> SE S unit) :
  (forall x, preserves R (f x)) -> preserves R (for_each l f).
Proof.
  intros Hf. induction l as [|x l IH]; cbn [for_each]; [apply preserves_ret|].
  by apply preserves_bind.
Qed.

End Preserves.

Create HintDb preserves.
#[export] Hint Resolve preserves_ret preserves_gets preserves_lift preserves_bind preserves_when
  preserves_for_each : preserves.

(** ** Equality of stateful code

    Two pieces of code are equal when they do the same from every state. *)

Definition same_code {S A} (m1 m2 : SE S A) : Prop := forall s, m1 s = m2 s.
Infix "≈" := same_code (at level 70) : outcome_scope.

#[export] Instance same_code_equiv {S A} : Equivalence (@same_code S A).
Proof.
  split; [by intros m s | by intros m1 m2 H s | intros m1 m2 m3 H1 H2 s].
  by rewrite (H1 s).
Qed.

Section SameCode.
Context {S : Type}.

#[export] Instance bind_proper {A B} :
  Proper (@same_code S A ==> pointwise_relation A (@same_code S B) ==> @same_code S B)
    (fun m f => m ≫= f).
Proof.
  intros m1 m2 Hm f1 f2 Hf s. unfold mbind, SE_bind. rewrite (Hm s).
  destruct (m2 s) as [[a s']|]; [apply Hf|done].
Qed.

Lemma same_bind {A B} (m1 m2 : SE S A) (f1 f2 : A -> SE S B) :
  m1 ≈ m2 -> (forall a, f1 a ≈ f2 a) -> (m1 ≫= f1) ≈ (m2 ≫= f2).
Proof. intros Hm Hf. by apply bind_proper. Qed.

Lemma bind_bind {A B C} (m : SE S A) (f : A -> SE S B) (g : B -> SE S C) :
  ((m ≫= f) ≫= g) ≈ (m ≫= (fun a => f a ≫= g)).
Proof. intros s. unfold mbind, SE_bind. by destruct (m s) as [[a s']|]. Qed.

Lemma ret_bind {A B} (a : A) (f : A -> SE S B) : (mret a ≫= f) ≈ f a.
Proof. done. Qed.

Lemma bind_ret {A} (m : SE S A) : (m ≫= mret) ≈ m.
Proof. intros s. unfold mbind, SE_bind. by destruct (m s) as [[a s']|]. Qed.

Lemma bind_tt (m : SE S unit) : (m;; mret tt) ≈ m.
Proof. intros s. unfold mbind, SE_bind. by destruct (m s) as [[[] s']|]. Qed.

Lemma for_each_app {A} (l1 l2 : list A) (f : A -> SE S unit) :
  for_each (l1 ++ l2) f ≈ (for_each l1 f;; for_each l2 f).
Proof.
  induction l1 as [|x l1 IH]; cbn [for_each app]; [done|].
  rewrite bind_bind. apply same_bind; [done|]. intros _. exact IH.
Qed.

End SameCode.
