(* ===== verification/Float.v ===== *)
(** * Floating-point numbers

    The [double]s and [float]s of the C code, on the IEEE arithmetic of the
    Standard Library. *)

From Stdlib Require Import SpecFloat.
From S2P Require Import Prelude.

(** ** Double precision *)

Definition double : Type := spec_float.
Definition double_of_Z (z : Z) : double := binary_normalize 53 1024 z 0 false.
Definition double_mul (x y : double) : double := SFmul 53 1024 x y.
Definition double_div (x y : double) : double := SFdiv 53 1024 x y.
Definition double_add (x y : double) : double := SFadd 53 1024 x y.
Definition double_sub (x y : double) : double := SFsub 53 1024 x y.
Definition one_half : double := S754_finite false 4503599627370496 (-53).

(** The integer part of a [double], as [(int)val] truncates it. *)
Definition double_trunc (x : double) : Z :=
  match x with
  | S754_finite s m e =>
      let a := if 0 <=? e then Z.shiftl (Zpos m) e else Z.shiftr (Zpos m) (- e) in
      if s then - a else a
  | _ => 0
  end.

(** Whether [x] is a number, and not infinite. *)
Definition double_finite (x : double) : bool :=
  match x with S754_zero _ | S754_finite _ _ _ => true | _ => false end.

(** [(ULong)x]: not defined for what is no number, or out of range. *)
Definition double_to_ULong (x : double) : outcome Z :=
  let* _ := defined_when (double_finite x && (0 <=? double_trunc x) && (double_trunc x <? 2 ^ 64)) in
  Ok (double_trunc x).

(** ** Single precision *)

(** A [float] is kept as the [double] of the same value: what a [double] stored
    to a [float], and an integer converted to one, are rounded to. *)
Definition to_float (x : double) : double :=
  match x with
  | S754_finite s m e =>
      match binary_round 24 128 s m e with
      | S754_finite s m e => binary_round 53 1024 s m e
      | y => y
      end
  | _ => x
  end.
Definition float_of_Z (z : Z) : double :=
  match binary_normalize 24 128 z 0 false with
  | S754_finite s m e => binary_round 53 1024 s m e
  | y => y
  end.

(** Products and quotients of [float]s: those of the [double]s, rounded once
    more, which gives the [float] result as a [double] has more than twice as
    many digits. *)
Definition float_mul (x y : double) : double := to_float (double_mul x y).
Definition float_div (x y : double) : double := to_float (double_div x y).
