(* ===== verification/LibcBase.v ===== *)
(** * The parts of coregrind/m_libcbase.c that Cachegrind relies on

    C strings are Coq [string]s: the characters before the terminating NUL.  A
    pointer into a string is the suffix it points at, and [NULL] is [None].
    [VG_(name)] is written [VG_name]. *)

From S2P Require Import Prelude.

(** ** Characters *)

(** The value of a character read as [UChar]. *)
Definition code (c : Ascii.ascii) : Z := Z.of_N (Ascii.N_of_ascii c).

(** [*str]: the first character, NUL at the end of the string. *)
Definition hd0 (s : string) : Z :=
  match s with EmptyString => 0 | String c _ => code c end.

(** [str + 1]. *)
Definition tl0 (s : string) : string :=
  match s with EmptyString => EmptyString | String _ s' => s' end.

(** No NUL inside: what every C string satisfies. *)
Fixpoint nul_free (s : string) : bool :=
  match s with
  | EmptyString => true
  | String c s' => negb (code c =? 0) && nul_free s'
  end.

Definition VG_isspace (c : Z) : bool :=
  (c =? 32) || (c =? 10) || (c =? 9) || (c =? 12) || (c =? 11) || (c =? 13).

Definition VG_isdigit (c : Z) : bool := (48 <=? c) && (c <=? 57).

(** Returns the digit's value through the out parameter. *)
Definition is_dec_digit (c : Z) : option Z :=
  if (48 <=? c) && (c <=? 57) then Some (c - 48) else None.

(** ** Converting strings to numbers *)

(** [while (VG_(isspace)( *str)) str++;] *)
Fixpoint skip_spaces (s : string) : string :=
  match s with
  | EmptyString => s
  | String c s' => if VG_isspace (code c) then skip_spaces s' else s
  end.

(** The value computed for a [Long] by [10*n + digit]; signed overflow is
    undefined. *)
Definition long_in_range (n : Z) : bool := (- 2 ^ 63 <=? n) && (n <? 2 ^ 63).

(** The digit loop of [VG_(strtoll10)]: the number, whether a digit was
    converted, and the rest of the string. *)
Fixpoint dec_digits (s : string) (n : Z) (converted : bool) : outcome (Z * bool * string) :=
  match is_dec_digit (hd0 s), s with
  | Some digit, String _ s' =>
      let* _ := defined_when (long_in_range (10 * n + digit)) in
      dec_digits s' (10 * n + digit) true
  | _, _ => Ok (n, converted, s)
  end.

(** The number and the end pointer. *)
Definition VG_strtoll10 (str : string) : outcome (Z * string) :=
  let str0 := str in
  let str := skip_spaces str in
  let '(neg, str) :=
    if hd0 str =? 45 then (true, tl0 str)
    else if hd0 str =? 43 then (false, tl0 str)
    else (false, str) in
  let* (n, converted, str) := dec_digits str 0 false in
  let str := if converted then str else str0 in
  let n := if neg then - n else n in
  Ok (n, str).

(** ** String functions *)

Fixpoint VG_strlen (str : string) : Z :=
  match str with
  | EmptyString => 0
  | String c s' => if code c =? 0 then 0 else 1 + VG_strlen s'
  end.

Fixpoint VG_strcmp (s1 s2 : string) : Z :=
  if hd0 s1 <? hd0 s2 then -1
  else if hd0 s2 <? hd0 s1 then 1
  else if hd0 s1 =? 0 then 0
  else match s1 with
       | EmptyString => 0
       | String _ s1' => VG_strcmp s1' (tl0 s2)
       end.

(** [nmax] counts down what the code counts up to. *)
Fixpoint VG_strncmp (s1 s2 : string) (nmax : nat) : Z :=
  match nmax with
  | O => 0
  | S nmax' =>
      if hd0 s1 <? hd0 s2 then -1
      else if hd0 s2 <? hd0 s1 then 1
      else if hd0 s1 =? 0 then 0
      else VG_strncmp (tl0 s1) (tl0 s2) nmax'
  end.

(** For a [haystack] that is not [NULL]. *)
Fixpoint VG_strstr (haystack needle : string) : option string :=
  match haystack with
  | EmptyString => None
  | String c rest =>
      if code c =? 0 then None
      else if VG_strncmp haystack needle (Z.to_nat (VG_strlen needle)) =? 0
      then Some haystack
      else VG_strstr rest needle
  end.

(** [s[n]] of a string. *)
Fixpoint char_at (s : string) (n : nat) : Z :=
  match n, s with
  | O, _ => hd0 s
  | S n', String _ s' => char_at s' n'
  | S _, EmptyString => 0
  end.

(** [while (--n > 0) { if (s[n] == c) return s + n; }]: the offset. *)
Fixpoint strrchr_loop (s : string) (c : Z) (n : nat) : option nat :=
  match n with
  | O => None
  | S n' => if (0 <? Z.of_nat n') && (char_at s n' =? c) then Some n'
            else strrchr_loop s c n'
  end.

Definition VG_strrchr (s : string) (c : Z) : option nat :=
  strrchr_loop s c (Z.to_nat (VG_strlen s)).

(** ** Miscellaneous *)

(** [for (i = ...; i < limit; i++) if ((1 << i) == x) return i; return -1;]
    with [n] iterations to go. *)
Fixpoint log2_loop (n : nat) (i x : Z) : Z :=
  match n with
  | O => -1
  | S n' => if Z.shiftl 1 i =? x then i else log2_loop n' (i + 1) x
  end.

(** [x] is a [UInt]. *)
Definition VG_log2 (x : Z) : Z := log2_loop 32 0 x.

(** [x] is a [ULong]. *)
Definition VG_log2_64 (x : Z) : Z := log2_loop 64 0 x.

#[global] Arguments VG_log2 : simpl never.
#[global] Arguments VG_log2_64 : simpl never.

(** [VG_(random)(pSeed)]: the new value of the seed is also the result. *)
Definition VG_random (seed : Z) : Z := u32 (1103515245 * seed + 12345).

(** ** Lemmas *)

Lemma code_range c : 0 <= code c < 256.
Proof.
  unfold code. pose proof (Ascii.N_ascii_bounded c). lia.
Qed.

Lemma code_inj c d : code c = code d -> c = d.
Proof.
  unfold code. intros H. apply N2Z.inj in H.
  by rewrite <-(Ascii.ascii_N_embedding c), H, Ascii.ascii_N_embedding.
Qed.

Lemma hd0_range s : 0 <= hd0 s < 256.
Proof. destruct s; cbn; [lia | apply code_range]. Qed.

Lemma nul_free_cons c s : nul_free (String c s) = true -> code c <> 0 /\ nul_free s = true.
Proof. cbn. intros H. zbool. auto. Qed.

Lemma VG_strlen_length s : nul_free s = true -> VG_strlen s = Z.of_nat (String.length s).
Proof.
  induction s as [|c s IH]; [done|]. intros [Hc Hs]%nul_free_cons. cbn [VG_strlen String.length].
  apply Z.eqb_neq in Hc. rewrite Hc, IH by done. lia.
Qed.

Lemma log2_loop_spec n i x :
  0 <= i ->
  (exists k, 0 <= k < Z.of_nat n /\ x = 2 ^ (i + k) /\ log2_loop n i x = i + k)
  \/ ((forall k, 0 <= k < Z.of_nat n -> x <> 2 ^ (i + k)) /\ log2_loop n i x = -1).
Proof.
  revert i. induction n as [|n IH]; intros i Hi; cbn [log2_loop].
  - right. split; [intros; lia | done].
  - rewrite Z.shiftl_1_l. destruct (Z.eqb_spec (2 ^ i) x) as [<-|Hne].
    + left. exists 0. rewrite Z.add_0_r. split; [lia|done].
    + destruct (IH (i + 1) ltac:(lia)) as [(k & Hk & -> & ->)|[Hno ->]].
      * left. exists (k + 1). replace (i + 1 + k) with (i + (k + 1)) by lia.
        split; [lia|done].
      * right. split; [|done]. intros k Hk ->.
        destruct (decide (k = 0)) as [->|]; [by rewrite Z.add_0_r in Hne|].
        apply (Hno (k - 1)); [lia|]. f_equal. lia.
Qed.

(** [VG_(log2)] inverts the powers of two that fit in a [UInt]. *)
Lemma VG_log2_pow2 k : 0 <= k < 32 -> VG_log2 (2 ^ k) = k.
Proof.
  intros Hk. unfold VG_log2.
  destruct (log2_loop_spec 32 0 (2 ^ k) ltac:(lia)) as [(j & Hj & Heq & ->)|[Hno _]].
  - rewrite Z.add_0_l in *. symmetry. apply (Z.pow_inj_r 2); lia.
  - exfalso. by apply (Hno k).
Qed.

(** When it does not return [-1], its argument is that power of two. *)
Lemma VG_log2_inv x : VG_log2 x <> -1 -> 0 <= VG_log2 x < 32 /\ x = 2 ^ VG_log2 x.
Proof.
  unfold VG_log2. destruct (log2_loop_spec 32 0 x ltac:(lia)) as [(j & Hj & -> & ->)|[_ ->]].
  - intros _. split; [lia | done].
  - done.
Qed.

Lemma VG_log2_range x : -1 <= VG_log2 x < 32.
Proof.
  destruct (decide (VG_log2 x = -1)) as [->|H]; [lia|].
  apply VG_log2_inv in H. lia.
Qed.

Lemma VG_log2_64_inv x : VG_log2_64 x <> -1 -> 0 <= VG_log2_64 x < 64 /\ x = 2 ^ VG_log2_64 x.
Proof.
  unfold VG_log2_64. destruct (log2_loop_spec 64 0 x ltac:(lia)) as [(j & Hj & -> & ->)|[_ ->]].
  - intros _. split; [lia | done].
  - done.
Qed.

Lemma VG_log2_64_none x k : VG_log2_64 x = -1 -> 0 <= k < 64 -> x <> 2 ^ k.
Proof.
  unfold VG_log2_64. destruct (log2_loop_spec 64 0 x ltac:(lia)) as [(j & Hj & -> & ->)|[Hno _]].
  - lia.
  - intros _ Hk ->. by apply (Hno k).
Qed.

(** *** Comparison *)

Lemma VG_strcmp_refl s : VG_strcmp s s = 0.
Proof.
  induction s as [|c s IH]; cbn; [done|].
  destruct (Z.ltb_spec (code c) (code c)); [lia|]. by case_test.
Qed.

Lemma VG_strcmp_antisym s1 s2 : VG_strcmp s2 s1 = - VG_strcmp s1 s2.
Proof.
  revert s2. induction s1 as [|c s1 IH]; intros [|d s2]; cbn; [done|..].
  - pose proof (code_range d). repeat case_test; lia.
  - pose proof (code_range c). repeat case_test; lia.
  - repeat case_test; try lia. apply IH.
Qed.

Lemma VG_strcmp_range s1 s2 : VG_strcmp s1 s2 = -1 \/ VG_strcmp s1 s2 = 0 \/ VG_strcmp s1 s2 = 1.
Proof.
  revert s2. induction s1 as [|c s1 IH]; intros s2; cbn; repeat case_test; auto.
Qed.

Lemma VG_strcmp_eq s1 s2 :
  nul_free s1 = true -> nul_free s2 = true -> VG_strcmp s1 s2 = 0 -> s1 = s2.
Proof.
  revert s2. induction s1 as [|c s1 IH]; intros [|d s2] H1 H2; cbn; [done|..].
  - apply nul_free_cons in H2 as [Hd _]. pose proof (code_range d). repeat case_test; lia.
  - apply nul_free_cons in H1 as [Hc _]. pose proof (code_range c). repeat case_test; lia.
  - apply nul_free_cons in H1 as [Hc H1], H2 as [Hd H2].
    repeat case_test; try lia. intros Heq. f_equal; [apply code_inj; lia | by apply IH].
Qed.

Lemma VG_strcmp_trans s1 s2 s3 :
  VG_strcmp s1 s2 < 0 -> VG_strcmp s2 s3 <= 0 -> VG_strcmp s1 s3 < 0.
Proof.
  revert s2 s3. induction s1 as [|c s1 IH]; intros [|d s2] [|e s3]; cbn; try lia;
    try pose proof (code_range c); try pose proof (code_range d); try pose proof (code_range e);
    repeat case_test; try lia; intros; (eapply IH; eassumption) || lia.
Qed.

Lemma strcmp_eq_lt s1 s2 s3 : VG_strcmp s1 s2 = 0 -> VG_strcmp s2 s3 < 0 -> VG_strcmp s1 s3 < 0.
Proof.
  intros H12 H23. destruct (Z.lt_ge_cases (VG_strcmp s1 s3) 0) as [|Hge]; [done|exfalso].
  pose proof (VG_strcmp_trans s2 s3 s1 H23) as Ht. rewrite (VG_strcmp_antisym s1 s3) in Ht.
  rewrite (VG_strcmp_antisym s1 s2) in Ht. lia.
Qed.

(** Three strings, two by two. *)
Lemma strcmp_facts s1 s2 s3 :
  VG_strcmp s2 s1 = - VG_strcmp s1 s2
  /\ (VG_strcmp s1 s2 < 0 -> VG_strcmp s2 s3 <= 0 -> VG_strcmp s1 s3 < 0)
  /\ (VG_strcmp s1 s2 = 0 -> VG_strcmp s2 s3 < 0 -> VG_strcmp s1 s3 < 0)
  /\ (VG_strcmp s1 s2 = 0 -> VG_strcmp s2 s3 = 0 -> VG_strcmp s1 s3 = 0).
Proof.
  split; [apply VG_strcmp_antisym|]. split; [apply VG_strcmp_trans|]. split; [apply strcmp_eq_lt|].
  intros H12 H23. pose proof (strcmp_eq_lt s2 s1 s3) as Ha. pose proof (strcmp_eq_lt s2 s3 s1) as Hb.
  pose proof (VG_strcmp_antisym s1 s2). pose proof (VG_strcmp_antisym s1 s3).
  pose proof (VG_strcmp_antisym s2 s3). lia.
Qed.

(** *** Random numbers *)

Lemma VG_random_range seed : 0 <= VG_random seed < 2 ^ 32.
Proof. apply u32_range. Qed.

(** The low two bits of the generator count up. *)
Lemma VG_random_low_bits seed : VG_random seed mod 4 = (seed + 1) mod 4.
Proof.
  unfold VG_random, u32.
  rewrite Z.mod_mod_divide by (by exists (2 ^ 30)).
  replace (1103515245 * seed + 12345) with ((seed + 1) + (275878811 * seed + 3086) * 4) by lia.
  apply Z_mod_plus_full.
Qed.
