(* ===== verification/SeqMatch.v ===== *)
(** * Sequence matching: coregrind/m_seqmatch.c

    [VG_(generic_match)] on arrays of any elements, or on an input that a
    completer makes up, and [VG_(string_match)], the matching of a string with
    a pattern of ['*']s and ['?']s; the relation the comment of the code
    specifies, and the proof that the code decides it. *)

From S2P Require Import Prelude LibcBase.

(** ** The code *)

Section GenericMatch.
Context {P I : Type}.
Context (matchAll : bool) (patt : list P) (nPatt : Z) (input : list I) (nInput : Z).
Context (pIsStar pIsQuery : P -> bool).

(** The comparison is given the element of the input or [NULL], and its index. *)
Context (pattEQinp : P -> option I -> Z -> outcome bool).

(** [haveInputInpC] of the completer, if there is one. *)
Context (inputCompleter : option (Z -> bool)).

Definition no_completer : bool := match inputCompleter with None => true | Some _ => false end.

Definition have_input (ixInput : Z) : bool :=
  match inputCompleter with Some have => have ixInput | None => ixInput <? nInput end.

(** A [goto tailcall] is a call, like the recursive one. *)
Fixpoint generic_match (fuel : nat) (ixPatt ixInput : Z) : outcome bool :=
  match fuel with
  | O => Err OutOfFuel
  | S fuel =>
      let* _ := assert_that ((0 <=? nPatt) && (nPatt <? 1000000)) in
      let* _ := assert_that (negb no_completer || ((0 <=? nInput) && (nInput <? 1000000))) in
      let* _ := assert_that ((0 <=? ixPatt) && (ixPatt <=? nPatt)) in
      let* _ := assert_that ((0 <=? ixInput) && (negb no_completer || (ixInput <=? nInput))) in
      let havePatt := ixPatt <? nPatt in
      let haveInput := have_input ixInput in
      if havePatt then
        let* currPatt := rd patt ixPatt in
        if pIsStar currPatt then
          if haveInput then
            let* rest := generic_match fuel (u64 (ixPatt + 1)) ixInput in
            if (rest : bool) then Ok true else generic_match fuel ixPatt (u64 (ixInput + 1))
          else generic_match fuel (u64 (ixPatt + 1)) ixInput
        else if pIsQuery currPatt then
          if haveInput then generic_match fuel (u64 (ixPatt + 1)) (u64 (ixInput + 1)) else Ok false
        else if haveInput then
          let* currInput := if no_completer then let* i := rd input ixInput in Ok (Some i) else Ok None in
          let* eq := pattEQinp currPatt currInput ixInput in
          if negb eq then Ok false else generic_match fuel (u64 (ixPatt + 1)) (u64 (ixInput + 1))
        else Ok false
      else if haveInput then Ok (if matchAll then false else true)
      else Ok true
  end.

End GenericMatch.

(** *** Strings *)

(** The characters before the terminating NUL. *)
Definition chars_of (s : string) : list Z := map code (String.list_ascii_of_string s).

Definition charIsStar (c : Z) : bool := c =? 42.
Definition charIsQuery (c : Z) : bool := c =? 63.
Definition char_p_EQ_i (p : Z) (c : option Z) (ixc : Z) : outcome bool :=
  let* _ := assert_that (negb (charIsStar p) && negb (charIsQuery p)) in
  match c with Some c => Ok (p =? c) | None => Err Undefined end.

Definition VG_string_match (patt input : string) : outcome bool :=
  generic_match true (chars_of patt) (VG_strlen patt) (chars_of input) (VG_strlen input)
    charIsStar charIsQuery char_p_EQ_i None
    (S (String.length patt + String.length input)) 0 0.

(** ** The specification *)

Section Spec.
Context {P J : Type} (star query : P -> bool) (eqv : P -> J -> bool).

(** A ['*'] stands for any sequence, a ['?'] for any element. *)
Inductive matches : list P -> list J -> Prop :=
| matches_nil : matches [] []
| matches_star_none p ps l : star p = true -> matches ps l -> matches (p :: ps) l
| matches_star_more p ps i l : star p = true -> matches (p :: ps) l -> matches (p :: ps) (i :: l)
| matches_query p ps i l : star p = false -> query p = true -> matches ps l -> matches (p :: ps) (i :: l)
| matches_elem p ps i l :
    star p = false -> query p = false -> eqv p i = true -> matches ps l -> matches (p :: ps) (i :: l).

(** All of the input, or a prefix of it. *)
Definition accepted (matchAll : bool) (ps : list P) (l : list J) : Prop :=
  if matchAll then matches ps l else exists k, matches ps (take k l).

Lemma matches_star_iff p ps i l : star p = true ->
  matches (p :: ps) (i :: l) <-> matches ps (i :: l) \/ matches (p :: ps) l.
Proof.
  intros Hp. split.
  - inversion 1; subst; try congruence; tauto.
  - intros [H|H]; [by apply matches_star_none|by apply matches_star_more].
Qed.

Lemma matches_star_nil p ps : star p = true -> matches (p :: ps) [] <-> matches ps [].
Proof. intros Hp. split; [by inversion 1|]. by apply matches_star_none. Qed.

(** An element that is no star takes one of the input. *)
Lemma matches_one_iff p ps i l : star p = false ->
  matches (p :: ps) (i :: l) <-> (query p = true \/ eqv p i = true) /\ matches ps l.
Proof.
  intros Hp. split; [inversion 1; subst; try congruence; tauto|].
  intros [Hm Hl]. destruct (query p) eqn:Hq; [by apply matches_query|].
  apply matches_elem; try done. by destruct Hm.
Qed.

Lemma matches_one_nil p ps : star p = false -> ~ matches (p :: ps) [].
Proof. intros Hp. inversion 1; subst; congruence. Qed.

Lemma accepted_star a p ps i l : star p = true ->
  accepted a (p :: ps) (i :: l) <-> accepted a ps (i :: l) \/ accepted a (p :: ps) l.
Proof.
  intros Hp. destruct a; [by apply matches_star_iff|]. split.
  - intros [[|k] H]; cbn in H.
    + apply (proj1 (matches_star_nil _ _ Hp)) in H. left. exists 0%nat; exact H.
    + apply (matches_star_iff _ _ _ _ Hp) in H as [H|H]; [left; exists (S k); exact H|right; exists k; exact H].
  - intros [[k H]|[k H]]; [exists k; by apply matches_star_none|exists (S k); by apply matches_star_more].
Qed.

Lemma accepted_star_nil a p ps : star p = true -> accepted a (p :: ps) [] <-> accepted a ps [].
Proof.
  intros Hp. destruct a; [by apply matches_star_nil|]. cbn. setoid_rewrite firstn_nil.
  by setoid_rewrite (matches_star_nil p ps Hp).
Qed.

Lemma accepted_one a p ps i l : star p = false ->
  accepted a (p :: ps) (i :: l) <-> (query p = true \/ eqv p i = true) /\ accepted a ps l.
Proof.
  intros Hp. destruct a; [by apply matches_one_iff|]. split.
  - intros [[|k] H]; cbn in H; [by apply matches_one_nil in H|].
    apply (matches_one_iff _ _ _ _ Hp) in H as [Hm H]. split; [done|by exists k].
  - intros [Hm [k H]]. exists (S k). by apply matches_one_iff.
Qed.

Lemma accepted_one_nil a p ps : star p = false -> ~ accepted a (p :: ps) [].
Proof.
  intros Hp. destruct a; [by apply matches_one_nil|]. intros [k H]. rewrite firstn_nil in H.
  by apply matches_one_nil in H.
Qed.

Lemma accepted_no_patt a l : accepted a [] l <-> a = false \/ l = [].
Proof.
  destruct a; cbn.
  - split; [inversion 1; tauto|]. intros [?| ->]; [done|constructor].
  - split; [tauto|]. intros _. exists 0%nat. constructor.
Qed.
End Spec.

(** ** The code decides it *)

Lemma drop_cons_inv {A} n (l : list A) x r :
  drop n l = x :: r -> l !! n = Some x /\ drop (S n) l = r /\ (n < length l)%nat.
Proof.
  intros E. assert (Hx : l !! n = Some x) by (rewrite <-(Nat.add_0_r n), <-lookup_drop, E; done).
  split; [done|]. rewrite (drop_S _ _ _ Hx) in E. split; [by injection E|]. by apply lookup_lt_Some in Hx.
Qed.

Lemma drop_nil_inv {A} n (l : list A) : drop n l = [] -> (length l <= n)%nat.
Proof. intros E. apply (f_equal length) in E. rewrite length_drop in E. cbn in E. lia. Qed.

Section Correct.
Context {P I J : Type}.
Context (matchAll : bool) (patt : list P) (nPatt : Z) (input : list I) (nInput : Z).
Context (pIsStar pIsQuery : P -> bool) (pattEQinp : P -> option I -> Z -> outcome bool).
Context (inputCompleter : option (Z -> bool)).

(** The input the code sees, and the comparison it computes. *)
Context (inp : list J) (eqv : P -> J -> bool).
Hypothesis patt_size : nPatt = Z.of_nat (length patt) /\ nPatt < 1000000.
Hypothesis input_size :
  if no_completer inputCompleter then nInput = Z.of_nat (length inp) /\ nInput < 1000000
  else Z.of_nat (length inp) < 2 ^ 64 - 1.
Hypothesis have_spec : forall i, 0 <= i <= Z.of_nat (length inp) ->
  have_input nInput inputCompleter i = (i <? Z.of_nat (length inp)).
Hypothesis eq_spec : forall p i x, pIsStar p = false -> pIsQuery p = false -> inp !! i = Some x ->
  (let* currInput :=
     if no_completer inputCompleter then let* c := rd input (Z.of_nat i) in Ok (Some c) else Ok None in
   pattEQinp p currInput (Z.of_nat i)) = Ok (eqv p x).

Local Abbreviation code_match :=
  (generic_match matchAll patt nPatt input nInput pIsStar pIsQuery pattEQinp inputCompleter).

(** The tests at the head of a round. *)
Lemma match_round fuel (ixP ixI : nat) : (ixP <= length patt)%nat -> (ixI <= length inp)%nat ->
  code_match (S fuel) (Z.of_nat ixP) (Z.of_nat ixI) =
  match drop ixP patt, drop ixI inp with
  | p :: _, x :: _ =>
      if pIsStar p then
        let* rest := code_match fuel (Z.of_nat (S ixP)) (Z.of_nat ixI) in
        if (rest : bool) then Ok true else code_match fuel (Z.of_nat ixP) (Z.of_nat (S ixI))
      else if pIsQuery p || eqv p x then code_match fuel (Z.of_nat (S ixP)) (Z.of_nat (S ixI)) else Ok false
  | p :: _, [] => if pIsStar p then code_match fuel (Z.of_nat (S ixP)) (Z.of_nat ixI) else Ok false
  | [], _ :: _ => Ok (negb matchAll)
  | [], [] => Ok true
  end.
Proof.
  intros HP HI. destruct patt_size as [Hn Hlt]. cbn [generic_match].
  rewrite (assert_that_true ((0 <=? nPatt) && _)) by (apply andb_true_iff; rewrite Z.leb_le, Z.ltb_lt; lia).
  rewrite assert_that_true.
  2:{ destruct (no_completer _); [|done]. cbn. apply andb_true_iff. rewrite Z.leb_le, Z.ltb_lt. lia. }
  rewrite assert_that_true by (apply andb_true_iff; rewrite !Z.leb_le; lia).
  rewrite assert_that_true.
  2:{ apply andb_true_iff. split; [apply Z.leb_le; lia|]. destruct (no_completer _); [|done].
      apply Z.leb_le. lia. }
  cbn [obind]. rewrite have_spec by lia.
  assert (HuP : (ixP < length patt)%nat -> u64 (Z.of_nat ixP + 1) = Z.of_nat (S ixP)) by
    (intros; rewrite u64_small; lia).
  assert (HuI : (ixI < length inp)%nat -> u64 (Z.of_nat ixI + 1) = Z.of_nat (S ixI)) by
    (intros; rewrite u64_small; [lia|destruct (no_completer _) in input_size; lia]).
  destruct (drop ixP patt) as [|p ps] eqn:EP.
  - apply drop_nil_inv in EP. destruct (Z.ltb_spec (Z.of_nat ixP) nPatt); [lia|].
    destruct (drop ixI inp) as [|x l] eqn:EI; [apply drop_nil_inv in EI|apply drop_cons_inv in EI as (_ & _ & EI)].
    + by destruct (Z.ltb_spec (Z.of_nat ixI) (Z.of_nat (length inp))); [lia|].
    + destruct (Z.ltb_spec (Z.of_nat ixI) (Z.of_nat (length inp))); [|lia]. by destruct matchAll.
  - apply drop_cons_inv in EP as (Hp & _ & Hpl). destruct (Z.ltb_spec (Z.of_nat ixP) nPatt); [|lia].
    rewrite (rd_Some patt _ p) by (rewrite ?Nat2Z.id; done || lia). cbn [obind]. rewrite HuP by done.
    destruct (drop ixI inp) as [|x l] eqn:EI.
    + apply drop_nil_inv in EI. destruct (Z.ltb_spec (Z.of_nat ixI) (Z.of_nat (length inp))); [lia|].
      by destruct (pIsStar p), (pIsQuery p).
    + apply drop_cons_inv in EI as (Hx & _ & Hxl).
      destruct (Z.ltb_spec (Z.of_nat ixI) (Z.of_nat (length inp))); [|lia]. rewrite HuI by done.
      destruct (pIsStar p) eqn:Hs; [done|]. destruct (pIsQuery p) eqn:Hq; [done|]. cbn [orb].
      pose proof (eq_spec p ixI x Hs Hq Hx) as E.
      destruct (if no_completer inputCompleter then _ else _) as [c|]; [|done]. cbn [obind] in E |- *.
      rewrite E. cbn. by destruct (eqv p x).
Qed.

Lemma generic_match_decides fuel : forall (ixP ixI : nat),
  (ixP <= length patt)%nat -> (ixI <= length inp)%nat ->
  (length patt - ixP + (length inp - ixI) < fuel)%nat ->
  exists b, code_match fuel (Z.of_nat ixP) (Z.of_nat ixI) = Ok b
    /\ (b = true <-> accepted pIsStar pIsQuery eqv matchAll (drop ixP patt) (drop ixI inp)).
Proof.
  induction fuel as [|fuel IH]; intros ixP ixI HP HI Hf; [lia|]. rewrite match_round by done.
  destruct (drop ixP patt) as [|p ps] eqn:EP, (drop ixI inp) as [|x l] eqn:EI.
  - exists true. split; [done|]. by rewrite accepted_no_patt; intuition.
  - exists (negb matchAll). split; [done|]. rewrite accepted_no_patt, negb_true_iff. intuition discriminate.
  - apply drop_cons_inv in EP as (_ & <- & HltP). destruct (pIsStar p) eqn:Hs.
    + destruct (IH (S ixP) ixI) as (b & Eb & Hb); [lia..|]. exists b. split; [done|].
      by rewrite accepted_star_nil, <-EI.
    + exists false. split; [done|]. split; [done|]. by intros ?%accepted_one_nil.
  - apply drop_cons_inv in EP as EP'. destruct EP' as (_ & EP' & HltP).
    apply drop_cons_inv in EI as EI'. destruct EI' as (_ & EI' & HltI).
    destruct (pIsStar p) eqn:Hs.
    + destruct (IH (S ixP) ixI) as (b1 & -> & H1); [lia..|]. destruct (IH ixP (S ixI)) as (b2 & E2 & H2); [lia..|].
      rewrite EP', EI in H1. rewrite EP, EI' in H2. exists (b1 || b2). split; [by destruct b1|].
      by rewrite accepted_star, orb_true_iff, H1, H2.
    + destruct (IH (S ixP) (S ixI)) as (b & Eb & Hb); [lia..|]. rewrite EP', EI' in Hb.
      exists ((pIsQuery p || eqv p x) && b). split; [by destruct (_ || _)|].
      by rewrite accepted_one, andb_true_iff, orb_true_iff, Hb.
Qed.
End Correct.

(** What the code is given: no NUL, fewer than 1,000,000 characters. *)
Definition short (s : string) : Prop := nul_free s = true /\ Z.of_nat (String.length s) < 1000000.

Definition glob (patt name : string) : Prop :=
  matches charIsStar charIsQuery Z.eqb (chars_of patt) (chars_of name).

(** [VG_(string_match)] decides whether a string matches a pattern: it ends, no
    assertion fails, and the answer is the relation [matches], where ['*']
    stands for any sequence, ['?'] for any character and all others for
    themselves. *)
Lemma string_match_decides patt input : short patt -> short input ->
  exists b, VG_string_match patt input = Ok b /\ (b = true <-> glob patt input).
Proof.
  intros [Hp Hpl] [Hi Hil]. unfold VG_string_match.
  rewrite !VG_strlen_length by done.
  assert (Hlen : forall s, length (chars_of s) = String.length s).
  { intros s. unfold chars_of. rewrite length_map. induction s as [|c s IH]; cbn; congruence. }
  apply (generic_match_decides true (chars_of patt) _ (chars_of input) _ charIsStar charIsQuery char_p_EQ_i None
           (chars_of input) Z.eqb) with (ixP := 0%nat) (ixI := 0%nat); rewrite ?Hlen; try done; try lia.
  intros p i x Hs Hq Hx. cbn. rewrite rd_lookup, Hx. cbn. unfold char_p_EQ_i. by rewrite Hs, Hq.
Qed.

(** The test cases of the comment at the end of the file. *)
Example comment_tests :
  forallb (fun t => match VG_string_match (fst (fst t)) (snd (fst t)) with Ok b => Bool.eqb b (snd t) | Err _ => false end)
    [(EmptyString, EmptyString, true); ("a", EmptyString, false); ("a", "b", false); ("a", "a", true); ("a", "aa", false);
     ("*", EmptyString, true); ("**", EmptyString, true); ("*", "abc", true); ("*a", "abc", false); ("*b", "abc", false);
     ("*bc", "abc", true); ("a*b", "abc", false); ("a*c", "abc", true); ("*c", "abc", true); ("c*c", "abc", false);
     ("abc*", "abc", true); ("abc**", "abc", true); ("**abc", "abc", true); ("**a*b*c**", "abc", true);
     ("**a*b*d**", "abc", false); ("a?b", "abc", false); ("a?c", "abc", true); ("?", EmptyString, false); ("?", "a", true);
     ("?", "ab", false); ("abcd", "abc", false)]%string = true.
Proof. vm_compute. reflexivity. Qed.
