(* ===== verification/Adler.v ===== *)
(** * The Adler-32 checksum: [VG_(adler32)] of coregrind/m_libcbase.c

    The checksum of RFC 1950, with sums that are reduced once in 5552 bytes.
    The buffer is the list of bytes from the pointer on; a pointer that moves
    is the rest of the list. *)

From S2P Require Import Prelude.

(** ** The code *)

Definition BASE : Z := 65521.
Definition NMAX : Z := 5552.

(** The two sums, [UInt]s. *)
Record sums := mk_sums { adler : Z; sum2 : Z }.

Definition add_byte (b : Z) (s : sums) : sums :=
  let adler := u32 (adler s + b) in mk_sums adler (u32 (sum2 s + adler)).

Definition DO1 (buf : list Z) (i : Z) (s : sums) : outcome sums := let* b := rd buf i in Ok (add_byte b s).
Definition DO2 (buf : list Z) (i : Z) (s : sums) : outcome sums := let* s := DO1 buf i s in DO1 buf (i + 1) s.
Definition DO4 (buf : list Z) (i : Z) (s : sums) : outcome sums := let* s := DO2 buf i s in DO2 buf (i + 2) s.
Definition DO8 (buf : list Z) (i : Z) (s : sums) : outcome sums := let* s := DO4 buf i s in DO4 buf (i + 4) s.
Definition DO16 (buf : list Z) (s : sums) : outcome sums := let* s := DO8 buf 0 s in DO8 buf 8 s.

(** [if (a >= (BASE << k)) a -= (BASE << k)] *)
Definition sub_base (a k : Z) : Z := if Z.shiftl BASE k <=? a then u32 (a - Z.shiftl BASE k) else a.
Definition MOD (a : Z) : Z := fold_left sub_base [16; 15; 14; 13; 12; 11; 10; 9; 8; 7; 6; 5; 4; 3; 2; 1; 0] a.
Definition MOD4 (a : Z) : Z := fold_left sub_base [4; 3; 2; 1; 0] a.

(** [while (len--) { adler += *buf++; sum2 += adler; }] *)
Fixpoint byte_loop (len : nat) (buf : list Z) (s : sums) : outcome (list Z * sums) :=
  match len with
  | O => Ok (buf, s)
  | S len => match buf with b :: buf => byte_loop len buf (add_byte b s) | [] => Err Undefined end
  end.

(** [n] times [DO16(buf); buf += 16]. *)
Fixpoint sixteen_loop (n : nat) (buf : list Z) (s : sums) : outcome (list Z * sums) :=
  match n with
  | O => Ok (buf, s)
  | S n => let* s := DO16 buf s in sixteen_loop n (drop 16 buf) s
  end.

(** [while (len >= NMAX)]: the length that is left, the buffer and the sums. *)
Fixpoint nmax_loop (fuel : nat) (len : Z) (buf : list Z) (s : sums) : outcome (Z * list Z * sums) :=
  if NMAX <=? len then
    match fuel with
    | O => Err OutOfFuel
    | S fuel =>
        let* (buf, s) := sixteen_loop (Z.to_nat (NMAX / 16)) buf s in
        nmax_loop fuel (len - NMAX) buf (mk_sums (MOD (adler s)) (MOD (sum2 s)))
    end
  else Ok (len, buf, s).

(** [while (len >= 16)], the same. *)
Fixpoint rest_loop (fuel : nat) (len : Z) (buf : list Z) (s : sums) : outcome (Z * list Z * sums) :=
  if 16 <=? len then
    match fuel with
    | O => Err OutOfFuel
    | S fuel => let* s := DO16 buf s in rest_loop fuel (len - 16) (drop 16 buf) s
    end
  else Ok (len, buf, s).

Definition recombine (s : sums) : Z := Z.lor (adler s) (u32 (Z.shiftl (sum2 s) 16)).

(** [if (x >= BASE) x -= BASE] *)
Definition reduce (x : Z) : Z := if BASE <=? x then u32 (x - BASE) else x.

Definition VG_adler32 (adler0 : Z) (buf : option (list Z)) (len : Z) : outcome Z :=
  let s := mk_sums (Z.land adler0 65535) (Z.land (Z.shiftr adler0 16) 65535) in
  if len =? 1 then
    match buf with
    | Some buf =>
        let* b := rd buf 0 in
        let a := reduce (u32 (adler s + b)) in
        let s2 := reduce (u32 (sum2 s + a)) in
        Ok (recombine (mk_sums a s2))
    | None => Err Undefined
    end
  else match buf with
  | None => Ok 1
  | Some buf =>
      if len <? 16 then
        let* (_, s) := byte_loop (Z.to_nat len) buf s in
        Ok (recombine (mk_sums (reduce (adler s)) (MOD4 (sum2 s))))
      else
        let* (len, buf, s) := nmax_loop (Z.to_nat len) len buf s in
        if negb (len =? 0) then
          let* (len, buf, s) := rest_loop (Z.to_nat len) len buf s in
          let* (_, s) := byte_loop (Z.to_nat len) buf s in
          Ok (recombine (mk_sums (MOD (adler s)) (MOD (sum2 s))))
        else Ok (recombine s)
  end.

(** ** The checksum *)

Definition checksum_step (s : Z * Z) (b : Z) : Z * Z :=
  let a := (fst s + b) mod BASE in (a, (snd s + a) mod BASE).
Definition checksum (s : Z * Z) (bytes : list Z) : Z * Z := fold_left checksum_step bytes s.

(** The word that holds the two sums. *)
Definition word_of (s : Z * Z) : Z := snd s * 65536 + fst s.
Definition reduced (s : Z * Z) : Prop := 0 <= fst s < BASE /\ 0 <= snd s < BASE.

Definition is_byte (b : Z) : Prop := 0 <= b < 256.

(** ** Lemmas *)

Lemma sub_base_lt a k : 0 <= k -> 0 <= a < BASE * 2 ^ (k + 1) -> 0 <= a < 2 ^ 32 ->
  0 <= sub_base a k < BASE * 2 ^ k /\ sub_base a k mod BASE = a mod BASE /\ 0 <= sub_base a k < 2 ^ 32.
Proof.
  intros Hk Ha Ha32. rewrite Z.pow_add_r in Ha by lia. unfold sub_base. rewrite Z.shiftl_mul_pow2 by lia.
  assert (0 < 2 ^ k) by (apply Z.pow_pos_nonneg; lia). unfold BASE in *.
  destruct (Z.leb_spec (65521 * 2 ^ k) a); [|split_and!; [lia..|done|lia|lia]].
  rewrite u32_small by lia. split_and!; try lia.
  replace (a - 65521 * 2 ^ k) with (a + (- 2 ^ k) * 65521) by lia. apply Z.mod_add. lia.
Qed.

(** A chain of conditional subtractions down to [BASE] reduces. *)
Lemma sub_base_chain n : forall a, 0 <= a < BASE * 2 ^ Z.of_nat n -> 0 <= a < 2 ^ 32 ->
  fold_left sub_base (rev (map Z.of_nat (seq 0 n))) a = a mod BASE.
Proof.
  induction n as [|n IH]; intros a Ha Ha32.
  - cbn. symmetry. apply Z.mod_small. by rewrite Z.mul_1_r in Ha.
  - rewrite seq_S, map_app, rev_app_distr. cbn [map rev app fold_left]. cbn [Nat.add].
    destruct (sub_base_lt a (Z.of_nat n)) as (H & <- & H32); [lia| |done|].
    + replace (Z.of_nat n + 1) with (Z.of_nat (S n)) by lia. done.
    + by apply IH.
Qed.

Lemma MOD_mod a : 0 <= a < 2 ^ 32 -> MOD a = a mod BASE.
Proof. intros Ha. apply (sub_base_chain 17); [unfold BASE; cbn; lia|done]. Qed.

Lemma MOD4_mod a : 0 <= a < 32 * BASE -> MOD4 a = a mod BASE.
Proof. intros Ha. apply (sub_base_chain 5); unfold BASE in *; cbn; lia. Qed.

Lemma reduce_mod a : 0 <= a < 2 * BASE -> reduce a = a mod BASE.
Proof.
  intros Ha. unfold reduce, BASE in *. destruct (Z.leb_spec 65521 a).
  - rewrite u32_small by lia. replace a with (a - 65521 + 1 * 65521) at 2 by lia. rewrite Z.mod_add by lia.
    by rewrite Z.mod_small by lia.
  - by rewrite Z.mod_small by lia.
Qed.

(** The sums after [k] bytes since they were last reduced: congruent to the
    checksum, and far enough from an overflow. *)
Record close (k : Z) (s : sums) (t : Z * Z) : Prop := mk_close {
  cl_adler : adler s mod BASE = fst t;
  cl_sum2 : sum2 s mod BASE = snd t;
  cl_adler_range : 0 <= adler s <= BASE - 1 + 255 * k;
  cl_sum2_range : 0 <= 2 * sum2 s <= 2 * (BASE - 1) * (k + 1) + 255 * (k * (k + 1))
}.

Lemma close_no_overflow k s t : 0 <= k <= NMAX -> close k s t -> 0 <= adler s < 2 ^ 32 /\ 0 <= sum2 s < 2 ^ 32.
Proof.
  intros Hk [_ _ Ha Hs]. unfold BASE, NMAX in *.
  assert (k * (k + 1) <= 5552 * 5553) by (apply Z.mul_le_mono_nonneg; lia). lia.
Qed.

Lemma add_byte_close k s t b : 0 <= k < NMAX -> is_byte b -> close k s t ->
  close (k + 1) (add_byte b s) (checksum_step t b).
Proof.
  intros Hk Hb Hc. pose proof Hc as [Ha Hs Har Hsr]. unfold is_byte in Hb.
  assert (Ha' : 0 <= adler s + b <= BASE - 1 + 255 * (k + 1)) by lia.
  assert (Hs' : 0 <= 2 * (sum2 s + (adler s + b)) <= 2 * (BASE - 1) * (k + 1 + 1) + 255 * ((k + 1) * (k + 1 + 1))) by lia.
  assert (Hmul : (k + 1) * (k + 1 + 1) <= 5552 * 5553) by (unfold NMAX in *; apply Z.mul_le_mono_nonneg; lia).
  unfold add_byte, checksum_step. rewrite (u32_small (adler s + b)) by (unfold BASE, NMAX in *; lia).
  rewrite u32_small by (unfold BASE, NMAX in *; lia).
  assert (HB : BASE <> 0) by done.
  split; cbn [fst snd adler sum2]; [| |done|done].
  - by rewrite <-Ha, Z.add_mod_idemp_l.
  - by rewrite <-Hs, <-Ha, Z.add_mod_idemp_l, Z.add_mod_idemp_l, Z.add_mod_idemp_r.
Qed.

Lemma byte_loop_close rest bs : Forall is_byte bs -> forall k s t,
  0 <= k -> k + Z.of_nat (length bs) <= NMAX -> close k s t ->
  exists s', byte_loop (length bs) (bs ++ rest) s = Ok (rest, s')
    /\ close (k + Z.of_nat (length bs)) s' (checksum t bs).
Proof.
  induction 1 as [|b bs Hb _ IH]; intros k s t Hk Hn Hc.
  - exists s. split; [done|]. cbn [length]. by rewrite Z.add_0_r.
  - cbn [length] in *. destruct (IH (k + 1) (add_byte b s) (checksum_step t b)) as (s' & E & Hc'); [lia|lia|
      apply add_byte_close; [lia|done|done]|].
    exists s'. split; [done|]. replace (k + Z.of_nat (S (length bs))) with (k + 1 + Z.of_nat (length bs)) by lia. done.
Qed.

Lemma byte_loop_app n m buf s : byte_loop (n + m) buf s =
  let* (buf, s) := byte_loop n buf s in byte_loop m buf s.
Proof. revert buf s. induction n as [|n IH]; intros [|b buf] s; cbn; try done. Qed.

(** The unrolled sums. *)
Lemma DO16_byte_loop buf s : (16 <= length buf)%nat ->
  byte_loop 16 buf s = let* s := DO16 buf s in Ok (drop 16 buf, s).
Proof. intros H. do 16 (destruct buf as [|? buf]; [cbn in H; lia|]). done. Qed.

Lemma sixteen_loop_byte_loop n : forall buf s, (16 * n <= length buf)%nat ->
  sixteen_loop n buf s = byte_loop (16 * n) buf s.
Proof.
  induction n as [|n IH]; intros buf s Hn; [done|].
  replace (16 * S n)%nat with (16 + 16 * n)%nat by lia. rewrite byte_loop_app, DO16_byte_loop by lia.
  cbn [sixteen_loop]. destruct (DO16 buf s) as [s'|]; [|done]. cbn [obind]. apply IH. rewrite length_drop. lia.
Qed.

Lemma close_reduce k s t : 0 <= k <= NMAX -> close k s t -> close 0 (mk_sums (MOD (adler s)) (MOD (sum2 s))) t.
Proof.
  intros Hk Hc. destruct (close_no_overflow _ _ _ Hk Hc) as [H1 H2]. destruct Hc as [Ha Hs _ _].
  rewrite !MOD_mod by done. assert (HB : 0 < BASE) by done.
  pose proof (Z.mod_pos_bound (adler s) BASE HB). pose proof (Z.mod_pos_bound (sum2 s) BASE HB).
  split; cbn [adler sum2 fst snd]; [by rewrite Z.mod_mod by lia|by rewrite Z.mod_mod by lia|lia|lia].
Qed.

Lemma close_start a s2 : reduced (a, s2) -> close 0 (mk_sums a s2) (a, s2).
Proof.
  intros [Ha Hs]. cbn in Ha, Hs. split; cbn [adler sum2 fst snd]; [by apply Z.mod_small|by apply Z.mod_small|lia|lia].
Qed.

(** Sums that were just reduced are those of the checksum. *)
Lemma close_0_eq s t : close 0 s t -> s = mk_sums (fst t) (snd t).
Proof.
  intros [<- <- Ha Hs]. destruct s as [a s2]. cbn [adler sum2] in *. by rewrite !Z.mod_small by lia.
Qed.

(** ** The loops *)

Lemma split_at {A} (n : nat) (l : list A) : (n <= length l)%nat -> exists l1 l2, l = l1 ++ l2 /\ length l1 = n.
Proof. intros H. exists (take n l), (drop n l). by rewrite take_drop, length_take_le. Qed.

Lemma nmax_loop_close rest fuel : forall bs s t, Forall is_byte bs -> (length bs <= fuel)%nat -> close 0 s t ->
  exists bs1 bs2 s', bs = bs1 ++ bs2
    /\ nmax_loop fuel (Z.of_nat (length bs)) (bs ++ rest) s = Ok (Z.of_nat (length bs2), bs2 ++ rest, s')
    /\ close 0 s' (checksum t bs1) /\ Z.of_nat (length bs2) < NMAX.
Proof.
  induction fuel as [|fuel IH]; intros bs s t Hbs Hf Hc; cbn [nmax_loop];
    (destruct (Z.leb_spec NMAX (Z.of_nat (length bs))) as [Hle|Hlt]; [|by exists [], bs, s]).
  { unfold NMAX in Hle. lia. }
  destruct (split_at (Z.to_nat NMAX) bs) as (b1 & b2 & -> & Hb1); [lia|].
  apply Forall_app in Hbs as [Hbs1 Hbs2].
  rewrite sixteen_loop_byte_loop by (rewrite !length_app, Hb1; change (Z.to_nat NMAX) with (16 * Z.to_nat (NMAX / 16))%nat; lia).
  change (16 * Z.to_nat (NMAX / 16))%nat with (Z.to_nat NMAX). rewrite <-app_assoc, <-Hb1.
  destruct (byte_loop_close (b2 ++ rest) b1 Hbs1 0 s t) as (s1 & -> & Hc1); [lia|rewrite Hb1; unfold NMAX; lia|done|].
  cbn [obind]. assert (Hk : 0 <= 0 + Z.of_nat (length b1) <= NMAX) by (rewrite Hb1; unfold NMAX; lia).
  pose proof (close_reduce _ _ _ Hk Hc1) as Hc2.
  rewrite length_app in *.
  replace (Z.of_nat (length b1 + length b2) - NMAX) with (Z.of_nat (length b2)) by (rewrite Nat2Z.inj_add, Hb1; unfold NMAX; lia).
  destruct (IH b2 _ _ Hbs2 ltac:(rewrite Hb1 in Hf; unfold NMAX in Hf; lia) Hc2) as (b3 & b4 & s' & -> & -> & Hc' & Hlt).
  exists (b1 ++ b3), b4, s'. unfold checksum in *. by rewrite fold_left_app, app_assoc.
Qed.

Lemma rest_loop_byte_loop rest fuel : forall bs s, (length bs <= fuel)%nat ->
  (let* (len, buf, s) := rest_loop fuel (Z.of_nat (length bs)) (bs ++ rest) s in byte_loop (Z.to_nat len) buf s)
  = byte_loop (length bs) (bs ++ rest) s.
Proof.
  induction fuel as [|fuel IH]; intros bs s Hf; cbn [rest_loop];
    (destruct (Z.leb_spec 16 (Z.of_nat (length bs))) as [Hle|Hlt]; [|cbn [obind]; by rewrite Nat2Z.id]).
  { lia. }
  destruct (split_at 16 bs) as (b1 & b2 & -> & Hb1); [lia|]. rewrite length_app, Hb1, byte_loop_app.
  rewrite DO16_byte_loop by (rewrite !length_app; lia). destruct (DO16 _ s) as [s'|]; [|done]. cbn [obind].
  rewrite <-app_assoc, <-Hb1, drop_app_length.
  replace (Z.of_nat (length b1 + length b2) - 16) with (Z.of_nat (length b2)) by lia. apply IH.
  rewrite length_app in Hf. lia.
Qed.

Lemma recombine_word s : reduced s -> recombine (mk_sums (fst s) (snd s)) = word_of s.
Proof.
  destruct s as [a s2]. intros [Ha Hs]. cbn in Ha, Hs. unfold recombine, word_of, BASE in *. cbn [adler sum2 fst snd].
  rewrite u32_small by (rewrite Z.shiftl_mul_pow2; lia). rewrite Z.lor_comm.
  rewrite lor_shiftl_low by lia. done.
Qed.

Lemma word_split s : reduced s -> Z.land (word_of s) 65535 = fst s /\ Z.land (Z.shiftr (word_of s) 16) 65535 = snd s.
Proof.
  destruct s as [a s2]. intros [Ha Hs]. cbn in Ha, Hs. unfold word_of, BASE in *. cbn [fst snd].
  change 65535 with (Z.ones 16). rewrite !Z.land_ones, Z.shiftr_div_pow2 by lia. change (2 ^ 16) with 65536.
  split; div_lia.
Qed.

Lemma checksum_reduced bs : forall s, reduced s -> reduced (checksum s bs).
Proof.
  induction bs as [|b bs IH]; intros s Hs; [done|]. apply IH. assert (0 < BASE) by done.
  split; apply Z.mod_pos_bound; done.
Qed.

(** C38: [VG_(adler32)] computes the Adler-32 checksum: for every checksum so far
    and every buffer, the result holds the two sums modulo 65521 of all its
    bytes, as if they were reduced after each one. The sums that the code
    leaves unreduced for up to 5552 bytes never overflow, and only bytes of the
    buffer are read. *)
Theorem adler32_is_checksum s bytes rest (Hs : reduced s) (Hb : Forall is_byte bytes) :
  VG_adler32 (word_of s) (Some (bytes ++ rest)) (Z.of_nat (length bytes)) = Ok (word_of (checksum s bytes)).
Proof.
  unfold VG_adler32. destruct (word_split s Hs) as [-> ->]. assert (Hr := checksum_reduced bytes s Hs).
  assert (Hc : close 0 (mk_sums (fst s) (snd s)) s) by (destruct s; by apply close_start).
  destruct (Z.eqb_spec (Z.of_nat (length bytes)) 1) as [E|E].
  { destruct bytes as [|b [|? ?]]; cbn [length] in E; try lia. cbn [app].
    change (rd (b :: rest) 0) with (Ok b). cbn [obind adler sum2].
    inversion_clear Hb as [|? ? Hb0 _]. unfold is_byte in Hb0. destruct Hs as [Ha Hs2].
    assert (HB : 0 < BASE) by done. unfold checksum in *. cbn [fold_left] in *. unfold checksum_step in *.
    rewrite (u32_small (fst s + b)), (reduce_mod (fst s + b)) by (unfold BASE in *; lia).
    pose proof (Z.mod_pos_bound (fst s + b) BASE HB).
    rewrite u32_small, reduce_mod by (unfold BASE in *; lia). by rewrite <-(recombine_word (_, _)). }
  destruct (Z.ltb_spec (Z.of_nat (length bytes)) 16) as [Hl|Hl].
  { rewrite Nat2Z.id. destruct (byte_loop_close rest bytes Hb 0 _ _ ltac:(lia) ltac:(unfold NMAX; lia) Hc) as (s' & -> & Hc').
    cbn [obind]. f_equal. rewrite Z.add_0_l in Hc'. destruct Hc' as [E1 E2 Har Hsr].
    rewrite reduce_mod, MOD4_mod, E1, E2 by (unfold BASE in *; nia). by apply recombine_word. }
  destruct (nmax_loop_close rest (Z.to_nat (Z.of_nat (length bytes))) bytes _ _ Hb ltac:(lia) Hc)
    as (b1 & b2 & s1 & -> & -> & Hc1 & Hlt).
  apply Forall_app in Hb as [_ Hb2]. cbn [obind]. unfold checksum in *. rewrite fold_left_app in *.
  destruct (Z.eqb_spec (Z.of_nat (length b2)) 0) as [E0|E0]; cbn [negb].
  { destruct b2; [|cbn [length] in E0; lia]. rewrite (close_0_eq _ _ Hc1). cbn in *. by rewrite recombine_word. }
  destruct (byte_loop_close rest b2 Hb2 0 _ _ ltac:(lia) ltac:(lia) Hc1) as (s2 & E2 & Hc2).
  pose proof (rest_loop_byte_loop rest (Z.to_nat (Z.of_nat (length b2))) b2 s1 ltac:(lia)) as Hloop. rewrite E2 in Hloop.
  destruct (rest_loop _ _ _ _) as [[[len buf] s3]|]; [|done]. cbn [obind] in *. rewrite Hloop. cbn [obind].
  f_equal. rewrite Z.add_0_l in Hc2.
  assert (Hk : 0 <= Z.of_nat (length b2) <= NMAX) by lia.
  rewrite (close_0_eq _ _ (close_reduce _ _ _ Hk Hc2)). by apply recombine_word.
Qed.

Lemma adler32_is_checksum_witness :
  VG_adler32 (word_of (1, 0)) (Some ([87; 105; 107; 105] ++ [0])) (Z.of_nat (length [87; 105; 107; 105]))
  = Ok (word_of (checksum (1, 0) [87; 105; 107; 105])).
Proof. apply (adler32_is_checksum (1, 0)); [split; cbn; unfold BASE; lia|unfold is_byte; repeat (constructor; [lia|]); constructor]. Defined.

Example adler_wikipedia :
  VG_adler32 1 (Some [87; 105; 107; 105; 112; 101; 100; 105; 97]) 9 = Ok 300286872.
Proof. vm_compute. reflexivity. Qed.

(** The comment says that a [NULL] buffer gives the initial value. *)
Example null_of_one_byte : VG_adler32 0 None 0 = Ok 1 /\ VG_adler32 0 None 1 = Err Undefined.
Proof. done. Qed.
