(* ===== verification/Arrays.v ===== *)
(** * Arrays read at any position

    [get l k] is the element at [k], and some element outside the array, so
    that the contents of an array are a function of the position. *)

From S2P Require Import Prelude.

Section Arrays.
Context {T : Type} `{Inhabited T}.
Implicit Types l : list T.

Definition get l (k : Z) : T := l !!! Z.to_nat k.
Definition size l : Z := Z.of_nat (length l).

Lemma rd_get l k : 0 <= k < size l -> rd l k = Ok (get l k).
Proof.
  intros Hk. destruct (rd_is_ok l k Hk) as (x & Hx & ->). unfold get. by rewrite (list_lookup_total_correct _ _ _ Hx).
Qed.

Lemma get_insert l i k x : 0 <= i < size l -> 0 <= k -> get (<[Z.to_nat i := x]> l) k = if k =? i then x else get l k.
Proof.
  intros Hi Hk. unfold get, size in *. destruct (Z.eqb_spec k i) as [->|Hki].
  - apply list_lookup_total_insert_eq. lia.
  - apply list_lookup_total_insert_ne. lia.
Qed.

Lemma get_lookup l k x : get l (Z.of_nat k) = x -> (k < length l)%nat -> l !! k = Some x.
Proof. intros <- Hk. unfold get. rewrite Nat2Z.id. by apply list_lookup_lookup_total_lt. Qed.


Lemma wr_get l i x : 0 <= i < size l ->
  exists l', wr l i x = Ok l' /\ size l' = size l /\ forall k, 0 <= k -> get l' k = if decide (k = i) then x else get l k.
Proof.
  intros Hi. eexists. split; [by apply wr_in|]. split; [unfold size; by rewrite length_insert|].
  intros k Hk. rewrite get_insert by done. destruct (Z.eqb_spec k i); [by rewrite decide_True|by rewrite decide_False].
Qed.

Lemma get_ext l l' : size l = size l' -> (forall k, 0 <= k < size l -> get l k = get l' k) -> l = l'.
Proof.
  intros Hs Hg. unfold size in *. apply list_eq. intros i. destruct (decide (i < length l)%nat) as [Hi|Hi].
  - rewrite (get_lookup l i _ eq_refl Hi). symmetry. apply get_lookup; [|lia]. symmetry. apply Hg. lia.
  - by rewrite !lookup_ge_None_2 by lia.
Qed.

Lemma get_app_l l1 l2 k : 0 <= k < size l1 -> get (l1 ++ l2) k = get l1 k.
Proof. intros Hk. unfold get, size in *. rewrite lookup_total_app_l by lia. done. Qed.

Lemma get_app_r l1 l2 k : size l1 <= k -> get (l1 ++ l2) k = get l2 (k - size l1).
Proof. intros Hk. unfold get, size in *. rewrite lookup_total_app_r by lia. f_equal. lia. Qed.

End Arrays.
