(* ===== verification/Mem.v ===== *)
(** * Memory functions of coregrind/m_libcbase.c

    [VG_(memcpy)], [VG_(memmove)], [VG_(memset)] and [VG_(memcmp)] on a memory
    that is the list of its bytes; a pointer is the number of a byte.  A [UInt]
    in memory is four bytes, the lowest first.  What is outside the list must
    not be read or written.  The copies do not look at what they copy, so they
    are for cells of any type. *)

From S2P Require Import Prelude Arrays.

(** ** The code *)

Definition VG_IS_4_ALIGNED (p : Z) : bool := Z.land p 3 =? 0.

Section Copy.
Context {A : Type}.
#[local] Abbreviation mem := (list A).

(** [d[0] = s[0]], for [UChar*] and for [UInt*]: a word is read before it is written. *)
Definition copy_byte (m : mem) (d s : Z) : outcome mem := let* b := rd m s in wr m d b.
Definition copy_word (m : mem) (d s : Z) : outcome mem :=
  let* b0 := rd m s in let* b1 := rd m (s + 1) in let* b2 := rd m (s + 2) in let* b3 := rd m (s + 3) in
  let* m := wr m d b0 in let* m := wr m (d + 1) b1 in let* m := wr m (d + 2) b2 in wr m (d + 3) b3.

Definition four_times (n : Z) (copy : mem -> Z -> Z -> outcome mem) (m : mem) (d s : Z) : outcome mem :=
  let* m := copy m d s in let* m := copy m (d + n) (s + n) in
  let* m := copy m (d + 2 * n) (s + 2 * n) in copy m (d + 3 * n) (s + 3 * n).

(** [while (sz >= n) { ...; sz -= n; d += n; s += n; }] *)
Fixpoint copy_while (fuel : nat) (n : Z) (body : mem -> Z -> Z -> outcome mem) (m : mem) (d s sz : Z)
  : outcome (mem * (Z * Z * Z)) :=
  if n <=? sz then
    match fuel with
    | O => Err OutOfFuel
    | S fuel => let* m := body m d s in copy_while fuel n body m (d + n) (s + n) (sz - n)
    end
  else Ok (m, (d, s, sz)).

(** The bytes that are left, or all of them. *)
Definition copy_bytes (fuel : nat) (m : mem) (d s sz : Z) : outcome mem :=
  let* (m, p) := copy_while fuel 4 (four_times 1 copy_byte) m d s sz in
  let '(d, s, sz) := p in
  let* (m, _) := copy_while fuel 1 copy_byte m d s sz in
  Ok m.

Definition VG_memcpy (m : mem) (dest src sz : Z) : outcome mem :=
  let fuel := Z.to_nat sz in
  if VG_IS_4_ALIGNED dest && VG_IS_4_ALIGNED src then
    let* (m, p) := copy_while fuel 16 (four_times 4 copy_word) m dest src sz in
    let '(d, s, sz) := p in
    if sz =? 0 then Ok m
    else
      let* (m, p) := copy_while fuel 4 copy_word m d s sz in
      let '(d, s, sz) := p in
      if sz =? 0 then Ok m else copy_bytes fuel m d s sz
  else copy_bytes fuel m dest src sz.

(** [for (i = 0; i < sz; i++)], with [n] rounds to go. *)
Fixpoint move_up (n : nat) (i : Z) (m : mem) (dest src : Z) : outcome mem :=
  match n with
  | O => Ok m
  | S n => let* m := copy_byte m (dest + i) (src + i) in move_up n (i + 1) m dest src
  end.
Fixpoint move_down (n : nat) (i : Z) (m : mem) (dest src sz : Z) : outcome mem :=
  match n with
  | O => Ok m
  | S n => let* m := copy_byte m (dest + (sz - i - 1)) (src + (sz - i - 1)) in move_down n (i + 1) m dest src sz
  end.

Definition VG_memmove (m : mem) (dest src sz : Z) : outcome mem :=
  if sz =? 0 then Ok m
  else if dest <? src then move_up (Z.to_nat sz) 0 m dest src
  else if src <? dest then move_down (Z.to_nat sz) 0 m dest src sz
  else Ok m.

End Copy.

(** [d4[0] = c4] *)
#[local] Abbreviation mem := (list Z).

Definition set_word (m : mem) (d c4 : Z) : outcome mem :=
  let* m := wr m d (u8 c4) in let* m := wr m (d + 1) (u8 (Z.shiftr c4 8)) in
  let* m := wr m (d + 2) (u8 (Z.shiftr c4 16)) in wr m (d + 3) (u8 (Z.shiftr c4 24)).

(** [while ((!VG_IS_4_ALIGNED(d)) && sz >= 1)] *)
Fixpoint align_loop (fuel : nat) (m : mem) (d uc sz : Z) : outcome (mem * Z * Z) :=
  if negb (VG_IS_4_ALIGNED d) && (1 <=? sz) then
    match fuel with
    | O => Err OutOfFuel
    | S fuel => let* m := wr m d uc in align_loop fuel m (d + 1) uc (sz - 1)
    end
  else Ok (m, d, sz).

(** [while (sz >= n) { ...; d += n; sz -= n; }] *)
Fixpoint set_while (fuel : nat) (n : Z) (body : mem -> Z -> outcome mem) (m : mem) (d sz : Z) : outcome (mem * Z * Z) :=
  if n <=? sz then
    match fuel with
    | O => Err OutOfFuel
    | S fuel => let* m := body m d in set_while fuel n body m (d + n) (sz - n)
    end
  else Ok (m, d, sz).

Definition VG_memset (m : mem) (dest c sz : Z) : outcome mem :=
  let fuel := Z.to_nat sz in
  let uc := u8 c in
  let* (m, d, sz) := align_loop fuel m dest uc sz in
  if sz =? 0 then Ok m
  else
    let c4 := uc in
    let c4 := Z.lor c4 (u32 (Z.shiftl c4 8)) in
    let c4 := Z.lor c4 (u32 (Z.shiftl c4 16)) in
    let* (m, d, sz) := set_while fuel 16 (fun m d =>
      let* m := set_word m d c4 in let* m := set_word m (d + 4) c4 in
      let* m := set_word m (d + 8) c4 in set_word m (d + 12) c4) m d sz in
    let* (m, d, sz) := set_while fuel 4 (fun m d => set_word m d c4) m d sz in
    let* (m, _, _) := set_while fuel 1 (fun m d => wr m d (u8 c)) m d sz in
    Ok m.

(** [while (n != 0)] *)
Fixpoint VG_memcmp (m : mem) (s1 s2 : Z) (n : nat) : outcome Z :=
  match n with
  | O => Ok 0
  | S n =>
      let* a0 := rd m s1 in let* b0 := rd m s2 in
      let res := a0 - b0 in
      if negb (res =? 0) then Ok res else VG_memcmp m (s1 + 1) (s2 + 1) n
  end.

(** ** Copies *)

Section Copies.
Context {A : Type} `{Inhabited A}.
Implicit Types m : list A.

(** [n] bytes from [s] on are at [d] in [m'], which is [m] otherwise. *)
Definition copied (n d s : Z) (m m' : list A) : Prop :=
  size m' = size m /\ forall k, 0 <= k -> get m' k = if decide (d <= k < d + n) then get m (s + (k - d)) else get m k.

(** No byte is overwritten before it is read, going up. *)
Definition upward (n d s : Z) : Prop := d <= s \/ s + n <= d.

(** [n] bytes from [d] and from [s] on are in the memory. *)
Definition inside (n d s : Z) (m : list A) : Prop := 0 <= n /\ 0 <= d /\ 0 <= s /\ d + n <= size m /\ s + n <= size m.

Lemma copied_trans n n' d s m m1 m2 : 0 <= n -> 0 <= n' -> 0 <= d -> 0 <= s -> upward (n + n') d s ->
  copied n d s m m1 -> copied n' (d + n) (s + n) m1 m2 -> copied (n + n') d s m m2.
Proof.
  intros Hn Hn' Hd Hs Hu [Hz1 H1] [Hz2 H2]. unfold upward in Hu. split; [congruence|]. intros k Hk. rewrite H2 by done.
  repeat case_decide; try lia; rewrite H1 by lia; repeat case_decide; try lia; f_equal; lia.
Qed.

Lemma copied_same d s m : copied 0 d s m m.
Proof. split; [done|]. intros k Hk. by rewrite decide_False by lia. Qed.

(** A body of [copy_while] copies [n] bytes. *)
Definition copies (n : Z) (body : list A -> Z -> Z -> outcome (list A)) : Prop :=
  forall m d s, inside n d s m -> upward n d s -> exists m', body m d s = Ok m' /\ copied n d s m m'.

Lemma copy_byte_copies : copies 1 copy_byte.
Proof.
  intros m d s (_ & Hd & Hs & Hdz & Hsz) _. unfold copy_byte. rewrite rd_get by lia. cbn [obind].
  destruct (wr_get m d (get m s)) as (m' & -> & Hz & Hg); [lia|]. exists m'. split; [done|]. split; [done|].
  intros k Hk. rewrite Hg by done. repeat case_decide; try lia; subst; f_equal; lia.
Qed.

Lemma copy_word_copies : copies 4 copy_word.
Proof.
  intros m d s (_ & Hd & Hs & Hdz & Hsz) _. unfold copy_word. rewrite !rd_get by lia. cbn [obind].
  destruct (wr_get m d (get m s)) as (m0 & -> & Hz0 & Hg0); [lia|]. cbn [obind].
  destruct (wr_get m0 (d + 1) (get m (s + 1))) as (m1 & -> & Hz1 & Hg1); [lia|]. cbn [obind].
  destruct (wr_get m1 (d + 2) (get m (s + 2))) as (m2 & -> & Hz2 & Hg2); [lia|]. cbn [obind].
  destruct (wr_get m2 (d + 3) (get m (s + 3))) as (m3 & -> & Hz3 & Hg3); [lia|].
  exists m3. split; [done|]. split; [lia|].
  intros k Hk. rewrite Hg3, Hg2, Hg1, Hg0 by done. repeat case_decide; try lia; subst; f_equal; lia.
Qed.

Lemma four_times_copies n copy : 0 <= n -> copies n copy -> copies (4 * n) (four_times n copy).
Proof.
  intros Hn Hc m d s (_ & Hd & Hs & Hdz & Hsz) Hu. unfold four_times. unfold upward in Hu.
  assert (Hstep : forall m', size m' = size m -> forall i, 0 <= i <= 3 -> exists m2,
    copy m' (d + i * n) (s + i * n) = Ok m2 /\ copied n (d + i * n) (s + i * n) m' m2).
  { intros m' Hz i Hi. apply Hc; [split_and!; nia|unfold upward; nia]. }
  destruct (Hstep m eq_refl 0 ltac:(lia)) as (m1 & E1 & C1). rewrite Z.mul_0_l, !Z.add_0_r in E1, C1. rewrite E1. cbn [obind].
  destruct (Hstep m1 (proj1 C1) 1 ltac:(lia)) as (m2 & E2 & C2). rewrite Z.mul_1_l in E2, C2. rewrite E2. cbn [obind].
  assert (C12 := copied_trans n n d s _ _ _ Hn Hn Hd Hs ltac:(unfold upward; lia) C1 C2).
  destruct (Hstep m2 (proj1 C12) 2 ltac:(lia)) as (m3 & E3 & C3). rewrite E3. cbn [obind].
  replace (n + n) with (2 * n) in C12 by lia.
  assert (C13 := copied_trans (2 * n) n d s _ _ _ ltac:(lia) Hn Hd Hs ltac:(unfold upward; lia) C12 C3).
  destruct (Hstep m3 (proj1 C13) 3 ltac:(lia)) as (m4 & E4 & C4). exists m4. split; [done|].
  replace (2 * n + n) with (3 * n) in C13 by lia. replace (4 * n) with (3 * n + n) by lia.
  apply (copied_trans (3 * n) n d s _ m3); [lia|done|done|done|unfold upward; lia|done|done].
Qed.

Lemma copy_while_spec n body : 0 < n -> copies n body -> forall fuel m d s sz,
  inside sz d s m -> upward sz d s -> sz <= n * Z.of_nat fuel ->
  exists m' k, copy_while fuel n body m d s sz = Ok (m', (d + k, s + k, sz - k))
    /\ copied k d s m m' /\ 0 <= k <= sz /\ sz - k < n.
Proof.
  intros Hn Hb. induction fuel as [|fuel IH]; intros m d s sz Hin Hu Hf; cbn [copy_while];
    (destruct (Z.leb_spec n sz) as [Hle|Hgt];
     [|exists m, 0; rewrite !Z.add_0_r, Z.sub_0_r; split_and!; [done|apply copied_same|destruct Hin; lia..]]); [lia|].
  destruct Hin as (H0 & Hd & Hs & Hdz & Hsz). unfold upward in Hu.
  destruct (Hb m d s) as (m1 & -> & C1); [split_and!; lia|unfold upward; lia|]. cbn [obind]. pose proof (proj1 C1) as Hz.
  destruct (IH m1 (d + n) (s + n) (sz - n)) as (m2 & k & -> & C2 & Hk & Hlt); [split_and!; lia|unfold upward; lia|lia|].
  exists m2, (n + k). split_and!; [by rewrite !Z.add_assoc, Z.sub_add_distr| |lia|lia|lia].
  apply (copied_trans n k d s _ m1); try lia; try done. unfold upward. lia.
Qed.

(** The byte-wise end of [VG_(memcpy)], and what comes before it. *)
Lemma copy_then body1 n d s sz m fuel (k2 : list A -> Z -> Z -> Z -> outcome (list A)) :
  0 < n -> copies n body1 -> inside sz d s m -> upward sz d s -> sz <= n * Z.of_nat fuel ->
  (forall m' d' s' sz', inside sz' d' s' m' -> upward sz' d' s' -> 0 <= sz' <= sz -> sz' < n ->
     exists m2, k2 m' d' s' sz' = Ok m2 /\ copied sz' d' s' m' m2) ->
  exists m2, (let* (m, p) := copy_while fuel n body1 m d s sz in let '(d, s, sz) := p in k2 m d s sz) = Ok m2
    /\ copied sz d s m m2.
Proof.
  intros Hn Hb Hin Hu Hf Hk. destruct (copy_while_spec n body1 Hn Hb fuel m d s sz Hin Hu Hf) as (m1 & k & -> & C1 & Hk1 & Hlt).
  destruct Hin as (H0 & Hd & Hs & Hdz & Hsz). unfold upward in Hu. cbn [obind]. pose proof (proj1 C1) as Hz.
  destruct (Hk m1 (d + k) (s + k) (sz - k)) as (m2 & -> & C2); [split_and!; lia|unfold upward; lia|lia|lia|].
  exists m2. split; [done|]. replace sz with (k + (sz - k)) by lia.
  apply (copied_trans k (sz - k) d s _ m1); try lia; try done. unfold upward. lia.
Qed.

Lemma VG_memcpy_spec m dest src sz : inside sz dest src m -> upward sz dest src ->
  exists m', VG_memcpy m dest src sz = Ok m' /\ copied sz dest src m m'.
Proof.
  intros Hin Hu. unfold VG_memcpy. cbn zeta.
  assert (Hrest : forall m d s sz', inside sz' d s m -> upward sz' d s -> 0 <= sz' <= sz ->
    exists m', copy_bytes (Z.to_nat sz) m d s sz' = Ok m' /\ copied sz' d s m m').
  { intros m' d s sz' Hin' Hu' Hle.
    apply (copy_then _ 4 d s sz' m' _ (fun m d s sz0 => let* (m, _) := copy_while (Z.to_nat sz) 1 copy_byte m d s sz0 in Ok m));
      [lia|apply (four_times_copies 1), copy_byte_copies; lia|done|done|lia|].
    intros m2 d2 s2 sz2 Hin2 Hu2 Hle2 Hlt2.
    destruct (copy_while_spec 1 copy_byte ltac:(lia) copy_byte_copies (Z.to_nat sz) m2 d2 s2 sz2 Hin2 Hu2) as (m3 & k & -> & C & Hk & Hlt);
      [lia|]. exists m3. split; [done|]. by replace k with sz2 in C by lia. }
  destruct (VG_IS_4_ALIGNED dest && VG_IS_4_ALIGNED src); [|destruct Hin; by apply Hrest].
  apply (copy_then _ 16 dest src sz m _ (fun m d s sz0 => if sz0 =? 0 then Ok m else
     let* (m, p) := copy_while (Z.to_nat sz) 4 copy_word m d s sz0 in
      let '(d, s, sz0) := p in
      if sz0 =? 0 then Ok m else copy_bytes (Z.to_nat sz) m d s sz0)); [lia|apply (four_times_copies 4), copy_word_copies; lia|done|done|lia|].
  intros m2 d2 s2 sz2 Hin2 Hu2 Hle2 _. destruct (Z.eqb_spec sz2 0) as [->|]; [exists m2; split; [done|apply copied_same]|].
  apply (copy_then _ 4 d2 s2 sz2 m2 _ (fun m d s sz0 => if sz0 =? 0 then Ok m else copy_bytes (Z.to_nat sz) m d s sz0));
    [lia|exact copy_word_copies|done|done|lia|].
  intros m3 d3 s3 sz3 Hin3 Hu3 Hle3 _. destruct (Z.eqb_spec sz3 0) as [->|]; [exists m3; split; [done|apply copied_same]|].
  apply Hrest; [done|done|lia].
Qed.

Lemma move_up_spec sz n : forall i m m0 dest src, i + Z.of_nat n = sz -> 0 <= i -> inside sz dest src m0 -> dest <= src ->
  copied i dest src m0 m -> exists m', move_up n i m dest src = Ok m' /\ copied sz dest src m0 m'.
Proof.
  induction n as [|n IH]; intros i m m0 dest src Hi H0 Hin Hd C; cbn [move_up].
  - exists m. split; [done|]. by replace sz with i by lia.
  - destruct Hin as (? & ? & ? & ? & ?). pose proof (proj1 C).
    destruct (copy_byte_copies m (dest + i) (src + i)) as (m1 & -> & C1); [split_and!; lia|unfold upward; lia|]. cbn [obind].
    apply IH; [lia|lia|done|done|]. apply (copied_trans i 1 dest src _ m); try done; try lia. unfold upward. lia.
Qed.

(** Going down, the last bytes first. *)
Lemma move_down_spec sz n : forall i m m0 dest src, i + Z.of_nat n = sz -> 0 <= i -> inside sz dest src m0 -> src <= dest ->
  copied i (dest + (sz - i)) (src + (sz - i)) m0 m ->
  exists m', move_down n i m dest src sz = Ok m' /\ copied sz dest src m0 m'.
Proof.
  induction n as [|n IH]; intros i m m0 dest src Hi H0 Hin Hd C; cbn [move_down].
  - exists m. split; [done|]. replace i with sz in C by lia. by rewrite Z.sub_diag, !Z.add_0_r in C.
  - destruct Hin as (? & ? & ? & ? & ?). destruct C as [Hz Hg].
    destruct (copy_byte_copies m (dest + (sz - i - 1)) (src + (sz - i - 1))) as (m1 & -> & Hz1 & Hg1);
      [split_and!; lia|unfold upward; lia|]. cbn [obind].
    apply (IH (i + 1)); [lia|lia|done|done|]. split; [lia|]. intros k Hk. rewrite Hg1 by done.
    repeat case_decide; try lia; rewrite Hg by lia; repeat case_decide; try lia; f_equal; lia.
Qed.

Lemma VG_memmove_spec m dest src sz : inside sz dest src m ->
  exists m', VG_memmove m dest src sz = Ok m' /\ copied sz dest src m m'.
Proof.
  intros Hin. pose proof Hin as (? & ? & ? & ? & ?). unfold VG_memmove.
  destruct (Z.eqb_spec sz 0) as [->|]; [exists m; split; [done|apply copied_same]|].
  destruct (Z.ltb_spec dest src); [|destruct (Z.ltb_spec src dest)].
  - apply move_up_spec; [lia|lia|done|lia|apply copied_same].
  - apply (move_down_spec sz); [lia|lia|done|lia|]. apply copied_same.
  - exists m. split; [done|]. split; [done|]. intros k Hk. case_decide; [|done]. f_equal. lia.
Qed.

Lemma copied_unique n d s m m1 m2 : copied n d s m m1 -> copied n d s m m2 -> m1 = m2.
Proof.
  intros [Hz1 H1] [Hz2 H2]. apply get_ext; [congruence|]. intros k Hk. by rewrite H1, H2 by lia.
Qed.

End Copies.

(** [VG_(memmove)] copies every block to every place, however the two
    overlap, touches nothing else and reads and writes only their bytes;
    [VG_(memcpy)], which copies words and blocks of four when it can, does the
    same unless the destination begins inside the source. *)
Theorem memmove_moves_memcpy_agrees {A} `{Inhabited A} (m : list A) dest src sz (Hin : inside sz dest src m) :
  exists m', VG_memmove m dest src sz = Ok m' /\ copied sz dest src m m'
    /\ (upward sz dest src -> VG_memcpy m dest src sz = Ok m').
Proof.
  destruct (VG_memmove_spec m dest src sz Hin) as (m' & E & C). exists m'. split_and!; [done|apply C..|].
  intros Hu. destruct (VG_memcpy_spec m dest src sz Hin Hu) as (m2 & -> & C2). by rewrite (copied_unique _ _ _ _ _ _ C2 C).
Qed.

Lemma memmove_moves_memcpy_agrees_witness :
  exists m', VG_memmove [1; 2; 3; 4; 5; 6] 0 2 4 = Ok m' /\ copied 4 0 2 [1; 2; 3; 4; 5; 6] m'
    /\ (upward 4 0 2 -> VG_memcpy [1; 2; 3; 4; 5; 6] 0 2 4 = Ok m').
Proof. apply (memmove_moves_memcpy_agrees [1; 2; 3; 4; 5; 6] 0 2 4). unfold inside, size. cbn. lia. Defined.

(** The overlap that [VG_(memcpy)] is not made for. *)
Example memcpy_down : VG_memcpy [1; 2; 3; 4; 5; 6] 1 0 4 = Ok [1; 1; 1; 1; 1; 6]
  /\ VG_memmove [1; 2; 3; 4; 5; 6] 1 0 4 = Ok [1; 1; 2; 3; 4; 6].
Proof. done. Qed.

(** ** Setting *)

(** The [n] bytes from [d] on are [c]. *)
Definition filled (n d c : Z) (m m' : mem) : Prop :=
  size m' = size m /\ forall k, 0 <= k -> get m' k = if decide (d <= k < d + n) then c else get m k.

Lemma filled_trans n n' d c m m1 m2 : 0 <= n -> 0 <= n' ->
  filled n d c m m1 -> filled n' (d + n) c m1 m2 -> filled (n + n') d c m m2.
Proof.
  intros Hn Hn' [Hz1 H1] [Hz2 H2]. split; [congruence|]. intros k Hk. rewrite H2, H1 by done.
  repeat case_decide; (done || lia).
Qed.

Lemma filled_same d c m : filled 0 d c m m.
Proof. split; [done|]. intros k Hk. by rewrite decide_False by lia. Qed.

Lemma wr_filled m d c : 0 <= d < size m -> exists m', wr m d c = Ok m' /\ filled 1 d c m m'.
Proof.
  intros Hd. destruct (wr_get m d c Hd) as (m' & -> & Hz & Hg). exists m'. split; [done|]. split; [done|].
  intros k Hk. rewrite Hg by done. repeat case_decide; (done || lia).
Qed.

(** A body of [set_while] sets [n] bytes. *)
Definition fills (n c : Z) (body : mem -> Z -> outcome mem) : Prop :=
  forall m d, 0 <= d -> d + n <= size m -> exists m', body m d = Ok m' /\ filled n d c m m'.

Lemma fills_then n n' c (b b' : mem -> Z -> outcome mem) : 0 <= n -> 0 <= n' ->
  fills n c b -> fills n' c b' -> fills (n + n') c (fun m d => let* m := b m d in b' m (d + n)).
Proof.
  intros Hn Hn' Hb Hb' m d Hd Hz. destruct (Hb m d) as (m1 & -> & F1); [lia|lia|]. cbn [obind].
  destruct (Hb' m1 (d + n)) as (m2 & -> & F2); [lia|rewrite (proj1 F1); lia|]. exists m2. split; [done|].
  by apply (filled_trans n n' d c _ m1).
Qed.

(** The four bytes of [c4]. *)
Definition repeated (uc : Z) : Z :=
  let c4 := Z.lor uc (u32 (Z.shiftl uc 8)) in Z.lor c4 (u32 (Z.shiftl c4 16)).

Lemma repeated_eq uc : 0 <= uc < 256 -> repeated uc = uc * 16843009.
Proof.
  intros Hc. unfold repeated.
  assert (E : Z.lor uc (u32 (Z.shiftl uc 8)) = uc * 257).
  { rewrite u32_small by (rewrite Z.shiftl_mul_pow2; lia). rewrite Z.lor_comm, lor_shiftl_low by lia. lia. }
  rewrite E. rewrite u32_small by (rewrite Z.shiftl_mul_pow2; lia). rewrite Z.lor_comm, lor_shiftl_low by lia. lia.
Qed.

Lemma set_word_fills c : 0 <= c < 256 -> fills 4 c (fun m d => set_word m d (repeated c)).
Proof.
  intros Hc m d Hd Hz. unfold set_word. rewrite repeated_eq by done.
  assert (E : u8 (c * 16843009) = c /\ u8 (Z.shiftr (c * 16843009) 8) = c /\ u8 (Z.shiftr (c * 16843009) 16) = c
    /\ u8 (Z.shiftr (c * 16843009) 24) = c).
  { rewrite !Z.shiftr_div_pow2 by lia. unfold u8. split_and!; div_lia. }
  destruct E as (-> & -> & -> & ->).
  assert (H1 : fills 1 c (fun m d => wr m d c)) by (intros m' d' Hd' Hz'; apply wr_filled; lia).
  destruct (fills_then 1 1 c _ _ ltac:(lia) ltac:(lia) H1 H1 m d) as (m2 & E2 & F2); [lia|lia|].
  destruct (fills_then 1 1 c _ _ ltac:(lia) ltac:(lia) H1 H1 m2 (d + 2)) as (m4 & E4 & F4); [lia|rewrite (proj1 F2); lia|].
  exists m4. replace (d + 3) with (d + 2 + 1) by lia. cbn in E2, E4. split; [|by apply (filled_trans 2 2 d c _ m2)].
  destruct (wr m d c) as [m1|]; [|done]. cbn [obind] in *. rewrite E2. exact E4.
Qed.

Lemma set_while_spec n c body : 0 < n -> fills n c body -> forall fuel m d sz,
  0 <= sz -> 0 <= d -> d + sz <= size m -> sz <= n * Z.of_nat fuel ->
  exists m' k, set_while fuel n body m d sz = Ok (m', d + k, sz - k) /\ filled k d c m m' /\ 0 <= k <= sz /\ sz - k < n.
Proof.
  intros Hn Hb. induction fuel as [|fuel IH]; intros m d sz H0 Hd Hz Hf; cbn [set_while];
    (destruct (Z.leb_spec n sz) as [Hle|Hgt];
     [|exists m, 0; rewrite !Z.add_0_r, Z.sub_0_r; split_and!; [done|apply filled_same|lia..]]); [lia|].
  destruct (Hb m d) as (m1 & -> & F1); [lia|lia|]. cbn [obind].
  destruct (IH m1 (d + n) (sz - n)) as (m2 & k & -> & F2 & Hk & Hlt); [lia|lia|rewrite (proj1 F1); lia|lia|].
  exists m2, (n + k). split_and!; [by rewrite !Z.add_assoc, Z.sub_add_distr| |lia|lia|lia].
  apply (filled_trans n k d c _ m1); (done || lia).
Qed.

Lemma align_loop_spec c fuel : forall m d sz, 0 <= sz -> 0 <= d -> d + sz <= size m -> sz <= Z.of_nat fuel ->
  exists m' k, align_loop fuel m d c sz = Ok (m', d + k, sz - k) /\ filled k d c m m' /\ 0 <= k <= sz.
Proof.
  induction fuel as [|fuel IH]; intros m d sz H0 Hd Hz Hf; cbn [align_loop];
    (destruct (negb _ && _) eqn:E;
     [|exists m, 0; rewrite !Z.add_0_r, Z.sub_0_r; split_and!; [done|apply filled_same|lia..]]); zbool; [lia|].
  destruct (wr_filled m d c) as (m1 & -> & F1); [lia|]. cbn [obind].
  destruct (IH m1 (d + 1) (sz - 1)) as (m2 & k & -> & F2 & Hk); [lia|lia|rewrite (proj1 F1); lia|lia|].
  exists m2, (1 + k). split_and!; [by rewrite !Z.add_assoc, Z.sub_add_distr| |lia|lia].
  apply (filled_trans 1 k d c _ m1); (done || lia).
Qed.

(** [VG_(memset)] sets the block to the low byte of [c], whatever its alignment. *)
Lemma VG_memset_spec m dest c sz : 0 <= sz -> 0 <= dest -> dest + sz <= size m ->
  exists m', VG_memset m dest c sz = Ok m' /\ filled sz dest (u8 c) m m'.
Proof.
  intros H0 Hd Hz. unfold VG_memset. pose proof (u8_range c) as Hc. change (2 ^ 8) with 256 in Hc.
  destruct (align_loop_spec (u8 c) (Z.to_nat sz) m dest sz) as (m1 & k1 & -> & F1 & Hk1); [lia..|]. cbn [obind].
  pose proof (proj1 F1) as Hz1.
  destruct (Z.eqb_spec (sz - k1) 0); [exists m1; split; [done|]; by replace sz with k1 by lia|].
  pose proof (set_word_fills (u8 c) Hc) as Hw.
  assert (H8 := fills_then 4 4 _ _ _ ltac:(lia) ltac:(lia) Hw Hw).
  assert (H12 := fills_then 8 4 _ _ _ ltac:(lia) ltac:(lia) H8 Hw).
  assert (H16 := fills_then 12 4 _ _ _ ltac:(lia) ltac:(lia) H12 Hw).
  destruct (set_while_spec 16 (u8 c) (fun m d => let* m := set_word m d (repeated (u8 c)) in
      let* m := set_word m (d + 4) (repeated (u8 c)) in
      let* m := set_word m (d + 8) (repeated (u8 c)) in set_word m (d + 12) (repeated (u8 c)))
    ltac:(lia)) with (fuel := Z.to_nat sz) (m := m1) (d := dest + k1) (sz := sz - k1) as (m2 & k2 & E2 & F2 & Hk2 & _); [|lia..|].
  { intros m' d' Hd' Hz'. destruct (H16 m' d' Hd' Hz') as (m2 & E & F). exists m2. split; [|done].
    cbn in E. destruct (set_word m' d' _) as [?|]; [|done]. cbn [obind] in *.
    destruct (set_word _ (d' + 4) _) as [?|]; [|done]. cbn [obind] in *. done. }
  unfold repeated in E2. cbn zeta in E2 |- *. rewrite E2. cbn [obind]. pose proof (proj1 F2) as Hz2.
  destruct (set_while_spec 4 (u8 c) _ ltac:(lia) Hw (Z.to_nat sz) m2 (dest + k1 + k2) (sz - k1 - k2))
    as (m3 & k3 & E3 & F3 & Hk3 & _); [lia..|].
  unfold repeated in E3. cbn zeta in E3. rewrite E3. cbn [obind]. pose proof (proj1 F3) as Hz3.
  destruct (set_while_spec 1 (u8 c) (fun m d => wr m d (u8 c)) ltac:(lia)) with (fuel := Z.to_nat sz) (m := m3)
    (d := dest + k1 + k2 + k3) (sz := sz - k1 - k2 - k3) as (m4 & k4 & -> & F4 & Hk4 & Hlt4); [|lia..|].
  { intros m' d' Hd' Hz'. apply wr_filled. lia. }
  exists m4. split; [done|]. replace sz with (k1 + (k2 + (k3 + k4))) by lia.
  apply (filled_trans k1 _ _ _ _ m1); [lia|lia|done|].
  apply (filled_trans k2 _ _ _ _ m2); [lia|lia|done|].
  by apply (filled_trans k3 _ _ _ _ m3); [lia|lia|done|].
Qed.

(** ** Comparing *)

(** The first bytes that differ decide. *)
Lemma VG_memcmp_spec n : forall m s1 s2, inside (Z.of_nat n) s1 s2 m ->
  exists r, VG_memcmp m s1 s2 n = Ok r
    /\ ((r = 0 /\ forall i, 0 <= i < Z.of_nat n -> get m (s1 + i) = get m (s2 + i))
       \/ exists i, 0 <= i < Z.of_nat n /\ r = get m (s1 + i) - get m (s2 + i) /\ r <> 0
          /\ forall j, 0 <= j < i -> get m (s1 + j) = get m (s2 + j)).
Proof.
  induction n as [|n IH]; intros m s1 s2 (H0 & H1 & H2 & Hz1 & Hz2); cbn [VG_memcmp].
  - exists 0. split; [done|]. left. split; [done|]. lia.
  - rewrite !rd_get by lia. cbn [obind]. destruct (Z.eqb_spec (get m s1 - get m s2) 0) as [E|E]; cbn [negb].
    + destruct (IH m (s1 + 1) (s2 + 1)) as (r & -> & Hr); [split_and!; lia|]. exists r. split; [done|].
      assert (Hfirst : forall P : Z -> Prop, P 0 -> (forall i, 0 <= i -> P (1 + i)) -> forall i, 0 <= i -> P i).
      { intros P Hp0 Hp i Hi. destruct (decide (i = 0)) as [->|]; [done|]. replace i with (1 + (i - 1)) by lia. apply Hp. lia. }
      destruct Hr as [[-> Hr]|(i & Hi & -> & Hne & Hr)].
      * left. split; [done|]. intros i [Hi Hlt]. revert i Hi Hlt. apply (Hfirst (fun i => i < _ -> _)); [rewrite !Z.add_0_r; lia|].
        intros i Hi Hlt. rewrite !Z.add_assoc. apply Hr. lia.
      * right. exists (1 + i). rewrite !Z.add_assoc. split_and!; [lia|lia|done|done|].
        intros j [Hj Hlt]. revert j Hj Hlt. apply (Hfirst (fun j => j < _ -> _)); [rewrite !Z.add_0_r; lia|].
        intros j Hj Hlt. rewrite !Z.add_assoc. apply Hr. lia.
    + eexists. split; [done|]. right. exists 0. rewrite !Z.add_0_r. split_and!; [lia|lia|done|done|]. lia.
Qed.
