(* ===== verification/Strings.v ===== *)
(** * The other string functions of coregrind/m_libcbase.c

    Searching, comparing and splitting strings, and reading numbers from them.
    Functions that only read have strings as arguments, as in LibcBase; those
    that write have a memory of bytes (Mem). *)

From S2P Require Import Prelude LibcBase Arrays Mem.

(** ** Characters and numbers *)

Definition is_hex_digit (c : Z) : option Z :=
  if (48 <=? c) && (c <=? 57) then Some (c - 48)
  else if (65 <=? c) && (c <=? 70) then Some ((c - 65) + 10)
  else if (97 <=? c) && (c <=? 102) then Some ((c - 97) + 10)
  else None.

Definition VG_tolower (c : Z) : Z := if (65 <=? c) && (c <=? 90) then c - 65 + 97 else c.

(** The digit loops: the number, whether a digit was converted, and the rest. *)
Fixpoint ulong_loop (base : Z) (digit_of : Z -> option Z) (str : string) (n : Z) (converted : bool) : Z * bool * string :=
  match digit_of (hd0 str), str with
  | Some digit, String _ rest => ulong_loop base digit_of rest (u64 (base * n + digit)) true
  | _, _ => (n, converted, str)
  end.

Fixpoint long_loop (base : Z) (digit_of : Z -> option Z) (str : string) (n : Z) (converted : bool) : outcome (Z * bool * string) :=
  match digit_of (hd0 str), str with
  | Some digit, String _ rest =>
      let* _ := defined_when (long_in_range (base * n + digit)) in
      long_loop base digit_of rest (base * n + digit) true
  | _, _ => Ok (n, converted, str)
  end.

Definition VG_strtoull10 (str : string) : Z * string :=
  let str0 := str in
  let str := skip_spaces str in
  let str := if hd0 str =? 43 then tl0 str else str in
  let '(n, converted, str) := ulong_loop 10 is_dec_digit str 0 false in
  (n, if converted then str else str0).

(** [if ( *str == '0' && ( *(str+1) == 'x' ...)) str += 2;] *)
Definition skip_0x (str : string) : string :=
  if (hd0 str =? 48) && ((hd0 (tl0 str) =? 120) || (hd0 (tl0 str) =? 88))
     && match is_hex_digit (hd0 (tl0 (tl0 str))) with Some _ => true | None => false end
  then tl0 (tl0 str) else str.

Definition VG_strtoll16 (str : string) : outcome (Z * string) :=
  let str0 := str in
  let str := skip_spaces str in
  let '(neg, str) :=
    if hd0 str =? 45 then (true, tl0 str)
    else if hd0 str =? 43 then (false, tl0 str)
    else (false, str) in
  let* (n, converted, str) := long_loop 16 is_hex_digit (skip_0x str) 0 false in
  let str := if converted then str else str0 in
  Ok ((if neg then - n else n), str).

Definition VG_strtoull16 (str : string) : Z * string :=
  let str0 := str in
  let str := skip_spaces str in
  let str := if hd0 str =? 43 then tl0 str else str in
  let '(n, converted, str) := ulong_loop 16 is_hex_digit (skip_0x str) 0 false in
  (n, if converted then str else str0).

(** ** Searching and comparing *)

Fixpoint VG_strnlen (str : string) (n : nat) : Z :=
  match n, str with
  | S n, String c rest => if code c =? 0 then 0 else 1 + VG_strnlen rest n
  | _, _ => 0
  end.

(** [while ( *a) if ( *a++ == *s) ...]: is the character one of [accpt]? *)
Fixpoint one_of (c : Z) (accpt : string) : bool :=
  match accpt with EmptyString => false | String a rest => if code a =? 0 then false else (code a =? c) || one_of c rest end.

Fixpoint VG_strpbrk (s accpt : string) : option string :=
  match s with
  | EmptyString => None
  | String c rest => if code c =? 0 then None else if one_of (code c) accpt then Some s else VG_strpbrk rest accpt
  end.

Fixpoint VG_strcasecmp (s1 s2 : string) : Z :=
  let c1 := VG_tolower (hd0 s1) in
  let c2 := VG_tolower (hd0 s2) in
  if c1 <? c2 then -1
  else if c2 <? c1 then 1
  else if c1 =? 0 then 0
  else match s1 with EmptyString => 0 | String _ s1 => VG_strcasecmp s1 (tl0 s2) end.

(** [nmax] counts down what the code counts up to. *)
Fixpoint VG_strncasecmp (s1 s2 : string) (nmax : nat) : Z :=
  match nmax with
  | O => 0
  | S nmax =>
      let c1 := VG_tolower (hd0 s1) in
      let c2 := VG_tolower (hd0 s2) in
      if c1 <? c2 then -1
      else if c2 <? c1 then 1
      else if c1 =? 0 then 0
      else VG_strncasecmp (tl0 s1) (tl0 s2) nmax
  end.

(** For a [haystack] that is not [NULL]. *)
Fixpoint VG_strcasestr (haystack needle : string) : option string :=
  match haystack with
  | EmptyString => None
  | String c rest =>
      if code c =? 0 then None
      else if VG_strncasecmp haystack needle (Z.to_nat (VG_strlen needle)) =? 0 then Some haystack
      else VG_strcasestr rest needle
  end.

Fixpoint VG_strchr (s : string) (c : Z) : option string :=
  if hd0 s =? c then Some s
  else if hd0 s =? 0 then None
  else match s with EmptyString => None | String _ rest => VG_strchr rest c end.

Fixpoint VG_strspn (s accpt : string) : Z :=
  match s with
  | EmptyString => 0
  | String c rest => if code c =? 0 then 0 else if one_of (code c) accpt then 1 + VG_strspn rest accpt else 0
  end.

Fixpoint VG_strcspn (s reject : string) : Z :=
  match s with
  | EmptyString => 0
  | String c rest =>
      if code c =? 0 then 0
      else match VG_strchr reject (code c) with None => 1 + VG_strcspn rest reject | Some _ => 0 end
  end.

(** [s + n] *)
Fixpoint advance (s : string) (n : nat) : string :=
  match n, s with S n, String _ rest => advance rest n | _, _ => s end.

(** The part of [s] before its suffix [rest], where the code writes a NUL. *)
Definition cut_before (s rest : string) : string := String.substring 0 (String.length s - String.length rest) s.

(** The token and [*saveptr]; [s] is [*saveptr] of the call before when [NULL] is passed. *)
Definition VG_strtok_r (s delim : string) : option string * string :=
  let s := advance s (Z.to_nat (VG_strspn s delim)) in
  if hd0 s =? 0 then (None, s)
  else
    let token := s in
    match VG_strpbrk token delim with
    | None => (Some token, advance token (Z.to_nat (VG_strlen token)))
    | Some s => (Some (cut_before token s), tl0 s)
    end.

(** [NULL] for [s] goes on with the string kept in [olds], a static variable. *)
Definition VG_strtok (s : option string) (delim olds : string) : option string * string :=
  VG_strtok_r (match s with Some s => s | None => olds end) delim.

(** ** Addresses and words *)

Definition isHex (c : Z) : bool :=
  ((48 <=? c) && (c <=? 57)) || ((97 <=? c) && (c <=? 102)) || ((65 <=? c) && (c <=? 70)).

Definition fromHex (c : Z) : Z :=
  if (48 <=? c) && (c <=? 57) then u32 (c - 48)
  else if (97 <=? c) && (c <=? 102) then u32 (10 + c - 97)
  else if (65 <=? c) && (c <=? 70) then u32 (10 + c - 65)
  else 0.

(** [while (isHex( **ppc))]: the result and the rest, or [False]. *)
Fixpoint hex_loop (s : string) (result used limit : Z) : option (Z * Z * string) :=
  match s with
  | String c rest =>
      if isHex (code c) then
        let result := Z.lor (u64 (Z.shiftl result 4)) (fromHex (code c)) in
        if limit <? used + 1 then None else hex_loop rest result (used + 1) limit
      else Some (result, used, s)
  | EmptyString => Some (result, used, s)
  end.

Definition VG_parse_Addr (s : string) : option (Z * string) :=
  if negb (hd0 s =? 48) then None
  else
    let s := tl0 s in
    if negb (hd0 s =? 120) then None
    else
      match hex_loop (tl0 s) 0 0 16 with
      | None => None
      | Some (result, used, s) => if used =? 0 then None else Some (result, s)
      end.

Fixpoint dec_loop (s : string) (res64 used limit : Z) : option (Z * Z * string) :=
  match s with
  | String c rest =>
      if VG_isdigit (code c) then
        let res64 := u64 (res64 * 10 + code c - 48) in
        if limit <? used + 1 then None else dec_loop rest res64 (used + 1) limit
      else Some (res64, used, s)
  | EmptyString => Some (res64, used, s)
  end.

Definition VG_parse_UInt (s : string) : option (Z * string) :=
  match dec_loop s 0 0 10 with
  | None => None
  | Some (res64, used, s) =>
      if used =? 0 then None
      else if negb (Z.shiftr res64 32 =? 0) then None
      else Some (u32 res64, s)
  end.

(** ** Sets of names *)

(** [1 << token_nr], an [Int]. *)
Definition bit (token_nr : Z) : outcome Z :=
  let* _ := defined_when ((0 <=? token_nr) && (token_nr <? 31)) in Ok (Z.shiftl 1 token_nr).

Record tokens_seen := mk_tokens_seen { token_nr : Z; all_set : Z; enum_set : Z; known_words : Z }.

#[export] Instance tokens_seen_eta : RecordEta tokens_seen := fun s =>
  mk_tokens_seen (token_nr s) (all_set s) (enum_set s) (known_words s).

Definition one_token (input_word token : string) (t : tokens_seen) : outcome tokens_seen :=
  let* t :=
    if negb (0 =? VG_strcmp token "-") then
      let* t :=
        if 0 =? VG_strcmp input_word token then
          let* b := bit (token_nr t) in
          Ok (t <| enum_set := Z.lor (enum_set t) b |> <| known_words := known_words t + 1 |>)
        else Ok t in
      let* b := bit (token_nr t) in
      Ok (t <| all_set := Z.lor (all_set t) b |>)
    else Ok t in
  Ok (t <| token_nr := token_nr t + 1 |>).

(** The [for] loop over the tokens; every round takes a character of the rest. *)
Fixpoint token_loop (fuel : nat) (input_word rest : string) (t : tokens_seen) : outcome tokens_seen :=
  match VG_strtok_r rest "," with
  | (None, _) => Ok t
  | (Some token, rest) =>
      match fuel with
      | O => Err OutOfFuel
      | S fuel => let* t := one_token input_word token t in token_loop fuel input_word rest t
      end
  end.

Record words_seen := mk_words_seen { word_nr : Z; seen_all_kw : bool; seen_none_kw : bool; toks : tokens_seen }.

#[export] Instance words_seen_eta : RecordEta words_seen := fun s =>
  mk_words_seen (word_nr s) (seen_all_kw s) (seen_none_kw s) (toks s).

Definition one_word (tokens : string) (allow_all : bool) (input_word : string) (w : words_seen) : outcome words_seen :=
  let w := w <| word_nr := word_nr w + 1 |> in
  let known w := w <| toks := (toks w) <| known_words := known_words (toks w) + 1 |> |> in
  let w :=
    if allow_all && (0 =? VG_strcmp input_word "all") then known (w <| seen_all_kw := true |>)
    else if 0 =? VG_strcmp input_word "none" then known (w <| seen_none_kw := true |>)
    else w in
  let* t := token_loop (String.length tokens) input_word tokens ((toks w) <| all_set := 0 |> <| token_nr := 0 |>) in
  Ok (w <| toks := t |>).

Fixpoint word_loop (fuel : nat) (tokens : string) (allow_all : bool) (rest : string) (w : words_seen) : outcome words_seen :=
  match VG_strtok_r rest "," with
  | (None, _) => Ok w
  | (Some input_word, rest) =>
      match fuel with
      | O => Err OutOfFuel
      | S fuel => let* w := one_word tokens allow_all input_word w in word_loop fuel tokens allow_all rest w
      end
  end.

(** [True] and the set, or [False]. *)
Definition VG_parse_enum_set (tokens : string) (allow_all : bool) (input : string) : outcome (option Z) :=
  if 1000 <? VG_strlen tokens then Ok None
  else if 1000 <? VG_strlen input then Ok None
  else
    let* w := word_loop (String.length input) tokens allow_all input
                (mk_words_seen 0 false false (mk_tokens_seen 0 0 0 0)) in
    let t := toks w in
    if negb (known_words t =? word_nr w) then Ok None
    else if seen_all_kw w then
      if seen_none_kw w || negb (enum_set t =? 0) then Ok None else Ok (Some (all_set t))
    else if seen_none_kw w then
      if seen_all_kw w || negb (enum_set t =? 0) then Ok None else Ok (Some 0)
    else if enum_set t =? 0 then Ok None
    else Ok (Some (enum_set t)).

(** ** Copying *)

(** [while ( *dest) dest++;] *)
Fixpoint end_of (fuel : nat) (m : list Z) (dest : Z) : outcome Z :=
  let* c := rd m dest in
  if c =? 0 then Ok dest else match fuel with O => Err OutOfFuel | S fuel => end_of fuel m (dest + 1) end.

(** [while ( *src) *dest++ = *src++; *dest = 0;] *)
Fixpoint copy_string (fuel : nat) (m : list Z) (dest src : Z) : outcome (list Z) :=
  let* c := rd m src in
  if c =? 0 then wr m dest 0
  else match fuel with
  | O => Err OutOfFuel
  | S fuel => let* m := wr m dest c in copy_string fuel m (dest + 1) (src + 1)
  end.

Definition VG_strcpy (m : list Z) (dest src : Z) : outcome (list Z) := copy_string (length m) m dest src.

Definition VG_strcat (m : list Z) (dest src : Z) : outcome (list Z) :=
  let* dest := end_of (length m) m dest in copy_string (length m) m dest src.

(** [while ( *src && n > 0) { *dest++ = *src++; n--; } *dest = 0;] *)
Fixpoint copy_at_most (n : nat) (m : list Z) (dest src : Z) : outcome (list Z) :=
  let* c := rd m src in
  match n with
  | O => wr m dest 0
  | S n => if c =? 0 then wr m dest 0 else let* m := wr m dest c in copy_at_most n m (dest + 1) (src + 1)
  end.

Definition VG_strncat (m : list Z) (dest src : Z) (n : nat) : outcome (list Z) :=
  let* dest := end_of (length m) m dest in copy_at_most n m dest src.

(** [while (i < ndest) dest[i++] = 0;] *)
Fixpoint pad_zero (n : nat) (m : list Z) (dest : Z) : outcome (list Z) :=
  match n with O => Ok m | S n => let* m := wr m dest 0 in pad_zero n m (dest + 1) end.

(** [ndest] counts down. *)
Fixpoint VG_strncpy (ndest : nat) (m : list Z) (dest src : Z) : outcome (list Z) :=
  match ndest with
  | O => Ok m
  | S ndest =>
      let* c := rd m src in
      let* m := wr m dest c in
      if c =? 0 then pad_zero ndest m (dest + 1) else VG_strncpy ndest m (dest + 1) (src + 1)
  end.

(** [while (m < n - 1 && *src != '\0')]: the memory, the two pointers. *)
Fixpoint strlcpy_loop (fuel : nat) (m : list Z) (dst src count n : Z) : outcome (list Z * Z * Z) :=
  if count <? u64 (n - 1) then
    let* c := rd m src in
    if negb (c =? 0) then
      match fuel with
      | O => Err OutOfFuel
      | S fuel => let* m := wr m dst c in strlcpy_loop fuel m (dst + 1) (src + 1) (count + 1) n
      end
    else Ok (m, dst, src)
  else Ok (m, dst, src).

(** The memory and the length of the source. *)
Definition VG_strlcpy (m : list Z) (dst src n : Z) : outcome (list Z * Z) :=
  let src_orig := src in
  let* (m, dst, src) := strlcpy_loop (length m) m dst src 0 n in
  let* m := if 0 <? n then wr m dst 0 else Ok m in
  let* src := end_of (length m) m src in
  Ok (m, src - src_orig).
