(* ===== verification/Qsort.v ===== *)
(** * Quicksort: [VG_(ssort)] of coregrind/m_libcbase.c

    The sort of Bentley and McIlroy.  The array is a list of its elements: a
    pointer is the number of the element it points at, a size in bytes the
    number of elements it holds, and an exchange of words or of characters is
    one of elements.  Reading or writing outside the array is undefined. *)

From S2P Require Import Prelude.

(** What [cmp] must be for the elements to have an order: the sign says how two
    elements compare. *)
Class Comparison {T : Type} (cmp : T -> T -> Z) : Prop := {
  cmp_sym x y : 0 < cmp x y <-> cmp y x < 0;
  cmp_le_trans x y z : cmp x y <= 0 -> cmp y z <= 0 -> cmp x z <= 0
}.

(** ** The code *)

Section Code.
Context {T : Type} (cmp : T -> T -> Z).

(** [swaptype == 0]: the elements are words that are aligned. *)
Context (word : bool).

(** [cmp(l + i, l + j)] *)
Definition cmp_at (l : list T) (i j : Z) : outcome Z :=
  let* x := rd l i in let* y := rd l j in Ok (cmp x y).

(** [BM_SWAP(a, b)] *)
Definition BM_SWAP (l : list T) (a b : Z) : outcome (list T) :=
  let* x := rd l a in let* y := rd l b in
  let* l := wr l a y in wr l b x.

(** [BM_VECSWAP(a, b, n)]: the loop of [bm_swapfunc]. *)
Fixpoint BM_VECSWAP (n : nat) (l : list T) (a b : Z) : outcome (list T) :=
  match n with
  | O => Ok l
  | S n => let* l := BM_SWAP l a b in BM_VECSWAP n l (a + 1) (b + 1)
  end.

Definition BM_MIN (a b : Z) : Z := if a <? b then a else b.

Definition bm_med3 (l : list T) (a b c : Z) : outcome Z :=
  let* ab := cmp_at l a b in
  if ab <? 0 then
    let* bc := cmp_at l b c in
    if bc <? 0 then Ok b else let* ac := cmp_at l a c in Ok (if ac <? 0 then c else a)
  else
    let* bc := cmp_at l b c in
    if 0 <? bc then Ok b else let* ac := cmp_at l a c in Ok (if 0 <? ac then c else a).

(** [for (pl = pm; pl > a && cmp(pl-es, pl) > 0; pl -= es)] with [fuel] rounds to go. *)
Fixpoint insert_loop (fuel : nat) (l : list T) (a pl : Z) : outcome (list T) :=
  if a <? pl then
    let* r := cmp_at l (pl - 1) pl in
    if 0 <? r then
      match fuel with
      | O => Err OutOfFuel
      | S fuel => let* l := BM_SWAP l pl (pl - 1) in insert_loop fuel l a (pl - 1)
      end
    else Ok l
  else Ok l.

(** [for (pm = a + es; pm < a + n*es; pm += es)] *)
Fixpoint insertion_sort (fuel : nat) (l : list T) (a pm n : Z) : outcome (list T) :=
  if pm <? a + n then
    match fuel with
    | O => Err OutOfFuel
    | S fuel => let* l := insert_loop (Z.to_nat n) l a pm in insertion_sort fuel l a (pm + 1) n
    end
  else Ok l.

(** The element the partition is around. *)
Definition choose_pivot (l : list T) (a n : Z) : outcome Z :=
  let pm := a + n / 2 in
  if 7 <? n then
    let pl := a in
    let pn := a + (n - 1) in
    if 40 <? n then
      let s := n / 8 in
      let* pl := bm_med3 l pl (pl + s) (pl + 2 * s) in
      let* pm := bm_med3 l (pm - s) pm (pm + s) in
      let* pn := bm_med3 l (pn - 2 * s) (pn - s) pn in
      bm_med3 l pl pm pn
    else bm_med3 l pl pm pn
  else Ok pm.

(** [pv]: a copy of a word, or the first element of the array, to which the
    pivot is moved. *)
Definition BM_PVINIT (l : list T) (a pm : Z) : outcome (option T * list T) :=
  if word then let* v := rd l pm in Ok (Some v, l)
  else let* l := BM_SWAP l a pm in Ok (None, l).

(** [cmp(p, pv)] *)
Definition cmp_pivot (pv : option T) (l : list T) (a p : Z) : outcome Z :=
  let* x := rd l p in
  let* v := match pv with Some v => Ok v | None => rd l a end in
  Ok (cmp x v).

(** [while (pb <= pc && (r = cmp(pb, pv)) <= 0)] *)
Fixpoint scan_up (fuel : nat) (pv : option T) (a : Z) (l : list T) (pa pb pc : Z) : outcome (list T * Z * Z) :=
  if pb <=? pc then
    let* r := cmp_pivot pv l a pb in
    if r <=? 0 then
      match fuel with
      | O => Err OutOfFuel
      | S fuel =>
          if r =? 0 then let* l := BM_SWAP l pa pb in scan_up fuel pv a l (pa + 1) (pb + 1) pc
          else scan_up fuel pv a l pa (pb + 1) pc
      end
    else Ok (l, pa, pb)
  else Ok (l, pa, pb).

(** [while (pc >= pb && (r = cmp(pc, pv)) >= 0)] *)
Fixpoint scan_down (fuel : nat) (pv : option T) (a : Z) (l : list T) (pb pc pd : Z) : outcome (list T * Z * Z) :=
  if pb <=? pc then
    let* r := cmp_pivot pv l a pc in
    if 0 <=? r then
      match fuel with
      | O => Err OutOfFuel
      | S fuel =>
          if r =? 0 then let* l := BM_SWAP l pc pd in scan_down fuel pv a l pb (pc - 1) (pd - 1)
          else scan_down fuel pv a l pb (pc - 1) pd
      end
    else Ok (l, pc, pd)
  else Ok (l, pc, pd).

(** [for (;;)] *)
Fixpoint partition_loop (fuel : nat) (pv : option T) (a n : Z) (l : list T) (pa pb pc pd : Z)
  : outcome (list T * (Z * Z * Z * Z)) :=
  match fuel with
  | O => Err OutOfFuel
  | S fuel =>
      let* (l, pa, pb) := scan_up (Z.to_nat n) pv a l pa pb pc in
      let* (l, pc, pd) := scan_down (Z.to_nat n) pv a l pb pc pd in
      if pc <? pb then Ok (l, (pa, pb, pc, pd))
      else
        let* l := BM_SWAP l pb pc in
        partition_loop fuel pv a n l pa (pb + 1) (pc - 1) pd
  end.

(** The array with the smaller elements first, the larger ones last, and how
    many there are of each. *)
Definition partition (l : list T) (a n : Z) : outcome (list T * Z * Z) :=
  let* pm := choose_pivot l a n in
  let* (pv, l) := BM_PVINIT l a pm in
  let* (l, ps) := partition_loop (Z.to_nat n) pv a n l a a (a + (n - 1)) (a + (n - 1)) in
  let '(pa, pb, pc, pd) := ps in
  let pn := a + n in
  let s := BM_MIN (pa - a) (pb - pa) in
  let* l := BM_VECSWAP (Z.to_nat s) l a (pb - s) in
  let s := BM_MIN (pd - pc) (pn - pd - 1) in
  let* l := BM_VECSWAP (Z.to_nat s) l pb (pn - s) in
  Ok (l, pb - pa, pd - pc).

(** [stack] is the number of calls that may be nested in this one; a jump to
    [tailcall] takes one of [fuel]. *)
Fixpoint bm_qsort (stack : nat) : nat -> list T -> Z -> Z -> outcome (list T) :=
  let call l a n :=
    match stack with O => Err OutOfFuel | S stack => bm_qsort stack (Z.to_nat n) l a n end in
  fix tailcall (fuel : nat) (l : list T) (a n : Z) : outcome (list T) :=
    if n <? 7 then insertion_sort (Z.to_nat n) l a (a + 1) n
    else
      match fuel with
      | O => Err OutOfFuel
      | S fuel =>
          let* (l, s1, s2) := partition l a n in
          let pn := a + n in
          if s1 <? s2 then
            let* l := if 1 <? s1 then call l a s1 else Ok l in
            if 1 <? s2 then tailcall fuel l (pn - s2) s2 else Ok l
          else
            let* l := if 1 <? s2 then call l (pn - s2) s2 else Ok l in
            if 1 <? s1 then tailcall fuel l a s1 else Ok l
      end.

End Code.

Definition VG_ssort {T} (cmp : T -> T -> Z) (word : bool) (stack : nat) (l : list T) (n : Z) : outcome (list T) :=
  bm_qsort cmp word stack (Z.to_nat n) l 0 n.
