(* ===== verification/QsortTheory.v ===== *)
(** * Theorems on [VG_(ssort)]

    The array stays a permutation of itself, every access is inside it, and
    the elements end up in order. *)

From stdpp Require Import sorting.
From S2P Require Import Prelude Arrays Qsort.

Section Theory.
Context {T : Type} `{Inhabited T} (cmp : T -> T -> Z) `{!Comparison cmp}.
Implicit Types l : list T.

Lemma cmp_refl x : cmp x x = 0.
Proof. pose proof (cmp_sym x x). lia. Qed.

(** ** Arrays *)

(** [l'] is [l] with its elements moved by [f], which is a permutation. *)
Definition permuted (f : Z -> Z) l l' : Prop :=
  length l' = length l /\ l' ≡ₚ l /\ forall k, 0 <= k -> get l' k = get l (f k).

Definition swap_ix (a b k : Z) : Z := if decide (k = a) then b else if decide (k = b) then a else k.

Lemma insert_swap_perm l i j x y : l !! i = Some x -> l !! j = Some y -> <[j := x]> (<[i := y]> l) ≡ₚ l.
Proof.
  intros Hi Hj. destruct (decide (i = j)) as [->|Hij].
  - rewrite list_insert_insert_eq. by rewrite list_insert_id.
  - apply Permutation_inj. split; [by rewrite !length_insert|].
    exists (fun k => if decide (k = i) then j else if decide (k = j) then i else k). split.
    + intros k1 k2. repeat case_decide; congruence.
    + intros k. repeat case_decide; subst.
      * rewrite list_lookup_insert_ne, list_lookup_insert_eq; [done| |done]. by eapply lookup_lt_Some.
      * rewrite list_lookup_insert_eq; [done|]. rewrite length_insert. by eapply lookup_lt_Some.
      * by rewrite !list_lookup_insert_ne by done.
Qed.

Lemma BM_SWAP_spec l a b : 0 <= a < size l -> 0 <= b < size l ->
  exists l', BM_SWAP l a b = Ok l' /\ permuted (swap_ix a b) l l'.
Proof.
  intros Ha Hb. unfold BM_SWAP. destruct (rd_is_ok l a Ha) as (x & Hx & ->), (rd_is_ok l b Hb) as (y & Hy & ->).
  cbn [obind]. rewrite wr_in by done. cbn [obind]. rewrite wr_in by (by rewrite length_insert).
  eexists. split; [done|]. split_and!; [by rewrite !length_insert|by apply insert_swap_perm|].
  intros k Hk. rewrite !get_insert by (unfold size in *; rewrite ?length_insert; done). unfold swap_ix.
  destruct (Z.eqb_spec k b) as [->|Hkb].
  - destruct (decide (b = a)) as [->|]; [|rewrite decide_True by done]; unfold get; by erewrite list_lookup_total_correct.
  - destruct (Z.eqb_spec k a) as [->|Hka]; [rewrite decide_True by done|by rewrite !decide_False by done].
    unfold get. by erewrite list_lookup_total_correct.
Qed.

Definition vec_ix (a b n k : Z) : Z :=
  if decide (a <= k < a + n) then k - a + b
  else if decide (b <= k < b + n) then k - b + a else k.

Lemma BM_VECSWAP_spec n : forall l a b, 0 <= a -> a + Z.of_nat n <= b -> b + Z.of_nat n <= size l ->
  exists l', BM_VECSWAP n l a b = Ok l' /\ permuted (vec_ix a b (Z.of_nat n)) l l'.
Proof.
  induction n as [|n IH]; intros l a b Ha Hab Hb; cbn [BM_VECSWAP].
  - exists l. split; [done|]. split_and!; [done|done|]. intros k Hk. unfold vec_ix. repeat case_decide; (done || lia).
  - destruct (BM_SWAP_spec l a b) as (l1 & -> & Hl1 & Hp1 & Hg1); [lia|lia|]. cbn [obind].
    destruct (IH l1 (a + 1) (b + 1)) as (l2 & -> & Hl2 & Hp2 & Hg2); [lia|lia|unfold size in *; lia|].
    exists l2. split; [done|]. split_and!; [congruence|by rewrite Hp2|].
    intros k Hk. assert (0 <= vec_ix (a + 1) (b + 1) (Z.of_nat n) k) by (unfold vec_ix; repeat case_decide; lia).
    rewrite Hg2, Hg1 by done. f_equal. unfold vec_ix, swap_ix. repeat case_decide; lia.
Qed.

(** [l'] has the elements of [l], those outside the range where they were. *)
Definition moved (lo hi : Z) l l' : Prop :=
  length l' = length l /\ l' ≡ₚ l /\ forall k, 0 <= k -> ~ lo <= k < hi -> get l' k = get l k.

Lemma moved_refl lo hi l : moved lo hi l l.
Proof. done. Qed.

Lemma moved_trans lo hi l1 l2 l3 : moved lo hi l1 l2 -> moved lo hi l2 l3 -> moved lo hi l1 l3.
Proof.
  intros (Hl & Hp & Hg) (Hl2 & Hp2 & Hg2). split_and!; [congruence|by rewrite Hp2|].
  intros k Hk Hr. by rewrite Hg2, Hg.
Qed.

Lemma moved_mono lo hi lo' hi' l l' : lo' <= lo -> hi <= hi' -> moved lo hi l l' -> moved lo' hi' l l'.
Proof. intros Hlo Hhi (Hl & Hp & Hg). split_and!; [done|done|]. intros k Hk Hr. apply Hg; lia. Qed.

Lemma moved_size lo hi l l' : moved lo hi l l' -> size l' = size l.
Proof. intros (Hl & _). unfold size. by rewrite Hl. Qed.

Lemma permuted_moved f lo hi l l' : permuted f l l' -> (forall k, 0 <= k -> ~ lo <= k < hi -> f k = k) -> moved lo hi l l'.
Proof. intros (Hl & Hp & Hg) Hf. split_and!; [done|done|]. intros k Hk Hr. by rewrite Hg, Hf. Qed.

Lemma swap_moved lo hi a b l l' : lo <= a < hi -> lo <= b < hi -> permuted (swap_ix a b) l l' -> moved lo hi l l'.
Proof.
  intros Ha Hb Hp. eapply permuted_moved; [done|]. intros k _ Hk. unfold swap_ix. repeat case_decide; lia.
Qed.

(** Two arrays that agree on a range have the same elements there. *)
Lemma segment_eq lo hi l l' : length l' = length l ->
  (forall k, 0 <= k < Z.of_nat lo \/ Z.of_nat hi <= k -> get l' k = get l k) ->
  take lo l' = take lo l /\ drop hi l' = drop hi l.
Proof.
  intros Hl Hg. assert (Hk : forall k : nat, (k < lo \/ hi <= k)%nat -> l' !! k = l !! k).
  { intros k Hk. destruct (decide (k < length l)%nat) as [Hlt|Hge].
    - rewrite (get_lookup l k _ eq_refl Hlt). apply get_lookup; [apply Hg; lia|lia].
    - by rewrite !lookup_ge_None_2 by lia. }
  split; apply list_eq; intros i.
  - destruct (decide (i < lo)%nat); [by rewrite !lookup_take_lt, Hk by lia|by rewrite !lookup_take_ge by lia].
  - by rewrite !lookup_drop, Hk by lia.
Qed.

(** What holds of the elements of a range holds of them wherever they move. *)
Lemma moved_forall (P : T -> Prop) lo hi l l' : moved lo hi l l' -> 0 <= lo -> hi <= size l ->
  (forall k, lo <= k < hi -> P (get l k)) -> forall k, lo <= k < hi -> P (get l' k).
Proof.
  intros (Hl & Hp & Hg) Hlo Hhi HP k Hk. unfold size in Hhi.
  set (n := Z.to_nat lo). set (m := Z.to_nat (hi - lo)).
  destruct (segment_eq n (n + m) l l' Hl) as [Ht Hd]; [intros i Hi; apply Hg; lia|].
  assert (Hseg : take m (drop n l') ≡ₚ take m (drop n l)).
  { rewrite <-(take_drop n l), <-(take_drop n l') in Hp. rewrite Ht in Hp. apply Permutation_app_inv_l in Hp.
    rewrite <-(take_drop m (drop n l)), <-(take_drop m (drop n l')), !drop_drop in Hp.
    rewrite Hd in Hp. by apply Permutation_app_inv_r in Hp. }
  assert (Hin : get l' k ∈ take m (drop n l')).
  { apply list_elem_of_lookup. exists (Z.to_nat (k - lo)). rewrite lookup_take_lt by lia. rewrite lookup_drop.
    apply get_lookup; [f_equal; lia|lia]. }
  rewrite Hseg in Hin. apply list_elem_of_lookup in Hin as [i Hi].
  apply lookup_take_Some in Hi as [Hi Him]. rewrite lookup_drop in Hi.
  assert (get l (Z.of_nat (n + i)) = get l' k) as <-.
  { unfold get at 1. rewrite Nat2Z.id. by apply list_lookup_total_correct. }
  apply HP. lia.
Qed.

(** ** Order *)

Definition sorted (lo hi : Z) l : Prop := forall i j, lo <= i < j -> j < hi -> cmp (get l i) (get l j) <= 0.

Lemma sorted_moved lo hi lo' hi' l l' : 0 <= lo -> (forall k, lo <= k < hi -> ~ lo' <= k < hi') ->
  moved lo' hi' l l' -> sorted lo hi l -> sorted lo hi l'.
Proof. intros Hlo Hdis (_ & _ & Hg) Hs i j Hi Hj. rewrite !Hg by (lia || apply Hdis; lia). by apply Hs. Qed.

Lemma cmp_at_get l i j : 0 <= i < size l -> 0 <= j < size l -> cmp_at cmp l i j = Ok (cmp (get l i) (get l j)).
Proof. intros Hi Hj. unfold cmp_at. by rewrite !rd_get. Qed.

(** ** Insertion *)

(** In order but for the element at [pl], which is not larger than those behind it. *)
Definition inserting (a pl pm : Z) l : Prop :=
  forall i j, a <= i < j -> j <= pm -> j <> pl -> cmp (get l i) (get l j) <= 0.

Lemma inserting_done a pl pm l : 
  inserting a pl pm l -> (pl <= a \/ cmp (get l (pl - 1)) (get l pl) <= 0) -> sorted a (pm + 1) l.
Proof.
  intros Hi Hd i j Hij Hj. destruct (decide (j = pl)) as [->|]; [|apply Hi; lia].
  destruct Hd as [Hd|Hd]; [lia|]. destruct (decide (i = pl - 1)) as [->|]; [done|].
  apply cmp_le_trans with (get l (pl - 1)); [apply Hi; lia|done].
Qed.

Lemma inserting_step a pl pm l l' : 0 <= a < pl -> pl <= pm -> 0 < cmp (get l (pl - 1)) (get l pl) ->
  permuted (swap_ix pl (pl - 1)) l l' -> inserting a pl pm l -> inserting a (pl - 1) pm l'.
Proof.
  intros Ha Hpl Hgt (_ & _ & Hg) Hi i j Hij Hj Hne. rewrite !Hg by lia. unfold swap_ix.
  assert (Hlt : cmp (get l pl) (get l (pl - 1)) <= 0) by (apply cmp_sym in Hgt; lia).
  repeat case_decide; subst; try lia; try done; apply Hi; lia.
Qed.

Lemma insert_loop_spec fuel : forall l a pl pm, 0 <= a <= pl -> pl <= pm < size l -> pl - a <= Z.of_nat fuel ->
  inserting a pl pm l ->
  exists l', insert_loop cmp fuel l a pl = Ok l' /\ moved a (pm + 1) l l' /\ sorted a (pm + 1) l'.
Proof.
  induction fuel as [|fuel IH]; intros l a pl pm Ha Hpl Hf Hi; cbn [insert_loop];
    (destruct (Z.ltb_spec a pl) as [Hlt|Hge];
     [|exists l; split_and!; [done|apply moved_refl|eapply inserting_done; [done|left; lia]]]); [lia|].
  rewrite cmp_at_get by lia. cbn [obind].
  destruct (Z.ltb_spec 0 (cmp (get l (pl - 1)) (get l pl))) as [Hgt|Hle].
  - destruct (BM_SWAP_spec l pl (pl - 1)) as (l1 & -> & Hp1); [lia|lia|]. cbn [obind].
    assert (Hm : moved a (pm + 1) l l1) by (eapply swap_moved; [| |exact Hp1]; lia).
    destruct (IH l1 a (pl - 1) pm) as (l2 & -> & Hm2 & Hs2); [lia|rewrite (moved_size _ _ _ _ Hm); lia|lia|
      eapply inserting_step; [..|exact Hp1|exact Hi]; lia|].
    exists l2. split_and!; [done|by eapply moved_trans|done].
  - exists l. split_and!; [done|apply moved_refl|]. eapply inserting_done; [exact Hi|by right].
Qed.

Lemma insertion_sort_spec fuel : forall l a pm n, 0 <= a < pm -> 0 <= n -> a + n <= size l -> a + n - pm <= Z.of_nat fuel ->
  sorted a pm l ->
  exists l', insertion_sort cmp fuel l a pm n = Ok l' /\ moved a (a + n) l l' /\ sorted a (a + n) l'.
Proof.
  induction fuel as [|fuel IH]; intros l a pm n Ha Hn Hl Hf Hs; cbn [insertion_sort];
    (destruct (Z.ltb_spec pm (a + n)) as [Hlt|Hge];
     [|exists l; split_and!; [done|apply moved_refl|intros i j Hi Hj; apply Hs; lia]]); [lia|].
  destruct (insert_loop_spec (Z.to_nat n) l a pm pm) as (l1 & -> & Hm & Hs1); [lia|lia|lia|intros i j Hi Hj Hne; apply Hs; lia|].
  cbn [obind]. destruct (IH l1 a (pm + 1) n) as (l2 & -> & Hm2 & Hs2); [lia|lia|rewrite (moved_size _ _ _ _ Hm); lia|lia|done|].
  exists l2. split_and!; [done| |done]. eapply moved_trans; [|exact Hm2]. eapply moved_mono; [..|exact Hm]; lia.
Qed.

(** ** The pivot *)

Lemma bm_med3_spec l a b c : 0 <= a < size l -> 0 <= b < size l -> 0 <= c < size l ->
  exists r, bm_med3 cmp l a b c = Ok r /\ (r = a \/ r = b \/ r = c).
Proof.
  intros Ha Hb Hc. unfold bm_med3. rewrite !cmp_at_get by done. cbn [obind].
  repeat case_test; eexists; (split; [done|]); tauto.
Qed.

Lemma choose_pivot_spec l a n : 0 <= a -> 7 <= n -> a + n <= size l ->
  exists pm, choose_pivot cmp l a n = Ok pm /\ a <= pm < a + n.
Proof.
  intros Ha Hn Hl. unfold choose_pivot. assert (Hh : 0 <= n / 2 < n) by div_lia.
  destruct (Z.ltb_spec 7 n); [|eexists; split; [done|lia]].
  destruct (Z.ltb_spec 40 n).
  - assert (H8 : 0 <= n / 8 /\ 2 * (n / 8) < n / 2 /\ n / 2 + n / 8 < n) by div_lia.
    destruct (bm_med3_spec l a (a + n / 8) (a + 2 * (n / 8))) as (pl & -> & Hpl); [lia..|]. cbn [obind].
    destruct (bm_med3_spec l (a + n / 2 - n / 8) (a + n / 2) (a + n / 2 + n / 8)) as (pm & -> & Hpm); [lia..|]. cbn [obind].
    destruct (bm_med3_spec l (a + (n - 1) - 2 * (n / 8)) (a + (n - 1) - n / 8) (a + (n - 1))) as (pn & -> & Hpn); [lia..|].
    cbn [obind]. destruct (bm_med3_spec l pl pm pn) as (r & -> & Hr); [lia..|]. exists r. split; [done|lia].
  - destruct (bm_med3_spec l a (a + n / 2) (a + (n - 1))) as (r & -> & Hr); [lia..|]. exists r. split; [done|lia].
Qed.

(** ** Partition *)

(** A range whose elements compare with [v] in a given way. *)
Definition all_of (P : Z -> Prop) (v : T) (lo hi : Z) l : Prop := forall k, lo <= k < hi -> P (cmp (get l k) v).

Definition is_zero (r : Z) : Prop := r = 0.
Definition negative (r : Z) : Prop := r < 0.
Definition positive (r : Z) : Prop := 0 < r.

(** The equal elements at both ends, the smaller ones, those not looked at, the larger ones. *)
Record split_ends (v : T) (a n pa pb pc pd : Z) l : Prop := mk_split_ends {
  se_order : 0 <= a /\ a <= pa /\ pa <= pb /\ pb <= pc + 1 /\ pc <= pd /\ pd < a + n /\ a + n <= size l;
  se_eq_left : all_of is_zero v a pa l;
  se_less : all_of negative v pa pb l;
  se_greater : all_of positive v (pc + 1) (pd + 1) l;
  se_eq_right : all_of is_zero v (pd + 1) (a + n) l
}.

(** Where the pivot is kept: its first element is not moved any more, once [pa] has passed it. *)
Definition pivot_kept (pv : option T) (v : T) (a pa : Z) l : Prop :=
  match pv with Some w => w = v | None => get l a = v /\ a < pa end.

(** At the very start nothing has passed it. *)
Definition pivot_start (pv : option T) (v : T) (a pa pb pc : Z) l : Prop :=
  match pv with Some w => w = v | None => get l a = v /\ (a < pa \/ pa = a /\ pb = a /\ a <= pc) end.

Lemma cmp_pivot_get pv v a p l : 0 <= a < size l -> 0 <= p < size l ->
  match pv with Some w => w = v | None => get l a = v end -> cmp_pivot cmp pv l a p = Ok (cmp (get l p) v).
Proof.
  intros Ha Hp Hv. unfold cmp_pivot. rewrite rd_get by done. cbn [obind].
  destruct pv as [w|]; [by rewrite Hv|]. rewrite rd_get by done. cbn [obind]. by rewrite Hv.
Qed.

Lemma permuted_size f l l' : permuted f l l' -> size l' = size l.
Proof. intros (Hl & _). unfold size. by rewrite Hl. Qed.

(** Push what is known of [l] through an exchange. *)
Ltac swapped Hg :=
  intros k Hk; rewrite Hg by lia; unfold swap_ix; repeat case_decide; subst; try lia; try done.

Lemma scan_up_spec fuel : forall pv v a n l pa pb pc pd,
  split_ends v a n pa pb pc pd l -> pivot_start pv v a pa pb pc l -> pc + 1 - pb <= Z.of_nat fuel ->
  exists l' pa' pb', scan_up cmp fuel pv a l pa pb pc = Ok (l', pa', pb')
    /\ moved a (a + n) l l' /\ split_ends v a n pa' pb' pc pd l' /\ pivot_kept pv v a pa' l' /\ pb <= pb'
    /\ (pb' <= pc -> 0 < cmp (get l' pb') v).
Proof.
  induction fuel as [|fuel IH]; intros pv v a n l pa pb pc pd Hs Hp Hf; cbn [scan_up];
    pose proof Hs as [Ho Hl1 Hl2 Hg2 Hg1];
    (destruct (Z.leb_spec pb pc) as [Hle|Hgt]; [|exists l, pa, pb; split_and!; try done; try lia;
       destruct pv; [done|]; destruct Hp as [? [?|?]]; [done|lia]]); [lia|].
  rewrite (cmp_pivot_get pv v) by (lia || (destruct pv; [done|by destruct Hp])). cbn [obind].
  destruct (Z.leb_spec (cmp (get l pb) v) 0) as [Hr|Hr].
  2: { exists l, pa, pb. split_and!; try done. destruct pv; [done|]. destruct Hp as [Hv [?|(-> & -> & _)]]; [done|].
       rewrite Hv, cmp_refl in Hr. lia. }
  destruct (Z.eqb_spec (cmp (get l pb) v) 0) as [Heq|Hneq].
  - destruct (BM_SWAP_spec l pa pb) as (l1 & -> & Hp1); [lia..|]. cbn [obind].
    assert (Hm : moved a (a + n) l l1) by (eapply swap_moved; [| |exact Hp1]; lia).
    pose proof (permuted_size _ _ _ Hp1) as Hsz. destruct Hp1 as (_ & _ & Hg).
    destruct (IH pv v a n l1 (pa + 1) (pb + 1) pc pd) as (l2 & pa' & pb' & -> & Hm2 & Hs2 & Hk2 & Hb2 & Hd2).
    + split; [lia|..].
      * swapped Hg. apply Hl1. lia.
      * swapped Hg; apply Hl2; lia.
      * swapped Hg. apply Hg2. lia.
      * swapped Hg. apply Hg1. lia.
    + destruct pv as [w|]; [done|]. destruct Hp as [Hv Hp]. split; [|lia].
      rewrite Hg by lia. unfold swap_ix. repeat case_decide; subst; try lia; try done.
      destruct Hp as [?|(_ & -> & _)]; [lia|done].
    + lia.
    + exists l2, pa', pb'. split_and!; try done; [by eapply moved_trans|lia].
  - destruct (IH pv v a n l pa (pb + 1) pc pd) as (l2 & pa' & pb' & -> & Hm2 & Hs2 & Hk2 & Hb2 & Hd2).
    + split; try done; [lia|]. intros k Hk. destruct (decide (k = pb)) as [->|]; [unfold negative; lia|apply Hl2; lia].
    + destruct pv as [w|]; [done|]. destruct Hp as [Hv [?|(-> & -> & _)]]; [split; [done|lia]|].
      by rewrite Hv, cmp_refl in Hneq.
    + lia.
    + exists l2, pa', pb'. split_and!; try done. lia.
Qed.

Lemma scan_down_spec fuel : forall pv v a n l pa pb pc pd,
  split_ends v a n pa pb pc pd l -> pivot_kept pv v a pa l -> pc + 1 - pb <= Z.of_nat fuel ->
  (pb <= pc -> 0 < cmp (get l pb) v) ->
  exists l' pc' pd', scan_down cmp fuel pv a l pb pc pd = Ok (l', pc', pd')
    /\ moved a (a + n) l l' /\ split_ends v a n pa pb pc' pd' l' /\ pivot_kept pv v a pa l' /\ pc' <= pc
    /\ (pb <= pc' -> 0 < cmp (get l' pb) v /\ cmp (get l' pc') v < 0).
Proof.
  induction fuel as [|fuel IH]; intros pv v a n l pa pb pc pd Hs Hp Hf Hpb; cbn [scan_down];
    pose proof Hs as [Ho Hl1 Hl2 Hg2 Hg1];
    (destruct (Z.leb_spec pb pc) as [Hle|Hgt]; [|exists l, pc, pd; split_and!; try done; lia]); [lia|].
  rewrite (cmp_pivot_get pv v) by (lia || (destruct pv; [done|by destruct Hp])). cbn [obind].
  specialize (Hpb Hle).
  destruct (Z.leb_spec 0 (cmp (get l pc) v)) as [Hr|Hr]; [|exists l, pc, pd; by split_and!].
  destruct (Z.eqb_spec (cmp (get l pc) v) 0) as [Heq|Hneq].
  - assert (pb <> pc) by (intros ->; lia).
    destruct (BM_SWAP_spec l pc pd) as (l1 & -> & Hp1); [lia..|]. cbn [obind].
    assert (Hm : moved a (a + n) l l1) by (eapply swap_moved; [| |exact Hp1]; lia).
    pose proof (permuted_size _ _ _ Hp1) as Hsz. destruct Hp1 as (_ & _ & Hg).
    destruct (IH pv v a n l1 pa pb (pc - 1) (pd - 1)) as (l2 & pc' & pd' & -> & Hm2 & Hs2 & Hk2 & Hb2 & Hd2).
    + split; [lia|..].
      * swapped Hg. apply Hl1. lia.
      * swapped Hg; apply Hl2; lia.
      * swapped Hg; apply Hg2; lia.
      * intros k Hk. rewrite Hg by lia. unfold swap_ix. destruct (decide (k = pc)); [assert (pd = pc) as -> by lia; done|].
        case_decide; [done|apply Hg1; lia].
    + destruct pv as [w|]; [done|]. destruct Hp as [Hv Hp]. split; [|lia].
      rewrite Hg by lia. unfold swap_ix. by rewrite !decide_False by lia.
    + lia.
    + intros _. rewrite Hg by lia. unfold swap_ix. by rewrite !decide_False by lia.
    + exists l2, pc', pd'. split_and!; try done; [by eapply moved_trans|lia].
  - destruct (IH pv v a n l pa pb (pc - 1) pd) as (l2 & pc' & pd' & -> & Hm2 & Hs2 & Hk2 & Hb2 & Hd2).
    + split; try done; [lia|]. intros k Hk. destruct (decide (k = pc)) as [->|]; [unfold positive; lia|apply Hg2; lia].
    + done.
    + lia.
    + done.
    + exists l2, pc', pd'. split_and!; try done. lia.
Qed.

Lemma partition_loop_spec fuel : forall pv v a n l pa pb pc pd,
  split_ends v a n pa pb pc pd l -> pivot_start pv v a pa pb pc l -> pc - pb + 2 <= 2 * Z.of_nat fuel ->
  exists l' pa' pb' pc' pd', partition_loop cmp fuel pv a n l pa pb pc pd = Ok (l', (pa', pb', pc', pd'))
    /\ moved a (a + n) l l' /\ split_ends v a n pa' pb' pc' pd' l' /\ pb' = pc' + 1.
Proof.
  induction fuel as [|fuel IH]; intros pv v a n l pa pb pc pd Hs Hp Hf; cbn [partition_loop];
    pose proof Hs as [Ho _ _ _ _]; [lia|].
  destruct (scan_up_spec (Z.to_nat n) _ _ _ _ _ _ _ _ _ Hs Hp) as (l1 & pa1 & pb1 & -> & Hm1 & Hs1 & Hk1 & Hb1 & Hd1); [lia|].
  cbn [obind]. pose proof Hs1 as [Ho1 _ _ _ _].
  destruct (scan_down_spec (Z.to_nat n) _ _ _ _ _ _ _ _ _ Hs1 Hk1) as (l2 & pc2 & pd2 & -> & Hm2 & Hs2 & Hk2 & Hc2 & Hd2);
    [lia|done|].
  cbn [obind]. assert (Hm := moved_trans _ _ _ _ _ Hm1 Hm2). pose proof Hs2 as [Ho2 Hl1 Hl2 Hg2 Hg1].
  destruct (Z.ltb_spec pc2 pb1) as [Hlt|Hge].
  - exists l2, pa1, pb1, pc2, pd2. split_and!; try done. lia.
  - destruct (Hd2 Hge) as [Hpos Hneg]. assert (pb1 <> pc2) by (intros ->; lia).
    destruct (BM_SWAP_spec l2 pb1 pc2) as (l3 & -> & Hp3); [lia..|]. cbn [obind].
    assert (Hm3 : moved a (a + n) l2 l3) by (eapply swap_moved; [| |exact Hp3]; lia).
    pose proof (permuted_size _ _ _ Hp3) as Hsz. destruct Hp3 as (_ & _ & Hg).
    destruct (IH pv v a n l3 pa1 (pb1 + 1) (pc2 - 1) pd2) as (l4 & pa' & pb' & pc' & pd' & -> & Hm4 & Hs4 & E).
    + split; [lia|..].
      * swapped Hg. apply Hl1. lia.
      * swapped Hg; apply Hl2; lia.
      * swapped Hg; apply Hg2; lia.
      * swapped Hg. apply Hg1. lia.
    + destruct pv as [w|]; [done|]. destruct Hk2 as [Hv Hk2]. split; [|by left].
      rewrite Hg by lia. unfold swap_ix. by rewrite !decide_False by lia.
    + lia.
    + exists l4, pa', pb', pc', pd'. split_and!; try done. eapply moved_trans; [exact Hm|by eapply moved_trans].
Qed.

(** The three parts: smaller, equal and larger elements. *)
Definition three_way (v : T) (a n s1 s2 : Z) l : Prop :=
  all_of negative v a (a + s1) l /\ all_of is_zero v (a + s1) (a + n - s2) l
  /\ all_of positive v (a + n - s2) (a + n) l.

Lemma BM_MIN_spec x y : BM_MIN x y = Z.min x y.
Proof. unfold BM_MIN. case_test; lia. Qed.

Lemma vec_moved lo hi a b n l l' : lo <= a -> a + n <= hi -> lo <= b -> b + n <= hi ->
  permuted (vec_ix a b n) l l' -> moved lo hi l l'.
Proof.
  intros Ha Hb Ha' Hb' Hp. eapply permuted_moved; [done|]. intros k _ Hk. unfold vec_ix. repeat case_decide; lia.
Qed.

(** The equal elements go from the ends to the middle. *)
Lemma gather_spec v a n pa pb pc pd l : split_ends v a n pa pb pc pd l -> pb = pc + 1 ->
  exists l1 l2, let s := BM_MIN (pa - a) (pb - pa) in let s' := BM_MIN (pd - pc) (a + n - pd - 1) in
    BM_VECSWAP (Z.to_nat s) l a (pb - s) = Ok l1 /\ BM_VECSWAP (Z.to_nat s') l1 pb (a + n - s') = Ok l2
    /\ moved a (a + n) l l2 /\ three_way v a n (pb - pa) (pd - pc) l2.
Proof.
  intros [Ho Hl1 Hl2 Hg2 Hg1] E. rewrite !BM_MIN_spec. set (s := Z.min _ _). set (s' := Z.min _ _).
  destruct (BM_VECSWAP_spec (Z.to_nat s) l a (pb - s)) as (l1 & E1 & Hp1); [lia..|].
  pose proof (permuted_size _ _ _ Hp1) as Hz1.
  destruct (BM_VECSWAP_spec (Z.to_nat s') l1 pb (a + n - s')) as (l2 & E2 & Hp2); [lia..|].
  exists l1, l2. cbn zeta. split_and!; [done|done| |].
  - rewrite Z2Nat.id in Hp1, Hp2 by lia.
    eapply moved_trans; [eapply vec_moved; [..|exact Hp1]|eapply vec_moved; [..|exact Hp2]]; lia.
  - rewrite Z2Nat.id in Hp1, Hp2 by lia. destruct Hp1 as (_ & _ & G1), Hp2 as (_ & _ & G2).
    assert (G : forall k, 0 <= k -> get l2 k = get l (vec_ix a (pb - s) s (vec_ix pb (a + n - s') s' k))).
    { intros k Hk. rewrite G2 by done. apply G1. unfold vec_ix. repeat case_decide; lia. }
    split_and!; intros k Hk; rewrite G by lia; unfold vec_ix; repeat case_decide; try lia;
      first [apply Hl1; lia | apply Hl2; lia | apply Hg1; lia | apply Hg2; lia
        | destruct (decide (k < pb)); [apply Hl1; lia|apply Hg1; lia]].
Qed.

Lemma choose_and_init_spec word l a n pm : 0 <= a -> 0 < n -> a + n <= size l -> a <= pm < a + n ->
  exists pv l1 v, BM_PVINIT word l a pm = Ok (pv, l1) /\ moved a (a + n) l l1
    /\ pivot_start pv v a a a (a + (n - 1)) l1 /\ exists k, a <= k < a + n /\ get l1 k = v.
Proof.
  intros Ha Hn Hl Hpm. unfold BM_PVINIT. destruct word.
  - rewrite rd_get by lia. exists (Some (get l pm)), l, (get l pm). split_and!; try done. by exists pm.
  - destruct (BM_SWAP_spec l a pm) as (l1 & -> & Hp); [lia..|]. exists None, l1, (get l1 a).
    split_and!; [done|by eapply swap_moved; [| |exact Hp]; lia|split; [done|lia]|exists a; split; [lia|done]].
Qed.

Lemma partition_spec word l a n : 0 <= a -> 7 <= n -> a + n <= size l ->
  exists l' s1 s2 v, partition cmp word l a n = Ok (l', s1, s2) /\ moved a (a + n) l l'
    /\ 0 <= s1 /\ 0 <= s2 /\ s1 + s2 < n /\ three_way v a n s1 s2 l'.
Proof.
  intros Ha Hn Hl. unfold partition.
  destruct (choose_pivot_spec l a n) as (pm & -> & Hpm); [lia..|]. cbn [obind].
  destruct (choose_and_init_spec word l a n pm) as (pv & l1 & v & -> & Hm1 & Hp1 & k0 & Hk0 & Hv); [lia..|]. cbn [obind].
  destruct (partition_loop_spec (Z.to_nat n) pv v a n l1 a a (a + (n - 1)) (a + (n - 1)))
    as (l2 & pa & pb & pc & pd & -> & Hm2 & Hs2 & E); [|done|lia|].
  { split; [rewrite (moved_size _ _ _ _ Hm1); lia|intros k Hk; lia..]. }
  cbn [obind]. destruct (gather_spec _ _ _ _ _ _ _ _ Hs2 E) as (l3 & l4 & -> & E4 & Hm4 & H3). cbn [obind]. rewrite E4.
  cbn [obind]. exists l4, (pb - a - (pa - a)), (pd - pc), v. replace (pb - a - (pa - a)) with (pb - pa) by lia.
  destruct Hs2 as [Ho _ _ _ _]. split_and!; [done|by do 2 (eapply moved_trans; [done|])|lia|lia| |done].
  destruct (decide (pb - pa + (pd - pc) < n)) as [|Hall]; [done|exfalso].
  assert (Hne : forall k, a <= k < a + n -> cmp (get l4 k) v <> 0).
  { destruct H3 as (Hneg & _ & Hpos). unfold all_of, negative, positive in *. intros k Hk.
    destruct (decide (k < a + (pb - pa))); [specialize (Hneg k); lia|specialize (Hpos k); lia]. }
  assert (Hback : moved a (a + n) l4 l1).
  { destruct (moved_trans _ _ _ _ _ Hm2 Hm4) as (Hlen & Hperm & Hg). split_and!; [done|by rewrite Hperm|].
    intros k Hk Hr. by rewrite Hg. }
  apply (moved_forall (fun x => cmp x v <> 0) a (a + n) l4 l1 Hback) with (k := k0); try done.
  - rewrite (moved_size _ _ _ _ Hm4), (moved_size _ _ _ _ Hm2), (moved_size _ _ _ _ Hm1). done.
  - rewrite Hv. apply cmp_refl.
Qed.

(** ** The recursion *)

Lemma all_of_moved P v lo hi lo' hi' l l' : 0 <= lo -> 0 <= lo' -> hi' <= size l -> moved lo' hi' l l' ->
  (lo = lo' /\ hi = hi') \/ hi <= lo' \/ hi' <= lo -> all_of P v lo hi l -> all_of P v lo hi l'.
Proof.
  intros Hlo Hlo' Hhi' Hm Hr Ha. destruct Hr as [[-> ->]|Hr].
  - exact (moved_forall (fun x => P (cmp x v)) _ _ _ _ Hm Hlo Hhi' Ha).
  - intros k Hk. destruct Hm as (_ & _ & ->); [by apply Ha|lia|lia].
Qed.

(** Sorting a part keeps the three parts. *)
Lemma three_way_moved_left v a n s1 s2 l l' : 0 <= a -> 0 <= s1 -> 0 <= s2 -> s1 + s2 <= n -> a + n <= size l ->
  moved a (a + s1) l l' -> three_way v a n s1 s2 l -> three_way v a n s1 s2 l'.
Proof. intros ? ? ? ? ? Hm (? & ? & ?). split_and!; (eapply all_of_moved; [..|exact Hm| |done]; lia). Qed.

Lemma three_way_moved_right v a n s1 s2 l l' : 0 <= a -> 0 <= s1 -> 0 <= s2 -> s1 + s2 <= n -> a + n <= size l ->
  moved (a + n - s2) (a + n) l l' -> three_way v a n s1 s2 l -> three_way v a n s1 s2 l'.
Proof. intros ? ? ? ? ? Hm (? & ? & ?). split_and!; (eapply all_of_moved; [..|exact Hm| |done]; lia). Qed.

Lemma three_way_sorted v a n s1 s2 l : three_way v a n s1 s2 l ->
  sorted a (a + s1) l -> sorted (a + n - s2) (a + n) l -> sorted a (a + n) l.
Proof.
  intros (Hneg & Hz & Hpos) Hs1 Hs2 i j Hi Hj. unfold all_of, negative, is_zero, positive in *.
  assert (Hle : forall k, a <= k < a + n - s2 -> cmp (get l k) v <= 0).
  { intros k Hk. destruct (decide (k < a + s1)); [specialize (Hneg k); lia|specialize (Hz k); lia]. }
  assert (Hge : forall k, a + s1 <= k < a + n -> cmp v (get l k) <= 0).
  { intros k Hk. destruct (decide (k < a + n - s2)) as [Hlt|Hge].
    - destruct (Z.lt_total 0 (cmp v (get l k))) as [H0|[H0|H0]]; [|lia|lia]. apply cmp_sym in H0. specialize (Hz k). lia.
    - assert (H0 : 0 < cmp (get l k) v) by (apply Hpos; lia). apply cmp_sym in H0. lia. }
  destruct (decide (j < a + s1)); [apply Hs1; lia|]. destruct (decide (a + n - s2 <= i)); [apply Hs2; lia|].
  eapply cmp_le_trans; [apply Hle; lia|apply Hge; lia].
Qed.

(** A part of at most one element is in order as it is. *)
Lemma sort_part (f : list T -> outcome (list T)) l lo hi k :
  (1 < k -> exists l', f l = Ok l' /\ moved lo hi l l' /\ sorted lo hi l') -> hi = lo + k ->
  exists l', (if 1 <? k then f l else Ok l) = Ok l' /\ moved lo hi l l' /\ sorted lo hi l'.
Proof.
  intros Hf Hk. destruct (Z.ltb_spec 1 k); [auto|]. exists l. split_and!; [done|apply moved_refl|intros i j; lia].
Qed.

Context (word : bool).

Definition sorts (f : list T -> outcome (list T)) (lo hi : Z) l : Prop :=
  exists l', f l = Ok l' /\ moved lo hi l l' /\ sorted lo hi l'.

(** After the partition, both parts are sorted, in either order. *)
Lemma sort_left_right v a n s1 s2 f g l : 0 <= a -> 0 <= s1 -> 0 <= s2 -> s1 + s2 <= n -> a + n <= size l ->
  three_way v a n s1 s2 l ->
  (forall l, size l >= a + n -> 1 < s1 -> sorts f a (a + s1) l) ->
  (forall l, size l >= a + n -> 1 < s2 -> sorts g (a + n - s2) (a + n) l) ->
  sorts (fun l => let* l := (if 1 <? s1 then f l else Ok l) in if 1 <? s2 then g l else Ok l) a (a + n) l
  /\ sorts (fun l => let* l := (if 1 <? s2 then g l else Ok l) in if 1 <? s1 then f l else Ok l) a (a + n) l.
Proof.
  intros Ha H1 H2 Hs Hl H3 Hf Hg.
  assert (Hpf : forall l, a + n <= size l -> exists l', (if 1 <? s1 then f l else Ok l) = Ok l' /\ moved a (a + s1) l l' /\ sorted a (a + s1) l')
    by (intros l0 Hl0; apply sort_part; [apply Hf; lia|lia]).
  assert (Hpg : forall l, a + n <= size l -> exists l', (if 1 <? s2 then g l else Ok l) = Ok l' /\ moved (a + n - s2) (a + n) l l' /\ sorted (a + n - s2) (a + n) l')
    by (intros l0 Hl0; apply sort_part; [apply Hg; lia|lia]).
  split.
  - destruct (Hpf l Hl) as (l1 & E1 & Hm1 & Hs1).
    destruct (Hpg l1 ltac:(rewrite (moved_size _ _ _ _ Hm1); lia)) as (l2 & E2 & Hm2 & Hs2).
    exists l2. rewrite E1. cbn [obind]. split_and!; [done| |].
    + eapply moved_trans; [eapply moved_mono; [..|exact Hm1]|eapply moved_mono; [..|exact Hm2]]; lia.
    + eapply (three_way_sorted v); [|eapply sorted_moved; [..|exact Hm2|exact Hs1]; lia|done].
      eapply three_way_moved_right; [..|exact Hm2|]; try lia; [rewrite (moved_size _ _ _ _ Hm1); lia|].
      by eapply three_way_moved_left; [..|exact Hm1|].
  - destruct (Hpg l Hl) as (l1 & E1 & Hm1 & Hs1).
    destruct (Hpf l1 ltac:(rewrite (moved_size _ _ _ _ Hm1); lia)) as (l2 & E2 & Hm2 & Hs2).
    exists l2. rewrite E1. cbn [obind]. split_and!; [done| |].
    + eapply moved_trans; [eapply moved_mono; [..|exact Hm1]|eapply moved_mono; [..|exact Hm2]]; lia.
    + eapply (three_way_sorted v); [|done|eapply sorted_moved; [..|exact Hm2|exact Hs1]; lia].
      eapply three_way_moved_left; [..|exact Hm2|]; try lia; [rewrite (moved_size _ _ _ _ Hm1); lia|].
      by eapply three_way_moved_right; [..|exact Hm1|].
Qed.

(** The smaller part is less than half of the array, so that one more nested
    call is enough for twice the elements. *)
Lemma bm_qsort_spec stack : forall fuel l a n, 0 <= a -> 0 <= n -> a + n <= size l -> n <= Z.of_nat fuel ->
  n < 7 * 2 ^ Z.of_nat stack -> sorts (fun l => bm_qsort cmp word stack fuel l a n) a (a + n) l.
Proof.
  induction stack as [|stack IHs]; intros fuel.
  { intros l a n Ha Hn Hl Hf Hst. change (2 ^ Z.of_nat 0) with 1 in Hst.
    destruct fuel; unfold sorts; cbn [bm_qsort];
      (destruct (Z.ltb_spec n 7); [|lia]); (apply insertion_sort_spec; [lia..|intros i j; lia]). }
  rewrite Nat2Z.inj_succ, Z.pow_succ_r by lia.
  induction fuel as [|fuel IHf]; intros l a n Ha Hn Hl Hf Hst; unfold sorts; cbn [bm_qsort];
    (destruct (Z.ltb_spec n 7) as [Hlt|Hge]; [apply insertion_sort_spec; [lia..|intros i j; lia]|]); [lia|].
  destruct (partition_spec word l a n) as (l1 & s1 & s2 & v & -> & Hm1 & H1 & H2 & Hs & H3); [lia..|]. cbn [obind].
  pose proof (moved_size _ _ _ _ Hm1) as Hz. destruct (Z.ltb_spec s1 s2).
  - destruct (sort_left_right v a n s1 s2 (fun l => bm_qsort cmp word stack (Z.to_nat s1) l a s1)
      (fun l => bm_qsort cmp word (S stack) fuel l (a + n - s2) s2) l1) as [(l2 & E & Hm2 & Hs2) _]; try lia; try done.
    + intros l0 Hl0 Hs1. apply IHs; lia.
    + intros l0 Hl0 Hs2. replace (a + n) with (a + n - s2 + s2) at 2 by lia. apply IHf; lia.
    + exists l2. split_and!; [exact E|by eapply moved_trans|done].
  - destruct (sort_left_right v a n s1 s2 (fun l => bm_qsort cmp word (S stack) fuel l a s1)
      (fun l => bm_qsort cmp word stack (Z.to_nat s2) l (a + n - s2) s2) l1) as [_ (l2 & E & Hm2 & Hs2)]; try lia; try done.
    + intros l0 Hl0 Hs1. apply IHf; lia.
    + intros l0 Hl0 Hs2. replace (a + n) with (a + n - s2 + s2) at 2 by lia. apply IHs; lia.
    + exists l2. split_and!; [exact E|by eapply moved_trans|done].
Qed.
End Theory.

Lemma sorted_StronglySorted {T} `{Inhabited T} (cmp : T -> T -> Z) l : sorted cmp 0 (size l) l ->
  StronglySorted (fun x y => cmp x y <= 0) l.
Proof.
  induction l as [|x l IH]; intros Hs; constructor.
  - apply IH. intros i j Hi Hj. specialize (Hs (i + 1) (j + 1)). unfold get, size in *.
    rewrite !Z2Nat.inj_add in Hs by lia. change (Z.to_nat 1) with 1%nat in Hs. rewrite !Nat.add_1_r in Hs. apply Hs; cbn; lia.
  - apply Forall_forall. intros y [k Hk]%list_elem_of_lookup. apply lookup_lt_Some in Hk as Hlt.
    specialize (Hs 0 (Z.of_nat (S k))). unfold get, size in Hs. rewrite Nat2Z.id in Hs.
    rewrite (list_lookup_total_correct (x :: l) (S k) y Hk) in Hs. apply Hs; cbn [length]; lia.
Qed.

(** C17: [VG_(ssort)] sorts: for every array and every comparison that is one,
    whether the elements are words or not, the result is a permutation in the
    order of the comparison. No access is outside the array, all loops end, and
    for fewer than 7 * 2^d elements no more than d calls are ever nested. *)
Theorem ssort_sorts {T} (cmp : T -> T -> Z) `{!Comparison cmp} word stack (l : list T)
  (Hl : Z.of_nat (length l) < 7 * 2 ^ Z.of_nat stack) :
  exists l', VG_ssort cmp word stack l (Z.of_nat (length l)) = Ok l'
    /\ l' ≡ₚ l /\ StronglySorted (fun x y => cmp x y <= 0) l'.
Proof.
  destruct l as [|x l].
  { exists []. split_and!; [|done|constructor]. by destruct stack. }
  pose (HI := populate x : Inhabited T).
  destruct (bm_qsort_spec cmp word stack (length (x :: l)) (x :: l) 0 (Z.of_nat (length (x :: l))))
    as (l' & E & Hm & Hs); [lia|lia|unfold size; lia|lia|done|].
  exists l'. unfold VG_ssort. rewrite Nat2Z.id. split_and!; [done|apply Hm|].
  apply sorted_StronglySorted. by rewrite (moved_size _ _ _ _ Hm).
Qed.

#[export] Instance sub_comparison : Comparison Z.sub.
Proof. split; intros; lia. Qed.

Lemma ssort_sorts_witness :
  exists l', VG_ssort Z.sub true 1 [9; 2; 8; 2; 7; 3; 6; 1; 5] 9 = Ok l'
    /\ l' ≡ₚ [9; 2; 8; 2; 7; 3; 6; 1; 5] /\ StronglySorted (fun x y => x - y <= 0) l'.
Proof. apply (ssort_sorts Z.sub true 1 [9; 2; 8; 2; 7; 3; 6; 1; 5]). cbn. lia. Defined.

Example ssort_example :
  VG_ssort Z.sub false 1 [9; 2; 8; 2; 7; 3; 6; 1; 5] 9 = Ok [1; 2; 2; 3; 5; 6; 7; 8; 9].
Proof. vm_compute. reflexivity. Qed.
