(* ===== verification/XArray.v ===== *)
(** * Expandable arrays: coregrind/m_xarray.c

    An [XArray] of elements of any type.  A block of memory is the list of the
    elements it has room for; what is in a block that was just allocated is
    [junk], of which nothing is known.  Functions of the client are given as
    the functions they are, so the allocator and the cost centre are left out. *)

From S2P Require Import Prelude LibcBase Arrays Mem Qsort.

(** ** The code *)

Record XArray (T : Type) := mk_XArray {
  cmpFn : option (T -> T -> Z);
  elemSzB : Z;
  arr : option (list T);
  usedsizeE : Z;
  totsizeE : Z;
  xa_sorted : bool
}.
Arguments mk_XArray {T}.
Arguments cmpFn {T}.
Arguments elemSzB {T}.
Arguments arr {T}.
Arguments usedsizeE {T}.
Arguments totsizeE {T}.
Arguments xa_sorted {T}.

#[export] Instance XArray_eta {T} : RecordEta (XArray T) := fun s =>
  mk_XArray (cmpFn s) (elemSzB s) (arr s) (usedsizeE s) (totsizeE s) (xa_sorted s).

Section Code.
Context {T : Type} (junk : T).
Implicit Types xa : XArray T.

Definition VG_newXA (elemSzB : Z) : outcome (XArray T) :=
  let* _ := assert_that (0 <? elemSzB) in
  Ok (mk_XArray None elemSzB None 0 0 false).

(** [alloc_fn(cc, n * xa->elemSzB)]: the product is a [Word]. *)
Definition alloc_elems xa (n : Z) : outcome (list T) :=
  let* _ := defined_when (long_in_range (n * elemSzB xa)) in
  Ok (replicate (Z.to_nat n) junk).

(** [VG_(memcpy)(dst, src, n)] for two blocks. *)
Definition copy_block (dst src : list T) (n : Z) : outcome (list T) :=
  let* m := VG_memcpy (dst ++ src) 0 (Z.of_nat (length dst)) n in Ok (take (length dst) m).

(** The block [xa->arr] points to. *)
Definition block xa : outcome (list T) := match arr xa with Some b => Ok b | None => Err Undefined end.

Definition VG_cloneXA xa : outcome (XArray T) :=
  let* _ := assert_that (1 <=? elemSzB xa) in
  match arr xa with
  | None => Ok xa
  | Some b =>
      let nyu := xa <| totsizeE := usedsizeE xa |> in
      let* d := alloc_elems nyu (totsizeE nyu) in
      let* d := copy_block d b (totsizeE nyu) in
      Ok (nyu <| arr := Some d |>)
  end.

Definition VG_setCmpFnXA xa (compar : T -> T -> Z) : XArray T :=
  xa <| cmpFn := Some compar |> <| xa_sorted := false |>.

(** The element that the pointer [VG_(indexXA)] returns points to. *)
Definition VG_indexXA xa (n : Z) : outcome T :=
  let* _ := assert_that (u64 n <? u64 (usedsizeE xa)) in
  let* b := block xa in rd b n.

(** A store to what the pointer points to. *)
Definition store_at xa (n : Z) (v : T) : outcome (XArray T) :=
  let* _ := assert_that (u64 n <? u64 (usedsizeE xa)) in
  let* b := block xa in let* b := wr b n v in Ok (xa <| arr := Some b |>).

Definition no_block xa : bool := match arr xa with None => true | Some _ => false end.

Definition VG_hintSizeXA xa (n : Z) : outcome (XArray T) :=
  let* _ := assert_that (usedsizeE xa =? 0) in
  let* _ := assert_that (totsizeE xa =? 0) in
  let* _ := assert_that (no_block xa) in
  if 0 <? n then
    let* b := alloc_elems xa n in Ok (xa <| arr := Some b |> <| totsizeE := n |>)
  else Ok xa.

Definition ensureSpaceXA xa : outcome (XArray T) :=
  if usedsizeE xa =? totsizeE xa then
    let* _ := if totsizeE xa =? 0 then assert_that (no_block xa) else Ok tt in
    let* _ := if 0 <? totsizeE xa then assert_that (negb (no_block xa)) else Ok tt in
    let* newsz :=
      if totsizeE xa =? 0 then
        Ok (if elemSzB xa =? 1 then 8 else if elemSzB xa =? 2 then 4 else 2)
      else
        let* _ := defined_when (long_in_range (3 * totsizeE xa)) in
        Ok (2 + (3 * totsizeE xa) / 2) in
    let* tmp := alloc_elems xa newsz in
    let* tmp := if 0 <? usedsizeE xa then let* b := block xa in copy_block tmp b (usedsizeE xa) else Ok tmp in
    Ok (xa <| arr := Some tmp |> <| totsizeE := newsz |>)
  else Ok xa.

Definition sizes_ok xa : bool := (0 <=? usedsizeE xa) && (usedsizeE xa <=? totsizeE xa).

(** The new element goes behind the others. *)
Definition append xa (elem : T) : outcome (XArray T) :=
  let* xa := ensureSpaceXA xa in
  let* _ := assert_that (usedsizeE xa <? totsizeE xa) in
  let* _ := assert_that (negb (no_block xa)) in
  let* b := block xa in
  let* b := wr b (usedsizeE xa) elem in
  Ok (xa <| arr := Some b |> <| usedsizeE := usedsizeE xa + 1 |>).

Definition VG_addToXA xa (elem : T) : outcome (Z * XArray T) :=
  let* _ := assert_that (0 <=? totsizeE xa) in
  let* _ := assert_that (sizes_ok xa) in
  let* xa := append xa elem in
  Ok (usedsizeE xa - 1, xa <| xa_sorted := false |>).

Fixpoint append_all xa (bytes : list T) : outcome (XArray T) :=
  match bytes with [] => Ok xa | b :: bytes => let* xa := append xa b in append_all xa bytes end.

Definition VG_addBytesToXA xa (bytes : list T) : outcome (Z * XArray T) :=
  let* _ := assert_that (elemSzB xa =? 1) in
  let* _ := assert_that (0 <=? totsizeE xa) in
  let* _ := assert_that (sizes_ok xa) in
  let r := usedsizeE xa in
  let* xa := append_all xa bytes in
  Ok (r, xa <| xa_sorted := false |>).

(** [word]: whether the elements are aligned words; [stack]: how deep calls may nest. *)
Definition VG_sortXA (word : bool) (stack : nat) xa : outcome (XArray T) :=
  match cmpFn xa with
  | None => Err AssertFail
  | Some cmp =>
      let b := match arr xa with Some b => b | None => [] end in
      let* b := VG_ssort cmp word stack b (usedsizeE xa) in
      Ok (xa <| arr := if no_block xa then None else Some b |> <| xa_sorted := true |>)
  end.

(** [while ( *first > 0 && 0 == cmpFn(key, ...( *first)-1)) ( *first)--] *)
Fixpoint first_loop (fuel : nat) xa (cmp : T -> T -> Z) (key : T) (first : Z) : outcome Z :=
  if 0 <? first then
    let* x := VG_indexXA xa (first - 1) in
    if 0 =? cmp key x then
      match fuel with O => Err OutOfFuel | S fuel => first_loop fuel xa cmp key (first - 1) end
    else Ok first
  else Ok first.
Fixpoint last_loop (fuel : nat) xa (cmp : T -> T -> Z) (key : T) (last : Z) : outcome Z :=
  if last <? usedsizeE xa - 1 then
    let* x := VG_indexXA xa (last + 1) in
    if 0 =? cmp key x then
      match fuel with O => Err OutOfFuel | S fuel => last_loop fuel xa cmp key (last + 1) end
    else Ok last
  else Ok last.

(** [while (True)]: [first] and [last] of the elements found. *)
Fixpoint search_loop (fuel : nat) xa (cmp : T -> T -> Z) (key : T) (lo hi : Z) : outcome (option (Z * Z)) :=
  if hi <? lo then Ok None
  else
    match fuel with
    | O => Err OutOfFuel
    | S fuel =>
        let* _ := defined_when (long_in_range (lo + hi)) in
        let mid := (lo + hi) / 2 in
        let* midv := VG_indexXA xa mid in
        let cres := cmp key midv in
        if cres <? 0 then search_loop fuel xa cmp key lo (mid - 1)
        else if 0 <? cres then search_loop fuel xa cmp key (mid + 1) hi
        else
          let* x := VG_indexXA xa lo in
          let* _ := assert_that (0 <=? cmp key x) in
          let* x := VG_indexXA xa hi in
          let* _ := assert_that (cmp key x <=? 0) in
          let* first := first_loop (Z.to_nat (usedsizeE xa)) xa cmp key mid in
          let* last := last_loop (Z.to_nat (usedsizeE xa)) xa cmp key mid in
          Ok (Some (first, last))
    end.

Definition VG_lookupXA_UNSAFE xa (key : T) (cmp : T -> T -> Z) : outcome (option (Z * Z)) :=
  search_loop (Z.to_nat (usedsizeE xa)) xa cmp key 0 (usedsizeE xa - 1).

Definition VG_lookupXA xa (key : T) : outcome (option (Z * Z)) :=
  match cmpFn xa with
  | None => Err AssertFail
  | Some cmp => let* _ := assert_that (xa_sorted xa) in VG_lookupXA_UNSAFE xa key cmp
  end.

Definition VG_sizeXA xa : Z := usedsizeE xa.

Definition VG_dropTailXA xa (n : Z) : outcome (XArray T) :=
  let* _ := assert_that (0 <=? n) in
  let* _ := assert_that (n <=? usedsizeE xa) in
  Ok (xa <| usedsizeE := usedsizeE xa - n |>).

Definition VG_dropHeadXA xa (n : Z) : outcome (XArray T) :=
  let* _ := assert_that (0 <=? n) in
  let* _ := assert_that (n <=? usedsizeE xa) in
  if n =? 0 then Ok xa
  else if n =? usedsizeE xa then Ok (xa <| usedsizeE := 0 |>)
  else
    let* _ := assert_that (0 <? n) in
    let* _ := assert_that (0 <? usedsizeE xa - n) in
    let* b := block xa in
    let* b := VG_memcpy b 0 n (usedsizeE xa - n) in
    Ok (xa <| arr := Some b |> <| usedsizeE := usedsizeE xa - n |>).

Definition VG_removeIndexXA xa (n : Z) : outcome (XArray T) :=
  let* _ := assert_that (0 <=? n) in
  let* _ := assert_that (n <? usedsizeE xa) in
  let* xa :=
    if n + 1 <? usedsizeE xa then
      let* b := block xa in
      let* b := VG_memmove b (n + 0) (n + 1) (usedsizeE xa - n - 1) in
      Ok (xa <| arr := Some b |>)
    else Ok xa in
  Ok (xa <| usedsizeE := usedsizeE xa - 1 |>).

Definition VG_insertIndexXA xa (n : Z) (elem : T) : outcome (XArray T) :=
  let* _ := assert_that (0 <=? n) in
  let* _ := assert_that (n <=? usedsizeE xa) in
  let* _ := assert_that (sizes_ok xa) in
  let* xa := ensureSpaceXA xa in
  let* _ := assert_that (usedsizeE xa <? totsizeE xa) in
  let* _ := assert_that (negb (no_block xa)) in
  let* b := block xa in
  let* b := if n <? usedsizeE xa then VG_memmove b (n + 1) (n + 0) (usedsizeE xa - n) else Ok b in
  let* b := wr b n elem in
  Ok (xa <| arr := Some b |> <| usedsizeE := usedsizeE xa + 1 |> <| xa_sorted := false |>).

Definition VG_replaceIndexXA xa (n : Z) (elem : T) : outcome (XArray T) :=
  let* _ := assert_that (0 <=? n) in
  let* _ := assert_that (n <? usedsizeE xa) in
  let* _ := assert_that (sizes_ok xa) in
  let* b := block xa in
  let* b := wr b n elem in
  Ok (xa <| arr := Some b |> <| xa_sorted := false |>).

End Code.

(** [members[i]] *)
Fixpoint member_loop (n : nat) (i : Z) (members : list string) (str : string) : outcome bool :=
  match n with
  | O => Ok false
  | S n =>
      let* m := rd members i in
      if VG_strcmp str m =? 0 then Ok true else member_loop n (i + 1) members str
  end.

Definition VG_strIsMemberXA (xa : XArray string) (str : string) : outcome bool :=
  let members := match arr xa with Some b => b | None => [] end in
  member_loop (Z.to_nat (usedsizeE xa)) 0 members str.
