(* ===== verification/XArrayTheory.v ===== *)
(** * Theorems on expandable arrays

    An [XArray] is a list: every operation does to its elements what a list
    function does, and fails an assertion exactly where that has no meaning. *)

From stdpp Require Import sorting.
From S2P Require Import Prelude LibcBase Arrays Mem Qsort QsortTheory XArray.

(** ** Lists read by position *)

Section Lists.
Context {T : Type} `{Inhabited T}.
Implicit Types l : list T.

Lemma get_take l n k : 0 <= k < n -> get (take (Z.to_nat n) l) k = get l k.
Proof.
  intros Hk. unfold get. rewrite !list_lookup_total_alt, lookup_take_lt by lia. done.
Qed.

Lemma get_drop l n k : 0 <= n -> 0 <= k -> get (drop (Z.to_nat n) l) k = get l (n + k).
Proof. intros Hn Hk. unfold get. rewrite !list_lookup_total_alt, lookup_drop. do 2 f_equal. lia. Qed.

Lemma get_delete l n k : 0 <= n -> 0 <= k -> get (delete (Z.to_nat n) l) k = if decide (k < n) then get l k else get l (k + 1).
Proof.
  intros Hn Hk. unfold get. rewrite !list_lookup_total_alt. case_decide.
  - by rewrite list_lookup_delete_lt by lia.
  - rewrite list_lookup_delete_ge by lia. do 2 f_equal. lia.
Qed.

Lemma get_snoc l x : get (l ++ [x]) (size l) = x.
Proof. rewrite get_app_r by lia. by rewrite Z.sub_diag. Qed.

Lemma size_app l1 l2 : size (l1 ++ l2) = size l1 + size l2.
Proof. unfold size. rewrite length_app. lia. Qed.

Lemma size_nonneg l : 0 <= size l.
Proof. unfold size. lia. Qed.

Definition insert_at (n : Z) (x : T) l : list T := take (Z.to_nat n) l ++ x :: drop (Z.to_nat n) l.

Lemma size_insert_at n x l : 0 <= n <= size l -> size (insert_at n x l) = size l + 1.
Proof. intros Hn. unfold insert_at, size in *. rewrite length_app, length_take. cbn. rewrite length_drop. lia. Qed.

Lemma get_insert_at n x l k : 0 <= n <= size l -> 0 <= k ->
  get (insert_at n x l) k = if decide (k < n) then get l k else if decide (k = n) then x else get l (k - 1).
Proof.
  intros Hn Hk. unfold insert_at.
  assert (Hs : size (take (Z.to_nat n) l) = n) by (unfold size in *; rewrite length_take; lia).
  case_decide; [|case_decide].
  - rewrite get_app_l by lia. by apply get_take.
  - subst k. rewrite get_app_r, Hs, Z.sub_diag by lia. done.
  - rewrite get_app_r, Hs by lia. change (x :: drop (Z.to_nat n) l) with ([x] ++ drop (Z.to_nat n) l).
    rewrite get_app_r by (unfold size; cbn; lia). change (size [x]) with 1. rewrite get_drop by lia. f_equal. lia.
Qed.
End Lists.

(** ** Well-formed arrays *)

Section Theory.
Context {T : Type} `{Inhabited T} (junk : T).
Implicit Types (l b dst src : list T) (xa : XArray T).

(** The block [b] begins with [l]. *)
Definition begins b l : Prop := size l <= size b /\ forall k, 0 <= k < size l -> get b k = get l k.

Record xa_ok l xa : Prop := mk_xa_ok {
  ok_elem : 0 < elemSzB xa;
  ok_used : usedsizeE xa = size l;
  ok_tot : totsizeE xa * elemSzB xa < 2 ^ 63;
  ok_block : match arr xa with
             | None => totsizeE xa = 0 /\ l = []
             | Some b => size b = totsizeE xa /\ 0 < totsizeE xa /\ begins b l
             end
}.

(** One more element does not make the size of the block overflow. *)
Definition room (n : Z) xa : Prop := (8 + 3 * n) * elemSzB xa < 2 ^ 63.

Lemma ok_sizes l xa : xa_ok l xa -> 0 <= usedsizeE xa <= totsizeE xa /\ totsizeE xa < 2 ^ 63.
Proof.
  intros [He Hu Ht Hb]. assert (0 <= totsizeE xa).
  { destruct (arr xa); [|lia]. destruct Hb as (<- & _). apply size_nonneg. }
  split; [|nia]. rewrite Hu. pose proof (size_nonneg l). destruct (arr xa) as [b|].
  - destruct Hb as (<- & _ & Hb & _). lia.
  - destruct Hb as [-> ->]. done.
Qed.

Lemma sizes_ok_true l xa : xa_ok l xa -> sizes_ok xa = true /\ (0 <=? totsizeE xa) = true.
Proof.
  intros Hok. destruct (ok_sizes _ _ Hok). unfold sizes_ok. split; [apply andb_true_iff; split|]; apply Z.leb_le; lia.
Qed.

Lemma begins_trans b b' l : begins b l -> size b <= size b' -> (forall k, 0 <= k < size l -> get b' k = get b k) -> begins b' l.
Proof. intros [Hs Hg] Hs' Hg'. split; [lia|]. intros k Hk. rewrite Hg' by done. by apply Hg. Qed.

(** ** Making room *)

Lemma size_replicate n : 0 <= n -> size (replicate (Z.to_nat n) junk) = n.
Proof. intros Hn. unfold size. rewrite length_replicate. lia. Qed.

Lemma copy_block_spec dst src n : 0 <= n <= size dst -> n <= size src ->
  exists m, copy_block dst src n = Ok m /\ size m = size dst /\ forall k, 0 <= k < n -> get m k = get src k.
Proof.
  intros Hn Hs. unfold copy_block. pose proof (size_app dst src) as Hsz. fold (size dst).
  destruct (VG_memcpy_spec (dst ++ src) 0 (size dst) n) as (m & -> & Hm & Hg);
    [split_and!; lia|unfold upward; lia|]. cbn [obind].
  exists (take (length dst) m). split; [done|].
  split; [unfold size in *; rewrite length_take; lia|].
  assert (length dst = Z.to_nat (size dst)) as -> by (unfold size; lia).
  intros k Hk. rewrite get_take by lia. rewrite Hg, decide_True by lia. rewrite get_app_r by lia. f_equal. lia.
Qed.

Lemma alloc_elems_ok xa n : 0 < elemSzB xa -> 0 <= n -> n * elemSzB xa < 2 ^ 63 ->
  alloc_elems junk xa n = Ok (replicate (Z.to_nat n) junk).
Proof.
  intros He Hn Hm. unfold alloc_elems, long_in_range. rewrite defined_when_true; [done|].
  apply andb_true_iff. split; [apply Z.leb_le; nia|by apply Z.ltb_lt].
Qed.

Lemma ensureSpaceXA_spec l xa : xa_ok l xa -> room (size l) xa ->
  exists xa' b, ensureSpaceXA junk xa = Ok xa' /\ xa_ok l xa' /\ arr xa' = Some b /\ size l < size b
    /\ elemSzB xa' = elemSzB xa /\ cmpFn xa' = cmpFn xa.
Proof.
  intros Hok Hr. pose proof (ok_sizes _ _ Hok) as [Hsz Ht63]. pose proof Hok as [He Hu Ht Hb]. unfold ensureSpaceXA.
  destruct (Z.eqb_spec (usedsizeE xa) (totsizeE xa)) as [E|E].
  2: { destruct (arr xa) as [b|] eqn:Eb; [|destruct Hb as [Hb ->]; unfold size in Hu; cbn in Hu; lia].
       exists xa, b. split_and!; [done|done|done| |done|done]. destruct Hb as (-> & _). lia. }
  pose proof (size_nonneg l) as Hl0. unfold room in Hr.
  assert (Hnew : exists newsz,
    (if totsizeE xa =? 0 then Ok (if elemSzB xa =? 1 then 8 else if elemSzB xa =? 2 then 4 else 2)
     else let* _ := defined_when (long_in_range (3 * totsizeE xa)) in Ok (2 + 3 * totsizeE xa / 2)) = Ok newsz
    /\ totsizeE xa < newsz /\ newsz * elemSzB xa < 2 ^ 63).
  { destruct (Z.eqb_spec (totsizeE xa) 0) as [E0|E0].
    - eexists. split; [done|]. repeat case_test; nia.
    - unfold long_in_range. rewrite defined_when_true by (apply andb_true_iff; split; [apply Z.leb_le|apply Z.ltb_lt]; nia).
      cbn [obind]. eexists. split; [done|]. assert (3 * totsizeE xa / 2 <= 2 * totsizeE xa) by div_lia.
      assert (totsizeE xa <= 3 * totsizeE xa / 2) by div_lia. split; [lia|]. rewrite <-E, Hu in *. nia. }
  destruct Hnew as (newsz & En & Hgt & Hfit).
  assert (Halloc := alloc_elems_ok xa newsz He ltac:(lia) Hfit).
  destruct (arr xa) as [b|] eqn:Eb.
  - destruct Hb as (Hbs & Hpos & Hbl). unfold no_block, block. rewrite Eb.
    destruct (Z.eqb_spec (totsizeE xa) 0); [lia|]. destruct (Z.ltb_spec 0 (totsizeE xa)); [|lia]. cbn [obind assert_that negb] in *.
    rewrite En. cbn [obind]. rewrite Halloc. cbn [obind]. destruct (Z.ltb_spec 0 (usedsizeE xa)); [|lia].
    destruct (copy_block_spec (replicate (Z.to_nat newsz) junk) b (usedsizeE xa)) as (m & -> & Hm & Hg);
      [rewrite size_replicate by lia; lia|lia|].
    rewrite size_replicate in Hm by lia. cbn [obind]. eexists _, m. split_and!; [done| |done|lia|done|done].
    split; cbn; [done|done|done|]. split_and!; [done|lia|]. split; [lia|]. intros k Hk. rewrite Hg by lia. by apply Hbl.
  - destruct Hb as (Hb0 & ->). unfold no_block. rewrite Eb, Hb0 in *. cbn [Z.eqb Z.ltb Z.compare obind assert_that] in *.
    apply Ok_inj in En. rewrite En, Halloc. cbn [obind]. rewrite E. cbn [Z.ltb Z.compare obind]. eexists _, _. split_and!; [done| |done| |done|done].
    + split; cbn; [done|lia|done|]. rewrite size_replicate by lia. split_and!; [done|lia|].
      split; [rewrite size_replicate by lia; cbn; lia|]. cbn. lia.
    + rewrite size_replicate by lia. cbn. lia.
Qed.

(** ** The operations *)

(** The result is an array of [l'], of the same kind. *)
Definition becomes (m : outcome (XArray T)) l' xa : Prop :=
  exists xa', m = Ok xa' /\ xa_ok l' xa' /\ elemSzB xa' = elemSzB xa /\ cmpFn xa' = cmpFn xa.

Lemma block_ok l xa b : xa_ok l xa -> arr xa = Some b ->
  size b = totsizeE xa /\ 0 < totsizeE xa /\ begins b l /\ block xa = Ok b /\ no_block xa = false.
Proof. intros [_ _ _ Hb] E. unfold block, no_block. rewrite E in *. destruct Hb as (? & ? & ?). done. Qed.

Lemma nonempty_block l xa : xa_ok l xa -> 0 < size l -> exists b, arr xa = Some b.
Proof.
  intros [_ _ _ Hb] Hl. destruct (arr xa) as [b|]; [by exists b|]. destruct Hb as [_ ->]. unfold size in Hl. cbn in Hl. lia.
Qed.

(** Another block of the same size that begins with other elements. *)
Lemma becomes_block l l' xa b b' s : xa_ok l xa -> arr xa = Some b -> size b' = size b -> begins b' l' ->
  becomes (Ok (mk_XArray (cmpFn xa) (elemSzB xa) (Some b') (size l') (totsizeE xa) s)) l' xa.
Proof.
  intros Hok E Hs Hb. destruct (block_ok _ _ _ Hok E) as (Hsz & Hpos & _). destruct Hok.
  eexists. split; [done|]. split_and!; [|done|done]. split; cbn; [done|done|done|]. split_and!; [lia|done|done].
Qed.

Lemma append_ok l xa x : xa_ok l xa -> room (size l) xa -> becomes (append junk xa x) (l ++ [x]) xa.
Proof.
  intros Hok Hr. unfold append. destruct (ensureSpaceXA_spec l xa Hok Hr) as (xa1 & b & -> & Hok1 & Eb & Hlt & He & Hc).
  cbn [obind]. destruct (block_ok _ _ _ Hok1 Eb) as (Hsz & Hpos & Hb & -> & ->). rewrite (ok_used _ _ Hok1).
  rewrite assert_that_true by (apply Z.ltb_lt; lia). cbn [obind assert_that negb]. pose proof (size_nonneg l) as Hl.
  destruct (wr_get b (size l) x) as (b' & -> & Hs' & Hg'); [lia|]. cbn [obind].
  destruct (becomes_block l (l ++ [x]) xa1 b b' (xa_sorted xa1)) as (xa2 & E2 & Hok2 & He2 & Hc2); [done|done|done| |].
  { split; rewrite size_app; change (size [x]) with 1; [lia|]. intros k Hk. rewrite Hg' by lia. case_decide; [subst k; by rewrite get_snoc|].
    rewrite get_app_l by lia. apply Hb. lia. }
  exists xa2. rewrite He2, Hc2. split_and!; [|done|done|done]. rewrite <-E2, size_app. done.
Qed.

Lemma set_sorted_ok l xa s : xa_ok l xa -> xa_ok l (xa <| xa_sorted := s |>).
Proof. by intros []. Qed.

Lemma VG_addToXA_ok l xa x : xa_ok l xa -> room (size l) xa -> exists xa',
  VG_addToXA junk xa x = Ok (size l, xa') /\ xa_ok (l ++ [x]) xa' /\ elemSzB xa' = elemSzB xa /\ cmpFn xa' = cmpFn xa.
Proof.
  intros Hok Hr. unfold VG_addToXA. destruct (sizes_ok_true _ _ Hok) as [-> ->]. cbn [obind assert_that].
  destruct (append_ok l xa x Hok Hr) as (xa1 & -> & Hok1 & He & Hc). cbn [obind]. eexists. split.
  - rewrite (ok_used _ _ Hok1), size_app. change (size [x]) with 1. by replace (size l + 1 - 1) with (size l) by lia.
  - split_and!; [by apply set_sorted_ok|done|done].
Qed.

(** An index is a [Word]; the code compares it as a [UWord]. *)
Definition is_word (n : Z) : Prop := - 2 ^ 63 <= n < 2 ^ 63.

Lemma index_check l xa n : xa_ok l xa -> is_word n -> (u64 n <? u64 (usedsizeE xa)) = (0 <=? n) && (n <? size l).
Proof.
  intros Hok Hn. destruct (ok_sizes _ _ Hok) as [Hs Ht]. rewrite (ok_used _ _ Hok) in *. unfold is_word in Hn.
  rewrite (u64_small (size l)) by lia. destruct (Z.leb_spec 0 n).
  - by rewrite u64_small by lia.
  - assert (u64 n = n + 2 ^ 64) as -> by (unfold u64; div_lia). apply Z.ltb_ge. lia.
Qed.

Lemma VG_indexXA_ok l xa n : xa_ok l xa -> is_word n ->
  VG_indexXA xa n = if decide (0 <= n < size l) then Ok (get l n) else Err AssertFail.
Proof.
  intros Hok Hn. unfold VG_indexXA. rewrite (index_check l) by done. case_decide as Hd.
  - rewrite assert_that_true by (apply andb_true_iff; split; [apply Z.leb_le|apply Z.ltb_lt]; lia).
    destruct (nonempty_block _ _ Hok) as [b Eb]; [lia|]. destruct (block_ok _ _ _ Hok Eb) as (Hsz & _ & [Hle Hb] & -> & _).
    cbn [obind]. rewrite rd_get by lia. by rewrite Hb.
  - destruct ((0 <=? n) && (n <? size l)) eqn:E; [zbool; lia|done].
Qed.

(** A check that fails ends the operation. *)
Lemma range_checks n a m (k : outcome (XArray T)) :
  (let* _ := assert_that (a <=? n) in let* _ := assert_that (n <? m) in k)
  = if decide (a <= n < m) then k else Err AssertFail.
Proof.
  unfold assert_that. case_decide; destruct (Z.leb_spec a n), (Z.ltb_spec n m); cbn; (done || lia).
Qed.

Lemma range_checks_le n a m (k : outcome (XArray T)) :
  (let* _ := assert_that (a <=? n) in let* _ := assert_that (n <=? m) in k)
  = if decide (a <= n <= m) then k else Err AssertFail.
Proof.
  unfold assert_that. case_decide; destruct (Z.leb_spec a n), (Z.leb_spec n m); cbn; (done || lia).
Qed.

Lemma store_at_ok l xa n x : xa_ok l xa -> 0 <= n < size l -> becomes (store_at xa n x) (<[Z.to_nat n := x]> l) xa.
Proof.
  intros Hok Hn. unfold store_at. pose proof (ok_sizes _ _ Hok) as [Hs Ht]. pose proof (ok_used _ _ Hok) as Hu.
  rewrite (index_check l) by (done || unfold is_word; lia).
  rewrite assert_that_true by (apply andb_true_iff; split; [apply Z.leb_le|apply Z.ltb_lt]; lia).
  destruct (nonempty_block _ _ Hok) as [b Eb]; [lia|]. destruct (block_ok _ _ _ Hok Eb) as (Hsz & _ & [Hle Hb] & -> & _).
  cbn [obind]. destruct (wr_get b n x) as (b' & -> & Hs' & Hg'); [lia|]. cbn [obind].
  assert (Hl : size (<[Z.to_nat n := x]> l) = size l) by (unfold size; by rewrite length_insert).
  destruct (becomes_block l (<[Z.to_nat n := x]> l) xa b b' (xa_sorted xa) Hok Eb Hs') as (xa2 & E2 & Hok2 & H2).
  { split; [lia|]. rewrite Hl. intros k Hk. rewrite Hg', get_insert by lia. destruct (Z.eqb_spec k n); [by rewrite decide_True|].
    rewrite decide_False by done. apply Hb. lia. }
  exists xa2. split_and!; [|done|apply H2..]. rewrite <-E2, Hl, <-Hu. done.
Qed.

Lemma VG_replaceIndexXA_ok l xa n x : xa_ok l xa ->
  if decide (0 <= n < size l) then becomes (VG_replaceIndexXA xa n x) (<[Z.to_nat n := x]> l) xa
  else VG_replaceIndexXA xa n x = Err AssertFail.
Proof.
  intros Hok. unfold VG_replaceIndexXA. rewrite range_checks, (ok_used _ _ Hok). case_decide as Hd; [|done].
  destruct (store_at_ok l xa n x Hok Hd) as (xa1 & E & Hok1 & He & Hc).
  destruct (sizes_ok_true _ _ Hok) as [-> _]. cbn [obind assert_that]. unfold store_at in E.
  destruct (assert_that (u64 n <? _)) as [[]|]; [|done]. cbn [obind] in E. destruct (block xa) as [b|]; [|done]. cbn [obind] in *.
  destruct (wr b n x) as [b'|]; [|done]. cbn [obind] in *. injection E as <-. eexists. split_and!; [done|by destruct Hok1|done|done].
Qed.

Lemma VG_insertIndexXA_ok l xa n x : xa_ok l xa -> room (size l) xa ->
  if decide (0 <= n <= size l) then becomes (VG_insertIndexXA junk xa n x) (insert_at n x l) xa
  else VG_insertIndexXA junk xa n x = Err AssertFail.
Proof.
  intros Hok Hr. unfold VG_insertIndexXA. rewrite range_checks_le, (ok_used _ _ Hok). case_decide as Hd; [|done].
  destruct (sizes_ok_true _ _ Hok) as [-> _]. cbn [obind assert_that].
  destruct (ensureSpaceXA_spec l xa Hok Hr) as (xa1 & b & -> & Hok1 & Eb & Hlt & He & Hc).
  cbn [obind]. destruct (block_ok _ _ _ Hok1 Eb) as (Hsz & Hpos & [Hle Hb] & -> & ->). rewrite (ok_used _ _ Hok1).
  rewrite assert_that_true by (apply Z.ltb_lt; lia). cbn [obind assert_that negb]. rewrite Z.add_0_r.
  assert (Hm : exists b1, (if n <? size l then VG_memmove b (n + 1) n (size l - n) else Ok b) = Ok b1
    /\ size b1 = size b /\ forall k, 0 <= k <= size l -> get b1 k = if decide (n < k) then get l (k - 1) else get b k).
  { destruct (Z.ltb_spec n (size l)).
    - destruct (VG_memmove_spec b (n + 1) n (size l - n)) as (b1 & -> & Hs1 & Hg1); [split_and!; lia|].
      exists b1. split_and!; [done|done|]. intros k Hk. rewrite Hg1 by lia. repeat case_decide; try lia; [|done].
      rewrite Hb by lia. f_equal. lia.
    - exists b. split_and!; [done|done|]. intros k Hk. by rewrite decide_False by lia. }
  destruct Hm as (b1 & -> & Hs1 & Hg1). cbn [obind]. destruct (wr_get b1 n x) as (b2 & -> & Hs2 & Hg2); [lia|]. cbn [obind].
  destruct (becomes_block l (insert_at n x l) xa1 b b2 false Hok1 Eb) as (xa2 & E2 & Hok2 & He2 & Hc2); [lia| |].
  { split; rewrite size_insert_at by done; [lia|]. intros k Hk. rewrite Hg2, get_insert_at by lia.
    repeat case_decide; try lia; try done; rewrite Hg1 by lia; repeat case_decide; try lia; [apply Hb; lia|done]. }
  exists xa2. rewrite He2, Hc2. split_and!; [|done|done|done]. rewrite <-E2, size_insert_at by done. done.
Qed.

Lemma becomes_shorter l l' xa n : xa_ok l xa -> size l' = size l - n -> 0 <= n -> (forall k, 0 <= k < size l' -> get l k = get l' k) ->
  becomes (Ok (xa <| usedsizeE := size l - n |>)) l' xa.
Proof.
  intros Hok Hs Hn Hg. eexists. split; [done|]. split_and!; [|done|done]. pose proof (size_nonneg l'). destruct Hok as [He Hu Ht Hb].
  split; cbn; [done|lia|done|]. destruct (arr xa) as [b|]; [|destruct Hb as [? ->]; split; [done|]; apply length_zero_iff_nil; unfold size in *; cbn in *; lia].
  destruct Hb as (? & ? & Hle & Hb). split_and!; [done|done|]. split; [lia|]. intros k Hk. rewrite Hb by lia. by apply Hg.
Qed.

Lemma size_delete l n : 0 <= n < size l -> size (delete (Z.to_nat n) l) = size l - 1.
Proof. intros Hn. unfold size in *. rewrite length_delete; [lia|]. apply lookup_lt_is_Some. lia. Qed.

Lemma VG_removeIndexXA_ok l xa n : xa_ok l xa ->
  if decide (0 <= n < size l) then becomes (VG_removeIndexXA xa n) (delete (Z.to_nat n) l) xa
  else VG_removeIndexXA xa n = Err AssertFail.
Proof.
  intros Hok. unfold VG_removeIndexXA. rewrite range_checks, (ok_used _ _ Hok). case_decide as Hd; [|done].
  rewrite Z.add_0_r. destruct (Z.ltb_spec (n + 1) (size l)) as [Hlt|Hge].
  - destruct (nonempty_block _ _ Hok) as [b Eb]; [lia|]. destruct (block_ok _ _ _ Hok Eb) as (Hsz & _ & [Hle Hb] & -> & _).
    cbn [obind]. destruct (VG_memmove_spec b n (n + 1) (size l - n - 1)) as (b1 & -> & Hs1 & Hg1); [split_and!; lia|]. cbn [obind].
    destruct (becomes_block l (delete (Z.to_nat n) l) xa b b1 (xa_sorted xa) Hok Eb Hs1) as (xa2 & E2 & Hok2 & H2).
    { split; rewrite size_delete by done; [lia|]. intros k Hk. rewrite Hg1, get_delete by lia.
      repeat case_decide; try lia; rewrite Hb by lia; f_equal; lia. }
    exists xa2. split_and!; [|done|apply H2..]. rewrite <-E2, size_delete, <-(ok_used _ _ Hok) by done. done.
  - cbn [obind]. rewrite (ok_used _ _ Hok). apply becomes_shorter; [done|by apply size_delete|lia|].
    rewrite size_delete by done. intros k Hk. by rewrite get_delete, decide_True by lia.
Qed.

Lemma VG_dropTailXA_ok l xa n : xa_ok l xa ->
  if decide (0 <= n <= size l) then becomes (VG_dropTailXA xa n) (take (Z.to_nat (size l - n)) l) xa
  else VG_dropTailXA xa n = Err AssertFail.
Proof.
  intros Hok. unfold VG_dropTailXA. rewrite range_checks_le, (ok_used _ _ Hok). case_decide as Hd; [|done].
  assert (Hs : size (take (Z.to_nat (size l - n)) l) = size l - n) by (unfold size in *; rewrite length_take; lia).
  apply becomes_shorter; [done|done|lia|]. rewrite Hs. intros k Hk. by rewrite get_take.
Qed.

Lemma VG_dropHeadXA_ok l xa n : xa_ok l xa ->
  if decide (0 <= n <= size l) then becomes (VG_dropHeadXA xa n) (drop (Z.to_nat n) l) xa
  else VG_dropHeadXA xa n = Err AssertFail.
Proof.
  intros Hok. unfold VG_dropHeadXA. rewrite range_checks_le, (ok_used _ _ Hok). case_decide as Hd; [|done].
  assert (Hs : size (drop (Z.to_nat n) l) = size l - n) by (unfold size in *; rewrite length_drop; lia).
  destruct (Z.eqb_spec n 0) as [->|H0]; [by exists xa|].
  destruct (Z.eqb_spec n (size l)) as [E|Hne].
  { replace 0 with (size l - n) by lia. apply becomes_shorter; [done|done|lia|]. lia. }
  rewrite !assert_that_true by (apply Z.ltb_lt; lia). cbn [obind].
  destruct (nonempty_block _ _ Hok) as [b Eb]; [lia|]. destruct (block_ok _ _ _ Hok Eb) as (Hsz & _ & [Hle Hb] & -> & _).
  cbn [obind]. destruct (VG_memcpy_spec b 0 n (size l - n)) as (b1 & -> & Hs1 & Hg1); [split_and!; lia|left; lia|]. cbn [obind].
  destruct (becomes_block l (drop (Z.to_nat n) l) xa b b1 (xa_sorted xa) Hok Eb Hs1) as (xa2 & E2 & Hok2 & H2).
  { split; rewrite Hs; [lia|]. intros k Hk. rewrite Hg1, get_drop, decide_True by lia. rewrite Hb by lia. f_equal. lia. }
  exists xa2. split_and!; [|done|apply H2..]. rewrite <-E2, Hs. done.
Qed.

(** The clone has the same elements, but no room for more. *)
Lemma VG_cloneXA_ok l xa : xa_ok l xa -> 0 < size l -> becomes (VG_cloneXA junk xa) l xa.
Proof.
  intros Hok Hl. destruct (nonempty_block _ _ Hok Hl) as [b Eb]. destruct (block_ok _ _ _ Hok Eb) as (Hsz & Hpos & [Hle Hb] & _ & _).
  destruct (ok_sizes _ _ Hok) as [Hs _]. destruct Hok as [He Hu Ht _]. unfold VG_cloneXA.
  rewrite assert_that_true by (apply Z.leb_le; lia). cbn [obind]. rewrite Eb. cbn [totsizeE set_field].
  rewrite alloc_elems_ok by (cbn; (lia || nia)). cbn.
  destruct (copy_block_spec (replicate (Z.to_nat (usedsizeE xa)) junk) b (usedsizeE xa)) as (m & -> & Hm & Hg);
    [rewrite size_replicate by lia; lia|lia|]. rewrite size_replicate in Hm by lia. cbn [obind].
  eexists. split; [done|]. split_and!; [|done|done]. split; cbn; [done|done|nia|]. split_and!; [done|lia|].
  split; [lia|]. intros k Hk. rewrite Hg by lia. by apply Hb.
Qed.

(** Without elements it is worse: the clone has a block of size 0, and the
    first addition fails an assertion. *)
Lemma clone_of_none_cannot_grow xa b x : arr xa = Some b -> usedsizeE xa = 0 -> 0 < elemSzB xa ->
  exists xa', VG_cloneXA junk xa = Ok xa' /\ VG_addToXA junk xa' x = Err AssertFail.
Proof.
  intros Eb Eu He. unfold VG_cloneXA. rewrite assert_that_true by (apply Z.leb_le; lia). cbn [obind]. rewrite Eb.
  cbn [totsizeE set_field]. rewrite alloc_elems_ok by (cbn; rewrite ?Eu; lia). cbn. rewrite Eu.
  change (replicate (Z.to_nat 0) junk) with (@nil T). destruct (copy_block_spec [] b 0) as (m & -> & _); [done|unfold size; lia|]. cbn [obind].
  eexists. split; [done|]. unfold VG_addToXA, sizes_ok, append, ensureSpaceXA. cbn. by rewrite Eu.
Qed.

(** ** Sequences of operations *)

Inductive xop :=
| Add (x : T) | InsertIndex (n : Z) (x : T) | RemoveIndex (n : Z) | ReplaceIndex (n : Z) (x : T)
| DropTail (n : Z) | DropHead (n : Z) | Index (n : Z).

(** What an operation returns: a position, an element or nothing. *)
Inductive answer := Position (n : Z) | Element (x : T) | Nothing.

Definition without_answer (m : outcome (XArray T)) : outcome (answer * XArray T) := let* xa := m in Ok (Nothing, xa).

Definition run_op (op : xop) xa : outcome (answer * XArray T) :=
  match op with
  | Add x => let* (n, xa) := VG_addToXA junk xa x in Ok (Position n, xa)
  | InsertIndex n x => without_answer (VG_insertIndexXA junk xa n x)
  | RemoveIndex n => without_answer (VG_removeIndexXA xa n)
  | ReplaceIndex n x => without_answer (VG_replaceIndexXA xa n x)
  | DropTail n => without_answer (VG_dropTailXA xa n)
  | DropHead n => without_answer (VG_dropHeadXA xa n)
  | Index n => let* x := VG_indexXA xa n in Ok (Element x, xa)
  end.

(** The same on the list of the elements; [None] where the operation has no meaning. *)
Definition list_op (op : xop) l : option (answer * list T) :=
  match op with
  | Add x => Some (Position (size l), l ++ [x])
  | InsertIndex n x => if decide (0 <= n <= size l) then Some (Nothing, insert_at n x l) else None
  | RemoveIndex n => if decide (0 <= n < size l) then Some (Nothing, delete (Z.to_nat n) l) else None
  | ReplaceIndex n x => if decide (0 <= n < size l) then Some (Nothing, <[Z.to_nat n := x]> l) else None
  | DropTail n => if decide (0 <= n <= size l) then Some (Nothing, take (Z.to_nat (size l - n)) l) else None
  | DropHead n => if decide (0 <= n <= size l) then Some (Nothing, drop (Z.to_nat n) l) else None
  | Index n => if decide (0 <= n < size l) then Some (Element (get l n), l) else None
  end.

Fixpoint run_ops (ops : list xop) xa : outcome (list answer * XArray T) :=
  match ops with
  | [] => Ok ([], xa)
  | op :: ops => let* (a, xa) := run_op op xa in let* (l, xa) := run_ops ops xa in Ok (a :: l, xa)
  end.

Fixpoint list_ops (ops : list xop) l : option (list answer * list T) :=
  match ops with
  | [] => Some ([], l)
  | op :: ops =>
      match list_op op l with
      | Some (a, l) => match list_ops ops l with Some (rest, l) => Some (a :: rest, l) | None => None end
      | None => None
      end
  end.

Definition index_is_word (op : xop) : Prop := match op with Index n => is_word n | _ => True end.

(** The two agree: the same answer and an array of the list, or a failed assertion. *)
Definition agree (r : option (answer * list T)) (m : outcome (answer * XArray T)) xa : Prop :=
  match r with
  | Some (a, l') => exists xa', m = Ok (a, xa') /\ xa_ok l' xa' /\ elemSzB xa' = elemSzB xa
  | None => m = Err AssertFail
  end.

Lemma agree_becomes (c : Prop) `{Decision c} (m : outcome (XArray T)) l' xa :
  (if decide c then becomes m l' xa else m = Err AssertFail) ->
  agree (if decide c then Some (Nothing, l') else None) (without_answer m) xa.
Proof.
  case_decide; cbn; [|by intros ->]. intros (xa' & -> & Hok & He & _). by exists xa'.
Qed.

Lemma run_op_agrees op l xa : xa_ok l xa -> room (size l) xa -> index_is_word op -> agree (list_op op l) (run_op op xa) xa.
Proof.
  intros Hok Hr Hw. destruct op; cbn [list_op run_op].
  - destruct (VG_addToXA_ok l xa x Hok Hr) as (xa' & -> & Hok' & He & _). by exists xa'.
  - apply (agree_becomes _), VG_insertIndexXA_ok; done.
  - by apply (agree_becomes _), VG_removeIndexXA_ok.
  - by apply (agree_becomes _), VG_replaceIndexXA_ok.
  - by apply (agree_becomes _), VG_dropTailXA_ok.
  - by apply (agree_becomes _), VG_dropHeadXA_ok.
  - rewrite (VG_indexXA_ok l) by done. case_decide; [by exists xa|done].
Qed.

Lemma list_op_size op l a l' : list_op op l = Some (a, l') -> size l' <= size l + 1.
Proof.
  destruct op; cbn; intros E; repeat case_decide; try done; injection E as <- <-.
  - rewrite size_app. change (size [x]) with 1. lia.
  - by rewrite size_insert_at.
  - rewrite size_delete by done. lia.
  - unfold size. rewrite length_insert. lia.
  - unfold size. rewrite length_take. lia.
  - unfold size. rewrite length_drop. lia.
  - lia.
Qed.

Lemma run_ops_agree ops : forall l xa, xa_ok l xa -> room (size l + Z.of_nat (length ops)) xa -> Forall index_is_word ops ->
  match list_ops ops l with
  | Some (answers, l') => exists xa', run_ops ops xa = Ok (answers, xa') /\ xa_ok l' xa'
  | None => run_ops ops xa = Err AssertFail
  end.
Proof.
  induction ops as [|op ops IH]; intros l xa Hok Hr Hw; cbn [list_ops run_ops]; [by exists xa|].
  inversion_clear Hw as [|? ? Hw1 Hw2]. pose proof (ok_elem _ _ Hok) as Hel. unfold room in *. cbn [length] in Hr.
  pose proof (run_op_agrees op l xa Hok ltac:(unfold room; nia) Hw1) as Ha. unfold agree in Ha.
  destruct (list_op op l) as [[a l1]|] eqn:El; [|by rewrite Ha]. destruct Ha as (xa1 & -> & Hok1 & He1). cbn [obind].
  apply list_op_size in El. specialize (IH l1 xa1 Hok1). rewrite He1 in IH.
  specialize (IH ltac:(nia) Hw2). destruct (list_ops ops l1) as [[rest l2]|]; [|by rewrite IH].
  destruct IH as (xa2 & -> & Hok2). by exists xa2.
Qed.
End Theory.

Arguments xop : clear implicits.

(** C32: An [XArray] refines a list. After [VG_(newXA)], every sequence of
    additions, insertions, removals, replacements, drops at either end and
    reads gives the answers that it gives on a list, which starts empty, and
    leaves an array of that list; it fails an assertion exactly where an index
    is not one of the list, and never reads or writes outside its block. *)
Theorem xarray_refines_list {T} `{Inhabited T} (junk : T) (ops : list (xop T)) (elemSzB : Z)
  (He : 0 < elemSzB) (Hroom : (8 + 3 * Z.of_nat (length ops)) * elemSzB < 2 ^ 63) (Hw : Forall index_is_word ops) :
  match list_ops ops [] with
  | Some (answers, l) => exists xa', (let* xa := VG_newXA elemSzB in run_ops junk ops xa) = Ok (answers, xa') /\ xa_ok l xa'
  | None => (let* xa := VG_newXA elemSzB in run_ops junk ops xa) = Err AssertFail
  end.
Proof.
  unfold VG_newXA. rewrite assert_that_true by (by apply Z.ltb_lt). cbn [obind].
  apply run_ops_agree; [|done|done]. by split.
Qed.

Lemma xarray_refines_list_witness :
  match list_ops [Add 5; Add 7; InsertIndex 1 6; DropHead 1; Index 0] [] with
  | Some (answers, l) => exists xa',
      (let* xa := VG_newXA 8 in run_ops 0 [Add 5; Add 7; InsertIndex 1 6; DropHead 1; Index 0] xa) = Ok (answers, xa') /\ xa_ok l xa'
  | None => (let* xa := VG_newXA 8 in run_ops 0 [Add 5; Add 7; InsertIndex 1 6; DropHead 1; Index 0] xa) = Err AssertFail
  end.
Proof.
  apply (xarray_refines_list 0 [Add 5; Add 7; InsertIndex 1 6; DropHead 1; Index 0] 8); [lia|cbn; lia|].
  repeat (constructor; [by unfold index_is_word, is_word|]). constructor.
Defined.

(** ** Sorting and searching *)

Section Search.
Context {T : Type} `{Inhabited T} (cmp : T -> T -> Z) `{!Comparison cmp}.
Implicit Types (l : list T) (xa : XArray T).

Lemma VG_sortXA_ok word stack l xa : xa_ok l xa -> cmpFn xa = Some cmp -> size l < 7 * 2 ^ Z.of_nat stack ->
  exists xa' l', VG_sortXA word stack xa = Ok xa' /\ xa_ok l' xa' /\ cmpFn xa' = Some cmp /\ xa_sorted xa' = true
    /\ elemSzB xa' = elemSzB xa /\ l' ≡ₚ l /\ sorted cmp 0 (size l') l'.
Proof.
  intros Hok Hc Hst. unfold VG_sortXA. rewrite Hc. pose proof (size_nonneg l) as Hl.
  destruct (arr xa) as [b|] eqn:Eb.
  - destruct (block_ok _ _ _ Hok Eb) as (Hsz & Hpos & [Hle Hb] & _ & Hnb). unfold VG_ssort. rewrite (ok_used _ _ Hok).
    destruct (bm_qsort_spec cmp word stack (Z.to_nat (size l)) b 0 (size l)) as (b' & -> & Hm & Hs); [lia..|].
    cbn [obind]. rewrite Hnb. pose proof (moved_size _ _ _ _ Hm) as Hs'. rewrite Z.add_0_l in *.
    assert (Hl' : size (take (Z.to_nat (size l)) b') = size l) by (unfold size in *; rewrite length_take; lia).
    eexists _, (take (Z.to_nat (size l)) b'). split_and!; [done| |done|done|done| |].
    + destruct Hok as [He Hu Ht _]. split; cbn; [done|lia|done|]. split_and!; [lia|lia|]. split; [lia|].
      intros k Hk. symmetry. apply get_take. lia.
    + destruct Hm as (Hlen & Hp & Hg). destruct (segment_eq 0 (Z.to_nat (size l)) b b' Hlen) as [_ Hd]; [intros k Hk; apply Hg; lia|].
      assert (Et : take (Z.to_nat (size l)) b = l).
      { apply get_ext; [unfold size in *; rewrite length_take; lia|]. intros k Hk. rewrite get_take; [apply Hb|];
          unfold size in *; rewrite length_take in Hk; lia. }
      rewrite <-(take_drop (Z.to_nat (size l)) b), <-(take_drop (Z.to_nat (size l)) b'), Hd in Hp.
      apply Permutation_app_inv_r in Hp. by rewrite Et in Hp.
    + intros i j Hi Hj. rewrite !get_take by lia. apply Hs; lia.
  - pose proof Hok as [_ Hu _ Hb]. rewrite Eb in Hb. destruct Hb as [Ht ->].
    assert (E : VG_ssort cmp word stack [] (usedsizeE xa) = Ok []) by (rewrite Hu; by destruct stack).
    rewrite E. cbn [obind]. unfold no_block. rewrite Eb. eexists _, []. split_and!; [done| |done|done|done|done|].
    + destruct Hok. by split; cbn.
    + intros i j Hi Hj. unfold size in Hj. cbn in Hj. lia.
Qed.

(** How the key compares with the elements on both sides of it. *)
Lemma below_key l key i j : sorted cmp 0 (size l) l -> 0 <= i <= j -> j < size l -> 0 < cmp key (get l j) -> 0 < cmp key (get l i).
Proof.
  intros Hs Hi Hj Hk. destruct (decide (i = j)) as [->|]; [done|]. apply cmp_sym. apply cmp_sym in Hk.
  assert (H1 : cmp (get l i) (get l j) <= 0) by (apply Hs; lia).
  destruct (Z.lt_trichotomy (cmp (get l i) key) 0) as [?|[E|E]]; [done|exfalso..].
  - assert (cmp key (get l i) <= 0) by (destruct (Z.lt_total 0 (cmp key (get l i))) as [G|G]; [apply cmp_sym in G; lia|lia]).
    assert (cmp key (get l j) <= 0) by (by apply cmp_le_trans with (get l i)). apply cmp_sym in Hk. lia.
  - apply cmp_sym in E. assert (cmp key (get l j) <= 0) by (apply cmp_le_trans with (get l i); [lia|done]). apply cmp_sym in Hk. lia.
Qed.

Lemma above_key l key i j : sorted cmp 0 (size l) l -> 0 <= i <= j -> j < size l -> cmp key (get l i) < 0 -> cmp key (get l j) < 0.
Proof.
  intros Hs Hi Hj Hk. destruct (decide (i = j)) as [->|]; [done|].
  assert (H1 : cmp (get l i) (get l j) <= 0) by (apply Hs; lia).
  assert (H2 : cmp key (get l j) <= 0) by (apply cmp_le_trans with (get l i); [lia|done]).
  destruct (Z.eq_dec (cmp key (get l j)) 0) as [E|]; [exfalso|lia].
  assert (cmp (get l j) key <= 0) by (destruct (Z.lt_total 0 (cmp (get l j) key)) as [G|G]; [apply cmp_sym in G; lia|lia]).
  assert (cmp (get l i) key <= 0) by (by apply cmp_le_trans with (get l j)). apply cmp_sym in Hk. lia.
Qed.

Lemma VG_indexXA_in l xa n : xa_ok l xa -> 0 <= n < size l -> VG_indexXA xa n = Ok (get l n).
Proof.
  intros Hok Hn. pose proof (ok_sizes _ _ Hok). rewrite (ok_used _ _ Hok) in *.
  rewrite (VG_indexXA_ok l) by (done || unfold is_word; lia). by rewrite decide_True.
Qed.

(** The equal elements are those from [first] to [last]. *)
Definition equal_range (key : T) l (first last : Z) : Prop :=
  0 <= first <= last /\ last < size l /\ forall i, 0 <= i < size l -> cmp key (get l i) = 0 <-> first <= i <= last.

Lemma first_loop_spec l xa key (Hok : xa_ok l xa) fuel : forall first mid,
  0 <= first <= mid -> mid < size l -> first <= Z.of_nat fuel -> (forall i, first <= i <= mid -> cmp key (get l i) = 0) ->
  exists first', first_loop fuel xa cmp key first = Ok first' /\ 0 <= first' <= mid
    /\ (forall i, first' <= i <= mid -> cmp key (get l i) = 0) /\ (0 < first' -> cmp key (get l (first' - 1)) <> 0).
Proof.
  induction fuel as [|fuel IH]; intros first mid Hf Hm Hle Heq; cbn [first_loop];
    (destruct (Z.ltb_spec 0 first); [|exists first; split_and!; (done || lia)]); [lia|].
  rewrite (VG_indexXA_in l) by (done || lia). cbn [obind]. destruct (Z.eqb_spec 0 (cmp key (get l (first - 1)))) as [E|E].
  - apply IH; [lia|lia|lia|]. intros i Hi. destruct (decide (i = first - 1)) as [->|]; [done|apply Heq; lia].
  - exists first. split_and!; (done || lia).
Qed.

Lemma last_loop_spec l xa key (Hok : xa_ok l xa) fuel : forall last mid,
  0 <= mid <= last -> last < size l -> size l - 1 - last <= Z.of_nat fuel -> (forall i, mid <= i <= last -> cmp key (get l i) = 0) ->
  exists last', last_loop fuel xa cmp key last = Ok last' /\ mid <= last' < size l
    /\ (forall i, mid <= i <= last' -> cmp key (get l i) = 0) /\ (last' < size l - 1 -> cmp key (get l (last' + 1)) <> 0).
Proof.
  induction fuel as [|fuel IH]; intros last mid Hf Hm Hle Heq; cbn [last_loop]; rewrite (ok_used _ _ Hok);
    (destruct (Z.ltb_spec last (size l - 1)); [|exists last; split_and!; (done || lia)]); [lia|].
  rewrite (VG_indexXA_in l) by (done || lia). cbn [obind]. destruct (Z.eqb_spec 0 (cmp key (get l (last + 1)))) as [E|E].
  - apply IH; [lia|lia|lia|]. intros i Hi. destruct (decide (i = last + 1)) as [->|]; [done|apply Heq; lia].
  - exists last. split_and!; (done || lia).
Qed.

Lemma equal_range_intro l key first mid last : sorted cmp 0 (size l) l -> 0 <= first <= mid -> mid <= last < size l ->
  (forall i, first <= i <= mid -> cmp key (get l i) = 0) -> (0 < first -> cmp key (get l (first - 1)) <> 0) ->
  (forall i, mid <= i <= last -> cmp key (get l i) = 0) -> (last < size l - 1 -> cmp key (get l (last + 1)) <> 0) ->
  equal_range key l first last.
Proof.
  intros Hs Hf Hl Hleft Hleft' Hright Hright'. split_and!; try lia. intros i Hi. split; intros Hi'.
  - destruct (decide (i < first)) as [Hlt|].
    { exfalso. assert (cmp key (get l (first - 1)) <> 0) by (apply Hleft'; lia).
      destruct (Z.lt_total (cmp key (get l (first - 1))) 0) as [G|[G|G]]; [|done|].
      - assert (cmp key (get l mid) < 0) by (apply (above_key l key (first - 1)); (done || lia)).
        rewrite Hleft in * by lia. lia.
      - assert (0 < cmp key (get l i)) by (apply (below_key l key i (first - 1)); (done || lia)). lia. }
    destruct (decide (last < i)) as [Hlt|]; [|lia].
    exfalso. assert (cmp key (get l (last + 1)) <> 0) by (apply Hright'; lia).
    destruct (Z.lt_total (cmp key (get l (last + 1))) 0) as [G|[G|G]]; [|done|].
    + assert (cmp key (get l i) < 0) by (apply (above_key l key (last + 1)); (done || lia)). lia.
    + assert (0 < cmp key (get l mid)) by (apply (below_key l key mid (last + 1)); (done || lia)).
      rewrite Hleft in * by lia. lia.
  - destruct (decide (i <= mid)); [apply Hleft; lia|apply Hright; lia].
Qed.

Lemma search_loop_spec l xa key (Hok : xa_ok l xa) (Hs : sorted cmp 0 (size l) l) (Hsz : size l < 2 ^ 62) fuel : forall lo hi,
  0 <= lo -> lo <= hi + 1 -> hi < size l -> hi + 1 - lo <= Z.of_nat fuel ->
  (forall i, 0 <= i < lo -> 0 < cmp key (get l i)) -> (forall i, hi < i < size l -> cmp key (get l i) < 0) ->
  exists r, search_loop fuel xa cmp key lo hi = Ok r
    /\ match r with Some (first, last) => equal_range key l first last | None => forall i, 0 <= i < size l -> cmp key (get l i) <> 0 end.
Proof.
  induction fuel as [|fuel IH]; intros lo hi Hlo Hle Hhi Hf Hbelow Habove; cbn [search_loop];
    (destruct (Z.ltb_spec hi lo);
     [exists None; split; [done|]; intros i Hi; destruct (decide (i < lo)); [specialize (Hbelow i); lia|specialize (Habove i); lia]|]); [lia|].
  unfold long_in_range. rewrite defined_when_true by (apply andb_true_iff; split; [apply Z.leb_le|apply Z.ltb_lt]; lia). cbn [obind].
  set (mid := (lo + hi) / 2). assert (Hmid : lo <= mid <= hi) by (unfold mid; div_lia).
  rewrite !(VG_indexXA_in l) by (done || lia). cbn [obind].
  destruct (Z.ltb_spec (cmp key (get l mid)) 0) as [Hneg|Hneg].
  { apply IH; [lia..|done|]. intros i Hi. apply (above_key l key mid); (done || lia). }
  destruct (Z.ltb_spec 0 (cmp key (get l mid))) as [Hpos|Hpos].
  { apply IH; [lia..| |done]. intros i Hi. apply (below_key l key i mid); (done || lia). }
  assert (E : cmp key (get l mid) = 0) by lia.
  rewrite !assert_that_true. 
  2: { apply Z.leb_le. destruct (Z.le_gt_cases (cmp key (get l hi)) 0) as [|G]; [done|].
       apply (below_key l key mid hi) in G; (done || lia). }
  2: { apply Z.leb_le. destruct (Z.le_gt_cases 0 (cmp key (get l lo))) as [|G]; [done|].
       apply (above_key l key lo mid) in G; (done || lia). }
  cbn [obind]. rewrite (ok_used _ _ Hok).
  destruct (first_loop_spec l xa key Hok (Z.to_nat (size l)) mid mid) as (first & -> & Hfr & Hf1 & Hf2); [lia..|intros i Hi; by replace i with mid by lia|].
  destruct (last_loop_spec l xa key Hok (Z.to_nat (size l)) mid mid) as (last & El & Hlr & Hl1 & Hl2); [lia..|intros i Hi; by replace i with mid by lia|].
  cbn [obind]. rewrite El. cbn [obind]. exists (Some (first, last)). split; [done|]. by apply (equal_range_intro l key first mid last).
Qed.
End Search.

(** C33: Sorting an [XArray] and looking elements up. [VG_(sortXA)] puts the
    elements into the order of the comparison that was set, and marks the array
    as sorted; then [VG_(lookupXA)] ends for every key, says that it is not
    there exactly when no element is equal to it, and else returns the first
    and the last of the elements that are. Neither fails, the two assertions
    of the search included. *)
Theorem sort_then_lookup {T} `{Inhabited T} (cmp : T -> T -> Z) `{!Comparison cmp} word stack (l : list T) (xa : XArray T)
  (Hok : xa_ok l xa) (Hc : cmpFn xa = Some cmp) (Hl : size l < 7 * 2 ^ Z.of_nat stack) (Hsz : size l < 2 ^ 62) :
  exists xa' l', VG_sortXA word stack xa = Ok xa' /\ xa_ok l' xa' /\ l' ≡ₚ l /\ sorted cmp 0 (size l') l'
    /\ forall key, exists r, VG_lookupXA xa' key = Ok r
       /\ match r with
          | Some (first, last) => equal_range cmp key l' first last
          | None => forall i, 0 <= i < size l' -> cmp key (get l' i) <> 0
          end.
Proof.
  destruct (VG_sortXA_ok cmp word stack l xa Hok Hc Hl) as (xa' & l' & E & Hok' & Hc' & Hs' & _ & Hp & Hs).
  exists xa', l'. split_and!; try done. intros key. unfold VG_lookupXA, VG_lookupXA_UNSAFE. rewrite Hc', Hs'.
  cbn [obind assert_that]. assert (Hsz' : size l' = size l) by (unfold size; by rewrite Hp).
  pose proof (size_nonneg l'). rewrite (ok_used _ _ Hok').
  apply (search_loop_spec cmp l' xa' key Hok' Hs); (lia || intros i Hi; lia).
Qed.

Definition three_elements : XArray Z := mk_XArray (Some Z.sub) 8 (Some [7; 5; 7; 0]) 3 4 false.

Lemma sort_then_lookup_witness :
  exists xa' l', VG_sortXA true 0 three_elements = Ok xa' /\ xa_ok l' xa' /\ l' ≡ₚ [7; 5; 7] /\ sorted Z.sub 0 (size l') l'
    /\ forall key, exists r, VG_lookupXA xa' key = Ok r
       /\ match r with
          | Some (first, last) => equal_range Z.sub key l' first last
          | None => forall i, 0 <= i < size l' -> Z.sub key (get l' i) <> 0
          end.
Proof.
  apply (sort_then_lookup Z.sub true 0 [7; 5; 7] three_elements); [|done|done|done].
  split; [done|done|done|]. cbn. split_and!; [done|done|]. split; [done|]. intros k Hk. change (size [7; 5; 7]) with 3 in Hk.
  assert (k = 0 \/ k = 1 \/ k = 2) as [->|[->| ->]] by lia; done.
Defined.
