(* ===== verification/RangeMap.v ===== *)
(** * Maps from ranges of words: coregrind/m_rangemap.c

    A map from all [UWord]s to [UWord]s that is constant on ranges, kept as an
    [XArray] of the ranges in order. *)

From S2P Require Import Prelude LibcBase Arrays Mem Qsort QsortTheory XArray XArrayTheory.

(** ** The code *)

Definition UWORD_MIN : Z := 0.
Definition UWORD_MAX : Z := 2 ^ 64 - 1.

Record Range := mk_Range { key_min : Z; key_max : Z; val : Z }.

#[export] Instance Range_eta : RecordEta Range := fun s => mk_Range (key_min s) (key_max s) (val s).
#[export] Instance Range_inhabited : Inhabited Range := populate (mk_Range 0 0 0).

(** [sizeof(Range)] *)
Definition sizeof_Range : Z := 24.

Definition RangeMap := XArray Range.

Section Code.
Context (junk : Range).

Definition VG_newRangeMap (initialVal : Z) : outcome RangeMap :=
  let* ranges := VG_newXA sizeof_Range in
  let r := mk_Range UWORD_MIN UWORD_MAX initialVal in
  let* (i, ranges) := VG_addToXA junk ranges r in
  let* _ := assert_that (i =? 0) in
  let* _ := assert_that (VG_sizeXA ranges =? 1) in
  Ok ranges.

(** [while (True)] *)
Fixpoint find_loop (fuel : nat) (ranges : RangeMap) (key lo hi : Z) : outcome Z :=
  if hi <? lo then Err Panic
  else
    match fuel with
    | O => Err OutOfFuel
    | S fuel =>
        let* _ := defined_when (long_in_range (lo + hi)) in
        let mid := (lo + hi) / 2 in
        let* mid_rng := VG_indexXA ranges mid in
        if key <? key_min mid_rng then find_loop fuel ranges key lo (mid - 1)
        else if key_max mid_rng <? key then find_loop fuel ranges key (mid + 1) hi
        else Ok mid
    end.

Definition find (rm : RangeMap) (key : Z) : outcome Z :=
  find_loop (S (Z.to_nat (VG_sizeXA rm))) rm key 0 (VG_sizeXA rm).

Definition split_at (rm : RangeMap) (key : Z) : outcome RangeMap :=
  let* i := find rm key in
  let* rng_i0 := VG_indexXA rm (i + 0) in
  if key_min rng_i0 =? key then Ok rm
  else
    let* rm := VG_insertIndexXA junk rm (i + 1) rng_i0 in
    let* rng_i0p := VG_indexXA rm (i + 0) in
    let* rng_i1p := VG_indexXA rm (i + 1) in
    let* rm := store_at rm (i + 0) (rng_i0p <| key_max := u64 (key - 1) |>) in
    store_at rm (i + 1) (rng_i1p <| key_min := key |>).

(** [for (i = 0; i < VG_(sizeXA)(ranges) - 1; i++)] *)
Fixpoint preen_loop (fuel : nat) (rm : RangeMap) (i : Z) : outcome RangeMap :=
  if i <? VG_sizeXA rm - 1 then
    match fuel with
    | O => Err OutOfFuel
    | S fuel =>
        let* rng0 := VG_indexXA rm (i + 0) in
        let* rng1 := VG_indexXA rm (i + 1) in
        if negb (val rng0 =? val rng1) then preen_loop fuel rm (i + 1)
        else
          let* rm := store_at rm (i + 0) (rng0 <| key_max := key_max rng1 |>) in
          let* rm := VG_removeIndexXA rm (i + 1) in
          let i := i - 1 in
          preen_loop fuel rm (i + 1)
    end
  else Ok rm.

Definition preen (rm : RangeMap) : outcome RangeMap := preen_loop (Z.to_nat (VG_sizeXA rm)) rm 0.

(** [for (i = iMin; i <= iMax; i++)], with [n] rounds to go. *)
Fixpoint bind_loop (n : nat) (rm : RangeMap) (i v : Z) : outcome RangeMap :=
  match n with
  | O => Ok rm
  | S n =>
      let* rng := VG_indexXA rm i in
      let* rm := store_at rm i (rng <| val := v |>) in
      bind_loop n rm (i + 1) v
  end.

Definition VG_bindRangeMap (rm : RangeMap) (kmin kmax v : Z) : outcome RangeMap :=
  let* _ := assert_that (kmin <=? kmax) in
  let* rm := split_at rm kmin in
  let* rm := if kmax <? UWORD_MAX then split_at rm (u64 (kmax + 1)) else Ok rm in
  let* iMin := find rm kmin in
  let* iMax := find rm kmax in
  let* rm := bind_loop (Z.to_nat (iMax - iMin + 1)) rm iMin v in
  preen rm.

(** [( *key_min, *key_max, *val)] *)
Definition VG_indexRangeMap (rm : RangeMap) (ix : Z) : outcome (Z * Z * Z) :=
  let* rng := VG_indexXA rm ix in Ok (key_min rng, key_max rng, val rng).

Definition VG_lookupRangeMap (rm : RangeMap) (key : Z) : outcome (Z * Z * Z) :=
  let* i := find rm key in VG_indexRangeMap rm i.

Definition VG_sizeRangeMap (rm : RangeMap) : outcome Z :=
  let size := VG_sizeXA rm in
  let* _ := assert_that (0 <=? size) in
  Ok (u32 size).

End Code.

(** ** Tilings *)

Implicit Types (l : list Range) (rm : RangeMap).

Definition is_key (k : Z) : Prop := 0 <= k <= UWORD_MAX.

(** The ranges follow one another from the first key to the last. *)
Record tiled l : Prop := mk_tiled {
  ti_nonempty : 0 < size l;
  ti_first : key_min (get l 0) = 0;
  ti_last : key_max (get l (size l - 1)) = UWORD_MAX;
  ti_range : forall i, 0 <= i < size l -> key_min (get l i) <= key_max (get l i);
  ti_next : forall i, 0 <= i < size l - 1 -> key_max (get l i) + 1 = key_min (get l (i + 1))
}.

(** The map is [f]. *)
Definition holds l (f : Z -> Z) : Prop :=
  forall i k, 0 <= i < size l -> key_min (get l i) <= k <= key_max (get l i) -> f k = val (get l i).

(** No two neighbours have the same value. *)
Definition canonical l : Prop := forall i, 0 <= i < size l - 1 -> val (get l i) <> val (get l (i + 1)).

Lemma tiled_lt l i j : tiled l -> 0 <= i < j -> j < size l -> key_max (get l i) < key_min (get l j).
Proof.
  intros Ht Hi Hj. remember (Z.to_nat (j - i - 1)) as n eqn:En. revert i j Hi Hj En.
  induction n as [|n IH]; intros i j Hi Hj En.
  - replace j with (i + 1) by lia. pose proof (ti_next _ Ht i). lia.
  - assert (key_max (get l i) < key_min (get l (j - 1))) by (apply IH; lia).
    pose proof (ti_range _ Ht (j - 1)). pose proof (ti_next _ Ht (j - 1)). replace (j - 1 + 1) with j in * by lia. lia.
Qed.

(** A key is in one range only. *)
Lemma tiled_unique l i j k : tiled l -> 0 <= i < size l -> 0 <= j < size l ->
  key_min (get l i) <= k <= key_max (get l i) -> key_min (get l j) <= k <= key_max (get l j) -> i = j.
Proof.
  intros Ht Hi Hj Ki Kj. destruct (Z.lt_total i j) as [Hlt|[->|Hlt]]; [|done|].
  - pose proof (tiled_lt l i j Ht). lia.
  - pose proof (tiled_lt l j i Ht). lia.
Qed.

Lemma tiled_bounds l i : tiled l -> 0 <= i < size l -> 0 <= key_min (get l i) /\ key_max (get l i) <= UWORD_MAX.
Proof.
  intros Ht Hi. pose proof (ti_first _ Ht). pose proof (ti_last _ Ht). pose proof (ti_range _ Ht) as Hr. split.
  - destruct (decide (i = 0)) as [->|]; [lia|]. pose proof (tiled_lt l 0 i Ht). specialize (Hr 0). lia.
  - destruct (decide (i = size l - 1)) as [->|]; [lia|]. pose proof (tiled_lt l i (size l - 1) Ht). specialize (Hr (size l - 1)). lia.
Qed.

(** ** Finding *)

(** The array of the ranges [l], with room for [n]. *)
Record map_ok l (n : Z) rm : Prop := mk_map_ok {
  mo_xa : xa_ok l rm;
  mo_elem : elemSzB rm = sizeof_Range;
  mo_size : size l <= n
}.

Definition small (n : Z) : Prop := n < 2 ^ 56.

Lemma find_loop_spec l n rm key (Hok : map_ok l n rm) (Hn : small n) (Ht : tiled l) (Hk : is_key key) fuel : forall lo hi,
  0 <= lo -> lo <= hi + 1 -> hi <= size l -> hi + 1 - lo <= Z.of_nat fuel ->
  (0 < lo -> lo <= size l /\ key_max (get l (lo - 1)) < key) -> (hi < size l - 1 -> key < key_min (get l (hi + 1))) ->
  exists i, find_loop fuel rm key lo hi = Ok i /\ 0 <= i < size l /\ key_min (get l i) <= key <= key_max (get l i).
Proof.
  destruct Hok as [Hxa _ Hsize]. unfold small in Hn.
  induction fuel as [|fuel IH]; intros lo hi Hlo Hle Hhi Hf Hbelow Habove; cbn [find_loop].
  all: assert (Hlo' : lo < size l).
  1, 3: destruct (decide (lo < size l)) as [|Hge]; [done|exfalso]; pose proof (ti_nonempty _ Ht);
    destruct Hbelow as [Hle' Hlast]; [lia|]; replace lo with (size l) in Hlast by lia;
    rewrite (ti_last _ Ht) in Hlast; unfold is_key in Hk; lia.
  all: destruct (Z.ltb_spec hi lo) as [Hgt|Hle2].
  1, 3: exfalso; assert (hi = lo - 1) as -> by lia; replace (lo - 1 + 1) with lo in Habove by lia; unfold is_key in Hk;
    destruct (decide (lo = 0)) as [->|];
    [rewrite (ti_first _ Ht) in Habove; lia
    |pose proof (ti_next _ Ht (lo - 1)) as Hnext; replace (lo - 1 + 1) with lo in Hnext by lia; lia].
  - lia.
  - unfold long_in_range. rewrite defined_when_true by (apply andb_true_iff; split; [apply Z.leb_le|apply Z.ltb_lt]; lia).
    cbn [obind]. set (mid := (lo + hi) / 2). assert (Hmid : lo <= mid <= hi /\ mid < size l) by (unfold mid; div_lia).
    rewrite (VG_indexXA_in l) by (done || lia). cbn [obind].
    destruct (Z.ltb_spec key (key_min (get l mid))).
    { apply IH; [lia|lia|lia|lia|done|]. intros _. by replace (mid - 1 + 1) with mid by lia. }
    destruct (Z.ltb_spec (key_max (get l mid)) key).
    { apply IH; [lia|lia|lia|lia| |done]. intros _. replace (mid + 1 - 1) with mid by lia. split; [lia|done]. }
    exists mid. split_and!; (done || lia).
Qed.

Lemma find_spec l n rm key : map_ok l n rm -> small n -> tiled l -> is_key key ->
  exists i, find rm key = Ok i /\ 0 <= i < size l /\ key_min (get l i) <= key <= key_max (get l i).
Proof.
  intros Hok Hn Ht Hk. unfold find, VG_sizeXA. rewrite (ok_used _ _ (mo_xa _ _ _ Hok)). pose proof (size_nonneg l).
  apply (find_loop_spec l n rm key Hok Hn Ht Hk); lia.
Qed.

(** ** Changing the list *)

Section Changes.
Context (junk : Range).

Lemma small_room n l rm : map_ok l n rm -> small n -> room (size l) rm.
Proof. intros [_ He Hs] Hn. unfold room, small, sizeof_Range in *. rewrite He. lia. Qed.

Lemma becomes_map m l l' n n' rm : map_ok l n rm -> becomes m l' rm -> size l' <= n' ->
  exists rm', m = Ok rm' /\ map_ok l' n' rm'.
Proof. intros Hok (rm' & -> & Hok' & He & _) Hs. exists rm'. split; [done|]. split; [done|by rewrite He, (mo_elem _ _ _ Hok)|done]. Qed.

Lemma store_at_map l n rm i x : map_ok l n rm -> 0 <= i < size l ->
  exists rm', store_at rm i x = Ok rm' /\ map_ok (<[Z.to_nat i := x]> l) n rm'.
Proof.
  intros Hok Hi. eapply becomes_map; [done|by apply store_at_ok; [apply Hok|]|].
  unfold size. rewrite length_insert. apply Hok.
Qed.

Lemma VG_indexXA_map l n rm i : map_ok l n rm -> 0 <= i < size l -> VG_indexXA rm i = Ok (get l i).
Proof. intros Hok Hi. by apply VG_indexXA_in; [apply Hok|]. Qed.

Definition starts l (k : Z) : Prop := exists i, 0 <= i < size l /\ key_min (get l i) = k.

(** The list after a split of range [i] at [key]. *)
Definition split_list l (i key : Z) : list Range :=
  let r := get l i in
  <[Z.to_nat (i + 1) := r <| key_min := key |>]> (<[Z.to_nat i := r <| key_max := key - 1 |>]> (insert_at (i + 1) r l)).

Lemma size_split_list l i key : 0 <= i < size l -> size (split_list l i key) = size l + 1.
Proof.
  intros Hi. unfold split_list. cbn zeta. rewrite <-(size_insert_at (i + 1) (get l i)) by lia.
  unfold size. by rewrite !length_insert.
Qed.

Lemma get_split_list l i key k : 0 <= i < size l -> 0 <= k ->
  get (split_list l i key) k =
    if decide (k < i) then get l k else if decide (k = i) then (get l i) <| key_max := key - 1 |>
    else if decide (k = i + 1) then (get l i) <| key_min := key |> else get l (k - 1).
Proof.
  intros Hi Hk. unfold split_list. cbn zeta.
  assert (Hs : size (insert_at (i + 1) (get l i) l) = size l + 1) by (apply size_insert_at; lia).
  assert (Hs' : forall x, size (<[Z.to_nat i := x]> (insert_at (i + 1) (get l i) l)) = size l + 1)
    by (intros x; unfold size in *; by rewrite length_insert).
  rewrite get_insert, get_insert, get_insert_at by (rewrite ?Hs'; lia).
  repeat case_decide; repeat case_test; subst; (done || lia || (f_equal; lia)).
Qed.

Lemma split_list_tiled l i key : tiled l -> 0 <= i < size l -> key_min (get l i) < key <= key_max (get l i) ->
  tiled (split_list l i key).
Proof.
  intros Ht Hi Hk. pose proof (size_split_list l i key Hi) as Hs. destruct Ht as [Hne Hf Hl Hr Hx]. split; rewrite ?Hs.
  - lia.
  - rewrite get_split_list by lia. repeat case_decide; try lia; try done. subst. cbn. done.
  - rewrite get_split_list by lia. repeat case_decide; try lia; cbn.
    + replace i with (size l - 1) by lia. done.
    + by replace (size l + 1 - 1 - 1) with (size l - 1) by lia.
  - intros j Hj. rewrite get_split_list by lia. repeat case_decide; cbn; try lia; apply Hr; lia.
  - intros j Hj. rewrite !get_split_list by lia. repeat case_decide; cbn; try lia.
    + apply Hx. lia.
    + subst i. apply Hx. lia.
    + subst j. replace (i + 1 + 1 - 1) with (i + 1) by lia. apply Hx. lia.
    + replace (j + 1 - 1) with (j - 1 + 1) by lia. apply Hx. lia.
Qed.

Lemma split_list_holds l i key f : 0 <= i < size l -> key_min (get l i) < key <= key_max (get l i) ->
  holds l f -> holds (split_list l i key) f.
Proof.
  intros Hi Hk Hf j k Hj Hjk. rewrite size_split_list in Hj by done. rewrite get_split_list in Hjk |- * by lia.
  repeat case_decide; cbn in *; (apply Hf; lia).
Qed.

Lemma split_list_starts l i key k : 0 <= i < size l -> starts l k -> starts (split_list l i key) k.
Proof.
  intros Hi (j & Hj & <-). destruct (decide (j <= i)).
  - exists j. rewrite size_split_list, get_split_list by lia. split; [lia|]. repeat case_decide; try lia; by subst.
  - exists (j + 1). rewrite size_split_list, get_split_list by lia. split; [lia|]. repeat case_decide; try lia.
    by replace (j + 1 - 1) with j by lia.
Qed.

Lemma split_at_spec l n rm key : map_ok l n rm -> small (n + 1) -> tiled l -> is_key key ->
  exists rm' l', split_at junk rm key = Ok rm' /\ map_ok l' (n + 1) rm' /\ tiled l' /\ (forall f, holds l f -> holds l' f)
    /\ starts l' key /\ forall k, starts l k -> starts l' k.
Proof.
  intros Hok Hn Ht Hkey. assert (Hn' : small n) by (unfold small in *; lia). unfold split_at.
  destruct (find_spec l n rm key Hok Hn' Ht Hkey) as (i & -> & Hi & Hik). cbn [obind]. rewrite Z.add_0_r.
  rewrite (VG_indexXA_map l n) by done. cbn [obind]. destruct (Z.eqb_spec (key_min (get l i)) key) as [E|E].
  { exists rm, l. split_and!; try done; [|by exists i]. destruct Hok. split; [done|done|lia]. }
  pose proof (VG_insertIndexXA_ok junk l rm (i + 1) (get l i) (mo_xa _ _ _ Hok) (small_room n l rm Hok Hn')) as Hins.
  rewrite decide_True in Hins by lia. pose proof (mo_size _ _ _ Hok).
  destruct (becomes_map _ l _ n (n + 1) rm Hok Hins) as (rm1 & -> & Hok1); [rewrite size_insert_at by lia; lia|]. cbn [obind].
  assert (Hs1 : size (insert_at (i + 1) (get l i) l) = size l + 1) by (apply size_insert_at; lia).
  rewrite !(VG_indexXA_map _ _ _ _ Hok1) by lia. cbn [obind]. rewrite !get_insert_at by lia.
  rewrite (decide_True (P := i < i + 1)), (decide_False (P := i + 1 < i + 1)), (decide_True (P := i + 1 = i + 1)) by lia.
  unfold is_key, UWORD_MAX in Hkey. pose proof (tiled_bounds l i Ht Hi). rewrite u64_small by lia.
  destruct (store_at_map _ _ _ i ((get l i) <| key_max := key - 1 |>) Hok1) as (rm2 & -> & Hok2); [lia|]. cbn [obind].
  destruct (store_at_map _ _ _ (i + 1) ((get l i) <| key_min := key |>) Hok2) as (rm3 & -> & Hok3);
    [unfold size in *; rewrite length_insert; lia|].
  exists rm3, (split_list l i key). split_and!; [done|exact Hok3|by apply split_list_tiled; [|done|lia]| | |].
  - intros f. apply split_list_holds; (done || lia).
  - exists (i + 1). rewrite size_split_list, get_split_list by lia. split; [lia|].
    by rewrite decide_False, decide_False, decide_True by lia.
  - intros k. by apply split_list_starts.
Qed.

(** Values of the ranges [i] to [i + m - 1] are set. *)
Lemma bind_loop_spec m : forall l n rm i v, map_ok l n rm -> 0 <= i -> i + Z.of_nat m <= size l ->
  exists rm' l', bind_loop m rm i v = Ok rm' /\ map_ok l' n rm' /\ size l' = size l
    /\ forall k, 0 <= k -> get l' k = if decide (i <= k < i + Z.of_nat m) then (get l k) <| val := v |> else get l k.
Proof.
  induction m as [|m IH]; intros l n rm i v Hok Hi Hm; cbn [bind_loop].
  - exists rm, l. split_and!; try done. intros k Hk. by rewrite decide_False by lia.
  - rewrite (VG_indexXA_map l n) by (done || lia). cbn [obind].
    destruct (store_at_map l n rm i ((get l i) <| val := v |>) Hok) as (rm1 & -> & Hok1); [lia|]. cbn [obind].
    assert (Hs1 : size (<[Z.to_nat i := (get l i) <| val := v |>]> l) = size l) by (unfold size; by rewrite length_insert).
    destruct (IH _ n rm1 (i + 1) v Hok1) as (rm2 & l2 & -> & Hok2 & Hs2 & Hg2); [lia|lia|].
    exists rm2, l2. split_and!; [done|done|lia|]. intros k Hk. rewrite Hg2, get_insert by lia.
    repeat case_decide; repeat case_test; subst; (done || lia).
Qed.

(** Range [i] takes over its successor. *)
Definition merge_list l (i : Z) : list Range :=
  delete (Z.to_nat (i + 1)) (<[Z.to_nat i := (get l i) <| key_max := key_max (get l (i + 1)) |>]> l).

Lemma size_merge_list l i : 0 <= i < size l - 1 -> size (merge_list l i) = size l - 1.
Proof. intros Hi. unfold merge_list. rewrite size_delete; unfold size in *; rewrite length_insert; lia. Qed.

Lemma get_merge_list l i k : 0 <= i < size l - 1 -> 0 <= k -> get (merge_list l i) k =
  if decide (k < i) then get l k else if decide (k = i) then (get l i) <| key_max := key_max (get l (i + 1)) |>
  else get l (k + 1).
Proof.
  intros Hi Hk. unfold merge_list. rewrite get_delete by lia.
  repeat case_decide; rewrite get_insert by lia; case_test; subst; (done || lia).
Qed.

Lemma merge_list_tiled l i : tiled l -> 0 <= i < size l - 1 -> tiled (merge_list l i).
Proof.
  intros Ht Hi. pose proof (size_merge_list l i Hi) as Hs. pose proof Ht as [Hne Hf Hl Hr Hx]. split; rewrite ?Hs.
  - lia.
  - rewrite get_merge_list by lia. repeat case_decide; try lia; try done. by subst i.
  - rewrite get_merge_list by lia. repeat case_decide; try lia; cbn.
    + replace (i + 1) with (size l - 1) by lia. done.
    + by replace (size l - 1 - 1 + 1) with (size l - 1) by lia.
  - intros j Hj. rewrite get_merge_list by lia. repeat case_decide; cbn; try (apply Hr; lia).
    pose proof (Hr i). pose proof (Hx i). pose proof (Hr (i + 1)). lia.
  - intros j Hj. rewrite !get_merge_list by lia. repeat case_decide; cbn; try lia; try (apply Hx; lia).
    + subst i. apply Hx. lia.
    + subst j. apply Hx. lia.
Qed.

Lemma merge_list_holds l i f : tiled l -> 0 <= i < size l - 1 -> val (get l i) = val (get l (i + 1)) ->
  holds l f -> holds (merge_list l i) f.
Proof.
  intros Ht Hi Hv Hf j k Hj Hjk. rewrite size_merge_list in Hj by done. rewrite get_merge_list in Hjk |- * by lia.
  repeat case_decide; cbn in *; try (apply Hf; lia). subst j. pose proof (ti_next _ Ht i Hi).
  destruct (decide (k <= key_max (get l i))); [apply Hf; lia|rewrite Hv; apply Hf; lia].
Qed.

Lemma preen_loop_spec fuel : forall l n rm i f, map_ok l n rm -> tiled l -> holds l f -> 0 <= i ->
  (forall j, 0 <= j < i -> j < size l - 1 -> val (get l j) <> val (get l (j + 1))) -> size l - i <= Z.of_nat fuel ->
  exists rm' l', preen_loop fuel rm i = Ok rm' /\ map_ok l' n rm' /\ tiled l' /\ holds l' f /\ canonical l'.
Proof.
  induction fuel as [|fuel IH]; intros l n rm i f Hok Ht Hf Hi Hc Hfuel; cbn [preen_loop]; unfold VG_sizeXA;
    rewrite (ok_used _ _ (mo_xa _ _ _ Hok));
    (destruct (Z.ltb_spec i (size l - 1)); [|exists rm, l; split_and!; try done; intros j Hj; apply Hc; lia]); [lia|].
  rewrite Z.add_0_r, !(VG_indexXA_map l n) by (done || lia). cbn [obind].
  destruct (Z.eqb_spec (val (get l i)) (val (get l (i + 1)))) as [E|E]; cbn [negb].
  - destruct (store_at_map l n rm i ((get l i) <| key_max := key_max (get l (i + 1)) |>) Hok) as (rm1 & -> & Hok1); [lia|].
    cbn [obind].
    assert (Hs1 : size (<[Z.to_nat i := (get l i) <| key_max := key_max (get l (i + 1)) |>]> l) = size l) by (unfold size; by rewrite length_insert).
    pose proof (VG_removeIndexXA_ok _ rm1 (i + 1) (mo_xa _ _ _ Hok1)) as Hrem. rewrite decide_True in Hrem by lia.
    pose proof (mo_size _ _ _ Hok). pose proof (size_merge_list l i ltac:(lia)) as Hsm.
    destruct (becomes_map _ _ (merge_list l i) n n rm1 Hok1 Hrem) as (rm2 & -> & Hok2); [lia|]. cbn [obind].
    replace (i - 1 + 1) with i by lia. apply (IH (merge_list l i)); try done.
    + by apply merge_list_tiled.
    + by apply merge_list_holds.
    + intros j Hj Hj'. rewrite !get_merge_list by lia. repeat case_decide; try lia; cbn; [apply Hc; lia|].
      subst i. apply Hc; lia.
    + lia.
  - apply (IH l); try done; try lia. intros j Hj Hj'. destruct (decide (j = i)) as [->|]; [done|apply Hc; lia].
Qed.

Definition updated (f : Z -> Z) (kmin kmax v : Z) : Z -> Z := fun k => if decide (kmin <= k <= kmax) then v else f k.

(** What a map is between two operations. *)
Definition represents (rm : RangeMap) (n : Z) (f : Z -> Z) : Prop :=
  exists l, map_ok l n rm /\ tiled l /\ holds l f /\ canonical l.

Lemma starts_found l i k : tiled l -> starts l k -> is_key k -> 0 <= i < size l ->
  key_min (get l i) <= k <= key_max (get l i) -> key_min (get l i) = k.
Proof.
  intros Ht (j & Hj & Ej) Hk Hi Hik. assert (i = j) as ->; [|done].
  apply (tiled_unique l i j k); try done. pose proof (ti_range _ Ht j Hj). lia.
Qed.

(** A range that holds [k] ends there, if there is another that starts behind it. *)
Lemma starts_next_found l i k : tiled l -> k = UWORD_MAX \/ starts l (k + 1) -> 0 <= i < size l ->
  key_min (get l i) <= k <= key_max (get l i) -> key_max (get l i) = k.
Proof.
  intros Ht Hs Hi Hik. pose proof (tiled_bounds l i Ht Hi). destruct Hs as [->|(j & Hj & Ej)]; [lia|].
  destruct (Z.eq_dec (key_max (get l i)) k) as [|Hne]; [done|exfalso].
  assert (i = j) as ->; [|lia]. apply (tiled_unique l i j (k + 1)); try done; [lia|]. pose proof (ti_range _ Ht j Hj). lia.
Qed.

(** Setting the values between two borders updates the map. *)
Lemma set_values l l' i j f kmin kmax v : tiled l -> holds l f -> 0 <= i -> i <= j < size l ->
  key_min (get l i) = kmin -> key_max (get l j) = kmax -> size l' = size l ->
  (forall k, 0 <= k -> get l' k = if decide (i <= k < i + (j - i + 1)) then (get l k) <| val := v |> else get l k) ->
  tiled l' /\ holds l' (updated f kmin kmax v).
Proof.
  intros Ht Hf Hi Hj Emin Emax Hs Hg.
  assert (Hmin : forall k, 0 <= k -> key_min (get l' k) = key_min (get l k)) by (intros k Hk; rewrite Hg by done; by case_decide).
  assert (Hmax : forall k, 0 <= k -> key_max (get l' k) = key_max (get l k)) by (intros k Hk; rewrite Hg by done; by case_decide).
  pose proof Ht as [Hne Hf0 Hl Hr Hx]. split.
  - split; rewrite ?Hs; try lia; [by rewrite Hmin by lia|by rewrite Hmax by lia| |].
    + intros k Hk. rewrite Hmin, Hmax by lia. by apply Hr.
    + intros k Hk. rewrite Hmax, Hmin by lia. by apply Hx.
  - intros a k Ha Hk. rewrite Hmin, Hmax in Hk by lia. rewrite Hs in Ha. rewrite Hg by lia. unfold updated.
    destruct (decide (i <= a < i + (j - i + 1))) as [Hin|Hout]; cbn.
    + rewrite decide_True; [done|]. split.
      * destruct (decide (a = i)) as [->|]; [lia|]. pose proof (tiled_lt l i a Ht). pose proof (Hr i). lia.
      * destruct (decide (a = j)) as [->|]; [lia|]. pose proof (tiled_lt l a j Ht). pose proof (Hr j). lia.
    + rewrite decide_False; [apply Hf; lia|]. destruct (decide (a < i)).
      * pose proof (tiled_lt l a i Ht). lia.
      * pose proof (tiled_lt l j a Ht). lia.
Qed.

Lemma VG_bindRangeMap_spec rm n f kmin kmax v : represents rm n f -> small (n + 2) -> is_key kmin -> is_key kmax -> kmin <= kmax ->
  exists rm', VG_bindRangeMap junk rm kmin kmax v = Ok rm' /\ represents rm' (n + 2) (updated f kmin kmax v).
Proof.
  intros (l & Hok & Ht & Hf & _) Hn Hkmin Hkmax Hle. unfold VG_bindRangeMap.
  rewrite assert_that_true by (by apply Z.leb_le). cbn [obind].
  destruct (split_at_spec l n rm kmin Hok) as (rm1 & l1 & -> & Hok1 & Ht1 & Hf1 & Hmin1 & _); [unfold small in *; lia|done|done|].
  cbn [obind].
  assert (Hsecond : exists rm2 l2, (if kmax <? UWORD_MAX then split_at junk rm1 (u64 (kmax + 1)) else Ok rm1) = Ok rm2
    /\ map_ok l2 (n + 2) rm2 /\ tiled l2 /\ holds l2 f /\ starts l2 kmin /\ (kmax = UWORD_MAX \/ starts l2 (kmax + 1))).
  { unfold is_key in *. destruct (Z.ltb_spec kmax UWORD_MAX) as [Hlt|Hge].
    - unfold UWORD_MAX in *. rewrite u64_small by lia.
      destruct (split_at_spec l1 (n + 1) rm1 (kmax + 1) Hok1) as (rm2 & l2 & -> & Hok2 & Ht2 & Hf2 & Hs2 & Hkeep);
        [by replace (n + 1 + 1) with (n + 2) by lia|done|unfold is_key, UWORD_MAX; lia|].
      exists rm2, l2. replace (n + 1 + 1) with (n + 2) in Hok2 by lia. split_and!; auto.
    - exists rm1, l1. split_and!; auto; [by destruct Hok1; split; [| |lia]|left; lia]. }
  destruct Hsecond as (rm2 & l2 & -> & Hok2 & Ht2 & Hf2 & Hmin2 & Hmax2). cbn [obind].
  destruct (find_spec l2 (n + 2) rm2 kmin Hok2 Hn Ht2 Hkmin) as (i & -> & Hi & Hik). cbn [obind].
  destruct (find_spec l2 (n + 2) rm2 kmax Hok2 Hn Ht2 Hkmax) as (j & -> & Hj & Hjk). cbn [obind].
  apply (starts_found l2 i kmin Ht2 Hmin2 Hkmin Hi) in Hik as Emin.
  apply (starts_next_found l2 j kmax Ht2 Hmax2 Hj) in Hjk as Emax.
  assert (Hij : i <= j) by (destruct (decide (i <= j)); [done|pose proof (tiled_lt l2 j i Ht2); lia]).
  destruct (bind_loop_spec (Z.to_nat (j - i + 1)) l2 (n + 2) rm2 i v Hok2) as (rm3 & l3 & -> & Hok3 & Hs3 & Hg3); [lia|lia|].
  cbn [obind]. rewrite Z2Nat.id in Hg3 by lia.
  destruct (set_values l2 l3 i j f kmin kmax v Ht2 Hf2) as [Ht3 Hf3]; try done; try lia.
  unfold preen, VG_sizeXA. rewrite (ok_used _ _ (mo_xa _ _ _ Hok3)). pose proof (size_nonneg l3).
  destruct (preen_loop_spec (Z.to_nat (size l3)) l3 (n + 2) rm3 0 (updated f kmin kmax v) Hok3 Ht3 Hf3)
    as (rm4 & l4 & -> & H4); [lia|lia|lia|].
  exists rm4. split; [done|]. by exists l4.
Qed.
End Changes.

(** ** Sequences of bindings *)

Definition binding := (Z * Z * Z)%type.

Fixpoint bind_all (junk : Range) (bs : list binding) (rm : RangeMap) : outcome RangeMap :=
  match bs with
  | [] => Ok rm
  | (kmin, kmax, v) :: bs => let* rm := VG_bindRangeMap junk rm kmin kmax v in bind_all junk bs rm
  end.

(** The function the bindings make of [f]: a later one overrides. *)
Definition bound (f : Z -> Z) (bs : list binding) : Z -> Z :=
  fold_left (fun f '(kmin, kmax, v) => updated f kmin kmax v) bs f.

Definition valid_binding (b : binding) : Prop :=
  let '(kmin, kmax, _) := b in is_key kmin /\ is_key kmax /\ kmin <= kmax.

Lemma bind_all_spec junk bs : forall rm n f, represents rm n f -> small (n + 2 * Z.of_nat (length bs)) -> Forall valid_binding bs ->
  exists rm' n', bind_all junk bs rm = Ok rm' /\ represents rm' n' (bound f bs) /\ small n'.
Proof.
  induction bs as [|[[kmin kmax] v] bs IH]; intros rm n f Hrm Hn Hv; cbn [bind_all].
  - exists rm, n. split_and!; [done|done|]. cbn in Hn. by rewrite Z.add_0_r in Hn.
  - inversion_clear Hv as [|? ? Hb Hv']. cbn in Hb. destruct Hb as (H1 & H2 & H3). unfold small in *. cbn [length] in Hn.
    destruct (VG_bindRangeMap_spec junk rm n f kmin kmax v Hrm) as (rm1 & -> & Hrm1); [unfold small; lia|done|done|done|].
    cbn [obind]. apply (IH rm1 (n + 2)); [done|lia|done].
Qed.

Lemma VG_newRangeMap_spec junk v : exists rm, VG_newRangeMap junk v = Ok rm /\ represents rm 1 (fun _ => v).
Proof.
  unfold VG_newRangeMap, VG_newXA. rewrite assert_that_true by done. cbn [obind].
  set (xa := mk_XArray (T := Range) None sizeof_Range None 0 0 false). assert (Hok : xa_ok [] xa) by (split; (done || lia)).
  destruct (VG_addToXA_ok junk [] xa (mk_Range UWORD_MIN UWORD_MAX v) Hok) as (rm & -> & Hok' & He & _); [done|].
  cbn [obind]. unfold VG_sizeXA. rewrite (ok_used _ _ Hok'). cbn. exists rm. split; [done|].
  exists [mk_Range UWORD_MIN UWORD_MAX v]. split_and!.
  - split; [done|done|done].
  - split; try done.
    + intros i Hi. change (size [mk_Range UWORD_MIN UWORD_MAX v]) with 1 in Hi. by assert (i = 0) as -> by lia.
    + intros i Hi. change (size [mk_Range UWORD_MIN UWORD_MAX v]) with 1 in Hi. lia.
  - intros i k Hi _. change (size [mk_Range UWORD_MIN UWORD_MAX v]) with 1 in Hi. by assert (i = 0) as -> by lia.
  - intros i Hi. change (size [mk_Range UWORD_MIN UWORD_MAX v]) with 1 in Hi. lia.
Qed.

(** The largest range around [key] on which [f] is constant. *)
Definition constant_range (f : Z -> Z) (key kmin kmax v : Z) : Prop :=
  0 <= kmin <= key /\ key <= kmax <= UWORD_MAX /\ (forall k, kmin <= k <= kmax -> f k = v)
  /\ (kmin = 0 \/ f (kmin - 1) <> v) /\ (kmax = UWORD_MAX \/ f (kmax + 1) <> v).

Lemma VG_lookupRangeMap_spec rm n f key : represents rm n f -> small n -> is_key key ->
  exists kmin kmax v, VG_lookupRangeMap rm key = Ok (kmin, kmax, v) /\ constant_range f key kmin kmax v.
Proof.
  intros (l & Hok & Ht & Hf & Hc) Hn Hkey. unfold VG_lookupRangeMap, VG_indexRangeMap.
  destruct (find_spec l n rm key Hok Hn Ht Hkey) as (i & -> & Hi & Hik). cbn [obind].
  rewrite (VG_indexXA_map l n) by done. cbn [obind]. eexists _, _, _. split; [done|].
  pose proof (tiled_bounds l i Ht Hi) as Hb. split_and!; try lia.
  - intros k Hk. by apply Hf.
  - destruct (decide (i = 0)) as [->|]; [left; apply (ti_first _ Ht)|right].
    pose proof (ti_next _ Ht (i - 1)) as Hnext. pose proof (ti_range _ Ht (i - 1)). pose proof (Hc (i - 1)) as Hne.
    replace (i - 1 + 1) with i in * by lia. rewrite (Hf (i - 1)) by lia. apply Hne. lia.
  - destruct (decide (i = size l - 1)) as [->|]; [left; apply (ti_last _ Ht)|right].
    pose proof (ti_next _ Ht i) as Hnext. pose proof (ti_range _ Ht (i + 1)). pose proof (Hc i) as Hne.
    rewrite (Hf (i + 1)) by lia. intros E. apply Hne; [lia|done].
Qed.

(** C16: A [RangeMap] refines a function from words to words. After
    [VG_(newRangeMap)] and any sequence of bindings of ranges, each of which
    succeeds, a lookup of any key gives the value of the last binding that
    covered it, or the initial one, and the bounds of the largest range around
    the key with this value. The search never leaves the array and never
    reaches its panic; the whole range of words stays covered. *)
Theorem rangemap_refines_function junk v0 (bs : list binding) key
  (Hbs : Forall valid_binding bs) (Hlen : Z.of_nat (length bs) < 2 ^ 54) (Hkey : is_key key) :
  exists rm kmin kmax v, (let* rm := VG_newRangeMap junk v0 in bind_all junk bs rm) = Ok rm
    /\ VG_lookupRangeMap rm key = Ok (kmin, kmax, v) /\ constant_range (bound (fun _ => v0) bs) key kmin kmax v.
Proof.
  destruct (VG_newRangeMap_spec junk v0) as (rm0 & -> & Hrm0). cbn [obind].
  destruct (bind_all_spec junk bs rm0 1 _ Hrm0) as (rm & n & -> & Hrm & Hn); [unfold small; lia|done|].
  destruct (VG_lookupRangeMap_spec rm n _ key Hrm Hn Hkey) as (kmin & kmax & v & E & H). by exists rm, kmin, kmax, v.
Qed.

Lemma rangemap_refines_function_witness :
  exists rm kmin kmax v, (let* rm := VG_newRangeMap (mk_Range 0 0 0) 7 in bind_all (mk_Range 0 0 0) [(10, 20, 5); (15, 30, 7)] rm) = Ok rm
    /\ VG_lookupRangeMap rm 18 = Ok (kmin, kmax, v)
    /\ constant_range (bound (fun _ => 7) [(10, 20, 5); (15, 30, 7)]) 18 kmin kmax v.
Proof.
  apply (rangemap_refines_function (mk_Range 0 0 0) 7 [(10, 20, 5); (15, 30, 7)] 18); [|done|done].
  repeat (constructor; [done|]). constructor.
Defined.

Example rangemap_example :
  (let* rm := VG_newRangeMap (mk_Range 0 0 0) 7 in
   let* rm := bind_all (mk_Range 0 0 0) [(10, 20, 5); (15, 30, 7)] rm in
   let* n := VG_sizeRangeMap rm in
   let* r := VG_lookupRangeMap rm 18 in Ok (n, r)) = Ok (3, (15, UWORD_MAX, 7)).
Proof. vm_compute. reflexivity. Qed.
