(* ===== verification/SetRef.v ===== *)
(** * One reference to one cache set: the replacement policies of cg_sim.c

    [cache_t2] is the simulated cache.  [tags] is the flat array of the C code:
    set number [s] occupies the [assoc] entries from index [s * assoc], the
    most recently inserted or used way first.  Every access to [tags] is
    bounds-checked ([Err Undefined] outside the array), so that a theorem that
    an operation returns is also a memory-safety theorem. *)

From Stdlib Require Import SpecFloat.
From S2P Require Import Prelude Float LibcBase.

(** ** Data *)

(** [cache_t] of cg_arch.h: what a cache is configured with. *)
Record cache_t := mk_cache_t { size_ : Z; assoc_ : Z; line_size_ : Z }.

Record cache_t2 := mk_cache_t2 {
  c_size : Z;
  c_assoc : Z;
  c_line_size : Z;
  c_sets : Z;
  c_sets_min_1 : Z;
  c_line_size_bits : Z;
  c_tag_shift : Z;
  c_desc_line : string;
  c_tags : list Z;
  c_tags_miss : list Z
}.

Definition with_tags (c : cache_t2) (t : list Z) : cache_t2 :=
  mk_cache_t2 (c_size c) (c_assoc c) (c_line_size c) (c_sets c) (c_sets_min_1 c)
    (c_line_size_bits c) (c_tag_shift c) (c_desc_line c) t (c_tags_miss c).

(** ** Loops shared by the policies *)

(** [for (j = n; j > 0; j--) set[j] = set[j-1];] where [set] is
    [&tags[base]]. *)
Fixpoint shift_down (t : list Z) (base : Z) (n : nat) : outcome (list Z) :=
  match n with
  | O => Ok t
  | S n' =>
      let* v := rd t (base + Z.of_nat n') in
      let* t := wr t (base + Z.of_nat (S n')) v in
      shift_down t base n'
  end.

(** The loop followed by [set[0] = tag;]. *)
Definition install_mru (t : list Z) (base tag : Z) (n : nat) : outcome (list Z) :=
  let* t := shift_down t base n in
  wr t base tag.

(** [for (; i < assoc; i++) if (tag == set[i]) ...]: the first such [i], with
    [n] ways left to look at. *)
Fixpoint find_way (t : list Z) (base tag i : Z) (n : nat) : outcome (option Z) :=
  match n with
  | O => Ok None
  | S n' =>
      let* v := rd t (base + i) in
      if tag =? v then Ok (Some i) else find_way t base tag (i + 1) n'
  end.

(** [&(c->tags[set_no * c->assoc])]: the product is a [UInt]. *)
Definition set_base (c : cache_t2) (set_no : Z) : Z := u32 (set_no * c_assoc c).

(** ** The policies *)

Definition cachesim_setref_is_miss_lru (c : cache_t2) (set_no tag : Z)
  : outcome (bool * cache_t2) :=
  let set := set_base c set_no in
  let* t0 := rd (c_tags c) set in
  if tag =? t0 then Ok (false, c)
  else
    let* hit := find_way (c_tags c) set tag 1 (Z.to_nat (c_assoc c - 1)) in
    match hit with
    | Some i =>
        let* t := install_mru (c_tags c) set tag (Z.to_nat i) in
        Ok (false, with_tags c t)
    | None =>
        let* t := install_mru (c_tags c) set tag (Z.to_nat (c_assoc c - 1)) in
        Ok (true, with_tags c t)
    end.

Definition cachesim_setref_is_miss_lip (c : cache_t2) (set_no tag : Z)
  : outcome (bool * cache_t2) :=
  let set := set_base c set_no in
  let* t0 := rd (c_tags c) set in
  if tag =? t0 then Ok (false, c)
  else
    let* hit := find_way (c_tags c) set tag 1 (Z.to_nat (c_assoc c - 1)) in
    match hit with
    | Some i =>
        let* t := install_mru (c_tags c) set tag (Z.to_nat i) in
        Ok (false, with_tags c t)
    | None =>
        let* t := wr (c_tags c) (set + (c_assoc c - 1)) tag in
        Ok (true, with_tags c t)
    end.

(** [seed] is the static seed of [VG_(random)(NULL)]; the new seed is
    returned. *)
Definition cachesim_setref_is_miss_random (seed : Z) (c : cache_t2) (set_no tag : Z)
  : outcome (bool * cache_t2 * Z) :=
  let set := set_base c set_no in
  let* hit := find_way (c_tags c) set tag 0 (Z.to_nat (c_assoc c)) in
  match hit with
  | Some _ => Ok (false, c, seed)
  | None =>
      let seed := VG_random seed in
      let* _ := defined_when (negb (c_assoc c =? 0)) in
      let i := seed mod u32 (c_assoc c) in
      let* t := wr (c_tags c) (set + i) tag in
      Ok (true, with_tags c t, seed)
  end.

Definition cachesim_setref_is_miss_fifo (c : cache_t2) (set_no tag : Z)
  : outcome (bool * cache_t2) :=
  let set := set_base c set_no in
  let* hit := find_way (c_tags c) set tag 0 (Z.to_nat (c_assoc c)) in
  match hit with
  | Some _ => Ok (false, c)
  | None =>
      let* t := install_mru (c_tags c) set tag (Z.to_nat (c_assoc c - 1)) in
      Ok (true, with_tags c t)
  end.

(** The test [prob >= (bip_throttle_parameter * 100)] with
    [prob = (double)(VG_(random)(NULL) % 100 + 1.0)], [r] being the random
    number: true when the block is inserted like LIP. *)
Definition bip_inserts_lip (bip_throttle_parameter : double) (r : Z) : bool :=
  let prob := double_of_Z (r mod 100 + 1) in
  SFleb (double_mul bip_throttle_parameter (double_of_Z 100)) prob.

Definition cachesim_setref_is_miss_bip (bip_throttle_parameter : double) (seed : Z)
    (c : cache_t2) (set_no tag : Z) : outcome (bool * cache_t2 * Z) :=
  let set := set_base c set_no in
  let* t0 := rd (c_tags c) set in
  if tag =? t0 then Ok (false, c, seed)
  else
    let* hit := find_way (c_tags c) set tag 1 (Z.to_nat (c_assoc c - 1)) in
    match hit with
    | Some i =>
        let* t := install_mru (c_tags c) set tag (Z.to_nat i) in
        Ok (false, with_tags c t, seed)
    | None =>
        if SFeqb bip_throttle_parameter (double_of_Z 1) then
          let* t := install_mru (c_tags c) set tag (Z.to_nat (c_assoc c - 1)) in
          Ok (true, with_tags c t, seed)
        else if SFeqb bip_throttle_parameter (double_of_Z 0) then
          let* t := wr (c_tags c) (set + (c_assoc c - 1)) tag in
          Ok (true, with_tags c t, seed)
        else
          let seed := VG_random seed in
          if bip_inserts_lip bip_throttle_parameter seed then
            let* t := wr (c_tags c) (set + (c_assoc c - 1)) tag in
            Ok (true, with_tags c t, seed)
          else
            let* t := install_mru (c_tags c) set tag (Z.to_nat (c_assoc c - 1)) in
            Ok (true, with_tags c t, seed)
    end.

(** ** Specification: a set as the list of its tags *)

(** The set accessed is in the tag array, with a geometry that does not wrap. *)
Record wf_cache (c : cache_t2) : Prop := {
  wf_assoc : 0 < c_assoc c;
  wf_sets : 0 < c_sets c;
  wf_mask : c_sets_min_1 c = c_sets c - 1;
  wf_bits : 0 <= c_line_size_bits c < 64;
  wf_fit : c_sets c * c_assoc c < 2 ^ 31;
  wf_tags : Z.of_nat (length (c_tags c)) = c_sets c * c_assoc c;
  wf_tags_miss : Z.of_nat (length (c_tags_miss c)) = c_sets c
}.

(** The tags of set [k], first way first. *)
Definition set_of (c : cache_t2) (k : Z) : list Z :=
  take (Z.to_nat (c_assoc c)) (drop (Z.to_nat (k * c_assoc c)) (c_tags c)).

(** The cache with the tags of set [k] replaced. *)
Definition with_set (c : cache_t2) (k : Z) (s : list Z) : cache_t2 :=
  with_tags c (take (Z.to_nat (k * c_assoc c)) (c_tags c) ++ s
               ++ drop (Z.to_nat (k * c_assoc c) + Z.to_nat (c_assoc c)) (c_tags c)).

(** The position of a tag in a set. *)
Definition way_of (tag : Z) (s : list Z) : option nat :=
  fst <$> list_find (eq tag) s.

#[global] Arguments way_of : simpl never.

(** Inserted first, the last way evicted. *)
Definition insert_first (tag : Z) (s : list Z) : list Z := tag :: take (length s - 1) s.

(** Inserted in the last way, which is evicted. *)
Definition insert_last (tag : Z) (s : list Z) : list Z := take (length s - 1) s ++ [tag].

(** A reference policy: miss?, the new set, the new seed. *)
Definition ref_policy : Type := Z -> Z -> list Z -> bool * list Z * Z.

Definition lru_ref : ref_policy := fun seed tag s =>
  match way_of tag s with
  | Some n => (false, tag :: delete n s, seed)
  | None => (true, insert_first tag s, seed)
  end.

Definition lip_ref : ref_policy := fun seed tag s =>
  match way_of tag s with
  | Some n => (false, tag :: delete n s, seed)
  | None => (true, insert_last tag s, seed)
  end.

Definition fifo_ref : ref_policy := fun seed tag s =>
  match way_of tag s with
  | Some n => (false, s, seed)
  | None => (true, insert_first tag s, seed)
  end.

Definition random_ref : ref_policy := fun seed tag s =>
  match way_of tag s with
  | Some n => (false, s, seed)
  | None =>
      let seed := VG_random seed in
      (true, <[Z.to_nat (seed mod Z.of_nat (length s)) := tag]> s, seed)
  end.

Definition bip_ref (throttle : double) : ref_policy := fun seed tag s =>
  match way_of tag s with
  | Some n => (false, tag :: delete n s, seed)
  | None =>
      if SFeqb throttle (double_of_Z 1) then (true, insert_first tag s, seed)
      else if SFeqb throttle (double_of_Z 0) then (true, insert_last tag s, seed)
      else
        let seed := VG_random seed in
        (true, if bip_inserts_lip throttle seed then insert_last tag s
               else insert_first tag s, seed)
  end.

(** ** Interfaces: what a policy promises to the cache simulator *)

Definition policy_impl : Type := Z -> cache_t2 -> Z -> Z -> outcome (bool * cache_t2 * Z).

(** A policy that draws no random number. *)
Definition lift_policy (f : cache_t2 -> Z -> Z -> outcome (bool * cache_t2)) : policy_impl :=
  fun seed c k tag => let* (miss, c) := f c k tag in Ok (miss, c, seed).

(** [impl] on the flat array is [ref] on the set accessed; it returns, and
    changes no other set. *)
Class Implements (impl : policy_impl) (ref : ref_policy) : Prop :=
  implements : forall seed c k tag,
    wf_cache c -> 0 <= k < c_sets c ->
    impl seed c k tag =
      let '(miss, s, seed') := ref seed tag (set_of c k) in
      Ok (miss, with_set c k s, seed').

(** What every replacement policy satisfies on a non-empty set. *)
Class ReplacementPolicy (ref : ref_policy) : Prop := {
  ref_length seed tag s : s <> [] -> length (ref seed tag s).1.2 = length s;
  ref_miss seed tag s : (ref seed tag s).1.1 = negb (bool_decide (tag ∈ s));
  ref_hit seed tag s : tag ∈ s -> (ref seed tag s).1.2 ≡ₚ s;
  ref_evict seed tag s : s <> [] -> tag ∉ s ->
    exists old rest, s ≡ₚ old :: rest /\ (ref seed tag s).1.2 ≡ₚ tag :: rest
}.

(** ** Lemmas: the loops on one set *)

Section OneSet.
Variables (pre post : list Z).
Let base := Z.of_nat (length pre).

Lemma shift_down_spec n s :
  (n < length s)%nat ->
  shift_down (pre ++ s ++ post) base n
  = Ok (pre ++ (take 1 s ++ take n s ++ drop (S n) s) ++ post).
Proof.
  revert s. induction n as [|n IH]; intros s Hn; cbn [shift_down].
  - destruct s as [|x s]; [cbn in Hn; lia|]. cbn. by rewrite drop_0.
  - destruct (lookup_lt_is_Some_2 s n) as [v Hv]; [lia|].
    unfold base. rewrite (rd_app _ _ _ _ v Hv). cbn [obind].
    rewrite wr_app by lia. cbn [obind]. fold base.
    rewrite IH by (rewrite length_insert; lia).
    rewrite !take_insert_ge by lia.
    f_equal. f_equal. f_equal.
    assert (HL : <[S n := v]> s !! S n = Some v) by (apply list_lookup_insert_eq; lia).
    rewrite (drop_S _ _ _ HL), drop_insert_lt by lia.
    by rewrite (take_S_r _ _ _ Hv), <-app_assoc.
Qed.

Lemma install_mru_spec tag n s :
  (n < length s)%nat ->
  install_mru (pre ++ s ++ post) base tag n
  = Ok (pre ++ (tag :: take n s ++ drop (S n) s) ++ post).
Proof.
  intros Hn. unfold install_mru. rewrite shift_down_spec by done. cbn [obind].
  replace base with (Z.of_nat (length pre) + Z.of_nat 0) by (unfold base; lia).
  rewrite wr_app by (rewrite !length_app, !length_take; lia).
  destruct s; [cbn in Hn; lia | done].
Qed.

Lemma find_way_spec tag s i n :
  (i + n = length s)%nat ->
  find_way (pre ++ s ++ post) base tag (Z.of_nat i) n
  = Ok ((fun m => Z.of_nat (i + m)) <$> way_of tag (drop i s)).
Proof.
  revert i. induction n as [|n IH]; intros i Hi; cbn [find_way].
  - by rewrite drop_ge by lia.
  - destruct (lookup_lt_is_Some_2 s i) as [v Hv]; [lia|].
    unfold base. rewrite (rd_app _ _ _ _ v Hv). cbn [obind]. fold base.
    rewrite (drop_S _ _ _ Hv). unfold way_of. cbn [list_find].
    destruct (Z.eqb_spec tag v) as [->|Hne].
    + rewrite decide_True by done. cbn. by rewrite Nat.add_0_r.
    + rewrite decide_False by done.
      replace (Z.of_nat i + 1) with (Z.of_nat (S i)) by lia.
      rewrite IH by lia. unfold way_of.
      destruct (list_find (eq tag) (drop (S i) s)) as [[m x]|]; cbn; [|done].
      do 3 f_equal. lia.
Qed.

Lemma wr_set_spec s i v :
  0 <= i < Z.of_nat (length s) ->
  wr (pre ++ s ++ post) (base + i) v = Ok (pre ++ <[Z.to_nat i := v]> s ++ post).
Proof.
  intros Hi. replace (base + i) with (Z.of_nat (length pre) + Z.of_nat (Z.to_nat i)).
  - apply wr_app. lia.
  - unfold base. lia.
Qed.

Lemma rd_set_head x s : rd (pre ++ (x :: s) ++ post) base = Ok x.
Proof.
  replace base with (Z.of_nat (length pre) + Z.of_nat 0) by (unfold base; lia).
  by apply rd_app.
Qed.

End OneSet.

Lemma way_of_Some tag s n : way_of tag s = Some n -> s !! n = Some tag /\ (n < length s)%nat.
Proof.
  unfold way_of. destruct (list_find (eq tag) s) as [[m x]|] eqn:E; cbn; [|done].
  intros [= <-]. apply list_find_Some in E as (Hl & -> & _).
  split; [done|]. by eapply lookup_lt_Some.
Qed.

Lemma way_of_None tag s : way_of tag s = None <-> tag ∉ s.
Proof.
  unfold way_of. rewrite fmap_None, list_find_None, Forall_forall.
  split; [intros H Hin; by apply (H tag) | intros H x Hx ->; done].
Qed.

Lemma way_of_cons tag x s :
  way_of tag (x :: s) = if decide (tag = x) then Some O else S <$> way_of tag s.
Proof.
  unfold way_of. cbn [list_find]. case_decide; [done|].
  by destruct (list_find (eq tag) s) as [[]|].
Qed.

Lemma take_drop_delete {A} (s : list A) n : take n s ++ drop (S n) s = delete n s.
Proof. symmetry. apply delete_take_drop. Qed.

Lemma insert_last_eq s tag :
  s <> [] -> <[Z.to_nat (Z.of_nat (length s) - 1) := tag]> s = insert_last tag s.
Proof.
  intros Hs. unfold insert_last.
  replace (Z.to_nat (Z.of_nat (length s) - 1)) with (length s - 1)%nat by lia.
  assert (0 < length s)%nat by (destruct s; [done | cbn; lia]).
  rewrite insert_take_drop by lia. rewrite drop_ge; [done | lia].
Qed.

(** ** The set accessed, inside the tag array *)

Section WellFormed.
Context (c : cache_t2) (k : Z) (Hc : wf_cache c) (Hk : 0 <= k < c_sets c).

Let pre := take (Z.to_nat (k * c_assoc c)) (c_tags c).
Let post := drop (Z.to_nat (k * c_assoc c) + Z.to_nat (c_assoc c)) (c_tags c).

Lemma set_end_in_tags : 0 <= k * c_assoc c /\ k * c_assoc c + c_assoc c <= c_sets c * c_assoc c.
Proof. destruct Hc. nia. Qed.

Lemma tags_split : c_tags c = pre ++ set_of c k ++ post.
Proof.
  unfold pre, post, set_of. apply take_drop_split.
  pose proof set_end_in_tags. destruct Hc. lia.
Qed.

Lemma set_base_eq : set_base c k = Z.of_nat (length pre).
Proof.
  pose proof set_end_in_tags. destruct Hc. unfold set_base, pre.
  rewrite u32_small by lia. rewrite length_take. lia.
Qed.

Lemma set_of_length : length (set_of c k) = Z.to_nat (c_assoc c).
Proof.
  pose proof set_end_in_tags. destruct Hc. unfold set_of.
  rewrite length_take, length_drop. lia.
Qed.

Lemma set_of_not_nil : set_of c k <> [].
Proof.
  intros H. pose proof set_of_length as HL. rewrite H in HL. cbn in HL. destruct Hc. lia.
Qed.

Lemma with_set_id : with_set c k (set_of c k) = c.
Proof. unfold with_set. fold pre post. rewrite <-tags_split. by destruct c. Qed.

(** The array after an update of the set is the cache [with_set]. *)
Lemma with_tags_set s : with_tags c (pre ++ s ++ post) = with_set c k s.
Proof. reflexivity. Qed.

Lemma set_of_with_set s :
  length s = Z.to_nat (c_assoc c) -> set_of (with_set c k s) k = s.
Proof.
  intros Hs. unfold with_set. fold pre post.
  pose proof set_base_eq as Hb. unfold set_base in Hb.
  pose proof set_end_in_tags. destruct Hc. rewrite u32_small in Hb by lia.
  unfold set_of. cbn.
  rewrite drop_app_length' by lia. by rewrite take_app_length' by lia.
Qed.

(** The other sets are not touched. *)
Lemma set_of_with_set_ne s k' :
  length s = Z.to_nat (c_assoc c) -> 0 <= k' < c_sets c -> k' <> k ->
  set_of (with_set c k s) k' = set_of c k'.
Proof.
  intros Hs Hk' Hne. apply list_eq. intros i.
  destruct (decide (i < Z.to_nat (c_assoc c))%nat) as [Hi|Hi].
  2: { unfold set_of. cbn. rewrite !lookup_take_ge by lia. done. }
  unfold set_of, with_set. cbn.
  rewrite !lookup_take_lt, !lookup_drop by lia.
  pose proof set_end_in_tags. destruct Hc.
  destruct (Z.lt_ge_cases k' k).
  - rewrite lookup_app_l by (rewrite length_take; nia).
    rewrite lookup_take_lt by nia. done.
  - rewrite lookup_app_r by (rewrite length_take; nia). rewrite length_take.
    rewrite lookup_app_r by nia. rewrite lookup_drop. f_equal. nia.
Qed.

Lemma wf_with_set s :
  length s = Z.to_nat (c_assoc c) -> wf_cache (with_set c k s).
Proof.
  intros Hs. pose proof set_end_in_tags. destruct Hc.
  constructor; cbn; [done..| |done].
  rewrite !length_app, length_take, length_drop. lia.
Qed.

End WellFormed.

(** ** The implementations refine the reference policies *)

Section Refinement.
Context (c : cache_t2) (k : Z) (Hc : wf_cache c) (Hk : 0 <= k < c_sets c).

Lemma set_window : exists pre post,
  c_tags c = pre ++ set_of c k ++ post /\ set_base c k = Z.of_nat (length pre)
  /\ forall s, with_set c k s = with_tags c (pre ++ s ++ post).
Proof.
  eexists _, _. split; [exact (tags_split c k Hc Hk)|].
  split; [exact (set_base_eq c k Hc Hk) | reflexivity].
Qed.

Lemma rd_tags_head x s :
  set_of c k = x :: s -> rd (c_tags c) (set_base c k) = Ok x.
Proof.
  intros Hs. destruct set_window as (pre & post & Ht & Hb & Hw). 
  rewrite Hb, Ht, Hs. apply rd_set_head.
Qed.

Lemma find_way_tags tag (i n : nat) :
  (i + n)%nat = Z.to_nat (c_assoc c) ->
  find_way (c_tags c) (set_base c k) tag (Z.of_nat i) n
  = Ok ((fun m => Z.of_nat (i + m)) <$> way_of tag (drop i (set_of c k))).
Proof.
  intros Hn. destruct set_window as (pre & post & Ht & Hb & Hw). 
  rewrite Hb, Ht. apply find_way_spec. by rewrite set_of_length.
Qed.

Lemma install_mru_tags tag n :
  (n < Z.to_nat (c_assoc c))%nat ->
  (let* t := install_mru (c_tags c) (set_base c k) tag n in Ok (with_tags c t))
  = Ok (with_set c k (tag :: delete n (set_of c k))).
Proof.
  intros Hn. destruct set_window as (pre & post & Ht & Hb & Hw). 
  rewrite Hb, Ht, install_mru_spec by (by rewrite set_of_length).
  cbn [obind]. by rewrite take_drop_delete, Hw.
Qed.

Lemma wr_tags i v :
  0 <= i < c_assoc c ->
  (let* t := wr (c_tags c) (set_base c k + i) v in Ok (with_tags c t))
  = Ok (with_set c k (<[Z.to_nat i := v]> (set_of c k))).
Proof.
  intros Hi. destruct set_window as (pre & post & Ht & Hb & Hw). 
  rewrite Hb, Ht, wr_set_spec by (rewrite set_of_length by done; lia).
  cbn [obind]. by rewrite Hw.
Qed.

(** Factor a result that only depends on the updated cache. *)
Lemma bind_with_tags {B} (m : outcome (list Z)) (f : cache_t2 -> outcome B) c' :
  (let* t := m in Ok (with_tags c t)) = Ok c' ->
  (let* t := m in f (with_tags c t)) = f c'.
Proof. destruct m; cbn; congruence. Qed.

Lemma insert_first_delete tag :
  tag :: delete (Z.to_nat (c_assoc c - 1)) (set_of c k) = insert_first tag (set_of c k).
Proof.
  pose proof (set_of_length c k Hc Hk). pose proof (wf_assoc c Hc).
  unfold insert_first. rewrite delete_take_drop, drop_ge, app_nil_r by lia.
  do 2 f_equal. lia.
Qed.

Lemma insert_last_set tag :
  <[Z.to_nat (c_assoc c - 1) := tag]> (set_of c k) = insert_last tag (set_of c k).
Proof.
  pose proof (set_of_length c k Hc Hk) as HL. pose proof (wf_assoc c Hc).
  rewrite <-insert_last_eq by (by apply set_of_not_nil). do 2 f_equal. lia.
Qed.

(** The search of the policies that treat the first way apart. *)
Lemma scan_tail {B} tag (hit0 : outcome B) (hit : Z -> outcome B) (miss : outcome B) :
  (let* t0 := rd (c_tags c) (set_base c k) in
   if tag =? t0 then hit0
   else let* h := find_way (c_tags c) (set_base c k) tag 1 (Z.to_nat (c_assoc c - 1)) in
        match h with Some i => hit i | None => miss end)
  = match way_of tag (set_of c k) with
    | Some O => hit0
    | Some n => hit (Z.of_nat n)
    | None => miss
    end.
Proof.
  pose proof (set_of_length c k Hc Hk) as HL. pose proof (wf_assoc c Hc).
  destruct (set_of c k) as [|x s] eqn:Es; [by apply set_of_not_nil in Es|].
  rewrite (rd_tags_head _ _ Es). cbn [obind]. rewrite way_of_cons.
  destruct (Z.eqb_spec tag x); case_decide; try done.
  change 1 with (Z.of_nat 1). rewrite find_way_tags by lia. cbn [obind].
  rewrite Es, skipn_cons, drop_0.
  by destruct (way_of tag s) as [m|].
Qed.

Lemma scan_all {B} tag (hit : Z -> outcome B) (miss : outcome B) :
  (let* h := find_way (c_tags c) (set_base c k) tag 0 (Z.to_nat (c_assoc c)) in
   match h with Some i => hit i | None => miss end)
  = match way_of tag (set_of c k) with
    | Some n => hit (Z.of_nat n)
    | None => miss
    end.
Proof.
  change 0 with (Z.of_nat 0). rewrite find_way_tags by lia. cbn [obind]. rewrite drop_0.
  by destruct (way_of tag (set_of c k)).
Qed.

(** Moving a way that is already first changes nothing. *)
Lemma promote_first tag :
  way_of tag (set_of c k) = Some O -> with_set c k (tag :: delete O (set_of c k)) = c.
Proof.
  intros H. apply way_of_Some in H as [H _].
  destruct (set_of c k) as [|x s] eqn:Es; [done|]. injection H as ->.
  cbn. rewrite <-Es. by apply with_set_id.
Qed.

Lemma promote_way {B} tag n (f : cache_t2 -> outcome B) :
  way_of tag (set_of c k) = Some n ->
  (let* t := install_mru (c_tags c) (set_base c k) tag (Z.to_nat (Z.of_nat n)) in
   f (with_tags c t)) = f (with_set c k (tag :: delete n (set_of c k))).
Proof.
  intros H. apply way_of_Some in H as [_ H]. rewrite set_of_length in H by done.
  rewrite Nat2Z.id. apply bind_with_tags. by apply install_mru_tags.
Qed.

Lemma install_first {B} tag (f : cache_t2 -> outcome B) :
  (let* t := install_mru (c_tags c) (set_base c k) tag (Z.to_nat (c_assoc c - 1)) in
   f (with_tags c t)) = f (with_set c k (insert_first tag (set_of c k))).
Proof.
  pose proof (wf_assoc c Hc). apply bind_with_tags. rewrite install_mru_tags by lia.
  by rewrite insert_first_delete.
Qed.

Lemma install_last {B} tag (f : cache_t2 -> outcome B) :
  (let* t := wr (c_tags c) (set_base c k + (c_assoc c - 1)) tag in
   f (with_tags c t)) = f (with_set c k (insert_last tag (set_of c k))).
Proof.
  pose proof (wf_assoc c Hc). apply bind_with_tags. rewrite wr_tags by lia.
  by rewrite insert_last_set.
Qed.

End Refinement.

#[export] Instance lru_implements : Implements (lift_policy cachesim_setref_is_miss_lru) lru_ref.
Proof.
  intros seed c k tag Hc Hk. unfold lift_policy, cachesim_setref_is_miss_lru, lru_ref.
  rewrite (scan_tail c k Hc Hk).
  destruct (way_of tag (set_of c k)) as [[|n]|] eqn:Ew; cbn [obind].
  - by rewrite (promote_first c k Hc Hk _ Ew).
  - by rewrite (promote_way c k Hc Hk tag (S n) (fun c' => Ok (false, c')) Ew).
  - by rewrite (install_first c k Hc Hk tag (fun c' => Ok (true, c'))).
Qed.

#[export] Instance lip_implements : Implements (lift_policy cachesim_setref_is_miss_lip) lip_ref.
Proof.
  intros seed c k tag Hc Hk. unfold lift_policy, cachesim_setref_is_miss_lip, lip_ref.
  rewrite (scan_tail c k Hc Hk).
  destruct (way_of tag (set_of c k)) as [[|n]|] eqn:Ew; cbn [obind].
  - by rewrite (promote_first c k Hc Hk _ Ew).
  - by rewrite (promote_way c k Hc Hk tag (S n) (fun c' => Ok (false, c')) Ew).
  - by rewrite (install_last c k Hc Hk tag (fun c' => Ok (true, c'))).
Qed.

#[export] Instance fifo_implements : Implements (lift_policy cachesim_setref_is_miss_fifo) fifo_ref.
Proof.
  intros seed c k tag Hc Hk. unfold lift_policy, cachesim_setref_is_miss_fifo, fifo_ref.
  rewrite (scan_all c k Hc Hk).
  destruct (way_of tag (set_of c k)) as [n|] eqn:Ew; cbn [obind].
  - by rewrite (with_set_id c k Hc Hk).
  - by rewrite (install_first c k Hc Hk tag (fun c' => Ok (true, c'))).
Qed.

#[export] Instance random_implements : Implements cachesim_setref_is_miss_random random_ref.
Proof.
  intros seed c k tag Hc Hk. unfold cachesim_setref_is_miss_random, random_ref.
  rewrite (scan_all c k Hc Hk).
  destruct (way_of tag (set_of c k)) as [n|] eqn:Ew.
  - by rewrite (with_set_id c k Hc Hk).
  - pose proof (set_of_length c k Hc Hk) as HL. pose proof (wf_assoc c Hc).
    pose proof (wf_fit c Hc). pose proof (wf_sets c Hc).
    destruct (Z.eqb_spec (c_assoc c) 0); [lia|]. cbn [negb defined_when obind].
    rewrite u32_small by nia.
    rewrite (bind_with_tags c _ (fun c' => Ok (true, c', VG_random seed)) _
               (wr_tags c k Hc Hk _ tag (Z.mod_pos_bound _ _ (wf_assoc c Hc)))).
    rewrite HL. by rewrite Z2Nat.id by lia.
Qed.

#[export] Instance bip_implements throttle :
  Implements (cachesim_setref_is_miss_bip throttle) (bip_ref throttle).
Proof.
  intros seed c k tag Hc Hk. unfold cachesim_setref_is_miss_bip, bip_ref.
  rewrite (scan_tail c k Hc Hk).
  destruct (way_of tag (set_of c k)) as [[|n]|] eqn:Ew; cbn [obind].
  - by rewrite (promote_first c k Hc Hk _ Ew).
  - by rewrite (promote_way c k Hc Hk tag (S n) (fun c' => Ok (false, c', seed)) Ew).
  - rewrite (install_first c k Hc Hk tag (fun c' => Ok (true, c', seed))).
    rewrite (install_last c k Hc Hk tag (fun c' => Ok (true, c', seed))).
    rewrite (install_first c k Hc Hk tag (fun c' => Ok (true, c', VG_random seed))).
    rewrite (install_last c k Hc Hk tag (fun c' => Ok (true, c', VG_random seed))).
    by repeat case_test.
Qed.

(** ** Every reference policy is a replacement policy *)

Section Insertions.
Context (tag : Z) (s : list Z) (Hs : s <> []).

Lemma insert_first_length : length (insert_first tag s) = length s.
Proof.
  unfold insert_first. cbn. rewrite length_take.
  destruct s; [done | cbn; lia].
Qed.

Lemma insert_last_length : length (insert_last tag s) = length s.
Proof.
  unfold insert_last. rewrite length_app, length_take. destruct s; [done | cbn; lia].
Qed.

Lemma evicts_way n :
  (n < length s)%nat -> exists old, s ≡ₚ old :: delete n s.
Proof.
  intros Hn. destruct (lookup_lt_is_Some_2 s n Hn) as [old Hold].
  exists old. by apply delete_Permutation.
Qed.

Lemma take_all_but_last : take (length s - 1) s = delete (length s - 1)%nat s.
Proof.
  rewrite delete_take_drop. rewrite drop_ge; [by rewrite app_nil_r | lia].
Qed.

Lemma insert_first_evicts :
  exists old rest, s ≡ₚ old :: rest /\ insert_first tag s ≡ₚ tag :: rest.
Proof.
  destruct (evicts_way (length s - 1)) as [old Hold]; [destruct s; [done | cbn; lia]|].
  exists old, (delete (length s - 1)%nat s). split; [done|].
  unfold insert_first. by rewrite take_all_but_last.
Qed.

Lemma insert_last_evicts :
  exists old rest, s ≡ₚ old :: rest /\ insert_last tag s ≡ₚ tag :: rest.
Proof.
  destruct insert_first_evicts as (old & rest & H1 & H2).
  exists old, rest. split; [done|]. rewrite <-H2. unfold insert_last, insert_first.
  by rewrite Permutation_app_comm.
Qed.

Lemma insert_way_evicts n :
  (n < length s)%nat -> exists old rest, s ≡ₚ old :: rest /\ <[n := tag]> s ≡ₚ tag :: rest.
Proof.
  intros Hn. destruct (evicts_way n Hn) as [old Hold].
  exists old, (delete n s). split; [done|].
  rewrite insert_take_drop, delete_take_drop by done. by rewrite Permutation_middle.
Qed.

Lemma promote_perm n : way_of tag s = Some n -> tag :: delete n s ≡ₚ s.
Proof. intros [H _]%way_of_Some. symmetry. by apply delete_Permutation. Qed.

Lemma random_way r : (Z.to_nat (r mod Z.of_nat (length s)) < length s)%nat.
Proof.
  assert (0 < length s)%nat by (destruct s; [done | cbn; lia]).
  pose proof (Z.mod_pos_bound r (Z.of_nat (length s))). lia.
Qed.

End Insertions.

Create HintDb policies.
#[export] Hint Resolve insert_first_length insert_last_length insert_first_evicts
  insert_last_evicts insert_way_evicts promote_perm random_way : policies.

Lemma way_of_miss tag s : bool_decide (way_of tag s = None) = negb (bool_decide (tag ∈ s)).
Proof.
  rewrite (bool_decide_ext _ _ (way_of_None tag s)), bool_decide_not. done.
Qed.

(** The laws of a policy whose outcome on a hit is a permutation [hit n] of the
    set and on a miss a set [miss] with [tag] in place of one way. *)
Lemma policy_laws tag s (hit : nat -> list Z) (miss : list Z) :
  (forall n, way_of tag s = Some n -> hit n ≡ₚ s) ->
  (s <> [] -> exists old rest, s ≡ₚ old :: rest /\ miss ≡ₚ tag :: rest) ->
  let s' := match way_of tag s with Some n => hit n | None => miss end in
  (s <> [] -> length s' = length s)
  /\ (tag ∈ s -> s' ≡ₚ s)
  /\ (s <> [] -> tag ∉ s -> exists old rest, s ≡ₚ old :: rest /\ s' ≡ₚ tag :: rest).
Proof.
  intros Hhit Hmiss s'. subst s'. destruct (way_of tag s) as [n|] eqn:E.
  - specialize (Hhit _ eq_refl). apply way_of_Some in E as [E _].
    apply list_elem_of_lookup_2 in E. split_and!; [|done..].
    intros _. by rewrite Hhit.
  - apply way_of_None in E. split_and!; [|done|auto].
    intros Hs. destruct (Hmiss Hs) as (old & rest & H1 & H2). by rewrite H1, H2.
Qed.

(** A policy given by what it does to the set on a hit and on a miss. *)
Lemma build_policy (ref : ref_policy) (hit : Z -> list Z -> nat -> list Z)
    (miss : Z -> Z -> list Z -> list Z) :
  (forall seed tag s, (ref seed tag s).1
     = (bool_decide (way_of tag s = None),
        match way_of tag s with Some n => hit tag s n | None => miss seed tag s end)) ->
  (forall tag s n, way_of tag s = Some n -> hit tag s n ≡ₚ s) ->
  (forall seed tag s, s <> [] ->
     exists old rest, s ≡ₚ old :: rest /\ miss seed tag s ≡ₚ tag :: rest) ->
  ReplacementPolicy ref.
Proof.
  intros Href Hhit Hmiss.
  split; intros seed tag s; rewrite Href; cbn;
    pose proof (policy_laws tag s (hit tag s) (miss seed tag s) (Hhit tag s) (Hmiss seed tag s))
      as (H1 & H2 & H3); auto.
  apply way_of_miss.
Qed.

#[export] Instance lru_policy : ReplacementPolicy lru_ref.
Proof.
  apply (build_policy _ (fun tag s n => tag :: delete n s) (fun _ => insert_first));
    [|auto with policies..].
  intros seed tag s. unfold lru_ref. by destruct (way_of tag s).
Qed.

#[export] Instance lip_policy : ReplacementPolicy lip_ref.
Proof.
  apply (build_policy _ (fun tag s n => tag :: delete n s) (fun _ => insert_last));
    [|auto with policies..].
  intros seed tag s. unfold lip_ref. by destruct (way_of tag s).
Qed.

#[export] Instance fifo_policy : ReplacementPolicy fifo_ref.
Proof.
  apply (build_policy _ (fun tag s n => s) (fun _ => insert_first)); [|auto with policies..].
  intros seed tag s. unfold fifo_ref. by destruct (way_of tag s).
Qed.

#[export] Instance random_policy : ReplacementPolicy random_ref.
Proof.
  apply (build_policy _ (fun tag s n => s)
    (fun seed tag s => <[Z.to_nat (VG_random seed mod Z.of_nat (length s)) := tag]> s));
    [|auto with policies..].
  intros seed tag s. unfold random_ref. by destruct (way_of tag s).
Qed.

#[export] Instance bip_policy throttle : ReplacementPolicy (bip_ref throttle).
Proof.
  apply (build_policy _ (fun tag s n => tag :: delete n s)
    (fun seed tag s =>
       if SFeqb throttle (double_of_Z 1) then insert_first tag s
       else if SFeqb throttle (double_of_Z 0) then insert_last tag s
       else if bip_inserts_lip throttle (VG_random seed) then insert_last tag s
       else insert_first tag s)).
  - intros seed tag s. unfold bip_ref. destruct (way_of tag s); [done|]. by repeat case_test.
  - auto with policies.
  - intros. repeat case_test; auto with policies.
Qed.
