(* ===== verification/PolicyTheory.v ===== *)
(** * What the replacement policies compute on sequences of references

    Built on the refinements of SetRef.v: the contents of an LRU set are the
    most recently used tags (stack distance, inclusion between
    associativities), how BIP lies between LRU and LIP, which ways RANDOM
    evicts, Belady's anomaly of FIFO, and which blocks leave a set: under LRU and
    FIFO a block that is no longer referenced moves one way down with every miss,
    and is gone after as many misses as there are ways; under LIP a scan of new
    blocks of any length only ever replaces the last way. *)

From Stdlib Require Import SpecFloat.
From S2P Require Import Prelude Float LibcBase SetRef.

(** ** Sequences of references to one set *)

(** The references [ts] to set [k], in order: which of them miss, the cache and
    the seed left. *)
Fixpoint run_set (impl : policy_impl) (seed : Z) (c : cache_t2) (k : Z) (ts : list Z)
  : outcome (list bool * cache_t2 * Z) :=
  match ts with
  | [] => Ok ([], c, seed)
  | t :: ts =>
      let* (miss, c, seed) := impl seed c k t in
      let* (misses, c, seed) := run_set impl seed c k ts in
      Ok (miss :: misses, c, seed)
  end.

(** The same on the reference policy. *)
Fixpoint run_ref (ref : ref_policy) (seed : Z) (s : list Z) (ts : list Z)
  : list bool * list Z * Z :=
  match ts with
  | [] => ([], s, seed)
  | t :: ts =>
      let '(miss, s, seed) := ref seed t s in
      let '(misses, s, seed) := run_ref ref seed s ts in
      (miss :: misses, s, seed)
  end.

(** The distinct tags of [ts], most recently used first. *)
Definition recency (ts : list Z) : list Z :=
  foldl (fun R t => t :: filter (fun x => x ≠ t) R) [] ts.

Definition count_misses (bs : list bool) : nat := length (filter (fun b => b = true) bs).

#[global] Arguments count_misses : simpl never.

(** ** Running the implementation is running the reference *)

Lemma ref_length' ref `{ReplacementPolicy ref} seed t s miss s' seed' :
  s <> [] -> ref seed t s = (miss, s', seed') -> length s' = length s.
Proof. intros Hs E. by rewrite <-(ref_length seed t s Hs), E. Qed.

Lemma nonempty_length {A} (s s' : list A) : length s' = length s -> s <> [] -> s' <> [].
Proof. by destruct s, s'. Qed.

Lemma with_set_with_set c k s s' :
  wf_cache c -> 0 <= k < c_sets c -> length s = Z.to_nat (c_assoc c) ->
  with_set (with_set c k s) k s' = with_set c k s'.
Proof.
  intros Hc Hk Hs. pose proof (set_end_in_tags c k Hc Hk). pose proof (wf_tags c Hc).
  unfold with_set. cbn. unfold with_tags. cbn. f_equal.
  rewrite take_app_length' by (rewrite length_take; lia). f_equal. f_equal.
  rewrite app_assoc, drop_app_length'; [done|].
  rewrite length_app, length_take. lia.
Qed.

Lemma run_set_refines impl ref `{Implements impl ref} `{ReplacementPolicy ref} ts seed c k :
  wf_cache c -> 0 <= k < c_sets c ->
  run_set impl seed c k ts =
    let '(misses, s, seed') := run_ref ref seed (set_of c k) ts in
    Ok (misses, with_set c k s, seed').
Proof.
  intros Hc Hk. revert c seed Hc Hk.
  induction ts as [|t ts IH]; intros c seed Hc Hk; cbn [run_set run_ref].
  - by rewrite with_set_id.
  - rewrite (implements seed c k t Hc Hk).
    pose proof (set_of_length c k Hc Hk) as HL. pose proof (set_of_not_nil c k Hc Hk) as Hnil.
    destruct (ref seed t (set_of c k)) as [[miss s] seed1] eqn:E. cbn [obind].
    pose proof (ref_length' _ _ _ _ _ _ _ Hnil E) as Hs. rewrite HL in Hs.
    rewrite (IH (with_set c k s) seed1 (wf_with_set c k Hc Hk s Hs) Hk).
    rewrite (set_of_with_set c k Hc Hk s Hs).
    destruct (run_ref ref seed1 s ts) as [[misses s'] seed2]. cbn [obind].
    by rewrite with_set_with_set.
Qed.

Lemma run_ref_app ref seed s ts1 ts2 :
  run_ref ref seed s (ts1 ++ ts2) =
    let '(m1, s1, seed1) := run_ref ref seed s ts1 in
    let '(m2, s2, seed2) := run_ref ref seed1 s1 ts2 in
    (m1 ++ m2, s2, seed2).
Proof.
  revert seed s. induction ts1 as [|t ts1 IH]; intros seed s; cbn.
  - by destruct (run_ref ref seed s ts2) as [[]].
  - destruct (ref seed t s) as [[miss s'] seed']. rewrite IH.
    destruct (run_ref ref seed' s' ts1) as [[m1 s1] seed1].
    by destruct (run_ref ref seed1 s1 ts2) as [[]].
Qed.

(** ** LRU: the most recently used tags *)

Lemma recency_snoc ts t : recency (ts ++ [t]) = t :: filter (fun x => x ≠ t) (recency ts).
Proof. unfold recency. by rewrite foldl_app. Qed.

Lemma elem_of_recency ts x : x ∈ recency ts <-> x ∈ ts.
Proof.
  induction ts as [|t ts IH] using rev_ind; [done|].
  rewrite recency_snoc, elem_of_cons, list_elem_of_filter, elem_of_app, list_elem_of_singleton, IH.
  destruct (decide (x = t)); naive_solver.
Qed.

Lemma NoDup_recency ts : NoDup (recency ts).
Proof.
  induction ts as [|t ts IH] using rev_ind; [constructor|].
  rewrite recency_snoc. constructor.
  - rewrite list_elem_of_filter. naive_solver.
  - by apply NoDup_filter.
Qed.

(** Since its last use, [t] has been followed by the distinct tags of [b]. *)
Lemma recency_split a t b :
  t ∉ b -> exists P Q, recency (a ++ t :: b) = P ++ t :: Q /\ length P = length (remove_dups b).
Proof.
  intros Ht. cut (exists P Q, recency (a ++ t :: b) = P ++ t :: Q /\ forall x, x ∈ P <-> x ∈ b).
  { intros (P & Q & HR & HP). exists P, Q. split; [done|].
    apply Permutation_length, NoDup_Permutation; [|apply NoDup_remove_dups|].
    - pose proof (NoDup_recency (a ++ t :: b)) as Hnd. rewrite HR in Hnd.
      by apply NoDup_app in Hnd as [? _].
    - intros x. by rewrite elem_of_remove_dups. }
  induction b as [|y b IH] using rev_ind.
  - exists [], (filter (fun x => x ≠ t) (recency a)). by rewrite recency_snoc.
  - rewrite elem_of_app, list_elem_of_singleton in Ht.
    destruct IH as (P & Q & HR & HP); [naive_solver|].
    exists (y :: filter (fun x => x ≠ y) P), (filter (fun x => x ≠ y) Q). split.
    + rewrite app_comm_cons, app_assoc, recency_snoc, HR, filter_app, filter_cons_True by naive_solver.
      done.
    + intros x. rewrite elem_of_cons, list_elem_of_filter, elem_of_app, list_elem_of_singleton, HP.
      destruct (decide (x = y)); naive_solver.
Qed.

Lemma filter_ne_id (t : Z) (l : list Z) : t ∉ l -> filter (fun x => x ≠ t) l = l.
Proof.
  intros Ht. induction l as [|x l IH]; [done|].
  rewrite not_elem_of_cons in Ht. rewrite filter_cons_True by naive_solver.
  f_equal. naive_solver.
Qed.

Lemma take_remove_present (t : Z) n (R Z0 : list Z) :
  NoDup R -> t ∉ Z0 -> t ∈ take n (R ++ Z0) ->
  exists m, way_of t (take n (R ++ Z0)) = Some m
    /\ delete m (take n (R ++ Z0)) = take (n - 1) (filter (fun x => x ≠ t) R ++ Z0).
Proof.
  intros HR H0. revert n. induction R as [|x R IH]; intros n Hin.
  { exfalso. apply H0. by eapply (subseteq_take n). }
  destruct n as [|n]; [by apply elem_of_nil in Hin|].
  apply NoDup_cons in HR as [Hx HR]. cbn [app firstn] in Hin |- *. rewrite way_of_cons.
  destruct (decide (t = x)) as [->|Hne].
  - exists O. split; [done|]. cbn [delete list_delete].
    rewrite filter_cons_False by naive_solver. rewrite filter_ne_id by done. f_equal. lia.
  - apply elem_of_cons in Hin as [|Hin]; [done|].
    destruct (IH HR n Hin) as (m & Hm & Hd). exists (S m). rewrite Hm. split; [done|].
    change (delete (S m) (x :: take n (R ++ Z0))) with (x :: delete m (take n (R ++ Z0))).
    rewrite filter_cons_True, Hd by done.
    destruct n; [by apply elem_of_nil in Hin|]. cbn [Nat.sub]. by rewrite Nat.sub_0_r.
Qed.

Lemma take_remove_absent (t : Z) n (R Z0 : list Z) :
  t ∉ Z0 -> t ∉ take n (R ++ Z0) ->
  take (n - 1) (take n (R ++ Z0)) = take (n - 1) (filter (fun x => x ≠ t) R ++ Z0).
Proof.
  intros H0. revert n. induction R as [|x R IH]; intros n Hin; cbn [app].
  { rewrite take_take. f_equal. lia. }
  destruct n as [|[|n]]; [done..|]. cbn [app firstn Nat.sub] in Hin |- *. rewrite elem_of_cons in Hin.
  rewrite filter_cons_True by naive_solver. cbn. f_equal.
  specialize (IH (S n)). cbn in IH. rewrite !Nat.sub_0_r in IH. apply IH. naive_solver.
Qed.

(** The contents after the references [ts], from an empty (zeroed) set. *)
Lemma run_lru_contents n seed ts :
  Forall (fun t => t <> 0) ts ->
  (0 < n)%nat ->
  (run_ref lru_ref seed (replicate n 0) ts).1.2 = take n (recency ts ++ replicate n 0).
Proof.
  intros Hts Hn. induction ts as [|t ts IH] using rev_ind.
  { cbn. rewrite take_ge; [done|]. by rewrite length_replicate. }
  apply Forall_app in Hts as [Hts [Ht _]%Forall_cons]. specialize (IH Hts).
  rewrite run_ref_app. destruct (run_ref lru_ref seed (replicate n 0) ts) as [[m s] seed'] eqn:E.
  cbn in IH. subst s. cbn [run_ref]. unfold lru_ref at 1.
  assert (Ht0 : t ∉ replicate n 0) by (intros Hin; by apply elem_of_replicate in Hin as [-> _]).
  rewrite recency_snoc. destruct n as [|n]; [lia|].
  destruct (way_of t (take (S n) (recency ts ++ replicate (S n) 0))) as [j|] eqn:Ew.
  - destruct (take_remove_present t (S n) (recency ts) (replicate (S n) 0)) as (j' & Hj & Hd);
      [apply NoDup_recency | done | |].
    { apply way_of_Some in Ew as [Ew _]. by eapply list_elem_of_lookup_2. }
    rewrite Ew in Hj. injection Hj as <-. cbn [fst snd]. rewrite Hd. cbn. f_equal.
    by rewrite Nat.sub_0_r.
  - apply way_of_None in Ew. cbn [fst snd]. unfold insert_first. cbn [app take]. f_equal.
    rewrite length_take, length_app, length_replicate.
    replace (S n `min` (length (recency ts) + S n) - 1)%nat with (S n - 1)%nat by lia.
    rewrite (take_remove_absent t (S n) (recency ts) (replicate (S n) 0) Ht0 Ew).
    f_equal. lia.
Qed.

(** ** Stack distance *)

(** The number of distinct tags referenced since the last reference to [t]. *)
Definition reuse_distance (t : Z) (ts : list Z) : option nat :=
  match list_find (eq t) (rev ts) with
  | Some (i, _) => Some (length (remove_dups (take i (rev ts))))
  | None => None
  end.

(** An empty set: every way holds the tag 0, as [cachesim_initcache] leaves it. *)
Definition cold_set (c : cache_t2) (k : Z) : Prop :=
  set_of c k = replicate (Z.to_nat (c_assoc c)) 0.

Lemma reuse_distance_way t ts :
  way_of t (recency ts) = reuse_distance t ts.
Proof.
  unfold reuse_distance. destruct (list_find (eq t) (rev ts)) as [[i x]|] eqn:E.
  - apply list_find_Some in E as (Hi & <- & Hfirst).
    assert (Hr : rev ts = take i (rev ts) ++ t :: drop (S i) (rev ts)) by (by rewrite take_drop_middle).
    assert (Hts : ts = rev (drop (S i) (rev ts)) ++ t :: rev (take i (rev ts))).
    { rewrite <-(rev_involutive ts) at 1. rewrite Hr at 1.
      rewrite rev_app_distr. cbn. by rewrite <-app_assoc. }
    assert (Hb : t ∉ rev (take i (rev ts))).
    { intros Hin. rewrite elem_of_rev in Hin.
      apply elem_of_take in Hin as (j & Hj & Hlt). by eapply Hfirst. }
    destruct (recency_split (rev (drop (S i) (rev ts))) t _ Hb) as (P & Q & HR & HP).
    rewrite <-Hts in HR.
    assert (length P = length (remove_dups (take i (rev ts)))) as <-.
    { rewrite HP. apply Permutation_length, NoDup_Permutation; [apply NoDup_remove_dups..|].
      intros x. by rewrite !elem_of_remove_dups, elem_of_rev. }
    pose proof (NoDup_recency ts) as Hnd. rewrite HR in Hnd |- *.
    apply NoDup_app in Hnd as (_ & Hnd & _).
    assert (HtP : t ∉ P) by (intros H; apply (Hnd t H); constructor).
    clear -HtP. induction P as [|x P IH]; cbn; rewrite way_of_cons.
    + by rewrite decide_True.
    + rewrite not_elem_of_cons in HtP. rewrite decide_False by naive_solver.
      by rewrite IH by naive_solver.
  - apply way_of_None. rewrite elem_of_recency. intros Hin.
    apply list_find_None in E. rewrite Forall_forall in E.
    apply (E t); [|done]. by rewrite elem_of_rev.
Qed.

Lemma way_of_take t n s d :
  way_of t s = Some d -> (t ∈ take n s <-> (d < n)%nat).
Proof.
  unfold way_of. destruct (list_find (eq t) s) as [[m x]|] eqn:E; cbn; intros [= <-].
  apply list_find_Some in E as (Hl & <- & Hfirst). rewrite elem_of_take. split.
  - intros (i & Hi & Hlt). destruct (decide (i < m)%nat); [|lia]. by destruct (Hfirst i t Hi).
  - intros Hlt. by exists m.
Qed.

Lemma lru_ref_miss seed t s : (lru_ref seed t s).1.1 = negb (bool_decide (t ∈ s)).
Proof. apply ref_miss. Qed.

(** In terms of the set alone. *)
Lemma lru_ref_distance n t ts :
  (0 < n)%nat -> t <> 0 ->
  negb (bool_decide (t ∈ take n (recency ts ++ replicate n 0)))
  = match reuse_distance t ts with Some d => (n <=? d)%nat | None => true end.
Proof.
  intros Hn Ht. rewrite <-reuse_distance_way.
  assert (Happ : way_of t (recency ts ++ replicate n 0) = way_of t (recency ts)).
  { generalize (recency ts) as R. intros R. induction R as [|x R IH]; cbn [app].
    - cbn. apply way_of_None. intros H. apply elem_of_replicate in H as [-> _]. done.
    - rewrite !way_of_cons. case_decide; [done|]. by rewrite IH. }
  destruct (way_of t (recency ts)) as [d|] eqn:Ed.
  - rewrite (bool_decide_ext _ _ (way_of_take t n _ d Happ)).
    destruct (Nat.leb_spec n d); case_bool_decide; cbn; (done || lia).
  - apply way_of_None in Happ. rewrite bool_decide_eq_false_2; [done|].
    intros H. by apply subseteq_take in H.
Qed.

(** ** Misses in caches of different associativity *)

Lemma count_misses_app a b : count_misses (a ++ b) = (count_misses a + count_misses b)%nat.
Proof. unfold count_misses. by rewrite filter_app, length_app. Qed.

Lemma count_misses_one b : count_misses [b] = if b then 1%nat else O.
Proof. by destruct b. Qed.

Lemma run_lru_inclusion n1 n2 seed ts :
  Forall (fun t => t <> 0) ts -> (0 < n1)%nat -> (n1 <= n2)%nat ->
  (count_misses (run_ref lru_ref seed (replicate n2 0%Z) ts).1.1
   <= count_misses (run_ref lru_ref seed (replicate n1 0%Z) ts).1.1)%nat.
Proof.
  intros Hts H1 H12. induction ts as [|t ts IH] using rev_ind; [done|].
  apply Forall_app in Hts as [Hts [Ht _]%Forall_cons]. specialize (IH Hts).
  pose proof (run_lru_contents n1 seed ts Hts H1) as Hc1.
  pose proof (run_lru_contents n2 seed ts Hts ltac:(lia)) as Hc2.
  rewrite !run_ref_app.
  destruct (run_ref lru_ref seed (replicate n1 0) ts) as [[m1 s1] seed1].
  destruct (run_ref lru_ref seed (replicate n2 0) ts) as [[m2 s2] seed2].
  cbn in Hc1, Hc2, IH. subst s1 s2. cbn [run_ref].
  set (s1 := take n1 (recency ts ++ replicate n1 0)).
  set (s2 := take n2 (recency ts ++ replicate n2 0)).
  pose proof (lru_ref_miss seed1 t s1) as E1. pose proof (lru_ref_miss seed2 t s2) as E2.
  unfold s1 in E1. unfold s2 in E2. rewrite lru_ref_distance in E1, E2 by (done || lia).
  fold s1 in E1. fold s2 in E2.
  destruct (lru_ref seed1 t s1) as [[b1 s1'] seed1'], (lru_ref seed2 t s2) as [[b2 s2'] seed2'].
  cbn in E1, E2 |- *. rewrite !count_misses_app. subst b1 b2.
  destruct (reuse_distance t ts) as [d|]; [|rewrite count_misses_one; lia].
  rewrite !count_misses_one. destruct (Nat.leb_spec n1 d), (Nat.leb_spec n2 d); lia.
Qed.

Lemma run_lru_seed seed s ts : (run_ref lru_ref seed s ts).2 = seed.
Proof.
  revert s. induction ts as [|x ts IH]; intros s; [done|]. cbn.
  destruct (lru_ref seed x s) as [[b s'] seed'] eqn:E.
  assert (seed' = seed) as -> by (unfold lru_ref in E; destruct (way_of x s); congruence).
  specialize (IH s'). by destruct (run_ref lru_ref seed s' ts) as [[]].
Qed.

(** The implementation, run from an empty set. *)
Lemma run_lru_cold c k seed ts :
  wf_cache c -> 0 <= k < c_sets c -> cold_set c k -> Forall (fun x => x <> 0) ts ->
  exists misses s,
    s = take (Z.to_nat (c_assoc c)) (recency ts ++ replicate (Z.to_nat (c_assoc c)) 0)
    /\ length s = Z.to_nat (c_assoc c)
    /\ run_set (lift_policy cachesim_setref_is_miss_lru) seed c k ts
       = Ok (misses, with_set c k s, seed).
Proof.
  intros Hc Hk Hcold Hts. pose proof (wf_assoc c Hc).
  rewrite (run_set_refines _ lru_ref ts seed c k Hc Hk), Hcold.
  pose proof (run_lru_contents (Z.to_nat (c_assoc c)) seed ts Hts ltac:(lia)) as Hs.
  pose proof (run_lru_seed seed (replicate (Z.to_nat (c_assoc c)) 0) ts) as Hseed.
  destruct (run_ref lru_ref seed _ ts) as [[misses s] seed'].
  cbn in Hs, Hseed. subst seed' s. eexists _, _. split; [reflexivity|]. split; [|reflexivity].
  rewrite length_take, length_app, length_replicate. lia.
Qed.

(** A small cache for the witnesses: 2 sets of 4 ways, 64-byte lines. *)
Definition small_cache : cache_t2 :=
  mk_cache_t2 512 4 64 2 1 6 7 EmptyString (replicate 8 0) (replicate 2 0).

(** The same sets with 2 ways. *)
Definition narrow_cache : cache_t2 :=
  mk_cache_t2 256 2 64 2 1 6 7 EmptyString (replicate 4 0) (replicate 2 0).

Lemma small_cache_wf : wf_cache small_cache.
Proof. by split. Qed.

Lemma narrow_cache_wf : wf_cache narrow_cache.
Proof. by split. Qed.

(** [--bip-throttle=0.01]: the option is stored in a [float] and widened. *)
Definition throttle_one_percent : double := S754_finite false 5764607394185216 (-59).

Lemma bip_one_percent_lip r : bip_inserts_lip throttle_one_percent r = true.
Proof.
  unfold bip_inserts_lip. set (m := r mod 100).
  assert (Hm : 0 <= m < 100) by (apply Z.mod_pos_bound; lia).
  assert (H : forallb (fun n => SFleb (double_mul throttle_one_percent (double_of_Z 100))
                                  (double_of_Z (Z.of_nat n + 1))) (seq 0 100) = true)
    by (vm_compute; reflexivity).
  rewrite forallb_forall in H. specialize (H (Z.to_nat m)).
  rewrite Z2Nat.id in H by lia. apply H. apply in_seq. lia.
Qed.

(** ** The properties *)

(** C3: The five set policies of cg_sim.c, on a well-formed cache and a set
    number in range, read and write inside the tag array only, return, and
    compute exactly their reference policy on the accessed set (LRU, LIP, FIFO,
    RANDOM and BIP as list operations), leaving every other set as it was. *)
Theorem set_policies_refine_reference :
  Implements (lift_policy cachesim_setref_is_miss_lru) lru_ref
  /\ Implements (lift_policy cachesim_setref_is_miss_lip) lip_ref
  /\ Implements (lift_policy cachesim_setref_is_miss_fifo) fifo_ref
  /\ Implements cachesim_setref_is_miss_random random_ref
  /\ forall throttle, Implements (cachesim_setref_is_miss_bip throttle) (bip_ref throttle).
Proof. split_and!; intros; exact _. Qed.

(** C18: LRU is Mattson's stack algorithm.  On a set that starts empty, after any
    sequence [ts] of references to blocks other than block 0, the next reference
    to [t] misses exactly when [t] was never referenced or at least [assoc]
    distinct blocks have been referenced since its last reference. *)
Theorem lru_miss_iff_stack_distance c k seed ts t :
  wf_cache c -> 0 <= k < c_sets c -> cold_set c k ->
  Forall (fun x => x <> 0) ts -> t <> 0 ->
  exists misses c' c'',
    run_set (lift_policy cachesim_setref_is_miss_lru) seed c k ts = Ok (misses, c', seed)
    /\ cachesim_setref_is_miss_lru c' k t
       = Ok (match reuse_distance t ts with
             | Some d => (Z.to_nat (c_assoc c) <=? d)%nat
             | None => true
             end, c'').
Proof.
  intros Hc Hk Hcold Hts Ht. pose proof (wf_assoc c Hc).
  pose proof (run_lru_cold c k seed ts Hc Hk Hcold Hts) as (misses & s & Hs & HL & Hrun).
  pose proof (implements (impl := lift_policy cachesim_setref_is_miss_lru)
                seed (with_set c k s) k t (wf_with_set c k Hc Hk s HL) Hk) as Himp.
  rewrite (set_of_with_set c k Hc Hk s HL) in Himp.
  pose proof (lru_ref_miss seed t s) as Em.
  rewrite Hs, lru_ref_distance in Em by (done || lia). rewrite <-Hs in Em.
  destruct (lru_ref seed t s) as [[b s'] seed']. cbn in Em. subst b.
  unfold lift_policy in Himp.
  destruct (cachesim_setref_is_miss_lru (with_set c k s) k t) as [[b c'']|] eqn:El; [|done].
  cbn in Himp. injection Himp as -> -> <-.
  eexists _, _, _. split; [exact Hrun | exact El].
Qed.

Lemma lru_miss_iff_stack_distance_witness :
  exists misses c' c'',
    run_set (lift_policy cachesim_setref_is_miss_lru) 0 small_cache 1 [5; 7; 9; 7]
      = Ok (misses, c', 0)
    /\ cachesim_setref_is_miss_lru c' 1 5 = Ok (false, c'').
Proof.
  apply (lru_miss_iff_stack_distance small_cache 1 0 [5; 7; 9; 7] 5).
  - exact small_cache_wf.
  - cbn; lia.
  - reflexivity.
  - by repeat constructor.
  - done.
Defined.

(** LRU has the inclusion property: between two well-formed caches whose sets
    start empty, the one with at least as many ways takes at most as many
    misses on every sequence of references to blocks other than block 0. *)
Theorem lru_more_ways_fewer_misses c1 k1 c2 k2 seed ts :
  wf_cache c1 -> 0 <= k1 < c_sets c1 -> cold_set c1 k1 ->
  wf_cache c2 -> 0 <= k2 < c_sets c2 -> cold_set c2 k2 ->
  c_assoc c1 <= c_assoc c2 -> Forall (fun x => x <> 0) ts ->
  exists m1 c1' m2 c2',
    run_set (lift_policy cachesim_setref_is_miss_lru) seed c1 k1 ts = Ok (m1, c1', seed)
    /\ run_set (lift_policy cachesim_setref_is_miss_lru) seed c2 k2 ts = Ok (m2, c2', seed)
    /\ (count_misses m2 <= count_misses m1)%nat.
Proof.
  intros Hc1 Hk1 H1 Hc2 Hk2 H2 Hle Hts. pose proof (wf_assoc c1 Hc1).
  rewrite (run_set_refines _ lru_ref ts seed c1 k1 Hc1 Hk1), H1.
  rewrite (run_set_refines _ lru_ref ts seed c2 k2 Hc2 Hk2), H2.
  pose proof (run_lru_inclusion (Z.to_nat (c_assoc c1)) (Z.to_nat (c_assoc c2)) seed ts Hts
                ltac:(lia) ltac:(lia)) as Hcount.
  pose proof (run_lru_seed seed (replicate (Z.to_nat (c_assoc c1)) 0) ts) as E1.
  pose proof (run_lru_seed seed (replicate (Z.to_nat (c_assoc c2)) 0) ts) as E2.
  destruct (run_ref lru_ref seed (replicate (Z.to_nat (c_assoc c1)) 0) ts) as [[m1 s1] ?].
  destruct (run_ref lru_ref seed (replicate (Z.to_nat (c_assoc c2)) 0) ts) as [[m2 s2] ?].
  cbn in E1, E2, Hcount. subst. eauto 8.
Qed.

Lemma lru_more_ways_fewer_misses_witness :
  exists m1 c1' m2 c2',
    run_set (lift_policy cachesim_setref_is_miss_lru) 0 narrow_cache 0 [2; 4; 6; 2]
      = Ok (m1, c1', 0)
    /\ run_set (lift_policy cachesim_setref_is_miss_lru) 0 small_cache 1 [2; 4; 6; 2]
      = Ok (m2, c2', 0)
    /\ (count_misses m2 <= count_misses m1)%nat.
Proof.
  apply (lru_more_ways_fewer_misses narrow_cache 0 small_cache 1 0 [2; 4; 6; 2]);
    try (cbn; lia); try reflexivity.
  - exact narrow_cache_wf.
  - exact small_cache_wf.
  - by repeat constructor.
Defined.

(** FIFO lacks the inclusion property: on Belady's reference string the code's
    FIFO takes 9 misses with 3 ways and 10 misses with 4. *)
Theorem fifo_belady_anomaly :
  let ts := [1; 2; 3; 4; 1; 2; 5; 1; 2; 3; 4; 5] in
  let c3 := mk_cache_t2 192 3 64 1 0 6 6 EmptyString (replicate 3 0) [0] in
  let c4 := mk_cache_t2 256 4 64 1 0 6 6 EmptyString (replicate 4 0) [0] in
  exists m3 c3' m4 c4',
    run_set (lift_policy cachesim_setref_is_miss_fifo) 0 c3 0 ts = Ok (m3, c3', 0)
    /\ run_set (lift_policy cachesim_setref_is_miss_fifo) 0 c4 0 ts = Ok (m4, c4', 0)
    /\ count_misses m3 = 9%nat /\ count_misses m4 = 10%nat.
Proof. cbv zeta. eexists _, _, _, _. split_and!; vm_compute; reflexivity. Qed.

(** BIP's extreme throttles: with 1.0 it is LRU and with 0.0 it is LIP, on
    every cache and without drawing a random number. *)
Theorem bip_extreme_throttles seed c k tag :
  cachesim_setref_is_miss_bip (double_of_Z 1) seed c k tag
    = lift_policy cachesim_setref_is_miss_lru seed c k tag
  /\ cachesim_setref_is_miss_bip (double_of_Z 0) seed c k tag
    = lift_policy cachesim_setref_is_miss_lip seed c k tag.
Proof.
  unfold cachesim_setref_is_miss_bip, lift_policy, cachesim_setref_is_miss_lru,
    cachesim_setref_is_miss_lip.
  change (SFeqb (double_of_Z 1) (double_of_Z 1)) with true.
  change (SFeqb (double_of_Z 0) (double_of_Z 1)) with false.
  change (SFeqb (double_of_Z 0) (double_of_Z 0)) with true.
  cbv iota.
  destruct (rd (c_tags c) (set_base c k)); cbn [obind]; [|done]. case_test; [done|].
  destruct (find_way _ _ _ _ _) as [[i|]|]; cbn [obind]; [| |done].
  - by destruct (install_mru _ _ _ _).
  - by destruct (install_mru _ _ _ _), (wr _ _ _).
Qed.

(** A throttle of one percent never inserts a block at the most recently used
    way: the draw [random % 100 + 1] is at least 1, so BIP misses and leaves
    exactly what LIP does, whatever the seed. *)
Theorem bip_one_percent_is_lip seed c k tag :
  wf_cache c -> 0 <= k < c_sets c ->
  exists miss c' seed',
    cachesim_setref_is_miss_bip throttle_one_percent seed c k tag = Ok (miss, c', seed')
    /\ cachesim_setref_is_miss_lip c k tag = Ok (miss, c').
Proof.
  intros Hc Hk.
  pose proof (implements (impl := cachesim_setref_is_miss_bip throttle_one_percent)
                seed c k tag Hc Hk) as Hb.
  pose proof (implements (impl := lift_policy cachesim_setref_is_miss_lip) seed c k tag Hc Hk) as Hl.
  rewrite Hb. unfold lift_policy, lip_ref in Hl. unfold bip_ref.
  change (SFeqb throttle_one_percent (double_of_Z 1)) with false.
  change (SFeqb throttle_one_percent (double_of_Z 0)) with false. cbv iota.
  rewrite bip_one_percent_lip.
  destruct (cachesim_setref_is_miss_lip c k tag) as [[miss c']|] eqn:E;
    [|by destruct (way_of tag (set_of c k))].
  exists miss, c'. destruct (way_of tag (set_of c k)); cbn in Hl; injection Hl as -> ->; eauto.
Qed.

Lemma bip_one_percent_is_lip_witness :
  exists miss c' seed',
    cachesim_setref_is_miss_bip throttle_one_percent 42 small_cache 1 3 = Ok (miss, c', seed')
    /\ cachesim_setref_is_miss_lip small_cache 1 3 = Ok (miss, c').
Proof. apply bip_one_percent_is_lip; [exact small_cache_wf | cbn; lia]. Defined.

(** On a 4-way cache RANDOM does not choose at random: successive misses, in
    whatever sets, evict ways in the fixed rotation 0, 1, 2, 3, because the low
    two bits of the generator count up. *)
Theorem random_four_way_rotation seed c k tag :
  wf_cache c -> 0 <= k < c_sets c -> c_assoc c = 4 -> tag ∉ set_of c k ->
  exists c' seed',
    cachesim_setref_is_miss_random seed c k tag = Ok (true, c', seed')
    /\ seed' mod 4 = (seed + 1) mod 4
    /\ set_of c' k = <[Z.to_nat ((seed + 1) mod 4) := tag]> (set_of c k).
Proof.
  intros Hc Hk Ha Htag. pose proof (set_of_length c k Hc Hk) as HL. rewrite Ha in HL.
  rewrite (implements (impl := cachesim_setref_is_miss_random) seed c k tag Hc Hk).
  unfold random_ref. apply way_of_None in Htag as ->. rewrite HL. cbv zeta.
  eexists _, _. split; [reflexivity|]. split; [apply VG_random_low_bits|].
  rewrite set_of_with_set by (done || by rewrite length_insert, HL, Ha).
  change (Z.of_nat (Z.to_nat 4)) with 4. by rewrite VG_random_low_bits.
Qed.

Lemma random_four_way_rotation_witness :
  exists c' seed',
    cachesim_setref_is_miss_random 6 small_cache 1 3 = Ok (true, c', seed')
    /\ seed' mod 4 = 3 /\ set_of c' 1 = [0; 0; 0; 3].
Proof.
  apply (random_four_way_rotation 6 small_cache 1 3); [exact small_cache_wf | cbn; lia | done |].
  apply (bool_decide_unpack _). vm_compute. exact I.
Defined.

(** ** Ageing *)

(** A reference to another block moves a block down only, and by a way at least
    when it misses. *)
Class Ages (ref : ref_policy) : Prop :=
  ages : forall seed x s t i, x <> t -> (ref seed x s).1.2 !! i = Some t ->
    exists j, s !! j = Some t /\ (j + (if (ref seed x s).1.1 then 1 else 0) <= i)%nat.

Lemma insert_first_ages x s t i : x <> t -> insert_first x s !! i = Some t -> exists j, s !! j = Some t /\ (j + 1 <= i)%nat.
Proof.
  intros Hne. unfold insert_first. destruct i as [|i]; [by intros [= ->]|]. cbn. intros [Hi _]%lookup_take_Some. exists i. split; [done|lia].
Qed.

#[export] Instance lru_ages : Ages lru_ref.
Proof.
  intros seed x s t i Hne. unfold lru_ref. destruct (way_of x s) as [n|]; cbn; [|by apply insert_first_ages].
  destruct i as [|i]; [by intros [= ->]|]. change (delete n s !! i = Some t -> exists j, s !! j = Some t /\ (j + 0 <= S i)%nat).
  rewrite list_lookup_delete. case_decide; intros Hi; [exists i|exists (S i)]; (split; [done|lia]).
Qed.

#[export] Instance fifo_ages : Ages fifo_ref.
Proof.
  intros seed x s t i Hne. unfold fifo_ref. destruct (way_of x s) as [n|]; cbn; [|by apply insert_first_ages].
  intros Hi. exists i. split; [done|lia].
Qed.

Lemma run_ages ref `{!Ages ref} ts : forall seed s t i, t ∉ ts -> (run_ref ref seed s ts).1.2 !! i = Some t ->
  exists j, s !! j = Some t /\ (j + count_misses (run_ref ref seed s ts).1.1 <= i)%nat.
Proof.
  induction ts as [|x ts IH]; intros seed s t i Ht Hi; cbn [run_ref] in *; [exists i; split; [done|unfold count_misses; cbn; lia]|].
  apply not_elem_of_cons in Ht as [Hne Ht]. destruct (ref seed x s) as [[miss s1] seed1] eqn:E.
  specialize (IH seed1 s1 t). destruct (run_ref ref seed1 s1 ts) as [[misses s2] seed2] eqn:E2. cbn in *.
  destruct (IH i Ht Hi) as (j & Hj & Hle). destruct (ages (ref := ref) seed x s t j (not_eq_sym Hne)) as (j0 & Hj0 & Hle0); [by rewrite E|].
  rewrite E in Hle0. cbn in Hle0. exists j0. split; [done|].
  change (miss :: misses) with ([miss] ++ misses). rewrite count_misses_app, count_misses_one. destruct miss; lia.
Qed.

Lemma run_length ref `{!ReplacementPolicy ref} ts : forall seed s, s <> [] -> length (run_ref ref seed s ts).1.2 = length s.
Proof.
  induction ts as [|x ts IH]; intros seed s Hs; [done|]. cbn [run_ref]. destruct (ref seed x s) as [[miss s1] seed1] eqn:E.
  pose proof (ref_length' _ _ _ _ _ _ _ Hs E) as Hl. pose proof (IH seed1 s1 (nonempty_length _ _ Hl Hs)) as Hrun.
  destruct (run_ref ref seed1 s1 ts) as [[misses s2] seed2]. cbn in *. congruence.
Qed.

(** A block that is not referenced is gone after as many misses as ways. *)
Lemma run_evicts ref `{!ReplacementPolicy ref} `{!Ages ref} seed s ts t : s <> [] -> t ∉ ts ->
  (length s <= count_misses (run_ref ref seed s ts).1.1)%nat -> t ∉ (run_ref ref seed s ts).1.2.
Proof.
  intros Hs Ht Hm (i & Hi)%list_elem_of_lookup. pose proof (lookup_lt_Some _ _ _ Hi) as Hlt. rewrite run_length in Hlt by done.
  destruct (run_ages ref ts seed s t i Ht Hi) as (j & _ & Hle). lia.
Qed.

(** ** Scans under LIP *)

Lemma insert_last_twice x y s : s <> [] -> insert_last y (insert_last x s) = insert_last y s.
Proof.
  intros Hs. unfold insert_last. destruct s as [|a s]; [done|]. rewrite length_app, length_take. cbn [length].
  replace (S (length s) - 1)%nat with (length s) by lia. replace (length s `min` S (length s) + 1 - 1)%nat with (length s) by lia.
  f_equal. by rewrite take_app_length' by (rewrite length_take; cbn; lia).
Qed.

Lemma run_lip_scan ts : forall seed s, s <> [] -> NoDup ts -> Forall (fun x => x ∉ s) ts ->
  run_ref lip_ref seed s ts = (replicate (length ts) true, match last ts with Some x => insert_last x s | None => s end, seed).
Proof.
  induction ts as [|x ts IH]; intros seed s Hs Hd Hn; [done|]. apply NoDup_cons in Hd as [Hx Hd]. inversion_clear Hn as [|? ? Hxs Hts].
  cbn [run_ref]. unfold lip_ref at 1. rewrite (proj2 (way_of_None x s) Hxs). rewrite IH; [|by unfold insert_last; destruct (take (length s - 1) s)|done|].
  - cbn [length replicate last]. f_equal. f_equal. destruct ts as [|y ts]; [done|]. cbn [last].
    destruct (last (y :: ts)) as [z|] eqn:E; [by apply insert_last_twice|]. by apply last_None in E.
  - rewrite Forall_forall in *. intros y Hy. unfold insert_last. rewrite elem_of_app, list_elem_of_singleton.
    intros [Hin| ->]; [|done]. apply (Hts y Hy). apply elem_of_take in Hin as (i & Hi & _). by eapply list_elem_of_lookup_2.
Qed.

(** ** The policies of the simulator *)

Definition evicts_unused (impl : policy_impl) (c : cache_t2) (k seed t : Z) (ts : list Z) : Prop :=
  exists misses c' seed', run_set impl seed c k ts = Ok (misses, c', seed')
    /\ (Z.to_nat (c_assoc c) <= count_misses misses -> t ∉ set_of c' k)%nat.

Lemma run_set_evicts impl ref `{!Implements impl ref} `{!ReplacementPolicy ref} `{!Ages ref} c k seed t ts :
  wf_cache c -> 0 <= k < c_sets c -> t ∉ ts -> evicts_unused impl c k seed t ts.
Proof.
  intros Hc Hk Ht. pose proof (set_of_not_nil c k Hc Hk) as Hnil. pose proof (set_of_length c k Hc Hk) as HL.
  unfold evicts_unused. rewrite (run_set_refines impl ref ts seed c k Hc Hk).
  pose proof (run_evicts ref seed (set_of c k) ts t Hnil Ht) as Hev. pose proof (run_length ref ts seed (set_of c k) Hnil) as Hlen.
  destruct (run_ref ref seed (set_of c k) ts) as [[misses s] seed']. eexists _, _, _. split; [done|]. cbn in Hev, Hlen.
  rewrite set_of_with_set by (done || congruence). rewrite <-HL. exact Hev.
Qed.

(** C19: which blocks a set lets go of.  Under LRU and under FIFO a block that is
    not referenced any more is eventually evicted: after any references to
    other blocks of which at least as many miss as the set has ways, it is not
    in the set.  Under LIP, in contrast, a scan (distinct blocks none of which is
    in the set) of any length misses throughout and replaces only the last way,
    so that all blocks but that one stay. *)
Theorem unused_block_evicted c k seed t ts : wf_cache c -> 0 <= k < c_sets c -> t ∉ ts ->
  evicts_unused (lift_policy cachesim_setref_is_miss_lru) c k seed t ts
  /\ evicts_unused (lift_policy cachesim_setref_is_miss_fifo) c k seed t ts
  /\ (NoDup ts -> Forall (fun x => x ∉ set_of c k) ts -> forall x, last ts = Some x ->
      exists c', run_set (lift_policy cachesim_setref_is_miss_lip) seed c k ts = Ok (replicate (length ts) true, c', seed)
        /\ set_of c' k = take (Z.to_nat (c_assoc c) - 1) (set_of c k) ++ [x]).
Proof.
  intros Hc Hk Ht. split_and!; [by apply (run_set_evicts _ lru_ref)|by apply (run_set_evicts _ fifo_ref)|].
  intros Hd Hn x Hx. pose proof (set_of_not_nil c k Hc Hk) as Hnil. pose proof (set_of_length c k Hc Hk) as HL.
  rewrite (run_set_refines _ lip_ref ts seed c k Hc Hk), run_lip_scan, Hx by done. eexists. split; [done|].
  rewrite set_of_with_set by (done || rewrite insert_last_length; done). unfold insert_last. by rewrite HL.
Qed.

(** Four ways; five other blocks. *)
Lemma unused_block_evicted_witness :
  0 <= 1 < c_sets small_cache
  /\ evicts_unused (lift_policy cachesim_setref_is_miss_lru) small_cache 1 0 3 [5; 7; 9; 11; 13]
  /\ evicts_unused (lift_policy cachesim_setref_is_miss_fifo) small_cache 1 0 3 [5; 7; 9; 11; 13]
  /\ (NoDup [5; 7; 9; 11; 13] -> Forall (fun x => x ∉ set_of small_cache 1) [5; 7; 9; 11; 13] -> forall x, last [5; 7; 9; 11; 13] = Some x ->
      exists c', run_set (lift_policy cachesim_setref_is_miss_lip) 0 small_cache 1 [5; 7; 9; 11; 13] = Ok (replicate 5 true, c', 0)
        /\ set_of c' 1 = take (Z.to_nat (c_assoc small_cache) - 1) (set_of small_cache 1) ++ [x]).
Proof.
  split; [cbn; lia|]. apply (unused_block_evicted small_cache 1 0 3 [5; 7; 9; 11; 13]).
  - exact small_cache_wf.
  - cbn; lia.
  - refine (proj1 (bool_decide_eq_true _) _). vm_compute. reflexivity.
Defined.

(** The hypotheses of the last part hold in the witness. *)
Example witness_scans : NoDup [5; 7; 9; 11; 13] /\ Forall (fun x => x ∉ set_of small_cache 1) [5; 7; 9; 11; 13].
Proof. split; refine (proj1 (bool_decide_eq_true _) _); vm_compute; reflexivity. Qed.
