(* ===== verification/Printf.v ===== *)
(** * Printing of integers: myvprintf_int64 of coregrind/m_debuglog.c

    Every [VG_(printf)], [VG_(sprintf)] and [VG_(fprintf)] of Cachegrind prints
    its numbers with this routine.  The local buffer of the C code is a list
    whose head is the last character written, so that the "reverse copy" sends
    the list from its head. *)

From S2P Require Import Prelude LibcBase.

(** ** Flags *)

Definition VG_MSG_SIGNED : Z := 1.
Definition VG_MSG_ZJUSTIFY : Z := 2.
Definition VG_MSG_LJUSTIFY : Z := 4.
Definition VG_MSG_COMMA : Z := 16.

Definition has_flag (flags f : Z) : bool := negb (Z.land flags f =? 0).

(** ** The routine *)

(** [buf\[ind++\] = c], the buffer holding [size] characters. *)
Definition put_char (size : Z) (buf : list Ascii.ascii) (c : Ascii.ascii)
  : outcome (list Ascii.ascii) :=
  let* _ := defined_when (Z.of_nat (length buf) <? size) in Ok (c :: buf).

(** [digits\[d\]] for the lower-case and capital digit strings. *)
Definition digit_char (capitalised : bool) (d : Z) : Ascii.ascii :=
  Ascii.ascii_of_N (Z.to_N (if d <? 10 then 48 + d
                            else (if capitalised then 65 else 97) + (d - 10))).

Definition char_of (n : Z) : Ascii.ascii := Ascii.ascii_of_N (Z.to_N n).

Definition newline : string := String (char_of 10) EmptyString.

(** [while (p > 0) { ... }]; [ind] is the number of characters in [buf]. *)
Fixpoint int64_digits (fuel : nat) (size flags base : Z) (capitalised : bool)
    (p nc : Z) (buf : list Ascii.ascii) : outcome (list Ascii.ascii) :=
  if 0 <? p then
    match fuel with
    | O => Err OutOfFuel
    | S fuel =>
        let ind := Z.of_nat (length buf) in
        let* (nc, buf) :=
          if has_flag flags VG_MSG_COMMA && (10 =? base)
             && (0 =? (ind - nc) mod 3) && negb (0 =? ind)
          then let* buf := put_char size buf (char_of 44) in Ok (nc + 1, buf)
          else Ok (nc, buf) in
        let* buf := put_char size buf (digit_char capitalised (p mod base)) in
        int64_digits fuel size flags base capitalised (p / base) nc buf
    end
  else Ok buf.

(** [for (; ind < width; ind++) buf\[ind\] = pad;] with [n] iterations to go. *)
Fixpoint pad_buf (n : nat) (size : Z) (pad : Ascii.ascii) (buf : list Ascii.ascii)
  : outcome (list Ascii.ascii) :=
  match n with
  | O => Ok buf
  | S n => let* buf := put_char size buf pad in pad_buf n size pad buf
  end.

(** The characters sent, in order; their number is the result of the C
    function.  [p] is the [ULong] argument. *)
Definition myvprintf_int64 (flags base width : Z) (capitalised : bool) (p : Z)
  : outcome string :=
  let* width1 := int_add width 1 in
  let size := if 90 <? width1 then width1 else 90 in
  if (base <? 2) || (16 <? base) then Ok EmptyString
  else
    let neg := has_flag flags VG_MSG_SIGNED && (s64 p <? 0) in
    let* _ := defined_when (negb (neg && (s64 p =? - 2 ^ 63))) in
    let p := if neg then u64 (- s64 p) else p in
    let* buf :=
      if p =? 0 then put_char size [] (char_of 48)
      else int64_digits 64 size flags base capitalised p 0 [] in
    let* buf := if neg then put_char size buf (char_of 45) else Ok buf in
    let* buf :=
      if (0 <? width) && negb (has_flag flags VG_MSG_LJUSTIFY)
      then pad_buf (Z.to_nat (width - Z.of_nat (length buf))) size
             (char_of (if has_flag flags VG_MSG_ZJUSTIFY then 48 else 32)) buf
      else Ok buf in
    let right :=
      if (0 <? width) && has_flag flags VG_MSG_LJUSTIFY
      then replicate (Z.to_nat (width - Z.of_nat (length buf))) (char_of 32)
      else [] in
    Ok (String.string_of_list_ascii (buf ++ right)).

(** The conversions Cachegrind uses: ["%d"] of an [Int], ["%llu"] and
    ["%,llu"] of a [ULong]. *)
Definition fmt_d (z : Z) : outcome string := myvprintf_int64 VG_MSG_SIGNED 10 0 false (u64 z).
Definition fmt_llu (z : Z) : outcome string := myvprintf_int64 0 10 0 false z.
Definition fmt_comma_llu (z : Z) : outcome string := myvprintf_int64 VG_MSG_COMMA 10 0 false z.

(** ** Specification: decimal digits *)

(** The digits of [p], most significant first; none for 0. *)
Fixpoint dec_list (fuel : nat) (p : Z) : list Ascii.ascii :=
  match fuel with
  | O => []
  | S fuel => if 0 <? p then dec_list fuel (p / 10) ++ [digit_char false (p mod 10)] else []
  end.

(** Commas written so far when [k] digits have been. *)
Definition commas (k : nat) : nat := ((k - 1) / 3)%nat.

(** ** Lemmas *)

Lemma put_char_ok size buf c :
  Z.of_nat (length buf) < size -> put_char size buf c = Ok (c :: buf).
Proof. intros H. unfold put_char. apply Z.ltb_lt in H. by rewrite H. Qed.

Lemma pad_buf_ok n size pad buf :
  Z.of_nat (length buf) + Z.of_nat n <= size -> pad_buf n size pad buf = Ok (replicate n pad ++ buf).
Proof.
  revert buf. induction n as [|n IH]; intros buf H; cbn [pad_buf]; [done|].
  rewrite put_char_ok by lia. cbn [obind]. rewrite IH by (cbn; lia).
  f_equal. rewrite replicate_S_end, <-app_assoc. done.
Qed.

Lemma char_of_code n : 0 <= n < 256 -> code (char_of n) = n.
Proof.
  intros H. unfold code, char_of. rewrite Ascii.N_ascii_embedding by lia. lia.
Qed.

Lemma digit_char_code d : 0 <= d < 10 -> code (digit_char false d) = 48 + d.
Proof.
  intros H. unfold digit_char. destruct (Z.ltb_spec d 10); [|lia]. apply char_of_code. lia.
Qed.

Lemma div_base_bound p base k :
  2 <= base -> 0 <= p < 2 ^ Z.of_nat (S k) -> 0 <= p / base < 2 ^ Z.of_nat k.
Proof.
  intros Hb Hp. split; [apply Z.div_pos; lia|].
  rewrite Nat2Z.inj_succ, Z.pow_succ_r in Hp by lia.
  apply Z.div_lt_upper_bound; nia.
Qed.

Definition with_commas (flags base : Z) : bool := has_flag flags VG_MSG_COMMA && (10 =? base).

(** The loop ends and stays in the buffer: [p] has at most [n] digits, each
    written with at most one comma. *)
Lemma int64_digits_total n fuel size flags base cap p nc buf :
  2 <= base -> 0 <= p < base ^ Z.of_nat n -> (n <= fuel)%nat ->
  let room := (if with_commas flags base then 2 * n else n)%nat in
  Z.of_nat (length buf + room) <= size ->
  exists s, int64_digits fuel size flags base cap p nc buf = Ok s
    /\ (length s <= length buf + room)%nat.
Proof.
  intros Hb. revert fuel p nc buf. induction n as [|n IH]; intros fuel p nc buf Hp Hf room Hroom.
  - change (base ^ Z.of_nat 0) with 1 in Hp.
    destruct fuel; cbn [int64_digits]; destruct (Z.ltb_spec 0 p); (lia || eauto with lia).
  - destruct fuel as [|fuel]; [lia|]. cbn [int64_digits].
    destruct (Z.ltb_spec 0 p); [|subst room; eauto with lia].
    rewrite Nat2Z.inj_succ, Z.pow_succ_r in Hp by lia.
    assert (Hq : 0 <= p / base < base ^ Z.of_nat n).
    { split; [apply Z.div_pos; lia|]. apply Z.div_lt_upper_bound; lia. }
    subst room. unfold with_commas in *.
    destruct (has_flag flags VG_MSG_COMMA && (10 =? base)) eqn:Ec; cbn [andb].
    + destruct ((0 =? (Z.of_nat (length buf) - nc) mod 3) && negb (0 =? Z.of_nat (length buf)));
        cbn [obind]; repeat (rewrite put_char_ok by (cbn [length]; lia); cbn [obind]).
      * edestruct (IH fuel (p / base) (nc + 1)) as (s & Hs & HL); [done|lia|..].
        2: { rewrite Hs. eexists; split; [reflexivity|]. cbn [length] in HL. lia. }
        cbn [length]. lia.
      * edestruct (IH fuel (p / base) nc) as (s & Hs & HL); [done|lia|..].
        2: { rewrite Hs. eexists; split; [reflexivity|]. cbn [length] in HL. lia. }
        cbn [length]. lia.
    + cbn [obind]. rewrite put_char_ok by lia. cbn [obind].
      edestruct (IH fuel (p / base) nc) as (s & Hs & HL); [done|lia|..].
      2: { rewrite Hs. eexists; split; [reflexivity|]. cbn [length] in HL. lia. }
      cbn [length]. lia.
Qed.

(** Every [ULong] in a base from 2 to 16 fits the 90-character buffer. *)
Lemma int64_digits_u64 size flags base cap p :
  2 <= base <= 16 -> 0 <= p < 2 ^ 64 -> 90 <= size ->
  exists s, int64_digits 64 size flags base cap p 0 [] = Ok s /\ (length s <= 64)%nat.
Proof.
  intros Hb Hp Hs. destruct (with_commas flags base) eqn:Ec.
  - assert (base = 10) as ->.
    { unfold with_commas in Ec. zbool. lia. }
    destruct (int64_digits_total 20 64 size flags 10 cap p 0 []) as (s & E & HL);
      [lia|lia|lia|rewrite Ec; cbn; lia|].
    rewrite Ec in HL. cbn in HL. exists s. split; [done|lia].
  - assert (2 ^ 64 <= base ^ 64) by (apply Z.pow_le_mono_l; lia).
    destruct (int64_digits_total 64 64 size flags base cap p 0 []) as (s & E & HL);
      [lia|cbn [Z.of_nat Pos.of_succ_nat Pos.succ] in *; lia|lia|rewrite Ec; cbn; lia|].
    rewrite Ec in HL. exists s. split; [done|]. exact HL.
Qed.

(** Without commas the loop writes the decimal digits. *)
Lemma int64_digits_dec fuel size flags p nc buf :
  has_flag flags VG_MSG_COMMA = false ->
  0 <= p < 10 ^ Z.of_nat fuel -> Z.of_nat (length buf + fuel) <= size ->
  int64_digits fuel size flags 10 false p nc buf = Ok (dec_list fuel p ++ buf).
Proof.
  intros Hc. revert p buf. induction fuel as [|fuel IH]; intros p buf Hp Hs; cbn [int64_digits dec_list].
  - change (10 ^ Z.of_nat 0) with 1 in Hp. destruct (Z.ltb_spec 0 p); [lia|done].
  - destruct (Z.ltb_spec 0 p); [|done]. rewrite Hc. cbn [andb obind].
    rewrite put_char_ok by lia. cbn [obind].
    rewrite Nat2Z.inj_succ, Z.pow_succ_r in Hp by lia.
    rewrite IH; [by rewrite <-app_assoc| |cbn [length]; lia].
    split; [apply Z.div_pos; lia|]. apply Z.div_lt_upper_bound; lia.
Qed.

Lemma commas_S_here j : j <> O -> Z.of_nat j mod 3 = 0 -> commas (S j) = S (commas j).
Proof. intros H0 Hj. unfold commas. apply Nat2Z.inj. rewrite Nat2Z.inj_succ, !Nat2Z.inj_div. div_lia. Qed.

Lemma commas_S_none j : Z.of_nat j mod 3 <> 0 -> commas (S j) = commas j.
Proof. intros Hj. unfold commas. apply Nat2Z.inj. rewrite !Nat2Z.inj_div. div_lia. Qed.

(** With commas, [k] digits take [k + commas k] characters. *)
Lemma int64_digits_comma_length fuel size p j buf :
  0 <= p < 10 ^ Z.of_nat fuel -> (length buf = j + commas j)%nat ->
  Z.of_nat (length buf + 2 * fuel) <= size ->
  exists s, int64_digits fuel size VG_MSG_COMMA 10 false p (Z.of_nat (commas j)) buf = Ok s
    /\ length s = (let k := j + length (dec_list fuel p) in k + commas k)%nat.
Proof.
  revert p j buf. induction fuel as [|fuel IH]; intros p j buf Hp HL Hs;
    cbn [int64_digits dec_list].
  - change (10 ^ Z.of_nat 0) with 1 in Hp. destruct (Z.ltb_spec 0 p); [lia|].
    exists buf. split; [done|]. cbn. by rewrite Nat.add_0_r.
  - destruct (Z.ltb_spec 0 p) as [Hpos|]; [|exists buf; split; [done|cbn; by rewrite Nat.add_0_r]].
    rewrite Nat2Z.inj_succ, Z.pow_succ_r in Hp by lia.
    assert (Hq : 0 <= p / 10 < 10 ^ Z.of_nat fuel).
    { split; [apply Z.div_pos; lia|]. apply Z.div_lt_upper_bound; lia. }
    rewrite HL. replace (Z.of_nat (j + commas j) - Z.of_nat (commas j)) with (Z.of_nat j) by lia.
    rewrite length_app. cbn [length].
    replace (j + (length (dec_list fuel (p / 10)) + 1))%nat
      with (S j + length (dec_list fuel (p / 10)))%nat by lia.
    change (has_flag VG_MSG_COMMA VG_MSG_COMMA && (10 =? 10)) with true. cbn [andb].
    destruct (Z.eqb_spec 0 (Z.of_nat j mod 3)) as [Hm|Hm];
      destruct (Z.eqb_spec 0 (Z.of_nat (j + commas j))) as [H0|H0]; cbn [negb andb obind];
      repeat (rewrite put_char_ok by (cbn [length]; lia); cbn [obind]).
    + assert (j = 0)%nat as -> by lia. apply (IH _ 1%nat); cbn [length]; [done|by rewrite HL|lia].
    + assert (Hj : j <> O) by (intros ->; by apply H0).
      replace (Z.of_nat (commas j) + 1) with (Z.of_nat (commas (S j)))
        by (rewrite commas_S_here by lia; lia).
      apply IH; cbn [length]; [done|rewrite HL, commas_S_here by lia; lia|lia].
    + exfalso. assert (j = 0)%nat as -> by lia. by apply Hm.
    + rewrite <-(commas_S_none j) by done.
      apply IH; cbn [length]; [done|rewrite HL, commas_S_none by done; lia|lia].
Qed.

(** ** The whole routine *)

Lemma has_flag_0 f : has_flag 0 f = false.
Proof. reflexivity. Qed.

Lemma length_string_of_list l : String.length (String.string_of_list_ascii l) = length l.
Proof. induction l; cbn; [done|]. by f_equal. Qed.

Lemma neg_or_nonneg z :
  - 2 ^ 63 <= z < 2 ^ 63 ->
  (if s64 (u64 z) <? 0 then u64 (- s64 (u64 z)) else u64 z) = Z.abs z /\ s64 (u64 z) = z.
Proof.
  intros Hz. assert (s64 (u64 z) = z) as ->.
  { unfold s64, u64. rewrite Zplus_mod_idemp_l, Z.mod_small by lia. lia. }
  split; [|done]. destruct (Z.ltb_spec z 0); rewrite u64_small; lia.
Qed.

(** What ["%d"] and ["%llu"] print. *)
Definition dec_string (p : Z) : list Ascii.ascii :=
  if p =? 0 then [char_of 48] else dec_list 64 p.

Definition text_of (l : list Ascii.ascii) : string := String.string_of_list_ascii l.
Definition nat_text (z : Z) : string := text_of (dec_string z).
Definition int_text (z : Z) : string :=
  text_of ((if z <? 0 then [char_of 45] else []) ++ dec_string (Z.abs z)).

Lemma fmt_d_spec z :
  - 2 ^ 63 < z < 2 ^ 63 ->
  fmt_d z = Ok (String.string_of_list_ascii
                  ((if z <? 0 then [char_of 45] else []) ++ dec_string (Z.abs z))).
Proof.
  intros Hz. destruct (neg_or_nonneg z ltac:(lia)) as [Habs Hs].
  unfold fmt_d, myvprintf_int64. rewrite int_add_ok by lia. cbn [obind].
  cbn [Z.ltb Z.compare orb Z.add Pos.compare Pos.compare_cont].
  change (has_flag VG_MSG_SIGNED VG_MSG_SIGNED) with true.
  change (has_flag VG_MSG_SIGNED VG_MSG_LJUSTIFY) with false. cbn [andb].
  rewrite Hs at 1 2. destruct (Z.eqb_spec z (- 2 ^ 63)); [lia|]. rewrite andb_false_r. cbn [negb defined_when obind].
  rewrite Habs, Hs. cbn [length app]. 
  assert (Hbuf : (if Z.abs z =? 0 then put_char 90 [] (char_of 48)
                  else int64_digits 64 90 VG_MSG_SIGNED 10 false (Z.abs z) 0 [])
                 = Ok (dec_string (Z.abs z))).
  { unfold dec_string. destruct (Z.eqb_spec (Z.abs z) 0); [done|].
    rewrite int64_digits_dec; [by rewrite app_nil_r|done|lia|cbn; lia]. }
  change (90 <? 0 + 1) with false. cbn iota.
  rewrite Hbuf. cbn [obind].
  assert (HL : (length (dec_string (Z.abs z)) <= 64)%nat).
  { destruct (int64_digits_u64 90 VG_MSG_SIGNED 10 false (Z.abs z)) as (s & E & HLs);
      [lia|lia|lia|]. unfold dec_string. destruct (Z.eqb_spec (Z.abs z) 0); [cbn; lia|].
    rewrite int64_digits_dec in E; [|reflexivity|lia|cbn; lia].
    rewrite app_nil_r in E. apply Ok_inj in E as <-. exact HLs. }
  destruct (z <? 0); [rewrite put_char_ok by lia|]; cbn [obind app]; by rewrite ?app_nil_r.
Qed.

Lemma string_cons_app c s t : (String c s +:+ t)%string = String c (s +:+ t)%string.
Proof. reflexivity. Qed.

Lemma string_nil_app t : (EmptyString +:+ t)%string = t.
Proof. reflexivity. Qed.

Lemma string_app_assoc (s t u : string) : ((s +:+ t) +:+ u)%string = (s +:+ (t +:+ u))%string.
Proof. induction s as [|c s IH]; [done|]. by rewrite !string_cons_app, IH. Qed.

Lemma string_app_nil_r (s : string) : (s +:+ EmptyString)%string = s.
Proof. induction s as [|c s IH]; [done|]. by rewrite string_cons_app, IH. Qed.

Lemma string_length_app (s t : string) : String.length (s +:+ t)%string = (String.length s + String.length t)%nat.
Proof. induction s as [|c s IH]; [done|]. rewrite string_cons_app. cbn. by rewrite IH. Qed.

Lemma string_of_list_app (l1 l2 : list Ascii.ascii) s :
  (String.string_of_list_ascii (l1 ++ l2) +:+ s)%string
  = (String.string_of_list_ascii l1 +:+ (String.string_of_list_ascii l2 +:+ s))%string.
Proof. induction l1 as [|c l1 IH]; [done|]. cbn. by rewrite !string_cons_app, IH. Qed.

Lemma is_dec_digit_char d : 0 <= d < 10 -> is_dec_digit (code (digit_char false d)) = Some d.
Proof.
  intros H. rewrite digit_char_code by done. unfold is_dec_digit.
  destruct (Z.leb_spec 48 (48 + d)), (Z.leb_spec (48 + d) 57); cbn; try lia. f_equal. lia.
Qed.

(** Reading back the digits printed for [p]. *)
Lemma dec_digits_dec_list fuel p n b rest :
  0 <= p < 10 ^ Z.of_nat fuel -> 0 <= n ->
  n * 10 ^ Z.of_nat (length (dec_list fuel p)) + p < 2 ^ 63 ->
  dec_digits (String.string_of_list_ascii (dec_list fuel p) +:+ rest)%string n b
  = dec_digits rest (n * 10 ^ Z.of_nat (length (dec_list fuel p)) + p) (b || (0 <? p)).
Proof.
  revert p n b rest. induction fuel as [|fuel IH]; intros p n b rest Hp Hn; cbn [dec_list].
  { change (10 ^ Z.of_nat 0) with 1 in Hp. assert (p = 0) as -> by lia. intros _. cbn.
    f_equal; [lia|]. by destruct b. }
  destruct (Z.ltb_spec 0 p) as [Hpos|].
  2: { assert (p = 0) as -> by lia. intros _. cbn. f_equal; [lia|]. by destruct b. }
  rewrite Nat2Z.inj_succ, Z.pow_succ_r in Hp by lia.
  assert (Hq : 0 <= p / 10 < 10 ^ Z.of_nat fuel).
  { split; [apply Z.div_pos; lia|]. apply Z.div_lt_upper_bound; lia. }
  pose proof (Z.mod_pos_bound p 10 ltac:(lia)) as Hm. pose proof (Z.div_mod p 10 ltac:(lia)) as Hdm.
  rewrite length_app, Nat2Z.inj_add. change (Z.of_nat (length [_])) with 1.
  rewrite Z.pow_add_r by lia. change (10 ^ 1) with 10.
  set (k := 10 ^ Z.of_nat (length (dec_list fuel (p / 10)))).
  assert (0 < k) by (apply Z.pow_pos_nonneg; lia). intros Hlt.
  rewrite string_of_list_app, IH; [|done|done|fold k; nia].
  fold k. cbn [String.string_of_list_ascii]. rewrite string_cons_app, string_nil_app.
  cbn [dec_digits hd0].
  rewrite is_dec_digit_char by done. unfold long_in_range.
  replace (10 * (n * k + p / 10) + p mod 10) with (n * (k * 10) + p) by lia.
  rewrite defined_when_true by (apply andb_true_iff; split; [apply Z.leb_le|apply Z.ltb_lt]; nia).
  cbn [obind]. by rewrite orb_true_r.
Qed.

Lemma skip_spaces_id s : VG_isspace (hd0 s) = false -> skip_spaces s = s.
Proof. destruct s as [|c s]; cbn; [done|]. by intros ->. Qed.

(** The first character printed for a non-negative number is a digit. *)
Lemma dec_list_head fuel p : 0 < p < 10 ^ Z.of_nat fuel ->
  exists d l, dec_list fuel p = digit_char false d :: l /\ 0 <= d < 10.
Proof.
  revert p. induction fuel as [|fuel IH]; intros p Hp; [cbn in Hp; lia|]. cbn [dec_list].
  destruct (Z.ltb_spec 0 p); [|lia]. rewrite Nat2Z.inj_succ, Z.pow_succ_r in Hp by lia.
  destruct (decide (p < 10)).
  - rewrite Z.div_small by lia. exists (p mod 10), []. split; [by destruct fuel | apply Z.mod_pos_bound; lia].
  - destruct (IH (p / 10)) as (d & l & -> & Hd).
    { split; [apply Z.div_str_pos; lia | apply Z.div_lt_upper_bound; lia]. }
    exists d, (l ++ [digit_char false (p mod 10)]). by split.
Qed.

Lemma dec_string_head p : 0 <= p < 2 ^ 64 ->
  exists d l, dec_string p = digit_char false d :: l /\ 0 <= d < 10.
Proof.
  intros Hp. unfold dec_string. destruct (Z.eqb_spec p 0); [by exists 0, []|]. apply dec_list_head. lia.
Qed.

Lemma dec_digits_dec_string p rest :
  0 <= p < 2 ^ 63 -> is_dec_digit (hd0 rest) = None ->
  dec_digits (String.string_of_list_ascii (dec_string p) +:+ rest)%string 0 false = Ok (p, true, rest).
Proof.
  intros Hp Hrest.
  assert (Hend : forall n b, dec_digits rest n b = Ok (n, b, rest)).
  { intros n b. destruct rest as [|c rest]; [done|]. cbn in Hrest |- *. by rewrite Hrest. }
  unfold dec_string. destruct (Z.eqb_spec p 0) as [->|Hne].
  - cbn [String.string_of_list_ascii]. rewrite string_cons_app, string_nil_app.
    cbn [dec_digits hd0]. change (is_dec_digit (code (char_of 48))) with (Some 0). cbn.
    by rewrite Hend.
  - rewrite dec_digits_dec_list by lia. rewrite Hend.
    destruct (Z.ltb_spec 0 p); [|lia]. by rewrite Z.mul_0_l.
Qed.

(** Reading back what [%d] prints. *)
Lemma strtoll10_fmt_d z rest :
  - 2 ^ 63 < z < 2 ^ 63 -> is_dec_digit (hd0 rest) = None ->
  exists s, fmt_d z = Ok s /\ VG_strtoll10 (s +:+ rest)%string = Ok (z, rest).
Proof.
  intros Hz Hrest. rewrite fmt_d_spec by lia. eexists. split; [reflexivity|].
  rewrite string_of_list_app. unfold VG_strtoll10.
  destruct (dec_string_head (Z.abs z) ltac:(lia)) as (d & l & Hl & Hd).
  pose proof (dec_digits_dec_string (Z.abs z) rest ltac:(lia) Hrest) as Hdec.
  destruct (Z.ltb_spec z 0) as [Hneg|Hpos].
  - cbn [String.string_of_list_ascii]. rewrite string_cons_app, string_nil_app.
    rewrite skip_spaces_id by done. cbn [hd0 tl0]. rewrite char_of_code by lia.
    change (45 =? 45) with true. cbn iota beta.
    rewrite Hdec. cbn [obind]. do 2 f_equal. lia.
  - cbn [String.string_of_list_ascii]. rewrite string_nil_app.
    assert (Hhd : hd0 (String.string_of_list_ascii (dec_string (Z.abs z)) +:+ rest)%string = 48 + d).
    { rewrite Hl. cbn [String.string_of_list_ascii]. rewrite string_cons_app. cbn [hd0].
      by apply digit_char_code. }
    rewrite skip_spaces_id, Hhd.
    2: { rewrite Hhd. apply not_true_is_false. unfold VG_isspace.
         rewrite !orb_true_iff, !Z.eqb_eq. lia. }
    destruct (Z.eqb_spec (48 + d) 45); [lia|]. destruct (Z.eqb_spec (48 + d) 43); [lia|].
    rewrite Hdec. cbn [obind]. do 2 f_equal. lia.
Qed.

(** ** The properties *)

Lemma int64_total flags base width capitalised p :
  2 <= base <= 16 -> 0 <= p < 2 ^ 64 -> - 2 ^ 31 <= width + 1 < 2 ^ 31 ->
  (has_flag flags VG_MSG_SIGNED = true -> p <> 2 ^ 63) ->
  exists s, myvprintf_int64 flags base width capitalised p = Ok s
    /\ width <= Z.of_nat (String.length s).
Proof.
  intros Hb Hp Hwidth Hmin. unfold myvprintf_int64. rewrite int_add_ok by lia. cbn [obind].
  set (size := if 90 <? width + 1 then width + 1 else 90).
  assert (Hsize : 90 <= size /\ width < size).
  { unfold size. destruct (Z.ltb_spec 90 (width + 1)); lia. }
  destruct (Z.ltb_spec base 2), (Z.ltb_spec 16 base); try lia. cbn [orb].
  set (neg := has_flag flags VG_MSG_SIGNED && (s64 p <? 0)).
  assert (negb (neg && (s64 p =? - 2 ^ 63)) = true) as ->.
  { unfold neg. destruct (has_flag flags VG_MSG_SIGNED); [|done]. specialize (Hmin eq_refl).
    destruct (Z.eqb_spec (s64 p) (- 2 ^ 63)) as [E|]; [|by rewrite andb_false_r]. exfalso. apply Hmin.
    unfold s64 in E. pose proof (Z.div_mod (p + 2 ^ 63) (2 ^ 64)). lia. }
  cbn [defined_when obind].
  set (q := if neg then u64 (- s64 p) else p).
  assert (Hq : 0 <= q < 2 ^ 64).
  { unfold q. destruct neg; [apply u64_range | done]. }
  assert (exists buf, (if q =? 0 then put_char size [] (char_of 48)
            else int64_digits 64 size flags base capitalised q 0 []) = Ok buf
          /\ (length buf <= 64)%nat) as (buf & -> & HL).
  { case_test.
    - rewrite put_char_ok by (cbn; lia). eexists; split; [reflexivity | cbn; lia].
    - apply int64_digits_u64; lia. }
  cbn [obind].
  assert (exists buf', (if neg then put_char size buf (char_of 45) else Ok buf) = Ok buf'
          /\ (length buf' <= 65)%nat) as (buf' & -> & HL').
  { destruct neg; [rewrite put_char_ok by lia|]; eexists; (split; [reflexivity|]); cbn; lia. }
  cbn [obind].
  destruct (Z.ltb_spec 0 width); cbn [andb].
  - destruct (has_flag flags VG_MSG_LJUSTIFY); cbn [negb].
    + cbn [obind]. eexists. split; [reflexivity|].
      rewrite length_string_of_list, length_app, length_replicate. lia.
    + rewrite pad_buf_ok by lia. cbn [obind]. eexists. split; [reflexivity|].
      rewrite length_string_of_list, !length_app, length_replicate. lia.
  - cbn [obind]. eexists. split; [reflexivity|]. lia.
Qed.

(** Printing any 64-bit number in any base from 2 to 16, with any flags and
    width, returns: the loops end within their fuel and every character goes
    inside the local buffer; the text is at least as wide as asked.  The
    smallest signed number cannot be negated and the largest [int] is no width. *)
Theorem myvprintf_int64_in_bounds flags base width capitalised p :
  2 <= base <= 16 -> 0 <= p < 2 ^ 64 -> - 2 ^ 31 <= width + 1 < 2 ^ 31 ->
  (has_flag flags VG_MSG_SIGNED = true -> p <> 2 ^ 63) ->
  exists s, myvprintf_int64 flags base width capitalised p = Ok s
    /\ width <= Z.of_nat (String.length s).
Proof. apply int64_total. Qed.

Lemma myvprintf_int64_in_bounds_witness :
  exists s, myvprintf_int64 VG_MSG_SIGNED 10 25 false (2 ^ 63 + 1) = Ok s
    /\ 25 <= Z.of_nat (String.length s).
Proof. apply myvprintf_int64_in_bounds; lia. Defined.

(** Round trip: [VG_(strtoll10)] reads back every [Long] but the smallest from
    the text ["%d"] prints, and stops at the first character that is not a
    digit. *)
Theorem strtoll10_reads_printed z rest :
  - 2 ^ 63 < z < 2 ^ 63 -> is_dec_digit (hd0 rest) = None ->
  exists s, fmt_d z = Ok s /\ VG_strtoll10 (s +:+ rest)%string = Ok (z, rest).
Proof. apply strtoll10_fmt_d. Qed.

Lemma strtoll10_reads_printed_witness :
  exists s, fmt_d (-65536) = Ok s /\ VG_strtoll10 (s +:+ ",2,64")%string = Ok (-65536, ",2,64"%string).
Proof. apply strtoll10_reads_printed; [lia | reflexivity]. Defined.
