(* ===== verification/Vprintf.v ===== *)
(** * Formatted printing: coregrind/m_debuglog.c

    [VG_(debugLog_vprintf)], behind every [VG_(printf)], [VG_(sprintf)],
    [VG_(umsg)] and [VG_(fprintf)] of Cachegrind.  [send] adds a character to
    the text; a routine gives the number it returns with the text it has sent.
    The host has 64 bits. *)

From Stdlib Require Import SpecFloat.
From S2P Require Import Prelude Float LibcBase Printf.

(** ** Strings *)

Definition local_toupper (c : Ascii.ascii) : Ascii.ascii :=
  if (97 <=? code c) && (code c <=? 122) then char_of (code c - 32) else c.

Definition maybe_toupper (capitalise : bool) (c : Ascii.ascii) : Ascii.ascii :=
  if capitalise then local_toupper c else c.

Fixpoint map_string (f : Ascii.ascii -> Ascii.ascii) (s : string) : string :=
  match s with EmptyString => EmptyString | String c s => String (f c) (map_string f s) end.

(** The first [n] characters. *)
Fixpoint take_string (n : nat) (s : string) : string :=
  match n, s with S n, String c s => String c (take_string n s) | _, _ => EmptyString end.

Definition blanks_string (n : Z) : string := String.string_of_list_ascii (replicate (Z.to_nat n) (char_of 32)).

Definition myvprintf_str (flags width : Z) (str : string) (capitalise : bool) : Z * string :=
  let len := Z.of_nat (String.length str) in
  let str := map_string (maybe_toupper capitalise) str in
  if width =? 0 then (len, str)
  else if width <? len then (u32 width, take_string (Z.to_nat width) str)
  else
    let extra := width - len in
    (len + extra,
     (if has_flag flags VG_MSG_LJUSTIFY then str +:+ blanks_string extra else blanks_string extra +:+ str)%string).

Fixpoint myvprintf_str_XML_simplistic (str : string) : Z * string :=
  match str with
  | EmptyString => (0, EmptyString)
  | String c str =>
      let '(ret, text) := myvprintf_str_XML_simplistic str in
      let out :=
        if code c =? 38 then "&amp;"%string
        else if code c =? 60 then "&lt;"%string
        else if code c =? 62 then "&gt;"%string
        else String c EmptyString in
      (Z.of_nat (String.length out) + ret, (out +:+ text)%string)
  end.

(** ** Arguments *)

(** The arguments with the types they are passed with: integers of 32 and 64
    bits, a [Double], a string or [NULL].  Reading one as another type is
    undefined. *)
Inductive varg :=
| A32 (z : Z)
| A64 (z : Z)
| ADouble (d : double)
| AStr (s : option string).

Definition va_list : Type := list varg.

Definition va_Int (vargs : va_list) : outcome (Z * va_list) :=
  match vargs with A32 z :: vargs => Ok (s32 z, vargs) | _ => Err Undefined end.
Definition va_UInt (vargs : va_list) : outcome (Z * va_list) :=
  match vargs with A32 z :: vargs => Ok (u32 z, vargs) | _ => Err Undefined end.
Definition va_ULong (vargs : va_list) : outcome (Z * va_list) :=
  match vargs with A64 z :: vargs => Ok (u64 z, vargs) | _ => Err Undefined end.
Definition va_Double (vargs : va_list) : outcome (double * va_list) :=
  match vargs with ADouble d :: vargs => Ok (d, vargs) | _ => Err Undefined end.
Definition va_string (vargs : va_list) : outcome (string * va_list) :=
  match vargs with
  | AStr s :: vargs => Ok (match s with Some s => s | None => "(null)"%string end, vargs)
  | _ => Err Undefined
  end.

(** ** Numbers with a fraction *)

(** [for (x = 10; ; old_x = x, x *= 10, ++num_digit) ...]: the last power of ten
    is below 10^20. *)
Fixpoint digit_loop (fuel : nat) (x old_x num_digit ipval : Z) : outcome Z :=
  match fuel with
  | O => Err OutOfFuel
  | S fuel =>
      if x <=? old_x then Ok num_digit
      else if ipval <? x then Ok num_digit
      else digit_loop fuel (u64 (x * 10)) x (num_digit + 1) ipval
  end.

(** [for (cnt = 0; cnt < width - num_digit; ++cnt) send(' ', send_arg2);] when
    [num_digit < width]: the comparisons are those of [UInt]s, [cnt] is an
    [Int]. *)
Definition float_pad (width num_digit : Z) : outcome (Z * string) :=
  if num_digit <? u32 width then
    let n := u32 (width - num_digit) in
    let* _ := defined_when (n <? 2 ^ 31) in Ok (n, blanks_string n)
  else Ok (0, EmptyString).

(** The digits before and after the point: [val] rounded to [precision] digits. *)
Definition float_digits (val : double) (precision : Z) : outcome (Z * Z) :=
  let* ipval := double_to_ULong val in
  let frac := double_sub val (double_of_Z ipval) in
  let factor := 10 ^ Z.max 0 precision in
  let* frval := double_to_ULong (double_mul frac (double_of_Z factor)) in
  let frval :=
    if SFltb one_half (double_sub (double_mul frac (double_of_Z factor)) (double_of_Z frval))
    then u64 (frval + 1) else frval in
  Ok (if frval =? factor then u64 (ipval + 1) else ipval, frval mod factor).

Definition myvprintf_float (flags width precision : Z) (val : double) : outcome (Z * string) :=
  let is_negative := SFltb val (double_of_Z 0) in
  let val := if is_negative then SFopp val else val in
  if SFltb (double_of_Z (2 ^ 64 - 1)) val then
    let width := if width =? 0 then 6 else width in
    Ok (u32 width, String.string_of_list_ascii (replicate (Z.to_nat width) (char_of 42)))
  else
    let precision := if precision =? -1 then 6 else precision in
    let precision := if 10 <? precision then 10 else precision in
    let* (ipval, frval) := float_digits val precision in
    let* ipwidth := digit_loop 21 10 0 1 ipval in
    let num_digit := if is_negative then ipwidth + 1 else ipwidth in
    let num_digit := if negb (precision =? 0) then u32 (num_digit + 1 + precision) else num_digit in
    let justify_left := has_flag flags VG_MSG_LJUSTIFY in
    let* (n1, pad1) := if justify_left then Ok (0, EmptyString) else float_pad width num_digit in
    let* whole := myvprintf_int64 0 10 ipwidth false ipval in
    let* fraction :=
      if negb (precision =? 0) then
        let* digits := myvprintf_int64 VG_MSG_ZJUSTIFY 10 precision false frval in Ok ("." +:+ digits)%string
      else Ok EmptyString in
    let* (n2, pad2) := if justify_left then float_pad width num_digit else Ok (0, EmptyString) in
    Ok (u32 (n1 + Z_of_bool is_negative + Z.of_nat (String.length whole) + Z.of_nat (String.length fraction) + n2),
        (pad1 +:+ (if is_negative then "-" else EmptyString) +:+ whole +:+ fraction +:+ pad2)%string).

(** ** Directives *)

Definition VG_MSG_PAREN : Z := 8.
Definition VG_MSG_ALTFORMAT : Z := 32.

(** The loop over the flags. *)
Fixpoint parse_flags (format : string) (flags : Z) : Z * string :=
  match format with
  | EmptyString => (flags, format)
  | String c format' =>
      if code c =? 40 then parse_flags format' (Z.lor flags VG_MSG_PAREN)
      else if (code c =? 44) || (code c =? 39) then parse_flags format' (Z.lor flags VG_MSG_COMMA)
      else if code c =? 45 then parse_flags format' (Z.lor flags VG_MSG_LJUSTIFY)
      else if code c =? 48 then parse_flags format' (Z.lor flags VG_MSG_ZJUSTIFY)
      else if code c =? 35 then parse_flags format' (Z.lor flags VG_MSG_ALTFORMAT)
      else (flags, format)
  end.

(** [n *= 10; n += format[i++] - '0'], in [Int]. *)
Fixpoint parse_number (format : string) (n : Z) : outcome (Z * string) :=
  match format with
  | String c format' =>
      if VG_isdigit (code c) then
        let* n := int_add (n * 10) (code c - 48) in parse_number format' n
      else Ok (n, format)
  | EmptyString => Ok (n, format)
  end.

(** A number or a ["*"], whose value is an argument. *)
Definition parse_width (format : string) (vargs : va_list) : outcome (Z * string * va_list) :=
  if hd0 format =? 42 then let* (n, vargs) := va_Int vargs in Ok (n, tl0 format, vargs)
  else let* (n, format) := parse_number format 0 in Ok (n, format, vargs).

Fixpoint count_ls (format : string) (n_ls : Z) : Z * string :=
  match format with
  | String c format' => if code c =? 108 then count_ls format' (n_ls + 1) else (n_ls, format)
  | EmptyString => (n_ls, format)
  end.

(** What stands between the ["%"] and the conversion. *)
Record directive := mk_directive {
  d_flags : Z;
  d_width : Z;
  d_precision : Z;
  d_is_sizet : bool;
  d_is_long : bool
}.

Definition parse_directive (format : string) (vargs : va_list) : outcome (directive * string * va_list) :=
  let '(flags, format) := parse_flags format 0 in
  let* (width, format, vargs) := parse_width format vargs in
  let* (precision, format, vargs) :=
    if hd0 format =? 46 then parse_width (tl0 format) vargs else Ok (-1, format, vargs) in
  let '(is_sizet, n_ls, format) :=
    if hd0 format =? 122 then (true, 0, tl0 format)
    else let '(n_ls, format) := count_ls format 0 in (false, n_ls, format) in
  Ok (mk_directive flags width precision is_sizet (negb (n_ls =? 0)), format, vargs).

(** The characters of a number after those of [prefix], which is counted as [n]
    characters. *)
Definition int64_after (n : Z) (prefix : string) (flags base width : Z) (capitalised : bool) (p : Z)
  : outcome (Z * string) :=
  let* text := myvprintf_int64 flags base width capitalised p in
  Ok (n + Z.of_nat (String.length text), (prefix +:+ text)%string).

(** An unsigned argument: [is_sizet] comes first. *)
Definition va_unsigned (d : directive) (vargs : va_list) : outcome (Z * va_list) :=
  if d_is_sizet d || d_is_long d then va_ULong vargs else va_UInt vargs.

(** The conversion [c]; [clo_xml] is the option of that name.  The rest of the
    format begins after [c]. *)
Definition convert (clo_xml : bool) (d : directive) (c : Z) (format : string) (vargs : va_list)
  : outcome (Z * string * string * va_list) :=
  let alt := has_flag (d_flags d) VG_MSG_ALTFORMAT in
  let n_alt := if alt then 2 else 0 in
  if c =? 111 (* o *) then
    let* (v, vargs) := va_unsigned d vargs in
    let* (ret, text) := int64_after n_alt (if alt then "0" else EmptyString)%string (d_flags d) 8 (d_width d) false v in Ok (ret, text, format, vargs)
  else if c =? 100 (* d *) then
    let* (v, vargs) := if d_is_long d then va_ULong vargs else va_Int vargs in
    let* (ret, text) := int64_after 0 EmptyString (Z.lor (d_flags d) VG_MSG_SIGNED) 10 (d_width d) false (u64 v) in
    Ok (ret, text, format, vargs)
  else if c =? 117 (* u *) then
    let* (v, vargs) := va_unsigned d vargs in
    let* (ret, text) := int64_after 0 EmptyString (d_flags d) 10 (d_width d) false v in Ok (ret, text, format, vargs)
  else if c =? 112 (* p *) then
    if hd0 format =? 83 then
      let* (str, vargs) := va_string vargs in
      let '(ret, text) := myvprintf_str_XML_simplistic str in Ok (ret, text, tl0 format, vargs)
    else if hd0 format =? 115 then
      let* (str, vargs) := va_string vargs in
      let '(ret, text) :=
        if clo_xml then myvprintf_str_XML_simplistic str
        else myvprintf_str (d_flags d) (d_width d) str false in
      Ok (ret, text, tl0 format, vargs)
    else
      let* (v, vargs) := va_ULong vargs in
      let* (ret, text) := int64_after 2 "0x" (d_flags d) 16 (d_width d) true v in Ok (ret, text, format, vargs)
  else if (c =? 120) || (c =? 88) (* x, X *) then
    let* (v, vargs) := va_unsigned d vargs in
    let caps := (c =? 88) && negb (d_is_sizet d) in
    let* (ret, text) := int64_after n_alt (if alt then "0x" else EmptyString)%string (d_flags d) 16 (d_width d) caps v in Ok (ret, text, format, vargs)
  else if c =? 99 (* c *) then
    let* (v, vargs) := va_Int vargs in Ok (1, String (char_of (u8 v)) EmptyString, format, vargs)
  else if (c =? 115) || (c =? 83) (* s, S *) then
    let* (str, vargs) := va_string vargs in
    let '(ret, text) := myvprintf_str (d_flags d) (d_width d) str (c =? 83) in Ok (ret, text, format, vargs)
  else if c =? 102 (* f *) then
    let* (val, vargs) := va_Double vargs in
    let* (ret, text) := myvprintf_float (d_flags d) (d_width d) (d_precision d) val in Ok (ret, text, format, vargs)
  else Ok (0, EmptyString, format, vargs).

(** ** The whole format *)

(** A round takes at least one character of the format.  After a format that
    ends in the middle of a directive the loop goes on beyond its end. *)
Fixpoint vprintf_loop (fuel : nat) (clo_xml : bool) (format : string) (vargs : va_list) (ret : Z) (sent : string)
  : outcome (Z * string) :=
  match format with
  | EmptyString => Ok (ret, sent)
  | String c format =>
      match fuel with
      | O => Err OutOfFuel
      | S fuel =>
          if negb (code c =? 37) then
            vprintf_loop fuel clo_xml format vargs (u32 (ret + 1)) (sent +:+ String c EmptyString)
          else if hd0 format =? 0 then Ok (ret, sent)
          else if hd0 format =? 37 then
            vprintf_loop fuel clo_xml (tl0 format) vargs (u32 (ret + 1)) (sent +:+ String c EmptyString)
          else
            let* (d, format, vargs) := parse_directive format vargs in
            let* _ := defined_when (negb (hd0 format =? 0)) in
            let* (n, text, format, vargs) := convert clo_xml d (hd0 format) (tl0 format) vargs in
            vprintf_loop fuel clo_xml format vargs (u32 (ret + n)) (sent +:+ text)
      end
  end.

Definition VG_debugLog_vprintf (clo_xml : bool) (format : string) (vargs : va_list) : outcome (Z * string) :=
  vprintf_loop (String.length format) clo_xml format vargs 0 EmptyString.

(** The text sent for a format and its arguments, without XML output. *)
Definition sprintf (format : string) (vargs : va_list) : outcome string :=
  let* (_, text) := VG_debugLog_vprintf false format vargs in Ok text.

(** ** Examples *)

Example sprintf_float :
  sprintf "%*.2f%% %f|%6.1f|%-6.1f|" [A32 8; ADouble (double_div (double_of_Z 1) (double_of_Z 3));
    ADouble (double_of_Z (-2)); ADouble (double_of_Z 7); ADouble (double_of_Z 7)]
  = Ok "    0.33% -2.000000|   7.0|7.0   |"%string.
Proof. vm_compute. reflexivity. Qed.

Example sprintf_numbers :
  sprintf "%d %,12llu (%#x) %5s%-4s.%S" [A32 (-3); A64 1234567; A32 255; AStr (Some "ab"); AStr (Some "c"); AStr (Some "x")]%string
  = Ok "-3    1,234,567 (0xff)    abc   .X"%string.
Proof. vm_compute. reflexivity. Qed.

(** Zeros that fill a field go before the sign. *)
Example zeros_before_sign : sprintf "%05d" [A32 (-3)] = Ok "000-3"%string.
Proof. vm_compute. reflexivity. Qed.

(** The zero of ["%#o"] is counted twice. *)
Example octal_count : VG_debugLog_vprintf false "%#o" [A32 8] = Ok (4, "010"%string).
Proof. vm_compute. reflexivity. Qed.

(** A rounded fraction carries into the integral part. *)
Example rounds_up : sprintf "%.1f" [ADouble (double_sub (double_of_Z 10) (double_div (double_of_Z 1) (double_of_Z 1000)))]
  = Ok "10.0"%string.
Proof. vm_compute. reflexivity. Qed.

(** 2^64 passes the test that the integral part is an [ULong]. *)
Example two_64_undefined : sprintf "%f" [ADouble (double_of_Z (2 ^ 64))] = Err Undefined.
Proof. vm_compute. reflexivity. Qed.
