(* ===== verification/VprintfTheory.v ===== *)
(** * What formatted printing returns

    The loops of [VG_(debugLog_vprintf)] end, the number it returns is that of
    the characters sent, and the directives of Cachegrind's formats. *)

From Stdlib Require Import SpecFloat.
From S2P Require Import Prelude Float LibcBase Printf Vprintf.

(** ** Lengths *)

Lemma length_map_string f s : String.length (map_string f s) = String.length s.
Proof. induction s as [|c s IH]; [done|]. cbn. by rewrite IH. Qed.

Lemma length_take_string n s : (n <= String.length s)%nat -> String.length (take_string n s) = n.
Proof. revert s. induction n as [|n IH]; intros [|c s] H; cbn in *; try lia. rewrite IH; lia. Qed.

Lemma length_blanks n : String.length (blanks_string n) = Z.to_nat n.
Proof. unfold blanks_string. by rewrite length_string_of_list, length_replicate. Qed.

Lemma str_counts flags width str cap : 0 <= width -> 
  let '(ret, text) := myvprintf_str flags width str cap in u32 ret = u32 (Z.of_nat (String.length text)).
Proof.
  intros Hw. unfold myvprintf_str. case_test; [by rewrite length_map_string|]. case_test.
  - rewrite length_take_string by (rewrite length_map_string; lia). rewrite Z2Nat.id by done.
    unfold u32. by rewrite Zmod_mod.
  - f_equal. case_test; rewrite string_length_app, length_map_string, length_blanks; lia.
Qed.

Lemma xml_counts str : let '(ret, text) := myvprintf_str_XML_simplistic str in ret = Z.of_nat (String.length text).
Proof.
  induction str as [|c str IH]; [done|]. cbn [myvprintf_str_XML_simplistic].
  destruct (myvprintf_str_XML_simplistic str) as [ret text]. rewrite string_length_app. lia.
Qed.

(** ** Numbers with a fraction *)

(** The loop over the powers of ten ends for every [ULong]. *)
Lemma digit_loop_total ipval : 0 <= ipval < 2 ^ 64 -> exists n, digit_loop 21 10 0 1 ipval = Ok n /\ 1 <= n <= 20.
Proof.
  intros Hv. cbn [digit_loop]. repeat (cbn [Z.leb Z.compare Pos.compare Pos.compare_cont];
    match goal with
    | |- context [u64 ?x] => let y := eval vm_compute in (u64 x) in change (u64 x) with y
    | |- context [?a <=? ?b] => let y := eval vm_compute in (a <=? b) in change (a <=? b) with y; cbn iota
    | |- context [ipval <? ?b] => destruct (Z.ltb_spec ipval b); [eexists; split; [reflexivity|lia]|]
    end). eexists. split; [reflexivity|lia].
Qed.

Lemma to_ULong_range x v : double_to_ULong x = Ok v -> 0 <= v < 2 ^ 64.
Proof.
  unfold double_to_ULong, defined_when. destruct (_ && _) eqn:E; [|done]. cbn. intros [= <-]. zbool. lia.
Qed.

Lemma to_ULong_undefined x e : double_to_ULong x = Err e -> e = Undefined.
Proof. unfold double_to_ULong, defined_when. destruct (_ && _); cbn; congruence. Qed.

(** ** Routines that end *)

(** [m] returns what satisfies [P], or is undefined in C. *)
Definition ends {A} (m : outcome A) (P : A -> Prop) : Prop :=
  match m with Ok a => P a | Err e => e = Undefined end.

Lemma ends_bind {A B} (m : outcome A) (f : A -> outcome B) P Q :
  ends m P -> (forall a, P a -> ends (f a) Q) -> ends (let* a := m in f a) Q.
Proof. destruct m as [a|e]; cbn; [auto|done]. Qed.

Lemma ends_mono {A} (m : outcome A) (P Q : A -> Prop) : ends m P -> (forall a, P a -> Q a) -> ends m Q.
Proof. destruct m as [a|e]; cbn; [auto|done]. Qed.

Definition counts (r : Z * string) : Prop := u32 (fst r) = u32 (Z.of_nat (String.length (snd r))).

Lemma int64_ends flags base width cap p : 2 <= base <= 16 -> 0 <= p < 2 ^ 64 ->
  ends (myvprintf_int64 flags base width cap p) (fun _ => True).
Proof.
  intros Hb Hp. destruct (decide (- 2 ^ 31 <= width + 1 < 2 ^ 31)) as [Hw|Hw].
  - destruct (decide (has_flag flags VG_MSG_SIGNED = true /\ p = 2 ^ 63)) as [[Hs ->]|Hmin].
    + unfold myvprintf_int64. rewrite int_add_ok by lia. cbn [obind].
      destruct (Z.ltb_spec base 2), (Z.ltb_spec 16 base); try lia. by rewrite Hs.
    + destruct (int64_total flags base width cap p Hb Hp Hw) as (s & -> & _); [|done]. naive_solver.
  - unfold myvprintf_int64, int_add. destruct (Z.leb_spec (- 2 ^ 31) (width + 1)), (Z.ltb_spec (width + 1) (2 ^ 31)); try done.
    cbn [andb obind]. lia.
Qed.

Lemma int64_after_ends n prefix flags base width cap p : 2 <= base <= 16 -> 0 <= p < 2 ^ 64 ->
  ends (int64_after n prefix flags base width cap p) (fun r => n = Z.of_nat (String.length prefix) -> counts r).
Proof.
  intros Hb Hp. eapply ends_bind; [by apply int64_ends|]. intros text _. cbn. intros ->.
  unfold counts. cbn [fst snd]. rewrite string_length_app. f_equal. lia.
Qed.

Lemma float_pad_ends width num_digit :
  ends (float_pad width num_digit) (fun r => fst r = Z.of_nat (String.length (snd r))).
Proof.
  unfold float_pad, defined_when. case_test; [|done]. case_test; [|done]. cbn. rewrite length_blanks.
  pose proof (u32_range (width - num_digit)). lia.
Qed.

Lemma float_digits_ends val precision : precision <= 10 ->
  ends (float_digits val precision) (fun r => 0 <= fst r < 2 ^ 64 /\ 0 <= snd r < 2 ^ 64).
Proof.
  intros Hp. unfold float_digits.
  assert (Hf : 0 < 10 ^ Z.max 0 precision <= 10 ^ 10) by (split; [lia|]; apply Z.pow_le_mono_r; lia).
  destruct (double_to_ULong val) as [ipval|] eqn:E1; cbn [obind]; [|by apply to_ULong_undefined in E1].
  apply to_ULong_range in E1.
  destruct (double_to_ULong (double_mul _ _)) as [frval|] eqn:E2; cbn [obind ends fst snd]; [|by apply to_ULong_undefined in E2].
  split; [case_test; [apply u64_range|done]|]. 
  match goal with |- 0 <= ?x mod ?y < _ => pose proof (Z.mod_pos_bound x y ltac:(lia)) end. lia.
Qed.

Lemma float_ends flags width precision val :
  ends (myvprintf_float flags width precision val) (fun r => 0 <= width -> counts r).
Proof.
  unfold myvprintf_float. generalize (SFltb val (double_of_Z 0)) as neg. intros neg.
  destruct (SFltb _ _).
  { cbn. intros Hw. unfold counts. cbn [fst snd]. rewrite length_string_of_list, length_replicate. unfold u32. rewrite Zmod_mod.
    f_equal. case_test; lia. }
  eapply ends_bind; [apply float_digits_ends; repeat case_test; lia|]. intros [ipval frval] [Hi Hf]. cbn in Hi, Hf.
  destruct (digit_loop_total ipval Hi) as (n & -> & Hn). cbn [obind].
  eapply ends_bind with (P := fun r => fst r = Z.of_nat (String.length (snd r))); [destruct (has_flag flags VG_MSG_LJUSTIFY); [done|apply float_pad_ends]|].
  intros [n1 pad1] Hn1. eapply ends_bind; [apply int64_ends; lia|]. intros whole _.
  eapply ends_bind with (P := fun _ => True).
  { destruct (negb _); [|done]. eapply ends_bind; [apply int64_ends; lia|done]. }
  intros fraction _.
  eapply ends_bind with (P := fun r => fst r = Z.of_nat (String.length (snd r))); [destruct (has_flag flags VG_MSG_LJUSTIFY); [apply float_pad_ends|done]|].
  intros [n2 pad2] Hn2. cbn in Hn1, Hn2 |- *. intros _. unfold counts. cbn [fst snd]. unfold u32. rewrite Zmod_mod. f_equal.
  rewrite !string_length_app. destruct neg; cbn [Z_of_bool String.length]; lia.
Qed.

(** ** What is left of a format *)

Definition suffix_of (r s : string) : Prop := exists p, s = (p +:+ r)%string.

#[export] Instance suffix_refl : Reflexive suffix_of.
Proof. intros s. by exists EmptyString. Qed.
#[export] Instance suffix_trans : Transitive suffix_of.
Proof. intros r s t [p ->] [q ->]. exists (q +:+ p)%string. by rewrite string_app_assoc. Qed.

Lemma suffix_tl s : suffix_of (tl0 s) s.
Proof. destruct s as [|c s]; [done|]. by exists (String c EmptyString). Qed.

Lemma suffix_cons c r s : suffix_of r s -> suffix_of r (String c s).
Proof. intros H. etrans; [exact H|]. by exists (String c EmptyString). Qed.

Lemma suffix_length r s : suffix_of r s -> (String.length r <= String.length s)%nat.
Proof. intros [p ->]. rewrite string_length_app. lia. Qed.

(** No character [n]. *)
Fixpoint no_char (n : Z) (s : string) : bool :=
  match s with EmptyString => true | String c s => negb (code c =? n) && no_char n s end.

Lemma no_char_app n p r : no_char n (p +:+ r)%string = no_char n p && no_char n r.
Proof. induction p as [|c p IH]; [done|]. rewrite string_cons_app. cbn. by rewrite IH, andb_assoc. Qed.

Lemma no_char_suffix n r s : suffix_of r s -> no_char n s = true -> no_char n r = true.
Proof. intros [p ->]. rewrite no_char_app. by intros [_ ?]%andb_true_iff. Qed.

Definition nonneg_arg (a : varg) : Prop := match a with A32 z => 0 <= s32 z | _ => True end.

(** A field width that is an argument is not negative, and no ["#"]. *)
Definition countable (format : string) (vargs : va_list) : Prop :=
  no_char 35 format = true /\ (no_char 42 format = true \/ Forall nonneg_arg vargs).

(** What has been read of the format and the arguments. *)
Definition rest_of (format : string) (vargs : va_list) (format' : string) (vargs' : va_list) : Prop :=
  suffix_of format' format /\ forall Q, Forall Q vargs -> Forall Q vargs'.

Lemma rest_refl f v : rest_of f v f v.
Proof. by split. Qed.

Lemma rest_trans f v f1 v1 f2 v2 : rest_of f v f1 v1 -> rest_of f1 v1 f2 v2 -> rest_of f v f2 v2.
Proof. intros [H1 H1'] [H2 H2']. split; [by etrans|auto]. Qed.

Lemma countable_rest f v f' v' : rest_of f v f' v' -> countable f v -> countable f' v'.
Proof.
  intros [Hs Hv] [H35 H42]. split; [by apply (no_char_suffix 35 f' f)|].
  destruct H42 as [H|H]; [left; by apply (no_char_suffix 42 f' f)|right; by apply Hv].
Qed.

(** Reading an argument. *)
Lemma va_ends {A} (m : outcome (A * va_list)) f v (P : A -> Prop) :
  match m with
  | Ok (a, v') => P a /\ exists x, v = x :: v'
  | Err e => e = Undefined
  end -> ends m (fun r => P (fst r) /\ rest_of f v f (snd r)).
Proof.
  destruct m as [[a v']|e]; cbn; [|done]. intros [Ha [x ->]]. split; [done|]. split; [done|].
  intros Q HQ. by inversion HQ.
Qed.


Lemma va_Int_ends f v : ends (va_Int v) (fun r => (Forall nonneg_arg v -> 0 <= fst r) /\ rest_of f v f (snd r)).
Proof.
  destruct v as [|[z| | |] v]; try done. cbn. split; [by inversion 1|]. split; [done|]. by inversion 1.
Qed.

Lemma va_UInt_ends f v : ends (va_UInt v) (fun r => 0 <= fst r < 2 ^ 64 /\ rest_of f v f (snd r)).
Proof. apply (va_ends (va_UInt v) f v (fun a => 0 <= a < 2 ^ 64)). destruct v as [|[z| | |] v]; try done. cbn. split; [|by eexists].
  pose proof (u32_range z). lia. Qed.

Lemma va_ULong_ends f v : ends (va_ULong v) (fun r => 0 <= fst r < 2 ^ 64 /\ rest_of f v f (snd r)).
Proof. apply (va_ends (va_ULong v) f v (fun a => 0 <= a < 2 ^ 64)). destruct v as [|[|z| |] v]; try done. cbn. split; [|by eexists].
  apply u64_range. Qed.

Lemma va_Double_ends f v : ends (va_Double v) (fun r => True /\ rest_of f v f (snd r)).
Proof. apply (va_ends (va_Double v) f v (fun _ => True)). destruct v as [|[| |d|] v]; try done. cbn. split; [done|by eexists]. Qed.

Lemma va_string_ends f v : ends (va_string v) (fun r => True /\ rest_of f v f (snd r)).
Proof. apply (va_ends (va_string v) f v (fun _ => True)). destruct v as [|[| | |s] v]; try done. cbn. split; [done|by eexists]. Qed.

(** ** Directives *)

Lemma parse_flags_rest format flags :
  suffix_of (snd (parse_flags format flags)) format
  /\ (no_char 35 format = true ->
      has_flag (fst (parse_flags format flags)) VG_MSG_ALTFORMAT = has_flag flags VG_MSG_ALTFORMAT).
Proof.
  assert (Hor : forall f, Z.land f 32 = 0 -> has_flag (Z.lor flags f) VG_MSG_ALTFORMAT = has_flag flags VG_MSG_ALTFORMAT).
  { intros f Hf. unfold has_flag, VG_MSG_ALTFORMAT. by rewrite Z.land_lor_distr_l, Hf, Z.lor_0_r. }
  revert flags Hor. induction format as [|c format IH]; intros flags Hor; cbn [parse_flags]; [by split|].
  assert (Hstep : forall f, (no_char 35 (String c format) = true -> Z.land f 32 = 0) ->
    suffix_of (snd (parse_flags format (Z.lor flags f))) (String c format)
    /\ (no_char 35 (String c format) = true ->
        has_flag (fst (parse_flags format (Z.lor flags f))) VG_MSG_ALTFORMAT = has_flag flags VG_MSG_ALTFORMAT)).
  { intros f Hf. destruct (IH (Z.lor flags f)) as [H1 H2].
    - intros f' Hf'. unfold has_flag, VG_MSG_ALTFORMAT. by rewrite Z.land_lor_distr_l, Hf', Z.lor_0_r.
    - split; [by apply suffix_cons|]. intros Hno. rewrite H2, Hor; [done|by apply Hf|].
      cbn in Hno. by apply andb_true_iff in Hno as [_ ?]. }
  case_match; [by apply Hstep|]. case_match; [by apply Hstep|]. case_match; [by apply Hstep|].
  case_match; [by apply Hstep|]. case_match; [|by split]. apply Hstep. cbn. intros Hno.
  match goal with H : (code c =? 35) = true |- _ => by rewrite H in Hno end.
Qed.

Lemma parse_number_ends format n : 0 <= n ->
  ends (parse_number format n) (fun r => 0 <= fst r /\ suffix_of (snd r) format).
Proof.
  revert n. induction format as [|c format IH]; intros n Hn; cbn [parse_number]; [by split|].
  destruct (VG_isdigit (code c)) eqn:Hd; [|by split]. unfold VG_isdigit in Hd. unfold int_add. case_match; [|done].
  cbn [obind]. eapply ends_mono; [apply IH; zbool; lia|]. intros r [H1 H2]. split; [done|by apply suffix_cons].
Qed.

Lemma parse_width_ends format vargs :
  ends (parse_width format vargs) (fun r => let '(n, f, v) := r in
    rest_of format vargs f v /\ (countable format vargs -> 0 <= n)).
Proof.
  unfold parse_width. destruct (Z.eqb_spec (hd0 format) 42) as [E|E].
  - eapply ends_bind; [apply (va_Int_ends format vargs)|]. intros [n v] [Hn Hr]. cbn in Hn, Hr |- *.
    split; [eapply rest_trans; [exact Hr|]; split; [apply suffix_tl|done]|]. intros [_ [H42|Hv]]; [|by apply Hn].
    destruct format as [|c format]; [done|]. cbn in E, H42. by rewrite E in H42.
  - eapply ends_bind; [by apply parse_number_ends|]. intros [n f] [Hn Hf]. cbn in Hn, Hf |- *. by repeat split.
Qed.

Lemma count_ls_rest format n : suffix_of (snd (count_ls format n)) format.
Proof.
  revert n. induction format as [|c format IH]; intros n; cbn [count_ls]; [done|]. case_match; [|done].
  by apply suffix_cons.
Qed.

Definition countable_directive (d : directive) : Prop :=
  0 <= d_width d /\ has_flag (d_flags d) VG_MSG_ALTFORMAT = false.

Lemma parse_directive_ends format vargs :
  ends (parse_directive format vargs) (fun r => let '(d, f, v) := r in
    rest_of format vargs f v /\ (countable format vargs -> countable_directive d)).
Proof.
  unfold parse_directive. destruct (parse_flags_rest format 0) as [Hs Hflags].
  destruct (parse_flags format 0) as [flags f0]. cbn [fst snd] in Hs, Hflags.
  assert (H0 : rest_of format vargs f0 vargs) by by split.
  eapply ends_bind; [apply parse_width_ends|]. intros [[width f1] v1] [H1 Hw].
  eapply ends_bind with (P := fun r => let '(p, f, v) := r in rest_of f1 v1 f v).
  { case_match; [|by apply rest_refl]. eapply ends_mono; [apply parse_width_ends|]. intros [[p f] v] [Hr _].
    eapply rest_trans; [|exact Hr]. split; [apply suffix_tl|done]. }
  intros [[precision f2] v2] H2.
  assert (H3 : forall b n f, (if hd0 f2 =? 122 then (true, 0, tl0 f2)
       else let '(n_ls, f) := count_ls f2 0 in (false, n_ls, f)) = (b, n, f) -> rest_of f2 v2 f v2).
  { intros b n f. case_match; [intros [= <- <- <-]; split; [apply suffix_tl|done]|].
    pose proof (count_ls_rest f2 0) as Hc. destruct (count_ls f2 0). intros [= <- <- <-]. by split. }
  destruct (if hd0 f2 =? 122 then _ else _) as [[b n] f]. specialize (H3 b n f eq_refl). cbn [ends].
  split; [do 3 (eapply rest_trans; [eassumption|]); exact H3|]. intros Hc. split; cbn [d_width d_flags].
  - apply Hw. by apply (countable_rest format vargs).
  - rewrite Hflags by apply Hc. reflexivity.
Qed.

Lemma va_unsigned_ends d f v : ends (va_unsigned d v) (fun r => 0 <= fst r < 2 ^ 64 /\ rest_of f v f (snd r)).
Proof. unfold va_unsigned. case_match; [apply va_ULong_ends|apply va_UInt_ends]. Qed.

Definition converted (format : string) (vargs : va_list) (r : Z * string * string * va_list) : Prop :=
  let '(n, text, f, v) := r in rest_of format vargs f v.

Lemma convert_ends clo_xml d c format vargs :
  ends (convert clo_xml d c format vargs) (fun r => let '(n, text, f, v) := r in
    rest_of format vargs f v /\ (countable_directive d -> counts (n, text))).
Proof.
  assert (Hint : forall (m : outcome (Z * va_list)) (k : Z -> Z) n prefix flags base cap,
    ends m (fun r => 0 <= k (fst r) < 2 ^ 64 /\ rest_of format vargs format (snd r)) -> 2 <= base <= 16 ->
    (countable_directive d -> n = Z.of_nat (String.length prefix)) ->
    ends (let* (v, vargs) := m in
          let* (ret, text) := int64_after n prefix flags base (d_width d) cap (k v) in Ok (ret, text, format, vargs))
      (fun r => let '(n, text, f, v) := r in
         rest_of format vargs f v /\ (countable_directive d -> counts (n, text)))).
  { intros m k n prefix flags base cap Hm Hb Hn. eapply ends_bind; [exact Hm|]. intros [z v] [Hz Hr].
    eapply ends_bind; [by apply int64_after_ends|]. intros [ret text] Hc. cbn in *. split; [done|]. intros Hd. by apply Hc, Hn. }
  assert (Hstr : forall b, ends (let* (str, vargs) := va_string vargs in
      let '(ret, text) := myvprintf_str (d_flags d) (d_width d) str b in Ok (ret, text, format, vargs))
      (fun r => let '(n, text, f, v) := r in
         rest_of format vargs f v /\ (countable_directive d -> counts (n, text)))).
  { intros b. eapply ends_bind; [apply (va_string_ends format)|]. intros [str v] [_ Hr]. cbn in Hr.
    pose proof (str_counts (d_flags d) (d_width d) str b) as Hc. destruct (myvprintf_str _ _ _ _) as [n text].
    cbn. split; [done|]. intros [Hw _]. by apply Hc. }
  assert (Hxml : forall str, counts (myvprintf_str_XML_simplistic str)).
  { intros str. pose proof (xml_counts str) as Hc. destruct (myvprintf_str_XML_simplistic str). unfold counts. cbn. by rewrite Hc. }
  assert (Hal : forall s, countable_directive d -> (if has_flag (d_flags d) VG_MSG_ALTFORMAT then 2 else 0)
    = Z.of_nat (String.length (if has_flag (d_flags d) VG_MSG_ALTFORMAT then s else EmptyString))) by (by intros s [_ ->]).
  unfold convert.
  destruct (c =? 111). { apply (Hint _ (fun z => z)); [apply va_unsigned_ends|lia|apply Hal]. }
  destruct (c =? 100).
  { apply (Hint _ u64); [|lia|done]. destruct (d_is_long d).
    - eapply ends_mono; [apply va_ULong_ends|]. intros r [_ Hr]. split; [apply u64_range|exact Hr].
    - eapply ends_mono; [apply va_Int_ends|]. intros r [_ Hr]. split; [apply u64_range|exact Hr]. }
  destruct (c =? 117). { apply (Hint _ (fun z => z)); [apply va_unsigned_ends|lia|done]. }
  destruct (c =? 112).
  { destruct (hd0 format =? 83); [|destruct (hd0 format =? 115)].
    - eapply ends_bind; [apply (va_string_ends format)|]. intros [str v] [_ Hr]. cbn in Hr. specialize (Hxml str).
      destruct (myvprintf_str_XML_simplistic str) as [n text]. cbn. split; [|done].
      eapply rest_trans; [exact Hr|]. split; [apply suffix_tl|done].
    - eapply ends_bind; [apply (va_string_ends format)|]. intros [str v] [_ Hr]. cbn in Hr. specialize (Hxml str).
      pose proof (str_counts (d_flags d) (d_width d) str false) as Hc.
      destruct clo_xml.
      + destruct (myvprintf_str_XML_simplistic str) as [n text]. cbn. split; [|done].
        eapply rest_trans; [exact Hr|]. split; [apply suffix_tl|done].
      + destruct (myvprintf_str _ _ _ _) as [n text]. cbn. split; [|intros [Hw _]; by apply Hc].
        eapply rest_trans; [exact Hr|]. split; [apply suffix_tl|done].
    - apply (Hint _ (fun z => z)); [apply va_ULong_ends|lia|done]. }
  destruct ((c =? 120) || (c =? 88)). { apply (Hint _ (fun z => z)); [apply va_unsigned_ends|lia|apply Hal]. }
  destruct (c =? 99).
  { eapply ends_bind; [apply (va_Int_ends format)|]. intros [z v] [_ Hr]. by split. }
  destruct ((c =? 115) || (c =? 83)); [apply Hstr|]. destruct (c =? 102); [|by split; [apply rest_refl|]].
  eapply ends_bind; [apply (va_Double_ends format)|]. intros [val v] [_ Hr]. cbn in Hr.
  eapply ends_bind; [apply float_ends|]. intros [n text] Hc. cbn. split; [done|]. intros [Hw _]. by apply Hc.
Qed.

(** ** The loop *)

(** A directive: what is printed, counted, and left. *)
Definition one_directive (clo_xml : bool) (format : string) (vargs : va_list) : outcome (Z * string * string * va_list) :=
  let* (d, format, vargs) := parse_directive format vargs in
  let* _ := defined_when (negb (hd0 format =? 0)) in
  convert clo_xml d (hd0 format) (tl0 format) vargs.

Lemma one_directive_ends clo_xml format vargs :
  ends (one_directive clo_xml format vargs) (fun r => let '(n, text, f, v) := r in
    rest_of format vargs f v /\ (countable format vargs -> counts (n, text))).
Proof.
  unfold one_directive. eapply ends_bind; [apply parse_directive_ends|]. intros [[d f] v] [Hr Hd].
  unfold defined_when. destruct (negb (hd0 f =? 0)); [|done]. cbn [obind].
  eapply ends_mono; [apply convert_ends|]. intros [[[n text] f'] v'] [Hr' Hc]. split.
  - eapply rest_trans; [exact Hr|]. eapply rest_trans; [|exact Hr']. split; [apply suffix_tl|done].
  - auto.
Qed.

Lemma vprintf_loop_step fuel clo_xml c format vargs ret sent :
  vprintf_loop (S fuel) clo_xml (String c format) vargs ret sent
  = if negb (code c =? 37) then vprintf_loop fuel clo_xml format vargs (u32 (ret + 1)) (sent +:+ String c EmptyString)
    else if hd0 format =? 0 then Ok (ret, sent)
    else if hd0 format =? 37 then
      vprintf_loop fuel clo_xml (tl0 format) vargs (u32 (ret + 1)) (sent +:+ String c EmptyString)
    else
      let* (n, text, format, vargs) := one_directive clo_xml format vargs in
      vprintf_loop fuel clo_xml format vargs (u32 (ret + n)) (sent +:+ text).
Proof.
  cbn [vprintf_loop]. unfold one_directive. repeat case_match; try done.
  rewrite !bind_assoc. destruct (parse_directive _ _) as [[[d f] v]|]; [|done]. cbn [obind].
  rewrite !bind_assoc. done.
Qed.

(** More fuel than characters changes nothing. *)
Lemma vprintf_loop_fuel fuel fuel' clo_xml format vargs ret sent :
  (String.length format <= fuel)%nat -> (String.length format <= fuel')%nat ->
  vprintf_loop fuel clo_xml format vargs ret sent = vprintf_loop fuel' clo_xml format vargs ret sent.
Proof.
  revert fuel' format vargs ret sent. induction fuel as [|fuel IH]; intros fuel' format vargs ret sent Hf Hf'.
  { destruct format as [|c format]; [by destruct fuel'|cbn in Hf; lia]. }
  destruct format as [|c format]; [by destruct fuel'|]. cbn [String.length] in Hf, Hf'.
  destruct fuel' as [|fuel']; [lia|]. rewrite !vprintf_loop_step.
  pose proof (suffix_length _ _ (suffix_tl format)).
  case_match; [apply IH; lia|]. case_match; [done|]. case_match; [apply IH; lia|].
  pose proof (one_directive_ends clo_xml format vargs) as He.
  destruct (one_directive clo_xml format vargs) as [[[[n text] f] v]|]; [|done]. cbn in He |- *.
  destruct He as [[Hs%suffix_length _] _]. apply IH; lia.
Qed.

Lemma counted_more (ret n : Z) (sent text : string) : ret = u32 (Z.of_nat (String.length sent)) -> counts (n, text) ->
  u32 (ret + n) = u32 (Z.of_nat (String.length (sent +:+ text)%string)).
Proof.
  intros -> Hc. unfold counts in Hc. cbn [fst snd] in Hc. rewrite string_length_app, Nat2Z.inj_add. unfold u32 in *.
  rewrite Zplus_mod_idemp_l, <-Zplus_mod_idemp_r, Hc, Zplus_mod_idemp_r. done.
Qed.

Lemma vprintf_loop_ends fuel clo_xml format vargs ret sent : (String.length format <= fuel)%nat ->
  ends (vprintf_loop fuel clo_xml format vargs ret sent) (fun r =>
    countable format vargs -> ret = u32 (Z.of_nat (String.length sent)) ->
    fst r = u32 (Z.of_nat (String.length (snd r)))).
Proof.
  revert format vargs ret sent. induction fuel as [|fuel IH]; intros format vargs ret sent Hf.
  { destruct format; [by cbn|cbn in Hf; lia]. }
  destruct format as [|c format]; [by cbn|]. cbn [String.length] in Hf. rewrite vprintf_loop_step.
  assert (Hcd : forall f v, rest_of format vargs f v -> countable (String c format) vargs -> countable f v).
  { intros f v Hr. apply countable_rest. eapply rest_trans; [|exact Hr]. split; [apply suffix_cons; done|done]. }
  assert (Hone : counts (1, String c EmptyString)) by done.
  pose proof (suffix_length _ _ (suffix_tl format)).
  case_match.
  { eapply ends_mono; [apply IH; lia|]. intros r Hr Hc Hret. apply Hr; [by apply (Hcd format vargs (rest_refl _ _))|].
    by apply counted_more. }
  case_match; [by cbn|]. case_match.
  { eapply ends_mono; [apply IH; lia|]. intros r Hr Hc Hret. apply Hr; [|by apply counted_more].
    apply (Hcd _ vargs); [split; [apply suffix_tl|done]|done]. }
  eapply ends_bind; [apply one_directive_ends|]. intros [[[n text] f] v] [Hr Hn].
  eapply ends_mono; [apply IH; destruct Hr as [Hs%suffix_length _]; lia|]. intros r Hcr Hc Hret.
  apply Hcr; [by apply (Hcd f v)|]. apply counted_more; [done|]. apply Hn. by apply (Hcd format vargs (rest_refl _ _)).
Qed.

(** C40: [VG_(debugLog_vprintf)] ends for every format and all arguments: it
    returns, or C leaves its behaviour undefined (an argument is missing or of
    another type, a number does not fit).  What it returns is the number of
    characters it has sent, modulo 2^32, when the format has no ["#"] and no
    field width that is a negative argument. *)
Theorem vprintf_ends_and_counts clo_xml format vargs :
  match VG_debugLog_vprintf clo_xml format vargs with
  | Ok (ret, text) => countable format vargs -> ret = u32 (Z.of_nat (String.length text))
  | Err e => e = Undefined
  end.
Proof.
  pose proof (vprintf_loop_ends (String.length format) clo_xml format vargs 0 EmptyString (le_n _)) as H.
  unfold VG_debugLog_vprintf. destruct (vprintf_loop _ _ _ _ _ _) as [[ret text]|e]; [|exact H].
  intros Hc. by apply H.
Qed.

(** ** The directives of Cachegrind's formats *)

(** The text of a format from its first character on. *)
Definition text_after (format : string) (vargs : va_list) (sent : string) : outcome string :=
  let* (_, text) := vprintf_loop (String.length format) false format vargs 0 sent in Ok text.

(** ** What a format prints

    The text of a format that is plain characters and the directives ["%d"],
    ["%llu"] and ["%s"], one step at a time. *)

Lemma fmt_llu_spec z : 0 <= z < 2 ^ 64 -> fmt_llu z = Ok (nat_text z).
Proof.
  intros Hz. unfold fmt_llu, myvprintf_int64, nat_text, dec_string, text_of.
  rewrite int_add_ok by lia. cbn [obind]. change (90 <? 0 + 1) with false. cbn iota. change ((10 <? 2) || (16 <? 10)) with false. cbn iota.
  change (has_flag 0 VG_MSG_SIGNED) with false. cbn [andb negb defined_when obind]. change (0 <? 0) with false. cbn [andb].
  destruct (Z.eqb_spec z 0) as [->|Hne]; [reflexivity|].
  rewrite (int64_digits_dec 64) by (done || lia || (cbn; lia)). cbn [obind]. by rewrite !app_nil_r.
Qed.

(** ** Formats and their text *)

(** [text] is what [format] prints for [vargs]. *)
Definition prints (format : string) (vargs : va_list) (text : string) : Prop :=
  forall ret sent, exists ret',
    vprintf_loop (String.length format) false format vargs ret sent = Ok (ret', (sent +:+ text)%string).

Lemma prints_sprintf format vargs text : prints format vargs text -> sprintf format vargs = Ok text.
Proof. intros H. unfold sprintf, VG_debugLog_vprintf. by destruct (H 0 EmptyString) as (r & ->). Qed.

Lemma prints_nil vargs : prints EmptyString vargs EmptyString.
Proof. intros ret sent. exists ret. by rewrite string_app_nil_r. Qed.

Lemma prints_char c format vargs text : code c <> 37 -> prints format vargs text ->
  prints (String c format) vargs (String c text).
Proof.
  intros Hc H ret sent. cbn [String.length]. rewrite vprintf_loop_step. apply Z.eqb_neq in Hc as ->. cbn [negb].
  destruct (H (u32 (ret + 1)) (sent +:+ String c EmptyString)%string) as (r & ->). exists r.
  by rewrite string_app_assoc.
Qed.

Lemma prints_directive format vargs n t format' vargs' text :
  hd0 format <> 0 -> hd0 format <> 37 -> one_directive false format vargs = Ok (n, t, format', vargs') ->
  prints format' vargs' text -> prints (String (char_of 37) format) vargs (t +:+ text).
Proof.
  intros H0 H37 Hd H ret sent. cbn [String.length]. rewrite vprintf_loop_step.
  change (negb (code (char_of 37) =? 37)) with false. cbn iota. apply Z.eqb_neq in H0 as ->, H37 as ->.
  rewrite Hd. cbn [obind]. pose proof (one_directive_ends false format vargs) as He. rewrite Hd in He.
  destruct He as [[Hs%suffix_length _] _].
  rewrite (vprintf_loop_fuel _ (String.length format')) by lia.
  destruct (H (u32 (ret + n)) (sent +:+ t)%string) as (r & ->). exists r. by rewrite string_app_assoc.
Qed.

Lemma one_directive_eq format vargs d c format' vargs' :
  parse_directive format vargs = Ok (d, String c format', vargs') -> code c <> 0 ->
  one_directive false format vargs = convert false d (code c) format' vargs'.
Proof.
  intros Hd Hc. unfold one_directive. rewrite Hd. cbn [obind hd0 tl0]. by apply Z.eqb_neq in Hc as ->.
Qed.

Lemma directive_llu v format vargs : 0 <= v < 2 ^ 64 ->
  one_directive false ("llu" +:+ format)%string (A64 v :: vargs) = Ok (Z.of_nat (String.length (nat_text v)), nat_text v, format, vargs).
Proof.
  intros Hv.
  rewrite (one_directive_eq _ _ (mk_directive 0 0 (-1) false true) (char_of 117) format (A64 v :: vargs)) by done.
  transitivity (let* (ret, text) := int64_after 0 EmptyString 0 10 0 false (u64 v) in Ok (ret, text, format, vargs)); [reflexivity|].
  rewrite u64_small by done. unfold int64_after.
  change (myvprintf_int64 0 10 0 false v) with (fmt_llu v). by rewrite fmt_llu_spec.
Qed.

Lemma prints_llu v format vargs text : 0 <= v < 2 ^ 64 -> prints format vargs text ->
  prints ("%llu" +:+ format)%string (A64 v :: vargs) (nat_text v +:+ text)%string.
Proof.
  intros Hv H. apply (prints_directive ("llu" +:+ format)%string (A64 v :: vargs) (Z.of_nat (String.length (nat_text v)))
    (nat_text v) format vargs); [done|done| |done].
  by apply directive_llu.
Qed.

Lemma directive_d v format vargs : - 2 ^ 31 <= v < 2 ^ 31 ->
  one_directive false ("d" +:+ format)%string (A32 v :: vargs) = Ok (Z.of_nat (String.length (int_text v)), int_text v, format, vargs).
Proof.
  intros Hv.
  rewrite (one_directive_eq _ _ (mk_directive 0 0 (-1) false false) (char_of 100) format (A32 v :: vargs)) by done.
  transitivity (let* (ret, text) := int64_after 0 EmptyString VG_MSG_SIGNED 10 0 false (u64 (s32 v)) in Ok (ret, text, format, vargs)); [reflexivity|].
  rewrite s32_small by done. unfold int64_after.
  change (myvprintf_int64 VG_MSG_SIGNED 10 0 false (u64 v)) with (fmt_d v). by rewrite fmt_d_spec by lia.
Qed.

Lemma prints_d v format vargs text : - 2 ^ 31 <= v < 2 ^ 31 -> prints format vargs text ->
  prints ("%d" +:+ format)%string (A32 v :: vargs) (int_text v +:+ text)%string.
Proof.
  intros Hv H. apply (prints_directive ("d" +:+ format)%string (A32 v :: vargs) (Z.of_nat (String.length (int_text v)))
    (int_text v) format vargs); [done|done| |done].
  by apply directive_d.
Qed.

Lemma take_full str : take_string (String.length str) str = str.
Proof. induction str as [|c str IH]; [done|]. cbn. by rewrite IH. Qed.

Lemma map_string_id str : map_string (maybe_toupper false) str = str.
Proof. induction str as [|c str IH]; [done|]. cbn. by rewrite IH. Qed.

Lemma directive_s str format vargs :
  one_directive false ("s" +:+ format)%string (AStr (Some str) :: vargs) = Ok (Z.of_nat (String.length str), str, format, vargs).
Proof.
  rewrite (one_directive_eq _ _ (mk_directive 0 0 (-1) false false) (char_of 115) format (AStr (Some str) :: vargs)) by done.
  transitivity (let '(ret, text) := (Z.of_nat (String.length str), map_string (maybe_toupper false) str) in
    Ok (ret, text, format, vargs)); [reflexivity|].
  by rewrite map_string_id.
Qed.

Lemma prints_s str format vargs text : prints format vargs text ->
  prints ("%s" +:+ format)%string (AStr (Some str) :: vargs) (str +:+ text)%string.
Proof.
  intros H. apply (prints_directive ("s" +:+ format)%string (AStr (Some str) :: vargs) (Z.of_nat (String.length str))
    str format vargs); [done|done| |done].
  by apply directive_s.
Qed.

Lemma prints_newline vargs : prints newline vargs newline.
Proof. apply prints_char; [done|]. apply prints_nil. Qed.
