(* ===== verification/StringsTheory.v ===== *)
(** * Theorems on the string functions

    [VG_(strtok_r)] splits a string at its commas, and [VG_(parse_enum_set)]
    reads the set that a list of names stands for; what [VG_(strlcpy)] writes. *)

From S2P Require Import Prelude LibcBase Arrays Mem Strings Printf.

Lemma VG_strcmp_eqb a b : nul_free a = true -> nul_free b = true -> (0 =? VG_strcmp a b) = String.eqb a b.
Proof.
  intros Ha Hb. destruct (String.eqb_spec a b) as [->|Hne].
  - by rewrite VG_strcmp_refl.
  - apply Z.eqb_neq. intros E. apply Hne. by apply VG_strcmp_eq.
Qed.

Lemma nul_free_app a b : nul_free (a +:+ b) = nul_free a && nul_free b.
Proof. induction a as [|c a IH]; [done|]. rewrite string_cons_app. cbn. by rewrite IH, andb_assoc. Qed.

(** ** Fields *)

(** The pieces between the commas, and those that have a character. *)
Fixpoint pieces (s : string) : list string :=
  match s with
  | EmptyString => [EmptyString]
  | String c s =>
      if code c =? 44 then EmptyString :: pieces s
      else match pieces s with p :: ps => String c p :: ps | [] => [] end
  end.
Definition nonempty (s : string) : bool := match s with EmptyString => false | String _ _ => true end.
Definition fields (s : string) : list string := List.filter nonempty (pieces s).

Lemma one_of_comma c : one_of (code c) "," = (code c =? 44).
Proof.
  change (one_of (code c) ",") with ((44 =? code c) || false). by rewrite orb_false_r, Z.eqb_sym.
Qed.

Lemma strspn_nonneg s accpt : 0 <= VG_strspn s accpt.
Proof. induction s as [|c s IH]; cbn [VG_strspn]; [lia|]. repeat case_test; lia. Qed.

(** The first comma, and what is before it. *)
Lemma strpbrk_comma s : nul_free s = true ->
  match VG_strpbrk s "," with
  | None => pieces s = [s]
  | Some r => exists p rest, s = (p +:+ r)%string /\ r = ("," +:+ rest)%string /\ pieces s = p :: pieces rest
  end.
Proof.
  induction s as [|c s IH]; [done|]. intros [H0 Hs]%nul_free_cons. cbn [VG_strpbrk pieces]. rewrite one_of_comma.
  apply Z.eqb_neq in H0. rewrite H0. destruct (Z.eqb_spec (code c) 44) as [E|E].
  - exists EmptyString, s. change 44 with (code (char_of 44)) in E. apply code_inj in E as ->. done.
  - specialize (IH Hs). destruct (VG_strpbrk s ",") as [r|].
    + destruct IH as (p & rest & -> & -> & ->). by exists (String c p), rest.
    + by rewrite IH.
Qed.

Lemma substring_app p r : String.substring 0 (String.length p) (p +:+ r) = p.
Proof. induction p as [|c p IH]; [by destruct r|]. rewrite string_cons_app. cbn. by rewrite IH. Qed.

Lemma cut_before_app p r : cut_before (p +:+ r) r = p.
Proof. unfold cut_before. rewrite string_length_app, Nat.add_sub. apply substring_app. Qed.

Lemma advance_strspn s : nul_free s = true -> fields (advance s (Z.to_nat (VG_strspn s ","))) = fields s
  /\ hd0 (advance s (Z.to_nat (VG_strspn s ","))) <> 44
  /\ (exists p, s = (p +:+ advance s (Z.to_nat (VG_strspn s ",")))%string).
Proof.
  induction s as [|c s IH]; [split; [done|]; split; [done|]; by exists EmptyString|]. intros [H0 Hs]%nul_free_cons. cbn [VG_strspn]. rewrite one_of_comma.
  apply Z.eqb_neq in H0. rewrite H0. destruct (Z.eqb_spec (code c) 44) as [E|E].
  - rewrite Z2Nat.inj_add by (lia || apply strspn_nonneg). change (Z.to_nat 1) with 1%nat. cbn [Nat.add advance].
    destruct (IH Hs) as (IH1 & IH2 & p & IH3). split_and!; [|done|].
    + rewrite IH1. unfold fields. cbn [pieces]. apply Z.eqb_eq in E. by rewrite E.
    + exists (String c p). rewrite string_cons_app. by rewrite <-IH3.
  - cbn. split_and!; [done|done|by exists EmptyString].
Qed.

(** [VG_(strtok_r)] takes the next field. *)
Lemma strtok_fields s : nul_free s = true ->
  match VG_strtok_r s "," with
  | (None, _) => fields s = []
  | (Some f, rest) => fields s = f :: fields rest /\ nul_free f = true /\ nul_free rest = true
      /\ (String.length rest < String.length s)%nat
  end.
Proof.
  intros Hs. unfold VG_strtok_r. destruct (advance_strspn s Hs) as (Hf & Hd & p & Hp).
  set (t := advance s _) in *. rewrite <-Hf.
  assert (Ht : nul_free t = true) by (rewrite Hp, nul_free_app in Hs; by apply andb_true_iff in Hs as [_ ?]).
  assert (Hlen : (String.length t <= String.length s)%nat) by (rewrite Hp, string_length_app; lia).
  destruct (Z.eqb_spec (hd0 t) 0) as [E0|E0].
  { destruct t as [|c t]; [done|]. apply nul_free_cons in Ht as [? _]. done. }
  pose proof (strpbrk_comma t Ht) as Hb. unfold fields.
  destruct (VG_strpbrk t ",") as [r|].
  - destruct Hb as (q & rest & Et & -> & ->). rewrite Et, cut_before_app. rewrite Et, nul_free_app in Ht.
    apply andb_true_iff in Ht as [Hq Hr]. change ("," +:+ rest)%string with (String (char_of 44) rest) in *. cbn [tl0].
    apply nul_free_cons in Hr as [_ Hr]. rewrite Et, string_length_app in Hlen. cbn [String.length] in Hlen.
    destruct q as [|c q]; [by rewrite Et in Hd|]. cbn [List.filter nonempty]. split_and!; [done|done|done|lia].
  - rewrite Hb. destruct t as [|c t]; [done|]. cbn [List.filter nonempty].
    assert (Ha : forall u, nul_free u = true -> advance u (Z.to_nat (VG_strlen u)) = EmptyString).
    { intros u Hu. rewrite VG_strlen_length, Nat2Z.id by done. clear. by induction u. }
    rewrite Ha by done. cbn in *. split_and!; [done|done|done|lia].
Qed.

(** ** Sets of names *)

(** The bits of the tokens that [P] holds of, the first of which has number [i]. *)
Fixpoint bits (P : string -> bool) (i : Z) (ts : list string) : Z :=
  match ts with
  | [] => 0
  | t :: ts => Z.lor (if P t then Z.shiftl 1 i else 0) (bits P (i + 1) ts)
  end.

Definition count (P : string -> bool) (ts : list string) : Z := Z.of_nat (length (List.filter P ts)).

(** ["-"] holds the place of a name that is none. *)
Definition is_name (t : string) : bool := negb (String.eqb t "-").
Definition is_word (w t : string) : bool := is_name t && String.eqb w t.

Lemma count_cons P t ts : count P (t :: ts) = Z_of_bool (P t) + count P ts.
Proof. unfold count. cbn [List.filter]. destruct (P t); cbn [length Z_of_bool]; lia. Qed.

Lemma testbit_bits P ts : forall i k, 0 <= i -> 0 <= k ->
  Z.testbit (bits P i ts) k = true <-> exists n t, ts !! n = Some t /\ P t = true /\ k = i + Z.of_nat n.
Proof.
  induction ts as [|t ts IH]; intros i k Hi Hk; cbn [bits].
  - rewrite Z.testbit_0_l. split; [done|]. by intros (n & t & H & _).
  - rewrite Z.lor_spec, orb_true_iff, IH by lia. clear IH.
    assert (Hhead : Z.testbit (if P t then Z.shiftl 1 i else 0) k = true <-> P t = true /\ k = i).
    { destruct (P t); [|rewrite Z.testbit_0_l; split; [done|by intros []]]. rewrite Z.shiftl_1_l, Z.pow2_bits_eqb by lia.
      rewrite Z.eqb_eq. split; [done|by intros [_ ->]]. }
    rewrite Hhead. split.
    + intros [[Hp ->]|(n & u & Hn & Hu & ->)]; [exists 0%nat, t|exists (S n), u]; (split_and!; [done|done|lia]).
    + intros ([|n] & u & Hn & Hu & ->); [left|right; exists n, u; split_and!; [done|done|lia]].
      injection Hn as ->. split; [done|lia].
Qed.

Lemma bits_nonneg P ts : forall i, 0 <= i -> 0 <= bits P i ts.
Proof.
  induction ts as [|t ts IH]; intros i Hi; cbn [bits]; [lia|]. apply Z.lor_nonneg. split; [|apply IH; lia].
  destruct (P t); [|lia]. rewrite Z.shiftl_1_l. lia.
Qed.

Lemma bits_zero P ts i : 0 <= i -> bits P i ts = 0 <-> count P ts = 0.
Proof.
  revert i. induction ts as [|t ts IH]; intros i Hi; cbn [bits]; [done|]. rewrite count_cons, Z.lor_eq_0_iff, IH by lia.
  assert (0 <= count P ts) by (unfold count; lia). destruct (P t); cbn [Z_of_bool]; [|lia].
  rewrite Z.shiftl_1_l. split; [|lia]. intros [H0 _]. pose proof (Z.pow_pos_nonneg 2 i). lia.
Qed.

(** *** The loops over the fields *)

Lemma one_token_spec w t s : nul_free w = true -> nul_free t = true -> 0 <= token_nr s < 31 ->
  one_token w t s = Ok (mk_tokens_seen (token_nr s + 1)
    (Z.lor (all_set s) (if is_name t then Z.shiftl 1 (token_nr s) else 0))
    (Z.lor (enum_set s) (if is_word w t then Z.shiftl 1 (token_nr s) else 0))
    (known_words s + Z_of_bool (is_word w t))).
Proof.
  intros Hw Ht Hi. unfold one_token, is_word, is_name, bit. rewrite !VG_strcmp_eqb by done.
  destruct s as [i a e k]. cbn [token_nr] in *.
  assert (E : defined_when ((0 <=? i) && (i <? 31)) = Ok tt).
  { apply defined_when_true, andb_true_iff. split; [apply Z.leb_le|apply Z.ltb_lt]; lia. }
  destruct (String.eqb t "-"); cbn; [by rewrite !Z.lor_0_r, Z.add_0_r|].
  destruct (String.eqb w t); cbn; rewrite ?E; cbn; rewrite ?E; cbn; by rewrite ?Z.lor_0_r, ?Z.add_0_r.
Qed.

Lemma token_loop_spec w (Hw : nul_free w = true) fuel : forall rest s, nul_free rest = true ->
  (String.length rest <= fuel)%nat -> 0 <= token_nr s -> token_nr s + Z.of_nat (length (fields rest)) <= 31 ->
  token_loop fuel w rest s = Ok (mk_tokens_seen (token_nr s + Z.of_nat (length (fields rest)))
    (Z.lor (all_set s) (bits is_name (token_nr s) (fields rest)))
    (Z.lor (enum_set s) (bits (is_word w) (token_nr s) (fields rest)))
    (known_words s + count (is_word w) (fields rest))).
Proof.
  induction fuel as [|fuel IH]; intros rest s Hr Hf Hi Hn; cbn [token_loop]; pose proof (strtok_fields rest Hr) as Hs;
    (destruct (VG_strtok_r rest ",") as [[t|] rest'];
     [|rewrite Hs; destruct s; cbn; by rewrite !Z.lor_0_r, !Z.add_0_r]); destruct Hs as (Hfs & Ht & Hr' & Hlt); [lia|].
  rewrite Hfs in *. cbn [length] in Hn. rewrite one_token_spec by (done || lia). cbn [obind].
  rewrite IH by (cbn [token_nr]; (done || lia)). cbn [token_nr all_set enum_set known_words length bits].
  rewrite count_cons. f_equal. f_equal; [lia|by rewrite Z.lor_assoc|by rewrite Z.lor_assoc|lia].
Qed.

Section Words.
Context (tokens : string) (allow_all : bool) (Htok : nul_free tokens = true).
#[local] Abbreviation ts := (fields tokens).
Hypothesis tokens_few : (length ts <= 31)%nat.

Definition is_all (w : string) : bool := allow_all && String.eqb w "all".
Definition is_none (w : string) : bool := negb (is_all w) && String.eqb w "none".

(** How often a word is known. *)
Definition known (w : string) : Z := Z_of_bool (is_all w || is_none w) + count (is_word w) ts.

Definition sum_of (f : string -> Z) (ws : list string) : Z := foldr (fun w n => f w + n) 0 ws.
Definition lor_of (f : string -> Z) (ws : list string) : Z := foldr (fun w n => Z.lor (f w) n) 0 ws.

(** What the loop has seen after the words [ws]. *)
Definition after (ws : list string) (w0 w1 : words_seen) : Prop :=
  word_nr w1 = word_nr w0 + Z.of_nat (length ws)
  /\ seen_all_kw w1 = seen_all_kw w0 || existsb is_all ws
  /\ seen_none_kw w1 = seen_none_kw w0 || existsb is_none ws
  /\ enum_set (toks w1) = Z.lor (enum_set (toks w0)) (lor_of (fun w => bits (is_word w) 0 ts) ws)
  /\ known_words (toks w1) = known_words (toks w0) + sum_of known ws
  /\ all_set (toks w1) = match ws with [] => all_set (toks w0) | _ => bits is_name 0 ts end.

Lemma one_word_spec w w0 : nul_free w = true -> exists w1, one_word tokens allow_all w w0 = Ok w1 /\ after [w] w0 w1.
Proof.
  intros Hw. unfold one_word. rewrite !VG_strcmp_eqb by done. destruct w0 as [n a b s]. fold (is_all w).
  rewrite token_loop_spec by (cbn; (done || lia)). cbn [obind]. eexists. split; [done|].
  unfold after, known, is_none, sum_of, lor_of. cbn [foldr length existsb].
  destruct (is_all w) eqn:Ea; [|destruct (String.eqb w "none")]; cbn; unfold is_all in Ea;
    rewrite ?Ea; cbn; rewrite ?orb_true_r, ?orb_false_r, ?Z.lor_0_r, ?Z.lor_0_l; split_and!; (done || lia).
Qed.

Lemma word_loop_spec fuel : forall rest w0, nul_free rest = true -> (String.length rest <= fuel)%nat ->
  exists w1, word_loop fuel tokens allow_all rest w0 = Ok w1 /\ after (fields rest) w0 w1.
Proof.
  induction fuel as [|fuel IH]; intros rest w0 Hr Hf; cbn [word_loop]; pose proof (strtok_fields rest Hr) as Hs;
    (destruct (VG_strtok_r rest ",") as [[w|] rest'];
     [|exists w0; rewrite Hs; unfold after; cbn; rewrite !orb_false_r, Z.lor_0_r, !Z.add_0_r; by split_and!]);
    destruct Hs as (Hfs & Hw & Hr' & Hlt); [lia|].
  destruct (one_word_spec w w0 Hw) as (w1 & -> & H1 & H2 & H3 & H4 & H5 & H6). cbn [obind].
  destruct (IH rest' w1 Hr') as (w2 & -> & G1 & G2 & G3 & G4 & G5 & G6); [lia|].
  exists w2. split; [done|]. rewrite Hfs. unfold after. cbn [length existsb lor_of sum_of foldr] in *.
  unfold lor_of, sum_of in *. cbn [foldr existsb length] in *.
  rewrite G1, G2, G3, G4, G5, H1, H2, H3, H4, H5. rewrite !orb_false_r, !orb_assoc, !Z.lor_0_r, !Z.lor_assoc, !Z.add_0_r.
  rewrite G6, H6. split_and!; try done; try lia. by destruct (fields rest').
Qed.

(** *** What is read *)

Definition token_of (w : string) : Prop := In w ts /\ is_name w = true.

(** The words are all "all", or all "none", or all names of [ts]. *)
Definition denotes (ws : list string) (set : Z) : Prop :=
  ws <> [] /\
  ((forall w, In w ws -> is_all w = true) /\ set = bits is_name 0 ts
   \/ (forall w, In w ws -> is_none w = true) /\ set = 0
   \/ (forall w, In w ws -> token_of w) /\ set = bits (fun t => existsb (fun w => is_word w t) ws) 0 ts).

Hypothesis names_differ : List.NoDup (List.filter is_name ts).
Hypothesis none_no_token : ~ In "none" ts.
Hypothesis all_no_token : allow_all = true -> ~ In "all" ts.

Lemma is_word_true w t : is_word w t = true <-> t = w /\ is_name w = true.
Proof.
  unfold is_word. rewrite andb_true_iff. destruct (String.eqb_spec w t) as [->|]; [tauto|]. split; [by intros []|by intros [-> _]].
Qed.

Lemma count_is_word w : 0 <= count (is_word w) ts <= 1 /\ (count (is_word w) ts = 1 <-> token_of w).
Proof.
  unfold token_of. clear none_no_token all_no_token Htok tokens_few. induction ts as [|t l IH].
  - unfold count. cbn. split; [lia|]. split; [lia|by intros []].
  - rewrite count_cons. cbn [List.filter In] in *.
    assert (Hl : List.NoDup (List.filter is_name l)) by (destruct (is_name t); [by inversion names_differ|done]).
    destruct (IH Hl) as [H01 H1]. destruct (is_word w t) eqn:E; cbn [Z_of_bool].
    + apply is_word_true in E as [-> Hname]. rewrite Hname in names_differ.
      assert (count (is_word w) l <> 1).
      { rewrite H1. intros [Hin _]. inversion_clear names_differ as [|? ? Hnin _]. apply Hnin, filter_In. done. }
      split; [lia|]. split; [by auto|lia].
    + split; [lia|]. rewrite Z.add_0_l, H1. split; [tauto|]. intros [[->|?] ?]; [|done].
      assert (is_word w w = true) by (by apply is_word_true). congruence.
Qed.

Lemma is_all_no_token w : is_all w = true -> ~ token_of w.
Proof. unfold is_all. intros [Ha ->%String.eqb_eq]%andb_true_iff [Hin _]. by apply all_no_token. Qed.

Lemma is_none_no_token w : is_none w = true -> ~ token_of w.
Proof. unfold is_none. intros [_ ->%String.eqb_eq]%andb_true_iff [Hin _]. by apply none_no_token. Qed.

(** A word counts once at most, and exactly if it means something. *)
Lemma known_one w : known w <= 1 /\ (known w = 1 <-> is_all w = true \/ is_none w = true \/ token_of w).
Proof.
  unfold known. destruct (count_is_word w) as [H01 H1]. pose proof (is_all_no_token w) as Ha. pose proof (is_none_no_token w) as Hn.
  rewrite <-H1 in *. destruct (is_all w), (is_none w); cbn [orb Z_of_bool]; split; try lia;
    (split; [intros; (tauto || lia)|intros [?|[?|?]]; (done || lia)]).
Qed.

Lemma sum_known ws : sum_of known ws <= Z.of_nat (length ws)
  /\ (sum_of known ws = Z.of_nat (length ws) <-> forall w, In w ws -> known w = 1).
Proof.
  unfold sum_of. induction ws as [|w ws [IH1 IH2]]; [done|]. cbn [foldr length In]. destruct (known_one w) as [Hk _].
  split; [lia|]. split.
  - intros E v [<-|Hv]; [lia|]. apply IH2; [lia|done].
  - intros H. rewrite (H w) by tauto. rewrite (proj2 IH2); [lia|]. auto.
Qed.

Lemma lor_bits ws : lor_of (fun w => bits (is_word w) 0 ts) ws = bits (fun t => existsb (fun w => is_word w t) ws) 0 ts.
Proof.
  generalize 0 ts. intros i l. unfold lor_of. induction ws as [|w ws IH]; cbn [foldr existsb].
  - revert i. induction l as [|t l IHl]; intros i; cbn [bits]; [done|]. by rewrite <-IHl.
  - rewrite IH. clear IH. revert i. induction l as [|t l IHl]; intros i; cbn [bits]; [done|]. rewrite <-IHl.
    apply Z.bits_inj'. intros n Hn. rewrite !Z.lor_spec.
    destruct (is_word w t), (existsb _ ws); cbn [orb]; rewrite ?Z.testbit_0_l;
      repeat match goal with |- context [Z.testbit ?a n] => destruct (Z.testbit a n) end; done.
Qed.

Lemma no_bits ws : bits (fun t => existsb (fun w => is_word w t) ws) 0 ts = 0 <-> forall w, In w ws -> ~ token_of w.
Proof.
  rewrite bits_zero by lia. unfold count, token_of. split.
  - intros H w Hw [Hin Hname]. assert (Hf : In w (List.filter (fun t => existsb (fun w => is_word w t) ws) ts)).
    { apply filter_In. split; [done|]. apply existsb_exists. exists w. split; [done|by apply is_word_true]. }
    destruct (List.filter (fun t => existsb _ ws) ts); [destruct Hf|cbn in H; lia].
  - intros H. destruct (List.filter (fun t => existsb _ ws) ts) as [|t l] eqn:E; [done|exfalso].
    assert (Hin : In t (t :: l)) by (by left). rewrite <-E in Hin. apply filter_In in Hin as [Hin (w & Hw & [-> Hn]%is_word_true)%existsb_exists].
    by apply (H w).
Qed.

Lemma existsb_false {A} (f : A -> bool) l : existsb f l = false <-> forall x, In x l -> f x = false.
Proof.
  split.
  - intros H x Hx. destruct (f x) eqn:E; [|done]. rewrite <-H. symmetry. apply existsb_exists. by exists x.
  - intros H. destruct (existsb f l) eqn:E; [|done]. apply existsb_exists in E as (x & Hx & Hf). by rewrite H in Hf.
Qed.

Lemma denotes_known ws set w : denotes ws set -> In w ws -> known w = 1.
Proof. intros [_ [[H _]|[[H _]|[H _]]]] Hw; apply known_one; auto. Qed.

Lemma VG_parse_enum_set_spec input : nul_free input = true -> VG_strlen tokens <= 1000 -> VG_strlen input <= 1000 ->
  exists r, VG_parse_enum_set tokens allow_all input = Ok r
    /\ match r with Some set => denotes (fields input) set | None => forall set, ~ denotes (fields input) set end.
Proof.
  intros Hin Hlt Hli. unfold VG_parse_enum_set. apply Z.ltb_ge in Hlt, Hli. rewrite Hlt, Hli.
  destruct (word_loop_spec (String.length input) input (mk_words_seen 0 false false (mk_tokens_seen 0 0 0 0)) Hin)
    as (w & -> & H1 & H2 & H3 & H4 & H5 & H6); [lia|]. cbn [obind].
  cbn [word_nr seen_all_kw seen_none_kw toks enum_set known_words orb] in *. rewrite Z.lor_0_l, lor_bits in H4.
  rewrite H1, H2, H3, H4, H5, H6, !Z.add_0_l. set (ws := fields input). set (e := bits (fun t => existsb _ ws) 0 ts).
  destruct (Z.eqb_spec (sum_of known ws) (Z.of_nat (length ws))) as [Ek|Ek]; cbn [negb].
  2: { eexists. split; [done|]. intros set Hd. apply Ek, sum_known. intros v Hv. by eapply denotes_known. }
  assert (Hk : forall v, In v ws -> is_all v = true \/ is_none v = true \/ token_of v)
    by (intros v Hv; apply known_one; exact (proj1 (proj2 (sum_known ws)) Ek v Hv)).
  pose proof (no_bits ws) as He. fold e in He.
  destruct (existsb is_all ws) eqn:Ea.
  { pose proof Ea as (v & Hv & Hva)%existsb_exists. assert (Hne : ws <> []) by (by intros ->).
    destruct (existsb is_none ws || negb (e =? 0)) eqn:Ebad.
    - eexists. split; [done|]. intros set [_ [[H _]|[[H _]|[H _]]]].
      + apply orb_true_iff in Ebad as [(u & Hu & Hun)%existsb_exists|Hb].
        * unfold is_none in Hun. by rewrite (H u Hu) in Hun.
        * apply negb_true_iff, Z.eqb_neq in Hb. apply Hb, He. intros u Hu. by apply is_all_no_token, H.
      + specialize (H v Hv). unfold is_none in H. by rewrite Hva in H.
      + by apply (is_all_no_token v Hva), H.
    - apply orb_false_iff in Ebad as [Hn Hb%negb_false_iff%Z.eqb_eq]. eexists. split; [done|]. split; [done|]. left.
      split; [|by destruct ws]. intros u Hu. destruct (Hk u Hu) as [?|[Hun|Hut]]; [done| |].
      + rewrite existsb_false in Hn. by rewrite Hn in Hun.
      + by apply (proj1 He Hb u) in Hut. }
  rewrite existsb_false in Ea. destruct (existsb is_none ws) eqn:En.
  { pose proof En as (v & Hv & Hvn)%existsb_exists. assert (Hne : ws <> []) by (by intros ->). cbn [orb].
    destruct (Z.eqb_spec e 0) as [E0|E0]; cbn [negb].
    - eexists. split; [done|]. split; [done|]. right. left. split; [|done]. intros u Hu.
      destruct (Hk u Hu) as [Hua|[?|Hut]]; [by rewrite Ea in Hua|done|by apply (proj1 He E0 u) in Hut].
    - eexists. split; [done|]. intros set [_ [[H _]|[[H _]|[H _]]]].
      + specialize (H v Hv). by rewrite Ea in H.
      + apply E0, He. intros u Hu. by apply is_none_no_token, H.
      + by apply (is_none_no_token v Hvn), H. }
  rewrite existsb_false in En. destruct (Z.eqb_spec e 0) as [E0|E0].
  - eexists. split; [done|]. intros set [Hne _]. destruct ws as [|v ws'] eqn:Ews; [done|].
    assert (Hv : In v (v :: ws')) by (apply in_eq).
    destruct (Hk v Hv) as [Hva|[Hvn|Hvt]]; [by rewrite (Ea v Hv) in Hva|by rewrite (En v Hv) in Hvn|].
    by apply (proj1 He E0 v Hv) in Hvt.
  - eexists. split; [done|]. split; [intros E; apply E0, He; intros u Hu; rewrite E in Hu; destruct Hu|]. right. right. split; [|done].
    intros u Hu. destruct (Hk u Hu) as [Hua|[Hun|?]]; [by rewrite Ea in Hua|by rewrite En in Hun|done].
Qed.
End Words.

(** C36: [VG_(parse_enum_set)], for at most 31 tokens of which no two names are
    equal and none is one of the keywords: it ends, splits both strings at
    their commas, and returns a set exactly when tokens and input have at most
    1000 characters each, the input has a word and all its words are "all",
    where that is allowed, or all "none", or all names of the tokens; the set
    has the bits of all names, no bits, or the bits of the names given. The
    token "-" keeps its bit free. *)
Theorem parse_enum_set_spec tokens allow_all input
  (Ht : nul_free tokens = true) (Hi : nul_free input = true)
  (Hfew : (length (fields tokens) <= 31)%nat) (Hdiff : List.NoDup (List.filter is_name (fields tokens)))
  (Hnone : ~ In "none" (fields tokens)) (Hall : allow_all = true -> ~ In "all" (fields tokens)) :
  exists r, VG_parse_enum_set tokens allow_all input = Ok r
    /\ match r with
       | Some set => VG_strlen tokens <= 1000 /\ VG_strlen input <= 1000 /\ denotes tokens allow_all (fields input) set
       | None => 1000 < VG_strlen tokens \/ 1000 < VG_strlen input \/ forall set, ~ denotes tokens allow_all (fields input) set
       end.
Proof.
  destruct (Z.ltb_spec 1000 (VG_strlen tokens)) as [Hlt|Hlt].
  { exists None. unfold VG_parse_enum_set. rewrite (proj2 (Z.ltb_lt _ _) Hlt). auto. }
  destruct (Z.ltb_spec 1000 (VG_strlen input)) as [Hli|Hli].
  { exists None. unfold VG_parse_enum_set. rewrite (proj2 (Z.ltb_ge _ _) Hlt), (proj2 (Z.ltb_lt _ _) Hli). auto. }
  destruct (VG_parse_enum_set_spec tokens allow_all Ht Hfew Hdiff Hnone Hall input Hi Hlt Hli) as ([set|] & -> & H).
  - by exists (Some set).
  - exists None. auto.
Qed.

Lemma parse_enum_set_spec_witness :
  exists r, VG_parse_enum_set "a,-,b" true "b,a" = Ok r
    /\ match r with
       | Some set => VG_strlen "a,-,b" <= 1000 /\ VG_strlen "b,a" <= 1000 /\ denotes "a,-,b" true (fields "b,a") set
       | None => 1000 < VG_strlen "a,-,b" \/ 1000 < VG_strlen "b,a" \/ forall set, ~ denotes "a,-,b" true (fields "b,a") set
       end.
Proof.
  apply (parse_enum_set_spec "a,-,b" true "b,a"); [done|done|vm_compute; lia|..].
  - vm_compute. repeat constructor; cbn; intuition discriminate.
  - vm_compute. intuition discriminate.
  - vm_compute. intuition discriminate.
Defined.

Example parse_enum_set_examples :
  map (fun input => VG_parse_enum_set "a,-,b,c" true input) ["b,,a,"; "all"; "none"; "-"; "all,a"; "d"; ","]
  = [Ok (Some 5); Ok (Some 13); Ok (Some 0); Ok None; Ok None; Ok None; Ok None].
Proof. vm_compute. reflexivity. Qed.

(** ** Copying strings *)

(** A string of [n] characters, and its NUL, at [p]. *)
Definition string_at (m : list Z) (p n : Z) : Prop :=
  0 <= p /\ 0 <= n /\ p + n < size m /\ get m (p + n) = 0 /\ forall i, 0 <= i < n -> get m (p + i) <> 0.

Lemma end_of_spec fuel : forall m p n, string_at m p n -> n <= Z.of_nat fuel -> end_of fuel m p = Ok (p + n).
Proof.
  induction fuel as [|fuel IH]; intros m p n (Hp & Hn & Hs & H0 & Hne) Hf; cbn [end_of]; rewrite rd_get by lia; cbn [obind].
  - assert (n = 0) as -> by lia. rewrite Z.add_0_r in *. by rewrite H0.
  - destruct (Z.eqb_spec (get m p) 0) as [E|E].
    + destruct (decide (n = 0)) as [->|]; [by rewrite Z.add_0_r|]. specialize (Hne 0). rewrite Z.add_0_r in Hne. lia.
    + assert (n <> 0) by (intros ->; rewrite Z.add_0_r in H0; done).
      rewrite (IH m (p + 1) (n - 1)); [f_equal; lia| |lia].
      split_and!; [lia..|by replace (p + 1 + (n - 1)) with (p + n) by lia|].
      intros i Hi. replace (p + 1 + i) with (p + (1 + i)) by lia. apply Hne. lia.
Qed.

Lemma string_at_copied k dst src n m m' : string_at m src n -> copied k dst src m m' ->
  dst + k <= src \/ src + n < dst -> string_at m' src n.
Proof.
  intros (Hp & Hn & Hs & H0 & Hne) [Hz Hg] Hd. split_and!; [lia|lia|lia| |].
  - rewrite Hg, decide_False by lia. done.
  - intros i Hi. rewrite Hg, decide_False by lia. by apply Hne.
Qed.

Lemma strlcpy_loop_spec n lim (Elim : u64 (n - 1) = lim) fuel : forall m dst src count len,
  0 <= dst -> string_at m src len -> 0 <= count -> len <= Z.of_nat fuel -> let k := Z.max 0 (Z.min (lim - count) len) in
  dst + k <= size m -> dst + k <= src \/ src + len < dst ->
  exists m', strlcpy_loop fuel m dst src count n = Ok (m', dst + k, src + k) /\ copied k dst src m m'.
Proof.
  induction fuel as [|fuel IH]; intros m dst src count len Hd Hs Hc Hf k Hk Hdis; cbn [strlcpy_loop]; rewrite Elim;
    assert (Ek : k = Z.max 0 (Z.min (lim - count) len)) by done; clearbody k;
    pose proof Hs as (Hp & Hn & Hz & H0 & Hne);
    (destruct (Z.ltb_spec count lim);
     [|exists m; assert (k = 0) as -> by lia; rewrite !Z.add_0_r; split; [done|apply copied_same]]);
    rewrite rd_get by lia; cbn [obind].
  - assert (len = 0) as -> by lia. assert (k = 0) as -> by lia. rewrite Z.add_0_r in H0. rewrite H0. cbn.
    exists m. rewrite !Z.add_0_r. split; [done|apply copied_same].
  - destruct (Z.eqb_spec (get m src) 0) as [E|E]; cbn [negb].
    { assert (len = 0) as -> by (destruct (decide (len = 0)); [done|specialize (Hne 0); rewrite Z.add_0_r in Hne; lia]).
      assert (k = 0) as -> by lia. exists m. rewrite !Z.add_0_r. split; [done|apply copied_same]. }
    assert (len <> 0) by (intros ->; rewrite Z.add_0_r in H0; done). assert (1 <= k) by lia.
    destruct (copy_byte_copies m dst src) as (m1 & E1 & C1); [split_and!; lia|unfold upward; lia|].
    unfold copy_byte in E1. rewrite rd_get in E1 by lia. cbn [obind] in E1. rewrite E1. cbn [obind].
    assert (Hs1 : string_at m1 (src + 1) (len - 1)).
    { destruct (string_at_copied 1 dst src len m m1 Hs C1) as (? & ? & ? & G0 & Gne); [lia|].
      split_and!; [lia..|by replace (src + 1 + (len - 1)) with (src + len) by lia|].
      intros i Hi. replace (src + 1 + i) with (src + (1 + i)) by lia. apply Gne. lia. }
    destruct (IH m1 (dst + 1) (src + 1) (count + 1) (len - 1)) as (m2 & -> & C2); [lia|done|lia|lia|rewrite (proj1 C1); lia|lia|].
    remember (Z.max 0 (Z.min (lim - (count + 1)) (len - 1))) as k2 eqn:Ek2. assert (k = 1 + k2) as -> by lia. exists m2. rewrite !Z.add_assoc. split; [done|].
    apply (copied_trans 1 k2 dst src _ m1); (done || lia || (unfold upward; lia)).
Qed.

(** How many characters [VG_(strlcpy)] copies: all of them for a size of 0. *)
Definition strlcpy_count (n len : Z) : Z := if n =? 0 then len else Z.min (n - 1) len.

(** C39: What [VG_(strlcpy)] writes, for a source that it does not overwrite. For
    a size [n] of at least 1 it copies at most [n - 1] characters, writes a NUL
    behind them, leaves all else as it was and returns the length of the
    source. For a size of 0, of which nothing should be written, the test
    [m < n - 1] wraps around: the whole string is copied, without its NUL. *)
Theorem strlcpy_writes m dst src len n (Hs : string_at m src len) (Hd : 0 <= dst) (Hn : 0 <= n < 2 ^ 63)
  (Hlen : len < 2 ^ 63) (Hroom : dst + strlcpy_count n len < size m)
  (Hdis : dst + strlcpy_count n len < src \/ src + len < dst) :
  exists m', VG_strlcpy m dst src n = Ok (m', len) /\ size m' = size m
    /\ forall k, 0 <= k -> get m' k =
         if decide (dst <= k < dst + strlcpy_count n len) then get m (src + (k - dst))
         else if decide (0 < n /\ k = dst + strlcpy_count n len) then 0 else get m k.
Proof.
  unfold VG_strlcpy, strlcpy_count in *. set (c := if n =? 0 then len else Z.min (n - 1) len) in *.
  pose proof Hs as (Hp & Hl & Hz & H0 & Hne).
  assert (Elim : exists lim, u64 (n - 1) = lim /\ Z.max 0 (Z.min (lim - 0) len) = c).
  { unfold c. destruct (Z.eqb_spec n 0) as [->|].
    - exists (2 ^ 64 - 1). split; [done|lia].
    - exists (n - 1). split; [apply u64_small; lia|lia]. }
  destruct Elim as (lim & Elim & Ec).
  destruct (strlcpy_loop_spec n lim Elim (length m) m dst src 0 len) as (m1 & -> & C1);
    [done|done|lia|unfold size in *; lia|rewrite Ec; lia|rewrite Ec; lia|].
  rewrite Ec in *. cbn [obind]. pose proof (string_at_copied c dst src len m m1 Hs C1 ltac:(lia)) as Hs1.
  assert (Hc : 0 <= c <= len) by lia. destruct C1 as [Hz1 Hg1].
  assert (Hend : forall m', size m' = size m -> (forall k, src <= k <= src + len -> get m' k = get m1 k) ->
    end_of (length m') m' (src + c) = Ok (src + len)).
  { intros m' Hz' Hsame. destruct Hs1 as (_ & _ & _ & G0 & Gne).
    rewrite (end_of_spec (length m') m' (src + c) (len - c)); [f_equal; lia| |unfold size in *; lia].
    split_and!; [lia..| |].
    - rewrite Hsame by lia. by replace (src + c + (len - c)) with (src + len) by lia.
    - intros i Hi. rewrite Hsame by lia. replace (src + c + i) with (src + (c + i)) by lia. apply Gne. lia. }
  destruct (Z.ltb_spec 0 n) as [Hpos|Hzero].
  - destruct (wr_get m1 (dst + c) 0) as (m2 & -> & Hz2 & Hg2); [lia|]. cbn [obind].
    rewrite Hend; [|lia|intros k Hk; rewrite Hg2, decide_False by lia; done]. cbn [obind].
    exists m2. split_and!; [by replace (src + len - src) with len by lia|lia|]. intros k Hk. rewrite Hg2, Hg1 by done.
    repeat case_decide; (done || lia).
  - cbn [obind]. rewrite Hend; [|lia|done]. cbn [obind].
    exists m1. split_and!; [by replace (src + len - src) with len by lia|lia|]. intros k Hk. rewrite Hg1 by done.
    repeat case_decide; (done || lia).
Qed.

Lemma strlcpy_writes_witness :
  exists m', VG_strlcpy [104; 105; 0; 7; 7; 7] 3 0 2 = Ok (m', 2) /\ size m' = size [104; 105; 0; 7; 7; 7]
    /\ forall k, 0 <= k -> get m' k =
         if decide (3 <= k < 3 + strlcpy_count 2 2) then get [104; 105; 0; 7; 7; 7] (0 + (k - 3))
         else if decide (0 < 2 /\ k = 3 + strlcpy_count 2 2) then 0 else get [104; 105; 0; 7; 7; 7] k.
Proof.
  apply (strlcpy_writes [104; 105; 0; 7; 7; 7] 3 0 2 2); [|lia|lia|lia|done|right; lia].
  split_and!; [lia|lia|done|done|]. intros i Hi. assert (i = 0 \/ i = 1) as [->| ->] by lia; done.
Defined.

(** A size of 0. *)
Example strlcpy_of_size_0 : VG_strlcpy [104; 105; 0; 7; 7; 7] 3 0 0 = Ok ([104; 105; 0; 104; 105; 7], 2).
Proof. done. Qed.

(** ** Numbers *)

Lemma dec_loop_bound fuel : forall s n used limit r u rest, 0 <= n < 2 ^ 64 ->
  (String.length s <= fuel)%nat -> dec_loop s n used limit = Some (r, u, rest) -> 0 <= r < 2 ^ 64.
Proof.
  induction fuel as [|fuel IH]; intros [|c s] n used limit r u rest Hn Hf; cbn [dec_loop String.length] in *; try lia; try congruence.
  destruct (VG_isdigit (code c)); [|congruence]. destruct (limit <? used + 1); [done|].
  apply IH; [apply u64_range|lia].
Qed.

(** What [VG_(parse_UInt)] accepts is a [UInt]. *)
Lemma parse_UInt_bound s n rest : VG_parse_UInt s = Some (n, rest) -> 0 <= n < 2 ^ 32.
Proof.
  unfold VG_parse_UInt. destruct (dec_loop s 0 0 10) as [[[r u] rest']|] eqn:E; [|done].
  apply (dec_loop_bound (String.length s)) in E; [|lia|done]. destruct (u =? 0); [done|].
  destruct (negb _); [done|]. intros [= <- _]. apply u32_range.
Qed.

Example parse_UInt_examples : map VG_parse_UInt ["4294967295,"; "4294967296"; "0000000001"; "00000000001"; "x"]
  = [Some (4294967295, ","); None; Some (1, EmptyString); None; None].
Proof. vm_compute. reflexivity. Qed.

Example parse_Addr_examples : map VG_parse_Addr ["0x1fF,"; "0xffffffffffffffff"; "0x00000000000000001"; "0x"; "12"]
  = [Some (511, ","); Some (2 ^ 64 - 1, EmptyString); None; None; None].
Proof. vm_compute. reflexivity. Qed.
