(* ===== verification/CoreOptions.v ===== *)
(** * Options of the core: coregrind/m_options.c

    The mode in which options are processed, the names of output files
    ([VG_(expand_file_name)]), and which children are traced.  The process and
    its environment are parameters; an option that is refused ends the
    process, its message is left out. *)

From S2P Require Import Prelude Float LibcBase SeqMatch Printf Vprintf.

(** ** The static variables *)

Record opt_state := mk_opt_state {
  clo_mode : Z;
  clo_recognised : bool;
  last_pid : Z;
  seq_nr : Z;
  col : Z;
  printed : string
}.

#[export] Instance opt_state_eta : RecordEta opt_state := fun s =>
  mk_opt_state (clo_mode s) (clo_recognised s) (last_pid s) (seq_nr s) (col s) (printed s).

(** ** Modes *)

Definition cloE : Z := 1.
Definition cloP : Z := 2.
Definition cloD : Z := 4.
Definition cloH : Z := 8.

Definition VG_set_Clo_Mode (mode : Z) : SE opt_state unit :=
  modify (fun s => s <| clo_mode := mode |> <| clo_recognised := false |>).
Definition VG_set_Clo_Recognised : SE opt_state unit := modify (fun s => s <| clo_recognised := true |>).

(** [VG_(printf)]. *)
Definition VG_printf (format : string) (vargs : va_list) : SE opt_state unit :=
  text ← lift (sprintf format vargs);
  modify (fun s => s <| printed := (printed s +:+ text)%string |>).

Definition VG_list_clo (qq_option : string) : SE opt_state unit :=
  let len := s32 (VG_strlen qq_option) in
  c ← gets col;
  (if 80 <? c + len + 1 then VG_printf newline [];; modify (fun s => s <| col := 0 |>) else mret tt);;
  c ← gets col;
  (if c =? 0 then VG_printf "    " [];; modify (fun s => s <| col := c + 4 |>)
   else VG_printf " " [];; modify (fun s => s <| col := c + 1 |>));;
  VG_printf "%s" [AStr (Some qq_option)];;
  modify (fun s => s <| col := col s + len |>).

Definition VG_check_clom (clo_verbosity modes : Z) (arg option : string) (recognised : bool)
  : SE opt_state bool :=
  mode ← gets clo_mode;
  let res := recognised && negb (Z.land modes mode =? 0) in
  let dynamic := cloD =? mode in
  when recognised (
    VG_set_Clo_Recognised;;
    if dynamic && negb res then
      VG_printf ("Cannot change %s option dynamically" +:+ newline) [AStr (Some option)]
    else when (dynamic && (1 <=? clo_verbosity))
      (VG_printf ("Handling new value %s for option %s" +:+ newline) [AStr (Some arg); AStr (Some option)]));;
  when ((cloH =? mode) && negb (Z.land cloD modes =? 0)) (VG_list_clo option);;
  mret res.

(** ** Names of files *)

(** The array [out] of [len] characters, of which the first [j] are written. *)
Record outbuf := mk_outbuf { len : Z; out : string }.

Definition j_of (b : outbuf) : Z := Z.of_nat (String.length (out b)).

(** [ENSURE_THIS_MUCH_SPACE(x)] for an [Int] and for a [SizeT]. *)
Definition ensure_int (x : Z) (b : outbuf) : outcome outbuf :=
  if len b <=? j_of b + x then let* n := int_add (len b) (10 + x) in Ok (mk_outbuf n (out b)) else Ok b.
Definition ensure_size (x : Z) (b : outbuf) : outbuf :=
  if u64 (len b) <=? u64 (j_of b + x) then mk_outbuf (s32 (u64 (len b + u64 (10 + x)))) (out b) else b.

(** [out[j++] = c]. *)
Definition put (c : Ascii.ascii) (b : outbuf) : outcome outbuf :=
  let* _ := defined_when (j_of b <? len b) in
  Ok (mk_outbuf (len b) (out b +:+ String c EmptyString)).

(** [j += VG_(sprintf)(&out[j], ...)], which writes a NUL after the text. *)
Definition put_text (text : string) (b : outbuf) : outcome outbuf :=
  let* _ := defined_when (j_of b + Z.of_nat (String.length text) <? len b) in
  Ok (mk_outbuf (len b) (out b +:+ text)).

Section Process.
Context (pid : Z) (getenv : string -> option string) (startup_wd : option string).

(** The name up to the closing brace, and what follows it. *)
Fixpoint qualname (format : string) : option (string * string) :=
  match format with
  | EmptyString => None
  | String c format =>
      if code c =? 125 then Some (EmptyString, format)
      else match qualname format with Some (name, rest) => Some (String c name, rest) | None => None end
  end.

Definition bad {A} : SE opt_state A := lift (Err (Exited 1)).

(** One round of the loop: the array and the rest of the format. *)
Definition expand_one (c : Ascii.ascii) (format : string) (b : outbuf) : SE opt_state (outbuf * string) :=
  if negb (code c =? 37) then
    b ← lift (let* b := ensure_int 1 b in put c b);
    mret (b, format)
  else match format with
  | String c2 format =>
      if code c2 =? 37 then
        b ← lift (let* b := ensure_int 1 b in put c2 b);
        mret (b, format)
      else if code c2 =? 112 then
        b ← lift (let* b := ensure_int 10 b in let* text := sprintf "%d" [A32 pid] in put_text text b);
        mret (b, format)
      else if code c2 =? 110 then
        modify (fun s => if negb (last_pid s =? pid) then s <| seq_nr := 0 |> else s);;
        modify (fun s => s <| last_pid := pid |>);;
        n ← gets seq_nr;
        n ← lift (int_add n 1);
        modify (fun s => s <| seq_nr := n |>);;
        b ← lift (let* b := ensure_int 10 b in let* text := sprintf "%d" [A32 n] in put_text text b);
        mret (b, format)
      else if code c2 =? 113 then
        match format with
        | String c3 format =>
            if code c3 =? 123 then
              match qualname format with
              | None => bad
              | Some (name, rest) =>
                  match getenv name with
                  | None => bad
                  | Some qual =>
                      b ← lift (let* text := sprintf "%s" [AStr (Some qual)] in
                                put_text text (ensure_size (VG_strlen qual) b));
                      mret (b, rest)
                  end
              end
            else bad
        | EmptyString => bad
        end
      else bad
  | EmptyString => bad
  end.

(** A round takes at least one character of the format. *)
Fixpoint expand_loop (fuel : nat) (format : string) (b : outbuf) : SE opt_state outbuf :=
  match format with
  | EmptyString => mret b
  | String c format =>
      match fuel with
      | O => lift (Err OutOfFuel)
      | S fuel => r ← expand_one c format b; expand_loop fuel (snd r) (fst r)
      end
  end.

(** What follows the loop. *)
Definition expand_end (b : outbuf) : SE opt_state string :=
  b ← lift (let* b := ensure_int 1 b in
            let* _ := defined_when (j_of b <? len b) in Ok b);
  if negb (hd0 (out b) =? 47) then
    match startup_wd with
    | None => bad
    | Some base_dir =>
        let absout := (base_dir +:+ "/" +:+ out b)%string in
        let n := s32 (VG_strlen base_dir + 1 + VG_strlen (out b) + 1) in
        lift (defined_when (Z.of_nat (String.length absout) + 1 <=? n));;
        mret absout
    end
  else mret (out b).

Definition VG_expand_file_name (format : string) : SE opt_state string :=
  match format with
  | EmptyString => bad
  | String c _ =>
      if code c =? 126 then bad
      else
        n ← lift (int_add (VG_strlen format) 1);
        b ← expand_loop (String.length format) format (mk_outbuf n EmptyString);
        expand_end b
  end.

End Process.

(** ** Children *)

Fixpoint consume_commas (c : string) : string :=
  match c with String d rest => if code d =? 44 then consume_commas rest else c | EmptyString => c end.

(** The characters consumed, which [patt] is a copy of, and the rest. *)
Fixpoint consume_field (c : string) : string * string :=
  match c with
  | String d rest =>
      if code d =? 44 then (EmptyString, c)
      else let (patt, last) := consume_field rest in (String d patt, last)
  | EmptyString => (EmptyString, c)
  end.

(** [matches] for any of the names. *)
Fixpoint match_any (patt : string) (names : list string) : outcome bool :=
  match names with
  | [] => Ok false
  | name :: names =>
      let* matches := VG_string_match patt name in
      if (matches : bool) then Ok true else match_any patt names
  end.

(** The loop over the patterns of an option: does one of them match? *)
Fixpoint skip_loop (fuel : nat) (last : string) (names : list string) : outcome bool :=
  match last with
  | EmptyString => Ok false
  | String _ _ =>
      match fuel with
      | O => Err OutOfFuel
      | S fuel =>
          let (patt, last) := consume_field (consume_commas last) in
          match patt with
          | EmptyString => Ok false
          | String _ _ =>
              let* matches := match_any patt names in
              if (matches : bool) then Ok true else skip_loop fuel last names
          end
      end
  end.

Definition skips (option : option string) (names : list string) : outcome bool :=
  match option with None => Ok false | Some last => skip_loop (String.length last) last names end.

Definition VG_should_we_trace_this_child (clo_trace_children : bool)
  (clo_trace_children_skip clo_trace_children_skip_by_arg : option string)
  (child_exe_name : option string) (child_argv : option (list string)) : outcome bool :=
  match child_exe_name with
  | None | Some EmptyString => Ok clo_trace_children
  | Some name =>
      if negb clo_trace_children then Ok false
      else
        let* skip := skips clo_trace_children_skip [name] in
        if (skip : bool) then Ok false
        else
          let* skip := match child_argv with
                       | None => Ok false
                       | Some argv => skips clo_trace_children_skip_by_arg argv
                       end in
          Ok (negb skip)
  end.
