(* ===== verification/OptionsTheory.v ===== *)
(** * Theorems on the options of the core

    [VG_(expand_file_name)] against a grammar of formats, and
    [VG_(should_we_trace_this_child)] against the patterns of its options. *)

From S2P Require Import Prelude Float LibcBase Arrays Mem Strings SeqMatch Printf Vprintf VprintfTheory StringsTheory CoreOptions.

(** ** Names of files *)

Section Expansion.
Context (pid : Z) (getenv : string -> option string).

(** What a format stands for, with the number of ["%n"]s the process has seen
    before and after. *)
Inductive expands : Z -> string -> string -> Z -> Prop :=
| expands_end n : expands n EmptyString EmptyString n
| expands_char n c f o n' : code c <> 37 -> expands n f o n' -> expands n (String c f) (String c o) n'
| expands_percent n f o n' : expands n f o n' -> expands n ("%%" +:+ f) ("%" +:+ o) n'
| expands_pid n f o n' : expands n f o n' -> expands n ("%p" +:+ f) (int_text pid +:+ o) n'
| expands_seq n f o n' :
    expands (n + 1) f o n' -> expands n ("%n" +:+ f) (int_text (n + 1) +:+ o) n'
| expands_env n name v f o n' : no_char 125 name = true -> getenv name = Some v ->
    expands n f o n' -> expands n ("%q{" +:+ name +:+ "}" +:+ f) (v +:+ o) n'.

(** The next number of this process, and the state when the number is [n']. *)
Definition seq_of (s : opt_state) : Z := if last_pid s =? pid then seq_nr s else 0.
Definition at_seq (s : opt_state) (n' : Z) : opt_state :=
  if n' =? seq_of s then s else s <| last_pid := pid |> <| seq_nr := n' |>.

Lemma expands_mono n f o n' : expands n f o n' -> n <= n' <= n + Z.of_nat (String.length f).
Proof. induction 1; cbn [String.length String.append] in *; rewrite ?string_length_app in *; cbn [String.length] in *; lia. Qed.

Lemma qualname_spec f :
  match qualname f with
  | Some (name, rest) => f = (name +:+ "}" +:+ rest)%string /\ no_char 125 name = true
  | None => no_char 125 f = true
  end.
Proof.
  induction f as [|c f IH]; [done|]. cbn. destruct (Z.eqb_spec (code c) 125) as [E|E].
  - split; [|done]. change 125 with (code (char_of 125)) in E. apply code_inj in E as ->. done.
  - destruct (qualname f) as [[name rest]|]; cbn.
    + destruct IH as [-> Hn]. split; [done|]. apply Z.eqb_neq in E. by rewrite E.
    + exact IH.
Qed.

(** ** The array *)

(** The position is inside the array or just after it, and the array can grow
    as long as there is something left to expand. *)
Context (M : Z).
Hypothesis M_nonneg : 0 <= M.
Hypothesis getenv_small : forall name v, getenv name = Some v ->
  nul_free v = true /\ Z.of_nat (String.length v) <= M.
Hypothesis pid_range : 0 <= pid < 2 ^ 31.

Definition buf_ok (rest : nat) (b : outbuf) : Prop :=
  j_of b <= len b /\ len b + (M + 20) * (Z.of_nat rest + 1) < 2 ^ 31.

Lemma buf_ok_less rest rest' b : (rest' <= rest)%nat -> buf_ok rest b -> buf_ok rest' b.
Proof. intros Hr [Hj Hl]. split; [done|]. nia. Qed.

Lemma ensure_int_ok rest x b : 1 <= x <= 10 -> buf_ok (S rest) b ->
  exists b', ensure_int x b = Ok b' /\ out b' = out b /\ j_of b + x < len b' /\ buf_ok rest b'.
Proof.
  intros Hx [Hj Hl]. unfold ensure_int. assert (0 <= j_of b) by (unfold j_of; lia).
  destruct (Z.leb_spec (len b) (j_of b + x)).
  - rewrite int_add_ok by nia. cbn. eexists. split_and!; [done|done|cbn; lia|].
    split; cbn; [unfold j_of in *; cbn; lia|nia].
  - exists b. split_and!; [done|done|lia|]. apply (buf_ok_less (S rest)); [lia|done].
Qed.

Lemma ensure_size_ok rest x b : 0 <= x <= M -> buf_ok (S rest) b ->
  exists b', ensure_size x b = b' /\ out b' = out b /\ j_of b + x < len b' /\ buf_ok rest b'.
Proof.
  intros Hx [Hj Hl]. unfold ensure_size. assert (0 <= j_of b) by (unfold j_of; lia).
  rewrite (u64_small (len b)), (u64_small (j_of b + x)) by nia.
  destruct (Z.leb_spec (len b) (j_of b + x)).
  - rewrite (u64_small (10 + x)), u64_small, s32_small by nia. eexists. split_and!; [done|done|cbn; lia|].
    split; cbn; [unfold j_of in *; cbn; lia|nia].
  - exists b. split_and!; [done|done|lia|]. apply (buf_ok_less (S rest)); [lia|done].
Qed.

(** Text at the end of the array. *)
Lemma put_text_ok rest text b b' : out b' = out b -> j_of b + Z.of_nat (String.length text) < len b' ->
  buf_ok rest b' ->
  exists b2, put_text text b' = Ok b2 /\ out b2 = (out b +:+ text)%string /\ buf_ok rest b2.
Proof.
  intros Ho Hlt [Hj Hl]. unfold put_text. assert (Hj' : j_of b' = j_of b) by (unfold j_of; by rewrite Ho).
  rewrite defined_when_true by (apply Z.ltb_lt; lia). cbn. eexists. split_and!; [done|by cbn; rewrite Ho|].
  split; [|done]. unfold j_of in *. cbn. rewrite string_length_app. lia.
Qed.

Lemma put_ok rest c b b' : out b' = out b -> j_of b + 1 < len b' -> buf_ok rest b' ->
  exists b2, put c b' = Ok b2 /\ out b2 = (out b +:+ String c EmptyString)%string /\ buf_ok rest b2.
Proof.
  intros Ho Hlt Hb. destruct (put_text_ok rest (String c EmptyString) b b' Ho) as (b2 & H & H2); [cbn; lia|done|].
  exists b2. split; [|done]. unfold put. unfold put_text in H.
  assert (Hj' : j_of b' = j_of b) by (unfold j_of; by rewrite Ho).
  rewrite defined_when_true in * by (apply Z.ltb_lt; cbn; lia). exact H.
Qed.

Lemma dec_list_length fuel p (k : nat) : 0 <= p < 10 ^ Z.of_nat k -> (length (dec_list fuel p) <= k)%nat.
Proof.
  revert p k. induction fuel as [|fuel IH]; intros p k Hp; cbn [dec_list]; [cbn; lia|].
  destruct (Z.ltb_spec 0 p); [|cbn; lia]. rewrite length_app. cbn [length].
  destruct k as [|k]; [cbn in Hp; lia|]. rewrite Nat2Z.inj_succ, Z.pow_succ_r in Hp by lia.
  specialize (IH (p / 10) k). cut (length (dec_list fuel (p / 10)) <= k)%nat; [lia|]. apply IH.
  split; [apply Z.div_pos; lia|apply Z.div_lt_upper_bound; lia].
Qed.

Lemma length_int_text n : 0 <= n < 2 ^ 31 -> Z.of_nat (String.length (int_text n)) <= 10.
Proof.
  intros Hn. unfold int_text, text_of. rewrite length_string_of_list. destruct (Z.ltb_spec n 0); [lia|]. cbn [app].
  rewrite Z.abs_eq by lia. unfold dec_string. destruct (Z.eqb_spec n 0); [cbn; lia|].
  pose proof (dec_list_length 64 n 10). lia.
Qed.

Lemma sprintf_d n : 0 <= n < 2 ^ 31 -> sprintf "%d" [A32 n] = Ok (int_text n).
Proof.
  intros Hn. rewrite <-(string_app_nil_r (int_text n)). apply prints_sprintf.
  apply (prints_d n EmptyString); [lia|apply prints_nil].
Qed.

Lemma sprintf_s v : sprintf "%s" [AStr (Some v)] = Ok v.
Proof.
  rewrite <-(string_app_nil_r v) at 2. apply prints_sprintf. apply (prints_s v EmptyString), prints_nil.
Qed.

(** A number at the end of the array. *)
Lemma number_ok rest n b : 0 <= n < 2 ^ 31 -> buf_ok (S rest) b ->
  exists b', (let* b := ensure_int 10 b in let* text := sprintf "%d" [A32 n] in put_text text b) = Ok b'
    /\ out b' = (out b +:+ int_text n)%string /\ buf_ok rest b'.
Proof.
  intros Hn Hb. destruct (ensure_int_ok rest 10 b) as (b1 & -> & Ho & Hlt & Hb1); [lia|done|]. cbn [obind].
  rewrite sprintf_d by done. cbn [obind]. apply put_text_ok; [done| |done].
  pose proof (length_int_text n Hn). lia.
Qed.

Lemma char_ok rest c b : buf_ok (S rest) b ->
  exists b', (let* b := ensure_int 1 b in put c b) = Ok b'
    /\ out b' = (out b +:+ String c EmptyString)%string /\ buf_ok rest b'.
Proof.
  intros Hb. destruct (ensure_int_ok rest 1 b) as (b1 & -> & Ho & Hlt & Hb1); [lia|done|]. cbn [obind].
  by apply put_ok.
Qed.

(** ** One round *)

Local Abbreviation one := (expand_one pid getenv).

(** The round puts [text] and leaves [f] and the state [s']. *)
Definition round (m : SE opt_state (outbuf * string)) (s : opt_state) (rest : nat) (b : outbuf)
    (text f : string) (s' : opt_state) : Prop :=
  exists b', m s = Ok ((b', f), s') /\ out b' = (out b +:+ text)%string /\ buf_ok rest b'.

Lemma round_lift (m : outcome outbuf) s rest b text f b' :
  m = Ok b' -> out b' = (out b +:+ text)%string -> buf_ok rest b' ->
  round (b ← lift m; mret (b, f)) s rest b text f s.
Proof. intros -> Ho Hb. by exists b'. Qed.

Lemma round_char c f b s rest : code c <> 37 -> buf_ok (S rest) b ->
  round (one c f b) s rest b (String c EmptyString) f s.
Proof.
  intros Hc Hb. destruct (char_ok rest c b Hb) as (b' & E & Ho & Hb'). unfold expand_one.
  apply Z.eqb_neq in Hc. rewrite Hc. cbn [negb]. by eapply round_lift.
Qed.

Local Abbreviation percent := (char_of 37).

Lemma round_percent f b s rest : buf_ok (S rest) b ->
  round (one percent (String percent f) b) s rest b "%" f s.
Proof.
  intros Hb. destruct (char_ok rest percent b Hb) as (b' & E & Ho & Hb').
  exact (round_lift _ _ _ _ _ _ _ E Ho Hb').
Qed.

Lemma round_pid f b s rest : buf_ok (S rest) b ->
  round (one percent (String (char_of 112) f) b) s rest b (int_text pid) f s.
Proof.
  intros Hb. destruct (number_ok rest pid b pid_range Hb) as (b' & E & Ho & Hb').
  exact (round_lift _ _ _ _ _ _ _ E Ho Hb').
Qed.

Lemma round_seq f b s rest : buf_ok (S rest) b -> 0 <= seq_of s -> seq_of s + 1 < 2 ^ 31 ->
  round (one percent (String (char_of 110) f) b) s rest b (int_text (seq_of s + 1)) f
    (s <| last_pid := pid |> <| seq_nr := seq_of s + 1 |>).
Proof.
  intros Hb Hlo Hn.
  destruct (number_ok rest (seq_of s + 1) b) as (b' & E & Ho & Hb'); [lia|done|].
  exists b'. split; [|done]. unfold expand_one. change (code percent) with 37. change (code (char_of 110)) with 110.
  cbn [negb Z.eqb Pos.eqb]. unfold mbind at 1, SE_bind at 1, modify at 1.
  assert (Hs : seq_nr (if negb (last_pid s =? pid) then s <| seq_nr := 0 |> else s) = seq_of s).
  { unfold seq_of. by destruct (last_pid s =? pid). }
  unfold mbind, SE_bind, modify, gets, lift. cbn [set_field seq_nr]. cbn in Hs |- *. rewrite Hs.
  rewrite int_add_ok by lia. cbn [obind]. cbn in E. rewrite E. cbn. unfold mret, SE_ret. do 2 f_equal.
  by destruct (negb (last_pid s =? pid)), s.
Qed.

Lemma round_env name v f b s rest : no_char 125 name = true -> getenv name = Some v -> buf_ok (S rest) b ->
  round (one percent (String (char_of 113) (String (char_of 123) (name +:+ "}" +:+ f))) b) s rest b v f s.
Proof.
  intros Hname Hv Hb. destruct (getenv_small name v Hv) as [Hnul HM].
  destruct (ensure_size_ok rest (VG_strlen v) b) as (b1 & E1 & Ho1 & Hlt & Hb1); [rewrite VG_strlen_length by done; lia|done|].
  rewrite VG_strlen_length in Hlt by done.
  destruct (put_text_ok rest v b b1 Ho1 Hlt Hb1) as (b2 & E2 & Ho2 & Hb2).
  assert (Hq : qualname (name +:+ "}" +:+ f) = Some (name, f)).
  { clear - Hname. induction name as [|c name IH]; [done|]. cbn in Hname. apply andb_true_iff in Hname as [Hc Hn].
    rewrite string_cons_app. cbn [qualname]. apply negb_true_iff in Hc. by rewrite Hc, (IH Hn). }
  exists b2. split; [|done]. unfold expand_one. change (code percent) with 37. change (code (char_of 113)) with 113.
  change (code (char_of 123)) with 123. cbn [negb Z.eqb Pos.eqb]. rewrite Hq, Hv, sprintf_s. cbn [obind].
  unfold mbind, SE_bind, lift. by rewrite E1, E2.
Qed.

(** ** The loop *)

(** The format is expanded behind what the array has. *)
Definition expanded (format : string) (b : outbuf) (s : opt_state) (r : outcome (outbuf * opt_state))
    (o : string) (n' : Z) : Prop :=
  exists b', r = Ok (b', at_seq s n') /\ out b' = (out b +:+ o)%string /\ buf_ok 0 b'.

Definition loop_ok (format : string) (b : outbuf) (s : opt_state) (fuel : nat) : Prop :=
  buf_ok (String.length format) b /\ 0 <= seq_of s /\ seq_of s + Z.of_nat (String.length format) < 2 ^ 31
  /\ (String.length format <= fuel)%nat.

Local Abbreviation loop := (expand_loop pid getenv).

Lemma at_seq_same s : at_seq s (seq_of s) = s.
Proof. unfold at_seq. by rewrite Z.eqb_refl. Qed.

Lemma seq_of_next s n : seq_of (s <| last_pid := pid |> <| seq_nr := n |>) = n.
Proof. unfold seq_of. cbn. by rewrite Z.eqb_refl. Qed.

Lemma at_seq_next s n' : seq_of s + 1 <= n' ->
  at_seq (s <| last_pid := pid |> <| seq_nr := seq_of s + 1 |>) n' = at_seq s n'.
Proof.
  intros Hn. unfold at_seq. rewrite seq_of_next. destruct (Z.eqb_spec n' (seq_of s)); [lia|].
  by destruct (Z.eqb_spec n' (seq_of s + 1)) as [->|].
Qed.

(** A round, then the rest. *)
Lemma loop_step c f0 f b s fuel text s1 :
  round (one c f0 b) s (String.length f) b text f s1 ->
  exists b1, loop (S fuel) (String c f0) b s = loop fuel f b1 s1
    /\ out b1 = (out b +:+ text)%string /\ buf_ok (String.length f) b1.
Proof. intros (b1 & E & H). exists b1. split; [|done]. cbn [expand_loop]. unfold mbind, SE_bind. by rewrite E. Qed.

Lemma expanded_step f b1 b s1 s r text o n' format :
  out b1 = (out b +:+ text)%string -> at_seq s1 n' = at_seq s n' ->
  expanded f b1 s1 r o n' -> expanded format b s r (text +:+ o) n'.
Proof.
  intros Ho Hs (b' & -> & Ho' & Hb'). exists b'. rewrite Hs. split_and!; [done| |done].
  by rewrite Ho', Ho, string_app_assoc.
Qed.

Lemma loop_less c f0 f b s fuel : (String.length f <= String.length f0)%nat -> loop_ok (String c f0) b s (S fuel) ->
  buf_ok (S (String.length f)) b /\ forall b1, buf_ok (String.length f) b1 -> loop_ok f b1 s fuel.
Proof.
  intros Hf (Hb & Hlo & Hn & Hfuel). cbn [String.length] in *. split.
  - apply (buf_ok_less (S (String.length f0))); [lia|done].
  - intros b1 Hb1. split_and!; try done; lia.
Qed.

(** One step of the derivation. *)
Lemma complete_step c f0 f b s fuel text o n' :
  (String.length f <= String.length f0)%nat -> loop_ok (String c f0) b s fuel ->
  (forall rest, rest = String.length f -> buf_ok (S rest) b -> round (one c f0 b) s rest b text f s) ->
  (forall b1 fuel, loop_ok f b1 s fuel -> expanded f b1 s (loop fuel f b1 s) o n') ->
  expanded (String c f0) b s (loop fuel (String c f0) b s) (text +:+ o) n'.
Proof.
  intros Hf Hok Hround IH. destruct fuel as [|fuel]; [destruct Hok as (_ & _ & _ & H); cbn in H; lia|].
  destruct (loop_less _ _ _ _ _ _ Hf Hok) as [Hb Hok1].
  destruct (loop_step _ _ _ _ _ fuel _ _ (Hround _ eq_refl Hb)) as (b1 & -> & Ho & Hb1).
  eapply expanded_step; [exact Ho|done|]. by apply IH, Hok1.
Qed.

Lemma loop_complete n f o n' : expands n f o n' ->
  forall s b fuel, n = seq_of s -> loop_ok f b s fuel -> expanded f b s (loop fuel f b s) o n'.
Proof.
  induction 1 as [n|n c f o n' Hc _ IH|n f o n' _ IH|n f o n' _ IH|n f o n' Hmono IH|n name v f o n' Hname Hv _ IH];
    intros s b fuel Hn Hok.
  - exists b. rewrite Hn, at_seq_same. split_and!; [by destruct fuel|by rewrite string_app_nil_r|apply Hok].
  - apply (complete_step c f f b s fuel (String c EmptyString)); [done|done| |by auto].
    intros rest _ Hb. by apply round_char.
  - apply (complete_step percent _ f b s fuel "%"); [cbn; lia|done| |by auto]. intros rest _ Hb. by apply round_percent.
  - apply (complete_step percent _ f b s fuel (int_text pid)); [cbn; lia|done| |by auto].
    intros rest _ Hb. by apply round_pid.
  - subst n. change (("%n" +:+ f)%string) with (String percent (String (char_of 110) f)) in *.
    destruct fuel as [|fuel]; [destruct Hok as (_ & _ & _ & H); cbn in H; lia|].
    assert (Hf : (String.length f <= String.length (String (char_of 110) f))%nat) by (cbn; lia).
    destruct (loop_less percent _ f b s fuel Hf Hok) as [Hb _]. destruct Hok as (_ & Hlo & Hn' & Hfuel).
    cbn [String.length] in *.
    destruct (loop_step percent (String (char_of 110) f) f b s fuel _ _ (round_seq f b s _ Hb Hlo ltac:(lia)))
      as (b1 & E & Ho & Hb1).
    rewrite E.
    eapply expanded_step; [exact Ho| |apply IH].
    + apply at_seq_next. by destruct (expands_mono _ _ _ _ Hmono).
    + by rewrite seq_of_next.
    + split_and!; [done|rewrite seq_of_next; lia|rewrite seq_of_next; lia|lia].
  - apply (complete_step percent (String (char_of 113) (String (char_of 123) (name +:+ "}" +:+ f))) f b s fuel v);
      [cbn; rewrite !string_length_app; cbn; lia|done| |by auto].
    intros rest _ Hb. by apply round_env.
Qed.

(** Formats outside the grammar end the process. *)
Definition decided (format : string) (s : opt_state) (r : outcome (outbuf * opt_state)) : Prop :=
  r = Err (Exited 1) \/ exists o n', expands (seq_of s) format o n'.

(** A round of the loop follows a rule of the grammar. *)
Definition good_round (c : Ascii.ascii) (f0 : string) (b : outbuf) (s : opt_state) : Prop :=
  exists text f s1, (String.length f <= String.length f0)%nat
    /\ round (one c f0 b) s (String.length f) b text f s1
    /\ seq_of s <= seq_of s1 <= seq_of s + 1
    /\ forall o n', expands (seq_of s1) f o n' -> exists o', expands (seq_of s) (String c f0) o' n'.

Lemma good_same c f0 b s text f : (String.length f <= String.length f0)%nat ->
  round (one c f0 b) s (String.length f) b text f s ->
  (forall o n', expands (seq_of s) f o n' -> expands (seq_of s) (String c f0) (text +:+ o) n') ->
  good_round c f0 b s.
Proof. intros Hf Hr Hex. exists text, f, s. split_and!; try done; try lia. intros o n' Ho. eauto. Qed.

Ltac is_char E c := change c with (code (char_of c)) in E; apply code_inj in E as ->.

Lemma percent_q f b s : loop_ok (String percent (String (char_of 113) f)) b s (S (S (String.length f))) ->
  good_round percent (String (char_of 113) f) b s \/ one percent (String (char_of 113) f) b s = Err (Exited 1).
Proof.
  intros (Hb & _). destruct f as [|c3 f]; [by right|].
  destruct (Z.eqb_spec (code c3) 123) as [E|E].
  2: { right. unfold expand_one. change (code percent) with 37. change (code (char_of 113)) with 113.
       cbn [negb Z.eqb Pos.eqb]. apply Z.eqb_neq in E. by rewrite E. }
  is_char E 123. pose proof (qualname_spec f) as Hq. destruct (qualname f) as [[name rest]|] eqn:Eq.
  2: { right. unfold expand_one. change (code percent) with 37. change (code (char_of 113)) with 113.
       change (code (char_of 123)) with 123. cbn [negb Z.eqb Pos.eqb]. by rewrite Eq. }
  destruct Hq as [-> Hname]. destruct (getenv name) as [v|] eqn:Hv.
  2: { right. unfold expand_one. change (code percent) with 37. change (code (char_of 113)) with 113.
       change (code (char_of 123)) with 123. cbn [negb Z.eqb Pos.eqb]. by rewrite Eq, Hv. }
  left. apply (good_same _ _ b s v rest).
  - cbn [String.length]. rewrite !string_length_app. lia.
  - apply round_env; [done|done|]. eapply buf_ok_less; [|exact Hb]. cbn [String.length].
    rewrite !string_length_app. lia.
  - intros o n' Ho. by apply expands_env.
Qed.

Lemma any_round c f0 b s fuel : loop_ok (String c f0) b s (S fuel) ->
  good_round c f0 b s \/ one c f0 b s = Err (Exited 1).
Proof.
  intros (Hb & Hlo & Hn & Hfuel). destruct (Z.eqb_spec (code c) 37) as [Ec|Ec].
  2: { left. apply (good_same c f0 b s (String c EmptyString) f0); [done|by apply round_char|].
       intros o n' Ho. by apply expands_char. }
  is_char Ec 37. destruct f0 as [|c2 f]; [by right|].
  assert (Hb2 : buf_ok (S (String.length f)) b) by (eapply buf_ok_less; [|exact Hb]; cbn; lia).
  assert (Hf : (String.length f <= String.length (String c2 f))%nat) by (cbn; lia).
  destruct (Z.eqb_spec (code c2) 37) as [E|E37].
  { is_char E 37. left. apply (good_same percent _ b s "%" f); [done|by apply round_percent|].
    intros o n' Ho. by apply expands_percent. }
  destruct (Z.eqb_spec (code c2) 112) as [E|E112].
  { is_char E 112. left. apply (good_same percent _ b s (int_text pid) f); [done|by apply round_pid|].
    intros o n' Ho. by apply expands_pid. }
  destruct (Z.eqb_spec (code c2) 110) as [E|E110].
  { is_char E 110. cbn [String.length] in Hn. left. exists (int_text (seq_of s + 1)), f.
    exists (s <| last_pid := pid |> <| seq_nr := seq_of s + 1 |>). rewrite seq_of_next.
    split_and!; [done|apply round_seq; [done|done|lia]|lia|lia|].
    intros o n' Ho. exists (int_text (seq_of s + 1) +:+ o)%string. by apply expands_seq. }
  destruct (Z.eqb_spec (code c2) 113) as [E|E113].
  { is_char E 113. apply percent_q. split_and!; [done|done|cbn in Hn |- *; lia|done]. }
  right. unfold expand_one. change (code percent) with 37. cbn [negb Z.eqb Pos.eqb].
  apply Z.eqb_neq in E37, E112, E110, E113. by rewrite E37, E112, E110, E113.
Qed.

Lemma loop_sound fuel : forall format b s, loop_ok format b s fuel -> decided format s (loop fuel format b s).
Proof.
  induction fuel as [|fuel IH]; intros [|c f0] b s Hok.
  1, 3: right; exists EmptyString, (seq_of s); constructor.
  { destruct Hok as (_ & _ & _ & H). cbn in H. lia. }
  destruct (any_round _ _ _ _ _ Hok) as [(text & f & s1 & Hf & Hr & Hseq & Hex)|Hbad].
  2: { left. cbn [expand_loop]. unfold mbind, SE_bind. by rewrite Hbad. }
  destruct (loop_step _ _ _ _ _ fuel _ _ Hr) as (b1 & E & _ & Hb1).
  destruct Hok as (_ & Hlo & Hn & Hfuel). cbn [String.length] in Hn, Hfuel.
  destruct (IH f b1 s1) as [Herr|(o & n' & Ho)]; [split_and!; [done|lia..]|left; congruence|right].
  destruct (Hex o n' Ho) as [o' Ho']. by exists o', n'.
Qed.

(** ** Path names *)

(** The path that a format names from the working directory [wd]. *)
Definition path_of (wd : option string) (n : Z) (format path : string) (n' : Z) : Prop :=
  format <> EmptyString /\ hd0 format <> 126 /\
  exists o, expands n format o n'
    /\ if hd0 o =? 47 then path = o else exists d, wd = Some d /\ path = (d +:+ "/" +:+ o)%string.

Lemma nul_free_text_of ds : nul_free (text_of ds) = forallb (fun c => negb (code c =? 0)) ds.
Proof. induction ds as [|c ds IH]; [done|]. unfold text_of in *. cbn. by rewrite IH. Qed.

Lemma nul_free_int_text z : nul_free (int_text z) = true.
Proof.
  unfold int_text. rewrite nul_free_text_of, forallb_app. apply andb_true_iff. split; [by destruct (z <? 0)|].
  unfold dec_string. destruct (Z.abs z =? 0); [done|]. generalize 64%nat (Z.abs z). intros fuel.
  induction fuel as [|fuel IH]; intros p; cbn [dec_list]; [done|]. destruct (0 <? p); [|done].
  rewrite forallb_app, IH. cbn [forallb].
  rewrite digit_char_code by (apply Z.mod_pos_bound; lia).
  destruct (Z.eqb_spec (48 + p mod 10) 0); [pose proof (Z.mod_pos_bound p 10 ltac:(lia)); lia|done].
Qed.

Lemma expands_nul_free n f o n' : expands n f o n' -> nul_free f = true -> nul_free o = true.
Proof.
  induction 1 as [n|n c f o n' Hc _ IH|n f o n' _ IH|n f o n' _ IH|n f o n' _ IH|n name v f o n' Hname Hv _ IH]; intros Hf.
  - done.
  - apply nul_free_cons in Hf as [H0 Hf]. cbn. rewrite IH by done. apply Z.eqb_neq in H0. by rewrite H0.
  - rewrite nul_free_app in *. apply andb_true_iff in Hf as [_ Hf]. by rewrite IH.
  - rewrite nul_free_app in *. apply andb_true_iff in Hf as [_ Hf]. by rewrite nul_free_int_text, IH.
  - rewrite nul_free_app in *. apply andb_true_iff in Hf as [_ Hf]. by rewrite nul_free_int_text, IH.
  - rewrite !nul_free_app in *. repeat apply andb_true_iff in Hf as [_ Hf].
    destruct (getenv_small _ _ Hv) as [-> _]. by rewrite IH.
Qed.

(** The end of the function, after the loop. *)
Lemma finish_ok wd b : buf_ok 0 b -> nul_free (out b) = true ->
  match wd with Some d => nul_free d = true /\ Z.of_nat (String.length d) <= M | None => True end ->
  forall s : opt_state, expand_end wd b s =
    if hd0 (out b) =? 47 then Ok (out b, s)
    else match wd with Some d => Ok ((d +:+ "/" +:+ out b)%string, s) | None => Err (Exited 1) end.
Proof.
  intros [Hj Hl] Ho Hwd s. unfold expand_end.
  assert (E : exists b', ensure_int 1 b = Ok b' /\ out b' = out b /\ j_of b' < len b').
  { unfold ensure_int. assert (0 <= j_of b) by (unfold j_of; lia). destruct (Z.leb_spec (len b) (j_of b + 1)).
    - rewrite int_add_ok by lia. eexists. split_and!; [done|done|]. unfold j_of in *; cbn; lia.
    - exists b. split_and!; [done|done|lia]. }
  destruct E as (b' & -> & Hob & Hlt). apply Z.ltb_lt in Hlt. unfold mbind at 1, SE_bind at 1, lift at 1. cbn [obind].
  rewrite Hlt, defined_when_true by done. cbn [obind]. rewrite Hob. destruct (hd0 (out b) =? 47); cbn [negb]; [done|].
  destruct wd as [d|]; [|done]. destruct Hwd as [Hd Hdl]. rewrite !VG_strlen_length by done.
  unfold j_of in Hj. rewrite s32_small by lia. rewrite defined_when_true; [done|]. apply Z.leb_le.
  rewrite !string_length_app. cbn. lia.
Qed.
End Expansion.

(** C28: [VG_(expand_file_name)] returns the path that the grammar [expands]
    gives for the format: ["%%"], ["%p"], ["%n"], ["%q{NAME}"] of a variable
    that is set, and all other characters; relative names follow the working
    directory of start-up, if there is one.  It refuses every other format, and
    one that is empty or starts with ['~'].  The array is never written beyond
    its end, and the number of ["%n"] counts those the process has seen.  The
    process id and that number are below 2^31, and so is the size any path of the
    format can have, for variables and a directory of at most [M] characters. *)
Theorem expand_file_name_spec pid getenv wd M format (s : opt_state)
  (HM : 0 <= M) (Hpid : 0 <= pid < 2 ^ 31)
  (Henv : forall name v, getenv name = Some v -> nul_free v = true /\ Z.of_nat (String.length v) <= M)
  (Hwd : match wd with Some d => nul_free d = true /\ Z.of_nat (String.length d) <= M | None => True end)
  (Hf : nul_free format = true) (Hl : (M + 21) * (Z.of_nat (String.length format) + 1) < 2 ^ 31)
  (Hs : 0 <= seq_of pid s /\ seq_of pid s + Z.of_nat (String.length format) < 2 ^ 31) :
  match VG_expand_file_name pid getenv wd format s with
  | Ok (path, s') => exists n', path_of pid getenv wd (seq_of pid s) format path n' /\ s' = at_seq pid s n'
  | Err e => e = Exited 1 /\ forall path n', ~ path_of pid getenv wd (seq_of pid s) format path n'
  end.
Proof.
  unfold VG_expand_file_name, path_of. destruct format as [|c f]; [split; [done|]; by intros path n' []|].
  destruct (Z.eqb_spec (code c) 126) as [E|E]; [split; [done|]; intros path n' (_ & H & _); done|].
  rewrite VG_strlen_length, int_add_ok by (done || nia).
  set (format := String c f) in *.
  set (b := mk_outbuf (Z.of_nat (String.length format) + 1) EmptyString).
  assert (Hok : loop_ok pid M format b s (String.length format)).
  { split_and!; [|by destruct Hs..|done]. split; [change (j_of b) with 0|]; unfold b, len; lia. }
  unfold mbind, SE_bind. cbn [lift obind]. fold format. fold b. unfold lift. cbn [obind].
  pose proof (loop_complete pid getenv M HM Henv Hpid) as Hcomplete.
  destruct (loop_sound pid getenv M HM Henv Hpid _ format b s Hok) as [Hbad|(o & n' & Ho)].
  - rewrite Hbad. split; [done|]. intros path n' (_ & _ & o & Ho & _).
    destruct (Hcomplete _ _ _ _ Ho s b _ eq_refl Hok) as (b' & H & _). congruence.
  - destruct (Hcomplete _ _ _ _ Ho s b _ eq_refl Hok) as (b' & -> & Hb' & Hlen). cbn [obind].
    change (out b' = o) in Hb'.
    pose proof (expands_nul_free pid getenv M Henv _ _ _ _ Ho Hf) as Hnul. rewrite <-Hb' in Ho, Hnul.
    rewrite (finish_ok M HM wd) by done. destruct (Z.eqb_spec (hd0 (out b')) 47) as [E47|E47]; [|destruct wd as [d|]].
    + exists n'. split_and!; [done|done| |done]. exists (out b'). split; [done|]. apply Z.eqb_eq in E47. by rewrite E47.
    + exists n'. split_and!; [done|done| |done]. exists (out b'). split; [done|]. apply Z.eqb_neq in E47. rewrite E47. by exists d.
    + split; [done|]. intros path n2 (_ & _ & o2 & Ho2 & Hpath).
      assert (o2 = out b') as ->.
      { destruct (Hcomplete _ _ _ _ Ho s b _ eq_refl Hok) as (b1 & H1 & Ho1 & _).
        destruct (Hcomplete _ _ _ _ Ho2 s b _ eq_refl Hok) as (b2 & H2 & Ho2' & _). change (out b1 = out b') in Ho1. change (out b2 = o2) in Ho2'. congruence. }
      apply Z.eqb_neq in E47. rewrite E47 in Hpath. destruct Hpath as (d & ? & _). done.
Qed.

Lemma expand_file_name_spec_witness :
  match VG_expand_file_name 77 (fun name => if String.eqb name "A" then Some "x" else None) (Some "/tmp")
          "cg%q{A}.%p.%n" (mk_opt_state 1 false 77 4 0 EmptyString) with
  | Ok (path, s') => exists n',
      path_of 77 (fun name => if String.eqb name "A" then Some "x" else None) (Some "/tmp") 4 "cg%q{A}.%p.%n" path n'
      /\ s' = at_seq 77 (mk_opt_state 1 false 77 4 0 EmptyString) n'
  | Err e => e = Exited 1 /\ forall path n',
      ~ path_of 77 (fun name => if String.eqb name "A" then Some "x" else None) (Some "/tmp") 4 "cg%q{A}.%p.%n" path n'
  end.
Proof.
  apply (expand_file_name_spec 77 (fun name => if String.eqb name "A" then Some "x" else None) (Some "/tmp") 4);
    [lia|lia| |done|done|cbn; lia|cbn; lia].
  intros name v. destruct (String.eqb name "A"); [|done]. intros [= <-]. done.
Defined.

Example expand_example :
  VG_expand_file_name 77 (fun name => if String.eqb name "A" then Some "x" else None) (Some "/tmp")
    "cg%q{A}.%p.%n" (mk_opt_state 1 false 77 4 0 EmptyString)
  = Ok ("/tmp/cgx.77.5", mk_opt_state 1 false 77 5 0 EmptyString).
Proof. vm_compute. reflexivity. Qed.

Example unset_variable_ends : VG_expand_file_name 77 (fun _ => None) (Some "/tmp") "a%q{B}" (mk_opt_state 1 false 0 0 0 EmptyString)
  = Err (Exited 1).
Proof. vm_compute. reflexivity. Qed.

(** ** Children *)

(** A name of the list matches a field of the option. *)
Definition skipped (option : option string) (names : list string) : Prop :=
  match option with None => False | Some s => exists f name, In f (fields s) /\ In name names /\ glob f name end.

Lemma fields_commas s : fields (consume_commas s) = fields s.
Proof.
  induction s as [|c s IH]; [done|]. cbn [consume_commas]. destruct (code c =? 44) eqn:E; [|done].
  rewrite IH. unfold fields. cbn [pieces]. by rewrite E.
Qed.

Lemma consume_field_spec s : let (patt, last) := consume_field s in
  s = (patt +:+ last)%string
  /\ match last with
     | EmptyString => pieces s = [patt]
     | String d rest => code d = 44 /\ pieces s = patt :: pieces rest
     end.
Proof.
  induction s as [|c s IH]; [done|]. cbn [consume_field pieces]. destruct (Z.eqb_spec (code c) 44); [done|].
  destruct (consume_field s) as [patt [|d rest]]; destruct IH as [-> IH].
  - split; [done|]. by rewrite IH.
  - split; [done|]. destruct IH as [? ->]. done.
Qed.

Lemma consume_commas_spec s : exists p, s = (p +:+ consume_commas s)%string
  /\ match consume_commas s with EmptyString => True | String d _ => code d <> 44 end.
Proof.
  induction s as [|c s (p & IH & Hd)]; [by exists EmptyString|]. cbn [consume_commas].
  destruct (Z.eqb_spec (code c) 44); [|by exists EmptyString]. exists (String c p). split; [|done].
  rewrite string_cons_app. by f_equal.
Qed.

(** The next field of the option, which the code copies before it goes on behind it. *)
Lemma fields_next s : let (patt, last) := consume_field (consume_commas s) in
  fields s = match patt with EmptyString => [] | String _ _ => patt :: fields last end
  /\ exists p, s = (p +:+ patt +:+ last)%string.
Proof.
  rewrite <-fields_commas. destruct (consume_commas_spec s) as (p & Hp & Hd).
  pose proof (consume_field_spec (consume_commas s)) as Hf. unfold fields.
  destruct (consume_field (consume_commas s)) as [patt last]. destruct Hf as [E Hf]. rewrite E in Hp, Hd.
  split; [|by exists p]. destruct patt as [|c patt].
  - destruct last as [|d rest]; [by rewrite Hf|]. by destruct Hf.
  - destruct last as [|d rest]; [by rewrite Hf|]. destruct Hf as [Hd' ->]. cbn. apply Z.eqb_eq in Hd'. by rewrite Hd'.
Qed.

Lemma short_app a b : short (a +:+ b) -> short a /\ short b.
Proof.
  unfold short. rewrite nul_free_app, string_length_app. intros [H Hl]. apply andb_true_iff in H. intuition lia.
Qed.

Lemma match_any_spec patt names : short patt -> Forall short names ->
  exists b, match_any patt names = Ok b /\ (b = true <-> exists name, In name names /\ glob patt name).
Proof.
  intros Hp. induction 1 as [|name names Hn _ (b & E & Hb)]; cbn [match_any].
  - exists false. split; [done|]. split; [done|]. by intros (? & [] & _).
  - destruct (string_match_decides patt name Hp Hn) as (b1 & -> & Hb1). cbn [obind]. destruct b1.
    + exists true. split; [done|]. split; [intros _|done]. exists name. split; [by left|by apply Hb1].
    + exists b. split; [done|]. rewrite Hb. split.
      * intros (n & Hin & Hg). exists n. split; [by right|done].
      * intros (n & [<-|Hin] & Hg); [by apply Hb1 in Hg|by exists n].
Qed.

Lemma skip_loop_spec names (Hn : Forall short names) fuel : forall s, short s -> (String.length s <= fuel)%nat ->
  exists b, skip_loop fuel s names = Ok b
    /\ (b = true <-> exists f name, In f (fields s) /\ In name names /\ glob f name).
Proof.
  assert (Hnone : forall fs, fs = [] -> false = true <-> exists f name, In f fs /\ In name names /\ glob f name).
  { intros fs ->. split; [done|]. by intros (? & ? & [] & _). }
  induction fuel as [|fuel IH]; intros [|c s] Hs Hf; cbn [skip_loop]; [| |exists false; split; [done|by apply Hnone]|].
  - exists false. split; [done|by apply Hnone].
  - cbn in Hf. lia.
  - pose proof (fields_next (String c s)) as Hnext.
    destruct (consume_field (consume_commas (String c s))) as [patt last]. destruct Hnext as [Hfs (p & Es)].
    destruct patt as [|d patt]; [exists false; split; [done|by apply Hnone]|].
    rewrite Es in Hs. apply short_app in Hs as [_ [Hp Hlast]%short_app].
    destruct (match_any_spec _ _ Hp Hn) as (b1 & -> & Hb1). cbn [obind]. rewrite Hfs. destruct b1.
    + exists true. split; [done|]. split; [intros _|done]. destruct Hb1 as [Hb1 _]. destruct (Hb1 eq_refl) as (name & ? & ?).
      exists (String d patt), name. split; [by left|done].
    + destruct (IH last Hlast) as (b & -> & Hb).
      { apply (f_equal String.length) in Es. rewrite !string_length_app in Es. cbn in Es, Hf. lia. }
      exists b. split; [done|]. rewrite Hb. split.
      * intros (f & name & Hin & Hg). exists f, name. split; [by right|done].
      * intros (f & name & [<-|Hin] & Hname & Hg); [|by exists f, name].
        destruct Hb1 as [_ Hb1]. by discriminate Hb1; exists name.
Qed.

Lemma skips_spec option names : match option with Some s => short s | None => True end -> Forall short names ->
  exists b, skips option names = Ok b /\ (b = true <-> skipped option names).
Proof.
  intros Ho Hn. destruct option as [s|]; [by apply skip_loop_spec|]. by exists false.
Qed.

(** C34: [VG_(should_we_trace_this_child)] answers for all names and options of
    fewer than 1,000,000 characters, and no assertion of the matcher fails: a
    child without a name is traced as "--trace-children" says; any other is
    traced exactly if that option is on, no non-empty field of
    "--trace-children-skip" matches its name, and none of
    "--trace-children-skip-by-arg" matches an argument, where ['*'] stands for
    any characters and ['?'] for one. *)
Theorem should_we_trace_this_child_spec trace skip skip_by_arg exe argv
  (Hskip : match skip with Some s => short s | None => True end)
  (Harg : match skip_by_arg with Some s => short s | None => True end)
  (Hexe : match exe with Some s => short s | None => True end)
  (Hargv : match argv with Some l => Forall short l | None => True end) :
  exists b, VG_should_we_trace_this_child trace skip skip_by_arg exe argv = Ok b
    /\ (b = true <-> trace = true /\
        match exe with
        | None | Some EmptyString => True
        | Some name => ~ skipped skip [name]
            /\ ~ match argv with Some l => skipped skip_by_arg l | None => False end
        end).
Proof.
  unfold VG_should_we_trace_this_child. destruct exe as [[|c name]|]; [by exists trace; intuition| |by exists trace; intuition].
  destruct trace; [|by exists false; intuition].
  destruct (skips_spec skip [String c name]) as (b1 & -> & Hb1); [done|by apply Forall_singleton|]. cbn [negb obind].
  destruct b1.
  { exists false. split; [done|]. split; [done|]. intros (_ & [] & _). by apply Hb1. }
  assert (exists b, match argv with Some l => skips skip_by_arg l | None => Ok false end = Ok b
    /\ (b = true <-> match argv with Some l => skipped skip_by_arg l | None => False end)) as (b2 & -> & Hb2).
  { destruct argv as [l|]; [by apply skips_spec|by exists false]. }
  cbn [obind]. exists (negb b2). split; [done|]. rewrite negb_true_iff, <-Hb1, <-Hb2. destruct b2; intuition discriminate.
Qed.

Lemma should_we_trace_this_child_spec_witness :
  exists b, VG_should_we_trace_this_child true (Some ",*sh,") (Some "-v?") (Some "/bin/ls") (Some ["-va"; "x"]) = Ok b
    /\ (b = true <-> true = true /\ ~ skipped (Some ",*sh,") ["/bin/ls"] /\ ~ skipped (Some "-v?") ["-va"; "x"]).
Proof.
  apply (should_we_trace_this_child_spec true (Some ",*sh,") (Some "-v?") (Some "/bin/ls") (Some ["-va"; "x"]));
    by repeat constructor.
Defined.
