(* ===== verification/BranchPred.v ===== *)
(** * The branch predictors: cachegrind/cg_branchpred.c

    [bp] holds the three static variables of the file.  Both predictors return
    1 for a mispredict and 0 for a successful predict, with the new state. *)

From S2P Require Import Prelude.

(** ** Data *)

(** The architectures Cachegrind is built for ([VGA_...]). *)
Inductive vga :=
| VGA_x86 | VGA_amd64 | VGA_ppc32 | VGA_ppc64be | VGA_ppc64le | VGA_arm
| VGA_arm64 | VGA_s390x | VGA_mips32 | VGA_mips64 | VGA_nanomips.

(** How many bits at the bottom of an instruction address are zero. *)
Definition N_IADDR_LO_ZERO_BITS (a : vga) : Z :=
  match a with
  | VGA_ppc32 | VGA_ppc64be | VGA_ppc64le | VGA_mips32 | VGA_mips64
  | VGA_nanomips | VGA_arm64 => 2
  | VGA_x86 | VGA_amd64 => 0
  | VGA_s390x | VGA_arm => 1
  end.

Definition N_HIST_BITS : Z := 7.
Definition N_IADD_BITS : Z := 7.
Definition N_BITS : Z := N_HIST_BITS + N_IADD_BITS.
Definition N_COUNTERS : Z := Z.shiftl 1 N_BITS.
Definition N_BTAC_BITS : Z := 9.
Definition N_BTAC : Z := Z.shiftl 1 N_BTAC_BITS.

Record bp := mk_bp {
  shift_register : Z;
  counters : list Z;
  btac : list Z
}.

(** Static data is zeroed. *)
Definition bp_init : bp :=
  mk_bp 0 (replicate (Z.to_nat N_COUNTERS) 0) (replicate (Z.to_nat N_BTAC) 0).

(** ** The predictors *)

(** The two masks and the index [indx]. *)
Definition hist_bits (b : bp) : Z := Z.land (shift_register b) (Z.shiftl 1 N_HIST_BITS - 1).
Definition iadd_bits (arch : vga) (instr_addr : Z) : Z :=
  Z.land (Z.shiftr instr_addr (N_IADDR_LO_ZERO_BITS arch)) (Z.shiftl 1 N_IADD_BITS - 1).

Definition do_cond_branch_predict (arch : vga) (b : bp) (instr_addr takenW : Z)
  : outcome (Z * bp) :=
  let hist_mask := Z.shiftl 1 N_HIST_BITS - 1 in
  let iadd_mask := Z.shiftl 1 N_IADD_BITS - 1 in
  let hist_bits := hist_bits b in
  let iadd_bits := iadd_bits arch instr_addr in
  let* _ := assert_that (hist_bits <=? hist_mask) in
  let* _ := assert_that (iadd_bits <=? iadd_mask) in
  let indx := Z.lor (Z.shiftl hist_bits N_IADD_BITS) iadd_bits in
  let* _ := assert_that (indx <? N_COUNTERS) in
  let* _ := assert_that (takenW <=? 1) in
  let* counter := rd (counters b) indx in
  let predicted_taken := 2 <=? counter in
  let actually_taken := 0 <? takenW in
  let mispredict :=
    (actually_taken && negb predicted_taken) || (negb actually_taken && predicted_taken) in
  let shift_register := u64 (Z.shiftl (shift_register b) 1) in
  let shift_register := Z.lor shift_register (Z_of_bool actually_taken) in
  let counter :=
    if actually_taken then (if counter <? 3 then u8 (counter + 1) else counter)
    else (if 0 <? counter then u8 (counter - 1) else counter) in
  let* counters := wr (counters b) indx counter in
  let* _ := assert_that (counter <=? 3) in
  Ok (Z_of_bool mispredict, mk_bp shift_register counters (btac b)).

Definition btac_index (arch : vga) (instr_addr : Z) : Z :=
  Z.land (Z.shiftr instr_addr (N_IADDR_LO_ZERO_BITS arch)) (Z.shiftl 1 N_BTAC_BITS - 1).

Definition do_ind_branch_predict (arch : vga) (b : bp) (instr_addr actual : Z)
  : outcome (Z * bp) :=
  let indx := btac_index arch instr_addr in
  let* _ := assert_that (indx <? N_BTAC) in
  let* target := rd (btac b) indx in
  let mispredict := negb (target =? actual) in
  let* btac := wr (btac b) indx actual in
  Ok (Z_of_bool mispredict, mk_bp (shift_register b) (counters b) btac).

(** A sequence of conditional branches (address, taken?), in order. *)
Fixpoint run_cond (arch : vga) (b : bp) (l : list (Z * bool)) : outcome (list Z * bp) :=
  match l with
  | [] => Ok ([], b)
  | (a, t) :: l =>
      let* (m, b) := do_cond_branch_predict arch b a (Z_of_bool t) in
      let* (ms, b) := run_cond arch b l in Ok (m :: ms, b)
  end.

(** A sequence of indirect branches (address, target), in order. *)
Fixpoint run_ind (arch : vga) (b : bp) (l : list (Z * Z)) : outcome (list Z * bp) :=
  match l with
  | [] => Ok ([], b)
  | (a, t) :: l =>
      let* (m, b) := do_ind_branch_predict arch b a t in
      let* (ms, b) := run_ind arch b l in Ok (m :: ms, b)
  end.

(** ** Invariant and specification *)

Record wf_bp (b : bp) : Prop := {
  wf_shift : 0 <= shift_register b < 2 ^ 64;
  wf_ncounters : length (counters b) = Z.to_nat N_COUNTERS;
  wf_counters : Forall (fun x => 0 <= x <= 3) (counters b);
  wf_nbtac : length (btac b) = Z.to_nat N_BTAC
}.

(** The counter of a branch: selected by the last seven outcomes and the low
    bits of the address. *)
Definition cond_index (arch : vga) (b : bp) (instr_addr : Z) : Z :=
  hist_bits b * 128 + iadd_bits arch instr_addr.

(** A two-bit saturating counter. *)
Definition saturate (t : bool) (x : Z) : Z := if t then Z.min 3 (x + 1) else Z.max 0 (x - 1).

(** The state after a conditional branch. *)
Definition cond_next (arch : vga) (b : bp) (instr_addr : Z) (t : bool) (counter : Z) : bp :=
  mk_bp (Z.lor (u64 (Z.shiftl (shift_register b) 1)) (Z_of_bool t))
        (<[Z.to_nat (cond_index arch b instr_addr) := saturate t counter]> (counters b)) (btac b).

(** ** Lemmas *)

Lemma bp_init_wf : wf_bp bp_init.
Proof.
  split; cbn [bp_init shift_register counters btac]; [lia|by rewrite length_replicate| |by rewrite length_replicate].
  apply Forall_replicate. lia.
Qed.

Lemma mask_range x n : 0 <= n -> 0 <= Z.land x (Z.shiftl 1 n - 1) < 2 ^ n.
Proof. intros Hn. rewrite Z.shiftl_1_l. by apply land_ones_range. Qed.

Lemma mask_mod x n : 0 <= n -> Z.land x (Z.shiftl 1 n - 1) = x mod 2 ^ n.
Proof.
  intros Hn. rewrite Z.shiftl_1_l. replace (2 ^ n - 1) with (Z.ones n) by (rewrite Z.ones_equiv; lia).
  by rewrite Z.land_ones.
Qed.

Lemma hist_bits_range b : 0 <= hist_bits b < 128.
Proof. by apply (mask_range _ 7). Qed.

Lemma iadd_bits_range arch a : 0 <= iadd_bits arch a < 128.
Proof. by apply (mask_range _ 7). Qed.

Lemma btac_index_range arch a : 0 <= btac_index arch a < 512.
Proof. by apply (mask_range _ 9). Qed.

(** The index is put together from disjoint bits. *)
Lemma cond_index_lor arch b a :
  Z.lor (Z.shiftl (hist_bits b) N_IADD_BITS) (iadd_bits arch a) = cond_index arch b a.
Proof.
  apply (lor_shiftl_low _ _ 7); [lia | apply iadd_bits_range].
Qed.

Lemma cond_index_range arch b a : 0 <= cond_index arch b a < N_COUNTERS.
Proof.
  unfold cond_index. pose proof (hist_bits_range b). pose proof (iadd_bits_range arch a).
  change N_COUNTERS with 16384. lia.
Qed.

Lemma cond_counter arch b a :
  wf_bp b -> exists x, counters b !! Z.to_nat (cond_index arch b a) = Some x /\ 0 <= x <= 3
    /\ rd (counters b) (cond_index arch b a) = Ok x.
Proof.
  intros Hb. pose proof (cond_index_range arch b a) as Hi. pose proof (wf_ncounters b Hb) as HL.
  change N_COUNTERS with 16384 in Hi, HL.
  destruct (rd_is_ok (counters b) (cond_index arch b a)) as (x & Hx & Hrd); [lia|].
  exists x. split; [done|]. split; [|done].
  exact (proj1 (Forall_lookup _ _) (wf_counters b Hb) _ _ Hx).
Qed.

Lemma taken_cases t : (0 <? Z_of_bool t) = t /\ (Z_of_bool t <=? 1) = true.
Proof. by destruct t. Qed.

(** One conditional branch. *)
Lemma cond_step arch b a t x :
  wf_bp b -> counters b !! Z.to_nat (cond_index arch b a) = Some x ->
  do_cond_branch_predict arch b a (Z_of_bool t)
  = Ok (Z_of_bool (xorb (2 <=? x) t), cond_next arch b a t x).
Proof.
  intros Hb Hx. destruct (cond_counter arch b a Hb) as (x' & Hx' & Hr & Hrd).
  assert (x' = x) as -> by congruence.
  pose proof (cond_index_range arch b a) as Hi. pose proof (wf_ncounters b Hb) as HL.
  change N_COUNTERS with 16384 in Hi, HL.
  pose proof (hist_bits_range b). pose proof (iadd_bits_range arch a).
  destruct (taken_cases t) as [Ht Ht1].
  unfold do_cond_branch_predict. rewrite cond_index_lor, Ht, Ht1.
  assert ((hist_bits b <=? Z.shiftl 1 N_HIST_BITS - 1) = true) as ->
    by (apply Z.leb_le; change (Z.shiftl 1 N_HIST_BITS - 1) with 127; lia).
  assert ((iadd_bits arch a <=? Z.shiftl 1 N_IADD_BITS - 1) = true) as ->
    by (apply Z.leb_le; change (Z.shiftl 1 N_IADD_BITS - 1) with 127; lia).
  assert ((cond_index arch b a <? N_COUNTERS) = true) as ->
    by (apply Z.ltb_lt; change N_COUNTERS with 16384; lia).
  cbn [obind assert_that]. rewrite Hrd. cbn [obind].
  assert (Hsat : (if t then (if x <? 3 then u8 (x + 1) else x)
                  else (if 0 <? x then u8 (x - 1) else x)) = saturate t x).
  { unfold saturate. destruct t.
    - destruct (Z.ltb_spec x 3); [rewrite u8_small|]; lia.
    - destruct (Z.ltb_spec 0 x); [rewrite u8_small|]; lia. }
  rewrite Hsat, wr_in by lia. cbn [obind].
  assert ((saturate t x <=? 3) = true) as ->
    by (apply Z.leb_le; unfold saturate; destruct t; lia).
  cbn [assert_that obind]. unfold cond_next. do 3 f_equal.
  by destruct t, (2 <=? x).
Qed.

Lemma cond_next_wf arch b a t x : wf_bp b -> 0 <= x <= 3 -> wf_bp (cond_next arch b a t x).
Proof.
  intros Hb Hx. split; cbn [cond_next shift_register counters btac].
  - destruct (u64_range (Z.shiftl (shift_register b) 1)) as [H0 H1]. split.
    + apply Z.lor_nonneg. split; [done|]. by destruct t.
    + apply Z.log2_lt_cancel. rewrite Z.log2_lor by (done || by destruct t).
      rewrite Z.log2_pow2 by lia. apply Z.max_lub_lt; [|by destruct t].
      destruct (decide (u64 (Z.shiftl (shift_register b) 1) = 0)) as [->|]; [done|].
      apply Z.log2_lt_pow2; lia.
  - rewrite length_insert. apply wf_ncounters, Hb.
  - apply Forall_insert; [apply wf_counters, Hb|]. unfold saturate. destruct t; lia.
  - apply wf_nbtac, Hb.
Qed.

(** The history shifts in the outcome. *)
Lemma cond_next_hist arch b a t x :
  hist_bits (cond_next arch b a t x) = (2 * hist_bits b + Z_of_bool t) mod 128.
Proof.
  unfold hist_bits, cond_next. cbn [shift_register]. rewrite !mask_mod by done.
  assert (Hl : Z.lor (u64 (Z.shiftl (shift_register b) 1)) (Z_of_bool t)
               = 2 * (shift_register b mod 2 ^ 63) + Z_of_bool t).
  { unfold u64. rewrite Z.shiftl_mul_pow2 by lia. change (2 ^ 64) with (2 ^ 63 * 2 ^ 1).
    rewrite Z.mul_mod_distr_r by lia. rewrite <-Z.shiftl_mul_pow2 by lia.
    rewrite lor_shiftl_low by (lia || by destruct t). lia. }
  rewrite Hl. change (2 ^ N_HIST_BITS) with 128.
  replace (shift_register b mod 2 ^ 63) with
    (shift_register b mod 128 + 128 * ((shift_register b mod 2 ^ 63) / 128)).
  { rewrite Z.mul_add_distr_l.
    replace (2 * (shift_register b mod 128) + 2 * (128 * ((shift_register b mod 2 ^ 63) / 128)) + Z_of_bool t)
      with (2 * (shift_register b mod 128) + Z_of_bool t
            + (2 * ((shift_register b mod 2 ^ 63) / 128)) * 128) by lia.
    by rewrite Z_mod_plus_full. }
  rewrite (Z.div_mod (shift_register b mod 2 ^ 63) 128) at 2 by lia.
  rewrite Z.mod_mod_divide by (by exists (2 ^ 56)). lia.
Qed.

Lemma ind_step arch b a t :
  wf_bp b -> exists old, btac b !! Z.to_nat (btac_index arch a) = Some old
    /\ do_ind_branch_predict arch b a t
       = Ok (Z_of_bool (negb (old =? t)),
             mk_bp (shift_register b) (counters b) (<[Z.to_nat (btac_index arch a) := t]> (btac b))).
Proof.
  intros Hb. pose proof (btac_index_range arch a) as Hi. pose proof (wf_nbtac b Hb) as HL.
  change N_BTAC with 512 in HL.
  destruct (rd_is_ok (btac b) (btac_index arch a)) as (old & Ho & Hrd); [lia|].
  exists old. split; [done|]. unfold do_ind_branch_predict.
  rewrite assert_that_true by (apply Z.ltb_lt; change N_BTAC with 512; lia).
  cbn [obind]. rewrite Hrd. cbn [obind]. by rewrite wr_in by lia.
Qed.

(** ** Sequences of branches *)

(** The history register after outcomes [l], from [h]. *)
Definition shift_outcome (h : Z) (t : bool) : Z := (2 * h + Z_of_bool t) mod 128.
Definition history (h : Z) (l : list (Z * bool)) : Z := fold_left shift_outcome (l.*2) h.

(** What a two-bit counter holds after branches [l]: it follows the outcomes of
    the branches that select it, and only those.  [h] is the history before
    [l] and [x] the counter before [l]. *)
Fixpoint counter_after (arch : vga) (idx h : Z) (l : list (Z * bool)) (x : Z) : Z :=
  match l with
  | [] => x
  | (a, t) :: l =>
      counter_after arch idx (shift_outcome h t) l
        (if idx =? h * 128 + iadd_bits arch a then saturate t x else x)
  end.

(** The target recorded for a table entry after indirect branches [l]. *)
Fixpoint target_after (arch : vga) (idx : Z) (l : list (Z * Z)) (x : Z) : Z :=
  match l with
  | [] => x
  | (a, t) :: l => target_after arch idx l (if idx =? btac_index arch a then t else x)
  end.

Lemma run_cond_spec arch l b :
  wf_bp b -> exists ms b', run_cond arch b l = Ok (ms, b') /\ wf_bp b' /\ length ms = length l
    /\ forall i a t, l !! i = Some (a, t) ->
         let idx := history (hist_bits b) (take i l) * 128 + iadd_bits arch a in
         exists x, counters b !! Z.to_nat idx = Some x
           /\ ms !! i = Some (Z_of_bool (xorb (2 <=? counter_after arch idx (hist_bits b) (take i l) x) t)).
Proof.
  revert b. induction l as [|[a0 t0] l IH]; intros b Hb.
  { exists [], b. split_and!; [done..|]. intros [|i]; done. }
  destruct (cond_counter arch b a0 Hb) as (x0 & Hx0 & Hr & _).
  destruct (IH (cond_next arch b a0 t0 x0)) as (ms & b' & Hrun & Hwf & Hlen & Hms);
    [by apply cond_next_wf|].
  exists (Z_of_bool (xorb (2 <=? x0) t0) :: ms), b'. split_and!; [|done|cbn; lia|].
  { cbn [run_cond]. rewrite (cond_step _ _ _ _ _ Hb Hx0). cbn [obind]. by rewrite Hrun. }
  intros [|i] a t Hi; cbn [lookup list_lookup] in Hi; [injection Hi as -> ->; cbn; eauto|].
  destruct (Hms _ _ _ Hi) as (x & Hx & Hm). clear Hms.
  rewrite cond_next_hist in Hx, Hm. cbn [lookup list_lookup take].
  unfold history in *. rewrite fmap_cons. cbn [fold_left counter_after fst snd].
  change (shift_outcome (hist_bits b) t0) with ((2 * hist_bits b + Z_of_bool t0) mod 128).
  remember (_ * 128 + iadd_bits arch a) as idx eqn:Eidx. cbn [cond_next counters] in Hx.
  assert (Hidx0 : 0 <= idx).
  { subst idx. pose proof (iadd_bits_range arch a).
    assert (0 <= fold_left shift_outcome (take i l).*2 ((2 * hist_bits b + Z_of_bool t0) mod 128)); [|lia].
    assert (0 <= (2 * hist_bits b + Z_of_bool t0) mod 128) as H0 by (apply Z.mod_pos_bound; lia).
    revert H0. generalize ((2 * hist_bits b + Z_of_bool t0) mod 128). generalize ((take i l).*2).
    intros ts. induction ts as [|u ts IHt]; intros h Hh; cbn; [done|].
    apply IHt. apply Z.mod_pos_bound. lia. }
  fold (cond_index arch b a0). destruct (Z.eqb_spec idx (cond_index arch b a0)) as [->|Hne].
  - rewrite list_lookup_insert_eq in Hx; [|by eapply lookup_lt_Some]. injection Hx as <-. eauto.
  - rewrite list_lookup_insert_ne in Hx; [eauto|].
    pose proof (cond_index_range arch b a0). lia.
Qed.

(** C24: the conditional predictor is a table of two-bit saturating counters
    indexed by the last seven outcomes and the low address bits.  From the
    zeroed tables no sequence of branches fails an assertion or leaves the
    table, the state stays well-formed, and branch number [i] is a mispredict
    exactly when the counter, updated by just the earlier branches that had
    the same index, is on the other side of 2. *)
Theorem cond_predictor_spec arch (l : list (Z * bool)) :
  exists ms b', run_cond arch bp_init l = Ok (ms, b') /\ wf_bp b' /\ length ms = length l
    /\ forall i a t, l !! i = Some (a, t) ->
         let idx := history 0 (take i l) * 128 + iadd_bits arch a in
         ms !! i = Some (Z_of_bool (xorb (2 <=? counter_after arch idx 0 (take i l) 0) t)).
Proof.
  destruct (run_cond_spec arch l bp_init bp_init_wf) as (ms & b' & Hr & Hwf & Hl & Hms).
  exists ms, b'. split_and!; [done..|]. intros i a t Hi.
  destruct (Hms i a t Hi) as (x & Hx & Hm). change (hist_bits bp_init) with 0 in Hx, Hm.
  apply lookup_replicate in Hx as [-> _]. exact Hm.
Qed.

(** ** A branch that always goes the same way *)

(** The last [j] outcomes were all [t]. *)
Definition steady (t : bool) (j : Z) (b : bp) : Prop :=
  hist_bits b mod 2 ^ j = (if t then 2 ^ j - 1 else 0).

(** Evaluate the closed powers of two of the goal and of the hypotheses. *)
Ltac eval_pow :=
  repeat match goal with
  | |- context [2 ^ ?e] => let v := eval vm_compute in (2 ^ e) in change (2 ^ e) with v
  | H : context [2 ^ ?e] |- _ => let v := eval vm_compute in (2 ^ e) in change (2 ^ e) with v in H
  end.

Lemma shift_steady (t : bool) h j :
  0 <= j <= 7 -> h mod 2 ^ j = (if t then 2 ^ j - 1 else 0) ->
  shift_outcome h t mod 2 ^ Z.min 7 (j + 1) = (if t then 2 ^ Z.min 7 (j + 1) - 1 else 0).
Proof.
  intros Hj H. unfold shift_outcome.
  assert (Hcases : j = 0 \/ j = 1 \/ j = 2 \/ j = 3 \/ j = 4 \/ j = 5 \/ j = 6 \/ j = 7) by lia.
  destruct Hcases as [-> | [-> | [-> | [-> | [-> | [-> | [-> | ->]]]]]]];
    eval_pow; destruct t; cbn [Z_of_bool]; div_lia.
Qed.

Definition confidence (t : bool) (x : Z) : Z := if t then Z.max 0 (2 - x) else Z.max 0 (x - 1).

Lemma confidence_step t x : 0 <= x <= 3 ->
  Z_of_bool (xorb (2 <=? x) t) + confidence t (saturate t x) <= confidence t x.
Proof.
  intros Hx. unfold confidence, saturate.
  destruct t, (Z.leb_spec 2 x); cbn [xorb Z_of_bool]; lia.
Qed.

Definition total (ms : list Z) : Z := foldr Z.add 0 ms.

(** Once the history is constant a single counter is trained. *)
Lemma run_steady arch a t n b x :
  wf_bp b -> steady t 7 b -> counters b !! Z.to_nat (cond_index arch b a) = Some x ->
  exists ms b', run_cond arch b (replicate n (a, t)) = Ok (ms, b') /\ total ms <= confidence t x.
Proof.
  revert b x. induction n as [|n IH]; intros b x Hb Hs Hx.
  { exists [], b. split; [done|]. unfold confidence. destruct t; cbn; lia. }
  destruct (cond_counter arch b a Hb) as (x' & Hx' & Hr & _).
  assert (x' = x) as -> by congruence.
  assert (Hh : hist_bits (cond_next arch b a t x) = hist_bits b).
  { rewrite cond_next_hist. pose proof (hist_bits_range b). unfold steady in Hs.
    change (2 ^ 7) with 128 in Hs. destruct t; cbn [Z_of_bool]; div_lia. }
  destruct (IH (cond_next arch b a t x) (saturate t x)) as (ms & b' & Hrun & Hm).
  - by apply cond_next_wf.
  - unfold steady. by rewrite Hh.
  - unfold cond_index. rewrite Hh. fold (cond_index arch b a). cbn [cond_next counters].
    apply list_lookup_insert_eq. by eapply lookup_lt_Some.
  - eexists _, _. split.
    + cbn [replicate run_cond]. rewrite (cond_step _ _ _ _ _ Hb Hx). cbn [obind]. by rewrite Hrun.
    + pose proof (confidence_step t x Hr). cbn [total foldr] in *. unfold total in Hm. lia.
Qed.

Lemma run_towards_steady arch a t n k b :
  wf_bp b -> (k <= 7)%nat -> steady t (7 - Z.of_nat k) b ->
  exists ms b', run_cond arch b (replicate n (a, t)) = Ok (ms, b') /\ total ms <= Z.of_nat k + 2.
Proof.
  revert n b. induction k as [|k IH]; intros n b Hb Hk Hs;
    destruct (cond_counter arch b a Hb) as (x & Hx & Hr & _).
  - destruct (run_steady arch a t n b x Hb) as (ms & b' & Hrun & Hm); [by rewrite Z.sub_0_r in Hs|done|].
    exists ms, b'. split; [done|]. unfold confidence in Hm. destruct t; lia.
  - destruct n as [|n]; [exists [], b; split; [done | cbn; lia]|].
    destruct (IH n (cond_next arch b a t x)) as (ms & b' & Hrun & Hm);
      [by apply cond_next_wf | lia | |].
    { unfold steady. rewrite cond_next_hist.
      apply (shift_steady t (hist_bits b) (7 - Z.of_nat (S k))) in Hs; [|lia].
      by replace (Z.min 7 (7 - Z.of_nat (S k) + 1)) with (7 - Z.of_nat k) in Hs by lia. }
    eexists _, _. split.
    + cbn [replicate run_cond]. rewrite (cond_step _ _ _ _ _ Hb Hx). cbn [obind]. by rewrite Hrun.
    + cbn [total foldr] in *. unfold total in Hm.
      assert (Z_of_bool (xorb (2 <=? x) t) <= 1) by (by destruct (xorb _ _)). lia.
Qed.

(** A branch at one address that always goes the same way is mispredicted
    at most nine times in any number of executions, whatever the predictor's
    state was: at most seven until the history is constant, and two more to
    train the counter. *)
Theorem constant_branch_mispredicts arch a t n b (Hb : wf_bp b) :
  exists ms b', run_cond arch b (replicate n (a, t)) = Ok (ms, b') /\ total ms <= 9.
Proof.
  apply (run_towards_steady arch a t n 7 b Hb); [lia|].
  unfold steady. change (2 ^ (7 - Z.of_nat 7)) with 1. rewrite Z.mod_1_r. by destruct t.
Qed.

Lemma constant_branch_mispredicts_witness :
  wf_bp bp_init
  /\ exists ms b', run_cond VGA_amd64 bp_init (replicate 100 (4096, true)) = Ok (ms, b') /\ total ms <= 9.
Proof.
  split; [exact bp_init_wf | exact (constant_branch_mispredicts VGA_amd64 4096 true 100 bp_init bp_init_wf)].
Defined.

(** The bound is reached from the zeroed tables. *)
Example nine_mispredicts :
  (let* (ms, _) := run_cond VGA_amd64 bp_init (replicate 20 (0, true)) in Ok (total ms)) = Ok 9.
Proof. vm_compute. reflexivity. Qed.

Lemma ind_next_wf arch b a t : wf_bp b ->
  wf_bp (mk_bp (shift_register b) (counters b) (<[Z.to_nat (btac_index arch a) := t]> (btac b))).
Proof. intros [? ? ? ?]. split; cbn; [done..|]. by rewrite length_insert. Qed.

Lemma run_ind_spec arch l b :
  wf_bp b -> exists ms b', run_ind arch b l = Ok (ms, b') /\ wf_bp b' /\ length ms = length l
    /\ forall i a t, l !! i = Some (a, t) ->
         exists x, btac b !! Z.to_nat (btac_index arch a) = Some x
           /\ ms !! i = Some (Z_of_bool (negb (target_after arch (btac_index arch a) (take i l) x =? t))).
Proof.
  revert b. induction l as [|[a0 t0] l IH]; intros b Hb.
  { exists [], b. split_and!; [done..|]. intros [|i]; done. }
  destruct (ind_step arch b a0 t0 Hb) as (x0 & Hx0 & Hstep).
  destruct (IH _ (ind_next_wf arch b a0 t0 Hb)) as (ms & b' & Hrun & Hwf & Hlen & Hms).
  eexists _, b'. split_and!; [|done| |].
  { cbn [run_ind]. rewrite Hstep. cbn [obind]. by rewrite Hrun. }
  { cbn. lia. }
  intros [|i] a t Hi; cbn [lookup list_lookup] in Hi; [injection Hi as -> ->; cbn; eauto|].
  destruct (Hms _ _ _ Hi) as (x & Hx & Hm). cbn [lookup list_lookup take target_after btac] in *.
  pose proof (btac_index_range arch a). pose proof (btac_index_range arch a0).
  destruct (Z.eqb_spec (btac_index arch a) (btac_index arch a0)) as [E|Hne].
  - rewrite E in *. rewrite list_lookup_insert_eq in Hx; [|by eapply lookup_lt_Some].
    injection Hx as <-. eauto.
  - rewrite list_lookup_insert_ne in Hx; [eauto|lia].
Qed.

(** The indirect predictor predicts the last target of the branches that
    share the nine address bits of its index (0 before the first).  From the
    zeroed table no sequence of branches fails an assertion or leaves the
    table, and branch number [i] is a mispredict exactly when the last target
    recorded for its index differs from the actual one. *)
Theorem ind_predictor_spec arch (l : list (Z * Z)) :
  exists ms b', run_ind arch bp_init l = Ok (ms, b') /\ wf_bp b' /\ length ms = length l
    /\ forall i a t, l !! i = Some (a, t) ->
         ms !! i = Some (Z_of_bool (negb (target_after arch (btac_index arch a) (take i l) 0 =? t))).
Proof.
  destruct (run_ind_spec arch l bp_init bp_init_wf) as (ms & b' & Hr & Hwf & Hl & Hms).
  exists ms, b'. split_and!; [done..|]. intros i a t Hi.
  destruct (Hms i a t Hi) as (x & Hx & Hm). apply lookup_replicate in Hx as [-> _]. exact Hm.
Qed.
