(* ===== verification/CacheSim.v ===== *)
(** * The cache simulator: data, set functions and initialisation (cg_sim.c)

    [sim] collects the static variables of cg_sim.c, the statics local to its
    functions, the option globals of cg_arch.h, the seed of [VG_(random)] and
    the miss counters the simulator is given pointers to.  The functions are
    [SE sim] computations; a [cache_t2*] is a [cache_ref], so that the pointer
    comparisons of the code are comparisons of [cache_ref]. *)

From Stdlib Require Import SpecFloat.
From S2P Require Import Prelude Float LibcBase SetRef Printf.

(** ** The geometry of a cache *)

Definition isInteger (val : double) : bool :=
  let truncated := double_trunc val in SFeqb val (double_of_Z truncated).

(** The sets, [sets_min_1], [line_size_bits] and [tag_shift] fields.  An [Int]
    is exact as a [double], so the variable [sets] is the integer itself; its
    conversion to the [UInt] argument of [VG_(log2)] is undefined when it is
    negative.  In the other branch [2^x] is C's exclusive or. *)
Definition cache_geometry (size assoc line_size : Z) : outcome (Z * Z * Z * Z) :=
  let* _ := defined_when (negb (line_size =? 0)) in
  let* _ := defined_when (negb (assoc =? 0)) in
  let sets := Z.quot (Z.quot size line_size) assoc in
  let* _ := defined_when (0 <=? sets) in
  if isInteger (double_of_Z (VG_log2 sets)) then
    let bits := VG_log2 (u32 line_size) in
    Ok (sets, sets - 1, bits, bits + VG_log2 (u32 sets))
  else
    let power2Sets := Z.lxor 2 (VG_log2 sets + 1) in
    let bits := VG_log2 (u32 line_size) in
    Ok (sets, power2Sets - 1, bits, bits + VG_log2 (u32 power2Sets)).

Definition desc_line (size assoc line_size : Z) : outcome string :=
  let* s := fmt_d size in
  let* l := fmt_d line_size in
  if assoc =? 1 then Ok (s +:+ " B, " +:+ l +:+ " B, direct-mapped")%string
  else
    let* a := fmt_d assoc in
    Ok (s +:+ " B, " +:+ l +:+ " B, " +:+ a +:+ "-way associative")%string.

(** A block of [n] zeroed words; a negative size is a huge [SizeT], which
    [VG_(malloc)] answers by ending the process. *)
Definition malloc_zeroed (n : Z) : outcome (list Z) :=
  if n <? 0 then Err (Exited 1) else Ok (replicate (Z.to_nat n) 0).

Definition cachesim_initcache (config : cache_t) : outcome cache_t2 :=
  let size := size_ config in
  let assoc := assoc_ config in
  let line_size := line_size_ config in
  let* (sets, sets_min_1, line_size_bits, tag_shift) := cache_geometry size assoc line_size in
  let* desc := desc_line size assoc line_size in
  let* tags := malloc_zeroed (sets * assoc) in
  let* tags_miss := malloc_zeroed sets in
  Ok (mk_cache_t2 size assoc line_size sets sets_min_1 line_size_bits tag_shift desc tags tags_miss).

(** Never called: the same as [cachesim_initcache]. *)
Definition init_caches (config : cache_t) : outcome cache_t2 :=
  let size := size_ config in
  let assoc := assoc_ config in
  let line_size := line_size_ config in
  let* (sets, sets_min_1, line_size_bits, tag_shift) := cache_geometry size assoc line_size in
  let* desc := desc_line size assoc line_size in
  let* tags := malloc_zeroed (sets * assoc) in
  let* tags_miss := malloc_zeroed sets in
  Ok (mk_cache_t2 size assoc line_size sets sets_min_1 line_size_bits tag_shift desc tags tags_miss).

(** [for (i = 0; i < n; i++) dest[i] = ori[i];] *)
Fixpoint copy_words (n : nat) (i : Z) (ori dest : list Z) : outcome (list Z) :=
  match n with
  | O => Ok dest
  | S n =>
      let* v := rd ori i in
      let* dest := wr dest i v in
      copy_words n (i + 1) ori dest
  end.

(** Everything but [desc_line] is copied. *)
Definition copy_caches (c_ori c_dest : cache_t2) : outcome cache_t2 :=
  let* tags := copy_words (Z.to_nat (c_sets c_ori * c_assoc c_ori)) 0 (c_tags c_ori) (c_tags c_dest) in
  let* tags_miss := copy_words (Z.to_nat (c_sets c_ori)) 0 (c_tags_miss c_ori) (c_tags_miss c_dest) in
  Ok (mk_cache_t2 (c_size c_ori) (c_assoc c_ori) (c_line_size c_ori) (c_sets c_ori)
        (c_sets_min_1 c_ori) (c_line_size_bits c_ori) (c_tag_shift c_ori) (c_desc_line c_dest)
        tags tags_miss).

(** ** Policies and the state of the simulator *)

(** [Cg_CachePolicy]. *)
Definition LRU_POLICY : Z := 0.
Definition RANDOM_POLICY : Z := 1.
Definition FIFO_POLICY : Z := 2.
Definition BIP_POLICY : Z := 3.
Definition LIP_POLICY : Z := 4.
Definition DIP_POLICY : Z := 5.
Definition DIP3_POLICY : Z := 6.
Definition DIP3_AGEING_POLICY : Z := 7.
Definition FIXED_WINDOW : Z := 20.
Definition SLIDING_WINDOW : Z := 21.
Definition ADAPTATIVE : Z := 22.
Definition NAIVE : Z := 23.
Definition ONLINE : Z := 24.
Definition CACHE_DUELING : Z := 25.
Definition LEARNING : Z := 26.

(** What a pointer to a set function can point to. *)
Inductive miss_function :=
| F_lru | F_lip | F_random | F_fifo | F_bip | F_dip | F_dip3 | F_dip3a | F_dueling.

#[export] Instance miss_function_eq_dec : EqDecision miss_function.
Proof. solve_decision. Defined.

Definition POLICIES : nat := 4.
Definition miss_functions : list miss_function := [F_lru; F_fifo; F_bip; F_random].
Definition names : list string := ["LRU"; "FIFO"; "BIP"; "RANDOM"]%string.

Record policy := mk_policy {
  p_I1 : cache_t2;
  p_D1 : cache_t2;
  p_LL : cache_t2;
  array_misses_LL : list Z;
  array_misses_D1 : list Z;
  uses : Z;
  misses_DL : Z;
  misses_IL : Z;
  misses_D1 : Z;
  misses_I1 : Z;
  historic_misses_LL : Z;
  historic_misses_D1 : Z;
  online_misses_LL : Z;
  online_misses_D1 : Z;
  bit_result_counter_D1 : Z;
  bit_result_counter_LL : Z;
  is_miss_func : miss_function;
  policy_name : string
}.

#[export] Instance policy_eta : RecordEta policy := fun p =>
  mk_policy (p_I1 p) (p_D1 p) (p_LL p) (array_misses_LL p) (array_misses_D1 p) (uses p)
    (misses_DL p) (misses_IL p) (misses_D1 p) (misses_I1 p) (historic_misses_LL p)
    (historic_misses_D1 p) (online_misses_LL p) (online_misses_D1 p) (bit_result_counter_D1 p)
    (bit_result_counter_LL p) (is_miss_func p) (policy_name p).

(** The globals of cg_arch.h. *)
Record cg_arch := mk_cg_arch {
  cache_replacement_policy : Z;
  bip_throttle_parameter : double;
  switching_threshold_parameter : Z;
  window_counter : Z;
  current_cache_replacement_policy : Z;
  current_adaptative_cache_replacement_policy : Z;
  overhead_allowed : bool
}.

#[export] Instance cg_arch_eta : RecordEta cg_arch := fun g =>
  mk_cg_arch (cache_replacement_policy g) (bip_throttle_parameter g)
    (switching_threshold_parameter g) (window_counter g) (current_cache_replacement_policy g)
    (current_adaptative_cache_replacement_policy g) (overhead_allowed g).

(** The [ULong] counters of a [LineCC]; a [ULong*] names one of them. *)
Inductive counter_field :=
| Ir_a | Ir_m1 | Ir_mL | Dr_a | Dr_m1 | Dr_mL | Dw_a | Dw_m1 | Dw_mL
| Bc_b | Bc_mp | Bi_b | Bi_mp.

#[export] Instance counter_field_eq_dec : EqDecision counter_field.
Proof. solve_decision. Defined.

Definition counter_fields : list counter_field :=
  [Ir_a; Ir_m1; Ir_mL; Dr_a; Dr_m1; Dr_mL; Dw_a; Dw_m1; Dw_mL; Bc_b; Bc_mp; Bi_b; Bi_mp].

Definition counter_field_code (f : counter_field) : nat :=
  match f with
  | Ir_a => 0 | Ir_m1 => 1 | Ir_mL => 2 | Dr_a => 3 | Dr_m1 => 4 | Dr_mL => 5 | Dw_a => 6
  | Dw_m1 => 7 | Dw_mL => 8 | Bc_b => 9 | Bc_mp => 10 | Bi_b => 11 | Bi_mp => 12
  end.

#[export] Instance counter_field_countable : Countable counter_field.
Proof.
  refine (inj_countable counter_field_code (fun n => counter_fields !! n) _). by intros [].
Defined.

Definition counter_ptr : Type := Z * counter_field.

Record sim := mk_sim {
  globals : cg_arch;
  LL : cache_t2;
  I1 : cache_t2;
  D1 : cache_t2;
  policies : list policy;
  missesIL : option counter_ptr;
  missesI1 : option counter_ptr;
  access_counter : Z;
  learning_counter : Z;
  data_blocks : Z;
  cachesim_setref_is_miss : miss_function;
  psel : Z;
  psel_1 : Z;
  psel_2 : Z;
  psel_3 : Z;
  blocks : Z;
  lastAddress : Z;
  file_counter : Z;
  index_selected_policy : Z;
  prev_index_selected_policy : Z;
  index_min_misses_policy : Z;
  fp : option string;
  learning_output : list (Z * Z * Z * Z);
  seed : Z;
  line_counters : gmap counter_ptr Z;
  can_open : string -> bool
}.

#[export] Instance sim_eta : RecordEta sim := fun s =>
  mk_sim (globals s) (LL s) (I1 s) (D1 s) (policies s) (missesIL s) (missesI1 s)
    (access_counter s) (learning_counter s) (data_blocks s) (cachesim_setref_is_miss s)
    (psel s) (psel_1 s) (psel_2 s) (psel_3 s) (blocks s) (lastAddress s) (file_counter s)
    (index_selected_policy s) (prev_index_selected_policy s) (index_min_misses_policy s)
    (fp s) (learning_output s) (seed s) (line_counters s)
    (can_open s).

(** ** Pointers to caches and counters *)

Inductive cache_ref :=
| R_I1 | R_D1 | R_LL
| P_I1 (i : Z) | P_D1 (i : Z) | P_LL (i : Z).

#[export] Instance cache_ref_eq_dec : EqDecision cache_ref.
Proof. solve_decision. Defined.

Definition get_policy (i : Z) : SE sim policy := fun s => let* p := rd (policies s) i in Ok (p, s).
Definition set_policy (i : Z) (p : policy) : SE sim unit := fun s =>
  let* ps := wr (policies s) i p in Ok (tt, s <| policies := ps |>).
Definition update_policy (i : Z) (f : policy -> policy) : SE sim unit :=
  p ← get_policy i; set_policy i (f p).

(** [*c]. *)
Definition get_cache (r : cache_ref) : SE sim cache_t2 :=
  match r with
  | R_I1 => gets I1
  | R_D1 => gets D1
  | R_LL => gets LL
  | P_I1 i => p ← get_policy i; mret (p_I1 p)
  | P_D1 i => p ← get_policy i; mret (p_D1 p)
  | P_LL i => p ← get_policy i; mret (p_LL p)
  end.

Definition set_cache (r : cache_ref) (c : cache_t2) : SE sim unit :=
  match r with
  | R_I1 => modify (fun s => s <| I1 := c |>)
  | R_D1 => modify (fun s => s <| D1 := c |>)
  | R_LL => modify (fun s => s <| LL := c |>)
  | P_I1 i => update_policy i (fun p => p <| p_I1 := c |>)
  | P_D1 i => update_policy i (fun p => p <| p_D1 := c |>)
  | P_LL i => update_policy i (fun p => p <| p_LL := c |>)
  end.

(** [*p += n] on a [ULong] counter. *)
Definition add_to_counter (p : counter_ptr) (n : Z) : SE sim unit := fun s =>
  match line_counters s !! p with
  | Some v => Ok (tt, s <| line_counters := <[p := u64 (v + n)]> (line_counters s) |>)
  | None => Err Undefined
  end.

(** [ *p += n] where [p] may be [NULL]. *)
Definition add_to_static_counter (p : option counter_ptr) (n : Z) : SE sim unit :=
  match p with Some p => add_to_counter p n | None => lift (Err Undefined) end.

(** ** The set functions on a cache of the simulator *)

(** Call a replacement policy on the cache [r]. *)
Definition run_policy (f : policy_impl) (r : cache_ref) (set_no tag : Z) : SE sim bool :=
  c ← get_cache r;
  sd ← gets seed;
  '(miss, c, sd) ← lift (f sd c set_no tag);
  modify (fun s => s <| seed := sd |>);;
  set_cache r c;;
  mret miss.

Definition setref_lru := run_policy (lift_policy cachesim_setref_is_miss_lru).
Definition setref_lip := run_policy (lift_policy cachesim_setref_is_miss_lip).
Definition setref_fifo := run_policy (lift_policy cachesim_setref_is_miss_fifo).
Definition setref_random := run_policy cachesim_setref_is_miss_random.
Definition setref_bip (r : cache_ref) (set_no tag : Z) : SE sim bool :=
  g ← gets globals;
  run_policy (cachesim_setref_is_miss_bip (bip_throttle_parameter g)) r set_no tag.

(** *** Set dueling between shadow caches *)

Definition psel_msb : Z := 8.
Definition psel_max : Z := 15.

(** [if (miss) { if (psel < psel_max) psel++; }] and its counterpart. *)
Definition psel_up (miss : bool) (psel : Z) : Z :=
  if miss then (if psel <? psel_max then psel + 1 else psel) else psel.
Definition psel_down (miss : bool) (psel : Z) : Z :=
  if miss then (if 0 <? psel then psel - 1 else psel) else psel.

Definition cachesim_setref_is_miss_dip (c : cache_ref) (set_no tag : Z) : SE sim bool :=
  if decide (c = R_D1) then
    is_miss_lru ← setref_lru (P_D1 0) set_no tag;
    is_miss_bip ← setref_bip (P_D1 2) set_no tag;
    modify (fun s => s <| psel := psel_up is_miss_lru (psel s) |>);;
    modify (fun s => s <| psel := psel_down is_miss_bip (psel s) |>);;
    v ← gets psel;
    if psel_msb <=? v then setref_bip c set_no tag else setref_lru c set_no tag
  else if decide (c = R_LL) then
    setref_lru (P_LL 0) set_no tag;;
    setref_bip (P_LL 2) set_no tag;;
    setref_lru c set_no tag
  else
    setref_lru (P_I1 0) set_no tag;;
    setref_bip (P_I1 2) set_no tag;;
    setref_lru c set_no tag.

(** The choice of [cachesim_setref_is_miss_dip3] from its three selectors. *)
Definition dip3_choice (psel_1 psel_2 psel_3 : Z) : miss_function :=
  if (psel_msb <=? psel_1) && (psel_msb <=? psel_3) then F_fifo
  else if (psel_1 <? psel_msb) && (psel_2 <? psel_msb) then F_lru
  else if (psel_msb <=? psel_2) && (psel_3 <? psel_msb) then F_bip
  else F_lru.

(** The selectors after the three shadow caches were accessed. *)
Definition dip3_update (miss_lru miss_fifo miss_bip : bool) (s : sim) : sim :=
  let s := s <| psel_1 := psel_up miss_lru (psel_1 s) |> <| psel_2 := psel_up miss_lru (psel_2 s) |> in
  let s := s <| psel_2 := psel_down miss_bip (psel_2 s) |> <| psel_3 := psel_up miss_bip (psel_3 s) |> in
  s <| psel_1 := psel_down miss_fifo (psel_1 s) |> <| psel_3 := psel_down miss_fifo (psel_3 s) |>.

Definition cachesim_setref_is_miss_dip3 (c : cache_ref) (set_no tag : Z) : SE sim bool :=
  if decide (c = R_D1) then
    is_miss_lru ← setref_lru (P_D1 0) set_no tag;
    is_miss_fifo ← setref_lru (P_D1 1) set_no tag;
    is_miss_bip ← setref_bip (P_D1 2) set_no tag;
    modify (dip3_update is_miss_lru is_miss_fifo is_miss_bip);;
    f ← gets (fun s => dip3_choice (psel_1 s) (psel_2 s) (psel_3 s));
    match f with
    | F_fifo => setref_fifo c set_no tag
    | F_bip => setref_bip c set_no tag
    | _ => setref_lru c set_no tag
    end
  else if decide (c = R_LL) then
    setref_lru (P_LL 0) set_no tag;;
    setref_lru (P_LL 1) set_no tag;;
    setref_bip (P_LL 2) set_no tag;;
    setref_lru c set_no tag
  else
    setref_lru (P_I1 0) set_no tag;;
    setref_lru (P_I1 1) set_no tag;;
    setref_bip (P_I1 2) set_no tag;;
    setref_lru c set_no tag.

(** ** The history of misses of a policy *)

(** One of the two histories a [policy] keeps (for LL and for D1). *)
Record history_state := mk_history {
  h_array : list Z;
  h_pos : Z;
  h_historic : Z;
  h_online : Z;
  h_total : Z
}.

Definition clamp (hi x : Z) : Z :=
  let x := if hi <? x then hi else x in
  if x <? 0 then 0 else x.

(** The body of either branch of [store_misses_history]; [counted] is the
    branch's test on [last_value]. *)
Definition history_step (window_counter : Z) (counted : bool) (last_value : Z) (h : history_state)
  : outcome history_state :=
  let* online := int_add (h_online h) (if counted then 1 else -1) in
  let total := if counted then u64 (h_total h + 1) else h_total h in
  let* old := rd (h_array h) (h_pos h) in
  let* (array, historic) :=
    if last_value =? old then Ok (h_array h, h_historic h)
    else
      let* historic := int_add (h_historic h) (if last_value =? 1 then 1 else -1) in
      let* array := wr (h_array h) (h_pos h) last_value in
      Ok (array, historic) in
  let* pos := int_add (h_pos h) 1 in
  Ok (mk_history array (if window_counter <=? pos then 0 else pos)
        (clamp window_counter historic) (clamp window_counter online) total).

Definition get_history (LL : bool) (p : policy) : history_state :=
  if LL then mk_history (array_misses_LL p) (bit_result_counter_LL p) (historic_misses_LL p)
               (online_misses_LL p) (misses_DL p)
  else mk_history (array_misses_D1 p) (bit_result_counter_D1 p) (historic_misses_D1 p)
         (online_misses_D1 p) (misses_D1 p).

Definition set_history (LL : bool) (h : history_state) (p : policy) : policy :=
  if LL then
    p <| array_misses_LL := h_array h |> <| bit_result_counter_LL := h_pos h |>
      <| historic_misses_LL := h_historic h |> <| online_misses_LL := h_online h |>
      <| misses_DL := h_total h |>
  else
    p <| array_misses_D1 := h_array h |> <| bit_result_counter_D1 := h_pos h |>
      <| historic_misses_D1 := h_historic h |> <| online_misses_D1 := h_online h |>
      <| misses_D1 := h_total h |>.

(** The new policy and the number of misses returned. *)
Definition store_misses_history_on (window_counter : Z) (p : policy) (last_value : Z) (LL : bool)
  : outcome (Z * policy) :=
  if window_counter =? 1 then Ok (last_value, p)
  else
    let counted := if LL then last_value =? 1 else negb (last_value =? 0) in
    let* h := history_step window_counter counted last_value (get_history LL p) in
    Ok (h_historic h, set_history LL h p).

Definition store_misses_history (i : Z) (last_value : Z) (LL : bool) : SE sim Z :=
  g ← gets globals;
  p ← get_policy i;
  '(r, p) ← lift (store_misses_history_on (window_counter g) p last_value LL);
  set_policy i p;;
  mret r.

(** [if (miss) store_misses_history(p, 1, b); else store_misses_history(p, 0, b);] *)
Definition store_result (i : Z) (miss LL : bool) : SE sim Z :=
  store_misses_history i (Z_of_bool miss) LL.

(** The policy of [dip3a] and of the follower sets: the first of LRU, FIFO and
    BIP that has no more misses in its history than the two others. *)
Definition best_of_three (h0 h1 h2 : Z) : miss_function :=
  if (h0 <=? h1) && (h0 <=? h2) then F_lru
  else if (h1 <=? h0) && (h1 <=? h2) then F_fifo
  else if (h2 <=? h1) && (h2 <=? h0) then F_bip
  else F_lru.

Definition run_best_of_three (c : cache_ref) (set_no tag : Z) : SE sim bool :=
  p0 ← get_policy 0;
  p1 ← get_policy 1;
  p2 ← get_policy 2;
  match best_of_three (historic_misses_D1 p0) (historic_misses_D1 p1) (historic_misses_D1 p2) with
  | F_fifo => setref_fifo c set_no tag
  | F_bip => setref_bip c set_no tag
  | _ => setref_lru c set_no tag
  end.

Definition cachesim_setref_is_miss_dip3a (c : cache_ref) (set_no tag : Z) : SE sim bool :=
  if decide (c = R_D1) then
    m0 ← setref_lru (P_D1 0) set_no tag;
    store_result 0 m0 false;;
    m1 ← setref_fifo (P_D1 1) set_no tag;
    store_result 1 m1 false;;
    m2 ← setref_bip (P_D1 2) set_no tag;
    store_result 2 m2 false;;
    run_best_of_three c set_no tag
  else if decide (c = R_LL) then
    setref_lru (P_LL 0) set_no tag;;
    setref_lru (P_LL 1) set_no tag;;
    setref_bip (P_LL 2) set_no tag;;
    setref_lru c set_no tag
  else
    setref_lru (P_I1 0) set_no tag;;
    setref_lru (P_I1 1) set_no tag;;
    setref_bip (P_I1 2) set_no tag;;
    setref_lru c set_no tag.

(** *** Dueling between the sets of one cache *)

(** The sets a long disjunction tests for: [base + k*n] for the [k] from 0 to
    31, [n] being 5, except that 9, 19 and 29 are added to 2. *)
Definition leader (base : Z) (set_no : Z) : bool :=
  existsb (fun k => set_no =? (if bool_decide (k ∈ [9; 19; 29]) then 2 else base) + k * 5)
    (Z.of_nat <$> seq 0 32).

(** A leader set: its policy runs on the cache and its result is recorded. *)
Definition run_leader (i : Z) (f : cache_ref -> Z -> Z -> SE sim bool)
    (c : cache_ref) (set_no tag : Z) : SE sim bool :=
  update_policy i (fun p => p <| uses := u64 (uses p + 1) |>);;
  modify (fun s => s <| data_blocks := u64 (data_blocks s + 1) |>);;
  miss ← f c set_no tag;
  store_result i miss false;;
  mret miss.

Definition cachesim_setref_is_miss_dueling (c : cache_ref) (set_no tag : Z) : SE sim bool :=
  if decide (c = R_I1) then setref_lru c set_no tag
  else if decide (c = R_LL) then
    miss ← setref_lru c set_no tag;
    store_result 0 miss true;;
    mret miss
  else if leader 1 set_no then run_leader 0 setref_lru c set_no tag
  else if leader 2 set_no then run_leader 1 setref_fifo c set_no tag
  else if leader 3 set_no then run_leader 2 setref_bip c set_no tag
  else run_best_of_three c set_no tag.

(** ** References to memory *)

(** A call through a pointer to a set function. *)
Definition call_miss_function (f : miss_function) (c : cache_ref) (set_no tag : Z) : SE sim bool :=
  match f with
  | F_lru => setref_lru c set_no tag
  | F_lip => setref_lip c set_no tag
  | F_random => setref_random c set_no tag
  | F_fifo => setref_fifo c set_no tag
  | F_bip => setref_bip c set_no tag
  | F_dip => cachesim_setref_is_miss_dip c set_no tag
  | F_dip3 => cachesim_setref_is_miss_dip3 c set_no tag
  | F_dip3a => cachesim_setref_is_miss_dip3a c set_no tag
  | F_dueling => cachesim_setref_is_miss_dueling c set_no tag
  end.

(** [a >> c->line_size_bits]. *)
Definition block_of (c : cache_t2) (a : Z) : outcome Z :=
  let* _ := defined_when ((0 <=? c_line_size_bits c) && (c_line_size_bits c <? 64)) in
  Ok (Z.shiftr a (c_line_size_bits c)).

(** [block & c->sets_min_1], as a [UInt]. *)
Definition set_no_of (c : cache_t2) (block : Z) : Z := u32 (Z.land block (u64 (c_sets_min_1 c))).

Definition cachesim_ref_is_miss (c : cache_ref) (a size : Z) : SE sim bool :=
  let size := u8 size in
  cc ← get_cache c;
  block1 ← lift (block_of cc a);
  block2 ← lift (block_of cc (u64 (a + size - 1)));
  f ← gets cachesim_setref_is_miss;
  let set1 := set_no_of cc block1 in
  if block1 =? block2 then call_miss_function f c set1 block1
  else if u64 (block1 + 1) =? block2 then
    let set2 := set_no_of cc block2 in
    m1 ← call_miss_function f c set1 block1;
    m2 ← call_miss_function f c set2 block2;
    mret (m1 || m2)
  else lift (Err Panic).

(** ** Initialisation *)

Definition init_policy (g : cg_arch) (I1c D1c LLc : cache_t) (old : policy) (f : miss_function)
    (nm : string) : outcome policy :=
  let* i1 := cachesim_initcache I1c in
  let* d1 := cachesim_initcache D1c in
  let* ll := cachesim_initcache LLc in
  let* a1 := malloc_zeroed (window_counter g) in
  let* aL := malloc_zeroed (window_counter g) in
  let online := cache_replacement_policy g =? ONLINE in
  Ok (mk_policy i1 d1 ll aL a1 0 (if online then u64 (window_counter g) / 2 else 0) 0 0 0 0 0
        (online_misses_LL old) (online_misses_D1 old) 0 0 f nm).

Fixpoint init_policies (g : cg_arch) (I1c D1c LLc : cache_t) (l : list (policy * miss_function * string))
  : outcome (list policy) :=
  match l with
  | [] => Ok []
  | (old, f, nm) :: l =>
      let* p := init_policy g I1c D1c LLc old f nm in
      let* ps := init_policies g I1c D1c LLc l in
      Ok (p :: ps)
  end.

(** The function used for the result. *)
Definition result_function (cache_replacement_policy : Z) : miss_function :=
  let sel := Z.eqb cache_replacement_policy in
  if sel LRU_POLICY then F_lru
  else if sel LIP_POLICY then F_lip
  else if sel RANDOM_POLICY then F_random
  else if sel FIFO_POLICY then F_fifo
  else if sel BIP_POLICY then F_bip
  else if sel DIP_POLICY then F_dip
  else if sel DIP3_POLICY then F_dip3
  else if sel DIP3_AGEING_POLICY then F_dip3a
  else if sel CACHE_DUELING then F_dueling
  else F_lru.

Definition cachesim_initcaches (I1c D1c LLc : cache_t) : SE sim unit := fun s =>
  let g := globals s in
  let dip3 := (cache_replacement_policy g =? DIP3_POLICY)
              || (cache_replacement_policy g =? DIP3_AGEING_POLICY) in
  let shadow := 32 * assoc_ D1c * line_size_ D1c in
  let D1c := if dip3 && overhead_allowed g
             then mk_cache_t (size_ D1c - 3 * shadow) (assoc_ D1c) (line_size_ D1c) else D1c in
  let* i1 := cachesim_initcache I1c in
  let* d1 := cachesim_initcache D1c in
  let* ll := cachesim_initcache LLc in
  let D1c := if dip3 then mk_cache_t shadow (assoc_ D1c) (line_size_ D1c) else D1c in
  let* ps := init_policies g I1c D1c LLc (zip (zip (policies s) miss_functions) names) in
  Ok (tt, s <| I1 := i1 |> <| D1 := d1 |> <| LL := ll |> <| policies := ps |>
            <| cachesim_setref_is_miss := result_function (cache_replacement_policy g) |>).

(** The statics before any of the code has run; [can_open] is the file
    system's answer to opening a file for writing. *)
Definition no_cache : cache_t2 := mk_cache_t2 0 0 0 0 0 0 0 EmptyString [] [].
Definition no_policy : policy :=
  mk_policy no_cache no_cache no_cache [] [] 0 0 0 0 0 0 0 0 0 0 0 F_lru EmptyString.
Definition sim_static (g : cg_arch) (can_open : string -> bool) : sim :=
  mk_sim g no_cache no_cache no_cache (replicate POLICIES no_policy) None None 0 0 0 F_lru
    8 8 8 8 0 0 0 0 0 0 None [] 0 ∅ can_open.

(** Does this instruction read touch one line of equal I1 and LL line sizes? *)
Definition cachesim_is_IrNoX (a size : Z) : SE sim bool :=
  let size := u8 size in
  i1 ← gets I1;
  ll ← gets LL;
  if negb (c_line_size_bits i1 =? c_line_size_bits ll) then mret false
  else
    block1 ← lift (block_of i1 a);
    block2 ← lift (block_of i1 (u64 (a + size - 1)));
    mret (block1 =? block2).
