(* ===== verification/DoRef.v ===== *)
(** * References to the simulated caches: the entry points of cg_sim.c

    [cachesim_I1_doref_Gen], [cachesim_I1_doref_NoX] and [cachesim_D1_doref],
    the last one split into the blocks of its body.  Their parameter [size] is an
    [UChar], to which the argument is converted. *)

From Stdlib Require Import SpecFloat.
From S2P Require Import Prelude LibcBase SetRef Printf CacheSim.

(** [for (i = 0; i < POLICIES; i++)]. *)
Definition policy_indices : list Z := [0; 1; 2; 3].

(** [current_cache_replacement_policy] is one of [l]. *)
Definition current_is (l : list Z) : SE sim bool :=
  gets (fun s => existsb (Z.eqb (current_cache_replacement_policy (globals s))) l).

Definition set_miss_function (f : miss_function) : SE sim unit :=
  modify (fun s => s <| cachesim_setref_is_miss := f |>).

Definition incr_uses (i : Z) : SE sim unit :=
  update_policy i (fun p => p <| uses := u64 (uses p + 1) |>).

(** [if (ref L1 misses) { *m1 += 1; if (ref LL misses) *mL += 1; }] *)
Definition ref_two_levels (l1 ll : cache_ref) (a size : Z) (m1 mL : counter_ptr) : SE sim unit :=
  miss ← cachesim_ref_is_miss l1 a size;
  when miss (
    add_to_counter m1 1;;
    missL ← cachesim_ref_is_miss ll a size;
    when missL (add_to_counter mL 1)).

(** ** Instruction reads *)

Definition I1_doref_policy_Gen (a size i : Z) : SE sim unit :=
  p ← get_policy i;
  set_miss_function (is_miss_func p);;
  miss ← cachesim_ref_is_miss (P_I1 i) a size;
  when miss (
    update_policy i (fun p => p <| misses_I1 := u64 (misses_I1 p + 1) |>);;
    missL ← cachesim_ref_is_miss (P_LL i) a size;
    when missL (update_policy i (fun p => p <| misses_IL := u64 (misses_IL p + 1) |>))).

Definition cachesim_I1_doref_Gen (a size : Z) (m1 mL : counter_ptr) : SE sim unit :=
  let size := u8 size in
  modify (fun s => s <| missesI1 := Some m1 |> <| missesIL := Some mL |>);;
  multi ← current_is [FIXED_WINDOW; SLIDING_WINDOW; ONLINE; LEARNING];
  when multi (for_each policy_indices (I1_doref_policy_Gen a size));;
  ref_two_levels R_I1 R_LL a size m1 mL.

Definition I1_doref_policy_NoX (I1_set block i : Z) : SE sim unit :=
  p ← get_policy i;
  miss ← call_miss_function (is_miss_func p) (P_I1 i) I1_set block;
  when miss (
    ll ← gets LL;
    update_policy i (fun p => p <| misses_I1 := u64 (misses_I1 p + 1) |>);;
    missL ← call_miss_function (is_miss_func p) (P_LL i) (set_no_of ll block) block;
    when missL (update_policy i (fun p => p <| misses_IL := u64 (misses_IL p + 1) |>))).

Definition cachesim_I1_doref_NoX (a size : Z) (m1 mL : counter_ptr) : SE sim unit :=
  let size := u8 size in
  modify (fun s => s <| missesI1 := Some m1 |> <| missesIL := Some mL |>);;
  i1 ← gets I1;
  block ← lift (block_of i1 a);
  let I1_set := set_no_of i1 block in
  multi ← current_is [FIXED_WINDOW; SLIDING_WINDOW; ONLINE; LEARNING];
  when multi (for_each policy_indices (I1_doref_policy_NoX I1_set block));;
  f ← gets cachesim_setref_is_miss;
  miss ← call_miss_function f R_I1 I1_set block;
  when miss (
    ll ← gets LL;
    add_to_counter m1 1;;
    missL ← call_miss_function f R_LL (set_no_of ll block) block;
    when missL (add_to_counter mL 1)).

(** ** Data references *)

(** The learning approach: every policy runs and one line is written.  The
    file name goes to an array of 15 characters. *)
Definition learning_filename (file_counter : Z) : outcome string :=
  let* n := fmt_d file_counter in
  let name := ("learning_" +:+ n +:+ ".dat")%string in
  let* _ := defined_when (Z.of_nat (String.length name) + 1 <=? 15) in
  Ok name.

Definition learning_max : Z := 10000000.

(** Open the next output file when there is none or it is long enough; the
    result tells whether there is a file to write to. *)
Definition learning_open : SE sim bool :=
  s ← gets id;
  if bool_decide (fp s = None) || (learning_max <? access_counter s) then
    name ← lift (learning_filename (file_counter s));
    counter ← lift (int_add (file_counter s) 1);
    modify (fun s => s <| access_counter := 0 |> <| file_counter := counter |>
                       <| fp := if can_open s name then Some name else None |>);;
    mret (can_open s name)
  else mret true.

(** One policy of the learning loop: 1 for a hit in D1. *)
Definition learning_result (a size i : Z) : SE sim Z :=
  p ← get_policy i;
  set_miss_function (is_miss_func p);;
  miss ← cachesim_ref_is_miss (P_D1 i) a size;
  if (miss : bool) then cachesim_ref_is_miss (P_LL i) a size;; mret 0 else mret 1.

Definition D1_doref_learning (a size : Z) (m1 mL : counter_ptr) : SE sim unit :=
  set_miss_function F_lru;;
  ref_two_levels R_D1 R_LL a size m1 mL;;
  opened ← learning_open;
  when opened (
    r0 ← learning_result a size 0;
    r1 ← learning_result a size 1;
    r2 ← learning_result a size 2;
    r3 ← learning_result a size 3;
    modify (fun s => s <| learning_counter := u64 (learning_counter s + 1) |>);;
    s ← gets id;
    let difAddress := s64 (a - lastAddress s) in
    modify (fun s => s <| lastAddress := a |>);;
    let resultBits := 1 * r0 + 2 * r1 + 4 * r2 + 8 * r3 in
    p ← get_policy 0;
    block1 ← lift (block_of (p_D1 p) a);
    let set1 := set_no_of (p_D1 p) block1 in
    modify (fun s => s <| learning_output := learning_output s ++ [(difAddress, set1, resultBits, a)] |>)).

(** One policy of the comparison loop; [min_misses] is the [ULong] local. *)
Definition D1_doref_policy (a size i min_misses : Z) : SE sim Z :=
  p ← get_policy i;
  set_miss_function (is_miss_func p);;
  miss ← cachesim_ref_is_miss (P_D1 i) a size;
  (if (miss : bool) then
     store_misses_history i 1 false;;
     missL ← cachesim_ref_is_miss (P_LL i) a size;
     store_result i missL true;;
     mret tt
   else store_misses_history i 0 false;; mret tt);;
  p ← get_policy i;
  online ← current_is [ONLINE];
  let misses := u64 (if (online : bool) then online_misses_D1 p else historic_misses_D1 p) in
  if misses <? min_misses then
    modify (fun s => s <| index_min_misses_policy := i |>);; mret misses
  else mret min_misses.

(** The end of a fixed window: the policy with the fewest misses gives its
    counts and its caches. *)
Definition copy_policy_caches (p : policy) (i : Z) : SE sim unit :=
  q ← get_policy i;
  i1 ← lift (copy_caches (p_I1 p) (p_I1 q));
  d1 ← lift (copy_caches (p_D1 p) (p_D1 q));
  ll ← lift (copy_caches (p_LL p) (p_LL q));
  set_policy i (q <| p_I1 := i1 |> <| p_D1 := d1 |> <| p_LL := ll |>).

Definition fixed_window_policy (m1 mL : counter_ptr) (i : Z) : SE sim unit :=
  s ← gets id;
  (if negb (i =? index_min_misses_policy s) then
     best ← get_policy (index_min_misses_policy s);
     copy_policy_caches best i
   else
     incr_uses i;;
     p ← get_policy i;
     add_to_counter m1 (misses_D1 p);;
     add_to_counter mL (misses_DL p);;
     add_to_static_counter (missesI1 s) (misses_I1 p);;
     add_to_static_counter (missesIL s) (misses_IL p));;
  a1 ← lift (malloc_zeroed (window_counter (globals s)));
  aL ← lift (malloc_zeroed (window_counter (globals s)));
  update_policy i (fun p =>
    p <| array_misses_D1 := a1 |> <| array_misses_LL := aL |>
      <| historic_misses_D1 := 0 |> <| historic_misses_LL := 0 |>
      <| misses_DL := 0 |> <| misses_IL := 0 |> <| misses_D1 := 0 |> <| misses_I1 := 0 |>).

Definition D1_doref_fixed_window (m1 mL : counter_ptr) : SE sim unit :=
  s ← gets id;
  when (u64 (window_counter (globals s)) <=? blocks s) (
    for_each policy_indices (fixed_window_policy m1 mL);;
    modify (fun s => s <| blocks := 0 |> <| data_blocks := u64 (data_blocks s + 1) |>)).

(** Switch to the policy with the fewest misses when it is better by more than
    the threshold; [misses] is the counter the approach compares. *)
Definition D1_doref_select (misses : policy -> Z) : SE sim unit :=
  s ← gets id;
  best ← get_policy (index_min_misses_policy s);
  cur ← get_policy (index_selected_policy s);
  bound ← lift (int_add (misses cur) (- switching_threshold_parameter (globals s)));
  when (misses best <? bound)
    (modify (fun s => s <| index_selected_policy := index_min_misses_policy s |>));;
  s ← gets id;
  p ← get_policy (index_selected_policy s);
  set_miss_function (is_miss_func p);;
  incr_uses (index_selected_policy s).

(** The approach where the policy comes from the program or from a random
    number. *)
Definition D1_doref_adaptative : SE sim unit :=
  naive ← current_is [NAIVE];
  when naive (modify (fun s =>
    let r := VG_random (seed s) in
    s <| seed := r |>
      <| globals := (globals s) <| current_adaptative_cache_replacement_policy := r mod 4 |> |>));;
  s ← gets id;
  let policy := current_adaptative_cache_replacement_policy (globals s) in
  let sel := Z.eqb policy in
  if sel LRU_POLICY then set_miss_function F_lru;; incr_uses 0
  else if sel LIP_POLICY then set_miss_function F_lip
  else if sel RANDOM_POLICY then incr_uses 3;; set_miss_function F_random
  else if sel FIFO_POLICY then incr_uses 1;; set_miss_function F_fifo
  else if sel BIP_POLICY then incr_uses 2;; set_miss_function F_bip
  else if sel DIP_POLICY then set_miss_function F_dip
  else set_miss_function F_lru;; incr_uses 0.

(** The reference of the result caches. *)
Definition D1_doref_result (a size : Z) (m1 mL : counter_ptr) : SE sim unit :=
  modify (fun s => s <| data_blocks := u64 (data_blocks s + 1) |>);;
  ref_two_levels R_D1 R_LL a size m1 mL.

Definition cachesim_D1_doref (a size : Z) (m1 mL : counter_ptr) : SE sim unit :=
  let size := u8 size in
  modify (fun s => s <| access_counter := u64 (access_counter s + 1) |>
                     <| blocks := u64 (blocks s + 1) |>);;
  learning ← current_is [LEARNING];
  if (learning : bool) then D1_doref_learning a size m1 mL
  else
    windowed ← current_is [FIXED_WINDOW; SLIDING_WINDOW; ONLINE];
    fixed ← current_is [FIXED_WINDOW];
    sliding ← current_is [SLIDING_WINDOW];
    online ← current_is [ONLINE];
    when windowed (
      when sliding (
        s ← gets id;
        p ← get_policy (index_selected_policy s);
        set_miss_function (is_miss_func p);;
        incr_uses (index_selected_policy s);;
        modify (fun s => s <| prev_index_selected_policy := index_selected_policy s |>));;
      for_fold policy_indices (2 ^ 64 - 1) (D1_doref_policy a size);;
      mret tt);;
    if (fixed : bool) then D1_doref_fixed_window m1 mL
    else
      when online (D1_doref_select online_misses_D1);;
      when sliding (D1_doref_select historic_misses_D1);;
      adaptative ← current_is [ADAPTATIVE; NAIVE];
      when adaptative D1_doref_adaptative;;
      D1_doref_result a size m1 mL.
