(* ===== verification/SimTheory.v ===== *)
(** * What the cache simulator computes

    The caches of a [sim] seen through their pointers, the specification of one
    memory reference as a run over the lines it touches, and the theorems on
    initialisation, references, the instrumentation-time special case and the
    miss histories. *)

From Stdlib Require Import SpecFloat.
From S2P Require Import Prelude Float LibcBase SetRef PolicyTheory Printf CacheSim DoRef.

(** ** The caches of a state *)

Definition policy_at (i : Z) (s : sim) : option policy :=
  if 0 <=? i then policies s !! Z.to_nat i else None.

Definition cache_at (r : cache_ref) (s : sim) : option cache_t2 :=
  match r with
  | R_I1 => Some (I1 s)
  | R_D1 => Some (D1 s)
  | R_LL => Some (LL s)
  | P_I1 i => p_I1 <$> policy_at i s
  | P_D1 i => p_D1 <$> policy_at i s
  | P_LL i => p_LL <$> policy_at i s
  end.

Definition put_policy (i : Z) (f : policy -> policy) (s : sim) : sim :=
  s <| policies := alter f (Z.to_nat i) (policies s) |>.

Definition put_cache (r : cache_ref) (c : cache_t2) (s : sim) : sim :=
  match r with
  | R_I1 => s <| I1 := c |>
  | R_D1 => s <| D1 := c |>
  | R_LL => s <| LL := c |>
  | P_I1 i => put_policy i (fun p => p <| p_I1 := c |>) s
  | P_D1 i => put_policy i (fun p => p <| p_D1 := c |>) s
  | P_LL i => put_policy i (fun p => p <| p_LL := c |>) s
  end.

Lemma get_policy_at i s p : policy_at i s = Some p -> get_policy i s = Ok (p, s).
Proof.
  unfold policy_at, get_policy, rd. destruct (0 <=? i); [|done]. by intros ->.
Qed.

Lemma set_policy_at i s p q :
  policy_at i s = Some p -> set_policy i q s = Ok (tt, put_policy i (fun _ => q) s).
Proof.
  unfold policy_at. destruct (Z.leb_spec 0 i); [|done]. intros Hp. unfold set_policy.
  apply lookup_lt_Some in Hp as Hlt. rewrite wr_in by lia. cbn [obind].
  unfold put_policy. do 3 f_equal. apply list_eq. intros j.
  destruct (decide (j = Z.to_nat i)) as [->|].
  - rewrite list_lookup_insert_eq by done. rewrite list_lookup_alter_eq, Hp. done.
  - by rewrite list_lookup_insert_ne, list_lookup_alter_ne by done.
Qed.

Lemma alter_const {A} (f : A -> A) (l : list A) i x :
  l !! i = Some x -> alter (fun _ => f x) i l = alter f i l.
Proof.
  intros H. apply list_eq. intros j. destruct (decide (j = i)) as [->|].
  - by rewrite !list_lookup_alter_eq, H.
  - by rewrite !list_lookup_alter_ne.
Qed.

Lemma update_policy_at i s p f :
  policy_at i s = Some p -> update_policy i f s = Ok (tt, put_policy i f s).
Proof.
  intros Hp. unfold update_policy, mbind, SE_bind. rewrite (get_policy_at _ _ _ Hp).
  rewrite (set_policy_at _ _ _ _ Hp). unfold put_policy. do 3 f_equal.
  unfold policy_at in Hp. destruct (0 <=? i); [|done]. by apply alter_const.
Qed.

Lemma get_cache_at r s c : cache_at r s = Some c -> get_cache r s = Ok (c, s).
Proof.
  destruct r; cbn [cache_at get_cache]; try (by intros [= <-]);
    destruct (policy_at i s) as [p|] eqn:E; cbn; try done; intros [= <-];
    unfold mbind, SE_bind; by rewrite (get_policy_at _ _ _ E).
Qed.

Lemma set_cache_at r s c c' : cache_at r s = Some c -> set_cache r c' s = Ok (tt, put_cache r c' s).
Proof.
  destruct r; cbn [cache_at set_cache]; try done;
    destruct (policy_at i s) as [p|] eqn:E; cbn; try done; intros _;
    by rewrite (update_policy_at _ _ _ _ E).
Qed.

Lemma policy_at_put i f s : policy_at i (put_policy i f s) = f <$> policy_at i s.
Proof.
  unfold policy_at, put_policy. destruct (0 <=? i); [|done].
  cbn [policies set_field]. by rewrite list_lookup_alter_eq.
Qed.


Lemma cache_at_put r s c c' : cache_at r s = Some c -> cache_at r (put_cache r c' s) = Some c'.
Proof.
  destruct r; cbn [cache_at put_cache]; try done; rewrite policy_at_put;
    destruct (policy_at i s); by intros [= <-].
Qed.


Lemma policy_at_same_policies i s s' : policies s = policies s' -> policy_at i s = policy_at i s'.
Proof. unfold policy_at. by intros ->. Qed.


Lemma alter_twice {A} (f g : A -> A) (l : list A) i :
  alter g i (alter f i l) = alter (fun p => g (f p)) i l.
Proof.
  apply list_eq. intros j. destruct (decide (j = i)) as [->|].
  - rewrite !list_lookup_alter_eq. by destruct (l !! i).
  - by rewrite !list_lookup_alter_ne.
Qed.

Lemma put_put_policy i f g s : put_policy i g (put_policy i f s) = put_policy i (fun p => g (f p)) s.
Proof.
  unfold put_policy.
  change (s <| policies := alter g (Z.to_nat i) (alter f (Z.to_nat i) (policies s)) |>
          = s <| policies := alter (fun p => g (f p)) (Z.to_nat i) (policies s) |>).
  f_equal. apply alter_twice.
Qed.

Lemma put_put_cache r s c c' : put_cache r c' (put_cache r c s) = put_cache r c' s.
Proof.
  destruct r; cbn [put_cache]; try done; rewrite put_put_policy; done.
Qed.

(** What a set function leaves alone. *)
Lemma put_cache_seed r c s : seed (put_cache r c s) = seed s.
Proof. by destruct r. Qed.
Lemma put_cache_globals r c s : globals (put_cache r c s) = globals s.
Proof. by destruct r. Qed.
Lemma put_cache_function r c s :
  cachesim_setref_is_miss (put_cache r c s) = cachesim_setref_is_miss s.
Proof. by destruct r. Qed.
Lemma put_cache_counters r c s : line_counters (put_cache r c s) = line_counters s.
Proof. by destruct r. Qed.
Lemma put_cache_set_seed r c s v : put_cache r c (s <| seed := v |>) = (put_cache r c s) <| seed := v |>.
Proof. by destruct r. Qed.
Create Rewrite HintDb sim_rw.
#[export] Hint Rewrite put_cache_seed put_cache_globals put_cache_function put_cache_counters
  put_cache_set_seed put_put_cache : sim_rw.

(** ** The policies that one cache follows *)

Definition simple (f : miss_function) : bool :=
  match f with F_lru | F_lip | F_random | F_fifo | F_bip => true | _ => false end.

(** The reference policy of a set function. *)
Definition ref_of (g : cg_arch) (f : miss_function) : ref_policy :=
  match f with
  | F_lip => lip_ref
  | F_random => random_ref
  | F_fifo => fifo_ref
  | F_bip => bip_ref (bip_throttle_parameter g)
  | _ => lru_ref
  end.

#[export] Instance ref_of_policy g f : ReplacementPolicy (ref_of g f).
Proof. destruct f; exact _. Qed.

Lemma run_policy_spec impl ref `{Implements impl ref} r k tag s c :
  cache_at r s = Some c -> wf_cache c -> 0 <= k < c_sets c ->
  run_policy impl r k tag s =
    let '(miss, st, sd) := ref (seed s) tag (set_of c k) in
    Ok (miss, put_cache r (with_set c k st) s <| seed := sd |>).
Proof.
  intros Hr Hc Hk. unfold run_policy, mbind, SE_bind. rewrite (get_cache_at _ _ _ Hr).
  cbn [gets]. unfold lift. rewrite (implements (ref := ref)) by done.
  destruct (ref (seed s) tag (set_of c k)) as [[miss st] sd] eqn:Eref. cbn [obind modify].
  rewrite (set_cache_at r _ c) by (by destruct r). unfold mret, SE_ret.
  by rewrite put_cache_set_seed.
Qed.

Lemma call_simple_spec f r k tag s c :
  simple f = true -> cache_at r s = Some c -> wf_cache c -> 0 <= k < c_sets c ->
  call_miss_function f r k tag s =
    let '(miss, st, sd) := ref_of (globals s) f (seed s) tag (set_of c k) in
    Ok (miss, put_cache r (with_set c k st) s <| seed := sd |>).
Proof.
  intros Hf Hr Hc Hk.
  destruct f; try discriminate Hf; cbn [call_miss_function ref_of];
    try (by apply (run_policy_spec _ _)).
  unfold setref_bip, mbind, SE_bind. cbn [gets]. by apply (run_policy_spec _ _).
Qed.

(** ** The lines of a reference *)

(** The blocks (line addresses) of the [size] bytes from [a]. *)
Definition lines_of (bits a size : Z) : list Z :=
  (fun n => a / 2 ^ bits + Z.of_nat n) <$>
    seq 0 (Z.to_nat ((a + size - 1) / 2 ^ bits - a / 2 ^ bits + 1)).

(** Reference the blocks [bs] in order: a miss when any of them misses. *)
Fixpoint touch (ref : ref_policy) (sd : Z) (c : cache_t2) (bs : list Z) : bool * cache_t2 * Z :=
  match bs with
  | [] => (false, c, sd)
  | b :: bs =>
      let '(m, st, sd) := ref sd b (set_of c (set_no_of c b)) in
      let '(ms, c, sd) := touch ref sd (with_set c (set_no_of c b) st) bs in
      (m || ms, c, sd)
  end.

Lemma set_no_of_range c b : wf_cache c -> 0 <= set_no_of c b < c_sets c.
Proof.
  intros Hc. destruct Hc. unfold set_no_of.
  assert (Hm : 0 <= c_sets_min_1 c < 2 ^ 31) by nia.
  rewrite (u64_small (c_sets_min_1 c)) by lia.
  pose proof (land_le_r b (c_sets_min_1 c)). rewrite u32_small by lia. lia.
Qed.

(** The mask selects the block number modulo the number of sets when that is a
    power of two. *)
Lemma set_no_of_mod c b n : wf_cache c -> c_sets c = 2 ^ n -> 0 <= n -> set_no_of c b = b mod c_sets c.
Proof.
  intros Hc Hs Hn. pose proof (set_no_of_range c b Hc) as Hr. destruct Hc. unfold set_no_of in *.
  assert (Hm : 0 <= c_sets_min_1 c < 2 ^ 31) by nia.
  rewrite (u64_small (c_sets_min_1 c)) in * by lia.
  pose proof (land_le_r b (c_sets_min_1 c)). rewrite u32_small by lia.
  rewrite wf_mask, Hs. replace (2 ^ n - 1) with (Z.ones n) by (rewrite Z.ones_equiv; lia).
  by apply Z.land_ones.
Qed.

Lemma block_of_ok c a : wf_cache c -> block_of c a = Ok (a / 2 ^ c_line_size_bits c).
Proof.
  intros Hc. destruct Hc. unfold block_of.
  assert ((0 <=? c_line_size_bits c) && (c_line_size_bits c <? 64) = true) as ->
    by (apply andb_true_iff; split; [apply Z.leb_le | apply Z.ltb_lt]; lia).
  cbn [defined_when obind]. by rewrite Z.shiftr_div_pow2 by lia.
Qed.

Lemma with_set_wf ref `{ReplacementPolicy ref} c k sd tag :
  wf_cache c -> 0 <= k < c_sets c -> wf_cache (with_set c k (ref sd tag (set_of c k)).1.2).
Proof.
  intros Hc Hk. apply (wf_with_set c k Hc Hk).
  rewrite ref_length by (by apply set_of_not_nil). by apply set_of_length.
Qed.

Lemma touch_wf ref `{ReplacementPolicy ref} bs sd c : wf_cache c -> wf_cache (touch ref sd c bs).1.2.
Proof.
  revert sd c. induction bs as [|b bs IH]; intros sd c Hc; cbn [touch]; [done|].
  pose proof (with_set_wf ref c (set_no_of c b) sd b Hc (set_no_of_range c b Hc)) as Hw.
  destruct (ref sd b (set_of c (set_no_of c b))) as [[m st] sd']. cbn [fst snd] in Hw.
  specialize (IH sd' _ Hw). by destruct (touch ref sd' _ bs) as [[ms c'] sd''].
Qed.

Lemma lines_of_one bits a size :
  (a + size - 1) / 2 ^ bits = a / 2 ^ bits -> lines_of bits a size = [a / 2 ^ bits].
Proof.
  intros E. unfold lines_of. rewrite E. replace (Z.to_nat _) with 1%nat by lia.
  cbn [seq fmap list_fmap]. by rewrite Z.add_0_r.
Qed.

Lemma lines_of_two bits a size :
  (a + size - 1) / 2 ^ bits = a / 2 ^ bits + 1 ->
  lines_of bits a size = [a / 2 ^ bits; a / 2 ^ bits + 1].
Proof.
  intros E. unfold lines_of. rewrite E. replace (Z.to_nat _) with 2%nat by lia.
  cbn [seq fmap list_fmap]. by rewrite Z.add_0_r.
Qed.

Lemma cache_at_seed r s v : cache_at r (s <| seed := v |>) = cache_at r s.
Proof. by destruct r. Qed.

(** A reference that touches one or two lines. *)
Lemma ref_is_miss_run r a size s c :
  simple (cachesim_setref_is_miss s) = true -> cache_at r s = Some c -> wf_cache c ->
  0 <= a -> 1 <= size < 2 ^ 8 -> a + size <= 2 ^ 64 ->
  (a + size - 1) / 2 ^ c_line_size_bits c <= a / 2 ^ c_line_size_bits c + 1 ->
  cachesim_ref_is_miss r a size s =
    let '(miss, c', sd) := touch (ref_of (globals s) (cachesim_setref_is_miss s)) (seed s) c
                             (lines_of (c_line_size_bits c) a size) in
    Ok (miss, put_cache r c' s <| seed := sd |>).
Proof.
  intros Hf Hr Hc Ha Hs Hmax Hspan. pose proof (wf_bits c Hc) as Hb.
  assert (Hpow : 0 < 2 ^ c_line_size_bits c) by (apply Z.pow_pos_nonneg; lia).
  assert (Hmono : a / 2 ^ c_line_size_bits c <= (a + size - 1) / 2 ^ c_line_size_bits c)
    by (apply Z.div_le_mono; lia).
  assert (Hlt : (a + size - 1) / 2 ^ c_line_size_bits c < 2 ^ 64).
  { apply Z.div_lt_upper_bound; [lia|]. nia. }
  assert (H0 : 0 <= a / 2 ^ c_line_size_bits c) by (apply Z.div_pos; lia).
  unfold cachesim_ref_is_miss, mbind, SE_bind. rewrite u8_small by lia. rewrite (get_cache_at _ _ _ Hr).
  unfold lift. rewrite !block_of_ok by done. rewrite u64_small by lia. cbn [obind gets].
  set (b := a / 2 ^ c_line_size_bits c) in *.
  set (f := cachesim_setref_is_miss s) in *.
  set (k := set_no_of c b).
  pose proof (set_no_of_range c b Hc) as Hk. fold k in Hk.
  destruct (Z.eqb_spec b ((a + size - 1) / 2 ^ c_line_size_bits c)) as [E|E].
  - rewrite lines_of_one by (by rewrite <-E). fold b. cbn [touch]. fold k.
    rewrite (call_simple_spec _ _ _ _ _ _ Hf Hr Hc Hk).
    destruct (ref_of (globals s) f (seed s) b (set_of c k)) as [[m st] sd]. by rewrite orb_false_r.
  - assert (E2 : (a + size - 1) / 2 ^ c_line_size_bits c = b + 1) by lia.
    rewrite lines_of_two by done. fold b. rewrite E2.
    rewrite u64_small by lia. rewrite Z.eqb_refl. cbn [touch]. fold k.
    rewrite (call_simple_spec _ _ _ _ _ _ Hf Hr Hc Hk).
    pose proof (with_set_wf (ref_of (globals s) f) c k (seed s) b Hc Hk) as Hw.
    destruct (ref_of (globals s) f (seed s) b (set_of c k)) as [[m st] sd]. cbn [fst snd] in Hw.
    set (c1 := with_set c k st) in *.
    change (set_no_of c (b + 1)) with (set_no_of c1 (b + 1)).
    rewrite (call_simple_spec f r _ _ _ c1);
      [| done | apply (cache_at_put r _ c); by rewrite cache_at_seed | done | by apply set_no_of_range].
    rewrite put_cache_globals, put_cache_seed.
    change (globals s <| seed := sd |>) with (globals s).
    change (seed s <| seed := sd |>) with sd.
    destruct (ref_of (globals s) f sd (b + 1) (set_of c1 (set_no_of c1 (b + 1)))) as [[m2 st2] sd2].
    rewrite orb_false_r. cbn [mret SE_ret].
    rewrite !put_cache_set_seed, put_put_cache. done.
Qed.




(** ** Initialisation *)

(** The [Int] that [VG_(log2)] returns is an integer: the other branch of
    [cachesim_initcache] is never taken. *)
Lemma isInteger_log2 x : isInteger (double_of_Z (VG_log2 x)) = true.
Proof.
  assert (Hall : Forall (fun n => isInteger (double_of_Z (Z.of_nat n - 1)) = true) (seq 0 33)).
  { apply (bool_decide_unpack _). vm_compute. exact I. }
  pose proof (VG_log2_range x) as Hr.
  rewrite Forall_forall in Hall. specialize (Hall (Z.to_nat (VG_log2 x + 1))).
  replace (Z.of_nat (Z.to_nat (VG_log2 x + 1)) - 1) with (VG_log2 x) in Hall by lia.
  apply Hall. apply elem_of_seq. lia.
Qed.

Lemma desc_line_ok size assoc line :
  - 2 ^ 31 <= size < 2 ^ 31 -> - 2 ^ 31 <= assoc < 2 ^ 31 -> - 2 ^ 31 <= line < 2 ^ 31 ->
  exists d, desc_line size assoc line = Ok d.
Proof.
  intros H1 H2 H3. unfold desc_line. rewrite !fmt_d_spec by lia. cbn [obind].
  case_test; eauto.
Qed.

(** An empty cache with these sets, ways and lines. *)
Definition fresh_cache (c : cache_t2) (sets assoc line_size : Z) : Prop :=
  c_size c = sets * assoc * line_size /\ c_assoc c = assoc /\ c_line_size c = line_size
  /\ c_sets c = sets /\ c_tags c = replicate (Z.to_nat (sets * assoc)) 0
  /\ c_line_size_bits c = VG_log2 line_size
  /\ c_tag_shift c = VG_log2 line_size + VG_log2 sets.

(** What a cache has to be configured with: positive sizes, a power-of-two line,
    whole sets. *)
Record valid_config (config : cache_t) (sets : Z) : Prop := {
  vc_sets : 0 < sets;
  vc_assoc : 0 < assoc_ config;
  vc_line : exists k, 0 <= k < 31 /\ line_size_ config = 2 ^ k;
  vc_size : size_ config = sets * assoc_ config * line_size_ config;
  vc_int : size_ config < 2 ^ 31
}.

(** Any positive geometry with a power-of-two line gives a well-formed cache. *)
Lemma initcache_general config sets k :
  0 < assoc_ config -> 0 <= k < 31 -> line_size_ config = 2 ^ k -> size_ config < 2 ^ 31 ->
  sets = Z.quot (Z.quot (size_ config) (line_size_ config)) (assoc_ config) -> 0 < sets ->
  exists c, cachesim_initcache config = Ok c /\ wf_cache c /\ c_size c = size_ config
    /\ c_assoc c = assoc_ config /\ c_line_size c = line_size_ config /\ c_sets c = sets
    /\ c_tags c = replicate (Z.to_nat (sets * assoc_ config)) 0
    /\ c_line_size_bits c = VG_log2 (line_size_ config)
    /\ c_tag_shift c = VG_log2 (line_size_ config) + VG_log2 sets.
Proof.
  intros Hassoc Hk Hline Hint Hquot Hsets.
  assert (Hl : 0 < line_size_ config) by (rewrite Hline; apply Z.pow_pos_nonneg; lia).
  assert (Hl31 : line_size_ config < 2 ^ 31) by (rewrite Hline; apply Z.pow_lt_mono_r; lia).
  assert (Hpos : 0 < size_ config).
  { destruct (Z.lt_ge_cases 0 (size_ config)) as [|Hneg]; [done|exfalso].
    assert (Z.quot (size_ config) (line_size_ config) <= 0) as Hq1.
    { rewrite <-(Z.quot_0_l (line_size_ config)) by lia. apply Z.quot_le_mono; lia. }
    assert (sets <= 0); [|lia]. rewrite Hquot, <-(Z.quot_0_l (assoc_ config)) by lia.
    apply Z.quot_le_mono; lia. }
  rewrite !Z.quot_div_nonneg in Hquot by (try apply Z.div_pos; try apply Z.quot_pos; lia).
  assert (Hprod : sets * assoc_ config * line_size_ config <= size_ config).
  { pose proof (Z.mul_div_le (size_ config / line_size_ config) (assoc_ config) ltac:(lia)).
    pose proof (Z.mul_div_le (size_ config) (line_size_ config) ltac:(lia)). nia. }
  assert (Hsa : 0 < sets * assoc_ config) by nia.
  assert (Hfit : sets * assoc_ config < 2 ^ 31) by nia.
  assert (Hs31 : sets < 2 ^ 31) by nia. assert (Ha31 : assoc_ config < 2 ^ 31) by nia.
  destruct (desc_line_ok (size_ config) (assoc_ config) (line_size_ config)) as [d Hd]; [lia..|].
  unfold cachesim_initcache, cache_geometry.
  rewrite !Z.quot_div_nonneg by (try apply Z.div_pos; try apply Z.quot_pos; lia). rewrite <-Hquot.
  destruct (Z.eqb_spec (line_size_ config) 0); [lia|].
  destruct (Z.eqb_spec (assoc_ config) 0); [lia|]. cbn [negb defined_when obind].
  destruct (Z.leb_spec 0 sets); [|lia]. cbn [defined_when obind].
  rewrite isInteger_log2. cbn [obind]. rewrite Hd. cbn [obind].
  unfold malloc_zeroed. destruct (Z.ltb_spec (sets * assoc_ config) 0); [lia|].
  destruct (Z.ltb_spec sets 0); [lia|]. cbn [obind].
  rewrite !u32_small by lia. eexists. split; [reflexivity|]. split_and!; try done.
  split; cbn; rewrite ?length_replicate; try lia.
  rewrite Hline, VG_log2_pow2 by lia. lia.
Qed.

Lemma initcache_ok config sets :
  valid_config config sets ->
  exists c, cachesim_initcache config = Ok c /\ wf_cache c
    /\ fresh_cache c sets (assoc_ config) (line_size_ config).
Proof.
  intros [Hsets Hassoc (k & Hk & Hline) Hsize Hint].
  assert (Hl : 0 < line_size_ config) by (rewrite Hline; apply Z.pow_pos_nonneg; lia).
  destruct (initcache_general config sets k) as (c & Hc & Hw & Hs & Hrest); try done.
  - rewrite Hsize. by rewrite !Z.quot_mul by lia.
  - exists c. split; [done|]. split; [done|]. split; [congruence | exact Hrest].
Qed.

(** A cache configured with positive sizes, a power-of-two line and a whole
    number of sets is built with that geometry, well-formed and empty; when
    the number of sets is a power of two, a block goes to the set of its
    number modulo the sets, and every set is some block's. *)
Theorem initcache_geometry config sets (Hv : valid_config config sets) :
  exists c, cachesim_initcache config = Ok c /\ wf_cache c
    /\ fresh_cache c sets (assoc_ config) (line_size_ config)
    /\ (forall b, 0 <= set_no_of c b < sets)
    /\ (VG_log2 sets <> -1 -> forall b, set_no_of c b = b mod sets).
Proof.
  destruct (initcache_ok config sets Hv) as (c & Hc & Hwf & Hfresh).
  exists c. split_and!; [done..| |]; destruct Hfresh as (_ & _ & _ & Hs & _); rewrite <-Hs.
  - intros b. by apply set_no_of_range.
  - intros Hlog b. apply VG_log2_inv in Hlog as [Hr Hpow].
    apply (set_no_of_mod _ _ _ Hwf Hpow). lia.
Qed.

Lemma initcache_geometry_witness :
  valid_config (mk_cache_t 32768 8 64) 64
  /\ exists c, cachesim_initcache (mk_cache_t 32768 8 64) = Ok c /\ wf_cache c
    /\ fresh_cache c 64 8 64
    /\ (forall b, 0 <= set_no_of c b < 64)
    /\ (VG_log2 64 <> -1 -> forall b, set_no_of c b = b mod 64).
Proof.
  assert (Hv : valid_config (mk_cache_t 32768 8 64) 64).
  { split; cbn; try lia. exists 6. lia. }
  split; [exact Hv | exact (initcache_geometry _ _ Hv)].
Defined.

(** A bit below the top bit that a number that is not [2^n - 1] has clear. *)
Lemma clear_bit m : 0 < m -> m <> Z.ones (Z.log2 m + 1) ->
  exists i, 0 <= i <= Z.log2 m /\ Z.testbit m i = false.
Proof.
  intros Hm Hne. set (n := Z.log2 m). pose proof (Z.log2_nonneg m) as Hn. fold n in Hn.
  destruct (Z.log2_spec m Hm) as [Hlo Hhi]. fold n in Hlo, Hhi.
  assert (Ho : Z.ones (n + 1) = 2 ^ (n + 1) - 1) by (rewrite Z.ones_equiv; lia).
  set (d := Z.ones (n + 1) - m).
  assert (Hsub : Z.ldiff m (Z.ones (n + 1)) = 0).
  { apply Z.bits_inj'. intros k Hk. rewrite Z.ldiff_spec, Z.bits_0.
    destruct (Z.lt_ge_cases k (n + 1)).
    - rewrite Z.ones_spec_low by lia. by rewrite andb_false_r.
    - rewrite (testbit_above m (n + 1) k) by (rewrite <-Z.add_1_r in Hhi; lia). done. }
  assert (Hd : d = Z.ldiff (Z.ones (n + 1)) m) by (subst d; by apply Z.sub_nocarry_ldiff).
  fold n in Hne. assert (Hd0 : 0 < d) by (unfold d; rewrite <-Z.add_1_r in Hhi; lia).
  exists (Z.log2 d).
  pose proof (Z.bit_log2 d Hd0) as Hbit. rewrite Hd in Hbit at 1. rewrite Z.ldiff_spec in Hbit.
  apply andb_true_iff in Hbit as [Hb1 Hb2]. apply negb_true_iff in Hb2. split; [|done].
  split; [apply Z.log2_nonneg|].
  destruct (Z.lt_ge_cases (Z.log2 d) (n + 1)); [lia|].
  rewrite Z.ones_spec_high in Hb1 by lia. done.
Qed.

(** when the number of sets is not a power of two, which the code means to
    allow, the mask [sets - 1] leaves some set that no block is ever mapped
    to, and the tag shift is computed from a logarithm of -1. *)
Theorem nonpow2_sets_unused config sets (Hv : valid_config config sets)
    (Hlog : VG_log2 sets = -1) :
  exists c k, cachesim_initcache config = Ok c /\ 0 < k < c_sets c
    /\ (forall b, set_no_of c b <> k) /\ c_tag_shift c = c_line_size_bits c - 1.
Proof.
  destruct (initcache_ok config sets Hv) as (c & Hc & Hwf & Hfresh).
  destruct Hfresh as (_ & _ & _ & Hs & _ & Hbits & Hshift).
  destruct Hwf. assert (Hm : 0 <= sets - 1 < 2 ^ 31) by nia.
  assert (sets <> 1) by (intros ->; discriminate Hlog).
  destruct (clear_bit (sets - 1)) as (i & Hi & Hbit).
  { destruct Hv. lia. }
  { intros E. rewrite Z.ones_equiv in E.
    assert (Hpow : sets = 2 ^ (Z.log2 (sets - 1) + 1)) by lia.
    assert (Hlt : Z.log2 (sets - 1) < 31) by (apply Z.log2_lt_pow2; lia).
    pose proof (Z.log2_nonneg (sets - 1)).
    pose proof (VG_log2_pow2 (Z.log2 (sets - 1) + 1) ltac:(lia)) as Hl. rewrite <-Hpow in Hl. lia. }
  exists c, (2 ^ i). split_and!; [done | apply Z.pow_pos_nonneg; lia | | |].
  - rewrite Hs. apply Z.le_lt_trans with (sets - 1); [|lia].
    transitivity (2 ^ Z.log2 (sets - 1)); [apply Z.pow_le_mono_r; lia|].
    apply Z.log2_spec. lia.
  - intros b E. unfold set_no_of in E. rewrite wf_mask, Hs in E. rewrite u64_small in E by lia.
    pose proof (land_le_r b (sets - 1)). rewrite u32_small in E by lia.
    apply (f_equal (fun z => Z.testbit z i)) in E.
    rewrite Z.land_spec, Hbit, andb_false_r, Z.pow2_bits_true in E by lia. done.
  - rewrite Hshift, Hbits, Hlog. lia.
Qed.

Lemma nonpow2_sets_unused_witness :
  VG_log2 3 = -1 /\ exists c k, cachesim_initcache (mk_cache_t 192 1 64) = Ok c /\ 0 < k < c_sets c
    /\ (forall b, set_no_of c b <> k) /\ c_tag_shift c = c_line_size_bits c - 1.
Proof.
  assert (Hv : valid_config (mk_cache_t 192 1 64) 3) by (split; cbn; try lia; exists 6; lia).
  assert (Hl : VG_log2 3 = -1) by reflexivity.
  split; [exact Hl | exact (nonpow2_sets_unused _ _ Hv Hl)].
Defined.

(** ** References through two levels *)

(** The first level, and the last level when the first misses. *)
Definition two_level (ref : ref_policy) (sd : Z) (l1 ll : cache_t2) (a size : Z)
  : bool * bool * cache_t2 * cache_t2 * Z :=
  let '(m1, l1, sd) := touch ref sd l1 (lines_of (c_line_size_bits l1) a size) in
  if m1 then
    let '(mL, ll, sd) := touch ref sd ll (lines_of (c_line_size_bits ll) a size) in
    (true, mL, l1, ll, sd)
  else (false, false, l1, ll, sd).

(** One more miss in a counter. *)
Definition bump (p : counter_ptr) (b : bool) (m : gmap counter_ptr Z) : gmap counter_ptr Z :=
  if b then alter (fun v => u64 (v + 1)) p m else m.

Lemma add_to_counter_ok p n s v :
  line_counters s !! p = Some v ->
  add_to_counter p n s = Ok (tt, s <| line_counters := alter (fun v => u64 (v + n)) p (line_counters s) |>).
Proof.
  intros Hp. unfold add_to_counter. rewrite Hp. do 3 f_equal. apply map_eq. intros q.
  destruct (decide (p = q)) as [<-|].
  - by rewrite lookup_insert_eq, lookup_alter_eq, Hp.
  - by rewrite lookup_insert_ne, lookup_alter_ne.
Qed.

(** A reference that fits the lines of [c]. *)
Definition fits (c : cache_t2) (size : Z) : Prop := size <= 2 ^ c_line_size_bits c.

Lemma fits_span c a size :
  wf_cache c -> fits c size -> 0 <= a -> 1 <= size ->
  (a + size - 1) / 2 ^ c_line_size_bits c <= a / 2 ^ c_line_size_bits c + 1.
Proof.
  unfold fits. intros Hc Hs Ha H1. pose proof (wf_bits c Hc).
  assert (0 < 2 ^ c_line_size_bits c) by (apply Z.pow_pos_nonneg; lia).
  transitivity ((a + 1 * 2 ^ c_line_size_bits c) / 2 ^ c_line_size_bits c);
    [apply Z.div_le_mono; lia | rewrite Z.div_add by lia; lia].
Qed.

(** The state after a reference through [r1] and LL. *)
Definition after_two_levels (r1 : cache_ref) (l1 ll : cache_t2) (sd : Z) (m1 mL : counter_ptr)
    (miss missL : bool) (s : sim) : sim :=
  put_cache R_LL ll (put_cache r1 l1
    (s <| seed := sd |> <| line_counters := bump mL missL (bump m1 miss (line_counters s)) |>)).

Lemma ref_two_levels_spec r1 l1 a size m1 mL s :
  r1 = R_I1 \/ r1 = R_D1 -> simple (cachesim_setref_is_miss s) = true ->
  cache_at r1 s = Some l1 -> wf_cache l1 -> wf_cache (LL s) ->
  fits l1 size -> fits (LL s) size -> 0 <= a -> 1 <= size < 2 ^ 8 -> a + size <= 2 ^ 64 ->
  is_Some (line_counters s !! m1) -> is_Some (line_counters s !! mL) ->
  ref_two_levels r1 R_LL a size m1 mL s =
    let '(miss, missL, c1, cL, sd) :=
      two_level (ref_of (globals s) (cachesim_setref_is_miss s)) (seed s) l1 (LL s) a size in
    Ok (tt, after_two_levels r1 c1 cL sd m1 mL miss missL s).
Proof.
  intros Hr1 Hf Hl1 Hw1 HwL Hfit HfitL Ha Hs Hmax [v1 Hm1] [vL HmL]. pose proof Hs as [Hsz _].
  unfold ref_two_levels, two_level, mbind, SE_bind.
  rewrite (ref_is_miss_run r1 a size s l1) by (auto using fits_span).
  destruct (touch _ (seed s) l1 _) as [[miss c1] sd1] eqn:E1.
  set (s1 := put_cache r1 c1 s <| seed := sd1 |>).
  assert (Hs1 : globals s1 = globals s /\ cachesim_setref_is_miss s1 = cachesim_setref_is_miss s
                /\ LL s1 = LL s /\ seed s1 = sd1 /\ line_counters s1 = line_counters s)
    by (destruct Hr1 as [-> | ->]; done).
  destruct Hs1 as (Hg & Hfn & HLL & Hsd & Hlc).
  destruct miss; cbn [when].
  2: { unfold mret, SE_ret. destruct Hr1 as [-> | ->]; reflexivity. }
  rewrite (add_to_counter_ok m1 1 s1 v1) by (by rewrite Hlc).
  set (s2 := s1 <| line_counters := _ |>).
  rewrite (ref_is_miss_run R_LL a size s2 (LL s)); cycle 1.
  { change (simple (cachesim_setref_is_miss s1) = true). by rewrite Hfn. }
  { change (Some (LL s1) = Some (LL s)). by rewrite HLL. }
  1-5: auto using fits_span.
  change (globals s2) with (globals s1). change (seed s2) with (seed s1).
  change (cachesim_setref_is_miss s2) with (cachesim_setref_is_miss s1).
  rewrite Hg, Hfn, Hsd.
  destruct (touch _ sd1 (LL s) _) as [[missL cL] sd2].
  destruct missL; cbn [when].
  - rewrite (add_to_counter_ok mL 1 _ (if decide (m1 = mL) then u64 (vL + 1) else vL)).
    + unfold s2, s1. destruct Hr1 as [-> | ->]; reflexivity.
    + change (line_counters (put_cache R_LL cL s2 <| seed := sd2 |>)) with
        (alter (fun v => u64 (v + 1)) m1 (line_counters s1)). rewrite Hlc.
      case_decide as Heq; [subst mL; by rewrite lookup_alter_eq, HmL|].
      by rewrite lookup_alter_ne.
  - unfold mret, SE_ret, s2, s1. destruct Hr1 as [-> | ->]; reflexivity.
Qed.

(** No approach that runs several policies or changes the policy. *)
Definition approaches : list Z :=
  [FIXED_WINDOW; SLIDING_WINDOW; ONLINE; LEARNING; ADAPTATIVE; NAIVE].
Definition single_policy (s : sim) : bool :=
  negb (existsb (Z.eqb (current_cache_replacement_policy (globals s))) approaches).

Lemma single_policy_is s s' l :
  single_policy s = true -> (forall x, x ∈ l -> x ∈ approaches) -> globals s' = globals s ->
  current_is l s' = Ok (false, s').
Proof.
  intros Hs Hl Hg. unfold current_is, gets. rewrite Hg. do 2 f_equal.
  unfold single_policy in Hs. apply negb_true_iff in Hs.
  destruct (existsb _ l) eqn:E; [|done]. apply existsb_exists in E as (x & Hx & Heq).
  rewrite <-Hs. symmetry. apply existsb_exists. exists x. split; [|done].
  apply list_elem_of_In, Hl. by apply list_elem_of_In.
Qed.

(** With a single replacement policy, a data reference accesses D1, and LL
    just when D1 misses, with that policy; it adds one to the D1 counter of
    its source line exactly when D1 misses and one to the LL counter exactly
    when both miss, and changes no other counter, no I1 and no shadow cache. *)
Theorem D1_doref_single_policy a size m1 mL s
    (Hone : single_policy s = true) (Hf : simple (cachesim_setref_is_miss s) = true)
    (Hw1 : wf_cache (D1 s)) (HwL : wf_cache (LL s)) (Hfit : fits (D1 s) size) (HfitL : fits (LL s) size)
    (Ha : 0 <= a) (Hs : 1 <= size < 2 ^ 8) (Hmax : a + size <= 2 ^ 64)
    (Hm1 : is_Some (line_counters s !! m1)) (HmL : is_Some (line_counters s !! mL)) :
  exists s', cachesim_D1_doref a size m1 mL s = Ok (tt, s')
    /\ (let '(miss, missL, c1, cL, sd) :=
          two_level (ref_of (globals s) (cachesim_setref_is_miss s)) (seed s) (D1 s) (LL s) a size in
        D1 s' = c1 /\ LL s' = cL /\ seed s' = sd
        /\ line_counters s' = bump mL missL (bump m1 miss (line_counters s))
        /\ wf_cache c1 /\ wf_cache cL)
    /\ I1 s' = I1 s /\ policies s' = policies s /\ globals s' = globals s
    /\ data_blocks s' = u64 (data_blocks s + 1).
Proof.
  unfold cachesim_D1_doref, D1_doref_result, mbind, SE_bind. rewrite u8_small by lia. cbn [modify].
  repeat (rewrite (single_policy_is s); [cbn [when mret SE_ret] | exact Hone | set_solver | reflexivity]).
  rewrite (ref_two_levels_spec R_D1 (D1 s)); auto.
  pose proof (touch_wf (ref_of (globals s) (cachesim_setref_is_miss s))
    (lines_of (c_line_size_bits (D1 s)) a size) (seed s) (D1 s) Hw1) as Hc1.
  unfold two_level. cbn [globals seed LL cachesim_setref_is_miss set_field].
  destruct (touch _ (seed s) (D1 s) _) as [[[] c1] sd1]; cbn [fst snd] in Hc1.
  - pose proof (touch_wf (ref_of (globals s) (cachesim_setref_is_miss s))
      (lines_of (c_line_size_bits (LL s)) a size) sd1 (LL s) HwL) as HcL.
    destruct (touch _ sd1 (LL s) _) as [[mL' cL] sd2]; cbn [fst snd] in HcL.
    eexists. split; [reflexivity|]. split_and!; done.
  - eexists. split; [reflexivity|]. split_and!; done.
Qed.

(** A concrete state: three 128-byte 2-way caches with 16-byte lines, one
    source line. *)
Definition lru_globals : cg_arch := mk_cg_arch LRU_POLICY (double_of_Z 0) 0 8 LRU_POLICY 0 false.
Definition tiny_config : cache_t := mk_cache_t 128 2 16.
Definition tiny_counters : gmap counter_ptr Z :=
  list_to_map ((fun f => ((0, f), 0)) <$> counter_fields).
Definition tiny_sim (g : cg_arch) : sim :=
  match cachesim_initcaches tiny_config tiny_config tiny_config (sim_static g (fun _ => true)) with
  | Ok (_, s) => s <| line_counters := tiny_counters |>
  | Err _ => sim_static g (fun _ => true)
  end.

Definition tiny_cache : cache_t2 :=
  mk_cache_t2 128 2 16 4 3 4 6 "128 B, 16 B, 2-way associative" (replicate 8 0) (replicate 4 0).

Lemma tiny_cache_wf : wf_cache tiny_cache.
Proof. by split. Qed.

Lemma tiny_sim_D1 : D1 (tiny_sim lru_globals) = tiny_cache.
Proof. vm_compute. reflexivity. Qed.
Lemma tiny_sim_I1 : I1 (tiny_sim lru_globals) = tiny_cache.
Proof. vm_compute. reflexivity. Qed.
Lemma tiny_sim_LL : LL (tiny_sim lru_globals) = tiny_cache.
Proof. vm_compute. reflexivity. Qed.


(** A line of 256 bytes and a reference to the whole of it. *)
Example whole_line_of_256_panics :
  (let* (_, s) := cachesim_initcaches (mk_cache_t 1024 2 256) (mk_cache_t 1024 2 256) (mk_cache_t 1024 2 256)
      (sim_static lru_globals (fun _ => true)) in
   cachesim_ref_is_miss R_D1 4096 256 s) = Err Panic.
Proof. vm_compute. reflexivity. Qed.

Lemma D1_doref_single_policy_witness :
  exists s', cachesim_D1_doref 30 4 (0, Dr_m1) (0, Dr_mL) (tiny_sim lru_globals) = Ok (tt, s')
    /\ (let '(miss, missL, c1, cL, sd) :=
          two_level (ref_of lru_globals F_lru) 0 (D1 (tiny_sim lru_globals)) (LL (tiny_sim lru_globals)) 30 4 in
        D1 s' = c1 /\ LL s' = cL /\ seed s' = sd
        /\ line_counters s' = bump (0, Dr_mL) missL (bump (0, Dr_m1) miss (line_counters (tiny_sim lru_globals)))
        /\ wf_cache c1 /\ wf_cache cL)
    /\ I1 s' = I1 (tiny_sim lru_globals) /\ policies s' = policies (tiny_sim lru_globals)
    /\ globals s' = globals (tiny_sim lru_globals)
    /\ data_blocks s' = u64 (data_blocks (tiny_sim lru_globals) + 1).
Proof.
  apply (D1_doref_single_policy 30 4 (0, Dr_m1) (0, Dr_mL) (tiny_sim lru_globals)).
  - reflexivity.
  - reflexivity.
  - rewrite tiny_sim_D1. exact tiny_cache_wf.
  - rewrite tiny_sim_LL. exact tiny_cache_wf.
  - rewrite tiny_sim_D1. unfold fits. cbn. lia.
  - rewrite tiny_sim_LL. unfold fits. cbn. lia.
  - lia.
  - lia.
  - lia.
  - vm_compute. by eexists.
  - vm_compute. by eexists.
Defined.

(** ** The special case of instruction reads *)

(** A policy changes nothing but the tags. *)
Definition only_tags (impl : policy_impl) : Prop :=
  forall sd c k tag m c' sd', impl sd c k tag = Ok (m, c', sd') -> exists t, c' = with_tags c t.

Ltac run_impl H :=
  repeat match type of H with
  | obind ?m _ = Ok _ => destruct m eqn:?; cbn [obind] in H; [|discriminate H]
  | (if ?b then _ else _) = Ok _ => destruct b eqn:?
  | match ?m with Some _ => _ | None => _ end = Ok _ => destruct m eqn:?
  | Ok _ = Ok _ => injection H as <- <- <-
  end.

Lemma with_tags_id c : c = with_tags c (c_tags c).
Proof. by destruct c. Qed.

Lemma only_tags_lift f :
  (forall c k tag m c', f c k tag = Ok (m, c') -> exists t, c' = with_tags c t) ->
  only_tags (lift_policy f).
Proof.
  intros Hf sd c k tag m c' sd' H. unfold lift_policy in H.
  destruct (f c k tag) as [[m1 c1]|] eqn:E; [|discriminate H]. cbn [obind] in H.
  injection H as <- <- <-. by eapply Hf.
Qed.

Ltac run_impl2 H :=
  repeat match type of H with
  | obind ?m _ = Ok _ => destruct m eqn:?; cbn [obind] in H; [|discriminate H]
  | (if ?b then _ else _) = Ok _ => destruct b eqn:?
  | match ?m with Some _ => _ | None => _ end = Ok _ => destruct m eqn:?
  | Ok _ = Ok _ => injection H as <- <-
  end.

Lemma lru_only_tags : only_tags (lift_policy cachesim_setref_is_miss_lru).
Proof.
  apply only_tags_lift. intros c k tag m c' H. unfold cachesim_setref_is_miss_lru in H.
  run_impl2 H; eauto using with_tags_id.
Qed.

Lemma lip_only_tags : only_tags (lift_policy cachesim_setref_is_miss_lip).
Proof.
  apply only_tags_lift. intros c k tag m c' H. unfold cachesim_setref_is_miss_lip in H.
  run_impl2 H; eauto using with_tags_id.
Qed.

Lemma fifo_only_tags : only_tags (lift_policy cachesim_setref_is_miss_fifo).
Proof.
  apply only_tags_lift. intros c k tag m c' H. unfold cachesim_setref_is_miss_fifo in H.
  run_impl2 H; eauto using with_tags_id.
Qed.

Lemma random_only_tags : only_tags cachesim_setref_is_miss_random.
Proof.
  intros sd c k tag m c' sd' H. unfold cachesim_setref_is_miss_random in H.
  run_impl H; eauto using with_tags_id.
Qed.

Lemma bip_only_tags th : only_tags (cachesim_setref_is_miss_bip th).
Proof.
  intros sd c k tag m c' sd' H. unfold cachesim_setref_is_miss_bip in H.
  run_impl H; eauto using with_tags_id.
Qed.

Definition is_result (r : cache_ref) : bool :=
  match r with R_I1 | R_D1 | R_LL => true | _ => false end.

(** What no set function changes: the geometry of the result caches, the
    function in force and the globals. *)
Definition same_shape (s s' : sim) : Prop :=
  (forall r, is_result r = true ->
     (fun c => (c_sets_min_1 c, c_line_size_bits c)) <$> cache_at r s'
     = (fun c => (c_sets_min_1 c, c_line_size_bits c)) <$> cache_at r s)
  /\ cachesim_setref_is_miss s' = cachesim_setref_is_miss s /\ globals s' = globals s.

#[export] Instance same_shape_preorder : PreOrder same_shape.
Proof.
  split; [by intros s|]. intros s1 s2 s3 (H1 & H2 & H3) (H4 & H5 & H6).
  split_and!; [|congruence..]. intros r Hr. by rewrite H4, H1.
Qed.

Lemma preserves_run_policy impl r k tag : only_tags impl -> preserves same_shape (run_policy impl r k tag).
Proof.
  intros Himp s m s' H. unfold run_policy, mbind, SE_bind in H.
  destruct (get_cache r s) as [[c s0]|] eqn:Eg; [|discriminate H].
  assert (s0 = s /\ cache_at r s = Some c) as [-> Hr].
  { destruct r; cbn [get_cache cache_at] in *; try (by injection Eg as <- <-);
      unfold mbind, SE_bind, get_policy, rd, policy_at in *; destruct (0 <=? i); try discriminate Eg;
      destruct (policies s !! Z.to_nat i); try discriminate Eg; cbn in Eg; by injection Eg as <- <-. }
  cbn [gets] in H. unfold lift in H.
  destruct (impl (seed s) c k tag) as [[[m' c'] sd]|] eqn:Ei; [|discriminate H].
  cbn [obind modify] in H. rewrite (set_cache_at r _ c) in H by (by destruct r).
  injection H as <- <-. apply Himp in Ei as [t ->].
  split_and!; [|by destruct r..].
  intros r' Hr'. destruct r, r'; cbn in Hr |- *; try injection Hr as ->; done.
Qed.

Lemma preserves_modify_shape f :
  (forall s, same_shape s (f s)) -> preserves same_shape (modify f).
Proof. intros Hf s a s' [= <- <-]. apply Hf. Qed.

Lemma same_shape_policies s ps : same_shape s (s <| policies := ps |>).
Proof. split_and!; [|done..]. intros r Hr. by destruct r. Qed.

Lemma preserves_get_policy i : preserves same_shape (get_policy i).
Proof.
  intros s a s' H. unfold get_policy in H. destruct (rd (policies s) i); [|discriminate H].
  injection H as <- <-. reflexivity.
Qed.

Lemma preserves_set_policy i p : preserves same_shape (set_policy i p).
Proof.
  intros s a s' H. unfold set_policy in H. destruct (wr (policies s) i p); [|discriminate H].
  injection H as <- <-. apply same_shape_policies.
Qed.

Create HintDb shape.
#[export] Hint Resolve preserves_run_policy lru_only_tags lip_only_tags fifo_only_tags
  random_only_tags bip_only_tags preserves_get_policy preserves_set_policy : shape.
#[export] Hint Extern 1 (PreOrder _) => exact same_shape_preorder : shape.
#[export] Hint Extern 1 (preserves same_shape (run_policy _ _ _ _)) =>
  apply preserves_run_policy; solve [eauto with shape] : shape.

(** Split a computation into its steps. *)
Ltac shape :=
  repeat (intros; match goal with
  | |- preserves _ (mbind _ _) => apply (preserves_bind _)
  | |- preserves _ (mret _) => apply (preserves_ret _)
  | |- preserves _ (gets _) => apply (preserves_gets _)
  | |- preserves _ (lift _) => apply (preserves_lift _)
  | |- preserves _ (if ?b then _ else _) => destruct b
  | |- preserves _ (match ?f with F_lru => _ | _ => _ end) => destruct f
  | |- preserves _ (let '(_, _) := ?p in _) => destruct p
  | |- preserves _ (modify _) =>
      apply preserves_modify_shape; intros ?; split_and!; [intros []; done | done..]
  | |- preserves _ _ => solve [eauto with shape]
  end).

Lemma preserves_lru r k tag : preserves same_shape (setref_lru r k tag).
Proof. apply preserves_run_policy, lru_only_tags. Qed.
Lemma preserves_lip r k tag : preserves same_shape (setref_lip r k tag).
Proof. apply preserves_run_policy, lip_only_tags. Qed.
Lemma preserves_fifo r k tag : preserves same_shape (setref_fifo r k tag).
Proof. apply preserves_run_policy, fifo_only_tags. Qed.
Lemma preserves_random r k tag : preserves same_shape (setref_random r k tag).
Proof. apply preserves_run_policy, random_only_tags. Qed.
Lemma preserves_bip r k tag : preserves same_shape (setref_bip r k tag).
Proof. unfold setref_bip. shape. Qed.
#[export] Hint Resolve preserves_lru preserves_lip preserves_fifo preserves_random preserves_bip : shape.

Lemma preserves_update_policy i f : preserves same_shape (update_policy i f).
Proof. unfold update_policy. shape. Qed.
Lemma preserves_store i v b : preserves same_shape (store_misses_history i v b).
Proof. unfold store_misses_history. shape. Qed.
#[export] Hint Resolve preserves_update_policy preserves_store : shape.

Lemma preserves_best r k tag : preserves same_shape (run_best_of_three r k tag).
Proof. unfold run_best_of_three. shape. Qed.
Lemma preserves_leader i f r k tag :
  (forall r k tag, preserves same_shape (f r k tag)) -> preserves same_shape (run_leader i f r k tag).
Proof. intros Hf. unfold run_leader, store_result. shape. Qed.
#[export] Hint Resolve preserves_best preserves_leader : shape.

(** No call through the function pointer changes the pointer or the geometry. *)
Lemma call_keeps_shape f r k tag : preserves same_shape (call_miss_function f r k tag).
Proof.
  destruct f; cbn [call_miss_function];
    unfold cachesim_setref_is_miss_dip, cachesim_setref_is_miss_dip3, cachesim_setref_is_miss_dip3a,
      cachesim_setref_is_miss_dueling, store_result; shape.
Qed.

(** C21: when the check made at instrumentation time says that an instruction
    lies in one line and that I1 and LL lines have the same size, the fast path
    and the generic path of an instruction read have the same outcome in every
    state and with every policy function, outside the approaches that run
    several policies. *)
Theorem IrNoX_equals_Gen a size m1 mL s s1
    (Hone : single_policy s = true) (Hnox : cachesim_is_IrNoX a size s = Ok (true, s1)) :
  cachesim_I1_doref_NoX a size m1 mL s = cachesim_I1_doref_Gen a size m1 mL s.
Proof.
  unfold cachesim_is_IrNoX, mbind, SE_bind in Hnox. cbn [gets] in Hnox. set (n := u8 size) in *.
  destruct (Z.eqb_spec (c_line_size_bits (I1 s)) (c_line_size_bits (LL s))) as [Ebits|];
    cbn [negb] in Hnox; [|discriminate Hnox].
  unfold lift in Hnox. destruct (block_of (I1 s) a) as [b1|] eqn:Eb1; cbn [obind] in Hnox; [|discriminate Hnox].
  destruct (block_of (I1 s) (u64 (a + n - 1))) as [b2|] eqn:Eb2; cbn [obind] in Hnox; [|discriminate Hnox].
  unfold mret, SE_ret in Hnox. injection Hnox as Eq _. apply Z.eqb_eq in Eq. subst b2.
  unfold cachesim_I1_doref_NoX, cachesim_I1_doref_Gen, ref_two_levels, mbind, SE_bind. fold n. cbn [modify gets].
  assert (Hn : u8 n = n) by apply u8_idemp.
  set (s0 := s <| missesI1 := Some m1 |> <| missesIL := Some mL |>).
  change (I1 s0) with (I1 s). change (lift (block_of (I1 s) a) s0) with (let* b := block_of (I1 s) a in Ok (b, s0)).
  rewrite Eb1. cbn [obind]. rewrite (single_policy_is s s0) by (done || set_solver).
  cbn [when mret SE_ret gets]. unfold cachesim_ref_is_miss at 1, mbind, SE_bind. rewrite Hn.
  cbn [get_cache gets]. change (I1 s0) with (I1 s). unfold lift. rewrite Eb1, Eb2. cbn [obind].
  rewrite Z.eqb_refl.
  destruct (call_miss_function (cachesim_setref_is_miss s0) R_I1 (set_no_of (I1 s) b1) b1 s0)
    as [[miss s2]|] eqn:Ec; [|done].
  destruct (call_keeps_shape _ _ _ _ _ _ _ Ec) as (Hshape & Hfn & _).
  destruct miss; cbn [when]; [|done]. cbn [gets].
  unfold add_to_counter at 1 3. destruct (line_counters s2 !! m1) as [v|]; [|done].
  set (s3 := s2 <| line_counters := _ |>).
  unfold cachesim_ref_is_miss, mbind, SE_bind. rewrite Hn. cbn [get_cache gets].
  assert (HbL : forall x, block_of (LL s3) x = block_of (I1 s) x).
  { intros x. specialize (Hshape R_LL eq_refl). cbn in Hshape. injection Hshape as _ Hb.
    unfold block_of. change (LL s3) with (LL s2). by rewrite Hb, Ebits. }
  unfold lift. rewrite !HbL, Eb1, Eb2. cbn [obind]. rewrite Z.eqb_refl.
  change (LL s2) with (LL s3). change (cachesim_setref_is_miss s3) with (cachesim_setref_is_miss s2).
  by rewrite Hfn.
Qed.

Lemma IrNoX_equals_Gen_witness :
  cachesim_is_IrNoX 36 4 (tiny_sim lru_globals) = Ok (true, tiny_sim lru_globals)
  /\ cachesim_I1_doref_NoX 36 4 (0, Ir_m1) (0, Ir_mL) (tiny_sim lru_globals)
     = cachesim_I1_doref_Gen 36 4 (0, Ir_m1) (0, Ir_mL) (tiny_sim lru_globals).
Proof.
  assert (H : cachesim_is_IrNoX 36 4 (tiny_sim lru_globals) = Ok (true, tiny_sim lru_globals)).
  { unfold cachesim_is_IrNoX, mbind, SE_bind, gets. rewrite tiny_sim_I1, tiny_sim_LL. reflexivity. }
  split; [exact H|].
  apply (IrNoX_equals_Gen 36 4 (0, Ir_m1) (0, Ir_mL) (tiny_sim lru_globals) (tiny_sim lru_globals));
    [reflexivity | exact H].
Defined.
