(* ===== verification/History.v ===== *)
(** * The miss histories of the windowed approaches

    [store_misses_history] of cg_sim.c keeps, for each policy and level, a ring
    buffer of the last results, the number of misses in it, and a saturating
    counter.  The ring buffer read from its write position is the window of the
    last results, oldest first. *)

From S2P Require Import Prelude LibcBase SetRef PolicyTheory Printf CacheSim.

(** ** Sequences of results *)

Fixpoint run_store (window_counter : Z) (LL : bool) (l : list bool) (p : policy) : outcome policy :=
  match l with
  | [] => Ok p
  | m :: l =>
      let* (_, p) := store_misses_history_on window_counter p (Z_of_bool m) LL in
      run_store window_counter LL l p
  end.

(** An empty history, as [cachesim_initcaches] leaves it. *)
Definition fresh_history (window_counter : Z) (h : history_state) : Prop :=
  h_array h = replicate (Z.to_nat window_counter) 0 /\ h_pos h = 0 /\ h_historic h = 0
  /\ h_online h = 0 /\ h_total h = 0.

(** The saturating counter after results [l]. *)
Definition walk (W : Z) (l : list bool) (x : Z) : Z :=
  fold_left (fun x (m : bool) => clamp W (x + if m then 1 else -1)) l x.

(** The number of ones in a window. *)
Definition ones_in (w : list Z) : Z := foldr Z.add 0 w.

(** The state of a history whose last [W] results are [w]. *)
Record wf_history (W : Z) (w : list Z) (h : history_state) : Prop := {
  hist_length : Z.of_nat (length (h_array h)) = W;
  hist_pos : 0 <= h_pos h < W;
  hist_bits : Forall (fun x => x = 0 \/ x = 1) w;
  hist_window : drop (Z.to_nat (h_pos h)) (h_array h) ++ take (Z.to_nat (h_pos h)) (h_array h) = w;
  hist_historic : h_historic h = ones_in w;
  hist_online : 0 <= h_online h <= W
}.

(** ** One step *)

Lemma ones_in_app a b : ones_in (a ++ b) = ones_in a + ones_in b.
Proof. induction a as [|x a IH]; cbn; [done|]. unfold ones_in in *. cbn. lia. Qed.

Lemma ones_in_range w : Forall (fun x => x = 0 \/ x = 1) w -> 0 <= ones_in w <= Z.of_nat (length w).
Proof. induction 1 as [|x w Hx _ IH]; unfold ones_in in *; cbn; lia. Qed.

Lemma clamp_id W x : 0 <= x <= W -> clamp W x = x.
Proof. intros H. unfold clamp. destruct (Z.ltb_spec W x); [lia|]. destruct (Z.ltb_spec x 0); lia. Qed.

Lemma clamp_range W x : 0 <= W -> 0 <= clamp W x <= W.
Proof. intros H. unfold clamp. destruct (Z.ltb_spec W x), (Z.ltb_spec (if W <? x then W else x) 0);
  case_test; lia. Qed.

(** Writing at the position of a ring drops the oldest entry and adds the new
    one. *)
Lemma ring_write (arr : list Z) (p : nat) (x v : Z) (w : list Z) :
  (p < length arr)%nat -> drop p arr ++ take p arr = x :: w ->
  let p' := if (length arr <=? S p)%nat then O else S p in
  drop p' (<[p := v]> arr) ++ take p' (<[p := v]> arr) = w ++ [v].
Proof.
  intros Hp Hw p'. destruct (lookup_lt_is_Some_2 arr p Hp) as [y Hy].
  rewrite (drop_S _ _ _ Hy) in Hw. injection Hw as -> <-.
  assert (Harr : <[p:=v]> arr = take p arr ++ v :: drop (S p) arr) by (by apply insert_take_drop).
  subst p'. destruct (Nat.leb_spec (length arr) (S p)).
  - cbn [drop take]. rewrite app_nil_r, Harr, (drop_ge arr (S p)) by lia. done.
  - rewrite drop_insert_lt by lia.
    assert (take (S p) (<[p:=v]> arr) = take p arr ++ [v]) as ->.
    { rewrite (take_S_r _ _ v) by (by apply list_lookup_insert_eq).
      by rewrite take_insert_ge by lia. }
    by rewrite app_assoc.
Qed.

(** Rewriting an equal entry is no change. *)
Lemma ring_same (arr : list Z) (p : nat) (v : Z) : arr !! p = Some v -> <[p := v]> arr = arr.
Proof. apply list_insert_id. Qed.

Lemma history_step_ok W (m : bool) h x w :
  2 <= W -> W < 2 ^ 31 - 1 -> wf_history W (x :: w) h ->
  exists h', history_step W m (Z_of_bool m) h = Ok h'
    /\ wf_history W (w ++ [Z_of_bool m]) h'
    /\ h_online h' = clamp W (h_online h + if m then 1 else -1)
    /\ h_pos h' = (if W <=? h_pos h + 1 then 0 else h_pos h + 1)
    /\ h_total h' = (if m then u64 (h_total h + 1) else h_total h).
Proof.
  intros HW HWmax [HL Hp Hb Hw Hh Ho].
  inversion Hb as [|? ? Hx Hb']; subst.
  assert (Hpn : (Z.to_nat (h_pos h) < length (h_array h))%nat) by lia.
  assert (Hold : h_array h !! Z.to_nat (h_pos h) = Some x).
  { destruct (lookup_lt_is_Some_2 _ _ Hpn) as [y Hy].
    rewrite (drop_S _ _ _ Hy) in Hw. injection Hw as -> _. done. }
  assert (Hlen : S (length w) = length (h_array h)).
  { change (S (length w)) with (length (x :: w)). rewrite <-Hw, length_app, length_drop, length_take. lia. }
  pose proof (ones_in_range w Hb') as Hr.
  assert (Hones : ones_in (x :: w) = x + ones_in w) by done.
  assert (Hnew : ones_in (w ++ [Z_of_bool m]) = ones_in w + Z_of_bool m)
    by (rewrite ones_in_app; unfold ones_in; cbn; lia).
  set (W := Z.of_nat (length (h_array h))) in *.
  assert (HrW : 0 <= ones_in w + Z_of_bool m <= W) by (destruct m; cbn [Z_of_bool]; lia).
  unfold history_step. rewrite int_add_ok by (destruct m; lia). cbn [obind].
  rewrite (rd_Some _ (h_pos h) x) by (done || lia). cbn [obind].
  pose proof (ring_write (h_array h) (Z.to_nat (h_pos h)) x (Z_of_bool m) w Hpn Hw) as Hring.
  cbn zeta in Hring.
  assert (Hpos' : Z.to_nat (if W <=? h_pos h + 1 then 0 else h_pos h + 1)
    = (if (length (h_array h) <=? S (Z.to_nat (h_pos h)))%nat then O else S (Z.to_nat (h_pos h)))).
  { destruct (Z.leb_spec W (h_pos h + 1)), (Nat.leb_spec (length (h_array h)) (S (Z.to_nat (h_pos h)))); lia. }
  assert (Hposr : 0 <= (if W <=? h_pos h + 1 then 0 else h_pos h + 1) < W)
    by (destruct (Z.leb_spec W (h_pos h + 1)); lia).
  assert (Hbnew : Forall (fun x => x = 0 \/ x = 1) (w ++ [Z_of_bool m])).
  { apply Forall_app. split; [done|]. constructor; [by destruct m; [right|left]|constructor]. }
  assert (HstepZ : (if Z_of_bool m =? x then Ok (h_array h, h_historic h)
     else let* historic := int_add (h_historic h) (if Z_of_bool m =? 1 then 1 else -1) in
          let* array := wr (h_array h) (h_pos h) (Z_of_bool m) in Ok (array, historic))
     = Ok (<[Z.to_nat (h_pos h) := Z_of_bool m]> (h_array h), ones_in w + Z_of_bool m)).
  { destruct (Z.eqb_spec (Z_of_bool m) x) as [Heq|Hne].
    - rewrite list_insert_id by (by rewrite Hold, Heq). do 2 f_equal. lia.
    - rewrite int_add_ok by (destruct m; cbn; lia). cbn [obind].
      rewrite wr_in by lia. cbn [obind]. do 2 f_equal. destruct m; cbn [Z_of_bool Z.eqb Pos.eqb] in *; lia. }
  rewrite HstepZ. cbn [obind]. rewrite int_add_ok by lia. cbn [obind].
  eexists. split; [reflexivity|]. cbn [h_online h_pos h_total]. split_and!; [|done..].
  split; cbn [h_array h_pos h_historic h_online].
  - by rewrite length_insert.
  - exact Hposr.
  - exact Hbnew.
  - rewrite Hpos'. exact Hring.
  - rewrite Hnew. by apply clamp_id.
  - apply clamp_range. lia.
Qed.

(** ** The fields of a policy *)

Lemma get_set_history b h p : get_history b (set_history b h p) = h.
Proof. by destruct b, h. Qed.

Lemma get_set_history_other b b' h p : b <> b' -> get_history b' (set_history b h p) = get_history b' p.
Proof. by destruct b, b'. Qed.

(** What recording a result does not touch. *)
Definition same_but_history (b : bool) (p p' : policy) : Prop :=
  p_I1 p' = p_I1 p /\ p_D1 p' = p_D1 p /\ p_LL p' = p_LL p /\ uses p' = uses p
  /\ misses_IL p' = misses_IL p /\ misses_I1 p' = misses_I1 p /\ is_miss_func p' = is_miss_func p
  /\ get_history (negb b) p' = get_history (negb b) p.

Lemma store_on_ok W b (m : bool) p x w :
  2 <= W -> W < 2 ^ 31 - 1 -> wf_history W (x :: w) (get_history b p) ->
  exists p', store_misses_history_on W p (Z_of_bool m) b
      = Ok (h_historic (get_history b p'), p')
    /\ wf_history W (w ++ [Z_of_bool m]) (get_history b p')
    /\ same_but_history b p p'
    /\ h_online (get_history b p') = clamp W (h_online (get_history b p) + if m then 1 else -1)
    /\ h_pos (get_history b p') = (if W <=? h_pos (get_history b p) + 1 then 0 else h_pos (get_history b p) + 1)
    /\ h_total (get_history b p') = (if m then u64 (h_total (get_history b p) + 1) else h_total (get_history b p)).
Proof.
  intros HW HWmax Hh. unfold store_misses_history_on.
  destruct (Z.eqb_spec W 1); [lia|].
  assert ((if b then Z_of_bool m =? 1 else negb (Z_of_bool m =? 0)) = m) as -> by (by destruct b, m).
  destruct (history_step_ok W m _ x w HW HWmax Hh) as (h' & Hstep & Hw' & Ho & Hp & Ht).
  rewrite Hstep. cbn [obind]. exists (set_history b h' p). rewrite get_set_history.
  split_and!; try done. by destruct b.
Qed.

Lemma wf_history_cons W w h : 0 < W -> wf_history W w h -> exists x w', w = x :: w'.
Proof.
  intros HW H. destruct w as [|x w']; [|eauto]. destruct H as [HL ? ? Hw ? ?].
  apply (f_equal length) in Hw. rewrite length_app, length_drop, length_take in Hw. cbn in Hw. lia.
Qed.

(** ** Runs *)

Definition position_after (W pos : Z) (n : nat) : Z := (pos + Z.of_nat n) mod W.

Lemma run_store_ok W b l p w :
  2 <= W -> W < 2 ^ 31 - 1 -> wf_history W w (get_history b p) ->
  exists p', run_store W b l p = Ok p'
    /\ wf_history W (drop (length l) (w ++ (Z_of_bool <$> l))) (get_history b p')
    /\ h_online (get_history b p') = walk W l (h_online (get_history b p))
    /\ h_pos (get_history b p') = position_after W (h_pos (get_history b p)) (length l)
    /\ u64 (h_total (get_history b p')) = u64 (h_total (get_history b p) + Z.of_nat (count_misses l))
    /\ same_but_history b p p'.
Proof.
  intros HW HWmax. revert p w. induction l as [|m l IH]; intros p w Hh.
  - exists p. cbn. rewrite app_nil_r. split_and!; try done.
    + unfold position_after. destruct Hh. rewrite Z.add_0_r, Z.mod_small by lia. done.
    + by rewrite Z.add_0_r.
  - destruct (wf_history_cons W w _ ltac:(lia) Hh) as (x & w' & ->).
    destruct (store_on_ok W b m p x w' HW HWmax Hh) as (p1 & Hs & Hw1 & Hsame1 & Ho & Hp & Ht).
    destruct (IH p1 _ Hw1) as (p2 & Hr & Hw2 & Ho2 & Hp2 & Ht2 & Hsame2).
    exists p2. cbn [run_store]. rewrite Hs. cbn [obind]. split_and!.
    + exact Hr.
    + cbn [length app fmap list_fmap drop]. by rewrite <-app_assoc in Hw2.
    + rewrite Ho2, Ho. reflexivity.
    + rewrite Hp2, Hp. unfold position_after. destruct Hh as [_ Hpos _ _ _ _].
      cbn [length]. rewrite Nat2Z.inj_succ.
      destruct (Z.leb_spec W (h_pos (get_history b p) + 1)).
      * replace (h_pos (get_history b p) + Z.succ (Z.of_nat (length l)))
          with (0 + Z.of_nat (length l) + 1 * W) by lia.
        by rewrite Z_mod_plus_full.
      * f_equal. lia.
    + rewrite Ht2, Ht. unfold count_misses. rewrite filter_cons.
      destruct m; case_decide; try done.
      cbn [length]. rewrite Nat2Z.inj_succ. unfold u64. rewrite Zplus_mod_idemp_l. f_equal. lia.
    + unfold same_but_history in *. intuition congruence.
Qed.

Lemma ones_in_count l : ones_in (Z_of_bool <$> l) = Z.of_nat (count_misses l).
Proof.
  induction l as [|m l IH]; [done|]. unfold count_misses, ones_in in *. rewrite filter_cons.
  cbn [fmap list_fmap foldr]. destruct m; case_decide; try done; cbn [length Z_of_bool]; lia.
Qed.

Lemma ones_in_zeros n : ones_in (replicate n 0) = 0.
Proof. induction n; cbn; [done|]. unfold ones_in in *. cbn. lia. Qed.

(** C22: with a window of at least two results, the miss history of a policy is
    the window it stands for: after any results [l] from the empty history,
    the stored count is the number of misses among the last [window_counter]
    results, the saturating counter is the walk of [+1] per miss and [-1] per
    hit kept in [0..window_counter], the total is the number of misses, no
    access leaves the array, and the other fields of the policy are
    untouched. *)
Theorem history_counts_window W b l p
    (HW : 2 <= W) (HWmax : W < 2 ^ 31 - 1) (Hfresh : fresh_history W (get_history b p)) :
  exists p', run_store W b l p = Ok p'
    /\ h_historic (get_history b p') = Z.of_nat (count_misses (drop (length l - Z.to_nat W) l))
    /\ h_online (get_history b p') = walk W l 0
    /\ u64 (h_total (get_history b p')) = u64 (Z.of_nat (count_misses l))
    /\ h_pos (get_history b p') = Z.of_nat (length l) mod W
    /\ same_but_history b p p'.
Proof.
  destruct Hfresh as (Ha & Hp & Hh & Ho & Ht).
  assert (Hwf : wf_history W (replicate (Z.to_nat W) 0) (get_history b p)).
  { split; rewrite ?Ha, ?Hp, ?Hh, ?Ho, ?length_replicate; try lia.
    - apply Forall_replicate. by left.
    - cbn [Z.to_nat drop take]. by rewrite app_nil_r.
    - by rewrite ones_in_zeros. }
  destruct (run_store_ok W b l p _ HW HWmax Hwf) as (p' & Hr & Hw & Hon & Hpos & Htot & Hsame).
  exists p'. split_and!; [done| |by rewrite Hon, Ho|by rewrite Htot, Ht| |done].
  - rewrite (hist_historic _ _ _ Hw). destruct (Nat.le_gt_cases (length l) (Z.to_nat W)) as [Hle|Hgt].
    + rewrite drop_app_le by (rewrite length_replicate; lia). rewrite drop_replicate.
      rewrite ones_in_app, ones_in_zeros, ones_in_count.
      by replace (length l - Z.to_nat W)%nat with O by lia.
    + rewrite drop_app_ge by (rewrite length_replicate; lia). rewrite length_replicate.
      by rewrite <-fmap_drop, ones_in_count.
  - rewrite Hpos, Hp. done.
Qed.

(** Eleven results through a window of four. *)
Definition window_demo : list bool :=
  [true; true; true; false; true; false; false; true; true; true; false].

Definition empty_history_policy (W : Z) : policy :=
  no_policy <| array_misses_D1 := replicate (Z.to_nat W) 0 |>.

Lemma history_counts_window_witness :
  exists p', run_store 4 false window_demo (empty_history_policy 4) = Ok p'
    /\ h_historic (get_history false p') = 3
    /\ h_online (get_history false p') = 3
    /\ u64 (h_total (get_history false p')) = 7
    /\ h_pos (get_history false p') = 3
    /\ same_but_history false (empty_history_policy 4) p'.
Proof.
  apply (history_counts_window 4 false window_demo (empty_history_policy 4)).
  - lia.
  - lia.
  - by vm_compute.
Defined.
