(* ===== verification/Safety.v ===== *)
(** * The simulator never fails

    An invariant of the whole state of cg_sim.c, and total-correctness triples
    for each function: from a state that satisfies it, every reference returns
    (no access outside an array, no failed arithmetic, no panic) in a state
    that satisfies it, in every mode but the learning one and with every policy
    function.  The shadow caches have to have the geometry of the result
    caches, which is what [cachesim_initcaches] builds unless a [dip3] policy
    is chosen. *)

From Stdlib Require Import SpecFloat.
From S2P Require Import Prelude Float LibcBase SetRef PolicyTheory Printf CacheSim DoRef SimTheory History.

Record geom := mk_geom { g_assoc : Z; g_sets : Z; g_bits : Z }.

(** A well-formed cache of a geometry. *)
Definition has_geom (g : geom) (c : cache_t2) : Prop :=
  wf_cache c /\ c_assoc c = g_assoc g /\ c_sets c = g_sets g /\ c_line_size_bits c = g_bits g.

Lemma has_geom_with_set ref `{ReplacementPolicy ref} g c k sd tag :
  has_geom g c -> 0 <= k < g_sets g ->
  has_geom g (with_set c k (ref sd tag (set_of c k)).1.2).
Proof.
  intros (Hw & Ha & Hs & Hb) Hk. split; [|done]. apply with_set_wf; [done..|]. by rewrite Hs.
Qed.

(** ** Copying a cache *)

Lemma copy_words_spec n i (ori dest : list Z) :
  length ori = length dest -> (i + n <= length ori)%nat ->
  copy_words n (Z.of_nat i) ori dest = Ok (take i dest ++ take n (drop i ori) ++ drop (i + n) dest).
Proof.
  revert i dest. induction n as [|n IH]; intros i dest Hl Hn; cbn [copy_words].
  - rewrite Nat.add_0_r. rewrite firstn_O. cbn [app]. by rewrite take_drop.
  - destruct (lookup_lt_is_Some_2 ori i) as [v Hv]; [lia|].
    rewrite rd_lookup, Hv. cbn [obind]. rewrite wr_in by lia. cbn [obind]. rewrite Nat2Z.id.
    replace (Z.of_nat i + 1) with (Z.of_nat (S i)) by lia.
    rewrite IH by (rewrite ?length_insert; lia). f_equal.
    rewrite (drop_S _ _ _ Hv), drop_insert_lt by lia.
    rewrite (take_S_r _ _ v) by (apply list_lookup_insert_eq; lia).
    rewrite take_insert_ge, <-app_assoc by lia. cbn. by rewrite Nat.add_succ_r.
Qed.

Lemma copy_words_all (ori dest : list Z) :
  length ori = length dest -> copy_words (length ori) 0 ori dest = Ok ori.
Proof.
  intros Hl. change 0 with (Z.of_nat 0). rewrite copy_words_spec by lia.
  rewrite firstn_O, drop_0, firstn_all. cbn [app Nat.add].
  by rewrite (drop_ge dest), app_nil_r by lia.
Qed.

(** Between caches with the same sets and ways the copy is the original with
    the description of the destination. *)
Lemma copy_caches_ok c c' :
  wf_cache c -> wf_cache c' -> c_assoc c' = c_assoc c -> c_sets c' = c_sets c ->
  copy_caches c c' = Ok (mk_cache_t2 (c_size c) (c_assoc c) (c_line_size c) (c_sets c)
    (c_sets_min_1 c) (c_line_size_bits c) (c_tag_shift c) (c_desc_line c') (c_tags c) (c_tags_miss c))
  /\ wf_cache (mk_cache_t2 (c_size c) (c_assoc c) (c_line_size c) (c_sets c)
    (c_sets_min_1 c) (c_line_size_bits c) (c_tag_shift c) (c_desc_line c') (c_tags c) (c_tags_miss c)).
Proof.
  intros Hc Hc' Ha Hs. pose proof Hc as []. destruct Hc' as [_ _ _ _ _ Ht' Htm'].
  rewrite Ha, Hs in *. split; [|by split]. unfold copy_caches.
  replace (Z.to_nat (c_sets c * c_assoc c)) with (length (c_tags c)) by lia.
  rewrite copy_words_all by lia. cbn [obind].
  replace (Z.to_nat (c_sets c)) with (length (c_tags_miss c)) by lia.
  by rewrite copy_words_all by lia.
Qed.

Section Safety.
Context (gI gD gL : geom) (W thr : Z) (M : gset counter_ptr) (need : bool)
  (mode : Z).
Context (HW : 2 <= W) (HWmax : W < 2 ^ 31 - 1) (Hthr : 0 <= thr < 2 ^ 31).

Record wf_policy (p : policy) : Prop := {
  wfp_I1 : has_geom gI (p_I1 p);
  wfp_D1 : has_geom gD (p_D1 p);
  wfp_LL : has_geom gL (p_LL p);
  wfp_fun : simple (is_miss_func p) = true;
  wfp_hist b : exists w, wf_history W w (get_history b p)
}.

Record wf_sim (s : sim) : Prop := {
  wfs_I1 : has_geom gI (I1 s);
  wfs_D1 : has_geom gD (D1 s);
  wfs_LL : has_geom gL (LL s);
  wfs_policies : length (policies s) = POLICIES;
  wfs_policy : Forall wf_policy (policies s);
  wfs_window : window_counter (globals s) = W;
  wfs_threshold : switching_threshold_parameter (globals s) = thr;
  wfs_selected : 0 <= index_selected_policy s < 4;
  wfs_min : 0 <= index_min_misses_policy s < 4;
  wfs_psel : 0 <= psel s <= psel_max;
  wfs_counters : dom (line_counters s) = M;
  wfs_I1_ptr : forall p, missesI1 s = Some p -> p ∈ M;
  wfs_IL_ptr : forall p, missesIL s = Some p -> p ∈ M;
  wfs_pair : is_Some (missesI1 s) <-> is_Some (missesIL s);
  wfs_need : need = true -> is_Some (missesI1 s);
  wfs_mode : current_cache_replacement_policy (globals s) = mode
}.

(** ** Pointers *)

Definition geom_of (r : cache_ref) : geom :=
  match r with
  | R_I1 | P_I1 _ => gI
  | R_D1 | P_D1 _ => gD
  | R_LL | P_LL _ => gL
  end.

Definition valid_ref (r : cache_ref) : Prop :=
  match r with P_I1 i | P_D1 i | P_LL i => 0 <= i < 4 | _ => True end.

Lemma policy_at_wf i s : wf_sim s -> 0 <= i < 4 -> exists p, policy_at i s = Some p /\ wf_policy p.
Proof.
  intros Hs Hi. unfold policy_at. destruct (Z.leb_spec 0 i); [|lia].
  destruct (lookup_lt_is_Some_2 (policies s) (Z.to_nat i)) as [p Hp].
  { rewrite (wfs_policies s Hs). unfold POLICIES. lia. }
  exists p. split; [done|]. exact (proj1 (Forall_lookup _ _) (wfs_policy s Hs) _ _ Hp).
Qed.

Lemma cache_at_wf r s : wf_sim s -> valid_ref r -> exists c, cache_at r s = Some c /\ has_geom (geom_of r) c.
Proof.
  intros Hs Hr. destruct Hs as [? ? ?]. 
  destruct r; cbn [cache_at geom_of valid_ref] in *; try (by eexists);
    destruct (policy_at_wf i s ltac:(done) Hr) as (p & -> & []); by eexists.
Qed.

Lemma wf_put_policy i f s :
  wf_sim s -> (forall p, policy_at i s = Some p -> wf_policy p -> wf_policy (f p)) -> 0 <= i ->
  wf_sim (put_policy i f s).
Proof.
  intros Hs Hf Hi. pose proof Hs as []. unfold put_policy.
  split; cbn [policies I1 D1 LL globals index_selected_policy index_min_misses_policy psel
    line_counters missesI1 missesIL set_field]; try done.
  - by rewrite length_alter.
  - apply Forall_lookup. intros j p Hj. destruct (decide (j = Z.to_nat i)) as [->|Hne].
    + rewrite list_lookup_alter_eq in Hj. destruct (policies s !! Z.to_nat i) as [q|] eqn:Eq; [|done].
      injection Hj as <-. apply Hf.
      * unfold policy_at. destruct (Z.leb_spec 0 i); [done|lia].
      * exact (proj1 (Forall_lookup _ _) wfs_policy0 _ _ Eq).
    + rewrite list_lookup_alter_ne in Hj by done. exact (proj1 (Forall_lookup _ _) wfs_policy0 _ _ Hj).
Qed.

Lemma wf_put_cache r c s : wf_sim s -> valid_ref r -> has_geom (geom_of r) c -> wf_sim (put_cache r c s).
Proof.
  intros Hs Hr Hc. destruct r; cbn [put_cache geom_of valid_ref] in *;
    try (apply wf_put_policy; [done | | lia]; intros p _ []; split; done);
    destruct Hs; by split.
Qed.

Lemma wf_seed v s : wf_sim s -> wf_sim (s <| seed := v |>).
Proof. intros []. by split. Qed.

(** ** Triples *)

Definition safe {A} (m : SE sim A) : Prop := triple wf_sim m (fun _ => wf_sim).

Lemma safe_bind {A B} (m : SE sim A) (f : A -> SE sim B) :
  safe m -> (forall a, safe (f a)) -> safe (m ≫= f).
Proof. apply triple_bind. Qed.

Lemma safe_ret {A} (a : A) : safe (mret a).
Proof. by apply triple_ret. Qed.

Lemma safe_when b m : safe m -> safe (when b m).
Proof. intros H. by apply triple_when. Qed.

Lemma safe_gets {A} (f : sim -> A) : safe (gets f).
Proof. intros s Hs. by exists (f s), s. Qed.

Lemma safe_modify f : (forall s, wf_sim s -> wf_sim (f s)) -> safe (modify f).
Proof. intros H. by apply triple_modify. Qed.

(** A value read from the state, with what the invariant says of it. *)
Lemma safe_gets_bind {A B} (f : sim -> A) (k : A -> SE sim B) (P : A -> Prop) :
  (forall s, wf_sim s -> P (f s)) -> (forall a, P a -> safe (k a)) -> safe (gets f ≫= k).
Proof.
  intros Hf Hk s Hs. unfold mbind, SE_bind. cbn [gets]. apply (Hk (f s)); auto.
Qed.

Lemma safe_get_policy {B} i (k : policy -> SE sim B) :
  0 <= i < 4 -> (forall p, wf_policy p -> safe (k p)) -> safe (get_policy i ≫= k).
Proof.
  intros Hi Hk s Hs. destruct (policy_at_wf i s Hs Hi) as (p & Hp & Hw).
  unfold mbind, SE_bind. rewrite (get_policy_at _ _ _ Hp). by apply (Hk p).
Qed.

Lemma safe_update_policy i f :
  0 <= i < 4 -> (forall p, wf_policy p -> wf_policy (f p)) -> safe (update_policy i f).
Proof.
  intros Hi Hf s Hs. destruct (policy_at_wf i s Hs Hi) as (p & Hp & Hw).
  rewrite (update_policy_at _ _ _ _ Hp). exists tt, (put_policy i f s). split; [done|].
  apply wf_put_policy; [done|auto|lia].
Qed.

Lemma safe_set_policy i p : 0 <= i < 4 -> wf_policy p -> safe (set_policy i p).
Proof.
  intros Hi Hp s Hs. destruct (policy_at_wf i s Hs Hi) as (q & Hq & _).
  rewrite (set_policy_at _ _ _ _ Hq). eexists tt, _. split; [done|].
  apply wf_put_policy; [done|auto|lia].
Qed.

Lemma safe_run_policy impl ref `{Implements impl ref} `{ReplacementPolicy ref} r k tag :
  valid_ref r -> 0 <= k < g_sets (geom_of r) -> safe (run_policy impl r k tag).
Proof.
  intros Hr Hk s Hs. destruct (cache_at_wf r s Hs Hr) as (c & Hc & Hg).
  pose proof Hg as (Hw & _ & Hsets & _).
  rewrite (run_policy_spec impl ref r k tag s c) by (done || by rewrite Hsets).
  pose proof (has_geom_with_set ref (geom_of r) c k (seed s) tag Hg Hk) as Hg'.
  destruct (ref (seed s) tag (set_of c k)) as [[miss st] sd]. cbn [fst snd] in Hg'.
  eexists _, _. split; [done|]. by apply wf_put_cache; [apply wf_seed|..].
Qed.

Section SetFunctions.
Context (r : cache_ref) (k tag : Z) (Hr : valid_ref r) (Hk : 0 <= k < g_sets (geom_of r)).

Lemma safe_lru : safe (setref_lru r k tag).
Proof. by apply (safe_run_policy _ lru_ref). Qed.
Lemma safe_lip : safe (setref_lip r k tag).
Proof. by apply (safe_run_policy _ lip_ref). Qed.
Lemma safe_fifo : safe (setref_fifo r k tag).
Proof. by apply (safe_run_policy _ fifo_ref). Qed.
Lemma safe_random : safe (setref_random r k tag).
Proof. by apply (safe_run_policy _ random_ref). Qed.
Lemma safe_bip : safe (setref_bip r k tag).
Proof.
  unfold setref_bip. apply safe_bind; [apply safe_gets|]. intros g.
  by apply (safe_run_policy _ (bip_ref (bip_throttle_parameter g))).
Qed.
End SetFunctions.

Lemma safe_store i m b : 0 <= i < 4 -> safe (store_result i m b).
Proof.
  intros Hi s Hs. unfold store_result, store_misses_history, mbind, SE_bind. cbn [gets].
  destruct (policy_at_wf i s Hs Hi) as (p & Hp & Hw). rewrite (get_policy_at _ _ _ Hp).
  destruct (wfp_hist p Hw b) as [w Hh]. rewrite (wfs_window s Hs).
  destruct (wf_history_cons W w _ ltac:(lia) Hh) as (x & w' & ->).
  destruct (store_on_ok W b m p x w' HW HWmax Hh) as (p' & Hst & Hh' & Hsame & _).
  unfold lift. rewrite Hst. cbn [obind]. rewrite (set_policy_at _ _ _ _ Hp).
  eexists _, _. split; [done|]. apply wf_put_policy; [done| |lia].
  intros _ _ _. destruct Hsame as (E1 & E2 & E3 & _ & _ & _ & E4 & E5). destruct Hw.
  split; rewrite ?E1, ?E2, ?E3, ?E4; try done.
  intros b'. destruct (decide (b = b')) as [<-|Hne]; [by eexists|].
  assert (b' = negb b) as -> by (by destruct b, b'). rewrite E5. apply wfp_hist0.
Qed.

Lemma safe_store_miss i b : 0 <= i < 4 -> safe (store_misses_history i 1 b).
Proof. exact (safe_store i true b). Qed.
Lemma safe_store_hit i b : 0 <= i < 4 -> safe (store_misses_history i 0 b).
Proof. exact (safe_store i false b). Qed.

Lemma psel_step_range a b v : 0 <= v <= psel_max -> 0 <= psel_down b (psel_up a v) <= psel_max.
Proof. unfold psel_up, psel_down, psel_max. intros H. repeat case_test; lia. Qed.
Lemma psel_up_range a v : 0 <= v <= psel_max -> 0 <= psel_up a v <= psel_max.
Proof. unfold psel_up, psel_max. intros H. repeat case_test; lia. Qed.
Lemma psel_down_range a v : 0 <= v <= psel_max -> 0 <= psel_down a v <= psel_max.
Proof. unfold psel_down, psel_max. intros H. repeat case_test; lia. Qed.

(** ** The set functions, through the pointer *)

Create HintDb safe.
Hint Resolve safe_ret safe_when safe_gets safe_lru safe_lip safe_fifo safe_random safe_bip
  safe_store safe_store_miss safe_store_hit : safe.

Hint Extern 1 (valid_ref _) => (exact I || (cbn; lia)) : safe.
Hint Extern 1 (0 <= _ < g_sets _) => (cbn [geom_of] in *; lia) : safe.
Hint Extern 1 (0 <= _ < 4) => lia : safe.

(** Assignments to fields that the invariant does not restrict. *)
Ltac wf_modify :=
  let s := fresh "s" in let H := fresh "H" in
  apply safe_modify; intros s H; destruct H; split;
  cbn [psel psel_1 psel_2 psel_3 set_field]; try done;
  auto using psel_up_range, psel_down_range.

Ltac safe_steps :=
  repeat (intros; match goal with
  | |- safe (get_policy _ ≫= _) => apply safe_get_policy; [lia|]
  | |- safe (mbind _ _) => apply safe_bind
  | |- safe (if ?b then _ else _) => destruct b
  | |- safe (match ?f with F_lru => _ | _ => _ end) => destruct f
  | |- safe (modify _) => wf_modify
  | |- safe _ => solve [eauto with safe]
  end).

Lemma wf_policy_uses p v : wf_policy p -> wf_policy (p <| uses := v |>).
Proof. intros []. by split. Qed.

Lemma safe_incr_uses i : 0 <= i < 4 -> safe (incr_uses i).
Proof. intros Hi. apply safe_update_policy; [done|]. intros p. apply wf_policy_uses. Qed.
Hint Resolve safe_incr_uses : safe.

Section OneReference.
Context (k tag : Z).

Lemma safe_best : 0 <= k < g_sets gD -> safe (run_best_of_three R_D1 k tag).
Proof. intros Hk. unfold run_best_of_three. safe_steps. Qed.

Lemma safe_leader i f :
  0 <= i < 4 -> safe (f R_D1 k tag) -> safe (run_leader i f R_D1 k tag).
Proof.
  intros Hi Hf. unfold run_leader. fold (incr_uses i). safe_steps.
Qed.

Hint Resolve safe_best safe_leader : safe.

Lemma safe_call_result f r :
  is_result r = true -> 0 <= k < g_sets (geom_of r) -> safe (call_miss_function f r k tag).
Proof.
  intros Hr Hk. assert (Hv : valid_ref r) by (by destruct r).
  destruct f; cbn [call_miss_function]; eauto with safe;
    unfold cachesim_setref_is_miss_dip, cachesim_setref_is_miss_dip3,
      cachesim_setref_is_miss_dip3a, cachesim_setref_is_miss_dueling;
    destruct r; try discriminate Hr; cbn [geom_of] in Hk; cbn [decide decide_rel];
    repeat (rewrite decide_False by discriminate); rewrite ?decide_True by done;
    safe_steps.
Qed.

Lemma safe_call_simple f r :
  simple f = true -> valid_ref r -> 0 <= k < g_sets (geom_of r) -> safe (call_miss_function f r k tag).
Proof. intros Hf Hv Hk. destruct f; try discriminate Hf; cbn [call_miss_function]; eauto with safe. Qed.
End OneReference.

(** ** One reference *)

Definition callable (f : miss_function) (r : cache_ref) : Prop :=
  simple f = true /\ valid_ref r \/ is_result r = true.

Lemma safe_call f r k tag :
  callable f r -> 0 <= k < g_sets (geom_of r) -> safe (call_miss_function f r k tag).
Proof. intros [[Hf Hv]|Hr] Hk; [by apply safe_call_simple | by apply safe_call_result]. Qed.

Lemma callable_valid f r : callable f r -> valid_ref r.
Proof. intros [[_ Hv]|Hr]; [done | by destruct r]. Qed.

(** The invariant with the function in force. *)
Definition wf_with (f : miss_function) (s : sim) : Prop :=
  wf_sim s /\ cachesim_setref_is_miss s = f.

Lemma call_with f0 f r k tag :
  callable f r -> 0 <= k < g_sets (geom_of r) ->
  triple (wf_with f0) (call_miss_function f r k tag) (fun _ => wf_with f0).
Proof.
  intros Hf Hk s [Hs Hfn]. destruct (safe_call f r k tag Hf Hk s Hs) as (a & s' & E & Hs').
  exists a, s'. split; [done|]. split; [done|].
  apply call_keeps_shape in E as (_ & Hfn' & _). congruence.
Qed.

Section Reference.
Context (a size : Z) (Ha : 0 <= a) (Hsize : 1 <= size < 2 ^ 8) (Hmax : a + size <= 2 ^ 64).
Context (HfI : size <= 2 ^ g_bits gI) (HfD : size <= 2 ^ g_bits gD) (HfL : size <= 2 ^ g_bits gL).

Lemma ref_with f r :
  callable f r -> triple (wf_with f) (cachesim_ref_is_miss r a size) (fun _ => wf_with f).
Proof.
  intros Hf s [Hs Hfn].
  destruct (cache_at_wf r s Hs (callable_valid f r Hf)) as (c & Hc & Hw & Hga & Hgs & Hgb).
  pose proof (wf_bits c Hw) as Hb.
  assert (Hfit : fits c size) by (unfold fits; rewrite Hgb; by destruct r).
  pose proof (fits_span c a size Hw Hfit Ha (proj1 Hsize)) as Hspan.
  assert (Hpow : 0 < 2 ^ c_line_size_bits c) by (apply Z.pow_pos_nonneg; lia).
  assert (Hmono : a / 2 ^ c_line_size_bits c <= (a + size - 1) / 2 ^ c_line_size_bits c)
    by (apply Z.div_le_mono; lia).
  assert (Hlt : (a + size - 1) / 2 ^ c_line_size_bits c < 2 ^ 64) by (apply Z.div_lt_upper_bound; nia).
  assert (H0 : 0 <= a / 2 ^ c_line_size_bits c) by (apply Z.div_pos; lia).
  unfold cachesim_ref_is_miss. rewrite u8_small by lia. unfold mbind at 1, SE_bind at 1. rewrite (get_cache_at _ _ _ Hc).
  unfold mbind at 1, SE_bind at 1. unfold lift at 1. rewrite block_of_ok by done. cbn [obind].
  unfold mbind at 1, SE_bind at 1. unfold lift at 1. rewrite block_of_ok by done. cbn [obind].
  unfold mbind at 1, SE_bind at 1. cbn [gets]. rewrite u64_small by lia. rewrite Hfn.
  assert (Hk : forall b, 0 <= set_no_of c b < g_sets (geom_of r))
    by (intros b; rewrite <-Hgs; by apply set_no_of_range).
  destruct (Z.eqb_spec (a / 2 ^ c_line_size_bits c) ((a + size - 1) / 2 ^ c_line_size_bits c)).
  { by apply call_with. }
  destruct (Z.eqb_spec (u64 (a / 2 ^ c_line_size_bits c + 1)) ((a + size - 1) / 2 ^ c_line_size_bits c)) as [|Hne].
  - refine (triple_bind _ _ (wf_with f) (fun _ => wf_with f) _ _ _ s _); [by apply call_with| |done].
    intros b1. apply triple_bind with (R := fun _ => wf_with f); [by apply call_with|].
    intros b2. by apply triple_ret.
  - exfalso. apply Hne. rewrite u64_small by lia. lia.
Qed.

Lemma safe_ref f r :
  callable f r -> triple (wf_with f) (cachesim_ref_is_miss r a size) (fun _ => wf_sim).
Proof. intros Hf. eapply triple_conseq; [by apply (ref_with f)|done|by intros ? ? []]. Qed.

(** A reference to a result cache, whatever the function in force. *)
Lemma safe_ref_result r : is_result r = true -> safe (cachesim_ref_is_miss r a size).
Proof.
  intros Hr s Hs. apply (safe_ref (cachesim_setref_is_miss s) r); [by right | by split].
Qed.

Lemma safe_add_counter p n : p ∈ M -> safe (add_to_counter p n).
Proof.
  intros Hp s Hs. pose proof Hs as []. rewrite <-wfs_counters0 in Hp.
  apply elem_of_dom in Hp as [v Hv]. unfold add_to_counter. rewrite Hv.
  eexists tt, _. split; [done|]. split; cbn [line_counters set_field]; try done.
  rewrite dom_insert_L, wfs_counters0. rewrite <-wfs_counters0.
  apply elem_of_dom_2 in Hv. set_solver.
Qed.

Context (m1 mL : counter_ptr) (Hm1 : m1 ∈ M) (HmL : mL ∈ M).

Lemma safe_two_levels r1 :
  is_result r1 = true -> safe (ref_two_levels r1 R_LL a size m1 mL).
Proof.
  intros Hr. unfold ref_two_levels. apply safe_bind; [by apply safe_ref_result|].
  intros miss. apply safe_when. apply safe_bind; [by apply safe_add_counter|].
  intros _. apply safe_bind; [by apply safe_ref_result|].
  intros missL. by apply safe_when, safe_add_counter.
Qed.

Lemma set_function_with f : triple wf_sim (set_miss_function f) (fun _ => wf_with f).
Proof. apply triple_modify. intros s []. split; [by split|done]. Qed.

Lemma safe_current l : safe (current_is l).
Proof. apply safe_gets. Qed.

Hint Resolve safe_ref_result safe_add_counter safe_two_levels safe_current : safe.

(** Run a reference with the function just set. *)
Lemma safe_set_then_ref {B} f r (k : bool -> SE sim B) :
  callable f r -> (forall miss, safe (k miss)) ->
  safe (set_miss_function f ≫= fun _ => cachesim_ref_is_miss r a size ≫= k).
Proof.
  intros Hf Hk. apply triple_bind with (R := fun _ => wf_with f); [apply set_function_with|].
  intros _. eapply triple_bind; [by apply (safe_ref f)|done].
Qed.

(** Code that keeps the function in force. *)
Lemma keep_function {A} f (m : SE sim A) :
  safe m -> preserves same_shape m -> triple (wf_with f) m (fun _ => wf_with f).
Proof.
  intros Hm Hp s [Hs Hfn]. destruct (Hm s Hs) as (x & s' & E & Hs'). exists x, s'. split; [done|].
  split; [done|]. apply Hp in E as (_ & Hfn' & _). congruence.
Qed.

Lemma forget_function {A} f (m : SE sim A) : safe m -> triple (wf_with f) m (fun _ => wf_sim).
Proof. intros Hm. eapply triple_conseq; [exact Hm|by intros ? []|done]. Qed.

Lemma safe_policy_function p i : wf_policy p -> 0 <= i < 4 ->
  callable (is_miss_func p) (P_I1 i) /\ callable (is_miss_func p) (P_D1 i) /\ callable (is_miss_func p) (P_LL i).
Proof. intros [] Hi. by split_and!; left. Qed.

Lemma wf_misses_I1 p v : wf_policy p -> wf_policy (p <| misses_I1 := v |>).
Proof. intros []. by split. Qed.
Lemma wf_misses_IL p v : wf_policy p -> wf_policy (p <| misses_IL := v |>).
Proof. intros []. by split. Qed.
Hint Resolve wf_misses_I1 wf_misses_IL safe_update_policy : safe.

Lemma safe_I1_policy_Gen i : 0 <= i < 4 -> safe (I1_doref_policy_Gen a size i).
Proof.
  intros Hi. unfold I1_doref_policy_Gen. apply safe_get_policy; [done|]. intros p Hp.
  destruct (safe_policy_function p i Hp Hi) as (HcI & _ & HcL).
  set (f := is_miss_func p) in *.
  apply triple_bind with (R := fun _ => wf_with f); [apply set_function_with|]. intros _.
  apply triple_bind with (R := fun _ => wf_with f); [by apply ref_with|]. intros miss.
  apply triple_when; [|by intros ? []].
  apply triple_bind with (R := fun _ => wf_with f).
  { apply keep_function; [eauto with safe | apply preserves_update_policy]. }
  intros _. eapply triple_bind; [by apply (safe_ref f)|]. intros missL.
  apply safe_when. eauto with safe.
Qed.

Lemma safe_ptrs :
  safe (modify (fun s => s <| missesI1 := Some m1 |> <| missesIL := Some mL |>)).
Proof.
  apply safe_modify. intros s []. split; cbn [missesI1 missesIL set_field]; try done;
    try (intros p Hp; by simplify_eq).
Qed.

Lemma safe_policies (f : Z -> SE sim unit) :
  (forall i, 0 <= i < 4 -> safe (f i)) -> safe (for_each policy_indices f).
Proof.
  intros Hf. apply triple_for_each. intros i Hi. apply Hf.
  unfold policy_indices in Hi. set_unfold in Hi. lia.
Qed.

Lemma I1_Gen_safe : safe (cachesim_I1_doref_Gen a size m1 mL).
Proof.
  unfold cachesim_I1_doref_Gen. rewrite u8_small by lia. apply safe_bind; [apply safe_ptrs|]. intros _.
  apply safe_bind; [apply safe_current|]. intros multi.
  apply safe_bind; [|by eauto with safe].
  apply safe_when, safe_policies, safe_I1_policy_Gen.
Qed.

Lemma safe_I1_policy_NoX k block i :
  0 <= k < g_sets gI -> 0 <= i < 4 -> safe (I1_doref_policy_NoX k block i).
Proof.
  intros Hk Hi. unfold I1_doref_policy_NoX. apply safe_get_policy; [done|]. intros p Hp.
  destruct (safe_policy_function p i Hp Hi) as (HcI & _ & HcL).
  apply safe_bind; [by apply safe_call|]. intros miss. apply safe_when.
  apply (safe_gets_bind LL _ (has_geom gL)); [by intros s []|]. intros ll Hll.
  apply safe_bind; [eauto with safe|]. intros _.
  apply safe_bind; [|intros; apply safe_when; eauto with safe].
  apply safe_call; [done|]. cbn [geom_of]. destruct Hll as (Hw & _ & <- & _). by apply set_no_of_range.
Qed.

Lemma I1_NoX_safe : safe (cachesim_I1_doref_NoX a size m1 mL).
Proof.
  unfold cachesim_I1_doref_NoX. apply safe_bind; [apply safe_ptrs|]. intros _.
  apply (safe_gets_bind I1 _ (has_geom gI)); [by intros s []|]. intros i1 Hi1.
  pose proof Hi1 as (Hw & _ & Hsets & _). apply triple_bind with (R := fun _ => wf_sim).
  { apply triple_lift. intros s Hs. rewrite block_of_ok by done. eauto. }
  intros block. assert (Hk : 0 <= set_no_of i1 block < g_sets gI)
    by (rewrite <-Hsets; by apply set_no_of_range).
  apply safe_bind; [apply safe_current|]. intros multi.
  apply safe_bind; [by apply safe_when, safe_policies; intros; apply safe_I1_policy_NoX|]. intros _.
  apply safe_bind; [apply safe_gets|]. intros f.
  apply safe_bind; [apply safe_call; [by right|done]|]. intros miss. apply safe_when.
  apply (safe_gets_bind LL _ (has_geom gL)); [by intros s []|]. intros ll Hll.
  apply safe_bind; [by apply safe_add_counter|]. intros _.
  apply safe_bind; [|intros; by apply safe_when, safe_add_counter].
  apply safe_call; [by right|]. cbn [geom_of]. destruct Hll as (Hwl & _ & <- & _). by apply set_no_of_range.
Qed.

(** *** Data references *)

Lemma wf_history_of p b : wf_policy p ->
  0 <= h_historic (get_history b p) <= W /\ 0 <= h_online (get_history b p) <= W.
Proof.
  intros Hp. destruct (wfp_hist p Hp b) as [w [HL ? Hb Hw Hh Ho]]. split; [|done].
  rewrite Hh. pose proof (ones_in_range w Hb) as Hr. apply (f_equal length) in Hw.
  rewrite length_app, length_drop, length_take in Hw. lia.
Qed.

Lemma safe_D1_policy i mn : 0 <= i < 4 -> safe (D1_doref_policy a size i mn).
Proof.
  intros Hi. unfold D1_doref_policy. apply safe_get_policy; [done|]. intros p Hp.
  destruct (safe_policy_function p i Hp Hi) as (_ & HcD & HcL).
  set (f := is_miss_func p) in *.
  apply triple_bind with (R := fun _ => wf_with f); [apply set_function_with|]. intros _.
  apply triple_bind with (R := fun _ => wf_with f); [by apply ref_with|]. intros miss.
  apply triple_bind with (R := fun _ => wf_sim).
  { destruct miss.
    - apply triple_bind with (R := fun _ => wf_with f).
      { apply keep_function; [by apply safe_store_miss | apply preserves_store]. }
      intros _. apply triple_bind with (R := fun _ => wf_sim); [by apply (safe_ref f)|].
      intros missL. apply safe_bind; [by apply safe_store | intros; apply safe_ret].
    - apply forget_function. apply safe_bind; [by apply safe_store_hit | intros; apply safe_ret]. }
  intros _. apply safe_get_policy; [done|]. intros p' Hp'.
  apply safe_bind; [apply safe_current|]. intros online.
  cbn zeta. case_match; [|apply safe_ret].
  apply safe_bind; [|intros; apply safe_ret].
  apply safe_modify. intros s []. by split.
Qed.

Lemma safe_for_policies mn (f : Z -> Z -> SE sim Z) :
  (forall i b, 0 <= i < 4 -> safe (f i b)) -> safe (for_fold policy_indices mn f).
Proof.
  intros Hf. unfold policy_indices. cbn [for_fold].
  repeat (apply safe_bind; [apply Hf; lia|]; intros ?). apply safe_ret.
Qed.

(** *** Fixed windows *)

Lemma safe_copy_policy_caches p i :
  wf_policy p -> 0 <= i < 4 -> safe (copy_policy_caches p i).
Proof.
  intros Hp Hi. unfold copy_policy_caches. apply safe_get_policy; [done|]. intros q Hq.
  destruct Hp as [HI HD HL _ _]. destruct Hq as [HI' HD' HL' Hf Hh].
  assert (Hcopy : forall g c c', has_geom g c -> has_geom g c' ->
    exists c'', copy_caches c c' = Ok c'' /\ has_geom g c'').
  { intros g c c' (Hw & Ha1 & Hs1 & Hb1) (Hw' & Ha2 & Hs2 & Hb2).
    destruct (copy_caches_ok c c' Hw Hw' ltac:(congruence) ltac:(congruence)) as (E & Hw'').
    eexists. split; [exact E|]. by split. }
  destruct (Hcopy _ _ _ HI HI') as (i1 & E1 & H1).
  destruct (Hcopy _ _ _ HD HD') as (d1 & E2 & H2).
  destruct (Hcopy _ _ _ HL HL') as (ll & E3 & H3).
  rewrite E1, E2, E3.
  apply triple_bind with (R := fun x s => wf_sim s /\ x = i1); [apply triple_lift; eauto|].
  intros x. apply triple_pre. intros s [Hs ->]. 
  intros s' <-. unfold mbind, SE_bind, lift. cbn [obind].
  apply (safe_set_policy i); [done| |done]. by split.
Qed.

Lemma safe_fixed_window_policy i :
  need = true -> 0 <= i < 4 -> safe (fixed_window_policy m1 mL i).
Proof.
  intros Hneed Hi. unfold fixed_window_policy.
  apply (safe_gets_bind id _ wf_sim); [done|]. intros s Hs.
  apply safe_bind.
  { case_match.
    - apply safe_get_policy; [by apply (wfs_min s)|]. intros best Hbest.
      by apply safe_copy_policy_caches.
    - apply safe_bind; [by apply safe_incr_uses|]. intros _.
      apply safe_get_policy; [done|]. intros p _.
      destruct (wfs_need s Hs Hneed) as [pI EI].
      destruct (proj1 (wfs_pair s Hs) ltac:(by eexists)) as [pL EL].
      rewrite EI, EL. cbn [add_to_static_counter].
      repeat (apply safe_bind; [|intros _]); apply safe_add_counter;
        first [done | by apply (wfs_I1_ptr s) | by apply (wfs_IL_ptr s)]. }
  intros _. rewrite (wfs_window s Hs).
  assert (Hz : malloc_zeroed W = Ok (replicate (Z.to_nat W) 0))
    by (unfold malloc_zeroed; destruct (Z.ltb_spec W 0); [lia|done]).
  rewrite Hz. intros s' Hs'. unfold mbind, SE_bind, lift. cbn [obind].
  apply (safe_update_policy i); [done| |done]. intros p [HI HD HL Hf Hh].
  split; try done. intros b. destruct (Hh b) as [w Hw]. exists (replicate (Z.to_nat W) 0).
  assert (Harr : h_array (get_history b (p <| array_misses_D1 := replicate (Z.to_nat W) 0 |>
    <| array_misses_LL := replicate (Z.to_nat W) 0 |> <| historic_misses_D1 := 0 |>
    <| historic_misses_LL := 0 |> <| misses_DL := 0 |> <| misses_IL := 0 |> <| misses_D1 := 0 |>
    <| misses_I1 := 0 |>)) = replicate (Z.to_nat W) 0) by (by destruct b).
  split; rewrite ?Harr, ?length_replicate; try lia.
  - destruct Hw as [_ Hpos _ _ _ _]. by destruct b.
  - apply Forall_replicate. by left.
  - rewrite drop_replicate, take_replicate, <-replicate_add. f_equal.
    destruct Hw as [_ Hpos _ _ _ _]. destruct b; cbn in *; lia.
  - rewrite ones_in_zeros. by destruct b.
  - destruct Hw as [_ _ _ _ _ Ho]. by destruct b.
Qed.

Lemma safe_fixed_window : need = true -> safe (D1_doref_fixed_window m1 mL).
Proof.
  intros Hneed. unfold D1_doref_fixed_window. apply safe_bind; [apply safe_gets|]. intros s.
  apply safe_when. apply safe_bind; [|intros _; apply safe_modify; intros ? []; by split].
  apply safe_policies. intros i Hi. by apply safe_fixed_window_policy.
Qed.

(** *** Selection *)

Lemma safe_select misses :
  (forall p, wf_policy p -> 0 <= misses p <= W) -> safe (D1_doref_select misses).
Proof.
  intros Hm. unfold D1_doref_select. apply (safe_gets_bind id _ wf_sim); [done|]. intros s Hs.
  apply safe_get_policy; [by apply wfs_min|]. intros best Hbest.
  apply safe_get_policy; [by apply wfs_selected|]. intros cur Hcur.
  rewrite (wfs_threshold s Hs). pose proof (Hm cur Hcur).
  rewrite int_add_ok by lia.
  apply triple_bind with (R := fun _ => wf_sim); [apply triple_lift; eauto|]. intros bound.
  apply safe_bind.
  { apply safe_when, safe_modify. intros s' []. by split. }
  intros _. apply (safe_gets_bind id _ wf_sim); [done|]. intros s' Hs'.
  apply safe_get_policy; [by apply wfs_selected|]. intros p Hp.
  apply safe_bind; [apply safe_modify; intros ? []; by split|]. intros _.
  apply safe_incr_uses. by apply wfs_selected.
Qed.

Lemma safe_set_function f : safe (set_miss_function f).
Proof. apply safe_modify. intros ? []. by split. Qed.
Hint Resolve safe_set_function : safe.

Lemma safe_adaptative : safe D1_doref_adaptative.
Proof.
  unfold D1_doref_adaptative. apply safe_bind; [apply safe_current|]. intros naive.
  apply safe_bind; [apply safe_when, safe_modify; intros ? []; by split|]. intros _.
  apply safe_bind; [apply safe_gets|]. intros s. cbn zeta.
  repeat case_match; try (apply safe_bind; [|intros _]); eauto with safe.
Qed.

Lemma safe_result : safe (D1_doref_result a size m1 mL).
Proof.
  unfold D1_doref_result. apply safe_bind; [apply safe_modify; intros ? []; by split|]. intros _.
  by apply safe_two_levels.
Qed.

(** The mode is not changed by code that keeps the globals. *)
Lemma current_fixed l s s' :
  globals s' = globals s -> current_is l s' = Ok (existsb (Z.eqb (current_cache_replacement_policy (globals s))) l, s').
Proof. intros Hg. unfold current_is, gets. by rewrite Hg. Qed.

Lemma D1_safe :
  mode <> LEARNING -> (mode = FIXED_WINDOW -> need = true) -> safe (cachesim_D1_doref a size m1 mL).
Proof.
  intros Hlearn Hfix s Hs. rewrite <-(wfs_mode s Hs) in Hlearn, Hfix. unfold cachesim_D1_doref. rewrite u8_small by lia.
  unfold mbind at 1, SE_bind at 1. cbn [modify].
  set (s0 := s <| access_counter := _ |> <| blocks := _ |>).
  assert (Hs0 : wf_sim s0) by (destruct Hs; by split).
  unfold mbind at 1, SE_bind at 1. rewrite (current_fixed _ s s0) by done.
  assert (existsb (Z.eqb (current_cache_replacement_policy (globals s))) [LEARNING] = false) as ->
    by (cbn; apply Z.eqb_neq in Hlearn; by rewrite Hlearn).
  do 4 (unfold mbind at 1, SE_bind at 1; rewrite (current_fixed _ s s0) by done).
  refine (safe_bind _ _ _ _ s0 Hs0).
  - apply safe_when. apply safe_bind.
    + apply safe_when. apply (safe_gets_bind id _ wf_sim); [done|]. intros s1 Hs1.
      apply safe_get_policy; [by apply wfs_selected|]. intros p Hp.
      apply safe_bind; [apply safe_set_function|]. intros _.
      apply safe_bind; [by apply safe_incr_uses, wfs_selected|]. intros _.
      apply safe_modify. intros ? []. by split.
    + intros _. apply safe_bind; [|intros; apply safe_ret].
      apply safe_for_policies. intros. by apply safe_D1_policy.
  - intros _. destruct (existsb _ [FIXED_WINDOW]) eqn:Ef.
    + apply safe_fixed_window. apply Hfix. cbn in Ef. rewrite orb_false_r in Ef. by apply Z.eqb_eq.
    + assert (Hsel : forall g, (forall p, wf_policy p -> 0 <= g p <= W) -> forall b, safe (when b (D1_doref_select g)))
        by (intros g Hg b; by apply safe_when, safe_select).
      apply safe_bind; [apply Hsel; intros p Hp; apply (wf_history_of p false Hp)|intros _].
      apply safe_bind; [apply Hsel; intros p Hp; apply (wf_history_of p false Hp)|intros _].
      apply safe_bind; [apply safe_current|intros adaptative].
      apply safe_bind; [apply safe_when, safe_adaptative|intros _]. apply safe_result.
Qed.

End Reference.

End Safety.

(** ** Initialisation establishes the invariant *)

Definition geom_of_config (config : cache_t) (sets : Z) : geom :=
  mk_geom (assoc_ config) sets (VG_log2 (line_size_ config)).

Lemma initcache_geom config sets :
  valid_config config sets ->
  exists c, cachesim_initcache config = Ok c /\ has_geom (geom_of_config config sets) c.
Proof.
  intros Hv. destruct (initcache_ok config sets Hv) as (c & Hc & Hw & _ & Ha & _ & Hs & _ & Hb & _).
  exists c. split; [done|]. by split_and!.
Qed.

(** The configurations the invariant holds for. *)
Record valid_globals (g : cg_arch) : Prop := {
  vg_window : 2 <= window_counter g < 2 ^ 31 - 1;
  vg_threshold : 0 <= switching_threshold_parameter g < 2 ^ 31;
  vg_no_dip3 : cache_replacement_policy g <> DIP3_POLICY;
  vg_no_dip3a : cache_replacement_policy g <> DIP3_AGEING_POLICY
}.

Section Init.
Context (g : cg_arch) (co : string -> bool) (I1c D1c LLc : cache_t) (nI nD nL : Z).
Context (Hg : valid_globals g) (HI : valid_config I1c nI) (HD : valid_config D1c nD)
  (HL : valid_config LLc nL).

Let gI := geom_of_config I1c nI.
Let gD := geom_of_config D1c nD.
Let gL := geom_of_config LLc nL.
Let W := window_counter g.

Lemma init_policy_ok f nm :
  simple f = true ->
  exists p, init_policy g I1c D1c LLc no_policy f nm = Ok p /\ wf_policy gI gD gL W p /\ uses p = 0.
Proof.
  intros Hf. unfold init_policy.
  destruct (initcache_geom I1c nI HI) as (i1 & -> & H1).
  destruct (initcache_geom D1c nD HD) as (d1 & -> & H2).
  destruct (initcache_geom LLc nL HL) as (ll & -> & H3).
  destruct Hg as [HWr _ _ _]. fold W in HWr |- *. cbn [obind].
  unfold malloc_zeroed. destruct (Z.ltb_spec W 0); [lia|]. cbn [obind].
  eexists. split; [reflexivity|]. split; [|done]. split; try done.
  intros b. exists (replicate (Z.to_nat W) 0).
  destruct b; split; cbn [get_history h_array h_pos h_historic h_online array_misses_LL array_misses_D1
    bit_result_counter_D1 bit_result_counter_LL historic_misses_D1 historic_misses_LL
    online_misses_LL online_misses_D1 no_policy Z.to_nat]; rewrite ?length_replicate; try lia;
    try (apply Forall_replicate; by left); try (by rewrite ones_in_zeros);
    by rewrite firstn_O, drop_0, app_nil_r.
Qed.

Lemma initcaches_wf m :
  exists s, cachesim_initcaches I1c D1c LLc (sim_static g co) = Ok (tt, s)
    /\ wf_sim gI gD gL W (switching_threshold_parameter g) (dom m) false
         (current_cache_replacement_policy g) (s <| line_counters := m |>)
    /\ cachesim_setref_is_miss s = result_function (cache_replacement_policy g).
Proof.
  unfold cachesim_initcaches. cbn [globals sim_static].
  assert ((cache_replacement_policy g =? DIP3_POLICY)
          || (cache_replacement_policy g =? DIP3_AGEING_POLICY) = false) as ->.
  { destruct Hg. apply orb_false_iff. split; by apply Z.eqb_neq. }
  cbn [andb].
  destruct (initcache_geom I1c nI HI) as (i1 & E1 & H1).
  destruct (initcache_geom D1c nD HD) as (d1 & E2 & H2).
  destruct (initcache_geom LLc nL HL) as (ll & E3 & H3).
  rewrite E1, E2, E3. cbn [obind policies sim_static replicate POLICIES miss_functions names zip zip_with].
  destruct (init_policy_ok F_lru "LRU" eq_refl) as (p0 & Ep0 & Hp0 & _).
  destruct (init_policy_ok F_fifo "FIFO" eq_refl) as (p1 & Ep1 & Hp1 & _).
  destruct (init_policy_ok F_bip "BIP" eq_refl) as (p2 & Ep2 & Hp2 & _).
  destruct (init_policy_ok F_random "RANDOM" eq_refl) as (p3 & Ep3 & Hp3 & _).
  cbn [init_policies]. rewrite Ep0, Ep1, Ep2, Ep3. cbn [obind].
  eexists. split; [reflexivity|]. split; [|done].
  split; try done.
  change (Forall (wf_policy gI gD gL W) [p0; p1; p2; p3]).
  by repeat apply Forall_cons_2.
Qed.
End Init.

(** ** Sequences of references *)

Inductive reference :=
| Ref_IGen (a size : Z) (m1 mL : counter_ptr)
| Ref_INoX (a size : Z) (m1 mL : counter_ptr)
| Ref_D (a size : Z) (m1 mL : counter_ptr).

Definition do_reference (r : reference) : SE sim unit :=
  match r with
  | Ref_IGen a size m1 mL => cachesim_I1_doref_Gen a size m1 mL
  | Ref_INoX a size m1 mL => cachesim_I1_doref_NoX a size m1 mL
  | Ref_D a size m1 mL => cachesim_D1_doref a size m1 mL
  end.

Definition is_instruction (r : reference) : bool :=
  match r with Ref_D _ _ _ _ => false | _ => true end.

(** A reference of at most 255 bytes (the length is an [UChar]) that does not
    wrap and fits lines of [line] bytes, with
    counters of [M]. *)
Definition valid_reference (line : Z) (M : gset counter_ptr) (r : reference) : Prop :=
  match r with
  | Ref_IGen a size m1 mL | Ref_INoX a size m1 mL | Ref_D a size m1 mL =>
      0 <= a /\ 1 <= size < 2 ^ 8 /\ size <= line /\ a + size <= 2 ^ 64 /\ m1 ∈ M /\ mL ∈ M
  end.

Lemma do_reference_safe gI gD gL W thr M need mode r line :
  2 <= W < 2 ^ 31 - 1 -> 0 <= thr < 2 ^ 31 -> mode <> LEARNING ->
  (mode = FIXED_WINDOW -> need = true) ->
  line <= 2 ^ g_bits gI -> line <= 2 ^ g_bits gD -> line <= 2 ^ g_bits gL ->
  valid_reference line M r -> safe gI gD gL W thr M need mode (do_reference r).
Proof.
  intros HW Hthr Hmode Hneed HfI HfD HfL Hr.
  destruct r as [a size m1 mL | a size m1 mL | a size m1 mL];
    destruct Hr as (Ha & Hsize & Hfit & Hmax & Hm1 & HmL); cbn [do_reference].
  - apply I1_Gen_safe; (done || lia).
  - apply I1_NoX_safe; (done || lia).
  - apply D1_safe; (done || lia).
Qed.

(** The smallest of the three line sizes. *)
Definition min_line (I1c D1c LLc : cache_t) : Z :=
  Z.min (line_size_ I1c) (Z.min (line_size_ D1c) (line_size_ LLc)).

Lemma geom_line config sets line :
  valid_config config sets -> line <= line_size_ config -> line <= 2 ^ g_bits (geom_of_config config sets).
Proof.
  intros [_ _ (k & Hk & Ek) _ _] Hl. unfold geom_of_config. cbn [g_bits].
  rewrite Ek in *. by rewrite VG_log2_pow2 by lia.
Qed.

Lemma never_fails g co I1c D1c LLc nI nD nL refs m
    (Hg : valid_globals g)
    (HI : valid_config I1c nI) (HD : valid_config D1c nD) (HL : valid_config LLc nL)
    (Hmode : current_cache_replacement_policy g <> LEARNING)
    (Hfixed : current_cache_replacement_policy g = FIXED_WINDOW -> exists r rs,
                refs = r :: rs /\ is_instruction r = true)
    (Hrefs : Forall (valid_reference (min_line I1c D1c LLc) (dom m)) refs) :
  exists s s', cachesim_initcaches I1c D1c LLc (sim_static g co) = Ok (tt, s)
    /\ for_each refs do_reference (s <| line_counters := m |>) = Ok (tt, s')
    /\ wf_sim (geom_of_config I1c nI) (geom_of_config D1c nD) (geom_of_config LLc nL)
         (window_counter g) (switching_threshold_parameter g) (dom m) false
         (current_cache_replacement_policy g) s'.
Proof.
  destruct (initcaches_wf g co I1c D1c LLc nI nD nL Hg HI HD HL m) as (s & Es & Hs & _).
  exists s. pose proof Hg as [HWr Hthr _ _].
  assert (Hsafe : forall need r, (current_cache_replacement_policy g = FIXED_WINDOW -> need = true) ->
    valid_reference (min_line I1c D1c LLc) (dom m) r ->
    safe (geom_of_config I1c nI) (geom_of_config D1c nD) (geom_of_config LLc nL) (window_counter g)
      (switching_threshold_parameter g) (dom m) need (current_cache_replacement_policy g) (do_reference r)).
  { intros need r Hneed Hr. apply (do_reference_safe _ _ _ _ _ _ _ _ r (min_line I1c D1c LLc));
      try done; apply geom_line; try done; unfold min_line; lia. }
  destruct (decide (current_cache_replacement_policy g = FIXED_WINDOW)) as [Hfix|Hnofix].
  - destruct (Hfixed Hfix) as (r & rs & -> & Hir). inversion Hrefs as [|? ? Hr Hrs]; subst.
    assert (Hstart : exists s0, do_reference r (s <| line_counters := m |>) = do_reference r s0
      /\ wf_sim (geom_of_config I1c nI) (geom_of_config D1c nD) (geom_of_config LLc nL)
         (window_counter g) (switching_threshold_parameter g) (dom m) true
         (current_cache_replacement_policy g) s0).
    { destruct r as [a sz p q|a sz p q|]; [..|discriminate Hir];
        destruct Hr as (_ & _ & _ & _ & Hp & Hq);
        exists (s <| line_counters := m |> <| missesI1 := Some p |> <| missesIL := Some q |>);
        (split; [reflexivity|]); destruct Hs; split; cbn [missesI1 missesIL set_field]; try done;
        try (intros ? ?; by simplify_eq). }
    destruct Hstart as (s0 & E0 & Hs0).
    destruct (triple_for_each (r :: rs) do_reference (wf_sim (geom_of_config I1c nI) (geom_of_config D1c nD) (geom_of_config LLc nL)
         (window_counter g) (switching_threshold_parameter g) (dom m) true
         (current_cache_replacement_policy g))) with (s := s0) as ([] & s' & E & Hs'); [|done|].
    { intros x Hx. apply Hsafe; [done|]. exact (proj1 (Forall_forall _ _) Hrefs x Hx). }
    exists s'. split_and!; [done| |by destruct Hs'; split].
    cbn [for_each] in *. unfold mbind, SE_bind in *. by rewrite E0.
  - destruct (triple_for_each refs do_reference (wf_sim (geom_of_config I1c nI) (geom_of_config D1c nD) (geom_of_config LLc nL)
         (window_counter g) (switching_threshold_parameter g) (dom m) false
         (current_cache_replacement_policy g))) with (s := s <| line_counters := m |>)
      as ([] & s' & E & Hs'); [|done|].
    { intros x Hx. apply Hsafe; [done|]. exact (proj1 (Forall_forall _ _) Hrefs x Hx). }
    by exists s'.
Qed.

(** C2: after initialisation with valid caches, a window of 2 to 2^31 - 2 and a
    threshold that is not negative, the simulator never fails: in
    every mode but the learning one and with every policy but the two [dip3]
    ones, any sequence of references of 1 to 255 bytes that fit the smallest line
    and do not wrap around returns, with no access
    outside an array, no undefined arithmetic and no panic, and keeps the
    invariant (well-formed caches of unchanged geometry, histories that are
    the windows they stand for, indices and selectors in range).  A fixed
    window needs the first reference to be an instruction read. *)
Theorem simulation_never_fails g co I1c D1c LLc nI nD nL refs m
    (Hg : valid_globals g)
    (HI : valid_config I1c nI) (HD : valid_config D1c nD) (HL : valid_config LLc nL)
    (Hmode : current_cache_replacement_policy g <> LEARNING)
    (Hfixed : current_cache_replacement_policy g = FIXED_WINDOW -> exists r rs,
                refs = r :: rs /\ is_instruction r = true)
    (Hrefs : Forall (valid_reference (min_line I1c D1c LLc) (dom m)) refs) :
  exists s s', cachesim_initcaches I1c D1c LLc (sim_static g co) = Ok (tt, s)
    /\ for_each refs do_reference (s <| line_counters := m |>) = Ok (tt, s')
    /\ wf_sim (geom_of_config I1c nI) (geom_of_config D1c nD) (geom_of_config LLc nL)
         (window_counter g) (switching_threshold_parameter g) (dom m) false
         (current_cache_replacement_policy g) s'.
Proof. by apply never_fails. Qed.

(** A sliding window over three tiny caches. *)
Definition sliding_globals : cg_arch :=
  mk_cg_arch SLIDING_WINDOW (double_of_Z 0) 8 16 SLIDING_WINDOW 0 false.

Lemma tiny_config_valid : valid_config tiny_config 4.
Proof. split; cbn; try lia. exists 4. lia. Qed.

Lemma simulation_never_fails_witness :
  exists s s', cachesim_initcaches tiny_config tiny_config tiny_config (sim_static sliding_globals (fun _ => true)) = Ok (tt, s)
    /\ for_each [Ref_INoX 64 4 (0, Ir_m1) (0, Ir_mL); Ref_D 30 8 (0, Dr_m1) (0, Dr_mL)] do_reference
         (s <| line_counters := tiny_counters |>) = Ok (tt, s')
    /\ wf_sim (geom_of_config tiny_config 4) (geom_of_config tiny_config 4) (geom_of_config tiny_config 4)
         16 8 (dom tiny_counters) false SLIDING_WINDOW s'.
Proof.
  apply (simulation_never_fails sliding_globals (fun _ => true) tiny_config tiny_config tiny_config 4 4 4
    [Ref_INoX 64 4 (0, Ir_m1) (0, Ir_mL); Ref_D 30 8 (0, Dr_m1) (0, Dr_mL)] tiny_counters).
  - split; cbn; (lia || discriminate).
  - exact tiny_config_valid.
  - exact tiny_config_valid.
  - exact tiny_config_valid.
  - discriminate.
  - discriminate.
  - change (min_line tiny_config tiny_config tiny_config) with 16.
    assert (Hin : forall f, (0, f) ∈ dom tiny_counters).
    { intros f. apply elem_of_dom. by destruct f; vm_compute; eexists. }
    apply Forall_cons_2; [|apply Forall_cons_2; [|apply Forall_nil_2]];
      cbn [valid_reference]; split_and!; (lia || apply Hin).
Defined.
