(* ===== verification/Selection.v ===== *)
(** * The approaches that compare policies

    What one data reference decides in the sliding-window and online modes, and
    what goes wrong with the shadow caches of [dip3] and with the leader sets of
    the dueling mode. *)

From Stdlib Require Import SpecFloat.
From S2P Require Import Prelude Float LibcBase SetRef PolicyTheory Printf CacheSim DoRef SimTheory History Safety.

(** ** What one policy does with a data reference *)







(** What the comparison of the policies does not touch. *)
Definition result_same (s s' : sim) : Prop :=
  I1 s' = I1 s /\ D1 s' = D1 s /\ LL s' = LL s /\ line_counters s' = line_counters s
  /\ globals s' = globals s /\ data_blocks s' = data_blocks s /\ access_counter s' = access_counter s.

#[export] Instance result_same_preorder : PreOrder result_same.
Proof.
  split; [by intros s|]. intros s1 s2 s3 H K. unfold result_same in *. destruct_and! H. destruct_and! K. split_and!; congruence.
Qed.


(** ** The comparison loop *)

Section Loop.
Context (gI gD gL : geom) (W thr : Z) (M : gset counter_ptr) (need : bool) (mode : Z).
Context (HW : 2 <= W) (HWmax : W < 2 ^ 31 - 1) (Hthr : 0 <= thr < 2 ^ 31).
Context (a size : Z) (Ha : 0 <= a) (Hsize : 1 <= size < 2 ^ 8) (Hmax : a + size <= 2 ^ 64).
Context (HfI : size <= 2 ^ g_bits gI) (HfD : size <= 2 ^ g_bits gD) (HfL : size <= 2 ^ g_bits gL).





















End Loop.

(** ** The decision of the windowed approaches *)



(** ** Leader and follower sets *)

(** The policy a D1 set is a leader of. *)
Definition leader_of (set_no : Z) : option miss_function :=
  if leader 1 set_no then Some F_lru
  else if leader 2 set_no then Some F_fifo
  else if leader 3 set_no then Some F_bip
  else None.

Lemma leader_range b k : 0 <= b <= 3 -> leader b k = true -> 1 <= k < 160 \/ b = 0.
Proof.
  intros Hb H. unfold leader in H. apply existsb_exists in H as (x & Hx & Hk).
  apply list_elem_of_In, list_elem_of_fmap in Hx as (n & -> & Hn). apply elem_of_seq in Hn.
  apply Z.eqb_eq in Hk. destruct (bool_decide _); lia.
Qed.

Lemma best_of_three_first h0 h1 h2 :
  best_of_three h0 h1 h2 =
    if Z.min h0 (Z.min h1 h2) =? h0 then F_lru
    else if Z.min h0 (Z.min h1 h2) =? h1 then F_fifo else F_bip.
Proof.
  unfold best_of_three.
  destruct (Z.leb_spec h0 h1), (Z.leb_spec h0 h2), (Z.leb_spec h1 h0), (Z.leb_spec h1 h2),
    (Z.leb_spec h2 h1), (Z.leb_spec h2 h0); cbn [andb];
    repeat match goal with |- context [?x =? ?y] => destruct (Z.eqb_spec x y) end; (done || lia).
Qed.

Definition sets_led_by (f : miss_function) : list Z :=
  filter (fun k => leader_of k = Some f) (Z.of_nat <$> seq 0 160).

(** in the dueling mode a D1 set either leads one of LRU, FIFO and BIP,
    always follows that policy and records its results, or follows the first of
    the three with the fewest recorded misses.  All leaders are below 160, but
    they are not balanced: LRU has 32, FIFO and BIP 29 each, since the lists of
    the code write 2 where they mean 1 for three LRU sets, which take sets 47,
    97 and 147 from FIFO, and for three BIP ones. *)
Theorem dueling_leaders :
  (forall k tag s,
     cachesim_setref_is_miss_dueling R_D1 k tag s =
       match leader_of k with
       | Some F_lru => run_leader 0 setref_lru R_D1 k tag s
       | Some F_fifo => run_leader 1 setref_fifo R_D1 k tag s
       | Some _ => run_leader 2 setref_bip R_D1 k tag s
       | None => run_best_of_three R_D1 k tag s
       end)
  /\ (forall h0 h1 h2, best_of_three h0 h1 h2 =
        if Z.min h0 (Z.min h1 h2) =? h0 then F_lru
        else if Z.min h0 (Z.min h1 h2) =? h1 then F_fifo else F_bip)
  /\ (forall k, ~ 0 <= k < 160 -> leader_of k = None)
  /\ length (sets_led_by F_lru) = 32%nat
  /\ length (sets_led_by F_fifo) = 29%nat
  /\ length (sets_led_by F_bip) = 29%nat
  /\ (forall k, k ∈ [46; 48; 96; 98; 146; 148] -> leader_of k = None)
  /\ (forall k, k ∈ [47; 97; 147] -> leader_of k = Some F_lru).
Proof.
  split_and!; [| exact best_of_three_first | | by vm_compute.. | |].
  - intros k tag s. unfold cachesim_setref_is_miss_dueling, leader_of.
    rewrite !decide_False by discriminate. by repeat case_test.
  - intros k Hk. unfold leader_of.
    destruct (leader 1 k) eqn:E1; [apply leader_range in E1; lia|].
    destruct (leader 2 k) eqn:E2; [apply leader_range in E2; lia|].
    destruct (leader 3 k) eqn:E3; [apply leader_range in E3; lia|]. done.
  - intros k Hk. set_unfold in Hk. by destruct_or! Hk; subst; vm_compute.
  - intros k Hk. set_unfold in Hk. by destruct_or! Hk; subst; vm_compute.
Qed.

(** ** The shadow caches of [dip3] *)

Section Dip3.
Context (g : cg_arch) (co : string -> bool) (I1c D1c LLc : cache_t) (nI nD nL : Z).
Context (HI : valid_config I1c nI) (HD : valid_config D1c nD) (HL : valid_config LLc nL).
Context (Hpol : cache_replacement_policy g = DIP3_POLICY \/ cache_replacement_policy g = DIP3_AGEING_POLICY).
Context (Hover : overhead_allowed g = false) (Hwin : 0 <= window_counter g) (HnD : 32 <= nD).

Definition shadow_config : cache_t := mk_cache_t (32 * assoc_ D1c * line_size_ D1c) (assoc_ D1c) (line_size_ D1c).

Lemma shadow_valid : valid_config shadow_config 32.
Proof.
  destruct HD as [H1 H2 (k & Hk & E) H4 H5]. split; cbn; [lia|done|by exists k|done|]. nia.
Qed.

Lemma init_policy_shadow f nm old :
  exists p, init_policy g I1c shadow_config LLc old f nm = Ok p /\ has_geom (geom_of_config shadow_config 32) (p_D1 p).
Proof.
  unfold init_policy.
  destruct (initcache_geom I1c nI HI) as (i1 & -> & H1).
  destruct (initcache_geom shadow_config 32 shadow_valid) as (d1 & -> & H2).
  destruct (initcache_geom LLc nL HL) as (ll & -> & H3). cbn [obind].
  unfold malloc_zeroed. destruct (Z.ltb_spec (window_counter g) 0); [lia|]. cbn [obind].
  by eexists.
Qed.

Lemma dip3_init :
  exists s p, cachesim_initcaches I1c D1c LLc (sim_static g co) = Ok (tt, s)
    /\ policy_at 0 s = Some p /\ has_geom (geom_of_config shadow_config 32) (p_D1 p)
    /\ has_geom (geom_of_config D1c nD) (D1 s)
    /\ (cachesim_setref_is_miss s = F_dip3 \/ cachesim_setref_is_miss s = F_dip3a).
Proof.
  unfold cachesim_initcaches. cbn [globals sim_static].
  assert ((cache_replacement_policy g =? DIP3_POLICY)
          || (cache_replacement_policy g =? DIP3_AGEING_POLICY) = true) as ->
    by (by destruct Hpol as [-> | ->]).
  rewrite Hover. cbn [andb].
  destruct (initcache_geom I1c nI HI) as (i1 & -> & H1).
  destruct (initcache_geom D1c nD HD) as (d1 & -> & H2).
  destruct (initcache_geom LLc nL HL) as (ll & -> & H3).
  cbn [obind policies sim_static replicate POLICIES miss_functions names zip zip_with init_policies].
  fold shadow_config.
  destruct (init_policy_shadow F_lru "LRU" no_policy) as (p0 & -> & Hp0).
  destruct (init_policy_shadow F_fifo "FIFO" no_policy) as (p1 & -> & Hp1).
  destruct (init_policy_shadow F_bip "BIP" no_policy) as (p2 & -> & Hp2).
  destruct (init_policy_shadow F_random "RANDOM" no_policy) as (p3 & -> & Hp3).
  cbn [obind]. eexists _, p0. split; [reflexivity|]. split_and!; [done|exact Hp0|exact H2|].
  destruct Hpol as [E|E]; [left|right]; cbn [cachesim_setref_is_miss set_field]; by rewrite E.
Qed.

(** The shadow has 32 sets, whatever D1 has. *)
Lemma shadow_out_of_bounds s p k tag :
  policy_at 0 s = Some p -> has_geom (geom_of_config shadow_config 32) (p_D1 p) -> 32 <= k < nD ->
  setref_lru (P_D1 0) k tag s = Err Undefined.
Proof.
  intros Hp (Hw & Ha & Hs & _) Hk. cbn in Ha, Hs.
  unfold setref_lru, run_policy, mbind, SE_bind.
  rewrite (get_cache_at (P_D1 0) s (p_D1 p)) by (cbn [cache_at]; by rewrite Hp).
  cbn [gets]. unfold lift, lift_policy, cachesim_setref_is_miss_lru, set_base.
  destruct HD as [H1 H2 (j & Hj & E) H4 H5]. destruct Hw as [_ _ _ _ _ Ht _].
  assert (0 < line_size_ D1c) by (rewrite E; apply Z.pow_pos_nonneg; lia).
  assert (Hna : nD * assoc_ D1c < 2 ^ 31).
  { rewrite H4 in H5. assert (0 < nD * assoc_ D1c) by (apply Z.mul_pos_pos; lia). nia. }
  assert (k * assoc_ D1c < nD * assoc_ D1c) by (apply Z.mul_lt_mono_pos_r; lia).
  assert (32 * assoc_ D1c <= k * assoc_ D1c) by (apply Z.mul_le_mono_nonneg_r; lia).
  rewrite Ha. rewrite Ha, Hs in Ht. rewrite u32_small by lia.
  rewrite rd_out; [done|]. lia.
Qed.

End Dip3.

(** with the [dip3] policies every D1 of more than 32 sets is accessed
    outside its shadow caches: those have 32 sets but are indexed with the set
    number of D1, so the first reference to a set from 32 on reads beyond the
    tag array. *)
Theorem dip3_shadow_out_of_bounds g co I1c D1c LLc nI nD nL
    (HI : valid_config I1c nI) (HD : valid_config D1c nD) (HL : valid_config LLc nL)
    (Hpol : cache_replacement_policy g = DIP3_POLICY \/ cache_replacement_policy g = DIP3_AGEING_POLICY)
    (Hover : overhead_allowed g = false) (Hwin : 0 <= window_counter g) (HnD : 32 < nD) :
  exists s, cachesim_initcaches I1c D1c LLc (sim_static g co) = Ok (tt, s)
    /\ c_sets (D1 s) = nD
    /\ forall k tag, 32 <= k < nD ->
         call_miss_function (cachesim_setref_is_miss s) R_D1 k tag s = Err Undefined.
Proof.
  destruct (dip3_init g co I1c D1c LLc nI nD nL HI HD HL Hpol Hover Hwin ltac:(lia))
    as (s & p & E & Hp & Hgp & HgD & Hfn).
  exists s. split; [done|]. split; [by destruct HgD as (_ & _ & -> & _)|].
  intros k tag Hk.
  destruct Hfn as [-> | ->]; cbn [call_miss_function];
    unfold cachesim_setref_is_miss_dip3, cachesim_setref_is_miss_dip3a;
    rewrite decide_True by done; unfold mbind, SE_bind;
    by rewrite (shadow_out_of_bounds D1c nD HD ltac:(lia) s p k tag Hp Hgp Hk).
Qed.

Definition dip3_globals : cg_arch := mk_cg_arch DIP3_POLICY (double_of_Z 0) 8 1024 DIP3_POLICY 0 false.

(** The usual 32 KB first-level caches have 64 sets. *)
Lemma dip3_shadow_out_of_bounds_witness :
  exists s, cachesim_initcaches (mk_cache_t 32768 8 64) (mk_cache_t 32768 8 64) (mk_cache_t 262144 8 64)
      (sim_static dip3_globals (fun _ => true)) = Ok (tt, s)
    /\ c_sets (D1 s) = 64
    /\ forall k tag, 32 <= k < 64 ->
         call_miss_function (cachesim_setref_is_miss s) R_D1 k tag s = Err Undefined.
Proof.
  assert (Hv : valid_config (mk_cache_t 32768 8 64) 64) by (split; cbn; try lia; exists 6; lia).
  assert (Hv2 : valid_config (mk_cache_t 262144 8 64) 512) by (split; cbn; try lia; exists 6; lia).
  apply (dip3_shadow_out_of_bounds dip3_globals (fun _ => true) _ _ _ 64 64 512 Hv Hv Hv2).
  - by left.
  - done.
  - cbn. lia.
  - lia.
Defined.

(** Whatever policy is selected, a generic instruction read leaves the last of
    the loop in force, RANDOM, for the result caches. *)
Example generic_read_leaves_random :
  (let* (_, s) := cachesim_I1_doref_Gen 0 4 (0, Ir_m1) (0, Ir_mL) (tiny_sim sliding_globals) in
   Ok (cachesim_setref_is_miss s, index_selected_policy s)) = Ok (F_random, 0).
Proof. vm_compute. reflexivity. Qed.
