(* ===== verification/Arch.v ===== *)
(** * Cache configuration: cachegrind/cg_arch.c

    Which caches are simulated: the command-line options, the caches the
    machine reports (a parameter), the defaults of each architecture, and the
    checks made before the simulator is initialised. *)

From Stdlib Require Import SpecFloat.
From S2P Require Import Prelude Float LibcBase SetRef Printf BranchPred CacheSim SimTheory.

(** ** Checks *)

(** The messages of [check_cache]. *)
Inductive cache_error :=
| line_not_power_of_two
| line_too_small
| size_le_line
| assoc_too_large.

Definition MIN_LINE_SIZE : Z := 16.

(** [None] is [NULL]: the configuration is ok. *)
Definition check_cache (cache : cache_t) : outcome (option cache_error) :=
  if VG_log2 (u32 (line_size_ cache)) =? -1 then Ok (Some line_not_power_of_two)
  else if line_size_ cache <? MIN_LINE_SIZE then Ok (Some line_too_small)
  else if size_ cache <=? line_size_ cache then Ok (Some size_le_line)
  else
    let* _ := defined_when (negb (line_size_ cache =? 0)) in
    if Z.quot (size_ cache) (line_size_ cache) <? assoc_ cache then Ok (Some assoc_too_large)
    else Ok None.

(** ** Options *)

(** [VG_(fmsg_bad_option)] ends the process. *)
Definition bad_option {A} : outcome A := Err (Exited 1).

Definition parse_cache_opt (optval : string) : outcome cache_t :=
  let* (i1, endptr) := VG_strtoll10 optval in
  if negb (hd0 endptr =? 44) then bad_option else
  let* (i2, endptr) := VG_strtoll10 (tl0 endptr) in
  if negb (hd0 endptr =? 44) then bad_option else
  let* (i3, endptr) := VG_strtoll10 (tl0 endptr) in
  if negb (hd0 endptr =? 0) then bad_option else
  let cache := mk_cache_t (s32 i1) (s32 i2) (s32 i3) in
  if negb (size_ cache =? i1) then bad_option
  else if negb (assoc_ cache =? i2) then bad_option
  else if negb (line_size_ cache =? i3) then bad_option
  else
    let* checkRes := check_cache cache in
    match checkRes with Some _ => bad_option | None => Ok cache end.

(** What follows the first [n] characters. *)
Fixpoint str_skip (n : nat) (s : string) : string :=
  match n with O => s | S n => str_skip n (tl0 s) end.

(** [VG_STR_CLO(arg, option, val)] while options are processed: [val] when
    [arg] is [option=val]. *)
Definition VG_STR_CLO (arg opt : string) : option string :=
  let len := (String.length opt + 1)%nat in
  if VG_strncmp arg (opt +:+ "=")%string len =? 0 then Some (str_skip len arg) else None.

(** Is [arg] a cache option, and the three caches after it. *)
Definition VG_str_clo_cache_opt (arg : string) (clo_I1c clo_D1c clo_LLc : cache_t)
  : outcome (bool * cache_t * cache_t * cache_t) :=
  match VG_STR_CLO arg "--I1" with
  | Some v => let* c := parse_cache_opt v in Ok (true, c, clo_D1c, clo_LLc)
  | None =>
      match VG_STR_CLO arg "--D1" with
      | Some v => let* c := parse_cache_opt v in Ok (true, clo_I1c, c, clo_LLc)
      | None =>
          match (match VG_STR_CLO arg "--L2" with Some v => Some v | None => VG_STR_CLO arg "--LL" end) with
          | Some v => let* c := parse_cache_opt v in Ok (true, clo_I1c, clo_D1c, c)
          | None => Ok (false, clo_I1c, clo_D1c, clo_LLc)
          end
      end
  end.

(** The messages are not modelled; the assertion is. *)
Definition check_cache_or_override (c : cache_t) (clo_redefined : bool) : outcome unit :=
  let* checkRes := check_cache c in
  match checkRes with
  | Some _ => assert_that clo_redefined
  | None => Ok tt
  end.

(** ** The last-level cache *)

Definition floor_power_of_2 (x : Z) : Z :=
  let x := Z.lor x (Z.shiftr x 1) in
  let x := Z.lor x (Z.shiftr x 2) in
  let x := Z.lor x (Z.shiftr x 4) in
  let x := Z.lor x (Z.shiftr x 8) in
  let x := Z.lor x (Z.shiftr x 16) in
  u32 (x - Z.shiftr x 1).

(** The new size and associativity when the number of sets is not a power of
    two. *)
Definition scale_assoc (old_nSets old_assoc old_line_size : Z) : outcome (Z * Z) :=
  let* _ := assert_that (0 <=? old_nSets) in
  let new_nSets := floor_power_of_2 old_nSets in
  let* _ := assert_that ((0 <? new_nSets) && (new_nSets <? old_nSets)) in
  let factor := double_div (double_of_Z old_nSets) (double_of_Z new_nSets) in
  let* _ := assert_that (SFleb (double_of_Z 1) factor) in
  let scaled := double_add one_half (double_mul factor (double_of_Z old_assoc)) in
  let* _ := defined_when ((0 <=? double_trunc scaled) && (double_trunc scaled <? 2 ^ 32)) in
  let new_assoc := double_trunc scaled in
  let* _ := assert_that (old_assoc <=? new_assoc) in
  Ok (u32 (u32 (old_line_size * new_assoc) * new_nSets), new_assoc).

Definition maybe_tweak_LLc (LLc : cache_t) : outcome cache_t :=
  if (size_ LLc =? 0) || (assoc_ LLc =? 0) || (line_size_ LLc =? 0) then Ok LLc
  else
    let* _ := assert_that ((0 <? size_ LLc) && (0 <? assoc_ LLc) && (0 <? line_size_ LLc)) in
    let old_size := u32 (size_ LLc) in
    let old_assoc := u32 (assoc_ LLc) in
    let old_line_size := u32 (line_size_ LLc) in
    let* _ := defined_when (negb (u32 (old_assoc * old_line_size) =? 0)) in
    let old_nSets := old_size / u32 (old_assoc * old_line_size) in
    if old_nSets =? 0 then Ok LLc
    else
      let* (new_size, new_assoc) :=
        if negb (VG_log2_64 old_nSets =? -1)
        then Ok (u32 (u32 (old_line_size * old_assoc) * old_nSets), old_assoc)
        else scale_assoc old_nSets old_assoc old_line_size in
      if (new_size =? old_size) && (new_assoc =? old_assoc) then Ok LLc
      else Ok (mk_cache_t (s32 new_size) (s32 new_assoc) (s32 old_line_size)).

(** ** Detected and default caches *)

Inductive VexCacheKind := DATA_CACHE | INSN_CACHE | UNIFIED_CACHE.

#[export] Instance VexCacheKind_eq_dec : EqDecision VexCacheKind.
Proof. solve_decision. Defined.

(** What [VG_(machine_get_VexArchInfo)] reports; [num_caches] is the length of
    [vci_caches]. *)
Record VexCache := mk_VexCache {
  vx_kind : VexCacheKind;
  vx_level : Z;
  vx_sizeB : Z;
  vx_line_sizeB : Z;
  vx_assoc : Z;
  vx_is_trace_cache : bool
}.
Record VexCacheInfo := mk_VexCacheInfo { vci_num_levels : Z; vci_caches : list VexCache }.

Fixpoint locate_cache (caches : list VexCache) (kind : VexCacheKind) (level : Z) : option VexCache :=
  match caches with
  | [] => None
  | c :: caches =>
      if (vx_level c =? level) && bool_decide (vx_kind c = kind) then Some c
      else locate_cache caches kind level
  end.

(** The defaults of each architecture: I1, D1 and LL. *)
Definition default_caches (arch : vga) : cache_t * cache_t * cache_t :=
  match arch with
  | VGA_ppc32 | VGA_ppc64be | VGA_ppc64le =>
      (mk_cache_t 65536 2 64, mk_cache_t 65536 2 64, mk_cache_t 262144 8 64)
  | VGA_arm | VGA_arm64 =>
      (mk_cache_t 16384 4 64, mk_cache_t 16384 4 64, mk_cache_t 262144 8 64)
  | VGA_s390x =>
      (mk_cache_t 65536 4 256, mk_cache_t 131072 8 256, mk_cache_t 50331648 24 256)
  | VGA_mips32 | VGA_nanomips | VGA_mips64 =>
      (mk_cache_t 32768 4 32, mk_cache_t 32768 4 32, mk_cache_t 524288 8 32)
  | VGA_x86 | VGA_amd64 =>
      (mk_cache_t 65536 2 64, mk_cache_t 65536 2 64, mk_cache_t 262144 8 64)
  end.

Definition of_VexCache (c : VexCache) : cache_t :=
  mk_cache_t (s32 (vx_sizeB c)) (s32 (vx_assoc c)) (s32 (vx_line_sizeB c)).

Definition configure_caches (arch : vga) (ci : VexCacheInfo) : cache_t * cache_t * cache_t :=
  match locate_cache (vci_caches ci) INSN_CACHE 1, locate_cache (vci_caches ci) DATA_CACHE 1,
        locate_cache (vci_caches ci) UNIFIED_CACHE (vci_num_levels ci) with
  | Some i1, Some d1, Some ll =>
      (if vx_is_trace_cache i1 then
         let adjusted_size :=
           if (vx_sizeB i1 =? 12 * 1024) || (vx_sizeB i1 =? 16 * 1024) then 16 * 1024 else 32 * 1024 in
         mk_cache_t adjusted_size (s32 (vx_assoc i1)) 32
       else of_VexCache i1, of_VexCache d1, of_VexCache ll)
  | _, _, _ => default_caches arch
  end.

(** [DEFINED(L)], and [UNDEFINED_CACHE]. *)
Definition DEFINED (c : cache_t) : bool :=
  negb (size_ c =? -1) || negb (assoc_ c =? -1) || negb (line_size_ c =? -1).
Definition UNDEFINED_CACHE : cache_t := mk_cache_t (-1) (-1) (-1).

Definition VG_post_clo_init_configure_caches (arch : vga) (ci : VexCacheInfo)
    (clo_I1c clo_D1c clo_LLc : cache_t) : outcome (cache_t * cache_t * cache_t) :=
  let '(I1c, D1c, LLc) := configure_caches arch ci in
  let* LLc := maybe_tweak_LLc LLc in
  let* _ := check_cache_or_override I1c (DEFINED clo_I1c) in
  let* _ := check_cache_or_override D1c (DEFINED clo_D1c) in
  let* _ := check_cache_or_override LLc (DEFINED clo_LLc) in
  Ok (if DEFINED clo_I1c then clo_I1c else I1c,
      if DEFINED clo_D1c then clo_D1c else D1c,
      if DEFINED clo_LLc then clo_LLc else LLc).

(** ** Lemmas *)

(** [y] has a bit when [x] has one in the [w] places from it. *)
Definition smeared (w : Z) (x y : Z) : Prop :=
  forall i, 0 <= i -> Z.testbit y i = true <-> exists j, 0 <= j < w /\ Z.testbit x (i + j) = true.

Lemma smear_step w x y : 0 < w -> smeared w x y -> smeared (2 * w) x (Z.lor y (Z.shiftr y w)).
Proof.
  intros Hw H i Hi. rewrite Z.lor_spec, Z.shiftr_spec, orb_true_iff, (H i), (H (i + w)) by lia.
  split.
  - intros [(j & Hj & Hb)|(j & Hj & Hb)].
    + exists j. split; [lia|done].
    + exists (w + j). split; [lia|]. by rewrite Z.add_assoc.
  - intros (j & Hj & Hb). destruct (Z.lt_ge_cases j w).
    + left. exists j. split; [lia|done].
    + right. exists (j - w). split; [lia|]. by replace (i + w + (j - w)) with (i + j) by lia.
Qed.

Lemma floor_power_of_2_spec x :
  0 <= x < 2 ^ 32 -> floor_power_of_2 x = if x =? 0 then 0 else 2 ^ Z.log2 x.
Proof.
  intros Hx. unfold floor_power_of_2.
  assert (H1 : smeared 1 x x).
  { intros i Hi. split; [intros Hb; exists 0; by rewrite Z.add_0_r|].
    intros (j & Hj & Hb). by replace (i + j) with i in Hb by lia. }
  apply (smear_step 1) in H1; [|lia]. apply (smear_step 2) in H1; [|lia].
  apply (smear_step 4) in H1; [|lia]. apply (smear_step 8) in H1; [|lia].
  apply (smear_step 16) in H1; [|lia].
  change (2 * 1) with 2 in H1. change (2 * 2) with 4 in H1. change (2 * 4) with 8 in H1.
  change (2 * 8) with 16 in H1. change (2 * 16) with 32 in H1.
  set (y := Z.lor (Z.lor (Z.lor _ _) _) (Z.shiftr _ 16)) in *.
  destruct (Z.eqb_spec x 0) as [->|Hne]; [done|].
  set (n := Z.log2 x). assert (Hn : 0 <= n < 32).
  { split; [apply Z.log2_nonneg|]. apply Z.log2_lt_pow2; lia. }
  assert (Hy : y = Z.ones (n + 1)).
  { apply Z.bits_inj'. intros i Hi. apply eq_iff_eq_true. rewrite (H1 i Hi).
    rewrite Z.ones_spec_iff by lia. split.
    - intros (j & Hj & Hb). destruct (Z.lt_ge_cases (i + j) (n + 1)); [lia|].
      rewrite Z.bits_above_log2 in Hb; [done|lia|unfold n in *; lia].
    - intros Hin. exists (n - i). split; [lia|]. replace (i + (n - i)) with n by lia.
      apply Z.bit_log2. lia. }
  rewrite Hy, Z.shiftr_div_pow2, Z.ones_equiv, Z.pow_add_r by lia. rewrite <-Z.sub_1_r.
  assert (Hp : 0 < 2 ^ n) by (apply Z.pow_pos_nonneg; lia).
  assert (Hp2 : 2 ^ n <= 2 ^ 31) by (apply Z.pow_le_mono_r; lia).
  replace ((2 ^ n * 2 ^ 1 - 1) / 2 ^ 1) with (2 ^ n - 1).
  - rewrite u32_small; lia.
  - change (2 ^ 1) with 2. apply (Z.div_unique _ _ _ 1); lia.
Qed.

Lemma check_cache_ok c :
  - 2 ^ 31 <= line_size_ c < 2 ^ 31 -> check_cache c = Ok None ->
  exists k, 4 <= k < 31 /\ line_size_ c = 2 ^ k /\ line_size_ c < size_ c
    /\ assoc_ c <= size_ c / line_size_ c.
Proof.
  intros Hl H. unfold check_cache in H.
  destruct (Z.eqb_spec (VG_log2 (u32 (line_size_ c))) (-1)); [discriminate H|].
  destruct (Z.ltb_spec (line_size_ c) MIN_LINE_SIZE) as [|Hmin]; [discriminate H|].
  unfold MIN_LINE_SIZE in Hmin.
  destruct (Z.leb_spec (size_ c) (line_size_ c)); [discriminate H|].
  destruct (Z.eqb_spec (line_size_ c) 0); [lia|]. cbn [negb defined_when obind] in H.
  destruct (Z.ltb_spec (Z.quot (size_ c) (line_size_ c)) (assoc_ c)) as [|Ha]; [discriminate H|].
  rewrite Z.quot_div_nonneg in Ha by lia.
  rewrite u32_small in * by lia. apply VG_log2_inv in n as [Hr Heq].
  exists (VG_log2 (line_size_ c)). split_and!; try done.
  - destruct (Z.lt_ge_cases (VG_log2 (line_size_ c)) 4) as [Hlt|]; [|done].
    assert (2 ^ VG_log2 (line_size_ c) <= 2 ^ 3) by (apply Z.pow_le_mono_r; lia). lia.
  - destruct (Z.lt_ge_cases (VG_log2 (line_size_ c)) 31) as [|Hge]; [done|].
    assert (2 ^ 31 <= 2 ^ VG_log2 (line_size_ c)) by (apply Z.pow_le_mono_r; lia). lia.
Qed.

(** ** The properties *)

(** [floor_power_of_2] is the largest power of two not above its argument,
    and 0 for 0, on every [UInt]. *)
Theorem floor_power_of_2_largest x (Hx : 0 <= x < 2 ^ 32) :
  (x = 0 -> floor_power_of_2 x = 0)
  /\ (0 < x -> exists n, 0 <= n < 32 /\ floor_power_of_2 x = 2 ^ n /\ 2 ^ n <= x < 2 * 2 ^ n).
Proof.
  rewrite floor_power_of_2_spec by done. split; [by intros ->|].
  intros Hpos. destruct (Z.eqb_spec x 0); [lia|].
  pose proof (Z.log2_nonneg x). exists (Z.log2 x). split_and!; try done.
  - apply Z.log2_lt_pow2; lia.
  - apply Z.log2_spec. lia.
  - rewrite <-Z.pow_succ_r by lia. apply Z.log2_spec. lia.
Qed.

Lemma floor_power_of_2_largest_witness :
  (12288 = 0 -> floor_power_of_2 12288 = 0)
  /\ (0 < 12288 -> exists n, 0 <= n < 32 /\ floor_power_of_2 12288 = 2 ^ n /\ 2 ^ n <= 12288 < 2 * 2 ^ n).
Proof. apply floor_power_of_2_largest. lia. Defined.

(** [cachegrind]'s text for an option, ["%d,%d,%d"]. *)
Definition print_cache_opt (c : cache_t) : outcome string :=
  let* s := fmt_d (size_ c) in
  let* a := fmt_d (assoc_ c) in
  let* l := fmt_d (line_size_ c) in
  Ok (s +:+ "," +:+ a +:+ "," +:+ l)%string.

(** the option parser reads back the printed form of every configuration of
    [Int]s: it returns exactly that configuration when [check_cache] accepts
    it, and ends the process with status 1 when it does not. *)
Theorem parse_cache_opt_reads_printed c
    (Hs : - 2 ^ 31 <= size_ c < 2 ^ 31) (Ha : - 2 ^ 31 <= assoc_ c < 2 ^ 31)
    (Hl : - 2 ^ 31 <= line_size_ c < 2 ^ 31) :
  exists text res, print_cache_opt c = Ok text /\ check_cache c = Ok res
    /\ parse_cache_opt text = match res with None => Ok c | Some _ => Err (Exited 1) end.
Proof.
  destruct c as [sz a l]. cbn [size_ assoc_ line_size_] in *.
  assert (Hres : exists res, check_cache (mk_cache_t sz a l) = Ok res).
  { unfold check_cache. cbn [size_ assoc_ line_size_].
    destruct (VG_log2 (u32 l) =? -1); [eauto|].
    destruct (Z.ltb_spec l MIN_LINE_SIZE); [eauto|]. destruct (sz <=? l); [eauto|].
    destruct (Z.eqb_spec l 0); [unfold MIN_LINE_SIZE in *; lia|]. cbn [negb defined_when obind].
    destruct (_ <? a); eauto. }
  destruct Hres as [res Hres].
  unfold print_cache_opt. cbn [size_ assoc_ line_size_].
  destruct (strtoll10_fmt_d l EmptyString ltac:(lia) eq_refl) as (tl & -> & Hrl).
  destruct (strtoll10_fmt_d a ("," +:+ tl)%string ltac:(lia) eq_refl) as (ta & -> & Hra).
  destruct (strtoll10_fmt_d sz ("," +:+ ta +:+ "," +:+ tl)%string ltac:(lia) eq_refl) as (ts & -> & Hrs).
  cbn [obind]. exists (ts +:+ "," +:+ ta +:+ "," +:+ tl)%string, res. split; [done|]. split; [done|].
  unfold parse_cache_opt. rewrite Hrs. cbn [obind].
  change (hd0 ("," +:+ ta +:+ "," +:+ tl)) with 44. cbn [Z.eqb Pos.eqb negb].
  change (tl0 ("," +:+ ta +:+ "," +:+ tl)) with (ta +:+ "," +:+ tl)%string. rewrite Hra. cbn [obind].
  change (hd0 ("," +:+ tl)) with 44. cbn [Z.eqb Pos.eqb negb].
  change (tl0 ("," +:+ tl)) with tl. rewrite string_app_nil_r in Hrl. rewrite Hrl. cbn [obind hd0].
  cbn [Z.eqb negb size_ assoc_ line_size_]. rewrite !s32_small by lia. rewrite !Z.eqb_refl. cbn [negb].
  rewrite Hres. cbn [obind]. by destruct res.
Qed.

Lemma parse_cache_opt_reads_printed_witness :
  exists text res, print_cache_opt (mk_cache_t 65536 2 64) = Ok text
    /\ check_cache (mk_cache_t 65536 2 64) = Ok res
    /\ parse_cache_opt text = match res with None => Ok (mk_cache_t 65536 2 64) | Some _ => Err (Exited 1) end.
Proof. apply parse_cache_opt_reads_printed; cbn; lia. Defined.

(** A configuration that [check_cache] accepts has a power-of-two line of at
    least 16 bytes; with a positive associativity the simulator's initialisation
    turns it into a well-formed cache whose lines hold any instruction of 16
    bytes.  An associativity of 0, which is accepted too, makes the
    initialisation divide by zero. *)
Theorem accepted_cache_initialises c
    (Hs : - 2 ^ 31 <= size_ c < 2 ^ 31) (Hl : - 2 ^ 31 <= line_size_ c < 2 ^ 31)
    (Hok : check_cache c = Ok None) :
  (exists k, 4 <= k < 31 /\ line_size_ c = 2 ^ k)
  /\ (0 < assoc_ c -> exists cc, cachesim_initcache c = Ok cc /\ wf_cache cc /\ fits cc 16
        /\ c_assoc cc = assoc_ c /\ c_sets cc = size_ c / line_size_ c / assoc_ c)
  /\ (assoc_ c = 0 -> cachesim_initcache c = Err Undefined).
Proof.
  destruct (check_cache_ok c Hl Hok) as (k & Hk & Hline & Hsz & Hassoc).
  assert (Hpos : 0 < line_size_ c) by (rewrite Hline; apply Z.pow_pos_nonneg; lia).
  split_and!; [by exists k| |].
  - intros Ha.
    assert (Hsets : 0 < size_ c / line_size_ c / assoc_ c) by (apply Z.div_str_pos; lia).
    assert (Hq : Z.quot (Z.quot (size_ c) (line_size_ c)) (assoc_ c) = size_ c / line_size_ c / assoc_ c).
    { rewrite (Z.quot_div_nonneg (size_ c)) by lia.
      rewrite Z.quot_div_nonneg by (try apply Z.div_pos; lia). done. }
    destruct (initcache_general c (size_ c / line_size_ c / assoc_ c) k Ha ltac:(lia) Hline ltac:(lia)
      (eq_sym Hq) Hsets) as (cc & Hc & Hw & _ & Hca & _ & Hcs & _ & Hcb & _).
    exists cc. split_and!; try done. unfold fits. rewrite Hcb, Hline, VG_log2_pow2 by lia.
    change 16 with (2 ^ 4). apply Z.pow_le_mono_r; lia.
  - intros Ha. unfold cachesim_initcache, cache_geometry. rewrite Ha.
    by destruct (Z.eqb_spec (line_size_ c) 0); [lia|].
Qed.

(** [--D1=65536,0,64] is accepted. *)
Lemma accepted_cache_initialises_witness :
  check_cache (mk_cache_t 65536 0 64) = Ok None /\
  ((exists k, 4 <= k < 31 /\ 64 = 2 ^ k)
   /\ (0 < 0 -> exists cc, cachesim_initcache (mk_cache_t 65536 0 64) = Ok cc /\ wf_cache cc /\ fits cc 16
        /\ c_assoc cc = 0 /\ c_sets cc = 65536 / 64 / 0)
   /\ (0 = 0 -> cachesim_initcache (mk_cache_t 65536 0 64) = Err Undefined)).
Proof.
  split; [reflexivity|].
  apply (accepted_cache_initialises (mk_cache_t 65536 0 64)); [cbn; lia | cbn; lia | reflexivity].
Defined.

(** The number of sets of a default cache. *)
Definition sets_of (c : cache_t) : Z := size_ c / line_size_ c / assoc_ c.

Definition no_cache_info : VexCacheInfo := mk_VexCacheInfo 0 [].

Lemma default_valid c k :
  0 <= k < 31 -> line_size_ c = 2 ^ k -> 0 < assoc_ c -> 0 < sets_of c -> size_ c < 2 ^ 31 ->
  size_ c = sets_of c * assoc_ c * line_size_ c -> valid_config c (sets_of c).
Proof. intros. split; eauto. Qed.

Lemma default_caches_ok arch :
  exists I1c D1c LLc,
    VG_post_clo_init_configure_caches arch no_cache_info UNDEFINED_CACHE UNDEFINED_CACHE UNDEFINED_CACHE
      = Ok (I1c, D1c, LLc)
    /\ default_caches arch = (I1c, D1c, LLc)
    /\ Forall (fun c => valid_config c (sets_of c) /\ VG_log2 (sets_of c) <> -1 /\ 32 <= line_size_ c)
         [I1c; D1c; LLc].
Proof.
  destruct arch; eexists _, _, _; (split; [vm_compute; reflexivity|]);
    (split; [reflexivity|]); repeat apply Forall_cons_2; try apply Forall_nil_2;
    (split_and!; [|vm_compute; discriminate|cbn; lia]);
    first [ apply (default_valid _ 5); cbn; lia || done
          | apply (default_valid _ 6); cbn; lia || done
          | apply (default_valid _ 8); cbn; lia || done ].
Qed.

(** on every architecture, when no cache is detected and none is given, the
    default caches pass every check and are used as they are; each has a
    power-of-two number of sets and is a valid configuration of the simulator,
    with lines of at least 32 bytes. *)
Theorem default_caches_usable arch :
  exists I1c D1c LLc,
    VG_post_clo_init_configure_caches arch no_cache_info UNDEFINED_CACHE UNDEFINED_CACHE UNDEFINED_CACHE
      = Ok (I1c, D1c, LLc)
    /\ default_caches arch = (I1c, D1c, LLc)
    /\ Forall (fun c => valid_config c (sets_of c) /\ VG_log2 (sets_of c) <> -1 /\ 32 <= line_size_ c)
         [I1c; D1c; LLc].
Proof. apply default_caches_ok. Qed.

(** A last-level cache whose number of sets is a power of two keeps its ways
    and lines; its size becomes exactly what the sets hold, it is then a valid
    configuration of the simulator when its line is a power of two, and a second
    adjustment changes nothing. *)
Theorem tweak_keeps_pow2_sets c
    (Hs : 0 < size_ c < 2 ^ 31) (Ha : 0 < assoc_ c) (Hl : 0 < line_size_ c)
    (Hfit : assoc_ c * line_size_ c <= size_ c) (Hpow : VG_log2_64 (sets_of c) <> -1) :
  let c' := mk_cache_t (sets_of c * assoc_ c * line_size_ c) (assoc_ c) (line_size_ c) in
  maybe_tweak_LLc c = Ok c'
  /\ maybe_tweak_LLc c' = Ok c'
  /\ size_ c - assoc_ c * line_size_ c < size_ c' <= size_ c
  /\ (VG_log2 (line_size_ c) <> -1 -> line_size_ c < 2 ^ 31 -> valid_config c' (sets_of c)).
Proof.
  cbn zeta. destruct c as [sz a l]. unfold sets_of in *. cbn [size_ assoc_ line_size_] in *.
  assert (Hdiv : sz / (a * l) = sz / l / a) by (rewrite Z.mul_comm, Z.div_div by lia; done).
  set (n := sz / l / a) in *.
  assert (Hn : 0 < n) by (rewrite <-Hdiv; apply Z.div_str_pos; nia).
  pose proof (Z.mul_div_le sz (a * l) ltac:(nia)) as Hle.
  pose proof (Z.mul_succ_div_gt sz (a * l) ltac:(nia)) as Hgt. rewrite Hdiv in Hle, Hgt.
  assert (Hsmall : a * l < 2 ^ 32) by lia.
  assert (Ha31 : a < 2 ^ 31) by nia. assert (Hl31 : l < 2 ^ 31) by nia.
  assert (Htweak : forall z, 0 < z < 2 ^ 31 -> z / (a * l) = n ->
    maybe_tweak_LLc (mk_cache_t z a l) = Ok (mk_cache_t (n * a * l) a l)).
  { intros z Hz Hzd. unfold maybe_tweak_LLc. cbn [size_ assoc_ line_size_].
    destruct (Z.eqb_spec z 0), (Z.eqb_spec a 0), (Z.eqb_spec l 0); try lia. cbn [orb].
    rewrite assert_that_true by (rewrite !andb_true_iff, !Z.ltb_lt; lia). cbn [obind].
    rewrite !(u32_small z), !(u32_small a), !(u32_small l), !(u32_small (a * l)), (u32_small (l * a)) by nia.
    destruct (Z.eqb_spec (a * l) 0); [nia|]. cbn [negb defined_when obind]. rewrite Hzd.
    destruct (Z.eqb_spec n 0); [lia|]. destruct (Z.eqb_spec (VG_log2_64 n) (-1)); [done|].
    cbn [negb obind]. rewrite u32_small by nia. rewrite Z.eqb_refl, andb_true_r.
    rewrite !s32_small by nia.
    destruct (Z.eqb_spec (l * a * n) z) as [<-|]; do 2 f_equal; lia. }
  split_and!.
  - by apply Htweak.
  - apply Htweak; [nia|]. replace (n * a * l) with (n * (a * l)) by lia. apply Z.div_mul. nia.
  - nia.
  - nia.
  - intros Hlog _. apply VG_log2_inv in Hlog as [Hr Heq]. split; cbn; try done; try lia.
    exists (VG_log2 l). split; [|done]. split; [lia|].
    destruct (Z.lt_ge_cases (VG_log2 l) 31) as [|Hge]; [done|].
    assert (2 ^ 31 <= 2 ^ VG_log2 l) by (apply Z.pow_le_mono_r; lia). lia.
Qed.

Lemma tweak_keeps_pow2_sets_witness :
  let c := mk_cache_t 524416 8 64 in
  let c' := mk_cache_t (sets_of c * assoc_ c * line_size_ c) (assoc_ c) (line_size_ c) in
  maybe_tweak_LLc c = Ok c'
  /\ maybe_tweak_LLc c' = Ok c'
  /\ size_ c - assoc_ c * line_size_ c < size_ c' <= size_ c
  /\ (VG_log2 (line_size_ c) <> -1 -> line_size_ c < 2 ^ 31 -> valid_config c' (sets_of c)).
Proof.
  apply (tweak_keeps_pow2_sets (mk_cache_t 524416 8 64)); cbn [size_ assoc_ line_size_];
    [lia | lia | lia | lia | by vm_compute].
Defined.

(** The case of the comment: 12 MB, 16 ways, 64-byte lines; the 12288 sets
    become 8192 of 24 ways. *)
Example tweak_core_i7 :
  maybe_tweak_LLc (mk_cache_t 12582912 16 64) = Ok (mk_cache_t 12582912 24 64).
Proof. vm_compute. reflexivity. Qed.
