(* ===== verification/OSet.v ===== *)
(** * Ordered sets: coregrind/m_oset.c

    An AVL tree of elements, ordered by a comparison of a key with an element.
    A node is its element (the pointer the client holds) with the AVL metadata;
    a subtree stands for the pointer to its root.  Cachegrind keeps its three
    tables in such sets. *)

From S2P Require Import Prelude.

(** ** Interface: what a client's comparison function is *)

(** [cmp k e] is the [OSetCmp_t] function, [key e] the key at [keyOff] in [e]. *)
Class OSetCmp (K E : Type) := {
  key : E -> K;
  cmp : K -> E -> Z
}.

(** The order of keys a comparison function has to define. *)
Class KeyOrder (K E : Type) `{OSetCmp K E} := {
  kcmp : K -> K -> Z;
  cmp_kcmp k e : cmp k e = kcmp k (key e);
  kcmp_antisym x y : Z.sgn (kcmp y x) = - Z.sgn (kcmp x y);
  kcmp_trans x y z : kcmp x y < 0 -> kcmp y z < 0 -> kcmp x z < 0;
  kcmp_eq_lt x y z : kcmp x y = 0 -> kcmp y z < 0 -> kcmp x z < 0
}.

(** ** Data *)

(** [balance] is the height of the right subtree minus that of the left one. *)
Inductive tree (E : Type) :=
| Leaf
| Node (left : tree E) (elem : E) (balance : Z) (right : tree E).
Arguments Leaf {E}.
Arguments Node {E} _ _ _ _.

Definition STACK_MAX : nat := 32.

(** The iterator stack, top first: nodes with the number of their visit. *)
Record oset (E : Type) := mk_oset {
  nElems : Z;
  root : tree E;
  stack : list (tree E * Z)
}.
Arguments mk_oset {E} _ _ _.
Arguments nElems {E} _.
Arguments root {E} _.
Arguments stack {E} _.

(** ** Rotations *)

Section Trees.
Context {E : Type} `{EqDecision E}.
Implicit Types t l r : tree E.

(** [n->balance = v]. *)
Definition set_balance (v : Z) t : outcome (tree E) :=
  match t with Node l e _ r => Ok (Node l e v r) | Leaf => Err Undefined end.

(** [n->left->balance = v] and [n->right->balance = v]. *)
Definition set_left_balance (v : Z) t : outcome (tree E) :=
  match t with
  | Node l e b r => let* l := set_balance v l in Ok (Node l e b r)
  | Leaf => Err Undefined
  end.
Definition set_right_balance (v : Z) t : outcome (tree E) :=
  match t with
  | Node l e b r => let* r := set_balance v r in Ok (Node l e b r)
  | Leaf => Err Undefined
  end.

(** [n->balance], [n->left->balance] and [n->right->balance]. *)
Definition balance_of t : outcome Z :=
  match t with Node _ _ b _ => Ok b | Leaf => Err Undefined end.
Definition left_balance t : outcome Z :=
  match t with Node l _ _ _ => balance_of l | Leaf => Err Undefined end.
Definition right_balance t : outcome Z :=
  match t with Node _ _ _ r => balance_of r | Leaf => Err Undefined end.

Definition avl_swl t : outcome (tree E) :=
  match t with
  | Node l a ba (Node rl b bb rr) => Ok (Node (Node l a ba rl) b bb rr)
  | _ => Err Undefined
  end.

Definition avl_swr t : outcome (tree E) :=
  match t with
  | Node (Node ll b bb lr) a ba r => Ok (Node ll b bb (Node lr a ba r))
  | _ => Err Undefined
  end.

(** [avl_swl(&n->left)] and [avl_swr(&n->right)]. *)
Definition swl_left t : outcome (tree E) :=
  match t with
  | Node l e b r => let* l := avl_swl l in Ok (Node l e b r)
  | Leaf => Err Undefined
  end.
Definition swr_right t : outcome (tree E) :=
  match t with
  | Node l e b r => let* r := avl_swr r in Ok (Node l e b r)
  | Leaf => Err Undefined
  end.

Definition avl_nasty t : outcome (tree E) :=
  let* b := balance_of t in
  let* t :=
    if b =? -1 then let* t := set_left_balance 0 t in set_right_balance 1 t
    else if b =? 1 then let* t := set_left_balance (-1) t in set_right_balance 0 t
    else if b =? 0 then let* t := set_left_balance 0 t in set_right_balance 0 t
    else Ok t in
  set_balance 0 t.

(** The subtree when the code keeps its pointer to the node of [e] and does not
    assign the new root of the subtree: that node has to be the root still. *)
Definition still_rooted_at (e : E) t : outcome (tree E) :=
  match t with
  | Node _ e' _ _ => if decide (e' = e) then Ok t else Err Undefined
  | Leaf => Err Undefined
  end.

Fixpoint depth t : nat :=
  match t with Leaf => O | Node l _ _ r => S (Nat.max (depth l) (depth r)) end.

Fixpoint tree_size t : nat :=
  match t with Leaf => O | Node l _ _ r => S (tree_size l + tree_size r) end.

End Trees.

(** ** Insertion, lookup and deletion *)

Section Operations.
Context {K E : Type} `{OSetCmp K E} `{EqDecision E}.
Implicit Types t l r : tree E.

(** The balance of the node was [b] and its left subtree has grown. *)
Definition grown_left (b : Z) t : outcome (bool * tree E) :=
  if b =? 1 then Ok (false, t)
  else if b =? 0 then Ok (true, t)
  else
    let* bl := left_balance t in
    if bl <? 0 then
      let* t := avl_swr t in
      let* t := set_balance 0 t in
      let* t := set_right_balance 0 t in
      Ok (false, t)
    else
      let* t := swl_left t in
      let* t := avl_swr t in
      let* t := avl_nasty t in
      Ok (false, t).

(** Its right subtree has grown. *)
Definition grown_right (b : Z) t : outcome (bool * tree E) :=
  if b =? -1 then Ok (false, t)
  else if b =? 0 then Ok (true, t)
  else
    let* br := right_balance t in
    if 0 <? br then
      let* t := avl_swl t in
      let* t := set_balance 0 t in
      let* t := set_left_balance 0 t in
      Ok (false, t)
    else
      let* t := swr_right t in
      let* t := avl_swl t in
      let* t := avl_nasty t in
      Ok (false, t).

(** The tree and whether its depth has grown; [t] is not empty. *)
Fixpoint avl_insert t (n : E) : outcome (bool * tree E) :=
  match t with
  | Leaf => Err Undefined
  | Node l e b r =>
      let cmpres := cmp (key n) e in
      if cmpres <? 0 then
        match l with
        | Node _ el _ _ =>
            let* (grown, l) := avl_insert l n in
            if grown then
              let* l := still_rooted_at el l in
              grown_left b (Node l e (b - 1) r)
            else Ok (false, Node l e b r)
        | Leaf => Ok (b =? 0, Node (Node Leaf n 0 Leaf) e (b - 1) r)
        end
      else if 0 <? cmpres then
        match r with
        | Node _ er _ _ =>
            let* (grown, r) := avl_insert r n in
            if grown then
              let* r := still_rooted_at er r in
              grown_right b (Node l e (b + 1) r)
            else Ok (false, Node l e b r)
        | Leaf => Ok (b =? 0, Node l e (b + 1) (Node Leaf n 0 Leaf))
        end
      else Err AssertFail
  end.

Definition VG_OSetGen_Insert (t : oset E) (e : E) : outcome (oset E) :=
  let* r :=
    match root t with
    | Leaf => Ok (Node Leaf e 0 Leaf)
    | Node _ _ _ _ => let* (_, r) := avl_insert (root t) e in Ok r
    end in
  Ok (mk_oset (u32 (nElems t + 1)) r []).

Fixpoint avl_lookup t (k : K) : option E :=
  match t with
  | Leaf => None
  | Node l e _ r =>
      let cmpres := cmp k e in
      if cmpres <? 0 then avl_lookup l k
      else if 0 <? cmpres then avl_lookup r k
      else Some e
  end.

Definition VG_OSetGen_Lookup (t : oset E) (k : K) : option E := avl_lookup (root t) k.
Definition VG_OSetGen_Contains (t : oset E) (k : K) : bool :=
  bool_decide (is_Some (VG_OSetGen_Lookup t k)).

(** [while (n->right) n = n->right;] and its mirror image. *)
Fixpoint last_elem t : outcome E :=
  match t with
  | Leaf => Err Undefined
  | Node _ e _ Leaf => Ok e
  | Node _ _ _ r => last_elem r
  end.
Fixpoint first_elem t : outcome E :=
  match t with
  | Leaf => Err Undefined
  | Node Leaf e _ _ => Ok e
  | Node l _ _ _ => first_elem l
  end.

(** [avl_removeroot], where [remove] is [avl_remove]. *)
Definition avl_removeroot (remove : tree E -> E -> outcome (bool * tree E)) t
  : outcome (bool * tree E) :=
  match t with
  | Leaf => Err Undefined
  | Node Leaf _ _ r => Ok (true, r)
  | Node l _ _ Leaf => Ok (true, l)
  | Node l _ b r =>
      let* n := if b <? 0 then last_elem l else first_elem r in
      let* (ch, t) := remove t n in
      match t with
      | Node l _ b r => Ok (if b =? 0 then ch else false, Node l n b r)
      | Leaf => Err Undefined
      end
  end.

(** The left subtree has shrunk. *)
Definition shrunk_left (b : Z) t : outcome (bool * tree E) :=
  if b =? -1 then Ok (true, t)
  else if b =? 0 then Ok (false, t)
  else
    let* br := right_balance t in
    if br =? 0 then
      let* t := avl_swl t in
      let* t := set_balance (-1) t in
      let* t := set_left_balance 1 t in
      Ok (false, t)
    else if br =? 1 then
      let* t := avl_swl t in
      let* t := set_balance 0 t in
      let* t := set_left_balance 0 t in
      Ok (true, t)
    else
      let* t := swr_right t in
      let* t := avl_swl t in
      let* t := avl_nasty t in
      Ok (true, t).

(** The right subtree has shrunk. *)
Definition shrunk_right (b : Z) t : outcome (bool * tree E) :=
  if b =? 1 then Ok (true, t)
  else if b =? 0 then Ok (false, t)
  else
    let* bl := left_balance t in
    if bl =? 0 then
      let* t := avl_swr t in
      let* t := set_balance 1 t in
      let* t := set_right_balance (-1) t in
      Ok (false, t)
    else if bl =? -1 then
      let* t := avl_swr t in
      let* t := set_balance 0 t in
      let* t := set_right_balance 0 t in
      Ok (true, t)
    else
      let* t := swl_left t in
      let* t := avl_swr t in
      let* t := avl_nasty t in
      Ok (true, t).

(** The tree without the node [n], and whether its depth has shrunk. *)
Fixpoint avl_remove (fuel : nat) t (n : E) : outcome (bool * tree E) :=
  match fuel with
  | O => Err OutOfFuel
  | S fuel =>
      match t with
      | Leaf => Err Undefined
      | Node l e b r =>
          let cmpres := cmp (key n) e in
          if cmpres <? 0 then
            match l with
            | Leaf => Err AssertFail
            | Node _ _ _ _ =>
                let* (ch, l) := avl_remove fuel l n in
                if ch then shrunk_left b (Node l e (b + 1) r)
                else Ok (false, Node l e b r)
            end
          else if 0 <? cmpres then
            match r with
            | Leaf => Err AssertFail
            | Node _ _ _ _ =>
                let* (ch, r) := avl_remove fuel r n in
                if ch then shrunk_right b (Node l e (b - 1) r)
                else Ok (false, Node l e b r)
            end
          else
            let* _ := assert_that (bool_decide (e = n)) in
            avl_removeroot (avl_remove fuel) t
      end
  end.

(** One call per level, and twice over the levels below a removed root. *)
Definition remove_fuel t : nat := (2 * depth t + 2)%nat.

Definition VG_OSetGen_Remove (t : oset E) (k : K) : outcome (option E * oset E) :=
  match avl_lookup (root t) k with
  | Some n =>
      let* (_, r) := avl_remove (remove_fuel (root t)) (root t) n in
      Ok (Some n, mk_oset (u32 (nElems t - 1)) r [])
  | None => Ok (None, t)
  end.

Definition VG_OSetGen_Create : oset E := mk_oset 0 Leaf [].
Definition VG_OSetGen_EmptyClone (os : oset E) : oset E := mk_oset 0 Leaf [].
Definition VG_OSetGen_Size (t : oset E) : Z := nElems t.

(** ** The iterator *)

Definition stackPush (s : list (tree E * Z)) (n : tree E) (i : Z) : outcome (list (tree E * Z)) :=
  let* _ := assert_that (length s <? STACK_MAX)%nat in
  let* _ := assert_that ((1 <=? i) && (i <=? 3)) in
  Ok ((n, i) :: s).

(** [case_1]: the node and its left spine. *)
Fixpoint push_left (s : list (tree E * Z)) (n : tree E) : outcome (list (tree E * Z)) :=
  match n with
  | Leaf => Err Undefined
  | Node l _ _ _ =>
      let* s := stackPush s n 2 in
      match l with Leaf => Ok s | Node _ _ _ _ => push_left s l end
  end.

Definition VG_OSetGen_ResetIter (t : oset E) : outcome (oset E) :=
  let* s := match root t with Leaf => Ok [] | Node _ _ _ _ => stackPush [] (root t) 1 end in
  Ok (mk_oset (nElems t) (root t) s).

(** The loop of [OSetGen_Next]: the element and the new stack. *)
Fixpoint next_loop (fuel : nat) (s : list (tree E * Z)) : outcome (option E * list (tree E * Z)) :=
  match fuel with
  | O => Err OutOfFuel
  | S fuel =>
      match s with
      | [] => Ok (None, [])
      | (n, i) :: s =>
          let* _ := assert_that ((1 <=? i) && (i <=? 3)) in
          match n with
          | Leaf => Err Undefined
          | Node _ e _ r =>
              if i =? 1 then let* s := push_left s n in next_loop fuel s
              else if i =? 2 then let* s := stackPush s n 3 in Ok (Some e, s)
              else
                match r with
                | Leaf => next_loop fuel s
                | Node _ _ _ _ => let* s := push_left s r in next_loop fuel s
                end
          end
      end
  end.

(** Every round pops a node, and a push is followed by a result. *)
Definition VG_OSetGen_Next (t : oset E) : outcome (option E * oset E) :=
  let* _ := assert_that (length (stack t) <=? STACK_MAX)%nat in
  let* (e, s) := next_loop (length (stack t) + 2) (stack t) in
  Ok (e, mk_oset (nElems t) (root t) s).

(** The search of [OSetGen_ResetIterAt]; the sign bit of the reversed
    comparison tells where to go. *)
Fixpoint reset_at (s : list (tree E * Z)) t (k : K) : outcome (list (tree E * Z)) :=
  match t with
  | Leaf => Ok s
  | Node l e _ r =>
      let cmpres := cmp k e in
      let cmpresS := if cmpres <? 0 then 1 else if 0 <? cmpres then -1 else cmpres in
      if cmpresS =? 0 then stackPush s t 2
      else
        let cmpresU := Z.shiftr (u64 cmpresS) 63 in
        let* _ := assert_that ((cmpresU =? 0) || (cmpresU =? 1)) in
        let* s := if cmpresU =? 0 then stackPush s t 2 else Ok s in
        reset_at s (if cmpresU =? 0 then l else r) k
  end.

Definition VG_OSetGen_ResetIterAt (t : oset E) (k : K) : outcome (oset E) :=
  let* s := reset_at [] (root t) k in
  Ok (mk_oset (nElems t) (root t) s).

(** ** Destruction *)

(** The post-order traversal that frees the nodes, in that order. *)
Fixpoint destroy_loop (fuel : nat) (s : list (tree E * Z)) (freed : list E) : outcome (list E) :=
  match fuel with
  | O => Err OutOfFuel
  | S fuel =>
      match s with
      | [] => Ok freed
      | (n, i) :: s =>
          let* _ := assert_that ((1 <=? i) && (i <=? 3)) in
          match n with
          | Leaf => Err Undefined
          | Node l e _ r =>
              if i =? 1 then
                let* s := stackPush s n 2 in
                let* s := match l with Leaf => Ok s | Node _ _ _ _ => stackPush s l 1 end in
                destroy_loop fuel s freed
              else if i =? 2 then
                let* s := stackPush s n 3 in
                let* s := match r with Leaf => Ok s | Node _ _ _ _ => stackPush s r 1 end in
                destroy_loop fuel s freed
              else destroy_loop fuel s (freed ++ [e])
          end
      end
  end.

(** Three rounds per node; the nodes freed, for a set without a pool. *)
Definition VG_OSetGen_Destroy (t : oset E) : outcome (list E) :=
  let* s := match root t with Leaf => Ok [] | Node _ _ _ _ => stackPush [] (root t) 1 end in
  let* freed := destroy_loop (3 * tree_size (root t) + 1) s [] in
  let* _ := assert_that (Z.of_nat (length freed) =? nElems t) in
  Ok freed.

End Operations.

(** ** Sets of words *)

(** [fast_cmp], the comparison when none is given: elements are [UWord]s. *)
Definition fast_cmp (w1 w2 : Z) : Z :=
  if w2 <? w1 then 1 else if w1 <? w2 then -1 else 0.

#[export] Instance word_cmp : OSetCmp Z Z := { key := id; cmp := fast_cmp }.

Definition VG_OSetWord_Insert (t : oset Z) (val : Z) : outcome (oset Z) := VG_OSetGen_Insert t val.
Definition VG_OSetWord_Contains (t : oset Z) (val : Z) : bool := VG_OSetGen_Contains t val.
Definition VG_OSetWord_Remove (t : oset Z) (val : Z) : outcome (bool * oset Z) :=
  let* (n, t) := VG_OSetGen_Remove t val in
  Ok (bool_decide (is_Some n), t).
