(* ===== verification/OSetTheory.v ===== *)
(** * The ordered set is a sorted list

    A well-formed set is an AVL tree whose elements, in order, are strictly
    sorted by key.  Every operation of m_oset.c returns on a well-formed set,
    keeps it well-formed, and does to the in-order list what the abstract
    operation does; the iterator yields that list. *)

From Stdlib Require Import Sorting.Sorted.
From S2P Require Import Prelude OSet.

(** ** Specification *)

Section Spec.
Context {E : Type}.

Fixpoint elements (t : tree E) : list E :=
  match t with Leaf => [] | Node l e _ r => elements l ++ e :: elements r end.

(** The balance fields are right and no subtree leans by more than one. *)
Fixpoint avl (t : tree E) : Prop :=
  match t with
  | Leaf => True
  | Node l _ b r =>
      avl l /\ avl r /\ b = Z.of_nat (depth r) - Z.of_nat (depth l) /\ -1 <= b <= 1
  end.

Lemma elements_node (l : tree E) e b r : elements (Node l e b r) = elements l ++ e :: elements r.
Proof. reflexivity. Qed.

Definition zdepth (t : tree E) : Z := Z.of_nat (depth t).

End Spec.

(** Unfolds what is known of the subtrees. *)
Ltac avl_facts :=
  unfold zdepth in *; cbn [avl depth elements] in *; rewrite <-?app_assoc; cbn [app] in *.

Section Order.
Context {K E : Type} {CMP : OSetCmp K E} {KO : KeyOrder K E} {EqE : EqDecision E}.

(** [x] sorts before [y]. *)
Definition before (x y : E) : Prop := cmp (key x) y < 0.

Definition sorted (l : list E) : Prop := StronglySorted before l.

Record wf_oset (t : oset E) : Prop := {
  wf_avl : avl (root t);
  wf_sorted : sorted (elements (root t));
  wf_nElems : nElems t = u32 (Z.of_nat (length (elements (root t))))
}.

(** The abstract operations on a sorted list. *)
Definition find_key (k : K) (l : list E) : option E := List.find (fun x => cmp k x =? 0) l.

Fixpoint insert_sorted (e : E) (l : list E) : list E :=
  match l with
  | [] => [e]
  | x :: l => if cmp (key e) x <? 0 then e :: x :: l else x :: insert_sorted e l
  end.

(** ** Order lemmas *)

Lemma cmp_key k x : cmp k x = kcmp k (key x).
Proof. apply cmp_kcmp. Qed.

Lemma kcmp_sym_lt x y : kcmp x y < 0 <-> 0 < kcmp y x.
Proof. pose proof (kcmp_antisym x y). destruct (kcmp x y), (kcmp y x); cbn in *; lia. Qed.

Lemma kcmp_sym_eq x y : kcmp x y = 0 <-> kcmp y x = 0.
Proof. pose proof (kcmp_antisym x y). destruct (kcmp x y), (kcmp y x); cbn in *; lia. Qed.

Lemma kcmp_lt_eq x y z : kcmp x y < 0 -> kcmp y z = 0 -> kcmp x z < 0.
Proof.
  intros Hxy Hyz. destruct (Z.lt_trichotomy (kcmp x z) 0) as [|[Heq|Hgt]]; [done|exfalso..].
  - apply kcmp_sym_eq in Heq. pose proof (kcmp_eq_lt z x y Heq Hxy) as Hzy.
    apply kcmp_sym_lt in Hzy. lia.
  - apply kcmp_sym_lt in Hgt. pose proof (kcmp_trans z x y Hgt Hxy) as Hzy.
    apply kcmp_sym_lt in Hzy. lia.
Qed.

Lemma kcmp_refl x : kcmp x x = 0.
Proof. pose proof (kcmp_antisym x x). destruct (kcmp x x); cbn in *; lia. Qed.

Lemma before_kcmp x y : before x y <-> kcmp (key x) (key y) < 0.
Proof. unfold before. by rewrite cmp_key. Qed.

Lemma before_trans x y z : before x y -> before y z -> before x z.
Proof. rewrite !before_kcmp. apply kcmp_trans. Qed.

Lemma before_irrefl x : ¬ before x x.
Proof. rewrite before_kcmp, kcmp_refl. lia. Qed.

(** Comparing a key with two ordered elements. *)
Lemma key_before k x y : before x y -> cmp k x <= 0 -> cmp k y < 0.
Proof.
  rewrite before_kcmp, !cmp_key. intros Hxy Hk.
  destruct (Z.eq_dec (kcmp k (key x)) 0).
  - by eapply kcmp_eq_lt.
  - eapply kcmp_trans; [|exact Hxy]. lia.
Qed.

Lemma key_after k x y : before x y -> 0 <= cmp k y -> 0 < cmp k x.
Proof.
  intros Hxy Hk. destruct (Z.lt_ge_cases 0 (cmp k x)) as [|Hle]; [done|].
  pose proof (key_before k x y Hxy Hle). lia.
Qed.

(** Keys that compare equal compare alike. *)
Lemma kcmp_eq_iff x y z : kcmp x y = 0 -> kcmp x z = 0 <-> kcmp y z = 0.
Proof.
  intros Hxy. assert (Hyx : kcmp y x = 0) by (by apply kcmp_sym_eq).
  pose proof (kcmp_eq_lt x y z Hxy) as H1. pose proof (kcmp_eq_lt y x z Hyx) as H2.
  pose proof (kcmp_lt_eq z x y) as H3. pose proof (kcmp_lt_eq z y x) as H4.
  rewrite !(kcmp_sym_lt z) in H3, H4. lia.
Qed.

Lemma kcmp_eq_test k k' y : kcmp k k' = 0 -> (cmp k' y =? 0) = (cmp k y =? 0).
Proof.
  intros Heq. rewrite !cmp_key. pose proof (kcmp_eq_iff k k' (key y) Heq) as Hi.
  destruct (Z.eqb_spec (kcmp k' (key y)) 0), (Z.eqb_spec (kcmp k (key y)) 0); tauto.
Qed.

(** ** Sorted lists *)

Lemma sorted_app l1 l2 :
  sorted (l1 ++ l2) <-> sorted l1 /\ sorted l2 /\ forall x y, x ∈ l1 -> y ∈ l2 -> before x y.
Proof.
  induction l1 as [|a l1 IH]; cbn [app].
  - split; [intros H; split_and!; [constructor|done|intros x y Hx; by apply not_elem_of_nil in Hx]
           | by intros (_ & ? & _)].
  - split.
    + intros Hs. inversion Hs as [|? ? Hs' Hf]; subst. apply IH in Hs' as (H1 & H2 & H3).
      rewrite List.Forall_forall in Hf. split_and!; [|done|].
      * constructor; [done|]. apply List.Forall_forall. intros x Hx. apply Hf, in_or_app. by left.
      * intros x y Hx Hy; apply elem_of_cons in Hx as [->|Hx]; [|by apply H3].
        apply Hf, in_or_app. right. by apply list_elem_of_In.
    + intros (H1 & H2 & H3). inversion H1 as [|? ? H1' Hf]; subst. constructor.
      * apply IH. split_and!; [done|done|]. intros x y Hx. apply H3. by right.
      * apply List.Forall_forall. rewrite List.Forall_forall in Hf.
        intros x [Hx|Hx]%in_app_or; [by apply Hf|]. apply H3; [left|by apply list_elem_of_In].
Qed.

Lemma sorted_node l e r :
  sorted (l ++ e :: r) <-> sorted l /\ sorted r
    /\ (forall x, x ∈ l -> before x e) /\ (forall y, y ∈ r -> before e y).
Proof.
  rewrite sorted_app. split.
  - intros (H1 & H2 & H3). inversion H2 as [|? ? H2' Hf]; subst. split_and!; [done|done| |].
    + intros x Hx. apply H3; [done|left].
    + intros y Hy. rewrite List.Forall_forall in Hf. by apply Hf, list_elem_of_In.
  - intros (H1 & H2 & H3 & H4). split_and!; [done| |].
    + constructor; [done|]. apply List.Forall_forall. intros y Hy. by apply H4, list_elem_of_In.
    + intros x y Hx Hy; apply elem_of_cons in Hy as [->|Hy]; [by apply H3|].
      eapply before_trans; [by apply H3 | by apply H4].
Qed.

Lemma sorted_NoDup l : sorted l -> NoDup l.
Proof.
  induction 1 as [|a l Hs IH Hf]; constructor; [|done].
  intros Hin. rewrite List.Forall_forall in Hf. apply list_elem_of_In in Hin.
  by apply (before_irrefl a), Hf.
Qed.

Lemma insert_sorted_left n l e r : cmp (key n) e < 0 ->
  insert_sorted n (l ++ e :: r) = insert_sorted n l ++ e :: r.
Proof.
  intros Hn. induction l as [|x l IH]; cbn.
  - by destruct (Z.ltb_spec (cmp (key n) e) 0); [|lia].
  - destruct (cmp (key n) x <? 0); [done|]. by rewrite IH.
Qed.

Lemma insert_sorted_right n l e r :
  sorted (l ++ e :: r) -> 0 < cmp (key n) e ->
  insert_sorted n (l ++ e :: r) = l ++ e :: insert_sorted n r.
Proof.
  intros Hs Hn. apply sorted_node in Hs as (_ & _ & Hl & _).
  induction l as [|x l IH]; cbn.
  - by destruct (Z.ltb_spec (cmp (key n) e) 0); [lia|].
  - assert (0 < cmp (key n) x) by (apply (key_after _ x e); [apply Hl; left | lia]).
    destruct (Z.ltb_spec (cmp (key n) x) 0); [lia|]. rewrite IH; [done|].
    intros y Hy. apply Hl. by right.
Qed.

Lemma elem_of_insert_sorted n l x : x ∈ insert_sorted n l <-> x = n \/ x ∈ l.
Proof.
  induction l as [|y l IH]; cbn; [set_solver|].
  destruct (cmp (key n) y <? 0); set_solver.
Qed.

Lemma length_insert_sorted n l : length (insert_sorted n l) = S (length l).
Proof. induction l as [|y l IH]; cbn; [done|]. destruct (_ <? 0); cbn; lia. Qed.

Lemma insert_sorted_sorted n l :
  sorted l -> (forall x, x ∈ l -> cmp (key n) x <> 0) -> sorted (insert_sorted n l).
Proof.
  induction 1 as [|a l Hs IH Hf]; intros Hne; cbn; [constructor; constructor|].
  destruct (Z.ltb_spec (cmp (key n) a) 0).
  - constructor; [by constructor|]. constructor; [done|].
    rewrite List.Forall_forall in Hf |- *. intros x Hx.
    eapply before_trans; [|by apply Hf]. done.
  - constructor; [apply IH; intros x Hx; apply Hne; by right|].
    rewrite List.Forall_forall in Hf |- *. intros x Hx%list_elem_of_In.
    apply elem_of_insert_sorted in Hx as [->|Hx]; [|by apply Hf, list_elem_of_In].
    assert (cmp (key n) a <> 0) by (apply Hne; left).
    apply before_kcmp, kcmp_sym_lt. rewrite <-cmp_key. lia.
Qed.

Lemma find_key_node k l e r :
  sorted (l ++ e :: r) ->
  find_key k (l ++ e :: r) =
    if cmp k e <? 0 then find_key k l else if 0 <? cmp k e then find_key k r else Some e.
Proof.
  intros Hs. apply sorted_node in Hs as (_ & _ & Hl & Hr). unfold find_key.
  assert (Hnone : forall (f : E -> bool) l', (forall x, x ∈ l' -> f x = false) -> List.find f l' = None).
  { intros f l' Hf. induction l' as [|x l' IH]; cbn; [done|]. rewrite Hf by left. apply IH.
    intros y Hy. apply Hf. by right. }
  assert (Happ : forall (f : E -> bool) l1 l2, List.find f (l1 ++ l2) =
    match List.find f l1 with Some x => Some x | None => List.find f l2 end).
  { intros f l1 l2. induction l1 as [|x l1 IH]; cbn; [done|]. by destruct (f x). }
  rewrite Happ. cbn [List.find].
  destruct (Z.ltb_spec (cmp k e) 0) as [Hlt|Hge].
  - destruct (Z.eqb_spec (cmp k e) 0); [lia|]. rewrite (Hnone _ r); [by destruct (List.find _ l)|].
    intros x Hx. apply Z.eqb_neq. pose proof (key_before k e x (Hr x Hx)). lia.
  - rewrite (Hnone _ l).
    2: { intros x Hx. apply Z.eqb_neq. pose proof (key_after k x e (Hl x Hx)). lia. }
    destruct (Z.ltb_spec 0 (cmp k e)), (Z.eqb_spec (cmp k e) 0); done || lia.
Qed.

Lemma find_key_Some k l e : find_key k l = Some e -> e ∈ l /\ cmp k e = 0.
Proof.
  intros H. apply List.find_some in H as [Hin Heq]. split; [by apply list_elem_of_In|].
  by apply Z.eqb_eq.
Qed.

Lemma find_key_None k l : find_key k l = None <-> forall x, x ∈ l -> cmp k x <> 0.
Proof.
  unfold find_key. split.
  - intros H x Hx%list_elem_of_In. by apply Z.eqb_neq, (List.find_none _ _ H).
  - intros Hx. induction l as [|y l IH]; cbn; [done|].
    destruct (Z.eqb_spec (cmp k y) 0) as [E0|]; [exfalso; by apply (Hx y); [left|]|].
    apply IH. intros x Hin. apply Hx. by right.
Qed.

Lemma find_key_insert e l :
  find_key (key e) l = None -> find_key (key e) (insert_sorted e l) = Some e.
Proof.
  rewrite find_key_None. induction l as [|x l IH]; intros Hne; cbn.
  - by rewrite cmp_key, kcmp_refl.
  - destruct (cmp (key e) x <? 0); cbn; [by rewrite cmp_key, kcmp_refl|].
    destruct (Z.eqb_spec (cmp (key e) x) 0) as [E0|]; [exfalso; by apply (Hne x); [left|]|].
    apply IH. intros y Hy. apply Hne. by right.
Qed.

Lemma avl_lookup_spec t k : sorted (elements t) -> avl_lookup t k = find_key k (elements t).
Proof.
  induction t as [|l IHl e b r IHr]; intros Hs; [done|]. cbn [avl_lookup elements] in *.
  rewrite (find_key_node k _ _ _ Hs). apply sorted_node in Hs as (Hl & Hr & _).
  destruct (cmp k e <? 0); [by apply IHl|]. destruct (0 <? cmp k e); [by apply IHr|]. done.
Qed.


(** ** Rebalancing *)

Lemma avl_nasty_ok (la : tree E) ea ba ra e b lb eb bb rb : -1 <= b <= 1 ->
  avl_nasty (Node (Node la ea ba ra) e b (Node lb eb bb rb))
  = Ok (Node (Node la ea (if b =? 1 then -1 else 0) ra) e 0
             (Node lb eb (if b =? -1 then 1 else 0) rb)).
Proof.
  intros Hb. assert (b = -1 \/ b = 0 \/ b = 1) as [-> | [-> | ->]] by lia; reflexivity.
Qed.

(** A tree that is right except that the balance of its root is 2 or -2. *)
Definition lopsided (t : tree E) : Prop :=
  match t with
  | Leaf => False
  | Node l _ b r => avl l /\ avl r /\ b = zdepth r - zdepth l
  end.

(** [t'] has the elements of [t] and is [d] deeper. *)
Definition rebalanced (t t' : tree E) (d : Z) : Prop :=
  avl t' /\ elements t' = elements t /\ zdepth t' = zdepth t + d.

Ltac rebalance := unfold rebalanced; avl_facts; split_and!; repeat case_test; first [tauto | lia | by rewrite <-?app_assoc; cbn; rewrite <-?app_assoc].

(** The double rotations. *)
Lemma left_right_case (l : tree E) e r : lopsided (Node l e (-2) r) -> balance_of l = Ok 1 ->
  exists t', (forall A (k : tree E -> outcome A), (let* t := swl_left (Node l e (-2) r) in
      let* t := avl_swr t in let* t := avl_nasty t in k t) = k t')
    /\ rebalanced (Node l e (-2) r) t' (-1).
Proof.
  intros (Hl & Hr & Hb) Hbl. destruct l as [|ll el bl [|x m bm y]]; [done| |];
    injection Hbl as ->; avl_facts; [lia|].
  eexists. split.
  { intros A k. cbn [swl_left avl_swl avl_swr obind]. rewrite avl_nasty_ok by lia. reflexivity. }
  rebalance.
Qed.

Lemma right_left_case (l : tree E) e r : lopsided (Node l e 2 r) -> balance_of r = Ok (-1) ->
  exists t', (forall A (k : tree E -> outcome A), (let* t := swr_right (Node l e 2 r) in
      let* t := avl_swl t in let* t := avl_nasty t in k t) = k t')
    /\ rebalanced (Node l e 2 r) t' (-1).
Proof.
  intros (Hl & Hr & Hb) Hbr. destruct r as [|[|x m bm y] er br rr]; [done| |];
    injection Hbr as ->; avl_facts; [lia|].
  eexists. split.
  { intros A k. cbn [swr_right avl_swl avl_swr obind]. rewrite avl_nasty_ok by lia. reflexivity. }
  rebalance.
Qed.

(** The single rotations, with the balances they leave. *)
Lemma right_case (ll : tree E) el bl lr e r v w :
  lopsided (Node (Node ll el bl lr) e (-2) r) ->
  (bl = -1 /\ v = 0 /\ w = 0) \/ (bl = 0 /\ v = 1 /\ w = -1) ->
  exists t', (forall A (k : tree E -> outcome A), (let* t := avl_swr (Node (Node ll el bl lr) e (-2) r) in
              let* t := set_balance v t in let* t := set_right_balance w t in k t) = k t')
    /\ rebalanced (Node (Node ll el bl lr) e (-2) r) t' (if bl =? 0 then 0 else -1).
Proof.
  intros (Hl & Hr & Hb) [(-> & -> & ->) | (-> & -> & ->)]; eexists; (split; [intros; reflexivity|]); rebalance.
Qed.

Lemma left_case (l : tree E) e rl er br rr v w :
  lopsided (Node l e 2 (Node rl er br rr)) ->
  (br = 1 /\ v = 0 /\ w = 0) \/ (br = 0 /\ v = -1 /\ w = 1) ->
  exists t', (forall A (k : tree E -> outcome A), (let* t := avl_swl (Node l e 2 (Node rl er br rr)) in
              let* t := set_balance v t in let* t := set_left_balance w t in k t) = k t')
    /\ rebalanced (Node l e 2 (Node rl er br rr)) t' (if br =? 0 then 0 else -1).
Proof.
  intros (Hl & Hr & Hb) [(-> & -> & ->) | (-> & -> & ->)]; eexists; (split; [intros; reflexivity|]); rebalance.
Qed.

(** ** Insertion *)

Definition root_elem (t : tree E) : option E :=
  match t with Node _ e _ _ => Some e | Leaf => None end.

(** What [avl_insert] returns: when the tree has grown its root is the same
    node, and leans to the side of the new element. *)
Record inserted (n : E) (t : tree E) (g : bool) (t' : tree E) : Prop := {
  ins_avl : avl t';
  ins_elements : elements t' = insert_sorted n (elements t);
  ins_depth : zdepth t' = zdepth t + Z_of_bool g;
  ins_root : g = true -> root_elem t' = root_elem t;
  ins_leans : g = true -> balance_of t' = Ok 1 \/ balance_of t' = Ok (-1)
}.

Lemma still_rooted_at_ok e (t : tree E) : root_elem t = Some e -> still_rooted_at e t = Ok t.
Proof. destruct t; [done|]. cbn. intros [= ->]. by rewrite decide_True. Qed.

(** After an insertion in the left subtree [l] of a node. *)
Lemma insert_left n l e b r g l' el :
  avl (Node l e b r) -> root_elem l = Some el -> inserted n l g l' -> cmp (key n) e < 0 ->
  exists g' t',
    (if g then
       let* l := still_rooted_at el l' in
       grown_left b (Node l e (b - 1) r)
     else Ok (false, Node l' e b r)) = Ok (g', t')
    /\ inserted n (Node l e b r) g' t'.
Proof.
  intros (Hl & Hr & Hb & Hb') Hroot [Ha He Hd Hro Hle] Hlt.
  assert (Hel : insert_sorted n (elements (Node l e b r)) = elements (Node l' e b r))
    by (cbn; by rewrite insert_sorted_left, He).
  destruct g; cbn [Z_of_bool] in Hd.
  2: { do 2 eexists. split; [reflexivity|]. split; [|done| |done|done]; avl_facts; [|cbn; lia].
       split_and!; (done || lia). }
  rewrite still_rooted_at_ok by (by rewrite Hro). cbn [obind]. unfold grown_left.
  destruct (Z.eqb_spec b 1) as [->|].
  { do 2 eexists. split; [reflexivity|]. split; [|by rewrite Hel| |done|done]; avl_facts; [|cbn; lia].
    split_and!; (done || lia). }
  destruct (Z.eqb_spec b 0) as [->|].
  { do 2 eexists. split; [reflexivity|].
    split; [|by rewrite Hel| |done|by right]; avl_facts; [|cbn; lia].
    split_and!; (done || lia). }
  assert (b = -1) as -> by lia.
  assert (Hlop : lopsided (Node l' e (-2) r)) by (unfold lopsided; avl_facts; split_and!; (done || lia)).
  change (-1 - 1) with (-2). destruct (Hle eq_refl) as [Hbl|Hbl]; cbn [left_balance]; rewrite Hbl; cbn [obind Z.ltb Z.compare].
  - destruct (left_right_case l' e r Hlop Hbl) as (t' & Heq & Ha' & He' & Hd').
    rewrite Heq. do 2 eexists. split; [reflexivity|].
    split; [done|by rewrite Hel, He'| |done|done]. avl_facts. cbn [Z_of_bool]. lia.
  - destruct l' as [|ll el' bl lr]; [done|]. injection Hbl as ->.
    destruct (right_case _ _ _ _ _ _ 0 0 Hlop ltac:(lia)) as (t' & Heq & Ha' & He' & Hd').
    rewrite Heq. do 2 eexists. split; [reflexivity|].
    split; [done|by rewrite Hel, He'| |done|done]. cbn [Z.eqb] in Hd'. avl_facts. cbn [Z_of_bool]. lia.
Qed.

(** After an insertion in the right subtree [r] of a node. *)
Lemma insert_right n l e b r g r' er :
  avl (Node l e b r) -> sorted (elements (Node l e b r)) ->
  root_elem r = Some er -> inserted n r g r' -> 0 < cmp (key n) e ->
  exists g' t',
    (if g then
       let* r := still_rooted_at er r' in
       grown_right b (Node l e (b + 1) r)
     else Ok (false, Node l e b r')) = Ok (g', t')
    /\ inserted n (Node l e b r) g' t'.
Proof.
  intros (Hl & Hr & Hb & Hb') Hs Hroot [Ha He Hd Hro Hle] Hlt.
  assert (Hel : insert_sorted n (elements (Node l e b r)) = elements (Node l e b r'))
    by (cbn; by rewrite insert_sorted_right, He).
  destruct g; cbn [Z_of_bool] in Hd.
  2: { do 2 eexists. split; [reflexivity|]. split; [|done| |done|done]; avl_facts; [|cbn; lia].
       split_and!; (done || lia). }
  rewrite still_rooted_at_ok by (by rewrite Hro). cbn [obind]. unfold grown_right.
  destruct (Z.eqb_spec b (-1)) as [->|].
  { do 2 eexists. split; [reflexivity|]. split; [|by rewrite Hel| |done|done]; avl_facts; [|cbn; lia].
    split_and!; (done || lia). }
  destruct (Z.eqb_spec b 0) as [->|].
  { do 2 eexists. split; [reflexivity|].
    split; [|by rewrite Hel| |done|by left]; avl_facts; [|cbn; lia].
    split_and!; (done || lia). }
  assert (b = 1) as -> by lia.
  assert (Hlop : lopsided (Node l e 2 r')) by (unfold lopsided; avl_facts; split_and!; (done || lia)).
  change (1 + 1) with 2. destruct (Hle eq_refl) as [Hbr|Hbr]; cbn [right_balance]; rewrite Hbr; cbn [obind Z.ltb Z.compare].
  - destruct r' as [|rl er' br rr]; [done|]. injection Hbr as ->.
    destruct (left_case _ _ _ _ _ _ 0 0 Hlop ltac:(lia)) as (t' & Heq & Ha' & He' & Hd').
    rewrite Heq. do 2 eexists. split; [reflexivity|].
    split; [done|by rewrite Hel, He'| |done|done]. cbn [Z.eqb] in Hd'. avl_facts. cbn [Z_of_bool]. lia.
  - destruct (right_left_case l e r' Hlop Hbr) as (t' & Heq & Ha' & He' & Hd').
    rewrite Heq. do 2 eexists. split; [reflexivity|].
    split; [done|by rewrite Hel, He'| |done|done]. avl_facts. cbn [Z_of_bool]. lia.
Qed.

Lemma avl_insert_spec t n : t <> Leaf -> avl t -> sorted (elements t) ->
  match find_key (key n) (elements t) with
  | Some _ => avl_insert t n = Err AssertFail
  | None => exists g t', avl_insert t n = Ok (g, t') /\ inserted n t g t'
  end.
Proof.
  induction t as [|l IHl e b r IHr]; [done|]. intros _ Ha Hs.
  pose proof Ha as (Hl & Hr & Hb & Hb'). pose proof Hs as Hs2. rewrite elements_node in Hs2.
  apply sorted_node in Hs2 as (Hsl & Hsr & _).
  cbn [avl_insert]. rewrite elements_node in Hs |- *. rewrite (find_key_node _ (elements l) e (elements r) Hs).
  destruct (Z.ltb_spec (cmp (key n) e) 0) as [Hlt|]; [|destruct (Z.ltb_spec 0 (cmp (key n) e)) as [Hgt|]; [|done]].
  - destruct l as [|ll el bl lr].
    + cbn. do 2 eexists. split; [reflexivity|].
      split; [| |avl_facts|done|intros ->%Z.eqb_eq; by right].
      * avl_facts. split_and!; done || lia.
      * cbn [elements]. by rewrite insert_sorted_left by done.
      * destruct (Z.eqb_spec b 0); cbn [Z_of_bool]; lia.
    + specialize (IHl ltac:(done) Hl Hsl). revert IHl. destruct (find_key (key n) (elements (Node ll el bl lr))); intros IHl; [by rewrite IHl|].
      destruct IHl as (g & l' & -> & Hins). cbn [obind]. by eapply insert_left.
  - destruct r as [|rl er br rr].
    + cbn. do 2 eexists. split; [reflexivity|].
      split; [| |avl_facts|done|intros ->%Z.eqb_eq; by left].
      * avl_facts. split_and!; done || lia.
      * cbn [elements]. by rewrite insert_sorted_right by done.
      * destruct (Z.eqb_spec b 0); cbn [Z_of_bool]; lia.
    + specialize (IHr ltac:(done) Hr Hsr). revert IHr. destruct (find_key (key n) (elements (Node rl er br rr))); intros IHr; [by rewrite IHr|].
      destruct IHr as (g & r' & -> & Hins). cbn [obind]. by eapply insert_right.
Qed.

(** ** Deletion *)

(** The abstract deletion. *)
Definition delete_key (k : K) (l : list E) : list E :=
  List.filter (fun x => negb (cmp k x =? 0)) l.

Lemma delete_key_id k l : (forall x, x ∈ l -> cmp k x <> 0) -> delete_key k l = l.
Proof.
  induction l as [|x l IH]; intros Hx; cbn; [done|].
  destruct (Z.eqb_spec (cmp k x) 0) as [Heq|]; cbn; [exfalso; by apply (Hx x); [left|]|].
  f_equal. apply IH. intros y Hy. apply Hx. by right.
Qed.

Lemma delete_key_app k l1 l2 : delete_key k (l1 ++ l2) = delete_key k l1 ++ delete_key k l2.
Proof. apply List.filter_app. Qed.

Lemma delete_key_cons k x l :
  delete_key k (x :: l) = if cmp k x =? 0 then delete_key k l else x :: delete_key k l.
Proof. cbn. by destruct (cmp k x =? 0). Qed.

Lemma delete_key_node k l e r : sorted (l ++ e :: r) ->
  delete_key k (l ++ e :: r) =
    if cmp k e <? 0 then delete_key k l ++ e :: r
    else if 0 <? cmp k e then l ++ e :: delete_key k r else l ++ r.
Proof.
  intros Hs. apply sorted_node in Hs as (_ & _ & Hl & Hr). rewrite delete_key_app, delete_key_cons.
  assert (Hll : 0 <= cmp k e -> delete_key k l = l).
  { intros Hk. apply delete_key_id. intros x Hx. pose proof (key_after k x e (Hl x Hx)). lia. }
  assert (Hrr : cmp k e <= 0 -> delete_key k r = r).
  { intros Hk. apply delete_key_id. intros x Hx. pose proof (key_before k e x (Hr x Hx)). lia. }
  destruct (Z.ltb_spec (cmp k e) 0); [|destruct (Z.ltb_spec 0 (cmp k e))];
    destruct (Z.eqb_spec (cmp k e) 0); try lia; rewrite ?Hll by lia; rewrite ?Hrr by lia; done.
Qed.

(** Lookup after a deletion. *)
Lemma find_delete_key k a l :
  find_key a (delete_key k l) = if kcmp k a =? 0 then None else find_key a l.
Proof.
  unfold find_key, delete_key. induction l as [|x l IH]; cbn [List.find List.filter]; [by destruct (_ =? 0)|].
  destruct (Z.eqb_spec (cmp k x) 0) as [Ek|Ek]; cbn [negb List.find]; rewrite IH.
  - destruct (Z.eqb_spec (kcmp k a) 0) as [|Ea]; [done|]. rewrite cmp_key in Ek |- *.
    destruct (Z.eqb_spec (kcmp a (key x)) 0) as [Ex|]; [|done].
    exfalso. apply Ea, (kcmp_eq_iff (key x) k a); by apply kcmp_sym_eq.
  - destruct (Z.eqb_spec (kcmp k a) 0) as [Ea|]; [|done].
    rewrite (kcmp_eq_test k a x Ea). by destruct (Z.eqb_spec (cmp k x) 0).
Qed.

Lemma elem_of_delete_key k l x : x ∈ delete_key k l -> x ∈ l.
Proof.
  intros Hx%list_elem_of_In. apply List.filter_In in Hx as [Hx _]. by apply list_elem_of_In.
Qed.

Lemma delete_key_sorted k l : sorted l -> sorted (delete_key k l).
Proof.
  induction 1 as [|a l Hs IH Hf]; cbn; [constructor|].
  destruct (negb _); [|done]. constructor; [done|]. rewrite List.Forall_forall in Hf |- *.
  intros x Hx. apply Hf. by apply List.filter_In in Hx as [].
Qed.

Lemma delete_key_last n l : sorted (l ++ [n]) -> delete_key (key n) (l ++ [n]) = l.
Proof.
  intros Hs. rewrite delete_key_node by done. rewrite cmp_key, kcmp_refl. cbn.
  apply app_nil_r.
Qed.

Lemma delete_key_first n l : sorted (n :: l) -> delete_key (key n) (n :: l) = l.
Proof.
  intros Hs. pose proof (delete_key_node (key n) [] n l Hs) as Hd. cbn [app] in Hd.
  rewrite cmp_key, kcmp_refl in Hd. exact Hd.
Qed.

(** An element of a sorted list is found by its key. *)
Lemma elem_side l e r n : sorted (l ++ e :: r) -> n ∈ l ++ e :: r ->
  (cmp (key n) e < 0 /\ n ∈ l) \/ (0 < cmp (key n) e /\ n ∈ r) \/ (cmp (key n) e = 0 /\ n = e).
Proof.
  intros Hs Hn. apply sorted_node in Hs as (_ & _ & Hl & Hr).
  apply elem_of_app in Hn as [Hn|Hn]; [left; split; [by apply Hl|done]|].
  apply elem_of_cons in Hn as [->|Hn].
  - right; right. by rewrite cmp_key, kcmp_refl.
  - right; left. split; [|done]. specialize (Hr n Hn). rewrite before_kcmp in Hr.
    rewrite cmp_key. by apply kcmp_sym_lt.
Qed.

Lemma last_elem_spec (t : tree E) : t <> Leaf ->
  exists xs x, last_elem t = Ok x /\ elements t = xs ++ [x].
Proof.
  induction t as [|l _ e b r IH]; [done|]. intros _. destruct r as [|rl er br rr].
  - exists (elements l), e. done.
  - destruct IH as (xs & x & Hx & Hxs); [done|]. exists (elements l ++ e :: xs), x.
    split; [exact Hx|]. rewrite elements_node, Hxs, <-app_assoc. done.
Qed.

Lemma first_elem_spec (t : tree E) : t <> Leaf ->
  exists x xs, first_elem t = Ok x /\ elements t = x :: xs.
Proof.
  induction t as [|l IH e b r _]; [done|]. intros _. destruct l as [|ll el bl lr].
  - exists e, (elements r). done.
  - destruct IH as (x & xs & Hx & Hxs); [done|]. exists x, (xs ++ e :: elements r).
    split; [exact Hx|]. rewrite elements_node, Hxs. done.
Qed.

(** What [avl_remove] returns. *)
Record removed (t : tree E) (l : list E) (ch : bool) (t' : tree E) : Prop := {
  rem_avl : avl t';
  rem_elements : elements t' = l;
  rem_depth : zdepth t' = zdepth t - Z_of_bool ch
}.

(** A node after a deletion in its left subtree. *)
Lemma removed_left l e b r ch l' xs : avl (Node l e b r) -> removed l xs ch l' ->
  exists ch' t',
    (if ch then shrunk_left b (Node l' e (b + 1) r) else Ok (false, Node l' e b r)) = Ok (ch', t')
    /\ removed (Node l e b r) (xs ++ e :: elements r) ch' t'.
Proof.
  intros (Hl & Hr & Hb & Hb') [Ha <- Hd]. destruct ch; cbn [Z_of_bool] in Hd.
  2: { do 2 eexists. split; [reflexivity|].
       split; avl_facts; [split_and!; (done || lia)|done|cbn; lia]. }
  unfold shrunk_left. destruct (Z.eqb_spec b (-1)) as [->|].
  { do 2 eexists. split; [reflexivity|].
    split; avl_facts; [split_and!; (done || lia)|done|cbn; lia]. }
  destruct (Z.eqb_spec b 0) as [->|].
  { do 2 eexists. split; [reflexivity|].
    split; avl_facts; [split_and!; (done || lia)|done|cbn; lia]. }
  assert (b = 1) as -> by lia. change (1 + 1) with 2.
  assert (Hlop : lopsided (Node l' e 2 r)) by (unfold lopsided; avl_facts; split_and!; (done || lia)).
  destruct r as [|rl er br rr]; [avl_facts; lia|]. cbn [left_balance right_balance balance_of obind].
  assert (Hbr : -1 <= br <= 1) by (by destruct Hr as (_ & _ & _ & ?)).
  destruct (Z.eqb_spec br 0) as [->|]; [|destruct (Z.eqb_spec br 1) as [->|]].
  - destruct (left_case _ _ _ _ _ _ (-1) 1 Hlop ltac:(lia)) as (t' & -> & Ha' & He' & Hd').
    do 2 eexists. split; [reflexivity|].
    split; [done|done|]. cbn [Z.eqb Z_of_bool] in *. avl_facts. lia.
  - destruct (left_case _ _ _ _ _ _ 0 0 Hlop ltac:(lia)) as (t' & -> & Ha' & He' & Hd').
    do 2 eexists. split; [reflexivity|].
    split; [done|done|]. cbn [Z.eqb Z_of_bool] in *. avl_facts. lia.
  - assert (br = -1) as -> by lia.
    destruct (right_left_case _ _ _ Hlop eq_refl) as (t' & -> & Ha' & He' & Hd').
    do 2 eexists. split; [reflexivity|]. split; [done|done|]. cbn [Z_of_bool]. avl_facts. lia.
Qed.

(** A node after a deletion in its right subtree. *)
Lemma removed_right l e b r ch r' xs : avl (Node l e b r) -> removed r xs ch r' ->
  exists ch' t',
    (if ch then shrunk_right b (Node l e (b - 1) r') else Ok (false, Node l e b r')) = Ok (ch', t')
    /\ removed (Node l e b r) (elements l ++ e :: xs) ch' t'.
Proof.
  intros (Hl & Hr & Hb & Hb') [Ha <- Hd]. destruct ch; cbn [Z_of_bool] in Hd.
  2: { do 2 eexists. split; [reflexivity|].
       split; avl_facts; [split_and!; (done || lia)|done|cbn; lia]. }
  unfold shrunk_right. destruct (Z.eqb_spec b 1) as [->|].
  { do 2 eexists. split; [reflexivity|].
    split; avl_facts; [split_and!; (done || lia)|done|cbn; lia]. }
  destruct (Z.eqb_spec b 0) as [->|].
  { do 2 eexists. split; [reflexivity|].
    split; avl_facts; [split_and!; (done || lia)|done|cbn; lia]. }
  assert (b = -1) as -> by lia. change (-1 - 1) with (-2).
  assert (Hlop : lopsided (Node l e (-2) r')) by (unfold lopsided; avl_facts; split_and!; (done || lia)).
  destruct l as [|ll el bl lr]; [avl_facts; lia|]. cbn [left_balance right_balance balance_of obind].
  assert (Hbl : -1 <= bl <= 1) by (by destruct Hl as (_ & _ & _ & ?)).
  destruct (Z.eqb_spec bl 0) as [->|]; [|destruct (Z.eqb_spec bl (-1)) as [->|]].
  - destruct (right_case _ _ _ _ _ _ 1 (-1) Hlop ltac:(lia)) as (t' & -> & Ha' & He' & Hd').
    do 2 eexists. split; [reflexivity|].
    split; [done|done|]. cbn [Z.eqb Z_of_bool] in *. avl_facts. lia.
  - destruct (right_case _ _ _ _ _ _ 0 0 Hlop ltac:(lia)) as (t' & -> & Ha' & He' & Hd').
    do 2 eexists. split; [reflexivity|].
    split; [done|done|]. cbn [Z.eqb Z_of_bool] in *. avl_facts. lia.
  - assert (bl = 1) as -> by lia.
    destruct (left_right_case _ _ _ Hlop eq_refl) as (t' & -> & Ha' & He' & Hd').
    do 2 eexists. split; [reflexivity|]. split; [done|done|]. cbn [Z_of_bool]. avl_facts. lia.
Qed.

(** [avl_removeroot] on a node with two subtrees, where [remove] is right on
    the subtree it is called for: that subtree is the deeper one, so the root
    stays in place while [remove] works. *)
Lemma removeroot_left l e b r fuel : avl (Node l e b r) -> sorted (elements (Node l e b r)) ->
  l <> Leaf -> r <> Leaf -> b < 0 ->
  (forall n, n ∈ elements l -> exists ch l',
     avl_remove fuel l n = Ok (ch, l') /\ removed l (delete_key (key n) (elements l)) ch l') ->
  exists ch t', avl_removeroot (avl_remove (S fuel)) (Node l e b r) = Ok (ch, t')
    /\ removed (Node l e b r) (elements l ++ elements r) ch t'.
Proof.
  intros Ha Hs Hl Hr Hb Hrec. rewrite elements_node in Hs.
  pose proof Ha as (Hal & Har & Hbal & Hbb). pose proof Hs as Hs'.
  apply sorted_node in Hs' as (Hsl & _ & Hle & _).
  destruct (last_elem_spec l Hl) as (xs & n & Hlast & Hxs).
  assert (Hn : n ∈ elements l) by (rewrite Hxs; apply elem_of_app; right; left).
  destruct (Hrec n Hn) as (ch & l' & Hrem & [Ha' He' Hd']).
  rewrite Hxs, delete_key_last in He' by (by rewrite <-Hxs).
  assert (Hlt : cmp (key n) e < 0) by (by apply Hle).
  unfold avl_removeroot. destruct l as [|ll el bl lr]; [done|]. destruct r as [|rl er br rr]; [done|].
  destruct (Z.ltb_spec b 0); [|lia]. rewrite Hlast. cbn [obind avl_remove].
  destruct (Z.ltb_spec (cmp (key n) e) 0); [|lia]. rewrite Hrem. cbn [obind].
  assert (b = -1) as -> by lia. unfold shrunk_left. cbn [Z.eqb Pos.eqb].
  destruct ch; cbn [obind Z.eqb Z.add Z.pos_sub Z_of_bool] in *; do 2 eexists; (split; [reflexivity|]);
    (split; [ | rewrite Hxs, <-app_assoc; cbn [elements app]; by rewrite He' |]);
    avl_facts; try (split_and!; first [tauto | lia]); repeat case_test; cbn [Z_of_bool]; lia.
Qed.

Lemma removeroot_right l e b r fuel : avl (Node l e b r) -> sorted (elements (Node l e b r)) ->
  l <> Leaf -> r <> Leaf -> 0 <= b ->
  (forall n, n ∈ elements r -> exists ch r',
     avl_remove fuel r n = Ok (ch, r') /\ removed r (delete_key (key n) (elements r)) ch r') ->
  exists ch t', avl_removeroot (avl_remove (S fuel)) (Node l e b r) = Ok (ch, t')
    /\ removed (Node l e b r) (elements l ++ elements r) ch t'.
Proof.
  intros Ha Hs Hl Hr Hb Hrec. rewrite elements_node in Hs.
  pose proof Ha as (Hal & Har & Hbal & Hbb). pose proof Hs as Hs'.
  apply sorted_node in Hs' as (_ & Hsr & _ & Hge).
  destruct (first_elem_spec r Hr) as (n & xs & Hfirst & Hxs).
  assert (Hn : n ∈ elements r) by (rewrite Hxs; left).
  destruct (Hrec n Hn) as (ch & r' & Hrem & [Ha' He' Hd']).
  rewrite Hxs, delete_key_first in He' by (by rewrite <-Hxs).
  assert (Hlt : 0 < cmp (key n) e).
  { specialize (Hge n Hn). rewrite before_kcmp in Hge. rewrite cmp_key. by apply kcmp_sym_lt. }
  unfold avl_removeroot. destruct l as [|ll el bl lr]; [done|]. destruct r as [|rl er br rr]; [done|].
  destruct (Z.ltb_spec b 0); [lia|]. rewrite Hfirst. cbn [obind avl_remove].
  destruct (Z.ltb_spec (cmp (key n) e) 0); [lia|]. destruct (Z.ltb_spec 0 (cmp (key n) e)); [|lia].
  rewrite Hrem. cbn [obind]. unfold shrunk_right.
  assert (b = 1 \/ b = 0) as [-> | ->] by lia; cbn [Z.eqb Pos.eqb];
  destruct ch; cbn [obind Z.eqb Z.sub Z.opp Z.add Z.pos_sub Z_of_bool] in *; do 2 eexists; (split; [reflexivity|]);
    (split; [ | rewrite Hxs; cbn [elements app]; by rewrite He' |]);
    avl_facts; try (split_and!; first [tauto | lia]); repeat case_test; cbn [Z_of_bool]; lia.
Qed.

Lemma avl_remove_spec fuel t n : (2 * depth t + 1 <= fuel)%nat -> avl t -> sorted (elements t) ->
  n ∈ elements t ->
  exists ch t', avl_remove fuel t n = Ok (ch, t') /\ removed t (delete_key (key n) (elements t)) ch t'.
Proof.
  revert t n. induction fuel as [fuel IH] using lt_wf_ind. intros t n Hf Ha Hs Hn.
  destruct fuel as [|fuel]; [lia|]. destruct t as [|l e b r]; [by apply not_elem_of_nil in Hn|].
  rewrite elements_node in Hs, Hn |- *. rewrite (delete_key_node _ (elements l) e (elements r) Hs).
  pose proof Ha as (Hl & Hr & Hb & Hb'). pose proof Hs as Hs'.
  apply sorted_node in Hs' as (Hsl & Hsr & _). cbn [depth] in Hf. cbn [avl_remove].
  destruct (elem_side _ _ _ _ Hs Hn) as [(Hlt & Hin) | [(Hgt & Hin) | (Heq & ->)]].
  - destruct (Z.ltb_spec (cmp (key n) e) 0); [|lia].
    destruct (IH fuel ltac:(lia) l n ltac:(lia) Hl Hsl Hin) as (ch & l' & Hrem & Hpost).
    destruct l as [|ll el bl lr]; [by apply not_elem_of_nil in Hin|].
    rewrite Hrem. cbn [obind]. by apply removed_left.
  - destruct (Z.ltb_spec (cmp (key n) e) 0); [lia|]. destruct (Z.ltb_spec 0 (cmp (key n) e)); [|lia].
    destruct (IH fuel ltac:(lia) r n ltac:(lia) Hr Hsr Hin) as (ch & r' & Hrem & Hpost).
    destruct r as [|rl er br rr]; [by apply not_elem_of_nil in Hin|].
    rewrite Hrem. cbn [obind]. by apply removed_right.
  - rewrite Heq. cbn [Z.ltb Z.compare]. rewrite bool_decide_true by done. cbn [assert_that obind].
    destruct l as [|ll el bl lr].
    { cbn [avl_removeroot]. do 2 eexists. split; [reflexivity|].
      split; avl_facts; [done|done|cbn; lia]. }
    destruct r as [|rl er br rr].
    { cbn [avl_removeroot]. do 2 eexists. split; [reflexivity|].
      split; [done|by rewrite app_nil_r|avl_facts; cbn; lia]. }
    destruct fuel as [|fuel]; [lia|].
    destruct (Z.lt_ge_cases b 0); [apply removeroot_left | apply removeroot_right]; try done.
    + intros m Hm. apply IH; (done || lia).
    + intros m Hm. apply IH; (done || lia).
Qed.

(** ** Well-formed sets *)

Lemma create_wf : wf_oset (VG_OSetGen_Create (E := E)).
Proof. split; [done|constructor|done]. Qed.

Lemma Insert_ok t e : wf_oset t -> find_key (key e) (elements (root t)) = None ->
  exists t', VG_OSetGen_Insert t e = Ok t' /\ wf_oset t'
    /\ elements (root t') = insert_sorted e (elements (root t)).
Proof.
  intros [Ha Hs Hn] Hnone. unfold VG_OSetGen_Insert.
  assert (Hs' : sorted (insert_sorted e (elements (root t))))
    by (apply insert_sorted_sorted; [done|by apply find_key_None]).
  assert (Hsize : u32 (nElems t + 1) = u32 (Z.of_nat (length (insert_sorted e (elements (root t)))))).
  { rewrite Hn, length_insert_sorted, Nat2Z.inj_succ. unfold u32. by rewrite Zplus_mod_idemp_l. }
  destruct (root t) as [|l x b r] eqn:Ht.
  - cbn [obind]. eexists. split; [reflexivity|]. split; [|done]. split; cbn; [|constructor; constructor|done].
    split_and!; done || lia.
  - pose proof (avl_insert_spec (Node l x b r) e ltac:(done) Ha Hs) as Hins. rewrite Hnone in Hins.
    destruct Hins as (g & t' & Heq & [Ha' He' _ _ _]). rewrite Heq. cbn [obind].
    eexists. split; [reflexivity|]. split; [|done].
    split; cbn [root nElems]; rewrite ?He'; done.
Qed.

(** [tl_assert] on an element that is there. *)
Lemma Insert_duplicate t e x : wf_oset t -> find_key (key e) (elements (root t)) = Some x ->
  VG_OSetGen_Insert t e = Err AssertFail.
Proof.
  intros [Ha Hs _] Hx. unfold VG_OSetGen_Insert. destruct (root t) as [|l y b r]; [done|].
  pose proof (avl_insert_spec (Node l y b r) e ltac:(done) Ha Hs) as Hins. rewrite Hx in Hins.
  by rewrite Hins.
Qed.

Lemma Lookup_ok t k : wf_oset t -> VG_OSetGen_Lookup t k = find_key k (elements (root t)).
Proof. intros [_ Hs _]. by apply avl_lookup_spec. Qed.

Lemma length_delete_key k l x : sorted l -> find_key k l = Some x ->
  S (length (delete_key k l)) = length l.
Proof.
  intros Hs Hx. apply find_key_Some in Hx as [Hin Heq].
  apply list_elem_of_split in Hin as (l1 & l2 & ->).
  rewrite (delete_key_node _ _ _ _ Hs), Heq. cbn. rewrite !length_app. cbn. lia.
Qed.

Lemma Remove_ok t k : wf_oset t ->
  exists t', VG_OSetGen_Remove t k = Ok (find_key k (elements (root t)), t') /\ wf_oset t'
    /\ elements (root t') = delete_key k (elements (root t)).
Proof.
  intros Hwf. pose proof Hwf as [Ha Hs Hn]. unfold VG_OSetGen_Remove. rewrite avl_lookup_spec by done.
  destruct (find_key k (elements (root t))) as [x|] eqn:Hx.
  - pose proof Hx as [Hin Heq]%find_key_Some.
    destruct (avl_remove_spec (remove_fuel (root t)) (root t) x) as (ch & t' & Hrem & [Ha' He' _]);
      try done; [unfold remove_fuel; lia|].
    rewrite Hrem. cbn [obind]. eexists. split; [reflexivity|].
    assert (Hdel : delete_key (key x) (elements (root t)) = delete_key k (elements (root t))).
    { rewrite cmp_key in Heq. unfold delete_key. apply List.filter_ext. intros y. f_equal.
      by apply kcmp_eq_test. }
    split; [|cbn; congruence]. split; cbn [root nElems]; [done| |].
    + rewrite He'. by apply delete_key_sorted.
    + rewrite He', Hdel, Hn. pose proof (length_delete_key k _ x Hs Hx) as Hlen.
      rewrite <-Hlen. unfold u32. rewrite Zminus_mod_idemp_l. f_equal. lia.
  - exists t. split; [done|]. split; [done|]. symmetry. apply delete_key_id. by apply find_key_None.
Qed.

(** ** Refinement *)

Inductive request :=
| Insert (e : E)
| Remove (k : K)
| Lookup (k : K)
| Contains (k : K)
| Size.

Inductive reply :=
| Done
| Found (e : option E)
| Answer (b : bool)
| Count (n : Z).

(** The operations of m_oset.c, and those of the abstract set. *)
Definition serve (t : oset E) (r : request) : outcome (reply * oset E) :=
  match r with
  | Insert e => let* t := VG_OSetGen_Insert t e in Ok (Done, t)
  | Remove k => let* (x, t) := VG_OSetGen_Remove t k in Ok (Found x, t)
  | Lookup k => Ok (Found (VG_OSetGen_Lookup t k), t)
  | Contains k => Ok (Answer (VG_OSetGen_Contains t k), t)
  | Size => Ok (Count (VG_OSetGen_Size t), t)
  end.

Definition serve_abstract (l : list E) (r : request) : outcome (reply * list E) :=
  match r with
  | Insert e =>
      match find_key (key e) l with
      | None => Ok (Done, insert_sorted e l)
      | Some _ => Err AssertFail
      end
  | Remove k => Ok (Found (find_key k l), delete_key k l)
  | Lookup k => Ok (Found (find_key k l), l)
  | Contains k => Ok (Answer (bool_decide (is_Some (find_key k l))), l)
  | Size => Ok (Count (u32 (Z.of_nat (length l))), l)
  end.

Fixpoint serve_all {S : Type} (step : S -> request -> outcome (reply * S)) (s : S)
    (rs : list request) : outcome (list reply * S) :=
  match rs with
  | [] => Ok ([], s)
  | r :: rs =>
      let* (a, s) := step s r in
      let* (l, s) := serve_all step s rs in
      Ok (a :: l, s)
  end.

(** The set represents the list of its elements in order. *)
Definition represents (t : oset E) (l : list E) : Prop := wf_oset t /\ elements (root t) = l.

Lemma serve_refines t l r : represents t l ->
  match serve_abstract l r with
  | Ok (a, l') => exists t', serve t r = Ok (a, t') /\ represents t' l'
  | Err e => serve t r = Err e
  end.
Proof.
  intros [Hwf <-]. destruct r as [e|k|k|k|]; cbn.
  - destruct (find_key (key e) _) as [x|] eqn:Hx; [by rewrite (Insert_duplicate _ _ x)|].
    destruct (Insert_ok t e Hwf Hx) as (t' & -> & Hwf' & He). by exists t'.
  - destruct (Remove_ok t k Hwf) as (t' & -> & Hwf' & He). by exists t'.
  - rewrite Lookup_ok by done. by exists t.
  - unfold VG_OSetGen_Contains. rewrite Lookup_ok by done. by exists t.
  - unfold VG_OSetGen_Size. rewrite wf_nElems by done. by exists t.
Qed.

(** C4: on every sequence of insertions, removals and queries, a set that
    starts empty gives the answers of the abstract sorted list, fails the
    assertion exactly when an element is inserted whose key is there, and ends
    as a well-formed (balanced, sorted) tree of the elements of that list. *)
Theorem oset_refines_sorted_list (rs : list request) :
  match serve_all serve_abstract [] rs with
  | Ok (a, l) => exists t, serve_all serve VG_OSetGen_Create rs = Ok (a, t) /\ represents t l
  | Err e => serve_all serve VG_OSetGen_Create rs = Err e
  end.
Proof.
  assert (H : represents VG_OSetGen_Create []) by (split; [apply create_wf|done]).
  revert H. generalize (VG_OSetGen_Create (E := E)), (@nil E).
  induction rs as [|r rs IH]; intros t l Hrep; cbn; [by exists t|].
  pose proof (serve_refines t l r Hrep) as Hr. destruct (serve_abstract l r) as [[a l']|]; [|by rewrite Hr].
  destruct Hr as (t' & -> & Hrep'). cbn. specialize (IH t' l' Hrep').
  destruct (serve_all serve_abstract l' rs) as [[a' l'']|]; cbn; [|by rewrite IH].
  destruct IH as (t'' & -> & ?). by exists t''.
Qed.

(** ** The iterator *)

(** What is still to come of the node on top of the stack, and of the stack. *)
Definition pending (n : tree E) (i : Z) : list E :=
  match n with
  | Leaf => []
  | Node l e _ r =>
      if i =? 1 then elements l ++ e :: elements r
      else if i =? 2 then e :: elements r else elements r
  end.

Fixpoint remaining (s : list (tree E * Z)) : list E :=
  match s with [] => [] | (n, i) :: s => pending n i ++ remaining s end.

(** Every node on the stack fits above the ones below it. *)
Fixpoint stack_ok (s : list (tree E * Z)) : Prop :=
  match s with
  | [] => True
  | (n, i) :: s =>
      n <> Leaf /\ 1 <= i <= 3 /\ (length s + depth n <= STACK_MAX)%nat /\ stack_ok s
  end.

Lemma depth_pos (n : tree E) : n <> Leaf -> (1 <= depth n)%nat.
Proof. destruct n; [done|cbn; lia]. Qed.

Lemma stackPush_ok s (n : tree E) i : n <> Leaf -> (length s + depth n <= STACK_MAX)%nat -> 1 <= i <= 3 ->
  stackPush s n i = Ok ((n, i) :: s).
Proof.
  intros Hn Hs Hi. pose proof (depth_pos n Hn). unfold stackPush.
  destruct (Nat.ltb_spec (length s) STACK_MAX); [|lia]. cbn [assert_that obind].
  destruct (Z.leb_spec 1 i), (Z.leb_spec i 3); try lia. done.
Qed.

Lemma stack_ok_length s : stack_ok s -> (length s <= STACK_MAX)%nat.
Proof.
  destruct s as [|[n i] s]; cbn; [lia|]. intros (Hn & _ & Hl & _). pose proof (depth_pos n Hn). lia.
Qed.

Lemma push_left_ok (n : tree E) s : n <> Leaf -> stack_ok s -> (length s + depth n <= STACK_MAX)%nat ->
  exists m s', push_left s n = Ok ((m, 2) :: s') /\ stack_ok ((m, 2) :: s')
    /\ remaining ((m, 2) :: s') = elements n ++ remaining s.
Proof.
  revert s. induction n as [|l IH e b r _]; intros s Hn Hs Hd; [done|].
  cbn [push_left]. rewrite stackPush_ok by (done || lia). cbn [obind].
  assert (Hs' : stack_ok ((Node l e b r, 2) :: s)) by (cbn [stack_ok]; split_and!; (done || lia)).
  destruct l as [|ll el bl lr]; [by do 2 eexists|].
  destruct (IH ((Node (Node ll el bl lr) e b r, 2) :: s)) as (m & s' & Heq & Hok & Hrem); [done|done| |].
  { cbn [length]. cbn [depth] in Hd |- *. lia. }
  exists m, s'. split; [done|]. split; [done|]. rewrite Hrem.
  cbn [remaining pending Z.eqb Pos.eqb]. rewrite (elements_node _ e b r), <-app_assoc. done.
Qed.

(** A node whose left subtree is done is the next one. *)
Lemma next_loop_top fuel (m : tree E) s : stack_ok ((m, 2) :: s) ->
  exists s', next_loop (S fuel) ((m, 2) :: s) = Ok (head (remaining ((m, 2) :: s)), s') /\ stack_ok s'
    /\ remaining s' = tail (remaining ((m, 2) :: s)).
Proof.
  intros (Hm & _ & Hd & Hs). destruct m as [|l e b r]; [done|]. cbn [next_loop].
  change ((1 <=? 2) && (2 <=? 3)) with true. cbn [assert_that obind Z.eqb Pos.eqb].
  rewrite stackPush_ok by (done || lia). cbn [obind]. eexists. split; [reflexivity|].
  split; [|done]. cbn [stack_ok]. split_and!; (done || lia).
Qed.

Lemma next_loop_ok fuel s : stack_ok s -> (length s + 1 <= fuel)%nat ->
  exists s', next_loop fuel s = Ok (head (remaining s), s') /\ stack_ok s'
    /\ remaining s' = tail (remaining s).
Proof.
  revert s. induction fuel as [|fuel IH]; intros s Hs Hf; [lia|]. destruct s as [|[n i] s]; [by exists []|].
  pose proof Hs as (Hn & Hi & Hd & Hs'). cbn [length] in Hf. destruct n as [|l e b r]; [done|].
  assert (i = 2 \/ (exists m, m <> Leaf /\ (length s + depth m <= STACK_MAX)%nat
      /\ elements m = pending (Node l e b r) i
      /\ next_loop (S fuel) ((Node l e b r, i) :: s) = let* s := push_left s m in next_loop fuel s)
    \/ (i = 3 /\ r = Leaf)) as [-> | [(m & Hm & Hdm & Hem & Heq) | [-> ->]]].
  { assert (i = 1 \/ i = 2 \/ i = 3) as [-> | [-> | ->]] by lia; [|by left|].
    - right; left. by exists (Node l e b r).
    - right. destruct r as [|rl er br rr]; [by right|]. left. exists (Node rl er br rr).
      split_and!; [done| |done|done]. cbn [depth] in Hd |- *. lia. }
  - by apply next_loop_top.
  - destruct fuel as [|fuel]; [lia|]. destruct (push_left_ok m s Hm Hs' Hdm) as (m' & s' & Hpush & Hok & Hrem).
    rewrite Heq, Hpush. cbn [obind].
    change (remaining ((Node l e b r, i) :: s)) with (pending (Node l e b r) i ++ remaining s).
    rewrite <-Hem, <-Hrem. by apply next_loop_top.
  - change (next_loop (S fuel) ((Node l e b Leaf, 3) :: s)) with (next_loop fuel s).
    change (remaining ((Node l e b Leaf, 3) :: s)) with (remaining s). apply IH; [done|lia].
Qed.

(** [while ((e = VG_(OSetGen_Next)(t))) ...]: the elements it goes through. *)
Fixpoint drain (fuel : nat) (t : oset E) : outcome (list E) :=
  match fuel with
  | O => Err OutOfFuel
  | S fuel =>
      let* (x, t) := VG_OSetGen_Next t in
      match x with
      | None => Ok []
      | Some e => let* l := drain fuel t in Ok (e :: l)
      end
  end.

Lemma drain_ok fuel t : stack_ok (stack t) -> (length (remaining (stack t)) < fuel)%nat ->
  drain fuel t = Ok (remaining (stack t)).
Proof.
  revert t. induction fuel as [|fuel IH]; intros t Hs Hf; [lia|]. cbn [drain].
  unfold VG_OSetGen_Next. destruct (Nat.leb_spec (length (stack t)) STACK_MAX) as [_|Hlong].
  2: { pose proof (stack_ok_length _ Hs). lia. }
  destruct (next_loop_ok (length (stack t) + 2) (stack t) Hs ltac:(lia)) as (s' & Heq & Hs' & Hrem).
  cbn [assert_that obind]. rewrite Heq. cbn [obind].
  destruct (remaining (stack t)) as [|x l] eqn:Hr; [done|]. cbn [head].
  rewrite IH; cbn [stack]; [by rewrite Hrem|done|]. cbn [stack]. rewrite Hrem. cbn [length tail] in *. lia.
Qed.

Lemma ResetIter_ok t : (depth (root t) <= STACK_MAX)%nat ->
  exists s, VG_OSetGen_ResetIter t = Ok (mk_oset (nElems t) (root t) s) /\ stack_ok s
    /\ remaining s = elements (root t).
Proof.
  intros Hd. unfold VG_OSetGen_ResetIter. destruct (root t) as [|l e b r] eqn:Ht; [by exists []|].
  rewrite stackPush_ok by (done || cbn in *; lia). eexists. split; [reflexivity|].
  split; [|by cbn; rewrite app_nil_r]. cbn in *. split_and!; (done || lia).
Qed.

Lemma reset_at_ok s t k : sorted (elements t) -> stack_ok s -> (length s + depth t <= STACK_MAX)%nat ->
  exists s', reset_at s t k = Ok s' /\ stack_ok s'
    /\ remaining s' = List.filter (fun x => cmp k x <=? 0) (elements t) ++ remaining s.
Proof.
  revert s. induction t as [|l IHl e b r IHr]; intros s Hso Hs Hd; [by exists s|].
  rewrite elements_node in Hso |- *. pose proof Hso as (Hsl & Hsr & Hl & Hr)%sorted_node.
  assert (Hall : forall x, cmp k x <= 0 -> (forall y, y ∈ elements r -> before x y) ->
    List.filter (fun x => cmp k x <=? 0) (elements r) = elements r).
  { intros x Hx Hbef. apply List.forallb_filter_id, List.forallb_forall. intros y Hy%list_elem_of_In.
    apply Z.leb_le. pose proof (key_before k x y (Hbef y Hy)). lia. }
  assert (Hnone : 0 <= cmp k e -> List.filter (fun x => cmp k x <=? 0) (elements l) = []).
  { intros Hk. assert (Hn : forall x, x ∈ elements l -> 0 < cmp k x).
    { intros x Hx. by apply (key_after k x e); [apply Hl|]. }
    clear -Hn. induction (elements l) as [|y l' IH]; [done|]. cbn.
    destruct (Z.leb_spec (cmp k y) 0); [|apply IH; intros x Hx; apply Hn; by right].
    specialize (Hn y ltac:(left)). lia. }
  cbn [depth] in Hd. cbn [reset_at]. rewrite List.filter_app. cbn [List.filter].
  destruct (Z.ltb_spec (cmp k e) 0) as [Hlt|]; [|destruct (Z.ltb_spec 0 (cmp k e)) as [Hgt|]].
  - cbn [Z.eqb]. change (Z.shiftr (u64 1) 63) with 0. cbn [Z.eqb orb assert_that obind].
    rewrite stackPush_ok by (done || cbn; lia). cbn [obind].
    destruct (Z.leb_spec (cmp k e) 0); [|lia]. rewrite (Hall e) by (done || lia).
    destruct (IHl ((Node l e b r, 2) :: s) Hsl) as (s' & -> & Hs' & Hrem).
    + cbn [stack_ok]. split_and!; (done || cbn; lia).
    + cbn [length]. lia.
    + exists s'. split; [done|]. split; [done|]. by rewrite Hrem, <-app_assoc.
  - cbn [Z.eqb]. change (Z.shiftr (u64 (-1)) 63) with 1. cbn [Z.eqb Pos.eqb orb assert_that obind].
    destruct (Z.leb_spec (cmp k e) 0); [lia|]. rewrite Hnone by lia. cbn [app]. apply IHr; (done || lia).
  - assert (Heq : cmp k e = 0) by lia. rewrite Heq. cbn [Z.eqb Z.leb Z.compare].
    rewrite stackPush_ok by (done || cbn; lia). eexists. split; [reflexivity|].
    rewrite Hnone, (Hall e) by (done || lia). split; [|done].
    cbn [stack_ok]. split_and!; (done || cbn; lia).
Qed.

(** ** Destruction *)

Fixpoint postorder (t : tree E) : list E :=
  match t with Leaf => [] | Node l e _ r => postorder l ++ postorder r ++ [e] end.

Lemma postorder_elements (t : tree E) : postorder t ≡ₚ elements t.
Proof.
  induction t as [|l IHl e b r IHr]; [done|]. cbn. rewrite IHl, IHr. apply Permutation_app_head.
  symmetry. apply Permutation_cons_append.
Qed.

(** What is still to be freed, and the rounds that takes. *)
Definition to_free (n : tree E) (i : Z) : list E :=
  match n with
  | Leaf => []
  | Node l e _ r =>
      if i =? 1 then postorder l ++ postorder r ++ [e]
      else if i =? 2 then postorder r ++ [e] else [e]
  end.
Definition rounds (n : tree E) (i : Z) : nat :=
  match n with
  | Leaf => O
  | Node l e _ r =>
      if i =? 1 then (3 + 3 * tree_size l + 3 * tree_size r)%nat
      else if i =? 2 then (2 + 3 * tree_size r)%nat else 1%nat
  end.

Fixpoint all_to_free (s : list (tree E * Z)) : list E :=
  match s with [] => [] | (n, i) :: s => to_free n i ++ all_to_free s end.
Fixpoint all_rounds (s : list (tree E * Z)) : nat :=
  match s with [] => O | (n, i) :: s => (rounds n i + all_rounds s)%nat end.

(** Pushing a child that may be [NULL]. *)
Lemma push_child_ok s (c : tree E) : stack_ok s -> (length s + depth c <= STACK_MAX)%nat ->
  exists s', match c with Leaf => Ok s | Node _ _ _ _ => stackPush s c 1 end = Ok s' /\ stack_ok s'
    /\ remaining s' = elements c ++ remaining s /\ all_to_free s' = postorder c ++ all_to_free s
    /\ all_rounds s' = (3 * tree_size c + all_rounds s)%nat.
Proof.
  intros Hs Hd. destruct c as [|l e b r]; [by exists s|]. rewrite stackPush_ok by (done || lia).
  eexists. split; [reflexivity|]. split; [cbn [stack_ok]; split_and!; (done || lia)|].
  cbn [remaining pending all_to_free to_free all_rounds rounds Z.eqb Pos.eqb postorder tree_size].
  split_and!; [done|done|lia].
Qed.

Lemma destroy_loop_ok fuel s freed : stack_ok s -> (all_rounds s < fuel)%nat ->
  destroy_loop fuel s freed = Ok (freed ++ all_to_free s).
Proof.
  revert s freed. induction fuel as [|fuel IH]; intros s freed Hs Hf; [lia|].
  destruct s as [|[n i] s]; [by cbn; rewrite app_nil_r|].
  destruct Hs as (Hn & Hi & Hd & Hs). destruct n as [|l e b r]; [done|].
  cbn [depth] in Hd. cbn [all_rounds rounds] in Hf.
  assert (Hk : forall k, 1 <= k <= 3 -> stack_ok ((Node l e b r, k) :: s))
    by (intros k Hk; cbn [stack_ok depth]; split_and!; (done || lia)).
  assert (i = 1 \/ i = 2 \/ i = 3) as [-> | [-> | ->]] by lia; cbn [Z.eqb Pos.eqb] in Hf;
    cbn [destroy_loop]; cbn [Z.leb Z.compare Pos.compare Pos.compare_cont andb assert_that obind Z.eqb Pos.eqb].
  - rewrite stackPush_ok by (done || cbn [depth]; lia). cbn [obind].
    destruct (push_child_ok _ l (Hk 2 ltac:(lia))) as (s' & -> & Hs' & _ & Hfree & Hr); [cbn [length]; lia|].
    cbn [obind]. rewrite IH, Hfree; [|done|].
    + cbn [all_to_free to_free Z.eqb Pos.eqb]. by rewrite <-!app_assoc.
    + rewrite Hr. cbn [all_rounds rounds Z.eqb Pos.eqb]. lia.
  - rewrite stackPush_ok by (done || cbn [depth]; lia). cbn [obind].
    destruct (push_child_ok _ r (Hk 3 ltac:(lia))) as (s' & -> & Hs' & _ & Hfree & Hr); [cbn [length]; lia|].
    cbn [obind]. rewrite IH, Hfree; [|done|].
    + cbn [all_to_free to_free Z.eqb Pos.eqb]. by rewrite <-!app_assoc.
    + rewrite Hr. cbn [all_rounds rounds Z.eqb Pos.eqb]. lia.
  - rewrite IH; [|done|lia]. cbn [all_to_free to_free Z.eqb Pos.eqb]. by rewrite <-app_assoc.
Qed.

(** ** The depth of a balanced tree *)

(** The sizes of the smallest balanced trees of depths [h] and [h + 1]. *)
Fixpoint min_sizes (h : nat) : Z * Z :=
  match h with O => (0, 1) | S h => let '(a, b) := min_sizes h in (b, a + b + 1) end.
Definition min_size (h : nat) : Z := fst (min_sizes h).

Lemma min_size_step h : min_size (S (S h)) = min_size h + min_size (S h) + 1.
Proof. unfold min_size. cbn [min_sizes]. by destruct (min_sizes h). Qed.

Lemma length_elements (t : tree E) : length (elements t) = tree_size t.
Proof. induction t as [|l IHl e b r IHr]; [done|]. cbn. rewrite length_app. cbn. lia. Qed.

Lemma min_size_avl h (t : tree E) : avl t -> (h <= depth t)%nat -> min_size h <= Z.of_nat (tree_size t).
Proof.
  revert t. induction h as [h IH] using lt_wf_ind. intros t Ha Hh.
  destruct h as [|[|h]]; [cbn; lia| |].
  - destruct t; cbn in *; lia.
  - destruct t as [|l e b r]; [cbn in Hh; lia|]. rewrite min_size_step.
    cbn [depth tree_size] in *. destruct Ha as (Hl & Hr & Hb & Hb').
    destruct (le_lt_dec (depth r) (depth l)).
    + pose proof (IH h ltac:(lia) r Hr ltac:(lia)). pose proof (IH (S h) ltac:(lia) l Hl ltac:(lia)). lia.
    + pose proof (IH h ltac:(lia) l Hl ltac:(lia)). pose proof (IH (S h) ltac:(lia) r Hr ltac:(lia)). lia.
Qed.

Lemma small_depth (t : tree E) : avl t -> Z.of_nat (tree_size t) < 9227464 -> (depth t <= STACK_MAX)%nat.
Proof.
  intros Ha Hsz. destruct (le_lt_dec (depth t) STACK_MAX) as [|Hd]; [done|exfalso].
  pose proof (min_size_avl 33 t Ha Hd) as Hm. change (min_size 33) with 9227464 in Hm. lia.
Qed.

Lemma wf_small_depth t : wf_oset t -> Z.of_nat (length (elements (root t))) < 9227464 ->
  (depth (root t) <= STACK_MAX)%nat /\ VG_OSetGen_Size t = Z.of_nat (length (elements (root t))).
Proof.
  intros Hwf Hsz. split.
  - apply small_depth; [apply Hwf|]. by rewrite <-length_elements.
  - unfold VG_OSetGen_Size. rewrite wf_nElems by done. apply u32_small. lia.
Qed.

(** On a well-formed set of fewer than 9,227,464 elements the iteration
    that follows [ResetIter] gives all of them in increasing order and then
    [NULL], and the one that follows [ResetIterAt] gives those from the key on;
    the iterator stack of 32 entries never overflows. *)
Theorem iterator_yields_sorted (t : oset E) (k : K) :
  wf_oset t -> Z.of_nat (length (elements (root t))) < 9227464 ->
  (let* t' := VG_OSetGen_ResetIter t in drain (Z.to_nat (VG_OSetGen_Size t) + 1) t')
    = Ok (elements (root t)) /\
  (let* t' := VG_OSetGen_ResetIterAt t k in drain (Z.to_nat (VG_OSetGen_Size t) + 1) t')
    = Ok (List.filter (fun x => cmp k x <=? 0) (elements (root t))).
Proof.
  intros Hwf Hsz. destruct (wf_small_depth t Hwf Hsz) as [Hd ->]. split.
  - destruct (ResetIter_ok t Hd) as (s & -> & Hs & Hr). cbn [obind].
    rewrite drain_ok; cbn [stack]; [by rewrite Hr|done|rewrite Hr; lia].
  - unfold VG_OSetGen_ResetIterAt.
    destruct (reset_at_ok [] (root t) k (wf_sorted t Hwf) I Hd) as (s & -> & Hs & Hr). cbn [obind].
    cbn [remaining] in Hr. rewrite app_nil_r in Hr.
    rewrite drain_ok; cbn [stack]; [by rewrite Hr|done|]. rewrite Hr.
    pose proof (List.filter_length_le (fun x => cmp k x <=? 0) (elements (root t))). lia.
Qed.

(** [VG_(OSetGen_Destroy)] of a well-formed set of fewer than 9,227,464
    elements frees every node once, children before parents, and its final
    assertion on the number of nodes holds. *)
Theorem destroy_frees_each_once (t : oset E) :
  wf_oset t -> Z.of_nat (length (elements (root t))) < 9227464 ->
  exists freed, VG_OSetGen_Destroy t = Ok freed /\ freed = postorder (root t)
    /\ freed ≡ₚ elements (root t) /\ NoDup freed.
Proof.
  intros Hwf Hsz. destruct (wf_small_depth t Hwf Hsz) as [Hd Hsize]. exists (postorder (root t)).
  split_and!; [|done|apply postorder_elements|].
  2: { rewrite postorder_elements. by apply sorted_NoDup, wf_sorted. }
  unfold VG_OSetGen_Destroy. destruct (push_child_ok [] (root t) I Hd) as (s & -> & Hs & _ & Hfree & Hr).
  cbn [obind]. rewrite destroy_loop_ok; [|done|cbn [all_rounds] in Hr; lia]. cbn [obind app].
  rewrite Hfree. cbn [all_to_free]. rewrite app_nil_r.
  unfold VG_OSetGen_Size in Hsize. rewrite Hsize, (Permutation_length (postorder_elements (root t))), Z.eqb_refl.
  done.
Qed.

End Order.

(** ** Sets of words *)

Lemma fast_cmp_spec x y :
  (fast_cmp x y < 0 <-> x < y) /\ (fast_cmp x y = 0 <-> x = y) /\ (0 < fast_cmp x y <-> y < x).
Proof. unfold fast_cmp. destruct (Z.ltb_spec y x), (Z.ltb_spec x y); lia. Qed.

#[export] Instance word_order : KeyOrder Z Z.
Proof.
  refine {| kcmp := fast_cmp |}.
  - done.
  - intros x y. unfold fast_cmp. destruct (Z.ltb_spec y x), (Z.ltb_spec x y); cbn; lia.
  - intros x y z. rewrite !(proj1 (fast_cmp_spec _ _)). lia.
  - intros x y z. rewrite !(proj1 (fast_cmp_spec _ _)), (proj1 (proj2 (fast_cmp_spec _ _))). lia.
Defined.

Lemma word_before (x y : Z) : before x y <-> x < y.
Proof. apply fast_cmp_spec. Qed.

Definition words : oset Z :=
  mk_oset 3 (Node (Node Leaf 10 0 Leaf) 20 0 (Node Leaf 30 0 Leaf)) [].

Lemma words_wf : wf_oset words.
Proof.
  split; [cbn; lia| |done]. cbn. repeat (constructor; [|repeat constructor]). constructor.
Qed.

Lemma iterator_yields_sorted_witness :
  wf_oset words /\ elements (root words) = [10; 20; 30] /\
  (let* t' := VG_OSetGen_ResetIter words in drain (Z.to_nat (VG_OSetGen_Size words) + 1) t')
    = Ok (elements (root words)) /\
  (let* t' := VG_OSetGen_ResetIterAt words 15 in drain (Z.to_nat (VG_OSetGen_Size words) + 1) t')
    = Ok (List.filter (fun x => cmp 15 x <=? 0) (elements (root words))).
Proof.
  split; [exact words_wf|]. split; [reflexivity|].
  apply (iterator_yields_sorted words 15); [exact words_wf|reflexivity].
Defined.

Lemma destroy_frees_each_once_witness :
  exists freed, VG_OSetGen_Destroy words = Ok freed /\ freed = postorder (root words)
    /\ freed ≡ₚ elements (root words) /\ NoDup freed.
Proof. apply (destroy_frees_each_once words); [exact words_wf|reflexivity]. Defined.

(** *** The limit of the iterator *)

(** The smallest balanced tree of depth [h] that leans to the left, with the
    words from [lo] on. *)
Fixpoint fib_tree (h : nat) (lo : Z) : tree Z :=
  match h with
  | O => Leaf
  | S h1 =>
      let r := match h1 with O => Leaf | S h2 => fib_tree h2 (lo + min_size h1 + 1) end in
      Node (fib_tree h1 lo) (lo + min_size h1) (match h1 with O => 0 | S _ => -1 end) r
  end.

Lemma fib_tree_facts h lo :
  depth (fib_tree h lo) = h /\ avl (fib_tree h lo)
  /\ elements (fib_tree h lo) = seqZ lo (min_size h) /\ 0 <= min_size h.
Proof.
  revert lo. induction h as [h IH] using lt_wf_ind. intros lo. destruct h as [|[|h]].
  - done.
  - cbn. rewrite Z.add_0_r. split_and!; try done; lia.
  - change (fib_tree (S (S h)) lo) with
      (Node (fib_tree (S h) lo) (lo + min_size (S h)) (-1) (fib_tree h (lo + min_size (S h) + 1))).
    destruct (IH (S h) ltac:(lia) lo) as (Hd1 & Ha1 & He1 & Hm1).
    destruct (IH h ltac:(lia) (lo + min_size (S h) + 1)) as (Hd2 & Ha2 & He2 & Hm2).
    pose proof (min_size_step h). cbn [depth avl]. rewrite elements_node, Hd1, Hd2, He1, He2.
    split_and!; try done; try lia.
    replace (min_size (S (S h))) with (min_size (S h) + (1 + min_size h)) by lia.
    rewrite seqZ_app by lia. f_equal. rewrite (seqZ_cons (lo + min_size (S h))) by lia. f_equal.
    f_equal; lia.
Qed.

Lemma seqZ_sorted lo n : sorted (seqZ lo n).
Proof.
  destruct (Z.le_gt_cases 0 n) as [Hn|]; [|by rewrite seqZ_nil by lia; constructor].
  revert lo. pattern n. apply natlike_ind; [constructor| |done].
  clear n Hn. intros n Hn IH lo. rewrite seqZ_cons by lia. rewrite Z.pred_succ.
  constructor; [apply IH|]. apply List.Forall_forall. intros x Hx%list_elem_of_In%elem_of_seqZ.
  apply word_before. lia.
Qed.

Lemma push_left_overflow h lo s : (STACK_MAX < length s + S h)%nat -> (length s <= STACK_MAX)%nat ->
  push_left s (fib_tree (S h) lo) = Err AssertFail.
Proof.
  revert lo s. induction h as [|h IH]; intros lo s Hs Hle.
  - cbn [fib_tree push_left]. unfold stackPush. destruct (Nat.ltb_spec (length s) STACK_MAX); [lia|done].
  - change (fib_tree (S (S h)) lo) with
      (Node (fib_tree (S h) lo) (lo + min_size (S h)) (-1) (fib_tree h (lo + min_size (S h) + 1))).
    set (n := Node _ _ _ _). cbn [push_left n]. fold n. unfold stackPush.
    destruct (Nat.ltb_spec (length s) STACK_MAX); [|done]. cbn [assert_that obind].
    change ((1 <=? 2) && (2 <=? 3)) with true. cbn [assert_that obind].
    rewrite <-(IH lo ((n, 2) :: s)); [done|cbn; lia|cbn; lia].
Qed.

(** the bound on the elements is exact: there is a well-formed set of
    9,227,464 words on which the first [Next] after [ResetIter] fails the
    assertion on the iterator stack, although STACK_MAX is documented to allow
    2^32 entries. *)
Theorem iterator_stack_limit :
  exists t : oset Z, wf_oset t /\ VG_OSetGen_Size t = 9227464 /\
    (let* t' := VG_OSetGen_ResetIter t in VG_OSetGen_Next t') = Err AssertFail.
Proof.
  destruct (fib_tree_facts 33 0) as (Hd & Ha & He & _).
  exists (mk_oset 9227464 (fib_tree 33 0) []). split; [|split; [done|]].
  - split; cbn [root nElems]; [done| |]; rewrite He; [apply seqZ_sorted|].
    rewrite length_seqZ. change (min_size 33) with 9227464. rewrite Z2Nat.id by lia. reflexivity.
  - unfold VG_OSetGen_ResetIter. cbn [root nElems]. pose proof (push_left_overflow 32 0 [] ltac:(unfold STACK_MAX; cbn [length]; lia) ltac:(cbn [length]; lia)) as Hp.
    destruct (fib_tree 33 0) as [|l e b r] eqn:Ht; [done|].
    change (stackPush [] (Node l e b r) 1) with (Ok [(Node l e b r, 1)]). cbn [obind].
    unfold VG_OSetGen_Next. cbn [stack length Nat.leb Nat.add assert_that obind].
    cbn [next_loop]. rewrite Hp. reflexivity.
Qed.

Lemma oset_refines_sorted_list_witness :
  exists t, serve_all serve VG_OSetGen_Create [Insert 3; Insert 1; Insert 2; Remove 1; Contains 1; Size]
    = Ok ([Done; Done; Done; Found (Some 1); Answer false; Count 2], t) /\ represents t [2; 3].
Proof.
  exact (oset_refines_sorted_list (E := Z) [Insert 3; Insert 1; Insert 2; Remove 1; Contains 1; Size]).
Defined.
