(* ===== verification/WordFM.v ===== *)
(** * Word finite maps: the WordFM of cachegrind/cg_merge.c

    An AVL tree of keys with their values, after m_oset.c, whose rotations and
    iterator stack it shares.  A duplicate replaces the value of its node, and
    unexpected balances fail an assertion.  The words of the code are pointers
    to keys and values; here a node holds what they point to. *)

From S2P Require Import Prelude OSet.

(** ** Interface *)

(** [kCmp], and the order it has to define. *)
Class WordCmp (K : Type) := kCmp : K -> K -> Z.
Class WordOrder (K : Type) `{WordCmp K} := {
  kCmp_antisym x y : Z.sgn (kCmp y x) = - Z.sgn (kCmp x y);
  kCmp_trans x y z : kCmp x y < 0 -> kCmp y z < 0 -> kCmp x z < 0;
  kCmp_eq_lt x y z : kCmp x y = 0 -> kCmp y z < 0 -> kCmp x z < 0
}.

(** The comparison puts the key of the tree first, that of m_oset.c the one
    searched for. *)
#[export] Instance fm_cmp {K V} `{WordCmp K} : OSetCmp K (K * V) :=
  { key := fst; cmp k e := - kCmp (fst e) k }.

(** ** Data *)

(** The iterator stack has the top first. *)
Record WordFM (K V : Type) := mk_WordFM {
  fm_root : tree (K * V);
  fm_stack : list (tree (K * V) * Z)
}.
Arguments mk_WordFM {K V} _ _.
Arguments fm_root {K V} _.
Arguments fm_stack {K V} _.

#[export] Instance tree_eq_dec {E} `{EqDecision E} : EqDecision (tree E).
Proof. unfold EqDecision, Decision. decide equality; apply decide; apply _. Defined.
#[export] Instance WordFM_eq_dec {K V} `{EqDecision K} `{EqDecision V} : EqDecision (WordFM K V).
Proof. unfold EqDecision, Decision. decide equality; apply decide; apply _. Defined.

(** ** Balance *)

Section Balance.
Context {E : Type}.
Implicit Types t : tree E.

(** [switch (balance) { ... default: assert(0); }]. *)
Definition switch_balance (b : Z) : outcome unit := assert_that ((-1 <=? b) && (b <=? 1)).

Definition avl_nasty_wrk t : outcome (tree E) :=
  let* b := balance_of t in
  let* _ := switch_balance b in
  let* (l, r) := Ok (if b =? -1 then (0, 1) else if b =? 1 then (-1, 0) else (0, 0)) in
  let* t := set_left_balance l t in
  let* t := set_right_balance r t in
  set_balance 0 t.

(** The left or right subtree of a node of balance [b] has grown. *)
Definition wrk_grown_left (b : Z) t : outcome (bool * tree E) :=
  let* _ := switch_balance b in
  if b =? 1 then Ok (false, t)
  else if b =? 0 then Ok (true, t)
  else
    let* bl := left_balance t in
    if bl <? 0 then
      let* t := avl_swr t in
      let* t := set_balance 0 t in
      let* t := set_right_balance 0 t in
      Ok (false, t)
    else
      let* t := swl_left t in
      let* t := avl_swr t in
      let* t := avl_nasty_wrk t in
      Ok (false, t).

Definition wrk_grown_right (b : Z) t : outcome (bool * tree E) :=
  let* _ := switch_balance b in
  if b =? -1 then Ok (false, t)
  else if b =? 0 then Ok (true, t)
  else
    let* br := right_balance t in
    if 0 <? br then
      let* t := avl_swl t in
      let* t := set_balance 0 t in
      let* t := set_left_balance 0 t in
      Ok (false, t)
    else
      let* t := swr_right t in
      let* t := avl_swl t in
      let* t := avl_nasty_wrk t in
      Ok (false, t).

(** It has shrunk. *)
Definition wrk_shrunk_left (b : Z) t : outcome (bool * tree E) :=
  let* _ := switch_balance b in
  if b =? -1 then Ok (true, t)
  else if b =? 0 then Ok (false, t)
  else
    let* br := right_balance t in
    let* _ := switch_balance br in
    if br =? 0 then
      let* t := avl_swl t in
      let* t := set_balance (-1) t in
      let* t := set_left_balance 1 t in
      Ok (false, t)
    else if br =? 1 then
      let* t := avl_swl t in
      let* t := set_balance 0 t in
      let* t := set_left_balance 0 t in
      Ok (true, t)
    else
      let* t := swr_right t in
      let* t := avl_swl t in
      let* t := avl_nasty_wrk t in
      Ok (true, t).

Definition wrk_shrunk_right (b : Z) t : outcome (bool * tree E) :=
  let* _ := switch_balance b in
  if b =? 1 then Ok (true, t)
  else if b =? 0 then Ok (false, t)
  else
    let* bl := left_balance t in
    let* _ := switch_balance bl in
    if bl =? 0 then
      let* t := avl_swr t in
      let* t := set_balance 1 t in
      let* t := set_right_balance (-1) t in
      Ok (false, t)
    else if bl =? -1 then
      let* t := avl_swr t in
      let* t := set_balance 0 t in
      let* t := set_right_balance 0 t in
      Ok (true, t)
    else
      let* t := swl_left t in
      let* t := avl_swr t in
      let* t := avl_nasty_wrk t in
      Ok (true, t).

End Balance.

(** ** Operations *)

Section Operations.
Context {K V : Type} `{WordCmp K} `{EqDecision K} `{EqDecision V}.
Implicit Types (t l r : tree (K * V)) (fm : WordFM K V).

Fixpoint size_avl_nonNull t : outcome Z :=
  match t with
  | Leaf => Err Undefined
  | Node l _ _ r =>
      let* nl := match l with Leaf => Ok 0 | Node _ _ _ _ => size_avl_nonNull l end in
      let* nr := match r with Leaf => Ok 0 | Node _ _ _ _ => size_avl_nonNull r end in
      Ok (1 + nl + nr)
  end.

(** Whether the depth has grown, the value replaced if there was one, and the
    tree. *)
Fixpoint avl_insert_wrk t (a : K * V) : outcome (bool * option V * tree (K * V)) :=
  match t with
  | Leaf => Ok (true, None, Node Leaf a 0 Leaf)
  | Node l e b r =>
      let cmpres := kCmp (fst e) (fst a) in
      if 0 <? cmpres then
        match l with
        | Node _ el _ _ =>
            let* (grown, oldV, l) := avl_insert_wrk l a in
            if grown then
              let* l := still_rooted_at el l in
              let* (grown, t) := wrk_grown_left b (Node l e (b - 1) r) in
              Ok (grown, oldV, t)
            else Ok (false, oldV, Node l e b r)
        | Leaf => Ok (b =? 0, None, Node (Node Leaf a 0 Leaf) e (b - 1) r)
        end
      else if cmpres <? 0 then
        match r with
        | Node _ er _ _ =>
            let* (grown, oldV, r) := avl_insert_wrk r a in
            if grown then
              let* r := still_rooted_at er r in
              let* (grown, t) := wrk_grown_right b (Node l e (b + 1) r) in
              Ok (grown, oldV, t)
            else Ok (false, oldV, Node l e b r)
        | Leaf => Ok (b =? 0, None, Node l e (b + 1) (Node Leaf a 0 Leaf))
        end
      else Ok (false, Some (snd e), Node l (fst e, snd a) b r)
  end.

(** [avl_removeroot_wrk], where [remove] is [avl_remove_wrk]. *)
Definition avl_removeroot_wrk
    (remove : tree (K * V) -> K * V -> outcome (bool * tree (K * V))) t
  : outcome (bool * tree (K * V)) :=
  match t with
  | Leaf => Err Undefined
  | Node Leaf _ _ r => Ok (true, r)
  | Node l _ _ Leaf => Ok (true, l)
  | Node l _ b r =>
      let* a := if b <? 0 then last_elem l else first_elem r in
      let* (ch, t) := remove t a in
      match t with
      | Node l _ b r => Ok (if b =? 0 then ch else false, Node l a b r)
      | Leaf => Err Undefined
      end
  end.

(** The tree without the node [a], and whether its depth has shrunk. *)
Fixpoint avl_remove_wrk (fuel : nat) t (a : K * V) : outcome (bool * tree (K * V)) :=
  match fuel with
  | O => Err OutOfFuel
  | S fuel =>
      match t with
      | Leaf => Err Undefined
      | Node l e b r =>
          let cmpres := kCmp (fst e) (fst a) in
          if 0 <? cmpres then
            match l with
            | Leaf => Err AssertFail
            | Node _ _ _ _ =>
                let* (ch, l) := avl_remove_wrk fuel l a in
                if ch then wrk_shrunk_left b (Node l e (b + 1) r)
                else Ok (false, Node l e b r)
            end
          else if cmpres <? 0 then
            match r with
            | Leaf => Err AssertFail
            | Node _ _ _ _ =>
                let* (ch, r) := avl_remove_wrk fuel r a in
                if ch then wrk_shrunk_right b (Node l e (b - 1) r)
                else Ok (false, Node l e b r)
            end
          else
            let* _ := assert_that (bool_decide (e = a)) in
            avl_removeroot_wrk (avl_remove_wrk fuel) t
      end
  end.

Fixpoint avl_find_node t (k : K) : option (K * V) :=
  match t with
  | Leaf => None
  | Node l e _ r =>
      let cmpres := kCmp (fst e) k in
      if 0 <? cmpres then avl_find_node l k
      else if cmpres <? 0 then avl_find_node r k
      else Some e
  end.

Definition newFM : WordFM K V := mk_WordFM Leaf [].

Definition addToFM fm (k : K) (v : V) : outcome (WordFM K V) :=
  let* (_, _, t) := avl_insert_wrk (fm_root fm) (k, v) in
  Ok (mk_WordFM t (fm_stack fm)).

(** The value deleted, if the key was there. *)
Definition delFromFM fm (k : K) : outcome (option V * WordFM K V) :=
  match avl_find_node (fm_root fm) k with
  | Some node =>
      let* (_, t) := avl_remove_wrk (remove_fuel (fm_root fm)) (fm_root fm) node in
      Ok (Some (snd node), mk_WordFM t (fm_stack fm))
  | None => Ok (None, fm)
  end.

Definition lookupFM fm (k : K) : option V := snd <$> avl_find_node (fm_root fm) k.

Definition sizeFM fm : outcome Z :=
  match fm_root fm with Leaf => Ok 0 | Node _ _ _ _ => size_avl_nonNull (fm_root fm) end.

(** The map after the object that the value of [k] points to has changed to
    [v], when the code has that pointer from [lookupFM]. *)
Fixpoint poke t (k : K) (v : V) : tree (K * V) :=
  match t with
  | Leaf => Leaf
  | Node l e b r =>
      if 0 <? kCmp (fst e) k then Node (poke l k v) e b r
      else if kCmp (fst e) k <? 0 then Node l e b (poke r k v)
      else Node l (fst e, v) b r
  end.
Definition pokeFM fm (k : K) (v : V) : WordFM K V := mk_WordFM (poke (fm_root fm) k v) (fm_stack fm).

(** ** The iterator *)

Definition initIterFM fm : outcome (WordFM K V) :=
  let* s := match fm_root fm with Leaf => Ok [] | Node _ _ _ _ => stackPush [] (fm_root fm) 1 end in
  Ok (mk_WordFM (fm_root fm) s).

(** The loop of [nextIterFM]: a node is pushed and popped three times. *)
Fixpoint nextIter_loop (fuel : nat) (s : list (tree (K * V) * Z))
  : outcome (option (K * V) * list (tree (K * V) * Z)) :=
  match fuel with
  | O => Err OutOfFuel
  | S fuel =>
      let* _ := assert_that (length s <=? STACK_MAX)%nat in
      match s with
      | [] => Ok (None, [])
      | (n, i) :: s =>
          let* _ := assert_that ((1 <=? i) && (i <=? 3)) in
          match n with
          | Leaf => Err Undefined
          | Node l e _ r =>
              if i =? 1 then
                let* s := stackPush s n 2 in
                let* s := match l with Leaf => Ok s | Node _ _ _ _ => stackPush s l 1 end in
                nextIter_loop fuel s
              else if i =? 2 then
                let* s := stackPush s n 3 in Ok (Some e, s)
              else
                let* s := match r with Leaf => Ok s | Node _ _ _ _ => stackPush s r 1 end in
                nextIter_loop fuel s
          end
      end
  end.

(** Every node below the stack is popped at most three times. *)
Definition iter_fuel (s : list (tree (K * V) * Z)) : nat :=
  S (foldr (fun x n => 3 * tree_size (fst x) + n)%nat O s).

Definition nextIterFM fm : outcome (option (K * V) * WordFM K V) :=
  let* (x, s) := nextIter_loop (iter_fuel (fm_stack fm)) (fm_stack fm) in
  Ok (x, mk_WordFM (fm_root fm) s).

(** [while (nextIterFM(fm, &k, &v)) body], from a state [s]; the body does not
    touch [fm]. *)
Fixpoint iterate_loop {S : Type} (fuel : nat) fm (body : K -> V -> S -> outcome S) (s : S) : outcome S :=
  match fuel with
  | O => Err OutOfFuel
  | S fuel =>
      let* (x, fm) := nextIterFM fm in
      match x with
      | None => Ok s
      | Some (k, v) => let* s := body k v s in iterate_loop fuel fm body s
      end
  end.

(** The loop after [initIterFM(fm)]; a round per node and the last one. *)
Definition iterateFM {S : Type} fm (body : K -> V -> S -> outcome S) (s : S) : outcome S :=
  let* fm := initIterFM fm in
  iterate_loop (tree_size (fm_root fm) + 1) fm body s.

(** ** Copying and freeing *)

Fixpoint avl_dopy t (dopyK : K -> K) (dopyV : V -> V) : tree (K * V) :=
  match t with
  | Leaf => Leaf
  | Node l e b r => Node (avl_dopy l dopyK dopyV) (dopyK (fst e), dopyV (snd e)) b (avl_dopy r dopyK dopyV)
  end.

Definition dopyFM fm (dopyK : K -> K) (dopyV : V -> V) : outcome (WordFM K V) :=
  let* _ := assert_that (bool_decide (fm_stack fm = [])) in
  Ok (mk_WordFM (avl_dopy (fm_root fm) dopyK dopyV) []).

(** The nodes in the order in which their keys and values are finalised. *)
Fixpoint avl_free t : list (K * V) :=
  match t with Leaf => [] | Node l e _ r => avl_free l ++ avl_free r ++ [e] end.
Definition deleteFM fm : list (K * V) := avl_free (fm_root fm).

End Operations.

(** ** Unboxed keys *)

Definition cmp_unboxed_UWord (u1 u2 : Z) : Z :=
  if u1 <? u2 then -1 else if u2 <? u1 then 1 else 0.
#[export] Instance UWord_cmp : WordCmp Z := cmp_unboxed_UWord.

(** Ten keys, three deleted. *)
Example small_map :
  (let add fm k := let* fm := fm in addToFM fm k (10 * k) in
   let del fm k := let* fm := fm in let* (_, fm) := delFromFM fm k in Ok fm in
   let* fm := foldl del (foldl add (Ok newFM) [5; 3; 9; 1; 4; 7; 8; 2; 6; 0]) [3; 7; 5] in
   let* n := sizeFM fm in
   let* l := iterateFM fm (fun k v l => Ok (l ++ [(k, v)])) [] in
   Ok (n, l, lookupFM fm 4, lookupFM fm 5))
  = Ok (7, [(0, 0); (1, 10); (2, 20); (4, 40); (6, 60); (8, 80); (9, 90)], Some 40, None).
Proof. vm_compute. reflexivity. Qed.
