(* ===== verification/WordTheory.v ===== *)
(** * The word finite map is a finite map

    A well-formed map is a balanced tree sorted by key.  Insertion, deletion
    and lookup return on it and act on the sorted list of bindings as the
    abstract operations do; the iterator goes through that list. *)

From S2P Require Import Prelude OSet OSetTheory WordFM.

(** A loop over a list whose body may fail. *)
Fixpoint ofold {A S : Type} (f : A -> S -> outcome S) (xs : list A) (s : S) : outcome S :=
  match xs with [] => Ok s | x :: xs => let* s := f x s in ofold f xs s end.

Lemma ofold_app {A S} (f : A -> S -> outcome S) xs ys s :
  ofold f (xs ++ ys) s = let* s := ofold f xs s in ofold f ys s.
Proof. revert s. induction xs as [|x xs IH]; intros s; [done|]. cbn. destruct (f x s); [apply IH|done]. Qed.

Lemma ofold_ext {A S} (f g : A -> S -> outcome S) xs s :
  (forall x s, f x s = g x s) -> ofold f xs s = ofold g xs s.
Proof. intros Hfg. revert s. induction xs as [|x xs IH]; intros s; [done|]. cbn. rewrite Hfg. destruct (g x s); [apply IH|done]. Qed.

(** ** The balancing code agrees with that of m_oset.c on balanced trees *)

Section Balance.
Context {E : Type} {EqE : EqDecision E}.
Implicit Types t l r : tree E.

Lemma switch_balance_ok b : -1 <= b <= 1 -> switch_balance b = Ok tt.
Proof. intros Hb. apply assert_that_true, andb_true_iff. split; apply Z.leb_le; lia. Qed.

Lemma avl_nasty_wrk_eq t b : balance_of t = Ok b -> -1 <= b <= 1 -> avl_nasty_wrk t = avl_nasty t.
Proof.
  intros Ht Hb. unfold avl_nasty_wrk, avl_nasty. rewrite Ht. cbn [obind]. rewrite switch_balance_ok by done.
  assert (b = -1 \/ b = 0 \/ b = 1) as [-> | [-> | ->]] by lia; cbn [Z.eqb Pos.eqb obind]; by rewrite bind_assoc.
Qed.

Lemma avl_balance l e b r : avl (Node l e b r) -> -1 <= b <= 1.
Proof. by intros (_ & _ & _ & ?). Qed.

(** The double rotations hand [avl_nasty] a node of the tree. *)
Lemma nasty_left_right l e b r : avl l ->
  (let* t := swl_left (Node l e b r) in let* t := avl_swr t in avl_nasty_wrk t)
  = (let* t := swl_left (Node l e b r) in let* t := avl_swr t in avl_nasty t).
Proof.
  intros Hl. destruct l as [|ll el bl [|x m bm y]]; [done|done|]. cbn [swl_left avl_swl avl_swr obind].
  apply (avl_nasty_wrk_eq _ bm); [done|]. destruct Hl as (_ & Hm & _). by apply avl_balance in Hm.
Qed.

Lemma nasty_right_left l e b r : avl r ->
  (let* t := swr_right (Node l e b r) in let* t := avl_swl t in avl_nasty_wrk t)
  = (let* t := swr_right (Node l e b r) in let* t := avl_swl t in avl_nasty t).
Proof.
  intros Hr. destruct r as [|[|x m bm y] er br rr]; [done|done|]. cbn [swr_right avl_swr avl_swl obind].
  apply (avl_nasty_wrk_eq _ bm); [done|]. destruct Hr as (Hm & _). by apply avl_balance in Hm.
Qed.

Lemma three_steps {A B C D} (m : outcome A) (f : A -> outcome B) (g : B -> outcome C) (h : C -> outcome D) :
  (let* a := m in let* b := f a in let* c := g b in h c)
  = (let* c := (let* a := m in let* b := f a in g b) in h c).
Proof. destruct m as [a|]; [|done]. cbn. by destruct (f a). Qed.

Lemma wrk_grown_left_eq b l e b' r : avl l -> -1 <= b <= 1 ->
  wrk_grown_left b (Node l e b' r) = grown_left b (Node l e b' r).
Proof.
  intros Hl Hb. unfold wrk_grown_left, grown_left. rewrite switch_balance_ok by done. cbn [obind].
  by rewrite !(three_steps (swl_left _)), nasty_left_right.
Qed.

Lemma wrk_grown_right_eq b l e b' r : avl r -> -1 <= b <= 1 ->
  wrk_grown_right b (Node l e b' r) = grown_right b (Node l e b' r).
Proof.
  intros Hr Hb. unfold wrk_grown_right, grown_right. rewrite switch_balance_ok by done. cbn [obind].
  by rewrite !(three_steps (swr_right _)), nasty_right_left.
Qed.

Lemma balance_checked (m : outcome Z) {A} (k : Z -> outcome A) :
  (forall b, m = Ok b -> -1 <= b <= 1) ->
  (let* b := m in let* _ := switch_balance b in k b) = let* b := m in k b.
Proof. intros Hm. destruct m as [b|]; [|done]. cbn. by rewrite switch_balance_ok by (by apply Hm). Qed.

Lemma wrk_shrunk_left_eq b l e b' r : avl r -> -1 <= b <= 1 ->
  wrk_shrunk_left b (Node l e b' r) = shrunk_left b (Node l e b' r).
Proof.
  intros Hr Hb. unfold wrk_shrunk_left, shrunk_left. rewrite switch_balance_ok by done. cbn [obind].
  rewrite balance_checked.
  - by rewrite !(three_steps (swr_right _)), nasty_right_left.
  - cbn. destruct r as [|rl er br rr]; [done|]. intros ? [= <-]. by apply avl_balance in Hr.
Qed.

Lemma wrk_shrunk_right_eq b l e b' r : avl l -> -1 <= b <= 1 ->
  wrk_shrunk_right b (Node l e b' r) = shrunk_right b (Node l e b' r).
Proof.
  intros Hl Hb. unfold wrk_shrunk_right, shrunk_right. rewrite switch_balance_ok by done. cbn [obind].
  rewrite balance_checked.
  - by rewrite !(three_steps (swl_left _)), nasty_left_right.
  - cbn. destruct l as [|ll el bl lr]; [done|]. intros ? [= <-]. by apply avl_balance in Hl.
Qed.

End Balance.

(** ** The abstract map *)

Section Spec.
Context {K V : Type} {KC : WordCmp K} {KO : WordOrder K} {EqK : EqDecision K} {EqV : EqDecision V}.
Implicit Types (t l r : tree (K * V)) (xs : list (K * V)) (fm : WordFM K V) (k : K) (v : V).

#[export] Instance fm_order : KeyOrder K (K * V).
Proof.
  apply (Build_KeyOrder K (K * V) fm_cmp (fun x y => - kCmp y x)).
  - done.
  - intros x y. pose proof (kCmp_antisym x y). destruct (kCmp x y), (kCmp y x); cbn in *; lia.
  - intros x y z Hx Hy. pose proof (kCmp_antisym x y). pose proof (kCmp_antisym y z).
    pose proof (kCmp_antisym x z).
    assert (kCmp x z < 0); [apply (kCmp_trans x y z)|];
      destruct (kCmp x y), (kCmp y x), (kCmp y z), (kCmp z y), (kCmp x z), (kCmp z x); cbn in *; lia.
  - intros x y z Hx Hy. pose proof (kCmp_antisym x y). pose proof (kCmp_antisym y z).
    pose proof (kCmp_antisym x z).
    assert (kCmp x z < 0); [apply (kCmp_eq_lt x y z)|];
      destruct (kCmp x y), (kCmp y x), (kCmp y z), (kCmp z y), (kCmp x z), (kCmp z x); cbn in *; lia.
Defined.

(** Adding a binding to a sorted list of them: the key of an old one stays. *)
Fixpoint put k v xs : list (K * V) :=
  match xs with
  | [] => [(k, v)]
  | x :: xs =>
      if 0 <? kCmp (fst x) k then (k, v) :: x :: xs
      else if kCmp (fst x) k =? 0 then (fst x, v) :: xs
      else x :: put k v xs
  end.

Definition assoc k xs : option V := snd <$> find_key k xs.

Lemma put_insert k v xs : find_key k xs = None -> put k v xs = insert_sorted (k, v) xs.
Proof.
  induction xs as [|x xs IH]; [done|]. cbn. 
  destruct (Z.eqb_spec (- kCmp (fst x) k) 0), (Z.ltb_spec 0 (kCmp (fst x) k)), (Z.ltb_spec (- kCmp (fst x) k) 0),
    (Z.eqb_spec (kCmp (fst x) k) 0); try lia; try done. intros Hx. by rewrite IH.
Qed.

Lemma put_node k v (l : list (K * V)) e (r : list (K * V)) : sorted (l ++ e :: r) ->
  put k v (l ++ e :: r) =
    if 0 <? kCmp (fst e) k then put k v l ++ e :: r
    else if kCmp (fst e) k <? 0 then l ++ e :: put k v r else l ++ (fst e, v) :: r.
Proof.
  intros Hs. apply sorted_node in Hs as (_ & _ & Hl & _).
  assert (Hlow : kCmp (fst e) k <= 0 -> forall x, x ∈ l -> kCmp (fst x) k < 0).
  { intros Hk x Hx. pose proof (key_after k x e (Hl x Hx)) as Hxe. cbn in Hxe. lia. }
  clear Hl. destruct (Z.ltb_spec 0 (kCmp (fst e) k)).
  - clear Hlow. induction l as [|x l IH]; cbn.
    + by destruct (Z.ltb_spec 0 (kCmp (fst e) k)); [|lia].
    + destruct (0 <? kCmp (fst x) k); [done|]. destruct (kCmp (fst x) k =? 0); [done|]. by rewrite IH.
  - specialize (Hlow ltac:(lia)). induction l as [|x l IH]; cbn.
    + destruct (Z.ltb_spec 0 (kCmp (fst e) k)); [lia|].
      by destruct (Z.eqb_spec (kCmp (fst e) k) 0), (Z.ltb_spec (kCmp (fst e) k) 0); try lia.
    + pose proof (Hlow x ltac:(left)). destruct (Z.ltb_spec 0 (kCmp (fst x) k)); [lia|].
      destruct (Z.eqb_spec (kCmp (fst x) k) 0); [lia|]. rewrite IH by (intros y Hy; apply Hlow; by right).
      by case_test.
Qed.

Lemma avl_find_node_eq t k : avl_find_node t k = avl_lookup t k.
Proof.
  induction t as [|l IHl e b r IHr]; [done|]. cbn. rewrite IHl, IHr.
  destruct (Z.ltb_spec 0 (kCmp (fst e) k)), (Z.ltb_spec (- kCmp (fst e) k) 0); try lia; [done|].
  by destruct (Z.ltb_spec (kCmp (fst e) k) 0), (Z.ltb_spec 0 (- kCmp (fst e) k)); try lia.
Qed.

(** ** Insertion *)

(** A subtree with another tree of the same depth in its place. *)
Lemma avl_replace_left l e b r l' : avl (Node l e b r) -> avl l' -> zdepth l' = zdepth l ->
  avl (Node l' e b r) /\ zdepth (Node l' e b r) = zdepth (Node l e b r).
Proof. unfold zdepth. cbn. intros (? & ? & ? & ?) ? Hd. split; [split_and!; (done || lia)|lia]. Qed.

Lemma avl_replace_right l e b r r' : avl (Node l e b r) -> avl r' -> zdepth r' = zdepth r ->
  avl (Node l e b r') /\ zdepth (Node l e b r') = zdepth (Node l e b r).
Proof. unfold zdepth. cbn. intros (? & ? & ? & ?) ? Hd. split; [split_and!; (done || lia)|lia]. Qed.

(** What [avl_insert_wrk] returns. *)
Definition insert_post k v t (g : bool) t' : Prop :=
  match find_key k (elements t) with
  | None => inserted (k, v) t g t'
  | Some _ => g = false /\ avl t' /\ elements t' = put k v (elements t) /\ zdepth t' = zdepth t
  end.

Lemma insert_post_left k v l e b r g l' el :
  avl (Node l e b r) -> sorted (elements (Node l e b r)) -> root_elem l = Some el ->
  insert_post k v l g l' -> 0 < kCmp (fst e) k ->
  exists g' t',
    (if g then let* l := still_rooted_at el l' in wrk_grown_left b (Node l e (b - 1) r)
     else Ok (false, Node l' e b r)) = Ok (g', t')
    /\ insert_post k v (Node l e b r) g' t'.
Proof.
  intros Ha Hs Hel Hpost Hk. unfold insert_post in *. rewrite elements_node in Hs |- *.
  rewrite find_key_node by done. pose proof Ha as (_ & _ & _ & Hb).
  assert (Hc : cmp k e < 0) by (cbn; lia). destruct (Z.ltb_spec (cmp k e) 0); [|lia].
  destruct (find_key k (elements l)) as [x|].
  - destruct Hpost as (-> & Ha' & He' & Hd'). do 2 eexists. split; [reflexivity|]. split; [done|].
    destruct (avl_replace_left l e b r l' Ha Ha' Hd') as [??]. split_and!; [done| |done].
    rewrite elements_node, He', put_node by done. by destruct (Z.ltb_spec 0 (kCmp (fst e) k)); [|lia].
  - destruct (insert_left (k, v) l e b r g l' el Ha Hel Hpost Hc) as (g' & t' & Heq & Hins).
    exists g', t'. split; [|done]. rewrite <-Heq. destruct g; [|done].
    rewrite still_rooted_at_ok by (rewrite <-Hel; by apply (ins_root _ _ _ _ Hpost)). cbn [obind].
    apply wrk_grown_left_eq; [|done]. apply Hpost.
Qed.

Lemma insert_post_right k v l e b r g r' er :
  avl (Node l e b r) -> sorted (elements (Node l e b r)) -> root_elem r = Some er ->
  insert_post k v r g r' -> kCmp (fst e) k < 0 ->
  exists g' t',
    (if g then let* r := still_rooted_at er r' in wrk_grown_right b (Node l e (b + 1) r)
     else Ok (false, Node l e b r')) = Ok (g', t')
    /\ insert_post k v (Node l e b r) g' t'.
Proof.
  intros Ha Hs Her Hpost Hk. unfold insert_post in *. pose proof Hs as Hs'. rewrite elements_node in Hs |- *.
  rewrite find_key_node by done. pose proof Ha as (_ & _ & _ & Hb).
  assert (Hc : 0 < cmp k e) by (cbn; lia). destruct (Z.ltb_spec (cmp k e) 0); [lia|].
  destruct (Z.ltb_spec 0 (cmp k e)); [|lia]. destruct (find_key k (elements r)) as [x|].
  - destruct Hpost as (-> & Ha' & He' & Hd'). do 2 eexists. split; [reflexivity|]. split; [done|].
    destruct (avl_replace_right l e b r r' Ha Ha' Hd') as [??]. split_and!; [done| |done].
    rewrite elements_node, He', put_node by done.
    destruct (Z.ltb_spec 0 (kCmp (fst e) k)); [lia|]. by destruct (Z.ltb_spec (kCmp (fst e) k) 0); [|lia].
  - destruct (insert_right (k, v) l e b r g r' er Ha Hs' Her Hpost Hc) as (g' & t' & Heq & Hins).
    exists g', t'. split; [|done]. rewrite <-Heq. destruct g; [|done].
    rewrite still_rooted_at_ok by (rewrite <-Her; by apply (ins_root _ _ _ _ Hpost)). cbn [obind].
    apply wrk_grown_right_eq; [|done]. apply Hpost.
Qed.

(** The replaced value is passed up beside the result. *)
Lemma with_old {A B C D} (m : outcome A) (f : A -> outcome (B * C)) (o : D) (g : bool) z gt :
  (if g then let* a := m in f a else Ok z) = Ok gt ->
  (if g then let* a := m in let* (x, y) := f a in Ok (x, o, y) else Ok (fst z, o, snd z))
  = Ok (fst gt, o, snd gt).
Proof.
  destruct g; [|by intros [= <-]]. intros (a & -> & Hf)%bind_Ok_inv. cbn. rewrite Hf. by destruct gt.
Qed.

Lemma avl_insert_wrk_spec t k v : t <> Leaf -> avl t -> sorted (elements t) ->
  exists g t', avl_insert_wrk t (k, v) = Ok (g, assoc k (elements t), t') /\ insert_post k v t g t'.
Proof.
  induction t as [|l IHl e b r IHr]; [done|]. intros _ Ha Hs.
  pose proof Ha as (Hl & Hr & Hb & Hb'). pose proof Hs as Hs2. rewrite elements_node in Hs2.
  pose proof (find_key_node k _ _ _ Hs2) as Hfind. cbn [cmp fm_cmp] in Hfind.
  pose proof (put_node k v _ _ _ Hs2) as Hput.
  apply sorted_node in Hs2 as (Hsl & Hsr & _). cbn [avl_insert_wrk fst snd].
  destruct (Z.ltb_spec 0 (kCmp (fst e) k)) as [Hgt|]; [|destruct (Z.ltb_spec (kCmp (fst e) k) 0) as [Hlt|]].
  - destruct (Z.ltb_spec (- kCmp (fst e) k) 0); [|lia].
    destruct l as [|ll el bl lr].
    + do 2 eexists. unfold assoc, insert_post. rewrite elements_node, Hfind. split; [reflexivity|]. cbn [find_key elements List.find].
      split; [| |avl_facts|done|intros ->%Z.eqb_eq; by right].
      * avl_facts. split_and!; done || lia.
      * rewrite <-put_insert by (by rewrite elements_node, Hfind). rewrite !elements_node, Hput. done.
      * destruct (Z.eqb_spec b 0); cbn [Z_of_bool]; lia.
    + destruct (IHl ltac:(done) Hl Hsl) as (g & l' & -> & Hpost). cbn [obind].
      destruct (insert_post_left k v _ _ _ _ _ _ el Ha Hs eq_refl Hpost Hgt) as (g' & t' & Heq & Hpost').
      exists g', t'. split; [|done]. apply (with_old _ _ (assoc k (elements (Node ll el bl lr)))) in Heq.
      unfold assoc in *. rewrite (elements_node _ e), Hfind. exact Heq.
  - destruct (Z.ltb_spec (- kCmp (fst e) k) 0); [lia|]. destruct (Z.ltb_spec 0 (- kCmp (fst e) k)); [|lia].
    destruct r as [|rl er br rr].
    + do 2 eexists. unfold assoc, insert_post. rewrite elements_node, Hfind. split; [reflexivity|]. cbn [find_key elements List.find].
      split; [| |avl_facts|done|intros ->%Z.eqb_eq; by left].
      * avl_facts. split_and!; done || lia.
      * rewrite <-put_insert by (by rewrite elements_node, Hfind). rewrite !elements_node, Hput. done.
      * destruct (Z.eqb_spec b 0); cbn [Z_of_bool]; lia.
    + destruct (IHr ltac:(done) Hr Hsr) as (g & r' & -> & Hpost). cbn [obind].
      destruct (insert_post_right k v _ _ _ _ _ _ er Ha Hs eq_refl Hpost Hlt) as (g' & t' & Heq & Hpost').
      exists g', t'. split; [|done]. apply (with_old _ _ (assoc k (elements (Node rl er br rr)))) in Heq.
      unfold assoc in *. rewrite (elements_node _ e), Hfind. exact Heq.
  - destruct (Z.ltb_spec (- kCmp (fst e) k) 0); [lia|]. destruct (Z.ltb_spec 0 (- kCmp (fst e) k)); [lia|].
    do 2 eexists. unfold assoc, insert_post. rewrite elements_node, Hfind. split; [reflexivity|].
    split_and!; [done|done| |done]. by rewrite elements_node, Hput.
Qed.

(** ** Deletion *)

(** The comparisons of the two modules, as tests. *)
Lemma cmp_tests k (e : K * V) :
  (cmp k e <? 0) = (0 <? kCmp (fst e) k) /\ (0 <? cmp k e) = (kCmp (fst e) k <? 0)
  /\ (cmp k e =? 0) = (kCmp (fst e) k =? 0).
Proof.
  cbn. destruct (Z.ltb_spec (- kCmp (fst e) k) 0), (Z.ltb_spec 0 (kCmp (fst e) k)),
    (Z.ltb_spec 0 (- kCmp (fst e) k)), (Z.ltb_spec (kCmp (fst e) k) 0),
    (Z.eqb_spec (- kCmp (fst e) k) 0), (Z.eqb_spec (kCmp (fst e) k) 0); try lia; done.
Qed.

Lemma avl_remove_wrk_eq fuel t (a : K * V) : avl t -> avl_remove_wrk fuel t a = avl_remove fuel t a.
Proof.
  revert t a. induction fuel as [|fuel IH]; intros t a Ha; [done|]. destruct t as [|l e b r]; [done|].
  pose proof Ha as (Hl & Hr & _ & Hb). cbn [avl_remove_wrk avl_remove].
  destruct (cmp_tests (key a) e) as (-> & -> & _). change (key a) with (fst a).
  destruct (0 <? kCmp (fst e) (fst a)); [|destruct (kCmp (fst e) (fst a) <? 0)].
  - rewrite IH by done. destruct l as [|ll el bl lr]; [done|].
    destruct (avl_remove fuel (Node ll el bl lr) a) as [[[] l']|]; [|done..]. cbn [obind].
    by apply wrk_shrunk_left_eq.
  - rewrite IH by done. destruct r as [|rl er br rr]; [done|].
    destruct (avl_remove fuel (Node rl er br rr) a) as [[[] r']|]; [|done..]. cbn [obind].
    by apply wrk_shrunk_right_eq.
  - destruct (assert_that (bool_decide (e = a))); [|done]. cbn [obind]. unfold avl_removeroot_wrk, avl_removeroot.
    destruct l as [|ll el bl lr]; [done|]. destruct r as [|rl er br rr]; [done|].
    destruct (if b <? 0 then _ else _) as [n|]; [|done]. cbn [obind]. by rewrite IH.
Qed.

(** ** Well-formed maps *)

Record wf_fm fm : Prop := {
  fm_avl : avl (fm_root fm);
  fm_sorted : sorted (elements (fm_root fm))
}.

(** The bindings, in the order of their keys. *)
Definition bindings fm : list (K * V) := elements (fm_root fm).

Lemma newFM_ok : wf_fm newFM /\ bindings newFM = [].
Proof. split; [split; [done|constructor]|done]. Qed.

Lemma lookupFM_ok fm k : wf_fm fm -> lookupFM fm k = assoc k (bindings fm).
Proof. intros [_ Hs]. unfold lookupFM, assoc. by rewrite avl_find_node_eq, avl_lookup_spec. Qed.

Lemma find_key_put_fst k v xs x : find_key k xs = Some x -> exists ys zs, xs = ys ++ x :: zs.
Proof.
  intros Hx. apply find_key_Some in Hx as [Hin _]. apply list_elem_of_split in Hin as (ys & zs & ->). eauto.
Qed.

(** The list with a new value at a key that is there has the same keys. *)
Lemma put_keys k v xs : sorted xs -> find_key k xs <> None -> map fst (put k v xs) = map fst xs.
Proof.
  intros Hs Hf. destruct (find_key k xs) as [x|] eqn:Hx; [|done].
  pose proof Hx as [_ Hc]%find_key_Some. apply (find_key_put_fst k v) in Hx as (ys & zs & ->). rewrite put_node by done.
  cbn in Hc. destruct (Z.ltb_spec 0 (kCmp (fst x) k)); [lia|]. destruct (Z.ltb_spec (kCmp (fst x) k) 0); [lia|].
  by rewrite !map_app.
Qed.

(** Being sorted depends on the keys. *)
Lemma sorted_keys (V' : Type) xs (ys : list (K * V')) : map fst ys = map fst xs -> sorted xs -> sorted ys.
Proof.
  revert ys. induction xs as [|x xs IH]; intros [|y ys] Hk Hs; try discriminate; [constructor|].
  injection Hk as Hy Hk. inversion Hs as [|? ? Hs' Hf]; subst. constructor; [by apply IH|].
  rewrite List.Forall_forall in Hf |- *. intros z Hz. apply (in_map fst) in Hz. rewrite Hk in Hz.
  apply in_map_iff in Hz as (w & Hw & Hz). specialize (Hf w Hz). unfold before in *. cbn in *. by rewrite <-Hw, Hy.
Qed.

Lemma put_sorted k v xs : sorted xs -> sorted (put k v xs).
Proof.
  intros Hs. destruct (find_key k xs) as [x|] eqn:Hx.
  - eapply sorted_keys; [|exact Hs]. apply put_keys; [done|by rewrite Hx].
  - rewrite put_insert by done. apply insert_sorted_sorted; [done|]. by apply find_key_None.
Qed.

Lemma addToFM_ok fm k v : wf_fm fm -> exists fm', addToFM fm k v = Ok fm' /\ wf_fm fm'
  /\ bindings fm' = put k v (bindings fm) /\ fm_stack fm' = fm_stack fm.
Proof.
  intros [Ha Hs]. unfold addToFM, bindings. destruct (fm_root fm) as [|l e b r] eqn:Hroot.
  { cbn [avl_insert_wrk obind]. eexists. split; [reflexivity|]. split; [|done].
    split; [cbn; split_and!; (done || lia)|repeat constructor]. }
  destruct (avl_insert_wrk_spec (Node l e b r) k v ltac:(done) Ha Hs) as (g & t' & -> & Hpost). cbn [obind].
  eexists. split; [reflexivity|]. cbn [fm_root fm_stack]. unfold insert_post in Hpost.
  assert (avl t' /\ elements t' = put k v (elements (Node l e b r))) as [Ha' He'].
  { destruct (find_key k _) eqn:Hf; [tauto|]. rewrite put_insert by done. split; apply Hpost. }
  split_and!; [|done|done]. split; cbn [fm_root]; [done|]. rewrite He'. by apply put_sorted.
Qed.

Lemma delFromFM_ok fm k : wf_fm fm -> exists fm',
  delFromFM fm k = Ok (assoc k (bindings fm), fm') /\ wf_fm fm'
  /\ bindings fm' = delete_key k (bindings fm) /\ fm_stack fm' = fm_stack fm.
Proof.
  intros [Ha Hs]. unfold delFromFM, bindings, assoc. rewrite avl_find_node_eq, avl_lookup_spec by done.
  destruct (find_key k (elements (fm_root fm))) as [x|] eqn:Hx.
  - pose proof Hx as [Hin Heq]%find_key_Some. rewrite avl_remove_wrk_eq by done.
    destruct (avl_remove_spec (remove_fuel (fm_root fm)) (fm_root fm) x) as (ch & t' & -> & [Ha' He' _]);
      try done; [unfold remove_fuel; lia|]. cbn [obind]. eexists. split; [reflexivity|]. cbn [fm_root fm_stack].
    assert (Hdel : delete_key (key x) (elements (fm_root fm)) = delete_key k (elements (fm_root fm))).
    { rewrite cmp_key in Heq. unfold delete_key. apply List.filter_ext. intros y. f_equal.
      by apply kcmp_eq_test. }
    split_and!; [|by rewrite <-Hdel|done]. split; cbn [fm_root]; [done|]. rewrite He'. by apply delete_key_sorted.
  - eexists. split; [reflexivity|]. split_and!; [done| |done]. symmetry. apply delete_key_id. by apply find_key_None.
Qed.

(** ** Laws of lookup *)

Lemma kCmp_sym0 (x y : K) : kCmp x y = 0 <-> kCmp y x = 0.
Proof. pose proof (kCmp_antisym x y). destruct (kCmp x y), (kCmp y x); cbn in *; lia. Qed.

Lemma kCmp_eq_iff (x y z : K) : kCmp x y = 0 -> kCmp x z = 0 <-> kCmp y z = 0.
Proof.
  intros Hxy. pose proof (kcmp_eq_iff (E := K * V) x y z) as Hi. cbn in Hi.
  pose proof (kCmp_sym0 x y). pose proof (kCmp_sym0 x z). pose proof (kCmp_sym0 y z).
  assert (Hopp : forall a, - a = 0 <-> a = 0) by lia. rewrite !Hopp in Hi. tauto.
Qed.

Lemma assoc_put k v xs k' : sorted xs ->
  assoc k' (put k v xs) = if kCmp k k' =? 0 then Some v else assoc k' xs.
Proof.
  intros Hs. unfold assoc, find_key. induction xs as [|x xs IH]; cbn [put List.find].
  { destruct (cmp_tests k' (k, v)) as (_ & _ & ->). cbn. by case_test. }
  destruct (Z.ltb_spec 0 (kCmp (fst x) k)); [|destruct (Z.eqb_spec (kCmp (fst x) k) 0) as [Hx|]]; cbn [List.find].
  - destruct (cmp_tests k' (k, v)) as (_ & _ & ->). cbn [fst]. by case_test.
  - destruct (cmp_tests k' (fst x, v)) as (_ & _ & ->). destruct (cmp_tests k' x) as (_ & _ & ->). cbn [fst].
    pose proof (kCmp_eq_iff (fst x) k k' Hx).
    destruct (Z.eqb_spec (kCmp (fst x) k') 0), (Z.eqb_spec (kCmp k k') 0); (done || tauto).
  - inversion Hs as [|? ? Hs' Hf]; subst. specialize (IH Hs').
    destruct (cmp_tests k' x) as (_ & _ & ->). destruct (Z.eqb_spec (kCmp (fst x) k') 0) as [Hx|]; [|done].
    destruct (Z.eqb_spec (kCmp k k') 0) as [Hk|]; [|done]. apply kCmp_sym0 in Hx, Hk.
    pose proof (kCmp_eq_iff k' k (fst x) Hk) as [Hi _]. by apply Hi, kCmp_sym0 in Hx.
Qed.

Lemma assoc_delete k xs k' :
  assoc k' (delete_key k xs) = if kCmp k k' =? 0 then None else assoc k' xs.
Proof.
  unfold assoc. rewrite find_delete_key. pose proof (kCmp_sym0 k k'). cbn [kcmp fm_order].
  destruct (Z.eqb_spec (- kCmp k' k) 0), (Z.eqb_spec (kCmp k k') 0); (done || lia).
Qed.

Lemma assoc_elem xs k v : sorted xs -> (k, v) ∈ xs -> assoc k xs = Some v.
Proof.
  intros Hs Hin. apply list_elem_of_split in Hin as (ys & zs & ->). unfold assoc.
  rewrite find_key_node by done. destruct (cmp_tests k (k, v)) as (-> & -> & _). cbn [fst].
  pose proof (kCmp_antisym k k). destruct (kCmp k k); cbn in *; try lia. done.
Qed.

(** ** Changing a value through its pointer *)

Lemma poke_ok t k v : sorted (elements t) -> find_key k (elements t) <> None ->
  elements (poke t k v) = put k v (elements t) /\ depth (poke t k v) = depth t /\ (avl t -> avl (poke t k v)).
Proof.
  induction t as [|l IHl e b r IHr]; [done|]. intros Hs. rewrite elements_node in Hs |- *.
  rewrite find_key_node, put_node by done. destruct (cmp_tests k e) as (-> & -> & _).
  apply sorted_node in Hs as (Hsl & Hsr & _). cbn [poke].
  destruct (0 <? kCmp (fst e) k); [|destruct (kCmp (fst e) k <? 0)]; intros Hf.
  - destruct (IHl Hsl Hf) as (He & Hd & Ha). cbn. rewrite He, Hd. split_and!; [done|done|]. intros (? & ? & ?). tauto.
  - destruct (IHr Hsr Hf) as (He & Hd & Ha). cbn. rewrite He, Hd. split_and!; [done|done|]. intros (? & ? & ?). tauto.
  - done.
Qed.

Lemma pokeFM_ok fm k v : wf_fm fm -> lookupFM fm k <> None ->
  wf_fm (pokeFM fm k v) /\ bindings (pokeFM fm k v) = put k v (bindings fm).
Proof.
  intros Hwf. rewrite lookupFM_ok by done. destruct Hwf as [Ha Hs]. unfold assoc, bindings. intros Hl.
  destruct (poke_ok (fm_root fm) k v Hs) as (He & _ & Hp); [by intros Hn; rewrite Hn in Hl|].
  split; [|done]. split; cbn [fm_root pokeFM]; [by apply Hp|]. rewrite He. by apply put_sorted.
Qed.

Lemma sizeFM_ok fm : sizeFM fm = Ok (Z.of_nat (length (bindings fm))).
Proof.
  unfold sizeFM, bindings. rewrite length_elements.
  assert (Hgen : forall t, t <> Leaf -> size_avl_nonNull t = Ok (Z.of_nat (tree_size t))).
  { induction t as [|l IHl e b r IHr]; [done|]. intros _. cbn.
    destruct l as [|ll el bl lr], r as [|rl er br rr]; rewrite ?IHl, ?IHr by done; cbn [obind]; f_equal;
      cbn [tree_size]; lia. }
  destruct (fm_root fm); [done|]. by apply Hgen.
Qed.

(** ** The iterator *)

(** The pops still needed to empty the stack. *)
Definition visits (n : tree (K * V)) (i : Z) : nat :=
  match n with
  | Leaf => O
  | Node l _ _ r =>
      if i =? 1 then (3 + 3 * tree_size l + 3 * tree_size r)%nat
      else if i =? 2 then (2 + 3 * tree_size r)%nat else (1 + 3 * tree_size r)%nat
  end.
Fixpoint all_visits (s : list (tree (K * V) * Z)) : nat :=
  match s with [] => O | (n, i) :: s => (visits n i + all_visits s)%nat end.

Lemma all_visits_le s : (all_visits s <= foldr (fun x n => 3 * tree_size (fst x) + n)%nat O s)%nat.
Proof.
  induction s as [|[n i] s IH]; [done|]. cbn [all_visits foldr fst].
  destruct n as [|l e b r]; cbn [visits tree_size]; [lia|]. destruct (i =? 1), (i =? 2); lia.
Qed.

Lemma push_child_visits s (c : tree (K * V)) : stack_ok s -> (length s + depth c <= STACK_MAX)%nat ->
  exists s', match c with Leaf => Ok s | Node _ _ _ _ => stackPush s c 1 end = Ok s' /\ stack_ok s'
    /\ remaining s' = elements c ++ remaining s /\ all_visits s' = (3 * tree_size c + all_visits s)%nat.
Proof.
  intros Hs Hd. destruct (push_child_ok s c Hs Hd) as (s' & Heq & Hs' & Hrem & _). exists s'.
  split_and!; [done|done|done|]. destruct c as [|l e b r]; [by injection Heq as ->|].
  rewrite stackPush_ok in Heq by (done || lia). injection Heq as <-.
  cbn [all_visits visits tree_size Z.eqb Pos.eqb]. lia.
Qed.

Lemma nextIter_loop_ok fuel (s : list (tree (K * V) * Z)) : stack_ok s -> (all_visits s < fuel)%nat ->
  exists s', nextIter_loop fuel s = Ok (head (remaining s), s') /\ stack_ok s'
    /\ remaining s' = tail (remaining s).
Proof.
  revert s. induction fuel as [|fuel IH]; intros s Hs Hf; [lia|]. cbn [nextIter_loop].
  rewrite assert_that_true by (apply Nat.leb_le, stack_ok_length, Hs). cbn [obind].
  destruct s as [|[n i] s]; [by exists []|]. destruct Hs as (Hn & Hi & Hd & Hs).
  destruct n as [|l e b r]; [done|]. cbn [depth] in Hd. cbn [all_visits visits] in Hf.
  assert (Hk : forall j : Z, 1 <= j <= 3 -> stack_ok ((Node l e b r, j) :: s))
    by (intros j Hj; cbn [stack_ok depth]; split_and!; (done || lia)).
  assert (i = 1 \/ i = 2 \/ i = 3) as [-> | [-> | ->]] by lia; cbn [Z.eqb Pos.eqb] in Hf;
    cbn [Z.leb Z.compare Pos.compare Pos.compare_cont andb assert_that obind Z.eqb Pos.eqb].
  - rewrite stackPush_ok by (done || cbn [depth]; lia). cbn [obind].
    destruct (push_child_visits _ l (Hk 2 ltac:(lia))) as (s' & -> & Hs' & Hrem & Hr); [cbn [length]; lia|].
    cbn [obind]. destruct (IH s' Hs') as (s'' & Heq & Hs'' & Hrem'').
    { rewrite Hr. cbn [all_visits visits Z.eqb Pos.eqb]. lia. }
    exists s''. rewrite Heq, Hrem'', Hrem. cbn [remaining pending Z.eqb Pos.eqb]. by rewrite <-app_assoc.
  - rewrite stackPush_ok by (done || cbn [depth]; lia). cbn [obind]. eexists. split; [reflexivity|].
    split; [by apply (Hk 3)|done].
  - destruct (push_child_visits s r Hs) as (s' & -> & Hs' & Hrem & Hr); [lia|]. cbn [obind].
    destruct (IH s' Hs') as (s'' & Heq & Hs'' & Hrem''); [lia|].
    exists s''. by rewrite Heq, Hrem'', Hrem.
Qed.

Lemma nextIterFM_ok fm : stack_ok (fm_stack fm) ->
  exists s', nextIterFM fm = Ok (head (remaining (fm_stack fm)), mk_WordFM (fm_root fm) s')
    /\ stack_ok s' /\ remaining s' = tail (remaining (fm_stack fm)).
Proof.
  intros Hs. unfold nextIterFM. pose proof (all_visits_le (fm_stack fm)).
  destruct (nextIter_loop_ok (iter_fuel (fm_stack fm)) (fm_stack fm) Hs) as (s' & -> & Hs' & Hrem);
    [unfold iter_fuel; lia|]. by exists s'.
Qed.

Lemma iterate_loop_ok {S : Type} fuel fm (body : K -> V -> S -> outcome S) (s : S) :
  stack_ok (fm_stack fm) -> (length (remaining (fm_stack fm)) < fuel)%nat ->
  iterate_loop fuel fm body s = ofold (fun x s => body (fst x) (snd x) s) (remaining (fm_stack fm)) s.
Proof.
  revert fm s. induction fuel as [|fuel IH]; intros fm s Hs Hf; [lia|]. cbn [iterate_loop].
  destruct (nextIterFM_ok fm Hs) as (s' & -> & Hs' & Hrem). cbn [obind].
  destruct (remaining (fm_stack fm)) as [|[k v] l] eqn:Hr; [done|]. cbn [head ofold fst snd].
  destruct (body k v s) as [s1|]; [|done]. cbn [obind].
  rewrite IH; cbn [fm_stack]; [by rewrite Hrem|done|]. rewrite Hrem. cbn [length tail] in *. lia.
Qed.

(** A map small enough for the stack of the iterator. *)
Definition small_fm fm : Prop := Z.of_nat (length (bindings fm)) < 9227464.

Lemma iterateFM_ok {S : Type} fm (body : K -> V -> S -> outcome S) (s : S) : wf_fm fm -> small_fm fm ->
  iterateFM fm body s = ofold (fun x s => body (fst x) (snd x) s) (bindings fm) s.
Proof.
  intros [Ha _] Hsz. unfold small_fm, bindings in *. rewrite length_elements in Hsz.
  pose proof (small_depth _ Ha Hsz) as Hd. unfold iterateFM, initIterFM.
  destruct (push_child_ok [] (fm_root fm) I Hd) as (s' & -> & Hs' & Hrem & _). cbn [obind fm_root].
  cbn [remaining] in Hrem. rewrite app_nil_r in Hrem.
  rewrite iterate_loop_ok; cbn [fm_stack fm_root]; [by rewrite Hrem|done|]. rewrite Hrem, length_elements. lia.
Qed.

(** ** Copying and freeing *)

Lemma avl_dopy_ok t (dopyK : K -> K) (dopyV : V -> V) :
  elements (avl_dopy t dopyK dopyV) = map (fun x => (dopyK (fst x), dopyV (snd x))) (elements t)
  /\ depth (avl_dopy t dopyK dopyV) = depth t /\ (avl t -> avl (avl_dopy t dopyK dopyV)).
Proof.
  induction t as [|l (Hl & Hdl & Hal) e b r (Hr & Hdr & Har)]; [done|]. cbn.
  rewrite Hl, Hr, Hdl, Hdr, map_app. split_and!; [done|done|]. intros (? & ? & ?). tauto.
Qed.

(** A copy with equal keys and values is the same map. *)
Lemma dopyFM_ok fm : wf_fm fm -> fm_stack fm = [] ->
  exists fm', dopyFM fm id id = Ok fm' /\ wf_fm fm' /\ bindings fm' = bindings fm /\ fm_stack fm' = [].
Proof.
  intros [Ha Hs] Hst. unfold dopyFM, bindings. rewrite Hst, bool_decide_true by done. cbn [assert_that obind].
  eexists. split; [reflexivity|]. destruct (avl_dopy_ok (fm_root fm) id id) as (He & _ & Hd).
  assert (Hid : elements (avl_dopy (fm_root fm) id id) = elements (fm_root fm)).
  { rewrite He. rewrite <-(map_id (elements (fm_root fm))) at 2. apply map_ext. by intros []. }
  split_and!; [|done|done]. split; cbn [fm_root]; [by apply Hd|]. by rewrite Hid.
Qed.

Lemma deleteFM_ok fm : deleteFM fm ≡ₚ bindings fm.
Proof.
  unfold deleteFM, bindings. induction (fm_root fm) as [|l IHl e b r IHr]; [done|]. cbn. rewrite IHl, IHr.
  apply Permutation_app_head. symmetry. apply Permutation_cons_append.
Qed.

(** ** Refinement of a finite map *)

Inductive fm_op := Add (k : K) (v : V) | Del (k : K).

Definition do_op fm (op : fm_op) : outcome (WordFM K V) :=
  match op with Add k v => addToFM fm k v | Del k => let* (_, fm) := delFromFM fm k in Ok fm end.

(** What an operation does to a function from keys to values. *)
Definition update (f : K -> option V) (op : fm_op) : K -> option V :=
  match op with
  | Add k v => fun k' => if kCmp k k' =? 0 then Some v else f k'
  | Del k => fun k' => if kCmp k k' =? 0 then None else f k'
  end.

Lemma do_op_ok fm op : wf_fm fm ->
  exists fm', do_op fm op = Ok fm' /\ wf_fm fm' /\ forall k, lookupFM fm' k = update (lookupFM fm) op k.
Proof.
  intros Hwf. destruct op as [k v|k].
  - destruct (addToFM_ok fm k v Hwf) as (fm' & Heq & Hwf' & Hb & _). exists fm'. split_and!; [done|done|].
    intros k'. cbn [update]. rewrite !lookupFM_ok, Hb by done. apply assoc_put, Hwf.
  - destruct (delFromFM_ok fm k Hwf) as (fm' & Heq & Hwf' & Hb & _). exists fm'. cbn [do_op]. rewrite Heq.
    split_and!; [done|done|]. intros k'. cbn [update]. rewrite !lookupFM_ok, Hb by done. apply assoc_delete.
Qed.

Lemma update_ext (f g : K -> option V) op : (forall k, f k = g k) -> forall k, update f op k = update g op k.
Proof. intros Hfg k. destruct op; cbn; by case_test. Qed.

(** C31: after any sequence of additions and deletions, none of which fails, a
    map that starts empty looks up what the finite function updated in the
    same way gives; its size is the number of its bindings, and, with fewer
    than 9,227,464 of them, the iterator goes through each once, in increasing
    order of the keys and with the value lookup finds. *)
Theorem wordfm_refines_map (ops : list fm_op) :
  exists fm, ofold (fun op fm => do_op fm op) ops newFM = Ok fm
    /\ (forall k, lookupFM fm k = foldl update (fun _ => None) ops k)
    /\ exists xs, sizeFM fm = Ok (Z.of_nat (length xs)) /\ sorted xs
      /\ (forall k v, (k, v) ∈ xs -> lookupFM fm k = Some v)
      /\ (forall k v, lookupFM fm k = Some v -> exists k', kCmp k k' = 0 /\ (k', v) ∈ xs)
      /\ (Z.of_nat (length xs) < 9227464 -> iterateFM fm (fun k v ys => Ok (ys ++ [(k, v)])) [] = Ok xs).
Proof.
  assert (H : forall f fm, wf_fm fm -> (forall k, lookupFM fm k = f k) ->
    exists fm', ofold (fun op fm => do_op fm op) ops fm = Ok fm' /\ wf_fm fm'
      /\ forall k, lookupFM fm' k = foldl update f ops k).
  { induction ops as [|op ops IH]; intros f fm Hwf Hf; [by exists fm|]. cbn [ofold foldl].
    destruct (do_op_ok fm op Hwf) as (fm1 & -> & Hwf1 & Hl1). cbn [obind]. apply IH; [done|].
    intros k. rewrite Hl1. by apply update_ext. }
  destruct (H (fun _ => None) newFM (proj1 newFM_ok)) as (fm & Hrun & Hwf & Hl); [done|].
  exists fm. split; [done|]. split; [done|]. exists (bindings fm). split_and!.
  - apply sizeFM_ok.
  - apply Hwf.
  - intros k v Hin. rewrite lookupFM_ok by done. by apply assoc_elem; [apply Hwf|].
  - intros k v. rewrite lookupFM_ok by done. unfold assoc. intros ([k' v'] & Hk & ->)%fmap_Some.
    apply find_key_Some in Hk as [Hin Hc]. exists k'. split; [|done]. cbn in Hc. apply kCmp_sym0. lia.
  - intros Hsz. rewrite iterateFM_ok by done. clear. generalize (bindings fm). intros xs.
    assert (Hgen : forall ys, ofold (fun x s => Ok (s ++ [(fst x, snd x)])) xs ys = Ok (ys ++ xs)).
    { induction xs as [|[k v] xs IH]; intros ys; cbn; [by rewrite app_nil_r|]. by rewrite IH, <-app_assoc. }
    apply Hgen.
Qed.

End Spec.

(** ** Unboxed keys *)

Lemma cmp_unboxed_UWord_spec x y :
  (cmp_unboxed_UWord x y < 0 <-> x < y) /\ (cmp_unboxed_UWord x y = 0 <-> x = y)
  /\ (0 < cmp_unboxed_UWord x y <-> y < x).
Proof. unfold cmp_unboxed_UWord. destruct (Z.ltb_spec x y), (Z.ltb_spec y x); lia. Qed.

#[export] Instance UWord_order : WordOrder Z.
Proof.
  split; unfold kCmp, UWord_cmp.
  - intros x y. unfold cmp_unboxed_UWord. destruct (Z.ltb_spec x y), (Z.ltb_spec y x); try lia; done.
  - intros x y z. rewrite !(proj1 (cmp_unboxed_UWord_spec _ _)). lia.
  - intros x y z. rewrite !(proj1 (cmp_unboxed_UWord_spec _ _)), (proj1 (proj2 (cmp_unboxed_UWord_spec _ _))). lia.
Qed.

(** Three additions, one of them of a key that is there, and a deletion. *)
Lemma wordfm_refines_map_witness :
  exists fm : WordFM Z Z,
    ofold (fun op fm => do_op fm op) [Add 2 20; Add 1 10; Add 2 21; Del 1] newFM = Ok fm
    /\ lookupFM fm 2 = Some 21 /\ lookupFM fm 1 = None.
Proof.
  destruct (wordfm_refines_map (K := Z) (V := Z) [Add 2 20; Add 1 10; Add 2 21; Del 1]) as (fm & Hrun & Hl & _).
  exists fm. split; [exact Hrun|]. by rewrite !Hl.
Defined.
