(* ===== verification/Merge.v ===== *)
(** * Merging of output files: cachegrind/cg_merge.c

    A program of its own, on the C library of the host: [strcmp], [strncmp] and
    [isspace] are those of LibcBase.v (the locale is "C"), and a [Word] has 64
    bits.  A file is the string of its characters.  [parseError], [barf],
    [mallocFail] and [usage] end the process with exit code 1; their messages
    are left out, and allocation succeeds.  The [int] counters of characters,
    events and numbers in a line are unbounded: they would overflow for lines
    of 2 GB only.  Profiles and counts are values: the
    code copies them where two profiles would share them. *)

From S2P Require Import Prelude LibcBase Printf OSet WordFM.

(** ** The C library *)

Definition streqn (s1 s2 : string) (n : nat) : bool := VG_strncmp s1 s2 n =? 0.
Definition streq (s1 s2 : string) : bool := VG_strcmp s1 s2 =? 0.

Definition isalpha (c : Z) : bool := ((65 <=? c) && (c <=? 90)) || ((97 <=? c) && (c <=? 122)).

(** ["%ld"] and ["%lld"], which print a [ULong] as signed. *)
Definition fmt_lld (z : Z) : string :=
  String.string_of_list_ascii
    ((if s64 z <? 0 then [char_of 45] else []) ++ dec_string (Z.abs (s64 z))).

(** The characters before the first NUL. *)
Fixpoint c_string (s : string) : string :=
  match s with
  | EmptyString => EmptyString
  | String c s' => if code c =? 0 then EmptyString else String c (c_string s')
  end.

(** [s + n], inside the string. *)
Fixpoint skip_chars (n : nat) (s : string) : string :=
  match n with O => s | S n => skip_chars n (tl0 s) end.

(** ** Reading lines *)

(** [parseError] and the like. *)
Definition parseError {A} : outcome A := Err (Exited 1).

(** The characters up to a newline or the end, and those after. *)
Fixpoint read_chars (fp : string) : string * string :=
  match fp with
  | EmptyString => (EmptyString, EmptyString)
  | String ch fp' =>
      if code ch =? 10 then (EmptyString, fp')
      else let '(line, rest) := read_chars fp' in (String ch line, rest)
  end.

(** [None] at the end of the file. *)
Definition readline (fp : string) : option string * string :=
  match fp with
  | EmptyString => (None, EmptyString)
  | String _ _ => let '(line, rest) := read_chars fp in (Some (c_string line), rest)
  end.

(** ** Data *)

Record FileFn := mk_FileFn { fi_name : string; fn_name : string }.

#[export] Instance FileFn_eq_dec : EqDecision FileFn.
Proof. solve_decision. Defined.

(** The vector [counts]; [n_counts] is its length. *)
Abbreviation Counts := (list Z).
Definition n_counts (c : Counts) : Z := Z.of_nat (length c).
Definition new_Counts_Zeroed (n : Z) : Counts := replicate (Z.to_nat n) 0.

Definition cmp_FileFn (ff1 ff2 : FileFn) : Z :=
  let r := VG_strcmp (fi_name ff1) (fi_name ff2) in
  if r =? 0 then VG_strcmp (fn_name ff1) (fn_name ff2) else r.
#[export] Instance FileFn_cmp : WordCmp FileFn := cmp_FileFn.

Abbreviation InnerMap := (WordFM Z Counts).

(** [summary_line] is [NULL] but while a file is parsed. *)
Record CacheProfFile := mk_CacheProfFile {
  desc_lines : list string;
  cmd_line : string;
  merge_events_line : string;
  n_events : Z;
  outerMap : WordFM FileFn InnerMap;
  summary : Counts
}.

#[export] Instance CacheProfFile_eta : RecordEta CacheProfFile := fun p =>
  mk_CacheProfFile (desc_lines p) (cmd_line p) (merge_events_line p) (n_events p) (outerMap p) (summary p).

(** ** Writing a profile *)

Definition showCounts (f : string) (c : Counts) : string :=
  foldl (fun f n => (f +:+ fmt_lld n +:+ " ")%string) f c.

(** [f] is what has been written. *)
Definition show_CacheProfFile (f : string) (cpf : CacheProfFile) : outcome string :=
  let f := foldl (fun f d => (f +:+ d +:+ newline)%string) f (desc_lines cpf) in
  let f := (f +:+ cmd_line cpf +:+ newline)%string in
  let f := (f +:+ merge_events_line cpf +:+ newline)%string in
  let* f := iterateFM (outerMap cpf) (fun topKey topVal f =>
    let f := (f +:+ "fl=" +:+ fi_name topKey +:+ newline +:+ "fn=" +:+ fn_name topKey +:+ newline)%string in
    iterateFM topVal (fun subKey subVal f =>
      Ok (showCounts (f +:+ fmt_lld subKey +:+ "   ") subVal +:+ newline)%string) f) f in
  let f := (f +:+ "summary:")%string in
  let f := foldl (fun f n => (f +:+ " " +:+ fmt_lld n)%string) f (summary cpf) in
  Ok (f +:+ newline)%string.

(** ** Parsing numbers *)

(** [while (isdigit( *ptr)) { u64 = (u64 * 10) + (ULong)( *ptr - '0'); ptr++; }]. *)
Fixpoint ulong_digits (ptr : string) (n : Z) : Z * string :=
  match ptr with
  | String c ptr' =>
      if VG_isdigit (code c) then ulong_digits ptr' (u64 (u64 (n * 10) + (code c - 48))) else (n, ptr)
  | EmptyString => (n, ptr)
  end.

Definition parse_ULong (ptr : string) : option Z * string :=
  let ptr := skip_spaces ptr in
  if negb (VG_isdigit (hd0 ptr)) then (None, ptr)
  else let '(n, ptr) := ulong_digits ptr 0 in (Some n, ptr).

Fixpoint split_loop (fuel : nat) (str : string) (tmpC : list Z) : outcome (list Z * string) :=
  match fuel with
  | O => Err OutOfFuel
  | S fuel =>
      match parse_ULong str with
      | (None, str) => Ok (tmpC, str)
      | (Some n, str) => split_loop fuel str (tmpC ++ [n])
      end
  end.

(** The line number, when there is one, and the counts; a round takes at least
    a character. *)
Definition splitUpCountsLine (with_lnno : bool) (str : string) : outcome (Z * Counts) :=
  let* (tmpC, str) := split_loop (S (String.length str)) str [] in
  if negb (hd0 str =? 0) then parseError
  else if (length tmpC <? if with_lnno then 2 else 1)%nat then parseError
  else
    match with_lnno, tmpC with
    | true, lnno :: counts => Ok (lnno, counts)
    | _, counts => Ok (0, counts)
    end.

(** ** Tables of counts *)

Definition addCounts (counts1 counts2 : Counts) : outcome Counts :=
  if negb (n_counts counts1 =? n_counts counts2) then parseError
  else Ok (zip_with (fun x y => u64 (x + y)) counts1 counts2).

(** Whether the new counts were added to old ones. *)
Definition addCountsToMap (counts_map : InnerMap) (lnno : Z) (newCounts : Counts) : outcome (bool * InnerMap) :=
  match lookupFM counts_map lnno with
  | Some oldCounts =>
      let* c := addCounts oldCounts newCounts in Ok (true, pokeFM counts_map lnno c)
  | None => let* m := addToFM counts_map lnno newCounts in Ok (false, m)
  end.

Definition handle_counts (cpf : CacheProfFile) (fi fn newCountsStr : string) : outcome CacheProfFile :=
  let* (lnno, newCounts) := splitUpCountsLine true newCountsStr in
  if negb (n_counts newCounts =? n_events cpf) then parseError
  else
    let topKey := mk_FileFn fi fn in
    let* outer :=
      match lookupFM (outerMap cpf) topKey with
      | Some countsMap =>
          let* (_, countsMap) := addCountsToMap countsMap lnno newCounts in
          Ok (pokeFM (outerMap cpf) topKey countsMap)
      | None =>
          let* outer := addToFM (outerMap cpf) topKey newFM in
          let* (_, countsMap) := addCountsToMap newFM lnno newCounts in
          Ok (pokeFM outer topKey countsMap)
      end in
    let* total := addCounts (summary cpf) newCounts in
    Ok (cpf <| outerMap := outer |> <| summary := total |>).

(** ** Parsing a file *)

(** The loop that reads the "desc:" lines: these, the line after them ([None]
    at the end of the file) and the rest. *)
Fixpoint read_desc (fuel : nat) (fp : string) (descs : list string)
  : outcome (list string * option string * string) :=
  match fuel with
  | O => Err OutOfFuel
  | S fuel =>
      match readline fp with
      | (None, fp) => Ok (descs, None, fp)
      | (Some line, fp) =>
          if negb (streqn line "desc: " 6) then Ok (descs, Some line, fp)
          else read_desc fuel fp (descs ++ [line])
      end
  end.

(** The number of places where a letter follows a blank. *)
Fixpoint count_events (p : string) : Z :=
  match p with
  | EmptyString => 0
  | String c p' => (if (code c =? 32) && isalpha (hd0 p') then 1 else 0) + count_events p'
  end.

(** What the loop over the count lines carries. *)
Record parser := mk_parser { p_cpf : CacheProfFile; curr_fl : string; curr_fn : string }.

(** The body of that loop; [None] when it breaks. *)
Definition parse_line (line : string) (p : parser) : outcome (option parser) :=
  if VG_isdigit (hd0 line) then
    let* cpf := handle_counts (p_cpf p) (curr_fl p) (curr_fn p) line in
    Ok (Some (mk_parser cpf (curr_fl p) (curr_fn p)))
  else if streqn line "fn=" 3 then Ok (Some (mk_parser (p_cpf p) (curr_fl p) (skip_chars 3 line)))
  else if streqn line "fl=" 3 then Ok (Some (mk_parser (p_cpf p) (skip_chars 3 line) (curr_fn p)))
  else if streqn line "summary: " 9 then Ok None
  else parseError.

(** The summary line, the rest of the file and the profile. *)
Fixpoint parse_lines (fuel : nat) (fp : string) (p : parser) : outcome (string * string * CacheProfFile) :=
  match fuel with
  | O => Err OutOfFuel
  | S fuel =>
      match readline fp with
      | (None, _) => parseError
      | (Some line, fp) =>
          let* p' := parse_line line p in
          match p' with
          | Some p' => parse_lines fuel fp p'
          | None => Ok (line, fp, p_cpf p)
          end
      end
  end.

(** A line takes at least a character of the file. *)
Definition parse_CacheProfFile (fp : string) : outcome CacheProfFile :=
  let fuel := S (String.length fp) in
  let* (descs, line, fp) := read_desc fuel fp [] in
  if (length descs =? 0)%nat then parseError
  else
    (* streqn(NULL, "cmd: ", 5) when the file ends here *)
    match line with
    | None => Err Undefined
    | Some cmd =>
        if negb (streqn cmd "cmd: " 5) then parseError
        else
          match readline fp with
          | (None, _) => parseError
          | (Some events, fp) =>
              if negb (streqn events "events: " 8) then parseError
              else
                let* _ := assert_that (char_at events 6 =? 58) in
                let n := count_events (skip_chars 6 events) in
                let cpf := mk_CacheProfFile descs cmd events n newFM (new_Counts_Zeroed n) in
                let* (summary_line, fp, cpf) := parse_lines fuel fp (mk_parser cpf "???" "???") in
                if negb (streqn summary_line "summary: " 9) then parseError
                else
                  match readline fp with
                  | (Some _, _) => parseError
                  | (None, _) =>
                      let* (_, summaryRead) := splitUpCountsLine false (skip_chars 8 summary_line) in
                      if negb (n_counts summaryRead =? n_events cpf) then parseError
                      else if negb (bool_decide (summaryRead = summary cpf)) then parseError
                      else Ok cpf
                  end
          end
    end.

(** ** Merging *)

Definition dopy_FileFn (ff : FileFn) : FileFn := mk_FileFn (fi_name ff) (fn_name ff).
Definition dopy_InnerMap (m : InnerMap) : outcome InnerMap := dopyFM m id id.

(** The inner loop: the counts of [src] into the map of [dst]. *)
Definition merge_inner (soVal doVal : InnerMap) : outcome InnerMap :=
  iterateFM soVal (fun siKey siVal doVal =>
    match lookupFM doVal siKey with
    | None => addToFM doVal siKey siVal
    | Some diVal => let* c := addCounts diVal siVal in Ok (pokeFM doVal siKey c)
    end) doVal.

Definition merge_CacheProfInfo (dst src : CacheProfFile) : outcome CacheProfFile :=
  if negb (streq (merge_events_line dst) (merge_events_line src)) then parseError
  else
    let* outer := iterateFM (outerMap src) (fun soKey soVal outer =>
      match lookupFM outer soKey with
      | None => let* c := dopy_InnerMap soVal in addToFM outer (dopy_FileFn soKey) c
      | Some doVal => let* m := merge_inner soVal doVal in Ok (pokeFM outer soKey m)
      end) (outerMap dst) in
    let* total := addCounts (summary dst) (summary src) in
    Ok (dst <| outerMap := outer |> <| summary := total |>).

(** ** The program *)

(** "Scan args, looking for '-o outfilename'": its position and the name. *)
Fixpoint find_outfile (args : list string) (i : nat) : outcome (nat * option string) :=
  match args with
  | [] => Ok (O, None)
  | a :: args =>
      if streq a "-o" then
        match args with name :: _ => Ok (i, Some name) | [] => parseError end
      else find_outfile args (S i)
  end.

(** The files, from the [i]-th argument on; [fopen] reads a file. *)
Fixpoint merge_files (fopen : string -> option string) (outfileix : nat) (args : list string) (i : nat)
    (cpf : option CacheProfFile) : outcome (option CacheProfFile) :=
  match args with
  | [] => Ok cpf
  | a :: args =>
      if (i =? outfileix)%nat then
        match args with
        | [] => Ok cpf
        | _ :: args => merge_files fopen outfileix args (S (S i)) cpf
        end
      else
        match fopen a with
        | None => parseError
        | Some fp =>
            let* cpfTmp := parse_CacheProfFile fp in
            let* cpf :=
              match cpf with
              | None => Ok cpfTmp
              | Some cpf => merge_CacheProfInfo cpf cpfTmp
              end in
            merge_files fopen outfileix args (S i) (Some cpf)
        end
  end.

(** The arguments after the name of the program; the result is the text written
    and the file it is written to ([None] is the standard output). *)
Definition main (fopen : string -> option string) (can_write : string -> bool) (args : list string)
  : outcome (option (option string * string)) :=
  if (length args =? 0)%nat then parseError
  else if existsb (fun a => streq a "-h" || streq a "--help") args then parseError
  else
    let* (outfileix, outfilename) := find_outfile args 1 in
    let* cpf := merge_files fopen outfileix args 1 None in
    match cpf with
    | None => Ok None
    | Some cpf =>
        if match outfilename with Some name => negb (can_write name) | None => false end then parseError
        else let* text := show_CacheProfFile EmptyString cpf in Ok (Some (outfilename, text))
    end.

(** ** Examples *)

Fixpoint unlines (ls : list string) : string :=
  match ls with [] => EmptyString | l :: ls => (l +:+ newline +:+ unlines ls)%string end.

Definition small_file : string :=
  unlines ["desc: I1"; "cmd: prog"; "events: Ir Dr"; "fl=b.c"; "fn=g"; "7 1 2"; "fl=a.c"; "fn=f";
           "12 4 0"; "3 1 1"; "fl=b.c"; "fn=g"; "7 10 20"; "summary: 16 23"].

(** Merging a file with itself doubles the counts; the lines are sorted. *)
Example merged_twice :
  main (fun _ => Some small_file) (fun _ => true) ["x"; "-o"; "out"; "y"]
  = Ok (Some (Some "out"%string,
      unlines ["desc: I1"; "cmd: prog"; "events: Ir Dr"; "fl=a.c"; "fn=f"; "3   2 2 "; "12   8 0 ";
               "fl=b.c"; "fn=g"; "7   22 44 "; "summary: 32 46"])).
Proof. vm_compute. reflexivity. Qed.

(** A file that ends after its "desc:" lines is compared with as a [NULL]. *)
Example desc_lines_only : parse_CacheProfFile (unlines ["desc: I1"]) = Err Undefined.
Proof. vm_compute. reflexivity. Qed.

(** A count from 2^63 on is printed as a negative number, which is an error
    when the result is parsed. *)
Example large_count_negative :
  let file := unlines ["desc: I1"; "cmd: prog"; "events: Ir"; "1 9223372036854775808"; "summary: 9223372036854775808"] in
  match main (fun _ => Some file) (fun _ => true) ["x"]%string with
  | Ok (Some (_, text)) =>
      text = unlines ["desc: I1"; "cmd: prog"; "events: Ir"; "fl=???"; "fn=???"; "1   -9223372036854775808 ";
                      "summary: -9223372036854775808"]
      /\ parse_CacheProfFile text = Err (Exited 1)
  | _ => False
  end.
Proof. vm_compute. split; reflexivity. Qed.
