(* ===== verification/MergeText.v ===== *)
(** * The text of profiles: lines and numbers of cg_merge.c

    What [readline] and [splitUpCountsLine] make of the texts that Cachegrind
    and cg_merge write. *)

From S2P Require Import Prelude LibcBase Printf OSet WordFM Merge.

(** ** Strings *)

(** No NUL and no newline inside: what a line may hold. *)
Fixpoint clean (s : string) : bool :=
  match s with
  | EmptyString => true
  | String c s' => negb (code c =? 0) && negb (code c =? 10) && clean s'
  end.

Lemma clean_app s t : clean (s +:+ t)%string = clean s && clean t.
Proof. induction s as [|c s IH]; [done|]. rewrite string_cons_app. cbn [clean]. by rewrite IH, andb_assoc. Qed.

Lemma clean_nul_free s : clean s = true -> nul_free s = true.
Proof. induction s as [|c s IH]; [done|]. cbn. intros H. zbool. rewrite IH by done. apply Z.eqb_neq in H. by rewrite H. Qed.

Lemma c_string_id s : nul_free s = true -> c_string s = s.
Proof.
  induction s as [|c s IH]; [done|]. cbn. intros [Hc Hs]%andb_true_iff. apply negb_true_iff in Hc.
  by rewrite Hc, IH.
Qed.

Lemma newline_app s : (newline +:+ s)%string = String (char_of 10) s.
Proof. reflexivity. Qed.

Lemma read_chars_line l rest : clean l = true -> read_chars (l +:+ newline +:+ rest)%string = (l, rest).
Proof.
  induction l as [|c l IH]; intros Hl.
  - rewrite string_nil_app, newline_app. done.
  - rewrite string_cons_app. cbn [read_chars]. cbn in Hl. zbool. apply Z.eqb_neq in H1 as ->. by rewrite IH.
Qed.

(** A line that was written is read back. *)
Lemma readline_line l rest : clean l = true -> readline (l +:+ newline +:+ rest)%string = (Some l, rest).
Proof.
  intros Hl. unfold readline. rewrite read_chars_line by done.
  rewrite c_string_id by (by apply clean_nul_free). by destruct l.
Qed.

Lemma unlines_app ls ls' : unlines (ls ++ ls') = (unlines ls +:+ unlines ls')%string.
Proof. induction ls as [|l ls IH]; [done|]. cbn [unlines app]. by rewrite IH, !string_app_assoc. Qed.

Lemma length_unlines ls : (length ls <= String.length (unlines ls))%nat.
Proof.
  induction ls as [|l ls IH]; [done|]. cbn [unlines length]. rewrite !string_length_app. cbn. lia.
Qed.

(** ** Numbers *)

Lemma ulong_digits_dec_list fuel p n rest : 0 <= p < 10 ^ Z.of_nat fuel -> 0 <= n ->
  ulong_digits (text_of (dec_list fuel p) +:+ rest)%string (u64 n)
  = ulong_digits rest (u64 (n * 10 ^ Z.of_nat (length (dec_list fuel p)) + p)).
Proof.
  revert p n rest. induction fuel as [|fuel IH]; intros p n rest Hp Hn; cbn [dec_list].
  { change (10 ^ Z.of_nat 0) with 1 in Hp. assert (p = 0) as -> by lia. cbn [length].
    rewrite string_nil_app. f_equal. f_equal. lia. }
  destruct (Z.ltb_spec 0 p) as [Hpos|].
  2: { assert (p = 0) as -> by lia. cbn [length]. rewrite string_nil_app. f_equal. f_equal. lia. }
  rewrite Nat2Z.inj_succ, Z.pow_succ_r in Hp by lia.
  assert (Hq : 0 <= p / 10 < 10 ^ Z.of_nat fuel)
    by (split; [apply Z.div_pos; lia | apply Z.div_lt_upper_bound; lia]).
  pose proof (Z.mod_pos_bound p 10 ltac:(lia)) as Hm. pose proof (Z.div_mod p 10 ltac:(lia)) as Hdm.
  rewrite length_app, Nat2Z.inj_add. change (Z.of_nat (length [_])) with 1.
  rewrite Z.pow_add_r by lia. change (10 ^ 1) with 10.
  set (k := 10 ^ Z.of_nat (length (dec_list fuel (p / 10)))).
  assert (0 < k) by (apply Z.pow_pos_nonneg; lia).
  unfold nat_text, text_of in *. rewrite string_of_list_app, IH by done. fold k. cbn [String.string_of_list_ascii].
  rewrite string_cons_app, string_nil_app. cbn [ulong_digits].
  pose proof (digit_char_code (p mod 10) ltac:(lia)) as ->. unfold VG_isdigit.
  destruct (Z.leb_spec 48 (48 + p mod 10)), (Z.leb_spec (48 + p mod 10) 57); try lia. cbn [andb].
  f_equal. unfold u64. rewrite Zplus_mod_idemp_l.
  replace (48 + p mod 10 - 48) with (p mod 10) by lia.
  rewrite <-Zplus_mod_idemp_l, Zmult_mod_idemp_l, Zplus_mod_idemp_l. f_equal. nia.
Qed.

(** Does not continue a number. *)
Definition no_digit (rest : string) : Prop := VG_isdigit (hd0 rest) = false.

Lemma ulong_digits_end rest n : no_digit rest -> ulong_digits rest n = (n, rest).
Proof. unfold no_digit. destruct rest as [|c rest]; [done|]. cbn [ulong_digits hd0]. by intros ->. Qed.

Lemma ulong_digits_dec_string p rest : 0 <= p < 2 ^ 64 -> no_digit rest ->
  ulong_digits (nat_text p +:+ rest)%string 0 = (p, rest).
Proof.
  intros Hp Hrest. unfold nat_text, dec_string. destruct (Z.eqb_spec p 0) as [->|Hne].
  - unfold text_of. cbn [String.string_of_list_ascii]. rewrite string_cons_app, string_nil_app. cbn [ulong_digits].
    change (VG_isdigit (code (char_of 48))) with true. cbn iota. change (u64 _) with 0. by apply ulong_digits_end.
  - change (ulong_digits (text_of (dec_list 64 p) +:+ rest)%string 0)
      with (ulong_digits (text_of (dec_list 64 p) +:+ rest)%string (u64 0)).
    rewrite ulong_digits_dec_list by (lia || (cbn; lia)). rewrite ulong_digits_end by done. by rewrite Z.mul_0_l, u64_small.
Qed.

Lemma digit_code_range d : 0 <= d < 10 ->
  VG_isdigit (48 + d) = true /\ VG_isspace (48 + d) = false.
Proof.
  intros Hd. unfold VG_isdigit, VG_isspace. split.
  - apply andb_true_iff. split; apply Z.leb_le; lia.
  - apply not_true_is_false. rewrite !orb_true_iff, !Z.eqb_eq. lia.
Qed.

Lemma hd0_nat_text p rest : 0 <= p < 2 ^ 64 ->
  VG_isdigit (hd0 (nat_text p +:+ rest)%string) = true
  /\ VG_isspace (hd0 (nat_text p +:+ rest)%string) = false.
Proof.
  intros Hp. unfold nat_text. destruct (dec_string_head p Hp) as (d & l & -> & Hd). unfold text_of.
  cbn [String.string_of_list_ascii]. rewrite string_cons_app. cbn [hd0]. rewrite digit_char_code by done.
  by apply digit_code_range.
Qed.

Lemma parse_ULong_number v rest : 0 <= v < 2 ^ 64 -> no_digit rest ->
  parse_ULong (nat_text v +:+ rest)%string = (Some v, rest).
Proof.
  intros Hv Hrest. destruct (hd0_nat_text v rest Hv) as [Hd Hs]. unfold parse_ULong.
  rewrite skip_spaces_id by done. rewrite Hd. cbn [negb]. by rewrite ulong_digits_dec_string.
Qed.

Lemma clean_text_of ds : clean (text_of ds) = forallb (fun c => negb (code c =? 0) && negb (code c =? 10)) ds.
Proof. induction ds as [|c ds IH]; [done|]. unfold text_of in *. cbn. by rewrite IH. Qed.

Lemma clean_nat_text v : clean (nat_text v) = true.
Proof.
  assert (Hd : forall d, 0 <= d < 10 ->
    negb (code (digit_char false d) =? 0) && negb (code (digit_char false d) =? 10) = true).
  { intros d Hd. rewrite digit_char_code by done. apply andb_true_iff. split; apply negb_true_iff, Z.eqb_neq; lia. }
  unfold nat_text. rewrite clean_text_of. unfold dec_string. destruct (v =? 0); [by apply (Hd 0)|].
  assert (Hgen : forall fuel p, forallb (fun c => negb (code c =? 0) && negb (code c =? 10)) (dec_list fuel p) = true).
  { induction fuel as [|fuel IH]; intros p; cbn [dec_list]; [done|]. destruct (0 <? p); [|done].
    rewrite forallb_app, IH. cbn [forallb]. rewrite Hd by (apply Z.mod_pos_bound; lia). done. }
  apply Hgen.
Qed.

Lemma nat_text_length v : 0 <= v < 2 ^ 64 -> (1 <= String.length (nat_text v))%nat.
Proof.
  intros Hv. unfold nat_text. destruct (dec_string_head v Hv) as (d & l & -> & _). cbn. lia.
Qed.

(** ** Lines of numbers *)

Fixpoint blanks (n : nat) : string :=
  match n with O => EmptyString | S n => String (char_of 32) (blanks n) end.

(** Numbers, each after some blanks, and blanks at the end. *)
Fixpoint tok_text (toks : list (nat * Z)) (t : nat) : string :=
  match toks with
  | [] => blanks t
  | (k, v) :: toks => (blanks k +:+ nat_text v +:+ tok_text toks t)%string
  end.

(** The numbers are separated and fit a [ULong]. *)
Definition spaced (toks : list (nat * Z)) : Prop := Forall (fun x => 1 <= fst x)%nat toks.
Definition toks_ok (toks : list (nat * Z)) : Prop :=
  spaced (tail toks) /\ Forall (fun x => 0 <= snd x < 2 ^ 64) toks.

Lemma skip_blanks k s : skip_spaces (blanks k +:+ s)%string = skip_spaces s.
Proof. induction k as [|k IH]; [done|]. cbn [blanks]. rewrite string_cons_app. exact IH. Qed.

Lemma parse_ULong_blanks k s : parse_ULong (blanks k +:+ s)%string = parse_ULong s.
Proof. unfold parse_ULong. by rewrite skip_blanks. Qed.

Lemma parse_ULong_end t : parse_ULong (blanks t) = (None, EmptyString).
Proof. rewrite <-(string_app_nil_r (blanks t)), parse_ULong_blanks. done. Qed.

Lemma spaced_no_digit toks t : spaced toks -> no_digit (tok_text toks t).
Proof.
  intros Hs. destruct toks as [|[k v] toks]; cbn [tok_text]; [by destruct t|].
  inversion Hs as [|? ? Hk _]; subst. cbn in Hk. destruct k as [|k]; [lia|]. done.
Qed.

Lemma split_loop_toks fuel toks t acc : toks_ok toks -> (length toks < fuel)%nat ->
  split_loop fuel (tok_text toks t) acc = Ok (acc ++ map snd toks, EmptyString).
Proof.
  revert toks acc. induction fuel as [|fuel IH]; intros toks acc [Hs Hr] Hf; [lia|].
  destruct toks as [|[k v] toks]; cbn [split_loop tok_text map].
  - rewrite parse_ULong_end. by rewrite app_nil_r.
  - inversion Hr as [|? ? Hv Hr']; subst. cbn [tail snd] in *. rewrite parse_ULong_blanks.
    rewrite parse_ULong_number by (done || by apply spaced_no_digit). rewrite IH; [by rewrite <-app_assoc| |cbn in Hf; lia].
    split; [|done]. destruct toks; [constructor|]. by inversion Hs.
Qed.

Lemma length_tok_text toks t : Forall (fun x => 0 <= snd x < 2 ^ 64) toks ->
  (length toks <= String.length (tok_text toks t))%nat.
Proof.
  induction 1 as [|[k v] toks Hv _ IH]; [cbn; lia|]. cbn [tok_text length snd] in *.
  rewrite !string_length_app. pose proof (nat_text_length v Hv). lia.
Qed.

Lemma split_loop_text toks t : toks_ok toks ->
  split_loop (S (String.length (tok_text toks t))) (tok_text toks t) [] = Ok (map snd toks, EmptyString).
Proof.
  intros Hok. rewrite split_loop_toks; [done|done|]. pose proof (length_tok_text toks t (proj2 Hok)). lia.
Qed.

(** A line number with counts, and counts alone. *)
Lemma split_with_lnno l k x toks t : toks_ok ((k, l) :: x :: toks) ->
  splitUpCountsLine true (tok_text ((k, l) :: x :: toks) t) = Ok (l, map snd (x :: toks)).
Proof. intros Hok. unfold splitUpCountsLine. rewrite split_loop_text by done. done. Qed.

Lemma split_counts x toks t : toks_ok (x :: toks) ->
  splitUpCountsLine false (tok_text (x :: toks) t) = Ok (0, map snd (x :: toks)).
Proof. intros Hok. unfold splitUpCountsLine. rewrite split_loop_text by done. done. Qed.

Lemma clean_blanks n : clean (blanks n) = true.
Proof. induction n as [|n IH]; [done|]. exact IH. Qed.

Lemma clean_tok_text toks t : clean (tok_text toks t) = true.
Proof.
  induction toks as [|[k v] toks IH]; cbn [tok_text]; [apply clean_blanks|].
  by rewrite !clean_app, clean_blanks, clean_nat_text, IH.
Qed.

(** ** What is written *)

Lemma fmt_lld_nat z : 0 <= z < 2 ^ 63 -> fmt_lld z = nat_text z.
Proof.
  intros Hz. unfold fmt_lld. rewrite s64_small by lia. destruct (Z.ltb_spec z 0); [lia|].
  by rewrite Z.abs_eq by lia.
Qed.

Definition one_blank (v : Z) : nat * Z := (1%nat, v).

(** The counts after a blank, each with a blank behind it or in front of it. *)
Lemma showCounts_text f c : Forall (fun v => 0 <= v < 2 ^ 63) c ->
  showCounts f c = (f +:+ match c with
                         | [] => EmptyString
                         | v :: c => nat_text v +:+ tok_text (map one_blank c) 1
                         end)%string.
Proof.
  intros Hc. unfold showCounts. revert f. induction Hc as [|v c Hv Hc IH]; intros f; cbn [foldl].
  { by rewrite string_app_nil_r. }
  rewrite IH, fmt_lld_nat by done. rewrite !string_app_assoc. do 2 f_equal.
  destruct c as [|v' c]; [done|]. cbn [map tok_text one_blank]. done.
Qed.

Lemma foldl_counts_text f c : Forall (fun v => 0 <= v < 2 ^ 63) c ->
  foldl (fun f n => f +:+ " " +:+ fmt_lld n)%string f c = (f +:+ tok_text (map one_blank c) 0)%string.
Proof.
  intros Hc. revert f. induction Hc as [|v c Hv Hc IH]; intros f; cbn [foldl map tok_text one_blank].
  { by rewrite string_app_nil_r. }
  rewrite IH, fmt_lld_nat by done. by rewrite !string_app_assoc.
Qed.
