(* ===== verification/MergeTheory.v ===== *)
(** * Merging adds up: theorems on the tables of cg_merge.c

    The invariant of a profile, which parsing establishes and merging keeps:
    its summary is the sum of its counts.  What parsing a line and merging two
    profiles do to the count of a line of a function. *)

From S2P Require Import Prelude LibcBase OSet OSetTheory WordFM WordTheory Merge MergeText.

(** ** The order of functions *)

#[export] Instance FileFn_order : WordOrder FileFn.
Proof.
  split; unfold kCmp, FileFn_cmp, cmp_FileFn.
  - intros x y. rewrite (VG_strcmp_antisym (fi_name x)), (VG_strcmp_antisym (fn_name x)).
    repeat case_test; lia.
  - intros x y z. pose proof (strcmp_facts (fi_name x) (fi_name y) (fi_name z)).
    pose proof (strcmp_facts (fn_name x) (fn_name y) (fn_name z)). repeat case_test; lia.
  - intros x y z. pose proof (strcmp_facts (fi_name x) (fi_name y) (fi_name z)).
    pose proof (strcmp_facts (fn_name x) (fn_name y) (fn_name z)). repeat case_test; lia.
Qed.

(** ** Vectors of counts *)

(** A vector of [n] [ULong]s. *)
Definition counts_ok (n : Z) (c : Counts) : Prop := n_counts c = n /\ Forall (fun v => 0 <= v < 2 ^ 64) c.

Definition addc (c1 c2 : list Z) : list Z := zip_with (fun x y => u64 (x + y)) c1 c2.

(** The counts of a line in two tables, added when it is in both. *)
Definition plus_counts (o1 o2 : option Counts) : option Counts :=
  match o1, o2 with
  | Some c1, Some c2 => Some (addc c1 c2)
  | Some c, None | None, Some c => Some c
  | None, None => None
  end.

(** The count of event [j]. *)
Definition event (j : nat) (c : list Z) : Z := default 0 (c !! j).

Lemma addCounts_ok n c1 c2 : counts_ok n c1 -> counts_ok n c2 ->
  addCounts c1 c2 = Ok (addc c1 c2) /\ counts_ok n (addc c1 c2).
Proof.
  intros [H1 Hr1] [H2 Hr2]. unfold addCounts, n_counts in *. rewrite H1, H2, Z.eqb_refl. cbn [negb].
  split; [done|]. split.
  - unfold n_counts, addc. rewrite length_zip_with. lia.
  - apply Forall_lookup. intros j x. unfold addc. rewrite lookup_zip_with. intros Hx.
    simplify_option_eq. apply u64_range.
Qed.

Lemma event_addc j n c1 c2 : counts_ok n c1 -> counts_ok n c2 ->
  u64 (event j (addc c1 c2)) = u64 (event j c1 + event j c2).
Proof.
  intros [H1 _] [H2 _]. unfold event, addc. rewrite lookup_zip_with. unfold n_counts in *.
  destruct (c1 !! j) as [x|] eqn:E1; cbn.
  - destruct (lookup_lt_is_Some_2 c2 j) as [y Hy]; [apply lookup_lt_Some in E1; lia|]. rewrite Hy. cbn.
    unfold u64. by rewrite Zmod_mod.
  - apply lookup_ge_None in E1. by rewrite lookup_ge_None_2 by lia.
Qed.

(** Two vectors are equal when their counts agree modulo 2^64. *)
Lemma counts_ext n c1 c2 : counts_ok n c1 -> counts_ok n c2 ->
  (forall j, u64 (event j c1) = u64 (event j c2)) -> c1 = c2.
Proof.
  intros [H1 Hr1] [H2 Hr2] Hj. unfold n_counts in *. apply list_eq. intros j. specialize (Hj j). unfold event in Hj.
  destruct (c1 !! j) as [x|] eqn:E1, (c2 !! j) as [y|] eqn:E2.
  - rewrite Forall_lookup in Hr1, Hr2. specialize (Hr1 _ _ E1). specialize (Hr2 _ _ E2). cbn in *.
    rewrite !u64_small in Hj by done. by rewrite Hj.
  - apply lookup_lt_Some in E1. apply lookup_ge_None in E2. lia.
  - apply lookup_lt_Some in E2. apply lookup_ge_None in E1. lia.
  - done.
Qed.

Lemma zeroed_ok n : 0 <= n -> counts_ok n (new_Counts_Zeroed n) /\ forall j, event j (new_Counts_Zeroed n) = 0.
Proof.
  intros Hn. unfold new_Counts_Zeroed. split; [split|].
  - unfold n_counts. rewrite length_replicate. lia.
  - apply Forall_replicate. lia.
  - intros j. unfold event. destruct (replicate _ _ !! j) as [x|] eqn:E; [|done].
    by apply lookup_replicate in E as [-> _].
Qed.

(** ** Sums over the bindings of a map *)

Section Sums.
Context {K V : Type} {KC : WordCmp K} {KO : WordOrder K}.

Definition sum_values (f : V -> Z) (xs : list (K * V)) : Z := foldr (fun x n => f (snd x) + n) 0 xs.

Lemma sum_cons f x (xs : list (K * V)) : sum_values f (x :: xs) = f (snd x) + sum_values f xs.
Proof. done. Qed.

(** No key after [x] is below that of [x]. *)
Lemma assoc_beyond k x (xs : list (K * V)) : Forall (before x) xs -> 0 <= kCmp (fst x) k -> assoc k xs = None.
Proof.
  intros Hxs Hx. unfold assoc. destruct (find_key k xs) as [y|] eqn:Hy; [|done]. exfalso.
  apply find_key_Some in Hy as [Hin Hc]. rewrite Forall_forall in Hxs. pose proof (Hxs y Hin) as Hb.
  pose proof (key_before k x y Hb) as Hk. cbn in Hc, Hk. lia.
Qed.

Lemma assoc_cons k x (xs : list (K * V)) :
  assoc k (x :: xs) = if kCmp (fst x) k =? 0 then Some (snd x) else assoc k xs.
Proof.
  unfold assoc, find_key. cbn [List.find]. destruct (cmp_tests k x) as (_ & _ & ->). by case_test.
Qed.

Lemma sum_put f k v (xs : list (K * V)) : sorted xs ->
  sum_values f (put k v xs) = sum_values f xs + f v - match assoc k xs with Some old => f old | None => 0 end.
Proof.
  intros Hs.
  induction Hs as [|x xs Hs IH Hall]; cbn [put].
  { rewrite sum_cons. change (match assoc k [] with Some old => f old | None => 0 end) with 0. cbn [snd]. lia. }
  unfold assoc, find_key. cbn [List.find]. destruct (cmp_tests k x) as (_ & _ & ->).
  destruct (Z.ltb_spec 0 (kCmp (fst x) k)) as [Hlt|]; [|destruct (Z.eqb_spec (kCmp (fst x) k) 0) as [Heq|]];
    rewrite !sum_cons; cbn [snd].
  - destruct (Z.eqb_spec (kCmp (fst x) k) 0); [lia|]. fold (find_key k xs).
    change (snd <$> find_key k xs) with (assoc k xs). rewrite (assoc_beyond k x) by (done || lia). lia.
  - change (snd <$> Some x) with (Some (snd x)). cbn iota. lia.
  - fold (find_key k xs). change (snd <$> find_key k xs) with (assoc k xs). lia.
Qed.

End Sums.

(** ** Inner maps *)

(** Properties of all keys and of all values. *)
Definition all_bindings {K V} (P : K -> Prop) (Q : V -> Prop) (xs : list (K * V)) : Prop :=
  Forall (fun x => P (fst x) /\ Q (snd x)) xs.

Lemma put_all {K V} `{WordCmp K} (P : K -> Prop) (Q : V -> Prop) k v xs :
  all_bindings P Q xs -> P k -> Q v -> all_bindings P Q (put k v xs).
Proof.
  unfold all_bindings. intros Hxs Hk Hv. induction Hxs as [|x xs [Hx Hx'] Hxs IH]; cbn [put]; [by repeat constructor|].
  repeat case_test; by repeat constructor.
Qed.

Lemma assoc_all {K V} `{WordCmp K} (P : K -> Prop) (Q : V -> Prop) k v xs :
  all_bindings P Q xs -> assoc k xs = Some v -> Q v.
Proof.
  unfold all_bindings, assoc. intros Hxs (x & Hx & ->)%fmap_Some. apply find_key_Some in Hx as [Hin _].
  rewrite Forall_forall in Hxs. by apply Hxs.
Qed.

Lemma put_not_nil {K V} `{WordCmp K} k v (xs : list (K * V)) : put k v xs <> [].
Proof. destruct xs as [|x xs]; cbn [put]; [done|]. by repeat case_test. Qed.

Lemma put_put {K V} `{WordOrder K} k (v w : V) (xs : list (K * V)) : put k w (put k v xs) = put k w xs.
Proof.
  assert (Hr : kCmp k k = 0) by (pose proof (kCmp_antisym k k); destruct (kCmp k k); cbn in *; lia).
  induction xs as [|x xs IH]; cbn [put fst].
  - by rewrite Hr.
  - destruct (0 <? kCmp (fst x) k) eqn:E1; cbn [put fst]; [by rewrite Hr|].
    destruct (kCmp (fst x) k =? 0) eqn:E2; cbn [put fst snd]; rewrite E1, E2; [done|]. by rewrite IH.
Qed.

(** Lookup does not tell equal keys apart. *)
Lemma lookupFM_same {K V} {KC : WordCmp K} {KO : WordOrder K} (fm : WordFM K V) k k' :
  wf_fm fm -> kCmp k k' = 0 -> lookupFM fm k = lookupFM fm k'.
Proof.
  intros Hwf Hk. rewrite !lookupFM_ok by done. unfold assoc, find_key. f_equal.
  induction (bindings fm) as [|x xs IH]; [done|]. cbn [List.find]. rewrite IH.
  destruct (cmp_tests k x) as (_ & _ & ->), (cmp_tests k' x) as (_ & _ & ->).
  pose proof (kCmp_eq_iff (V := V) k k' (fst x) Hk). pose proof (kCmp_sym0 (fst x) k).
  pose proof (kCmp_sym0 (fst x) k').
  destruct (Z.eqb_spec (kCmp (fst x) k) 0), (Z.eqb_spec (kCmp (fst x) k') 0); (done || tauto).
Qed.

(** A line number that fits a [ULong]. *)
Definition line_ok (l : Z) : Prop := 0 <= l < 2 ^ 64.

Record wf_inner (n : Z) (m : InnerMap) : Prop := {
  wi_fm : wf_fm m;
  wi_stack : fm_stack m = [];
  wi_counts : all_bindings line_ok (counts_ok n) (bindings m)
}.

Definition isum (j : nat) (m : InnerMap) : Z := sum_values (event j) (bindings m).

Lemma inner_lookup_ok n m l c : wf_inner n m -> lookupFM m l = Some c -> counts_ok n c.
Proof. intros [Hm _ Hc]. rewrite lookupFM_ok by done. by apply (assoc_all line_ok). Qed.

Lemma newFM_inner n : wf_inner n newFM.
Proof. split; [apply newFM_ok|done|constructor]. Qed.

(** A map of which a value has been set. *)
Lemma inner_set n m m' l v : wf_inner n m -> line_ok l -> counts_ok n v -> wf_fm m' -> fm_stack m' = [] ->
  bindings m' = put l v (bindings m) ->
  wf_inner n m' /\ bindings m' <> []
  /\ (forall l', lookupFM m' l' = if kCmp l l' =? 0 then Some v else lookupFM m l')
  /\ forall j, isum j m' = isum j m + event j v - match lookupFM m l with Some old => event j old | None => 0 end.
Proof.
  intros [Hm Hst Hc] Hln Hv Hm' Hst' Hb. split_and!.
  - split; [done|done|]. rewrite Hb. by apply put_all.
  - rewrite Hb. apply put_not_nil.
  - intros l'. rewrite !lookupFM_ok, Hb by done. apply assoc_put, Hm.
  - intros j. unfold isum. rewrite lookupFM_ok, Hb by done. apply sum_put, Hm.
Qed.

(** [addCountsToMap] adds the counts to those of the line. *)
Lemma addCountsToMap_ok n m l c : wf_inner n m -> line_ok l -> counts_ok n c ->
  exists b m', addCountsToMap m l c = Ok (b, m') /\ wf_inner n m' /\ bindings m' <> []
    /\ (forall l', lookupFM m' l' = if kCmp l l' =? 0 then plus_counts (lookupFM m l') (Some c) else lookupFM m l')
    /\ forall j, u64 (isum j m') = u64 (isum j m + event j c).
Proof.
  intros Hm Hln Hc. unfold addCountsToMap. destruct (lookupFM m l) as [old|] eqn:Hold.
  - pose proof (inner_lookup_ok n m l old Hm Hold) as Hok.
    destruct (addCounts_ok n old c Hok Hc) as [-> Hsum]. cbn [obind].
    destruct (pokeFM_ok m l (addc old c) (wi_fm _ _ Hm)) as [Hwf Hb]; [by rewrite Hold|].
    destruct (inner_set n m _ l (addc old c) Hm Hln Hsum Hwf (wi_stack _ _ Hm) Hb) as (Hwf' & Hne & Hl & Hs).
    do 2 eexists. split; [reflexivity|]. split_and!; [done|done| |].
    + intros l'. rewrite Hl. destruct (Z.eqb_spec (kCmp l l') 0) as [E|]; [|done].
      rewrite <-(lookupFM_same m l l' (wi_fm _ _ Hm) E), Hold. done.
    + intros j. rewrite Hs, Hold.
      replace (isum j m + event j (addc old c) - event j old) with (event j (addc old c) + (isum j m - event j old)) by lia.
      unfold u64. rewrite <-Zplus_mod_idemp_l. fold (u64 (event j (addc old c))). rewrite (event_addc j n) by done.
      unfold u64. rewrite Zplus_mod_idemp_l. f_equal. lia.
  - destruct (addToFM_ok m l c (wi_fm _ _ Hm)) as (m' & -> & Hwf & Hb & Hst). cbn [obind].
    rewrite (wi_stack _ _ Hm) in Hst.
    destruct (inner_set n m _ l c Hm Hln Hc Hwf Hst Hb) as (Hwf' & Hne & Hl & Hs).
    do 2 eexists. split; [reflexivity|]. split_and!; [done|done| |].
    + intros l'. rewrite Hl. destruct (Z.eqb_spec (kCmp l l') 0) as [E|]; [|done].
      by rewrite <-(lookupFM_same m l l' (wi_fm _ _ Hm) E), Hold.
    + intros j. rewrite Hs, Hold. f_equal. lia.
Qed.

(** ** Outer maps *)

Abbreviation OuterMap := (WordFM FileFn InnerMap).

Definition inner_ok (n : Z) (m : InnerMap) : Prop := wf_inner n m /\ bindings m <> [].

(** Names that a line can hold. *)
Definition name_ok (f : FileFn) : Prop := clean (fi_name f) = true /\ clean (fn_name f) = true.

Record wf_outer (n : Z) (o : OuterMap) : Prop := {
  wo_fm : wf_fm o;
  wo_stack : fm_stack o = [];
  wo_inner : all_bindings name_ok (inner_ok n) (bindings o)
}.

(** The counts of a line of a function. *)
Definition ocount (o : OuterMap) (f : FileFn) (l : Z) : option Counts :=
  match lookupFM o f with Some m => lookupFM m l | None => None end.

Definition osum (j : nat) (o : OuterMap) : Z := sum_values (isum j) (bindings o).

Lemma newFM_outer n : wf_outer n newFM.
Proof. split; [apply newFM_ok|done|constructor]. Qed.

Lemma outer_lookup_ok n o f m : wf_outer n o -> lookupFM o f = Some m -> inner_ok n m.
Proof. intros [Ho _ Hi]. rewrite lookupFM_ok by done. by apply (assoc_all name_ok). Qed.

Lemma ocount_ok n o f l c : wf_outer n o -> ocount o f l = Some c -> counts_ok n c.
Proof.
  unfold ocount. intros Ho. destruct (lookupFM o f) as [m|] eqn:Hm; [|done].
  apply inner_lookup_ok. by apply (outer_lookup_ok n o f m Ho Hm).
Qed.

(** A map of which an inner map has been set. *)
Lemma outer_set n o o' f m : wf_outer n o -> name_ok f -> inner_ok n m -> wf_fm o' -> fm_stack o' = [] ->
  bindings o' = put f m (bindings o) ->
  wf_outer n o'
  /\ (forall f' l, ocount o' f' l = if kCmp f f' =? 0 then lookupFM m l else ocount o f' l)
  /\ forall j, osum j o' = osum j o + isum j m - match lookupFM o f with Some old => isum j old | None => 0 end.
Proof.
  intros [Ho Hst Hi] Hf Hm Ho' Hst' Hb. split_and!.
  - split; [done|done|]. rewrite Hb. by apply put_all.
  - intros f' l. unfold ocount. rewrite (lookupFM_ok o' f'), (lookupFM_ok o f'), Hb, assoc_put by (done || apply Ho). by case_test.
  - intros j. unfold osum. rewrite lookupFM_ok, Hb by done. apply sum_put, Ho.
Qed.

(** The counts of [l] in [ff] with [c] added. *)
Definition add_count (ff : FileFn) (l : Z) (c : Counts) (cnt : FileFn -> Z -> option Counts) : FileFn -> Z -> option Counts :=
  fun f' l' => if (kCmp ff f' =? 0) && (kCmp l l' =? 0) then plus_counts (cnt f' l') (Some c) else cnt f' l'.

(** The part of [handle_counts] that works on the outer map. *)
Lemma outer_add n o ff l c : wf_outer n o -> name_ok ff -> line_ok l -> counts_ok n c ->
  exists o',
    match lookupFM o ff with
    | Some m => let* (_, m) := addCountsToMap m l c in Ok (pokeFM o ff m)
    | None =>
        let* o := addToFM o ff newFM in
        let* (_, m) := addCountsToMap newFM l c in Ok (pokeFM o ff m)
    end = Ok o'
    /\ wf_outer n o' /\ (forall f' l', ocount o' f' l' = add_count ff l c (ocount o) f' l')
    /\ forall j, u64 (osum j o') = u64 (osum j o + event j c).
Proof.
  intros Ho Hf Hl Hc. destruct (lookupFM o ff) as [m|] eqn:Hm.
  - pose proof (outer_lookup_ok n o ff m Ho Hm) as [Hin _].
    destruct (addCountsToMap_ok n m l c Hin Hl Hc) as (b & m' & -> & Hwf & Hne & Hlk & Hsum). cbn [obind].
    destruct (pokeFM_ok o ff m' (wo_fm _ _ Ho)) as [Hwfo Hb]; [by rewrite Hm|].
    destruct (outer_set n o _ ff m' Ho Hf (conj Hwf Hne) Hwfo (wo_stack _ _ Ho) Hb) as (Hwf' & Hcnt & Hs).
    eexists. split; [reflexivity|]. split_and!; [done| |].
    + intros f' l'. rewrite Hcnt. unfold add_count. destruct (Z.eqb_spec (kCmp ff f') 0) as [E|]; [|done].
      rewrite Hlk. unfold ocount. by rewrite <-(lookupFM_same o ff f' (wo_fm _ _ Ho) E), Hm.
    + intros j. rewrite Hs, Hm. unfold u64 in *. rewrite Zminus_mod, Zplus_mod, Hsum.
      rewrite <-Zplus_mod, <-Zminus_mod. f_equal. lia.
  - destruct (addToFM_ok o ff newFM (wo_fm _ _ Ho)) as (o1 & -> & Hwf1 & Hb1 & Hst1). cbn [obind].
    destruct (addCountsToMap_ok n newFM l c (newFM_inner n) Hl Hc) as (b & m' & -> & Hwf & Hne & Hlk & Hsum). cbn [obind].
    destruct (pokeFM_ok o1 ff m' Hwf1) as [Hwfo Hb].
    { rewrite lookupFM_ok, Hb1, assoc_put by (done || apply Ho).
      pose proof (kCmp_antisym ff ff). by destruct (kCmp ff ff). }
    rewrite Hb1, put_put in Hb. rewrite (wo_stack _ _ Ho) in Hst1.
    destruct (outer_set n o _ ff m' Ho Hf (conj Hwf Hne) Hwfo Hst1 Hb) as (Hwf' & Hcnt & Hs).
    eexists. split; [reflexivity|]. split_and!; [done| |].
    + intros f' l'. rewrite Hcnt. unfold add_count. destruct (Z.eqb_spec (kCmp ff f') 0) as [E|]; [|done].
      rewrite Hlk. unfold ocount. by rewrite <-(lookupFM_same o ff f' (wo_fm _ _ Ho) E), Hm.
    + intros j. rewrite Hs, Hm, Z.sub_0_r. unfold u64 in *. rewrite Zplus_mod, Hsum, <-Zplus_mod. done.
Qed.

(** ** Profiles *)

(** The tables of a profile: the summary is the sum of all counts. *)
Record wf_counts (p : CacheProfFile) : Prop := {
  wc_outer : wf_outer (n_events p) (outerMap p);
  wc_summary : counts_ok (n_events p) (summary p);
  wc_total : forall j, u64 (event j (summary p)) = u64 (osum j (outerMap p))
}.

Definition count (p : CacheProfFile) : FileFn -> Z -> option Counts := ocount (outerMap p).

(** The lines before the counts are the same. *)
Record same_head (p q : CacheProfFile) : Prop := {
  sh_desc : desc_lines p = desc_lines q;
  sh_cmd : cmd_line p = cmd_line q;
  sh_events : merge_events_line p = merge_events_line q;
  sh_n : n_events p = n_events q
}.

#[export] Instance same_head_refl : Reflexive same_head.
Proof. by intros p. Qed.
#[export] Instance same_head_trans : Transitive same_head.
Proof. intros p q r [] []. split; congruence. Qed.

(** [handle_counts] on a line of [l] and [c]. *)
Lemma handle_counts_ok p fi fn str l c : wf_counts p -> name_ok (mk_FileFn fi fn) ->
  splitUpCountsLine true str = Ok (l, c) -> line_ok l -> counts_ok (n_events p) c ->
  exists p', handle_counts p fi fn str = Ok p' /\ wf_counts p' /\ same_head p' p
    /\ (forall f' l', count p' f' l' = add_count (mk_FileFn fi fn) l c (count p) f' l')
    /\ summary p' = addc (summary p) c.
Proof.
  intros [Ho Hs Ht] Hf Hsplit Hl Hc. unfold handle_counts. rewrite Hsplit. cbn [obind].
  pose proof Hc as [-> _]. rewrite Z.eqb_refl. cbn [negb].
  destruct (outer_add (n_events p) (outerMap p) (mk_FileFn fi fn) l c Ho Hf Hl Hc) as (o' & -> & Hwf & Hcnt & Hsum).
  cbn [obind]. destruct (addCounts_ok (n_events p) (summary p) c Hs Hc) as [-> Hs']. cbn [obind].
  eexists. split; [reflexivity|]. split_and!; [|done| |done].
  - split; cbn [set_field n_events outerMap summary]; [done|done|]. intros j.
    rewrite (event_addc j (n_events p)) by done. rewrite Hsum. unfold u64 in *.
    by rewrite <-Zplus_mod_idemp_l, Ht, Zplus_mod_idemp_l.
  - exact Hcnt.
Qed.

(** ** Parsing always ends *)

Lemma ulong_digits_le s n m r : ulong_digits s n = (m, r) ->
  (String.length r <= String.length s)%nat /\ (0 <= n < 2 ^ 64 -> 0 <= m < 2 ^ 64).
Proof.
  revert n. induction s as [|c s IH]; intros n; cbn [ulong_digits]; [by intros [= -> <-]|].
  destruct (VG_isdigit (code c)); [|by intros [= -> <-]].
  intros [H1 H2]%IH. split; [cbn; lia|]. intros _. apply H2, u64_range.
Qed.

Lemma skip_spaces_le s : (String.length (skip_spaces s) <= String.length s)%nat.
Proof. induction s as [|c s IH]; [done|]. cbn. destruct (VG_isspace (code c)); cbn; lia. Qed.

Lemma parse_ULong_shrinks s n r : parse_ULong s = (Some n, r) ->
  (String.length r < String.length s)%nat /\ 0 <= n < 2 ^ 64.
Proof.
  unfold parse_ULong. pose proof (skip_spaces_le s). destruct (skip_spaces s) as [|c s']; [done|]. cbn [hd0].
  destruct (VG_isdigit (code c)) eqn:Hd; [|done]. cbn [negb ulong_digits]. rewrite Hd.
  destruct (ulong_digits s' _) as [m r'] eqn:E. intros [= <- <-]. apply ulong_digits_le in E as [Hle Hr].
  split; [cbn in *; lia|]. apply Hr, u64_range.
Qed.

Lemma split_loop_total fuel s acc : (String.length s < fuel)%nat -> Forall line_ok acc ->
  exists l r, split_loop fuel s acc = Ok (l, r) /\ Forall line_ok l.
Proof.
  revert s acc. induction fuel as [|fuel IH]; intros s acc Hf Hacc; [lia|]. cbn [split_loop].
  destruct (parse_ULong s) as [[n|] r] eqn:E; [|by exists acc, r].
  apply parse_ULong_shrinks in E as [Hlt Hn]. apply IH; [lia|]. apply Forall_app. by split; [|constructor].
Qed.

Lemma splitUpCountsLine_total b s :
  (exists l c, splitUpCountsLine b s = Ok (l, c) /\ line_ok l /\ Forall line_ok c /\ (1 <= length c)%nat)
  \/ splitUpCountsLine b s = Err (Exited 1).
Proof.
  unfold splitUpCountsLine.
  destruct (split_loop_total (S (String.length s)) s [] ltac:(lia) ltac:(done)) as (l & r & -> & Hl). cbn [obind].
  destruct (negb (hd0 r =? 0)); [by right|]. destruct (Nat.ltb_spec (length l) (if b then 2 else 1)); [by right|].
  left. destruct b, l as [|x l]; cbn in *; try lia; do 2 eexists; (split; [reflexivity|]).
  - inversion Hl; subst. split_and!; (done || cbn; lia).
  - split_and!; [unfold line_ok; lia|done|cbn; lia].
Qed.

Lemma handle_counts_total p fi fn str : wf_counts p -> name_ok (mk_FileFn fi fn) ->
  (exists p', handle_counts p fi fn str = Ok p' /\ wf_counts p' /\ same_head p' p)
  \/ handle_counts p fi fn str = Err (Exited 1).
Proof.
  intros Hp Hf. destruct (splitUpCountsLine_total true str) as [(l & c & Hs & Hl & Hc & _)|Hs].
  2: { right. unfold handle_counts. by rewrite Hs. }
  destruct (Z.eq_dec (n_counts c) (n_events p)) as [Hn|Hn].
  - left. destruct (handle_counts_ok p fi fn str l c Hp Hf Hs Hl) as (p' & ? & ? & ? & _); [done|]. eauto.
  - right. unfold handle_counts. rewrite Hs. cbn [obind]. by apply Z.eqb_neq in Hn as ->.
Qed.

Lemma read_chars_le fp l r : read_chars fp = (l, r) ->
  (String.length r <= String.length fp)%nat
  /\ clean (c_string l) = true.
Proof.
  revert l r. induction fp as [|c fp IH]; intros l r; cbn [read_chars]; [by intros [= <- <-]|].
  destruct (Z.eqb_spec (code c) 10); [intros [= <- <-]; cbn; split; [lia|done]|].
  destruct (read_chars fp) as [l' r'] eqn:E. intros [= <- <-]. destruct (IH _ _ eq_refl) as [Hle Hcl].
  split; [cbn; lia|]. cbn [c_string]. destruct (Z.eqb_spec (code c) 0) as [|H0]; [done|]. cbn [clean].
  apply Z.eqb_neq in H0 as ->. apply Z.eqb_neq in n as ->. done.
Qed.

Lemma readline_shrinks fp l r : readline fp = (Some l, r) ->
  (String.length r < String.length fp)%nat /\ clean l = true.
Proof.
  destruct fp as [|c fp]; [done|]. unfold readline. destruct (read_chars (String c fp)) as [l' r'] eqn:E.
  intros [= <- <-]. pose proof (read_chars_le _ _ _ E) as [_ Hcl]. split; [|done].
  cbn [read_chars] in E. destruct (code c =? 10); [injection E as <- <-; cbn; lia|].
  destruct (read_chars fp) as [l2 r2] eqn:E2. injection E as <- <-. apply read_chars_le in E2 as [? _]. cbn. lia.
Qed.

Lemma clean_tl0 s : clean s = true -> clean (tl0 s) = true.
Proof. destruct s as [|c s]; [done|]. cbn. intros H. zbool. done. Qed.

Lemma clean_skip n s : clean s = true -> clean (skip_chars n s) = true.
Proof. revert s. induction n as [|n IH]; intros s Hs; [done|]. cbn. apply IH. by apply clean_tl0. Qed.

Record parser_ok (q : parser) : Prop := {
  po_counts : wf_counts (p_cpf q);
  po_name : name_ok (mk_FileFn (curr_fl q) (curr_fn q))
}.

Lemma parse_line_total line q : parser_ok q -> clean line = true ->
  (exists q', parse_line line q = Ok (Some q') /\ parser_ok q' /\ same_head (p_cpf q') (p_cpf q))
  \/ parse_line line q = Err (Exited 1)
  \/ (parse_line line q = Ok None /\ streqn line "summary: " 9 = true).
Proof.
  intros [Hc [Hfl Hfn]] Hline. unfold parse_line.
  destruct (VG_isdigit (hd0 line)).
  { destruct (handle_counts_total (p_cpf q) (curr_fl q) (curr_fn q) line Hc) as [(p' & -> & Hp' & Hh)| ->]; [done| |].
    - left. cbn [obind]. eexists. split; [reflexivity|]. done.
    - right. by left. }
  destruct (streqn line "fn=" 3).
  { left. eexists. split; [reflexivity|]. split; [|done]. split; [done|]. split; [done|]. by apply (clean_skip 3). }
  destruct (streqn line "fl=" 3).
  { left. eexists. split; [reflexivity|]. split; [|done]. split; [done|]. split; [|done]. by apply (clean_skip 3). }
  destruct (streqn line "summary: " 9) eqn:E; [by right; right|by right; left].
Qed.

Lemma parse_lines_total fuel fp q : (String.length fp < fuel)%nat -> parser_ok q ->
  (exists line r p, parse_lines fuel fp q = Ok (line, r, p) /\ wf_counts p /\ same_head p (p_cpf q)
     /\ streqn line "summary: " 9 = true)
  \/ parse_lines fuel fp q = Err (Exited 1).
Proof.
  revert fp q. induction fuel as [|fuel IH]; intros fp q Hf Hq; [lia|]. cbn [parse_lines].
  destruct (readline fp) as [[line|] r] eqn:E; [|by right]. apply readline_shrinks in E as [Hlt Hcl].
  destruct (parse_line_total line q Hq Hcl) as [(q' & -> & Hq' & Hh)|[->|[-> Hs]]]; cbn [obind].
  - destruct (IH r q') as [(line' & r' & p & -> & Hp & Hh' & Hs)| ->]; [lia|done| |by right].
    left. do 3 eexists. split; [reflexivity|]. split_and!; [done|by etrans|done].
  - by right.
  - left. do 3 eexists. split; [reflexivity|]. split_and!; [apply Hq|done|done].
Qed.

(** A line that begins with the given text. *)
Definition line_of (prefix : string) (line : string) : Prop :=
  streqn line prefix (String.length prefix) = true /\ clean line = true.

Lemma read_desc_total fuel fp acc : (String.length fp < fuel)%nat -> Forall (line_of "desc: ") acc ->
  exists ds line r, read_desc fuel fp acc = Ok (ds, line, r) /\ Forall (line_of "desc: ") ds
    /\ (String.length r <= String.length fp)%nat /\ match line with Some l => clean l = true | None => True end.
Proof.
  revert fp acc. induction fuel as [|fuel IH]; intros fp acc Hf Hacc; [lia|]. cbn [read_desc].
  destruct (readline fp) as [[line|] r] eqn:E.
  - apply readline_shrinks in E as [Hlt Hcl]. destruct (streqn line "desc: " 6) eqn:Es; cbn [negb].
    + destruct (IH r (acc ++ [line])) as (ds & line' & r' & -> & Hds & Hle & Hl); [lia| |].
      { apply Forall_app. split; [done|]. by repeat constructor. }
      do 3 eexists. split; [reflexivity|]. split_and!; [done|lia|done].
    + do 3 eexists. split; [reflexivity|]. split_and!; [done|lia|done].
  - do 3 eexists. split; [reflexivity|]. split_and!; [done| |done].
    destruct fp; [by injection E as <-|]. unfold readline in E. by destruct (read_chars _).
Qed.

(** The lines before the counts. *)
Record wf_head (p : CacheProfFile) : Prop := {
  wh_some : desc_lines p <> [];
  wh_desc : Forall (line_of "desc: ") (desc_lines p);
  wh_cmd : line_of "cmd: " (cmd_line p);
  wh_line : line_of "events: " (merge_events_line p);
  wh_events : n_events p = count_events (skip_chars 6 (merge_events_line p));
  wh_pos : 1 <= n_events p
}.

Record wf_profile (p : CacheProfFile) : Prop := {
  wp_head : wf_head p;
  wp_counts : wf_counts p
}.

Lemma count_events_nonneg s : 0 <= count_events s.
Proof. induction s as [|c s IH]; cbn; [lia|]. destruct (_ && _); lia. Qed.

Lemma fresh_parser descs cmd events n : 0 <= n ->
  parser_ok (mk_parser (mk_CacheProfFile descs cmd events n newFM (new_Counts_Zeroed n)) "???" "???").
Proof.
  intros Hn. split; [|done]. destruct (zeroed_ok n Hn) as [Hz Hev]. split; cbn [p_cpf n_events outerMap summary].
  - apply newFM_outer.
  - done.
  - intros j. by rewrite Hev.
Qed.

(** A prefix of ["events: "] ends with the colon. *)
Lemma strncmp_char n i s t : VG_strncmp s t n = 0 -> (i < n)%nat ->
  (forall k, (k < i)%nat -> char_at t k <> 0) -> char_at s i = char_at t i.
Proof.
  revert i s t. induction n as [|n IH]; intros i s t H Hi Ht; [lia|]. cbn [VG_strncmp] in H.
  pose proof (hd0_range s). pose proof (hd0_range t).
  destruct (Z.ltb_spec (hd0 s) (hd0 t)); [lia|]. destruct (Z.ltb_spec (hd0 t) (hd0 s)); [lia|].
  assert (Hh : hd0 s = hd0 t) by lia. destruct i as [|i]; [by destruct s, t|].
  specialize (Ht 0%nat ltac:(lia)) as Ht0. assert (hd0 t <> 0) by (by destruct t).
  destruct (Z.eqb_spec (hd0 s) 0); [lia|]. specialize (IH i (tl0 s) (tl0 t) H ltac:(lia)).
  destruct s as [|c s]; [cbn in *; lia|]. destruct t as [|d t]; [done|]. cbn. apply IH.
  intros k Hk. apply (Ht (S k)). lia.
Qed.

Lemma events_colon events : streqn events "events: " 8 = true -> char_at events 6 = 58.
Proof.
  intros H%Z.eqb_eq. rewrite (strncmp_char 8 6 events "events: "); [done|done|lia|].
  intros k Hk. do 6 (destruct k as [|k]; [done|]). lia.
Qed.

Lemma parse_cases (fp : string) :
  (exists p, parse_CacheProfFile fp = Ok p /\ wf_profile p)
  \/ parse_CacheProfFile fp = Err (Exited 1)
  \/ (parse_CacheProfFile fp = Err Undefined
      /\ exists ds r, read_desc (S (String.length fp)) fp [] = Ok (ds, None, r) /\ ds <> []).
Proof.
  unfold parse_CacheProfFile.
  destruct (read_desc_total (S (String.length fp)) fp [] ltac:(lia) ltac:(done)) as (ds & line & r & -> & Hds & Hle & Hl).
  cbn [obind]. destruct ds as [|d ds]; [by right; left|]. cbn [length Nat.eqb].
  destruct line as [cmd|]; [|right; right; split; [done|]; by do 2 eexists].
  destruct (streqn cmd "cmd: " 5) eqn:Ecmd; cbn [negb]; [|by right; left].
  destruct (readline r) as [[events|] r2] eqn:Er; [|by right; left]. apply readline_shrinks in Er as [Hlt Hev].
  destruct (streqn events "events: " 8) eqn:Eev; cbn [negb]; [|by right; left].
  rewrite (events_colon events Eev). cbn [Z.eqb Pos.eqb assert_that obind].
  set (n := count_events (skip_chars 6 events)).
  destruct (parse_lines_total (S (String.length fp)) r2 (mk_parser (mk_CacheProfFile (d :: ds) cmd events n newFM (new_Counts_Zeroed n)) "???" "???"))
    as [(sl & r3 & p & -> & Hp & Hh & Hs)| ->]; [lia|apply fresh_parser, count_events_nonneg| |by right; left].
  cbn [obind]. rewrite Hs. cbn [negb]. destruct (readline r3) as [[x|] r4]; [by right; left|].
  destruct (splitUpCountsLine_total false (skip_chars 8 sl)) as [(l & c & -> & _ & _ & Hc)| ->]; [|by right; left].
  cbn [obind]. destruct (Z.eqb_spec (n_counts c) (n_events p)) as [Hn|]; cbn [negb]; [|by right; left].
  destruct (bool_decide (c = summary p)); cbn [negb]; [|by right; left].
  left. exists p. split; [done|]. split; [|done]. destruct Hh as [Hd1 Hd2 Hd3 Hd4].
  cbn [p_cpf desc_lines cmd_line merge_events_line n_events] in *.
  split; rewrite ?Hd1, ?Hd2, ?Hd3, ?Hd4; try done.
  rewrite <-Hd4, <-Hn. unfold n_counts. lia.
Qed.

Lemma parse_accepted fp p : parse_CacheProfFile fp = Ok p -> wf_profile p.
Proof. intros H. destruct (parse_cases fp) as [(q & Hq & Hwf)|[Hq|[Hq _]]]; rewrite H in Hq; by simplify_eq. Qed.

(** C35: every file is accepted, rejected with exit code 1, or consists only of
    "desc:" lines (the only crash): the loops of the parser end.  An accepted
    file has given a profile whose maps are well-formed and whose summary is,
    for each event, the sum of all its counts modulo 2^64. *)
Theorem parse_ends (fp : string) :
  (exists p, parse_CacheProfFile fp = Ok p /\ wf_profile p)
  \/ parse_CacheProfFile fp = Err (Exited 1)
  \/ (parse_CacheProfFile fp = Err Undefined
      /\ exists ds r, read_desc (S (String.length fp)) fp [] = Ok (ds, None, r) /\ ds <> []).
Proof. apply parse_cases. Qed.

(** ** Merging *)

Lemma plus_counts_None o : plus_counts o None = o.
Proof. by destruct o. Qed.

(** The inner loop adds counts as parsing does. *)
Lemma merge_inner_fold n xs m : sorted xs -> all_bindings line_ok (counts_ok n) xs -> wf_inner n m ->
  exists m', ofold (fun x m => let* (_, m) := addCountsToMap m (fst x) (snd x) in Ok m) xs m = Ok m'
    /\ wf_inner n m' /\ (bindings m <> [] -> bindings m' <> [])
    /\ (forall l, lookupFM m' l = plus_counts (lookupFM m l) (assoc l xs))
    /\ forall j, u64 (isum j m') = u64 (isum j m + sum_values (event j) xs).
Proof.
  intros Hs Hxs. revert m. induction Hs as [|x xs Hs IH Hall]; intros m Hm; cbn [ofold].
  { exists m. split_and!; [done|done|done| |]; intros; [by rewrite plus_counts_None|].
    unfold sum_values. cbn. by rewrite Z.add_0_r. }
  inversion Hxs as [|? ? [Hl Hc] Hxs']; subst.
  destruct (addCountsToMap_ok n m (fst x) (snd x) Hm Hl Hc) as (b & m1 & -> & Hm1 & Hne & Hlk & Hsum). cbn [obind].
  destruct (IH Hxs' m1 Hm1) as (m' & -> & Hm' & Hne' & Hlk' & Hsum').
  exists m'. split_and!; [done|done|by intros _; apply Hne'| |].
  - intros l. rewrite Hlk', Hlk, assoc_cons. destruct (Z.eqb_spec (kCmp (fst x) l) 0) as [E|]; [|done].
    by rewrite (assoc_beyond l x xs), plus_counts_None by (done || lia).
  - intros j. rewrite Hsum', sum_cons. unfold u64 in *. rewrite <-Zplus_mod_idemp_l, Hsum, Zplus_mod_idemp_l.
    f_equal. lia.
Qed.

Lemma merge_inner_ok n so m : wf_inner n so -> small_fm so -> wf_inner n m ->
  exists m', merge_inner so m = Ok m' /\ wf_inner n m' /\ (bindings m <> [] -> bindings m' <> [])
    /\ (forall l, lookupFM m' l = plus_counts (lookupFM m l) (lookupFM so l))
    /\ forall j, u64 (isum j m') = u64 (isum j m + isum j so).
Proof.
  intros [Hso _ Hall] Hsz Hm. unfold merge_inner. rewrite iterateFM_ok by done.
  rewrite (ofold_ext _ (fun x m => let* (_, m) := addCountsToMap m (fst x) (snd x) in Ok m)).
  - destruct (merge_inner_fold n (bindings so) m (fm_sorted _ Hso) Hall Hm) as (m' & Heq & Hm' & Hne & Hlk & Hsum).
    exists m'. split_and!; [done|done|done| |done]. intros l. by rewrite (lookupFM_ok so).
  - intros x s. unfold addCountsToMap. destruct (lookupFM s (fst x)); [|by destruct (addToFM _ _ _)].
    by destruct (addCounts _ _).
Qed.

(** The body of the outer loop. *)
Definition merge_step (x : FileFn * InnerMap) (o : OuterMap) : outcome OuterMap :=
  match lookupFM o (fst x) with
  | None => let* c := dopy_InnerMap (snd x) in addToFM o (dopy_FileFn (fst x)) c
  | Some m => let* m := merge_inner (snd x) m in Ok (pokeFM o (fst x) m)
  end.

Lemma merge_step_ok n f so o : wf_outer n o -> name_ok f -> inner_ok n so -> small_fm so ->
  exists o', merge_step (f, so) o = Ok o' /\ wf_outer n o'
    /\ (forall f' l, ocount o' f' l =
          if kCmp f f' =? 0 then plus_counts (ocount o f' l) (lookupFM so l) else ocount o f' l)
    /\ forall j, u64 (osum j o') = u64 (osum j o + isum j so).
Proof.
  intros Ho Hf [Hso Hne] Hsz. unfold merge_step. cbn [fst snd]. destruct (lookupFM o f) as [m|] eqn:Hm.
  - pose proof (outer_lookup_ok n o f m Ho Hm) as [Hin Hnem].
    destruct (merge_inner_ok n so m Hso Hsz Hin) as (m' & -> & Hm' & Hne' & Hlk & Hsum). cbn [obind].
    destruct (pokeFM_ok o f m' (wo_fm _ _ Ho)) as [Hwfo Hb]; [by rewrite Hm|].
    destruct (outer_set n o _ f m' Ho Hf (conj Hm' (Hne' Hnem)) Hwfo (wo_stack _ _ Ho) Hb) as (Hwf' & Hcnt & Hs).
    eexists. split; [reflexivity|]. split_and!; [done| |].
    + intros f' l. rewrite Hcnt. destruct (Z.eqb_spec (kCmp f f') 0) as [E|]; [|done].
      rewrite Hlk. unfold ocount. by rewrite <-(lookupFM_same o f f' (wo_fm _ _ Ho) E), Hm.
    + intros j. rewrite Hs, Hm. unfold u64 in *. rewrite Zminus_mod, Zplus_mod, Hsum.
      rewrite <-Zplus_mod, <-Zminus_mod. f_equal. lia.
  - destruct (dopyFM_ok so (wi_fm _ _ Hso) (wi_stack _ _ Hso)) as (m' & Heq & Hwfm & Hbm & Hstm).
    unfold dopy_InnerMap. rewrite Heq. cbn [obind].
    replace (dopy_FileFn f) with f by (by destruct f).
    destruct (addToFM_ok o f m' (wo_fm _ _ Ho)) as (o' & -> & Hwfo & Hb & Hst).
    rewrite (wo_stack _ _ Ho) in Hst.
    assert (Hm' : inner_ok n m') by (split; [split; [done|done|rewrite Hbm; apply Hso]|by rewrite Hbm]).
    destruct (outer_set n o o' f m' Ho Hf Hm' Hwfo Hst Hb) as (Hwf' & Hcnt & Hs).
    eexists. split; [reflexivity|]. split_and!; [done| |].
    + intros f' l. rewrite Hcnt. destruct (Z.eqb_spec (kCmp f f') 0) as [E|]; [|done].
      unfold ocount. rewrite <-(lookupFM_same o f f' (wo_fm _ _ Ho) E), Hm.
      rewrite !lookupFM_ok, Hbm by (done || apply Hso). by destruct (assoc l (bindings so)).
    + intros j. rewrite Hs, Hm. unfold isum. rewrite Hbm. f_equal. lia.
Qed.

Lemma merge_fold n xs o : sorted xs -> all_bindings name_ok (fun m => inner_ok n m /\ small_fm m) xs -> wf_outer n o ->
  exists o', ofold merge_step xs o = Ok o' /\ wf_outer n o'
    /\ (forall f l, ocount o' f l =
          plus_counts (ocount o f l) (match assoc f xs with Some m => lookupFM m l | None => None end))
    /\ forall j, u64 (osum j o') = u64 (osum j o + sum_values (isum j) xs).
Proof.
  intros Hs Hxs. revert o. induction Hs as [|[f so] xs Hs IH Hall]; intros o Ho; cbn [ofold].
  { exists o. split_and!; [done|done| |]; intros; [by rewrite plus_counts_None|].
    unfold sum_values. cbn. by rewrite Z.add_0_r. }
  inversion Hxs as [|? ? (Hf & Hso & Hsz) Hxs']; subst. cbn [fst snd] in *.
  destruct (merge_step_ok n f so o Ho Hf Hso Hsz) as (o1 & -> & Ho1 & Hcnt & Hsum). cbn [obind].
  destruct (IH Hxs' o1 Ho1) as (o' & -> & Ho' & Hcnt' & Hsum').
  exists o'. split_and!; [done|done| |].
  - intros f' l. rewrite Hcnt', Hcnt, assoc_cons. cbn [fst snd]. destruct (Z.eqb_spec (kCmp f f') 0) as [E|]; [|done].
    rewrite (assoc_beyond f' (f, so) xs) by (done || cbn; lia). by rewrite plus_counts_None.
  - intros j. rewrite Hsum', sum_cons. cbn [snd]. unfold u64 in *.
    rewrite <-Zplus_mod_idemp_l, Hsum, Zplus_mod_idemp_l. f_equal. lia.
Qed.

(** Maps the iterator can go through. *)
Definition small_profile (p : CacheProfFile) : Prop :=
  small_fm (outerMap p) /\ Forall (fun x => small_fm (snd x)) (bindings (outerMap p)).

Lemma merge_same_events (dst src : CacheProfFile) :
  wf_profile dst -> wf_profile src -> small_profile src -> merge_events_line dst = merge_events_line src ->
  exists p, merge_CacheProfInfo dst src = Ok p /\ wf_profile p /\ same_head p dst
    /\ (forall f l, count p f l = plus_counts (count dst f l) (count src f l))
    /\ summary p = addc (summary dst) (summary src).
Proof.
  intros [Hhd [Ho Hs Ht]] [Hhs [Ho' Hs' Ht']] [Hsz Hszi] Hev. unfold merge_CacheProfInfo, streq.
  rewrite Hev, VG_strcmp_refl. cbn [Z.eqb negb].
  assert (Hn : n_events src = n_events dst) by (by rewrite (wh_events _ Hhd), (wh_events _ Hhs), Hev).
  rewrite Hn in *. rewrite iterateFM_ok by (done || apply Ho').
  destruct (merge_fold (n_events dst) (bindings (outerMap src)) (outerMap dst)) as (o & Heq & Hwo & Hcnt & Hsum).
  - apply Ho'.
  - pose proof (wo_inner _ _ Ho') as Hin. unfold all_bindings in *. rewrite Forall_forall in Hin, Hszi |- *.
    intros x Hx. destruct (Hin x Hx). pose proof (Hszi x Hx). tauto.
  - done.
  - unfold merge_step in Heq. rewrite Heq. cbn [obind].
    destruct (addCounts_ok (n_events dst) (summary dst) (summary src) Hs Hs') as [-> Hsok]. cbn [obind].
    eexists. split; [reflexivity|]. split_and!; [|done| |done].
    + split; [by destruct Hhd; split|]. split; cbn [set_field n_events outerMap summary]; [done|done|].
      intros j. rewrite (event_addc j (n_events dst)) by done. rewrite Hsum. unfold u64 in *.
      by rewrite Zplus_mod, Ht, Ht', <-Zplus_mod.
    + intros f l. unfold count. cbn [set_field outerMap]. rewrite Hcnt. f_equal.
      unfold ocount. by rewrite lookupFM_ok by apply Ho'.
Qed.

(** Merging two profiles of the same events succeeds, keeps the invariant,
    and gives every line of every function the sum (modulo 2^64) of its counts
    in the two, or its counts in the one that has it; the summaries are added
    too and the head is that of the first.  Profiles of other events are
    rejected. *)
Theorem merge_adds_counts (dst src : CacheProfFile) :
  wf_profile dst -> wf_profile src -> small_profile src ->
  if decide (merge_events_line dst = merge_events_line src) then
    exists p, merge_CacheProfInfo dst src = Ok p /\ wf_profile p /\ same_head p dst
      /\ (forall f l, count p f l = plus_counts (count dst f l) (count src f l))
      /\ summary p = addc (summary dst) (summary src)
  else merge_CacheProfInfo dst src = Err (Exited 1).
Proof.
  intros Hd Hr Hsz. case_decide as Hev; [by apply merge_same_events|]. unfold merge_CacheProfInfo, streq.
  destruct (Z.eqb_spec (VG_strcmp (merge_events_line dst) (merge_events_line src)) 0) as [E|]; [exfalso|done].
  apply Hev, VG_strcmp_eq; [| |done]; apply clean_nul_free; [apply (wh_line _ (wp_head _ Hd))|apply (wh_line _ (wp_head _ Hr))].
Qed.

(** ** A profile *)

Definition demo_profile : CacheProfFile :=
  match parse_CacheProfFile small_file with
  | Ok p => p
  | Err _ => mk_CacheProfFile [] EmptyString EmptyString 0 newFM []
  end.

Lemma demo_profile_parsed : parse_CacheProfFile small_file = Ok demo_profile.
Proof. vm_compute. reflexivity. Qed.

Lemma demo_profile_wf : wf_profile demo_profile.
Proof. apply (parse_accepted small_file), demo_profile_parsed. Qed.

Definition small_profileb (p : CacheProfFile) : bool :=
  (length (bindings (outerMap p)) <? 1000)%nat && forallb (fun x => (length (bindings (snd x)) <? 1000)%nat) (bindings (outerMap p)).

Lemma small_profileb_ok p : small_profileb p = true -> small_profile p.
Proof.
  unfold small_profileb. rewrite andb_true_iff, Nat.ltb_lt, List.forallb_forall. intros [Ho Hi].
  split; [unfold small_fm; lia|]. apply List.Forall_forall. intros x Hx. specialize (Hi x Hx).
  apply Nat.ltb_lt in Hi. unfold small_fm. lia.
Qed.

Lemma demo_profile_small : small_profile demo_profile.
Proof. apply small_profileb_ok. vm_compute. reflexivity. Qed.

Lemma merge_adds_counts_witness :
  count demo_profile (mk_FileFn "b.c" "g") 7 = Some [11; 22] /\
  exists p, merge_CacheProfInfo demo_profile demo_profile = Ok p /\ wf_profile p /\ same_head p demo_profile
    /\ (forall f l, count p f l = plus_counts (count demo_profile f l) (count demo_profile f l))
    /\ summary p = addc (summary demo_profile) (summary demo_profile).
Proof.
  split; [vm_compute; reflexivity|].
  pose proof (merge_adds_counts demo_profile demo_profile demo_profile_wf demo_profile_wf demo_profile_small) as H.
  rewrite decide_True in H by done. exact H.
Defined.
