(* ===== verification/MergeTrip.v ===== *)
(** * Round trips of profiles

    A file whose lines are a head, names, counts and their sum is accepted by
    [parse_CacheProfFile] and gives exactly these counts; what
    [show_CacheProfFile] writes is such a file. *)

From S2P Require Import Prelude LibcBase Printf OSet OSetTheory WordFM WordTheory.
From S2P Require Import Merge MergeText MergeTheory.

(** ** Prefixes *)

Lemma streqn_hd0 s t n : streqn s t (S n) = true -> hd0 s = hd0 t.
Proof.
  unfold streqn. cbn [VG_strncmp]. intros H%Z.eqb_eq.
  destruct (Z.ltb_spec (hd0 s) (hd0 t)); [done|]. destruct (Z.ltb_spec (hd0 t) (hd0 s)); [done|]. lia.
Qed.

Lemma streqn_other s t n : hd0 s <> hd0 t -> streqn s t (S n) = false.
Proof. intros Hne. apply not_true_is_false. by intros H%streqn_hd0. Qed.

(** ** The lines between the head and the summary *)

Inductive item :=
| Fl (name : string)
| Fn (name : string)
| Cnt (l : Z) (c : Counts).

(** [line] is a line for the item. *)
Definition item_line (n : Z) (i : item) (line : string) : Prop :=
  match i with
  | Fl name => line = ("fl=" +:+ name)%string /\ clean name = true
  | Fn name => line = ("fn=" +:+ name)%string /\ clean name = true
  | Cnt l c =>
      clean line = true /\ VG_isdigit (hd0 line) = true /\ splitUpCountsLine true line = Ok (l, c)
      /\ line_ok l /\ counts_ok n c
  end.

(** The counts with the function they belong to. *)
Fixpoint records (fl fn : string) (items : list item) : list (FileFn * Z * Counts) :=
  match items with
  | [] => []
  | Fl name :: items => records name fn items
  | Fn name :: items => records fl name items
  | Cnt l c :: items => (mk_FileFn fl fn, l, c) :: records fl fn items
  end.

Definition add_record (r : FileFn * Z * Counts) (cnt : FileFn -> Z -> option Counts) : FileFn -> Z -> option Counts :=
  add_count (fst (fst r)) (snd (fst r)) (snd r) cnt.

Definition add_records (rs : list (FileFn * Z * Counts)) (cnt : FileFn -> Z -> option Counts)
  : FileFn -> Z -> option Counts := foldl (fun cnt r => add_record r cnt) cnt rs.

Definition records_total (rs : list (FileFn * Z * Counts)) (c : Counts) : Counts :=
  foldl (fun c r => addc c (snd r)) c rs.

Lemma add_record_ext r cnt cnt' : (forall f l, cnt f l = cnt' f l) -> forall f l, add_record r cnt f l = add_record r cnt' f l.
Proof. intros H f l. unfold add_record, add_count. by rewrite !H. Qed.

Lemma add_records_ext rs cnt cnt' : (forall f l, cnt f l = cnt' f l) ->
  forall f l, add_records rs cnt f l = add_records rs cnt' f l.
Proof.
  revert cnt cnt'. induction rs as [|r rs IH]; intros cnt cnt' H f l; [apply H|]. cbn. apply IH. by apply add_record_ext.
Qed.

(** One line. *)
Lemma parse_item q i line : parser_ok q -> item_line (n_events (p_cpf q)) i line ->
  exists q', parse_line line q = Ok (Some q') /\ parser_ok q' /\ same_head (p_cpf q') (p_cpf q)
    /\ (let rs := records (curr_fl q) (curr_fn q) [i] in
        (forall f l, count (p_cpf q') f l = add_records rs (count (p_cpf q)) f l)
        /\ summary (p_cpf q') = records_total rs (summary (p_cpf q)))
    /\ forall items, records (curr_fl q) (curr_fn q) (i :: items)
         = records (curr_fl q) (curr_fn q) [i] ++ records (curr_fl q') (curr_fn q') items.
Proof.
  intros [Hc [Hfl Hfn]] Hi. destruct i as [name|name|l c].
  - destruct Hi as [-> Hname]. eexists. split; [reflexivity|].
    split_and!; [split; [done|by split]|done|by split|done].
  - destruct Hi as [-> Hname]. eexists. split; [reflexivity|].
    split_and!; [split; [done|by split]|done|by split|done].
  - destruct Hi as (Hcl & Hd & Hsplit & Hl & Hcs). unfold parse_line. rewrite Hd.
    destruct (handle_counts_ok (p_cpf q) (curr_fl q) (curr_fn q) line l c Hc (conj Hfl Hfn) Hsplit Hl Hcs)
      as (p' & -> & Hp' & Hh & Hcnt & Hsum). cbn [obind]. eexists. split; [reflexivity|]. by split_and!.
Qed.

Lemma parse_items items lines fuel rest q : Forall2 (item_line (n_events (p_cpf q))) items lines -> parser_ok q ->
  exists q', parse_lines (length lines + fuel) (unlines lines +:+ rest) q = parse_lines fuel rest q'
    /\ parser_ok q' /\ same_head (p_cpf q') (p_cpf q)
    /\ (let rs := records (curr_fl q) (curr_fn q) items in
        (forall f l, count (p_cpf q') f l = add_records rs (count (p_cpf q)) f l)
        /\ summary (p_cpf q') = records_total rs (summary (p_cpf q))).
Proof.
  revert lines q. induction items as [|i items IH]; intros lines q Hl Hq.
  { inversion Hl; subst. exists q. by split_and!. }
  inversion Hl as [|? line ? lines' Hi Hl' ]; subst. clear Hl.
  destruct (parse_item q i line Hq Hi) as (q1 & Heq & Hq1 & Hh1 & [Hcnt1 Hsum1] & Hrs).
  rewrite <-(sh_n _ _ Hh1) in Hl'. destruct (IH lines' q1 Hl' Hq1) as (q' & Heq' & Hq' & Hh' & Hcnt' & Hsum').
  exists q'. cbn [length Nat.add unlines parse_lines]. rewrite !string_app_assoc, readline_line.
  2: { destruct i; unfold item_line in Hi; [destruct Hi as [-> Hi]; by rewrite clean_app, Hi..|by destruct Hi]. }
  rewrite Heq. cbn [obind]. split_and!; [done|done|by etrans| |].
  - intros f l. rewrite Hcnt', (Hrs items). unfold add_records. rewrite foldl_app. by apply add_records_ext.
  - rewrite Hsum', Hsum1, (Hrs items). unfold records_total. by rewrite foldl_app.
Qed.

(** ** A whole file *)

Lemma read_descs ds fuel rest acc : Forall (line_of "desc: ") ds ->
  read_desc (length ds + fuel) (unlines ds +:+ rest)%string acc = read_desc fuel rest (acc ++ ds).
Proof.
  intros Hds. revert acc. induction Hds as [|d ds [Hd Hcl] _ IH]; intros acc; [by rewrite app_nil_r|].
  cbn [length Nat.add unlines read_desc]. rewrite !string_app_assoc, readline_line by done.
  change (String.length "desc: ") with 6%nat in Hd. rewrite Hd. cbn [negb]. by rewrite IH, <-app_assoc.
Qed.

(** The end of [parse_CacheProfFile], from the summary line on. *)
Definition parse_end (sl rest : string) (p : CacheProfFile) : outcome CacheProfFile :=
  match readline rest with
  | (Some _, _) => parseError
  | (None, _) =>
      let* (_, summaryRead) := splitUpCountsLine false (skip_chars 8 sl) in
      if negb (n_counts summaryRead =? n_events p) then parseError
      else if negb (bool_decide (summaryRead = summary p)) then parseError
      else Ok p
  end.

Section File.
Context (ds : list string) (cmd events : string) (items : list item) (lines : list string) (sl : string) (n : Z).
Let rs := records "???" "???" items.

(** The lines of a file: a head, the items and a summary line. *)
Record file_ok : Prop := {
  fo_some : ds <> [];
  fo_desc : Forall (line_of "desc: ") ds;
  fo_cmd : line_of "cmd: " cmd;
  fo_events : line_of "events: " events;
  fo_count : n = count_events (skip_chars 6 events);
  fo_pos : 1 <= n;
  fo_items : Forall2 (item_line n) items lines;
  fo_summary : line_of "summary: " sl
}.

Lemma parse_file_end rest : file_ok ->
  exists p, parse_CacheProfFile (unlines (ds ++ [cmd; events] ++ lines ++ [sl]) +:+ rest) = parse_end sl rest p
    /\ wf_profile p
    /\ desc_lines p = ds /\ cmd_line p = cmd /\ merge_events_line p = events
    /\ (forall f l, count p f l = add_records rs (fun _ _ => None) f l)
    /\ summary p = records_total rs (new_Counts_Zeroed n).
Proof.
  intros [Hne Hds [Hcmd Hccl] [Hev Hecl] Hn Hpos Hl [Hsl Hscl]].
  set (file := (unlines (ds ++ [cmd; events] ++ lines ++ [sl]) +:+ rest)%string).
  assert (Hlen : exists extra, S (String.length file) = (length ds + (3 + length lines + extra))%nat).
  { pose proof (length_unlines (ds ++ [cmd; events] ++ lines ++ [sl])) as H.
    unfold file. rewrite string_length_app. rewrite !length_app in H. cbn [length] in H.
    exists (S (String.length (unlines (ds ++ [cmd; events] ++ lines ++ [sl])) + String.length rest)
      - length ds - 3 - length lines)%nat. lia. }
  destruct Hlen as (extra & Hlen). unfold parse_CacheProfFile. rewrite Hlen. unfold file.
  rewrite unlines_app, string_app_assoc, read_descs by done. cbn [app Nat.add read_desc unlines].
  rewrite !string_app_assoc, readline_line by done.
  rewrite (streqn_other cmd "desc: " 5) by (rewrite (streqn_hd0 _ _ _ Hcmd); done). cbn [negb obind].
  destruct ds as [|d ds']; [done|]. cbn [length Nat.eqb].
  change (String.length "cmd: ") with 5%nat in Hcmd. rewrite Hcmd. cbn [negb].
  rewrite readline_line by done. change (String.length "events: ") with 8%nat in Hev. rewrite Hev. cbn [negb].
  rewrite (events_colon events Hev). cbn [Z.eqb Pos.eqb assert_that obind]. rewrite <-Hn.
  set (q := mk_parser (mk_CacheProfFile (d :: ds') cmd events n newFM (new_Counts_Zeroed n)) "???" "???").
  assert (Hq : parser_ok q) by (apply fresh_parser; lia).
  rewrite unlines_app, string_app_assoc.
  replace (S (length ds') + S (S (S (length lines + extra))))%nat
    with (length lines + (4 + length ds' + extra))%nat by lia.
  destruct (parse_items items lines (4 + length ds' + extra) (unlines [sl] +:+ rest) q Hl Hq)
    as (q' & -> & [Hc _] & Hh & Hcnt & Hsum).
  cbn [Nat.add unlines parse_lines]. rewrite !string_app_assoc, readline_line, string_nil_app by done.
  pose proof (streqn_hd0 _ _ _ Hsl) as Hs0. change (String.length "summary: ") with 9%nat in Hsl.
  assert (Hlast : parse_line sl q' = Ok None).
  { unfold parse_line. rewrite Hs0. change (VG_isdigit (hd0 "summary: ")) with false. cbn iota.
    rewrite !streqn_other by (rewrite Hs0; done). by rewrite Hsl. }
  rewrite Hlast. cbn [obind]. rewrite Hsl. cbn [negb].
  exists (p_cpf q'). destruct Hh as [Hd1 Hd2 Hd3 Hd4].
  cbn [q p_cpf desc_lines cmd_line merge_events_line n_events] in *. split_and!; try done.
  split; [|done]. split; rewrite ?Hd1, ?Hd2, ?Hd3, ?Hd4; done.
Qed.

Lemma parse_file : file_ok ->
  splitUpCountsLine false (skip_chars 8 sl) = Ok (0, records_total rs (new_Counts_Zeroed n)) ->
  exists p, parse_CacheProfFile (unlines (ds ++ [cmd; events] ++ lines ++ [sl])) = Ok p /\ wf_profile p
    /\ desc_lines p = ds /\ cmd_line p = cmd /\ merge_events_line p = events
    /\ (forall f l, count p f l = add_records rs (fun _ _ => None) f l)
    /\ summary p = records_total rs (new_Counts_Zeroed n).
Proof.
  intros Hf Hsplit. destruct (parse_file_end EmptyString Hf) as (p & Heq & Hwf & Hd & Hc & He & Hcnt & Hsum).
  rewrite string_app_nil_r in Heq. exists p. rewrite Heq. unfold parse_end. cbn [readline]. rewrite Hsplit. cbn [obind].
  rewrite <-Hsum. destruct (wc_summary _ (wp_counts _ Hwf)) as [Hns _]. rewrite Hns, Z.eqb_refl. cbn [negb].
  rewrite bool_decide_eq_true_2 by done. by split_and!.
Qed.

(** Nothing may follow the summary line. *)
Lemma parse_file_extra rest : file_ok -> rest <> EmptyString ->
  parse_CacheProfFile (unlines (ds ++ [cmd; events] ++ lines ++ [sl]) +:+ rest) = Err (Exited 1).
Proof.
  intros Hf Hrest. destruct (parse_file_end rest Hf) as (p & -> & _). unfold parse_end, readline.
  destruct rest as [|c rest]; [done|]. by destruct (read_chars (String c rest)).
Qed.

End File.

(** ** Adding distinct records *)

Lemma add_records_app rs rs' cnt f l : add_records (rs ++ rs') cnt f l = add_records rs' (add_records rs cnt) f l.
Proof. unfold add_records. by rewrite foldl_app. Qed.

Lemma inner_records f (ys : list (Z * Counts)) cnt f' l : sorted ys ->
  add_records (map (fun y => (f, fst y, snd y)) ys) cnt f' l
  = if kCmp f f' =? 0 then plus_counts (cnt f' l) (assoc l ys) else cnt f' l.
Proof.
  intros Hs. revert cnt. induction Hs as [|y ys Hs IH Hall]; intros cnt; cbn [map].
  { change (assoc l []) with (@None Counts). rewrite plus_counts_None. by case_test. }
  change (add_records ((f, fst y, snd y) :: map (fun y => (f, fst y, snd y)) ys) cnt f' l)
    with (add_records (map (fun y => (f, fst y, snd y)) ys) (add_count f (fst y) (snd y) cnt) f' l).
  rewrite IH, assoc_cons. unfold add_count. destruct (Z.eqb_spec (kCmp f f') 0); [|done]. cbn [andb].
  destruct (Z.eqb_spec (kCmp (fst y) l) 0); [|done].
  by rewrite (assoc_beyond l y ys), plus_counts_None by (done || lia).
Qed.

(** The records of a table, in the order of its bindings. *)
Definition table_records (xs : list (FileFn * InnerMap)) : list (FileFn * Z * Counts) :=
  flat_map (fun x => map (fun y => (fst x, fst y, snd y)) (bindings (snd x))) xs.

Lemma outer_records n (xs : list (FileFn * InnerMap)) cnt f l : sorted xs -> all_bindings name_ok (inner_ok n) xs ->
  add_records (table_records xs) cnt f l
  = plus_counts (cnt f l) (match assoc f xs with Some m => lookupFM m l | None => None end).
Proof.
  intros Hs Hxs. revert cnt. induction Hs as [|x xs Hs IH Hall]; intros cnt.
  { by change (assoc f []) with (@None InnerMap); rewrite plus_counts_None. }
  inversion Hxs as [|? ? [_ [Hm _]] Hxs']; subst. cbn [table_records flat_map]. rewrite add_records_app.
  fold (table_records xs). rewrite (IH Hxs'), inner_records, assoc_cons by apply Hm.
  destruct (Z.eqb_spec (kCmp (fst x) f) 0); [|done].
  rewrite (assoc_beyond f x xs), plus_counts_None by (done || lia). by rewrite lookupFM_ok by apply Hm.
Qed.

Lemma records_total_ok n rs c : Forall (fun r => counts_ok n (snd r)) rs -> counts_ok n c ->
  counts_ok n (records_total rs c)
  /\ forall j, u64 (event j (records_total rs c)) = u64 (event j c + foldr (fun r s => event j (snd r) + s) 0 rs).
Proof.
  intros Hrs. revert c. induction Hrs as [|r rs Hr _ IH]; intros c Hc; cbn [records_total foldl foldr].
  { split; [done|]. intros j. by rewrite Z.add_0_r. }
  destruct (addCounts_ok n c (snd r) Hc Hr) as [_ Hsum]. destruct (IH _ Hsum) as [Hok Hev]. split; [exact Hok|].
  intros j. unfold records_total in Hev. rewrite Hev. pose proof (event_addc j n c (snd r) Hc Hr) as He.
  unfold u64 in *. rewrite <-Zplus_mod_idemp_l, He, Zplus_mod_idemp_l. f_equal. lia.
Qed.

Lemma table_totals n xs : all_bindings name_ok (inner_ok n) xs ->
  Forall (fun r => counts_ok n (snd r)) (table_records xs)
  /\ forall j, foldr (fun r s => event j (snd r) + s) 0 (table_records xs) = sum_values (isum j) xs.
Proof.
  intros Hxs. induction Hxs as [|x xs [_ [Hm _]] Hxs [IH1 IH2]]; [done|]. cbn [table_records flat_map].
  fold (table_records xs). split.
  - apply Forall_app. split; [|done]. apply Forall_map. eapply Forall_impl; [apply Hm|]. by intros y [].
  - intros j. rewrite sum_cons, foldr_app, IH2.
    change (isum j (snd x)) with (foldr (fun y s => event j (snd y) + s) 0 (bindings (snd x))).
    generalize (sum_values (isum j) xs). intros z. induction (bindings (snd x)) as [|y ys IH]; cbn; [done|].
    rewrite IH. lia.
Qed.

(** ** The text of a profile *)

Definition count_line (l : Z) (c : Counts) : string :=
  match c with
  | [] => tok_text [(0%nat, l)] 3
  | v :: c => tok_text ((0%nat, l) :: (3%nat, v) :: map one_blank c) 1
  end.

Definition count_lines (m : InnerMap) : list string := map (fun y => count_line (fst y) (snd y)) (bindings m).
Definition table_lines (xs : list (FileFn * InnerMap)) : list string :=
  flat_map (fun x => ("fl=" +:+ fi_name (fst x))%string :: ("fn=" +:+ fn_name (fst x))%string :: count_lines (snd x)) xs.
Definition table_items (xs : list (FileFn * InnerMap)) : list item :=
  flat_map (fun x => Fl (fi_name (fst x)) :: Fn (fn_name (fst x)) ::
                     map (fun y => Cnt (fst y) (snd y)) (bindings (snd x))) xs.

(** Numbers that are printed without a sign. *)
Definition positive_long (v : Z) : Prop := 0 <= v < 2 ^ 63.
Definition printable_map (m : InnerMap) : Prop := all_bindings positive_long (Forall positive_long) (bindings m).

Record printable_profile (p : CacheProfFile) : Prop := {
  pp_map : Forall (fun x => printable_map (snd x)) (bindings (outerMap p));
  pp_summary : Forall positive_long (summary p)
}.

Lemma records_table fl fn xs : records fl fn (table_items xs) = table_records xs.
Proof.
  revert fl fn. induction xs as [|x xs IH]; intros fl fn; [done|]. cbn [table_items flat_map records app table_records].
  fold (table_items xs) (table_records xs). destruct x as [[fi fn'] m]. cbn [fst snd fi_name fn_name].
  induction (bindings m) as [|y ys IHy]; cbn [map app records]; [apply IH|]. by rewrite IHy.
Qed.

Lemma item_count_line n l c : 1 <= n -> positive_long l -> Forall positive_long c -> counts_ok n c ->
  item_line n (Cnt l c) (count_line l c).
Proof.
  intros Hn Hl Hp Hc. pose proof Hc as [Hlen Hr]. destruct c as [|v c]; [unfold n_counts in Hlen; cbn in Hlen; lia|].
  assert (Hl' : line_ok l) by (unfold positive_long, line_ok in *; lia). unfold count_line, item_line.
  assert (Hvals : map snd ((3%nat, v) :: map one_blank c) = v :: c).
  { cbn [map snd]. f_equal. rewrite map_map. unfold one_blank. cbn [snd]. apply map_id. }
  assert (Htoks : toks_ok ((0%nat, l) :: (3%nat, v) :: map one_blank c)).
  { split; cbn [tail].
    - constructor; [cbn; lia|]. apply Forall_map, Forall_true. intros x. cbn. lia.
    - inversion Hr; subst. constructor; [done|]. constructor; [done|]. by apply Forall_map. }
  split_and!; [apply clean_tok_text| | |done|done].
  - cbn [tok_text blanks]. rewrite string_nil_app. by apply hd0_nat_text.
  - by rewrite split_with_lnno, Hvals.
Qed.

Lemma items_table n xs : 1 <= n -> all_bindings name_ok (inner_ok n) xs -> Forall (fun x => printable_map (snd x)) xs ->
  Forall2 (item_line n) (table_items xs) (table_lines xs).
Proof.
  intros Hn Hxs Hp. revert Hp. induction Hxs as [|x xs [[Hfl Hfn] [Hm _]] Hxs IH]; intros Hp; [constructor|].
  inversion Hp as [|? ? Hpm Hp']; subst. cbn [table_items table_lines flat_map app].
  constructor; [done|]. constructor; [done|]. apply Forall2_app; [|by apply IH].
  unfold count_lines. pose proof (wi_counts _ _ Hm) as Hc. unfold printable_map, all_bindings in *.
  induction Hc as [|y ys [Hl Hcs] _ IHy]; cbn [map]; [constructor|]. inversion Hpm as [|? ? [Hpl Hpc] Hpm']; subst.
  constructor; [by apply item_count_line|by apply IHy].
Qed.

(** ** What [show_CacheProfFile] writes *)

Lemma foldl_unlines f ds : foldl (fun f d => f +:+ d +:+ newline)%string f ds = (f +:+ unlines ds)%string.
Proof.
  revert f. induction ds as [|d ds IH]; intros f; cbn [foldl unlines]; [by rewrite string_app_nil_r|].
  by rewrite IH, !string_app_assoc.
Qed.

Lemma show_count_line f l c : positive_long l -> Forall positive_long c ->
  (showCounts (f +:+ fmt_lld l +:+ "   ") c +:+ newline = f +:+ count_line l c +:+ newline)%string.
Proof.
  intros Hl Hc. rewrite showCounts_text, fmt_lld_nat by done. rewrite !string_app_assoc. f_equal.
  destruct c as [|v c]; cbn [count_line tok_text blanks]; rewrite !string_nil_app, !string_app_assoc; done.
Qed.

Lemma show_inner m f : wf_fm m -> small_fm m -> printable_map m ->
  iterateFM m (fun subKey subVal f =>
    Ok (showCounts (f +:+ fmt_lld subKey +:+ "   ") subVal +:+ newline)%string) f
  = Ok (f +:+ unlines (count_lines m))%string.
Proof.
  intros Hm Hsz Hp. rewrite iterateFM_ok by done. unfold printable_map, count_lines in *. revert f.
  induction Hp as [|y ys [Hl Hc] _ IH]; intros f; cbn [ofold map unlines obind]; [by rewrite string_app_nil_r|].
  by rewrite show_count_line, IH, !string_app_assoc.
Qed.

Lemma show_outer n xs f : all_bindings name_ok (inner_ok n) xs -> Forall (fun x => small_fm (snd x)) xs ->
  Forall (fun x => printable_map (snd x)) xs ->
  ofold (fun x f =>
    iterateFM (snd x) (fun subKey subVal f =>
      Ok (showCounts (f +:+ fmt_lld subKey +:+ "   ") subVal +:+ newline)%string)
      (f +:+ "fl=" +:+ fi_name (fst x) +:+ newline +:+ "fn=" +:+ fn_name (fst x) +:+ newline)%string) xs f
  = Ok (f +:+ unlines (table_lines xs))%string.
Proof.
  intros Hxs Hsz Hp. revert f Hsz Hp. induction Hxs as [|x xs [_ [Hm _]] Hxs IH]; intros f Hsz Hp; cbn [ofold].
  { by rewrite string_app_nil_r. }
  inversion Hsz as [|? ? Hs Hsz']; subst. inversion Hp as [|? ? Hpm Hp']; subst.
  rewrite show_inner by (done || apply Hm). cbn [obind]. rewrite IH by done.
  cbn [table_lines flat_map app unlines]. fold (table_lines xs). by rewrite unlines_app, !string_app_assoc.
Qed.

Definition summary_text (c : Counts) : string := ("summary:" +:+ tok_text (map one_blank c) 0)%string.

Lemma show_text p : wf_profile p -> small_profile p -> printable_profile p ->
  show_CacheProfFile EmptyString p
  = Ok (unlines (desc_lines p ++ [cmd_line p; merge_events_line p] ++ table_lines (bindings (outerMap p))
         ++ [summary_text (summary p)])).
Proof.
  intros [Hh [Ho Hs _]] [Hsz Hszi] [Hpm Hps]. unfold show_CacheProfFile. rewrite foldl_unlines, string_nil_app.
  rewrite iterateFM_ok by (done || apply Ho).
  rewrite (show_outer (n_events p)) by (done || apply Ho). cbn [obind].
  rewrite foldl_counts_text by done. f_equal. rewrite unlines_app. cbn [app unlines].
  rewrite unlines_app. cbn [unlines]. unfold summary_text. by rewrite !string_app_assoc, string_app_nil_r.
Qed.

Lemma show_parsed (p : CacheProfFile) : wf_profile p -> small_profile p -> printable_profile p ->
  exists text p', show_CacheProfFile EmptyString p = Ok text /\ parse_CacheProfFile text = Ok p'
    /\ wf_profile p' /\ same_head p' p /\ (forall f l, count p' f l = count p f l) /\ summary p' = summary p.
Proof.
  intros Hp Hsz Hpr. rewrite show_text by done. destruct Hp as [[Hd1 Hd2 Hcm Hev1 Hnev Hpos] [Ho Hs Ht]], Hpr as [Hpm Hps].
  set (xs := bindings (outerMap p)). pose proof (wo_inner _ _ Ho) as Hin. fold xs in Hin.
  destruct (table_totals (n_events p) xs Hin) as [Hrs Hev].
  destruct (zeroed_ok (n_events p) ltac:(lia)) as [Hz Hz0].
  destruct (records_total_ok (n_events p) (table_records xs) (new_Counts_Zeroed (n_events p)) Hrs Hz) as [Htot Htev].
  assert (Hsum : records_total (table_records xs) (new_Counts_Zeroed (n_events p)) = summary p).
  { apply (counts_ext (n_events p)); [done|done|]. intros j. rewrite Htev, Hz0, Hev, Ht. done. }
  assert (Hne : exists v c, summary p = v :: c).
  { pose proof Hs as [Hlen _]. unfold n_counts in Hlen. destruct (summary p) as [|v c]; [cbn in Hlen; lia|eauto]. }
  destruct Hne as (v & c & Hvc). pose proof (items_table (n_events p) xs Hpos Hin Hpm) as Hit.
  destruct (parse_file (desc_lines p) (cmd_line p) (merge_events_line p) (table_items xs) (table_lines xs)
    (summary_text (summary p)) (n_events p)) as (p' & Heq & Hwf & Hd & Hc & He & Hcnt & Hsm).
  - split; try done. rewrite Hvc. split; [done|]. unfold summary_text. rewrite clean_app. apply clean_tok_text.
  - rewrite records_table, Hsum. change (skip_chars 8 (summary_text (summary p))) with (tok_text (map one_blank (summary p)) 0).
    rewrite Hvc. cbn [map]. rewrite split_counts.
    + cbn [map one_blank snd]. rewrite map_map. unfold one_blank. cbn [snd]. by rewrite map_id.
    + split; cbn [tail].
      * apply Forall_map, Forall_true. intros x. cbn. lia.
      * rewrite <-(map_cons one_blank), <-Hvc. apply Forall_map. apply Hs.
  - eexists _, p'. split; [reflexivity|]. split; [exact Heq|]. split; [done|]. split; [split; try done|split].
    + rewrite (wh_events _ (wp_head _ Hwf)), He. done.
    + intros f l. rewrite Hcnt, records_table, (outer_records (n_events p)); [|apply Ho|done].
      unfold count, ocount. cbn [plus_counts]. rewrite (lookupFM_ok (outerMap p)) by apply Ho. fold xs.
      destruct (assoc f xs) as [m|]; [|done]. by destruct (lookupFM m l).
    + by rewrite Hsm, records_table.
Qed.

(** C37: what [show_CacheProfFile] writes for a well-formed profile, the parser
    of the same program accepts, and the profile it gives has the same head,
    the same counts for every line of every function, and the same summary;
    provided that the numbers are below 2^63, as they are printed as signed, and
    that each map of the profile has fewer than 9227464 nodes, since for more
    the stack of the iterator that shows them may not do, and its assertion fails. *)
Theorem show_then_parse (p : CacheProfFile) : wf_profile p -> small_profile p -> printable_profile p ->
  exists text p', show_CacheProfFile EmptyString p = Ok text /\ parse_CacheProfFile text = Ok p'
    /\ wf_profile p' /\ same_head p' p /\ (forall f l, count p' f l = count p f l) /\ summary p' = summary p.
Proof. apply show_parsed. Qed.

Definition printable_profileb (p : CacheProfFile) : bool :=
  let small v := (0 <=? v) && (v <? 2 ^ 63) in
  forallb (fun x => forallb (fun y => small (fst y) && forallb small (snd y)) (bindings (snd x))) (bindings (outerMap p))
  && forallb small (summary p).

Lemma printable_profileb_ok p : printable_profileb p = true -> printable_profile p.
Proof.
  assert (Hs : forall v, (0 <=? v) && (v <? 2 ^ 63) = true -> positive_long v)
    by (intros v; unfold positive_long; rewrite andb_true_iff, Z.leb_le, Z.ltb_lt; tauto).
  unfold printable_profileb. rewrite andb_true_iff, !List.forallb_forall. intros [Ho Hm].
  split; apply List.Forall_forall; [|intros v Hv; by apply Hs, Hm].
  intros x Hx. apply List.Forall_forall. intros y Hy. specialize (Ho x Hx). rewrite List.forallb_forall in Ho.
  specialize (Ho y Hy). rewrite andb_true_iff, List.forallb_forall in Ho. destruct Ho as [H1 H2].
  split; [by apply Hs|]. apply List.Forall_forall. intros v Hv. by apply Hs, H2.
Qed.

Lemma show_then_parse_witness :
  summary demo_profile = [16; 23] /\
  exists text p', show_CacheProfFile EmptyString demo_profile = Ok text /\ parse_CacheProfFile text = Ok p'
    /\ wf_profile p' /\ same_head p' demo_profile /\ (forall f l, count p' f l = count demo_profile f l)
    /\ summary p' = summary demo_profile.
Proof.
  split; [vm_compute; reflexivity|].
  apply (show_then_parse demo_profile demo_profile_wf demo_profile_small).
  apply printable_profileb_ok. vm_compute. reflexivity.
Defined.
