(* ===== verification/MergeMain.v ===== *)
(** * The program cg_merge

    What the command line makes of the files it names: a profile in which every
    line has the sum of its counts in the files, written in a form that the
    program reads again. *)

From S2P Require Import Prelude LibcBase Printf OSet OSetTheory WordFM WordTheory.
From S2P Require Import Merge MergeText MergeTheory MergeTrip.

(** ** The lines of a profile *)

(** The lines that have counts. *)
Definition keys (p : CacheProfFile) : list (FileFn * Z) :=
  flat_map (fun x => map (fun y => (fst x, fst y)) (bindings (snd x))) (bindings (outerMap p)).

Lemma FileFn_same f g : name_ok f -> name_ok g -> kCmp f g = 0 -> f = g.
Proof.
  intros [Hf1 Hf2] [Hg1 Hg2]. unfold kCmp, FileFn_cmp, cmp_FileFn. destruct f as [a b], g as [c d]. cbn in *.
  case_test; [|lia]. intros H. f_equal; apply VG_strcmp_eq; (done || by apply clean_nul_free).
Qed.

Lemma keys_count p f l : wf_profile p -> (f, l) ∈ keys p -> name_ok f /\ is_Some (count p f l).
Proof.
  intros [_ [[Ho _ Hin] _ _]] (x & Hx & Hy)%list_elem_of_In%in_flat_map.
  apply in_map_iff in Hy as ([l' c] & [= <- <-] & Hy). unfold all_bindings in Hin.
  rewrite List.Forall_forall in Hin. destruct (Hin x Hx) as [Hf [[Hm _ _] _]]. split; [done|].
  destruct x as [f' m]. cbn in *. unfold count, ocount. rewrite lookupFM_ok by done.
  rewrite (assoc_elem _ f' m) by (apply Ho || by apply list_elem_of_In). rewrite lookupFM_ok by done.
  rewrite (assoc_elem _ l' c) by (apply Hm || by apply list_elem_of_In). by eexists.
Qed.

Lemma count_elem p f l c : wf_profile p -> count p f l = Some c ->
  exists f' m, (f', m) ∈ bindings (outerMap p) /\ name_ok f' /\ kCmp f' f = 0 /\ (l, c) ∈ bindings m.
Proof.
  intros [_ [[Ho _ Hin] _ _]]. unfold count, ocount, all_bindings in *. rewrite List.Forall_forall in Hin.
  rewrite lookupFM_ok by done. unfold assoc. destruct (find_key f _) as [[f' m]|] eqn:E; [|done]. cbn [fmap option_map option_fmap snd].
  apply find_key_Some in E as [Hx Hk]. destruct (Hin (f', m)) as [Hf' [[Hm _ _] _]]; [by apply list_elem_of_In|]. cbn in Hf', Hm.
  rewrite lookupFM_ok by done. unfold assoc. destruct (find_key l _) as [[l' c']|] eqn:E; [|done]. intros [= ->].
  apply find_key_Some in E as [Hy Hl]. cbn in Hk, Hl.
  assert (l' = l) as -> by (apply (cmp_unboxed_UWord_spec l' l); change (kCmp l' l = 0); lia).
  exists f', m. split_and!; (done || lia).
Qed.

Lemma count_keys p f l c : wf_profile p -> name_ok f -> count p f l = Some c -> (f, l) ∈ keys p.
Proof.
  intros Hp Hf Hc. apply (count_elem p f l c Hp) in Hc as (f' & m & Hx & Hf' & Hk & Hy).
  rewrite (FileFn_same f' f) in Hx by done. apply list_elem_of_In in Hx, Hy.
  apply list_elem_of_In, in_flat_map. exists (f, m). split; [done|]. apply in_map_iff. by exists (l, c).
Qed.

Lemma before_other {K V} `{WordOrder K} (x y : K * V) : before x y -> fst y <> fst x.
Proof.
  intros Hb%before_kcmp Hf. cbn in Hb. rewrite Hf in Hb. pose proof (kCmp_antisym (fst x) (fst x)).
  destruct (kCmp (fst x) (fst x)); cbn in *; lia.
Qed.

Lemma NoDup_keys p : wf_profile p -> NoDup (keys p).
Proof.
  intros [_ [[[_ Ho] _ Hin] _ _]]. unfold keys. fold (bindings (outerMap p)) in Ho.
  induction Ho as [|x xs Hs IH Hall]; [constructor|]. inversion Hin as [|? ? [_ [[[_ Hm] _ _] _]] Hin']; subst.
  cbn [flat_map]. apply NoDup_app. split_and!; [| |by apply IH].
  - clear -Hm. fold (bindings (snd x)) in Hm. induction Hm as [|y ys Hs IH Hall]; cbn [map]; constructor; [|done].
    intros Hy%list_elem_of_In. apply in_map_iff in Hy as (z & [= Hz] & Hin).
    rewrite List.Forall_forall in Hall. specialize (Hall z Hin). by apply (before_other y z).
  - intros [f l] Hf Hf'. apply list_elem_of_In, in_map_iff in Hf as (y & [= <- <-] & _).
    apply list_elem_of_In, in_flat_map in Hf' as (z & Hz & Hy'). apply in_map_iff in Hy' as (y' & [= Hfz _] & _).
    rewrite List.Forall_forall in Hall. specialize (Hall z Hz). by apply (before_other x z).
Qed.

(** ** The merged profile *)

(** The counts of a line, added up in the order of the files. *)
Definition merged (ps : list CacheProfFile) (f : FileFn) (l : Z) : option Counts :=
  foldl (fun o p => plus_counts o (count p f l)) None ps.

Lemma merged_from ps o f l : foldl (fun o p => plus_counts o (count p f l)) o ps <> None ->
  o <> None \/ exists p, p ∈ ps /\ count p f l <> None.
Proof.
  revert o. induction ps as [|p ps IH]; intros o Hm; [by left|]. cbn in Hm. apply IH in Hm as [Hm|(q & Hq & Hm)].
  - destruct o as [c|]; [by left|]. right. exists p. split; [left|]. by destruct (count p f l).
  - right. exists q. split; [by right|done].
Qed.

(** A merged profile has no more lines than the files together. *)
Lemma length_keys p ps : wf_profile p -> Forall wf_profile ps -> (forall f l, count p f l = merged ps f l) ->
  (length (keys p) <= length (flat_map keys ps))%nat.
Proof.
  intros Hp Hps Hm. apply submseteq_length, NoDup_submseteq; [by apply NoDup_keys|].
  intros [f l] Hk. apply (keys_count p f l Hp) in Hk as [Hf [c Hc]]. rewrite Hm in Hc.
  destruct (merged_from ps None f l) as [|(q & Hq & Hcq)]; [by unfold merged in Hc; rewrite Hc|done|].
  rewrite Forall_forall in Hps. apply list_elem_of_In, in_flat_map. exists q. split; [by apply list_elem_of_In|].
  apply list_elem_of_In. destruct (count q f l) as [cq|] eqn:Ecq; [|done]. by apply (count_keys q f l cq); [apply Hps| |].
Qed.

Lemma few_keys_small p : wf_profile p -> Z.of_nat (length (keys p)) < 9227464 -> small_profile p.
Proof.
  intros [_ [[_ _ Hin] _ _]]. unfold small_profile, small_fm, keys. generalize 9227464. intros n.
  induction Hin as [|x xs [_ [_ Hne]] Hin IH]; intros Hlen; [by split|].
  cbn [flat_map] in Hlen. rewrite length_app, length_map in Hlen. destruct IH as [Ho Hi]; [lia|].
  assert (length xs <= length (flat_map (fun x => map (fun y => (fst x, fst y)) (bindings (snd x))) xs))%nat.
  { clear -Hin. induction Hin as [|x xs [_ [_ Hne]] Hin IH]; [done|]. cbn [flat_map].
    rewrite length_app, length_map. destruct (bindings (snd x)); [done|]. cbn [length]. lia. }
  split; [destruct (bindings (snd x)); [done|]; cbn [length] in *; lia|]. constructor; [lia|done].
Qed.

Lemma printable_counts p : wf_profile p -> Forall positive_long (summary p) ->
  (forall f l c, count p f l = Some c -> positive_long l /\ Forall positive_long c) -> printable_profile p.
Proof.
  intros Hp Hs Hc. split; [|done]. apply List.Forall_forall. intros x Hx. apply List.Forall_forall. intros y Hy.
  pose proof Hp as [_ [[Ho _ Hin] _ _]]. unfold all_bindings in Hin. rewrite List.Forall_forall in Hin.
  destruct (Hin x Hx) as [_ [[Hm _ _] _]]. apply (Hc (fst x)). unfold count, ocount. destruct x as [f m], y as [l c]. cbn in *.
  rewrite lookupFM_ok, (assoc_elem _ f m) by (apply Ho || done || by apply list_elem_of_In).
  by rewrite lookupFM_ok, (assoc_elem _ l c) by (apply Hm || done || by apply list_elem_of_In).
Qed.

(** ** The files of the command line *)

Section Files.
Context (fopen : string -> option string).

(** [merge_files] without the "-o". *)
Definition merge_list (args : list string) (cpf : option CacheProfFile) : outcome (option CacheProfFile) :=
  ofold (fun a cpf =>
    match fopen a with
    | None => parseError
    | Some fp =>
        let* cpfTmp := parse_CacheProfFile fp in
        let* cpf := match cpf with None => Ok cpfTmp | Some cpf => merge_CacheProfInfo cpf cpfTmp end in
        Ok (Some cpf)
    end) args cpf.

Lemma merge_files_plain ix as1 as2 i cpf : (ix < i \/ i + length as1 <= ix)%nat ->
  merge_files fopen ix (as1 ++ as2) i cpf
  = let* cpf := merge_list as1 cpf in merge_files fopen ix as2 (i + length as1) cpf.
Proof.
  revert i cpf. induction as1 as [|a as1 IH]; intros i cpf Hi; cbn [app length merge_list ofold obind].
  { by rewrite Nat.add_0_r. }
  cbn [merge_files]. cbn [length] in Hi. destruct (Nat.eqb_spec i ix); [lia|]. destruct (fopen a) as [fp|]; [|done].
  rewrite !bind_assoc. destruct (parse_CacheProfFile fp) as [q|e]; [|done]. cbn [obind]. rewrite bind_assoc.
  destruct (match cpf with None => Ok q | Some cpf => merge_CacheProfInfo cpf q end) as [r|e]; [|done]. cbn [obind].
  rewrite IH by lia. by replace (S i + length as1)%nat with (i + S (length as1))%nat by lia.
Qed.

(** The file [a] is that of the profile [p]. *)
Definition file_of (a : string) (p : CacheProfFile) : Prop :=
  exists fp, fopen a = Some fp /\ parse_CacheProfFile fp = Ok p.

Lemma file_of_wf a p : file_of a p -> wf_profile p.
Proof. intros (fp & _ & Hp). by apply (parse_accepted fp). Qed.

Definition like (p0 p : CacheProfFile) : Prop := merge_events_line p = merge_events_line p0 /\ small_profile p.

Lemma merge_rest args ps d : Forall2 file_of args ps -> wf_profile d -> Forall (like d) ps ->
  exists p, merge_list args (Some d) = Ok (Some p) /\ wf_profile p /\ same_head p d
    /\ (forall f l, count p f l = foldl (fun o p => plus_counts o (count p f l)) (count d f l) ps)
    /\ summary p = foldl addc (summary d) (map summary ps).
Proof.
  intros Hf. revert d. induction Hf as [|a q args ps Hq Hf IH]; intros d Hd Hl; [by exists d|].
  inversion Hl as [|? ? [Hev Hsz] Hl']; subst.
  destruct (merge_same_events d q Hd (file_of_wf a q Hq) Hsz (eq_sym Hev)) as (d' & Hm & Hd' & Hh & Hc & Hs).
  destruct (IH d' Hd') as (p & Hp & Hwf & Hh' & Hc' & Hs').
  { eapply Forall_impl; [exact Hl'|]. intros r [Hr1 Hr2]. split; [|done]. by rewrite (sh_events _ _ Hh). }
  exists p. destruct Hq as (fp & Ho & Hparse). cbn [merge_list ofold]. rewrite Ho, Hparse. cbn [obind]. rewrite Hm.
  split_and!; [exact Hp|done|by etrans| |].
  - intros f l. rewrite Hc', Hc. done.
  - cbn [map foldl]. by rewrite Hs', Hs.
Qed.

Lemma merge_all args p0 ps : Forall2 file_of args (p0 :: ps) -> Forall (like p0) ps ->
  exists p, merge_list args None = Ok (Some p) /\ wf_profile p /\ same_head p p0
    /\ (forall f l, count p f l = merged (p0 :: ps) f l)
    /\ summary p = foldl addc (summary p0) (map summary ps).
Proof.
  intros Hf Hl. inversion Hf as [|a ? args' ? Hp0 Hf' ]; subst. pose proof Hp0 as (fp & Ho & Hparse).
  cbn [merge_list ofold]. rewrite Ho, Hparse. cbn [obind].
  destruct (merge_rest args' ps p0 Hf' (file_of_wf a p0 Hp0) Hl) as (p & Hp & Hwf & Hh & Hc & Hs).
  exists p. split_and!; [exact Hp|done|done| |done]. intros f l. rewrite Hc. unfold merged. cbn [foldl].
  by destruct (count p0 f l).
Qed.

(** ** The whole command *)

Definition out_args (out : option string) : list string :=
  match out with Some name => ["-o"%string; name] | None => [] end.

Lemma find_outfile_at as1 name as2 i : forallb (fun a => negb (streq a "-o")) as1 = true ->
  find_outfile (as1 ++ ["-o"%string; name] ++ as2) i = Ok ((i + length as1)%nat, Some name).
Proof.
  revert i. induction as1 as [|a as1 IH]; intros i Hno; [by cbn; rewrite Nat.add_0_r|].
  cbn in Hno. apply andb_true_iff in Hno as [Ha%negb_true_iff Hno]. cbn [app find_outfile]. rewrite Ha.
  rewrite IH by done. cbn [length]. do 2 f_equal. lia.
Qed.

Lemma find_outfile_none as1 i : forallb (fun a => negb (streq a "-o")) as1 = true ->
  find_outfile as1 i = Ok (0%nat, None).
Proof.
  revert i. induction as1 as [|a as1 IH]; intros i Hno; [done|].
  cbn in Hno. apply andb_true_iff in Hno as [Ha%negb_true_iff Hno]. cbn [find_outfile]. rewrite Ha. by apply IH.
Qed.

(** The arguments that name files to read are those before and after the "-o". *)
Lemma merge_files_all as1 out as2 : forallb (fun a => negb (streq a "-o")) as1 = true -> (out = None -> as2 = []) ->
  exists ix, find_outfile (as1 ++ out_args out ++ as2) 1 = Ok (ix, out)
    /\ merge_files fopen ix (as1 ++ out_args out ++ as2) 1 None = merge_list (as1 ++ as2) None.
Proof.
  intros Hno Hout. unfold merge_list. rewrite ofold_app. fold (merge_list as1 None). destruct out as [name|].
  - exists (1 + length as1)%nat. split; [by apply find_outfile_at|]. rewrite merge_files_plain by lia.
    destruct (merge_list as1 None) as [cpf|e]; [|done]. cbn [obind out_args app merge_files].
    rewrite Nat.eqb_refl, <-(app_nil_r as2), merge_files_plain by lia. rewrite app_nil_r.
    fold (merge_list as2 cpf). by destruct (merge_list as2 cpf).
  - rewrite Hout by done. exists 0%nat. cbn [out_args app]. rewrite app_nil_r. split; [by apply find_outfile_none|].
    rewrite <-(app_nil_r as1) at 1. rewrite merge_files_plain by lia. by destruct (merge_list as1 None).
Qed.

End Files.

(** C29: [cg_merge] on well-formed files of the same events writes, to the file
    of "-o" or to the standard output, a file that its own parser accepts, in
    which every line of every function has the sum of its counts in the files,
    the summary is the sum of their summaries and the head that of the first
    file; provided that the line numbers and the sums, printed as signed
    numbers, are below 2^63, that the files have fewer than 9227464 lines of
    functions in all, since the stack of the iterator that shows the result is
    good for no more, that no help is asked for, that "-o" is given once at
    most, and that its file can be written. *)
Theorem cg_merge_adds_files fopen can_write as1 out as2 p0 ps
    (args := as1 ++ out_args out ++ as2) (total := foldl addc (summary p0) (map summary ps)) :
  forallb (fun a => negb (streq a "-o")) as1 = true -> (out = None -> as2 = []) ->
  existsb (fun a => streq a "-h" || streq a "--help") args = false ->
  match out with Some name => can_write name = true | None => True end ->
  Forall2 (file_of fopen) (as1 ++ as2) (p0 :: ps) ->
  Forall (fun p => merge_events_line p = merge_events_line p0) ps ->
  Z.of_nat (length (flat_map keys (p0 :: ps))) < 9227464 ->
  (forall f l c, merged (p0 :: ps) f l = Some c -> positive_long l /\ Forall positive_long c) ->
  Forall positive_long total ->
  exists text p, main fopen can_write args = Ok (Some (out, text)) /\ parse_CacheProfFile text = Ok p
    /\ wf_profile p /\ same_head p p0 /\ (forall f l, count p f l = merged (p0 :: ps) f l) /\ summary p = total.
Proof.
  intros Hno Hout Hhelp Hwr Hf Hev Hlen Hpos Htot.
  assert (Hwfs : Forall wf_profile (p0 :: ps)).
  { apply Forall_forall. intros p Hp. apply list_elem_of_lookup in Hp as [i Hi].
    destruct (Forall2_lookup_r _ _ _ _ _ Hf Hi) as (a & _ & Ha). by apply (file_of_wf fopen a). }
  assert (Hlike : Forall (like p0) ps).
  { rewrite Forall_forall in Hev, Hwfs |- *. intros p Hp. split; [by apply Hev|].
    apply few_keys_small; [apply Hwfs; by right|]. pose proof (list_elem_of_split ps p Hp) as (l1 & l2 & ->).
    cbn [flat_map] in Hlen. rewrite flat_map_app in Hlen. cbn [flat_map] in Hlen. rewrite !length_app in Hlen. lia. }
  destruct (merge_all fopen (as1 ++ as2) p0 ps Hf Hlike) as (p & Hp & Hwf & Hh & Hc & Hs).
  destruct (show_parsed p Hwf) as (text & p' & Ht & Hp' & Hwf' & Hh' & Hc' & Hs').
  { apply few_keys_small; [done|]. pose proof (length_keys p (p0 :: ps) Hwf Hwfs Hc). lia. }
  { apply printable_counts; [done|by rewrite Hs|]. intros f l c. rewrite Hc. apply Hpos. }
  destruct (merge_files_all fopen as1 out as2 Hno Hout) as (ix & Hix & Hmf). fold args in Hix, Hmf.
  exists text, p'. split_and!; [|done|done|by etrans|by intros f l; rewrite Hc'|by rewrite Hs', Hs].
  unfold main. rewrite Hhelp, Hix. destruct (Nat.eqb_spec (length args) 0) as [E|]; cbn [obind].
  - apply Forall2_length in Hf. unfold args in E. rewrite !length_app in E. rewrite length_app in Hf. cbn in Hf. lia.
  - rewrite Hmf, Hp. cbn [obind]. rewrite Ht. destruct out as [name|]; [by rewrite Hwr|done].
Qed.

Definition demo_fopen (name : string) : option string := if streq name "x" || streq name "y" then Some small_file else None.

Lemma demo_file a : demo_fopen a = Some small_file -> file_of demo_fopen a demo_profile.
Proof. intros Ha. exists small_file. split; [exact Ha|exact demo_profile_parsed]. Qed.

Lemma demo_merged f l c : merged [demo_profile; demo_profile] f l = Some c -> positive_long l /\ Forall positive_long c.
Proof.
  destruct (merge_same_events demo_profile demo_profile demo_profile_wf demo_profile_wf demo_profile_small eq_refl)
    as (p & Hp & Hwf & _ & Hc & _).
  assert (Hpr : printable_profile p).
  { apply printable_profileb_ok. transitivity (match merge_CacheProfInfo demo_profile demo_profile with
      Ok p => printable_profileb p | Err _ => false end); [by rewrite Hp|vm_compute; reflexivity]. }
  unfold merged. cbn [foldl]. change (plus_counts None (count demo_profile f l)) with
    (match count demo_profile f l with Some c => Some c | None => None end).
  intros Hm. assert (Hcp : count p f l = Some c) by (rewrite Hc, <-Hm; by destruct (count demo_profile f l)).
  apply (count_elem p f l c Hwf) in Hcp as (f' & m & Hx%list_elem_of_In & _ & _ & Hy%list_elem_of_In).
  destruct Hpr as [Hpm _]. rewrite List.Forall_forall in Hpm. specialize (Hpm _ Hx).
  unfold printable_map, all_bindings in Hpm. rewrite List.Forall_forall in Hpm. by apply (Hpm (l, c)).
Qed.

Lemma cg_merge_adds_files_witness :
  exists text p, main demo_fopen (fun _ => true) ["x"; "-o"; "out"; "y"]%string = Ok (Some (Some "out"%string, text))
    /\ parse_CacheProfFile text = Ok p /\ wf_profile p /\ same_head p demo_profile
    /\ (forall f l, count p f l = merged [demo_profile; demo_profile] f l) /\ summary p = [32; 46].
Proof.
  apply (cg_merge_adds_files demo_fopen (fun _ => true) ["x"%string] (Some "out"%string) ["y"%string] demo_profile [demo_profile]).
  - reflexivity.
  - discriminate.
  - reflexivity.
  - reflexivity.
  - repeat constructor; apply demo_file; reflexivity.
  - repeat constructor.
  - vm_compute. reflexivity.
  - exact demo_merged.
  - repeat constructor; vm_compute; (reflexivity || discriminate).
Defined.
