(* ===== verification/Primop.v ===== *)
(** * Primitive operators: VEX/pub/libvex_ir.h and VEX/priv/ir_defs.c

    The operators of the intermediate representation, in the order of the
    enumeration [IROp], and [typeOfPrimop].  The names are written without their
    prefix [Iop_]; the operators that other files name follow, with it. *)

From S2P Require Import Prelude.

Inductive IRType :=
| Ity_INVALID | Ity_I1 | Ity_I8 | Ity_I16 | Ity_I32 | Ity_I64 | Ity_I128
| Ity_F16 | Ity_F32 | Ity_F64 | Ity_D32 | Ity_D64 | Ity_D128 | Ity_F128
| Ity_V128 | Ity_V256.

#[export] Instance IRType_eq_dec : EqDecision IRType.
Proof. solve_decision. Defined.

(** ** The enumeration *)

Definition Iop_INVALID : Z := 0x1400.

Definition IROp_names : list string := (
  ["INVALID"; "Add8"; "Add16"; "Add32"; "Add64"; "Sub8"; "Sub16"; "Sub32"; "Sub64"; "Mul8"; "Mul16"; "Mul32";
   "Mul64"; "Or8"; "Or16"; "Or32"; "Or64"; "And8"; "And16"; "And32"; "And64"; "Xor8"; "Xor16"; "Xor32";
   "Xor64"; "Shl8"; "Shl16"; "Shl32"; "Shl64"; "Shr8"; "Shr16"; "Shr32"; "Shr64"; "Sar8"; "Sar16"; "Sar32";
   "Sar64"; "CmpEQ8"; "CmpEQ16"; "CmpEQ32"; "CmpEQ64"; "CmpNE8"; "CmpNE16"; "CmpNE32"; "CmpNE64"; "Not8";
   "Not16"; "Not32"; "Not64"; "CasCmpEQ8"; "CasCmpEQ16"; "CasCmpEQ32"; "CasCmpEQ64"; "CasCmpNE8";
   "CasCmpNE16"; "CasCmpNE32"; "CasCmpNE64"; "ExpCmpNE8"; "ExpCmpNE16"; "ExpCmpNE32"; "ExpCmpNE64"; "MullS8";
   "MullS16"; "MullS32"; "MullS64"; "MullU8"; "MullU16"; "MullU32"; "MullU64"; "Clz64"; "Clz32"; "Ctz64";
   "Ctz32"; "ClzNat64"; "ClzNat32"; "CtzNat64"; "CtzNat32"; "PopCount64"; "PopCount32"; "CmpLT32S";
   "CmpLT64S"; "CmpLE32S"; "CmpLE64S"; "CmpLT32U"; "CmpLT64U"; "CmpLE32U"; "CmpLE64U"; "CmpNEZ8"; "CmpNEZ16";
   "CmpNEZ32"; "CmpNEZ64"; "CmpwNEZ32"; "CmpwNEZ64"; "Left8"; "Left16"; "Left32"; "Left64"; "Max32U";
   "CmpORD32U"; "CmpORD64U"; "CmpORD32S"; "CmpORD64S"; "DivU32"; "DivS32"; "DivU64"; "DivS64"; "DivU64E";
   "DivS64E"; "DivU32E"; "DivS32E"; "DivModU64to32"; "DivModS64to32"; "DivModU128to64"; "DivModS128to64";
   "DivModS64to64"; "DivModU64to64"; "DivModS32to32"; "DivModU32to32"; "8Uto16"; "8Uto32"; "8Uto64";
   "16Uto32"; "16Uto64"; "32Uto64"; "8Sto16"; "8Sto32"; "8Sto64"; "16Sto32"; "16Sto64"; "32Sto64"; "64to8";
   "32to8"; "64to16"; "16to8"; "16HIto8"; "8HLto16"; "32to16"; "32HIto16"; "16HLto32"; "64to32"; "64HIto32";
   "32HLto64"; "128to64"; "128HIto64"; "64HLto128"; "Not1"; "And1"; "Or1"; "32to1"; "64to1"; "1Uto8";
   "1Uto32"; "1Uto64"; "1Sto8"; "1Sto16"; "1Sto32"; "1Sto64"; "AddF64"; "SubF64"; "MulF64"; "DivF64";
   "AddF32"; "SubF32"; "MulF32"; "DivF32"; "AddF64r32"; "SubF64r32"; "MulF64r32"; "DivF64r32"; "NegF64";
   "AbsF64"; "NegF32"; "AbsF32"; "SqrtF64"; "SqrtF32"; "CmpF64"; "CmpF32"; "CmpF128"; "F64toI16S";
   "F64toI32S"; "F64toI64S"; "F64toI64U"; "F64toI32U"; "I32StoF64"; "I64StoF64"; "I64UtoF64"; "I64UtoF32";
   "I32UtoF32"; "I32UtoF64"; "F32toI32S"; "F32toI64S"; "F32toI32U"; "F32toI64U"; "I32StoF32"; "I64StoF32";
   "F32toF64"; "F64toF32"; "ReinterpF64asI64"; "ReinterpI64asF64"; "ReinterpF32asI32"; "ReinterpI32asF32";
   "F64HLtoF128"; "F128HItoF64"; "F128LOtoF64"; "AddF128"; "SubF128"; "MulF128"; "DivF128"; "MAddF128";
   "MSubF128"; "NegMAddF128"; "NegMSubF128"; "NegF128"; "AbsF128"; "SqrtF128"; "I32StoF128"; "I64StoF128";
   "I32UtoF128"; "I64UtoF128"; "F32toF128"; "F64toF128"; "F128toI32S"; "F128toI64S"; "F128toI32U";
   "F128toI64U"; "F128toI128S"; "F128toF64"; "F128toF32"; "RndF128"; "TruncF128toI32S"; "TruncF128toI32U";
   "TruncF128toI64U"; "TruncF128toI64S"; "AtanF64"; "Yl2xF64"; "Yl2xp1F64"; "PRemF64"; "PRemC3210F64";
   "PRem1F64"; "PRem1C3210F64"; "ScaleF64"; "SinF64"; "CosF64"; "TanF64"; "2xm1F64"; "RoundF128toInt";
   "RoundF64toInt"; "RoundF32toInt"; "MAddF32"; "MSubF32"; "MAddF64"; "MSubF64"; "MAddF64r32"; "MSubF64r32";
   "RSqrtEst5GoodF64"; "RoundF64toF64_NEAREST"; "RoundF64toF64_NegINF"; "RoundF64toF64_PosINF";
   "RoundF64toF64_ZERO"; "TruncF64asF32"; "RoundF64toF32"; "RecpExpF64"; "RecpExpF32"; "MaxNumF64";
   "MinNumF64"; "MaxNumF32"; "MinNumF32"; "F16toF64"; "F64toF16"; "F16toF32"; "F32toF16"; "QAdd32S";
   "QSub32S"; "Add16x2"; "Sub16x2"; "QAdd16Sx2"; "QAdd16Ux2"; "QSub16Sx2"; "QSub16Ux2"; "HAdd16Ux2";
   "HAdd16Sx2"; "HSub16Ux2"; "HSub16Sx2"; "Add8x4"; "Sub8x4"; "QAdd8Sx4"; "QAdd8Ux4"; "QSub8Sx4"; "QSub8Ux4";
   "HAdd8Ux4"; "HAdd8Sx4"; "HSub8Ux4"; "HSub8Sx4"; "Sad8Ux4"; "CmpNEZ16x2"; "CmpNEZ8x4"; "Reverse8sIn32_x1";
   "I32UtoF32x2_DEP"; "I32StoF32x2_DEP"; "F32toI32Ux2_RZ"; "F32toI32Sx2_RZ"; "F32ToFixed32Ux2_RZ";
   "F32ToFixed32Sx2_RZ"; "Fixed32UToF32x2_RN"; "Fixed32SToF32x2_RN"; "Max32Fx2"; "Min32Fx2"; "PwMax32Fx2";
   "PwMin32Fx2"; "CmpEQ32Fx2"; "CmpGT32Fx2"; "CmpGE32Fx2"; "RecipEst32Fx2"; "RecipStep32Fx2"; "RSqrtEst32Fx2";
   "RSqrtStep32Fx2"; "Neg32Fx2"; "Abs32Fx2"; "CmpNEZ8x8"; "CmpNEZ16x4"; "CmpNEZ32x2"; "Add8x8"; "Add16x4";
   "Add32x2"; "QAdd8Ux8"; "QAdd16Ux4"; "QAdd32Ux2"; "QAdd64Ux1"; "QAdd8Sx8"; "QAdd16Sx4"; "QAdd32Sx2";
   "QAdd64Sx1"; "PwAdd8x8"; "PwAdd16x4"; "PwAdd32x2"; "PwMax8Sx8"; "PwMax16Sx4"; "PwMax32Sx2"; "PwMax8Ux8";
   "PwMax16Ux4"; "PwMax32Ux2"; "PwMin8Sx8"; "PwMin16Sx4"; "PwMin32Sx2"; "PwMin8Ux8"; "PwMin16Ux4";
   "PwMin32Ux2"; "PwAddL8Ux8"; "PwAddL16Ux4"; "PwAddL32Ux2"; "PwAddL8Sx8"; "PwAddL16Sx4"; "PwAddL32Sx2";
   "Sub8x8"; "Sub16x4"; "Sub32x2"; "QSub8Ux8"; "QSub16Ux4"; "QSub32Ux2"; "QSub64Ux1"; "QSub8Sx8"; "QSub16Sx4";
   "QSub32Sx2"; "QSub64Sx1"; "Abs8x8"; "Abs16x4"; "Abs32x2"; "Mul8x8"; "Mul16x4"; "Mul32x2"; "Mul32Fx2";
   "MulHi16Ux4"; "MulHi16Sx4"; "PolynomialMul8x8"; "QDMulHi16Sx4"; "QDMulHi32Sx2"; "QRDMulHi16Sx4";
   "QRDMulHi32Sx2"; "Avg8Ux8"; "Avg16Ux4"; "Max8Sx8"; "Max16Sx4"; "Max32Sx2"; "Max8Ux8"; "Max16Ux4";
   "Max32Ux2"; "Min8Sx8"; "Min16Sx4"; "Min32Sx2"; "Min8Ux8"; "Min16Ux4"; "Min32Ux2"; "CmpEQ8x8"; "CmpEQ16x4";
   "CmpEQ32x2"; "CmpGT8Ux8"; "CmpGT16Ux4"; "CmpGT32Ux2"; "CmpGT8Sx8"; "CmpGT16Sx4"; "CmpGT32Sx2"; "Cnt8x8";
   "Clz8x8"; "Clz16x4"; "Clz32x2"; "Cls8x8"; "Cls16x4"; "Cls32x2"; "Clz64x2"; "Ctz8x16"; "Ctz16x8"; "Ctz32x4";
   "Ctz64x2"; "Shl8x8"; "Shl16x4"; "Shl32x2"; "Shr8x8"; "Shr16x4"; "Shr32x2"; "Sar8x8"; "Sar16x4"; "Sar32x2";
   "Sal8x8"; "Sal16x4"; "Sal32x2"; "Sal64x1"; "ShlN8x8"; "ShlN16x4"; "ShlN32x2"; "ShrN8x8"; "ShrN16x4";
   "ShrN32x2"; "SarN8x8"; "SarN16x4"; "SarN32x2"; "QShl8x8"; "QShl16x4"; "QShl32x2"; "QShl64x1"; "QSal8x8";
   "QSal16x4"; "QSal32x2"; "QSal64x1"; "QShlNsatSU8x8"; "QShlNsatSU16x4"; "QShlNsatSU32x2"; "QShlNsatSU64x1";
   "QShlNsatUU8x8"; "QShlNsatUU16x4"; "QShlNsatUU32x2"; "QShlNsatUU64x1"; "QShlNsatSS8x8"; "QShlNsatSS16x4";
   "QShlNsatSS32x2"; "QShlNsatSS64x1"; "QNarrowBin16Sto8Ux8"; "QNarrowBin16Sto8Sx8"; "QNarrowBin32Sto16Sx4";
   "NarrowBin16to8x8"; "NarrowBin32to16x4"; "InterleaveHI8x8"; "InterleaveHI16x4"; "InterleaveHI32x2";
   "InterleaveLO8x8"; "InterleaveLO16x4"; "InterleaveLO32x2"; "InterleaveOddLanes8x8";
   "InterleaveEvenLanes8x8"; "InterleaveOddLanes16x4"; "InterleaveEvenLanes16x4"; "CatOddLanes8x8";
   "CatOddLanes16x4"; "CatEvenLanes8x8"; "CatEvenLanes16x4"; "GetElem8x8"; "GetElem16x4"; "GetElem32x2";
   "SetElem8x8"; "SetElem16x4"; "SetElem32x2"; "Dup8x8"; "Dup16x4"; "Dup32x2"; "Slice64"; "Reverse8sIn16_x4";
   "Reverse8sIn32_x2"; "Reverse16sIn32_x2"; "Reverse8sIn64_x1"; "Reverse16sIn64_x1"; "Reverse32sIn64_x1";
   "Perm8x8"; "PermOrZero8x8"; "GetMSBs8x8"; "RecipEst32Ux2"; "RSqrtEst32Ux2"; "AddD64"; "SubD64"; "MulD64";
   "DivD64"; "AddD128"; "SubD128"; "MulD128"; "DivD128"; "ShlD64"; "ShrD64"; "ShlD128"; "ShrD128"; "D32toD64";
   "D64toD128"; "I32StoD128"; "I32UtoD128"; "I64StoD128"; "I64UtoD128"; "D64toD32"; "D128toD64"; "I32StoD64";
   "I32UtoD64"; "I64StoD64"; "I64UtoD64"; "D64toI32S"; "D64toI32U"; "D64toI64S"; "D64toI64U"; "D128toI32S";
   "D128toI32U"; "D128toI64S"; "D128toI64U"; "F32toD32"; "F32toD64"; "F32toD128"; "F64toD32"; "F64toD64";
   "F64toD128"; "F128toD32"; "F128toD64"; "F128toD128"; "D32toF32"; "D32toF64"; "D32toF128"; "D64toF32";
   "D64toF64"; "D64toF128"; "D128toF32"; "D128toF64"; "D128toF128"; "RoundD64toInt"; "RoundD128toInt";
   "CmpD64"; "CmpD128"; "CmpExpD64"; "CmpExpD128"; "QuantizeD64"; "QuantizeD128"; "SignificanceRoundD64";
   "SignificanceRoundD128"; "ExtractExpD64"; "ExtractExpD128"; "ExtractSigD64"; "ExtractSigD128";
   "InsertExpD64"; "InsertExpD128"; "D64HLtoD128"; "D128HItoD64"; "D128LOtoD64"; "DPBtoBCD"; "BCDtoDPB";
   "BCDAdd"; "BCDSub"; "I128StoBCD128"; "BCD128toI128S"; "ReinterpI64asD64"; "ReinterpD64asI64"; "Add32Fx4";
   "Sub32Fx4"; "Mul32Fx4"; "Div32Fx4"; "Max32Fx4"; "Min32Fx4"; "Add32Fx2"; "Sub32Fx2"; "CmpEQ32Fx4";
   "CmpLT32Fx4"; "CmpLE32Fx4"; "CmpUN32Fx4"; "CmpGT32Fx4"; "CmpGE32Fx4"; "PwMax32Fx4"; "PwMin32Fx4";
   "Abs32Fx4"; "Neg32Fx4"; "Sqrt32Fx4"; "RecipEst32Fx4"; "RecipStep32Fx4"; "RSqrtEst32Fx4"; "Scale2_32Fx4";
   "Log2_32Fx4"; "Exp2_32Fx4"; "RSqrtStep32Fx4"; "I32UtoF32x4_DEP"; "I32StoF32x4_DEP"; "I32StoF32x4";
   "F32toI32Sx4"; "F32toI32Ux4_RZ"; "F32toI32Sx4_RZ"; "QF32toI32Ux4_RZ"; "QF32toI32Sx4_RZ"; "RoundF32x4_RM";
   "RoundF32x4_RP"; "RoundF32x4_RN"; "RoundF32x4_RZ"; "F32ToFixed32Ux4_RZ"; "F32ToFixed32Sx4_RZ";
   "Fixed32UToF32x4_RN"; "Fixed32SToF32x4_RN"; "F32toF16x4_DEP"; "F32toF16x4"; "F16toF32x4"; "F64toF16x2_DEP";
   "F16toF64x2"; "F32x4_2toQ16x8"; "Add32F0x4"; "Sub32F0x4"; "Mul32F0x4"; "Div32F0x4"; "Max32F0x4";
   "Min32F0x4"; "CmpEQ32F0x4"; "CmpLT32F0x4"; "CmpLE32F0x4"; "CmpUN32F0x4"; "RecipEst32F0x4"; "Sqrt32F0x4";
   "RSqrtEst32F0x4"; "Add64Fx2"; "Sub64Fx2"; "Mul64Fx2"; "Div64Fx2"; "Max64Fx2"; "Min64Fx2"; "CmpEQ64Fx2";
   "CmpLT64Fx2"; "CmpLE64Fx2"; "CmpUN64Fx2"; "Abs64Fx2"; "Neg64Fx2"; "Sqrt64Fx2"; "Scale2_64Fx2";
   "Log2_64Fx2"; "RecipEst64Fx2"; "RecipStep64Fx2"; "RSqrtEst64Fx2"; "RSqrtStep64Fx2"; "F64x2_2toQ32x4";
   "Add64F0x2"; "Sub64F0x2"; "Mul64F0x2"; "Div64F0x2"; "Max64F0x2"; "Min64F0x2"; "CmpEQ64F0x2"; "CmpLT64F0x2";
   "CmpLE64F0x2"; "CmpUN64F0x2"; "Sqrt64F0x2"; "V128to64"; "V128HIto64"; "64HLtoV128"; "64UtoV128";
   "SetV128lo64"; "ZeroHI64ofV128"; "ZeroHI96ofV128"; "ZeroHI112ofV128"; "ZeroHI120ofV128"; "32UtoV128";
   "V128to32"; "SetV128lo32"; "NotV128"; "AndV128"; "OrV128"; "XorV128"; "ShlV128"; "ShrV128"; "SarV128";
   "CmpNEZ8x16"; "CmpNEZ16x8"; "CmpNEZ32x4"; "CmpNEZ64x2"; "CmpNEZ128x1"; "Add8x16"; "Add16x8"; "Add32x4";
   "Add64x2"; "Add128x1"; "QAdd8Ux16"; "QAdd16Ux8"; "QAdd32Ux4"; "QAdd64Ux2"; "QAdd8Sx16"; "QAdd16Sx8";
   "QAdd32Sx4"; "QAdd64Sx2"; "QAddExtUSsatSS8x16"; "QAddExtUSsatSS16x8"; "QAddExtUSsatSS32x4";
   "QAddExtUSsatSS64x2"; "QAddExtSUsatUU8x16"; "QAddExtSUsatUU16x8"; "QAddExtSUsatUU32x4";
   "QAddExtSUsatUU64x2"; "Sub8x16"; "Sub16x8"; "Sub32x4"; "Sub64x2"; "Sub128x1"; "QSub8Ux16"; "QSub16Ux8";
   "QSub32Ux4"; "QSub64Ux2"; "QSub8Sx16"; "QSub16Sx8"; "QSub32Sx4"; "QSub64Sx2"; "Mul8x16"; "Mul16x8";
   "Mul32x4"; "MulHi8Ux16"; "MulHi16Ux8"; "MulHi32Ux4"; "MulHi8Sx16"; "MulHi16Sx8"; "MulHi32Sx4";
   "MullEven8Ux16"; "MullEven16Ux8"; "MullEven32Ux4"; "MullEven8Sx16"; "MullEven16Sx8"; "MullEven32Sx4";
   "Mull8Ux8"; "Mull8Sx8"; "Mull16Ux4"; "Mull16Sx4"; "Mull32Ux2"; "Mull32Sx2"; "QDMull16Sx4"; "QDMull32Sx2";
   "QDMulHi16Sx8"; "QDMulHi32Sx4"; "QRDMulHi16Sx8"; "QRDMulHi32Sx4"; "PolynomialMul8x16"; "PolynomialMull8x8";
   "PolynomialMulAdd8x16"; "PolynomialMulAdd16x8"; "PolynomialMulAdd32x4"; "PolynomialMulAdd64x2";
   "PwAdd8x16"; "PwAdd16x8"; "PwAdd32x4"; "PwAdd32Fx2"; "PwAddL8Ux16"; "PwAddL16Ux8"; "PwAddL32Ux4";
   "PwAddL64Ux2"; "PwAddL8Sx16"; "PwAddL16Sx8"; "PwAddL32Sx4"; "PwExtUSMulQAdd8x16"; "PwBitMtxXpose64x2";
   "Abs8x16"; "Abs16x8"; "Abs32x4"; "Abs64x2"; "Avg8Ux16"; "Avg16Ux8"; "Avg32Ux4"; "Avg64Ux2"; "Avg8Sx16";
   "Avg16Sx8"; "Avg32Sx4"; "Avg64Sx2"; "Max8Sx16"; "Max16Sx8"; "Max32Sx4"; "Max64Sx2"; "Max8Ux16"; "Max16Ux8";
   "Max32Ux4"; "Max64Ux2"; "Min8Sx16"; "Min16Sx8"; "Min32Sx4"; "Min64Sx2"; "Min8Ux16"; "Min16Ux8"; "Min32Ux4";
   "Min64Ux2"; "CmpEQ8x16"; "CmpEQ16x8"; "CmpEQ32x4"; "CmpEQ64x2"; "CmpGT8Sx16"; "CmpGT16Sx8"; "CmpGT32Sx4";
   "CmpGT64Sx2"; "CmpGT8Ux16"; "CmpGT16Ux8"; "CmpGT32Ux4"; "CmpGT64Ux2"; "Cnt8x16"; "Clz8x16"; "Clz16x8";
   "Clz32x4"; "Cls8x16"; "Cls16x8"; "Cls32x4"; "ShlN8x16"; "ShlN16x8"; "ShlN32x4"; "ShlN64x2"; "ShrN8x16";
   "ShrN16x8"; "ShrN32x4"; "ShrN64x2"; "SarN8x16"; "SarN16x8"; "SarN32x4"; "SarN64x2"; "Shl8x16"; "Shl16x8";
   "Shl32x4"; "Shl64x2"; "Shr8x16"; "Shr16x8"; "Shr32x4"; "Shr64x2"; "Sar8x16"; "Sar16x8"; "Sar32x4";
   "Sar64x2"; "Sal8x16"; "Sal16x8"; "Sal32x4"; "Sal64x2"; "Rol8x16"; "Rol16x8"; "Rol32x4"; "Rol64x2";
   "QShl8x16"; "QShl16x8"; "QShl32x4"; "QShl64x2"; "QSal8x16"; "QSal16x8"; "QSal32x4"; "QSal64x2";
   "QShlNsatSU8x16"; "QShlNsatSU16x8"; "QShlNsatSU32x4"; "QShlNsatSU64x2"; "QShlNsatUU8x16"; "QShlNsatUU16x8";
   "QShlNsatUU32x4"; "QShlNsatUU64x2"; "QShlNsatSS8x16"; "QShlNsatSS16x8"; "QShlNsatSS32x4"; "QShlNsatSS64x2";
   "QandUQsh8x16"; "QandUQsh16x8"; "QandUQsh32x4"; "QandUQsh64x2"; "QandSQsh8x16"; "QandSQsh16x8";
   "QandSQsh32x4"; "QandSQsh64x2"; "QandUQRsh8x16"; "QandUQRsh16x8"; "QandUQRsh32x4"; "QandUQRsh64x2";
   "QandSQRsh8x16"; "QandSQRsh16x8"; "QandSQRsh32x4"; "QandSQRsh64x2"; "Sh8Sx16"; "Sh16Sx8"; "Sh32Sx4";
   "Sh64Sx2"; "Sh8Ux16"; "Sh16Ux8"; "Sh32Ux4"; "Sh64Ux2"; "Rsh8Sx16"; "Rsh16Sx8"; "Rsh32Sx4"; "Rsh64Sx2";
   "Rsh8Ux16"; "Rsh16Ux8"; "Rsh32Ux4"; "Rsh64Ux2"; "QandQShrNnarrow16Uto8Ux8"; "QandQShrNnarrow32Uto16Ux4";
   "QandQShrNnarrow64Uto32Ux2"; "QandQSarNnarrow16Sto8Sx8"; "QandQSarNnarrow32Sto16Sx4";
   "QandQSarNnarrow64Sto32Sx2"; "QandQSarNnarrow16Sto8Ux8"; "QandQSarNnarrow32Sto16Ux4";
   "QandQSarNnarrow64Sto32Ux2"; "QandQRShrNnarrow16Uto8Ux8"; "QandQRShrNnarrow32Uto16Ux4";
   "QandQRShrNnarrow64Uto32Ux2"; "QandQRSarNnarrow16Sto8Sx8"; "QandQRSarNnarrow32Sto16Sx4";
   "QandQRSarNnarrow64Sto32Sx2"; "QandQRSarNnarrow16Sto8Ux8"; "QandQRSarNnarrow32Sto16Ux4";
   "QandQRSarNnarrow64Sto32Ux2"; "QNarrowBin16Sto8Ux16"; "QNarrowBin32Sto16Ux8"; "QNarrowBin16Sto8Sx16";
   "QNarrowBin32Sto16Sx8"; "QNarrowBin16Uto8Ux16"; "QNarrowBin32Uto16Ux8"; "NarrowBin16to8x16";
   "NarrowBin32to16x8"; "QNarrowBin64Sto32Sx4"; "QNarrowBin64Uto32Ux4"; "NarrowBin64to32x4";
   "NarrowUn16to8x8"; "NarrowUn32to16x4"; "NarrowUn64to32x2"; "QNarrowUn16Sto8Sx8"; "QNarrowUn32Sto16Sx4";
   "QNarrowUn64Sto32Sx2"; "QNarrowUn16Sto8Ux8"; "QNarrowUn32Sto16Ux4"; "QNarrowUn64Sto32Ux2";
   "QNarrowUn16Uto8Ux8"; "QNarrowUn32Uto16Ux4"; "QNarrowUn64Uto32Ux2"; "Widen8Uto16x8"; "Widen16Uto32x4";
   "Widen32Uto64x2"; "Widen8Sto16x8"; "Widen16Sto32x4"; "Widen32Sto64x2"; "InterleaveHI8x16";
   "InterleaveHI16x8"; "InterleaveHI32x4"; "InterleaveHI64x2"; "InterleaveLO8x16"; "InterleaveLO16x8";
   "InterleaveLO32x4"; "InterleaveLO64x2"; "InterleaveOddLanes8x16"; "InterleaveEvenLanes8x16";
   "InterleaveOddLanes16x8"; "InterleaveEvenLanes16x8"; "InterleaveOddLanes32x4"; "InterleaveEvenLanes32x4";
   "PackOddLanes8x16"; "PackEvenLanes8x16"; "PackOddLanes16x8"; "PackEvenLanes16x8"; "PackOddLanes32x4";
   "PackEvenLanes32x4"; "CatOddLanes8x16"; "CatOddLanes16x8"; "CatOddLanes32x4"; "CatEvenLanes8x16";
   "CatEvenLanes16x8"; "CatEvenLanes32x4"; "GetElem8x16"; "GetElem16x8"; "GetElem32x4"; "GetElem64x2";
   "SetElem8x16"; "SetElem16x8"; "SetElem32x4"; "SetElem64x2"; "Dup8x16"; "Dup16x8"; "Dup32x4"; "SliceV128";
   "Reverse8sIn16_x8"; "Reverse8sIn32_x4"; "Reverse16sIn32_x4"; "Reverse8sIn64_x2"; "Reverse16sIn64_x2";
   "Reverse32sIn64_x2"; "Reverse1sIn8_x16"; "Perm8x16"; "Perm32x4"; "PermOrZero8x16"; "Perm8x16x2";
   "GetMSBs8x16"; "RecipEst32Ux4"; "RSqrtEst32Ux4"; "MulI128by10"; "MulI128by10Carry"; "MulI128by10E";
   "MulI128by10ECarry"; "V256to64_0"; "V256to64_1"; "V256to64_2"; "V256to64_3"; "64x4toV256"; "V256toV128_0";
   "V256toV128_1"; "V128HLtoV256"; "AndV256"; "OrV256"; "XorV256"; "NotV256"; "CmpNEZ8x32"; "CmpNEZ16x16";
   "CmpNEZ32x8"; "CmpNEZ64x4"; "Add8x32"; "Add16x16"; "Add32x8"; "Add64x4"; "Sub8x32"; "Sub16x16"; "Sub32x8";
   "Sub64x4"; "CmpEQ8x32"; "CmpEQ16x16"; "CmpEQ32x8"; "CmpEQ64x4"; "CmpGT8Sx32"; "CmpGT16Sx16"; "CmpGT32Sx8";
   "CmpGT64Sx4"; "ShlN16x16"; "ShlN32x8"; "ShlN64x4"; "ShrN16x16"; "ShrN32x8"; "ShrN64x4"; "SarN16x16";
   "SarN32x8"; "Max8Sx32"; "Max16Sx16"; "Max32Sx8"; "Max8Ux32"; "Max16Ux16"; "Max32Ux8"; "Min8Sx32";
   "Min16Sx16"; "Min32Sx8"; "Min8Ux32"; "Min16Ux16"; "Min32Ux8"; "Mul16x16"; "Mul32x8"; "MulHi16Ux16";
   "MulHi16Sx16"; "QAdd8Ux32"; "QAdd16Ux16"; "QAdd8Sx32"; "QAdd16Sx16"; "QSub8Ux32"; "QSub16Ux16";
   "QSub8Sx32"; "QSub16Sx16"; "Avg8Ux32"; "Avg16Ux16"; "Perm32x8"; "CipherV128"; "CipherLV128"; "CipherSV128";
   "NCipherV128"; "NCipherLV128"; "SHA512"; "SHA256"; "Add64Fx4"; "Sub64Fx4"; "Mul64Fx4"; "Div64Fx4";
   "Add32Fx8"; "Sub32Fx8"; "Mul32Fx8"; "Div32Fx8"; "I32StoF32x8"; "F32toI32Sx8"; "F32toF16x8"; "F16toF32x8";
   "Sqrt32Fx8"; "Sqrt64Fx4"; "RSqrtEst32Fx8"; "RecipEst32Fx8"; "Max32Fx8"; "Min32Fx8"; "Max64Fx4"; "Min64Fx4";
   "Rotx32"; "Rotx64"; "LAST"])%string.

Definition op_name (op : Z) : option string :=
  if op <? Iop_INVALID then None else IROp_names !! Z.to_nat (op - Iop_INVALID).

(** ** The types *)

(** The macros of [typeOfPrimop]; the type of the result is the last. *)
Inductive op_type :=
| UNARY (ta1 td : IRType)
| BINARY (ta1 ta2 td : IRType)
| TERNARY (ta1 ta2 ta3 td : IRType)
| QUATERNARY (ta1 ta2 ta3 ta4 td : IRType)
| COMPARISON (ta : IRType)
| UNARY_COMPARISON (ta : IRType).

Record primop_type := mk_primop_type {
  t_dst : IRType; t_arg1 : IRType; t_arg2 : IRType; t_arg3 : IRType; t_arg4 : IRType
}.

(** A round mode is an [Ity_I32]. *)
Definition primop_groups : list (list string * op_type) := (
  [(["Add8"; "Sub8"; "Mul8"; "Or8"; "And8"; "Xor8"],
     BINARY Ity_I8 Ity_I8 Ity_I8);
   (["Add16"; "Sub16"; "Mul16"; "Or16"; "And16"; "Xor16"],
     BINARY Ity_I16 Ity_I16 Ity_I16);
   (["CmpORD32U"; "CmpORD32S"; "Add32"; "Sub32"; "Mul32"; "Or32"; "And32"; "Xor32"; "Max32U"; "QAdd32S";
     "QSub32S"; "Add16x2"; "Sub16x2"; "QAdd16Sx2"; "QAdd16Ux2"; "QSub16Sx2"; "QSub16Ux2"; "HAdd16Ux2";
     "HAdd16Sx2"; "HSub16Ux2"; "HSub16Sx2"; "Add8x4"; "Sub8x4"; "QAdd8Sx4"; "QAdd8Ux4"; "QSub8Sx4";
     "QSub8Ux4"; "HAdd8Ux4"; "HAdd8Sx4"; "HSub8Ux4"; "HSub8Sx4"; "Sad8Ux4"],
     BINARY Ity_I32 Ity_I32 Ity_I32);
   (["Add64"; "Sub64"; "Mul64"; "Or64"; "And64"; "Xor64"; "CmpORD64U"; "CmpORD64S"; "Avg8Ux8"; "Avg16Ux4";
     "Add8x8"; "Add16x4"; "Add32x2"; "Add32Fx2"; "Sub32Fx2"; "CmpEQ8x8"; "CmpEQ16x4"; "CmpEQ32x2";
     "CmpGT8Sx8"; "CmpGT16Sx4"; "CmpGT32Sx2"; "CmpGT8Ux8"; "CmpGT16Ux4"; "CmpGT32Ux2"; "CmpGT32Fx2";
     "CmpEQ32Fx2"; "CmpGE32Fx2"; "InterleaveHI8x8"; "InterleaveLO8x8"; "InterleaveHI16x4"; "InterleaveLO16x4";
     "InterleaveHI32x2"; "InterleaveLO32x2"; "CatOddLanes8x8"; "CatEvenLanes8x8"; "CatOddLanes16x4";
     "CatEvenLanes16x4"; "InterleaveOddLanes8x8"; "InterleaveEvenLanes8x8"; "InterleaveOddLanes16x4";
     "InterleaveEvenLanes16x4"; "Perm8x8"; "PermOrZero8x8"; "Max8Ux8"; "Max16Ux4"; "Max32Ux2"; "Max8Sx8";
     "Max16Sx4"; "Max32Sx2"; "Max32Fx2"; "Min32Fx2"; "PwMax32Fx2"; "PwMin32Fx2"; "Min8Ux8"; "Min16Ux4";
     "Min32Ux2"; "Min8Sx8"; "Min16Sx4"; "Min32Sx2"; "PwMax8Ux8"; "PwMax16Ux4"; "PwMax32Ux2"; "PwMax8Sx8";
     "PwMax16Sx4"; "PwMax32Sx2"; "PwMin8Ux8"; "PwMin16Ux4"; "PwMin32Ux2"; "PwMin8Sx8"; "PwMin16Sx4";
     "PwMin32Sx2"; "Mul8x8"; "Mul16x4"; "Mul32x2"; "Mul32Fx2"; "PolynomialMul8x8"; "MulHi16Sx4"; "MulHi16Ux4";
     "QDMulHi16Sx4"; "QDMulHi32Sx2"; "QRDMulHi16Sx4"; "QRDMulHi32Sx2"; "QAdd8Sx8"; "QAdd16Sx4"; "QAdd32Sx2";
     "QAdd64Sx1"; "QAdd8Ux8"; "QAdd16Ux4"; "QAdd32Ux2"; "QAdd64Ux1"; "PwAdd8x8"; "PwAdd16x4"; "PwAdd32x2";
     "PwAdd32Fx2"; "QNarrowBin32Sto16Sx4"; "QNarrowBin16Sto8Sx8"; "QNarrowBin16Sto8Ux8"; "NarrowBin16to8x8";
     "NarrowBin32to16x4"; "Sub8x8"; "Sub16x4"; "Sub32x2"; "QSub8Sx8"; "QSub16Sx4"; "QSub32Sx2"; "QSub64Sx1";
     "QSub8Ux8"; "QSub16Ux4"; "QSub32Ux2"; "QSub64Ux1"; "Shl8x8"; "Shl16x4"; "Shl32x2"; "Shr8x8"; "Shr16x4";
     "Shr32x2"; "Sar8x8"; "Sar16x4"; "Sar32x2"; "Sal8x8"; "Sal16x4"; "Sal32x2"; "Sal64x1"; "QShl8x8";
     "QShl16x4"; "QShl32x2"; "QShl64x1"; "QSal8x8"; "QSal16x4"; "QSal32x2"; "QSal64x1"; "RecipStep32Fx2";
     "RSqrtStep32Fx2"],
     BINARY Ity_I64 Ity_I64 Ity_I64);
   (["ShlN32x2"; "ShlN16x4"; "ShlN8x8"; "ShrN32x2"; "ShrN16x4"; "ShrN8x8"; "SarN32x2"; "SarN16x4"; "SarN8x8";
     "QShlNsatUU8x8"; "QShlNsatUU16x4"; "QShlNsatUU32x2"; "QShlNsatUU64x1"; "QShlNsatSU8x8"; "QShlNsatSU16x4";
     "QShlNsatSU32x2"; "QShlNsatSU64x1"; "QShlNsatSS8x8"; "QShlNsatSS16x4"; "QShlNsatSS32x2"; "QShlNsatSS64x1"],
     BINARY Ity_I64 Ity_I8 Ity_I64);
   (["Shl8"; "Shr8"; "Sar8"],
     BINARY Ity_I8 Ity_I8 Ity_I8);
   (["Shl16"; "Shr16"; "Sar16"],
     BINARY Ity_I16 Ity_I8 Ity_I16);
   (["Shl32"; "Shr32"; "Sar32"],
     BINARY Ity_I32 Ity_I8 Ity_I32);
   (["Shl64"; "Shr64"; "Sar64"],
     BINARY Ity_I64 Ity_I8 Ity_I64);
   (["Not8"],
     UNARY Ity_I8 Ity_I8);
   (["Not16"],
     UNARY Ity_I16 Ity_I16);
   (["Not32"; "CmpNEZ16x2"; "CmpNEZ8x4"; "Reverse8sIn32_x1"],
     UNARY Ity_I32 Ity_I32);
   (["Not64"; "CmpNEZ32x2"; "CmpNEZ16x4"; "CmpNEZ8x8"; "Cnt8x8"; "Clz8x8"; "Clz16x4"; "Clz32x2"; "Cls8x8";
     "Cls16x4"; "Cls32x2"; "PwAddL8Ux8"; "PwAddL16Ux4"; "PwAddL32Ux2"; "PwAddL8Sx8"; "PwAddL16Sx4";
     "PwAddL32Sx2"; "Reverse8sIn64_x1"; "Reverse16sIn64_x1"; "Reverse32sIn64_x1"; "Reverse8sIn32_x2";
     "Reverse16sIn32_x2"; "Reverse8sIn16_x4"; "F32toI32Sx2_RZ"; "F32toI32Ux2_RZ"; "I32StoF32x2_DEP";
     "I32UtoF32x2_DEP"; "RecipEst32Ux2"; "RecipEst32Fx2"; "Abs32Fx2"; "RSqrtEst32Fx2"; "RSqrtEst32Ux2";
     "Neg32Fx2"; "Abs8x8"; "Abs16x4"; "Abs32x2"],
     UNARY Ity_I64 Ity_I64);
   (["CmpEQ8"; "CmpNE8"; "CasCmpEQ8"; "CasCmpNE8"; "ExpCmpNE8"],
     COMPARISON Ity_I8);
   (["CmpEQ16"; "CmpNE16"; "CasCmpEQ16"; "CasCmpNE16"; "ExpCmpNE16"],
     COMPARISON Ity_I16);
   (["CmpEQ32"; "CmpNE32"; "CasCmpEQ32"; "CasCmpNE32"; "ExpCmpNE32"; "CmpLT32S"; "CmpLE32S"; "CmpLT32U";
     "CmpLE32U"],
     COMPARISON Ity_I32);
   (["CmpEQ64"; "CmpNE64"; "CasCmpEQ64"; "CasCmpNE64"; "ExpCmpNE64"; "CmpLT64S"; "CmpLE64S"; "CmpLT64U";
     "CmpLE64U"],
     COMPARISON Ity_I64);
   (["CmpNEZ8"],
     UNARY_COMPARISON Ity_I8);
   (["CmpNEZ16"],
     UNARY_COMPARISON Ity_I16);
   (["CmpNEZ32"],
     UNARY_COMPARISON Ity_I32);
   (["CmpNEZ64"],
     UNARY_COMPARISON Ity_I64);
   (["Left8"],
     UNARY Ity_I8 Ity_I8);
   (["Left16"],
     UNARY Ity_I16 Ity_I16);
   (["CmpwNEZ32"; "Left32"],
     UNARY Ity_I32 Ity_I32);
   (["CmpwNEZ64"; "Left64"],
     UNARY Ity_I64 Ity_I64);
   (["GetMSBs8x8"],
     UNARY Ity_I64 Ity_I8);
   (["GetMSBs8x16"],
     UNARY Ity_V128 Ity_I16);
   (["MullU8"; "MullS8"],
     BINARY Ity_I8 Ity_I8 Ity_I16);
   (["MullU16"; "MullS16"],
     BINARY Ity_I16 Ity_I16 Ity_I32);
   (["MullU32"; "MullS32"],
     BINARY Ity_I32 Ity_I32 Ity_I64);
   (["MullU64"; "MullS64"],
     BINARY Ity_I64 Ity_I64 Ity_I128);
   (["Clz32"; "Ctz32"; "ClzNat32"; "CtzNat32"; "PopCount32"],
     UNARY Ity_I32 Ity_I32);
   (["Clz64"; "Ctz64"; "ClzNat64"; "CtzNat64"; "PopCount64"],
     UNARY Ity_I64 Ity_I64);
   (["DivU32"; "DivS32"; "DivU32E"; "DivS32E"],
     BINARY Ity_I32 Ity_I32 Ity_I32);
   (["DivU64"; "DivS64"; "DivS64E"; "DivU64E"],
     BINARY Ity_I64 Ity_I64 Ity_I64);
   (["DivModU64to32"; "DivModS64to32"],
     BINARY Ity_I64 Ity_I32 Ity_I64);
   (["DivModU32to32"; "DivModS32to32"],
     BINARY Ity_I32 Ity_I32 Ity_I64);
   (["DivModU128to64"; "DivModS128to64"],
     BINARY Ity_I128 Ity_I64 Ity_I128);
   (["DivModU64to64"; "DivModS64to64"],
     BINARY Ity_I64 Ity_I64 Ity_I128);
   (["16HIto8"; "16to8"],
     UNARY Ity_I16 Ity_I8);
   (["8HLto16"],
     BINARY Ity_I8 Ity_I8 Ity_I16);
   (["32HIto16"; "32to16"],
     UNARY Ity_I32 Ity_I16);
   (["16HLto32"],
     BINARY Ity_I16 Ity_I16 Ity_I32);
   (["64HIto32"; "64to32"],
     UNARY Ity_I64 Ity_I32);
   (["32HLto64"],
     BINARY Ity_I32 Ity_I32 Ity_I64);
   (["128HIto64"; "128to64"],
     UNARY Ity_I128 Ity_I64);
   (["64HLto128"],
     BINARY Ity_I64 Ity_I64 Ity_I128);
   (["Not1"],
     UNARY Ity_I1 Ity_I1);
   (["And1"; "Or1"],
     BINARY Ity_I1 Ity_I1 Ity_I1);
   (["1Uto8"],
     UNARY Ity_I1 Ity_I8);
   (["1Sto8"],
     UNARY Ity_I1 Ity_I8);
   (["1Sto16"],
     UNARY Ity_I1 Ity_I16);
   (["1Uto32"; "1Sto32"],
     UNARY Ity_I1 Ity_I32);
   (["1Sto64"; "1Uto64"],
     UNARY Ity_I1 Ity_I64);
   (["32to1"],
     UNARY Ity_I32 Ity_I1);
   (["64to1"],
     UNARY Ity_I64 Ity_I1);
   (["8Uto32"; "8Sto32"],
     UNARY Ity_I8 Ity_I32);
   (["8Uto16"; "8Sto16"],
     UNARY Ity_I8 Ity_I16);
   (["16Uto32"; "16Sto32"],
     UNARY Ity_I16 Ity_I32);
   (["32Sto64"; "32Uto64"],
     UNARY Ity_I32 Ity_I64);
   (["8Uto64"; "8Sto64"],
     UNARY Ity_I8 Ity_I64);
   (["16Uto64"; "16Sto64"],
     UNARY Ity_I16 Ity_I64);
   (["64to16"],
     UNARY Ity_I64 Ity_I16);
   (["32to8"],
     UNARY Ity_I32 Ity_I8);
   (["64to8"],
     UNARY Ity_I64 Ity_I8);
   (["AddF64"; "SubF64"; "MulF64"; "DivF64"; "AddF64r32"; "SubF64r32"; "MulF64r32"; "DivF64r32"],
     TERNARY Ity_I32 Ity_F64 Ity_F64 Ity_F64);
   (["AddF32"; "SubF32"; "MulF32"; "DivF32"],
     TERNARY Ity_I32 Ity_F32 Ity_F32 Ity_F32);
   (["NegF64"; "AbsF64"],
     UNARY Ity_F64 Ity_F64);
   (["NegF32"; "AbsF32"],
     UNARY Ity_F32 Ity_F32);
   (["SqrtF64"; "RecpExpF64"],
     BINARY Ity_I32 Ity_F64 Ity_F64);
   (["SqrtF32"; "RoundF32toInt"; "RecpExpF32"],
     BINARY Ity_I32 Ity_F32 Ity_F32);
   (["MaxNumF64"; "MinNumF64"],
     BINARY Ity_F64 Ity_F64 Ity_F64);
   (["MaxNumF32"; "MinNumF32"],
     BINARY Ity_F32 Ity_F32 Ity_F32);
   (["CmpF32"],
     BINARY Ity_F32 Ity_F32 Ity_I32);
   (["CmpF64"],
     BINARY Ity_F64 Ity_F64 Ity_I32);
   (["CmpF128"],
     BINARY Ity_F128 Ity_F128 Ity_I32);
   (["F64toI16S"],
     BINARY Ity_I32 Ity_F64 Ity_I16);
   (["F64toI32S"],
     BINARY Ity_I32 Ity_F64 Ity_I32);
   (["F64toI64S"; "F64toI64U"],
     BINARY Ity_I32 Ity_F64 Ity_I64);
   (["F64toI32U"],
     BINARY Ity_I32 Ity_F64 Ity_I32);
   (["I32StoF64"],
     UNARY Ity_I32 Ity_F64);
   (["I64StoF64"],
     BINARY Ity_I32 Ity_I64 Ity_F64);
   (["I64UtoF64"],
     BINARY Ity_I32 Ity_I64 Ity_F64);
   (["I64UtoF32"],
     BINARY Ity_I32 Ity_I64 Ity_F32);
   (["I32UtoF64"],
     UNARY Ity_I32 Ity_F64);
   (["F32toI32S"],
     BINARY Ity_I32 Ity_F32 Ity_I32);
   (["F32toI64S"],
     BINARY Ity_I32 Ity_F32 Ity_I64);
   (["F32toI32U"],
     BINARY Ity_I32 Ity_F32 Ity_I32);
   (["F32toI64U"],
     BINARY Ity_I32 Ity_F32 Ity_I64);
   (["I32UtoF32"],
     BINARY Ity_I32 Ity_I32 Ity_F32);
   (["I32StoF32"],
     BINARY Ity_I32 Ity_I32 Ity_F32);
   (["I64StoF32"],
     BINARY Ity_I32 Ity_I64 Ity_F32);
   (["F32toF64"],
     UNARY Ity_F32 Ity_F64);
   (["F16toF64"],
     UNARY Ity_F16 Ity_F64);
   (["F16toF32"],
     UNARY Ity_F16 Ity_F32);
   (["F64toF32"],
     BINARY Ity_I32 Ity_F64 Ity_F32);
   (["F64toF16"],
     BINARY Ity_I32 Ity_F64 Ity_F16);
   (["F32toF16"],
     BINARY Ity_I32 Ity_F32 Ity_F16);
   (["ReinterpI64asF64"],
     UNARY Ity_I64 Ity_F64);
   (["ReinterpF64asI64"],
     UNARY Ity_F64 Ity_I64);
   (["ReinterpI32asF32"],
     UNARY Ity_I32 Ity_F32);
   (["ReinterpF32asI32"],
     UNARY Ity_F32 Ity_I32);
   (["AtanF64"; "Yl2xF64"; "Yl2xp1F64"; "ScaleF64"; "PRemF64"; "PRem1F64"],
     TERNARY Ity_I32 Ity_F64 Ity_F64 Ity_F64);
   (["PRemC3210F64"; "PRem1C3210F64"],
     TERNARY Ity_I32 Ity_F64 Ity_F64 Ity_I32);
   (["SinF64"; "CosF64"; "TanF64"; "2xm1F64"; "RoundF64toInt"],
     BINARY Ity_I32 Ity_F64 Ity_F64);
   (["MAddF64"; "MSubF64"; "MAddF64r32"; "MSubF64r32"],
     QUATERNARY Ity_I32 Ity_F64 Ity_F64 Ity_F64 Ity_F64);
   (["RSqrtEst5GoodF64"; "RoundF64toF64_NEAREST"; "RoundF64toF64_NegINF"; "RoundF64toF64_PosINF";
     "RoundF64toF64_ZERO"],
     UNARY Ity_F64 Ity_F64);
   (["RoundF64toF32"],
     BINARY Ity_I32 Ity_F64 Ity_F64);
   (["TruncF64asF32"],
     UNARY Ity_F64 Ity_F32);
   (["I32UtoF32x4_DEP"; "I32StoF32x4_DEP"; "QF32toI32Ux4_RZ"; "QF32toI32Sx4_RZ"; "F32toI32Ux4_RZ";
     "F32toI32Sx4_RZ"; "RoundF32x4_RM"; "RoundF32x4_RP"; "RoundF32x4_RN"; "RoundF32x4_RZ"; "Abs64Fx2";
     "Abs32Fx4"; "RSqrtEst32Fx4"; "RSqrtEst32Ux4"],
     UNARY Ity_V128 Ity_V128);
   (["Sqrt64Fx2"; "Sqrt32Fx4"; "I32StoF32x4"; "F32toI32Sx4"],
     BINARY Ity_I32 Ity_V128 Ity_V128);
   (["F32toF16x4"],
     BINARY Ity_I32 Ity_V128 Ity_I64);
   (["64HLtoV128"],
     BINARY Ity_I64 Ity_I64 Ity_V128);
   (["Scale2_32Fx4"; "Scale2_64Fx2"],
     TERNARY Ity_I32 Ity_V128 Ity_V128 Ity_V128);
   (["Log2_32Fx4"; "Log2_64Fx2"; "Exp2_32Fx4"],
     UNARY Ity_V128 Ity_V128);
   (["V128to64"; "V128HIto64"; "NarrowUn16to8x8"; "NarrowUn32to16x4"; "NarrowUn64to32x2";
     "QNarrowUn16Uto8Ux8"; "QNarrowUn32Uto16Ux4"; "QNarrowUn64Uto32Ux2"; "QNarrowUn16Sto8Sx8";
     "QNarrowUn32Sto16Sx4"; "QNarrowUn64Sto32Sx2"; "QNarrowUn16Sto8Ux8"; "QNarrowUn32Sto16Ux4";
     "QNarrowUn64Sto32Ux2"; "F32toF16x4_DEP"],
     UNARY Ity_V128 Ity_I64);
   (["Widen8Uto16x8"; "Widen16Uto32x4"; "Widen32Uto64x2"; "Widen8Sto16x8"; "Widen16Sto32x4"; "Widen32Sto64x2";
     "F16toF32x4"],
     UNARY Ity_I64 Ity_V128);
   (["V128to32"],
     UNARY Ity_V128 Ity_I32);
   (["32UtoV128"],
     UNARY Ity_I32 Ity_V128);
   (["64UtoV128"],
     UNARY Ity_I64 Ity_V128);
   (["SetV128lo32"],
     BINARY Ity_V128 Ity_I32 Ity_V128);
   (["SetV128lo64"],
     BINARY Ity_V128 Ity_I64 Ity_V128);
   (["Dup8x16"],
     UNARY Ity_I8 Ity_V128);
   (["Dup16x8"],
     UNARY Ity_I16 Ity_V128);
   (["Dup32x4"],
     UNARY Ity_I32 Ity_V128);
   (["Dup8x8"],
     UNARY Ity_I8 Ity_I64);
   (["Dup16x4"],
     UNARY Ity_I16 Ity_I64);
   (["Dup32x2"],
     UNARY Ity_I32 Ity_I64);
   (["CmpEQ32Fx4"; "CmpLT32Fx4"; "CmpEQ64Fx2"; "CmpLT64Fx2"; "CmpLE32Fx4"; "CmpUN32Fx4"; "CmpLE64Fx2";
     "CmpUN64Fx2"; "CmpGT32Fx4"; "CmpGE32Fx4"; "CmpEQ32F0x4"; "CmpLT32F0x4"; "CmpEQ64F0x2"; "CmpLT64F0x2";
     "CmpLE32F0x4"; "CmpUN32F0x4"; "CmpLE64F0x2"; "CmpUN64F0x2"; "Add32F0x4"; "Add64F0x2"; "Div32F0x4";
     "Div64F0x2"; "Max32Fx4"; "Max32F0x4"; "PwMax32Fx4"; "PwMin32Fx4"; "Max64Fx2"; "Max64F0x2"; "Min32Fx4";
     "Min32F0x4"; "Min64Fx2"; "Min64F0x2"; "Mul32F0x4"; "Mul64F0x2"; "Sub32F0x4"; "Sub64F0x2"; "AndV128";
     "OrV128"; "XorV128"; "Add8x16"; "Add16x8"; "Add32x4"; "Add64x2"; "Add128x1"; "QAdd8Ux16"; "QAdd16Ux8";
     "QAdd32Ux4"; "QAdd64Ux2"; "QAdd8Sx16"; "QAdd16Sx8"; "QAdd32Sx4"; "QAdd64Sx2"; "QAddExtUSsatSS8x16";
     "QAddExtUSsatSS16x8"; "QAddExtUSsatSS32x4"; "QAddExtUSsatSS64x2"; "QAddExtSUsatUU8x16";
     "QAddExtSUsatUU16x8"; "QAddExtSUsatUU32x4"; "QAddExtSUsatUU64x2"; "PwAdd8x16"; "PwAdd16x8"; "PwAdd32x4";
     "Sub8x16"; "Sub16x8"; "Sub32x4"; "Sub64x2"; "Sub128x1"; "QSub8Ux16"; "QSub16Ux8"; "QSub32Ux4";
     "QSub64Ux2"; "QSub8Sx16"; "QSub16Sx8"; "QSub32Sx4"; "QSub64Sx2"; "Mul8x16"; "Mul16x8"; "Mul32x4";
     "PolynomialMul8x16"; "PolynomialMulAdd8x16"; "PolynomialMulAdd16x8"; "PolynomialMulAdd32x4";
     "PolynomialMulAdd64x2"; "MulHi8Ux16"; "MulHi16Ux8"; "MulHi32Ux4"; "MulHi8Sx16"; "MulHi16Sx8";
     "MulHi32Sx4"; "QDMulHi16Sx8"; "QDMulHi32Sx4"; "QRDMulHi16Sx8"; "QRDMulHi32Sx4"; "MullEven8Ux16";
     "MullEven16Ux8"; "MullEven32Ux4"; "MullEven8Sx16"; "MullEven16Sx8"; "MullEven32Sx4"; "Avg8Ux16";
     "Avg16Ux8"; "Avg32Ux4"; "Avg64Ux2"; "Avg8Sx16"; "Avg16Sx8"; "Avg32Sx4"; "Avg64Sx2"; "Max8Sx16";
     "Max16Sx8"; "Max32Sx4"; "Max64Sx2"; "Max8Ux16"; "Max16Ux8"; "Max32Ux4"; "Max64Ux2"; "Min8Sx16";
     "Min16Sx8"; "Min32Sx4"; "Min64Sx2"; "Min8Ux16"; "Min16Ux8"; "Min32Ux4"; "Min64Ux2"; "CmpEQ8x16";
     "CmpEQ16x8"; "CmpEQ32x4"; "CmpEQ64x2"; "CmpGT8Sx16"; "CmpGT16Sx8"; "CmpGT32Sx4"; "CmpGT64Sx2";
     "CmpGT8Ux16"; "CmpGT16Ux8"; "CmpGT32Ux4"; "CmpGT64Ux2"; "Shl8x16"; "Shl16x8"; "Shl32x4"; "Shl64x2";
     "QShl8x16"; "QShl16x8"; "QShl32x4"; "QShl64x2"; "QSal8x16"; "QSal16x8"; "QSal32x4"; "QSal64x2";
     "Shr8x16"; "Shr16x8"; "Shr32x4"; "Shr64x2"; "Sar8x16"; "Sar16x8"; "Sar32x4"; "Sar64x2"; "Sal8x16";
     "Sal16x8"; "Sal32x4"; "Sal64x2"; "Rol8x16"; "Rol16x8"; "Rol32x4"; "Rol64x2"; "QNarrowBin16Sto8Ux16";
     "QNarrowBin32Sto16Ux8"; "QNarrowBin16Sto8Sx16"; "QNarrowBin32Sto16Sx8"; "QNarrowBin16Uto8Ux16";
     "QNarrowBin32Uto16Ux8"; "QNarrowBin64Sto32Sx4"; "QNarrowBin64Uto32Ux4"; "NarrowBin16to8x16";
     "NarrowBin32to16x8"; "NarrowBin64to32x4"; "InterleaveHI8x16"; "InterleaveHI16x8"; "InterleaveHI32x4";
     "InterleaveHI64x2"; "InterleaveLO8x16"; "InterleaveLO16x8"; "InterleaveLO32x4"; "InterleaveLO64x2";
     "CatOddLanes8x16"; "CatEvenLanes8x16"; "CatOddLanes16x8"; "CatEvenLanes16x8"; "CatOddLanes32x4";
     "CatEvenLanes32x4"; "InterleaveOddLanes8x16"; "InterleaveEvenLanes8x16"; "InterleaveOddLanes16x8";
     "InterleaveEvenLanes16x8"; "InterleaveOddLanes32x4"; "InterleaveEvenLanes32x4"; "PackOddLanes8x16";
     "PackEvenLanes8x16"; "PackOddLanes16x8"; "PackEvenLanes16x8"; "PackOddLanes32x4"; "PackEvenLanes32x4";
     "Perm8x16"; "PermOrZero8x16"; "Perm32x4"; "RecipStep32Fx4"; "RecipStep64Fx2"; "RSqrtStep32Fx4";
     "RSqrtStep64Fx2"; "CipherV128"; "CipherLV128"; "NCipherV128"; "NCipherLV128"; "Sh8Sx16"; "Sh16Sx8";
     "Sh32Sx4"; "Sh64Sx2"; "Sh8Ux16"; "Sh16Ux8"; "Sh32Ux4"; "Sh64Ux2"; "Rsh8Sx16"; "Rsh16Sx8"; "Rsh32Sx4";
     "Rsh64Sx2"; "Rsh8Ux16"; "Rsh16Ux8"; "Rsh32Ux4"; "Rsh64Ux2"; "MulI128by10E"; "MulI128by10ECarry";
     "PwExtUSMulQAdd8x16"],
     BINARY Ity_V128 Ity_V128 Ity_V128);
   (["Perm8x16x2"],
     TERNARY Ity_V128 Ity_V128 Ity_V128 Ity_V128);
   (["PolynomialMull8x8"; "Mull8Ux8"; "Mull8Sx8"; "Mull16Ux4"; "Mull16Sx4"; "Mull32Ux2"; "Mull32Sx2"],
     BINARY Ity_I64 Ity_I64 Ity_V128);
   (["NotV128"; "RecipEst32Fx4"; "RecipEst32F0x4"; "RecipEst64Fx2"; "RSqrtEst64Fx2"; "RecipEst32Ux4";
     "RSqrtEst32F0x4"; "Sqrt32F0x4"; "Sqrt64F0x2"; "CmpNEZ8x16"; "CmpNEZ16x8"; "CmpNEZ32x4"; "CmpNEZ64x2";
     "CmpNEZ128x1"; "Cnt8x16"; "Clz8x16"; "Clz16x8"; "Clz32x4"; "Clz64x2"; "Cls8x16"; "Cls16x8"; "Cls32x4";
     "PwAddL8Ux16"; "PwAddL16Ux8"; "PwAddL32Ux4"; "PwAddL64Ux2"; "PwAddL8Sx16"; "PwAddL16Sx8"; "PwAddL32Sx4";
     "Reverse8sIn64_x2"; "Reverse16sIn64_x2"; "Reverse32sIn64_x2"; "Reverse8sIn32_x4"; "Reverse16sIn32_x4";
     "Reverse8sIn16_x8"; "Reverse1sIn8_x16"; "Neg64Fx2"; "Neg32Fx4"; "Abs8x16"; "Abs16x8"; "Abs32x4";
     "Abs64x2"; "CipherSV128"; "PwBitMtxXpose64x2"; "ZeroHI64ofV128"; "ZeroHI96ofV128"; "ZeroHI112ofV128";
     "ZeroHI120ofV128"; "F16toF64x2"; "F64toF16x2_DEP"; "MulI128by10"; "MulI128by10Carry"; "Ctz8x16";
     "Ctz16x8"; "Ctz32x4"; "Ctz64x2"; "BCD128toI128S"],
     UNARY Ity_V128 Ity_V128);
   (["ShlV128"; "ShrV128"; "SarV128"; "ShlN8x16"; "ShlN16x8"; "ShlN32x4"; "ShlN64x2"; "ShrN8x16"; "ShrN16x8";
     "ShrN32x4"; "ShrN64x2"; "SarN8x16"; "SarN16x8"; "SarN32x4"; "SarN64x2"; "QShlNsatUU8x16";
     "QShlNsatUU16x8"; "QShlNsatUU32x4"; "QShlNsatUU64x2"; "QShlNsatSU8x16"; "QShlNsatSU16x8";
     "QShlNsatSU32x4"; "QShlNsatSU64x2"; "QShlNsatSS8x16"; "QShlNsatSS16x8"; "QShlNsatSS32x4";
     "QShlNsatSS64x2"; "SHA256"; "SHA512"; "QandQShrNnarrow16Uto8Ux8"; "QandQShrNnarrow32Uto16Ux4";
     "QandQShrNnarrow64Uto32Ux2"; "QandQSarNnarrow16Sto8Sx8"; "QandQSarNnarrow32Sto16Sx4";
     "QandQSarNnarrow64Sto32Sx2"; "QandQSarNnarrow16Sto8Ux8"; "QandQSarNnarrow32Sto16Ux4";
     "QandQSarNnarrow64Sto32Ux2"; "QandQRShrNnarrow16Uto8Ux8"; "QandQRShrNnarrow32Uto16Ux4";
     "QandQRShrNnarrow64Uto32Ux2"; "QandQRSarNnarrow16Sto8Sx8"; "QandQRSarNnarrow32Sto16Sx4";
     "QandQRSarNnarrow64Sto32Sx2"; "QandQRSarNnarrow16Sto8Ux8"; "QandQRSarNnarrow32Sto16Ux4";
     "QandQRSarNnarrow64Sto32Ux2"; "I128StoBCD128"],
     BINARY Ity_V128 Ity_I8 Ity_V128);
   (["F32ToFixed32Ux4_RZ"; "F32ToFixed32Sx4_RZ"; "Fixed32UToF32x4_RN"; "Fixed32SToF32x4_RN"],
     BINARY Ity_V128 Ity_I8 Ity_V128);
   (["F32ToFixed32Ux2_RZ"; "F32ToFixed32Sx2_RZ"; "Fixed32UToF32x2_RN"; "Fixed32SToF32x2_RN"],
     BINARY Ity_I64 Ity_I8 Ity_I64);
   (["GetElem8x16"],
     BINARY Ity_V128 Ity_I8 Ity_I8);
   (["GetElem16x8"],
     BINARY Ity_V128 Ity_I8 Ity_I16);
   (["GetElem32x4"],
     BINARY Ity_V128 Ity_I8 Ity_I32);
   (["GetElem64x2"],
     BINARY Ity_V128 Ity_I8 Ity_I64);
   (["SetElem8x16"],
     TERNARY Ity_V128 Ity_I8 Ity_I8 Ity_V128);
   (["SetElem16x8"],
     TERNARY Ity_V128 Ity_I8 Ity_I16 Ity_V128);
   (["SetElem32x4"],
     TERNARY Ity_V128 Ity_I8 Ity_I32 Ity_V128);
   (["SetElem64x2"],
     TERNARY Ity_V128 Ity_I8 Ity_I64 Ity_V128);
   (["GetElem8x8"],
     BINARY Ity_I64 Ity_I8 Ity_I8);
   (["GetElem16x4"],
     BINARY Ity_I64 Ity_I8 Ity_I16);
   (["GetElem32x2"],
     BINARY Ity_I64 Ity_I8 Ity_I32);
   (["SetElem8x8"],
     TERNARY Ity_I64 Ity_I8 Ity_I8 Ity_I64);
   (["SetElem16x4"],
     TERNARY Ity_I64 Ity_I8 Ity_I16 Ity_I64);
   (["SetElem32x2"],
     TERNARY Ity_I64 Ity_I8 Ity_I32 Ity_I64);
   (["Slice64"],
     TERNARY Ity_I64 Ity_I64 Ity_I8 Ity_I64);
   (["SliceV128"],
     TERNARY Ity_V128 Ity_V128 Ity_I8 Ity_V128);
   (["BCDAdd"; "BCDSub"],
     BINARY Ity_V128 Ity_V128 Ity_V128);
   (["QDMull16Sx4"; "QDMull32Sx2"],
     BINARY Ity_I64 Ity_I64 Ity_V128);
   (["MAddF32"; "MSubF32"],
     QUATERNARY Ity_I32 Ity_F32 Ity_F32 Ity_F32 Ity_F32);
   (["F64HLtoF128"],
     BINARY Ity_F64 Ity_F64 Ity_F128);
   (["F128HItoF64"; "F128LOtoF64"],
     UNARY Ity_F128 Ity_F64);
   (["AddF128"; "SubF128"; "MulF128"; "DivF128"],
     TERNARY Ity_I32 Ity_F128 Ity_F128 Ity_F128);
   (["MAddF128"; "MSubF128"; "NegMAddF128"; "NegMSubF128"],
     QUATERNARY Ity_I32 Ity_F128 Ity_F128 Ity_F128 Ity_F128);
   (["Add64Fx2"; "Sub64Fx2"; "Mul64Fx2"; "Div64Fx2"; "Add32Fx4"; "Sub32Fx4"; "Mul32Fx4"; "Div32Fx4";
     "F64x2_2toQ32x4"; "F32x4_2toQ16x8"],
     TERNARY Ity_I32 Ity_V128 Ity_V128 Ity_V128);
   (["Add64Fx4"; "Sub64Fx4"; "Mul64Fx4"; "Div64Fx4"; "Add32Fx8"; "Sub32Fx8"; "Mul32Fx8"; "Div32Fx8"],
     TERNARY Ity_I32 Ity_V256 Ity_V256 Ity_V256);
   (["NegF128"; "AbsF128"],
     UNARY Ity_F128 Ity_F128);
   (["SqrtF128"; "RoundF128toInt"],
     BINARY Ity_I32 Ity_F128 Ity_F128);
   (["I32StoF128"],
     UNARY Ity_I32 Ity_F128);
   (["I64StoF128"],
     UNARY Ity_I64 Ity_F128);
   (["I32UtoF128"],
     UNARY Ity_I32 Ity_F128);
   (["I64UtoF128"],
     UNARY Ity_I64 Ity_F128);
   (["F128toI32S"],
     BINARY Ity_I32 Ity_F128 Ity_I32);
   (["F128toI64S"],
     BINARY Ity_I32 Ity_F128 Ity_I64);
   (["F128toI32U"],
     BINARY Ity_I32 Ity_F128 Ity_I32);
   (["F128toI64U"],
     BINARY Ity_I32 Ity_F128 Ity_I64);
   (["F32toF128"],
     UNARY Ity_F32 Ity_F128);
   (["F64toF128"],
     UNARY Ity_F64 Ity_F128);
   (["F128toF32"],
     BINARY Ity_I32 Ity_F128 Ity_F32);
   (["F128toF64"],
     BINARY Ity_I32 Ity_F128 Ity_F64);
   (["TruncF128toI32S"; "TruncF128toI64S"; "TruncF128toI32U"; "TruncF128toI64U"],
     UNARY Ity_F128 Ity_F128);
   (["F128toI128S"; "RndF128"],
     BINARY Ity_I32 Ity_F128 Ity_F128);
   (["D32toD64"],
     UNARY Ity_D32 Ity_D64);
   (["ExtractExpD64"],
     UNARY Ity_D64 Ity_I64);
   (["ExtractSigD64"],
     UNARY Ity_D64 Ity_I64);
   (["InsertExpD64"],
     BINARY Ity_I64 Ity_D64 Ity_D64);
   (["ExtractExpD128"],
     UNARY Ity_D128 Ity_I64);
   (["ExtractSigD128"],
     UNARY Ity_D128 Ity_I64);
   (["InsertExpD128"],
     BINARY Ity_I64 Ity_D128 Ity_D128);
   (["D64toD128"],
     UNARY Ity_D64 Ity_D128);
   (["ReinterpD64asI64"],
     UNARY Ity_D64 Ity_I64);
   (["ReinterpI64asD64"],
     UNARY Ity_I64 Ity_D64);
   (["RoundD64toInt"],
     BINARY Ity_I32 Ity_D64 Ity_D64);
   (["RoundD128toInt"],
     BINARY Ity_I32 Ity_D128 Ity_D128);
   (["I32StoD128"; "I32UtoD128"],
     UNARY Ity_I32 Ity_D128);
   (["I64StoD128"],
     UNARY Ity_I64 Ity_D128);
   (["I64UtoD128"],
     UNARY Ity_I64 Ity_D128);
   (["DPBtoBCD"; "BCDtoDPB"],
     UNARY Ity_I64 Ity_I64);
   (["D128HItoD64"; "D128LOtoD64"],
     UNARY Ity_D128 Ity_D64);
   (["D128toI64S"],
     BINARY Ity_I32 Ity_D128 Ity_I64);
   (["D128toI64U"],
     BINARY Ity_I32 Ity_D128 Ity_I64);
   (["D128toI32S"; "D128toI32U"],
     BINARY Ity_I32 Ity_D128 Ity_I32);
   (["D64HLtoD128"],
     BINARY Ity_D64 Ity_D64 Ity_D128);
   (["ShlD64"; "ShrD64"],
     BINARY Ity_D64 Ity_I8 Ity_D64);
   (["D64toD32"],
     BINARY Ity_I32 Ity_D64 Ity_D32);
   (["D64toI32S"; "D64toI32U"],
     BINARY Ity_I32 Ity_D64 Ity_I32);
   (["D64toI64S"],
     BINARY Ity_I32 Ity_D64 Ity_I64);
   (["D64toI64U"],
     BINARY Ity_I32 Ity_D64 Ity_I64);
   (["I32StoD64"; "I32UtoD64"],
     UNARY Ity_I32 Ity_D64);
   (["I64StoD64"],
     BINARY Ity_I32 Ity_I64 Ity_D64);
   (["I64UtoD64"],
     BINARY Ity_I32 Ity_I64 Ity_D64);
   (["F32toD32"],
     BINARY Ity_I32 Ity_F32 Ity_D32);
   (["F32toD64"],
     BINARY Ity_I32 Ity_F32 Ity_D64);
   (["F32toD128"],
     BINARY Ity_I32 Ity_F32 Ity_D128);
   (["F64toD32"],
     BINARY Ity_I32 Ity_F64 Ity_D32);
   (["F64toD64"],
     BINARY Ity_I32 Ity_F64 Ity_D64);
   (["F64toD128"],
     BINARY Ity_I32 Ity_F64 Ity_D128);
   (["F128toD32"],
     BINARY Ity_I32 Ity_F128 Ity_D32);
   (["F128toD64"],
     BINARY Ity_I32 Ity_F128 Ity_D64);
   (["F128toD128"],
     BINARY Ity_I32 Ity_F128 Ity_D128);
   (["D32toF32"],
     BINARY Ity_I32 Ity_D32 Ity_F32);
   (["D32toF64"],
     BINARY Ity_I32 Ity_D32 Ity_F64);
   (["D32toF128"],
     BINARY Ity_I32 Ity_D32 Ity_F128);
   (["D64toF32"],
     BINARY Ity_I32 Ity_D64 Ity_F32);
   (["D64toF64"],
     BINARY Ity_I32 Ity_D64 Ity_F64);
   (["D64toF128"],
     BINARY Ity_I32 Ity_D64 Ity_F128);
   (["D128toF32"],
     BINARY Ity_I32 Ity_D128 Ity_F32);
   (["D128toF64"],
     BINARY Ity_I32 Ity_D128 Ity_F64);
   (["D128toF128"],
     BINARY Ity_I32 Ity_D128 Ity_F128);
   (["CmpD64"; "CmpExpD64"],
     BINARY Ity_D64 Ity_D64 Ity_I32);
   (["CmpD128"; "CmpExpD128"],
     BINARY Ity_D128 Ity_D128 Ity_I32);
   (["QuantizeD64"],
     TERNARY Ity_I32 Ity_D64 Ity_D64 Ity_D64);
   (["SignificanceRoundD64"],
     TERNARY Ity_I32 Ity_I8 Ity_D64 Ity_D64);
   (["QuantizeD128"],
     TERNARY Ity_I32 Ity_D128 Ity_D128 Ity_D128);
   (["SignificanceRoundD128"],
     TERNARY Ity_I32 Ity_I8 Ity_D128 Ity_D128);
   (["ShlD128"; "ShrD128"],
     BINARY Ity_D128 Ity_I8 Ity_D128);
   (["AddD64"; "SubD64"; "MulD64"; "DivD64"],
     TERNARY Ity_I32 Ity_D64 Ity_D64 Ity_D64);
   (["D128toD64"],
     BINARY Ity_I32 Ity_D128 Ity_D64);
   (["AddD128"; "SubD128"; "MulD128"; "DivD128"],
     TERNARY Ity_I32 Ity_D128 Ity_D128 Ity_D128);
   (["V256to64_0"; "V256to64_1"; "V256to64_2"; "V256to64_3"],
     UNARY Ity_V256 Ity_I64);
   (["64x4toV256"],
     QUATERNARY Ity_I64 Ity_I64 Ity_I64 Ity_I64 Ity_V256);
   (["AndV256"; "OrV256"; "XorV256"; "Max32Fx8"; "Min32Fx8"; "Max64Fx4"; "Min64Fx4"; "Add8x32"; "Add16x16";
     "Add32x8"; "Add64x4"; "Sub8x32"; "Sub16x16"; "Sub32x8"; "Sub64x4"; "Mul16x16"; "Mul32x8"; "MulHi16Ux16";
     "MulHi16Sx16"; "Avg8Ux32"; "Avg16Ux16"; "Max8Sx32"; "Max16Sx16"; "Max32Sx8"; "Max8Ux32"; "Max16Ux16";
     "Max32Ux8"; "Min8Sx32"; "Min16Sx16"; "Min32Sx8"; "Min8Ux32"; "Min16Ux16"; "Min32Ux8"; "CmpEQ8x32";
     "CmpEQ16x16"; "CmpEQ32x8"; "CmpEQ64x4"; "CmpGT8Sx32"; "CmpGT16Sx16"; "CmpGT32Sx8"; "CmpGT64Sx4";
     "QAdd8Ux32"; "QAdd16Ux16"; "QAdd8Sx32"; "QAdd16Sx16"; "QSub8Ux32"; "QSub16Ux16"; "QSub8Sx32";
     "QSub16Sx16"; "Perm32x8"],
     BINARY Ity_V256 Ity_V256 Ity_V256);
   (["I32StoF32x8"; "F32toI32Sx8"],
     BINARY Ity_I32 Ity_V256 Ity_V256);
   (["F32toF16x8"],
     BINARY Ity_I32 Ity_V256 Ity_V128);
   (["V256toV128_1"; "V256toV128_0"],
     UNARY Ity_V256 Ity_V128);
   (["F16toF32x8"],
     UNARY Ity_V128 Ity_V256);
   (["QandUQsh8x16"; "QandUQsh16x8"; "QandUQsh32x4"; "QandUQsh64x2"; "QandSQsh8x16"; "QandSQsh16x8";
     "QandSQsh32x4"; "QandSQsh64x2"; "QandUQRsh8x16"; "QandUQRsh16x8"; "QandUQRsh32x4"; "QandUQRsh64x2";
     "QandSQRsh8x16"; "QandSQRsh16x8"; "QandSQRsh32x4"; "QandSQRsh64x2"; "V128HLtoV256"],
     BINARY Ity_V128 Ity_V128 Ity_V256);
   (["NotV256"; "RSqrtEst32Fx8"; "Sqrt32Fx8"; "Sqrt64Fx4"; "RecipEst32Fx8"; "CmpNEZ8x32"; "CmpNEZ16x16";
     "CmpNEZ64x4"; "CmpNEZ32x8"],
     UNARY Ity_V256 Ity_V256);
   (["ShlN16x16"; "ShlN32x8"; "ShlN64x4"; "ShrN16x16"; "ShrN32x8"; "ShrN64x4"; "SarN16x16"; "SarN32x8"],
     BINARY Ity_V256 Ity_I8 Ity_V256);
   (["Rotx32"],
     QUATERNARY Ity_I32 Ity_I8 Ity_I8 Ity_I8 Ity_I32);
   (["Rotx64"],
     QUATERNARY Ity_I64 Ity_I8 Ity_I8 Ity_I8 Ity_I64)])%string.

Definition expand (t : op_type) : primop_type :=
  match t with
  | UNARY a1 d => mk_primop_type d a1 Ity_INVALID Ity_INVALID Ity_INVALID
  | BINARY a1 a2 d => mk_primop_type d a1 a2 Ity_INVALID Ity_INVALID
  | TERNARY a1 a2 a3 d => mk_primop_type d a1 a2 a3 Ity_INVALID
  | QUATERNARY a1 a2 a3 a4 d => mk_primop_type d a1 a2 a3 a4
  | COMPARISON a => mk_primop_type Ity_I1 a a Ity_INVALID Ity_INVALID
  | UNARY_COMPARISON a => mk_primop_type Ity_I1 a Ity_INVALID Ity_INVALID Ity_INVALID
  end.

Fixpoint find_group (name : string) (groups : list (list string * op_type)) : option op_type :=
  match groups with
  | [] => None
  | (names, t) :: groups => if existsb (String.eqb name) names then Some t else find_group name groups
  end.

Definition typeOfPrimop (op : Z) : outcome primop_type :=
  match op_name op with
  | Some name => match find_group name primop_groups with Some t => Ok (expand t) | None => Err Panic end
  | None => Err Panic
  end.
Arguments typeOfPrimop : simpl never.

(** Every operator of the enumeration but its bounds has a type, whose
    arguments come first. *)
Definition well_formed_type (t : primop_type) : bool :=
  let absent ty := bool_decide (ty = Ity_INVALID) in
  negb (absent (t_dst t)) && negb (absent (t_arg1 t))
  && implb (absent (t_arg2 t)) (absent (t_arg3 t)) && implb (absent (t_arg3 t)) (absent (t_arg4 t)).

Definition typed_op (op : Z) : bool :=
  match typeOfPrimop op with Ok t => well_formed_type t | Err _ => false end.

Definition Iop_LAST : Z := Iop_INVALID + Z.of_nat (length IROp_names) - 1.

Lemma operators_checked :
  forallb typed_op (seqZ (Iop_INVALID + 1) (Iop_LAST - Iop_INVALID - 1)) = true.
Proof. vm_compute. reflexivity. Qed.

Lemma typeOfPrimop_total op : Iop_INVALID < op < Iop_LAST ->
  exists t, typeOfPrimop op = Ok t /\ well_formed_type t = true.
Proof.
  intros Hop. pose proof operators_checked as H. rewrite forallb_forall in H.
  specialize (H op). unfold typed_op in H. destruct (typeOfPrimop op) as [t|].
  - exists t. split; [done|]. apply H, list_elem_of_In, elem_of_seqZ. lia.
  - discriminate H. apply list_elem_of_In, elem_of_seqZ. lia.
Qed.

(** ** The operators the optimiser names *)

Definition Iop_Add8 : Z := 0x1401.
Definition Iop_Add32 : Z := 0x1403.
Definition Iop_Add64 : Z := 0x1404.
Definition Iop_Sub8 : Z := 0x1405.
Definition Iop_Sub32 : Z := 0x1407.
Definition Iop_Sub64 : Z := 0x1408.
Definition Iop_Mul32 : Z := 0x140B.
Definition Iop_Mul64 : Z := 0x140C.
Definition Iop_Or8 : Z := 0x140D.
Definition Iop_Or16 : Z := 0x140E.
Definition Iop_Or32 : Z := 0x140F.
Definition Iop_Or64 : Z := 0x1410.
Definition Iop_And8 : Z := 0x1411.
Definition Iop_And16 : Z := 0x1412.
Definition Iop_And32 : Z := 0x1413.
Definition Iop_And64 : Z := 0x1414.
Definition Iop_Xor8 : Z := 0x1415.
Definition Iop_Xor16 : Z := 0x1416.
Definition Iop_Xor32 : Z := 0x1417.
Definition Iop_Xor64 : Z := 0x1418.
Definition Iop_Shl8 : Z := 0x1419.
Definition Iop_Shl32 : Z := 0x141B.
Definition Iop_Shl64 : Z := 0x141C.
Definition Iop_Shr32 : Z := 0x141F.
Definition Iop_Shr64 : Z := 0x1420.
Definition Iop_Sar32 : Z := 0x1423.
Definition Iop_Sar64 : Z := 0x1424.
Definition Iop_CmpEQ32 : Z := 0x1427.
Definition Iop_CmpEQ64 : Z := 0x1428.
Definition Iop_CmpNE8 : Z := 0x1429.
Definition Iop_CmpNE32 : Z := 0x142B.
Definition Iop_CmpNE64 : Z := 0x142C.
Definition Iop_Not8 : Z := 0x142D.
Definition Iop_Not16 : Z := 0x142E.
Definition Iop_Not32 : Z := 0x142F.
Definition Iop_Not64 : Z := 0x1430.
Definition Iop_CasCmpNE8 : Z := 0x1435.
Definition Iop_CasCmpNE32 : Z := 0x1437.
Definition Iop_CasCmpNE64 : Z := 0x1438.
Definition Iop_ExpCmpNE8 : Z := 0x1439.
Definition Iop_ExpCmpNE32 : Z := 0x143B.
Definition Iop_ExpCmpNE64 : Z := 0x143C.
Definition Iop_MullS32 : Z := 0x143F.
Definition Iop_Clz64 : Z := 0x1445.
Definition Iop_Clz32 : Z := 0x1446.
Definition Iop_CtzNat64 : Z := 0x144B.
Definition Iop_PopCount64 : Z := 0x144D.
Definition Iop_CmpLT32S : Z := 0x144F.
Definition Iop_CmpLT64S : Z := 0x1450.
Definition Iop_CmpLE32S : Z := 0x1451.
Definition Iop_CmpLE64S : Z := 0x1452.
Definition Iop_CmpLT32U : Z := 0x1453.
Definition Iop_CmpLT64U : Z := 0x1454.
Definition Iop_CmpLE32U : Z := 0x1455.
Definition Iop_CmpLE64U : Z := 0x1456.
Definition Iop_CmpNEZ8 : Z := 0x1457.
Definition Iop_CmpNEZ32 : Z := 0x1459.
Definition Iop_CmpNEZ64 : Z := 0x145A.
Definition Iop_CmpwNEZ32 : Z := 0x145B.
Definition Iop_CmpwNEZ64 : Z := 0x145C.
Definition Iop_Left32 : Z := 0x145F.
Definition Iop_Left64 : Z := 0x1460.
Definition Iop_Max32U : Z := 0x1461.
Definition Iop_CmpORD32S : Z := 0x1464.
Definition Iop_8Uto16 : Z := 0x1476.
Definition Iop_8Uto32 : Z := 0x1477.
Definition Iop_8Uto64 : Z := 0x1478.
Definition Iop_16Uto32 : Z := 0x1479.
Definition Iop_16Uto64 : Z := 0x147A.
Definition Iop_32Uto64 : Z := 0x147B.
Definition Iop_8Sto16 : Z := 0x147C.
Definition Iop_8Sto32 : Z := 0x147D.
Definition Iop_16Sto32 : Z := 0x147F.
Definition Iop_16Sto64 : Z := 0x1480.
Definition Iop_32Sto64 : Z := 0x1481.
Definition Iop_64to8 : Z := 0x1482.
Definition Iop_32to8 : Z := 0x1483.
Definition Iop_64to16 : Z := 0x1484.
Definition Iop_16to8 : Z := 0x1485.
Definition Iop_16HIto8 : Z := 0x1486.
Definition Iop_32to16 : Z := 0x1488.
Definition Iop_64to32 : Z := 0x148B.
Definition Iop_64HIto32 : Z := 0x148C.
Definition Iop_32HLto64 : Z := 0x148D.
Definition Iop_64HLto128 : Z := 0x1490.
Definition Iop_Not1 : Z := 0x1491.
Definition Iop_32to1 : Z := 0x1494.
Definition Iop_64to1 : Z := 0x1495.
Definition Iop_1Uto8 : Z := 0x1496.
Definition Iop_1Uto32 : Z := 0x1497.
Definition Iop_1Uto64 : Z := 0x1498.
Definition Iop_1Sto8 : Z := 0x1499.
Definition Iop_1Sto16 : Z := 0x149A.
Definition Iop_1Sto32 : Z := 0x149B.
Definition Iop_1Sto64 : Z := 0x149C.
Definition Iop_CmpEQ8x8 : Z := 0x1588.
Definition Iop_V128to64 : Z := 0x1698.
Definition Iop_V128HIto64 : Z := 0x1699.
Definition Iop_64HLtoV128 : Z := 0x169A.
Definition Iop_64UtoV128 : Z := 0x169B.
Definition Iop_ZeroHI64ofV128 : Z := 0x169D.
Definition Iop_32UtoV128 : Z := 0x16A1.
Definition Iop_NotV128 : Z := 0x16A4.
Definition Iop_AndV128 : Z := 0x16A5.
Definition Iop_OrV128 : Z := 0x16A6.
Definition Iop_XorV128 : Z := 0x16A7.
Definition Iop_Sub8x16 : Z := 0x16C5.
Definition Iop_CmpEQ8x16 : Z := 0x171C.
Definition Iop_CmpEQ16x8 : Z := 0x171D.
Definition Iop_CmpEQ32x4 : Z := 0x171E.
Definition Iop_InterleaveLO8x16 : Z := 0x17B6.
Definition Iop_V256to64_0 : Z := 0x17EA.
Definition Iop_V256to64_1 : Z := 0x17EB.
Definition Iop_V256to64_2 : Z := 0x17EC.
Definition Iop_V256to64_3 : Z := 0x17ED.
Definition Iop_V128HLtoV256 : Z := 0x17F1.
Definition Iop_AndV256 : Z := 0x17F2.
Definition Iop_OrV256 : Z := 0x17F3.
Definition Iop_XorV256 : Z := 0x17F4.
Definition Iop_CmpEQ32x8 : Z := 0x1804.
