(* ===== verification/IR.v ===== *)
(** * The intermediate representation Cachegrind instruments

    VEX/pub/libvex_ir.h and the functions of VEX/priv/ir_defs.c that
    instrumentation calls.  Temporaries, operators ([IROp], Primop.v) and guest
    state offsets are integers; a function address is the name of the function. *)

From Stdlib Require Import SpecFloat.
From S2P Require Import Prelude Primop.

(** ** Data *)

Inductive IREndness := Iend_LE | Iend_BE.

Inductive IRConst :=
| Ico_U1 (b : Z) | Ico_U8 (v : Z) | Ico_U16 (v : Z) | Ico_U32 (v : Z) | Ico_U64 (v : Z)
| Ico_F32 (f : spec_float) | Ico_F32i (v : Z) | Ico_F64 (f : spec_float) | Ico_F64i (v : Z)
| Ico_V128 (v : Z) | Ico_V256 (v : Z).

(** A piece of the guest state treated as an array. *)
Record IRRegArray := mk_IRRegArray { ra_base : Z; elemTy : IRType; ra_nElems : Z }.

Record IRCallee := mk_IRCallee { regparms : Z; name : string; addr : string; mcx_mask : Z }.

Inductive IRExpr :=
| Iex_Binder (binder : Z)
| Iex_Get (offset : Z) (ty : IRType)
| Iex_GetI (descr : IRRegArray) (ix : IRExpr) (bias : Z)
| Iex_RdTmp (tmp : Z)
| Iex_Qop (op : Z) (arg1 arg2 arg3 arg4 : IRExpr)
| Iex_Triop (op : Z) (arg1 arg2 arg3 : IRExpr)
| Iex_Binop (op : Z) (arg1 arg2 : IRExpr)
| Iex_Unop (op : Z) (arg : IRExpr)
| Iex_Load (e : IREndness) (ty : IRType) (addr : IRExpr)
| Iex_Const (con : IRConst)
| Iex_CCall (cee : IRCallee) (retty : IRType) (args : list IRExpr)
| Iex_ITE (cond iftrue iffalse : IRExpr)
| Iex_VECRET
| Iex_GSPTR.

Inductive IRJumpKind :=
| Ijk_INVALID | Ijk_Boring | Ijk_Call | Ijk_Ret | Ijk_ClientReq | Ijk_Yield | Ijk_EmWarn
| Ijk_EmFail | Ijk_NoDecode | Ijk_MapFail | Ijk_InvalICache | Ijk_FlushDCache | Ijk_NoRedir
| Ijk_SigILL | Ijk_SigTRAP | Ijk_SigSEGV | Ijk_SigBUS | Ijk_SigFPE | Ijk_SigFPE_IntDiv
| Ijk_SigFPE_IntOvf | Ijk_Sys_syscall | Ijk_Sys_int32 | Ijk_Sys_int128 | Ijk_Sys_int129
| Ijk_Sys_int130 | Ijk_Sys_int145 | Ijk_Sys_int210 | Ijk_Sys_sysenter.

#[export] Instance IRJumpKind_eq_dec : EqDecision IRJumpKind.
Proof. solve_decision. Defined.

Inductive IREffect := Ifx_None | Ifx_Read | Ifx_Write | Ifx_Modify.

#[export] Instance IREffect_eq_dec : EqDecision IREffect.
Proof. solve_decision. Defined.

(** A part of the guest state a call touches. *)
Record fx_state := mk_fx_state { fx : IREffect; fx_offset : Z; fx_size : Z; nRepeats : Z; repeatLen : Z }.

(** A call of a helper with side effects; [fxState] holds the [nFxState] parts
    of the guest state in use. *)
Record IRDirty := mk_IRDirty {
  cee : IRCallee;
  guard : IRExpr;
  args : list IRExpr;
  tmp : Z;
  mFx : IREffect;
  mAddr : option IRExpr;
  mSize : Z;
  fxState : list fx_state
}.

Inductive IRMBusEvent := Imbe_Fence | Imbe_CancelReservation.

Record IRCAS := mk_IRCAS {
  oldHi : Z; oldLo : Z; cas_end : IREndness; cas_addr : IRExpr;
  expdHi : option IRExpr; expdLo : IRExpr; dataHi : option IRExpr; dataLo : IRExpr
}.

Inductive IRLoadGOp :=
| ILGop_INVALID | ILGop_IdentV128 | ILGop_Ident64 | ILGop_Ident32 | ILGop_16Uto32
| ILGop_16Sto32 | ILGop_8Uto32 | ILGop_8Sto32.

(** A pointer that may be [NULL] is an [option]. *)
Inductive IRStmt :=
| Ist_NoOp
| Ist_IMark (addr len delta : Z)
| Ist_AbiHint (base : IRExpr) (len : Z) (nia : IRExpr)
| Ist_Put (offset : Z) (data : IRExpr)
| Ist_PutI (descr : IRRegArray) (ix : IRExpr) (bias : Z) (data : IRExpr)
| Ist_WrTmp (tmp : Z) (data : IRExpr)
| Ist_Store (e : IREndness) (addr data : IRExpr)
| Ist_LoadG (e : IREndness) (cvt : IRLoadGOp) (dst : Z) (addr alt guard : IRExpr)
| Ist_StoreG (e : IREndness) (addr data guard : IRExpr)
| Ist_CAS (details : IRCAS)
| Ist_LLSC (e : IREndness) (result : Z) (addr : IRExpr) (storedata : option IRExpr)
| Ist_Dirty (details : IRDirty)
| Ist_MBE (event : IRMBusEvent)
| Ist_Exit (guard : IRExpr) (jk : IRJumpKind) (dst : IRConst) (offsIP : Z).

(** The types of the temporaries in use. *)
Definition IRTypeEnv : Type := list IRType.

Record IRSB := mk_IRSB {
  tyenv : IRTypeEnv;
  stmts : list IRStmt;
  next : IRExpr;
  jumpkind : IRJumpKind;
  sb_offsIP : Z
}.

#[export] Instance IRSB_eta : RecordEta IRSB := fun b =>
  mk_IRSB (tyenv b) (stmts b) (next b) (jumpkind b) (sb_offsIP b).

(** ** Functions of ir_defs.c *)

Definition isIRAtom (e : IRExpr) : bool :=
  match e with Iex_RdTmp _ | Iex_Const _ => true | _ => false end.

Definition is_IRExpr_VECRET_or_GSPTR (e : IRExpr) : bool :=
  match e with Iex_VECRET | Iex_GSPTR => true | _ => false end.

Definition isIRAtom_or_VECRET_or_GSPTR (e : IRExpr) : bool :=
  isIRAtom e || is_IRExpr_VECRET_or_GSPTR e.

(** [e ? isIRAtom(e) : True]. *)
Definition atom_or_null (e : option IRExpr) : bool :=
  match e with Some e => isIRAtom e | None => true end.

Definition isFlatIRStmt (st : IRStmt) : outcome bool :=
  match st with
  | Ist_AbiHint base _ nia => Ok (isIRAtom base && isIRAtom nia)
  | Ist_Put _ data => Ok (isIRAtom data)
  | Ist_PutI _ ix _ data => Ok (isIRAtom ix && isIRAtom data)
  | Ist_WrTmp _ e =>
      match e with
      | Iex_Binder _ | Iex_Get _ _ | Iex_RdTmp _ | Iex_Const _ => Ok true
      | Iex_GetI _ ix _ => Ok (isIRAtom ix)
      | Iex_Qop _ a1 a2 a3 a4 => Ok (isIRAtom a1 && isIRAtom a2 && isIRAtom a3 && isIRAtom a4)
      | Iex_Triop _ a1 a2 a3 => Ok (isIRAtom a1 && isIRAtom a2 && isIRAtom a3)
      | Iex_Binop _ a1 a2 => Ok (isIRAtom a1 && isIRAtom a2)
      | Iex_Unop _ a => Ok (isIRAtom a)
      | Iex_Load _ _ addr => Ok (isIRAtom addr)
      | Iex_CCall _ _ args => Ok (forallb isIRAtom args)
      | Iex_ITE c t f => Ok (isIRAtom c && isIRAtom t && isIRAtom f)
      | Iex_VECRET | Iex_GSPTR => Err Panic
      end
  | Ist_Store _ addr data => Ok (isIRAtom addr && isIRAtom data)
  | Ist_StoreG _ addr data guard => Ok (isIRAtom addr && isIRAtom data && isIRAtom guard)
  | Ist_LoadG _ _ _ addr alt guard => Ok (isIRAtom addr && isIRAtom alt && isIRAtom guard)
  | Ist_CAS cas =>
      Ok (isIRAtom (cas_addr cas) && atom_or_null (expdHi cas) && isIRAtom (expdLo cas)
          && atom_or_null (dataHi cas) && isIRAtom (dataLo cas))
  | Ist_LLSC _ _ addr storedata => Ok (isIRAtom addr && atom_or_null storedata)
  | Ist_Dirty di =>
      Ok (isIRAtom (guard di) && forallb isIRAtom_or_VECRET_or_GSPTR (args di)
          && atom_or_null (mAddr di))
  | Ist_NoOp | Ist_IMark _ _ _ | Ist_MBE _ => Ok true
  | Ist_Exit guard _ _ _ => Ok (isIRAtom guard)
  end.

Definition eqIRConst (c1 c2 : IRConst) : bool :=
  match c1, c2 with
  | Ico_U1 x, Ico_U1 y => Z.land 1 x =? Z.land 1 y
  | Ico_U8 x, Ico_U8 y | Ico_U16 x, Ico_U16 y | Ico_U32 x, Ico_U32 y | Ico_U64 x, Ico_U64 y => x =? y
  | Ico_F32 x, Ico_F32 y => SFeqb x y
  | Ico_F32i x, Ico_F32i y => x =? y
  | Ico_F64 x, Ico_F64 y => SFeqb x y
  | Ico_F64i x, Ico_F64i y | Ico_V128 x, Ico_V128 y | Ico_V256 x, Ico_V256 y => x =? y
  | _, _ => false
  end.

Definition eqIRAtom (a1 a2 : IRExpr) : outcome bool :=
  let* _ := assert_that (isIRAtom a1) in
  let* _ := assert_that (isIRAtom a2) in
  match a1, a2 with
  | Iex_RdTmp t1, Iex_RdTmp t2 => Ok (t1 =? t2)
  | Iex_Const c1, Iex_Const c2 => Ok (eqIRConst c1 c2)
  | _, _ => Ok false
  end.

Definition sizeofIRType (ty : IRType) : outcome Z :=
  match ty with
  | Ity_I8 => Ok 1
  | Ity_I16 => Ok 2
  | Ity_I32 => Ok 4
  | Ity_I64 => Ok 8
  | Ity_I128 => Ok 16
  | Ity_F16 => Ok 2
  | Ity_F32 => Ok 4
  | Ity_F64 => Ok 8
  | Ity_F128 => Ok 16
  | Ity_D32 => Ok 4
  | Ity_D64 => Ok 8
  | Ity_D128 => Ok 16
  | Ity_V128 => Ok 16
  | Ity_V256 => Ok 32
  | Ity_INVALID | Ity_I1 => Err Panic
  end.

(** [tmp] is unsigned, so the first assertion of the code always holds. *)
Definition typeOfIRTemp (env : IRTypeEnv) (tmp : Z) : outcome IRType :=
  let* _ := assert_that (0 <=? tmp) in
  let* _ := assert_that (tmp <? Z.of_nat (length env)) in
  rd env tmp.

Definition typeOfIRConst (con : IRConst) : IRType :=
  match con with
  | Ico_U1 _ => Ity_I1
  | Ico_U8 _ => Ity_I8
  | Ico_U16 _ => Ity_I16
  | Ico_U32 _ => Ity_I32
  | Ico_U64 _ => Ity_I64
  | Ico_F32 _ | Ico_F32i _ => Ity_F32
  | Ico_F64 _ | Ico_F64i _ => Ity_F64
  | Ico_V128 _ => Ity_V128
  | Ico_V256 _ => Ity_V256
  end.

(** The type of the result and that of the argument. *)
Definition typeOfIRLoadGOp (cvt : IRLoadGOp) : outcome (IRType * IRType) :=
  match cvt with
  | ILGop_IdentV128 => Ok (Ity_V128, Ity_V128)
  | ILGop_Ident64 => Ok (Ity_I64, Ity_I64)
  | ILGop_Ident32 => Ok (Ity_I32, Ity_I32)
  | ILGop_16Uto32 | ILGop_16Sto32 => Ok (Ity_I32, Ity_I16)
  | ILGop_8Uto32 | ILGop_8Sto32 => Ok (Ity_I32, Ity_I8)
  | ILGop_INVALID => Err Panic
  end.

Fixpoint typeOfIRExpr (tyenv : IRTypeEnv) (e : IRExpr) : outcome IRType :=
  match e with
  | Iex_Load _ ty _ => Ok ty
  | Iex_Get _ ty => Ok ty
  | Iex_GetI descr _ _ => Ok (elemTy descr)
  | Iex_RdTmp tmp => typeOfIRTemp tyenv tmp
  | Iex_Const con => Ok (typeOfIRConst con)
  | Iex_Qop op _ _ _ _ | Iex_Triop op _ _ _ | Iex_Binop op _ _ | Iex_Unop op _ =>
      let* t := typeOfPrimop op in Ok (t_dst t)
  | Iex_CCall _ retty _ => Ok retty
  | Iex_ITE _ _ iffalse => typeOfIRExpr tyenv iffalse
  | Iex_Binder _ | Iex_VECRET | Iex_GSPTR => Err Panic
  end.

(** The new temporary and the environment with it. *)
Definition newIRTemp (env : IRTypeEnv) (ty : IRType) : Z * IRTypeEnv :=
  (Z.of_nat (length env), env ++ [ty]).

Definition addStmtToIRSB (bb : IRSB) (st : IRStmt) : IRSB := bb <| stmts := stmts bb ++ [st] |>.

(** A register of the host has 64 bits. *)
Definition sizeof_RegWord : Z := 8.

Definition mkIRExpr_HWord (hw : Z) : IRExpr :=
  if sizeof_RegWord =? 4 then Iex_Const (Ico_U32 (u32 hw)) else Iex_Const (Ico_U64 (u64 hw)).

Definition IRTemp_INVALID : Z := 0xFFFFFFFF.

Definition mkIRCallee (regparms : Z) (name : string) (addr : string) : outcome IRCallee :=
  let* _ := assert_that ((0 <=? regparms) && (regparms <=? 3)) in
  Ok (mk_IRCallee regparms name addr 0).

Definition unsafeIRDirty_0_N (regparms : Z) (name : string) (addr : string) (args : list IRExpr)
  : outcome IRDirty :=
  let* cee := mkIRCallee regparms name addr in
  Ok (mk_IRDirty cee (Iex_Const (Ico_U1 1)) args IRTemp_INVALID Ifx_None None 0 []).

Definition deepCopyIRSBExceptStmts (bb : IRSB) : IRSB := bb <| stmts := [] |>.

(** ** Lemmas: checks that still pass, induction, types *)

(** *** A check that still passes *)

(** [m2] returns what [m1] returns, when it does. *)
Definition still {A} (m1 m2 : outcome A) : Prop := forall a, m1 = Ok a -> m2 = Ok a.

#[export] Instance still_preorder {A} : PreOrder (@still A).
Proof. split; [by intros m a|]. intros m1 m2 m3 H1 H2 a Ha. by apply H2, H1. Qed.

Lemma still_bind {A B} (m1 m2 : outcome A) (f1 f2 : A -> outcome B) :
  still m1 m2 -> (forall a, still (f1 a) (f2 a)) -> still (obind m1 f1) (obind m2 f2).
Proof. intros Hm Hf b (a & Ha & Hb)%bind_Ok_inv. rewrite (Hm _ Ha). by apply Hf. Qed.

(** *** Expressions *)

(** Expressions hold lists of expressions. *)
Lemma IRExpr_nested_ind (P : IRExpr -> Prop) :
  (forall b, P (Iex_Binder b)) -> (forall o ty, P (Iex_Get o ty)) ->
  (forall d ix b, P ix -> P (Iex_GetI d ix b)) -> (forall t, P (Iex_RdTmp t)) ->
  (forall op e1 e2 e3 e4, P e1 -> P e2 -> P e3 -> P e4 -> P (Iex_Qop op e1 e2 e3 e4)) ->
  (forall op e1 e2 e3, P e1 -> P e2 -> P e3 -> P (Iex_Triop op e1 e2 e3)) ->
  (forall op e1 e2, P e1 -> P e2 -> P (Iex_Binop op e1 e2)) -> (forall op e, P e -> P (Iex_Unop op e)) ->
  (forall en ty e, P e -> P (Iex_Load en ty e)) -> (forall c, P (Iex_Const c)) ->
  (forall cee ty args, Forall P args -> P (Iex_CCall cee ty args)) ->
  (forall c t f, P c -> P t -> P f -> P (Iex_ITE c t f)) -> P Iex_VECRET -> P Iex_GSPTR ->
  forall e, P e.
Proof.
  intros Hbinder Hget Hgeti Htmp Hq Ht Hb Hu Hload Hconst Hcall Hite Hvec Hgs. fix IH 1.
  intros [| | | | | | | | | |cee ty l| | |];
    [apply Hbinder|apply Hget|apply Hgeti|apply Htmp|apply Hq|apply Ht|apply Hb|apply Hu|apply Hload
    |apply Hconst|apply Hcall|apply Hite|exact Hvec|exact Hgs]; try apply IH. induction l as [|e l IHl]; constructor; [apply IH|exact IHl].
Qed.

(** *** More temporaries *)

Lemma rd_app_still {A} (l1 l2 : list A) i : still (rd l1 i) (rd (l1 ++ l2) i).
Proof.
  intros a [Hi Ha]%rd_inv. apply rd_Some; [lia|]. by apply lookup_app_l_Some.
Qed.

Section Weakening.
Context (env ext : IRTypeEnv).

Lemma typeOfIRTemp_still t : still (typeOfIRTemp env t) (typeOfIRTemp (env ++ ext) t).
Proof.
  intros a. unfold typeOfIRTemp. destruct (0 <=? t); [|done]. cbn.
  destruct (Z.ltb_spec t (Z.of_nat (length env))); [|done].
  destruct (Z.ltb_spec t (Z.of_nat (length (env ++ ext)))); [|rewrite length_app in *; lia].
  apply rd_app_still.
Qed.

Lemma typeOfIRExpr_still e : still (typeOfIRExpr env e) (typeOfIRExpr (env ++ ext) e).
Proof. induction e; cbn; try done. apply typeOfIRTemp_still. Qed.

End Weakening.

(** The temporary that was made last. *)
Lemma new_temp_type env ty : typeOfIRTemp (env ++ [ty]) (Z.of_nat (length env)) = Ok ty.
Proof.
  unfold typeOfIRTemp. rewrite length_app. cbn.
  destruct (Z.leb_spec 0 (Z.of_nat (length env))), (Z.ltb_spec (Z.of_nat (length env)) (Z.of_nat (length env + 1))); try lia.
  cbn. rewrite rd_lookup, lookup_app_r by lia. by rewrite Nat.sub_diag.
Qed.
