(* ===== verification/CgMain.v ===== *)
(** * Tables and event handlers: cachegrind/cg_main.c

    The line counters of the CC table, the table of permanent strings, the
    InstrInfo table, and the [log_...] functions the instrumented program
    calls.  The counters of a line are in the [line_counters] of the simulator
    state, which is given pointers to them; a pointer to a [LineCC] is the
    number of its allocation, as is one to a permanent string or an
    [InstrInfo]. *)

From S2P Require Import Prelude LibcBase Printf BranchPred SetRef CacheSim DoRef OSet.

(** ** Data *)

(** A C string: where it is and what it holds. *)
Record cstr := mk_cstr { str_at : Z; chars : string }.

Record CodeLoc := mk_CodeLoc { file : cstr; fn : cstr; line : Z }.

(** A node of the CC table: its address and its location. *)
Record LineCC := mk_LineCC { lcc : Z; loc : CodeLoc }.

Record InstrInfo := mk_InstrInfo { instr_addr : Z; instr_len : Z; parent : LineCC }.

(** [instrs] is the address of the first of the [n_instrs] instructions, that
    of the others following it one by one. *)
Record SB_info := mk_SB_info { SB_addr : Z; n_instrs : Z; instrs : Z }.

#[export] Instance cstr_eq_dec : EqDecision cstr.
Proof. solve_decision. Defined.
#[export] Instance CodeLoc_eq_dec : EqDecision CodeLoc.
Proof. solve_decision. Defined.
#[export] Instance LineCC_eq_dec : EqDecision LineCC.
Proof. solve_decision. Defined.
#[export] Instance InstrInfo_eq_dec : EqDecision InstrInfo.
Proof. solve_decision. Defined.
#[export] Instance SB_info_eq_dec : EqDecision SB_info.
Proof. solve_decision. Defined.

(** ** The comparison functions of the tables *)

(** [a] and [b] are the locations.  The lines are [Int]s from the debug
    information; their difference is one too when they are not negative. *)
Definition cmp_CodeLoc (a b : CodeLoc) : Z :=
  let res := VG_strcmp (chars (file a)) (chars (file b)) in
  if negb (res =? 0) then res
  else
    let res := VG_strcmp (chars (fn a)) (chars (fn b)) in
    if negb (res =? 0) then res else line a - line b.

#[export] Instance cmp_CodeLoc_LineCC : OSetCmp CodeLoc LineCC :=
  { key := loc; cmp vloc vcc := cmp_CodeLoc vloc (loc vcc) }.

#[export] Instance stringCmp : OSetCmp cstr cstr :=
  { key := id; cmp k e := VG_strcmp (chars k) (chars e) }.

(** No comparison function: the first word of the node. *)
#[export] Instance SB_info_cmp : OSetCmp Z SB_info :=
  { key := SB_addr; cmp k e := fast_cmp k (SB_addr e) }.

(** ** State *)

(** The static variables the options set; they do not change afterwards. *)
Record options := mk_options {
  clo_cache_sim : bool;
  clo_branch_sim : bool;
  clo_c_file : string;
  min_line_size : Z;
  arch : vga
}.

(** [allocated] counts the objects allocated so far; [printed] is what
    [VG_(printf)] has written. *)
Record tool := mk_tool {
  cache_sim : sim;
  branch_sim : bp;
  CC_table : oset LineCC;
  instrInfoTable : oset SB_info;
  stringTable : oset cstr;
  instr_infos : gmap Z InstrInfo;
  allocated : Z;
  printed : list string;
  distinct_instrsGen : Z;
  distinct_instrsNoX : Z;
  full_debugs : Z;
  file_line_debugs : Z;
  fn_debugs : Z;
  no_debugs : Z
}.

#[export] Instance tool_eta : RecordEta tool := fun s =>
  mk_tool (cache_sim s) (branch_sim s) (CC_table s) (instrInfoTable s) (stringTable s)
    (instr_infos s) (allocated s) (printed s) (distinct_instrsGen s) (distinct_instrsNoX s)
    (full_debugs s) (file_line_debugs s) (fn_debugs s) (no_debugs s).

(** Code of the simulator, and operations on one table. *)
Definition in_sim {A} (m : SE sim A) : SE tool A := fun s =>
  let* (a, c) := m (cache_sim s) in Ok (a, s <| cache_sim := c |>).

(** [n] fresh addresses, one after the other; the first one. *)
Definition allocate (n : Z) : SE tool Z :=
  p ← gets allocated; modify (fun s => s <| allocated := allocated s + n |>);; mret p.

(** The tables [cg_post_clo_init] creates; other static data is zeroed. *)
Definition tool_init (c : sim) : tool :=
  mk_tool c bp_init VG_OSetGen_Create VG_OSetGen_Create VG_OSetGen_Create ∅ 1 [] 0 0 0 0 0 0.

Section Tool.

(** What the debug information of the client says of an address: file,
    directory and line, and the function. *)
Context (filename_linenum : Z -> option (string * string * Z)) (fnname : Z -> option string).

(** ** String table *)

Definition get_perm_string (s : cstr) : SE tool cstr :=
  t ← gets stringTable;
  match VG_OSetGen_Lookup t s with
  | Some s_ptr => mret s_ptr
  | None =>
      p ← allocate 1;
      let s_node := mk_cstr p (chars s) in
      t ← lift (VG_OSetGen_Insert t s_node);
      modify (fun st => st <| stringTable := t |>);;
      mret s_node
  end.

(** ** CC table *)

(** File, directory, function and line.  A counter of lookups is an [Int]. *)
Definition get_debug_info (instr_addr : Z) : SE tool (string * string * string * Z) :=
  let found_file_line := filename_linenum instr_addr in
  let found_fn := fnname instr_addr in
  let '(file, dir, line) :=
    match found_file_line with Some fdl => fdl | None => ("???", EmptyString, 0) end%string in
  let fn := match found_fn with Some fn => fn | None => "???" end%string in
  s ← gets id;
  match found_file_line, found_fn with
  | Some _, Some _ => n ← lift (int_add (full_debugs s) 1); modify (fun s => s <| full_debugs := n |>)
  | Some _, None =>
      n ← lift (int_add (file_line_debugs s) 1); modify (fun s => s <| file_line_debugs := n |>)
  | None, Some _ => n ← lift (int_add (fn_debugs s) 1); modify (fun s => s <| fn_debugs := n |>)
  | None, None => n ← lift (int_add (no_debugs s) 1); modify (fun s => s <| no_debugs := n |>)
  end;;
  mret (file, dir, fn, line).

(** The counters of a new node. *)
Definition zero_counters (p : Z) (m : gmap counter_ptr Z) : gmap counter_ptr Z :=
  foldr (fun f m => <[(p, f) := 0]> m) m counter_fields.

(** The absolute file name is on the stack. *)
Definition absfile (dir file : string) : string :=
  if hd0 dir =? 0 then file else (dir +:+ "/" +:+ file)%string.

Definition get_lineCC (origAddr : Z) : SE tool LineCC :=
  info ← get_debug_info origAddr;
  let '(file, dir, fn, line) := info in
  let loc := mk_CodeLoc (mk_cstr 0 (absfile dir file)) (mk_cstr 0 fn) (s32 line) in
  t ← gets CC_table;
  match VG_OSetGen_Lookup t loc with
  | Some lineCC => mret lineCC
  | None =>
      p ← allocate 1;
      loc_file ← get_perm_string (CgMain.file loc);
      loc_fn ← get_perm_string (CgMain.fn loc);
      let lineCC := mk_LineCC p (mk_CodeLoc loc_file loc_fn (CgMain.line loc)) in
      in_sim (modify (fun c => c <| line_counters := zero_counters p (line_counters c) |>));;
      t ← lift (VG_OSetGen_Insert t lineCC);
      modify (fun st => st <| CC_table := t |>);;
      mret lineCC
  end.

End Tool.

(** ** Event handlers *)

Section Handlers.
Context (conf : options).

(** [*n]. *)
Definition deref (n : Z) : SE tool InstrInfo :=
  m ← gets instr_infos;
  match m !! n with Some i => mret i | None => lift (Err Undefined) end.

(** [n->parent->f++] and the pointers handed to the simulator. *)
Definition counter (i : InstrInfo) (f : counter_field) : counter_ptr := (lcc (parent i), f).
Definition incr_counter (n : Z) (f : counter_field) : SE tool unit :=
  i ← deref n; in_sim (add_to_counter (counter i f) 1).

Definition log_1Ir (n : Z) : SE tool unit := incr_counter n Ir_a.
Definition log_2Ir (n n2 : Z) : SE tool unit := incr_counter n Ir_a;; incr_counter n2 Ir_a.
Definition log_3Ir (n n2 n3 : Z) : SE tool unit :=
  incr_counter n Ir_a;; incr_counter n2 Ir_a;; incr_counter n3 Ir_a.

(** [cachesim_I1_doref_Gen(n->instr_addr, ...)] and its counterpart. *)
Definition I1_doref_Gen (n : Z) : SE tool unit :=
  i ← deref n;
  in_sim (cachesim_I1_doref_Gen (instr_addr i) (instr_len i) (counter i Ir_m1) (counter i Ir_mL)).
Definition I1_doref_NoX (n : Z) : SE tool unit :=
  i ← deref n;
  in_sim (cachesim_I1_doref_NoX (instr_addr i) (instr_len i) (counter i Ir_m1) (counter i Ir_mL)).

Definition log_1IrGen_0D_cache_access (n : Z) : SE tool unit :=
  I1_doref_Gen n;; incr_counter n Ir_a.
Definition log_1IrNoX_0D_cache_access (n : Z) : SE tool unit :=
  I1_doref_NoX n;; incr_counter n Ir_a.
Definition log_2IrNoX_0D_cache_access (n n2 : Z) : SE tool unit :=
  I1_doref_NoX n;; incr_counter n Ir_a;; I1_doref_NoX n2;; incr_counter n2 Ir_a.
Definition log_3IrNoX_0D_cache_access (n n2 n3 : Z) : SE tool unit :=
  I1_doref_NoX n;; incr_counter n Ir_a;; I1_doref_NoX n2;; incr_counter n2 Ir_a;;
  I1_doref_NoX n3;; incr_counter n3 Ir_a.

(** Print the line of an access in the file of interest. *)
Definition print_access (prefix : string) (n : Z) : SE tool unit :=
  i ← deref n;
  let l := loc (parent i) in
  match VG_strstr (chars (file l)) (clo_c_file conf) with
  | Some _ =>
      num ← lift (fmt_llu (u32 (line l)));
      modify (fun s => s <| printed := printed s ++ [(prefix +:+ num)%string] |>)
  | None => mret tt
  end.

(** [cachesim_D1_doref(data_addr, ...)] for the counters [m1] and [mL]. *)
Definition D1_doref (n data_addr data_size : Z) (m1 mL : counter_field) : SE tool unit :=
  i ← deref n; in_sim (cachesim_D1_doref data_addr data_size (counter i m1) (counter i mL)).

Definition log_1IrNoX_1Dr_cache_access (n data_addr data_size : Z) : SE tool unit :=
  I1_doref_NoX n;; incr_counter n Ir_a;;
  print_access "L " n;; D1_doref n data_addr data_size Dr_m1 Dr_mL;; incr_counter n Dr_a.
Definition log_1IrNoX_1Dw_cache_access (n data_addr data_size : Z) : SE tool unit :=
  I1_doref_NoX n;; incr_counter n Ir_a;;
  print_access "Lw " n;; D1_doref n data_addr data_size Dw_m1 Dw_mL;; incr_counter n Dw_a.
Definition log_0Ir_1Dr_cache_access (n data_addr data_size : Z) : SE tool unit :=
  print_access "L " n;; D1_doref n data_addr data_size Dr_m1 Dr_mL;; incr_counter n Dr_a.
Definition log_0Ir_1Dw_cache_access (n data_addr data_size : Z) : SE tool unit :=
  print_access "Lw " n;; D1_doref n data_addr data_size Dw_m1 Dw_mL;; incr_counter n Dw_a.

(** A predictor of the branch simulator. *)
Definition in_bp (m : bp -> outcome (Z * bp)) : SE tool Z := fun s =>
  let* (r, b) := m (branch_sim s) in Ok (r, s <| branch_sim := b |>).

Definition log_cond_branch (n taken : Z) : SE tool unit :=
  incr_counter n Bc_b;;
  i ← deref n;
  m ← in_bp (fun b => do_cond_branch_predict (arch conf) b (instr_addr i) taken);
  in_sim (add_to_counter (counter i Bc_mp) (Z.land 1 m)).

Definition log_ind_branch (n actual_dst : Z) : SE tool unit :=
  incr_counter n Bi_b;;
  i ← deref n;
  m ← in_bp (fun b => do_ind_branch_predict (arch conf) b (instr_addr i) actual_dst);
  in_sim (add_to_counter (counter i Bi_mp) (Z.land 1 m)).

End Handlers.
