(* ===== verification/Instrument.v ===== *)
(** * Instrumentation: cachegrind/cg_main.c

    The queue of outstanding events, the merging of neighbours into one helper
    call, the traversal of a superblock by [cg_instrument], and the InstrInfo
    table it fills and [cg_discard_superblock_info] empties.  The host has
    64-bit words. *)

From S2P Require Import Prelude LibcBase BranchPred SetRef CacheSim DoRef OSet Primop IR CgMain.

(** ** Data *)

(** An [EventTag] with the fields of its member of the union. *)
Inductive EventTag :=
| Ev_IrNoX
| Ev_IrGen
| Ev_Dr (ea : IRExpr) (szB : Z)
| Ev_Dw (ea : IRExpr) (szB : Z)
| Ev_Dm (ea : IRExpr) (szB : Z)
| Ev_Bc (taken : IRExpr)
| Ev_Bi (dst : IRExpr).

Record Event := mk_Event { tag : EventTag; inode : Z }.

Definition N_EVENTS : Z := 16.

(** [events] holds the first [events_used] events. *)
Record CgState := mk_CgState {
  events : list Event;
  sbInfo : SB_info;
  sbInfo_i : Z;
  sbOut : IRSB
}.

#[export] Instance CgState_eta : RecordEta CgState := fun c =>
  mk_CgState (events c) (sbInfo c) (sbInfo_i c) (sbOut c).

Definition events_used (cgs : CgState) : Z := Z.of_nat (length (events cgs)).

Definition get_Event_dea (ev : Event) : outcome IRExpr :=
  match tag ev with
  | Ev_Dr ea _ | Ev_Dw ea _ | Ev_Dm ea _ => Ok ea
  | _ => Err AssertFail
  end.

Definition get_Event_dszB (ev : Event) : outcome Z :=
  match tag ev with
  | Ev_Dr _ szB | Ev_Dw _ szB | Ev_Dm _ szB => Ok szB
  | _ => Err AssertFail
  end.

(** Lengths of instructions of the host, per architecture. *)
Definition VG_MIN_INSTR_SZB (a : vga) : Z :=
  match a with
  | VGA_x86 | VGA_amd64 => 1
  | VGA_arm | VGA_s390x | VGA_nanomips => 2
  | VGA_ppc32 | VGA_ppc64be | VGA_ppc64le | VGA_arm64 | VGA_mips32 | VGA_mips64 => 4
  end.
Definition VG_MAX_INSTR_SZB (a : vga) : Z :=
  match a with
  | VGA_x86 | VGA_amd64 => 16
  | VGA_ppc32 | VGA_ppc64be | VGA_ppc64le | VGA_arm | VGA_arm64 => 4
  | VGA_s390x | VGA_nanomips => 6
  | VGA_mips32 | VGA_mips64 => 8
  end.
Definition VG_CLREQ_SZB (a : vga) : Z :=
  match a with
  | VGA_x86 => 14
  | VGA_amd64 => 19
  | VGA_s390x => 10
  | _ => 20
  end.

Definition NULL : Z := 0.

(** ** The event queue *)

Section Instrumentation.
Context (conf : options).

(** The helper to call for the first event and possibly the next ones: the
    number of its register parameters, its name, its arguments, and the events
    that are left. *)
Definition flush_call (ev : Event) (rest : list Event)
  : outcome (Z * string * list IRExpr * list Event) :=
  let i_node_expr := mkIRExpr_HWord (inode ev) in
  let data_call helper ev2 rest :=
    let* ea := get_Event_dea ev2 in
    let* szB := get_Event_dszB ev2 in
    Ok (3, helper, [i_node_expr; ea; mkIRExpr_HWord szB], rest) in
  match tag ev with
  | Ev_IrNoX =>
      match rest with
      | ({| tag := Ev_Dr _ _ |} | {| tag := Ev_Dm _ _ |}) as ev2 :: rest2 =>
          let* _ := assert_that (inode ev2 =? inode ev) in
          data_call "log_1IrNoX_1Dr_cache_access"%string ev2 rest2
      | {| tag := Ev_Dw _ _ |} as ev2 :: rest2 =>
          let* _ := assert_that (inode ev2 =? inode ev) in
          data_call "log_1IrNoX_1Dw_cache_access"%string ev2 rest2
      | {| tag := Ev_IrNoX |} as ev2 :: {| tag := Ev_IrNoX |} as ev3 :: rest3 =>
          let helper := if clo_cache_sim conf then "log_3IrNoX_0D_cache_access"%string
                        else "log_3Ir"%string in
          Ok (3, helper, [i_node_expr; mkIRExpr_HWord (inode ev2); mkIRExpr_HWord (inode ev3)], rest3)
      | {| tag := Ev_IrNoX |} as ev2 :: rest2 =>
          let helper := if clo_cache_sim conf then "log_2IrNoX_0D_cache_access"%string
                        else "log_2Ir"%string in
          Ok (2, helper, [i_node_expr; mkIRExpr_HWord (inode ev2)], rest2)
      | _ =>
          let helper := if clo_cache_sim conf then "log_1IrNoX_0D_cache_access"%string
                        else "log_1Ir"%string in
          Ok (1, helper, [i_node_expr], rest)
      end
  | Ev_IrGen =>
      let helper := if clo_cache_sim conf then "log_1IrGen_0D_cache_access"%string
                    else "log_1Ir"%string in
      Ok (1, helper, [i_node_expr], rest)
  | Ev_Dr _ _ | Ev_Dm _ _ => data_call "log_0Ir_1Dr_cache_access"%string ev rest
  | Ev_Dw _ _ => data_call "log_0Ir_1Dw_cache_access"%string ev rest
  | Ev_Bc taken => Ok (2, "log_cond_branch"%string, [i_node_expr; taken], rest)
  | Ev_Bi dst => Ok (2, "log_ind_branch"%string, [i_node_expr; dst], rest)
  end.

(** One round per helper call; every round takes at least one event. *)
Fixpoint flush_loop (fuel : nat) (evs : list Event) (out : IRSB) : outcome IRSB :=
  match evs with
  | [] => Ok out
  | ev :: rest =>
      match fuel with
      | O => Err OutOfFuel
      | S fuel =>
          let* (regparms, helper, argv, rest) := flush_call ev rest in
          let* di := unsafeIRDirty_0_N regparms helper helper argv in
          flush_loop fuel rest (addStmtToIRSB out (Ist_Dirty di))
      end
  end.

Definition flushEvents (cgs : CgState) : outcome CgState :=
  let* out := flush_loop (length (events cgs)) (events cgs) (sbOut cgs) in
  Ok (cgs <| sbOut := out |> <| events := [] |>).

(** Make room when the queue is full. *)
Definition make_room (cgs : CgState) : outcome CgState :=
  let* cgs := if events_used cgs =? N_EVENTS then flushEvents cgs else Ok cgs in
  let* _ := assert_that ((0 <=? events_used cgs) && (events_used cgs <? N_EVENTS)) in
  Ok cgs.

Definition push_event (cgs : CgState) (ev : Event) : CgState :=
  cgs <| events := events cgs ++ [ev] |>.

Definition append_event (cgs : CgState) (ev : Event) : outcome CgState :=
  let* cgs := make_room cgs in Ok (push_event cgs ev).

Definition addEvent_Ir (cgs : CgState) (inode : Z) : SE tool CgState :=
  cgs ← lift (make_room cgs);
  i ← deref inode;
  noX ← in_sim (cachesim_is_IrNoX (instr_addr i) (instr_len i));
  s ← gets id;
  if (noX : bool) then
    n ← lift (int_add (distinct_instrsNoX s) 1);
    modify (fun s => s <| distinct_instrsNoX := n |>);;
    mret (push_event cgs (mk_Event Ev_IrNoX inode))
  else
    n ← lift (int_add (distinct_instrsGen s) 1);
    modify (fun s => s <| distinct_instrsGen := n |>);;
    mret (push_event cgs (mk_Event Ev_IrGen inode)).

Definition size_ok (datasize : Z) : bool := (1 <=? datasize) && (datasize <=? min_line_size conf).

Definition addEvent_Dr (cgs : CgState) (inode datasize : Z) (ea : IRExpr) : outcome CgState :=
  let* _ := assert_that (isIRAtom ea) in
  let* _ := assert_that (size_ok datasize) in
  if negb (clo_cache_sim conf) then Ok cgs
  else append_event cgs (mk_Event (Ev_Dr ea datasize) inode).

(** Is the event a read by [n] at the same address and of the same size? *)
Definition same_read (n datasize : Z) (ea : IRExpr) (ev : Event) : outcome bool :=
  match tag ev with
  | Ev_Dr ea' szB =>
      if (szB =? datasize) && (inode ev =? n) then eqIRAtom ea' ea else Ok false
  | _ => Ok false
  end.

(** A write merges with the read before it into a modify. *)
Definition addEvent_Dw (cgs : CgState) (inode datasize : Z) (ea : IRExpr) : outcome CgState :=
  let* _ := assert_that (isIRAtom ea) in
  let* _ := assert_that (size_ok datasize) in
  if negb (clo_cache_sim conf) then Ok cgs
  else
    let lastEvt := last (events cgs) in
    let* merge := match lastEvt with Some ev => same_read inode datasize ea ev | None => Ok false end in
    match lastEvt, merge with
    | Some (mk_Event (Ev_Dr ea' szB) n), true =>
        Ok (cgs <| events := removelast (events cgs) ++ [mk_Event (Ev_Dm ea' szB) n] |>)
    | _, _ => append_event cgs (mk_Event (Ev_Dw ea datasize) inode)
    end.

Definition addEvent_D_guarded (cgs : CgState) (inode datasize : Z) (ea guard : IRExpr) (isWrite : bool)
  : outcome CgState :=
  let* _ := assert_that (isIRAtom ea) in
  let* _ := assert_that (isIRAtom guard) in
  let* _ := assert_that (size_ok datasize) in
  if negb (clo_cache_sim conf) then Ok cgs
  else
    let* cgs := flushEvents cgs in
    let* _ := assert_that (events_used cgs =? 0) in
    let i_node_expr := mkIRExpr_HWord inode in
    let helper := if isWrite then "log_0Ir_1Dw_cache_access"%string
                  else "log_0Ir_1Dr_cache_access"%string in
    let argv := [i_node_expr; ea; mkIRExpr_HWord datasize] in
    let* di := unsafeIRDirty_0_N 3 helper helper argv in
    let di := mk_IRDirty (cee di) guard (args di) (tmp di) (mFx di) (mAddr di) (mSize di) (fxState di) in
    Ok (cgs <| sbOut := addStmtToIRSB (sbOut cgs) (Ist_Dirty di) |>).

(** The type of a host word. *)
Definition word_type : IRType := if sizeof_RegWord =? 4 then Ity_I32 else Ity_I64.

Definition addEvent_Bc (cgs : CgState) (inode : Z) (guard : IRExpr) : outcome CgState :=
  let* _ := assert_that (isIRAtom guard) in
  let* ty := typeOfIRExpr (tyenv (sbOut cgs)) guard in
  let* _ := assert_that (bool_decide (ty = word_type)) in
  if negb (clo_branch_sim conf) then Ok cgs
  else append_event cgs (mk_Event (Ev_Bc guard) inode).

Definition addEvent_Bi (cgs : CgState) (inode : Z) (whereTo : IRExpr) : outcome CgState :=
  let* _ := assert_that (isIRAtom whereTo) in
  let* ty := typeOfIRExpr (tyenv (sbOut cgs)) whereTo in
  let* _ := assert_that (bool_decide (ty = word_type)) in
  if negb (clo_branch_sim conf) then Ok cgs
  else append_event cgs (mk_Event (Ev_Bi whereTo) inode).

(** ** Superblocks *)

Definition is_IMark (st : IRStmt) : bool := match st with Ist_IMark _ _ _ => true | _ => false end.

Definition get_SB_info (sbIn : IRSB) (origAddr : Z) : SE tool SB_info :=
  let n_instrs := Z.of_nat (length (List.filter is_IMark (stmts sbIn))) in
  t ← gets instrInfoTable;
  lift (assert_that (bool_decide (VG_OSetGen_Lookup t origAddr = None)));;
  p ← allocate n_instrs;
  let sbInfo := mk_SB_info origAddr n_instrs p in
  t ← lift (VG_OSetGen_Insert t sbInfo);
  modify (fun s => s <| instrInfoTable := t |>);;
  mret sbInfo.

Section DebugInfo.
Context (filename_linenum : Z -> option (string * string * Z)) (fnname : Z -> option string).

(** The address of the new [InstrInfo]; its length is an [UChar]. *)
Definition setup_InstrInfo (cgs : CgState) (instr_addr instr_len : Z) : SE tool (Z * CgState) :=
  lift (assert_that (0 <=? sbInfo_i cgs));;
  lift (assert_that (sbInfo_i cgs <? n_instrs (sbInfo cgs)));;
  let i_node := instrs (sbInfo cgs) + sbInfo_i cgs in
  parent ← get_lineCC filename_linenum fnname instr_addr;
  modify (fun s =>
    s <| instr_infos := <[i_node := mk_InstrInfo instr_addr (u8 instr_len) parent]> (instr_infos s) |>);;
  mret (i_node, cgs <| sbInfo_i := sbInfo_i cgs + 1 |>).

(** ** The traversal *)

(** The local variables of the loop. *)
Record walk := mk_walk { cia : Z; isize : Z; curr_inode : Z; cgs : CgState }.

Definition with_cgs (w : walk) (c : CgState) : walk := mk_walk (cia w) (isize w) (curr_inode w) c.

(** If Vex fails to decode an instruction, the size is zero. *)
Definition mark_size (len : Z) : Z := if len =? 0 then VG_MIN_INSTR_SZB (arch conf) else len.

(** Large accesses are cut to a line. *)
Definition clip_size (dataSize : Z) : Z :=
  if min_line_size conf <? dataSize then min_line_size conf else dataSize.

Definition instrument_Dirty (w : walk) (d : IRDirty) : outcome walk :=
  if negb (bool_decide (mFx d = Ifx_None)) then
    match mAddr d with
    | None => Err AssertFail
    | Some mAddr =>
        let* _ := assert_that (negb (mSize d =? 0)) in
        let dataSize := clip_size (mSize d) in
        let* c := if bool_decide (mFx d = Ifx_Read) || bool_decide (mFx d = Ifx_Modify)
                  then addEvent_Dr (cgs w) (curr_inode w) dataSize mAddr else Ok (cgs w) in
        let* c := if bool_decide (mFx d = Ifx_Write) || bool_decide (mFx d = Ifx_Modify)
                  then addEvent_Dw c (curr_inode w) dataSize mAddr else Ok c in
        Ok (with_cgs w c)
    end
  else
    let* _ := assert_that (match mAddr d with None => true | Some _ => false end) in
    let* _ := assert_that (mSize d =? 0) in
    Ok w.

Definition instrument_CAS (tyenv : IRTypeEnv) (w : walk) (cas : IRCAS) : outcome walk :=
  let* ty := typeOfIRExpr tyenv (dataLo cas) in
  let* dataSize := sizeofIRType ty in
  let dataSize := match dataHi cas with Some _ => dataSize * 2 | None => dataSize end in
  let dataSize := clip_size dataSize in
  let* c := addEvent_Dr (cgs w) (curr_inode w) dataSize (cas_addr cas) in
  let* c := addEvent_Dw c (curr_inode w) dataSize (cas_addr cas) in
  Ok (with_cgs w c).

(** The side exit address. *)
Definition exit_target (tyW : IRType) (dst : IRConst) : outcome Z :=
  if bool_decide (tyW = Ity_I32) then
    match dst with Ico_U32 a => Ok a | _ => Err AssertFail end
  else
    let* _ := assert_that (bool_decide (tyW = Ity_I64)) in
    match dst with Ico_U64 a => Ok a | _ => Err AssertFail end.

(** The guard, widened to a host word and inverted if the exit is, and the
    event of the branch. *)
Definition instrument_branch (hWordTy : IRType) (w : walk) (guard : IRExpr) (dst : IRConst)
  : outcome CgState :=
  let tyW := hWordTy in
  let is32 := bool_decide (tyW = Ity_I32) in
  let widen := if is32 then Iop_1Uto32 else Iop_1Uto64 in
  let opXOR := if is32 then Iop_Xor32 else Iop_Xor64 in
  let c := cgs w in
  let (guard1, env) := newIRTemp (tyenv (sbOut c)) Ity_I1 in
  let (guardW, env) := newIRTemp env tyW in
  let (guardT, env) := newIRTemp env tyW in
  let one := if is32 then Iex_Const (Ico_U32 1) else Iex_Const (Ico_U64 1) in
  let nia := u64 (cia w + isize w) in
  let* sea := exit_target tyW dst in
  let inverted := nia =? sea in
  let out := (sbOut c) <| tyenv := env |> in
  let out := addStmtToIRSB out (Ist_WrTmp guard1 guard) in
  let out := addStmtToIRSB out (Ist_WrTmp guardW (Iex_Unop widen (Iex_RdTmp guard1))) in
  let out := addStmtToIRSB out (Ist_WrTmp guardT
               (if inverted then Iex_Binop opXOR (Iex_RdTmp guardW) one else Iex_RdTmp guardW)) in
  addEvent_Bc (c <| sbOut := out |>) (curr_inode w) (Iex_RdTmp guardT).

(** One statement, before it is copied. *)
Definition instrument_stmt (tyenv : IRTypeEnv) (hWordTy : IRType) (w : walk) (st : IRStmt)
  : SE tool walk :=
  match st with
  | Ist_NoOp | Ist_AbiHint _ _ _ | Ist_Put _ _ | Ist_PutI _ _ _ _ | Ist_MBE _ => mret w
  | Ist_IMark addr len _ =>
      let isize := mark_size len in
      let a := arch conf in
      lift (assert_that (((VG_MIN_INSTR_SZB a <=? isize) && (isize <=? VG_MAX_INSTR_SZB a))
                         || (VG_CLREQ_SZB a =? isize)));;
      r ← setup_InstrInfo (cgs w) addr isize;
      let '(inode, c) := r in
      c ← addEvent_Ir c inode;
      mret (mk_walk addr isize inode c)
  | Ist_WrTmp _ data =>
      match data with
      | Iex_Load _ ty aexpr =>
          lift (let* szB := sizeofIRType ty in
                let* c := addEvent_Dr (cgs w) (curr_inode w) szB aexpr in Ok (with_cgs w c))
      | _ => mret w
      end
  | Ist_Store _ aexpr data =>
      lift (let* ty := typeOfIRExpr tyenv data in
            let* szB := sizeofIRType ty in
            let* c := addEvent_Dw (cgs w) (curr_inode w) szB aexpr in Ok (with_cgs w c))
  | Ist_StoreG _ addr data guard =>
      lift (let* type := typeOfIRExpr tyenv data in
            let* _ := assert_that (negb (bool_decide (type = Ity_INVALID))) in
            let* szB := sizeofIRType type in
            let* c := addEvent_D_guarded (cgs w) (curr_inode w) szB addr guard true in
            Ok (with_cgs w c))
  | Ist_LoadG _ cvt _ addr _ guard =>
      lift (let* (_, type) := typeOfIRLoadGOp cvt in
            let* _ := assert_that (negb (bool_decide (type = Ity_INVALID))) in
            let* szB := sizeofIRType type in
            let* c := addEvent_D_guarded (cgs w) (curr_inode w) szB addr guard false in
            Ok (with_cgs w c))
  | Ist_Dirty d => lift (instrument_Dirty w d)
  | Ist_CAS cas => lift (instrument_CAS tyenv w cas)
  | Ist_LLSC _ result addr None =>
      lift (let* dataTy := typeOfIRTemp tyenv result in
            let* szB := sizeofIRType dataTy in
            let* c := addEvent_Dr (cgs w) (curr_inode w) szB addr in
            let* c := flushEvents c in Ok (with_cgs w c))
  | Ist_LLSC _ _ addr (Some storedata) =>
      lift (let* dataTy := typeOfIRExpr tyenv storedata in
            let* szB := sizeofIRType dataTy in
            let* c := addEvent_Dw (cgs w) (curr_inode w) szB addr in Ok (with_cgs w c))
  | Ist_Exit guard jk dst _ =>
      lift (let* c := if bool_decide (jk = Ijk_Boring) || bool_decide (jk = Ijk_Call)
                         || bool_decide (jk = Ijk_Ret)
                      then instrument_branch hWordTy w guard dst else Ok (cgs w) in
            let* c := flushEvents c in Ok (with_cgs w c))
  end.

Fixpoint instrument_stmts (tyenv : IRTypeEnv) (hWordTy : IRType) (w : walk) (sts : list IRStmt)
  : SE tool walk :=
  match sts with
  | [] => mret w
  | st :: sts =>
      flat ← lift (isFlatIRStmt st);
      lift (assert_that flat);;
      w ← instrument_stmt tyenv hWordTy w st;
      let c := cgs w in
      instrument_stmts tyenv hWordTy
        (with_cgs w (c <| sbOut := addStmtToIRSB (sbOut c) st |>)) sts
  end.

(** The IR preamble and the rest, from the first [IMark] on. *)
Fixpoint split_preamble (sts : list IRStmt) : list IRStmt * list IRStmt :=
  match sts with
  | [] => ([], [])
  | st :: sts' => if is_IMark st then ([], sts)
                  else let (pre, rest) := split_preamble sts' in (st :: pre, rest)
  end.

(** [readdr] is [closure->readdr] and [base0] is [vge->base[0]]. *)
Definition cg_instrument (readdr base0 : Z) (sbIn : IRSB) (gWordTy hWordTy : IRType) : SE tool IRSB :=
  if negb (bool_decide (gWordTy = hWordTy)) then lift (Err Panic)
  else
    let (preamble, rest) := split_preamble (stmts sbIn) in
    let out := foldl addStmtToIRSB (deepCopyIRSBExceptStmts sbIn) preamble in
    lift (assert_that (0 <? Z.of_nat (length (stmts sbIn))));;
    match rest with
    | Ist_IMark addr len _ :: _ =>
        lift (assert_that (readdr =? base0));;
        sbInfo ← get_SB_info sbIn readdr;
        let w := mk_walk addr (mark_size len) NULL (mk_CgState [] sbInfo 0 out) in
        w ← instrument_stmts (tyenv sbIn) hWordTy w rest;
        c ← (if bool_decide (jumpkind sbIn = Ijk_Boring) || bool_decide (jumpkind sbIn = Ijk_Call)
             then match IR.next sbIn with
                  | Iex_Const _ => mret (cgs w)
                  | Iex_RdTmp _ => lift (addEvent_Bi (cgs w) (curr_inode w) (IR.next sbIn))
                  | _ => lift (Err AssertFail)
                  end
             else mret (cgs w));
        c ← lift (flushEvents c);
        lift (assert_that (sbInfo_i c =? n_instrs (Instrument.sbInfo c)));;
        mret (sbOut c)
    | _ => lift (Err AssertFail)
    end.

End DebugInfo.

(** ** Discarding *)

(** The [InstrInfo]s of a node go with it. *)
Definition free_instrs (sb : SB_info) (m : gmap Z InstrInfo) : gmap Z InstrInfo :=
  foldr (fun k m => delete (instrs sb + k) m) m (seqZ 0 (n_instrs sb)).

(** [n_used] and [base0] are fields of the extents. *)
Definition cg_discard_superblock_info (n_used base0 : Z) : SE tool unit :=
  lift (assert_that (0 <? n_used));;
  t ← gets instrInfoTable;
  r ← lift (VG_OSetGen_Remove t base0);
  let '(sbInfo, t) := r in
  modify (fun s => s <| instrInfoTable := t |>);;
  match sbInfo with
  | None => lift (Err AssertFail)
  | Some sb => modify (fun s => s <| instr_infos := free_instrs sb (instr_infos s) |>)
  end.

End Instrumentation.
