(* ===== verification/LineTable.v ===== *)
(** * The tables of cg_main.c

    The orders of the three tables, the invariant that ties them together, and
    what [get_perm_string] and [get_lineCC] do to them. *)

From S2P Require Import Prelude LibcBase BranchPred SetRef CacheSim SimTheory OSet OSetTheory CgMain.

(** ** The orders *)

#[export] Instance stringCmp_order : KeyOrder cstr cstr.
Proof.
  refine {| kcmp := fun x y => VG_strcmp (chars x) (chars y) |}; [done|..].
  - intros x y. rewrite (VG_strcmp_antisym (chars x)), Z.sgn_opp. done.
  - intros x y z. pose proof (strcmp_facts (chars x) (chars y) (chars z)). lia.
  - intros x y z. apply strcmp_eq_lt.
Defined.

Lemma cmp_CodeLoc_antisym a b : Z.sgn (cmp_CodeLoc b a) = - Z.sgn (cmp_CodeLoc a b).
Proof.
  unfold cmp_CodeLoc. rewrite (VG_strcmp_antisym (chars (file a))), (VG_strcmp_antisym (chars (fn a))).
  repeat match goal with |- context [negb (?x =? 0)] => destruct (Z.eqb_spec x 0); cbn [negb] end; lia.
Qed.

Lemma cmp_CodeLoc_trans_facts a b c :
  (cmp_CodeLoc a b < 0 -> cmp_CodeLoc b c < 0 -> cmp_CodeLoc a c < 0)
  /\ (cmp_CodeLoc a b = 0 -> cmp_CodeLoc b c < 0 -> cmp_CodeLoc a c < 0).
Proof.
  pose proof (strcmp_facts (chars (file a)) (chars (file b)) (chars (file c))) as Hfile.
  pose proof (strcmp_facts (chars (fn a)) (chars (fn b)) (chars (fn c))) as Hfn.
  unfold cmp_CodeLoc. repeat match goal with |- context [negb (?x =? 0)] =>
    destruct (Z.eqb_spec x 0); cbn [negb] end; lia.
Qed.

#[export] Instance CodeLoc_order : KeyOrder CodeLoc LineCC.
Proof.
  refine {| kcmp := cmp_CodeLoc |}; [done|..].
  - intros. apply cmp_CodeLoc_antisym.
  - intros x y z. apply cmp_CodeLoc_trans_facts.
  - intros x y z. apply cmp_CodeLoc_trans_facts.
Defined.

#[export] Instance SB_info_order : KeyOrder Z SB_info.
Proof.
  refine {| kcmp := fast_cmp |}; [done|..].
  - exact (@kcmp_antisym Z Z word_cmp word_order).
  - exact (@kcmp_trans Z Z word_cmp word_order).
  - exact (@kcmp_eq_lt Z Z word_cmp word_order).
Defined.

(** ** The invariant *)

(** A table of nodes that are at different addresses below [n]. *)
Definition addressed {E} (at_ : E -> Z) (n : Z) (t : oset E) : Prop :=
  (forall x, x ∈ elements (root t) -> 0 < at_ x < n) /\
  forall x y, x ∈ elements (root t) -> y ∈ elements (root t) -> at_ x = at_ y -> x = y.

Record wf_tables (s : tool) : Prop := {
  wf_CC : wf_oset (CC_table s);
  wf_strings : wf_oset (stringTable s);
  wf_infos : wf_oset (instrInfoTable s);
  wf_CC_at : addressed lcc (allocated s) (CC_table s);
  wf_str_at : addressed str_at (allocated s) (stringTable s);
  wf_perm : forall c, c ∈ elements (root (CC_table s)) ->
    file (loc c) ∈ elements (root (stringTable s)) /\ fn (loc c) ∈ elements (root (stringTable s));
  wf_line_counters : forall c f, c ∈ elements (root (CC_table s)) ->
    (lcc c, f) ∈ dom (line_counters (cache_sim s));
  wf_allocated : 0 < allocated s
}.

(** What the tables leave alone: the caches and predictors, the blocks, the
    instructions and the output. *)
Record frame (s s' : tool) : Prop := {
  fr_sim : exists m, cache_sim s' = (cache_sim s) <| line_counters := m |>;
  fr_branch : branch_sim s' = branch_sim s;
  fr_infos : instrInfoTable s' = instrInfoTable s;
  fr_instrs : instr_infos s' = instr_infos s;
  fr_printed : printed s' = printed s;
  fr_Gen : distinct_instrsGen s' = distinct_instrsGen s;
  fr_NoX : distinct_instrsNoX s' = distinct_instrsNoX s;
  fr_allocated : allocated s <= allocated s' <= allocated s + 3
}.

Lemma tool_init_wf c : wf_tables (tool_init c).
Proof.
  split; cbn; try apply create_wf; try done.
  - split; [intros x Hx | intros x y Hx]; by apply not_elem_of_nil in Hx.
  - split; [intros x Hx | intros x y Hx]; by apply not_elem_of_nil in Hx.
  - by intros x Hx%not_elem_of_nil.
  - by intros x f Hx%not_elem_of_nil.
Qed.

(** ** Permanent strings *)

Lemma addressed_mono {E} (at_ : E -> Z) n n' t : addressed at_ n t -> n <= n' -> addressed at_ n' t.
Proof. intros [H1 H2] Hn. split; [|done]. intros x Hx. specialize (H1 x Hx). lia. Qed.

Lemma addressed_insert {K E} `{KeyOrder K E} (at_ : E -> Z) n t t' e :
  addressed at_ n t -> 0 < n -> at_ e = n ->
  elements (root t') = insert_sorted e (elements (root t)) -> addressed at_ (n + 1) t'.
Proof.
  intros [H1 H2] Hn He Hel. rewrite <-He in *. split; rewrite Hel.
  - intros x [->|Hx]%elem_of_insert_sorted; [lia|]. specialize (H1 x Hx). lia.
  - intros x y Hx Hy Hxy. apply elem_of_insert_sorted in Hx as [->|Hx], Hy as [->|Hy]; [done| | |by apply H2].
    + specialize (H1 y Hy). lia.
    + specialize (H1 x Hx). lia.
Qed.

(** What [get_perm_string] returns: the string that is in the table, which
    stays the same for equal strings. *)
Record perm_post (x : cstr) (s : tool) (p : cstr) (s' : tool) : Prop := {
  pp_wf : wf_oset (stringTable s');
  pp_at : addressed str_at (allocated s') (stringTable s');
  pp_in : p ∈ elements (root (stringTable s'));
  pp_old : forall y, y ∈ elements (root (stringTable s)) -> y ∈ elements (root (stringTable s'));
  pp_same : VG_strcmp (chars x) (chars p) = 0;
  pp_rest : exists t n, s' = s <| stringTable := t |> <| allocated := n |> /\ allocated s <= n <= allocated s + 1
}.

Lemma get_perm_string_ok x s : wf_oset (stringTable s) -> addressed str_at (allocated s) (stringTable s) ->
  0 < allocated s -> exists p s', get_perm_string x s = Ok (p, s') /\ perm_post x s p s'.
Proof.
  intros Hwf Hat Hpos. unfold get_perm_string, gets, mbind, SE_bind. rewrite Lookup_ok by done.
  destruct (find_key x (elements (root (stringTable s)))) as [p|] eqn:Hp.
  - exists p, s. split; [done|]. apply find_key_Some in Hp as [Hin Heq]. split; try done.
    exists (stringTable s), (allocated s). split; [by destruct s|lia].
  - destruct (Insert_ok (stringTable s) (mk_cstr (allocated s) (chars x)) Hwf Hp) as (t' & Hins & Hwf' & Hel).
    eexists _, _. split.
    { unfold allocate, gets, modify, lift, mbind, SE_bind, mret, SE_ret. cbn [stringTable set_field].
      rewrite Hins. cbn [obind]. reflexivity. }
    split; cbn [stringTable allocated set_field]; try done.
    + eapply addressed_insert; [exact Hat|done| |exact Hel]. done.
    + rewrite Hel. apply elem_of_insert_sorted. by left.
    + intros y Hy. rewrite Hel. apply elem_of_insert_sorted. by right.
    + apply VG_strcmp_refl.
    + exists t', (allocated s + 1). split; [done|lia].
Qed.

(** ** Line counters *)

Section Lines.
Context (filename_linenum : Z -> option (string * string * Z)) (fnname : Z -> option string).

(** The location of an address, with its strings on the stack. *)
Definition location (a : Z) : CodeLoc :=
  let '(file, dir, line) :=
    match filename_linenum a with Some fdl => fdl | None => ("???", EmptyString, 0) end%string in
  mk_CodeLoc (mk_cstr 0 (absfile dir file))
    (mk_cstr 0 (match fnname a with Some fn => fn | None => "???" end%string)) (s32 line).

(** The [Int] counters of debug lookups have room for [k] more. *)
Definition debug_room (k : Z) (s : tool) : Prop :=
  0 <= full_debugs s < 2 ^ 31 - k /\ 0 <= file_line_debugs s < 2 ^ 31 - k
  /\ 0 <= fn_debugs s < 2 ^ 31 - k /\ 0 <= no_debugs s < 2 ^ 31 - k.

(** Only those counters have changed. *)
Definition debugs_only (s s' : tool) : Prop :=
  exists a b c d, s' = s <| full_debugs := a |> <| file_line_debugs := b |> <| fn_debugs := c |> <| no_debugs := d |>.

Lemma get_debug_info_ok a s k : debug_room k s -> 1 <= k ->
  exists file dir fn line s', get_debug_info filename_linenum fnname a s = Ok ((file, dir, fn, line), s')
    /\ location a = mk_CodeLoc (mk_cstr 0 (absfile dir file)) (mk_cstr 0 fn) (s32 line)
    /\ debugs_only s s' /\ debug_room (k - 1) s'.
Proof.
  intros Hroom Hk. unfold get_debug_info, location.
  destruct (match filename_linenum a with Some fdl => fdl | None => _ end) as [[fi dir] ln] eqn:Hfl.
  exists fi, dir, (match fnname a with Some fn => fn | None => "???" end)%string, ln.
  destruct s as [c b cc it st im al pr dg dn fd fld fnd nd]. unfold debug_room in Hroom.
  cbn [full_debugs file_line_debugs fn_debugs no_debugs] in Hroom.
  unfold gets, lift, modify, mbind, SE_bind, mret, SE_ret. cbn [id full_debugs file_line_debugs fn_debugs no_debugs].
  destruct (filename_linenum a), (fnname a); rewrite int_add_ok by lia; cbn [obind set_field];
    eexists; (split; [reflexivity|]); (split; [done|]); split;
    try (match goal with |- debugs_only _ ?s' =>
      exists (full_debugs s'), (file_line_debugs s'), (fn_debugs s'), (no_debugs s'); reflexivity end);
    unfold debug_room, set_field; cbn [full_debugs file_line_debugs fn_debugs no_debugs]; lia.
Qed.

Lemma zero_counters_lookup p m q f : zero_counters p m !! (q, f) = if decide (q = p) then Some 0 else m !! (q, f).
Proof.
  unfold zero_counters, counter_fields. cbn [foldr]. case_decide as Hq.
  - subst. destruct f; repeat (rewrite lookup_insert_eq || rewrite lookup_insert_ne by congruence); done.
  - repeat rewrite lookup_insert_ne by congruence. done.
Qed.

(** What [get_lineCC] returns for the address [a]. *)
Record lineCC_post (k a : Z) (s : tool) (cc : LineCC) (s' : tool) : Prop := {
  lp_wf : wf_tables s';
  lp_frame : frame s s';
  lp_in : cc ∈ elements (root (CC_table s'));
  lp_loc : cmp_CodeLoc (location a) (loc cc) = 0;
  lp_old : forall c, c ∈ elements (root (CC_table s)) -> c ∈ elements (root (CC_table s'));
  lp_counters : forall q f, q < allocated s ->
    line_counters (cache_sim s') !! (q, f) = line_counters (cache_sim s) !! (q, f);
  lp_room : debug_room (k - 1) s'
}.
(** Adding a node with fresh permanent strings keeps the invariant. *)
Lemma get_lineCC_ok a s k : wf_tables s -> debug_room k s -> 1 <= k ->
  exists cc s', get_lineCC filename_linenum fnname a s = Ok (cc, s') /\ lineCC_post k a s cc s'.
Proof.
  intros Hwf Hroom Hk.
  destruct (get_debug_info_ok a s k Hroom Hk) as (fi & dir & fn' & ln & s1 & Hinfo & Hloc & (x1 & x2 & x3 & x4 & ->) & Hroom1).
  unfold get_lineCC. unfold mbind at 1, SE_bind at 1. rewrite Hinfo. rewrite <-Hloc. clear Hinfo.
  set (s1 := s <| full_debugs := x1 |> <| file_line_debugs := x2 |> <| fn_debugs := x3 |> <| no_debugs := x4 |>) in *.
  destruct Hwf as [HCC Hstr Hinf Hcat Hsat Hperm Hctr Hall].
  unfold gets, mbind, SE_bind. change (CC_table s1) with (CC_table s). rewrite Lookup_ok by done.
  destruct (find_key (location a) (elements (root (CC_table s)))) as [cc|] eqn:Hcc.
  - exists cc, s1. split; [done|]. apply find_key_Some in Hcc as [Hin Heq].
    split; try done. split; try done; [|cbn; lia]. exists (line_counters (cache_sim s)). by destruct s as [[]].
  - set (s2 := s1 <| allocated := allocated s + 1 |>).
    assert (Hsat2 : addressed str_at (allocated s2) (stringTable s2)) by (eapply addressed_mono; [exact Hsat|cbn; lia]).
    destruct (get_perm_string_ok (file (location a)) s2) as (pf & s3 & Hpf & [Hw3 Ha3 Hi3 Ho3 Hs3 (t3 & n3 & E3 & Hn3)]); [done|done|cbn; lia|].
    destruct (get_perm_string_ok (fn (location a)) s3) as (pn & s4 & Hpn & [Hw4 Ha4 Hi4 Ho4 Hs4 (t4 & n4 & E4 & Hn4)]); [done|done|rewrite E3; cbn in *; lia|].
    set (cc := mk_LineCC (allocated s) (mk_CodeLoc pf pn (line (location a)))).
    assert (Hsame : cmp_CodeLoc (location a) (loc cc) = 0).
    { unfold cmp_CodeLoc. cbn [loc cc file fn line]. rewrite Hs3, Hs4. cbn. lia. }
    destruct (Insert_ok (CC_table s) cc HCC) as (t5 & Hins & Hw5 & Hel5).
    { apply find_key_None. intros x Hx Heq. apply (proj1 (find_key_None _ _) Hcc x Hx).
      exact (proj2 (kcmp_eq_iff (E := LineCC) (location a) (loc cc) (loc x) Hsame) Heq). }
    eexists cc, _. split.
    { unfold allocate, gets, modify, in_sim, lift, mbind, SE_bind, mret, SE_ret.
      change (s1 <| allocated := allocated s1 + 1 |>) with s2.
      rewrite Hpf. rewrite Hpn. cbn [obind]. change (allocated s1) with (allocated s).
      change (CC_table s1) with (CC_table s). fold cc. rewrite Hins. cbn [obind]. reflexivity. }
    assert (Hall4 : allocated s < allocated s4 <= allocated s + 3)
      by (rewrite E4, E3 in *; cbn in *; lia).
    assert (Hold : forall y, y ∈ elements (root (stringTable s)) -> y ∈ elements (root (stringTable s4)))
      by (intros y Hy; apply Ho4, Ho3, Hy).
    assert (Hcat5 : addressed lcc (allocated s4) t5).
    { eapply addressed_mono; [eapply addressed_insert; [exact Hcat|done| |exact Hel5]; done|lia]. }
    assert (Hrest : cache_sim s4 = cache_sim s /\ branch_sim s4 = branch_sim s /\ instrInfoTable s4 = instrInfoTable s
      /\ instr_infos s4 = instr_infos s /\ printed s4 = printed s
      /\ distinct_instrsGen s4 = distinct_instrsGen s /\ distinct_instrsNoX s4 = distinct_instrsNoX s
      /\ (full_debugs s4 = x1 /\ file_line_debugs s4 = x2 /\ fn_debugs s4 = x3 /\ no_debugs s4 = x4))
      by (rewrite E4, E3; by split_and!).
    destruct Hrest as (R1 & R2 & R3 & R4 & R5 & R6 & R7 & R8). clear E3 E4.
    split; [split| split | | | | |]; cbn [set_field CC_table stringTable instrInfoTable allocated cache_sim
      branch_sim instr_infos printed distinct_instrsGen distinct_instrsNoX line_counters].
    + done.
    + done.
    + by rewrite R3.
    + done.
    + done.
    + intros c Hc. rewrite Hel5 in Hc. apply elem_of_insert_sorted in Hc as [->|Hc]; [split; [by apply Ho4|done]|].
      destruct (Hperm c Hc). split; by apply Hold.
    + intros c f Hc. rewrite Hel5 in Hc. apply elem_of_dom. rewrite zero_counters_lookup, R1.
      case_decide as Hat; [done|]. apply elem_of_insert_sorted in Hc as [->|Hc]; [done|].
      by apply elem_of_dom, Hctr.
    + lia.
    + rewrite R1. by eexists.
    + done.
    + done.
    + done.
    + done.
    + done.
    + done.
    + lia.
    + rewrite Hel5. apply elem_of_insert_sorted. by left.
    + done.
    + intros c Hc. rewrite Hel5. apply elem_of_insert_sorted. by right.
    + intros q f Hq. rewrite zero_counters_lookup, R1. case_decide; [lia|done].
    + destruct R8 as (<- & <- & <- & <-). exact Hroom1.
Qed.

(** The node of a location is unique. *)
Lemma node_unique s c1 c2 : wf_oset (CC_table s) ->
  c1 ∈ elements (root (CC_table s)) -> c2 ∈ elements (root (CC_table s)) ->
  cmp_CodeLoc (loc c1) (loc c2) = 0 -> c1 = c2.
Proof.
  intros Hwf H1 H2 Heq. pose proof (wf_sorted _ Hwf) as Hs.
  apply list_elem_of_split in H2 as (l1 & l2 & E). rewrite E in Hs, H1.
  destruct (elem_side _ _ _ _ Hs H1) as [(Hlt & _) | [(Hgt & _) | (_ & ?)]]; [| |done].
  - change (cmp (key c1) c2) with (cmp_CodeLoc (loc c1) (loc c2)) in Hlt. lia.
  - change (cmp (key c1) c2) with (cmp_CodeLoc (loc c1) (loc c2)) in Hgt. lia.
Qed.

(** Equal permanent strings are at the same address. *)
Lemma string_unique s x y : wf_tables s ->
  x ∈ elements (root (stringTable s)) -> y ∈ elements (root (stringTable s)) ->
  (str_at x = str_at y <-> VG_strcmp (chars x) (chars y) = 0).
Proof.
  intros Hwf Hx Hy. pose proof (wf_str_at s Hwf) as [_ Hinj]. split.
  - intros Hxy. rewrite (Hinj x y Hx Hy Hxy). apply VG_strcmp_refl.
  - intros Heq. pose proof (wf_sorted _ (wf_strings s Hwf)) as Hs.
    apply list_elem_of_split in Hy as (l1 & l2 & E). rewrite E in Hs, Hx.
    destruct (elem_side _ _ _ _ Hs Hx) as [(Hlt & _) | [(Hgt & _) | (_ & ->)]]; [| |done].
    + change (cmp (key x) y) with (VG_strcmp (chars x) (chars y)) in Hlt. lia.
    + change (cmp (key x) y) with (VG_strcmp (chars x) (chars y)) in Hgt. lia.
Qed.

(** C25: [get_lineCC] returns the node of the CC table for the file, function
    and line of the address.  A second address gets the same node exactly when
    its location is the same; the counters of other nodes are untouched; and
    two nodes hold the same pointer to a file (function) name exactly when the
    names are equal, which is what the comparison of pointers in
    [fprint_CC_table_and_calc_totals] relies on. *)
Theorem get_lineCC_shares_nodes (a b : Z) (s : tool) :
  wf_tables s -> debug_room 2 s ->
  exists ca s1 cb s2,
    get_lineCC filename_linenum fnname a s = Ok (ca, s1) /\
    get_lineCC filename_linenum fnname b s1 = Ok (cb, s2) /\
    wf_tables s2 /\ cmp_CodeLoc (location a) (loc ca) = 0 /\ cmp_CodeLoc (location b) (loc cb) = 0 /\
    (ca = cb <-> cmp_CodeLoc (location a) (location b) = 0) /\
    (str_at (file (loc ca)) = str_at (file (loc cb))
     <-> VG_strcmp (chars (file (loc ca))) (chars (file (loc cb))) = 0) /\
    (str_at (fn (loc ca)) = str_at (fn (loc cb))
     <-> VG_strcmp (chars (fn (loc ca))) (chars (fn (loc cb))) = 0) /\
    (forall c f, c ∈ elements (root (CC_table s)) ->
       line_counters (cache_sim s2) !! (lcc c, f) = line_counters (cache_sim s) !! (lcc c, f)).
Proof.
  intros Hwf Hroom.
  destruct (get_lineCC_ok a s 2 Hwf Hroom ltac:(lia)) as (ca & s1 & Ha & [Hwf1 Hfr1 Hin1 Hloc1 Hold1 Hctr1 Hroom1]).
  destruct (get_lineCC_ok b s1 (2 - 1) Hwf1 Hroom1 ltac:(lia)) as (cb & s2 & Hb & [Hwf2 Hfr2 Hin2 Hloc2 Hold2 Hctr2 _]).
  exists ca, s1, cb, s2. pose proof (Hold2 _ Hin1) as Hin1'.
  destruct (wf_perm s2 Hwf2 ca Hin1') as [Hfa Hna]. destruct (wf_perm s2 Hwf2 cb Hin2) as [Hfb Hnb].
  split_and!; try done; try by apply (string_unique s2).
  - pose proof (kcmp_eq_iff (E := LineCC) (location a) (loc ca) (location b) Hloc1) as E1.
    pose proof (kcmp_eq_iff (E := LineCC) (location b) (loc cb) (loc ca) Hloc2) as E2.
    rewrite (kcmp_sym_eq (E := LineCC) (location b)), (kcmp_sym_eq (E := LineCC) (loc cb)) in E2.
    rewrite (kcmp_sym_eq (E := LineCC) (loc ca) (location b)) in E1.
    assert (Hiff : cmp_CodeLoc (location a) (location b) = 0 <-> cmp_CodeLoc (loc ca) (loc cb) = 0).
    { etrans; [exact E1|]. etrans; [apply (kcmp_sym_eq (E := LineCC))|]. exact E2. }
    rewrite Hiff. split; [intros ->; exact (kcmp_refl (E := LineCC) (loc cb))|].
    by apply (node_unique s2 ca cb (wf_CC s2 Hwf2)).
  - intros c f Hc. rewrite Hctr2, Hctr1; [done| |].
    + by apply (proj1 (wf_CC_at s Hwf)).
    + pose proof (fr_allocated _ _ Hfr1). pose proof (proj1 (wf_CC_at s Hwf) c Hc). lia.
Qed.

End Lines.

(** Two instructions of one line and the rest of a program without lines. *)
Definition demo_lines (a : Z) : option (string * string * Z) :=
  if (64 <=? a) && (a <? 72) then Some ("main.c", "/src", 7)%string else None.
Definition demo_fns (a : Z) : option string := if a <? 128 then Some "main"%string else None.

Lemma get_lineCC_shares_nodes_witness (c := sim_static lru_globals (fun _ => true)) :
  exists ca s1 cb s2,
    get_lineCC demo_lines demo_fns 64 (tool_init c) = Ok (ca, s1) /\
    get_lineCC demo_lines demo_fns 68 s1 = Ok (cb, s2) /\
    wf_tables s2 /\ cmp_CodeLoc (location demo_lines demo_fns 64) (loc ca) = 0 /\
    cmp_CodeLoc (location demo_lines demo_fns 68) (loc cb) = 0 /\
    (ca = cb <-> cmp_CodeLoc (location demo_lines demo_fns 64) (location demo_lines demo_fns 68) = 0) /\
    (str_at (file (loc ca)) = str_at (file (loc cb))
     <-> VG_strcmp (chars (file (loc ca))) (chars (file (loc cb))) = 0) /\
    (str_at (fn (loc ca)) = str_at (fn (loc cb))
     <-> VG_strcmp (chars (fn (loc ca))) (chars (fn (loc cb))) = 0) /\
    (forall x f, x ∈ elements (root (CC_table (tool_init c))) ->
       line_counters (cache_sim s2) !! (lcc x, f) = line_counters (cache_sim (tool_init c)) !! (lcc x, f)).
Proof.
  apply (get_lineCC_shares_nodes demo_lines demo_fns 64 68 (tool_init c)).
  - apply tool_init_wf.
  - unfold debug_room. cbn. lia.
Defined.
