(* ===== verification/InstrTheory.v ===== *)
(** * Instrumentation does what one call per event would do

    A semantics of the instrumented code as far as the tool is concerned (the
    helper calls, and the side exits that end a run), the events a superblock
    stands for, statement by statement, and the theorem that a run of the
    instrumented block has the effects of those events, however they have been
    queued and merged into helper calls. *)

From S2P Require Import Prelude LibcBase BranchPred SetRef CacheSim DoRef OSet Primop IR CgMain Instrument.

(** ** Running instrumented code *)

Section Run.
Context (conf : options).

(** The values of the temporaries in a run; each is assigned once. *)
Context (rho : Z -> Z).

(** A float is no address, branch condition or pointer; it counts as 0. *)
Definition const_value (c : IRConst) : Z :=
  match c with
  | Ico_U1 b => Z.land 1 b
  | Ico_U8 v | Ico_U16 v | Ico_U32 v | Ico_U64 v | Ico_F32i v | Ico_F64i v | Ico_V128 v | Ico_V256 v => v
  | Ico_F32 _ | Ico_F64 _ => 0
  end.

Definition value (e : IRExpr) : Z :=
  match e with Iex_RdTmp t => rho t | Iex_Const c => const_value c | _ => 0 end.

(** The function a helper name stands for, on its arguments. *)
Definition helper1 (h : string) (n : Z) : option (SE tool unit) :=
  (if h =? "log_1Ir" then Some (log_1Ir n)
   else if h =? "log_1IrGen_0D_cache_access" then Some (log_1IrGen_0D_cache_access n)
   else if h =? "log_1IrNoX_0D_cache_access" then Some (log_1IrNoX_0D_cache_access n)
   else None)%string.
Definition helper2 (h : string) (n a : Z) : option (SE tool unit) :=
  (if h =? "log_2Ir" then Some (log_2Ir n a)
   else if h =? "log_2IrNoX_0D_cache_access" then Some (log_2IrNoX_0D_cache_access n a)
   else if h =? "log_cond_branch" then Some (log_cond_branch conf n a)
   else if h =? "log_ind_branch" then Some (log_ind_branch conf n a)
   else None)%string.
Definition helper3 (h : string) (n a b : Z) : option (SE tool unit) :=
  (if h =? "log_3Ir" then Some (log_3Ir n a b)
   else if h =? "log_3IrNoX_0D_cache_access" then Some (log_3IrNoX_0D_cache_access n a b)
   else if h =? "log_1IrNoX_1Dr_cache_access" then Some (log_1IrNoX_1Dr_cache_access conf n a b)
   else if h =? "log_1IrNoX_1Dw_cache_access" then Some (log_1IrNoX_1Dw_cache_access conf n a b)
   else if h =? "log_0Ir_1Dr_cache_access" then Some (log_0Ir_1Dr_cache_access conf n a b)
   else if h =? "log_0Ir_1Dw_cache_access" then Some (log_0Ir_1Dw_cache_access conf n a b)
   else None)%string.

Definition helper_call (h : string) (args : list Z) : option (SE tool unit) :=
  match args with
  | [n] => helper1 h n
  | [n; a] => helper2 h n a
  | [n; a; b] => helper3 h n a b
  | _ => None
  end.

Definition helper_names : list string :=
  ["log_1Ir"; "log_2Ir"; "log_3Ir"; "log_1IrGen_0D_cache_access"; "log_1IrNoX_0D_cache_access";
   "log_2IrNoX_0D_cache_access"; "log_3IrNoX_0D_cache_access"; "log_1IrNoX_1Dr_cache_access";
   "log_1IrNoX_1Dw_cache_access"; "log_0Ir_1Dr_cache_access"; "log_0Ir_1Dw_cache_access";
   "log_cond_branch"; "log_ind_branch"]%string.
Definition is_helper (h : string) : bool := existsb (String.eqb h) helper_names.

Lemma not_helper h args : is_helper h = false -> helper_call h args = None.
Proof.
  unfold is_helper, helper_names. cbn [existsb]. intros H.
  repeat apply orb_false_iff in H as [? H]. unfold helper_call, helper1, helper2, helper3.
  destruct args as [|a [|b [|c [|]]]]; try done;
    repeat match goal with E : (_ =? _)%string = false |- _ => rewrite E; clear E end; done.
Qed.

(** What a statement does to the tool, and whether the run leaves the block.
    Calls of other helpers do nothing to the tool. *)
Definition exec_stmt (st : IRStmt) : SE tool bool :=
  match st with
  | Ist_Dirty d =>
      match helper_call (addr (cee d)) (map value (args d)) with
      | Some m => when (negb (value (guard d) =? 0)) m;; mret false
      | None => mret false
      end
  | Ist_Exit guard _ _ _ => mret (negb (value guard =? 0))
  | _ => mret false
  end.

Fixpoint exec (sts : list IRStmt) : SE tool bool :=
  match sts with
  | [] => mret false
  | st :: sts => left ← exec_stmt st; if (left : bool) then mret true else exec sts
  end.

(** One call for one event. *)
Definition do_event (ev : Event) : SE tool unit :=
  let n := inode ev in
  match tag ev with
  | Ev_IrNoX => if clo_cache_sim conf then log_1IrNoX_0D_cache_access n else log_1Ir n
  | Ev_IrGen => if clo_cache_sim conf then log_1IrGen_0D_cache_access n else log_1Ir n
  | Ev_Dr ea szB | Ev_Dm ea szB => log_0Ir_1Dr_cache_access conf n (value ea) szB
  | Ev_Dw ea szB => log_0Ir_1Dw_cache_access conf n (value ea) szB
  | Ev_Bc taken => log_cond_branch conf n (value taken)
  | Ev_Bi dst => log_ind_branch conf n (value dst)
  end.

(** ** Flushing the queue *)

Definition is_data (t : EventTag) : bool :=
  match t with Ev_Dr _ _ | Ev_Dw _ _ | Ev_Dm _ _ => true | _ => false end.

(** Pointers and sizes are host words, and data events are only there when the
    caches are simulated. *)
Definition word (x : Z) : Prop := 0 <= x < 2 ^ 64.
Definition event_ok (ev : Event) : Prop :=
  word (inode ev) /\
  match tag ev with
  | Ev_Dr ea szB | Ev_Dw ea szB | Ev_Dm ea szB =>
      word szB /\ clo_cache_sim conf = true /\ isIRAtom ea = true
  | _ => True
  end.

(** A data event after an instruction read is one of that instruction. *)
Definition follows (ev ev2 : Event) : Prop :=
  tag ev = Ev_IrNoX -> is_data (tag ev2) = true -> inode ev2 = inode ev.

Fixpoint queue_ok (evs : list Event) : Prop :=
  match evs with
  | [] => True
  | ev :: rest =>
      event_ok ev /\ match rest with ev2 :: _ => follows ev ev2 | [] => True end /\ queue_ok rest
  end.

Lemma HWord_value x : word x -> value (mkIRExpr_HWord x) = x.
Proof. intros Hx. apply u64_small. exact Hx. Qed.

(** How many events at the front of the queue are merged: up to three IrNoX, or an
    IrNoX with its data access. *)
Definition front (evs : list Event) : nat :=
  match map tag evs with
  | Ev_IrNoX :: Ev_IrNoX :: Ev_IrNoX :: _ => 3
  | Ev_IrNoX :: Ev_IrNoX :: _ => 2
  | Ev_IrNoX :: t :: _ => if is_data t then 2 else 1
  | _ => 1
  end.

(** The queue in groups. *)
Fixpoint groups (fuel : nat) (evs : list Event) : list (list Event) :=
  match evs, fuel with
  | [], _ | _, O => []
  | _, S fuel => take (front evs) evs :: groups fuel (drop (front evs) evs)
  end.

(** The call made for the front of the queue stands for the events it takes. *)
Definition call_ok (ev : Event) (rest : list Event) : Prop :=
  exists k h argv taken rest' m, flush_call conf ev rest = Ok (k, h, argv, rest')
    /\ 0 <= k <= 3 /\ ev :: rest = taken ++ rest' /\ length taken = front (ev :: rest)
    /\ helper_call h (map value argv) = Some m /\ m ≈ for_each taken do_event.

Lemma one_event k h argv ev rest m :
  flush_call conf ev rest = Ok (k, h, argv, rest) -> front (ev :: rest) = 1%nat -> 0 <= k <= 3 ->
  helper_call h (map value argv) = Some m -> m ≈ do_event ev -> call_ok ev rest.
Proof.
  intros Hf Hfr Hk Hm Heq. exists k, h, argv, [ev], rest, m. split_and!; try done; try lia.
  rewrite Heq. cbn [for_each]. symmetry. apply bind_tt.
Qed.

Lemma two_events k h argv ev ev2 rest m :
  flush_call conf ev (ev2 :: rest) = Ok (k, h, argv, rest) -> front (ev :: ev2 :: rest) = 2%nat -> 0 <= k <= 3 ->
  helper_call h (map value argv) = Some m -> m ≈ (do_event ev;; do_event ev2) ->
  call_ok ev (ev2 :: rest).
Proof.
  intros Hf Hfr Hk Hm Heq. exists k, h, argv, [ev; ev2], rest, m. split_and!; try done; try lia.
  rewrite Heq. cbn [for_each]. apply same_bind; [done|]. intros _. symmetry. apply bind_tt.
Qed.

Lemma three_events k h argv ev ev2 ev3 rest m :
  flush_call conf ev (ev2 :: ev3 :: rest) = Ok (k, h, argv, rest) -> front (ev :: ev2 :: ev3 :: rest) = 3%nat -> 0 <= k <= 3 ->
  helper_call h (map value argv) = Some m -> m ≈ (do_event ev;; do_event ev2;; do_event ev3) ->
  call_ok ev (ev2 :: ev3 :: rest).
Proof.
  intros Hf Hfr Hk Hm Heq. exists k, h, argv, [ev; ev2; ev3], rest, m. split_and!; try done; try lia.
  rewrite Heq. cbn [for_each]. do 2 (apply same_bind; [done|]; intros _). symmetry. apply bind_tt.
Qed.

(** Evaluate the arguments of a call and find the helper. *)
Ltac call_args := cbn [map value const_value helper_call]; rewrite ?HWord_value by first [done | tauto].

(** An instruction read with the data access that follows it, as the call [m]. *)
Ltac merge_data m :=
  match goal with Hf : _ -> _ -> _ = _, Ht2 : word _ /\ _ |- _ =>
    specialize (Hf eq_refl eq_refl) as ->; destruct Ht2 as (Hsz & Hcs & _);
    eapply (two_events 3 _ _ _ _ _ m); [unfold flush_call; cbn [tag inode]; rewrite Z.eqb_refl; reflexivity
      | reflexivity | lia | call_args; reflexivity
      | unfold do_event; cbn [tag inode]; rewrite Hcs; symmetry; apply bind_bind]
  end.

Lemma flush_call_ok ev rest : queue_ok (ev :: rest) -> call_ok ev rest.
Proof.
  intros (Hev & Hf & Hq). destruct Hev as [Hn Ht]. destruct ev as [t n]. cbn [tag inode] in *.
  assert (Halone : forall h, h = (if clo_cache_sim conf then "log_1IrNoX_0D_cache_access" else "log_1Ir")%string ->
    flush_call conf (mk_Event Ev_IrNoX n) rest = Ok (1, h, [mkIRExpr_HWord n], rest) ->
    front (mk_Event Ev_IrNoX n :: rest) = 1%nat -> call_ok (mk_Event Ev_IrNoX n) rest).
  { intros h -> E Hfr. apply (one_event _ _ _ _ _ (do_event (mk_Event Ev_IrNoX n)) E); [done|lia| |done].
    call_args. unfold do_event. cbn [tag inode]. by destruct (clo_cache_sim conf). }
  destruct t as [| |ea sz|ea sz|ea sz|tk|dst].
  - destruct rest as [|[t2 n2] rest]; [by eapply Halone|].
    destruct Hq as ([Hn2 Ht2] & Hf2 & Hq2). cbn [tag inode] in *. unfold follows in Hf. cbn [tag inode] in Hf.
    destruct t2 as [| |ea2 sz2|ea2 sz2|ea2 sz2|tk2|dst2]; try (by eapply Halone).
    + assert (Htwo : forall h, h = (if clo_cache_sim conf then "log_2IrNoX_0D_cache_access" else "log_2Ir")%string ->
        flush_call conf (mk_Event Ev_IrNoX n) (mk_Event Ev_IrNoX n2 :: rest)
          = Ok (2, h, [mkIRExpr_HWord n; mkIRExpr_HWord n2], rest) ->
        front (mk_Event Ev_IrNoX n :: mk_Event Ev_IrNoX n2 :: rest) = 2%nat ->
        call_ok (mk_Event Ev_IrNoX n) (mk_Event Ev_IrNoX n2 :: rest)).
      { intros h -> E Hfr.
        apply (two_events _ _ _ _ _ _
          (if clo_cache_sim conf then log_2IrNoX_0D_cache_access n n2 else log_2Ir n n2) E); [done|lia| |].
        - call_args. by destruct (clo_cache_sim conf).
        - unfold do_event. cbn [tag inode]. destruct (clo_cache_sim conf); [|done].
          symmetry. apply bind_bind. }
      destruct rest as [|[t3 n3] rest]; [by eapply Htwo|].
      destruct t3 as [| |ea3 sz3|ea3 sz3|ea3 sz3|tk3|dst3]; try (by eapply Htwo).
      destruct Hq2 as ([Hn3 _] & _). cbn [tag inode] in *.
      eapply (three_events 3 _ _ _ _ _ _
        (if clo_cache_sim conf then log_3IrNoX_0D_cache_access n n2 n3 else log_3Ir n n2 n3)); [reflexivity|reflexivity|lia| |].
      * call_args. by destruct (clo_cache_sim conf).
      * unfold do_event. cbn [tag inode]. destruct (clo_cache_sim conf); [|done].
        symmetry. etrans; [apply bind_bind|]. do 2 (apply same_bind; [done|]; intros _). apply bind_bind.
    + merge_data (log_1IrNoX_1Dr_cache_access conf n (value ea2) sz2).
    + merge_data (log_1IrNoX_1Dw_cache_access conf n (value ea2) sz2).
    + merge_data (log_1IrNoX_1Dr_cache_access conf n (value ea2) sz2).
  - eapply (one_event 1 _ _ _ _ (do_event (mk_Event Ev_IrGen n))); [reflexivity|reflexivity|lia| |done].
    call_args. unfold do_event. cbn [tag inode]. by destruct (clo_cache_sim conf).
  - eapply (one_event 3 _ _ _ _ (do_event (mk_Event (Ev_Dr ea sz) n))); [reflexivity|reflexivity|lia| |done]. by call_args.
  - eapply (one_event 3 _ _ _ _ (do_event (mk_Event (Ev_Dw ea sz) n))); [reflexivity|reflexivity|lia| |done]. by call_args.
  - eapply (one_event 3 _ _ _ _ (do_event (mk_Event (Ev_Dm ea sz) n))); [reflexivity|reflexivity|lia| |done]. by call_args.
  - eapply (one_event 2 _ _ _ _ (do_event (mk_Event (Ev_Bc tk) n))); [reflexivity|reflexivity|lia| |done]. by call_args.
  - eapply (one_event 2 _ _ _ _ (do_event (mk_Event (Ev_Bi dst) n))); [reflexivity|reflexivity|lia| |done]. by call_args.
Qed.

Lemma exec_app l1 l2 :
  exec (l1 ++ l2) ≈ (left ← exec l1; if (left : bool) then mret true else exec l2).
Proof.
  induction l1 as [|st l1 IH]; cbn [app exec]; [done|]. rewrite bind_bind.
  apply same_bind; [done|]. intros [|]; [done|exact IH].
Qed.

(** Code that never leaves the block. *)
Lemma exec_app_stays l1 l2 (m : SE tool unit) :
  exec l1 ≈ (m;; mret false) -> exec (l1 ++ l2) ≈ (m;; exec l2).
Proof.
  intros H. etrans; [apply exec_app|]. etrans; [apply same_bind; [exact H|by intros]|].
  apply bind_bind.
Qed.

Lemma queue_ok_app l1 l2 : queue_ok (l1 ++ l2) -> queue_ok l2.
Proof. induction l1 as [|ev l1 IH]; [done|]. intros (_ & _ & Hq). by apply IH. Qed.

(** A helper call that instrumentation has added. *)
Definition is_call (st : IRStmt) : Prop :=
  exists d, st = Ist_Dirty d /\ exists m, helper_call (addr (cee d)) (map value (args d)) = Some m.

Lemma exec_call d m : helper_call (addr (cee d)) (map value (args d)) = Some m ->
  exec_stmt (Ist_Dirty d) = (when (negb (value (guard d) =? 0)) m;; mret false).
Proof. unfold exec_stmt. by intros ->. Qed.

(** A helper call that does what a group of events does. *)
Definition serves (g : list Event) (st : IRStmt) : Prop :=
  is_call st /\ exec [st] ≈ (for_each g do_event;; mret false).

Lemma flush_loop_ok fuel evs out : queue_ok evs -> (length evs <= fuel)%nat ->
  exists calls, flush_loop conf fuel evs out = Ok (out <| stmts := stmts out ++ calls |>)
    /\ Forall2 serves (groups fuel evs) calls /\ exec calls ≈ (for_each evs do_event;; mret false).
Proof.
  revert evs out. induction fuel as [|fuel IH]; intros evs out Hq Hf.
  { destruct evs; [|cbn in Hf; lia]. exists []. split; [|done]. cbn. rewrite app_nil_r. by destruct out. }
  destruct evs as [|ev rest].
  { exists []. split; [|done]. cbn. rewrite app_nil_r. by destruct out. }
  destruct (flush_call_ok ev rest Hq) as (k & h & argv & taken & rest' & m & Hcall & Hk & Htk & Hlen & Hh & Hm).
  cbn [flush_loop groups]. rewrite <-Hlen. assert (Hne : length taken <> O) by (rewrite Hlen; unfold front; repeat case_match; done). rewrite Hcall. cbn [obind]. unfold unsafeIRDirty_0_N, mkIRCallee.
  destruct (Z.leb_spec 0 k), (Z.leb_spec k 3); try lia. cbn [andb assert_that obind].
  set (d := mk_IRDirty _ _ _ _ _ _ _ _). rewrite Htk in Hq.
  destruct (IH rest' (addStmtToIRSB out (Ist_Dirty d)) (queue_ok_app _ _ Hq)) as (calls & Hl & Hcs & Hex).
  { apply (f_equal length) in Htk. rewrite length_app in Htk. cbn in Htk, Hf. lia. }
  assert (Hd : exec [Ist_Dirty d] ≈ (for_each taken do_event;; mret false)).
  { cbn [exec]. rewrite (exec_call d m Hh). change (negb (value (guard d) =? 0)) with true. cbn [when]. rewrite !bind_bind.
    apply same_bind; [exact Hm|]. by intros _. }
  exists (Ist_Dirty d :: calls). split; [|split].
  - rewrite Hl. destruct out. unfold addStmtToIRSB, set_field. cbn. by rewrite <-app_assoc.
  - rewrite Htk, take_app_length, drop_app_length. constructor; [|done]. split; [|exact Hd]. exists d. split; [done|]. by exists m.
  - rewrite Htk. etrans; [exact (exec_app_stays [Ist_Dirty d] calls _ Hd)|].
    etrans; [|apply same_bind; [symmetry; apply for_each_app|by intros]].
    rewrite bind_bind. apply same_bind; [done|]. intros _. exact Hex.
Qed.

Lemma flushEvents_ok cgs : queue_ok (events cgs) ->
  exists calls, flushEvents conf cgs
      = Ok (cgs <| sbOut := (sbOut cgs) <| stmts := stmts (sbOut cgs) ++ calls |> |> <| events := [] |>)
    /\ Forall2 serves (groups (length (events cgs)) (events cgs)) calls /\ exec calls ≈ (for_each (events cgs) do_event;; mret false).
Proof.
  intros Hq. destruct (flush_loop_ok (length (events cgs)) (events cgs) (sbOut cgs) Hq) as (calls & Hl & H);
    [done|]. exists calls. split; [|done]. unfold flushEvents. by rewrite Hl.
Qed.

End Run.

(** ** What a superblock stands for *)

(** The effects of a run, in order: an event, a guarded access, a conditional
    branch, a side exit, and a point no modify goes across. *)
Inductive action :=
| A_event (ev : Event)
| A_guarded (guard : IRExpr) (isWrite : bool) (n : Z) (ea : IRExpr) (szB : Z)
| A_branch (n : Z) (guard : IRExpr) (inverted : bool)
| A_exit (guard : IRExpr)
| A_barrier.

Definition branch_taken (rho : Z -> Z) (guard : IRExpr) (inverted : bool) : Z :=
  let b := Z.land 1 (value rho guard) in if inverted then 1 - b else b.

Definition run_action (conf : options) (rho : Z -> Z) (a : action) : SE tool bool :=
  match a with
  | A_event ev => do_event conf rho ev;; mret false
  | A_guarded guard isWrite n ea szB =>
      when (negb (value rho guard =? 0))
        (do_event conf rho (mk_Event (if isWrite then Ev_Dw ea szB else Ev_Dr ea szB) n));;
      mret false
  | A_branch n guard inverted =>
      log_cond_branch conf n (branch_taken rho guard inverted);; mret false
  | A_exit guard => mret (negb (value rho guard =? 0))
  | A_barrier => mret false
  end.

Fixpoint run_actions (conf : options) (rho : Z -> Z) (l : list action) : SE tool bool :=
  match l with
  | [] => mret false
  | a :: l => left ← run_action conf rho a; if (left : bool) then mret true else run_actions conf rho l
  end.

(** A write right after a read of the same instruction, address and size is
    part of a modify, which counts as the read. *)
Definition atoms_equal (a1 a2 : IRExpr) : bool :=
  match eqIRAtom a1 a2 with Ok b => b | Err _ => false end.

Definition modifies (acc : list action) (a : action) : option (list action) :=
  match last acc, a with
  | Some (A_event {| tag := Ev_Dr ea szB; inode := n |}), A_event {| tag := Ev_Dw ea' szB'; inode := n' |} =>
      if (szB =? szB') && (n =? n') && atoms_equal ea ea'
      then Some (removelast acc ++ [A_event (mk_Event (Ev_Dm ea szB) n)]) else None
  | _, _ => None
  end.

Definition add_action (acc : list action) (a : action) : list action :=
  match modifies acc a with Some acc => acc | None => acc ++ [a] end.

Section Reference.
Context (conf : options).

(** Does the instruction stay in one line of both caches? *)
Context (noX : Z -> Z -> bool).

Definition type_size (ty : outcome IRType) : Z :=
  match (let* ty := ty in sizeofIRType ty) with Ok n => n | Err _ => 0 end.

Definition read_actions (n : Z) (ea : IRExpr) (szB : Z) : list action :=
  if clo_cache_sim conf then [A_event (mk_Event (Ev_Dr ea szB) n)] else [].
Definition write_actions (n : Z) (ea : IRExpr) (szB : Z) : list action :=
  if clo_cache_sim conf then [A_event (mk_Event (Ev_Dw ea szB) n)] else [].
Definition guarded_actions (n : Z) (ea : IRExpr) (szB : Z) (guard : IRExpr) (isWrite : bool) : list action :=
  if clo_cache_sim conf then [A_guarded guard isWrite n ea szB] else [].

(** Where a superblock is: the current instruction, and the next InstrInfo. *)
Record place := mk_place { at_cia : Z; at_isize : Z; at_inode : Z; next_inode : Z }.

Definition after (p : place) (st : IRStmt) : place :=
  match st with
  | Ist_IMark addr len _ => mk_place addr (mark_size conf len) (next_inode p) (next_inode p + 1)
  | _ => p
  end.

Definition is_branch (jk : IRJumpKind) : bool :=
  bool_decide (jk = Ijk_Boring) || bool_decide (jk = Ijk_Call) || bool_decide (jk = Ijk_Ret).

Definition const_address (dst : IRConst) : Z := match dst with Ico_U64 a => a | _ => 0 end.

Definition stmt_actions (tyenv : IRTypeEnv) (p : place) (st : IRStmt) : list action :=
  let n := at_inode p in
  match st with
  | Ist_IMark addr len _ =>
      let t := if noX addr (u8 (mark_size conf len)) then Ev_IrNoX else Ev_IrGen in
      [A_event (mk_Event t (next_inode p))]
  | Ist_WrTmp _ (Iex_Load _ ty ea) => read_actions n ea (type_size (Ok ty))
  | Ist_Store _ ea data => write_actions n ea (type_size (typeOfIRExpr tyenv data))
  | Ist_StoreG _ ea data guard =>
      guarded_actions n ea (type_size (typeOfIRExpr tyenv data)) guard true
  | Ist_LoadG _ cvt _ ea _ guard =>
      guarded_actions n ea (type_size (let* (_, ty) := typeOfIRLoadGOp cvt in Ok ty)) guard false
  | Ist_Dirty d =>
      match mFx d, mAddr d with
      | Ifx_Read, Some ea => read_actions n ea (clip_size conf (mSize d))
      | Ifx_Write, Some ea => write_actions n ea (clip_size conf (mSize d))
      | Ifx_Modify, Some ea =>
          read_actions n ea (clip_size conf (mSize d)) ++ write_actions n ea (clip_size conf (mSize d))
      | _, _ => []
      end
  | Ist_CAS cas =>
      let sz := type_size (typeOfIRExpr tyenv (dataLo cas)) in
      let sz := clip_size conf (match dataHi cas with Some _ => sz * 2 | None => sz end) in
      read_actions n (cas_addr cas) sz ++ write_actions n (cas_addr cas) sz
  | Ist_LLSC _ result ea None => read_actions n ea (type_size (typeOfIRTemp tyenv result)) ++ [A_barrier]
  | Ist_LLSC _ _ ea (Some data) => write_actions n ea (type_size (typeOfIRExpr tyenv data))
  | Ist_Exit guard jk dst _ =>
      (if is_branch jk && clo_branch_sim conf
       then [A_branch n guard (u64 (at_cia p + at_isize p) =? const_address dst)] else [])
      ++ [A_exit guard]
  | _ => []
  end.

Fixpoint stmts_actions (tyenv : IRTypeEnv) (p : place) (sts : list IRStmt) : list action :=
  match sts with
  | [] => []
  | st :: sts => stmt_actions tyenv p st ++ stmts_actions tyenv (after p st) sts
  end.

(** The jump at the end of the block, if it goes to an unknown address. *)
Definition end_actions (p : place) (sb : IRSB) : list action :=
  match IR.next sb with
  | Iex_RdTmp _ =>
      if (bool_decide (jumpkind sb = Ijk_Boring) || bool_decide (jumpkind sb = Ijk_Call))
         && clo_branch_sim conf
      then [A_event (mk_Event (Ev_Bi (IR.next sb)) (at_inode p))] else []
  | _ => []
  end.

(** The side exits of the preamble. *)
Definition preamble_actions (pre : list IRStmt) : list action :=
  flat_map (fun st => match st with Ist_Exit guard _ _ _ => [A_exit guard] | _ => [] end) pre.

(** The walk starts at the first [IMark], whose address and size it takes. *)
Definition start_place (first : Z) (rest : list IRStmt) : place :=
  match rest with
  | Ist_IMark addr len _ :: _ => mk_place addr (mark_size conf len) NULL first
  | _ => mk_place 0 0 NULL first
  end.

(** The actions of a superblock whose first InstrInfo is [first], with the
    modifies put together. *)
Definition block_actions (first : Z) (sb : IRSB) : list action :=
  let (pre, rest) := split_preamble (stmts sb) in
  let p := start_place first rest in
  let l := stmts_actions (tyenv sb) p rest ++ end_actions (foldl after p rest) sb in
  foldl add_action (preamble_actions pre) l.

End Reference.
