(* ===== verification/InstrRefine.v ===== *)
(** * Instrumentation refines its reference

    The invariant of [cg_instrument]'s traversal: what has been emitted, then
    what is queued, has the effects of the actions of the statements so far. *)

From S2P Require Import Prelude LibcBase BranchPred SetRef CacheSim SimTheory OSet OSetTheory Primop IR CgMain.
From S2P Require Import Instrument LineTable InstrTheory.

(** ** Runs *)

(** The values of the temporaries that instrumentation computes. *)
Definition eval_expr (rho : Z -> Z) (e : IRExpr) : option Z :=
  match e with
  | Iex_RdTmp _ | Iex_Const _ => Some (value rho e)
  | Iex_Unop op a => if op =? Iop_1Uto64 then Some (Z.land 1 (value rho a)) else None
  | Iex_Binop op a b => if op =? Iop_Xor64 then Some (Z.lxor (value rho a) (value rho b)) else None
  | _ => None
  end.

Definition consistent (rho : Z -> Z) (sts : list IRStmt) : Prop :=
  forall t e v, Ist_WrTmp t e ∈ sts -> eval_expr rho e = Some v -> rho t = v.

Lemma consistent_app rho l1 l2 : consistent rho (l1 ++ l2) -> consistent rho l1.
Proof. intros H t e v Hin. apply H, elem_of_app. by left. Qed.

Section Tracking.
Context (conf : options).

Lemma run_actions_app rho l1 l2 :
  run_actions conf rho (l1 ++ l2)
  ≈ (left ← run_actions conf rho l1; if (left : bool) then mret true else run_actions conf rho l2).
Proof.
  induction l1 as [|a l1 IH]; cbn [app run_actions]; [done|]. rewrite bind_bind.
  apply same_bind; [done|]. intros [|]; [done|exact IH].
Qed.

(** Emitted code, then the queue. *)
Definition pending_run (rho : Z -> Z) (c : CgState) : SE tool bool :=
  left ← exec conf rho (stmts (sbOut c));
  if (left : bool) then mret true else (for_each (events c) (do_event conf rho);; mret false).

Record core (env0 : IRTypeEnv) (c : CgState) (acc : list action) : Prop := {
  co_queue : queue_ok conf (events c);
  co_len : (length (events c) <= 16)%nat;
  co_env : exists l, tyenv (sbOut c) = env0 ++ l;
  co_run : forall rho, consistent rho (stmts (sbOut c)) -> pending_run rho c ≈ run_actions conf rho acc
}.

(** The queue ends as the actions do, and its last event is of the current
    instruction. *)
Record tail_ok (n : Z) (c : CgState) (acc : list action) : Prop := {
  ta_last : match last acc with Some (A_event ev) => last (events c) = Some ev | _ => events c = [] end;
  ta_inode : forall ev, last (events c) = Some ev -> inode ev = n
}.

(** Instrumentation information that queue operations leave alone. *)
Definition same_side (c c' : CgState) : Prop :=
  sbInfo c' = sbInfo c /\ sbInfo_i c' = sbInfo_i c /\ tyenv (sbOut c') = tyenv (sbOut c)
  /\ stmts (sbOut c) `prefix_of` stmts (sbOut c').

#[local] Instance same_side_preorder : PreOrder same_side.
Proof.
  split; [by intros c|].
  intros c1 c2 c3 (H1 & H2 & H3 & H4) (K1 & K2 & K3 & K4). split_and!; [congruence..|by etrans].
Qed.

Lemma queue_ok_snoc q ev : queue_ok conf q -> event_ok conf ev ->
  (forall e, last q = Some e -> follows e ev) -> queue_ok conf (q ++ [ev]).
Proof.
  induction q as [|e q IH]; intros Hq Hev Hf; [done|]. destruct Hq as (He & Hfe & Hq).
  cbn [app queue_ok]. split; [done|]. destruct q as [|e2 q]; cbn [app].
  - split; [by apply Hf|done].
  - split; [done|]. apply IH; [done|done|]. intros e' He'. apply Hf. by rewrite last_cons, He'.
Qed.

(** *** Flushing, and room for one more *)

Lemma flush_core env0 c acc : core env0 c acc ->
  exists c', flushEvents conf c = Ok c' /\ core env0 c' acc /\ events c' = [] /\ same_side c c'.
Proof.
  intros [Hq Hl (l & Henv) Hrun]. destruct (flushEvents_ok conf (fun _ => 0) c Hq) as (calls & Hfl & _ & _).
  eexists. split; [exact Hfl|].
  split; [split|split; [done|split_and!; try done; by apply prefix_app_r]];
    cbn [set_field events sbOut stmts tyenv].
  - done.
  - cbn. lia.
  - by exists l.
  - intros rho Hc. pose proof (consistent_app _ _ _ Hc) as Hc1.
    rewrite <-(Hrun rho Hc1). unfold pending_run. cbn [set_field events sbOut stmts for_each].
    destruct (flushEvents_ok conf rho c Hq) as (calls' & Hfl' & _ & Hex).
    rewrite Hfl in Hfl'. injection Hfl' as Heq. apply app_inv_head in Heq as <-.
    etrans; [apply same_bind; [apply exec_app|by intros]|]. rewrite bind_bind.
    apply same_bind; [done|]. intros [|]; [done|].
    etrans; [apply same_bind; [exact Hex|by intros]|]. by rewrite bind_bind.
Qed.

Lemma room_core env0 c acc : core env0 c acc ->
  exists c', make_room conf c = Ok c' /\ core env0 c' acc /\ (length (events c') < 16)%nat
    /\ (events c' = events c \/ events c' = []) /\ same_side c c'.
Proof.
  intros Hc. unfold make_room. destruct (Z.eqb_spec (events_used c) N_EVENTS) as [Hfull|Hroom].
  - destruct (flush_core _ _ _ Hc) as (c' & -> & Hc' & He & Hs). cbn [obind]. unfold events_used.
    rewrite He. cbn. exists c'. split; [done|]. split; [done|]. rewrite He. cbn. split; [lia|]. auto.
  - pose proof (co_len _ _ _ Hc) as Hl. unfold events_used, N_EVENTS in *. cbn [obind].
    destruct (Z.leb_spec 0 (Z.of_nat (length (events c)))); [|lia].
    destruct (Z.ltb_spec (Z.of_nat (length (events c))) 16); [|lia]. cbn.
    exists c. split; [done|]. split; [done|]. split; [lia|]. split; [by left|done].
Qed.

Lemma push_core env0 c acc ev : core env0 c acc -> (length (events c) < 16)%nat -> event_ok conf ev ->
  (forall e, last (events c) = Some e -> follows e ev) -> core env0 (push_event c ev) (acc ++ [A_event ev]).
Proof.
  intros [Hq Hl Henv Hrun] Hlen Hev Hf. unfold push_event. split; cbn [set_field events sbOut].
  - by apply queue_ok_snoc.
  - rewrite length_app. cbn. lia.
  - done.
  - intros rho Hc. specialize (Hrun rho Hc). unfold pending_run in *. cbn [set_field events sbOut].
    etrans; [|symmetry; apply run_actions_app].
    etrans; [|apply same_bind; [exact Hrun|by intros]]. rewrite bind_bind. apply same_bind; [done|].
    intros [|]; [done|]. rewrite bind_bind. etrans; [apply same_bind; [apply for_each_app|by intros]|].
    rewrite bind_bind. apply same_bind; [done|]. intros _. cbn [for_each run_actions run_action].
    etrans; [apply bind_bind|]. etrans; [|symmetry; apply bind_bind]. apply same_bind; [done|].
    by intros [].
Qed.

(** *** Adding an event *)

Definition tracks (env0 : IRTypeEnv) (n : Z) (c : CgState) (acc : list action) : Prop :=
  core env0 c acc /\ tail_ok n c acc.

Lemma push_tracks env0 n c acc ev : core env0 c acc -> (length (events c) < 16)%nat -> event_ok conf ev ->
  (forall e, last (events c) = Some e -> follows e ev) -> inode ev = n ->
  tracks env0 n (push_event c ev) (acc ++ [A_event ev]).
Proof.
  intros Hc Hl Hev Hf Hn. split; [by apply push_core|].
  split; unfold push_event; cbn [set_field events]; rewrite !last_snoc; [done|].
  by intros e [= <-].
Qed.

Lemma append_tracks env0 n c acc ev : tracks env0 n c acc -> event_ok conf ev -> inode ev = n ->
  exists c', append_event conf c ev = Ok c' /\ tracks env0 n c' (acc ++ [A_event ev]) /\ same_side c c'.
Proof.
  intros [Hc [Hlast Hin]] Hev Hn. unfold append_event.
  destruct (room_core _ _ _ Hc) as (c' & -> & Hc' & Hl & He & Hs). cbn [obind].
  eexists. split; [done|]. split; [|exact Hs]. apply push_tracks; try done.
  intros e Hle _ _. destruct He as [He|He]; rewrite He in Hle; [|done]. rewrite Hn. symmetry. by apply Hin.
Qed.

Context (Hline : min_line_size conf < 2 ^ 64).

Lemma size_ok_word sz : size_ok conf sz = true -> word sz.
Proof. unfold size_ok, word. intros H. zbool. lia. Qed.

Lemma read_tracks env0 n c acc ea sz : tracks env0 n c acc -> word n ->
  isIRAtom ea = true -> size_ok conf sz = true ->
  exists c', addEvent_Dr conf c n sz ea = Ok c'
    /\ tracks env0 n c' (foldl add_action acc (read_actions conf n ea sz)) /\ same_side c c'.
Proof.
  intros Ht Hn Hea Hsz. unfold addEvent_Dr, read_actions. rewrite Hea, Hsz. cbn [assert_that obind].
  destruct (clo_cache_sim conf) eqn:Hcs; cbn [negb]; [|by exists c].
  cbn [foldl]. assert (Hadd : add_action acc (A_event (mk_Event (Ev_Dr ea sz) n))
    = acc ++ [A_event (mk_Event (Ev_Dr ea sz) n)]).
  { unfold add_action, modifies. destruct (last acc) as [[[[] ?]| | | |]|]; done. }
  rewrite Hadd. apply append_tracks; [done| |done]. split; [done|]. split; [by apply size_ok_word|done].
Qed.

(** A read at the end of the queue and of the actions becomes a modify. *)
Lemma modify_tracks env0 n c acc q ea sz : tracks env0 n c (acc ++ [A_event (mk_Event (Ev_Dr ea sz) n)]) ->
  events c = q ++ [mk_Event (Ev_Dr ea sz) n] ->
  tracks env0 n (c <| events := q ++ [mk_Event (Ev_Dm ea sz) n] |>) (acc ++ [A_event (mk_Event (Ev_Dm ea sz) n)]).
Proof.
  intros [[Hq Hl Henv Hrun] _] Hev. split; [split|split]; cbn [set_field events sbOut].
  - rewrite Hev in Hq. clear -Hq. induction q as [|e q IH]; [exact Hq|]. destruct Hq as (He & Hf & Hq).
    split; [done|]. split; [|by apply IH]. destruct q as [|e2 q]; [|done]. exact Hf.
  - rewrite Hev, !length_app in *. cbn in *. lia.
  - done.
  - intros rho Hc. specialize (Hrun rho Hc). unfold pending_run in *. cbn [set_field events sbOut].
    rewrite Hev in Hrun. etrans; [etrans; [|exact Hrun]|].
    + apply same_bind; [done|]. intros [|]; [done|]. apply same_bind; [|done].
      etrans; [apply for_each_app|]. etrans; [|symmetry; apply for_each_app]. done.
    + etrans; [apply run_actions_app|]. etrans; [|symmetry; apply run_actions_app]. done.
  - by rewrite !last_snoc.
  - rewrite last_snoc. by intros e [= <-].
Qed.

Lemma write_tracks env0 n c acc ea sz : tracks env0 n c acc -> word n ->
  isIRAtom ea = true -> size_ok conf sz = true ->
  exists c', addEvent_Dw conf c n sz ea = Ok c'
    /\ tracks env0 n c' (foldl add_action acc (write_actions conf n ea sz)) /\ same_side c c'.
Proof.
  intros Ht Hn Hea Hsz. unfold addEvent_Dw, write_actions. rewrite Hea, Hsz. cbn [assert_that obind].
  destruct (clo_cache_sim conf) eqn:Hcs; cbn [negb]; [|by exists c]. cbn [foldl].
  set (ev := mk_Event (Ev_Dw ea sz) n).
  assert (Hev : event_ok conf ev) by (split; [done|]; split; [by apply size_ok_word|done]).
  assert (Happ : modifies acc (A_event ev) = None ->
    exists c', append_event conf c ev = Ok c' /\ tracks env0 n c' (add_action acc (A_event ev)) /\ same_side c c').
  { intros Hno. unfold add_action. rewrite Hno. by apply append_tracks. }
  pose proof Ht as [[Hq _ _ _] [Hlast Hin]].
  destruct (last (events c)) as [[t m]|] eqn:Hle.
  2: { cbn [obind]. apply Happ. unfold modifies. destruct (last acc) as [[]|]; done. }
  assert (Hmod : forall ea' sz', t = Ev_Dr ea' sz' -> isIRAtom ea' = true /\ m = n /\
    exists acc', acc = acc' ++ [A_event (mk_Event (Ev_Dr ea' sz') n)]).
  { intros ea' sz' ->. specialize (Hin _ eq_refl). cbn in Hin. subst m.
    apply last_Some in Hle as (q & Hq'). split_and!; [|done|].
    - rewrite Hq' in Hq. apply queue_ok_app in Hq. by destruct Hq as ((_ & _ & _ & ?) & _).
    - destruct (last acc) as [[e| | | |]|] eqn:Hla; try (rewrite Hq' in Hlast; by destruct q).
      injection Hlast as <-. by apply last_Some in Hla. }
  assert (Hother : match t with Ev_Dr _ _ => False | _ => True end ->
    modifies acc (A_event ev) = None).
  { intros Hnr. unfold modifies. destruct (last acc) as [[[t' n']| | | |]|]; try done.
    injection Hlast as -> ->. by destruct t'. }
  unfold same_read. cbn [tag inode]. destruct t as [| |ea' sz'|ea' sz'|ea' sz'|tk|dst];
    try (cbn [obind]; apply Happ, Hother; exact I).
  destruct (Hmod _ _ eq_refl) as (Hat & -> & acc' & ->). rewrite Z.eqb_refl, andb_true_r.
  assert (Hmods : modifies (acc' ++ [A_event (mk_Event (Ev_Dr ea' sz') n)]) (A_event ev)
    = if (sz' =? sz) && atoms_equal ea' ea then Some (acc' ++ [A_event (mk_Event (Ev_Dm ea' sz') n)]) else None).
  { unfold modifies. rewrite last_snoc. unfold ev. rewrite Z.eqb_refl, andb_true_r.
    by rewrite removelast_last. }
  assert (Heq : eqIRAtom ea' ea = Ok (atoms_equal ea' ea)).
  { unfold atoms_equal, eqIRAtom. rewrite Hat, Hea. cbn [assert_that obind]. by destruct ea', ea. }
  destruct (sz' =? sz) eqn:Hszz; cbn [andb] in Hmods; [rewrite Heq|]; cbn [obind]; [|by apply Happ].
  destruct (atoms_equal ea' ea); [|by apply Happ].
  apply last_Some in Hle as (q & Hq'). eexists. split; [reflexivity|]. split; [|done].
  unfold add_action. rewrite Hmods, Hq', removelast_last. by apply modify_tracks.
Qed.

(** *** Emitting code *)

Lemma emit_core env0 c acc sts acts : core env0 c acc -> events c = [] ->
  (forall rho, consistent rho (stmts (sbOut c) ++ sts) -> exec conf rho sts ≈ run_actions conf rho acts) ->
  core env0 (c <| sbOut := (sbOut c) <| stmts := stmts (sbOut c) ++ sts |> |>) (acc ++ acts).
Proof.
  intros [Hq Hl Henv Hrun] He Hex. split; cbn [set_field events sbOut stmts tyenv]; try done.
  intros rho Hc. specialize (Hrun rho (consistent_app _ _ _ Hc)). unfold pending_run in *.
  cbn [set_field events sbOut stmts]. rewrite He in *. cbn [for_each] in *.
  etrans; [|symmetry; apply run_actions_app].
  etrans; [|apply same_bind; [exact Hrun|by intros]]. rewrite bind_bind.
  etrans; [apply same_bind; [apply exec_app|by intros]|]. rewrite bind_bind.
  apply same_bind; [done|]. intros [|]; [done|].
  etrans; [|symmetry; apply bind_bind]. etrans; [|symmetry; apply ret_bind].
  etrans; [apply same_bind; [by apply Hex|by intros]|]. cbn.
  intros s. unfold mbind, SE_bind, mret, SE_ret.
  by destruct (run_actions conf rho acts s) as [[[] s']|].
Qed.

(** Code that does nothing to the tool. *)
Definition plain (sts : list IRStmt) : Prop := forall rho, exec conf rho sts ≈ mret false.

Lemma plain_core env0 c acc sts env : core env0 c acc -> plain sts ->
  core env0 (c <| sbOut := (sbOut c) <| stmts := stmts (sbOut c) ++ sts |>
                                     <| tyenv := tyenv (sbOut c) ++ env |> |>) acc.
Proof.
  intros [Hq Hl (l & Henv) Hrun] Hp. split; cbn [set_field events sbOut stmts tyenv]; try done.
  - exists (l ++ env). by rewrite Henv, app_assoc.
  - intros rho Hc. rewrite <-(Hrun rho (consistent_app _ _ _ Hc)). unfold pending_run.
    cbn [set_field events sbOut stmts]. etrans; [apply same_bind; [apply exec_app|by intros]|].
    rewrite bind_bind. apply same_bind; [done|]. intros [|]; [done|].
    etrans; [apply same_bind; [apply Hp|by intros]|]. done.
Qed.

(** Actions that do the same in the runs of the code so far. *)
Lemma core_replace env0 c acc a a' : core env0 c (acc ++ [a]) ->
  (forall rho, consistent rho (stmts (sbOut c)) -> run_action conf rho a ≈ run_action conf rho a') ->
  core env0 c (acc ++ [a']).
Proof.
  intros [Hq Hl Henv Hrun] Ha. split; try done. intros rho Hc.
  etrans; [by apply Hrun|]. etrans; [apply run_actions_app|]. etrans; [|symmetry; apply run_actions_app].
  apply same_bind; [done|]. intros [|]; [done|]. cbn [run_actions]. apply same_bind; [by apply Ha|done].
Qed.

Lemma guarded_tracks env0 n c acc ea sz g isWrite : tracks env0 n c acc -> word n ->
  isIRAtom ea = true -> isIRAtom g = true -> size_ok conf sz = true ->
  exists c', addEvent_D_guarded conf c n sz ea g isWrite = Ok c'
    /\ tracks env0 n c' (acc ++ guarded_actions conf n ea sz g isWrite) /\ same_side c c'.
Proof.
  intros [Hc Ht] Hn Hea Hg Hsz. unfold addEvent_D_guarded, guarded_actions.
  rewrite Hea, Hg, Hsz. cbn [assert_that obind].
  destruct (clo_cache_sim conf) eqn:Hcs; cbn [negb]; [|exists c; rewrite app_nil_r; done].
  destruct (flush_core _ _ _ Hc) as (c' & -> & Hc' & He & Hs). cbn [obind]. unfold events_used.
  rewrite He. cbn [length Z.of_nat Z.eqb assert_that obind]. unfold unsafeIRDirty_0_N, mkIRCallee.
  cbn [Z.leb Z.compare andb assert_that obind Pos.compare Pos.compare_cont]. eexists. split; [reflexivity|].
  split; [split|].
  - apply emit_core; [done|done|]. intros rho _. cbn [exec run_actions]. apply same_bind; [|done].
    rewrite (exec_call conf rho _ (do_event conf rho (mk_Event (if isWrite then Ev_Dw ea sz else Ev_Dr ea sz) n))).
    + done.
    + cbn [addr cee args map]. rewrite !HWord_value by (done || by apply size_ok_word). by destruct isWrite.
  - split; cbn [set_field events]; rewrite He; [|done]. by rewrite last_snoc.
  - etrans; [exact Hs|]. split_and!; try done. cbn. by apply prefix_app_r.
Qed.

(** *** Branches and exits *)

Lemma land_1_bit x : Z.land 1 x = 0 \/ Z.land 1 x = 1.
Proof.
  rewrite Z.land_comm. pose proof (Z.land_ones x 1 ltac:(lia)) as H. change (Z.ones 1) with 1 in H.
  rewrite H. change (2 ^ 1) with 2. pose proof (Z.mod_pos_bound x 2). lia.
Qed.

(** The three temporaries compute the direction of the branch. *)
Lemma guard_value rho sts t g (inverted : bool) : isIRAtom g = true ->
  consistent rho (sts ++ [Ist_WrTmp t g; Ist_WrTmp (t + 1) (Iex_Unop Iop_1Uto64 (Iex_RdTmp t));
    Ist_WrTmp (t + 2) (if inverted then Iex_Binop Iop_Xor64 (Iex_RdTmp (t + 1)) (Iex_Const (Ico_U64 1))
                       else Iex_RdTmp (t + 1))]) ->
  rho (t + 2) = branch_taken rho g inverted.
Proof.
  intros Hg Hc.
  assert (H1 : rho t = value rho g).
  { eapply Hc; [apply elem_of_app; right; left|]. by destruct g. }
  assert (H2 : rho (t + 1) = Z.land 1 (rho t)).
  { eapply Hc; [apply elem_of_app; right; right; left|]. reflexivity. }
  unfold branch_taken. rewrite <-H1, <-H2. destruct inverted.
  - erewrite (Hc (t + 2)); [|apply elem_of_app; right; right; right; left|reflexivity].
    cbn [value const_value]. rewrite H2. by destruct (land_1_bit (rho t)) as [-> | ->].
  - erewrite (Hc (t + 2)); [|apply elem_of_app; right; right; right; left|reflexivity]. done.
Qed.

Lemma branch_core env0 w c acc g dst : core env0 c acc -> tail_ok (curr_inode w) c acc ->
  word (curr_inode w) -> isIRAtom g = true -> cgs w = c ->
  match dst with Ico_U64 _ => True | _ => False end ->
  exists c', instrument_branch conf Ity_I64 w g dst = Ok c' /\
    core env0 c' (acc ++ (if clo_branch_sim conf then
      [A_branch (curr_inode w) g (u64 (cia w + isize w) =? const_address dst)] else []))
    /\ sbInfo c' = sbInfo c /\ sbInfo_i c' = sbInfo_i c.
Proof.
  intros Hc Ht Hn Hg Hw Hdst. unfold instrument_branch. rewrite Hw. cbn [bool_decide].
  change (bool_decide (Ity_I64 = Ity_I32)) with false.
  unfold newIRTemp. rewrite !length_app. cbn [length].
  assert (Hsea : exit_target Ity_I64 dst = Ok (const_address dst)) by (by destruct dst).
  rewrite Hsea. cbn [obind]. set (inv := u64 (cia w + isize w) =? const_address dst).
  set (t := Z.of_nat (length (tyenv (sbOut c)))).
  replace (Z.of_nat (length (tyenv (sbOut c)) + 1)) with (t + 1) by lia.
  replace (Z.of_nat (length (tyenv (sbOut c)) + 1 + 1)) with (t + 2) by lia.
  set (wr := [Ist_WrTmp t g; Ist_WrTmp (t + 1) (Iex_Unop Iop_1Uto64 (Iex_RdTmp t));
    Ist_WrTmp (t + 2) (if inv then Iex_Binop Iop_Xor64 (Iex_RdTmp (t + 1)) (Iex_Const (Ico_U64 1))
                       else Iex_RdTmp (t + 1))]).
  set (c1 := c <| sbOut := (sbOut c) <| stmts := stmts (sbOut c) ++ wr |>
                             <| tyenv := tyenv (sbOut c) ++ [Ity_I1; Ity_I64; Ity_I64] |> |>).
  assert (Hc1 : core env0 c1 acc) by (by apply plain_core).
  match goal with |- exists _, addEvent_Bc _ ?x _ _ = _ /\ _ => replace x with c1 end.
  2: { unfold c1, addStmtToIRSB, set_field. cbn. f_equal. f_equal; rewrite <-!app_assoc; done. }
  unfold addEvent_Bc. cbn [isIRAtom assert_that obind typeOfIRExpr].
  assert (Hty : typeOfIRTemp (tyenv (sbOut c1)) (t + 2) = Ok Ity_I64).
  { unfold typeOfIRTemp, c1. cbn [set_field sbOut tyenv]. rewrite length_app. cbn [length].
    destruct (Z.leb_spec 0 (t + 2)); [|lia]. destruct (Z.ltb_spec (t + 2) (Z.of_nat (length (tyenv (sbOut c)) + 3))); [|lia].
    cbn [assert_that obind]. unfold t. apply (rd_app (tyenv (sbOut c)) [Ity_I1; Ity_I64; Ity_I64] [] 2). done. }
  rewrite Hty. cbn [obind]. rewrite bool_decide_true by done. cbn [assert_that obind].
  destruct (clo_branch_sim conf) eqn:Hbs; cbn [negb]; [|exists c1; by rewrite app_nil_r].
  unfold append_event. destruct (room_core _ _ _ Hc1) as (c2 & -> & Hc2 & Hl2 & He2 & (Hs1 & Hs2 & Hs3 & (calls & Hs4))).
  cbn [obind]. eexists. split; [reflexivity|]. split; [|done].
  apply (core_replace env0 _ acc (A_event (mk_Event (Ev_Bc (Iex_RdTmp (t + 2))) (curr_inode w)))).
  - apply push_core; [done|done|by split|]. intros e Hle _ Hd. done.
  - intros rho Hcons. cbn [run_action do_event tag inode value]. apply same_bind; [|done].
    rewrite <-(guard_value rho (stmts (sbOut c)) t g inv Hg); [done|].
    cbn [push_event set_field sbOut] in Hcons. rewrite Hs4 in Hcons. by apply consistent_app in Hcons.
Qed.

Lemma exit_tracks env0 w acc g jk dst off : tracks env0 (curr_inode w) (cgs w) acc ->
  word (curr_inode w) -> isIRAtom g = true ->
  (is_branch jk = true -> match dst with Ico_U64 _ => True | _ => False end) ->
  exists c', (let* c := if bool_decide (jk = Ijk_Boring) || bool_decide (jk = Ijk_Call) || bool_decide (jk = Ijk_Ret)
                        then instrument_branch conf Ity_I64 w g dst else Ok (cgs w) in
              let* c := flushEvents conf c in Ok (with_cgs w c)) = Ok (with_cgs w c')
    /\ tracks env0 (curr_inode w) (c' <| sbOut := addStmtToIRSB (sbOut c') (Ist_Exit g jk dst off) |>)
         (acc ++ (if is_branch jk && clo_branch_sim conf
                  then [A_branch (curr_inode w) g (u64 (cia w + isize w) =? const_address dst)] else [])
              ++ [A_exit g])
    /\ sbInfo c' = sbInfo (cgs w) /\ sbInfo_i c' = sbInfo_i (cgs w).
Proof.
  intros [Hc Ht] Hn Hg Hdst. change (bool_decide (jk = Ijk_Boring) || _ || _) with (is_branch jk).
  assert (Hb : exists c1, (if is_branch jk then instrument_branch conf Ity_I64 w g dst else Ok (cgs w)) = Ok c1
    /\ core env0 c1 (acc ++ (if is_branch jk && clo_branch_sim conf
                  then [A_branch (curr_inode w) g (u64 (cia w + isize w) =? const_address dst)] else []))
    /\ sbInfo c1 = sbInfo (cgs w) /\ sbInfo_i c1 = sbInfo_i (cgs w)).
  { destruct (is_branch jk); [|exists (cgs w); by rewrite app_nil_r].
    by apply branch_core; try apply Hdst. }
  destruct Hb as (c1 & -> & Hc1 & Hi1 & Hi2). cbn [obind].
  destruct (flush_core _ _ _ Hc1) as (c2 & -> & Hc2 & He2 & (Hs1 & Hs2 & _)). cbn [obind].
  exists c2. split; [done|]. split; [|split; congruence]. rewrite app_assoc. split.
  - apply (emit_core env0 c2 _ [Ist_Exit g jk dst off] [A_exit g] Hc2 He2). intros rho _. done.
  - split; cbn [set_field events]; rewrite He2; [|done]. by rewrite last_snoc.
Qed.

(** *** Statements *)

Definition fits (ty : outcome IRType) : bool :=
  match (let* ty := ty in sizeofIRType ty) with Ok n => size_ok conf n | Err _ => false end.

(** What [cg_instrument] asserts of a statement, and that the client's helpers
    are not those of the tool. *)
Definition stmt_ok (tyenv : IRTypeEnv) (st : IRStmt) : bool :=
  match isFlatIRStmt st with Ok b => b | Err _ => false end &&
  match st with
  | Ist_IMark _ len _ =>
      let isize := mark_size conf len in
      let a := arch conf in
      ((VG_MIN_INSTR_SZB a <=? isize) && (isize <=? VG_MAX_INSTR_SZB a)) || (VG_CLREQ_SZB a =? isize)
  | Ist_WrTmp _ (Iex_Load _ ty _) => fits (Ok ty)
  | Ist_Store _ _ data | Ist_StoreG _ _ data _ => fits (typeOfIRExpr tyenv data)
  | Ist_LoadG _ cvt _ _ _ _ => fits (let* (_, ty) := typeOfIRLoadGOp cvt in Ok ty)
  | Ist_Dirty d =>
      negb (is_helper (addr (cee d))) &&
      match mFx d, mAddr d with
      | Ifx_None, None => mSize d =? 0
      | Ifx_None, Some _ | _, None => false
      | _, Some _ => 1 <=? mSize d
      end
  | Ist_CAS cas => match (let* ty := typeOfIRExpr tyenv (dataLo cas) in sizeofIRType ty) with
                   | Ok _ => true | Err _ => false end
  | Ist_LLSC _ result _ None => fits (typeOfIRTemp tyenv result)
  | Ist_LLSC _ _ _ (Some data) => fits (typeOfIRExpr tyenv data)
  | Ist_Exit _ jk dst _ => negb (is_branch jk) || match dst with Ico_U64 _ => true | _ => false end
  | _ => true
  end.

Lemma fits_inv ty : fits ty = true ->
  exists t n, ty = Ok t /\ sizeofIRType t = Ok n /\ type_size ty = n /\ size_ok conf n = true.
Proof.
  unfold fits, type_size. destruct ty as [t|]; cbn [obind]; [|discriminate].
  destruct (sizeofIRType t) as [n|] eqn:Hn; [|discriminate]. intros Hs. by exists t, n.
Qed.

Lemma sizeof_pos t n : sizeofIRType t = Ok n -> 1 <= n /\ t <> Ity_INVALID.
Proof. destruct t; intros [= <-]; split; (lia || done). Qed.

Context (Hline1 : 1 <= min_line_size conf).

Lemma clip_ok sz : 1 <= sz -> size_ok conf (clip_size conf sz) = true.
Proof.
  intros Hsz. unfold size_ok, clip_size. destruct (Z.ltb_spec (min_line_size conf) sz);
    apply andb_true_iff; split; apply Z.leb_le; lia.
Qed.

Lemma copy_tracks env0 n c acc st : tracks env0 n c acc -> plain [st] ->
  tracks env0 n (c <| sbOut := addStmtToIRSB (sbOut c) st |>) acc.
Proof.
  intros [Hc Ht] Hp. split; [|by destruct Ht].
  pose proof (plain_core env0 c acc [st] [] Hc Hp) as H. rewrite app_nil_r in H.
  replace (c <| sbOut := addStmtToIRSB (sbOut c) st |>) with
    (c <| sbOut := (sbOut c) <| stmts := stmts (sbOut c) ++ [st] |> <| tyenv := tyenv (sbOut c) |> |>); [done|].
  unfold set_field, addStmtToIRSB, set_field. cbn. by destruct (sbOut c).
Qed.

Lemma plain_stmt st : match st with
    | Ist_Exit _ _ _ _ => False | Ist_Dirty d => is_helper (addr (cee d)) = false | _ => True end -> plain [st].
Proof.
  intros Hst rho. cbn [exec]. assert (H : exec_stmt conf rho st = mret false); [|by rewrite H].
  destruct st; try done. cbn [exec_stmt]. by rewrite not_helper.
Qed.

Lemma add_plain acc a : match a with A_event _ => False | _ => True end -> add_action acc a = acc ++ [a].
Proof.
  intros H. unfold add_action, modifies. destruct a; [done|..]; by destruct (last acc) as [[[[] ?]| | | |]|].
Qed.


(** *** One step of the traversal, for other statements than [IMark] *)

Context (fl : Z -> option (string * string * Z)) (fnm : Z -> option string).

(** The walk is at the place. *)
Definition at_place (w : walk) (p : place) : Prop :=
  cia w = at_cia p /\ isize w = at_isize p /\ curr_inode w = at_inode p
  /\ next_inode p = instrs (sbInfo (cgs w)) + sbInfo_i (cgs w).

Definition copied (w : walk) (st : IRStmt) : walk :=
  with_cgs w ((cgs w) <| sbOut := addStmtToIRSB (sbOut (cgs w)) st |>).

(** [m] is code without state that ends in a walk with [c']. *)
Lemma lift_walk (m : outcome walk) w' (s : tool) : m = Ok w' -> lift m s = Ok (w', s).
Proof. by intros ->. Qed.

Definition step_ok (env0 : IRTypeEnv) (w : walk) (acc : list action) (st : IRStmt) (acts : list action)
    (m : SE tool walk) : Prop :=
  exists c', (forall s, m s = Ok (with_cgs w c', s))
    /\ tracks env0 (curr_inode w) (cgs (copied (with_cgs w c') st)) (foldl add_action acc acts)
    /\ sbInfo c' = sbInfo (cgs w) /\ sbInfo_i c' = sbInfo_i (cgs w).

(** A step that is one event of the queue and a copy. *)
Lemma step_intro env0 w acc st acts (f : outcome CgState) (m : SE tool walk) : plain [st] ->
  (exists c', f = Ok c' /\ tracks env0 (curr_inode w) c' (foldl add_action acc acts) /\ same_side (cgs w) c') ->
  (forall s, m s = lift (let* c := f in Ok (with_cgs w c)) s) ->
  step_ok env0 w acc st acts m.
Proof.
  intros Hp (c' & Hf & Ht & (Hs1 & Hs2 & _)) Hm. exists c'. split; [|split; [|done]].
  - intros s. rewrite Hm, Hf. done.
  - by apply copy_tracks.
Qed.

Lemma read_write_tracks env0 n c acc ea sz : tracks env0 n c acc -> word n ->
  isIRAtom ea = true -> size_ok conf sz = true ->
  exists c', (let* c := addEvent_Dr conf c n sz ea in addEvent_Dw conf c n sz ea) = Ok c'
    /\ tracks env0 n c' (foldl add_action acc (read_actions conf n ea sz ++ write_actions conf n ea sz))
    /\ same_side c c'.
Proof.
  intros Ht Hn Hea Hsz. destruct (read_tracks env0 n c acc ea sz) as (c1 & -> & Ht1 & Hs1); try done.
  destruct (write_tracks env0 n c1 _ ea sz Ht1) as (c2 & E2 & Ht2 & Hs2); try done.
  exists c2. split; [done|]. rewrite foldl_app. split; [done|]. by etrans.
Qed.

Lemma dirty_step (noX : Z -> Z -> bool) env0 w p acc d : tracks env0 (curr_inode w) (cgs w) acc -> word (curr_inode w) ->
  at_inode p = curr_inode w -> stmt_ok env0 (Ist_Dirty d) = true ->
  step_ok env0 w acc (Ist_Dirty d) (stmt_actions conf noX env0 p (Ist_Dirty d)) (lift (instrument_Dirty conf w d)).
Proof.
  intros Ht Hn Hp Hok. unfold stmt_ok in Hok. cbn [isFlatIRStmt] in Hok.
  apply andb_prop in Hok as [Hflat Hok]. apply andb_prop in Hok as [Hh Hok].
  apply negb_true_iff in Hh. apply andb_prop in Hflat as [_ Hma].
  assert (Hpl : plain [Ist_Dirty d]) by (by apply plain_stmt).
  unfold instrument_Dirty. cbn [stmt_actions]. rewrite Hp.
  destruct (mFx d), (mAddr d) as [ea|]; try done; cbn [atom_or_null] in Hma.
  - eapply (step_intro _ _ _ _ _ (Ok (cgs w))); [done|by exists (cgs w)|].
    intros s. rewrite Hok. by destruct w.
  - apply Z.leb_le in Hok. pose proof (clip_ok _ Hok) as Hsz.
    eapply (step_intro _ _ _ _ _ (addEvent_Dr conf (cgs w) (curr_inode w) (clip_size conf (mSize d)) ea));
      [done|by apply read_tracks|].
    intros s. destruct (Z.eqb_spec (mSize d) 0); [lia|]. reflexivity.
  - apply Z.leb_le in Hok. pose proof (clip_ok _ Hok) as Hsz.
    eapply (step_intro _ _ _ _ _ (addEvent_Dw conf (cgs w) (curr_inode w) (clip_size conf (mSize d)) ea));
      [done|by apply write_tracks|].
    intros s. destruct (Z.eqb_spec (mSize d) 0); [lia|]. reflexivity.
  - apply Z.leb_le in Hok. pose proof (clip_ok _ Hok) as Hsz.
    eapply (step_intro _ _ _ _ _ (let* c := addEvent_Dr conf (cgs w) (curr_inode w) (clip_size conf (mSize d)) ea in
      addEvent_Dw conf c (curr_inode w) (clip_size conf (mSize d)) ea)); [done|by apply read_write_tracks|].
    intros s. destruct (Z.eqb_spec (mSize d) 0); [lia|]. rewrite bind_assoc. reflexivity.
Qed.

Lemma idle_step env0 w acc st m : tracks env0 (curr_inode w) (cgs w) acc -> plain [st] ->
  (forall s, m s = Ok (w, s)) -> step_ok env0 w acc st [] m.
Proof.
  intros Ht Hp Hm. eapply (step_intro _ _ _ _ _ (Ok (cgs w))); [done| |].
  - exists (cgs w). split_and!; [done|done|reflexivity].
  - intros s. rewrite Hm. by destruct w.
Qed.

(** Sizes known, the rest of a step is adding the event. *)
Lemma sized_step env0 w acc st acts ty sz (f : Z -> outcome CgState) m : plain [st] ->
  fits ty = true -> type_size ty = sz ->
  (size_ok conf sz = true ->
   exists c', f sz = Ok c' /\ tracks env0 (curr_inode w) c' (foldl add_action acc acts) /\ same_side (cgs w) c') ->
  (forall t s, ty = Ok t -> sizeofIRType t = Ok sz -> m s = lift (let* c := f sz in Ok (with_cgs w c)) s) ->
  step_ok env0 w acc st acts m.
Proof.
  intros Hp Hfit Hsz Hf Hm. destruct (fits_inv ty Hfit) as (t & n & Ht & Hn & <- & Hok). subst sz.
  eapply (step_intro _ _ _ _ _ (f (type_size ty))); [done|by apply Hf|]. intros s. by apply (Hm t).
Qed.

Lemma guarded_add acc ea sz n g b : foldl add_action acc (guarded_actions conf n ea sz g b)
  = acc ++ guarded_actions conf n ea sz g b.
Proof. unfold guarded_actions. destruct (clo_cache_sim conf); cbn [foldl]; [by apply add_plain|by rewrite app_nil_r]. Qed.

Lemma stmt_step (noX : Z -> Z -> bool) env0 w p acc st : tracks env0 (curr_inode w) (cgs w) acc -> word (curr_inode w) ->
  at_place w p -> stmt_ok env0 st = true -> is_IMark st = false ->
  step_ok env0 w acc st (stmt_actions conf noX env0 p st) (instrument_stmt conf fl fnm env0 Ity_I64 w st).
Proof.
  intros Ht Hn (Hcia & Hisz & Hino & _) Hok Him.
  destruct st as [|a len dl|b len nia|off d|ds ix bias d|t d|e a d|e cvt dst a alt g|e a d g|cas|e res a sd|d|ev|g jk dst off];
    try discriminate Him; try (apply idle_step; [done|by apply plain_stmt|by intros]).
  - destruct d as [| | | | | | | |e ty ea| | | | |];
      try (apply idle_step; [done|by apply plain_stmt|by intros]).
    unfold stmt_ok in Hok. cbn [isFlatIRStmt] in Hok. apply andb_prop in Hok as [Hea Hfit].
    cbn [stmt_actions]. rewrite <-Hino.
    eapply (sized_step _ _ _ _ _ (Ok ty) _ (fun sz => addEvent_Dr conf (cgs w) (curr_inode w) sz ea));
      [by apply plain_stmt|done|done|by apply read_tracks|].
    intros t' s [= <-] Hsz. cbn [instrument_stmt]. by rewrite Hsz.
  - unfold stmt_ok in Hok. cbn [isFlatIRStmt] in Hok. apply andb_prop in Hok as [Hea Hfit].
    apply andb_prop in Hea as [Hea _]. cbn [stmt_actions]. rewrite <-Hino.
    eapply (sized_step _ _ _ _ _ (typeOfIRExpr env0 d) _ (fun sz => addEvent_Dw conf (cgs w) (curr_inode w) sz a));
      [by apply plain_stmt|done|done|by apply write_tracks|].
    intros t' s Hty Hsz. cbn [instrument_stmt]. rewrite Hty in Hsz |- *. cbn [obind]. by rewrite Hsz.
  - unfold stmt_ok in Hok. cbn [isFlatIRStmt] in Hok. apply andb_prop in Hok as [Hea Hfit].
    apply andb_prop in Hea as [Hea Hg]. apply andb_prop in Hea as [Hea _]. cbn [stmt_actions]. rewrite <-Hino.
    eapply (sized_step _ _ _ _ _ _ _ (fun sz => addEvent_D_guarded conf (cgs w) (curr_inode w) sz a g false));
      [by apply plain_stmt|exact Hfit|done|intros; rewrite guarded_add; by apply guarded_tracks|].
    intros t' s Hty Hsz. cbn [instrument_stmt]. destruct (typeOfIRLoadGOp cvt) as [[t1 t2]|]; [|discriminate Hty].
    injection Hty as <-. cbn [obind]. rewrite bool_decide_false by (by eapply sizeof_pos). cbn [negb assert_that obind].
    by rewrite Hsz.
  - unfold stmt_ok in Hok. cbn [isFlatIRStmt] in Hok. apply andb_prop in Hok as [Hea Hfit].
    apply andb_prop in Hea as [Hea Hg]. apply andb_prop in Hea as [Hea _]. cbn [stmt_actions]. rewrite <-Hino.
    eapply (sized_step _ _ _ _ _ _ _ (fun sz => addEvent_D_guarded conf (cgs w) (curr_inode w) sz a g true));
      [by apply plain_stmt|exact Hfit|done|intros; rewrite guarded_add; by apply guarded_tracks|].
    intros t' s Hty Hsz. cbn [instrument_stmt]. rewrite Hty in Hsz |- *. cbn [obind].
    rewrite bool_decide_false by (by eapply sizeof_pos). cbn [negb assert_that obind]. by rewrite Hsz.
  - unfold stmt_ok in Hok. cbn [isFlatIRStmt] in Hok. apply andb_prop in Hok as [Hea Hfit].
    assert (Hat : isIRAtom (cas_addr cas) = true) by (by repeat apply andb_prop in Hea as [Hea _]).
    cbn [stmt_actions]. rewrite <-Hino. unfold type_size.
    destruct (typeOfIRExpr env0 (dataLo cas)) as [ty|] eqn:Hty; [|done]. cbn [obind] in *.
    destruct (sizeofIRType ty) as [n|] eqn:Hsz; [|done]. pose proof (sizeof_pos _ _ Hsz) as [Hpos _].
    set (sz := clip_size conf _).
    assert (Hszok : size_ok conf sz = true) by (apply clip_ok; destruct (dataHi cas); lia).
    eapply (step_intro _ _ _ _ _ (let* c := addEvent_Dr conf (cgs w) (curr_inode w) sz (cas_addr cas) in
      addEvent_Dw conf c (curr_inode w) sz (cas_addr cas))); [by apply plain_stmt|by apply read_write_tracks|].
    intros s. cbn [instrument_stmt]. unfold instrument_CAS. rewrite Hty. cbn [obind]. rewrite Hsz. cbn [obind].
    rewrite bind_assoc. reflexivity.
  - unfold stmt_ok in Hok. cbn [isFlatIRStmt] in Hok. destruct sd as [d|];
      apply andb_prop in Hok as [Hea Hfit]; apply andb_prop in Hea as [Hea _]; cbn [stmt_actions]; rewrite <-Hino.
    + eapply (sized_step _ _ _ _ _ (typeOfIRExpr env0 d) _ (fun sz => addEvent_Dw conf (cgs w) (curr_inode w) sz a));
        [by apply plain_stmt|done|done|by apply write_tracks|].
      intros t' s Hty Hsz. cbn [instrument_stmt]. rewrite Hty in Hsz |- *. cbn [obind]. by rewrite Hsz.
    + eapply (sized_step _ _ _ _ _ (typeOfIRTemp env0 res) _
        (fun sz => let* c := addEvent_Dr conf (cgs w) (curr_inode w) sz a in flushEvents conf c));
        [by apply plain_stmt|done|done| |].
      * intros Hszok. destruct (read_tracks env0 (curr_inode w) (cgs w) acc a _ Ht Hn Hea Hszok)
          as (c1 & -> & [Hc1 _] & Hs1). cbn [obind].
        destruct (flush_core _ _ _ Hc1) as (c2 & -> & Hc2 & He2 & Hs2). exists c2. split; [done|].
        split; [|by etrans]. rewrite foldl_app. cbn [foldl]. rewrite add_plain by done. split.
        -- pose proof (emit_core env0 c2 _ [] [A_barrier] Hc2 He2) as Hem. rewrite app_nil_r in Hem.
           replace c2 with (c2 <| sbOut := (sbOut c2) <| stmts := stmts (sbOut c2) |> |>); [by apply Hem|].
           unfold set_field. by destruct c2 as [? ? ? []].
        -- split; rewrite He2; [by rewrite last_snoc|done].
      * intros t' s Hty Hsz. cbn [instrument_stmt]. rewrite Hty in Hsz |- *. cbn [obind]. rewrite Hsz. cbn [obind].
        by rewrite bind_assoc.
  - by apply dirty_step.
  - unfold stmt_ok in Hok. cbn [isFlatIRStmt] in Hok. apply andb_prop in Hok as [Hg Hdst].
    destruct (exit_tracks env0 w acc g jk dst off Ht Hn Hg) as (c' & Heq & Ht' & Hs).
    { intros Hbr. rewrite Hbr in Hdst. by destruct dst. }
    exists c'. split; [|split; [|done]].
    + intros s. cbn [instrument_stmt]. by apply lift_walk.
    + cbn [stmt_actions]. rewrite <-Hino, <-Hcia, <-Hisz. rewrite foldl_app. cbn [foldl].
      rewrite add_plain by done. unfold copied. cbn [with_cgs cgs]. rewrite app_assoc in Ht'.
      destruct (is_branch jk && clo_branch_sim conf); cbn [foldl]; [by rewrite add_plain|].
      by rewrite app_nil_r in Ht'.
Qed.

(** *** An instruction mark *)

(** The tables have room for the lookups of [k] instructions, and the caches
    are those of [c0]. *)
Record ready (c0 : sim) (k : Z) (s : tool) : Prop := {
  rd_wf : wf_tables s;
  rd_debug : debug_room k s;
  rd_Gen : 0 <= distinct_instrsGen s < 2 ^ 31 - k;
  rd_NoX : 0 <= distinct_instrsNoX s < 2 ^ 31 - k;
  rd_sim : exists m, cache_sim s = c0 <| line_counters := m |>
}.

(** An InstrInfo holds the address, the length and the line of an instruction. *)
Definition info_ok (s : tool) (n addr len : Z) : Prop :=
  exists cc, instr_infos s !! n = Some (mk_InstrInfo addr (u8 (mark_size conf len)) cc)
    /\ cc ∈ elements (root (CC_table s)) /\ cmp_CodeLoc (location fl fnm addr) (loc cc) = 0.

(** The tables grow, and InstrInfos other than [n] stay. *)
Definition grows (n : Z) (s s' : tool) : Prop :=
  (forall c, c ∈ elements (root (CC_table s)) -> c ∈ elements (root (CC_table s')))
  /\ (forall m, m <> n -> instr_infos s' !! m = instr_infos s !! m)
  /\ instrInfoTable s' = instrInfoTable s.

Definition noX_of (c : sim) (a size : Z) : bool :=
  (c_line_size_bits (I1 c) =? c_line_size_bits (LL c))
  && (Z.shiftr a (c_line_size_bits (I1 c)) =? Z.shiftr (u64 (a + u8 size - 1)) (c_line_size_bits (I1 c))).

Lemma is_IrNoX_ok c a size : 0 <= c_line_size_bits (I1 c) < 64 ->
  cachesim_is_IrNoX a size c = Ok (noX_of c a size, c).
Proof.
  intros Hb. unfold cachesim_is_IrNoX, noX_of, gets, mbind, SE_bind.
  destruct (c_line_size_bits (I1 c) =? c_line_size_bits (LL c)); cbn [negb andb]; [|done].
  unfold block_of, lift. destruct (Z.leb_spec 0 (c_line_size_bits (I1 c))); [|lia].
  destruct (Z.ltb_spec (c_line_size_bits (I1 c)) 64); [|lia]. done.
Qed.

(** [addEvent_Ir] for an InstrInfo that is there: only a counter changes. *)
Lemma ir_tracks c0 env0 n c acc m i s k : tracks env0 n c acc -> 1 <= k ->
  0 <= distinct_instrsGen s < 2 ^ 31 - k -> 0 <= distinct_instrsNoX s < 2 ^ 31 - k ->
  (exists lc, cache_sim s = c0 <| line_counters := lc |>) -> 0 <= c_line_size_bits (I1 c0) < 64 -> word m -> instr_infos s !! m = Some i ->
  exists c' s', addEvent_Ir conf c m s = Ok (c', s')
    /\ tracks env0 m c' (acc ++ [A_event (mk_Event
         (if noX_of c0 (instr_addr i) (instr_len i) then Ev_IrNoX else Ev_IrGen) m)])
    /\ same_side c c'
    /\ exists a b, s' = s <| distinct_instrsGen := a |> <| distinct_instrsNoX := b |>
         /\ 0 <= a < 2 ^ 31 - (k - 1) /\ 0 <= b < 2 ^ 31 - (k - 1).
Proof.
  intros [Hc _] Hk HG HN (lc & Hsim) Hbits Hm Hi. destruct (room_core _ _ _ Hc) as (c1 & Hroom & Hc1 & Hl & _ & Hs).
  assert (Hir : cachesim_is_IrNoX (instr_addr i) (instr_len i) (cache_sim s)
    = Ok (noX_of c0 (instr_addr i) (instr_len i), cache_sim s)) by (rewrite Hsim; by rewrite is_IrNoX_ok).
  assert (Hset : s <| cache_sim := cache_sim s |> = s) by (by destruct s).
  unfold addEvent_Ir, deref, in_sim, gets, lift, modify, mbind, SE_bind, mret, SE_ret.
  rewrite Hroom. cbn [obind]. rewrite Hi, Hir. cbn [obind]. rewrite Hset. cbn [id].
  destruct (noX_of c0 (instr_addr i) (instr_len i)); rewrite int_add_ok by lia; cbn [obind];
    (do 2 eexists; split; [reflexivity|]; split; [|split; [exact Hs|]]).
  - apply push_tracks; done.
  - exists (distinct_instrsGen s), (distinct_instrsNoX s + 1). split; [by destruct s|lia].
  - apply push_tracks; done.
  - exists (distinct_instrsGen s + 1), (distinct_instrsNoX s). split; [by destruct s|lia].
Qed.

Lemma mark_step c0 env0 w p acc addr len dl s k :
  tracks env0 (curr_inode w) (cgs w) acc -> at_place w p -> stmt_ok env0 (Ist_IMark addr len dl) = true ->
  ready c0 k s -> 1 <= k -> 0 <= c_line_size_bits (I1 c0) < 64 ->
  0 <= sbInfo_i (cgs w) < n_instrs (sbInfo (cgs w)) ->
  0 <= instrs (sbInfo (cgs w)) -> instrs (sbInfo (cgs w)) + n_instrs (sbInfo (cgs w)) <= 2 ^ 64 ->
  let st := Ist_IMark addr len dl in
  exists w' s', instrument_stmt conf fl fnm env0 Ity_I64 w st s = Ok (w', s')
    /\ tracks env0 (curr_inode w') (cgs (copied w' st))
         (foldl add_action acc (stmt_actions conf (noX_of c0) env0 p st))
    /\ word (curr_inode w') /\ at_place w' (after conf p st)
    /\ sbInfo (cgs w') = sbInfo (cgs w) /\ sbInfo_i (cgs w') = sbInfo_i (cgs w) + 1
    /\ ready c0 (k - 1) s' /\ info_ok s' (next_inode p) addr len /\ grows (next_inode p) s s'.
Proof.
  intros Ht (Hcia & Hisz & Hino & Hnext) Hok Hrd Hk Hbits Hi Hlo Hhi st.
  unfold stmt_ok in Hok. cbn [isFlatIRStmt andb] in Hok. set (sz := mark_size conf len) in *.
  destruct (get_lineCC_ok fl fnm addr s k (rd_wf _ _ _ Hrd) (rd_debug _ _ _ Hrd) Hk)
    as (cc & s1 & Hcc & [Hwf1 Hfr1 Hin1 Hloc1 Hold1 _ Hroom1]).
  set (m := instrs (sbInfo (cgs w)) + sbInfo_i (cgs w)) in *.
  set (info := mk_InstrInfo addr (u8 sz) cc).
  set (s2 := s1 <| instr_infos := <[m := info]> (instr_infos s1) |>).
  set (c1 := (cgs w) <| sbInfo_i := sbInfo_i (cgs w) + 1 |>).
  assert (Hsetup : setup_InstrInfo fl fnm (cgs w) addr sz s = Ok ((m, c1), s2)).
  { unfold setup_InstrInfo, lift, modify, mbind, SE_bind, mret, SE_ret.
    destruct (Z.leb_spec 0 (sbInfo_i (cgs w))); [|lia].
    destruct (Z.ltb_spec (sbInfo_i (cgs w)) (n_instrs (sbInfo (cgs w)))); [|lia].
    cbn [assert_that obind]. by rewrite Hcc. }
  assert (Ht1 : tracks env0 (curr_inode w) c1 acc) by (destruct Ht as [[] []]; split; split; done).
  destruct Hfr1 as [(lc1 & Hfsim) Hfbr Hfinf Hfins Hfpr HfG HfN Hfal].
  destruct (rd_sim _ _ _ Hrd) as (lc & Hsim).
  destruct (ir_tracks c0 env0 (curr_inode w) c1 acc m info s2 k Ht1 Hk) as (c2 & s3 & Hir & Ht2 & (Hs1 & Hs2 & _) & a & b & Es3 & Ha & Hb).
  { cbn. rewrite HfG. apply Hrd. }
  { cbn. rewrite HfN. apply Hrd. }
  { cbn. exists lc1. rewrite Hfsim, Hsim. done. }
  { done. }
  { unfold word, m. lia. }
  { cbn. by rewrite lookup_insert_eq. }
  exists (mk_walk addr sz m c2), s3. subst s3. split_and!.
  - cbn [instrument_stmt st]. unfold lift at 1, mbind at 1, SE_bind at 1. fold sz. rewrite Hok.
    cbn [assert_that obind]. unfold mbind at 1, SE_bind at 1. rewrite Hsetup.
    unfold mbind at 1, SE_bind at 1. by rewrite Hir.
  - cbn [stmt_actions foldl st]. fold sz. rewrite Hnext. fold m.
    replace (add_action acc _) with (acc ++ [A_event (mk_Event (if noX_of c0 addr (u8 sz) then Ev_IrNoX else Ev_IrGen) m)]).
    + apply copy_tracks; [exact Ht2|by apply plain_stmt].
    + unfold add_action, modifies. destruct (noX_of c0 addr (u8 sz)); by destruct (last acc) as [[[[] ?]| | | |]|].
  - unfold word, m. cbn [curr_inode]. lia.
  - split_and!; try done. cbn [after next_inode st cgs]. rewrite Hs1, Hs2, Hnext. cbn. lia.
  - cbn [cgs]. by rewrite Hs1.
  - cbn [cgs]. by rewrite Hs2.
  - split; cbn; try done; [by destruct Hwf1; split|]. exists lc1. by rewrite Hfsim, Hsim.
  - exists cc. cbn. rewrite Hnext. fold m. by rewrite lookup_insert_eq.
  - rewrite Hnext. fold m. split_and!; cbn; [done| |done]. intros n Hn.
    rewrite lookup_insert_ne by done. by rewrite Hfins.
Qed.

(** *** The traversal *)

Definition marks (sts : list IRStmt) : list (Z * Z) :=
  flat_map (fun st => match st with Ist_IMark addr len _ => [(addr, len)] | _ => [] end) sts.

(** From the InstrInfo [first] on, the table describes the instructions [l];
    before it nothing has changed. *)
Record described (first : Z) (l : list (Z * Z)) (s s' : tool) : Prop := {
  de_infos : forall (j : nat) addr len, l !! j = Some (addr, len) -> info_ok s' (first + Z.of_nat j) addr len;
  de_before : forall n, n < first -> instr_infos s' !! n = instr_infos s !! n;
  de_CC : forall c, c ∈ elements (root (CC_table s)) -> c ∈ elements (root (CC_table s'));
  de_table : instrInfoTable s' = instrInfoTable s
}.

Lemma described_nil n s : described n [] s s.
Proof. by split. Qed.

Lemma info_ok_mono s s' n addr len : info_ok s n addr len -> instr_infos s' !! n = instr_infos s !! n ->
  (forall c, c ∈ elements (root (CC_table s)) -> c ∈ elements (root (CC_table s'))) -> info_ok s' n addr len.
Proof. intros (cc & H1 & H2 & H3) Hn Hcc. exists cc. rewrite Hn. auto. Qed.

Lemma described_cons first addr len l s s1 s2 : info_ok s1 first addr len -> grows first s s1 ->
  described (first + 1) l s1 s2 -> described first ((addr, len) :: l) s s2.
Proof.
  intros Hinfo (Hcc & Hoth & Htab) [Hi Hb Hc Ht]. split.
  - intros [|j] a ln Hj; cbn in Hj.
    + injection Hj as <- <-. rewrite Z.add_0_r. eapply info_ok_mono; [exact Hinfo|apply Hb; lia|exact Hc].
    + replace (first + Z.of_nat (S j)) with (first + 1 + Z.of_nat j) by lia. by apply Hi.
  - intros n Hn. rewrite Hb by lia. apply Hoth. lia.
  - auto.
  - congruence.
Qed.

Lemma at_place_copied w p st c' : at_place w p -> sbInfo c' = sbInfo (cgs w) -> sbInfo_i c' = sbInfo_i (cgs w) ->
  at_place (copied (with_cgs w c') st) p.
Proof. intros (H1 & H2 & H3 & H4) E1 E2. split_and!; try done. cbn. by rewrite E1, E2. Qed.

Lemma traversal c0 env0 : 0 <= c_line_size_bits (I1 c0) < 64 -> forall sts w p acc s k,
  tracks env0 (curr_inode w) (cgs w) acc -> word (curr_inode w) -> at_place w p ->
  forallb (stmt_ok env0) sts = true -> ready c0 k s -> Z.of_nat (length (marks sts)) <= k ->
  0 <= sbInfo_i (cgs w) -> sbInfo_i (cgs w) + Z.of_nat (length (marks sts)) <= n_instrs (sbInfo (cgs w)) ->
  0 <= instrs (sbInfo (cgs w)) -> instrs (sbInfo (cgs w)) + n_instrs (sbInfo (cgs w)) <= 2 ^ 64 ->
  exists w' s', instrument_stmts conf fl fnm env0 Ity_I64 w sts s = Ok (w', s')
    /\ tracks env0 (curr_inode w') (cgs w')
         (foldl add_action acc (stmts_actions conf (noX_of c0) env0 p sts))
    /\ word (curr_inode w') /\ at_place w' (foldl (after conf) p sts)
    /\ sbInfo (cgs w') = sbInfo (cgs w)
    /\ sbInfo_i (cgs w') = sbInfo_i (cgs w) + Z.of_nat (length (marks sts))
    /\ ready c0 (k - Z.of_nat (length (marks sts))) s' /\ described (next_inode p) (marks sts) s s'.
Proof.
  intros Hbits sts. induction sts as [|st sts IH]; intros w p acc s k Ht Hw Hp Hok Hrd Hk H0 Hn Hlo Hhi.
  - exists w, s. cbn [instrument_stmts stmts_actions foldl marks flat_map length] in *.
    split_and!; try done; try apply described_nil; try (cbn; lia). cbn [Z.of_nat]. by rewrite Z.sub_0_r.
  - cbn [forallb] in Hok. apply andb_prop in Hok as [Hst Hok].
    assert (Hflat : isFlatIRStmt st = Ok true).
    { unfold stmt_ok in Hst. apply andb_prop in Hst as [Hf _]. destruct (isFlatIRStmt st); [by rewrite Hf|done]. }
    cbn [stmts_actions]. rewrite foldl_app. cbn [foldl].
    assert (Hgo : forall w1 s1, instrument_stmt conf fl fnm env0 Ity_I64 w st s = Ok (w1, s1) ->
      instrument_stmts conf fl fnm env0 Ity_I64 w (st :: sts) s
      = instrument_stmts conf fl fnm env0 Ity_I64 (copied w1 st) sts s1).
    { intros w1 s1 E. cbn [instrument_stmts]. unfold mbind, SE_bind, lift. rewrite Hflat.
      cbn [obind assert_that]. by rewrite E. }
    destruct (is_IMark st) eqn:Him.
    + destruct st as [|addr len dl| | | | | | | | | | | |]; try discriminate Him.
      cbn [marks flat_map app length] in *. fold (marks sts) in *.
      destruct (mark_step c0 env0 w p acc addr len dl s k) as (w1 & s1 & E1 & Ht1 & Hw1 & Hp1 & Hi1 & Hi2 & Hrd1 & Hinfo & Hgr);
        try done; try lia.
      rewrite (Hgo _ _ E1).
      destruct (IH (copied w1 (Ist_IMark addr len dl)) (after conf p (Ist_IMark addr len dl))
        (foldl add_action acc (stmt_actions conf (noX_of c0) env0 p (Ist_IMark addr len dl))) s1 (k - 1))
        as (w' & s' & E' & Ht' & Hw' & Hp' & Hj1 & Hj2 & Hrd' & Hde); cbn [copied with_cgs cgs curr_inode set_field sbInfo sbInfo_i] in *;
        try done; try (rewrite ?Hi1, ?Hi2; lia).
      exists w', s'. split_and!; try done.
      * congruence.
      * rewrite Hj2, Hi2. lia.
      * replace (k - Z.of_nat (S (length (marks sts)))) with (k - 1 - Z.of_nat (length (marks sts))) by lia. done.
      * by eapply described_cons.
    + assert (Hm : marks (st :: sts) = marks sts) by (by destruct st). rewrite Hm in *.
      assert (Haft : after conf p st = p) by (by destruct st). rewrite Haft.
      destruct (stmt_step (noX_of c0) env0 w p acc st Ht Hw Hp Hst Him) as (c1 & E1 & Ht1 & Hi1 & Hi2).
      rewrite (Hgo _ _ (E1 s)).
      destruct (IH (copied (with_cgs w c1) st) p
        (foldl add_action acc (stmt_actions conf (noX_of c0) env0 p st)) s k)
        as (w' & s' & E' & Ht' & Hw' & Hp' & Hj1 & Hj2 & Hrd' & Hde); try done;
        try (by apply at_place_copied); cbn [copied with_cgs cgs set_field sbInfo sbInfo_i] in *;
        rewrite ?Hi1, ?Hi2 in *; try lia.
      by exists w', s'.
Qed.

(** *** Superblocks *)

(** What [cg_instrument] expects of a block: an instruction, flat statements
    with known accesses of at most a line, and a flat jump at the end. *)
Definition block_ok (sb : IRSB) : bool :=
  let (pre, rest) := split_preamble (stmts sb) in
  forallb (fun st => match st with Ist_Dirty d => negb (is_helper (addr (cee d))) | _ => true end) pre
  && negb (bool_decide (rest = []))
  && forallb (stmt_ok (tyenv sb)) rest
  && (negb (bool_decide (jumpkind sb = Ijk_Boring) || bool_decide (jumpkind sb = Ijk_Call))
      || match IR.next sb with
         | Iex_Const _ => true
         | Iex_RdTmp t => bool_decide (typeOfIRTemp (tyenv sb) t = Ok Ity_I64)
         | _ => false
         end).

Definition block_marks (sb : IRSB) : list (Z * Z) := marks (split_preamble (stmts sb)).2.

Lemma split_preamble_ok sts : let (pre, rest) := split_preamble sts in
  sts = pre ++ rest /\ length (List.filter is_IMark sts) = length (marks rest)
  /\ match rest with st :: _ => is_IMark st = true | [] => True end.
Proof.
  assert (Hmarks : forall l, length (List.filter is_IMark l) = length (marks l)).
  { induction l as [|st l IH]; [done|]. cbn [List.filter marks flat_map]. fold (marks l).
    rewrite length_app, <-IH. by destruct st. }
  induction sts as [|st sts IH]; [done|]. cbn [split_preamble List.filter].
  destruct (is_IMark st) eqn:Him; [split_and!; [done| |done]|].
  - cbn [app]. rewrite <-Hmarks. cbn [List.filter]. by rewrite Him.
  - destruct (split_preamble sts) as [pre rest]. destruct IH as (-> & H2 & H3). split_and!; try done.
Qed.

Lemma preamble_copy pre sb : foldl addStmtToIRSB (deepCopyIRSBExceptStmts sb) pre = sb <| stmts := pre |>.
Proof.
  assert (H : forall l b, foldl addStmtToIRSB b l = b <| stmts := stmts b ++ l |>).
  { induction l as [|st l IH]; intros b; cbn [foldl].
    - unfold set_field. rewrite app_nil_r. by destruct b.
    - rewrite IH. unfold addStmtToIRSB, set_field. cbn. by rewrite <-app_assoc. }
  rewrite H. by unfold deepCopyIRSBExceptStmts, set_field.
Qed.

Lemma preamble_exec rho pre :
  forallb (fun st => match st with Ist_Dirty d => negb (is_helper (addr (cee d))) | _ => true end) pre = true ->
  exec conf rho pre ≈ run_actions conf rho (preamble_actions pre).
Proof.
  induction pre as [|st pre IH]; [done|]. cbn [forallb]. intros [Hst Hpre]%andb_prop. specialize (IH Hpre).
  assert (Hplain : (exists g jk dst off, st = Ist_Exit g jk dst off) \/
    (exec_stmt conf rho st = mret false /\ preamble_actions (st :: pre) = preamble_actions pre)).
  { destruct st; try (by right). { right. split; [|done]. cbn [exec_stmt]. rewrite not_helper; [done|]. by apply negb_true_iff. }
    left. by do 4 eexists. }
  destruct Hplain as [(g & jk & dst & off & ->) | [He ->]]; cbn [exec].
  - change (preamble_actions (Ist_Exit g jk dst off :: pre)) with (A_exit g :: preamble_actions pre).
    cbn [run_actions]. apply same_bind; [done|]. intros [|]; [done|exact IH].
  - by rewrite He.
Qed.

Lemma get_SB_info_ok sb a s : wf_tables s -> VG_OSetGen_Lookup (instrInfoTable s) a = None ->
  let n := Z.of_nat (length (List.filter is_IMark (stmts sb))) in
  exists t, get_SB_info sb a s = Ok (mk_SB_info a n (allocated s),
      s <| allocated := allocated s + n |> <| instrInfoTable := t |>)
    /\ wf_tables (s <| allocated := allocated s + n |> <| instrInfoTable := t |>)
    /\ VG_OSetGen_Lookup t a = Some (mk_SB_info a n (allocated s)).
Proof.
  intros Hwf Hnone n. set (sbi := mk_SB_info a n (allocated s)).
  pose proof (wf_infos s Hwf) as Hw. rewrite Lookup_ok in Hnone by done.
  destruct (Insert_ok (instrInfoTable s) sbi Hw Hnone) as (t & Hins & Hw' & Hel). exists t. split; [|split].
  - unfold get_SB_info, allocate, gets, modify, lift, mbind, SE_bind, mret, SE_ret.
    rewrite Lookup_ok, Hnone by done. rewrite bool_decide_true by done. cbn [assert_that obind].
    fold n sbi. by rewrite Hins.
  - destruct Hwf. split; cbn [set_field CC_table stringTable instrInfoTable allocated cache_sim]; try done.
    + eapply addressed_mono; [done|lia].
    + eapply addressed_mono; [done|lia].
    + lia.
  - rewrite Lookup_ok by done. rewrite Hel. exact (find_key_insert (K := Z) sbi _ Hnone).
Qed.

(** The event of the jump at the end. *)
Lemma end_tracks env0 sb w p acc : tracks env0 (curr_inode w) (cgs w) acc -> word (curr_inode w) ->
  at_place w p -> env0 = tyenv sb ->
  (bool_decide (jumpkind sb = Ijk_Boring) || bool_decide (jumpkind sb = Ijk_Call) = true ->
   match IR.next sb with Iex_Const _ => True | Iex_RdTmp t => typeOfIRTemp env0 t = Ok Ity_I64 | _ => False end) ->
  forall s : tool, exists c', (if bool_decide (jumpkind sb = Ijk_Boring) || bool_decide (jumpkind sb = Ijk_Call)
     then match IR.next sb with
          | Iex_Const _ => mret (cgs w)
          | Iex_RdTmp _ => lift (addEvent_Bi conf (cgs w) (curr_inode w) (IR.next sb))
          | _ => lift (Err AssertFail)
          end
     else mret (cgs w)) s = Ok (c', s)
   /\ tracks env0 (curr_inode w) c' (foldl add_action acc (end_actions conf p sb))
   /\ same_side (cgs w) c'.
Proof.
  intros Ht Hw (_ & _ & Hino & _) Henv Hnext s. unfold end_actions. rewrite <-Hino.
  destruct (bool_decide (jumpkind sb = Ijk_Boring) || bool_decide (jumpkind sb = Ijk_Call)) eqn:Hjk.
  2: { exists (cgs w). split_and!; [done| |reflexivity]. by destruct (IR.next sb). }
  specialize (Hnext eq_refl). destruct (IR.next sb) as [| | |t| | | | | |k| | | |]; try done.
  2: { exists (cgs w). split_and!; [done|done|reflexivity]. }
  unfold addEvent_Bi. cbn [isIRAtom assert_that obind typeOfIRExpr].
  assert (Hty : typeOfIRTemp (tyenv (sbOut (cgs w))) t = Ok Ity_I64).
  { destruct (co_env _ _ _ (proj1 Ht)) as (l & ->). unfold typeOfIRTemp in *.
    destruct (Z.leb_spec 0 t); [|done]. cbn [assert_that obind] in *.
    destruct (Z.ltb_spec t (Z.of_nat (length env0))); [|done].
    destruct (Z.ltb_spec t (Z.of_nat (length (env0 ++ l)))); [|rewrite length_app in *; lia].
    cbn [assert_that obind] in *. unfold rd in *. destruct (Z.leb_spec 0 t); [|lia].
    rewrite lookup_app_l by lia. done. }
  rewrite Hty. cbn [obind]. rewrite bool_decide_true by done. cbn [assert_that obind andb].
  destruct (clo_branch_sim conf) eqn:Hbs; cbn [negb].
  2: { exists (cgs w). split_and!; [done|done|reflexivity]. }
  destruct (append_tracks env0 (curr_inode w) (cgs w) acc (mk_Event (Ev_Bi (Iex_RdTmp t)) (curr_inode w)) Ht)
    as (c' & -> & Ht' & Hs); [by split|done|]. exists c'. split_and!; [done| |done].
  cbn [foldl]. replace (add_action acc _) with (acc ++ [A_event (mk_Event (Ev_Bi (Iex_RdTmp t)) (curr_inode w))]); [done|].
  unfold add_action, modifies. by destruct (last acc) as [[[[] ?]| | | |]|].
Qed.

End Tracking.

(** ** The theorems *)

Lemma groups_concat fuel evs : (length evs <= fuel)%nat -> concat (groups fuel evs) = evs.
Proof.
  revert evs. induction fuel as [|fuel IH]; intros [|ev evs] Hf; try done; cbn [length] in Hf; [lia|].
  cbn [groups concat]. assert (Hk : (1 <= front (ev :: evs))%nat) by (unfold front; repeat case_match; lia).
  rewrite IH by (rewrite length_drop; cbn [length]; lia). apply take_drop.
Qed.

Lemma groups_not_empty fuel evs : Forall (fun g => g <> []) (groups fuel evs).
Proof.
  revert evs. induction fuel as [|fuel IH]; intros [|ev evs]; cbn [groups]; constructor; [|apply IH].
  assert (Hk : (1 <= front (ev :: evs))%nat) by (unfold front; repeat case_match; lia).
  by destruct (front (ev :: evs)) as [|k]; [lia|].
Qed.

Lemma length_concat_groups (gs : list (list Event)) : Forall (fun g => g <> []) gs -> (length gs <= length (concat gs))%nat.
Proof.
  induction 1 as [|g gs Hg _ IH]; [done|]. cbn [concat length]. rewrite length_app. destruct g; [done|]. cbn [length]. lia.
Qed.

(** C5: flushing the event queue emits one helper call for each group of events,
    three IrNoX or two in a row, an IrNoX with its data access, or an event alone,
    so never more calls than events, and nothing else.  Each call does
    exactly what its events would do alone, and running all of them what one call per event in queue order would
    do: the counters, caches, predictors and output change in the same way. *)
Theorem flush_equivalent (conf : options) (cgs : CgState) (gs := groups (length (events cgs)) (events cgs)) :
  queue_ok conf (events cgs) ->
  exists calls,
    flushEvents conf cgs
      = Ok (cgs <| sbOut := (sbOut cgs) <| stmts := stmts (sbOut cgs) ++ calls |> |> <| events := [] |>)
    /\ concat gs = events cgs /\ length calls = length gs /\ (length calls <= length (events cgs))%nat
    /\ forall rho, Forall2 (serves conf rho) gs calls
         /\ exec conf rho calls ≈ (for_each (events cgs) (do_event conf rho);; mret false).
Proof.
  intros Hq. destruct (flushEvents_ok conf (fun _ => 0) cgs Hq) as (calls & Hfl & Hgs%Forall2_length & _).
  assert (Hc : concat gs = events cgs) by (by apply groups_concat).
  exists calls. split_and!; [done|done|done| |].
  - pose proof (length_concat_groups gs (groups_not_empty _ _)) as Hl. rewrite Hc in Hl. by rewrite <-Hgs.
  - intros rho. destruct (flushEvents_ok conf rho cgs Hq) as (calls' & Hfl' & Hgs' & Hex).
    rewrite Hfl in Hfl'. injection Hfl' as Heq. by apply app_inv_head in Heq as <-.
Qed.

(** C1: [cg_instrument] succeeds on every block whose statements are flat, with
    accesses that fit a line and instructions of a legal size, when the block
    is not in the InstrInfo table.  Any run of the instrumented code, with
    consistent values of the temporaries and whichever side exit it takes, has
    on the tool the effects of the block's own actions in order: each
    instruction, load, store, modify, guarded access and branch before the
    exit once, and nothing after it.  The InstrInfos hold the address, length
    and line node of the instructions, and the block is in the table. *)
Theorem cg_instrument_refines (conf : options) (fl : Z -> option (string * string * Z))
    (fnm : Z -> option string) (readdr : Z) (sb : IRSB) (s : tool) :
  1 <= min_line_size conf < 2 ^ 64 ->
  block_ok conf sb = true ->
  ready (cache_sim s) (Z.of_nat (length (block_marks sb))) s ->
  0 <= c_line_size_bits (I1 (cache_sim s)) < 64 ->
  allocated s + Z.of_nat (length (block_marks sb)) <= 2 ^ 64 ->
  VG_OSetGen_Lookup (instrInfoTable s) readdr = None ->
  exists out s',
    cg_instrument conf fl fnm readdr readdr sb Ity_I64 Ity_I64 s = Ok (out, s')
    /\ (forall rho, consistent rho (stmts out) ->
          exec conf rho (stmts out)
          ≈ run_actions conf rho (block_actions conf (noX_of (cache_sim s)) (allocated s) sb))
    /\ (forall (j : nat) a len, block_marks sb !! j = Some (a, len) ->
          info_ok conf fl fnm s' (allocated s + Z.of_nat j) a len)
    /\ VG_OSetGen_Lookup (instrInfoTable s') readdr
         = Some (mk_SB_info readdr (Z.of_nat (length (block_marks sb))) (allocated s))
    /\ wf_tables s'.
Proof.
  intros [Hline1 Hline] Hok Hrd Hbits Halloc Hnone.
  unfold block_ok, block_marks, block_actions, cg_instrument in *.
  rewrite bool_decide_true by done. cbn [negb].
  pose proof (split_preamble_ok (stmts sb)) as Hsp. destruct (split_preamble (stmts sb)) as [pre rest] eqn:Hpre.
  cbn [snd] in *. destruct Hsp as (Hsts & Hnm & Hhd).
  apply andb_prop in Hok as [Hok Hnext]. apply andb_prop in Hok as [Hok Hrest]. apply andb_prop in Hok as [Hp Hne].
  destruct rest as [|st rest]; [done|]. destruct st as [|a0 len0 dl0| | | | | | | | | | | |]; try discriminate Hhd.
  set (sts := Ist_IMark a0 len0 dl0 :: rest) in *.
  destruct (get_SB_info_ok sb readdr s (rd_wf _ _ _ Hrd) Hnone) as (t & Hget & Hwf1 & Htab). rewrite Hnm in *.
  set (n := Z.of_nat (length (marks sts))) in *.
  set (s1 := s <| allocated := allocated s + n |> <| instrInfoTable := t |>) in *.
  set (out := foldl addStmtToIRSB (deepCopyIRSBExceptStmts sb) pre).
  set (w0 := mk_walk a0 (mark_size conf len0) NULL (mk_CgState [] (mk_SB_info readdr n (allocated s)) 0 out)).
  set (p0 := mk_place a0 (mark_size conf len0) NULL (allocated s)).
  assert (Ht0 : tracks conf (tyenv sb) NULL (cgs w0) (preamble_actions pre)).
  { unfold w0, out. rewrite preamble_copy. split; [split|split]; cbn [cgs events sbOut set_field stmts tyenv].
    - done.
    - cbn. lia.
    - exists []. by rewrite app_nil_r.
    - intros rho _. unfold pending_run. cbn [cgs events sbOut set_field stmts for_each].
      etrans; [apply same_bind; [by apply preamble_exec|by intros]|].
      intros s0. unfold mbind, SE_bind, mret, SE_ret. by destruct (run_actions _ _ _ _) as [[[] ?]|].
    - destruct (last (preamble_actions pre)) as [[]|] eqn:Hla; try done. exfalso.
      assert (Hin : A_event ev ∈ preamble_actions pre) by (apply last_Some in Hla as (l & ->); apply elem_of_app; right; left).
      apply list_elem_of_In, in_flat_map in Hin as (x & _ & Hx). by destruct x; cbn in Hx; [..|destruct Hx as [Hx|[]]].
    - done. }
  assert (Hrd1 : ready (cache_sim s) n s1) by (destruct Hrd; split; done).
  assert (Hall : 0 < allocated s) by apply Hrd.
  destruct (traversal conf Hline Hline1 fl fnm (cache_sim s) (tyenv sb) Hbits sts w0 p0 (preamble_actions pre) s1 n)
    as (w' & s' & Hloop & Ht' & Hw' & Hp' & Hi1 & Hi2 & Hrd' & Hde);
    try done; cbn [w0 cgs sbInfo_i sbInfo n_instrs instrs]; try lia.
  { split_and!; try done. cbn. lia. }
  assert (Hn' : match IR.next sb with Iex_Const _ => True | Iex_RdTmp t => typeOfIRTemp (tyenv sb) t = Ok Ity_I64
    | _ => False end \/ bool_decide (jumpkind sb = Ijk_Boring) || bool_decide (jumpkind sb = Ijk_Call) = false).
  { apply orb_prop in Hnext as [Hj|Hnx]; [right; by apply negb_true_iff|left].
    destruct (IR.next sb); try done. by apply bool_decide_eq_true in Hnx. }
  destruct (end_tracks conf (tyenv sb) sb w' _ _ Ht' Hw' Hp' eq_refl) with (s := s')
    as (c1 & Hend & [Hc1 _] & (He1 & He2 & _)).
  { intros Hj. destruct Hn' as [|Hj']; [done|congruence]. }
  destruct (flush_core conf _ _ _ Hc1) as (c2 & Hfl & Hc2 & Hev2 & (Hf1 & Hf2 & _)).
  exists (sbOut c2), s'. split; [|split; [|split; [|split]]].
  - unfold mbind, SE_bind, lift at 1.
    assert (Hpos : (0 <? Z.of_nat (length (stmts sb))) = true).
    { rewrite Hsts, length_app. unfold sts. cbn [length]. apply Z.ltb_lt. lia. }
    rewrite Hpos. cbn [assert_that obind]. unfold lift at 1. rewrite Z.eqb_refl. cbn [assert_that obind].
    rewrite Hget. fold w0. fold sts. rewrite Hloop. rewrite Hend. unfold lift. rewrite Hfl. cbn [obind].
    rewrite Hf1, Hf2, He1, He2, Hi1, Hi2. cbn [w0 cgs sbInfo sbInfo_i n_instrs]. fold n.
    replace (0 + n =? n) with true by (symmetry; apply Z.eqb_eq; lia). done.
  - intros rho Hcons. destruct Hc2 as [_ _ _ Hrun]. specialize (Hrun rho Hcons). unfold pending_run in Hrun.
    rewrite Hev2 in Hrun. cbn [for_each] in Hrun.
    cbn [start_place sts]. fold sts. fold p0. rewrite foldl_app. etrans; [|exact Hrun].
    intros s0. unfold mbind, SE_bind, mret, SE_ret. by destruct (exec _ _ _ _) as [[[] ?]|].
  - intros j a len Hj. by apply (de_infos _ _ _ _ _ _ _ Hde).
  - rewrite (de_table _ _ _ _ _ _ _ Hde). done.
  - apply Hrd'.
Qed.

(** *** Examples *)

Definition demo_conf : options := mk_options true true EmptyString 16 VGA_amd64.

(** [x += 1], then a conditional jump, then a jump to a known address. *)
Definition demo_block : IRSB :=
  mk_IRSB [Ity_I64; Ity_I64; Ity_I1]
    [Ist_AbiHint (Iex_RdTmp 0) 128 (Iex_RdTmp 0);
     Ist_IMark 64 4 0;
     Ist_WrTmp 0 (Iex_Load Iend_LE Ity_I64 (Iex_Const (Ico_U64 4096)));
     Ist_WrTmp 1 (Iex_Binop 0x1408 (Iex_RdTmp 0) (Iex_Const (Ico_U64 1)));
     Ist_Store Iend_LE (Iex_Const (Ico_U64 4096)) (Iex_RdTmp 1);
     Ist_IMark 68 2 0;
     Ist_Exit (Iex_RdTmp 2) Ijk_Boring (Ico_U64 64) 184]
    (Iex_Const (Ico_U64 70)) Ijk_Boring 184.

Definition demo_queue : CgState :=
  mk_CgState [mk_Event Ev_IrNoX 1; mk_Event Ev_IrNoX 2; mk_Event Ev_IrNoX 3; mk_Event Ev_IrNoX 4;
              mk_Event (Ev_Dw (Iex_Const (Ico_U64 4096)) 8) 4]
    (mk_SB_info 64 4 1) 4 (mk_IRSB [] [] (Iex_Const (Ico_U64 70)) Ijk_Boring 184).

Lemma flush_equivalent_witness :
  exists calls,
    flushEvents demo_conf demo_queue
      = Ok (demo_queue <| sbOut := (sbOut demo_queue) <| stmts := stmts (sbOut demo_queue) ++ calls |> |> <| events := [] |>)
    /\ concat (groups 5 (events demo_queue)) = events demo_queue
    /\ length calls = length (groups 5 (events demo_queue)) /\ (length calls <= length (events demo_queue))%nat
    /\ forall rho, Forall2 (serves demo_conf rho) (groups 5 (events demo_queue)) calls /\ exec demo_conf rho calls ≈ (for_each (events demo_queue) (do_event demo_conf rho);; mret false).
Proof.
  apply (flush_equivalent demo_conf demo_queue).
  cbn. unfold event_ok, word, follows. cbn. intuition (lia || done).
Defined.

(** The queue above takes two calls. *)
Example demo_calls :
  match flushEvents demo_conf demo_queue with
  | Ok c => map (fun st => match st with Ist_Dirty d => name (cee d) | _ => EmptyString end) (stmts (sbOut c))
  | Err _ => []
  end = ["log_3IrNoX_0D_cache_access"; "log_1IrNoX_1Dw_cache_access"]%string.
Proof. reflexivity. Qed.

(** What the block above stands for: the write is part of a modify. *)
Example demo_actions :
  block_actions demo_conf (fun _ _ => true) 1 demo_block
  = [A_event (mk_Event Ev_IrNoX 1); A_event (mk_Event (Ev_Dm (Iex_Const (Ico_U64 4096)) 8) 1);
     A_event (mk_Event Ev_IrNoX 2); A_branch 2 (Iex_RdTmp 2) false; A_exit (Iex_RdTmp 2)].
Proof. reflexivity. Qed.

Lemma demo_ready : ready (tiny_sim lru_globals) 2 (tool_init (tiny_sim lru_globals)).
Proof.
  split.
  - apply tool_init_wf.
  - unfold debug_room. cbn [tool_init full_debugs file_line_debugs fn_debugs no_debugs]. lia.
  - cbn [tool_init distinct_instrsGen]. lia.
  - cbn [tool_init distinct_instrsNoX]. lia.
  - exists (line_counters (tiny_sim lru_globals)). cbn [tool_init cache_sim]. by destruct (tiny_sim lru_globals).
Qed.

Lemma cg_instrument_refines_witness (s := tool_init (tiny_sim lru_globals)) :
  exists out s',
    cg_instrument demo_conf demo_lines demo_fns 64 64 demo_block Ity_I64 Ity_I64 s = Ok (out, s')
    /\ (forall rho, consistent rho (stmts out) ->
          exec demo_conf rho (stmts out)
          ≈ run_actions demo_conf rho (block_actions demo_conf (noX_of (cache_sim s)) (allocated s) demo_block))
    /\ (forall (j : nat) a len, block_marks demo_block !! j = Some (a, len) ->
          info_ok demo_conf demo_lines demo_fns s' (allocated s + Z.of_nat j) a len)
    /\ VG_OSetGen_Lookup (instrInfoTable s') 64
         = Some (mk_SB_info 64 (Z.of_nat (length (block_marks demo_block))) (allocated s))
    /\ wf_tables s'.
Proof.
  apply (cg_instrument_refines demo_conf demo_lines demo_fns 64 demo_block s).
  - cbn. lia.
  - reflexivity.
  - exact demo_ready.
  - unfold s. cbn [tool_init cache_sim]. rewrite tiny_sim_I1. cbn. lia.
  - cbn. lia.
  - reflexivity.
Defined.
