(* ===== verification/Sanity.v ===== *)
(** * The sanity check of intermediate code: VEX/priv/ir_defs.c

    [sanityCheckIRSB], which Vex runs on the code a tool has instrumented:
    flatness, temporaries assigned once and before their uses, and types.
    [sanityCheckFail] prints the block and panics.  Of the block most functions
    read the type environment alone, which is their argument here; the capacity
    of the array of statements is left out, and so are the tests for null
    pointers and for values outside an enumeration where the model has none. *)

From S2P Require Import Prelude Primop IR.

(** ** Flatness and plausibility *)

Definition isPlausibleIRType (ty : IRType) : bool :=
  match ty with
  | Ity_INVALID | Ity_I1 | Ity_I8 | Ity_I16 | Ity_I32 | Ity_I64 | Ity_I128
  | Ity_F16 | Ity_F32 | Ity_F64 | Ity_F128 | Ity_D32 | Ity_D64 | Ity_D128 | Ity_V128 | Ity_V256 => true
  end.

(** [sanityCheckFail] under a condition. *)
Definition fail_when (b : bool) : outcome unit := if b then Err Panic else Ok tt.

(** A loop whose body only checks, with its counter. *)
Definition all_ok {A} (f : Z -> A -> outcome unit) : Z -> list A -> outcome unit :=
  fix loop i l :=
    match l with [] => Ok tt | x :: l => let* _ := f i x in loop (i + 1) l end.

Fixpoint flat_stmts (sts : list IRStmt) : outcome bool :=
  match sts with
  | [] => Ok true
  | st :: sts => let* flat := isFlatIRStmt st in if negb flat then Ok false else flat_stmts sts
  end.

Definition isFlatIRSB (sb : IRSB) : outcome bool :=
  let* flat := flat_stmts (stmts sb) in
  if negb flat then Ok false else Ok (isIRAtom (next sb)).

Definition countArgs (args : list IRExpr) : Z := Z.of_nat (length args).

Definition neq_type (a b : IRType) : bool := negb (bool_decide (a = b)).

Definition saneIRRegArray (arr : IRRegArray) : bool :=
  if (ra_base arr <? 0) || (10000 <? ra_base arr) then false
  else if bool_decide (elemTy arr = Ity_I1) then false
  else if (ra_nElems arr <=? 0) || (500 <? ra_nElems arr) then false
  else true.

Definition saneIRCallee (cee : IRCallee) : bool :=
  if (regparms cee <? 0) || (3 <? regparms cee) then false else true.

Definition saneIRConst (con : IRConst) : bool :=
  match con with Ico_U1 b => (b =? 1) || (b =? 0) | _ => true end.

(** ** Temporaries *)

Section Temporaries.
Context (tyenv : IRTypeEnv).

Definition useBeforeDef_Temp (tmp : Z) (def_counts : list Z) : outcome unit :=
  let* _ := fail_when ((tmp <? 0) || (Z.of_nat (length tyenv) <=? tmp)) in
  let* n := rd def_counts tmp in
  fail_when (n <? 1).

(** The counts with [tmp] assigned. *)
Definition assignedOnce_Temp (tmp : Z) (def_counts : list Z) (n_def_counts : Z) : outcome (list Z) :=
  let* _ := fail_when ((tmp <? 0) || (n_def_counts <=? tmp)) in
  let* n := rd def_counts tmp in
  let* n := int_add n 1 in
  let* def_counts := wr def_counts tmp n in
  let* _ := fail_when (1 <? n) in
  Ok def_counts.

Fixpoint useBeforeDef_Expr (expr : IRExpr) (def_counts : list Z) : outcome unit :=
  match expr with
  | Iex_Get _ _ => Ok tt
  | Iex_GetI _ ix _ => useBeforeDef_Expr ix def_counts
  | Iex_RdTmp tmp => useBeforeDef_Temp tmp def_counts
  | Iex_Qop _ arg1 arg2 arg3 arg4 =>
      let* _ := useBeforeDef_Expr arg1 def_counts in
      let* _ := useBeforeDef_Expr arg2 def_counts in
      let* _ := useBeforeDef_Expr arg3 def_counts in
      useBeforeDef_Expr arg4 def_counts
  | Iex_Triop _ arg1 arg2 arg3 =>
      let* _ := useBeforeDef_Expr arg1 def_counts in
      let* _ := useBeforeDef_Expr arg2 def_counts in
      useBeforeDef_Expr arg3 def_counts
  | Iex_Binop _ arg1 arg2 =>
      let* _ := useBeforeDef_Expr arg1 def_counts in
      useBeforeDef_Expr arg2 def_counts
  | Iex_Unop _ arg => useBeforeDef_Expr arg def_counts
  | Iex_Load _ _ addr => useBeforeDef_Expr addr def_counts
  | Iex_Const _ => Ok tt
  | Iex_CCall _ _ args =>
      all_ok (fun _ arg =>
        if is_IRExpr_VECRET_or_GSPTR arg then Err Panic else useBeforeDef_Expr arg def_counts) 0 args
  | Iex_ITE cond iftrue iffalse =>
      let* _ := useBeforeDef_Expr cond def_counts in
      let* _ := useBeforeDef_Expr iftrue def_counts in
      useBeforeDef_Expr iffalse def_counts
  | Iex_Binder _ | Iex_VECRET | Iex_GSPTR => Err Panic
  end.

(** [if (e) useBeforeDef_Expr(e)]. *)
Definition useBeforeDef_opt (e : option IRExpr) (def_counts : list Z) : outcome unit :=
  match e with Some e => useBeforeDef_Expr e def_counts | None => Ok tt end.

Definition useBeforeDef_Stmt (stmt : IRStmt) (def_counts : list Z) : outcome unit :=
  match stmt with
  | Ist_IMark _ _ _ => Ok tt
  | Ist_AbiHint base _ nia =>
      let* _ := useBeforeDef_Expr base def_counts in useBeforeDef_Expr nia def_counts
  | Ist_Put _ data => useBeforeDef_Expr data def_counts
  | Ist_PutI _ ix _ data =>
      let* _ := useBeforeDef_Expr ix def_counts in useBeforeDef_Expr data def_counts
  | Ist_WrTmp _ data => useBeforeDef_Expr data def_counts
  | Ist_Store _ addr data =>
      let* _ := useBeforeDef_Expr addr def_counts in useBeforeDef_Expr data def_counts
  | Ist_StoreG _ addr data guard =>
      let* _ := useBeforeDef_Expr addr def_counts in
      let* _ := useBeforeDef_Expr data def_counts in
      useBeforeDef_Expr guard def_counts
  | Ist_LoadG _ _ _ addr alt guard =>
      let* _ := useBeforeDef_Expr addr def_counts in
      let* _ := useBeforeDef_Expr alt def_counts in
      useBeforeDef_Expr guard def_counts
  | Ist_CAS cas =>
      let* _ := useBeforeDef_Expr (cas_addr cas) def_counts in
      let* _ := useBeforeDef_opt (expdHi cas) def_counts in
      let* _ := useBeforeDef_Expr (expdLo cas) def_counts in
      let* _ := useBeforeDef_opt (dataHi cas) def_counts in
      useBeforeDef_Expr (dataLo cas) def_counts
  | Ist_LLSC _ _ addr storedata =>
      let* _ := useBeforeDef_Expr addr def_counts in useBeforeDef_opt storedata def_counts
  | Ist_Dirty d =>
      let* _ := all_ok (fun _ arg =>
        if is_IRExpr_VECRET_or_GSPTR arg then Ok tt else useBeforeDef_Expr arg def_counts) 0 (args d) in
      if negb (bool_decide (mFx d = Ifx_None)) then
        match mAddr d with Some e => useBeforeDef_Expr e def_counts | None => Err Undefined end
      else Ok tt
  | Ist_NoOp | Ist_MBE _ => Ok tt
  | Ist_Exit guard _ _ _ => useBeforeDef_Expr guard def_counts
  end.

Definition assignedOnce_Stmt (stmt : IRStmt) (def_counts : list Z) (n_def_counts : Z)
  : outcome (list Z) :=
  match stmt with
  | Ist_WrTmp tmp _ => assignedOnce_Temp tmp def_counts n_def_counts
  | Ist_LoadG _ _ dst _ _ _ => assignedOnce_Temp dst def_counts n_def_counts
  | Ist_Dirty d =>
      if negb (tmp d =? IRTemp_INVALID) then assignedOnce_Temp (tmp d) def_counts n_def_counts
      else Ok def_counts
  | Ist_CAS cas =>
      let* def_counts :=
        if negb (oldHi cas =? IRTemp_INVALID)
        then assignedOnce_Temp (oldHi cas) def_counts n_def_counts else Ok def_counts in
      assignedOnce_Temp (oldLo cas) def_counts n_def_counts
  | Ist_LLSC _ result _ _ => assignedOnce_Temp result def_counts n_def_counts
  | Ist_NoOp | Ist_IMark _ _ _ | Ist_AbiHint _ _ _ | Ist_Put _ _ | Ist_PutI _ _ _ _
  | Ist_Store _ _ _ | Ist_StoreG _ _ _ _ | Ist_MBE _ | Ist_Exit _ _ _ _ => Ok def_counts
  end.

(** The loop over the statements of the block. *)
Fixpoint check_temps (sts : list IRStmt) (def_counts : list Z) (n_temps : Z) : outcome (list Z) :=
  match sts with
  | [] => Ok def_counts
  | stmt :: sts =>
      let* _ := useBeforeDef_Stmt stmt def_counts in
      let* def_counts := assignedOnce_Stmt stmt def_counts n_temps in
      check_temps sts def_counts n_temps
  end.

(** ** Types *)

Context (gWordTy : IRType).

Fixpoint tcExpr (expr : IRExpr) : outcome unit :=
  match expr with
  | Iex_Get _ _ | Iex_RdTmp _ => Ok tt
  | Iex_GetI descr ix _ =>
      let* _ := tcExpr ix in
      let* ty := typeOfIRExpr tyenv ix in
      let* _ := fail_when (neq_type ty Ity_I32) in
      fail_when (negb (saneIRRegArray descr))
  | Iex_Qop op arg1 arg2 arg3 arg4 =>
      let* _ := tcExpr arg1 in
      let* _ := tcExpr arg2 in
      let* _ := tcExpr arg3 in
      let* _ := tcExpr arg4 in
      let* t := typeOfPrimop op in
      let* _ := fail_when (bool_decide (t_arg1 t = Ity_INVALID) || bool_decide (t_arg2 t = Ity_INVALID)
                           || bool_decide (t_arg3 t = Ity_INVALID) || bool_decide (t_arg4 t = Ity_INVALID)) in
      let* ttarg1 := typeOfIRExpr tyenv arg1 in
      let* ttarg2 := typeOfIRExpr tyenv arg2 in
      let* ttarg3 := typeOfIRExpr tyenv arg3 in
      let* ttarg4 := typeOfIRExpr tyenv arg4 in
      fail_when (neq_type (t_arg1 t) ttarg1 || neq_type (t_arg2 t) ttarg2
                 || neq_type (t_arg3 t) ttarg3 || neq_type (t_arg4 t) ttarg4)
  | Iex_Triop op arg1 arg2 arg3 =>
      let* _ := tcExpr arg1 in
      let* _ := tcExpr arg2 in
      let* _ := tcExpr arg3 in
      let* t := typeOfPrimop op in
      let* _ := fail_when (bool_decide (t_arg1 t = Ity_INVALID) || bool_decide (t_arg2 t = Ity_INVALID)
                           || bool_decide (t_arg3 t = Ity_INVALID) || neq_type (t_arg4 t) Ity_INVALID) in
      let* ttarg1 := typeOfIRExpr tyenv arg1 in
      let* ttarg2 := typeOfIRExpr tyenv arg2 in
      let* ttarg3 := typeOfIRExpr tyenv arg3 in
      fail_when (neq_type (t_arg1 t) ttarg1 || neq_type (t_arg2 t) ttarg2 || neq_type (t_arg3 t) ttarg3)
  | Iex_Binop op arg1 arg2 =>
      let* _ := tcExpr arg1 in
      let* _ := tcExpr arg2 in
      let* t := typeOfPrimop op in
      let* _ := fail_when (bool_decide (t_arg1 t = Ity_INVALID) || bool_decide (t_arg2 t = Ity_INVALID)
                           || neq_type (t_arg3 t) Ity_INVALID || neq_type (t_arg4 t) Ity_INVALID) in
      let* ttarg1 := typeOfIRExpr tyenv arg1 in
      let* ttarg2 := typeOfIRExpr tyenv arg2 in
      fail_when (neq_type (t_arg1 t) ttarg1 || neq_type (t_arg2 t) ttarg2)
  | Iex_Unop op arg =>
      let* _ := tcExpr arg in
      let* t := typeOfPrimop op in
      let* _ := fail_when (bool_decide (t_arg1 t = Ity_INVALID) || neq_type (t_arg2 t) Ity_INVALID
                           || neq_type (t_arg3 t) Ity_INVALID || neq_type (t_arg4 t) Ity_INVALID) in
      let* ty := typeOfIRExpr tyenv arg in
      fail_when (neq_type (t_arg1 t) ty)
  | Iex_Load _ _ addr =>
      let* _ := tcExpr addr in
      let* ty := typeOfIRExpr tyenv addr in
      fail_when (neq_type ty gWordTy)
  | Iex_CCall cee retty args =>
      let* _ := fail_when (negb (saneIRCallee cee)) in
      let* _ := fail_when (countArgs args <? regparms cee) in
      let* _ := all_ok (fun i arg =>
        let* _ := fail_when (32 <=? i) in
        let* _ := fail_when (is_IRExpr_VECRET_or_GSPTR arg) in
        tcExpr arg) 0 args in
      let* _ := fail_when (bool_decide (retty = Ity_I1)) in
      all_ok (fun _ arg =>
        let* ty := typeOfIRExpr tyenv arg in fail_when (bool_decide (ty = Ity_I1))) 0 args
  | Iex_Const con => fail_when (negb (saneIRConst con))
  | Iex_ITE cond iftrue iffalse =>
      let* _ := tcExpr cond in
      let* _ := tcExpr iftrue in
      let* _ := tcExpr iffalse in
      let* ty := typeOfIRExpr tyenv cond in
      let* _ := fail_when (neq_type ty Ity_I1) in
      let* ty1 := typeOfIRExpr tyenv iftrue in
      let* ty2 := typeOfIRExpr tyenv iffalse in
      fail_when (neq_type ty1 ty2)
  | Iex_Binder _ | Iex_VECRET | Iex_GSPTR => Err Panic
  end.

Definition VEX_N_FXSTATE : Z := 7.

(** The [goto bad_dirty]s for one part of the guest state. *)
Definition bad_fx (s : fx_state) : outcome bool :=
  if bool_decide (fx s = Ifx_None) then Ok true
  else if fx_size s <=? 0 then Ok true
  else if nRepeats s =? 0 then Ok (negb (repeatLen s =? 0))
  else if repeatLen s <=? fx_size s then Ok true
  else Ok (negb (Z.rem (repeatLen s) (fx_size s) =? 0)).

Definition is_null {A} (p : option A) : bool := match p with None => true | Some _ => false end.

(** The loop over the arguments of a dirty call, with the numbers of [VECRET]s
    and [GSPTR]s seen. *)
Fixpoint dirty_args (retTy : IRType) (i nVECRETs nGSPTRs : Z) (args : list IRExpr) : outcome Z :=
  match args with
  | [] => Ok nGSPTRs
  | arg :: args =>
      let* _ := fail_when (32 <=? i) in
      let* (nVECRETs, nGSPTRs) :=
        match arg with
        | Iex_VECRET => Ok (nVECRETs + 1, nGSPTRs)
        | Iex_GSPTR => Ok (nVECRETs, nGSPTRs + 1)
        | _ =>
            let* ty := typeOfIRExpr tyenv arg in
            let* _ := fail_when (bool_decide (ty = Ity_I1)) in
            Ok (nVECRETs, nGSPTRs)
        end in
      let* _ := fail_when (1 <? nGSPTRs) in
      let* _ :=
        if nVECRETs =? 1 then fail_when (neq_type retTy Ity_V128 && neq_type retTy Ity_V256)
        else if nVECRETs =? 0
        then fail_when (bool_decide (retTy = Ity_V128) || bool_decide (retTy = Ity_V256))
        else Err Panic in
      dirty_args retTy (i + 1) nVECRETs nGSPTRs args
  end.

Definition tc_Dirty (d : IRDirty) : outcome unit :=
  let* _ := fail_when (negb (saneIRCallee (cee d))) in
  let* _ := fail_when (countArgs (args d) <? regparms (cee d)) in
  let* _ :=
    if bool_decide (mFx d = Ifx_None) then fail_when (negb (is_null (mAddr d)) || negb (mSize d =? 0))
    else fail_when (is_null (mAddr d) || (mSize d =? 0)) in
  let* _ := fail_when (VEX_N_FXSTATE <? Z.of_nat (length (fxState d))) in
  let* _ := all_ok (fun _ s => let* bad := bad_fx s in fail_when bad) 0 (fxState d) in
  let* _ := tcExpr (guard d) in
  let* ty := typeOfIRExpr tyenv (guard d) in
  let* _ := fail_when (neq_type ty Ity_I1) in
  let* retTy :=
    if negb (tmp d =? IRTemp_INVALID) then
      let* retTy := typeOfIRTemp tyenv (tmp d) in
      let* _ := fail_when (bool_decide (retTy = Ity_I1)) in Ok retTy
    else Ok Ity_INVALID in
  let* nGSPTRs := dirty_args retTy 0 0 0 (args d) in
  let* _ := fail_when (1 <? nGSPTRs) in
  fail_when ((Z.of_nat (length (fxState d)) =? 0) && negb (nGSPTRs =? 0)).

(** One of the halves of a compare-and-swap: its type, if its components agree. *)
Definition tc_CAS_half (old : Z) (expd data : IRExpr) : outcome IRType :=
  let* tyExpd := typeOfIRExpr tyenv expd in
  let* tyData := typeOfIRExpr tyenv data in
  let* _ := fail_when (neq_type tyExpd tyData) in
  let* ty := typeOfIRTemp tyenv old in
  let* _ := fail_when (neq_type tyExpd ty) in
  Ok tyExpd.

Definition tc_CAS (cas : IRCAS) : outcome unit :=
  let* _ :=
    if (oldHi cas =? IRTemp_INVALID) && is_null (expdHi cas) && is_null (dataHi cas) then Ok tt
    else if negb (oldHi cas =? IRTemp_INVALID) && negb (is_null (expdHi cas)) && negb (is_null (dataHi cas))
    then Ok tt
    else Err Panic in
  let* _ := tcExpr (cas_addr cas) in
  let* ty := typeOfIRExpr tyenv (cas_addr cas) in
  let* _ := fail_when (neq_type ty gWordTy) in
  let* tyExpd := tc_CAS_half (oldLo cas) (expdLo cas) (dataLo cas) in
  let* _ :=
    if bool_decide (tyExpd = Ity_I8) || bool_decide (tyExpd = Ity_I16) || bool_decide (tyExpd = Ity_I32)
       || (bool_decide (gWordTy = Ity_I64) && bool_decide (tyExpd = Ity_I64))
    then Ok tt else Err Panic in
  if negb (oldHi cas =? IRTemp_INVALID) then
    match expdHi cas, dataHi cas with
    | Some expdHi, Some dataHi =>
        let* _ := tc_CAS_half (oldHi cas) expdHi dataHi in
        let* tyHi := typeOfIRTemp tyenv (oldHi cas) in
        let* tyLo := typeOfIRTemp tyenv (oldLo cas) in
        fail_when (neq_type tyHi tyLo)
    | _, _ => Err Undefined
    end
  else Ok tt.

(** The types a load-linked may load and a store-conditional may store. *)
Definition bogus_LLSC (ty : IRType) : bool :=
  neq_type ty Ity_I64 && neq_type ty Ity_I32 && neq_type ty Ity_I16 && neq_type ty Ity_I8.

Definition tc_LLSC (result : Z) (addr : IRExpr) (storedata : option IRExpr) : outcome unit :=
  let* ty := typeOfIRExpr tyenv addr in
  let* _ := fail_when (neq_type ty gWordTy) in
  let* tyRes := typeOfIRTemp tyenv result in
  match storedata with
  | None => fail_when (bogus_LLSC tyRes)
  | Some storedata =>
      let* _ := fail_when (neq_type tyRes Ity_I1) in
      let* tyData := typeOfIRExpr tyenv storedata in
      fail_when (bogus_LLSC tyData)
  end.

Definition tcStmt (stmt : IRStmt) : outcome unit :=
  match stmt with
  | Ist_IMark _ len delta =>
      let* _ := fail_when (24 <? len) in fail_when (1 <? delta)
  | Ist_AbiHint base _ nia =>
      let* ty := typeOfIRExpr tyenv base in
      let* _ := fail_when (neq_type ty gWordTy) in
      let* ty := typeOfIRExpr tyenv nia in
      fail_when (neq_type ty gWordTy)
  | Ist_Put _ data =>
      let* _ := tcExpr data in
      let* ty := typeOfIRExpr tyenv data in
      fail_when (bool_decide (ty = Ity_I1))
  | Ist_PutI descr ix _ data =>
      let* _ := tcExpr data in
      let* _ := tcExpr ix in
      let* ty := typeOfIRExpr tyenv data in
      let* _ := fail_when (bool_decide (ty = Ity_I1)) in
      let* _ := fail_when (neq_type ty (elemTy descr)) in
      let* ty := typeOfIRExpr tyenv ix in
      let* _ := fail_when (neq_type ty Ity_I32) in
      fail_when (negb (saneIRRegArray descr))
  | Ist_WrTmp tmp data =>
      let* _ := tcExpr data in
      let* ty1 := typeOfIRTemp tyenv tmp in
      let* ty2 := typeOfIRExpr tyenv data in
      fail_when (neq_type ty1 ty2)
  | Ist_Store _ addr data =>
      let* _ := tcExpr addr in
      let* _ := tcExpr data in
      let* ty := typeOfIRExpr tyenv addr in
      let* _ := fail_when (neq_type ty gWordTy) in
      let* ty := typeOfIRExpr tyenv data in
      fail_when (bool_decide (ty = Ity_I1))
  | Ist_StoreG _ addr data guard =>
      let* _ := tcExpr addr in
      let* _ := tcExpr data in
      let* _ := tcExpr guard in
      let* ty := typeOfIRExpr tyenv addr in
      let* _ := fail_when (neq_type ty gWordTy) in
      let* ty := typeOfIRExpr tyenv data in
      let* _ := fail_when (bool_decide (ty = Ity_I1)) in
      let* ty := typeOfIRExpr tyenv guard in
      fail_when (neq_type ty Ity_I1)
  | Ist_LoadG _ cvt dst addr alt guard =>
      let* _ := tcExpr addr in
      let* _ := tcExpr alt in
      let* _ := tcExpr guard in
      let* ty := typeOfIRExpr tyenv guard in
      let* _ := fail_when (neq_type ty Ity_I1) in
      let* ty := typeOfIRExpr tyenv addr in
      let* _ := fail_when (neq_type ty gWordTy) in
      let* ty1 := typeOfIRExpr tyenv alt in
      let* ty2 := typeOfIRTemp tyenv dst in
      let* _ := fail_when (neq_type ty1 ty2) in
      let* (cvtRes, _) := typeOfIRLoadGOp cvt in
      let* ty := typeOfIRTemp tyenv dst in
      fail_when (neq_type cvtRes ty)
  | Ist_CAS cas => tc_CAS cas
  | Ist_LLSC _ result addr storedata => tc_LLSC result addr storedata
  | Ist_Dirty d => tc_Dirty d
  | Ist_NoOp => Ok tt
  | Ist_MBE event => match event with Imbe_Fence | Imbe_CancelReservation => Ok tt end
  | Ist_Exit guard _ dst offsIP =>
      let* _ := tcExpr guard in
      let* ty := typeOfIRExpr tyenv guard in
      let* _ := fail_when (neq_type ty Ity_I1) in
      let* _ := fail_when (negb (saneIRConst dst)) in
      let* _ := fail_when (neq_type (typeOfIRConst dst) gWordTy) in
      fail_when (offsIP <? 16)
  end.

End Temporaries.

(** ** The whole block *)

Definition sanityCheckIRSB (bb : IRSB) (require_flat : bool) (guest_word_size : IRType) : outcome unit :=
  let env := tyenv bb in
  let n_temps := Z.of_nat (length env) in
  let* _ := assert_that (bool_decide (guest_word_size = Ity_I32) || bool_decide (guest_word_size = Ity_I64)) in
  let* _ := all_ok (fun _ i =>
    let* ty := typeOfIRTemp env i in fail_when (negb (isPlausibleIRType ty))) 0 (seqZ 0 n_temps) in
  let* _ :=
    if require_flat then
      let* _ := all_ok (fun _ stmt => let* flat := isFlatIRStmt stmt in fail_when (negb flat)) 0 (stmts bb) in
      fail_when (negb (isIRAtom (next bb)))
    else Ok tt in
  let* _ := check_temps env (stmts bb) (replicate (length env) 0) n_temps in
  let* _ := all_ok (fun _ stmt => tcStmt env guest_word_size stmt) 0 (stmts bb) in
  let* ty := typeOfIRExpr env (next bb) in
  let* _ := fail_when (neq_type ty guest_word_size) in
  fail_when (sb_offsIP bb <? 16).
