(* ===== verification/IRSem.v ===== *)
(** * What intermediate code does

    A semantics of the blocks of VEX/pub/libvex_ir.h, against which the passes
    of the optimiser are verified.  Values, guest state and memory belong to a
    [Machine]; what the passes rely on are the laws of [MachineLaws].  A run is
    stuck where the code has no meaning: a temporary that is read before it is
    assigned, assigned twice or given a value of another type. *)

From stdpp Require Import gmap.
From S2P Require Import Prelude Primop IR.

(** ** Machines *)

(** An argument of a helper call; [GSPTR] passes the guest state and [VECRET]
    the place of a vector result. *)
Inductive arg_value (V : Type) := Arg_value (v : V) | Arg_VECRET | Arg_GSPTR.
Arguments Arg_value {V} v.
Arguments Arg_VECRET {V}.
Arguments Arg_GSPTR {V}.

(** Values [V], each of one type, and worlds [W]: the guest state with the
    memory and whatever else helpers touch. *)
Class Machine (V W : Type) := {
  v_type : V -> IRType;
  v_const : IRConst -> V;
  v_true : V -> bool;
  v_op : Z -> list V -> V;
  v_call : IRCallee -> IRType -> list V -> V;
  v_skipped : IRType -> V;  (* the 0x555... of a call that is not made *)
  w_get : W -> Z -> IRType -> V;
  w_geti : W -> IRRegArray -> V -> Z -> V;
  w_put : W -> Z -> V -> W;
  w_puti : W -> IRRegArray -> V -> Z -> V -> W;
  w_load : W -> IREndness -> IRType -> V -> V;
  w_store : W -> IREndness -> V -> V -> W;
  w_cas : W -> IREndness -> V -> option V -> V -> option V -> V -> W * V * V;  (* the world, old high, old low *)
  w_loadlink : W -> IREndness -> IRType -> V -> W * V;
  w_storecond : W -> IREndness -> V -> V -> W * V;
  w_call : W -> IRCallee -> list (arg_value V) -> IREffect -> option V -> Z -> list fx_state -> IRType -> W * V;
  w_fence : W -> IRMBusEvent -> W;
  w_mark : W -> Z -> Z -> Z -> W;
  w_hint : W -> V -> Z -> V -> W
}.

(** A dirty call that touches the guest state only to read it. *)
Definition reads_only (fxs : list fx_state) : bool :=
  forallb (fun s => match fx s with Ifx_Modify | Ifx_Write => false | _ => true end) fxs.

(** [n] bytes at [o1] and [m] bytes at [o2] do not meet. *)
Definition apart (o1 n o2 m : Z) : Prop := o1 + n <= o2 \/ o2 + m <= o1.

(** The types, and that guest state changes only where it is written. *)
Class MachineLaws {V W} (M : Machine V W) := {
  type_of_const c : v_type (v_const c) = typeOfIRConst c;
  type_of_op op vs t : typeOfPrimop op = Ok t -> v_type (v_op op vs) = t_dst t;
  type_of_call cee ty vs : v_type (v_call cee ty vs) = ty;
  type_of_get w o ty : v_type (w_get w o ty) = ty;
  type_of_geti w d v b : v_type (w_geti w d v b) = elemTy d;
  type_of_load w en ty v : v_type (w_load w en ty v) = ty;
  true_const b : v_true (v_const (Ico_U1 b)) = (Z.land 1 b =? 1);
  get_put w o v n : sizeofIRType (v_type v) = Ok n -> w_get (w_put w o v) o (v_type v) = v;
  put_put w o v v' n : sizeofIRType (v_type v) = Ok n -> sizeofIRType (v_type v') = Ok n ->
    w_put (w_put w o v) o v' = w_put w o v';
  get_put_apart w o v n o' ty n' : sizeofIRType (v_type v) = Ok n -> sizeofIRType ty = Ok n' ->
    apart o n o' n' -> w_get (w_put w o v) o' ty = w_get w o' ty;
  get_puti w d i b v n o' ty n' : sizeofIRType (elemTy d) = Ok n -> sizeofIRType ty = Ok n' ->
    v_type v = elemTy d -> apart (ra_base d) (ra_nElems d * n) o' n' -> w_get (w_puti w d i b v) o' ty = w_get w o' ty;
  get_store w en a v o ty : w_get (w_store w en a v) o ty = w_get w o ty;
  get_cas w en a eh el dh dl o ty : w_get (w_cas w en a eh el dh dl).1.1 o ty = w_get w o ty;
  get_loadlink w en ty' a o ty : w_get (w_loadlink w en ty' a).1 o ty = w_get w o ty;
  get_storecond w en a v o ty : w_get (w_storecond w en a v).1 o ty = w_get w o ty;
  get_call w cee vs f a n fxs ty' o ty : reads_only fxs = true ->
    w_get (w_call w cee vs f a n fxs ty').1 o ty = w_get w o ty;
  get_fence w e o ty : w_get (w_fence w e) o ty = w_get w o ty;
  get_mark w a n d o ty : w_get (w_mark w a n d) o ty = w_get w o ty;
  get_hint w b n a o ty : w_get (w_hint w b n a) o ty = w_get w o ty
}.

(** Worlds that differ in the guest state only, at offsets in a set: what reads
    elsewhere gives one result, and what is written is the same in both. *)
Class GuestFrame {V W} (M : Machine V W) := {
  same_but : (Z -> Prop) -> W -> W -> Prop;
  same_refl D w : same_but D w w;
  same_more D D' w w' : (forall i, D i -> D' i) -> same_but D w w' -> same_but D' w w';
  same_all D w w' : (forall i, ~ D i) -> same_but D w w' -> w = w';
  same_put D w w' o v n : sizeofIRType (v_type v) = Ok n -> same_but D w w' ->
    same_but (fun i => D i /\ ~ (o <= i < o + n)) (w_put w o v) (w_put w' o v);
  same_put_one D w w' o v n : sizeofIRType (v_type v) = Ok n -> (forall i, o <= i < o + n -> D i) -> same_but D w w' ->
    same_but D (w_put w o v) w';
  same_puti D w w' d i b v : same_but D w w' -> same_but D (w_puti w d i b v) (w_puti w' d i b v);
  same_get D w w' o ty n : sizeofIRType ty = Ok n -> (forall i, o <= i < o + n -> ~ D i) -> same_but D w w' -> w_get w o ty = w_get w' o ty;
  same_geti D w w' d v b n : sizeofIRType (elemTy d) = Ok n -> 0 < ra_nElems d ->
    (forall i, ra_base d <= i < ra_base d + ra_nElems d * n -> ~ D i) -> same_but D w w' -> w_geti w d v b = w_geti w' d v b;
  same_load D w w' en ty a : same_but D w w' -> w_load w en ty a = w_load w' en ty a;
  same_store D w w' en a v : same_but D w w' -> same_but D (w_store w en a v) (w_store w' en a v);
  same_mark D w w' a n d : same_but D w w' -> same_but D (w_mark w a n d) (w_mark w' a n d);
  same_call D w w' cee vs f a n ty : same_but D w w' ->
    same_but D (w_call w cee vs f a n [] ty).1 (w_call w' cee vs f a n [] ty).1 /\ (w_call w cee vs f a n [] ty).2 = (w_call w' cee vs f a n [] ty).2
}.

(** ** Runs *)

Section Semantics.
Context {V W} `{M : Machine V W} (tyenv : IRTypeEnv).

(** The values of the temporaries assigned so far. *)
Abbreviation temps := (gmap Z V).
Implicit Types (rho : temps) (w : W).

Fixpoint eval rho w (e : IRExpr) : option V :=
  match e with
  | Iex_Get offset ty => Some (w_get w offset ty)
  | Iex_GetI descr ix bias => v ← eval rho w ix; Some (w_geti w descr v bias)
  | Iex_RdTmp tmp => rho !! tmp
  | Iex_Qop op a1 a2 a3 a4 =>
      v1 ← eval rho w a1; v2 ← eval rho w a2; v3 ← eval rho w a3; v4 ← eval rho w a4;
      Some (v_op op [v1; v2; v3; v4])
  | Iex_Triop op a1 a2 a3 =>
      v1 ← eval rho w a1; v2 ← eval rho w a2; v3 ← eval rho w a3; Some (v_op op [v1; v2; v3])
  | Iex_Binop op a1 a2 => v1 ← eval rho w a1; v2 ← eval rho w a2; Some (v_op op [v1; v2])
  | Iex_Unop op a => v ← eval rho w a; Some (v_op op [v])
  | Iex_Load e ty addr => a ← eval rho w addr; Some (w_load w e ty a)
  | Iex_Const con => Some (v_const con)
  | Iex_CCall cee retty args =>
      let fix eval_all args :=
        match args with
        | [] => Some []
        | a :: args => v ← eval rho w a; vs ← eval_all args; Some (v :: vs)
        end in
      vs ← eval_all args; Some (v_call cee retty vs)
  | Iex_ITE cond iftrue iffalse =>
      c ← eval rho w cond; t ← eval rho w iftrue; f ← eval rho w iffalse;
      if decide (v_type t = v_type f) then Some (if v_true c then t else f) else None
  | Iex_Binder _ | Iex_VECRET | Iex_GSPTR => None
  end.

Fixpoint eval_all rho w (es : list IRExpr) : option (list V) :=
  match es with
  | [] => Some []
  | e :: es => v ← eval rho w e; vs ← eval_all rho w es; Some (v :: vs)
  end.

(** A pointer that may be [NULL]. *)
Definition eval_opt rho w (e : option IRExpr) : option (option V) :=
  match e with Some e => v ← eval rho w e; Some (Some v) | None => Some None end.

Definition eval_arg rho w (e : IRExpr) : option (arg_value V) :=
  match e with
  | Iex_VECRET => Some Arg_VECRET
  | Iex_GSPTR => Some Arg_GSPTR
  | _ => v ← eval rho w e; Some (Arg_value v)
  end.
Fixpoint eval_args rho w (es : list IRExpr) : option (list (arg_value V)) :=
  match es with
  | [] => Some []
  | e :: es => v ← eval_arg rho w e; vs ← eval_args rho w es; Some (v :: vs)
  end.

(** A temporary is assigned once, a value of its type. *)
Definition assign rho (t : Z) (v : V) : option temps :=
  match rho !! t, typeOfIRTemp tyenv t with
  | None, Ok ty => if decide (v_type v = ty) then Some (<[t := v]> rho) else None
  | _, _ => None
  end.
Fixpoint assign_all rho (new : list (Z * V)) : option temps :=
  match new with [] => Some rho | (t, v) :: new => rho' ← assign rho t v; assign_all rho' new end.

(** The assignment to a temporary that may be [IRTemp_INVALID], for none. *)
Definition opt_temp (t : Z) (v : V) : list (Z * V) := if t =? IRTemp_INVALID then [] else [(t, v)].

(** How the loaded value is widened. *)
Definition widen (cvt : IRLoadGOp) (v : V) : V :=
  match cvt with
  | ILGop_8Uto32 => v_op Iop_8Uto32 [v]
  | ILGop_8Sto32 => v_op Iop_8Sto32 [v]
  | ILGop_16Uto32 => v_op Iop_16Uto32 [v]
  | ILGop_16Sto32 => v_op Iop_16Sto32 [v]
  | _ => v
  end.

(** The type of the result of a call; [Ity_INVALID] for none. *)
Definition result_type (t : Z) : option IRType :=
  if t =? IRTemp_INVALID then Some Ity_INVALID
  else match typeOfIRTemp tyenv t with Ok ty => Some ty | Err _ => None end.

(** What a statement does: the temporaries it assigns, the world after it, and
    the target and kind of the jump when it leaves the block, with the target
    in the instruction pointer. *)
Definition effect : Type := list (Z * V) * W * option (V * IRJumpKind).
Definition acts rho w (st : IRStmt) : option effect :=
  match st with
  | Ist_NoOp => Some ([], w, None)
  | Ist_IMark addr len delta => Some ([], w_mark w addr len delta, None)
  | Ist_AbiHint base len nia =>
      b ← eval rho w base; n ← eval rho w nia; Some ([], w_hint w b len n, None)
  | Ist_Put offset data => v ← eval rho w data; Some ([], w_put w offset v, None)
  | Ist_PutI descr ix bias data =>
      i ← eval rho w ix; v ← eval rho w data;
      if decide (v_type v = elemTy descr) then Some ([], w_puti w descr i bias v, None) else None
  | Ist_WrTmp tmp data => v ← eval rho w data; Some ([(tmp, v)], w, None)
  | Ist_Store e addr data =>
      a ← eval rho w addr; v ← eval rho w data; Some ([], w_store w e a v, None)
  | Ist_StoreG e addr data guard =>
      a ← eval rho w addr; v ← eval rho w data; g ← eval rho w guard;
      Some ([], if v_true g then w_store w e a v else w, None)
  | Ist_LoadG e cvt dst addr alt guard =>
      match typeOfIRLoadGOp cvt with
      | Ok (_, arg) =>
          a ← eval rho w addr; d ← eval rho w alt; g ← eval rho w guard;
          Some ([(dst, if v_true g then widen cvt (w_load w e arg a) else d)], w, None)
      | Err _ => None
      end
  | Ist_CAS cas =>
      a ← eval rho w (cas_addr cas);
      eh ← eval_opt rho w (expdHi cas); el ← eval rho w (expdLo cas);
      dh ← eval_opt rho w (dataHi cas); dl ← eval rho w (dataLo cas);
      let '(w', hi, lo) := w_cas w (cas_end cas) a eh el dh dl in
      Some (opt_temp (oldHi cas) hi ++ [(oldLo cas, lo)], w', None)
  | Ist_LLSC e result addr storedata =>
      a ← eval rho w addr; d ← eval_opt rho w storedata; ty ← result_type result;
      let '(w', v) := match d with None => w_loadlink w e ty a | Some d => w_storecond w e a d end in
      Some ([(result, v)], w', None)
  | Ist_Dirty d =>
      vs ← eval_args rho w (args d);
      a ← (if decide (mFx d = Ifx_None) then Some None else e ← mAddr d; v ← eval rho w e; Some (Some v));
      g ← eval rho w (guard d); ty ← result_type (tmp d);
      let '(w', v) :=
        if v_true g then w_call w (cee d) vs (mFx d) a (mSize d) (fxState d) ty else (w, v_skipped ty) in
      Some (opt_temp (tmp d) v, w', None)
  | Ist_MBE event => Some ([], w_fence w event, None)
  | Ist_Exit guard jk dst offsIP =>
      g ← eval rho w guard;
      Some ([], if v_true g then w_put w offsIP (v_const dst) else w,
            if v_true g then Some (v_const dst, jk) else None)
  end.

(** After a statement the run goes on, or leaves the block for a target. *)
Inductive after :=
| Goes_on (rho : temps) (w : W)
| Leaves (w : W) (target : V) (jk : IRJumpKind).

Definition run_stmt rho w (st : IRStmt) : option after :=
  '(new, w', jump) ← acts rho w st;
  rho' ← assign_all rho new;
  Some (match jump with None => Goes_on rho' w' | Some (target, jk) => Leaves w' target jk end).

Fixpoint run_stmts rho w (sts : list IRStmt) : option after :=
  match sts with
  | [] => Some (Goes_on rho w)
  | st :: sts =>
      r ← run_stmt rho w st;
      match r with Goes_on rho w => run_stmts rho w sts | Leaves _ _ _ => Some r end
  end.

(** The temporaries hold values of their types. *)
Definition typed rho : Prop := forall t v, rho !! t = Some v -> typeOfIRTemp tyenv t = Ok (v_type v).

End Semantics.

(** A run of a whole block: the world after it, the target and the kind of the
    jump. *)
Definition run_end {V W} `{Machine V W} (sb : IRSB) (r : after) : option (W * V * IRJumpKind) :=
  match r with
  | Leaves w target jk => Some (w, target, jk)
  | Goes_on rho w =>
      target ← eval rho w (next sb);
      Some (w_put w (sb_offsIP sb) target, target, jumpkind sb)
  end.
Definition run_block {V W} `{Machine V W} (sb : IRSB) (w : W) : option (W * V * IRJumpKind) :=
  r ← run_stmts (tyenv sb) ∅ w (stmts sb); run_end sb r.
