(* ===== verification/IRRun.v ===== *)
(** * Runs of intermediate code

    Values have the types the code computes for expressions, more temporaries
    leave a run as it is, and statements that differ in operands of the same
    values act alike: what the proofs of the passes share. *)

From stdpp Require Import gmap.
From S2P Require Import Prelude Primop IR IRSem.

(** Take apart a computation that returned. *)
Ltac inv_run :=
  repeat match goal with
  | H : mbind _ _ = Some _ |- _ => apply bind_Some in H as (? & ? & H)
  | H : Some _ = Some _ |- _ => injection H as H; try subst
  | H : (if decide ?P then _ else _) = Some _ |- _ => destruct (decide P); [|discriminate H]
  | H : None = Some _ |- _ => discriminate H
  end.

(** ** Statements with other operands *)

Section Like.
Context (R : IRExpr -> IRExpr -> Prop).

Definition like_opt (e e' : option IRExpr) : Prop :=
  match e, e' with Some e, Some e' => R e e' | None, None => True | _, _ => False end.
Definition like_arg (e e' : IRExpr) : Prop :=
  if is_IRExpr_VECRET_or_GSPTR e then e' = e else is_IRExpr_VECRET_or_GSPTR e' = false /\ R e e'.

Inductive like : IRStmt -> IRStmt -> Prop :=
| like_NoOp : like Ist_NoOp Ist_NoOp
| like_IMark a n d : like (Ist_IMark a n d) (Ist_IMark a n d)
| like_AbiHint b n a b' a' : R b b' -> R a a' -> like (Ist_AbiHint b n a) (Ist_AbiHint b' n a')
| like_Put o e e' : R e e' -> like (Ist_Put o e) (Ist_Put o e')
| like_PutI d i b e i' e' : R i i' -> R e e' -> like (Ist_PutI d i b e) (Ist_PutI d i' b e')
| like_WrTmp t e e' : R e e' -> like (Ist_WrTmp t e) (Ist_WrTmp t e')
| like_Store en a e a' e' : R a a' -> R e e' -> like (Ist_Store en a e) (Ist_Store en a' e')
| like_StoreG en a e g a' e' g' : R a a' -> R e e' -> R g g' -> like (Ist_StoreG en a e g) (Ist_StoreG en a' e' g')
| like_LoadG en cvt t a d g a' d' g' : R a a' -> R d d' -> R g g' ->
    like (Ist_LoadG en cvt t a d g) (Ist_LoadG en cvt t a' d' g')
| like_CAS hi lo en a eh el dh dl a' eh' el' dh' dl' :
    R a a' -> like_opt eh eh' -> R el el' -> like_opt dh dh' -> R dl dl' ->
    like (Ist_CAS (mk_IRCAS hi lo en a eh el dh dl)) (Ist_CAS (mk_IRCAS hi lo en a' eh' el' dh' dl'))
| like_LLSC en t a d a' d' : R a a' -> like_opt d d' -> like (Ist_LLSC en t a d) (Ist_LLSC en t a' d')
| like_Dirty c g l t f a n fxs g' l' a' : R g g' -> Forall2 like_arg l l' ->
    (f <> Ifx_None -> like_opt a a') ->
    like (Ist_Dirty (mk_IRDirty c g l t f a n fxs)) (Ist_Dirty (mk_IRDirty c g' l' t f a' n fxs))
| like_MBE e : like (Ist_MBE e) (Ist_MBE e)
| like_Exit g jk dst o g' : R g g' -> like (Ist_Exit g jk dst o) (Ist_Exit g' jk dst o).

End Like.
#[export] Hint Constructors like : core.

Section Run.
Context {V W} `{M : Machine V W}.
Implicit Types (rho : gmap Z V) (w : W) (env : IRTypeEnv).

(** ** Expressions *)

Lemma eval_CCall rho w cee ty args :
  eval rho w (Iex_CCall cee ty args) = (vs ← eval_all rho w args; Some (v_call cee ty vs)).
Proof.
  cbn. f_equal. induction args as [|a args IH]; [done|]. cbn. destruct (eval rho w a) as [v|]; [|done].
  cbn. by rewrite IH.
Qed.

(** Operands of the same values. *)
Definition same_value rho rho' w (e e' : IRExpr) : Prop :=
  forall v, eval rho w e = Some v -> eval rho' w e' = Some v.

Lemma eval_all_like rho rho' w es es' : Forall2 (same_value rho rho' w) es es' ->
  forall vs, eval_all rho w es = Some vs -> eval_all rho' w es' = Some vs.
Proof.
  induction 1 as [|e e' es es' He Hes IH]; intros vs H; [done|]. cbn in *. inv_run.
  rewrite (He _ ltac:(eassumption)). cbn. by rewrite (IH _ ltac:(eassumption)).
Qed.

Lemma eval_mono rho rho' w e : rho ⊆ rho' -> same_value rho rho' w e e.
Proof.
  intros Hs. induction e as [| | | | | | | | | |cee ty args IH| | |] using IRExpr_nested_ind; intros v H.
  11: { rewrite eval_CCall in *. inv_run.
        erewrite eval_all_like; [done| |eassumption]. clear -IH. induction IH; by constructor. }
  all: cbn in *; inv_run; repeat match goal with
    | IH : same_value _ _ _ ?e ?e, H : eval _ _ ?e = Some _ |- _ => rewrite (IH _ H); clear IH H; cbn
    end; try done.
  - by eapply lookup_weaken.
  - case_decide; done.
Qed.

Lemma typeOfIRExpr_atom_rd env t : typeOfIRExpr env (Iex_RdTmp t) = typeOfIRTemp env t.
Proof. done. Qed.

Lemma eval_type `{!MachineLaws M} env rho w e v ty : typed env rho ->
  eval rho w e = Some v -> typeOfIRExpr env e = Ok ty -> v_type v = ty.
Proof.
  intros Ht. revert v ty. induction e as [| | | | | | | | | |cee rty args IH| | |] using IRExpr_nested_ind; intros v ty' H Hty.
  11: { rewrite eval_CCall in H. inv_run. injection Hty as <-. apply type_of_call. }
  all: cbn in *; inv_run; try discriminate; try (lazymatch type of Hty with obind _ _ = _ => apply bind_Ok_inv in Hty as (p & Hp & Hty) end);
    try injection Hty as <-; auto using type_of_const, type_of_get, type_of_geti, type_of_load, type_of_op.
  - apply Ht in H. congruence.
  - case_match; [|by eauto]. etrans; [eassumption|by eauto].
Qed.

(** ** Assignments *)

Lemma assign_inv env rho t v rho' : assign env rho t v = Some rho' ->
  rho' = <[t := v]> rho /\ rho !! t = None /\ typeOfIRTemp env t = Ok (v_type v).
Proof.
  unfold assign. destruct (rho !! t); [done|]. destruct (typeOfIRTemp env t); [|done].
  case_decide; [|done]. intros [= <-]. by subst.
Qed.

Lemma assign_new env rho t v : rho !! t = None -> typeOfIRTemp env t = Ok (v_type v) ->
  assign env rho t v = Some (<[t := v]> rho).
Proof. intros Hn Ht. unfold assign. rewrite Hn, Ht. by rewrite decide_True. Qed.

Lemma typed_insert env rho t v : typed env rho -> typeOfIRTemp env t = Ok (v_type v) ->
  typed env (<[t := v]> rho).
Proof. intros Hr Ht t' v' [[-> ->]|[_ H]]%lookup_insert_Some; [done|by apply Hr]. Qed.

Lemma assign_all_typed env rho new rho' : typed env rho -> assign_all env rho new = Some rho' -> typed env rho'.
Proof.
  revert rho. induction new as [|[t v] new IH]; intros rho Ht H; cbn in H; [by inv_run|].
  inv_run. match goal with H : assign _ _ _ _ = Some _ |- _ => apply assign_inv in H as (-> & _ & Hty) end.
  by eapply IH; [apply typed_insert|].
Qed.

Lemma assign_all_sub env rho new rho' : assign_all env rho new = Some rho' -> rho ⊆ rho'.
Proof.
  revert rho. induction new as [|[t v] new IH]; intros rho H; cbn in H; [by inv_run|].
  inv_run. match goal with H : assign _ _ _ _ = Some _ |- _ => apply assign_inv in H as (-> & Hn & _) end.
  etrans; [by apply insert_subseteq|by eapply IH].
Qed.

Lemma typed_empty env : typed env (∅ : gmap Z V).
Proof. intros t v. by rewrite lookup_empty. Qed.

Lemma typed_lt env rho t v : typed env rho -> rho !! t = Some v -> 0 <= t < Z.of_nat (length env).
Proof.
  intros Ht H%Ht. unfold typeOfIRTemp in H. inv_ok H. inv_ok H. by apply rd_inv in H as [? _].
Qed.

Lemma typed_weaken env ext rho : typed env rho -> typed (env ++ ext) rho.
Proof. intros Ht t v Hv. by apply typeOfIRTemp_still, Ht. Qed.

(** ** Statements *)

Lemma eval_opt_like rho rho' w e e' : like_opt (same_value rho rho' w) e e' ->
  forall v, eval_opt rho w e = Some v -> eval_opt rho' w e' = Some v.
Proof.
  destruct e as [e|], e' as [e'|]; cbn; try done. intros Hs v H. inv_run. by rewrite (Hs _ ltac:(eassumption)).
Qed.

Lemma eval_arg_value rho w e : is_IRExpr_VECRET_or_GSPTR e = false ->
  eval_arg rho w e = (v ← eval rho w e; Some (Arg_value v)).
Proof. by destruct e. Qed.

Lemma eval_args_like rho rho' w es es' : Forall2 (like_arg (same_value rho rho' w)) es es' ->
  forall vs, eval_args rho w es = Some vs -> eval_args rho' w es' = Some vs.
Proof.
  induction 1 as [|e e' es es' He Hes IH]; intros vs H; [done|]. cbn in *. inv_run.
  rewrite (IH _ ltac:(eassumption)). unfold like_arg in He. destruct (is_IRExpr_VECRET_or_GSPTR e) eqn:E.
  - subst. match goal with H : eval_arg _ _ e = _ |- _ => destruct e; cbn in H |- *; try discriminate; by inv_run end.
  - destruct He as [E' He].
    match goal with H : eval_arg _ _ e = Some ?x |- _ => rename H into Ha; rename x into a end.
    rewrite eval_arg_value in * by done. inv_run. by rewrite (He _ ltac:(eassumption)).
Qed.

Lemma result_type_still env ext t ty : result_type env t = Some ty -> result_type (env ++ ext) t = Some ty.
Proof.
  unfold result_type. destruct (t =? IRTemp_INVALID); [done|].
  destruct (typeOfIRTemp env t) eqn:E; [|done]. by rewrite (typeOfIRTemp_still _ ext _ _ E).
Qed.

(** Statements alike in operands of the same values act alike. *)
Lemma acts_like env ext rho rho' w st st' x : like (same_value rho rho' w) st st' ->
  acts env rho w st = Some x -> acts (env ++ ext) rho' w st' = Some x.
Proof.
  destruct 1; cbn; intros Hacts; try done.
  all: try (destruct (typeOfIRLoadGOp cvt) as [[]|]; [|done]).
  all: inv_run.
  all: repeat match goal with
    | Hs : same_value _ _ _ ?e ?e', H : eval _ _ ?e = Some _ |- _ => rewrite (Hs _ H); clear Hs H; cbn
    | Hs : like_opt _ ?e ?e', H : eval_opt _ _ ?e = Some _ |- _ => rewrite (eval_opt_like _ _ _ _ _ Hs _ H); clear Hs H; cbn
    | Hs : Forall2 _ ?l ?l', H : eval_args _ _ ?l = Some _ |- _ => rewrite (eval_args_like _ _ _ _ _ Hs _ H); clear Hs H; cbn
    | H : result_type _ _ = Some _ |- _ => rewrite (result_type_still _ ext _ _ H); clear H; cbn
    end; try done.
  - by rewrite decide_True.
  - match goal with H : (if decide (f = _) then _ else _) = _ |- _ => rename H into Ha end.
    destruct (decide (f = Ifx_None)); inv_run; cbn; [done|].
    match goal with H : f <> Ifx_None -> like_opt _ _ ?a' |- _ => specialize (H ltac:(done)); destruct a' as [a'|]; [|done] end.
    cbn in *. match goal with H : same_value _ _ _ _ a' |- _ => rewrite (H _ ltac:(eassumption)) end.
    done.
Qed.

Lemma run_stmt_typed env rho w st rho' w' : typed env rho -> run_stmt env rho w st = Some (Goes_on rho' w') -> typed env rho'.
Proof.
  intros Ht H. unfold run_stmt in H. apply bind_Some in H as ([[new w1] jump] & _ & H). apply bind_Some in H as (rho1 & Ha & H).
  destruct jump as [[]|]; [done|]. injection H as -> ->. by eapply assign_all_typed.
Qed.

Lemma run_stmts_app env rho w l1 l2 : run_stmts env rho w (l1 ++ l2) =
  (r ← run_stmts env rho w l1; match r with Goes_on rho w => run_stmts env rho w l2 | Leaves _ _ _ => Some r end).
Proof.
  revert rho w. induction l1 as [|st l1 IH]; intros rho w; [done|]. cbn.
  destruct (run_stmt env rho w st) as [[rho' w'|w' v jk]|]; cbn; [apply IH|done|done].
Qed.

(** ** More temporaries *)

(** The run has further temporaries, from [n] on. *)
Definition extends (n : Z) rho rho' : Prop := rho ⊆ rho' /\ forall t, t < n -> rho' !! t = rho !! t.

Lemma extends_refl n rho : extends n rho rho.
Proof. done. Qed.

Lemma extends_insert n rho rho' t v : extends n rho rho' -> rho !! t = None -> t < n ->
  extends n (<[t := v]> rho) (<[t := v]> rho').
Proof.
  intros [Hs Hl] Hn Ht. split; [by apply insert_mono|]. intros t' Ht'.
  destruct (decide (t = t')) as [->|]; [by rewrite !lookup_insert_eq|]. rewrite !lookup_insert_ne by done. by apply Hl.
Qed.

Lemma like_refl (R : IRExpr -> IRExpr -> Prop) st : (forall e, R e e) -> like R st st.
Proof.
  intros HR.
  assert (Ho : forall e, like_opt R e e) by (intros [e|]; cbn; auto).
  destruct st as [| | | | | | | | |[]| |[]| |]; constructor; auto.
  induction args as [|e l IH]; constructor; [|done]. unfold like_arg. by destruct (is_IRExpr_VECRET_or_GSPTR e).
Qed.

Lemma temp_range env t ty : typeOfIRTemp env t = Ok ty -> 0 <= t < Z.of_nat (length env).
Proof. unfold typeOfIRTemp. intros H. inv_ok H. inv_ok H. by apply rd_inv in H as [? _]. Qed.

Lemma assign_all_extends env ext rho rho' new rho1 : extends (Z.of_nat (length env)) rho rho' ->
  assign_all env rho new = Some rho1 ->
  exists rho1', assign_all (env ++ ext) rho' new = Some rho1' /\ extends (Z.of_nat (length env)) rho1 rho1'.
Proof.
  revert rho rho'. induction new as [|[t v] new IH]; intros rho rho' He H; cbn in H; [inv_run; by exists rho'|].
  inv_run. match goal with H : assign _ _ _ _ = _ |- _ => apply assign_inv in H as (-> & Hn & Hty) end.
  pose proof (temp_range _ _ _ Hty) as Hr. cbn. rewrite assign_new; [|rewrite (proj2 He) by lia; done|by apply typeOfIRTemp_still].
  cbn. eapply IH; [|done]. apply extends_insert; [done|done|lia].
Qed.

Lemma run_stmts_extends env ext sts : forall rho rho' w r, extends (Z.of_nat (length env)) rho rho' ->
  run_stmts env rho w sts = Some r ->
  exists r', run_stmts (env ++ ext) rho' w sts = Some r' /\
    match r, r' with
    | Goes_on rho1 w1, Goes_on rho1' w1' => w1' = w1 /\ extends (Z.of_nat (length env)) rho1 rho1'
    | Leaves w1 v jk, Leaves w1' v' jk' => w1' = w1 /\ v' = v /\ jk' = jk
    | _, _ => False
    end.
Proof.
  induction sts as [|st sts IH]; intros rho rho' w r He H; cbn in H; [inv_run; by exists (Goes_on rho' w)|].
  apply bind_Some in H as (r1 & Hst & H). unfold run_stmt in Hst. apply bind_Some in Hst as ([[new w1] jump] & Hact & Hst).
  apply bind_Some in Hst as (rho1 & Ha & Hst).
  apply (acts_like env ext rho rho' w st st) in Hact; [|apply like_refl; intros e; by apply eval_mono, He].
  destruct (assign_all_extends env ext _ _ _ _ He Ha) as (rho1' & Ha' & He').
  cbn. unfold run_stmt. rewrite Hact. cbn. rewrite Ha'. cbn. destruct jump as [[v jk]|]; injection Hst as <-.
  - injection H as <-. by eexists.
  - by apply IH with (rho := rho1).
Qed.

Lemma run_stmts_typed env sts : forall rho w rho' w', typed env rho -> run_stmts env rho w sts = Some (Goes_on rho' w') -> typed env rho'.
Proof.
  induction sts as [|st sts IH]; intros rho w rho' w' Ht H; cbn in H; [by inv_run|].
  apply bind_Some in H as ([rho1 w1|w1 v jk] & Hst & H); [|done]. eapply IH; [|done]. by eapply run_stmt_typed.
Qed.

End Run.
