(* ===== verification/IRTyping.v ===== *)
(** * Blocks in which every expression has a type

    What the passes of the optimiser need of a block to return, as an executable
    check, and what they keep: the parts of expressions have types, operators are
    applied to operands of theirs, assignments and guards have the right ones,
    constants are numbers of their width, those of one bit 0 or 1, the guest
    state that is read or written lies in the 64 KB that offsets reach, and each
    temporary is assigned by one statement at most. *)

From S2P Require Import Prelude Primop IR Sanity IRSem IRRun.

(** Does [e] have the type [ty]? *)
Definition has_type (env : IRTypeEnv) (e : IRExpr) (ty : IRType) : bool :=
  match typeOfIRExpr env e with Ok ty' => bool_decide (ty' = ty) | Err _ => false end.

(** A part of the guest state that offsets of 16 bits reach. *)
Definition slice_ok (o : Z) (ty : IRType) : bool :=
  match sizeofIRType ty with Ok n => (0 <=? o) && (o + n <=? 65536) | Err _ => false end.
Definition array_ok (d : IRRegArray) : bool :=
  match sizeofIRType (elemTy d) with
  | Ok n => (0 <=? ra_base d) && (0 <? ra_nElems d) && (ra_base d + ra_nElems d * n <=? 65536)
  | Err _ => false
  end.

(** The types an operator takes, and whether the operands have them. *)
Definition operand_types (t : primop_type) : list IRType :=
  filter (fun ty => ty <> Ity_INVALID) [t_arg1 t; t_arg2 t; t_arg3 t; t_arg4 t].
Fixpoint have_types (env : IRTypeEnv) (es : list IRExpr) (tys : list IRType) : bool :=
  match es, tys with
  | [], [] => true
  | e :: es, ty :: tys => has_type env e ty && have_types env es tys
  | _, _ => false
  end.
Definition takes (env : IRTypeEnv) (op : Z) (es : list IRExpr) : bool :=
  match typeOfPrimop op with Ok t => have_types env es (operand_types t) | Err _ => false end.

(** A member of the union in [IRConst] is a number of its width. *)
Definition in_width (con : IRConst) : bool :=
  let below w v := (0 <=? v) && (v <? 2 ^ w) in
  match con with
  | Ico_U1 _ | Ico_F32 _ | Ico_F64 _ => true
  | Ico_U8 v => below 8 v
  | Ico_U16 v | Ico_V128 v => below 16 v
  | Ico_U32 v | Ico_F32i v | Ico_V256 v => below 32 v
  | Ico_U64 v | Ico_F64i v => below 64 v
  end.
Definition constant_ok (con : IRConst) : bool := saneIRConst con && in_width con.

Definition arms_ok (env : IRTypeEnv) (c t f : IRExpr) : bool :=
  has_type env c Ity_I1 && match typeOfIRExpr env t with Ok ty => has_type env f ty | Err _ => false end.

Fixpoint well_typed (env : IRTypeEnv) (e : IRExpr) : bool :=
  match typeOfIRExpr env e with
  | Ok _ =>
      match e with
      | Iex_Const con => constant_ok con
      | Iex_Get o ty => slice_ok o ty
      | Iex_GetI _ e _ | Iex_Load _ _ e => well_typed env e
      | Iex_Unop op e => well_typed env e && takes env op [e]
      | Iex_Qop op e1 e2 e3 e4 =>
          well_typed env e1 && well_typed env e2 && well_typed env e3 && well_typed env e4 && takes env op [e1; e2; e3; e4]
      | Iex_Triop op e1 e2 e3 => well_typed env e1 && well_typed env e2 && well_typed env e3 && takes env op [e1; e2; e3]
      | Iex_ITE e1 e2 e3 => well_typed env e1 && well_typed env e2 && well_typed env e3 && arms_ok env e1 e2 e3
      | Iex_Binop op e1 e2 => well_typed env e1 && well_typed env e2 && takes env op [e1; e2]
      | Iex_CCall _ _ args => forallb (well_typed env) args
      | _ => true
      end
  | Err _ => false
  end.
Definition well_typed_opt (env : IRTypeEnv) (e : option IRExpr) : bool :=
  match e with Some e => well_typed env e | None => true end.
Definition well_typed_arg (env : IRTypeEnv) (e : IRExpr) : bool := is_IRExpr_VECRET_or_GSPTR e || well_typed env e.
Definition well_typed_guard (env : IRTypeEnv) (e : IRExpr) : bool := well_typed env e && has_type env e Ity_I1.

(** The temporaries a statement assigns. *)
Definition opt_def (t : Z) : list Z := if t =? IRTemp_INVALID then [] else [t].
Definition defs (st : IRStmt) : list Z :=
  match st with
  | Ist_WrTmp t _ | Ist_LoadG _ _ t _ _ _ | Ist_LLSC _ t _ _ => [t]
  | Ist_CAS c => opt_def (oldHi c) ++ [oldLo c]
  | Ist_Dirty d => opt_def (tmp d)
  | _ => []
  end.

(** A dirty call has an address if and only if it touches memory. *)
Definition operands_typed (env : IRTypeEnv) (st : IRStmt) : bool :=
  match st with
  | Ist_NoOp | Ist_IMark _ _ _ | Ist_MBE _ => true
  | Ist_Put o e => well_typed env e && match typeOfIRExpr env e with Ok ty => slice_ok o ty | Err _ => false end
  | Ist_PutI d e1 _ e2 => well_typed env e1 && well_typed env e2 && array_ok d
  | Ist_Exit e _ dst _ => well_typed_guard env e && constant_ok dst
  | Ist_WrTmp t e =>
      well_typed env e && match typeOfIRTemp env t with Ok ty => has_type env e ty | Err _ => false end
  | Ist_AbiHint e1 _ e2 | Ist_Store _ e1 e2 => well_typed env e1 && well_typed env e2
  | Ist_StoreG _ e1 e2 e3 => well_typed env e1 && well_typed env e2 && well_typed_guard env e3
  | Ist_LoadG _ cvt t e1 e2 e3 =>
      well_typed env e1 && well_typed env e2 && well_typed_guard env e3
      && match typeOfIRTemp env t with Ok ty => has_type env e2 ty | Err _ => false end
      && match typeOfIRLoadGOp cvt with Ok (res, _) => has_type env (Iex_RdTmp t) res | Err _ => false end
  | Ist_CAS c =>
      well_typed env (cas_addr c) && well_typed_opt env (expdHi c) && well_typed env (expdLo c)
      && well_typed_opt env (dataHi c) && well_typed env (dataLo c)
  | Ist_LLSC _ _ e d => well_typed env e && well_typed_opt env d
  | Ist_Dirty d =>
      well_typed env (guard d) && forallb (well_typed_arg env) (args d)
      && match mAddr d with
         | Some e => bool_decide (mFx d <> Ifx_None) && well_typed env e
         | None => bool_decide (mFx d = Ifx_None)
         end
  end.
Definition well_typed_stmt (env : IRTypeEnv) (st : IRStmt) : bool :=
  forallb (fun t => well_typed env (Iex_RdTmp t)) (defs st) && operands_typed env st.

Definition all_defs (sts : list IRStmt) : list Z := concat (map defs sts).

Definition well_typed_block (sb : IRSB) : bool :=
  forallb (well_typed_stmt (tyenv sb)) (stmts sb) && well_typed (tyenv sb) (next sb)
  && bool_decide (NoDup (all_defs (stmts sb))).

(** ** Lemmas *)

Lemma has_type_iff env e ty : has_type env e ty = true <-> typeOfIRExpr env e = Ok ty.
Proof.
  unfold has_type. destruct (typeOfIRExpr env e) as [ty'|]; [|done]. rewrite bool_decide_eq_true. split; [by intros ->|by intros [= ->]].
Qed.

Lemma well_typed_type env e : well_typed env e = true -> exists ty, typeOfIRExpr env e = Ok ty.
Proof. destruct (typeOfIRExpr env e) as [ty|] eqn:E; [by exists ty|]. destruct e; cbn in *; by rewrite ?E. Qed.

Lemma well_typed_temp env t : well_typed env (Iex_RdTmp t) = true <-> 0 <= t < Z.of_nat (length env).
Proof.
  cbn. unfold typeOfIRTemp. destruct (Z.leb_spec 0 t); cbn; [|split; [done|lia]].
  destruct (Z.ltb_spec t (Z.of_nat (length env))); cbn; [|split; [done|lia]].
  destruct (rd_is_ok env t) as (ty & _ & ->); [lia|]. split; [lia|done].
Qed.

(** The parts of an expression in which every part has a type. *)
Lemma well_typed_parts env e : well_typed env e = true ->
  match e with
  | Iex_Const con => constant_ok con = true
  | Iex_Get o ty => slice_ok o ty = true
  | Iex_GetI _ e _ | Iex_Load _ _ e => well_typed env e = true
  | Iex_Unop op e => well_typed env e = true /\ takes env op [e] = true
  | Iex_Qop op e1 e2 e3 e4 =>
      well_typed env e1 = true /\ well_typed env e2 = true /\ well_typed env e3 = true /\ well_typed env e4 = true
      /\ takes env op [e1; e2; e3; e4] = true
  | Iex_Triop op e1 e2 e3 =>
      well_typed env e1 = true /\ well_typed env e2 = true /\ well_typed env e3 = true /\ takes env op [e1; e2; e3] = true
  | Iex_ITE e1 e2 e3 =>
      well_typed env e1 = true /\ well_typed env e2 = true /\ well_typed env e3 = true /\ arms_ok env e1 e2 e3 = true
  | Iex_Binop op e1 e2 => well_typed env e1 = true /\ well_typed env e2 = true /\ takes env op [e1; e2] = true
  | Iex_CCall _ _ args => Forall (fun e => well_typed env e = true) args
  | Iex_Binder _ | Iex_VECRET | Iex_GSPTR => False
  | _ => True
  end.
Proof.
  intros H. destruct (well_typed_type _ _ H) as [ty E].
  destruct e; try done; cbn [well_typed] in H; rewrite ?E in H; cbn -[takes arms_ok] in H; rewrite ?andb_true_iff in H; try tauto.
  clear E. induction args as [|e l IH]; [constructor|]. cbn in H. apply andb_true_iff in H as [? ?]. constructor; auto.
Qed.

(** Operands that have the types still. *)
Definition keeps_type (env env' : IRTypeEnv) (e e' : IRExpr) : Prop := forall ty, typeOfIRExpr env e = Ok ty -> typeOfIRExpr env' e' = Ok ty.

Lemma keeps_has env env' e e' ty : keeps_type env env' e e' -> has_type env e ty = true -> has_type env' e' ty = true.
Proof. rewrite !has_type_iff. intros H. apply H. Qed.

Lemma keeps_takes env env' op es es' : Forall2 (keeps_type env env') es es' -> takes env op es = true -> takes env' op es' = true.
Proof.
  unfold takes. destruct (typeOfPrimop op) as [t|]; [|done]. generalize (operand_types t).
  intros tys H. revert tys. induction H as [|e e' es es' He _ IH]; intros [|ty tys]; cbn; try done.
  intros [? ?]%andb_true_iff. apply andb_true_iff. split; [by eapply keeps_has|by apply IH].
Qed.

Lemma keeps_arms env env' c t f c' t' f' : keeps_type env env' c c' -> keeps_type env env' t t' -> keeps_type env env' f f' ->
  arms_ok env c t f = true -> arms_ok env' c' t' f' = true.
Proof.
  unfold arms_ok. intros Hc Ht Hf [? H]%andb_true_iff. apply andb_true_iff. split; [by eapply keeps_has|].
  destruct (typeOfIRExpr env t) as [ty|] eqn:E; [|done]. rewrite (Ht _ E). by eapply keeps_has.
Qed.

(** They stay so with more temporaries. *)
Section More.
Context (env ext : IRTypeEnv).

Lemma has_type_more e ty : has_type env e ty = true -> has_type (env ++ ext) e ty = true.
Proof. rewrite !has_type_iff. apply typeOfIRExpr_still. Qed.

Lemma keeps_more e : keeps_type env (env ++ ext) e e.
Proof. intros ty. apply typeOfIRExpr_still. Qed.

Lemma well_typed_more e : well_typed env e = true -> well_typed (env ++ ext) e = true.
Proof.
  assert (Ht : forall op es, takes env op es = true -> takes (env ++ ext) op es = true).
  { intros op es. apply keeps_takes. induction es; constructor; [apply keeps_more|done]. }
  pose proof (keeps_arms env (env ++ ext)) as Ha.
  induction e using IRExpr_nested_ind; intros Hw; pose proof (well_typed_parts _ _ Hw) as Hp; cbn -[takes arms_ok] in Hp; destruct_and?;
    destruct (well_typed_type _ _ Hw) as [ty' Hty]; apply (typeOfIRExpr_still _ ext) in Hty; try done;
    cbn [well_typed]; rewrite Hty; rewrite ?andb_true_iff; split_and?; auto using keeps_more.
  - clear Hw Hty. induction args as [|e l IHl]; [done|]. inversion_clear Hp. inversion_clear H. cbn. rewrite andb_true_iff. auto.
  - by eapply Ha; [apply keeps_more..|].
Qed.
End More.

Lemma typed_temp_more env ext t ty : typeOfIRTemp env t = Ok ty -> typeOfIRTemp (env ++ ext) t = Ok ty.
Proof. apply typeOfIRTemp_still. Qed.

Lemma forallb_impl {A} (f g : A -> bool) l : (forall x, f x = true -> g x = true) -> forallb f l = true -> forallb g l = true.
Proof. intros H. induction l as [|x l IH]; cbn; [done|]. rewrite !andb_true_iff. intros [? ?]. auto. Qed.

Lemma operands_typed_more env ext st : operands_typed env st = true -> operands_typed (env ++ ext) st = true.
Proof.
  pose proof (well_typed_more env ext) as He. pose proof (has_type_more env ext) as Ht.
  assert (Ho : forall e, well_typed_opt env e = true -> well_typed_opt (env ++ ext) e = true) by (intros [e|]; cbn; auto).
  assert (Ha : forall e, well_typed_arg env e = true -> well_typed_arg (env ++ ext) e = true).
  { intros e. unfold well_typed_arg. rewrite !orb_true_iff. intros [?|?]; auto. }
  destruct st; cbn [operands_typed]; unfold well_typed_guard; try done; rewrite ?andb_true_iff; intros; destruct_and?; split_and?; auto.
  - destruct (typeOfIRExpr env data) as [ty|] eqn:E; [|done]. by rewrite (typeOfIRExpr_still _ ext _ _ E).
  - destruct (typeOfIRTemp env tmp) as [ty|] eqn:E; [|done]. rewrite (typed_temp_more _ ext _ _ E). auto.
  - destruct (typeOfIRTemp env dst) as [ty|] eqn:E; [|done]. rewrite (typed_temp_more _ ext _ _ E). auto.
  - destruct (typeOfIRLoadGOp cvt) as [[]|]; [|done]. auto.
  - by eapply forallb_impl.
  - destruct (mAddr details); [|done]. rewrite andb_true_iff in *. destruct_and?. auto.
Qed.

Lemma well_typed_stmt_more env ext st : well_typed_stmt env st = true -> well_typed_stmt (env ++ ext) st = true.
Proof.
  unfold well_typed_stmt. rewrite !andb_true_iff. intros [Hd Ho]. split; [|by apply operands_typed_more].
  eapply forallb_impl; [|exact Hd]. intros t. apply well_typed_more.
Qed.

Lemma all_defs_app l1 l2 : all_defs (l1 ++ l2) = all_defs l1 ++ all_defs l2.
Proof. unfold all_defs. by rewrite map_app, concat_app. Qed.

(** The new operand has the type of the old one. *)
Definition retyped (env env' : IRTypeEnv) (e e' : IRExpr) : Prop := well_typed env' e' = true /\ keeps_type env env' e e'.

Lemma retyped_more env env1 ext e e' : retyped env env1 e e' -> retyped env (env1 ++ ext) e e'.
Proof. intros [H1 H2]. split; [by apply well_typed_more|]. intros ty Hty. by apply typeOfIRExpr_still, H2. Qed.

Lemma retyped_later env ext env1 e e' : well_typed env e = true -> retyped (env ++ ext) env1 e e' -> retyped env env1 e e'.
Proof. intros He [H1 H2]. split; [done|]. intros ty Hty. by apply H2, typeOfIRExpr_still. Qed.

Lemma retyped_wt env env' e e' : retyped env env' e e' -> well_typed env' e' = true.
Proof. by intros [? _]. Qed.

Lemma retyped_has env env' e e' ty : retyped env env' e e' -> has_type env e ty = true -> has_type env' e' ty = true.
Proof. rewrite !has_type_iff. intros [_ H]. apply H. Qed.

Lemma retyped_opt env env' e e' : like_opt (retyped env env') e e' -> well_typed_opt env' e' = true.
Proof. destruct e, e'; cbn; try done. apply retyped_wt. Qed.

Lemma retyped_args env env' l l' : Forall2 (like_arg (retyped env env')) l l' -> forallb (well_typed_arg env') l' = true.
Proof.
  induction 1 as [|e e' l l' He _ IH]; [done|]. cbn. rewrite IH, andb_true_r. unfold like_arg, well_typed_arg in *.
  destruct (is_IRExpr_VECRET_or_GSPTR e) eqn:E; [by subst; rewrite E|]. destruct He as [_ [-> _]]. apply orb_true_r.
Qed.

(** Statements alike in operands of the same types have types alike. *)
Lemma like_typed env ext st st' : like (retyped env (env ++ ext)) st st' ->
  (forall d d', st = Ist_Dirty d -> st' = Ist_Dirty d' -> mFx d = Ifx_None -> mAddr d' = None) ->
  well_typed_stmt env st = true -> well_typed_stmt (env ++ ext) st' = true /\ defs st' = defs st.
Proof.
  intros Hl Hnull [Hd Ho]%andb_true_iff.
  assert (Hs : defs st' = defs st) by (by destruct Hl). split; [|done].
  unfold well_typed_stmt. rewrite Hs. apply andb_true_iff. split.
  { eapply forallb_impl; [|exact Hd]. intros t. apply well_typed_more. }
  clear Hd Hs. destruct Hl; cbn [operands_typed] in Ho |- *; unfold well_typed_guard in *; rewrite ?andb_true_iff in *; destruct_and?; split_and?;
    try done; eauto using retyped_wt, retyped_has, retyped_opt, retyped_args, has_type_more.
  - destruct (typeOfIRExpr env e) as [ty|] eqn:E; [|done]. match goal with H : retyped _ _ e _ |- _ => by rewrite (proj2 H _ E) end.
  - destruct (typeOfIRTemp env t) as [ty|] eqn:E; [|done]. rewrite (typed_temp_more _ ext _ _ E). by eapply retyped_has.
  - destruct (typeOfIRTemp env t) as [ty|] eqn:E; [|done]. rewrite (typed_temp_more _ ext _ _ E). by eapply retyped_has.
  - destruct (typeOfIRLoadGOp cvt) as [[]|]; [|done]. by apply has_type_more.
  - cbn [guard args mAddr mFx] in *. destruct a as [a|].
    + rewrite andb_true_iff in *. destruct_and?. match goal with H : bool_decide (f <> _) = true |- _ => apply bool_decide_eq_true in H; rename H into Hf end.
      match goal with H : f <> _ -> like_opt _ _ _ |- _ => specialize (H Hf) end. destruct a' as [a'|]; [|done]. rewrite bool_decide_eq_true_2 by done. by eapply retyped_wt.
    + match goal with H : bool_decide (f = _) = true |- _ => apply bool_decide_eq_true in H; subst f end.
      specialize (Hnull _ _ eq_refl eq_refl eq_refl). cbn in Hnull. by subst a'.
Qed.

(** ** Flat blocks *)

Lemma flat_stmts_iff sts : flat_stmts sts = Ok true <-> Forall (fun st => isFlatIRStmt st = Ok true) sts.
Proof.
  induction sts as [|st sts IH]; [done|]. cbn. rewrite Forall_cons. destruct (isFlatIRStmt st) as [[]|]; cbn; [tauto|..]; split; naive_solver.
Qed.

Definition flat_stmt (env : IRTypeEnv) (st : IRStmt) : Prop := well_typed_stmt env st = true /\ isFlatIRStmt st = Ok true.

(** The right-hand side of an assignment. *)
Definition flat_rhs (e : IRExpr) : Prop := isFlatIRStmt (Ist_WrTmp 0 e) = Ok true.

(** What the passes after flattening need and keep. *)
Definition flat_block (sb : IRSB) : Prop :=
  Forall (flat_stmt (tyenv sb)) (stmts sb) /\ NoDup (all_defs (stmts sb))
  /\ well_typed (tyenv sb) (next sb) = true /\ isIRAtom (next sb) = true.

Lemma flat_block_iff sb : flat_block sb <-> well_typed_block sb = true /\ isFlatIRSB sb = Ok true.
Proof.
  unfold flat_block, well_typed_block, flat_stmt. rewrite Forall_and, !andb_true_iff, bool_decide_eq_true, forallb_forall, <-List.Forall_forall.
  assert (E : isFlatIRSB sb = Ok true <-> Forall (fun st => isFlatIRStmt st = Ok true) (stmts sb) /\ isIRAtom (next sb) = true); [|tauto].
  rewrite <-flat_stmts_iff. unfold isFlatIRSB. destruct (flat_stmts (stmts sb)) as [[]|]; cbn; [|naive_solver..].
  split; [by intros [= ->]|by intros [_ ->]].
Qed.
