(* ===== verification/OpSem.v ===== *)
(** * What operators compute

    A reference for the operators of VEX/pub/libvex_ir.h that the optimiser folds:
    functions of numbers, by the name of the operator and its widths.  Where the
    header leaves a result open (a shift by the width or more, the leading zeroes
    of 0) there is none, except that 0 shifted by anything is 0.  [IntegerLaws] is
    what a machine promises whose operators compute this. *)

From S2P Require Import Prelude Primop IR IRSem IRTyping.

(** ** Numbers *)

(** A number of [w] bits read as a signed one. *)
Definition signed (w x : Z) : Z := if x <? 2 ^ (w - 1) then x else x - 2 ^ w.

Definition unary (f : Z -> Z) (l : list Z) : option Z := match l with [x] => Some (f x) | _ => None end.
Definition binary (f : Z -> Z -> Z) (l : list Z) : option Z := match l with [x; y] => Some (f x y) | _ => None end.

Definition shl (w : Z) (l : list Z) : option Z :=
  match l with [x; n] => if n <? w then Some ((x * 2 ^ n) mod 2 ^ w) else if x =? 0 then Some 0 else None | _ => None end.
Definition shr (w : Z) (l : list Z) : option Z :=
  match l with [x; n] => if n <? w then Some (x / 2 ^ n) else if x =? 0 then Some 0 else None | _ => None end.
Definition sar (w : Z) (l : list Z) : option Z :=
  match l with
  | [x; n] => if n <? w then Some ((signed w x / 2 ^ n) mod 2 ^ w) else if x =? 0 then Some 0 else None
  | _ => None
  end.
Definition clz (w : Z) (l : list Z) : option Z :=
  match l with [x] => if x =? 0 then None else Some (w - 1 - Z.log2 x) | _ => None end.

(** The number of 1 bits of [x] below bit [k]; the place of its lowest 1 bit, [k]
    for none below. *)
Fixpoint popcount (k : nat) (x : Z) : Z := match k with O => 0 | S k => Z.b2z (Z.testbit x (Z.of_nat k)) + popcount k x end.
Fixpoint ctz (k : nat) (x : Z) : Z := match k with O => 0 | S k => if Z.odd x then 0 else 1 + ctz k (x / 2) end.

(** [n] lanes of [w] bits. *)
Definition lane (w : Z) (i : nat) (x : Z) : Z := (x / 2 ^ (w * Z.of_nat i)) mod 2 ^ w.
Fixpoint of_lanes (w : Z) (l : list Z) : Z := match l with [] => 0 | x :: l => x + 2 ^ w * of_lanes w l end.
Definition lanes (n : nat) (w : Z) (f : Z -> Z -> Z) : list Z -> option Z :=
  binary (fun x y => of_lanes w (map (fun i => f (lane w i x) (lane w i y)) (seq 0 n))).
Definition all_ones (w : Z) : Z := 2 ^ w - 1.

(** ** Operators *)

(** The operators of a kind with a width or two. *)
Definition kinds : list (list (Z * Z) * (Z -> list Z -> option Z)) :=
  [([(Iop_Add8, 8); (Iop_Add32, 32); (Iop_Add64, 64)], fun w => binary (fun x y => (x + y) mod 2 ^ w));
   ([(Iop_Sub8, 8); (Iop_Sub32, 32); (Iop_Sub64, 64)], fun w => binary (fun x y => (x - y) mod 2 ^ w));
   ([(Iop_Mul32, 32); (Iop_Mul64, 64)], fun w => binary (fun x y => (x * y) mod 2 ^ w));
   ([(Iop_MullS32, 32)], fun w => binary (fun x y => (signed w x * signed w y) mod 2 ^ (2 * w)));
   ([(Iop_Or8, 8); (Iop_Or16, 16); (Iop_Or32, 32); (Iop_Or64, 64); (Iop_OrV128, 128); (Iop_OrV256, 256)], fun _ => binary Z.lor);
   ([(Iop_And8, 8); (Iop_And16, 16); (Iop_And32, 32); (Iop_And64, 64); (Iop_AndV128, 128); (Iop_AndV256, 256)], fun _ => binary Z.land);
   ([(Iop_Xor8, 8); (Iop_Xor16, 16); (Iop_Xor32, 32); (Iop_Xor64, 64); (Iop_XorV128, 128); (Iop_XorV256, 256)], fun _ => binary Z.lxor);
   ([(Iop_Not1, 1); (Iop_Not8, 8); (Iop_Not16, 16); (Iop_Not32, 32); (Iop_Not64, 64); (Iop_NotV128, 128)], fun w => unary (fun x => all_ones w - x));
   ([(Iop_Shl8, 8); (Iop_Shl32, 32); (Iop_Shl64, 64)], shl);
   ([(Iop_Shr32, 32); (Iop_Shr64, 64)], shr);
   ([(Iop_Sar32, 32); (Iop_Sar64, 64)], sar);
   ([(Iop_CmpEQ32, 32); (Iop_CmpEQ64, 64)], fun _ => binary (fun x y => Z.b2z (x =? y)));
   ([(Iop_CmpNE8, 8); (Iop_CmpNE32, 32); (Iop_CmpNE64, 64); (Iop_CasCmpNE8, 8); (Iop_CasCmpNE32, 32); (Iop_CasCmpNE64, 64);
     (Iop_ExpCmpNE8, 8); (Iop_ExpCmpNE32, 32); (Iop_ExpCmpNE64, 64)], fun _ => binary (fun x y => Z.b2z (negb (x =? y))));
   ([(Iop_CmpLT32U, 32); (Iop_CmpLT64U, 64)], fun _ => binary (fun x y => Z.b2z (x <? y)));
   ([(Iop_CmpLE32U, 32); (Iop_CmpLE64U, 64)], fun _ => binary (fun x y => Z.b2z (x <=? y)));
   ([(Iop_CmpLT32S, 32); (Iop_CmpLT64S, 64)], fun w => binary (fun x y => Z.b2z (signed w x <? signed w y)));
   ([(Iop_CmpLE32S, 32); (Iop_CmpLE64S, 64)], fun w => binary (fun x y => Z.b2z (signed w x <=? signed w y)));
   ([(Iop_CmpORD32S, 32)], fun w => binary (fun x y => if signed w x <? signed w y then 8 else if signed w y <? signed w x then 4 else 2));
   ([(Iop_Max32U, 32)], fun _ => binary Z.max);
   ([(Iop_CmpNEZ8, 8); (Iop_CmpNEZ32, 32); (Iop_CmpNEZ64, 64)], fun _ => unary (fun x => Z.b2z (negb (x =? 0))));
   ([(Iop_CmpwNEZ32, 32); (Iop_CmpwNEZ64, 64)], fun w => unary (fun x => if x =? 0 then 0 else all_ones w));
   ([(Iop_Left32, 32); (Iop_Left64, 64)], fun w => unary (fun x => Z.lor x ((- x) mod 2 ^ w)));
   ([(Iop_Clz32, 32); (Iop_Clz64, 64)], clz);
   ([(Iop_PopCount64, 64)], fun w => unary (popcount (Z.to_nat w)));
   ([(Iop_CtzNat64, 64)], fun w => unary (ctz (Z.to_nat w)));
   ([(Iop_1Uto8, 8); (Iop_1Uto32, 32); (Iop_1Uto64, 64); (Iop_8Uto16, 16); (Iop_8Uto32, 32); (Iop_8Uto64, 64); (Iop_16Uto32, 32);
     (Iop_16Uto64, 64); (Iop_32Uto64, 64); (Iop_32UtoV128, 128); (Iop_64UtoV128, 128)], fun _ => unary id);
   ([(Iop_1Sto8, 8); (Iop_1Sto16, 16); (Iop_1Sto32, 32); (Iop_1Sto64, 64)], fun w => unary (fun x => signed 1 x mod 2 ^ w));
   ([(Iop_8Sto16, 16); (Iop_8Sto32, 32)], fun w => unary (fun x => signed 8 x mod 2 ^ w));
   ([(Iop_16Sto32, 32); (Iop_16Sto64, 64)], fun w => unary (fun x => signed 16 x mod 2 ^ w));
   ([(Iop_32Sto64, 64)], fun w => unary (fun x => signed 32 x mod 2 ^ w));
   ([(Iop_32to1, 1); (Iop_64to1, 1); (Iop_16to8, 8); (Iop_32to8, 8); (Iop_64to8, 8); (Iop_32to16, 16); (Iop_64to16, 16); (Iop_64to32, 32);
     (Iop_V128to64, 64); (Iop_ZeroHI64ofV128, 64)], fun w => unary (fun x => x mod 2 ^ w));
   ([(Iop_16HIto8, 8); (Iop_64HIto32, 32); (Iop_V128HIto64, 64)], fun w => unary (fun x => x / 2 ^ w));
   ([(Iop_V256to64_0, 0); (Iop_V256to64_1, 1); (Iop_V256to64_2, 2); (Iop_V256to64_3, 3)], fun i => unary (lane 64 (Z.to_nat i)));
   ([(Iop_32HLto64, 32); (Iop_64HLto128, 64); (Iop_64HLtoV128, 64); (Iop_V128HLtoV256, 128)], fun w => binary (fun hi lo => hi * 2 ^ w + lo));
   ([(Iop_Sub8x16, 8)], fun w => lanes 16 w (fun x y => (x - y) mod 2 ^ w));
   ([(Iop_CmpEQ8x8, 8)], fun w => lanes 8 w (fun x y => if x =? y then all_ones w else 0));
   ([(Iop_CmpEQ8x16, 8)], fun w => lanes 16 w (fun x y => if x =? y then all_ones w else 0));
   ([(Iop_CmpEQ16x8, 16)], fun w => lanes 8 w (fun x y => if x =? y then all_ones w else 0));
   ([(Iop_CmpEQ32x4, 32)], fun w => lanes 4 w (fun x y => if x =? y then all_ones w else 0));
   ([(Iop_CmpEQ32x8, 32)], fun w => lanes 8 w (fun x y => if x =? y then all_ones w else 0));
   ([(Iop_InterleaveLO8x16, 8)], fun w =>
      binary (fun x y => of_lanes w (concat (map (fun i => [lane w i y; lane w i x]) (seq 0 8)))))].

Definition kind_of (rows : list (list (Z * Z) * (Z -> list Z -> option Z))) (op : Z) : option (list Z -> option Z) :=
  head (omap (fun k => (fun p => k.2 p.2) <$> find (fun p => p.1 =? op) k.1) rows).
Definition meaning : Z -> option (list Z -> option Z) := kind_of kinds.
Definition ref_op (op : Z) (args : list Z) : option Z := f ← meaning op; f args.

(** ** Constants *)

(** A vector constant has a bit for each byte, which is all 0s or all 1s. *)
Fixpoint expand (n : nat) (s : Z) : Z :=
  match n with O => 0 | S n => (if Z.testbit s (Z.of_nat n) then 255 else 0) * 2 ^ (8 * Z.of_nat n) + expand n s end.

Definition const_value (c : IRConst) : option Z :=
  match c with
  | Ico_U1 v | Ico_U8 v | Ico_U16 v | Ico_U32 v | Ico_U64 v => Some v
  | Ico_V128 s => Some (expand 16 s)
  | Ico_V256 s => Some (expand 32 s)
  | _ => None
  end.

Definition width (ty : IRType) : option Z :=
  match ty with
  | Ity_I1 => Some 1 | Ity_I8 => Some 8 | Ity_I16 => Some 16 | Ity_I32 => Some 32 | Ity_I64 => Some 64 | Ity_I128 => Some 128
  | Ity_V128 => Some 128 | Ity_V256 => Some 256
  | _ => None
  end.

(** ** Machines that compute it *)

(** Values of integer and vector types are numbers. *)
Class IntegerLaws {V W} (M : Machine V W) := {
  v_bits : V -> Z;
  bits_range v w : width (v_type v) = Some w -> 0 <= v_bits v < 2 ^ w;
  bits_inj v v' : v_type v = v_type v' -> width (v_type v) <> None -> v_bits v = v_bits v' -> v = v';
  bits_const c n : constant_ok c = true -> const_value c = Some n -> v_bits (v_const c) = n;
  bits_op op t vs n : typeOfPrimop op = Ok t -> map v_type vs = operand_types t -> ref_op op (map v_bits vs) = Some n ->
    v_bits (v_op op vs) = n
}.

(** The offset of an element of a circular array of guest registers, whose
    elements have [n] bytes: the index is [(ix + bias) % nElems]. *)
Definition element (d : IRRegArray) (ix bias n : Z) : Z := ra_base d + ((ix + bias) mod ra_nElems d) * n.

(** Indexed accesses are accesses to the elements. *)
Class ArrayLaws {V W} (M : Machine V W) `{!IntegerLaws M} := {
  geti_element w d v b n : v_type v = Ity_I32 -> sizeofIRType (elemTy d) = Ok n -> 0 < ra_nElems d ->
    w_geti w d v b = w_get w (element d (v_bits v) b n) (elemTy d);
  puti_element w d i b v n : v_type i = Ity_I32 -> sizeofIRType (elemTy d) = Ok n -> 0 < ra_nElems d -> v_type v = elemTy d ->
    w_puti w d i b v = w_put w (element d (v_bits i) b n) v
}.

(** What is loaded depends on memory only, and the value of a clean call on the
    address of the helper only: its name and the mask are for other tools. *)
Class LoadLaws {V W} (M : Machine V W) := {
  load_put w o v en ty a : w_load (w_put w o v) en ty a = w_load w en ty a;
  load_puti w d i b v en ty a : w_load (w_puti w d i b v) en ty a = w_load w en ty a;
  load_mark w x n d en ty a : w_load (w_mark w x n d) en ty a = w_load w en ty a;
  load_hint w b n x en ty a : w_load (w_hint w b n x) en ty a = w_load w en ty a;
  call_by_addr c c' ty vs : addr c = addr c' -> v_call c ty vs = v_call c' ty vs
}.
