(* ===== verification/Fold.v ===== *)
(** * Folding of expressions: VEX/priv/ir_opt.c

    [fold_Expr_WRK] and its helpers: operators on constants, and identities.  The
    cases of a switch on an operator are a list, and those of one case that are
    tried in turn are joined by [orelse].  [None] is an expression that is not
    folded.  What is printed when the verbosity is not 0 is left out. *)

From S2P Require Import Prelude Primop IR.

(** ** Constants *)

(** The members of the union in [IRConst]. *)
Definition as_U1 (c : IRConst) : outcome Z := match c with Ico_U1 v => Ok v | _ => Err Undefined end.
Definition as_U8 (c : IRConst) : outcome Z := match c with Ico_U8 v => Ok v | _ => Err Undefined end.
Definition as_U16 (c : IRConst) : outcome Z := match c with Ico_U16 v => Ok v | _ => Err Undefined end.
Definition as_U32 (c : IRConst) : outcome Z := match c with Ico_U32 v => Ok v | _ => Err Undefined end.
Definition as_U64 (c : IRConst) : outcome Z := match c with Ico_U64 v => Ok v | _ => Err Undefined end.
Definition as_V128 (c : IRConst) : outcome Z := match c with Ico_V128 v => Ok v | _ => Err Undefined end.
Definition as_V256 (c : IRConst) : outcome Z := match c with Ico_V256 v => Ok v | _ => Err Undefined end.

Definition isZeroU32 (e : IRExpr) : bool := match e with Iex_Const (Ico_U32 v) => v =? 0 | _ => false end.
Definition isZeroV128 (e : IRExpr) : bool := match e with Iex_Const (Ico_V128 v) => v =? 0 | _ => false end.
Definition isOnesV128 (e : IRExpr) : bool := match e with Iex_Const (Ico_V128 v) => v =? 0xFFFF | _ => false end.
Definition isZeroV256 (e : IRExpr) : bool := match e with Iex_Const (Ico_V256 v) => v =? 0 | _ => false end.

Definition isZeroU (e : IRExpr) : outcome bool :=
  match e with
  | Iex_Const con =>
      match con with
      | Ico_U1 v | Ico_U8 v | Ico_U16 v | Ico_U32 v | Ico_U64 v | Ico_V256 v => Ok (v =? 0)
      | _ => Err Panic
      end
  | _ => Ok false
  end.

Definition isOnesU (e : IRExpr) : outcome bool :=
  match e with
  | Iex_Const con =>
      match con with
      | Ico_U8 v => Ok (v =? 0xFF)
      | Ico_U16 v => Ok (v =? 0xFFFF)
      | Ico_U32 v => Ok (v =? 0xFFFFFFFF)
      | Ico_U64 v => Ok (v =? 0xFFFFFFFFFFFFFFFF)
      | _ => Err Panic
      end
  | _ => Ok false
  end.

Definition notBool (b : Z) : outcome Z := if b =? 1 then Ok 0 else if b =? 0 then Ok 1 else Err Panic.

(** The case of a switch that has the operator [op]. *)
Definition case {A} (cases : list (list Z * A)) (op : Z) : option A :=
  snd <$> find (fun p => existsb (Z.eqb op) p.1) cases.

Definition zeros : list (list Z * IRConst) :=
  [([Iop_CmpNE32], Ico_U1 0); ([Iop_Xor8], Ico_U8 0); ([Iop_Xor16], Ico_U16 0); ([Iop_Sub32; Iop_Xor32], Ico_U32 0);
   ([Iop_And64; Iop_Sub64; Iop_Xor64], Ico_U64 0); ([Iop_XorV128; Iop_AndV128], Ico_V128 0);
   ([Iop_XorV256; Iop_AndV256], Ico_V256 0)].
Definition mkZeroOfPrimopResultType (op : Z) : outcome IRExpr :=
  match case zeros op with Some c => Ok (Iex_Const c) | None => Err Panic end.

Definition ones : list (list Z * IRConst) :=
  [([Iop_CmpEQ32; Iop_CmpEQ64], Ico_U1 1); ([Iop_Or8], Ico_U8 0xFF); ([Iop_Or16], Ico_U16 0xFFFF);
   ([Iop_Or32], Ico_U32 0xFFFFFFFF); ([Iop_CmpEQ8x8; Iop_Or64], Ico_U64 0xFFFFFFFFFFFFFFFF);
   ([Iop_CmpEQ8x16; Iop_CmpEQ16x8; Iop_CmpEQ32x4], Ico_V128 0xFFFF); ([Iop_CmpEQ32x8], Ico_V256 0xFFFFFFFF)].
Definition mkOnesOfPrimopResultType (op : Z) : outcome IRExpr :=
  match case ones op with Some c => Ok (Iex_Const c) | None => Err Panic end.

(** [for (i = 0; i < n; ++i) if (value & (1 << (n - 1 - i))) return i], from the
    [k]-th last round on. *)
Fixpoint clz_loop (n : Z) (value : Z) (k : nat) : outcome Z :=
  match k with
  | O => Err AssertFail
  | S k => let i := n - 1 - Z.of_nat k in
           if negb (Z.land value (Z.shiftl 1 (n - 1 - i)) =? 0) then Ok i else clz_loop n value k
  end.
Definition fold_Clz64 (value : Z) : outcome Z := let* _ := assert_that (negb (value =? 0)) in clz_loop 64 value 64.
Definition fold_Clz32 (value : Z) : outcome Z := let* _ := assert_that (negb (value =? 0)) in clz_loop 32 value 32.

(** ** Operators on constants *)

Definition folded : Type := outcome (option IRConst).
Definition to_const (c : IRConst) : folded := Ok (Some c).
Definition unhandled : folded := Ok None.

Definition un (as_ : IRConst -> outcome Z) (f : Z -> folded) (c : IRConst) : folded := let* x := as_ c in f x.

(** [if (b) hi else 0]. *)
Definition select (hi b : Z) : Z := if b =? 0 then 0 else hi.

(** Shift left and then, signed, right. *)
Definition sext8_32 (x : Z) : Z := u32 (Z.shiftr (s32 (u32 (Z.shiftl x 24))) 24).
Definition sext16_32 (x : Z) : Z := u32 (Z.shiftr (s32 (u32 (Z.shiftl x 16))) 16).
Definition s16 (x : Z) : Z := (x + 2 ^ 15) mod 2 ^ 16 - 2 ^ 15.
Definition sext8_16 (x : Z) : Z := u16 (Z.shiftr (s16 (u16 (Z.shiftl x 8))) 8).
Definition sext16_64 (x : Z) : Z := u64 (Z.shiftr (s64 (u64 (Z.shiftl x 48))) 48).
Definition sext32_64 (x : Z) : Z := u64 (Z.shiftr (s64 (u64 (Z.shiftl x 32))) 32).

(** [s | (-s)]: the negation of the least number overflows. *)
Definition left32 (x : Z) : folded :=
  let s := s32 (Z.land x 0xFFFFFFFF) in let* _ := defined_when (negb (s =? - 2 ^ 31)) in to_const (Ico_U32 (u32 (Z.lor s (- s)))).
Definition left64 (x : Z) : folded :=
  let s := s64 x in let* _ := defined_when (negb (s =? - 2 ^ 63)) in to_const (Ico_U64 (u64 (Z.lor s (- s)))).

Definition widen_cases : list (list Z * (IRConst -> folded)) :=
  [([Iop_1Uto8], un as_U1 (fun b => to_const (Ico_U8 (select 1 b))));
   ([Iop_1Uto32], un as_U1 (fun b => to_const (Ico_U32 (select 1 b))));
   ([Iop_1Uto64], un as_U1 (fun b => to_const (Ico_U64 (select 1 b))));
   ([Iop_1Sto8], un as_U1 (fun b => to_const (Ico_U8 (select 0xFF b))));
   ([Iop_1Sto16], un as_U1 (fun b => to_const (Ico_U16 (select 0xFFFF b))));
   ([Iop_1Sto32], un as_U1 (fun b => to_const (Ico_U32 (select 0xFFFFFFFF b))));
   ([Iop_1Sto64], un as_U1 (fun b => to_const (Ico_U64 (select 0xFFFFFFFFFFFFFFFF b))));
   ([Iop_8Sto32], un as_U8 (fun x => to_const (Ico_U32 (sext8_32 x))));
   ([Iop_16Sto32], un as_U16 (fun x => to_const (Ico_U32 (sext16_32 x))));
   ([Iop_8Uto64], un as_U8 (fun x => to_const (Ico_U64 (Z.land 0xFF x))));
   ([Iop_16Uto64], un as_U16 (fun x => to_const (Ico_U64 (Z.land 0xFFFF x))));
   ([Iop_8Uto32], un as_U8 (fun x => to_const (Ico_U32 (Z.land 0xFF x))));
   ([Iop_8Sto16], un as_U8 (fun x => to_const (Ico_U16 (sext8_16 x))));
   ([Iop_8Uto16], un as_U8 (fun x => to_const (Ico_U16 (Z.land 0xFF x))));
   ([Iop_16Uto32], un as_U16 (fun x => to_const (Ico_U32 (Z.land 0xFFFF x))));
   ([Iop_32to16], un as_U32 (fun x => to_const (Ico_U16 (Z.land 0xFFFF x))));
   ([Iop_32to8], un as_U32 (fun x => to_const (Ico_U8 (Z.land 0xFF x))));
   ([Iop_32to1], un as_U32 (fun x => to_const (Ico_U1 (Z.b2z (1 =? Z.land 1 x)))));
   ([Iop_64to1], un as_U64 (fun x => to_const (Ico_U1 (Z.b2z (1 =? Z.land 1 x)))))].

(** [~x] on [w] bits. *)
Definition complement (w x : Z) : Z := Z.lnot x mod 2 ^ w.

Definition narrow_cases : list (list Z * (IRConst -> folded)) :=
  [([Iop_NotV128], un as_V128 (fun x => to_const (Ico_V128 (complement 16 x))));
   ([Iop_Not64], un as_U64 (fun x => to_const (Ico_U64 (complement 64 x))));
   ([Iop_Not32], un as_U32 (fun x => to_const (Ico_U32 (complement 32 x))));
   ([Iop_Not16], un as_U16 (fun x => to_const (Ico_U16 (complement 16 x))));
   ([Iop_Not8], un as_U8 (fun x => to_const (Ico_U8 (complement 8 x))));
   ([Iop_Not1], un as_U1 (fun b => let* b := notBool b in to_const (Ico_U1 b)));
   ([Iop_64to8], un as_U64 (fun x => to_const (Ico_U8 (Z.land x 0xFF))));
   ([Iop_64to16], un as_U64 (fun x => to_const (Ico_U16 (Z.land x 0xFFFF))));
   ([Iop_64to32], un as_U64 (fun x => to_const (Ico_U32 (Z.land x 0xFFFFFFFF))));
   ([Iop_64HIto32], un as_U64 (fun x => to_const (Ico_U32 (u32 (Z.shiftr x 32)))));
   ([Iop_32Uto64], un as_U32 (fun x => to_const (Ico_U64 (Z.land 0xFFFFFFFF x))));
   ([Iop_16Sto64], un as_U16 (fun x => to_const (Ico_U64 (sext16_64 x))));
   ([Iop_32Sto64], un as_U32 (fun x => to_const (Ico_U64 (sext32_64 x))));
   ([Iop_16to8], un as_U16 (fun x => to_const (Ico_U8 (Z.land x 0xFF))));
   ([Iop_16HIto8], un as_U16 (fun x => to_const (Ico_U8 (Z.land (Z.shiftr x 8) 0xFF))))].

Definition bool_const (b : bool) : folded := to_const (Ico_U1 (Z.b2z b)).

Definition test_cases : list (list Z * (IRConst -> folded)) :=
  [([Iop_CmpNEZ8], un as_U8 (fun x => bool_const (negb (0 =? Z.land 0xFF x))));
   ([Iop_CmpNEZ32], un as_U32 (fun x => bool_const (negb (0 =? Z.land 0xFFFFFFFF x))));
   ([Iop_CmpNEZ64], un as_U64 (fun x => bool_const (negb (0 =? x))));
   ([Iop_CmpwNEZ32], un as_U32 (fun x => to_const (Ico_U32 (select 0xFFFFFFFF x))));
   ([Iop_CmpwNEZ64], un as_U64 (fun x => to_const (Ico_U64 (select 0xFFFFFFFFFFFFFFFF x))));
   ([Iop_Left32], un as_U32 left32);
   ([Iop_Left64], un as_U64 left64);
   ([Iop_Clz32], un as_U32 (fun x => if x =? 0 then unhandled else let* n := fold_Clz32 x in to_const (Ico_U32 n)));
   ([Iop_Clz64], un as_U64 (fun x => if x =? 0 then unhandled else let* n := fold_Clz64 x in to_const (Ico_U64 n)));
   ([Iop_32UtoV128], un as_U32 (fun x => if x =? 0 then to_const (Ico_V128 0) else unhandled));
   ([Iop_V128to64], un as_V128 (fun x => if Z.land (Z.shiftr x 0) 0xFF =? 0 then to_const (Ico_U64 0) else unhandled));
   ([Iop_V128HIto64], un as_V128 (fun x => if Z.land (Z.shiftr x 8) 0xFF =? 0 then to_const (Ico_U64 0) else unhandled));
   ([Iop_64UtoV128], un as_U64 (fun x => if x =? 0 then to_const (Ico_V128 0) else unhandled));
   ([Iop_V256to64_0; Iop_V256to64_1; Iop_V256to64_2; Iop_V256to64_3],
      un as_V256 (fun x => if x =? 0 then to_const (Ico_U64 0) else unhandled));
   ([Iop_ZeroHI64ofV128], un as_V128 (fun x => if x =? 0 then to_const (Ico_V128 0) else unhandled))].

Definition unop_cases := widen_cases ++ narrow_cases ++ test_cases.

Definition bin (as1 as2 : IRConst -> outcome Z) (f : Z -> Z -> folded) (c1 c2 : IRConst) : folded :=
  let* x := as1 c1 in let* y := as2 c2 in f x y.
Definition bin8 f := bin as_U8 as_U8 (fun x y => to_const (Ico_U8 (u8 (f x y)))).
Definition bin16 f := bin as_U16 as_U16 (fun x y => to_const (Ico_U16 (u16 (f x y)))).
Definition bin32 f := bin as_U32 as_U32 (fun x y => to_const (Ico_U32 (u32 (f x y)))).
Definition bin64 f := bin as_U64 as_U64 (fun x y => to_const (Ico_U64 (u64 (f x y)))).
Definition binV128 f := bin as_V128 as_V128 (fun x y => to_const (Ico_V128 (u16 (f x y)))).

Definition arith_cases : list (list Z * (IRConst -> IRConst -> folded)) :=
  [([Iop_Or8], bin8 Z.lor); ([Iop_Or16], bin16 Z.lor); ([Iop_Or32], bin32 Z.lor); ([Iop_Or64], bin64 Z.lor);
   ([Iop_OrV128], binV128 Z.lor);
   ([Iop_Xor8], bin8 Z.lxor); ([Iop_Xor16], bin16 Z.lxor); ([Iop_Xor32], bin32 Z.lxor); ([Iop_Xor64], bin64 Z.lxor);
   ([Iop_XorV128], binV128 Z.lxor);
   ([Iop_And8], bin8 Z.land); ([Iop_And16], bin16 Z.land); ([Iop_And32], bin32 Z.land); ([Iop_And64], bin64 Z.land);
   ([Iop_AndV128], binV128 Z.land);
   ([Iop_Add8], bin8 Z.add); ([Iop_Add32], bin32 Z.add); ([Iop_Add64], bin64 Z.add);
   ([Iop_Sub8], bin8 Z.sub); ([Iop_Sub32], bin32 Z.sub); ([Iop_Sub64], bin64 Z.sub)].

(** Shifts by a constant that is in range. *)
Definition shift (w : Z) (as_ : IRConst -> outcome Z) (f : Z -> Z -> folded) (c1 c2 : IRConst) : folded :=
  let* n := match c2 with Ico_U8 n => Ok n | _ => Err AssertFail end in
  let* x := as_ c1 in
  if (0 <=? n) && (n <=? w - 1) then f x n else unhandled.

Definition shift_cases : list (list Z * (IRConst -> IRConst -> folded)) :=
  [([Iop_Max32U], bin as_U32 as_U32 (fun x y => to_const (Ico_U32 (if y <? x then x else y))));
   ([Iop_Mul32], bin32 Z.mul);
   ([Iop_Mul64], bin64 Z.mul);
   ([Iop_MullS32], bin as_U32 as_U32 (fun x y => to_const (Ico_U64 (u64 (s32 x * s32 y)))));
   ([Iop_Shl32], shift 32 as_U32 (fun x n => to_const (Ico_U32 (u32 (Z.shiftl x n)))));
   ([Iop_Shl64], shift 64 as_U64 (fun x n => to_const (Ico_U64 (u64 (Z.shiftl x n)))));
   ([Iop_Sar32], shift 32 as_U32 (fun x n => to_const (Ico_U32 (u32 (Z.shiftr (s32 x) n)))));
   ([Iop_Sar64], shift 64 as_U64 (fun x n => to_const (Ico_U64 (u64 (Z.shiftr (s64 x) n)))));
   ([Iop_Shr32], shift 32 as_U32 (fun x n => to_const (Ico_U32 (Z.shiftr x n))));
   ([Iop_Shr64], shift 64 as_U64 (fun x n => to_const (Ico_U64 (Z.shiftr x n))))].

Definition cmp32 f := bin as_U32 as_U32 (fun x y => bool_const (f x y)).
Definition cmp64 f := bin as_U64 as_U64 (fun x y => bool_const (f x y)).
Definition ne (x y : Z) : bool := negb (x =? y).

Definition cmp_cases : list (list Z * (IRConst -> IRConst -> folded)) :=
  [([Iop_CmpEQ32], cmp32 Z.eqb);
   ([Iop_CmpEQ64], cmp64 Z.eqb);
   ([Iop_CmpNE8; Iop_CasCmpNE8; Iop_ExpCmpNE8], bin as_U8 as_U8 (fun x y => bool_const (ne (Z.land 0xFF x) (Z.land 0xFF y))));
   ([Iop_CmpNE32; Iop_CasCmpNE32; Iop_ExpCmpNE32], cmp32 ne);
   ([Iop_CmpNE64; Iop_CasCmpNE64; Iop_ExpCmpNE64], cmp64 ne);
   ([Iop_CmpLE32U], cmp32 Z.leb);
   ([Iop_CmpLE64U], cmp64 Z.leb);
   ([Iop_CmpLE32S], cmp32 (fun x y => s32 x <=? s32 y));
   ([Iop_CmpLE64S], cmp64 (fun x y => s64 x <=? s64 y));
   ([Iop_CmpLT32S], cmp32 (fun x y => s32 x <? s32 y));
   ([Iop_CmpLT64S], cmp64 (fun x y => s64 x <? s64 y));
   ([Iop_CmpLT32U], cmp32 Z.ltb);
   ([Iop_CmpLT64U], cmp64 Z.ltb);
   ([Iop_CmpORD32S], bin as_U32 as_U32 (fun x y =>
      to_const (Ico_U32 (if s32 x <? s32 y then 0x8 else if s32 y <? s32 x then 0x4 else 0x2))));
   ([Iop_32HLto64], bin as_U32 as_U32 (fun x y => to_const (Ico_U64 (Z.lor (Z.shiftl x 32) y))));
   ([Iop_64HLto128], fun _ _ => unhandled);
   ([Iop_64HLtoV128], bin as_U64 as_U64 (fun x y => if (0 =? x) && (0 =? y) then to_const (Ico_V128 0) else unhandled));
   ([Iop_V128HLtoV256], fun c1 c2 =>
      if isZeroV128 (Iex_Const c1) && isZeroV128 (Iex_Const c2) then to_const (Ico_V256 0) else unhandled);
   ([Iop_InterleaveLO8x16], bin as_V128 as_V128 (fun x y => if (0 =? x) && (0 =? y) then to_const (Ico_V128 0) else unhandled))].

Definition binop_cases := arith_cases ++ shift_cases ++ cmp_cases.

Definition fold_unop_const (op : Z) (c : IRConst) : folded :=
  match case unop_cases op with Some f => f c | None => unhandled end.
Definition fold_binop_const (op : Z) (c1 c2 : IRConst) : folded :=
  match case binop_cases op with Some f => f c1 c2 | None => unhandled end.
(** What a temporary stands for, if anything. *)
Definition bindings : Type := list (option IRExpr).

(** ** Comparison of expressions *)

Definition NODE_LIMIT : Z := 30.

Section Bindings.
Context (env : bindings).

(** The number of nodes visited is the state.  [fuel] bounds the depth. *)
Fixpoint sameIRExprs_aux (fuel : nat) (e1 e2 : IRExpr) (n : Z) : outcome (bool * Z) :=
  match fuel with
  | O => Err OutOfFuel
  | S fuel =>
    let same := sameIRExprs_aux fuel in
    let both a1 a2 (k : Z -> outcome (bool * Z)) n := let* (b, n) := same a1 a2 n in if (b : bool) then k n else Ok (false, n) in
    let visited := NODE_LIMIT <? n in
    let n := n + 1 in
    let no := Ok (false, n) in
    match e1, e2 with
    | Iex_RdTmp t1, Iex_RdTmp t2 =>
        if visited then no
        else if t1 =? t2 then Ok (true, n)
        else
          let* b1 := rd env t1 in
          match b1 with
          | None => no
          | Some d1 => let* b2 := rd env t2 in match b2 with None => no | Some d2 => same d1 d2 n end
          end
    | Iex_Binop op1 a1 b1, Iex_Binop op2 a2 b2 =>
        if visited then no else if op1 =? op2 then both a1 a2 (same b1 b2) n else no
    | Iex_Unop op1 a1, Iex_Unop op2 a2 => if visited then no else if op1 =? op2 then same a1 a2 n else no
    | Iex_Const c1, Iex_Const c2 =>
        if visited then no
        else
          match c1, c2 with
          | Ico_U1 x, Ico_U1 y | Ico_U8 x, Ico_U8 y | Ico_U16 x, Ico_U16 y | Ico_U32 x, Ico_U32 y | Ico_U64 x, Ico_U64 y =>
              Ok (x =? y, n)
          | Ico_F32 _, Ico_F32 _ | Ico_F32i _, Ico_F32i _ | Ico_F64 _, Ico_F64 _ | Ico_F64i _, Ico_F64i _
          | Ico_V128 _, Ico_V128 _ | Ico_V256 _, Ico_V256 _ => no
          | _, _ => Err AssertFail
          end
    | Iex_Triop op1 a1 b1 c1, Iex_Triop op2 a2 b2 c2 =>
        if visited then no else if op1 =? op2 then both a1 a2 (both b1 b2 (same c1 c2)) n else no
    | Iex_ITE a1 b1 c1, Iex_ITE a2 b2 c2 => if visited then no else both a1 a2 (both b1 b2 (same c1 c2)) n
    | Iex_Binder _, Iex_Binder _ | Iex_Get _ _, Iex_Get _ _ | Iex_GetI _ _ _, Iex_GetI _ _ _ | Iex_Load _ _ _, Iex_Load _ _ _
    | Iex_Qop _ _ _ _ _, Iex_Qop _ _ _ _ _ | Iex_CCall _ _ _, Iex_CCall _ _ _ | Iex_VECRET, Iex_VECRET
    | Iex_GSPTR, Iex_GSPTR => no
    | _, _ => Ok (false, n - 1)
    end
  end.

(** Every call but the last visits a node, and after [NODE_LIMIT] the answer is no. *)
Definition same_fuel : nat := Z.to_nat (NODE_LIMIT + 3).
Definition sameIRExprs (e1 e2 : IRExpr) : outcome bool :=
  let* (b, _) := sameIRExprs_aux same_fuel e1 e2 0 in Ok b.

(** What a temporary is bound to, through temporaries bound to temporaries; [None]
    for a temporary that no expression defines. *)
Fixpoint chase_loop (fuel : nat) (e : IRExpr) : outcome (option IRExpr) :=
  match e with
  | Iex_RdTmp t =>
      match fuel with
      | O => Err OutOfFuel
      | S fuel => let* b := rd env t in match b with None => Ok None | Some e => chase_loop fuel e end
      end
  | _ => Ok (Some e)
  end.
Definition chase (e : IRExpr) : outcome (option IRExpr) := chase_loop (S (length env)) e.

(** ** Identities *)

Definition rule : Type := outcome (option IRExpr).
Definition no_match : rule := Ok None.
Definition orelse (r1 r2 : rule) : rule := let* x := r1 in match x with Some _ => Ok x | None => r2 end.
Definition when (b : outcome bool) (e : outcome IRExpr) : rule :=
  let* b := b in if b then let* e := e in Ok (Some e) else no_match.

(** [PopCount64(And64(Add64(x,-1), Not64(x)))] is [CtzNat64(x)]. *)
Definition popcount_rule (arg : IRExpr) : rule :=
  let* a1 := chase arg in
  match a1 with
  | Some (Iex_Binop op1 arg1 arg2) =>
      if negb (op1 =? Iop_And64) then no_match
      else
        let* a11 := chase arg1 in
        match a11 with
        | Some (Iex_Binop op11 a111 arg112) =>
            if negb (op11 =? Iop_Add64) then no_match
            else
              let* a12 := chase arg2 in
              match a12 with
              | Some (Iex_Unop op12 a121) =>
                  if negb (op12 =? Iop_Not64) then no_match
                  else
                    let* a112 := chase arg112 in
                    match a112 with
                    | None => no_match
                    | Some a112 =>
                        let* same := eqIRAtom a111 a121 in
                        if negb same then no_match else when (isOnesU a112) (Ok (Iex_Unop Iop_CtzNat64 a111))
                    end
              | _ => no_match
              end
        | _ => no_match
        end
  | _ => no_match
  end.

Definition either (b1 b2 : outcome bool) : outcome bool := let* b := b1 in if b then Ok true else b2.

Definition identity_cases : list (list Z * (Z -> IRExpr -> IRExpr -> rule)) :=
  [([Iop_Shl32; Iop_Shl64; Iop_Shr64; Iop_Sar64], fun _ a1 a2 =>
      orelse (when (isZeroU a2) (Ok a1)) (when (isZeroU a1) (Ok a1)));
   ([Iop_Sar32; Iop_Shr32], fun _ a1 a2 => when (isZeroU a2) (Ok a1));
   ([Iop_Or8; Iop_Or16; Iop_Or32; Iop_Or64; Iop_Max32U], fun op a1 a2 =>
      orelse (when (isZeroU a2) (Ok a1)) (orelse (when (isZeroU a1) (Ok a2))
        (orelse (when (either (isOnesU a1) (isOnesU a2)) (mkOnesOfPrimopResultType op)) (when (sameIRExprs a1 a2) (Ok a1)))));
   ([Iop_Add8], fun _ a1 a2 => when (sameIRExprs a1 a2) (Ok (Iex_Binop Iop_Shl8 a1 (Iex_Const (Ico_U8 1)))));
   ([Iop_Add32; Iop_Add64], fun op a1 a2 =>
      orelse (when (isZeroU a2) (Ok a1)) (orelse (when (isZeroU a1) (Ok a2))
        (when (sameIRExprs a1 a2) (Ok (Iex_Binop (if op =? Iop_Add32 then Iop_Shl32 else Iop_Shl64) a1 (Iex_Const (Ico_U8 1)))))));
   ([Iop_Sub32; Iop_Sub64], fun op a1 a2 =>
      orelse (when (isZeroU a2) (Ok a1)) (when (sameIRExprs a1 a2) (mkZeroOfPrimopResultType op)));
   ([Iop_Sub8x16], fun _ a1 a2 => when (Ok (isZeroV128 a2)) (Ok a1));
   ([Iop_And8; Iop_And16; Iop_And32; Iop_And64], fun _ a1 a2 =>
      orelse (when (isOnesU a2) (Ok a1)) (orelse (when (isOnesU a1) (Ok a2))
        (orelse (when (isZeroU a2) (Ok a2)) (orelse (when (isZeroU a1) (Ok a1)) (when (sameIRExprs a1 a2) (Ok a1))))));
   ([Iop_AndV128; Iop_AndV256], fun op a1 a2 =>
      orelse (when (sameIRExprs a1 a2) (Ok a1))
        (if (op =? Iop_AndV256) && (isZeroV256 a1 || isZeroV256 a2) || (op =? Iop_AndV128) && (isZeroV128 a1 || isZeroV128 a2)
         then when (Ok true) (mkZeroOfPrimopResultType op)
         else when (Ok ((op =? Iop_AndV128) && isOnesV128 a2)) (Ok a1)));
   ([Iop_OrV128; Iop_OrV256], fun op a1 a2 =>
      orelse (when (sameIRExprs a1 a2) (Ok a1))
        (orelse (when (Ok ((op =? Iop_OrV128) && isZeroV128 a2)) (Ok a1))
          (orelse (when (Ok ((op =? Iop_OrV128) && isZeroV128 a1)) (Ok a2)) (when (Ok ((op =? Iop_OrV256) && isZeroV256 a2)) (Ok a1)))));
   ([Iop_Xor8; Iop_Xor16; Iop_Xor32; Iop_Xor64; Iop_XorV128; Iop_XorV256], fun op a1 a2 =>
      orelse (when (sameIRExprs a1 a2) (mkZeroOfPrimopResultType op))
        (if op =? Iop_XorV128 then when (Ok (isZeroV128 a2)) (Ok a1)
         else orelse (when (isZeroU a1) (Ok a2)) (when (isZeroU a2) (Ok a1))));
   ([Iop_CmpNE32], fun op a1 a2 =>
      orelse (when (sameIRExprs a1 a2) (mkZeroOfPrimopResultType op))
        (if isZeroU32 a2
         then let* a := chase a1 in
              match a with Some (Iex_Unop op1 b) => when (Ok (op1 =? Iop_1Uto32)) (Ok b) | _ => no_match end
         else no_match));
   ([Iop_CmpEQ32; Iop_CmpEQ64; Iop_CmpEQ8x8; Iop_CmpEQ8x16; Iop_CmpEQ16x8; Iop_CmpEQ32x4; Iop_CmpEQ32x8], fun op a1 a2 =>
      when (sameIRExprs a1 a2) (mkOnesOfPrimopResultType op))].

Definition fold_unop (op : Z) (arg : IRExpr) : rule :=
  match arg with
  | Iex_Const c => let* r := fold_unop_const op c in Ok (Iex_Const <$> r)
  | _ => if op =? Iop_PopCount64 then popcount_rule arg else no_match
  end.
Definition fold_binop (op : Z) (arg1 arg2 : IRExpr) : rule :=
  match arg1, arg2 with
  | Iex_Const c1, Iex_Const c2 => let* r := fold_binop_const op c1 c2 in Ok (Iex_Const <$> r)
  | _, _ => match case identity_cases op with Some f => f op arg1 arg2 | None => no_match end
  end.
Definition fold_ITE (cond iftrue iffalse : IRExpr) : rule :=
  match cond with
  | Iex_Const con =>
      match con with Ico_U1 b => Ok (Some (if b =? 0 then iffalse else iftrue)) | _ => Err AssertFail end
  | _ => when (sameIRExprs iftrue iffalse) (Ok iffalse)
  end.

Definition fold_rule (e : IRExpr) : rule :=
  match e with
  | Iex_Unop op arg => fold_unop op arg
  | Iex_Binop op arg1 arg2 => fold_binop op arg1 arg2
  | Iex_ITE cond iftrue iffalse => fold_ITE cond iftrue iffalse
  | _ => no_match
  end.
Definition fold_Expr_WRK (e : IRExpr) : outcome IRExpr := let* r := fold_rule e in Ok (default e r).

End Bindings.

(** [None] is the [NULL] of a pass that does not fold. *)
Definition fold_Expr (env : option bindings) (e : IRExpr) : outcome IRExpr :=
  match env with None => Ok e | Some env => fold_Expr_WRK env e end.
