(* ===== verification/FoldArith.v ===== *)
(** * Numbers of a width: what folding computes is what operators mean

    The machine arithmetic of [Fold] (shifts, masks, loops over bits) against the
    reference of [OpSem]. *)

From S2P Require Import Prelude Primop IR IRSem IRTyping OpSem Fold.

(** [x] is a number of [w] bits. *)
Definition fits (w x : Z) : Prop := 0 <= x < 2 ^ w.

Lemma fits_testbit w x i : fits w x -> w <= i -> Z.testbit x i = false.
Proof. intros H Hi. by eapply testbit_above. Qed.

Lemma fits_bits w x : 0 <= w -> (forall i, w <= i -> Z.testbit x i = false) -> fits w (x mod 2 ^ w) /\ x mod 2 ^ w = x.
Proof.
  intros Hw H. split; [apply Z.mod_pos_bound; lia|]. apply Z.bits_inj'. intros i Hi.
  destruct (Z.lt_ge_cases i w); [by rewrite Z.mod_pow2_bits_low|]. by rewrite Z.mod_pow2_bits_high, H by lia.
Qed.

(** ** Bitwise operators *)

Section Bitwise.
Context (w x y : Z) (Hw : 0 <= w) (Hx : fits w x) (Hy : fits w y).

Lemma lor_fits : fits w (Z.lor x y) /\ Z.lor x y mod 2 ^ w = Z.lor x y.
Proof.
  destruct (fits_bits w (Z.lor x y)) as [H E]; [done| |by rewrite E in H].
  intros i Hi. by rewrite Z.lor_spec, (fits_testbit w x), (fits_testbit w y).
Qed.

Lemma land_fits : fits w (Z.land x y) /\ Z.land x y mod 2 ^ w = Z.land x y.
Proof using w x y Hw Hx Hy.
  destruct (fits_bits w (Z.land x y)) as [H E]; [done| |by rewrite E in H].
  intros i Hi. by rewrite Z.land_spec, (fits_testbit w x).
Qed.

Lemma lxor_fits : fits w (Z.lxor x y) /\ Z.lxor x y mod 2 ^ w = Z.lxor x y.
Proof.
  destruct (fits_bits w (Z.lxor x y)) as [H E]; [done| |by rewrite E in H].
  intros i Hi. by rewrite Z.lxor_spec, (fits_testbit w x), (fits_testbit w y).
Qed.

Lemma complement_fits : complement w x = all_ones w - x /\ fits w (all_ones w - x).
Proof.
  unfold complement, all_ones, fits in *. split; [|lia]. replace (Z.lnot x) with (2 ^ w - 1 - x + (-1) * 2 ^ w) by (unfold Z.lnot; lia).
  rewrite Z.mod_add by lia. apply Z.mod_small. lia.
Qed.

Lemma mask m : 0 <= m -> Z.land (2 ^ m - 1) x = x mod 2 ^ m /\ Z.land x (2 ^ m - 1) = x mod 2 ^ m.
Proof.
  intros Hm. rewrite (Z.land_comm x). split; rewrite <-(Z.land_ones x m), Z.ones_equiv, Z.land_comm by done; f_equal; lia.
Qed.
End Bitwise.

Lemma mod_fits w x : 0 <= w -> fits w (x mod 2 ^ w).
Proof. intros. apply Z.mod_pos_bound. lia. Qed.

Lemma fits_mod w x : fits w x -> x mod 2 ^ w = x.
Proof. apply Z.mod_small. Qed.

Lemma fits_more w w' x : fits w x -> 0 <= w <= w' -> fits w' x.
Proof. unfold fits. intros H Hw. pose proof (Z.pow_le_mono_r 2 w w' ltac:(lia) ltac:(lia)). lia. Qed.

Lemma left_fits w v : 0 <= w -> fits w v -> fits w (Z.lor v ((- v) mod 2 ^ w)).
Proof. intros Hw H. apply lor_fits; [done|done|by apply mod_fits]. Qed.

Lemma shiftr_fits w x n : 0 <= n -> fits w x -> Z.shiftr x n = x / 2 ^ n /\ fits w (x / 2 ^ n).
Proof.
  unfold fits. intros Hn Hx. split; [by apply Z.shiftr_div_pow2|]. split; [apply Z.div_pos; lia|].
  apply Z.div_lt_upper_bound; [lia|]. pose proof (Z.pow_pos_nonneg 2 n ltac:(lia) Hn). nia.
Qed.

Lemma clz_fits w v : fits w v -> v <> 0 -> w <= 128 -> fits 8 (w - 1 - Z.log2 v).
Proof.
  unfold fits. intros Hv Hn Hb. pose proof (Z.log2_nonneg v). assert (Z.log2 v < w) by (apply Z.log2_lt_pow2; lia). lia.
Qed.

(** ** Signed numbers *)

Lemma signed_range w x : 0 < w -> fits w x -> - 2 ^ (w - 1) <= signed w x < 2 ^ (w - 1).
Proof.
  unfold fits, signed. intros Hw Hx. assert (2 ^ w = 2 * 2 ^ (w - 1)) by (rewrite <-Z.pow_succ_r by lia; f_equal; lia).
  destruct (Z.ltb_spec x (2 ^ (w - 1))); lia.
Qed.

Lemma signed_mod w x : fits w x -> signed w x mod 2 ^ w = x.
Proof.
  intros Hx. unfold signed. destruct (x <? 2 ^ (w - 1)); [by apply fits_mod|]. destruct (Z.lt_ge_cases w 0) as [Hw|Hw].
  - unfold fits in Hx. rewrite Z.pow_neg_r in Hx by done. lia.
  - replace (x - 2 ^ w) with (x + (-1) * 2 ^ w) by lia. rewrite Z.mod_add by lia. by apply fits_mod.
Qed.

(** The conversion of C. *)
Lemma convert_signed w x : 0 < w -> fits w x -> (x + 2 ^ (w - 1)) mod 2 ^ w - 2 ^ (w - 1) = signed w x.
Proof.
  unfold fits, signed. intros Hw Hx. assert (2 ^ w = 2 * 2 ^ (w - 1)) by (rewrite <-Z.pow_succ_r by lia; f_equal; lia).
  destruct (Z.ltb_spec x (2 ^ (w - 1))); [rewrite Z.mod_small; lia|].
  replace (x + 2 ^ (w - 1)) with (x - 2 ^ (w - 1) + 1 * 2 ^ w) by lia. rewrite Z.mod_add by lia. rewrite Z.mod_small; lia.
Qed.

Lemma s32_signed x : fits 32 x -> s32 x = signed 32 x.
Proof. apply (convert_signed 32 x eq_refl). Qed.
Lemma s64_signed x : fits 64 x -> s64 x = signed 64 x.
Proof. apply (convert_signed 64 x eq_refl). Qed.

(** Shifting left and then, signed, right extends the sign. *)
Lemma sign_extend n w x : 0 < n -> n <= w -> fits n x ->
  Z.shiftr ((Z.shiftl x (w - n) mod 2 ^ w + 2 ^ (w - 1)) mod 2 ^ w - 2 ^ (w - 1)) (w - n) = signed n x.
Proof.
  intros Hn Hw Hx. assert (Hp : 2 ^ w = 2 ^ n * 2 ^ (w - n)) by (rewrite <-Z.pow_add_r by lia; f_equal; lia).
  assert (Hq : 2 ^ (w - 1) = 2 ^ (n - 1) * 2 ^ (w - n)) by (rewrite <-Z.pow_add_r by lia; f_equal; lia).
  assert (Hs : Z.shiftl x (w - n) mod 2 ^ w = x * 2 ^ (w - n)).
  { rewrite Z.shiftl_mul_pow2 by lia. apply Z.mod_small. unfold fits in Hx. split; nia. }
  rewrite Hs, convert_signed; [|lia|unfold fits in *; nia]. rewrite Z.shiftr_div_pow2 by lia. unfold signed. rewrite Hq.
  assert (E : (x * 2 ^ (w - n) <? 2 ^ (n - 1) * 2 ^ (w - n)) = (x <? 2 ^ (n - 1))).
  { destruct (Z.ltb_spec x (2 ^ (n - 1))); [apply Z.ltb_lt|apply Z.ltb_ge]; nia. }
  rewrite E. destruct (x <? 2 ^ (n - 1)); [by rewrite Z.div_mul by lia|].
  replace (x * 2 ^ (w - n) - 2 ^ w) with ((x - 2 ^ n) * 2 ^ (w - n)) by (rewrite Hp; lia). by rewrite Z.div_mul by lia.
Qed.

(** [s | -s] is [x | -x]. *)
Lemma left_bits w x : 0 < w -> fits w x -> Z.lor (signed w x) (- signed w x) mod 2 ^ w = Z.lor x ((- x) mod 2 ^ w).
Proof.
  intros Hw Hx.
  assert (H : signed w x mod 2 ^ w = x /\ (- signed w x) mod 2 ^ w = (- x) mod 2 ^ w).
  { unfold signed. destruct (x <? 2 ^ (w - 1)); [by rewrite fits_mod|]. split.
    - rewrite <-(Z.mod_add (x - 2 ^ w) 1) by lia. replace (x - 2 ^ w + 1 * 2 ^ w) with x by lia. by apply fits_mod.
    - replace (- (x - 2 ^ w)) with (- x + 1 * 2 ^ w) by lia. by rewrite Z.mod_add by lia. }
  destruct H as [H1 H2].
  transitivity (Z.lor (signed w x mod 2 ^ w) ((- signed w x) mod 2 ^ w)); [|by rewrite H1, H2]. apply Z.bits_inj'. intros i Hi. destruct (Z.lt_ge_cases i w).
  - by rewrite Z.mod_pow2_bits_low, !Z.lor_spec, !Z.mod_pow2_bits_low by lia.
  - by rewrite Z.mod_pow2_bits_high, Z.lor_spec, !Z.mod_pow2_bits_high by lia.
Qed.

(** ** Identities *)

Section Identities.
Context (w x : Z) (Hw : 0 <= w) (Hx : fits w x).

Lemma lor_ones : Z.lor x (all_ones w) = all_ones w.
Proof.
  unfold all_ones. replace (2 ^ w - 1) with (Z.ones w) by (rewrite Z.ones_equiv; lia). apply Z.bits_inj'. intros i Hi. rewrite Z.lor_spec.
  destruct (Z.lt_ge_cases i w); [by rewrite Z.ones_spec_low, orb_true_r by lia|]. by rewrite Z.ones_spec_high, (fits_testbit w x) by (done || lia).
Qed.

Lemma land_ones_id : Z.land x (all_ones w) = x.
Proof. unfold all_ones. destruct (mask x w Hw) as [_ ->]. by apply fits_mod. Qed.

Lemma sub_self n : (n - n) mod 2 ^ w = 0.
Proof. by rewrite Z.sub_diag, Z.mod_0_l by lia. Qed.

End Identities.

(** ** Leading zeroes *)

Lemma shiftl_1_testbit x k : 0 <= k -> (Z.land x (Z.shiftl 1 k) =? 0) = negb (Z.testbit x k).
Proof.
  intros Hk. rewrite Z.shiftl_1_l. destruct (Z.testbit x k) eqn:E; cbn [negb].
  - apply Z.eqb_neq. intros H. apply (f_equal (fun n => Z.testbit n k)) in H. rewrite Z.land_spec, Z.bits_0, Z.pow2_bits_true, E in H by lia. discriminate H.
  - apply Z.eqb_eq, Z.bits_inj'. intros i Hi. rewrite Z.land_spec, Z.bits_0, Z.pow2_bits_eqb by lia.
    destruct (Z.eqb_spec k i) as [->|]; [by rewrite E|apply andb_false_r].
Qed.

Lemma clz_loop_spec n x k : 0 < x < 2 ^ Z.of_nat k -> Z.of_nat k <= n -> clz_loop n x k = Ok (n - 1 - Z.log2 x).
Proof.
  induction k as [|k IH]; intros Hx Hk; [cbn in Hx; lia|]. cbn [clz_loop]. replace (n - 1 - (n - 1 - Z.of_nat k)) with (Z.of_nat k) by lia.
  rewrite shiftl_1_testbit, negb_involutive by lia. destruct (Z.testbit x (Z.of_nat k)) eqn:E.
  - do 2 f_equal. symmetry. apply Z.log2_unique; [lia|]. rewrite Nat2Z.inj_succ in Hx. split; [|tauto].
    destruct (Z.lt_ge_cases x (2 ^ Z.of_nat k)); [|done]. rewrite (fits_testbit (Z.of_nat k)) in E by (unfold fits; lia). done.
  - apply IH; [|lia]. split; [lia|]. destruct (Z.lt_ge_cases x (2 ^ Z.of_nat k)) as [|Hge]; [done|].
    rewrite Nat2Z.inj_succ, Z.pow_succ_r in Hx by lia.
    assert (Hd : x / 2 ^ Z.of_nat k = 1) by (symmetry; apply (Z.div_unique_pos _ _ _ (x - 2 ^ Z.of_nat k)); lia).
    apply Z.testbit_false in E; [|lia]. rewrite Hd in E. done.
Qed.

(** ** Vectors *)

Lemma expand_fits n s : fits (8 * Z.of_nat n) (expand n s).
Proof.
  unfold fits. induction n as [|n IH]; [done|]. cbn [expand]. replace (8 * Z.of_nat (S n)) with (8 * Z.of_nat n + 8) by lia.
  rewrite Z.pow_add_r by lia. change (2 ^ 8) with 256. destruct (Z.testbit s (Z.of_nat n)); nia.
Qed.

Lemma expand_testbit n s i : 0 <= i -> Z.testbit (expand n s) i = (i <? 8 * Z.of_nat n) && Z.testbit s (i / 8).
Proof.
  intros Hi. induction n as [|n IH].
  - cbn [expand]. rewrite Z.bits_0. destruct (Z.ltb_spec i (8 * Z.of_nat 0)); [lia|done].
  - cbn [expand]. rewrite <-lor_shiftl_low by (done || lia || apply expand_fits). rewrite Z.lor_spec, Z.shiftl_spec, IH by done.
    destruct (Z.ltb_spec i (8 * Z.of_nat n)), (Z.ltb_spec i (8 * Z.of_nat (S n))); try lia; cbn [andb orb].
    + by rewrite (Z.testbit_neg_r _ (i - _)) by lia.
    + assert (Hd : i / 8 = Z.of_nat n) by (symmetry; apply (Z.div_unique_pos _ _ _ (i - 8 * Z.of_nat n)); lia).
      rewrite orb_false_r, Hd. destruct (Z.testbit s (Z.of_nat n)); [|apply Z.bits_0]. change 255 with (Z.ones 8).
      apply Z.ones_spec_low. lia.
    + rewrite orb_false_r. destruct (Z.testbit s (Z.of_nat n)); [|apply Z.bits_0]. change 255 with (Z.ones 8).
      apply Z.ones_spec_high. lia.
Qed.

Ltac expand_bits := apply Z.bits_inj'; intros i Hi; rewrite !expand_testbit by done;
  repeat first [rewrite Z.lor_spec|rewrite Z.land_spec|rewrite Z.lxor_spec]; rewrite ?expand_testbit by done; by destruct (i <? _).

Lemma expand_lor n s t : expand n (Z.lor s t) = Z.lor (expand n s) (expand n t).
Proof. expand_bits. Qed.
Lemma expand_land n s t : expand n (Z.land s t) = Z.land (expand n s) (expand n t).
Proof. expand_bits. Qed.
Lemma expand_lxor n s t : expand n (Z.lxor s t) = Z.lxor (expand n s) (expand n t).
Proof. expand_bits. Qed.

Lemma expand_complement n s : expand n (complement (Z.of_nat n) s) = all_ones (8 * Z.of_nat n) - expand n s.
Proof.
  destruct (complement_fits (8 * Z.of_nat n) (expand n s)) as [<- _]; [lia|apply expand_fits|].
  unfold complement. apply Z.bits_inj'. intros i Hi. rewrite expand_testbit by done.
  destruct (Z.ltb_spec i (8 * Z.of_nat n)); cbn [andb]; [|by rewrite Z.mod_pow2_bits_high by lia].
  rewrite !Z.mod_pow2_bits_low by (done || (apply Z.div_lt_upper_bound; lia)).
  rewrite !Z.lnot_spec by (done || (apply Z.div_pos; lia)). rewrite expand_testbit by done.
  by destruct (Z.ltb_spec i (8 * Z.of_nat n)); [|lia].
Qed.

Lemma expand_low n m s : Z.land s (2 ^ Z.of_nat m - 1) = 0 -> expand n s mod 2 ^ (8 * Z.of_nat m) = 0.
Proof.
  intros H. destruct (mask s (Z.of_nat m) ltac:(lia)) as [_ E]. rewrite E in H. apply Z.bits_inj'. intros i Hi. rewrite Z.bits_0.
  destruct (Z.lt_ge_cases i (8 * Z.of_nat m)); [|by apply Z.mod_pow2_bits_high; lia]. rewrite Z.mod_pow2_bits_low, expand_testbit by lia.
  assert (Hd : 0 <= i / 8 < Z.of_nat m) by (split; [apply Z.div_pos; lia|apply Z.div_lt_upper_bound; lia]).
  rewrite <-(Z.mod_pow2_bits_low s (Z.of_nat m)) by lia. by rewrite H, Z.bits_0, andb_false_r.
Qed.

Lemma expand_shift n m s : 0 <= s -> expand (n + m) s / 2 ^ (8 * Z.of_nat m) = expand n (Z.shiftr s (Z.of_nat m)).
Proof.
  intros Hs. apply Z.bits_inj'. intros i Hi. rewrite <-Z.shiftr_div_pow2, Z.shiftr_spec by lia. rewrite !expand_testbit by lia.
  rewrite Z.shiftr_spec by (apply Z.div_pos; lia). replace (i + 8 * Z.of_nat m) with (i + Z.of_nat m * 8) by lia. rewrite Z.div_add by lia. f_equal.
  destruct (Z.ltb_spec i (8 * Z.of_nat n)), (Z.ltb_spec (i + Z.of_nat m * 8) (8 * Z.of_nat (n + m))); lia || done.
Qed.

Lemma expand_0 n : expand n 0 = 0.
Proof. induction n as [|n IH]; [done|]. cbn [expand]. by rewrite IH, Z.bits_0. Qed.

Lemma lane_fits w i x : 0 <= w -> fits w (lane w i x).
Proof. apply mod_fits. Qed.

Lemma of_lanes_lane w x n : 0 <= w -> forall k,
  of_lanes w (map (fun i => lane w i x) (seq k n)) = (x / 2 ^ (w * Z.of_nat k)) mod 2 ^ (w * Z.of_nat n).
Proof.
  intros Hw. induction n as [|n IH]; intros k.
  - cbn [seq map of_lanes]. by rewrite Z.mul_0_r, Z.mod_1_r.
  - cbn [seq map of_lanes]. rewrite IH. unfold lane. replace (w * Z.of_nat (S n)) with (w + w * Z.of_nat n) by lia.
    replace (w * Z.of_nat (S k)) with (w * Z.of_nat k + w) by lia. rewrite !Z.pow_add_r by nia.
    rewrite <-Z.div_div by (try apply Z.pow_nonzero; try apply Z.pow_pos_nonneg; nia).
    symmetry. apply Z.rem_mul_r; [apply Z.pow_nonzero; lia|apply Z.pow_pos_nonneg; nia].
Qed.

Lemma of_lanes_ones w n l : 0 <= w -> length l = n -> Forall (fun x => x = all_ones w) l -> of_lanes w l = all_ones (w * Z.of_nat n).
Proof.
  intros Hw <-. induction 1 as [|x l -> _ IH]; [by rewrite Z.mul_0_r|]. cbn [of_lanes length]. rewrite IH. unfold all_ones.
  replace (w * Z.of_nat (S (length l))) with (w + w * Z.of_nat (length l)) by lia. rewrite Z.pow_add_r by nia. lia.
Qed.

Lemma of_lanes_fits w l : 0 <= w -> Forall (fits w) l -> fits (w * Z.of_nat (length l)) (of_lanes w l).
Proof.
  unfold fits. intros Hw. induction 1 as [|x l Hx _ IH]; [by rewrite Z.mul_0_r|]. cbn [of_lanes length].
  replace (w * Z.of_nat (S (length l))) with (w + w * Z.of_nat (length l)) by lia. rewrite Z.pow_add_r by nia. nia.
Qed.

Lemma lanes_sub_0 n w x : 0 <= w -> fits (w * Z.of_nat n) x ->
  of_lanes w (map (fun i => (lane w i x - lane w i 0) mod 2 ^ w) (seq 0 n)) = x.
Proof.
  intros Hw Hx. rewrite (map_ext _ (fun i => lane w i x)).
  - rewrite of_lanes_lane by done. rewrite Z.mul_0_r, Z.div_1_r. by apply fits_mod.
  - intros i. unfold lane at 2. rewrite Z.div_0_l, Z.mod_0_l, Z.sub_0_r by (try apply Z.pow_nonzero; lia). by apply fits_mod, lane_fits.
Qed.

Lemma lanes_same n w x : 0 <= w ->
  of_lanes w (map (fun i => if lane w i x =? lane w i x then all_ones w else 0) (seq 0 n)) = all_ones (w * Z.of_nat n).
Proof.
  intros Hw. apply of_lanes_ones; [done|by rewrite length_map, length_seq|]. apply List.Forall_forall. intros y (i & <- & _)%in_map_iff. by rewrite Z.eqb_refl.
Qed.

(** ** Trailing zeroes *)

Lemma popcount_half k x : popcount (S k) x = Z.b2z (Z.odd x) + popcount k (x / 2).
Proof.
  induction k as [|k IH]; [cbn; by rewrite Z.bit0_odd|].
  change (popcount (S (S k)) x) with (Z.b2z (Z.testbit x (Z.of_nat (S k))) + popcount (S k) x). rewrite IH.
  cbn [popcount]. rewrite <-Z.div2_div, Z.div2_spec, Z.shiftr_spec by lia. replace (Z.of_nat k + 1) with (Z.of_nat (S k)) by lia. lia.
Qed.

(** The 1s below the lowest 1 of [x]. *)
Lemma popcount_ctz k x : fits (Z.of_nat k) x ->
  popcount k (Z.land ((x + all_ones (Z.of_nat k)) mod 2 ^ Z.of_nat k) (all_ones (Z.of_nat k) - x)) = ctz k x.
Proof.
  unfold fits, all_ones. revert x. induction k as [|k IH]; intros x Hx; [done|]. rewrite popcount_half. cbn [ctz].
  rewrite Nat2Z.inj_succ, Z.pow_succ_r in * by lia. set (p := 2 ^ Z.of_nat k) in *.
  assert (Hmod : (x + (2 * p - 1)) mod (2 * p) = if x =? 0 then 2 * p - 1 else x - 1).
  { destruct (Z.eqb_spec x 0) as [->|]; [apply Z.mod_small; lia|]. replace (x + (2 * p - 1)) with (x - 1 + 1 * (2 * p)) by lia.
    rewrite Z.mod_add by lia. apply Z.mod_small. lia. }
  rewrite Hmod. pose proof (Z.div2_odd x) as Ex. rewrite Z.div2_div in Ex. set (y := x / 2) in *.
  set (a := if x =? 0 then 2 * p - 1 else x - 1) in *.
  assert (Hhalf : Z.land a (2 * p - 1 - x) / 2 = Z.land (a / 2) ((2 * p - 1 - x) / 2)).
  { by rewrite <-!Z.div2_div, !Z.div2_spec, Z.shiftr_land. }
  assert (Hodd : Z.odd (Z.land a (2 * p - 1 - x)) = Z.odd a && Z.odd (2 * p - 1 - x)) by (by rewrite <-!Z.bit0_odd, Z.land_spec).
  rewrite Hhalf, Hodd. destruct (Z.odd x) eqn:Eo; cbn [Z.b2z] in Ex.
  - assert (Ha : a = 2 * y) by (unfold a; destruct (Z.eqb_spec x 0); lia). rewrite Ha.
    replace (2 * p - 1 - x) with (2 * (p - 1 - y)) by lia. rewrite !(Z.mul_comm 2), !Z.div_mul by lia. rewrite Z.odd_mul, andb_false_r. cbn [Z.b2z andb].
    assert (E0 : Z.land y (p - 1 - y) = 0).
    { destruct (complement_fits (Z.of_nat k) y) as [E _]; [lia|unfold fits; fold p; lia|]. unfold all_ones in E. fold p in E. rewrite <-E. unfold complement.
      apply Z.bits_inj'. intros i Hi. rewrite Z.land_spec, Z.bits_0. destruct (Z.lt_ge_cases i (Z.of_nat k)).
      - rewrite Z.mod_pow2_bits_low, Z.lnot_spec by lia. apply andb_negb_r.
      - by rewrite Z.mod_pow2_bits_high, andb_false_r by lia. }
    rewrite E0. clear. cbn. induction k as [|k IH]; [done|]. cbn [popcount]. by rewrite Z.bits_0.
  - assert (Ha : a = 2 * ((y + (p - 1)) mod p) + 1).
    { unfold a. destruct (Z.eqb_spec x 0) as [E0|].
      - assert (y = 0) as -> by lia. rewrite Z.mod_small by lia. lia.
      - replace (y + (p - 1)) with (y - 1 + 1 * p) by lia. rewrite Z.mod_add by lia. rewrite Z.mod_small by lia. lia. }
    rewrite Ha. replace (2 * p - 1 - x) with (2 * (p - 1 - y) + 1) by lia. set (b := (y + (p - 1)) mod p) in *.
    assert (Hd : forall n, (2 * n + 1) / 2 = n) by (intros n; symmetry; apply (Z.div_unique_pos _ _ _ 1); lia).
    assert (Hn : forall n, Z.odd (2 * n + 1) = true) by (intros n; by rewrite Z.add_comm, Z.odd_add_mul_2).
    rewrite !Hd, !Hn. cbn [andb Z.b2z]. f_equal. apply IH. lia.
Qed.

(** ** The results of operators are numbers of their types *)

(** [n] is a number of the type. *)
Definition in_type (ty : IRType) (n : Z) : Prop := match width ty with Some w => fits w n | None => True end.

(** So are the results of [f]. *)
Definition ranged (op : Z) (f : list Z -> option Z) : Prop :=
  forall t vs n, typeOfPrimop op = Ok t -> Forall2 in_type (operand_types t) vs -> f vs = Some n -> in_type (t_dst t) n.

Lemma fits_bit b : fits 1 (Z.b2z b).
Proof. by destruct b. Qed.

Lemma fits_div w k x : 0 <= k <= w -> fits w x -> fits (w - k) (x / 2 ^ k).
Proof.
  unfold fits. intros Hk Hx. pose proof (Z.pow_pos_nonneg 2 k ltac:(lia) ltac:(lia)). split; [apply Z.div_pos; lia|].
  apply Z.div_lt_upper_bound; [done|]. rewrite <-Z.pow_add_r by lia. replace (k + (w - k)) with w by lia. lia.
Qed.

Lemma fits_pair w w2 hi lo : 0 <= w -> 0 <= w2 -> fits w2 hi -> fits w lo -> fits (w + w2) (hi * 2 ^ w + lo).
Proof. unfold fits. intros ? ?. rewrite Z.pow_add_r by done. intros Hh Hl. assert ((hi + 1) * 2 ^ w <= 2 ^ w2 * 2 ^ w) by (apply Z.mul_le_mono_nonneg_r; lia). lia. Qed.

Lemma fits_popcount k x : 0 <= popcount k x <= Z.of_nat k.
Proof. induction k as [|k IH]; cbn [popcount]; [lia|]. destruct (Z.testbit x (Z.of_nat k)); cbn [Z.b2z]; lia. Qed.

Lemma fits_ctz k : forall x, 0 <= ctz k x <= Z.of_nat k.
Proof. induction k as [|k IH]; intros x; cbn [ctz]; [lia|]. specialize (IH (x / 2)). destruct (Z.odd x); lia. Qed.

Lemma fits_lanes n w (f : nat -> Z) : 0 <= w -> (forall i, fits w (f i)) -> fits (w * Z.of_nat n) (of_lanes w (map f (seq 0 n))).
Proof.
  intros Hw Hf. pose proof (of_lanes_fits w (map f (seq 0 n)) Hw) as H. rewrite length_map, length_seq in H. apply H.
  apply Forall_map, List.Forall_forall. intros i _. apply Hf.
Qed.

Lemma fits_choice w (b : bool) : 0 <= w -> fits w (if b then all_ones w else 0).
Proof. unfold fits, all_ones. destruct b; lia. Qed.

(** The operands, as numbers of their widths. *)
Ltac applied :=
  intros t vs n Ht; vm_compute in Ht; injection Ht as <-;
  match goal with |- Forall2 _ ?l _ -> _ => let l' := eval vm_compute in l in change l with l' end;
  intros Hvs; repeat match goal with H : Forall2 _ _ _ |- _ => inversion H; clear H; subst end;
  cbn [t_dst]; cbv [in_type width] in *; intros Hf; cbv [unary binary shl shr sar clz lanes] in Hf.
Ltac given := match goal with H : Some _ = Some _ |- _ => apply (inj Some) in H; rewrite <-H; clear H | H : None = Some _ |- _ => discriminate H end.
Ltac result := applied; given.

Ltac next_kind := apply List.Forall_cons; [cbn [fst snd]; repeat (apply List.Forall_cons; [cbn [fst snd]|]); try apply List.Forall_nil|].

Definition ranged_kinds := Forall (fun k : list (Z * Z) * (Z -> list Z -> option Z) => Forall (fun p => ranged p.1 (k.2 p.2)) k.1).

Ltac fitted := first [assumption | apply mod_fits; lia | apply fits_bit | apply fits_choice; lia | eapply fits_more; [eassumption|lia]
  | unfold fits, all_ones in *; lia].

Lemma kinds_ranged : ranged_kinds kinds.
Proof.
  unfold ranged_kinds, kinds.
  do 4 (next_kind; [result; fitted..|]).
  next_kind; [result; by apply lor_fits..|]. next_kind; [result; by apply land_fits..|]. next_kind; [result; by apply lxor_fits..|].
  next_kind; [result; fitted..|].
  (* shifts *)
  next_kind; [applied; repeat case_match; given; fitted..|].
  next_kind; [applied; repeat case_match; given; first [apply shiftr_fits; fitted|fitted]..|].
  next_kind; [applied; repeat case_match; given; fitted..|].
  (* comparisons *)
  do 6 (next_kind; [result; fitted..|]).
  next_kind; [result; repeat case_match; fitted..|]. next_kind; [result; fitted..|].
  next_kind; [result; fitted..|]. next_kind; [result; case_match; fitted..|]. next_kind; [result; apply left_fits; fitted..|].
  (* counts *)
  next_kind; [applied; case_match; given; eapply (fits_more 8); [apply clz_fits; [assumption|lia..]|lia]..|].
  next_kind; [result; match goal with |- fits _ (popcount ?k ?x) => pose proof (fits_popcount k x) end; unfold fits; lia|].
  next_kind; [result; match goal with |- fits _ (ctz ?k ?x) => pose proof (fits_ctz k x) end; unfold fits; lia|].
  (* conversions *)
  next_kind; [result; fitted..|]. do 4 (next_kind; [result; fitted..|]).
  next_kind; [result; first [fitted|eapply fits_more; [by apply mod_fits|lia]]..|].
  next_kind; [result; match goal with H : fits ?w ?x |- fits _ (?x / 2 ^ ?k) => by apply (fits_div w k) end..|].
  next_kind; [result; by apply lane_fits..|]. next_kind; [result; match goal with |- fits _ (_ * 2 ^ ?w + _) => by apply (fits_pair w w) end..|].
  (* vectors *)
  next_kind; [result; apply (fits_lanes 16 8); [done|]; intros i; by apply mod_fits|].
  next_kind; [result; apply (fits_lanes 8 8); [done|]; intros i; by apply fits_choice|].
  next_kind; [result; apply (fits_lanes 16 8); [done|]; intros i; by apply fits_choice|].
  next_kind; [result; apply (fits_lanes 8 16); [done|]; intros i; by apply fits_choice|].
  next_kind; [result; apply (fits_lanes 4 32); [done|]; intros i; by apply fits_choice|].
  next_kind; [result; apply (fits_lanes 8 32); [done|]; intros i; by apply fits_choice|].
  next_kind; [result; apply (of_lanes_fits 8); [done|]; repeat (apply List.Forall_cons; [by apply lane_fits|]); apply List.Forall_nil|].
  apply List.Forall_nil.
Qed.

Lemma ranged_find rows op f : ranged_kinds rows -> kind_of rows op = Some f -> ranged op f.
Proof.
  unfold ranged_kinds. intros H Hf. apply head_Some_elem_of, list_elem_of_omap in Hf as (k & Hk & (p & Hp & ->)%fmap_Some).
  apply find_some in Hp as [Hp Hop%Z.eqb_eq]. subst op. rewrite List.Forall_forall in H. specialize (H k (proj1 (list_elem_of_In _ _) Hk)).
  rewrite List.Forall_forall in H. by apply H.
Qed.

#[local] Opaque kind_of.

(** The result of an operator that has a meaning. *)
Lemma ref_op_in_type op t vs n : typeOfPrimop op = Ok t -> Forall2 in_type (operand_types t) vs -> ref_op op vs = Some n -> in_type (t_dst t) n.
Proof.
  intros Ht Hvs (f & Hf & Hn)%bind_Some. exact (ranged_find kinds op f kinds_ranged Hf t vs n Ht Hvs Hn).
Qed.
