(* ===== verification/FoldConst.v ===== *)
(** * Operators on constants are folded to what they mean *)

From S2P Require Import Prelude Primop IR Sanity IRSem IRTyping OpSem Fold FoldArith.

(** Constants an operator can be applied to. *)
Definition operands_ok (op : Z) (cs : list IRConst) : Prop :=
  exists t, typeOfPrimop op = Ok t /\ map typeOfIRConst cs = operand_types t /\ Forall (fun c => constant_ok c = true) cs.

(** [c] is the result. *)
Definition means (op : Z) (cs : list IRConst) (c : IRConst) : Prop :=
  constant_ok c = true /\ exists t vs n, typeOfPrimop op = Ok t /\ typeOfIRConst c = t_dst t
    /\ mapM const_value cs = Some vs /\ const_value c = Some n /\ ref_op op vs = Some n.

(** The negation of the least number. *)
Definition overflows (op : Z) (cs : list IRConst) : Prop :=
  op = Iop_Left32 /\ cs = [Ico_U32 (2 ^ 31)] \/ op = Iop_Left64 /\ cs = [Ico_U64 (2 ^ 63)].

Definition folds (op : Z) (cs : list IRConst) (r : folded) : Prop :=
  match r with
  | Ok (Some c) => means op cs c
  | Ok None => True
  | Err e => e = Undefined /\ overflows op cs
  end.

Lemma constant_fits c : constant_ok c = true ->
  match c with
  | Ico_U1 v => v = 0 \/ v = 1
  | Ico_U8 v => fits 8 v
  | Ico_U16 v | Ico_V128 v => fits 16 v
  | Ico_U32 v | Ico_F32i v | Ico_V256 v => fits 32 v
  | Ico_U64 v | Ico_F64i v => fits 64 v
  | Ico_F32 _ | Ico_F64 _ => True
  end.
Proof.
  unfold constant_ok, fits. destruct c; cbn -[Z.pow]; rewrite ?andb_true_iff, ?orb_true_iff, ?Z.eqb_eq, ?Z.leb_le, ?Z.ltb_lt; tauto || lia.
Qed.

Lemma fits_constant c : match c with
  | Ico_U1 v => v = 0 \/ v = 1
  | Ico_U8 v => fits 8 v
  | Ico_U16 v | Ico_V128 v => fits 16 v
  | Ico_U32 v | Ico_F32i v | Ico_V256 v => fits 32 v
  | Ico_U64 v | Ico_F64i v => fits 64 v
  | Ico_F32 _ | Ico_F64 _ => True
  end -> constant_ok c = true.
Proof.
  unfold constant_ok, fits. destruct c; cbn -[Z.pow]; rewrite ?andb_true_iff, ?orb_true_iff, ?Z.eqb_eq, ?Z.leb_le, ?Z.ltb_lt; tauto || lia.
Qed.

(** The meaning of an operator that is known. *)
Ltac reference :=
  match goal with |- ref_op ?op ?l = _ =>
    let m := eval hnf in (meaning op) in change (ref_op op l) with (f ← m; f l);
    cbv [mbind option_bind unary binary fst snd id shl shr sar clz lanes]
  end.

Ltac means :=
  split; [apply fits_constant|eexists _, _, _; split; [vm_compute; reflexivity|]; split; [reflexivity|]; split; [reflexivity|]; split; [reflexivity|reference]].

(** The operands, as numbers of their width. *)
Ltac operands1 :=
  intros c (t & Ht & Hc & Hok); vm_compute in Ht; injection Ht as <-; destruct c; try discriminate Hc; clear Hc;
  apply Forall_inv in Hok; apply constant_fits in Hok; cbn [un as_U1 as_U8 as_U16 as_U32 as_U64 as_V128 as_V256 obind folds to_const].

Definition sound1 (op : Z) (f : IRConst -> folded) : Prop := forall c, operands_ok op [c] -> folds op [c] (f c).
Definition sound2 (op : Z) (f : IRConst -> IRConst -> folded) : Prop := forall c1 c2, operands_ok op [c1; c2] -> folds op [c1; c2] (f c1 c2).

(** Every case of a switch. *)
Definition every {A} (P : Z -> A -> Prop) (cases : list (list Z * A)) : Prop := Forall (fun p => Forall (fun op => P op p.2) p.1) cases.

Lemma every_case {A} (P : Z -> A -> Prop) cases op f : every P cases -> case cases op = Some f -> P op f.
Proof.
  unfold case. intros H (p & Hp & ->)%fmap_Some. apply find_some in Hp as [Hin (op' & Hop & ->%Z.eqb_eq)%existsb_exists].
  unfold every in H. rewrite List.Forall_forall in H. specialize (H p Hin). rewrite List.Forall_forall in H. by apply H.
Qed.

Lemma every_row {A} (P : Z -> A -> Prop) ops f rows : (forall op, In op ops -> P op f) -> every P rows -> every P ((ops, f) :: rows).
Proof. intros H Hr. apply List.Forall_cons; [by apply List.Forall_forall|done]. Qed.

Ltac next_case := apply List.Forall_cons; [repeat (apply List.Forall_cons; [cbn [snd]|]); try apply List.Forall_nil|].

(** One bit. *)
Ltac one_bit := operands1; match goal with H : _ = 0 \/ _ = 1 |- _ => destruct H as [-> | ->] end;
  cbn [notBool Z.eqb Pos.eqb obind folds to_const]; means; vm_compute; first [by repeat split|by auto].

(** The result, as the meaning has it. *)
Ltac fitting := first [assumption | apply mod_fits; lia | eapply fits_more; [eassumption|lia]].
Ltac valued E := operands1; means; rewrite ?E by first [assumption|reflexivity|lia]; [fitting|reflexivity].

Lemma keep_low m k v : 0 <= m -> k = 2 ^ m - 1 -> fits m v -> Z.land k v = v.
Proof. intros Hm -> Hv. destruct (mask v m Hm) as [-> _]. by apply fits_mod. Qed.

Lemma mask_low m k v : 0 <= m -> k = 2 ^ m - 1 -> Z.land k v = v mod 2 ^ m.
Proof. intros Hm ->. apply (mask v m Hm). Qed.

Lemma mask_high m k v : 0 <= m -> k = 2 ^ m - 1 -> Z.land v k = v mod 2 ^ m.
Proof. intros Hm ->. apply (mask v m Hm). Qed.

Lemma sext8_16_spec v : fits 8 v -> sext8_16 v = signed 8 v mod 2 ^ 16.
Proof. intros H. exact (f_equal (fun x => x mod 2 ^ 16) (sign_extend 8 16 v eq_refl ltac:(lia) H)). Qed.
Lemma sext8_32_spec v : fits 8 v -> sext8_32 v = signed 8 v mod 2 ^ 32.
Proof. intros H. exact (f_equal (fun x => x mod 2 ^ 32) (sign_extend 8 32 v eq_refl ltac:(lia) H)). Qed.
Lemma sext16_32_spec v : fits 16 v -> sext16_32 v = signed 16 v mod 2 ^ 32.
Proof. intros H. exact (f_equal (fun x => x mod 2 ^ 32) (sign_extend 16 32 v eq_refl ltac:(lia) H)). Qed.
Lemma sext16_64_spec v : fits 16 v -> sext16_64 v = signed 16 v mod 2 ^ 64.
Proof. intros H. exact (f_equal (fun x => x mod 2 ^ 64) (sign_extend 16 64 v eq_refl ltac:(lia) H)). Qed.
Lemma sext32_64_spec v : fits 32 v -> sext32_64 v = signed 32 v mod 2 ^ 64.
Proof. intros H. exact (f_equal (fun x => x mod 2 ^ 64) (sign_extend 32 64 v eq_refl ltac:(lia) H)). Qed.

Lemma low_bit v : Z.b2z (1 =? Z.land 1 v) = v mod 2 ^ 1.
Proof. rewrite (mask_low 1) by done. pose proof (Z.mod_pos_bound v 2 ltac:(lia)). change (2 ^ 1) with 2. destruct (Z.eqb_spec 1 (v mod 2)); cbn; lia. Qed.

Lemma bit_constant b : Z.b2z b = 0 \/ Z.b2z b = 1.
Proof. destruct b; auto. Qed.

Lemma widen_cases_sound : every sound1 widen_cases.
Proof.
  unfold widen_cases.
  do 7 (next_case; [one_bit|]).
  next_case; [valued sext8_32_spec|]. next_case; [valued sext16_32_spec|].
  next_case; [valued (keep_low 8)|]. next_case; [valued (keep_low 16)|]. next_case; [valued (keep_low 8)|].
  next_case; [valued sext8_16_spec|]. next_case; [valued (keep_low 8)|]. next_case; [valued (keep_low 16)|].
  next_case; [valued (mask_low 16)|]. next_case; [valued (mask_low 8)|].
  do 2 (next_case; [operands1; means; [apply bit_constant|by rewrite low_bit]|]). constructor.
Qed.

Lemma complement_spec w v : 0 <= w -> fits w v -> complement w v = all_ones w - v.
Proof. intros Hw H. by destruct (complement_fits w v Hw H). Qed.

Lemma all_ones_less w v : 0 <= w -> fits w v -> fits w (all_ones w - v).
Proof. intros Hw H. by destruct (complement_fits w v Hw H). Qed.

Lemma high_half_64 v : fits 64 v -> u32 (Z.shiftr v 32) = v / 2 ^ 32 /\ fits 32 (v / 2 ^ 32).
Proof.
  intros H. assert (F : fits 32 (v / 2 ^ 32)) by (unfold fits in *; split; [apply Z.div_pos|apply Z.div_lt_upper_bound]; lia).
  split; [|done]. unfold u32. rewrite Z.shiftr_div_pow2 by lia. by apply fits_mod.
Qed.

Lemma high_half_16 v : fits 16 v -> Z.land (Z.shiftr v 8) 255 = v / 2 ^ 8 /\ fits 8 (v / 2 ^ 8).
Proof.
  intros H. assert (F : fits 8 (v / 2 ^ 8)) by (unfold fits in *; split; [apply Z.div_pos|apply Z.div_lt_upper_bound]; lia).
  split; [|done]. rewrite (mask_high 8), Z.shiftr_div_pow2 by done. by apply fits_mod.
Qed.

Lemma narrow_cases_sound : every sound1 narrow_cases.
Proof.
  unfold narrow_cases.
  next_case; [operands1; means; [rewrite complement_spec by done; by apply all_ones_less|by rewrite (expand_complement 16)]|].
  do 4 (next_case; [operands1; means; rewrite complement_spec by done; [by apply all_ones_less|done]|]).
  next_case; [one_bit|].
  next_case; [valued (mask_high 8)|]. next_case; [valued (mask_high 16)|]. next_case; [valued (mask_high 32)|].
  next_case; [operands1; destruct (high_half_64 v Hok) as [E F]; means; rewrite E; [exact F|done]|].
  next_case; [valued (keep_low 32)|]. next_case; [valued sext16_64_spec|]. next_case; [valued sext32_64_spec|].
  next_case; [valued (mask_high 8)|].
  next_case; [operands1; destruct (high_half_16 v Hok) as [E F]; means; rewrite E; [exact F|done]|]. constructor.
Qed.

(** A test of the operand. *)
Ltac test := unfold bool_const; means; [apply bit_constant|].

Lemma select_ones w v : 0 <= w -> select (2 ^ w - 1) v = (if v =? 0 then 0 else all_ones w) /\ fits w (if v =? 0 then 0 else all_ones w).
Proof. intros Hw. unfold all_ones, fits. split; [done|]. destruct (v =? 0); lia. Qed.

Lemma least_signed w v : 0 < w -> fits w v -> signed w v = - 2 ^ (w - 1) -> v = 2 ^ (w - 1).
Proof.
  unfold signed, fits. intros Hw Hv. assert (2 ^ w = 2 * 2 ^ (w - 1)) by (rewrite <-Z.pow_succ_r by lia; f_equal; lia).
  destruct (Z.ltb_spec v (2 ^ (w - 1))); lia.
Qed.

Lemma left32_sound : sound1 Iop_Left32 (un as_U32 left32).
Proof.
  operands1. unfold left32. change 0xFFFFFFFF with (2 ^ 32 - 1). rewrite (mask_high 32), (fits_mod 32 v Hok), s32_signed by done.
  destruct (Z.eqb_spec (signed 32 v) (- 2 ^ 31)) as [E|]; cbn [negb defined_when obind folds to_const].
  - apply (least_signed 32) in E; [|done|done]. split; [done|]. left. by rewrite E.
  - means; unfold u32; rewrite (left_bits 32) by done; [by apply left_fits|done].
Qed.

Lemma left64_sound : sound1 Iop_Left64 (un as_U64 left64).
Proof.
  operands1. unfold left64. rewrite s64_signed by done.
  destruct (Z.eqb_spec (signed 64 v) (- 2 ^ 63)) as [E|]; cbn [negb defined_when obind folds to_const].
  - apply (least_signed 64) in E; [|done|done]. split; [done|]. right. by rewrite E.
  - means; unfold u64; rewrite (left_bits 64) by done; [by apply left_fits|done].
Qed.

Lemma clz_sound w k v : fits w v -> v <> 0 -> w = Z.of_nat k -> w < 128 -> clz_loop w v k = Ok (w - 1 - Z.log2 v) /\ fits 8 (w - 1 - Z.log2 v).
Proof.
  intros Hv Hn Hw Hb. unfold fits in Hv. rewrite clz_loop_spec by (rewrite <-?Hw; lia). split; [done|]. apply clz_fits; [done|done|lia].
Qed.

Lemma narrow_halves s : Z.land (Z.shiftr s 0) 255 = 0 -> expand 16 s mod 2 ^ 64 = 0.
Proof. rewrite Z.shiftr_0_r. apply (expand_low 16 8). Qed.

Lemma high_halves s : fits 16 s -> Z.land (Z.shiftr s 8) 255 = 0 -> expand 16 s / 2 ^ 64 = 0.
Proof.
  intros Hs H. change (expand 16 s / 2 ^ 64) with (expand (8 + 8) s / 2 ^ (8 * Z.of_nat 8)). rewrite expand_shift by apply Hs.
  rewrite <-(fits_mod (8 * Z.of_nat 8) (expand 8 _)) by apply (expand_fits 8). apply (expand_low 8 8). exact H.
Qed.

Lemma test_cases_sound : every sound1 test_cases.
Proof.
  unfold test_cases.
  next_case; [operands1; test; by rewrite (keep_low 8), Z.eqb_sym by done|].
  next_case; [operands1; test; by rewrite (keep_low 32), Z.eqb_sym by done|].
  next_case; [operands1; test; by rewrite Z.eqb_sym by done|].
  next_case; [operands1; destruct (select_ones 32 v) as [E F]; [done|]; means; [exact F|exact (f_equal Some (eq_sym E))]|].
  next_case; [operands1; destruct (select_ones 64 v) as [E F]; [done|]; means; [exact F|exact (f_equal Some (eq_sym E))]|].
  next_case; [exact left32_sound|]. next_case; [exact left64_sound|].
  next_case; [operands1; destruct (Z.eqb_spec v 0) as [|Hn]; [done|]; unfold fold_Clz32; destruct (Z.eqb_spec v 0) as [|_]; [done|];
    destruct (clz_sound 32 32 v) as [E F]; [done..|]; cbn [negb assert_that obind]; rewrite E; cbn [obind folds to_const]; means;
    [by eapply fits_more|by rewrite (proj2 (Z.eqb_neq v 0) Hn)]|].
  next_case; [operands1; destruct (Z.eqb_spec v 0) as [|Hn]; [done|]; unfold fold_Clz64; destruct (Z.eqb_spec v 0) as [|_]; [done|];
    destruct (clz_sound 64 64 v) as [E F]; [done..|]; cbn [negb assert_that obind]; rewrite E; cbn [obind folds to_const]; means;
    [by eapply fits_more|by rewrite (proj2 (Z.eqb_neq v 0) Hn)]|].
  next_case; [operands1; destruct (Z.eqb_spec v 0) as [->|]; [means; done|done]|].
  next_case; [operands1; destruct (Z.eqb_spec (Z.land (Z.shiftr v 0) 255) 0) as [E|]; [|done]; means; [done|by rewrite narrow_halves]|].
  next_case; [operands1; destruct (Z.eqb_spec (Z.land (Z.shiftr v 8) 255) 0) as [E|]; [|done]; means; [done|by rewrite high_halves]|].
  next_case; [operands1; destruct (Z.eqb_spec v 0) as [->|]; [means; done|done]|].
  next_case; [operands1; destruct (Z.eqb_spec v 0) as [->|]; [means; done|done]..|].
  next_case; [operands1; destruct (Z.eqb_spec v 0) as [->|]; [means; done|done]|]. constructor.
Qed.

(** ** Two operands *)

Ltac operands2 :=
  intros c1 c2 (t & Ht & Hc & Hok); vm_compute in Ht; injection Ht as <-;
  destruct c1 as [x|x|x|x|x|x|x|x|x|x|x]; try discriminate Hc; destruct c2 as [y|y|y|y|y|y|y|y|y|y|y]; try discriminate Hc; clear Hc;
  pose proof (Forall_inv Hok) as Hx; apply constant_fits in Hx;
  pose proof (Forall_inv (Forall_inv_tail Hok)) as Hy; apply constant_fits in Hy; clear Hok;
  cbn [bin8 bin16 bin32 bin64 binV128 cmp32 cmp64 bool_const bin shift as_U1 as_U8 as_U16 as_U32 as_U64 as_V128 as_V256 obind folds to_const];
  cbn [obind folds to_const].

(** Bitwise operators and those modulo a power of 2. *)
Ltac bitwise w L := operands2;
  match goal with Hx : fits _ ?x, Hy : fits _ ?y |- means _ [_ ?x; _ ?y] _ =>
    let F := fresh in let E := fresh in destruct (L w x y ltac:(done) Hx Hy) as [F E];
    means; unfold u8, u16, u32, u64; rewrite E; first [exact F|reflexivity]
  end.
Ltac modular := operands2; means; [by apply mod_fits|reflexivity].

(** On the summaries of vectors. *)
Ltac summaries L X := operands2;
  match goal with Hx : fits _ ?x, Hy : fits _ ?y |- means _ [_ ?x; _ ?y] _ =>
    let F := fresh in let E := fresh in destruct (L 16 x y ltac:(done) Hx Hy) as [F E];
    means; unfold u16; rewrite E; [exact F|by rewrite X]
  end.

Lemma arith_cases_sound : every sound2 arith_cases.
Proof.
  unfold arith_cases.
  next_case; [bitwise 8 lor_fits|]. next_case; [bitwise 16 lor_fits|]. next_case; [bitwise 32 lor_fits|]. next_case; [bitwise 64 lor_fits|].
  next_case; [summaries lor_fits expand_lor|].
  next_case; [bitwise 8 lxor_fits|]. next_case; [bitwise 16 lxor_fits|]. next_case; [bitwise 32 lxor_fits|]. next_case; [bitwise 64 lxor_fits|].
  next_case; [summaries lxor_fits expand_lxor|].
  next_case; [bitwise 8 land_fits|]. next_case; [bitwise 16 land_fits|]. next_case; [bitwise 32 land_fits|]. next_case; [bitwise 64 land_fits|].
  next_case; [summaries land_fits expand_land|].
  do 6 (next_case; [modular|]). constructor.
Qed.

(** A shift in range. *)
Ltac in_range w :=
  operands2;
  match goal with |- context [if (0 <=? ?y) && (?y <=? _) then _ else _] =>
    destruct (Z.leb_spec 0 y), (Z.leb_spec y (w - 1)); cbn [andb]; try exact I; cbn [obind folds to_const]; means;
    [|rewrite (proj2 (Z.ltb_lt y w)) by lia]
  end.

Lemma shift_cases_sound : every sound2 shift_cases.
Proof.
  unfold shift_cases.
  next_case. { operands2. means; [by destruct (y <? x)|]. f_equal. destruct (Z.ltb_spec y x); lia. }
  next_case; [modular|]. next_case; [modular|].
  next_case. { operands2. means; rewrite !s32_signed by done; [by apply mod_fits|done]. }
  next_case. { in_range 32; [by apply mod_fits|]. unfold u32. by rewrite Z.shiftl_mul_pow2. }
  next_case. { in_range 64; [by apply mod_fits|]. unfold u64. by rewrite Z.shiftl_mul_pow2. }
  next_case. { in_range 32; [by apply mod_fits|]. unfold u32. by rewrite s32_signed, Z.shiftr_div_pow2 by done. }
  next_case. { in_range 64; [by apply mod_fits|]. unfold u64. by rewrite s64_signed, Z.shiftr_div_pow2 by done. }
  next_case. { in_range 32; by destruct (shiftr_fits 32 x y) as [-> ?]. }
  next_case. { in_range 64; by destruct (shiftr_fits 64 x y) as [-> ?]. }
  constructor.
Qed.

Ltac compared := operands2; means; [apply bit_constant|rewrite ?s32_signed, ?s64_signed by done; reflexivity].

Lemma cmp_cases_sound : every sound2 cmp_cases.
Proof.
  unfold cmp_cases.
  do 2 (next_case; [compared|]).
  next_case; [operands2; means; [apply bit_constant|by rewrite !(keep_low 8) by done]..|].
  do 2 (next_case; [compared..|]). do 8 (next_case; [compared|]).
  next_case. { operands2. means; rewrite ?s32_signed by done; [|done].
    destruct (signed 32 x <? signed 32 y), (signed 32 y <? signed 32 x); unfold fits; lia. }
  next_case. { operands2. means; rewrite lor_shiftl_low by done; [|done]. unfold fits in *. lia. }
  next_case; [by intros ? ? ?|].
  next_case. { operands2. destruct (Z.eqb_spec 0 x) as [<-|]; [|done]. destruct (Z.eqb_spec 0 y) as [<-|]; [|done]. by means. }
  next_case. { operands2. unfold isZeroV128. destruct (Z.eqb_spec x 0) as [->|]; [|done]. destruct (Z.eqb_spec y 0) as [->|]; [|done]. by means. }
  next_case. { operands2. destruct (Z.eqb_spec 0 x) as [<-|]; [|done]. destruct (Z.eqb_spec 0 y) as [<-|]; [|done]. by means. }
  constructor.
Qed.

(** ** The switches *)

Lemma fold_unop_const_sound op c : operands_ok op [c] -> folds op [c] (fold_unop_const op c).
Proof.
  unfold fold_unop_const. intros H. destruct (case unop_cases op) as [f|] eqn:E; [|done]. revert c H. eapply (every_case sound1); [|exact E].
  unfold every, unop_cases. rewrite !Forall_app. split_and!; [apply widen_cases_sound|apply narrow_cases_sound|apply test_cases_sound].
Qed.

Lemma fold_binop_const_sound op c1 c2 : operands_ok op [c1; c2] -> folds op [c1; c2] (fold_binop_const op c1 c2).
Proof.
  unfold fold_binop_const. intros H. destruct (case binop_cases op) as [f|] eqn:E; [|done]. revert c1 c2 H. eapply (every_case sound2); [|exact E].
  unfold every, binop_cases. rewrite !Forall_app. split_and!; [apply arith_cases_sound|apply shift_cases_sound|apply cmp_cases_sound].
Qed.

(** C13: an operator applied to constants of its operand types is folded to what it
    means: the result, when there is one, is a constant of the result's type
    within its width, whose number is the one that the reference gives for the
    operands' numbers: sign and zero extensions, modular arithmetic, shifts below
    the width, signed and unsigned comparisons, leading zeroes, halves, and the
    vectors whose bytes are all 0s or all 1s.  The code's own arithmetic is
    undefined at one place only, the negation of the least number that [Left32]
    and [Left64] compute. *)
Theorem fold_constants_correct op :
  (forall c, operands_ok op [c] -> folds op [c] (fold_unop_const op c))
  /\ (forall c1 c2, operands_ok op [c1; c2] -> folds op [c1; c2] (fold_binop_const op c1 c2)).
Proof. split; intros; [by apply fold_unop_const_sound|by apply fold_binop_const_sound]. Qed.

Lemma fold_constants_correct_witness :
  fold_unop_const Iop_16Sto64 (Ico_U16 0x8001) = Ok (Some (Ico_U64 0xFFFFFFFFFFFF8001))
  /\ means Iop_16Sto64 [Ico_U16 0x8001] (Ico_U64 0xFFFFFFFFFFFF8001)
  /\ fold_binop_const Iop_Sar32 (Ico_U32 0xFFFFFF00) (Ico_U8 4) = Ok (Some (Ico_U32 0xFFFFFFF0))
  /\ means Iop_Sar32 [Ico_U32 0xFFFFFF00; Ico_U8 4] (Ico_U32 0xFFFFFFF0)
  /\ fold_unop_const Iop_Left32 (Ico_U32 (2 ^ 31)) = Err Undefined.
Proof.
  split; [vm_compute; reflexivity|]. split; [|split; [vm_compute; reflexivity|split; [|vm_compute; reflexivity]]].
  - refine (proj1 (fold_constants_correct Iop_16Sto64) (Ico_U16 0x8001) _). eexists. split; [vm_compute; reflexivity|].
    split; [vm_compute; reflexivity|]. repeat constructor.
  - refine (proj2 (fold_constants_correct Iop_Sar32) (Ico_U32 0xFFFFFF00) (Ico_U8 4) _). eexists. split; [vm_compute; reflexivity|].
    split; [vm_compute; reflexivity|]. repeat constructor.
Defined.
