(* ===== verification/IRConcrete.v ===== *)
(** * A concrete machine

    An instance of [Machine] that can be run, and its laws, those of [IntegerLaws]
    too.  A byte of the guest state remembers the value it was written with, so
    that reading it back gives that value; operators that have no meaning in
    [OpSem] add up their operands; calls, marks, hints and fences are recorded in a
    trace. *)

From stdpp Require Import gmap.
From S2P Require Import Prelude Primop IR IRSem IRTyping OpSem Fold FoldArith FoldConst.

(** A value is a number of its type. *)
Definition in_type_b (ty : IRType) (n : Z) : bool := match width ty with Some w => (0 <=? n) && (n <? 2 ^ w) | None => true end.
Definition wrap (ty : IRType) (n : Z) : Z := match width ty with Some w => n mod 2 ^ w | None => n end.

Lemma in_type_iff ty n : in_type_b ty n = true <-> in_type ty n.
Proof. unfold in_type_b, in_type, fits. destruct (width ty); [|done]. rewrite andb_true_iff, Z.leb_le, Z.ltb_lt. done. Qed.

Lemma width_nonneg ty w : width ty = Some w -> 0 <= w.
Proof. destruct ty; intros [= <-]; lia. Qed.

Lemma wrap_in_type ty n : in_type_b ty (wrap ty n) = true.
Proof. apply in_type_iff. unfold in_type, wrap. destruct (width ty) as [w|] eqn:E; [|done]. by eapply mod_fits, width_nonneg. Qed.

Lemma wrap_id ty n : in_type ty n -> wrap ty n = n.
Proof. unfold in_type, wrap. destruct (width ty); [apply fits_mod|done]. Qed.

Record V := mk_V { ty_of : IRType; num : Z; num_ok : in_type_b ty_of num = true }.
Definition value (ty : IRType) (n : Z) : V := mk_V ty (wrap ty n) (wrap_in_type ty n).

Lemma V_eq v v' : ty_of v = ty_of v' -> num v = num v' -> v = v'.
Proof. destruct v as [ty n H], v' as [ty' n' H']. cbn. intros <- <-. f_equal. apply proof_irrel. Qed.

#[export] Instance V_eq_dec : EqDecision V.
Proof.
  intros v v'. refine (cast_if_and (decide (ty_of v = ty_of v')) (decide (num v = num v'))); [by apply V_eq|congruence|congruence].
Defined.

Record W := mk_W { guest : gmap Z (V * Z); mem : gmap Z Z; trace : list (string * list Z) }.

#[export] Instance W_eta : RecordEta W := fun w => mk_W (guest w) (mem w) (trace w).

Definition size_of (ty : IRType) : Z := match sizeofIRType ty with Ok n => n | Err _ => 0 end.

(** ** The guest state *)

Section Guest.
Implicit Types (g : gmap Z (V * Z)) (v : V).

(** The first [k] bytes of [v]. *)
Fixpoint write_bytes g (o : Z) v (k : nat) : gmap Z (V * Z) :=
  match k with O => g | S k => write_bytes (<[o + Z.of_nat k := (v, Z.of_nat k)]> g) o v k end.
Definition put_guest g o v := write_bytes g o v (Z.to_nat (size_of (ty_of v))).

Fixpoint read_bytes g (o : Z) (k : nat) : list (option (V * Z)) :=
  match k with O => [] | S k => g !! (o + Z.of_nat k) :: read_bytes g o k end.
Fixpoint bytes_of v (k : nat) : list (option (V * Z)) :=
  match k with O => [] | S k => Some (v, Z.of_nat k) :: bytes_of v k end.

(** The number whose bytes these are, the highest first. *)
Definition glue (bs : list (option (V * Z))) : Z :=
  foldl (fun n b => n * 256 + match b with Some (v, k) => Z.shiftr (num v) (8 * k) `mod` 256 | None => 0 end) 0 bs.

Definition get_guest g o ty : V :=
  let n := Z.to_nat (size_of ty) in
  let bs := read_bytes g o n in
  match g !! o with
  | Some (v, _) => if decide (ty_of v = ty /\ bs = bytes_of v n) then v else value ty (glue bs)
  | None => value ty (glue bs)
  end.

Lemma write_bytes_lookup g o v k i :
  write_bytes g o v k !! i = if decide (o <= i < o + Z.of_nat k) then Some (v, i - o) else g !! i.
Proof.
  revert g. induction k as [|k IH]; intros g; cbn [write_bytes].
  { case_decide; [lia|done]. }
  rewrite IH. do 2 case_decide; try lia; try done.
  - replace (o + Z.of_nat k) with i by lia. rewrite lookup_insert_eq. do 2 f_equal. lia.
  - rewrite lookup_insert_ne by lia. done.
Qed.

Lemma read_bytes_ext g g' o k : (forall i, o <= i < o + Z.of_nat k -> g !! i = g' !! i) -> read_bytes g o k = read_bytes g' o k.
Proof.
  induction k as [|k IH]; intros H; [done|]. cbn. rewrite H by lia. f_equal. apply IH. intros i Hi. apply H. lia.
Qed.

Lemma read_written g o v k : (forall i, 0 <= i < Z.of_nat k -> g !! (o + i) = Some (v, i)) -> read_bytes g o k = bytes_of v k.
Proof.
  induction k as [|k IH]; intros H; [done|]. cbn. rewrite H by lia. f_equal. apply IH. intros i Hi. apply H. lia.
Qed.

Lemma size_of_pos ty n : sizeofIRType ty = Ok n -> size_of ty = n /\ 0 < n.
Proof. unfold size_of. intros H. rewrite H. split; [done|]. destruct ty; cbn in H; try discriminate; injection H as <-; lia. Qed.

Lemma get_put_guest g o v n : sizeofIRType (ty_of v) = Ok n -> get_guest (put_guest g o v) o (ty_of v) = v.
Proof.
  intros [Hn Hpos]%size_of_pos. unfold get_guest, put_guest. rewrite Hn.
  rewrite write_bytes_lookup. rewrite decide_True by lia.
  rewrite decide_True; [done|]. split; [done|]. apply read_written. intros i Hi.
  rewrite write_bytes_lookup, decide_True by lia. do 2 f_equal. lia.
Qed.

Lemma get_guest_type g o ty : ty_of (get_guest g o ty) = ty.
Proof. unfold get_guest. destruct (g !! o) as [[v k]|]; [|done]. case_decide as H; [apply H|done]. Qed.

Lemma guest_ext g g' o ty n : sizeofIRType ty = Ok n -> (forall i, o <= i < o + n -> g !! i = g' !! i) ->
  get_guest g o ty = get_guest g' o ty.
Proof.
  intros [Hn Hpos]%size_of_pos H. unfold get_guest. cbv zeta. rewrite Hn.
  rewrite (read_bytes_ext g g' o) by (intros i Hi; apply H; lia). by rewrite H by lia.
Qed.

Lemma put_put_guest g o v v' n : sizeofIRType (ty_of v) = Ok n -> sizeofIRType (ty_of v') = Ok n ->
  put_guest (put_guest g o v) o v' = put_guest g o v'.
Proof.
  intros [Hn Hpos]%size_of_pos [Hn' _]%size_of_pos. apply map_eq. intros i. unfold put_guest.
  rewrite !write_bytes_lookup, Hn, Hn'. by case_decide.
Qed.

Lemma get_put_guest_apart g o v n o' ty n' : sizeofIRType (ty_of v) = Ok n -> sizeofIRType ty = Ok n' -> apart o n o' n' ->
  get_guest (put_guest g o v) o' ty = get_guest g o' ty.
Proof.
  intros [Hn Hpos]%size_of_pos Hn' Ha. eapply guest_ext; [done|]. intros i Hi. unfold put_guest.
  rewrite write_bytes_lookup, Hn. apply decide_False. unfold apart in Ha. lia.
Qed.

End Guest.

(** ** The machine *)

Definition sum (vs : list V) : Z := foldr (fun v n => num v + n) 0 vs.
Definition arg_number (a : arg_value V) : Z := match a with Arg_value v => num v | Arg_VECRET => 0 | Arg_GSPTR => 1 end.
Definition log (w : W) (what : string) (l : list Z) : W := w <| trace := trace w ++ [(what, l)] |>.
Definition result_of (op : Z) : IRType := match typeOfPrimop op with Ok t => t_dst t | Err _ => Ity_INVALID end.
Definition number (c : IRConst) : Z :=
  match c with
  | Ico_U1 b => b
  | Ico_U8 v | Ico_U16 v | Ico_U32 v | Ico_U64 v | Ico_F32i v | Ico_F64i v => v
  | Ico_V128 v => expand 16 v
  | Ico_V256 v => expand 32 v
  | Ico_F32 _ | Ico_F64 _ => 0
  end.

Definition load (w : W) (ty : IRType) (a : V) : V := value ty (default 0 (mem w !! num a)).
Definition store (w : W) (a v : V) : W := w <| mem := <[(num a) := num v]> (mem w) |>.

(** The element of an array of the guest state. *)
Definition element_of (d : IRRegArray) (i b : Z) : Z := element d i b (size_of (elemTy d)).

#[export] Instance machine : Machine V W := {|
  v_type := ty_of;
  v_const c := value (typeOfIRConst c) (number c);
  v_true v := Z.odd (num v);
  v_op op vs := value (result_of op) (default (sum vs) (ref_op op (map num vs)));
  v_call _ ty vs := value ty (sum vs);
  v_skipped ty := value ty 0x5555555555555555;
  w_get w o ty := get_guest (guest w) o ty;
  w_geti w d i b := get_guest (guest w) (element_of d (num i) b) (elemTy d);
  w_put w o v := w <| guest := put_guest (guest w) o v |>;
  w_puti w d i b v :=
    if 0 <? ra_nElems d then w <| guest := put_guest (guest w) (element_of d (num i) b) v |> else w;
  w_load w _ ty a := load w ty a;
  w_store w _ a v := store w a v;
  w_cas w _ a eh el dh dl :=
    let old := load w (ty_of el) a in
    (if num old =? num el then store w a dl else w, old, old);
  w_loadlink w _ ty a := (w, load w ty a);
  w_storecond w _ a v := (store w a v, value Ity_I1 1);
  w_call w cee vs _ _ _ fxs ty :=
    let w := log w (name cee) (map arg_number vs) in
    (if reads_only fxs then w else w <| guest := ∅ |>, value ty (Z.of_nat (length vs)));
  w_fence w _ := log w "fence" [];
  w_mark w a n d := log w "mark" [a; n; d];
  w_hint w b n a := log w "hint" [num b; n; num a]
|}.

#[export] Instance machine_laws : MachineLaws machine.
Proof.
  split; cbn; try done.
  - intros op vs t Ht. unfold result_of. by rewrite Ht.
  - intros w o ty. apply get_guest_type.
  - intros w d v b. apply get_guest_type.
  - intros b. change (Z.land 1 b) with (Z.land (2 ^ 1 - 1) b). destruct (mask b 1 ltac:(done)) as [-> _].
    unfold wrap. cbn [width]. change (2 ^ 1) with 2. rewrite !Zmod_odd. by destruct (Z.odd b).
  - intros w o v n Hn. by eapply get_put_guest.
  - intros w o v v' n Hn Hn'. unfold set_field. cbn. by erewrite put_put_guest.
  - intros w o v n o' ty n' Hn Hn' Ha. by eapply get_put_guest_apart.
  - intros w d i b v n o' ty n' Hn Hn' Hv Ha. destruct (Z.ltb_spec 0 (ra_nElems d)); [|done].
    eapply get_put_guest_apart; [rewrite Hv; exact Hn|exact Hn'|]. unfold element_of, element.
    apply size_of_pos in Hn as [-> Hpos]. pose proof (Z.mod_pos_bound (num i + b) (ra_nElems d) ltac:(lia)).
    unfold apart in *. nia.
  - intros w en a eh el dh dl o ty. by case_match.
  - intros w cee vs f a n fxs ty' o ty ->. done.
Qed.

(** Its operators compute what they mean. *)
Lemma number_in_type c n : constant_ok c = true -> const_value c = Some n -> number c = n /\ in_type (typeOfIRConst c) n.
Proof.
  intros Hc%constant_fits Hn. unfold in_type. destruct c; cbn [const_value] in Hn; try discriminate Hn; injection Hn as <-; (split; [done|]); cbn [typeOfIRConst width]; try done.
  - unfold fits. lia.
  - apply (expand_fits 16).
  - apply (expand_fits 32).
Qed.

Lemma nums_in_type vs : Forall2 in_type (map ty_of vs) (map num vs).
Proof. induction vs as [|[ty n H] vs IH]; constructor; [by apply in_type_iff|done]. Qed.

#[export, refine] Instance machine_integers : IntegerLaws machine := {| v_bits := num |}.
Proof.
  - intros [ty n H] w Hw. cbn in *. apply in_type_iff in H. unfold in_type in H. by rewrite Hw in H.
  - intros v v' Ht _ Hn. by apply V_eq.
  - intros c n Hc Hn. destruct (number_in_type c n Hc Hn) as [E H]. cbn. rewrite E. by apply wrap_id.
  - intros op t vs n Ht Hvs Hn. cbn [v_type v_op machine num value] in *. rewrite Hn. cbn [default]. unfold result_of. rewrite Ht. apply wrap_id. eapply ref_op_in_type; [exact Ht| |exact Hn].
    rewrite <-Hvs. apply nums_in_type.
Defined.

(** Its guest state is a map of bytes. *)
Definition guests_but (D : Z -> Prop) (w w' : W) : Prop :=
  mem w = mem w' /\ trace w = trace w' /\ forall i, ~ D i -> guest w !! i = guest w' !! i.

Lemma put_guest_but D g g' o v i : (~ D i -> g !! i = g' !! i) -> ~ (D i /\ ~ (o <= i < o + size_of (ty_of v))) ->
  put_guest g o v !! i = put_guest g' o v !! i.
Proof.
  intros H Hi. unfold put_guest. rewrite !write_bytes_lookup. case_decide as Hin; [done|]. apply H. intros HD. apply Hi. split; [done|].
  intros ?. apply Hin. lia.
Qed.

Lemma put_guest_mono D g g' o v i : (~ D i -> g !! i = g' !! i) -> ~ D i -> put_guest g o v !! i = put_guest g' o v !! i.
Proof. intros H Hi. eapply put_guest_but; [exact H|tauto]. Qed.

#[export, refine] Instance machine_frame : GuestFrame machine := {| same_but := guests_but |}.
Proof.
  - done.
  - intros D D' w w' HD (Hm & Ht & Hg). split_and!; [done..|]. auto.
  - intros D [] [] HD (Hm & Ht & Hg). cbn in *. subst. f_equal. apply map_eq. auto.
  - intros D w w' o v n Hn (Hm & Ht & Hg). apply size_of_pos in Hn as [<- _]. split_and!; [done..|]. intros i. apply put_guest_but, Hg.
  - intros D w w' o v n Hn HD (Hm & Ht & Hg). apply size_of_pos in Hn as [Hs Hp]. split_and!; [done..|]. intros i Hi. cbn in *.
    unfold put_guest. rewrite write_bytes_lookup, Hs, decide_False; [by apply Hg|]. intros Hin. apply Hi, HD. lia.
  - intros D w w' d j b v (Hm & Ht & Hg). cbn. destruct (0 <? ra_nElems d); [|done]. split_and!; [done..|]. intros i. by apply put_guest_mono, Hg.
  - intros D w w' o ty n Hn HD (Hm & Ht & Hg). eapply guest_ext; [exact Hn|]. auto.
  - intros D w w' d v b n Hn Hpos HD (Hm & Ht & Hg). eapply guest_ext; [exact Hn|]. intros i Hi. apply Hg, HD. revert Hi. unfold element_of, element.
    apply size_of_pos in Hn as [-> Hp]. pose proof (Z.mod_pos_bound (num v + b) (ra_nElems d) Hpos). nia.
  - intros D w w' en ty a (Hm & _). cbn. unfold load. by rewrite Hm.
  - intros D w w' en a v (Hm & Ht & Hg). split_and!; [cbn; by rewrite Hm|done|done].
  - intros D w w' a n d (Hm & Ht & Hg). split_and!; [done|cbn; by rewrite Ht|done].
  - intros D w w' cee vs f a n ty (Hm & Ht & Hg). split; [|done]. split_and!; [done|cbn; by rewrite Ht|done].
Qed.

(** Its arrays are made of registers. *)
#[export] Instance machine_arrays : ArrayLaws machine.
Proof.
  split.
  - intros w d v b n _ Hn _. apply size_of_pos in Hn as [<- _]. cbn. unfold element_of. reflexivity.
  - intros w d i b v n _ Hn Hpos _. apply size_of_pos in Hn as [<- _]. cbn. apply Z.ltb_lt in Hpos. by rewrite Hpos.
Qed.

#[export] Instance machine_loads : LoadLaws machine.
Proof. split; try done. intros w d i b v en ty a. cbn. by destruct (0 <? ra_nElems d). Qed.
