(* ===== verification/Flatten.v ===== *)
(** * Flattening: VEX/priv/ir_opt.c

    The first pass of the optimiser turns a block into flat code, in which the
    operands of statements and expressions are temporaries and constants.  The
    block being built is the state. *)

From S2P Require Import Prelude Primop IR.

(** [newIRTemp] and [addStmtToIRSB] on the block being built. *)
Definition new_temp (ty : IRType) : SE IRSB Z := fun bb =>
  let '(t, env) := newIRTemp (tyenv bb) ty in Ok (t, bb <| tyenv := env |>).
Definition append_stmt (st : IRStmt) : SE IRSB unit := modify (fun bb => addStmtToIRSB bb st).
Definition type_now (e : IRExpr) : SE IRSB IRType := fun bb => lift (typeOfIRExpr (tyenv bb) e) bb.

(** [addStmtToIRSB(bb, IRStmt_WrTmp(t1, e)); return IRExpr_RdTmp(t1)]. *)
Definition into (t1 : Z) (e : IRExpr) : SE IRSB IRExpr :=
  append_stmt (Ist_WrTmp t1 e);; mret (Iex_RdTmp t1).

Definition isFlat (e : IRExpr) : bool :=
  match e with
  | Iex_Get _ _ => true
  | Iex_Binop _ arg1 arg2 => isIRAtom arg1 && isIRAtom arg2
  | Iex_Load _ _ addr => isIRAtom addr
  | _ => false
  end.

Definition isF64i (con : IRConst) : bool := match con with Ico_F64i _ => true | _ => false end.

Fixpoint sequence {S A} (ms : list (SE S A)) : SE S (list A) :=
  match ms with [] => mret [] | m :: ms => a ← m; l ← sequence ms; mret (a :: l) end.

(** C leaves open in which order the arguments of a call are evaluated, here of
    the functions that build expressions, and a compiler may take another order
    for each call.  [order bb n] is the one of the [n] arguments still to be
    evaluated that comes next when [bb] is the block so far. *)
Section Order.
Context (order : IRSB -> nat -> nat).

Definition next_arg (n : nat) : SE IRSB nat := fun bb => Ok (order bb n, bb).

(** The arguments of a call of two, three or four. *)
Definition unseq2 (m1 m2 : SE IRSB IRExpr) : SE IRSB (IRExpr * IRExpr) :=
  i ← next_arg 2;
  match i with
  | 0%nat => a ← m1; b ← m2; mret (a, b)
  | _ => b ← m2; a ← m1; mret (a, b)
  end.

Definition unseq3 (m1 m2 m3 : SE IRSB IRExpr) : SE IRSB (IRExpr * (IRExpr * IRExpr)) :=
  i ← next_arg 3;
  match i with
  | 0%nat => a ← m1; l ← unseq2 m2 m3; mret (a, l)
  | 1%nat => b ← m2; l ← unseq2 m1 m3; mret (let '(a, c) := l in (a, (b, c)))
  | _ => c ← m3; l ← unseq2 m1 m2; mret (let '(a, b) := l in (a, (b, c)))
  end.

Definition unseq4 (m1 m2 m3 m4 : SE IRSB IRExpr) : SE IRSB (IRExpr * (IRExpr * (IRExpr * IRExpr))) :=
  i ← next_arg 4;
  match i with
  | 0%nat => a ← m1; l ← unseq3 m2 m3 m4; mret (a, l)
  | 1%nat => b ← m2; l ← unseq3 m1 m3 m4; mret (let '(a, (c, d)) := l in (a, (b, (c, d))))
  | 2%nat => c ← m3; l ← unseq3 m1 m2 m4; mret (let '(a, (b, d)) := l in (a, (b, (c, d))))
  | _ => d ← m4; l ← unseq3 m1 m2 m3; mret (let '(a, (b, c)) := l in (a, (b, (c, d))))
  end.

Fixpoint flatten_Expr (ex : IRExpr) : SE IRSB IRExpr :=
  ty ← type_now ex;
  match ex with
  | Iex_GetI descr ix bias => t1 ← new_temp ty; ix ← flatten_Expr ix; into t1 (Iex_GetI descr ix bias)
  | Iex_Get _ _ => t1 ← new_temp ty; into t1 ex
  | Iex_Qop op arg1 arg2 arg3 arg4 =>
      t1 ← new_temp ty;
      args ← unseq4 (flatten_Expr arg1) (flatten_Expr arg2) (flatten_Expr arg3) (flatten_Expr arg4);
      into t1 (let '(a1, (a2, (a3, a4))) := args in Iex_Qop op a1 a2 a3 a4)
  | Iex_Triop op arg1 arg2 arg3 =>
      t1 ← new_temp ty;
      args ← unseq3 (flatten_Expr arg1) (flatten_Expr arg2) (flatten_Expr arg3);
      into t1 (let '(a1, (a2, a3)) := args in Iex_Triop op a1 a2 a3)
  | Iex_Binop op arg1 arg2 =>
      t1 ← new_temp ty;
      args ← unseq2 (flatten_Expr arg1) (flatten_Expr arg2);
      into t1 (let '(a1, a2) := args in Iex_Binop op a1 a2)
  | Iex_Unop op arg => t1 ← new_temp ty; a ← flatten_Expr arg; into t1 (Iex_Unop op a)
  | Iex_Load e lty addr => t1 ← new_temp ty; a ← flatten_Expr addr; into t1 (Iex_Load e lty a)
  | Iex_CCall cee retty args =>
      newargs ← sequence (map flatten_Expr args);
      t1 ← new_temp ty; into t1 (Iex_CCall cee retty newargs)
  | Iex_ITE cond iftrue iffalse =>
      t1 ← new_temp ty;
      args ← unseq3 (flatten_Expr cond) (flatten_Expr iftrue) (flatten_Expr iffalse);
      into t1 (let '(c, (t, f)) := args in Iex_ITE c t f)
  | Iex_Const con =>
      if isF64i con then t1 ← new_temp ty; into t1 (Iex_Const con) else mret ex
  | Iex_RdTmp _ => mret ex
  | Iex_Binder _ | Iex_VECRET | Iex_GSPTR => lift (Err Panic)
  end.

(** [e ? flatten_Expr(bb, e) : NULL]. *)
Definition flatten_opt (e : option IRExpr) : SE IRSB (option IRExpr) :=
  match e with Some e => e' ← flatten_Expr e; mret (Some e') | None => mret None end.

(** One argument of a dirty call. *)
Definition flatten_arg (arg : IRExpr) : SE IRSB IRExpr :=
  if is_IRExpr_VECRET_or_GSPTR arg then mret arg else flatten_Expr arg.

(** [d2->mAddr]. *)
Definition flatten_mAddr (d : IRDirty) : SE IRSB (option IRExpr) :=
  if bool_decide (mFx d = Ifx_None) then lift (assert_that (match mAddr d with None => true | Some _ => false end));; mret None
  else match mAddr d with Some e => e' ← flatten_Expr e; mret (Some e') | None => lift (Err Undefined) end.

Definition flatten_Stmt (st : IRStmt) : SE IRSB unit :=
  match st with
  | Ist_Put offset data =>
      if isIRAtom data then append_stmt st else e1 ← flatten_Expr data; append_stmt (Ist_Put offset e1)
  | Ist_PutI descr ix bias data =>
      e1 ← flatten_Expr ix; e2 ← flatten_Expr data; append_stmt (Ist_PutI descr e1 bias e2)
  | Ist_WrTmp tmp data =>
      if isFlat data then append_stmt st else e1 ← flatten_Expr data; append_stmt (Ist_WrTmp tmp e1)
  | Ist_Store e addr data =>
      e1 ← flatten_Expr addr; e2 ← flatten_Expr data; append_stmt (Ist_Store e e1 e2)
  | Ist_StoreG e addr data guard =>
      e1 ← flatten_Expr addr; e2 ← flatten_Expr data; e3 ← flatten_Expr guard; append_stmt (Ist_StoreG e e1 e2 e3)
  | Ist_LoadG e cvt dst addr alt guard =>
      e1 ← flatten_Expr addr; e2 ← flatten_Expr alt; e3 ← flatten_Expr guard;
      append_stmt (Ist_LoadG e cvt dst e1 e2 e3)
  | Ist_CAS cas =>
      e1 ← flatten_Expr (cas_addr cas);
      e2 ← flatten_opt (expdHi cas);
      e3 ← flatten_Expr (expdLo cas);
      e4 ← flatten_opt (dataHi cas);
      e5 ← flatten_Expr (dataLo cas);
      append_stmt (Ist_CAS (mk_IRCAS (oldHi cas) (oldLo cas) (cas_end cas) e1 e2 e3 e4 e5))
  | Ist_LLSC e result addr storedata =>
      e1 ← flatten_Expr addr; e2 ← flatten_opt storedata; append_stmt (Ist_LLSC e result e1 e2)
  | Ist_Dirty d =>
      a ← flatten_mAddr d;
      g ← flatten_Expr (guard d);
      l ← sequence (map flatten_arg (args d));
      append_stmt (Ist_Dirty (mk_IRDirty (cee d) g l (tmp d) (mFx d) a (mSize d) (fxState d)))
  | Ist_NoOp | Ist_MBE _ | Ist_IMark _ _ _ => append_stmt st
  | Ist_AbiHint base len nia =>
      e1 ← flatten_Expr base; e2 ← flatten_Expr nia; append_stmt (Ist_AbiHint e1 len e2)
  | Ist_Exit guard jk dst offsIP => e1 ← flatten_Expr guard; append_stmt (Ist_Exit e1 jk dst offsIP)
  end.

(** [emptyIRSB()] with a copy of the types. *)
Definition emptyIRSB (env : IRTypeEnv) : IRSB := mk_IRSB env [] (Iex_Const (Ico_U32 0)) Ijk_Boring 0.

Definition flatten_BB (sb : IRSB) : outcome IRSB :=
  let* (e, out) := (for_each (stmts sb) flatten_Stmt;; flatten_Expr (next sb)) (emptyIRSB (tyenv sb)) in
  Ok (out <| next := e |> <| jumpkind := jumpkind sb |> <| sb_offsIP := sb_offsIP sb |>).

End Order.
