(* ===== verification/FlattenTheory.v ===== *)
(** * Flattening is total, yields flat code and keeps what a block does *)

From stdpp Require Import gmap.
From S2P Require Import Prelude Primop IR Sanity IRSem IRRun IRTyping IRConcrete Flatten.

(** ** Computations on the block being built *)

Lemma SE_bind_ok {S A B} (m : SE S A) (f : A -> SE S B) s a s1 :
  m s = Ok (a, s1) -> (m ≫= f) s = f a s1.
Proof. unfold mbind, SE_bind. by intros ->. Qed.

(** Take apart a computation that returned. *)
Ltac inv_se :=
  repeat match goal with
  | H : mbind _ _ _ = Ok _ |- _ =>
      let a := fresh "a" in let bb := fresh "bb" in let H1 := fresh "Hm" in
      apply SE_bind_inv in H as (a & bb & H1 & H)
  | H : mret _ _ = Ok _ |- _ => unfold mret, SE_ret in H; injection H as H; try subst
  | H : lift _ _ = Ok _ |- _ => unfold lift in H; cbn in H
  | H : (let '(_, _) := ?p in _) _ = Ok _ |- _ => destruct p
  | H : append_stmt _ _ = Ok _ |- _ => unfold append_stmt, modify in H; injection H as H; try subst
  | H : into _ _ _ = Ok _ |- _ => unfold into in H
  | H : Err _ = Ok _ |- _ => discriminate H
  end.

Lemma type_now_inv e bb ty bb' : type_now e bb = Ok (ty, bb') -> bb' = bb /\ typeOfIRExpr (tyenv bb) e = Ok ty.
Proof. unfold type_now, lift. destruct typeOfIRExpr; [|done]. by intros [= -> ->]. Qed.

Lemma new_temp_inv ty bb t bb' : new_temp ty bb = Ok (t, bb') ->
  t = Z.of_nat (length (tyenv bb)) /\ bb' = bb <| tyenv := tyenv bb ++ [ty] |>.
Proof. unfold new_temp, newIRTemp. by intros [= -> ->]. Qed.

Definition is_flat (st : IRStmt) : Prop := isFlatIRStmt st = Ok true.

(** The block has more temporaries and more statements, which are flat. *)
Definition grows (bb bb' : IRSB) : Prop :=
  (exists tys, tyenv bb' = tyenv bb ++ tys) /\ (exists sts, stmts bb' = stmts bb ++ sts /\ Forall is_flat sts).

#[export] Instance grows_preorder : PreOrder grows.
Proof.
  split.
  - intros bb. split; exists []; rewrite app_nil_r; [done|]. split; [done|constructor].
  - intros bb1 bb2 bb3 [(t1 & E1) (s1 & F1 & H1)] [(t2 & E2) (s2 & F2 & H2)]. split.
    + exists (t1 ++ t2). by rewrite E2, E1, app_assoc.
    + exists (s1 ++ s2). rewrite F2, F1, app_assoc. split; [done|by apply Forall_app].
Qed.

Lemma grows_new bb ty : grows bb (bb <| tyenv := tyenv bb ++ [ty] |>).
Proof. split; [by exists [ty]|]. exists []. rewrite app_nil_r. split; [done|constructor]. Qed.

Lemma grows_append bb st : is_flat st -> grows bb (addStmtToIRSB bb st).
Proof. intros Hst. split; [exists []; by rewrite app_nil_r|]. exists [st]. split; [done|by constructor]. Qed.

Lemma grows_prefix bb bb' : grows bb bb' -> tyenv bb `prefix_of` tyenv bb'.
Proof. intros [(tys & ->) _]. by exists tys. Qed.

Section Sound.
Context {V W} `{M : Machine V W} `{!MachineLaws M}.
Context (order : IRSB -> nat -> nat) (env : IRTypeEnv).
Implicit Types (rho : gmap Z V) (w : W).

(** A run of the statements added from [bb] to [bb'] goes on, in the same world,
    with more temporaries; [env] holds the types of the finished block. *)
Definition moves w bb rho bb' rho' : Prop :=
  (exists sts, stmts bb' = stmts bb ++ sts /\ run_stmts env rho w sts = Some (Goes_on rho' w))
  /\ tyenv bb `prefix_of` tyenv bb' /\ typed (tyenv bb') rho' /\ rho ⊆ rho'
  /\ (forall t, t < Z.of_nat (length (tyenv bb)) -> rho' !! t = rho !! t).

Lemma moves_refl w bb rho : typed (tyenv bb) rho -> moves w bb rho bb rho.
Proof. intros Ht. split_and!; try done. exists []. by rewrite app_nil_r. Qed.

Lemma moves_trans w bb1 rho1 bb2 rho2 bb3 rho3 :
  moves w bb1 rho1 bb2 rho2 -> moves w bb2 rho2 bb3 rho3 -> moves w bb1 rho1 bb3 rho3.
Proof.
  intros ((s1 & E1 & R1) & P1 & T1 & S1 & L1) ((s2 & E2 & R2) & P2 & T2 & S2 & L2). split_and!; try done.
  - exists (s1 ++ s2). rewrite E2, E1, app_assoc. split; [done|]. rewrite run_stmts_app, R1. exact R2.
  - by etrans.
  - by etrans.
  - intros t Ht. rewrite L2, L1; [done|done|]. apply prefix_length in P1. lia.
Qed.

(** The statement [t1 = e'], with a temporary [t1] made before the operands of
    [e'] were flattened. *)
Lemma into_moves w bb ty rho bb' rho' e' v :
  typed (tyenv bb) rho -> moves w (bb <| tyenv := tyenv bb ++ [ty] |>) rho bb' rho' ->
  tyenv bb' `prefix_of` env -> eval rho' w e' = Some v -> v_type v = ty ->
  let t1 := Z.of_nat (length (tyenv bb)) in
  let rho'' := <[t1 := v]> rho' in
  moves w bb rho (addStmtToIRSB bb' (Ist_WrTmp t1 e')) rho'' /\ rho'' !! t1 = Some v.
Proof.
  intros Ht ((sts & E & R) & (ext & P) & T & S & L) (more & Penv) Hv Hty t1 rho''. cbn in *.
  split; [|unfold rho''; by rewrite lookup_insert_eq].
  assert (Hnone : rho' !! t1 = None).
  { rewrite L by (rewrite length_app; cbn; lia). destruct (rho !! t1) as [v'|] eqn:Hl; [|done].
    apply (typed_lt _ _ _ _ Ht) in Hl. lia. }
  assert (Hin : typeOfIRTemp (tyenv bb') t1 = Ok (v_type v)).
  { rewrite P. apply typeOfIRTemp_still. unfold typeOfIRTemp, t1. rewrite length_app. cbn.
    destruct (Z.leb_spec 0 (Z.of_nat (length (tyenv bb)))); [|lia]. cbn.
    destruct (Z.ltb_spec (Z.of_nat (length (tyenv bb))) (Z.of_nat (length (tyenv bb) + 1))); [|lia]. cbn.
    apply rd_Some; [lia|]. rewrite Nat2Z.id, lookup_app_r, Nat.sub_diag by lia. cbn. by rewrite Hty. }
  split_and!.
  - exists (sts ++ [Ist_WrTmp t1 e']). cbn. rewrite E, app_assoc. split; [done|].
    rewrite run_stmts_app, R. cbn. unfold run_stmt. cbn. rewrite Hv. cbn.
    rewrite (assign_new env rho' t1 v); [done|done|]. rewrite Penv. by apply typeOfIRTemp_still.
  - cbn. rewrite P, <-app_assoc. by eexists.
  - by apply typed_insert.
  - etrans; [done|]. by apply insert_subseteq.
  - intros t Hl. unfold rho''. rewrite lookup_insert_ne by (unfold t1; lia). apply L. rewrite length_app. lia.
Qed.

(** ** Expressions *)

(** The operands of an expression, in a list. *)
Definition atoms (es : list IRExpr) : Prop := Forall (fun e => isIRAtom e = true) es.

Lemma atoms_forallb es : atoms es -> forallb isIRAtom es = true.
Proof. by induction 1 as [|e es He _ IH]; [|cbn; rewrite He]. Qed.
Definition flattens {A} (m : SE IRSB A) (src : list IRExpr) (dst : A -> list IRExpr) : Prop :=
  forall bb a bb', m bb = Ok (a, bb') ->
  grows bb bb' /\ atoms (dst a) /\
  forall w rho0 rho vs, tyenv bb' `prefix_of` env -> typed (tyenv bb) rho -> rho0 ⊆ rho ->
    eval_all rho0 w src = Some vs ->
    exists rho', moves w bb rho bb' rho' /\ eval_all rho' w (dst a) = Some vs.

Lemma eval_all_app rho w l1 l2 vs : eval_all rho w (l1 ++ l2) = Some vs <->
  exists vs1 vs2, vs = vs1 ++ vs2 /\ eval_all rho w l1 = Some vs1 /\ eval_all rho w l2 = Some vs2.
Proof.
  revert vs. induction l1 as [|e l1 IH]; intros vs; cbn.
  - split; [intros H; by exists [], vs|]. by intros (? & ? & -> & [= <-] & H).
  - destruct (eval rho w e) as [v|]; cbn; [|split; [done|intros (? & ? & ? & ? & ?); done]]. split.
    + intros H. inv_run. match goal with H : eval_all _ _ (_ ++ _) = _ |- _ => apply IH in H as (vs1 & vs2 & -> & -> & ->) end.
      by exists (v :: vs1), vs2.
    + intros (vs1 & vs2 & -> & H1 & H2). inv_run.
      match goal with H : eval_all _ _ l1 = Some ?x |- _ => rewrite (proj2 (IH (x ++ vs2))); [done|by exists x, vs2] end.
Qed.

Lemma eval_all_mono rho rho' w es vs : rho ⊆ rho' -> eval_all rho w es = Some vs -> eval_all rho' w es = Some vs.
Proof.
  intros Hs. apply eval_all_like. induction es; constructor; [|done]. by apply eval_mono.
Qed.

Lemma flattens_ret : flattens (mret []) [] id.
Proof.
  intros bb a bb' H. inv_se. split_and!; [done|constructor|]. intros w rho0 rho vs _ Ht _ H.
  exists rho. split; [by apply moves_refl|done].
Qed.

(** Two computations, one after the other. *)
Lemma flattens_two {A B} (m1 : SE IRSB A) (m2 : SE IRSB B) src1 src2 dst1 dst2 bb a bb1 b bb2
    (H1 : flattens m1 src1 dst1) (H2 : flattens m2 src2 dst2) :
  m1 bb = Ok (a, bb1) -> m2 bb1 = Ok (b, bb2) ->
  grows bb bb2 /\ atoms (dst1 a ++ dst2 b) /\
  forall w rho0 rho vs1 vs2, tyenv bb2 `prefix_of` env -> typed (tyenv bb) rho -> rho0 ⊆ rho ->
    eval_all rho0 w src1 = Some vs1 -> eval_all rho0 w src2 = Some vs2 ->
    exists rho', moves w bb rho bb2 rho' /\ eval_all rho' w (dst1 a) = Some vs1 /\ eval_all rho' w (dst2 b) = Some vs2.
Proof.
  intros Hm1 Hm2. destruct (H1 _ _ _ Hm1) as (G1 & F1 & D1), (H2 _ _ _ Hm2) as (G2 & F2 & D2).
  split_and!; [by etrans|by apply Forall_app|].
  intros w rho0 rho vs1 vs2 Hp Ht Hs E1 E2.
  assert (Hp1 : tyenv bb1 `prefix_of` env) by (etrans; [by apply grows_prefix|done]).
  destruct (D1 _ _ _ _ Hp1 Ht Hs E1) as (rho1 & M1 & V1). pose proof M1 as (_ & _ & T1 & S1 & _).
  destruct (D2 w rho0 rho1 _ Hp T1 ltac:(by etrans) E2) as (rho2 & M2 & V2). exists rho2.
  split_and!; [by eapply moves_trans| |done]. eapply eval_all_mono; [|done]. apply M2.
Qed.

Lemma flattens_bind {A B C} (m1 : SE IRSB A) (m2 : SE IRSB B) src1 src2 dst1 dst2 (k : A -> B -> C) dst
    (H1 : flattens m1 src1 dst1) (H2 : flattens m2 src2 dst2) :
  (forall a b, dst (k a b) = dst1 a ++ dst2 b) ->
  flattens (a ← m1; b ← m2; mret (k a b)) (src1 ++ src2) dst.
Proof.
  intros Hk bb c bb' H. inv_se. destruct (flattens_two _ _ _ _ _ _ _ _ _ _ _ H1 H2 Hm Hm0) as (G & F & D).
  rewrite Hk. split_and!; [done|done|].
  intros w rho0 rho vs Hp Ht Hs (vs1 & vs2 & -> & E1 & E2)%eval_all_app.
  destruct (D _ _ _ _ _ Hp Ht Hs E1 E2) as (rho' & Hmv & V1 & V2). exists rho'. split; [done|].
  apply eval_all_app. by exists vs1, vs2.
Qed.

(** Arguments evaluated in some order: what the two parts need is in [src], and
    what they return makes up [dst]. *)
Lemma flattens_pick {A B C} (m1 : SE IRSB A) (m2 : SE IRSB B) src1 src2 dst1 dst2 (k : A -> B -> C) src dst
    (H1 : flattens m1 src1 dst1) (H2 : flattens m2 src2 dst2) :
  (forall a b, atoms (dst1 a) -> atoms (dst2 b) -> atoms (dst (k a b))) ->
  (forall rho0 w vs, eval_all rho0 w src = Some vs -> exists vs1 vs2,
     eval_all rho0 w src1 = Some vs1 /\ eval_all rho0 w src2 = Some vs2 /\
     forall rho a b, eval_all rho w (dst1 a) = Some vs1 -> eval_all rho w (dst2 b) = Some vs2 ->
       eval_all rho w (dst (k a b)) = Some vs) ->
  flattens (a ← m1; b ← m2; mret (k a b)) src dst.
Proof.
  intros Ha He bb c bb' H. inv_se. destruct (flattens_two _ _ _ _ _ _ _ _ _ _ _ H1 H2 Hm Hm0) as (G & F & D).
  apply Forall_app in F as [F1 F2]. split_and!; [done|by apply Ha|].
  intros w rho0 rho vs Hp Ht Hs (vs1 & vs2 & E1 & E2 & Hk)%He.
  destruct (D _ _ _ _ _ Hp Ht Hs E1 E2) as (rho' & Hmv & V1 & V2). exists rho'. split; [done|by apply Hk].
Qed.

Lemma flattens_next {A} n (m : nat -> SE IRSB A) src dst :
  (forall i, flattens (m i) src dst) -> flattens (i ← next_arg order n; m i) src dst.
Proof. intros Hm bb a bb' H. exact (Hm _ bb a bb' H). Qed.

Ltac pick :=
  let H1 := fresh in let H2 := fresh in let l := fresh "l" in
  lazymatch goal with
  | |- forall _ _, atoms _ -> atoms _ -> _ =>
      intros ? l H1 H2; repeat match type of l with prod _ _ => destruct l as [? l] end; unfold atoms in *; cbn in *;
      rewrite ?Forall_cons in *; tauto
  | |- forall _ _ _, eval_all _ _ _ = Some _ -> _ =>
      intros ? ? ? H1; cbn in *; inv_run;
      repeat match goal with H : eval _ _ _ = Some _ |- _ => rewrite H; clear H; cbn end;
      eexists _, _; split; [reflexivity|]; split; [reflexivity|];
      intros ? ? l ? ?; repeat match type of l with prod _ _ => destruct l as [? l] end; cbn in *; inv_run;
      repeat match goal with H : eval _ _ _ = Some _ |- _ => rewrite H; clear H; cbn end; done
  end.

Lemma flattens_unseq2 m1 m2 e1 e2 : flattens m1 [e1] (fun e => [e]) -> flattens m2 [e2] (fun e => [e]) ->
  flattens (unseq2 order m1 m2) [e1; e2] (fun l => [l.1; l.2]).
Proof. intros H1 H2. apply flattens_next. intros [|]; (eapply flattens_pick; [eassumption..| |]); pick. Qed.

Lemma flattens_unseq3 m1 m2 m3 e1 e2 e3 : flattens m1 [e1] (fun e => [e]) -> flattens m2 [e2] (fun e => [e]) -> flattens m3 [e3] (fun e => [e]) ->
  flattens (unseq3 order m1 m2 m3) [e1; e2; e3] (fun l => [l.1; l.2.1; l.2.2]).
Proof.
  intros H1 H2 H3. apply flattens_next.
  intros [|[|]]; (eapply flattens_pick; [eassumption|by apply flattens_unseq2| |]); pick.
Qed.

Lemma flattens_unseq4 m1 m2 m3 m4 e1 e2 e3 e4 : flattens m1 [e1] (fun e => [e]) -> flattens m2 [e2] (fun e => [e]) -> flattens m3 [e3] (fun e => [e]) -> flattens m4 [e4] (fun e => [e]) ->
  flattens (unseq4 order m1 m2 m3 m4) [e1; e2; e3; e4] (fun l => [l.1; l.2.1; l.2.2.1; l.2.2.2]).
Proof.
  intros H1 H2 H3 H4. apply flattens_next.
  intros [|[|[|]]]; (eapply flattens_pick; [eassumption|by apply flattens_unseq3| |]); pick.
Qed.

Lemma flattens_sequence es : Forall (fun e => flattens (flatten_Expr order e) [e] (fun e' => [e'])) es ->
  flattens (sequence (map (flatten_Expr order) es)) es id.
Proof.
  induction 1 as [|e es He _ IH]; [exact flattens_ret|]. cbn [map sequence].
  by apply (flattens_bind _ _ [e] es (fun e' => [e']) id cons id He IH).
Qed.

(** The cases of [flatten_Expr]: the operands are flattened into [K a], which is
    assigned to a new temporary. *)
Lemma flattens_new {A} ex (m : SE IRSB A) src dst (K : A -> IRExpr) (Hm : flattens m src dst) :
  (forall a t, atoms (dst a) -> is_flat (Ist_WrTmp t (K a))) ->
  (forall rho0 w v, eval rho0 w ex = Some v -> exists vs, eval_all rho0 w src = Some vs /\
     forall rho a, eval_all rho w (dst a) = Some vs -> eval rho w (K a) = Some v) ->
  flattens (ty ← type_now ex; t1 ← new_temp ty; a ← m; into t1 (K a)) [ex] (fun e' => [e']).
Proof.
  intros HK Hv bb e' bb' H. inv_se. apply type_now_inv in Hm0 as [-> Hty]. apply new_temp_inv in Hm1 as [-> ->].
  destruct (Hm _ _ _ Hm2) as (G & F & D). split_and!.
  - etrans; [apply grows_new|]. etrans; [exact G|]. by apply grows_append, HK.
  - by repeat constructor.
  - intros w rho0 rho vs Hp Ht Hs H. cbn in H. inv_run.
    match goal with H : eval _ _ ex = Some ?x |- _ => rename H into Hex; rename x into v end.
    destruct (Hv _ _ _ Hex) as (ws & Hws & HKv).
    destruct (D w rho0 rho ws) as (rho1 & M1 & V1); [done|by apply typed_weaken|done|done|].
    destruct (into_moves w bb a rho bb2 rho1 (K a1) v Ht M1 Hp) as [Hmv Hl]; [by apply HKv| |].
    { eapply (eval_type (tyenv bb) rho w ex); [done|by eapply eval_mono|done]. }
    eexists. split; [exact Hmv|]. cbn. by rewrite Hl.
Qed.
Lemma flattens_atom e : isIRAtom e = true -> flattens (mret e) [e] (fun e' => [e']).
Proof.
  intros He bb e' bb' H. inv_se. split_and!; [done|by repeat constructor|]. intros w rho0 rho vs _ Ht Hs H.
  exists rho. split; [by apply moves_refl|by eapply eval_all_mono].
Qed.

Lemma flattens_type {A} ex (m : SE IRSB A) src dst :
  flattens m src dst -> flattens (type_now ex;; m) src dst.
Proof. intros Hm bb a bb' H. inv_se. apply type_now_inv in Hm0 as [-> _]. by apply Hm. Qed.

(** Expressions without operands. *)
Lemma flattens_leaf e : (forall t, is_flat (Ist_WrTmp t e)) ->
  (forall rho rho' w, eval rho w e = eval rho' w e) ->
  flattens (ty ← type_now e; t1 ← new_temp ty; into t1 e) [e] (fun e' => [e']).
Proof.
  intros He Hsame bb e' bb' H. eapply (flattens_new e (mret []) [] id (fun _ => e) flattens_ret).
  - by intros.
  - intros rho0 w v Hv. exists []. split; [done|]. intros rho a _. by rewrite (Hsame rho rho0).
  - inv_se. do 2 (erewrite SE_bind_ok by eassumption). reflexivity.
Qed.

(** One, two, three and four operands. *)
Ltac operands :=
  let Ha := fresh "Ha" in let Hev := fresh "Hev" in let l := fresh "l" in
  lazymatch goal with
  | |- forall _ _, atoms _ -> _ =>
      intros l ? Ha; repeat match type of l with prod _ _ => destruct l as [? l] end; unfold atoms in Ha; cbn in Ha; rewrite ?Forall_cons in Ha;
      unfold is_flat; cbn;
      repeat match type of Ha with _ /\ _ => let H := fresh in destruct Ha as [H Ha]; cbn in H; rewrite H end; done
  | |- forall _ _ _, eval _ _ _ = Some _ -> _ =>
      intros ? ? ? Hev; cbn in Hev; inv_run; cbn;
      repeat match goal with H : eval _ _ _ = Some _ |- _ => rewrite H; clear H; cbn end;
      eexists; split; [reflexivity|]; intros ? l ?; repeat match type of l with prod _ _ => destruct l as [? l] end; cbn in *; inv_run;
      repeat match goal with H : eval _ _ _ = Some _ |- _ => rewrite H; clear H; cbn end;
      rewrite ?decide_True by done; simplify_eq; done
  end.

(** The arguments of a call are flattened before the temporary is made. *)
Lemma flattens_call cee rty args :
  Forall (fun e => flattens (flatten_Expr order e) [e] (fun e' => [e'])) args ->
  flattens (flatten_Expr order (Iex_CCall cee rty args)) [Iex_CCall cee rty args] (fun e' => [e']).
Proof.
  intros IH%flattens_sequence bb e' bb' H. cbn [flatten_Expr] in H. inv_se.
  apply type_now_inv in Hm as [-> [= ->]]. apply new_temp_inv in Hm1 as [-> ->].
  destruct (IH _ _ _ Hm0) as (G & F & D). unfold id in *. split_and!.
  - etrans; [exact G|]. etrans; [apply grows_new|]. apply grows_append. unfold is_flat. cbn. f_equal.
    by apply atoms_forallb.
  - by repeat constructor.
  - intros w rho0 rho vs Hp Ht Hs H. unfold eval_all in H. rewrite eval_CCall in H. inv_run.
    match goal with H : eval_all _ _ args = Some ?l |- _ => rename l into ws end.
    destruct (D w rho0 rho ws) as (rho1 & M1 & V1); [|done|done|done|].
    { etrans; [|exact Hp]. cbn. by eexists. }
    pose proof M1 as (_ & _ & T1 & _).
    destruct (into_moves w bb1 a rho1 (bb1 <| tyenv := tyenv bb1 ++ [a] |>) rho1 (Iex_CCall cee a a0)
      (v_call cee a ws) T1) as [Hmv Hl].
    + by apply moves_refl, typed_weaken.
    + done.
    + rewrite eval_CCall, V1. done.
    + apply type_of_call.
    + eexists. split; [by eapply moves_trans|]. cbn. by rewrite Hl.
Qed.

Lemma flatten_Expr_flattens e : flattens (flatten_Expr order e) [e] (fun e' => [e']).
Proof.
  induction e as [b|o ty|d ix b IH|t|op e1 e2 e3 e4 IH1 IH2 IH3 IH4|op e1 e2 e3 IH1 IH2 IH3|op e1 e2 IH1 IH2
    |op e IH|en ty e IH|c|cee ty args IH|c t f IHc IHt IHf| |] using IRExpr_nested_ind; cbn [flatten_Expr].
  1, 13, 14: intros bb a bb' H; by inv_se.
  - by apply flattens_leaf.
  - apply (flattens_new _ _ [ix] (fun e' => [e']) (fun e' => Iex_GetI d e' b)); [done|operands|operands].
  - by apply flattens_type, flattens_atom.
  - apply (flattens_new _ _ _ _ (fun '(a1, (a2, (a3, a4))) => Iex_Qop op a1 a2 a3 a4)
      (flattens_unseq4 _ _ _ _ _ _ _ _ IH1 IH2 IH3 IH4)); operands.
  - apply (flattens_new _ _ _ _ (fun '(a1, (a2, a3)) => Iex_Triop op a1 a2 a3)
      (flattens_unseq3 _ _ _ _ _ _ IH1 IH2 IH3)); operands.
  - apply (flattens_new _ _ _ _ (fun '(a1, a2) => Iex_Binop op a1 a2) (flattens_unseq2 _ _ _ _ IH1 IH2)); operands.
  - apply (flattens_new _ _ _ _ (Iex_Unop op) IH); operands.
  - apply (flattens_new _ _ _ _ (Iex_Load en ty) IH); operands.
  - destruct (isF64i c); [by apply flattens_leaf|by apply flattens_type, flattens_atom].
  - intros bb e' bb' H. eapply (flattens_call cee ty args IH). exact H.
  - apply (flattens_new _ _ _ _ (fun '(a1, (a2, a3)) => Iex_ITE a1 a2 a3)
      (flattens_unseq3 _ _ _ _ _ _ IHc IHt IHf)); operands.
Qed.
(** ** Statements *)

(** From [bb] to [bb'] operands that satisfy [ok] in a source run are computed
    into operands alike. *)
Definition carries bb bb' (ok : gmap Z V -> W -> Prop) (lk : gmap Z V -> gmap Z V -> W -> Prop) : Prop :=
  grows bb bb' /\
  forall w rho0 rho, tyenv bb' `prefix_of` env -> typed (tyenv bb) rho -> rho0 ⊆ rho -> ok rho0 w ->
    exists rho', moves w bb rho bb' rho' /\ lk rho0 rho' w.

Class Lasting (lk : gmap Z V -> gmap Z V -> W -> Prop) : Prop :=
  lasting rho0 rho rho' w : rho ⊆ rho' -> lk rho0 rho w -> lk rho0 rho' w.

#[local] Instance lasting_value e e' : Lasting (fun rho0 rho w => same_value rho0 rho w e e').
Proof. intros rho0 rho rho' w Hs H v Hv. eapply eval_mono; [done|by apply H]. Qed.

#[local] Instance lasting_opt e e' : Lasting (fun rho0 rho w => like_opt (same_value rho0 rho w) e e').
Proof. intros rho0 rho rho' w Hs. destruct e, e'; cbn; try done. by apply lasting_value. Qed.

#[local] Instance lasting_args l l' : Lasting (fun rho0 rho w => Forall2 (like_arg (same_value rho0 rho w)) l l').
Proof.
  intros rho0 rho rho' w Hs Hl. apply (Forall2_impl _ _ _ _ Hl). intros e e'. unfold like_arg.
  destruct (is_IRExpr_VECRET_or_GSPTR e); [done|]. intros [? H]. split; [done|]. by eapply lasting_value.
Qed.

#[local] Instance lasting_and lk1 lk2 : Lasting lk1 -> Lasting lk2 ->
  Lasting (fun rho0 rho w => lk1 rho0 rho w /\ lk2 rho0 rho w).
Proof. intros H1 H2 rho0 rho rho' w Hs [? ?]. split; [by eapply H1|by eapply H2]. Qed.

Lemma carries_refl bb : carries bb bb (fun _ _ => True) (fun _ _ _ => True).
Proof. split; [done|]. intros w rho0 rho _ Ht _ _. exists rho. split; [by apply moves_refl|done]. Qed.

Lemma carries_seq bb1 bb2 bb3 ok1 lk1 ok2 lk2 `{!Lasting lk1} :
  carries bb1 bb2 ok1 lk1 -> carries bb2 bb3 ok2 lk2 ->
  carries bb1 bb3 (fun rho0 w => ok1 rho0 w /\ ok2 rho0 w) (fun rho0 rho w => lk1 rho0 rho w /\ lk2 rho0 rho w).
Proof.
  intros [G1 D1] [G2 D2]. split; [by etrans|]. intros w rho0 rho Hp Ht Hs [O1 O2].
  destruct (D1 w rho0 rho) as (rho1 & M1 & L1); [etrans; [by apply grows_prefix|done]|done..|].
  pose proof M1 as (_ & _ & T1 & S1 & _).
  destruct (D2 w rho0 rho1) as (rho2 & M2 & L2); [done|done|by etrans|done|]. exists rho2.
  split; [by eapply moves_trans|]. split; [|done]. eapply Lasting0; [apply M2|done].
Qed.

Lemma carries_Expr e bb e' bb' : flatten_Expr order e bb = Ok (e', bb') ->
  isIRAtom e' = true /\ carries bb bb' (fun rho0 w => is_Some (eval rho0 w e)) (fun rho0 rho w => same_value rho0 rho w e e').
Proof.
  intros (G & F & D)%flatten_Expr_flattens. apply Forall_cons in F as [Ha _]. split; [done|]. split; [done|].
  intros w rho0 rho Hp Ht Hs [v Hv]. destruct (D w rho0 rho [v]) as (rho' & Hm & Hv'); [done..|cbn; by rewrite Hv|].
  exists rho'. split; [done|]. intros v' Hv2. cbn in Hv'. inv_run. congruence.
Qed.

Lemma carries_opt e bb e' bb' : flatten_opt order e bb = Ok (e', bb') ->
  atom_or_null e' = true /\
  carries bb bb' (fun rho0 w => is_Some (eval_opt rho0 w e)) (fun rho0 rho w => like_opt (same_value rho0 rho w) e e').
Proof.
  destruct e as [e|]; cbn; intros H; inv_se.
  - apply carries_Expr in Hm as (Ha & G & D). split; [done|]. split; [done|]. intros w rho0 rho Hp Ht Hs [v Hv].
    apply D; try done. inv_run. by eexists.
  - split; [done|]. split; [done|]. intros w rho0 rho _ Ht _ _. exists rho. split; [by apply moves_refl|done].
Qed.

Lemma carries_args l bb l' bb' : sequence (map (flatten_arg order) l) bb = Ok (l', bb') ->
  forallb isIRAtom_or_VECRET_or_GSPTR l' = true /\
  carries bb bb' (fun rho0 w => is_Some (eval_args rho0 w l)) (fun rho0 rho w => Forall2 (like_arg (same_value rho0 rho w)) l l').
Proof.
  revert bb l'. induction l as [|e l IH]; intros bb l' H; cbn in H; inv_se.
  { split; [done|]. split; [done|]. intros w rho0 rho _ Ht _ _. exists rho. split; [by apply moves_refl|constructor]. }
  apply IH in Hm0 as [Hl (Gl & Dl)]. unfold flatten_arg in Hm. cbn. rewrite Hl, andb_true_r.
  unfold isIRAtom_or_VECRET_or_GSPTR. destruct (is_IRExpr_VECRET_or_GSPTR e) eqn:Hsp.
  - inv_se. rewrite Hsp, orb_true_r. split; [done|]. split; [done|]. intros w rho0 rho Hp Ht Hs [vs Hv]. inv_run.
    destruct (Dl w rho0 rho) as (rho' & Hm & Hlk); [done..|by eexists|]. exists rho'. split; [done|].
    constructor; [|done]. unfold like_arg. by rewrite Hsp.
  - apply carries_Expr in Hm as (Ha & Ce). rewrite Ha. split; [done|].
    assert (Hsp' : is_IRExpr_VECRET_or_GSPTR a = false) by (by destruct a).
    destruct (carries_seq _ _ _ _ _ _ _ Ce (conj Gl Dl)) as [G D]. split; [done|].
    intros w rho0 rho Hp Ht Hs [vs Hv]. inv_run. destruct (D w rho0 rho) as (rho' & Hm & He & Hlk); [done..| |].
    { split; [|by eexists].
      match goal with H : eval_arg _ _ e = _ |- _ => rewrite eval_arg_value in H by done; apply bind_Some in H as (? & -> & _) end.
      by eexists. }
    exists rho'. split; [done|]. constructor; [|done]. unfold like_arg. by rewrite Hsp.
Qed.

(** A statement with the statements that compute its operands. *)
Definition translated env0 bb st bb' : Prop :=
  grows bb bb' /\
  forall w rho0 rho x, tyenv bb' `prefix_of` env -> env0 `prefix_of` env -> typed (tyenv bb) rho -> rho0 ⊆ rho ->
    acts env0 rho0 w st = Some x ->
    exists bb1 rho1 st1, moves w bb rho bb1 rho1 /\ bb' = addStmtToIRSB bb1 st1 /\ acts env rho1 w st1 = Some x.

Lemma translated_intro env0 bb bb1 st st1 ok lk : carries bb bb1 ok lk -> is_flat st1 ->
  (forall rho0 w x, acts env0 rho0 w st = Some x -> ok rho0 w) ->
  (forall rho0 rho w, rho0 ⊆ rho -> lk rho0 rho w -> like (same_value rho0 rho w) st st1) ->
  translated env0 bb st (addStmtToIRSB bb1 st1).
Proof.
  intros [G D] Hf Hok Hlk. split; [etrans; [exact G|by apply grows_append]|].
  intros w rho0 rho x Hp (ext & Henv) Ht Hs Hx. destruct (D w rho0 rho) as (rho1 & Hm & Hl); [done..|by eapply Hok|].
  exists bb1, rho1, st1. split_and!; try done. rewrite Henv. eapply acts_like; [apply Hlk; [|done]|done].
  etrans; [exact Hs|apply Hm].
Qed.
(** A statement that is copied. *)
Lemma translated_same env0 bb st u bb' : is_flat st ->
  (forall rho0 rho w, rho0 ⊆ rho -> like (same_value rho0 rho w) st st) ->
  append_stmt st bb = Ok (u, bb') -> translated env0 bb st bb'.
Proof.
  intros Hf Hl H. inv_se. eapply translated_intro; [apply carries_refl|done|done|]. intros rho0 rho w Hs _. by apply Hl.
Qed.

Lemma isFlat_flat t e : isFlat e = true -> is_flat (Ist_WrTmp t e).
Proof. unfold is_flat. destruct e; cbn; try done; by intros ->. Qed.

Lemma carries_mAddr d bb a bb' : flatten_mAddr order d bb = Ok (a, bb') ->
  atom_or_null a = true /\
  carries bb bb' (fun rho0 w => mFx d <> Ifx_None -> is_Some (e ← mAddr d; eval rho0 w e))
    (fun rho0 rho w => mFx d <> Ifx_None -> like_opt (same_value rho0 rho w) (mAddr d) a).
Proof.
  unfold flatten_mAddr. intros H. case_bool_decide as Hfx.
  - inv_se. inv_ok Hm. injection Hm as _ <-. split; [done|]. split; [done|]. intros w rho0 rho _ Ht _ _.
    exists rho. split; [by apply moves_refl|done].
  - destruct (mAddr d) as [e|]; inv_se. apply carries_Expr in Hm as (Ha & G & D). split; [done|]. split; [done|].
    intros w rho0 rho Hp Ht Hs Hok. destruct (D w rho0 rho Hp Ht Hs (Hok Hfx)) as (rho' & Hm & Hv). exists rho'. split; [done|by intros _].
Qed.

#[local] Instance lasting_if (P : Prop) lk : Lasting lk -> Lasting (fun rho0 rho w => P -> lk rho0 rho w).
Proof. intros Hl rho0 rho rho' w Hs H HP. by eapply Hl, H. Qed.

(** Find the operands that were computed. *)
Ltac carried :=
  inv_se; repeat match goal with
  | H : flatten_Expr _ _ _ = Ok _ |- _ => apply carries_Expr in H as [? ?]
  | H : flatten_mAddr _ _ _ = Ok _ |- _ => apply carries_mAddr in H as [? ?]
  | H : flatten_opt _ _ _ = Ok _ |- _ => apply carries_opt in H as [? ?]
  | H : sequence _ _ = Ok _ |- _ => apply carries_args in H as [? ?]
  end.
Ltac chain := first [eassumption | eapply carries_seq; [|eassumption|chain]; apply _].
(** Find the values of the operands. *)
Ltac evaluated :=
  let H := fresh "Hacts" in intros ? ? ? H; cbn in H;
  try match type of H with context [typeOfIRLoadGOp ?cvt] => destruct (typeOfIRLoadGOp cvt) as [[]|]; [|done] end;
  inv_run; split_and?; eauto.
Ltac translate :=
  carried; eapply translated_intro; [chain|unfold is_flat; cbn; repeat match goal with H : _ = true |- _ => rewrite H end; done
    |evaluated|cbn; intros; destruct_and?; by constructor].

Lemma flatten_Stmt_translated env0 st bb u bb' :
  flatten_Stmt order st bb = Ok (u, bb') -> translated env0 bb st bb'.
Proof.
  destruct st; cbn [flatten_Stmt]; intros H.
  4, 6: case_match.
  all: try match goal with d : IRCAS |- _ => destruct d end.
  all: try (translate; fail).
  - eapply translated_same; [done|intros; constructor|done].
  - eapply translated_same; [done|intros; constructor|done].
  - eapply translated_same; [unfold is_flat; cbn; by match goal with H : isIRAtom _ = true |- _ => rewrite H end
      |intros; constructor; by apply eval_mono|done].
  - eapply translated_same; [by apply isFlat_flat|intros; constructor; by apply eval_mono|done].
  - carried. eapply translated_intro; [chain| |evaluated|cbn; intros; by constructor].
    unfold is_flat. by destruct a.
  - carried. eapply translated_intro; [chain|unfold is_flat; cbn; repeat match goal with H : _ = true |- _ => rewrite H end; done| |].
    + intros rho0 w x Hx. cbn in Hx. inv_run. split_and?; eauto. intros Hn.
      match goal with H : (if decide _ then _ else _) = _ |- _ => rewrite decide_False in H by done; inv_run end.
      match goal with H : mAddr details = _ |- _ => rewrite H end. by eexists.
    + cbn. intros rho0 rho w _ (Ha & Hg & Hl). destruct details. by constructor.
  - eapply translated_same; [done|intros; constructor|done].
Qed.

(** ** Blocks *)

(** The flat run has the temporaries of the source and new ones. *)
Record simulated (env0 : IRTypeEnv) (bb : IRSB) (rho0 rho : gmap Z V) : Prop := {
  sim_source : typed env0 rho0;
  sim_flat : typed (tyenv bb) rho;
  sim_types : env0 `prefix_of` tyenv bb;
  sim_sub : rho0 ⊆ rho;
  sim_old t : t < Z.of_nat (length env0) -> rho0 !! t = None -> rho !! t = None
}.

Lemma sim_moves env0 bb rho0 rho w bb' rho' : simulated env0 bb rho0 rho -> moves w bb rho bb' rho' -> simulated env0 bb' rho0 rho'.
Proof.
  intros [H1 H2 H3 H4 H5] (_ & P & T & S & L). split; [done|done|by etrans|by etrans|].
  intros t Ht Hn. apply prefix_length in H3. rewrite L by lia. by apply H5.
Qed.

Lemma sim_assign env0 bb rho0 rho new rho0' : tyenv bb `prefix_of` env -> simulated env0 bb rho0 rho ->
  assign_all env0 rho0 new = Some rho0' ->
  exists rho', assign_all env rho new = Some rho' /\ simulated env0 bb rho0' rho'.
Proof.
  intros Hp. revert rho0 rho. induction new as [|[t v] new IH]; intros rho0 rho Hs H; cbn in H.
  { inv_run. by exists rho. }
  inv_run. match goal with H : assign _ _ _ _ = _ |- _ => apply assign_inv in H as (-> & Hn & Hty) end.
  destruct Hs as [H1 H2 H3 H4 H5].
  assert (Hin : t < Z.of_nat (length env0)).
  { unfold typeOfIRTemp in Hty. inv_ok Hty. inv_ok Hty. apply rd_inv in Hty as [? _]. lia. }
  destruct H3 as (ext & Hext), Hp as (more & Hmore).
  assert (Hty' : typeOfIRTemp (tyenv bb) t = Ok (v_type v)) by (rewrite Hext; by apply typeOfIRTemp_still).
  cbn. rewrite assign_new; [|by apply H5|rewrite Hmore; by apply typeOfIRTemp_still]. cbn.
  eapply IH; [|done]. split; [by apply typed_insert|by apply typed_insert|by exists ext|by apply insert_mono|].
  intros t' Ht' [Hn' Hne]%lookup_insert_None. rewrite lookup_insert_ne by done. by apply H5.
Qed.

(** What the two runs come to. *)
Definition same_end env0 bb (r r' : after (V:=V) (W:=W)) : Prop :=
  match r, r' with
  | Goes_on rho0 w, Goes_on rho w' => w = w' /\ simulated env0 bb rho0 rho
  | Leaves w v jk, Leaves w' v' jk' => w = w' /\ v = v' /\ jk = jk'
  | _, _ => False
  end.

Lemma flatten_stmts_grow sts bb u bb' : for_each sts (flatten_Stmt order) bb = Ok (u, bb') -> grows bb bb'.
Proof.
  revert bb. induction sts as [|st sts IH]; intros bb H; cbn in H; inv_se; [done|].
  apply (flatten_Stmt_translated []) in Hm as [G _]. etrans; [exact G|by apply IH].
Qed.

Lemma flatten_stmts_run env0 sts bb u bb' rho0 rho w r :
  for_each sts (flatten_Stmt order) bb = Ok (u, bb') ->
  tyenv bb' `prefix_of` env -> simulated env0 bb rho0 rho -> run_stmts env0 rho0 w sts = Some r ->
  exists added r', stmts bb' = stmts bb ++ added /\ run_stmts env rho w added = Some r' /\ same_end env0 bb' r r'.
Proof.
  revert bb rho0 rho w. induction sts as [|st sts IH]; intros bb rho0 rho w H Hp Hs Hr; cbn in H, Hr; inv_se.
  { inv_run. exists [], (Goes_on rho w). by rewrite app_nil_r. }
  pose proof (flatten_stmts_grow _ _ _ _ H) as G2.
  apply (flatten_Stmt_translated env0) in Hm as [G1 D].
  assert (Hp1 : tyenv bb0 `prefix_of` env) by (etrans; [by apply grows_prefix|done]).
  assert (Hp0 : env0 `prefix_of` env) by (etrans; [by apply Hs|]; etrans; [by apply grows_prefix|done]).
  unfold run_stmt in Hr. inv_run.
  match goal with H : acts _ _ _ _ = Some ?y, H' : context [let '(_, _) := ?y in _] |- _ => destruct y as [[new w1] jump] end.
  inv_run. destruct (D w rho0 rho _ Hp1 Hp0 (sim_flat _ _ _ _ Hs) (sim_sub _ _ _ _ Hs) ltac:(eassumption))
    as (bb1 & rho1 & st1 & Hmv & -> & Hact).
  match goal with H : assign_all _ _ new = Some ?y |- _ => rename H into Ha; rename y into rho0' end.
  destruct (sim_assign env0 bb1 rho0 rho1 new rho0' Hp1 (sim_moves _ _ _ _ _ _ _ Hs Hmv) Ha) as (rho' & Ha' & Hs').
  destruct Hmv as ((before & Eb & Rb) & _).
  assert (Hst : forall l, run_stmts env rho w (before ++ st1 :: l) =
    (match jump with None => run_stmts env rho' w1 l | Some (v, jk) => Some (Leaves w1 v jk) end)).
  { intros l. rewrite run_stmts_app, Rb. cbn. unfold run_stmt. rewrite Hact. cbn. rewrite Ha'. cbn. by destruct jump as [[]|]. }
  destruct G2 as (_ & later & Es & _). destruct jump as [[v jk]|]; inv_run.
  - exists (before ++ st1 :: later), (Leaves w1 v jk). rewrite Hst, Es. cbn. rewrite Eb, <-!app_assoc. done.
  - destruct (IH (addStmtToIRSB bb1 st1) rho0' rho' w1 H Hp ltac:(by destruct Hs'; split) ltac:(done)) as (added & r' & Ea & Ra & He).
    exists (before ++ st1 :: added), r'. rewrite Hst. split_and!; [|done|done]. rewrite Ea. cbn. rewrite Eb, <-!app_assoc. done.
Qed.

Lemma flatten_BB_inv sb out : flatten_BB order sb = Ok out ->
  exists e bb bb', for_each (stmts sb) (flatten_Stmt order) (emptyIRSB (tyenv sb)) = Ok (tt, bb)
    /\ flatten_Expr order (next sb) bb = Ok (e, bb')
    /\ out = mk_IRSB (tyenv bb') (stmts bb') e (jumpkind sb) (sb_offsIP sb).
Proof.
  unfold flatten_BB. intros ([e bb'] & H & Hout)%bind_Ok_inv. apply SE_bind_inv in H as ([] & bb & H1 & H2).
  exists e, bb, bb'. split_and!; [done|done|]. by injection Hout as <-.
Qed.

End Sound.

(** ** The pass *)

(** The flat block does what the block does. *)
Lemma flatten_BB_run {V W} `{!@MachineLaws V W M} order sb out w r :
  flatten_BB order sb = Ok out -> run_block sb w = Some r -> run_block out w = Some r.
Proof.
  intros (e & bb & bb' & Hf & He & ->)%flatten_BB_inv Hr. unfold run_block in *. inv_run.
  match goal with H : run_stmts _ _ _ _ = Some ?y |- _ => rename H into Hrun; rename y into r1 end.
  set (env := tyenv bb'). apply (carries_Expr order env) in He as (Ha & G & D).
  pose proof (grows_prefix _ _ G) as Hp.
  assert (Hs : simulated (tyenv sb) (emptyIRSB (tyenv sb)) ∅ (∅ : gmap Z V)) by (split; try done; apply typed_empty).
  destruct (flatten_stmts_run order env _ _ _ _ _ _ _ _ _ Hf Hp Hs Hrun) as (added & r1' & Es & Rs & He).
  destruct G as (_ & later & El & _). cbn in Es. rewrite Es in El. cbn [tyenv stmts]. fold env. rewrite El, run_stmts_app, Rs. cbn.
  destruct r1 as [rho0 w1|w1 v jk], r1' as [rho1 w1'|w1' v' jk']; cbn in He; try done.
  - destruct He as [<- Hs1]. cbn in Hr. inv_run.
    destruct (D w1 rho0 rho1) as (rho' & ((l & El' & Rl) & _) & Hv); [done|apply Hs1|apply Hs1|by eexists|].
    rewrite El in El'. apply app_inv_head in El' as <-. rewrite Rl. cbn. by rewrite (Hv _ ltac:(eassumption)).
  - destruct He as (<- & <- & <-). done.
Qed.

(** A computation that returns on every block with the types of [env]. *)
Definition returns {A} (env : IRTypeEnv) (m : SE IRSB A) : Prop :=
  forall bb, env `prefix_of` tyenv bb -> exists a bb', m bb = Ok (a, bb') /\ env `prefix_of` tyenv bb'.

Section Returns.
Context (order : IRSB -> nat -> nat) (env : IRTypeEnv).

Lemma returns_ret {A} (a : A) : returns env (mret a).
Proof. intros bb H. by exists a, bb. Qed.

Lemma returns_bind {A B} (m : SE IRSB A) (f : A -> SE IRSB B) :
  returns env m -> (forall a, returns env (f a)) -> returns env (m ≫= f).
Proof.
  intros Hm Hf bb H. destruct (Hm bb H) as (a & bb1 & E & H1). destruct (Hf a bb1 H1) as (b & bb2 & E2 & H2).
  exists b, bb2. by rewrite (SE_bind_ok _ _ _ _ _ E).
Qed.

Lemma returns_append st : returns env (append_stmt st).
Proof. intros bb H. by eexists tt, _. Qed.

Lemma returns_new ty : returns env (new_temp ty).
Proof. intros bb H. eexists _, _. split; [reflexivity|]. cbn. by apply prefix_app_r. Qed.

Lemma returns_into t e : returns env (into t e).
Proof. apply returns_bind; [apply returns_append|intros; apply returns_ret]. Qed.

Lemma returns_next n : returns env (next_arg order n).
Proof. intros bb H. by eexists _, bb. Qed.

Lemma returns_unseq2 m1 m2 : returns env m1 -> returns env m2 -> returns env (unseq2 order m1 m2).
Proof.
  intros. apply returns_bind; [apply returns_next|].
  intros [|]; repeat (apply returns_bind; [assumption|intros]); apply returns_ret.
Qed.

Lemma returns_unseq3 m1 m2 m3 : returns env m1 -> returns env m2 -> returns env m3 -> returns env (unseq3 order m1 m2 m3).
Proof.
  intros. apply returns_bind; [apply returns_next|].
  intros [|[|]]; (apply returns_bind; [assumption|intros]); (apply returns_bind; [by apply returns_unseq2|intros]); apply returns_ret.
Qed.

Lemma returns_unseq4 m1 m2 m3 m4 :
  returns env m1 -> returns env m2 -> returns env m3 -> returns env m4 -> returns env (unseq4 order m1 m2 m3 m4).
Proof.
  intros. apply returns_bind; [apply returns_next|].
  intros [|[|[|]]]; (apply returns_bind; [assumption|intros]); (apply returns_bind; [by apply returns_unseq3|intros]); apply returns_ret.
Qed.

Lemma returns_sequence {A B} (f : A -> SE IRSB B) l : Forall (fun x => returns env (f x)) l ->
  returns env (sequence (map f l)).
Proof.
  induction 1 as [|x l Hx _ IH]; cbn; [apply returns_ret|].
  apply returns_bind; [done|intros]. apply returns_bind; [done|intros]. apply returns_ret.
Qed.

Lemma returns_type e : well_typed env e = true -> returns env (type_now e).
Proof.
  intros [ty E]%well_typed_type bb [ext Hp]. exists ty, bb. unfold type_now, lift. rewrite Hp.
  rewrite (typeOfIRExpr_still env ext e _ E). split; [done|]. by exists ext.
Qed.

Lemma returns_assert (b : bool) : b = true -> returns env (lift (assert_that b)).
Proof. intros -> bb H. by eexists tt, bb. Qed.
End Returns.

Ltac returns :=
  repeat first
  [ assumption
  | solve [auto]
  | apply returns_ret | apply returns_append | apply returns_new | apply returns_into
  | apply returns_unseq2 | apply returns_unseq3 | apply returns_unseq4 | apply returns_type; assumption
  | apply returns_bind; [|intros ?] ].

Lemma flatten_Expr_returns order env e : well_typed env e = true -> returns env (flatten_Expr order e).
Proof.
  induction e using IRExpr_nested_ind; intros Hw; pose proof (returns_type _ _ Hw); pose proof (well_typed_parts _ _ Hw) as Hp;
    cbn in Hp; destruct_and?; cbn [flatten_Expr]; try done; try destruct (isF64i c); returns.
  apply returns_sequence.
  clear Hw. induction args; inversion_clear Hp; constructor; match goal with H : Forall _ (_ :: _) |- _ => inversion_clear H end; auto.
Qed.

Lemma flatten_mAddr_returns order env d :
  match mAddr d with
  | Some e => bool_decide (mFx d <> Ifx_None) && well_typed env e
  | None => bool_decide (mFx d = Ifx_None)
  end = true -> returns env (flatten_mAddr order d).
Proof.
  unfold flatten_mAddr. destruct (mAddr d) as [e|]; intros H.
  - apply andb_true_iff in H as [Hn%bool_decide_eq_true He]. rewrite bool_decide_eq_false_2 by done.
    pose proof (flatten_Expr_returns order env e He). returns.
  - rewrite H. apply returns_bind; [by apply returns_assert|]. intros. apply returns_ret.
Qed.

Lemma flatten_Stmt_returns order env st : well_typed_stmt env st = true -> returns env (flatten_Stmt order st).
Proof.
  intros [_ H]%andb_true_iff. pose proof (flatten_Expr_returns order env) as He.
  assert (Ho : forall e, well_typed_opt env e = true -> returns env (flatten_opt order e)).
  { intros [e|] Hw; cbn in *; returns. }
  destruct st; cbn in H; unfold well_typed_guard in H; rewrite ?andb_true_iff in H; destruct_and?; cbn [flatten_Stmt];
    try destruct (isIRAtom data); try destruct (isFlat data); returns.
  - by apply flatten_mAddr_returns.
  - apply returns_sequence. destruct details as [? ? args ? ? ? ? ?]. cbn in *.
    match goal with H : forallb _ args = true |- _ => clear -H He; rename H into Ha end.
    induction args as [|e l IH]; [constructor|]. cbn in Ha. apply andb_true_iff in Ha as [H1 Hl].
    constructor; [|auto]. unfold flatten_arg, well_typed_arg in *. destruct (is_IRExpr_VECRET_or_GSPTR e); returns.
Qed.

Lemma flatten_stmts_return order env sts : forallb (well_typed_stmt env) sts = true ->
  returns env (for_each sts (flatten_Stmt order)).
Proof.
  induction sts as [|st sts IH]; cbn; intros H; [returns|]. apply andb_true_iff in H as [H Hl].
  apply returns_bind; [by apply flatten_Stmt_returns|intros]. by apply IH.
Qed.

Lemma flatten_BB_flat order sb out : flatten_BB order sb = Ok out ->
  isFlatIRSB out = Ok true /\ tyenv sb `prefix_of` tyenv out /\ jumpkind out = jumpkind sb /\ sb_offsIP out = sb_offsIP sb.
Proof.
  intros (e & bb & bb' & Hf & He & ->)%flatten_BB_inv. cbn.
  apply (flatten_stmts_grow order (M := machine) []) in Hf. apply (carries_Expr order [] (M := machine)) in He as (Ha & G & _).
  assert (Hg : grows (emptyIRSB (tyenv sb)) bb') by (by etrans). split_and!; [|by apply grows_prefix in Hg|done|done].
  destruct Hg as (_ & sts & Es & Hfl). cbn in Es. unfold isFlatIRSB. cbn. rewrite Es, (proj2 (flat_stmts_iff _)) by done. cbn. by rewrite Ha.
Qed.

Lemma flatten_BB_returns order sb : well_typed_block sb = true -> exists out, flatten_BB order sb = Ok out.
Proof.
  intros [[Hs Hn]%andb_true_iff _]%andb_true_iff. unfold flatten_BB.
  destruct (returns_bind (tyenv sb) _ (fun _ => flatten_Expr order (next sb))
    (flatten_stmts_return order _ _ Hs) (fun _ => flatten_Expr_returns order _ _ Hn)
    (emptyIRSB (tyenv sb)) ltac:(done)) as (e & bb & E & _). rewrite E. by eexists.
Qed.
