(* ===== verification/FlattenTypes.v ===== *)
(** * Flattening keeps types and single assignment *)

From stdpp Require Import gmap.
From S2P Require Import Prelude Primop IR Sanity IRSem IRRun IRTyping IRConcrete Flatten FlattenTheory.

Section Types.
Context (order : IRSB -> nat -> nat).

(** The block has new temporaries and statements that assign those, with the
    right types. *)
Definition tgrows (bb bb' : IRSB) : Prop :=
  exists tys sts, tyenv bb' = tyenv bb ++ tys /\ stmts bb' = stmts bb ++ sts
    /\ Forall (fun st => well_typed_stmt (tyenv bb') st = true) sts /\ NoDup (all_defs sts)
    /\ Forall (fun t => Z.of_nat (length (tyenv bb)) <= t < Z.of_nat (length (tyenv bb'))) (all_defs sts).

#[export] Instance tgrows_preorder : PreOrder tgrows.
Proof.
  split.
  - intros bb. exists [], []. rewrite !app_nil_r. split_and!; try done; constructor.
  - intros bb1 bb2 bb3 (ty1 & s1 & E1 & F1 & W1 & N1 & R1) (ty2 & s2 & E2 & F2 & W2 & N2 & R2).
    exists (ty1 ++ ty2), (s1 ++ s2). rewrite all_defs_app. split_and!.
    + by rewrite E2, E1, app_assoc.
    + by rewrite F2, F1, app_assoc.
    + apply Forall_app. split; [|done]. eapply Forall_impl; [exact W1|]. intros st. rewrite E2. apply well_typed_stmt_more.
    + apply NoDup_app. split_and!; [done| |done]. intros t Ht1 Ht2. rewrite Forall_forall in R1, R2.
      specialize (R1 _ Ht1). specialize (R2 _ Ht2). lia.
    + apply Forall_app. split.
      * eapply Forall_impl; [exact R1|]. intros t. rewrite E2, length_app. lia.
      * eapply Forall_impl; [exact R2|]. intros t. rewrite E1, length_app. lia.
Qed.

Definition tflattens {A} (m : SE IRSB A) (src : list IRExpr) (dst : A -> list IRExpr) : Prop :=
  forall bb a bb', m bb = Ok (a, bb') -> Forall (fun e => well_typed (tyenv bb) e = true) src ->
  tgrows bb bb' /\ Forall2 (retyped (tyenv bb) (tyenv bb')) src (dst a).

Lemma tflattens_two {A B} (m1 : SE IRSB A) (m2 : SE IRSB B) src1 src2 dst1 dst2 bb a bb1 b bb2
    (H1 : tflattens m1 src1 dst1) (H2 : tflattens m2 src2 dst2) :
  m1 bb = Ok (a, bb1) -> m2 bb1 = Ok (b, bb2) ->
  Forall (fun e => well_typed (tyenv bb) e = true) src1 -> Forall (fun e => well_typed (tyenv bb) e = true) src2 ->
  tgrows bb bb2 /\ Forall2 (retyped (tyenv bb) (tyenv bb2)) src1 (dst1 a) /\ Forall2 (retyped (tyenv bb) (tyenv bb2)) src2 (dst2 b).
Proof.
  intros Hm1 Hm2 Hw1 Hw2. destruct (H1 _ _ _ Hm1 Hw1) as [G1 R1]. pose proof G1 as (ty1 & _ & E1 & _).
  assert (Hw2' : Forall (fun e => well_typed (tyenv bb1) e = true) src2).
  { eapply Forall_impl; [exact Hw2|]. intros e. rewrite E1. apply well_typed_more. }
  destruct (H2 _ _ _ Hm2 Hw2') as [G2 R2]. pose proof G2 as (ty2 & _ & E2 & _). split_and!.
  - by etrans.
  - eapply Forall2_impl; [exact R1|]. intros e e'. rewrite E2. apply retyped_more.
  - clear -R2 Hw2 E1. rewrite E1 in R2. induction R2; inversion_clear Hw2; constructor; auto. by eapply retyped_later.
Qed.

Lemma tflattens_bind {A B C} (m1 : SE IRSB A) (m2 : SE IRSB B) src1 src2 dst1 dst2 (k : A -> B -> C) dst
    (H1 : tflattens m1 src1 dst1) (H2 : tflattens m2 src2 dst2) :
  (forall a b, dst (k a b) = dst1 a ++ dst2 b) ->
  tflattens (a ← m1; b ← m2; mret (k a b)) (src1 ++ src2) dst.
Proof.
  intros Hk bb c bb' H [Hw1 Hw2]%Forall_app. inv_se.
  destruct (tflattens_two _ _ _ _ _ _ _ _ _ _ _ H1 H2 Hm Hm0 Hw1 Hw2) as (G & R1 & R2). rewrite Hk. split; [done|by apply Forall2_app].
Qed.

(** Arguments evaluated in some order. *)
Lemma tflattens_pick {A B C} (m1 : SE IRSB A) (m2 : SE IRSB B) src1 src2 dst1 dst2 (k : A -> B -> C) src dst
    (H1 : tflattens m1 src1 dst1) (H2 : tflattens m2 src2 dst2) :
  (forall e, In e src1 \/ In e src2 -> In e src) ->
  (forall env env' a b, Forall2 (retyped env env') src1 (dst1 a) -> Forall2 (retyped env env') src2 (dst2 b) ->
     Forall2 (retyped env env') src (dst (k a b))) ->
  tflattens (a ← m1; b ← m2; mret (k a b)) src dst.
Proof.
  intros Hin Hk bb c bb' H Hw. inv_se. rewrite List.Forall_forall in Hw.
  destruct (tflattens_two _ _ _ _ _ _ _ _ _ _ _ H1 H2 Hm Hm0) as (G & R1 & R2); [apply List.Forall_forall; auto..|].
  split; [done|by apply Hk].
Qed.

Lemma tflattens_next {A} n (m : nat -> SE IRSB A) src dst :
  (forall i, tflattens (m i) src dst) -> tflattens (i ← next_arg order n; m i) src dst.
Proof. intros Hm bb a bb' H. exact (Hm _ bb a bb' H). Qed.

Ltac tpick :=
  let l := fresh "l" in let H1 := fresh in let H2 := fresh in
  lazymatch goal with
  | |- forall _, _ -> In _ _ => intros ?; cbn; tauto
  | |- forall _ _ _ _, _ =>
      intros ? ? ? l H1 H2; repeat match type of l with prod _ _ => destruct l as [? l] end; cbn in *;
      repeat match goal with H : Forall2 _ (_ :: _) _ |- _ => inversion_clear H end; repeat first [assumption|constructor]
  end.

Lemma tflattens_unseq2 m1 m2 e1 e2 : tflattens m1 [e1] (fun e => [e]) -> tflattens m2 [e2] (fun e => [e]) ->
  tflattens (unseq2 order m1 m2) [e1; e2] (fun l => [l.1; l.2]).
Proof. intros H1 H2. apply tflattens_next. intros [|]; (eapply tflattens_pick; [eassumption..| |]); tpick. Qed.

Lemma tflattens_unseq3 m1 m2 m3 e1 e2 e3 : tflattens m1 [e1] (fun e => [e]) -> tflattens m2 [e2] (fun e => [e]) -> tflattens m3 [e3] (fun e => [e]) ->
  tflattens (unseq3 order m1 m2 m3) [e1; e2; e3] (fun l => [l.1; l.2.1; l.2.2]).
Proof.
  intros H1 H2 H3. apply tflattens_next.
  intros [|[|]]; (eapply tflattens_pick; [eassumption|by apply tflattens_unseq2| |]); tpick.
Qed.

Lemma tflattens_unseq4 m1 m2 m3 m4 e1 e2 e3 e4 : tflattens m1 [e1] (fun e => [e]) -> tflattens m2 [e2] (fun e => [e]) -> tflattens m3 [e3] (fun e => [e]) -> tflattens m4 [e4] (fun e => [e]) ->
  tflattens (unseq4 order m1 m2 m3 m4) [e1; e2; e3; e4] (fun l => [l.1; l.2.1; l.2.2.1; l.2.2.2]).
Proof.
  intros H1 H2 H3 H4. apply tflattens_next.
  intros [|[|[|]]]; (eapply tflattens_pick; [eassumption|by apply tflattens_unseq3| |]); tpick.
Qed.

Lemma tflattens_ret : tflattens (mret []) [] id.
Proof. intros bb a bb' H _. inv_se. split; [done|constructor]. Qed.

Lemma tflattens_sequence es : Forall (fun e => tflattens (flatten_Expr order e) [e] (fun e' => [e'])) es ->
  tflattens (sequence (map (flatten_Expr order) es)) es id.
Proof.
  induction 1 as [|e es He _ IH]; [exact tflattens_ret|]. cbn [map sequence].
  by apply (tflattens_bind _ _ [e] es (fun e' => [e']) id cons id He IH).
Qed.

(** The assignment to a temporary made before the operands were flattened. *)
Lemma into_tgrows bb ty bb' e' : tgrows (bb <| tyenv := tyenv bb ++ [ty] |>) bb' ->
  well_typed (tyenv bb') e' = true -> typeOfIRExpr (tyenv bb') e' = Ok ty ->
  let t1 := Z.of_nat (length (tyenv bb)) in
  tgrows bb (addStmtToIRSB bb' (Ist_WrTmp t1 e')) /\ well_typed (tyenv bb') (Iex_RdTmp t1) = true
  /\ typeOfIRTemp (tyenv bb') t1 = Ok ty.
Proof.
  intros (tys & sts & E & F & Wt & N & R) He Hty t1. cbn [tyenv stmts set_field] in *. cbn in E, F.
  assert (Hin : typeOfIRTemp (tyenv bb') t1 = Ok ty).
  { rewrite E. apply typeOfIRTemp_still, new_temp_type. }
  assert (Hw : well_typed (tyenv bb') (Iex_RdTmp t1) = true) by (cbn; by rewrite Hin). split; [|done].
  exists (ty :: tys), (sts ++ [Ist_WrTmp t1 e']). cbn [tyenv stmts addStmtToIRSB set_field]. rewrite all_defs_app. cbn in R |- *.
  split_and!.
  - by rewrite E, <-app_assoc.
  - by rewrite F, <-app_assoc.
  - apply Forall_app. split; [exact Wt|]. constructor; [|constructor]. unfold well_typed_stmt. cbn [defs forallb]. rewrite Hw. cbn.
    rewrite He, Hin. cbn. by apply has_type_iff.
  - apply NoDup_app. split_and!; [done| |apply NoDup_singleton]. intros t Ht ->%list_elem_of_singleton.
    rewrite Forall_forall in R. specialize (R _ Ht). rewrite length_app in R. cbn in R. unfold t1 in R. lia.
  - apply Forall_app. split.
    + eapply Forall_impl; [exact R|]. intros t. cbn. rewrite length_app. lia.
    + constructor; [|constructor]. apply well_typed_temp in Hw. unfold t1 in *. cbn. lia.
Qed.

Lemma tflattens_new {A} ex (m : SE IRSB A) src dst (K : A -> IRExpr) (Hm : tflattens m src dst) :
  (forall env, well_typed env ex = true -> Forall (fun e => well_typed env e = true) src) ->
  (forall env env' a ty, well_typed env ex = true -> Forall2 (retyped env env') src (dst a) -> typeOfIRExpr env ex = Ok ty ->
     well_typed env' (K a) = true /\ typeOfIRExpr env' (K a) = Ok ty) ->
  tflattens (ty ← type_now ex; t1 ← new_temp ty; a ← m; into t1 (K a)) [ex] (fun e' => [e']).
Proof.
  intros Hsrc HK bb e' bb' H Hw. inv_se. apply type_now_inv in Hm0 as [-> Hty]. apply new_temp_inv in Hm1 as [-> ->].
  inversion_clear Hw as [|? ? Hex _].
  assert (Hex' : well_typed (tyenv bb ++ [a]) ex = true) by (by apply well_typed_more).
  destruct (Hm _ _ _ Hm2) as [G R]; [by apply Hsrc|]. cbn in R.
  destruct (HK _ _ _ a Hex' R (typeOfIRExpr_still _ [a] _ _ Hty)) as [Hwk Htk].
  destruct (into_tgrows _ _ _ _ G Hwk Htk) as (G' & Ht & Hin). split; [exact G'|].
  constructor; [|constructor]. split; [exact Ht|]. intros ty' Hty'. rewrite Hty in Hty'. injection Hty' as <-. exact Hin.
Qed.
Lemma tflattens_leaf e : (forall env env' ty, typeOfIRExpr env e = Ok ty -> well_typed env e = true ->
    well_typed env' e = true /\ typeOfIRExpr env' e = Ok ty) ->
  tflattens (ty ← type_now e; t1 ← new_temp ty; into t1 e) [e] (fun e' => [e']).
Proof.
  intros He bb e' bb' H. eapply (tflattens_new e (mret []) [] id (fun _ => e) tflattens_ret).
  - constructor.
  - intros env env' a ty Hw _ Hty. by eapply He.
  - inv_se. do 2 (erewrite SE_bind_ok by eassumption). reflexivity.
Qed.

Lemma tflattens_atom e : tflattens (type_now e;; mret e) [e] (fun e' => [e']).
Proof.
  intros bb e' bb' H Hw. inv_se. apply type_now_inv in Hm as [-> _]. inversion_clear Hw.
  split; [done|]. constructor; [|constructor]. by split; [|intros ty].
Qed.

Lemma tflattens_call cee rty args :
  Forall (fun e => tflattens (flatten_Expr order e) [e] (fun e' => [e'])) args ->
  tflattens (flatten_Expr order (Iex_CCall cee rty args)) [Iex_CCall cee rty args] (fun e' => [e']).
Proof.
  intros IH%tflattens_sequence bb e' bb' H Hw. cbn [flatten_Expr] in H. inv_se.
  apply type_now_inv in Hm as [-> [= ->]]. apply new_temp_inv in Hm1 as [-> ->].
  inversion_clear Hw as [|? ? Hex _]. apply well_typed_parts in Hex. destruct (IH _ _ _ Hm0 Hex) as [G R]. unfold id in R.
  assert (Hk : well_typed (tyenv bb1 ++ [a]) (Iex_CCall cee a a0) = true).
  { cbn. clear -R. induction R as [|e e' l l' [He _] _ IHl]; [done|]. cbn. by rewrite (well_typed_more _ [a] _ He). }
  destruct (into_tgrows bb1 a (bb1 <| tyenv := tyenv bb1 ++ [a] |>) (Iex_CCall cee a a0) (reflexivity _) Hk) as (G' & Ht & Hin); [done|].
  split; [by etrans|]. constructor; [|constructor]. split; [exact Ht|]. by intros ty' [= <-].
Qed.

(** One to four operands. *)
Ltac retyped :=
  lazymatch goal with
  | |- forall env, well_typed env _ = true -> Forall _ _ =>
      let H := fresh in intros ? H; apply well_typed_parts in H; destruct_and?; cbn [app]; rewrite ?Forall_cons; split_and?; first [done|constructor]
  | |- forall _ _ _ _, _ -> Forall2 _ _ _ -> _ -> _ =>
      let Hw := fresh in let H := fresh in let l := fresh "l" in let Hres := fresh "Hres" in
      intros ? ? l ? Hw H ?; repeat match type of l with prod _ _ => destruct l as [? l] end; cbn in H;
      repeat match goal with H : Forall2 _ (_ :: _) _ |- _ => inversion_clear H end;
      repeat match goal with H : retyped _ _ _ _ |- _ => destruct H as [? ?] end;
      match goal with |- _ /\ ?T => assert (Hres : T); [cbn in *; eauto|split; [|exact Hres]] end;
      apply well_typed_parts in Hw; cbn -[takes arms_ok] in Hw; destruct_and?;
      cbn [well_typed]; rewrite Hres; rewrite ?andb_true_iff; split_and?; try done;
      first [eapply keeps_takes; [|eassumption]; by repeat constructor|by eapply keeps_arms]
  end.

Lemma flatten_Expr_tflattens e : tflattens (flatten_Expr order e) [e] (fun e' => [e']).
Proof.
  induction e as [b|o ty|d ix b IH|t|op e1 e2 e3 e4 IH1 IH2 IH3 IH4|op e1 e2 e3 IH1 IH2 IH3|op e1 e2 IH1 IH2
    |op e IH|en ty e IH|c|cee ty args IH|c t f IHc IHt IHf| |] using IRExpr_nested_ind; cbn [flatten_Expr].
  1, 13, 14: intros bb a bb' H; by inv_se.
  - by apply tflattens_leaf.
  - apply (tflattens_new _ _ [ix] (fun e' => [e']) (fun e' => Iex_GetI d e' b)); [done|retyped|retyped].
  - apply tflattens_atom.
  - apply (tflattens_new _ _ _ _ (fun '(a1, (a2, (a3, a4))) => Iex_Qop op a1 a2 a3 a4)
      (tflattens_unseq4 _ _ _ _ _ _ _ _ IH1 IH2 IH3 IH4)); retyped.
  - apply (tflattens_new _ _ _ _ (fun '(a1, (a2, a3)) => Iex_Triop op a1 a2 a3)
      (tflattens_unseq3 _ _ _ _ _ _ IH1 IH2 IH3)); retyped.
  - apply (tflattens_new _ _ _ _ (fun '(a1, a2) => Iex_Binop op a1 a2) (tflattens_unseq2 _ _ _ _ IH1 IH2)); retyped.
  - apply (tflattens_new _ _ _ _ (Iex_Unop op) IH); retyped.
  - apply (tflattens_new _ _ _ _ (Iex_Load en ty) IH); retyped.
  - destruct (isF64i c); [|apply tflattens_atom]. apply tflattens_leaf. by intros env env' ty [= <-].
  - by apply tflattens_call.
  - apply (tflattens_new _ _ _ _ (fun '(a1, (a2, a3)) => Iex_ITE a1 a2 a3)
      (tflattens_unseq3 _ _ _ _ _ _ IHc IHt IHf)); retyped.
Qed.

(** ** Statements *)

(** Operands that are [ok] with the types of [bb] are computed into operands of
    the same types. *)
Definition tcarries bb bb' (ok : IRTypeEnv -> Prop) (lk : IRTypeEnv -> IRTypeEnv -> Prop) : Prop :=
  ok (tyenv bb) -> tgrows bb bb' /\ lk (tyenv bb) (tyenv bb').

Class Weakens (ok : IRTypeEnv -> Prop) (lk : IRTypeEnv -> IRTypeEnv -> Prop) : Prop := {
  weaken_ok env ext : ok env -> ok (env ++ ext);
  weaken_more env env1 ext : lk env env1 -> lk env (env1 ++ ext);
  weaken_later env ext env1 : ok env -> lk (env ++ ext) env1 -> lk env env1
}.

Definition ok_expr (e : IRExpr) (env : IRTypeEnv) : Prop := well_typed env e = true.
Definition ok_opt (e : option IRExpr) (env : IRTypeEnv) : Prop := well_typed_opt env e = true.
Definition ok_args (l : list IRExpr) (env : IRTypeEnv) : Prop := forallb (well_typed_arg env) l = true.

#[local] Instance weakens_expr e e' : Weakens (ok_expr e) (fun env env' => retyped env env' e e').
Proof. split; [intros; by apply well_typed_more|intros; by apply retyped_more|intros; by eapply retyped_later]. Qed.

#[local] Instance weakens_opt e e' : Weakens (ok_opt e) (fun env env' => like_opt (retyped env env') e e').
Proof.
  split; destruct e as [e|], e' as [e'|]; cbn; try done; intros;
    first [by apply well_typed_more | by apply retyped_more | by eapply retyped_later].
Qed.

#[local] Instance weakens_args l l' : Weakens (ok_args l) (fun env env' => Forall2 (like_arg (retyped env env')) l l').
Proof.
  split; unfold ok_args.
  - intros env ext. apply forallb_impl. intros e. unfold well_typed_arg. rewrite !orb_true_iff.
    intros [?|?]; [by left|right; by apply well_typed_more].
  - intros env env1 ext H. eapply Forall2_impl; [exact H|]. intros e e'. unfold like_arg.
    destruct (is_IRExpr_VECRET_or_GSPTR e); [done|]. intros [? ?]. split; [done|by apply retyped_more].
  - intros env ext env1 Hok H. induction H as [|e e' l l' He _ IH]; [constructor|]. cbn in Hok. apply andb_true_iff in Hok as [Ho Hok].
    constructor; [|auto]. unfold like_arg, well_typed_arg in *. destruct (is_IRExpr_VECRET_or_GSPTR e); [done|].
    destruct He. split; [done|by eapply retyped_later].
Qed.

#[local] Instance weakens_and ok1 lk1 ok2 lk2 : Weakens ok1 lk1 -> Weakens ok2 lk2 ->
  Weakens (fun env => ok1 env /\ ok2 env) (fun env env' => lk1 env env' /\ lk2 env env').
Proof.
  intros [A1 B1 C1] [A2 B2 C2]. split; [intros env ext [? ?]|intros env env1 ext [? ?]|intros env ext env1 [? ?] [? ?]]; split; eauto.
Qed.

Lemma tcarries_refl bb : tcarries bb bb (fun _ => True) (fun _ _ => True).
Proof. by intros _. Qed.

Lemma tcarries_seq bb1 bb2 bb3 ok1 lk1 ok2 lk2 `{!Weakens ok1 lk1} `{!Weakens ok2 lk2} :
  tcarries bb1 bb2 ok1 lk1 -> tcarries bb2 bb3 ok2 lk2 ->
  tcarries bb1 bb3 (fun env => ok1 env /\ ok2 env) (fun env env' => lk1 env env' /\ lk2 env env').
Proof.
  intros H1 H2 [O1 O2]. destruct (H1 O1) as [G1 L1]. pose proof G1 as (ty1 & _ & E1 & _). unfold tcarries in H2. rewrite E1 in H2.
  destruct (H2 (weaken_ok _ _ O2)) as [G2 L2]. pose proof G2 as (ty2 & _ & E2 & _). split; [by etrans|]. split.
  - rewrite E2. by apply weaken_more.
  - by eapply weaken_later.
Qed.

Lemma tcarries_Expr e bb e' bb' : flatten_Expr order e bb = Ok (e', bb') ->
  tcarries bb bb' (ok_expr e) (fun env env' => retyped env env' e e').
Proof.
  intros H Ho. apply flatten_Expr_tflattens in H as [G R]; [constructor; [exact Ho|constructor]|]. split; [exact G|].
  by inversion_clear R.
Qed.

Lemma tcarries_opt e bb e' bb' : flatten_opt order e bb = Ok (e', bb') ->
  tcarries bb bb' (ok_opt e) (fun env env' => like_opt (retyped env env') e e').
Proof. destruct e as [e|]; cbn; intros H; inv_se; [by apply tcarries_Expr|]. by intros _. Qed.

Lemma tcarries_args l bb l' bb' : sequence (map (flatten_arg order) l) bb = Ok (l', bb') ->
  tcarries bb bb' (ok_args l) (fun env env' => Forall2 (like_arg (retyped env env')) l l').
Proof.
  revert bb l'. induction l as [|e l IH]; intros bb l' H; cbn in H; inv_se; [by intros _|].
  apply IH in Hm0. intros [Ho Hl]%andb_true_iff. unfold flatten_arg, well_typed_arg in *.
  destruct (is_IRExpr_VECRET_or_GSPTR e) eqn:Hsp.
  - inv_se. destruct (Hm0 Hl) as [G R]. split; [done|]. constructor; [|done]. unfold like_arg. by rewrite Hsp.
  - apply tcarries_Expr in Hm. destruct (tcarries_seq _ _ _ _ _ _ _ Hm Hm0) as [G [R1 R2]]; [by split|]. split; [done|].
    constructor; [|done]. unfold like_arg. rewrite Hsp. split; [|done]. destruct R1 as [Hw _]. by destruct a.
Qed.

Definition ok_mAddr (d : IRDirty) (env : IRTypeEnv) : Prop :=
  match mAddr d with
  | Some e => bool_decide (mFx d <> Ifx_None) && well_typed env e
  | None => bool_decide (mFx d = Ifx_None)
  end = true.

#[local] Instance weakens_mAddr d a : Weakens (ok_mAddr d) (fun env env' => like_opt (retyped env env') (mAddr d) a).
Proof.
  split; unfold ok_mAddr; destruct (mAddr d) as [e|], a as [e'|]; cbn; try done; intros;
    rewrite ?andb_true_iff in *; destruct_and?; split_and?;
    first [done | by apply well_typed_more | by apply retyped_more | by eapply retyped_later].
Qed.

Lemma tcarries_mAddr d bb a bb' : flatten_mAddr order d bb = Ok (a, bb') ->
  tcarries bb bb' (ok_mAddr d) (fun env env' => like_opt (retyped env env') (mAddr d) a).
Proof.
  unfold flatten_mAddr, tcarries, ok_mAddr. intros H Ho. destruct (mAddr d) as [e|].
  - apply andb_true_iff in Ho as [Hf%bool_decide_eq_true Ho]. rewrite bool_decide_eq_false_2 in H by done. inv_se. by apply tcarries_Expr.
  - rewrite Ho in H. inv_se. by simplify_eq.
Qed.

Lemma flatten_mAddr_null d bb a bb' : flatten_mAddr order d bb = Ok (a, bb') -> mFx d = Ifx_None -> a = None.
Proof. unfold flatten_mAddr. intros H Hf. rewrite bool_decide_eq_true_2 in H by done. by inv_se. Qed.

(** The statement after those that compute its operands. *)
Definition ttranslated bb st bb' : Prop :=
  well_typed_stmt (tyenv bb) st = true ->
  exists bb1 st1, tgrows bb bb1 /\ bb' = addStmtToIRSB bb1 st1 /\ well_typed_stmt (tyenv bb1) st1 = true /\ defs st1 = defs st.

Lemma ttranslated_intro bb bb1 st st1 ok lk : tcarries bb bb1 ok lk ->
  (operands_typed (tyenv bb) st = true -> ok (tyenv bb)) ->
  (lk (tyenv bb) (tyenv bb1) -> like (retyped (tyenv bb) (tyenv bb1)) st st1
     /\ forall d d', st = Ist_Dirty d -> st1 = Ist_Dirty d' -> mFx d = Ifx_None -> mAddr d' = None) ->
  ttranslated bb st (addStmtToIRSB bb1 st1).
Proof.
  intros Hc Hok Hlk Hw. pose proof Hw as [_ Ho]%andb_true_iff. destruct (Hc (Hok Ho)) as [G L]. exists bb1, st1.
  pose proof G as (tys & _ & E & _). destruct (Hlk L) as [Hl Hn]. rewrite E in Hl |- *.
  destruct (like_typed _ _ _ _ Hl Hn Hw). by split_and!.
Qed.

Lemma ttranslated_same bb st u bb' : append_stmt st bb = Ok (u, bb') -> ttranslated bb st bb'.
Proof. intros H Hw. inv_se. by exists bb, st. Qed.

Ltac tchain := first [eassumption | eapply tcarries_seq; [| |eassumption|tchain]; apply _].

Lemma flatten_Stmt_ttranslated st bb u bb' : flatten_Stmt order st bb = Ok (u, bb') -> ttranslated bb st bb'.
Proof.
  destruct st; cbn [flatten_Stmt]; intros H.
  4, 6: case_match.
  all: try (by eapply ttranslated_same).
  all: try match goal with d : IRCAS |- _ => destruct d end; inv_se.
  all: try match goal with d : IRDirty |- _ => destruct d end.
  all: try match goal with H : flatten_mAddr _ _ _ = Ok _ |- _ => pose proof (flatten_mAddr_null _ _ _ _ H) as Hnull end.
  all: repeat match goal with
    | H : flatten_Expr _ _ _ = Ok _ |- _ => apply tcarries_Expr in H
    | H : flatten_mAddr _ _ _ = Ok _ |- _ => apply tcarries_mAddr in H
    | H : flatten_opt _ _ _ = Ok _ |- _ => apply tcarries_opt in H
    | H : sequence _ _ = Ok _ |- _ => apply tcarries_args in H
    end.
  all: eapply ttranslated_intro; [tchain| |].
  all: try (cbn; unfold well_typed_guard; rewrite ?andb_true_iff; intros; destruct_and?; unfold ok_expr, ok_opt, ok_args, ok_mAddr; split_and?; done).
  all: cbn; intros; destruct_and?.
  all: split; [by constructor|]; try done.
  intros d d' [= <-] [= <-] Hf. cbn in *. by apply Hnull.
Qed.

(** ** Blocks *)

(** The temporaries assigned so far: those below [n] are in [seen]. *)
Definition assigned (n : Z) (seen : list Z) (bb : IRSB) : Prop :=
  Forall (fun st => well_typed_stmt (tyenv bb) st = true) (stmts bb) /\ NoDup (all_defs (stmts bb))
  /\ Forall (fun t => (t < n -> t ∈ seen) /\ t < Z.of_nat (length (tyenv bb))) (all_defs (stmts bb)).

Lemma assigned_tgrows n seen bb bb' : n <= Z.of_nat (length (tyenv bb)) -> assigned n seen bb -> tgrows bb bb' -> assigned n seen bb'.
Proof.
  intros Hn (W1 & N1 & R1) (tys & sts & E & F & W2 & N2 & R2). unfold assigned. rewrite F, all_defs_app. split_and!.
  - apply Forall_app. split; [|done]. eapply Forall_impl; [exact W1|]. intros st. rewrite E. apply well_typed_stmt_more.
  - apply NoDup_app. split_and!; [done| |done]. intros t H1 H2. rewrite Forall_forall in R1, R2.
    destruct (R1 _ H1) as [_ ?]. specialize (R2 _ H2). cbn in R2. lia.
  - apply Forall_app. split.
    + eapply Forall_impl; [exact R1|]. intros t [? ?]. split; [done|]. rewrite E, length_app. lia.
    + eapply Forall_impl; [exact R2|]. intros t ?. cbn in *. split; [intros; exfalso; lia|lia].
Qed.

Lemma flatten_stmts_typed env0 sts : forall seen bb u bb', for_each sts (flatten_Stmt order) bb = Ok (u, bb') ->
  env0 `prefix_of` tyenv bb -> assigned (Z.of_nat (length env0)) seen bb ->
  forallb (well_typed_stmt env0) sts = true -> NoDup (seen ++ all_defs sts) ->
  assigned (Z.of_nat (length env0)) (seen ++ all_defs sts) bb' /\ env0 `prefix_of` tyenv bb'.
Proof.
  induction sts as [|st sts IH]; intros seen bb u bb' H Hp Ha Hw Hd; cbn in H; inv_se.
  { cbn in *. by rewrite app_nil_r. }
  cbn in Hw. apply andb_true_iff in Hw as [Hw1 Hw]. apply flatten_Stmt_ttranslated in Hm. destruct Hp as [ext Hp].
  assert (Hst : well_typed_stmt (tyenv bb) st = true) by (rewrite Hp; by apply well_typed_stmt_more).
  destruct (Hm Hst) as (bb1 & st1 & G & -> & Hw' & Hdefs).
  apply (assigned_tgrows _ _ _ bb1) in Ha; [|rewrite Hp, length_app; lia|done]. destruct Ha as (W & N & R).
  cbn [all_defs map concat] in Hd |- *. change (concat (map defs sts)) with (all_defs sts) in *. rewrite app_assoc in Hd |- *.
  pose proof G as (tys & _ & E & _).
  assert (Hrange : Forall (fun t => 0 <= t < Z.of_nat (length env0)) (defs st)).
  { unfold well_typed_stmt in Hw1. apply andb_true_iff in Hw1 as [Hw1 _]. clear -Hw1. induction (defs st) as [|t l IHl]; [constructor|].
    cbn [forallb] in Hw1. apply andb_true_iff in Hw1 as [Ht Hw1]. constructor; [by apply well_typed_temp in Ht|auto]. }
  apply (IH (seen ++ defs st) _ _ _ H); [| |done|done].
  - cbn. rewrite E, Hp, <-app_assoc. by eexists.
  - unfold assigned. cbn [tyenv stmts addStmtToIRSB set_field]. rewrite all_defs_app. change (all_defs [st1]) with (defs st1 ++ []).
    rewrite app_nil_r, Hdefs. apply NoDup_app in Hd as (Hd & _ & _). apply NoDup_app in Hd as (_ & Hnew & Hnd). split_and!.
    + apply Forall_app. split; [exact W|]. by repeat constructor.
    + apply NoDup_app. split_and!; [exact N| |exact Hnd]. intros t Ht1 Ht2. rewrite Forall_forall in R, Hrange.
      destruct (R _ Ht1) as [Hs _]. apply (Hnew t); [apply Hs, Hrange, Ht2|exact Ht2].
    + apply Forall_app. split.
      * eapply Forall_impl; [exact R|]. intros t [Hs ?]. split; [|done]. intros Hlt. apply elem_of_app. left. by apply Hs.
      * apply Forall_forall. intros t Ht. rewrite Forall_forall in Hrange. specialize (Hrange _ Ht). split.
        -- intros _. apply elem_of_app. by right.
        -- cbn. rewrite E, Hp, !length_app. lia.
Qed.

Lemma flatten_BB_typed sb out : flatten_BB order sb = Ok out -> well_typed_block sb = true -> well_typed_block out = true.
Proof.
  intros (e & bb & bb' & Hf & He & ->)%flatten_BB_inv [[Hs Hn]%andb_true_iff Hd%bool_decide_eq_true]%andb_true_iff.
  destruct (flatten_stmts_typed (tyenv sb) (stmts sb) [] _ _ _ Hf) as [Ha [ext Hp]]; [done| |done|done|].
  { split_and!; constructor. }
  assert (Hn' : well_typed (tyenv bb) (next sb) = true) by (rewrite Hp; by apply well_typed_more).
  apply tcarries_Expr in He. destruct (He Hn') as [G [Hwe _]].
  apply (assigned_tgrows _ _ _ bb') in Ha; [|rewrite Hp, length_app; lia|done]. destruct Ha as (W & N & _).
  unfold well_typed_block. cbn [tyenv stmts next]. rewrite Hwe, andb_true_r. apply andb_true_iff. split; [|by apply bool_decide_eq_true].
  clear -W. induction W as [|st l H _ IH]; [done|]. cbn [forallb]. by rewrite H.
Qed.

End Types.

(** ** The theorem *)

(** C14: flattening returns for every block that is well typed, in whichever
    order the C compiler evaluates the arguments of each call.  The block it returns is
    flat and well typed too, has the temporaries of the given one with new ones, and
    does the same: on any machine that obeys the laws, a run from a world
    that ends in a world with a target and a kind of jump ends so after
    flattening too. *)
Theorem flatten_BB_correct order sb (Hw : well_typed_block sb = true) :
  exists out, flatten_BB order sb = Ok out
    /\ isFlatIRSB out = Ok true /\ well_typed_block out = true /\ tyenv sb `prefix_of` tyenv out
    /\ jumpkind out = jumpkind sb /\ sb_offsIP out = sb_offsIP sb
    /\ forall V W (M : Machine V W), MachineLaws M -> forall w r, run_block sb w = Some r -> run_block out w = Some r.
Proof.
  destruct (flatten_BB_returns order sb Hw) as (out & E). exists out. split; [done|].
  destruct (flatten_BB_flat _ _ _ E) as (? & ? & ? & ?).
  split_and!; try done; [by eapply flatten_BB_typed|]. intros V W M HM w r. by eapply flatten_BB_run.
Qed.

(** Arguments evaluated from the left and from the right. *)
Definition first_arg (bb : IRSB) (n : nat) : nat := 0.
Definition last_arg (bb : IRSB) (n : nat) : nat := n - 1.

(** A block that stores the sum of a register and a loaded word, and leaves for
    the address in another register. *)
Definition nested_block : IRSB :=
  mk_IRSB [Ity_I64]
    [Ist_IMark 4096 4 0;
     Ist_WrTmp 0 (Iex_Get 16 Ity_I64);
     Ist_Store Iend_LE (Iex_RdTmp 0) (Iex_Binop 0x1404 (Iex_Get 24 Ity_I64) (Iex_Load Iend_LE Ity_I64 (Iex_RdTmp 0)))]
    (Iex_Get 32 Ity_I64) Ijk_Boring 184.

Lemma flatten_BB_correct_witness :
  well_typed_block nested_block = true
  /\ exists out, flatten_BB last_arg nested_block = Ok out
    /\ isFlatIRSB out = Ok true /\ well_typed_block out = true
    /\ run_block nested_block (mk_W ∅ {[0 := 5]} []) <> None
    /\ forall r, run_block nested_block (mk_W ∅ {[0 := 5]} []) = Some r -> run_block out (mk_W ∅ {[0 := 5]} []) = Some r.
Proof.
  split; [vm_compute; reflexivity|].
  destruct (flatten_BB_correct last_arg nested_block ltac:(vm_compute; reflexivity)) as (out & E & Hf & Hw & _ & _ & _ & Hr).
  exists out. split; [exact E|]. split; [exact Hf|]. split; [exact Hw|]. split; [vm_compute; discriminate|].
  intros r. exact (Hr _ _ machine machine_laws (mk_W ∅ {[0 := 5]} []) r).
Defined.

(** The number of temporaries is the same in both orders; the code differs. *)
Example nested_block_flat :
  (length <$> (match flatten_BB last_arg nested_block with Ok out => Some (stmts out) | Err _ => None end)) = Some 7%nat
  /\ flatten_BB last_arg nested_block <> flatten_BB first_arg nested_block.
Proof. vm_compute. split_and!; done. Qed.
