(* ===== verification/DeadCode.v ===== *)
(** * Removal of dead code: VEX/priv/ir_opt.c

    [do_deadcode_BB] with the functions it calls.  The set of temporaries is an
    array with one [Bool] for each. *)

From S2P Require Import Prelude Primop IR.

Definition addUses_Temp (set : list bool) (tmp : Z) : outcome (list bool) := wr set tmp true.

(** A loop that adds to the set. *)
Fixpoint add_all {A} (f : list bool -> A -> outcome (list bool)) (set : list bool) (l : list A) : outcome (list bool) :=
  match l with [] => Ok set | x :: l => let* set := f set x in add_all f set l end.

Fixpoint addUses_Expr (set : list bool) (e : IRExpr) : outcome (list bool) :=
  match e with
  | Iex_GetI _ ix _ => addUses_Expr set ix
  | Iex_ITE cond iftrue iffalse =>
      let* set := addUses_Expr set cond in
      let* set := addUses_Expr set iftrue in
      addUses_Expr set iffalse
  | Iex_CCall _ _ args =>
      (fix loop set args :=
         match args with [] => Ok set | a :: args => let* set := addUses_Expr set a in loop set args end) set args
  | Iex_Load _ _ addr => addUses_Expr set addr
  | Iex_Qop _ arg1 arg2 arg3 arg4 =>
      let* set := addUses_Expr set arg1 in
      let* set := addUses_Expr set arg2 in
      let* set := addUses_Expr set arg3 in
      addUses_Expr set arg4
  | Iex_Triop _ arg1 arg2 arg3 =>
      let* set := addUses_Expr set arg1 in
      let* set := addUses_Expr set arg2 in
      addUses_Expr set arg3
  | Iex_Binop _ arg1 arg2 =>
      let* set := addUses_Expr set arg1 in
      addUses_Expr set arg2
  | Iex_Unop _ arg => addUses_Expr set arg
  | Iex_RdTmp tmp => addUses_Temp set tmp
  | Iex_Const _ | Iex_Get _ _ => Ok set
  | Iex_Binder _ | Iex_VECRET | Iex_GSPTR => Err Panic
  end.

(** [if (e) addUses_Expr(set, e)]. *)
Definition addUses_opt (set : list bool) (e : option IRExpr) : outcome (list bool) :=
  match e with Some e => addUses_Expr set e | None => Ok set end.
Definition addUses_arg (set : list bool) (arg : IRExpr) : outcome (list bool) :=
  if is_IRExpr_VECRET_or_GSPTR arg then Ok set else addUses_Expr set arg.

Definition addUses_Stmt (set : list bool) (st : IRStmt) : outcome (list bool) :=
  match st with
  | Ist_AbiHint base _ nia => let* set := addUses_Expr set base in addUses_Expr set nia
  | Ist_PutI _ ix _ data => let* set := addUses_Expr set ix in addUses_Expr set data
  | Ist_WrTmp _ data => addUses_Expr set data
  | Ist_Put _ data => addUses_Expr set data
  | Ist_Store _ addr data => let* set := addUses_Expr set addr in addUses_Expr set data
  | Ist_StoreG _ addr data guard =>
      let* set := addUses_Expr set addr in
      let* set := addUses_Expr set data in
      addUses_Expr set guard
  | Ist_LoadG _ _ _ addr alt guard =>
      let* set := addUses_Expr set addr in
      let* set := addUses_Expr set alt in
      addUses_Expr set guard
  | Ist_CAS cas =>
      let* set := addUses_Expr set (cas_addr cas) in
      let* set := addUses_opt set (expdHi cas) in
      let* set := addUses_Expr set (expdLo cas) in
      let* set := addUses_opt set (dataHi cas) in
      addUses_Expr set (dataLo cas)
  | Ist_LLSC _ _ addr storedata => let* set := addUses_Expr set addr in addUses_opt set storedata
  | Ist_Dirty d =>
      let* set :=
        if bool_decide (mFx d <> Ifx_None) then
          match mAddr d with Some e => addUses_Expr set e | None => Err Undefined end
        else Ok set in
      let* set := addUses_Expr set (guard d) in
      add_all addUses_arg set (args d)
  | Ist_NoOp | Ist_IMark _ _ _ | Ist_MBE _ => Ok set
  | Ist_Exit guard _ _ _ => addUses_Expr set guard
  end.

Definition isZeroU1 (e : IRExpr) : bool :=
  match e with Iex_Const (Ico_U1 b) => b =? 0 | _ => false end.
Definition isOneU1 (e : IRExpr) : bool :=
  match e with Iex_Const (Ico_U1 b) => b =? 1 | _ => false end.

(** One round of the first pass: the set, the statement and the index of the
    unconditional exit after it. *)
Definition dead_round (i : Z) (st : IRStmt) (set : list bool) (i_unconditional_exit : Z)
  : outcome (list bool * IRStmt * Z) :=
  match st with
  | Ist_NoOp => Ok (set, st, i_unconditional_exit)
  | _ =>
    let i_unconditional_exit :=
      match st with Ist_Exit guard _ _ _ => if isOneU1 guard then i else i_unconditional_exit | _ => i_unconditional_exit end in
    let* never_used := match st with Ist_WrTmp tmp _ => let* used := rd set tmp in Ok (negb used) | _ => Ok false end in
    let never_called := match st with Ist_Dirty d => isZeroU1 (guard d) | _ => false end in
    if never_used then Ok (set, Ist_NoOp, i_unconditional_exit)
    else if never_called then Ok (set, Ist_NoOp, i_unconditional_exit)
    else let* set := addUses_Stmt set st in Ok (set, st, i_unconditional_exit)
  end.

(** [for (i = bb->stmts_used-1; i >= 0; i--)]: the statements from index [i] on,
    those after it first. *)
Fixpoint first_pass (i : Z) (sts : list IRStmt) (set : list bool) : outcome (list bool * list IRStmt * Z) :=
  match sts with
  | [] => Ok (set, [], -1)
  | st :: sts =>
      let* (set, sts, i_unconditional_exit) := first_pass (i + 1) sts set in
      let* (set, st, i_unconditional_exit) := dead_round i st set i_unconditional_exit in
      Ok (set, st :: sts, i_unconditional_exit)
  end.

(** [for (i = i_unconditional_exit; i < bb->stmts_used; i++) bb->stmts[i] = NoOp]. *)
Definition zap_from (i : Z) (sts : list IRStmt) : list IRStmt :=
  take (Z.to_nat i) sts ++ map (fun _ => Ist_NoOp) (drop (Z.to_nat i) sts).

Definition second_pass (bb : IRSB) (i_unconditional_exit : Z) : outcome IRSB :=
  if negb (i_unconditional_exit =? -1) then
    let* _ := assert_that ((0 <=? i_unconditional_exit) && (i_unconditional_exit <? Z.of_nat (length (stmts bb)))) in
    let* st := rd (stmts bb) i_unconditional_exit in
    match st with
    | Ist_Exit _ jk dst offsIP =>
        Ok (bb <| next := Iex_Const dst |> <| jumpkind := jk |> <| sb_offsIP := offsIP |>
               <| stmts := zap_from i_unconditional_exit (stmts bb) |>)
    | _ => Err Undefined
    end
  else Ok bb.

Definition do_deadcode_BB (bb : IRSB) : outcome IRSB :=
  let* set := addUses_Expr (replicate (length (tyenv bb)) false) (next bb) in
  let* (set, sts, i_unconditional_exit) := first_pass 0 (stmts bb) set in
  second_pass (bb <| stmts := sts |>) i_unconditional_exit.
