(* ===== verification/DeadTheory.v ===== *)
(** * Removal of dead code keeps what a block does

    The set the pass carries backwards is the set of temporaries used after the
    current point; a run of the cleaned block has the same values in those. *)

From stdpp Require Import gmap.
From S2P Require Import Prelude Primop IR Sanity IRSem IRRun IRTyping IRConcrete DeadCode.

(** ** Uses *)

(** Does the temporary [t] occur in [e]? *)
Fixpoint occurs (t : Z) (e : IRExpr) : bool :=
  match e with
  | Iex_RdTmp t' => t =? t'
  | Iex_GetI _ e _ | Iex_Unop _ e | Iex_Load _ _ e => occurs t e
  | Iex_Qop _ e1 e2 e3 e4 => occurs t e1 || occurs t e2 || occurs t e3 || occurs t e4
  | Iex_Triop _ e1 e2 e3 | Iex_ITE e1 e2 e3 => occurs t e1 || occurs t e2 || occurs t e3
  | Iex_Binop _ e1 e2 => occurs t e1 || occurs t e2
  | Iex_CCall _ _ args => existsb (occurs t) args
  | Iex_Binder _ | Iex_Get _ _ | Iex_Const _ | Iex_VECRET | Iex_GSPTR => false
  end.
Definition occurs_opt (t : Z) (e : option IRExpr) : bool := match e with Some e => occurs t e | None => false end.

(** ... and in the operands of a statement? *)
Definition uses (t : Z) (st : IRStmt) : bool :=
  match st with
  | Ist_NoOp | Ist_IMark _ _ _ | Ist_MBE _ => false
  | Ist_Put _ e | Ist_WrTmp _ e | Ist_Exit e _ _ _ => occurs t e
  | Ist_AbiHint e1 _ e2 | Ist_PutI _ e1 _ e2 | Ist_Store _ e1 e2 => occurs t e1 || occurs t e2
  | Ist_StoreG _ e1 e2 e3 | Ist_LoadG _ _ _ e1 e2 e3 => occurs t e1 || occurs t e2 || occurs t e3
  | Ist_CAS c =>
      occurs t (cas_addr c) || occurs_opt t (expdHi c) || occurs t (expdLo c) || occurs_opt t (dataHi c) || occurs t (dataLo c)
  | Ist_LLSC _ _ e d => occurs t e || occurs_opt t d
  | Ist_Dirty d =>
      (bool_decide (mFx d <> Ifx_None) && occurs_opt t (mAddr d)) || occurs t (guard d) || existsb (occurs t) (args d)
  end.

(** The set has [t]. *)
Definition live (set : list bool) (t : Z) : bool := match rd set t with Ok b => b | Err _ => false end.

(** [set'] is [set] with the temporaries of which [f] is true. *)
Definition adds (set set' : list bool) (f : Z -> bool) : Prop :=
  length set' = length set /\ forall t, live set' t = live set t || f t.

Lemma adds_refl set : adds set set (fun _ => false).
Proof. split; [done|]. intros t. by rewrite orb_false_r. Qed.

Lemma adds_trans set1 set2 set3 f g : adds set1 set2 f -> adds set2 set3 g -> adds set1 set3 (fun t => f t || g t).
Proof. intros [L1 H1] [L2 H2]. split; [by rewrite L2|]. intros t. by rewrite H2, H1, orb_assoc. Qed.

Lemma adds_ext set set' f g : (forall t, f t = g t) -> adds set set' f -> adds set set' g.
Proof. intros E [L H]. split; [done|]. intros t. by rewrite H, E. Qed.

Lemma addUses_Temp_adds set tmp set' : addUses_Temp set tmp = Ok set' -> adds set set' (fun t => t =? tmp).
Proof.
  intros [Hr ->]%wr_inv. split; [apply length_insert|]. intros t. unfold live, rd.
  destruct (Z.leb_spec 0 t); [|destruct (Z.eqb_spec t tmp); [lia|done]].
  destruct (Z.eqb_spec t tmp) as [->|Hn].
  - rewrite list_lookup_insert_eq by lia. by rewrite orb_true_r.
  - rewrite list_lookup_insert_ne by lia. by rewrite orb_false_r.
Qed.

(** Chain the steps of a function that adds to the set. *)
Ltac adds_steps H :=
  repeat (let H1 := fresh "H" in apply bind_Ok_inv in H as (? & H1 & H));
  repeat match goal with
  | H : ?f _ ?e = Ok _, IH : forall set set', ?f set ?e = Ok set' -> _ |- _ => apply IH in H as [? ?]
  | H : ?f _ _ = Ok _, IH : forall e set set', ?f set e = Ok set' -> _ |- _ => apply IH in H as [? ?]
  | H : ?f _ _ = Ok _, IH : forall set e set', ?f set e = Ok set' -> _ |- _ => apply IH in H as [? ?]
  end;
  split; [congruence|];
  let t := fresh "t" in intros t; repeat match goal with H : forall t, live _ t = _ |- _ => rewrite H; clear H end;
  cbn; by rewrite ?orb_assoc.

Lemma addUses_Expr_adds e : forall set set', addUses_Expr set e = Ok set' -> adds set set' (fun t => occurs t e).
Proof.
  induction e using IRExpr_nested_ind; cbn [addUses_Expr]; intros set set' Hs; try discriminate; eauto using addUses_Temp_adds.
  all: try (injection Hs as <-; apply adds_refl).
  all: try adds_steps Hs.
  revert set Hs. induction H as [|a args Ha _ IHl]; intros set Hs; [injection Hs as <-; apply adds_refl|].
  apply bind_Ok_inv in Hs as (set1 & H1 & Hs). eapply adds_trans; [by apply Ha|by apply IHl].
Qed.

Lemma addUses_opt_adds set e set' : addUses_opt set e = Ok set' -> adds set set' (fun t => occurs_opt t e).
Proof. destruct e as [e|]; cbn; intros H; [by apply addUses_Expr_adds|]. injection H as <-. apply adds_refl. Qed.

Lemma addUses_args_adds l : forall set set', add_all addUses_arg set l = Ok set' -> adds set set' (fun t => existsb (occurs t) l).
Proof.
  induction l as [|e l IH]; intros set set' H; cbn in H; [injection H as <-; apply adds_refl|].
  apply bind_Ok_inv in H as (set1 & H1 & H). eapply adds_trans; [|by apply IH].
  unfold addUses_arg in H1. destruct (is_IRExpr_VECRET_or_GSPTR e) eqn:E; [|by apply addUses_Expr_adds].
  injection H1 as <-. by destruct e; try discriminate; apply adds_refl.
Qed.

Lemma addUses_Stmt_adds st set set' : addUses_Stmt set st = Ok set' -> adds set set' (fun t => uses t st).
Proof.
  pose proof addUses_Expr_adds. pose proof addUses_opt_adds. pose proof addUses_args_adds.
  destruct st; cbn [addUses_Stmt]; intros Hs; eauto.
  all: try (injection Hs as <-; apply adds_refl).
  all: try adds_steps Hs.
  apply bind_Ok_inv in Hs as (set1 & H2 & Hs). apply bind_Ok_inv in Hs as (set2 & H3 & Hs).
  eapply adds_ext; [|eapply adds_trans; [|eapply adds_trans; [by eauto|by eauto]]].
  - intros t. cbn. rewrite orb_assoc. reflexivity.
  - case_bool_decide; [|injection H2 as <-; apply adds_refl].
    destruct (mAddr details); [by eauto|discriminate].
Qed.

(** ** Runs that agree on the temporaries in use *)

Section Agree.
Context {V W} `{M : Machine V W}.
Implicit Types (rho : gmap Z V) (w : W).

Lemma eval_agree rho rho' w e : (forall t, occurs t e = true -> rho' !! t = rho !! t) -> same_value rho rho' w e e.
Proof.
  induction e as [| | | | | | | | | |cee ty args IH| | |] using IRExpr_nested_ind; intros Ha v H.
  11: { rewrite eval_CCall in *. inv_run. erewrite eval_all_like; [done| |eassumption].
        clear -IH Ha. cbn in Ha. induction IH as [|e l He _ IHl]; constructor.
        - apply He. intros t Ht. apply Ha. cbn. by rewrite Ht.
        - apply IHl. intros t Ht. apply Ha. cbn. rewrite Ht. apply orb_true_r. }
  all: cbn in *; inv_run; repeat match goal with
    | IH : _ -> same_value _ _ _ ?e ?e, H : eval _ _ ?e = Some _ |- _ =>
        rewrite (IH ltac:(intros ? Ht; apply Ha; rewrite Ht, ?orb_true_r; done) _ H); clear IH H; cbn
    end; try done.
  - by rewrite Ha by apply Z.eqb_refl.
  - case_decide; done.
Qed.

Lemma like_agree rho rho' w st : (forall t, uses t st = true -> rho' !! t = rho !! t) -> like (same_value rho rho' w) st st.
Proof.
  intros Ha.
  assert (He : forall e, (forall t, occurs t e = true -> uses t st = true) -> same_value rho rho' w e e).
  { intros e Hu. apply eval_agree. auto. }
  assert (Ho : forall e, (forall t, occurs_opt t e = true -> uses t st = true) -> like_opt (same_value rho rho' w) e e).
  { intros [e|] Hu; cbn; [|done]. apply eval_agree. auto. }
  destruct st as [| | | | | | | | |[]| |[]| |]; constructor;
    try (first [apply He | apply Ho]; intros t Ht; cbn; rewrite Ht, ?orb_true_r; done).
  - cbn in Ha. assert (Hl : forall t, existsb (occurs t) args = true -> rho' !! t = rho !! t).
    { intros t Ht. apply Ha. by rewrite Ht, orb_true_r. }
    clear -Hl. induction args as [|e l IH]; constructor.
    + unfold like_arg. destruct (is_IRExpr_VECRET_or_GSPTR e) eqn:E; [done|]. split; [done|]. apply eval_agree.
      intros t Ht. apply Hl. cbn. by rewrite Ht.
    + apply IH. intros t Ht. apply Hl. cbn. by rewrite Ht, orb_true_r.
  - intros Hn. apply Ho. intros t Ht. cbn. by rewrite bool_decide_eq_true_2, Ht.
Qed.

(** The cleaned run has the same values in the temporaries of the set and no
    others than the source. *)
Definition agree (set : list bool) rho rho' : Prop :=
  rho' ⊆ rho /\ forall t, live set t = true -> rho' !! t = rho !! t.

Lemma agree_adds set set' f rho rho' : adds set set' f -> agree set' rho rho' ->
  agree set rho rho' /\ forall t, f t = true -> rho' !! t = rho !! t.
Proof.
  intros [_ Ha] [Hs H]. split; [split; [done|]|]; intros t Ht; apply H; rewrite Ha, Ht; [done|apply orb_true_r].
Qed.

Lemma agree_assign env set rho rho' new rho1 : agree set rho rho' -> assign_all env rho new = Some rho1 ->
  exists rho1', assign_all env rho' new = Some rho1' /\ agree set rho1 rho1'.
Proof.
  revert rho rho'. induction new as [|[t v] new IH]; intros rho rho' Hag H; cbn in H; [inv_run; by exists rho'|].
  inv_run. match goal with H : assign _ _ _ _ = _ |- _ => apply assign_inv in H as (-> & Hn & Hty) end.
  destruct Hag as [Hs Hl]. cbn. rewrite assign_new; [|by eapply lookup_weaken_None|done]. cbn.
  eapply IH; [|done]. split; [by apply insert_mono|]. intros t' Ht'.
  destruct (decide (t = t')) as [->|]; [by rewrite !lookup_insert_eq|]. rewrite !lookup_insert_ne by done. by apply Hl.
Qed.

Lemma agree_drop set rho rho' t v : agree set rho rho' -> rho !! t = None -> live set t = false ->
  agree set (<[t := v]> rho) rho'.
Proof.
  intros [Hs Hl] Hn Hd. split; [etrans; [exact Hs|by apply insert_subseteq]|]. intros t' Ht'.
  rewrite lookup_insert_ne; [by apply Hl|]. intros ->. congruence.
Qed.

(** What the two runs come to. *)
Definition ends_agree (set : list bool) (r r' : after (V := V) (W := W)) : Prop :=
  match r, r' with
  | Goes_on rho w, Goes_on rho' w' => w' = w /\ agree set rho rho'
  | Leaves w v jk, Leaves w' v' jk' => w' = w /\ v' = v /\ jk' = jk
  | _, _ => False
  end.

(** A statement that stays. *)
Lemma run_kept env set set' rho rho' w st r : adds set set' (fun t => uses t st) -> agree set' rho rho' ->
  run_stmt env rho w st = Some r -> exists r', run_stmt env rho' w st = Some r' /\ ends_agree set r r'.
Proof.
  intros Had [Hag Hu]%(agree_adds _ _ _ _ _ Had) Hr. unfold run_stmt in *. inv_run.
  match goal with H : acts _ _ _ _ = Some ?y, H' : context [let '(_, _) := ?y in _] |- _ => destruct y as [[new w1] jump]; rename H into Hact end.
  inv_run. match goal with H : assign_all _ _ new = Some ?y |- _ => rename H into Hn; rename y into rho1 end.
  apply (acts_like env [] rho rho' w st st) in Hact; [|by apply like_agree]. rewrite app_nil_r in Hact. rewrite Hact. cbn.
  destruct (agree_assign env set rho rho' new rho1 Hag Hn) as (rho1' & -> & Hag'). cbn.
  destruct jump as [[v jk]|]; eexists; (split; [reflexivity|]); cbn; done.
Qed.
End Agree.

(** ** The first pass *)

(** A call that is never made has no result.  (The pass deletes such a call,
    and with it the assignment of the result.) *)
Definition no_skipped_result (st : IRStmt) : bool :=
  match st with Ist_Dirty d => negb (isZeroU1 (guard d)) || (tmp d =? IRTemp_INVALID) | _ => true end.

(** One round, backwards: a dead assignment, a call that is never made, or a
    statement that stays and whose operands are used. *)
Variant round (i : Z) (set : list bool) (ie : Z) : IRStmt -> list bool -> IRStmt -> Z -> Prop :=
| round_noop : round i set ie Ist_NoOp set Ist_NoOp ie
| round_dead t e : live set t = false -> round i set ie (Ist_WrTmp t e) set Ist_NoOp ie
| round_skipped d : isZeroU1 (guard d) = true -> round i set ie (Ist_Dirty d) set Ist_NoOp ie
| round_kept st set' ie' : adds set set' (fun t => uses t st) ->
    (forall t e, st = Ist_WrTmp t e -> live set t = true) ->
    ie' = match st with Ist_Exit g _ _ _ => if isOneU1 g then i else ie | _ => ie end ->
    round i set ie st set' st ie'.

Lemma dead_round_inv i st set ie set' st' ie' : dead_round i st set ie = Ok (set', st', ie') -> round i set ie st set' st' ie'.
Proof.
  intros H. destruct (addUses_Stmt set st) as [set1|] eqn:E; pose proof (addUses_Stmt_adds st set) as Ha.
  all: destruct st; unfold dead_round in H; try rewrite E in H; cbn [obind] in H.
  all: try (injection H as <- <- <-; constructor; [by apply Ha|done|done]).
  all: try discriminate.
  all: try (injection H as <- <- <-; constructor).
  - apply bind_Ok_inv in H as (b & Hb & H). apply bind_Ok_inv in Hb as (u & Hu & [= <-]).
    destruct u; cbn in H; injection H as <- <- <-; [|by constructor; unfold live; rewrite Hu].
    apply round_kept; [by apply Ha| |done]. intros t e [= <- <-]. unfold live. by rewrite Hu.
  - destruct (isZeroU1 (guard details)) eqn:Hz; injection H as <- <- <-; [by constructor|]. by apply round_kept; [apply Ha| |].
  - apply bind_Ok_inv in H as (b & Hb & H). apply bind_Ok_inv in Hb as (u & Hu & [= <-]).
    destruct u; cbn in H; [done|]. injection H as <- <- <-. constructor. unfold live. by rewrite Hu.
  - destruct (isZeroU1 (guard details)) eqn:Hz; [|done]. injection H as <- <- <-. by constructor.
Qed.

Lemma first_pass_cons_inv i st sts set set' out ie' : first_pass i (st :: sts) set = Ok (set', out, ie') ->
  exists set1 sts1 ie st1, first_pass (i + 1) sts set = Ok (set1, sts1, ie) /\ round i set1 ie st set' st1 ie' /\ out = st1 :: sts1.
Proof.
  cbn. intros ([[set1 sts1] ie] & H1 & ([[set2 st1] ie2] & H2 & [= <- <- <-])%bind_Ok_inv)%bind_Ok_inv.
  exists set1, sts1, ie, st1. split_and!; [done|by apply dead_round_inv|done].
Qed.

Section Runs.
Context {V W} `{M : Machine V W} `{!MachineLaws M}.

Lemma isZeroU1_false rho w e v : isZeroU1 e = true -> eval rho w e = Some v -> v_true v = false.
Proof.
  destruct e as [| | | | | | | | |c| | | |]; try done. destruct c as [b| | | | | | | | | |]; cbn; try done. intros ->%Z.eqb_eq [= <-].
  by rewrite true_const.
Qed.

Lemma isOneU1_true rho w e v : isOneU1 e = true -> eval rho w e = Some v -> v_true v = true.
Proof.
  destruct e as [| | | | | | | | |c| | | |]; try done. destruct c as [b| | | | | | | | | |]; cbn; try done. intros ->%Z.eqb_eq [= <-].
  by rewrite true_const.
Qed.

Lemma run_round env i set ie st set' st' ie' rho rho' w r : round i set ie st set' st' ie' -> no_skipped_result st = true ->
  agree set' rho rho' -> run_stmt env rho w st = Some r ->
  exists r', run_stmt env rho' w st' = Some r' /\ ends_agree set r r'.
Proof.
  intros [|t e Hd|d Hz|st1 set1 ie1 Ha _ _] Hk Hag Hr; [| | |by eapply run_kept].
  - cbn in Hr. injection Hr as <-. by exists (Goes_on rho' w).
  - exists (Goes_on rho' w). split; [done|]. unfold run_stmt in Hr. cbn in Hr.
    destruct (eval rho w e) as [v|]; [|done]. cbn in Hr. destruct (assign env rho t v) eqn:Hassign; [|done].
    cbn in Hr. inv_run. apply assign_inv in Hassign as (-> & Hn & _).
    split; [done|]. by apply agree_drop.
  - exists (Goes_on rho' w). split; [done|]. unfold run_stmt in Hr. cbn in Hk. rewrite Hz in Hk. cbn in Hr. inv_run.
    rewrite (isZeroU1_false _ _ _ _ Hz ltac:(eassumption)) in *. cbn in Hk. unfold opt_temp in *. rewrite Hk in *.
    inv_run. match goal with H : assign_all _ _ [] = _ |- _ => injection H as -> end. done.
Qed.

Lemma first_pass_run env sts : forall i set set' out ie rho rho' w r, first_pass i sts set = Ok (set', out, ie) ->
  forallb no_skipped_result sts = true -> agree set' rho rho' -> run_stmts env rho w sts = Some r ->
  exists r', run_stmts env rho' w out = Some r' /\ ends_agree set r r'.
Proof.
  induction sts as [|st sts IH]; intros i set set' out ie rho rho' w r H Hk Hag Hr.
  { injection H as <- <- <-. cbn in Hr. injection Hr as <-. by exists (Goes_on rho' w). }
  apply first_pass_cons_inv in H as (set1 & sts1 & ie1 & st1 & H1 & Hround & ->). cbn in Hk, Hr. apply andb_true_iff in Hk as [Hk1 Hk].
  apply bind_Some in Hr as (r1 & Hst & Hr).
  destruct (run_round _ _ _ _ _ _ _ _ _ _ _ _ Hround Hk1 Hag Hst) as (r1' & Hst' & He). cbn. rewrite Hst'. cbn.
  destruct r1 as [rho1 w1|w1 v jk], r1' as [rho1' w1'|w1' v' jk']; cbn in He; try done.
  - destruct He as [-> Hag1]. by eapply IH.
  - destruct He as (-> & -> & ->). injection Hr as <-. eexists. by split.
Qed.
End Runs.

(** ** The second pass *)

(** Where the unconditional exit is. *)
Lemma first_pass_exit sts : forall i set set' out ie, 0 <= i -> first_pass i sts set = Ok (set', out, ie) ->
  length out = length sts /\
  (ie = -1 \/ i <= ie /\ exists g jk dst offsIP, out !! Z.to_nat (ie - i) = Some (Ist_Exit g jk dst offsIP) /\ isOneU1 g = true).
Proof.
  induction sts as [|st sts IH]; intros i set set' out ie Hi H.
  { injection H as <- <- <-. split; [done|by left]. }
  apply first_pass_cons_inv in H as (set1 & sts1 & ie1 & st1 & H1 & Hround & ->).
  destruct (IH (i + 1) _ _ _ _ ltac:(lia) H1) as [Hl Hie]. cbn. split; [lia|].
  assert (Hlater : ie1 = -1 \/ i <= ie1 /\ exists g jk dst offsIP,
    (st1 :: sts1) !! Z.to_nat (ie1 - i) = Some (Ist_Exit g jk dst offsIP) /\ isOneU1 g = true).
  { destruct Hie as [->|(Hge & g & jk & dst & o & Hat & Hg)]; [by left|right]. split; [lia|]. exists g, jk, dst, o.
    split; [|done]. replace (Z.to_nat (ie1 - i)) with (S (Z.to_nat (ie1 - (i + 1)))) by lia. exact Hat. }
  destruct Hround as [| | |st set' ie' _ _ ->]; try exact Hlater.
  destruct st; try exact Hlater. destruct (isOneU1 guard) eqn:Hg; [|exact Hlater].
  right. split; [lia|]. rewrite Z.sub_diag. cbn. by eexists _, _, _, _.
Qed.

Section SecondPass.
Context {V W} `{M : Machine V W} `{!MachineLaws M}.

Lemma run_noops env rho w (sts : list IRStmt) : run_stmts env rho w (map (fun _ => Ist_NoOp) sts) = Some (Goes_on rho w).
Proof. induction sts as [|st sts IH]; [done|exact IH]. Qed.

Lemma run_exit env rho w g jk dst offsIP r : isOneU1 g = true -> run_stmt env rho w (Ist_Exit g jk dst offsIP) = Some r ->
  r = Leaves (w_put w offsIP (v_const dst)) (v_const dst) jk.
Proof.
  intros Hg Hr. unfold run_stmt in Hr. cbn in Hr. destruct (eval rho w g) as [v|] eqn:E; [|done].
  cbn in Hr. rewrite (isOneU1_true _ _ _ _ Hg E) in Hr. cbn in Hr. by injection Hr as <-.
Qed.

Lemma second_pass_run bb i out w r :
  (i = -1 \/ 0 <= i /\ exists g jk dst offsIP, stmts bb !! Z.to_nat i = Some (Ist_Exit g jk dst offsIP) /\ isOneU1 g = true) ->
  second_pass bb i = Ok out -> run_block bb w = Some r -> run_block out w = Some r.
Proof.
  intros [->|(Hi & g & jk & dst & o & Hat & Hg)] H Hr; unfold second_pass in H; [by injection H as <-|].
  destruct (Z.eqb_spec i (-1)); [lia|]. cbn [negb] in H. inv_ok H. rewrite (rd_Some _ _ _ Hi Hat) in H. injection H as <-.
  unfold run_block in *. cbn [tyenv stmts set_field]. unfold zap_from.
  rewrite <-(take_drop_middle _ _ _ Hat), run_stmts_app in Hr.
  cbn. rewrite run_stmts_app.
  destruct (run_stmts (tyenv bb) ∅ w (take (Z.to_nat i) (stmts bb))) as [[rho1 w1|w1 v1 jk1]|]; cbn in *; [|done|done].
  rewrite run_noops. cbn. apply bind_Some in Hr as (r1 & Hr1 & Hr). apply bind_Some in Hr1 as (r2 & Hr2 & Hr1).
  apply run_exit in Hr2 as ->; [|done]. injection Hr1 as <-. cbn in Hr. exact Hr.
Qed.
End SecondPass.

(** ** The pass returns *)

(** A computation on the set that returns, for sets of [n] elements. *)
Definition fine (n : nat) (f : list bool -> outcome (list bool)) : Prop :=
  forall set, length set = n -> exists set', f set = Ok set' /\ length set' = n.

Lemma fine_bind n f g : fine n f -> fine n g -> fine n (fun set => let* set := f set in g set).
Proof. intros Hf Hg set Hl. destruct (Hf set Hl) as (s & -> & Hs). by apply Hg. Qed.

Lemma fine_ret n : fine n Ok.
Proof. intros set Hl. by exists set. Qed.

Ltac fine := repeat first [assumption | apply fine_ret | solve [eauto] | apply fine_bind].

Lemma addUses_Expr_fine env e : well_typed env e = true -> fine (length env) (fun set => addUses_Expr set e).
Proof.
  induction e using IRExpr_nested_ind; intros Hw; pose proof (well_typed_parts _ _ Hw) as Hp; cbn in Hp; destruct_and?;
    cbn [addUses_Expr]; try done; fine.
  - intros set Hl. destruct (well_typed_type _ _ Hw) as [ty H]. cbn in H. unfold typeOfIRTemp in H. inv_ok H. inv_ok H.
    apply rd_inv in H as [Ht _]. eexists. unfold addUses_Temp. rewrite wr_in by lia. split; [done|]. by rewrite length_insert.
  - clear Hw. intros set Hl. revert set Hl. induction args as [|e l IH]; [apply fine_ret|]. intros set Hl. inversion_clear Hp. inversion_clear H.
    destruct (H2 H0 set Hl) as (set1 & -> & Hl1). cbn. by apply IH.
Qed.

Lemma addUses_Stmt_fine env st : well_typed_stmt env st = true -> fine (length env) (fun set => addUses_Stmt set st).
Proof.
  pose proof (addUses_Expr_fine env) as He. intros [_ Hw]%andb_true_iff.
  assert (Ho : forall e, well_typed_opt env e = true -> fine (length env) (fun set => addUses_opt set e)).
  { intros [e|] H; cbn in *; fine. }
  destruct st; cbn in Hw; unfold well_typed_guard in Hw; rewrite ?andb_true_iff in Hw; destruct_and?; cbn [addUses_Stmt]; fine.
  - destruct (mAddr details) as [e|]; rewrite ?andb_true_iff in *; destruct_and?.
    + case_bool_decide; fine.
    + rewrite bool_decide_eq_false_2; [fine|]. intros Hn. apply Hn.
      by match goal with H : bool_decide (_ = _) = true |- _ => apply bool_decide_eq_true in H end.
  - match goal with H : forallb _ (args details) = true |- _ => revert H end.
    generalize (args details). induction l as [|e l IH]; cbn; intros H; [fine|]. apply andb_true_iff in H as [Ha Hl]. apply fine_bind; [|auto].
    unfold addUses_arg, well_typed_arg in *. destruct (is_IRExpr_VECRET_or_GSPTR e); fine.
Qed.

Lemma dead_round_returns env i st set ie : well_typed_stmt env st = true -> length set = length env ->
  exists set' st' ie', dead_round i st set ie = Ok (set', st', ie') /\ length set' = length env.
Proof.
  intros Hw Hl. destruct (addUses_Stmt_fine env st Hw set Hl) as (set' & E & Hl').
  destruct st; unfold dead_round; try rewrite E; cbn [obind]; try (by eexists _, _, _).
  - apply andb_true_iff in Hw as [[Hr%well_typed_temp _]%andb_true_iff _].
    destruct (rd_is_ok set tmp) as (u & _ & ->); [lia|]. destruct u; by eexists _, _, _.
  - case_match; by eexists _, _, _.
Qed.

Lemma first_pass_returns env sts : forall i set, forallb (well_typed_stmt env) sts = true -> length set = length env ->
  exists set' out ie, first_pass i sts set = Ok (set', out, ie) /\ length set' = length env.
Proof.
  induction sts as [|st sts IH]; intros i set Hw Hl; [by eexists _, _, _|]. cbn in Hw. apply andb_true_iff in Hw as [Hw1 Hw].
  destruct (IH (i + 1) set Hw Hl) as (set1 & out & ie & E & Hl1). destruct (dead_round_returns env i st set1 ie Hw1 Hl1) as (set2 & st2 & ie2 & E2 & Hl2).
  exists set2, (st2 :: out), ie2. cbn. rewrite E. cbn. rewrite E2. done.
Qed.

Lemma second_pass_returns bb i :
  (i = -1 \/ 0 <= i /\ exists g jk dst offsIP, stmts bb !! Z.to_nat i = Some (Ist_Exit g jk dst offsIP) /\ isOneU1 g = true) ->
  exists out, second_pass bb i = Ok out.
Proof.
  intros [->|(Hi & g & jk & dst & o & Hat & Hg)]; unfold second_pass; [by eexists|].
  destruct (Z.eqb_spec i (-1)); [lia|]. cbn [negb]. apply lookup_lt_Some in Hat as Hlt.
  destruct (Z.leb_spec 0 i), (Z.ltb_spec i (Z.of_nat (length (stmts bb)))); try lia. cbn. rewrite (rd_Some _ _ _ Hi Hat). by eexists.
Qed.

(** ** What is left *)

(** Statements are kept or deleted, and what is assigned is used later. *)
Lemma first_pass_left sts : forall i set set' out ie, first_pass i sts set = Ok (set', out, ie) ->
  Forall2 (fun st st' => st' = st \/ st' = Ist_NoOp) sts out
  /\ (forall t, live set' t = live set t || existsb (uses t) out)
  /\ (forall k t e, out !! k = Some (Ist_WrTmp t e) -> live set t || existsb (uses t) (drop (S k) out) = true).
Proof.
  induction sts as [|st sts IH]; intros i set set' out ie H.
  { injection H as <- <- <-. split_and!; [done| |done]. intros t. by rewrite orb_false_r. }
  apply first_pass_cons_inv in H as (set1 & sts1 & ie1 & st1 & H1 & Hround & ->).
  apply IH in H1 as (HF & Hl & Hu).
  assert (Hset : (forall t, live set' t = live set1 t || uses t st1) /\ (st1 = st \/ st1 = Ist_NoOp)
    /\ forall t e, st1 = Ist_WrTmp t e -> live set1 t = true).
  { destruct Hround as [| | |st set' ie' [_ Ha] Hw _]; split_and!; try done; try (by left); try (by right); try (intros; by rewrite orb_false_r). }
  destruct Hset as (Hset & Hsame & Hw). split_and!.
  - by constructor.
  - intros t. rewrite Hset, Hl. cbn. rewrite (orb_comm (uses t st1)), orb_assoc. done.
  - intros [|k] t e Hk; cbn in *; [|by eapply Hu]. injection Hk as ->. specialize (Hw t e eq_refl). rewrite Hl in Hw. exact Hw.
Qed.

(** ** The pass *)

Definition unconditional (st : IRStmt) : bool := match st with Ist_Exit g _ _ _ => isOneU1 g | _ => false end.

Lemma first_pass_no_exit sts : forall i set set' out ie, first_pass i sts set = Ok (set', out, ie) ->
  forallb (fun st => negb (unconditional st)) sts = true -> ie = -1.
Proof.
  induction sts as [|st sts IH]; intros i set set' out ie H Hn; [by injection H as <- <- <-|].
  apply first_pass_cons_inv in H as (set1 & sts1 & ie1 & st1 & H1 & Hround & ->). cbn in Hn. apply andb_true_iff in Hn as [Hn1 Hn].
  specialize (IH _ _ _ _ _ H1 Hn) as ->. destruct Hround as [| | |st set' ie' _ _ ->]; try done.
  destruct st; try done. cbn in Hn1. by destruct (isOneU1 guard).
Qed.

Lemma do_deadcode_BB_inv sb out : do_deadcode_BB sb = Ok out ->
  exists set set' sts ie, addUses_Expr (replicate (length (tyenv sb)) false) (next sb) = Ok set
    /\ first_pass 0 (stmts sb) set = Ok (set', sts, ie) /\ second_pass (sb <| stmts := sts |>) ie = Ok out.
Proof.
  unfold do_deadcode_BB. intros (set & H1 & ([[set' sts] ie] & H2 & H)%bind_Ok_inv)%bind_Ok_inv. by exists set, set', sts, ie.
Qed.

Lemma first_pass_exit_at bb set set' sts ie : first_pass 0 (stmts bb) set = Ok (set', sts, ie) ->
  ie = -1 \/ 0 <= ie /\ exists g jk dst offsIP,
    stmts (bb <| stmts := sts |>) !! Z.to_nat ie = Some (Ist_Exit g jk dst offsIP) /\ isOneU1 g = true.
Proof. intros H. apply first_pass_exit in H as [_ H]; [|done]. rewrite Z.sub_0_r in H. exact H. Qed.

Lemma live_none n t : live (replicate n false) t = false.
Proof.
  unfold live, rd. destruct (0 <=? t); [|done]. destruct (replicate n false !! Z.to_nat t) as [b|] eqn:E; [|done].
  by apply lookup_replicate in E as [-> _].
Qed.

Lemma do_deadcode_BB_run {V W} `{!@MachineLaws V W M} sb out w r :
  do_deadcode_BB sb = Ok out -> forallb no_skipped_result (stmts sb) = true ->
  run_block sb w = Some r -> run_block out w = Some r.
Proof.
  intros (set & set' & sts & ie & Ha & H1 & H2)%do_deadcode_BB_inv Hk Hr.
  eapply second_pass_run; [by eapply first_pass_exit_at|exact H2|]. unfold run_block in *. cbn.
  apply bind_Some in Hr as (r1 & Hr1 & Hr).
  destruct (first_pass_run (tyenv sb) _ _ _ _ _ _ ∅ ∅ w r1 H1 Hk ltac:(by split) Hr1) as (r1' & -> & He). cbn.
  destruct r1 as [rho1 w1|w1 v jk], r1' as [rho1' w1'|w1' v' jk']; cbn in He, Hr |- *; try done.
  - destruct He as [-> [_ Hag]]. apply bind_Some in Hr as (v & Hv & Hr). apply addUses_Expr_adds in Ha as [_ Ha].
    rewrite (eval_agree rho1 rho1' w1 (next sb)) with (v := v); [exact Hr| |done].
    intros t Ht. apply Hag. by rewrite Ha, Ht, orb_true_r.
  - destruct He as (-> & -> & ->). exact Hr.
Qed.

Lemma do_deadcode_BB_returns sb : well_typed_block sb = true -> exists out, do_deadcode_BB sb = Ok out.
Proof.
  intros [[Hs Hn]%andb_true_iff _]%andb_true_iff. unfold do_deadcode_BB.
  destruct (addUses_Expr_fine _ _ Hn _ (length_replicate (length (tyenv sb)) false)) as (set & -> & Hl). cbn.
  destruct (first_pass_returns _ _ 0 _ Hs Hl) as (set' & sts & ie & E & _). rewrite E. cbn.
  apply second_pass_returns. by eapply first_pass_exit_at.
Qed.

(** What the pass deletes: it keeps a statement or makes it a no-op. *)
Lemma do_deadcode_BB_left sb out : do_deadcode_BB sb = Ok out ->
  tyenv out = tyenv sb /\ Forall2 (fun st st' => st' = st \/ st' = Ist_NoOp) (stmts sb) (stmts out)
  /\ (next out = next sb \/ isIRAtom (next out) = true).
Proof.
  intros (set & set' & sts & ie & Ha & H1 & H2)%do_deadcode_BB_inv. apply first_pass_left in H1 as (HF & _).
  unfold second_pass in H2. destruct (negb (ie =? -1)); [|injection H2 as <-; by split_and!; [|exact HF|left]].
  inv_ok H2. inv_ok H2. destruct a0; try discriminate. injection H2 as <-. split_and!; [done| |by right]. cbn. unfold zap_from.
  rewrite <-(take_drop (Z.to_nat ie) (stmts sb)). apply Forall2_app; [by apply Forall2_take|].
  apply Forall2_fmap_r. apply (Forall2_drop _ _ _ (Z.to_nat ie)) in HF. eapply Forall2_impl; [exact HF|]. by right.
Qed.

Lemma do_deadcode_BB_used sb out : do_deadcode_BB sb = Ok out ->
  forallb (fun st => negb (unconditional st)) (stmts sb) = true ->
  forall k t e, stmts out !! k = Some (Ist_WrTmp t e) -> occurs t (next out) || existsb (uses t) (drop (S k) (stmts out)) = true.
Proof.
  intros (set & set' & sts & ie & Ha & H1 & H2)%do_deadcode_BB_inv Hn k t e Hk.
  pose proof (first_pass_no_exit _ _ _ _ _ _ H1 Hn) as ->. injection H2 as <-.
  apply first_pass_left in H1 as (_ & _ & Hu). apply addUses_Expr_adds in Ha as [_ Ha]. cbn in *.
  specialize (Hu k t e Hk). by rewrite Ha, live_none in Hu.
Qed.

(** C15: removing dead code returns for every block that is well typed
    and does not change what the block does: a run that ends in a world, with a
    target and a kind of jump, ends so after the pass too (for calls that are
    never made because their guard is the constant 0, the block must not ask for
    a result).  It keeps each statement or makes it a no-op; and when no exit is
    unconditional, every assignment that is left is to a temporary that a later
    statement or the end of the block uses. *)
Theorem do_deadcode_BB_correct sb (Hw : well_typed_block sb = true) :
  exists out, do_deadcode_BB sb = Ok out
    /\ Forall2 (fun st st' => st' = st \/ st' = Ist_NoOp) (stmts sb) (stmts out)
    /\ (forallb (fun st => negb (unconditional st)) (stmts sb) = true -> forall k t e,
          stmts out !! k = Some (Ist_WrTmp t e) -> occurs t (next out) || existsb (uses t) (drop (S k) (stmts out)) = true)
    /\ (forallb no_skipped_result (stmts sb) = true -> forall V W (M : Machine V W), MachineLaws M ->
          forall w r, run_block sb w = Some r -> run_block out w = Some r).
Proof.
  destruct (do_deadcode_BB_returns sb Hw) as (out & E). exists out. split; [done|].
  split; [by apply do_deadcode_BB_left|]. split; [by apply do_deadcode_BB_used|].
  intros Hk V W M HM w r. by eapply do_deadcode_BB_run.
Qed.

(** A dead assignment, and an exit that is always taken. *)
Definition dead_block : IRSB :=
  mk_IRSB [Ity_I64; Ity_I64]
    [Ist_WrTmp 0 (Iex_Get 16 Ity_I64); Ist_WrTmp 1 (Iex_Get 24 Ity_I64); Ist_Put 32 (Iex_RdTmp 1);
     Ist_Exit (Iex_Const (Ico_U1 1)) Ijk_Boring (Ico_U64 4096) 184; Ist_Put 16 (Iex_RdTmp 0)]
    (Iex_RdTmp 0) Ijk_Ret 184.

Lemma do_deadcode_BB_correct_witness :
  well_typed_block dead_block = true
  /\ exists out, do_deadcode_BB dead_block = Ok out
    /\ Forall2 (fun st st' => st' = st \/ st' = Ist_NoOp) (stmts dead_block) (stmts out)
    /\ run_block dead_block (mk_W ∅ ∅ []) <> None
    /\ forall r, run_block dead_block (mk_W ∅ ∅ []) = Some r -> run_block out (mk_W ∅ ∅ []) = Some r.
Proof.
  split; [vm_compute; reflexivity|].
  destruct (do_deadcode_BB_correct dead_block ltac:(vm_compute; reflexivity)) as (out & E & HF & _ & Hr).
  exists out. split; [exact E|]. split; [exact HF|]. split; [vm_compute; discriminate|].
  intros r. exact (Hr ltac:(vm_compute; reflexivity) _ _ machine machine_laws (mk_W ∅ ∅ []) r).
Defined.

(** The pass in [do_deadcode_BB] deletes a call whose guard is 0 although its
    result is used: the temporary, which should hold 0x555..., is read without
    ever being assigned. *)
Definition skipped_block : IRSB :=
  mk_IRSB [Ity_I64]
    [Ist_Dirty (mk_IRDirty (mk_IRCallee 0 "helper" "helper" 0) (Iex_Const (Ico_U1 0)) [] 0 Ifx_None None 0 []);
     Ist_Put 16 (Iex_RdTmp 0)]
    (Iex_Const (Ico_U64 4096)) Ijk_Boring 184.

Example skipped_result_unassigned :
  sanityCheckIRSB skipped_block true Ity_I64 = Ok tt
  /\ (run_block skipped_block (mk_W ∅ ∅ []) <> None)
  /\ exists out, do_deadcode_BB skipped_block = Ok out /\ run_block out (mk_W ∅ ∅ []) = None
     /\ sanityCheckIRSB out true Ity_I64 = Err Panic.
Proof.
  split_and!; [vm_compute; reflexivity|vm_compute; done|].
  exists (match do_deadcode_BB skipped_block with Ok out => out | Err _ => skipped_block end). split_and!; vm_compute; reflexivity.
Qed.
