(* ===== verification/GetPut.v ===== *)
(** * Removal of redundant reads and writes of guest registers: VEX/priv/ir_opt.c

    The map [HashHW] from words to words, of which [slots] is the part in use of
    the three arrays, [redundant_get_removal_BB] and [redundant_put_removal_BB].
    Keys are ranges of guest state; the values of the map are pointers to
    expressions, or 0. *)

From S2P Require Import Prelude Primop IR.

(** ** The map *)

Section Map.
Context {A : Type}.

Record slot := mk_slot { inuse : bool; key : Z; val : A }.
Record HashHW := mk_HashHW { slots : list slot; size : Z }.

Definition newHHW : HashHW := mk_HashHW [] 8.
Definition used (h : HashHW) : Z := Z.of_nat (length (slots h)).

Definition has_key (k : Z) (s : slot) : bool := inuse s && (key s =? k).

Fixpoint lookup_loop (l : list slot) (k : Z) : option A :=
  match l with [] => None | s :: l => if has_key k s then Some (val s) else lookup_loop l k end.
Definition lookupHHW (h : HashHW) (k : Z) : option A := lookup_loop (slots h) k.

(** The existing binding replaced, if there is one. *)
Fixpoint replace_loop (l : list slot) (k : Z) (v : A) : option (list slot) :=
  match l with
  | [] => None
  | s :: l =>
      if has_key k s then Some (mk_slot (inuse s) (key s) v :: l)
      else match replace_loop l k v with Some l => Some (s :: l) | None => None end
  end.

(** The copy into arrays twice the size, without the slots that are not in use. *)
Definition doubled (h : HashHW) : HashHW := mk_HashHW (List.filter inuse (slots h)) (size h * 2).

Definition addToHHW (h : HashHW) (k : Z) (v : A) : outcome HashHW :=
  match replace_loop (slots h) k v with
  | Some l => Ok (mk_HashHW l (size h))
  | None =>
      let h := if used h =? size h then doubled h else h in
      let* _ := assert_that (used h <? size h) in
      Ok (mk_HashHW (slots h ++ [mk_slot true k v]) (size h))
  end.

(** [for (j = 0; j < env->used; j++) env->inuse[j] = False]. *)
Definition forget (s : slot) : slot := mk_slot false (key s) (val s).
Definition forget_all (h : HashHW) : HashHW := mk_HashHW (map forget (slots h)) (size h).
End Map.
Arguments slot : clear implicits.
Arguments HashHW : clear implicits.

(** ** Ranges of guest state *)

(** [(x & ~0xFFFF) == 0]. *)
Definition fits16 (x : Z) : bool := Z.land x 0xFFFF0000 =? 0.

Definition getArrayBounds (descr : IRRegArray) : outcome (Z * Z) :=
  let minoff := u32 (ra_base descr) in
  let* n := sizeofIRType (elemTy descr) in
  let* _ := defined_when ((- 2 ^ 31 <=? ra_nElems descr * n) && (ra_nElems descr * n <? 2 ^ 31)) in
  let maxoff := u32 (u32 (minoff + u32 (ra_nElems descr * n)) - 1) in
  let* _ := assert_that (fits16 minoff) in
  let* _ := assert_that (fits16 maxoff) in
  let* _ := assert_that (minoff <=? maxoff) in
  Ok (minoff, maxoff).

Definition mk_key_GetPut (offset : Z) (ty : IRType) : outcome Z :=
  let minoff := u32 offset in
  let* n := sizeofIRType ty in
  let maxoff := u32 (u32 (minoff + n) - 1) in
  let* _ := assert_that (fits16 minoff) in
  let* _ := assert_that (fits16 maxoff) in
  Ok (Z.lor (u32 (Z.shiftl minoff 16)) maxoff).

Definition mk_key_GetIPutI (descr : IRRegArray) : outcome Z :=
  let* (minoff, maxoff) := getArrayBounds descr in
  let* _ := assert_that (fits16 minoff) in
  let* _ := assert_that (fits16 maxoff) in
  Ok (Z.lor (u32 (Z.shiftl minoff 16)) maxoff).

(** The ends of the range of a key. *)
Definition key_lo (k : Z) : Z := Z.land (Z.shiftr (u32 k) 16) 0xFFFF.
Definition key_hi (k : Z) : Z := Z.land (u32 k) 0xFFFF.

Fixpoint invalidate_loop {A} (l : list (slot A)) (k_lo k_hi : Z) : outcome (list (slot A)) :=
  match l with
  | [] => Ok []
  | s :: l =>
      let* s :=
        if negb (inuse s) then Ok s
        else
          let e_lo := key_lo (key s) in
          let e_hi := key_hi (key s) in
          let* _ := assert_that (e_lo <=? e_hi) in
          if (e_hi <? k_lo) || (k_hi <? e_lo) then Ok s else Ok (forget s) in
      let* l := invalidate_loop l k_lo k_hi in
      Ok (s :: l)
  end.
Definition invalidateOverlaps {A} (h : HashHW A) (k_lo k_hi : Z) : outcome (HashHW A) :=
  let* _ := assert_that (k_lo <=? k_hi) in
  let* l := invalidate_loop (slots h) k_lo k_hi in
  Ok (mk_HashHW l (size h)).

(** ** Redundant reads *)

Section Gets.
Context (tyenv : IRTypeEnv).

(** [t = Get(...)]: the statement, and the map. *)
Definition get_round (env : HashHW IRExpr) (st : IRStmt) : outcome (HashHW IRExpr * IRStmt) :=
  match st with
  | Ist_WrTmp tmp (Iex_Get offset ty) =>
      let* key := mk_key_GetPut offset ty in
      match lookupHHW env key with
      | Some valE =>
          let* vty := typeOfIRExpr tyenv valE in
          Ok (env, if bool_decide (vty = ty) then Ist_WrTmp tmp valE else st)
      | None => let* env := addToHHW env key (Iex_RdTmp tmp) in Ok (env, st)
      end
  | _ => Ok (env, st)
  end.

(** Writes of guest state. *)
Definition writes_fx (d : IRDirty) : bool :=
  existsb (fun s => match fx s with Ifx_Modify | Ifx_Write => true | _ => false end) (fxState d).
Definition write_round (env : HashHW IRExpr) (st : IRStmt) : outcome (HashHW IRExpr) :=
  match st with
  | Ist_Put offset data =>
      let* ty := typeOfIRExpr tyenv data in
      let* key := mk_key_GetPut offset ty in
      let* env := invalidateOverlaps env (key_lo key) (key_hi key) in
      let* _ := assert_that (isIRAtom data) in
      addToHHW env key data
  | Ist_PutI descr _ _ _ =>
      let* key := mk_key_GetIPutI descr in invalidateOverlaps env (key_lo key) (key_hi key)
  | Ist_Dirty d => Ok (if writes_fx d then forget_all env else env)
  | _ => Ok env
  end.

Fixpoint get_removal_loop (env : HashHW IRExpr) (sts : list IRStmt) : outcome (list IRStmt) :=
  match sts with
  | [] => Ok []
  | st :: sts =>
      let* (env, st') := get_round env st in
      let* env := write_round env st in
      let* sts := get_removal_loop env sts in
      Ok (st' :: sts)
  end.
End Gets.

Definition redundant_get_removal_BB (bb : IRSB) : outcome IRSB :=
  let* sts := get_removal_loop (tyenv bb) newHHW (stmts bb) in Ok (bb <| stmts := sts |>).

(** ** Redundant writes *)

(** VEX/pub/libvex.h: when the guest state has to be up to date. *)
Inductive VexRegisterUpdates :=
| VexRegUpd_INVALID
| VexRegUpdSpAtMemAccess
| VexRegUpdUnwindregsAtMemAccess
| VexRegUpdAllregsAtMemAccess
| VexRegUpdAllregsAtEachInsn.

#[export] Instance VexRegisterUpdates_eq_dec : EqDecision VexRegisterUpdates.
Proof. solve_decision. Defined.

(** VEX/priv/guest_amd64_helpers.c, with the offsets of VEX/pub/libvex_guest_amd64.h. *)
Definition guest_RSP : Z := 48.
Definition guest_RBP : Z := 56.
Definition guest_RIP : Z := 184.
Definition guest_amd64_state_requires_precise_mem_exns (minoff maxoff : Z) (pxControl : VexRegisterUpdates) : bool :=
  let no_overlap o := (maxoff <? o) || (o + 8 - 1 <? minoff) in
  if no_overlap guest_RSP
  then if bool_decide (pxControl = VexRegUpdSpAtMemAccess) then false
       else if negb (no_overlap guest_RBP) then true
       else if negb (no_overlap guest_RIP) then true else false
  else true.

Section Puts.
Context (preciseMemExnsFn : Z -> Z -> VexRegisterUpdates -> bool) (pxControl : VexRegisterUpdates).
Context (tyenv : IRTypeEnv).

(** The entries that may not be reordered with respect to memory accesses. *)
Definition flush_slot (s : slot Z) : slot Z :=
  if inuse s && preciseMemExnsFn (key_lo (key s)) (key_hi (key s)) pxControl then forget s else s.
Definition flush_memRW (env : HashHW Z) : outcome (HashHW Z) :=
  match pxControl with
  | VexRegUpdAllregsAtMemAccess => Ok (forget_all env)
  | VexRegUpdSpAtMemAccess | VexRegUpdUnwindregsAtMemAccess => Ok (mk_HashHW (map flush_slot (slots env)) (size env))
  | VexRegUpdAllregsAtEachInsn | VexRegUpd_INVALID => Err AssertFail
  end.

Definition handle_gets_Stmt (env : HashHW Z) (st : IRStmt) : outcome (HashHW Z) :=
  let invalidate (key : Z) := invalidateOverlaps env (key_lo key) (key_hi key) in
  match st with
  | Ist_WrTmp _ e =>
      match e with
      | Iex_Get offset ty => let* key := mk_key_GetPut offset ty in invalidate key
      | Iex_GetI descr _ _ => let* key := mk_key_GetIPutI descr in invalidate key
      | Iex_Load _ _ _ => flush_memRW env
      | _ => Ok env
      end
  | Ist_AbiHint base _ nia =>
      let* _ := assert_that (isIRAtom base) in let* _ := assert_that (isIRAtom nia) in Ok (forget_all env)
  | Ist_MBE _ | Ist_Dirty _ | Ist_CAS _ | Ist_LLSC _ _ _ _ => Ok (forget_all env)
  | Ist_Store _ addr data =>
      let* _ := assert_that (isIRAtom addr) in let* _ := assert_that (isIRAtom data) in flush_memRW env
  | Ist_StoreG _ addr data guard =>
      let* _ := assert_that (isIRAtom addr) in let* _ := assert_that (isIRAtom data) in
      let* _ := assert_that (isIRAtom guard) in flush_memRW env
  | Ist_LoadG _ _ _ addr alt guard =>
      let* _ := assert_that (isIRAtom addr) in let* _ := assert_that (isIRAtom alt) in
      let* _ := assert_that (isIRAtom guard) in flush_memRW env
  | Ist_Exit guard _ _ _ => let* _ := assert_that (isIRAtom guard) in Ok env
  | Ist_Put _ data => let* _ := assert_that (isIRAtom data) in Ok env
  | Ist_PutI _ ix _ data => let* _ := assert_that (isIRAtom ix) in let* _ := assert_that (isIRAtom data) in Ok env
  | Ist_NoOp | Ist_IMark _ _ _ => Ok env
  end.

(** One statement of the scan: the set before it, and the statement. *)
Definition put_round (env : HashHW Z) (st : IRStmt) : outcome (HashHW Z * IRStmt) :=
  match st with
  | Ist_NoOp => Ok (env, st)
  | Ist_Exit _ _ _ _ => Ok (forget_all env, st)
  | Ist_Put offset data =>
      let* ty := typeOfIRExpr tyenv data in
      let* key := mk_key_GetPut offset ty in
      let* _ := assert_that (isIRAtom data) in
      match lookupHHW env key with
      | Some _ => Ok (env, Ist_NoOp)
      | None => let* env := addToHHW env key 0 in Ok (env, st)
      end
  | Ist_PutI descr ix _ data =>
      let* _ := mk_key_GetIPutI descr in
      let* _ := assert_that (isIRAtom ix) in
      let* _ := assert_that (isIRAtom data) in
      let* env := handle_gets_Stmt env st in Ok (env, st)
  | _ => let* env := handle_gets_Stmt env st in Ok (env, st)
  end.

(** From the last statement to the first. *)
Fixpoint put_removal_loop (env : HashHW Z) (sts : list IRStmt) : outcome (HashHW Z * list IRStmt) :=
  match sts with
  | [] => Ok (env, [])
  | st :: sts =>
      let* (env, sts) := put_removal_loop env sts in
      let* (env, st) := put_round env st in
      Ok (env, st :: sts)
  end.
End Puts.

Definition redundant_put_removal_BB (bb : IRSB) (preciseMemExnsFn : Z -> Z -> VexRegisterUpdates -> bool)
    (pxControl : VexRegisterUpdates) : outcome IRSB :=
  let* ty := typeOfIRExpr (tyenv bb) (next bb) in
  let* key := mk_key_GetPut (sb_offsIP bb) ty in
  let* env := addToHHW newHHW key 0 in
  let* (_, sts) := put_removal_loop preciseMemExnsFn pxControl (tyenv bb) env (stmts bb) in
  Ok (bb <| stmts := sts |>).
