(* ===== verification/GetTheory.v ===== *)
(** * Removal of redundant reads keeps what a block does

    The map holds, for ranges of the guest state, atoms of the values the ranges
    contain. *)

From stdpp Require Import gmap.
From S2P Require Import Prelude Primop IR Sanity IRSem IRRun IRTyping IRConcrete GetPut.

(** ** The map *)

Section Map.
Context {A : Type}.
Implicit Types (h : HashHW A) (P : Z -> A -> Prop).

(** The bindings in use satisfy [P]. *)
Definition bindings P h : Prop := Forall (fun s => inuse s = true -> P (key s) (val s)) (slots h).

(** There is room, or the next addition makes room. *)
Definition roomy h : Prop := used h <= size h /\ 0 < size h.

Lemma bindings_impl P Q h : (forall k v, P k v -> Q k v) -> bindings P h -> bindings Q h.
Proof. intros H Hb. apply (Forall_impl _ _ _ Hb). auto. Qed.

Lemma bindings_new P : bindings P newHHW.
Proof. constructor. Qed.

Lemma roomy_new : roomy newHHW.
Proof. done. Qed.

Lemma lookup_bindings P h k v : bindings P h -> lookupHHW h k = Some v -> P k v.
Proof.
  unfold bindings, lookupHHW. induction 1 as [|s l Hs _ IH]; cbn; [done|]. unfold has_key. destruct (inuse s); cbn; [|exact IH].
  destruct (Z.eqb_spec (key s) k) as [<-|]; [|exact IH]. intros [= <-]. by apply Hs.
Qed.

Lemma replace_bindings P l k v l' : Forall (fun s => inuse s = true -> P (key s) (val s)) l -> P k v ->
  replace_loop l k v = Some l' -> Forall (fun s => inuse s = true -> P (key s) (val s)) l' /\ length l' = length l.
Proof.
  intros Hl Hp. revert l'. induction Hl as [|s l Hs Hl IH]; intros l' H; cbn in H; [done|].
  destruct (has_key k s) eqn:E.
  - injection H as <-. split; [|done]. constructor; [|done]. cbn. intros Hi. unfold has_key in E. apply andb_true_iff in E as [_ E].
    apply Z.eqb_eq in E as ->. exact Hp.
  - destruct (replace_loop l k v) as [l1|]; [|done]. injection H as <-. destruct (IH l1 eq_refl) as [H1 H2].
    split; [by constructor|cbn; lia].
Qed.

Lemma add_bindings P h k v : bindings P h -> roomy h -> P k v ->
  exists h', addToHHW h k v = Ok h' /\ bindings P h' /\ roomy h'.
Proof.
  intros Hb Hr Hp. unfold addToHHW. destruct (replace_loop (slots h) k v) as [l|] eqn:E.
  { destruct (replace_bindings P _ _ _ _ Hb Hp E) as [H1 H2]. eexists. split; [done|]. split; [done|].
    unfold roomy, used in *. cbn. by rewrite H2. }
  set (h1 := if used h =? size h then doubled h else h).
  assert (H1 : bindings P h1 /\ used h1 < size h1 /\ 0 < size h1).
  { unfold h1, roomy in *. destruct (Z.eqb_spec (used h) (size h)) as [Heq|]; [|split; [done|lia]]. split.
    - unfold bindings, doubled. cbn. clear -Hb. unfold bindings in Hb. induction Hb as [|s l Hs _ IH]; cbn; [constructor|].
      destruct (inuse s) eqn:E; [|done]. constructor; [intros _; by apply Hs|done].
    - unfold used, doubled in *. cbn. pose proof (List.filter_length_le inuse (slots h)). lia. }
  destruct H1 as (Hb1 & Hlt & Hpos). clearbody h1. destruct (Z.ltb_spec (used h1) (size h1)); [|lia]. cbn.
  eexists. split; [done|]. split.
  - unfold bindings. cbn. apply Forall_app. split; [done|]. constructor; [|constructor]. by intros _.
  - unfold roomy, used in *. cbn. rewrite length_app. cbn. lia.
Qed.

Lemma forget_all_bindings P h : bindings P (forget_all h).
Proof. unfold bindings. cbn. apply Forall_fmap, Forall_forall. by intros s _. Qed.

Lemma roomy_forget_all h : roomy h -> roomy (forget_all h).
Proof. unfold roomy, used. cbn. by rewrite length_map. Qed.

(** Only bindings of ranges apart from the given one stay in use. *)
Lemma invalidate_bindings P h lo hi : lo <= hi -> roomy h ->
  bindings (fun k v => P k v /\ key_lo k <= key_hi k) h ->
  exists h', invalidateOverlaps h lo hi = Ok h' /\ roomy h'
    /\ bindings (fun k v => P k v /\ key_lo k <= key_hi k /\ (key_hi k < lo \/ hi < key_lo k)) h'.
Proof.
  intros Hle Hr Hb. unfold invalidateOverlaps. destruct (Z.leb_spec lo hi); [|lia]. cbn.
  assert (Hl : exists l', invalidate_loop (slots h) lo hi = Ok l' /\ length l' = length (slots h) /\
    Forall (fun s => inuse s = true -> P (key s) (val s) /\ key_lo (key s) <= key_hi (key s)
      /\ (key_hi (key s) < lo \/ hi < key_lo (key s))) l').
  { unfold bindings in Hb. induction Hb as [|s l Hs _ (l' & IH & Hlen & HF)]; cbn; [by exists []|].
    assert (Hn : exists s', (if negb (inuse s) then Ok s
        else let* _ := assert_that (key_lo (key s) <=? key_hi (key s)) in
             if (key_hi (key s) <? lo) || (hi <? key_lo (key s)) then Ok s else Ok (forget s)) = Ok s'
        /\ (inuse s' = true -> P (key s') (val s') /\ key_lo (key s') <= key_hi (key s')
              /\ (key_hi (key s') < lo \/ hi < key_lo (key s')))).
    { destruct (inuse s) eqn:E; cbn; [|exists s; split; [done|by rewrite E]]. destruct (Hs eq_refl) as [Hp Hk].
      destruct (Z.leb_spec (key_lo (key s)) (key_hi (key s))); [|lia]. cbn.
      destruct (Z.ltb_spec (key_hi (key s)) lo); cbn; [exists s; split; [done|intros _; split_and!; [done|lia|by left]]|].
      destruct (Z.ltb_spec hi (key_lo (key s))); cbn; [exists s; split; [done|intros _; split_and!; [done|lia|by right]]|].
      eexists. split; [done|]. done. }
    destruct Hn as (s' & -> & Hs'). cbn. rewrite IH. cbn. eexists. split; [done|]. split; [cbn; lia|by constructor]. }
  destruct Hl as (l' & -> & Hlen & HF). cbn. eexists. split; [done|]. split; [|exact HF].
  unfold roomy, used in *. cbn. by rewrite Hlen.
Qed.
End Map.

(** ** Keys *)

(** The key of the [n] bytes from [o] on. *)
Definition range_key (o n : Z) : Z := o * 65536 + (o + n - 1).

Lemma range_key_ends o n : 0 <= o -> 0 < n -> o + n <= 65536 ->
  key_lo (range_key o n) = o /\ key_hi (range_key o n) = o + n - 1.
Proof.
  intros Ho Hn Hs. unfold key_lo, key_hi, range_key. rewrite u32_small by lia.
  change 0xFFFF with (Z.ones 16). rewrite !Z.land_ones, Z.shiftr_div_pow2 by lia.
  change (2 ^ 16) with 65536. split.
  - rewrite Z.div_add_l, (Z.div_small (o + n - 1)), Z.add_0_r by lia. apply Z.mod_small. lia.
  - rewrite Z.add_comm, Z.mod_add by lia. apply Z.mod_small. lia.
Qed.

Lemma range_key_inj o n o' n' : 0 <= o -> 0 < n -> o + n <= 65536 -> 0 <= o' -> 0 < n' -> o' + n' <= 65536 ->
  range_key o n = range_key o' n' -> o = o' /\ n = n'.
Proof.
  intros. destruct (range_key_ends o n), (range_key_ends o' n'); try lia. rewrite H5 in *. lia.
Qed.

Lemma fits16_small x : 0 <= x < 65536 -> fits16 x = true.
Proof.
  intros Hx. unfold fits16. apply Z.eqb_eq, Z.bits_inj_0. intros k. rewrite Z.land_spec.
  destruct (Z.ltb_spec k 0); [by rewrite Z.testbit_neg_r|].
  destruct (Z.ltb_spec k 16).
  - change 0xFFFF0000 with (Z.shiftl 0xFFFF 16). rewrite Z.shiftl_spec_low by lia. apply andb_false_r.
  - rewrite (testbit_above x 16) by lia. done.
Qed.

Lemma lor_key o m : 0 <= o < 65536 -> 0 <= m < 65536 -> Z.lor (u32 (Z.shiftl o 16)) m = o * 65536 + m.
Proof.
  intros Ho Hm. rewrite u32_small by (rewrite Z.shiftl_mul_pow2 by lia; lia). by apply lor_shiftl_low; [|change (2 ^ 16) with 65536].
Qed.

(** A slice of the guest state that has a key. *)
Definition in_state (o n : Z) : Prop := 0 <= o /\ 0 < n /\ o + n <= 65536.

Lemma mk_key_GetPut_ok o ty n : sizeofIRType ty = Ok n -> in_state o n -> mk_key_GetPut o ty = Ok (range_key o n).
Proof.
  intros Hn (Ho & Hpos & Hs). unfold mk_key_GetPut. rewrite Hn. cbn. rewrite (u32_small o), (u32_small (o + n)), u32_small by lia.
  rewrite !fits16_small by lia. cbn. rewrite lor_key by lia. done.
Qed.

Lemma mk_key_GetIPutI_ok d n : sizeofIRType (elemTy d) = Ok n -> in_state (ra_base d) (ra_nElems d * n) ->
  mk_key_GetIPutI d = Ok (range_key (ra_base d) (ra_nElems d * n)).
Proof.
  intros Hn (Ho & Hpos & Hs). unfold mk_key_GetIPutI, getArrayBounds. rewrite Hn. cbn [obind].
  destruct (Z.leb_spec (- 2 ^ 31) (ra_nElems d * n)), (Z.ltb_spec (ra_nElems d * n) (2 ^ 31)); try lia. cbn [andb defined_when obind].
  rewrite (u32_small (ra_base d)), (u32_small (ra_nElems d * n)), (u32_small (ra_base d + _)), u32_small by lia.
  rewrite !fits16_small by lia. cbn [assert_that obind].
  destruct (Z.leb_spec (ra_base d) (ra_base d + ra_nElems d * n - 1)); [|lia]. cbn.
  rewrite !fits16_small by lia. cbn. by rewrite lor_key by lia.
Qed.

(** ** The pass returns *)

(** The parts of the guest state a statement names are slices of it. *)
Definition in_guest (env : IRTypeEnv) (st : IRStmt) : bool :=
  match st with
  | Ist_WrTmp tmp (Iex_Get offset ty) => slice_ok offset ty && well_typed env (Iex_RdTmp tmp)
  | Ist_Put offset data =>
      isIRAtom data && well_typed env data && match typeOfIRExpr env data with Ok ty => slice_ok offset ty | Err _ => false end
  | Ist_PutI d _ _ _ => array_ok d
  | _ => true
  end.

Lemma slice_ok_inv o ty : slice_ok o ty = true -> exists n, sizeofIRType ty = Ok n /\ in_state o n.
Proof.
  unfold slice_ok. destruct (sizeofIRType ty) as [n|] eqn:E; [|done]. intros H. zbool. exists n. split; [done|].
  apply size_of_pos in E as [_ E]. by split_and!.
Qed.

Lemma array_ok_inv env d ix b e : in_guest env (Ist_PutI d ix b e) = true ->
  exists n, sizeofIRType (elemTy d) = Ok n /\ in_state (ra_base d) (ra_nElems d * n).
Proof.
  cbn. unfold array_ok. destruct (sizeofIRType (elemTy d)) as [n|] eqn:E; [|done]. intros H. zbool. exists n. split; [done|].
  apply size_of_pos in E as [_ E]. split_and!; [done|nia|done].
Qed.

Section Pass.
Context (env : IRTypeEnv).

(** A binding: an atom with a type for a slice of the guest state. *)
Definition is_slice (k : Z) (e : IRExpr) : Prop :=
  isIRAtom e = true /\ well_typed env e = true /\ exists o n, k = range_key o n /\ in_state o n.

Lemma is_slice_key k e : is_slice k e -> key_lo k <= key_hi k.
Proof. intros (_ & _ & o & n & -> & Ho & Hn & Hs). destruct (range_key_ends o n); lia. Qed.

(** What becomes of a statement: the same, or the read of a register replaced
    by an atom of its type. *)
Definition replaced (st st' : IRStmt) : Prop :=
  st' = st \/ exists t o ty e, st = Ist_WrTmp t (Iex_Get o ty) /\ st' = Ist_WrTmp t e /\ isIRAtom e = true
    /\ well_typed env e = true /\ typeOfIRExpr env e = Ok ty.

Section Bindings.
Context (P : Z -> IRExpr -> Prop) (HP : forall k e, P k e -> is_slice k e).

Lemma get_round_ok h st : bindings P h -> roomy h -> in_guest env st = true ->
  (forall t o ty n, st = Ist_WrTmp t (Iex_Get o ty) -> sizeofIRType ty = Ok n -> in_state o n -> P (range_key o n) (Iex_RdTmp t)) ->
  exists h' st', get_round env h st = Ok (h', st') /\ bindings P h' /\ roomy h' /\
    (st' = st \/ exists t o ty n e, st = Ist_WrTmp t (Iex_Get o ty) /\ st' = Ist_WrTmp t e /\ typeOfIRExpr env e = Ok ty
       /\ sizeofIRType ty = Ok n /\ in_state o n /\ P (range_key o n) e).
Proof.
  intros Hb Hr Hg Hnew. destruct st; try (by eexists h, _; split_and!; [reflexivity|..|left]).
  destruct data; try (by eexists h, _; split_and!; [reflexivity|..|left]). cbn [in_guest] in Hg.
  apply andb_true_iff in Hg as [(n & Hn & Hs)%slice_ok_inv _]. cbn [get_round]. rewrite (mk_key_GetPut_ok _ _ _ Hn Hs). cbn [obind].
  destruct (lookupHHW h (range_key offset n)) as [e|] eqn:E.
  - pose proof (lookup_bindings _ _ _ _ Hb E) as He. destruct (HP _ _ He) as (_ & [ety Hty]%well_typed_type & _). rewrite Hty. cbn [obind].
    eexists h, _. split_and!; [reflexivity|done|done|]. case_bool_decide as Heq; [|by left]. subst. right. by eexists _, _, _, _, _.
  - destruct (add_bindings P h (range_key offset n) (Iex_RdTmp tmp)) as (h' & -> & Hb' & Hr'); [done|done|by eapply Hnew|].
    cbn. eexists h', _. split_and!; [reflexivity|done|done|by left].
Qed.

Lemma write_round_ok (Q : Z -> IRExpr -> Prop) h st : bindings P h -> roomy h -> in_guest env st = true ->
  (forall k e, P k e -> match st with
     | Ist_Put o data => forall ty n, typeOfIRExpr env data = Ok ty -> sizeofIRType ty = Ok n -> in_state o n ->
         key_hi k < o \/ o + n - 1 < key_lo k -> Q k e
     | Ist_PutI d _ _ _ => forall n, sizeofIRType (elemTy d) = Ok n -> in_state (ra_base d) (ra_nElems d * n) ->
         key_hi k < ra_base d \/ ra_base d + ra_nElems d * n - 1 < key_lo k -> Q k e
     | Ist_Dirty d => writes_fx d = false -> Q k e
     | _ => Q k e
     end) ->
  (forall o data ty n, st = Ist_Put o data -> typeOfIRExpr env data = Ok ty -> sizeofIRType ty = Ok n -> in_state o n ->
     isIRAtom data = true -> well_typed env data = true -> Q (range_key o n) data) ->
  exists h', write_round env h st = Ok h' /\ bindings Q h' /\ roomy h'.
Proof.
  intros Hb Hr Hg Hkeep Hnew.
  assert (Hsame : (forall k e, P k e -> Q k e) -> exists h', Ok h = Ok h' /\ bindings Q h' /\ roomy h').
  { intros H. exists h. split; [done|]. split; [by eapply bindings_impl|done]. }
  destruct st; try (apply Hsame; exact Hkeep).
  - cbn [in_guest] in Hg. apply andb_true_iff in Hg as [[Ha Hwt]%andb_true_iff Hg]. cbn [write_round].
    destruct (typeOfIRExpr env data) as [ty|] eqn:Hty; [|done]. apply slice_ok_inv in Hg as (n & Hn & Hs).
    cbn [obind]. rewrite (mk_key_GetPut_ok _ _ _ Hn Hs). cbn [obind]. pose proof Hs as (Ho & Hp & Hsz).
    destruct (range_key_ends offset n) as [-> ->]; try lia.
    destruct (invalidate_bindings P h offset (offset + n - 1)) as (h1 & -> & Hr1 & Hb1); [lia|done| |].
    { eapply bindings_impl; [|exact Hb]. intros k e He. split; [done|]. by eapply is_slice_key, HP. }
    cbn [obind]. rewrite Ha. cbn [assert_that obind].
    destruct (add_bindings Q h1 (range_key offset n) data) as (h2 & -> & Hb2 & Hr2); [|done|by eapply Hnew|].
    { eapply bindings_impl; [|exact Hb1]. intros k e (He & _ & Hap). by eapply (Hkeep k e). }
    by exists h2.
  - apply array_ok_inv in Hg as (n & Hn & Hs). cbn [write_round]. rewrite (mk_key_GetIPutI_ok _ _ Hn Hs). cbn [obind].
    pose proof Hs as (Ho & Hp & Hsz). destruct (range_key_ends (ra_base descr) (ra_nElems descr * n)) as [-> ->]; try lia.
    destruct (invalidate_bindings P h (ra_base descr) (ra_base descr + ra_nElems descr * n - 1)) as (h1 & -> & Hr1 & Hb1); [lia|done| |].
    { eapply bindings_impl; [|exact Hb]. intros k e He. split; [done|]. by eapply is_slice_key, HP. }
    exists h1. split; [done|]. split; [|done]. eapply bindings_impl; [|exact Hb1]. intros k e (He & _ & Hap). by eapply (Hkeep k e).
  - cbn [write_round]. destruct (writes_fx details) eqn:Hw; [|apply Hsame; intros k e He; by apply (Hkeep k e)].
    exists (forget_all h). split; [done|]. split; [apply forget_all_bindings|by apply roomy_forget_all].
Qed.
End Bindings.

Lemma get_removal_returns sts : forall h, bindings is_slice h -> roomy h -> forallb (in_guest env) sts = true ->
  exists out, get_removal_loop env h sts = Ok out /\ Forall2 replaced sts out.
Proof.
  induction sts as [|st sts IH]; intros h Hb Hr Hg; [by exists []|]. cbn in Hg. apply andb_true_iff in Hg as [Hg1 Hg].
  destruct (get_round_ok is_slice ltac:(done) h st Hb Hr Hg1) as (h1 & st1 & E1 & Hb1 & Hr1 & Hst).
  { intros t o ty n -> Hn Hs. cbn in Hg1. apply andb_true_iff in Hg1 as [_ Hw].
    split; [done|]. split; [done|]. by exists o, n. }
  destruct (write_round_ok is_slice ltac:(done) is_slice h1 st Hb1 Hr1 Hg1) as (h2 & E2 & Hb2 & Hr2).
  { intros k e He. destruct st; auto. }
  { intros o data ty n -> Hty Hn Hs Ha Hw. split; [done|]. split; [done|]. by exists o, n. }
  destruct (IH h2 Hb2 Hr2 Hg) as (out & E & HF). cbn. rewrite E1. cbn. rewrite E2. cbn. rewrite E. cbn. eexists. split; [done|].
  constructor; [|done]. destruct Hst as [->|(t & o & ty & n & e & -> & -> & Hty & _ & _ & He)]; [by left|right].
  exists t, o, ty, e. split_and!; try done; apply He.
Qed.
End Pass.

(** ** The pass keeps what a block does *)

Section Runs.
Context {V W} `{M : Machine V W} `{!MachineLaws M} (env : IRTypeEnv).
Implicit Types (rho : gmap Z V) (w : W).

(** A binding: the atom has the value the slice contains. *)
Definition holds rho w (k : Z) (e : IRExpr) : Prop :=
  is_slice env k e /\ exists o n v, k = range_key o n /\ in_state o n /\ eval rho w e = Some v
    /\ sizeofIRType (v_type v) = Ok n /\ w_get w o (v_type v) = v.

Lemma eval_atom rho w w' e : isIRAtom e = true -> eval rho w' e = eval rho w e.
Proof. by destruct e. Qed.

(** It lasts while the slice is not written. *)
Lemma holds_keep rho rho' w w' k e : rho ⊆ rho' -> holds rho w k e ->
  (forall o n ty, k = range_key o n -> in_state o n -> sizeofIRType ty = Ok n -> w_get w' o ty = w_get w o ty) ->
  holds rho' w' k e.
Proof.
  intros Hs (Hsl & o & n & v & -> & Hin & Hv & Hn & Hg) Hget. split; [done|]. exists o, n, v. split_and!; try done.
  - rewrite (eval_atom rho' w w') by apply Hsl. by eapply eval_mono.
  - by rewrite (Hget o n).
Qed.

Lemma reads_only_writes d : writes_fx d = false -> reads_only (fxState d) = true.
Proof.
  unfold writes_fx, reads_only. induction (fxState d) as [|s l IH]; [done|]. cbn. intros [H1 H2]%orb_false_iff.
  rewrite IH by done. by destruct (fx s).
Qed.

(** Statements that do not write the guest state. *)
Lemma acts_get rho w st new w' jump o ty : acts env rho w st = Some (new, w', jump) -> jump = None ->
  match st with
  | Ist_Put _ _ | Ist_PutI _ _ _ _ => True
  | Ist_Dirty d => writes_fx d = false -> w_get w' o ty = w_get w o ty
  | _ => w_get w' o ty = w_get w o ty
  end.
Proof.
  destruct st; cbn; intros H Hj; try done;
    try (match type of H with context [typeOfIRLoadGOp ?c] => destruct (typeOfIRLoadGOp c) as [[]|]; [|done] end); inv_run; simplify_eq.
  - done.
  - by rewrite get_mark.
  - by rewrite get_hint.
  - done.
  - by rewrite get_store.
  - done.
  - case_match; [by rewrite get_store|done].
  - pose proof (get_cas w (cas_end details) x x0 x1 x2 x3 o ty) as Hg. destruct (w_cas _ _ _ _ _ _ _) as [[w1 hi] lo]. cbn in Hg. by inv_run.
  - destruct x0 as [d|]; [pose proof (get_storecond w e x d o ty) as Hg|pose proof (get_loadlink w e x1 x o ty) as Hg].
    + destruct (w_storecond _ _ _ _). by inv_run.
    + destruct (w_loadlink _ _ _ _). by inv_run.
  - intros Hw%reads_only_writes. case_match eqn:Hcall. inv_run. case_match; [|by simplify_eq].
    pose proof (get_call w (cee details) x (mFx details) x0 (mSize details) (fxState details) x2 o ty Hw) as Hg.
    rewrite Hcall in Hg. exact Hg.
  - by rewrite get_fence.
  - case_match; [done|]. done.
Qed.
(** The read of a register. *)
Lemma get_run h t o ty h' st' rho w r : bindings (holds rho w) h -> roomy h ->
  in_guest env (Ist_WrTmp t (Iex_Get o ty)) = true -> typed env rho ->
  get_round env h (Ist_WrTmp t (Iex_Get o ty)) = Ok (h', st') -> run_stmt env rho w (Ist_WrTmp t (Iex_Get o ty)) = Some r ->
  run_stmt env rho w st' = Some r /\ exists rho', r = Goes_on rho' w /\ bindings (holds rho' w) h' /\ roomy h'.
Proof.
  intros Hb Hr Hg Ht E Hrun. pose proof Hrun as Hrun0. unfold run_stmt in Hrun. cbn in Hrun.
  destruct (assign env rho t (w_get w o ty)) as [rho1|] eqn:Ha; [|done]. cbn in Hrun. injection Hrun as <-.
  pose proof Ha as (Hrho & Hnone & Hty)%assign_inv. rewrite type_of_get in Hty.
  assert (Hsub : rho ⊆ rho1) by (rewrite Hrho; by apply insert_subseteq).
  assert (Hb1 : bindings (holds rho1 w) h) by (eapply bindings_impl; [|exact Hb]; intros k e He; by eapply holds_keep).
  cbn in Hg. apply andb_true_iff in Hg as [(n & Hn & Hs)%slice_ok_inv Hw].
  cbn [get_round] in E. rewrite (mk_key_GetPut_ok _ _ _ Hn Hs) in E. cbn [obind] in E.
  destruct (lookupHHW h (range_key o n)) as [e|] eqn:Hl.
  - pose proof (lookup_bindings _ _ _ _ Hb Hl) as ((Hatom & [ety Hety]%well_typed_type & _) & o' & n' & v & Hk & Hs' & Hv & Hn' & Hgv).
    rewrite Hety in E. injection E as <- <-. split; [|by exists rho1]. case_bool_decide as Heq; [|done]. subst ety.
    assert (o = o') as <- by (destruct Hs as (? & ? & ?), Hs' as (? & ? & ?); eapply (range_key_inj o n o' n'); eauto).
    rewrite (eval_type env rho w e v ty Ht Hv Hety) in Hgv. unfold run_stmt. cbn. rewrite Hv. cbn. rewrite <-Hgv, Ha. done.
  - destruct (add_bindings (holds rho1 w) h (range_key o n) (Iex_RdTmp t)) as (h1 & E1 & Hb2 & Hr2); [done|done| |].
    + split; [split; [done|]; split; [done|by exists o, n]|].
      exists o, n, (w_get w o ty). rewrite !type_of_get. split_and!; try done. cbn. rewrite Hrho. by rewrite lookup_insert_eq.
    + rewrite E1 in E. injection E as <- <-. split; [done|]. by exists rho1.
Qed.

(** The change of the map at a statement that is kept. *)
Lemma write_run h st h' rho w rho' w' : bindings (holds rho w) h -> roomy h -> in_guest env st = true -> typed env rho ->
  write_round env h st = Ok h' -> run_stmt env rho w st = Some (Goes_on rho' w') ->
  bindings (holds rho' w') h' /\ roomy h'.
Proof.
  intros Hb Hr Hg Ht E Hrun. unfold run_stmt in Hrun.
  apply bind_Some in Hrun as ([[new w1] jump] & Hact & Hrun). apply bind_Some in Hrun as (rho1 & Ha & Hrun).
  destruct jump as [[]|]; [done|]. injection Hrun as -> ->. pose proof (assign_all_sub _ _ _ _ Ha) as Hsub.
  destruct (write_round_ok env (holds rho w) (fun k e H => proj1 H) (holds rho' w') h st Hb Hr Hg) as (h2 & E2 & ? & ?);
    [| |by rewrite E in E2; injection E2 as ->].
  - intros k e He.
    assert (Hkeep : (forall o n ty, k = range_key o n -> in_state o n -> sizeofIRType ty = Ok n -> w_get w' o ty = w_get w o ty) ->
      holds rho' w' k e) by (by apply (holds_keep rho)).
    pose proof (fun o ty => acts_get _ _ _ _ _ _ o ty Hact eq_refl) as Hget.
    destruct st; try (apply Hkeep; intros o n ty _ _ _; by apply Hget).
    + intros ty n Hty Hn (Ho & Hp & Hs) Hap. apply Hkeep. intros o' n' ty' -> (Ho' & Hp' & Hs') Hn'. cbn in Hact.
      destruct (eval rho w data) as [v|] eqn:Hv; [|done]. cbn in Hact. injection Hact as <- <-.
      pose proof (eval_type env rho w data v ty Ht Hv Hty) as Hvt. destruct (range_key_ends o' n') as [E1 E2]; try lia. rewrite E1, E2 in Hap.
      eapply (get_put_apart w offset v n o' ty' n'); [by rewrite Hvt|done|unfold apart; lia].
    + intros n Hn (Ho & Hp & Hs) Hap. apply Hkeep. intros o' n' ty' -> (Ho' & Hp' & Hs') Hn'. cbn in Hact.
      destruct (eval rho w ix) as [i|]; [|done]. cbn in Hact. destruct (eval rho w data) as [v|]; [|done]. cbn in Hact.
      case_decide as Hvt; [|done]. injection Hact as <- <-. destruct (range_key_ends o' n') as [E1 E2]; try lia. rewrite E1, E2 in Hap.
      eapply get_puti; [exact Hn|exact Hn'|exact Hvt|unfold apart; lia].
    + intros Hw. apply Hkeep. intros o n ty _ _ _. by apply Hget.
  - intros o data ty n -> Hty Hn Hs Hatom Hwt. cbn in Hact. destruct (eval rho w data) as [v|] eqn:Hv; [|done]. cbn in Hact.
    injection Hact as <- <-. pose proof (eval_type env rho w data v ty Ht Hv Hty) as Hvt.
    split; [split; [done|]; split; [done|by exists o, n]|]. exists o, n, v. rewrite Hvt.
    split_and!; try done.
    + rewrite (eval_atom rho' w) by done. by eapply eval_mono.
    + rewrite <-Hvt. eapply get_put. by rewrite Hvt.
Qed.

Lemma round_run h st h1 st1 h2 rho w r : bindings (holds rho w) h -> roomy h -> in_guest env st = true -> typed env rho ->
  get_round env h st = Ok (h1, st1) -> write_round env h1 st = Ok h2 -> run_stmt env rho w st = Some r ->
  run_stmt env rho w st1 = Some r /\ forall rho' w', r = Goes_on rho' w' -> bindings (holds rho' w') h2 /\ roomy h2.
Proof.
  intros Hb Hr Hg Ht E1 E2 Hrun.
  assert (Hother : h1 = h -> st1 = st -> run_stmt env rho w st1 = Some r /\
    forall rho' w', r = Goes_on rho' w' -> bindings (holds rho' w') h2 /\ roomy h2).
  { intros -> ->. split; [done|]. intros rho' w' ->. by eapply write_run. }
  destruct st; try (by injection E1 as <- <-; apply Hother).
  destruct data; try (by injection E1 as <- <-; apply Hother).
  injection E2 as <-. destruct (get_run _ _ _ _ _ _ _ _ _ Hb Hr Hg Ht E1 Hrun) as (H1 & rho1 & -> & Hb1 & Hr1).
  split; [done|]. by intros rho' w' [= <- <-].
Qed.

Lemma get_removal_run sts : forall h out rho w r, get_removal_loop env h sts = Ok out ->
  bindings (holds rho w) h -> roomy h -> forallb (in_guest env) sts = true -> typed env rho ->
  run_stmts env rho w sts = Some r -> run_stmts env rho w out = Some r.
Proof.
  induction sts as [|st sts IH]; intros h out rho w r E Hb Hr Hg Ht Hrun; [by injection E as <-|].
  cbn in Hg. apply andb_true_iff in Hg as [Hg1 Hg]. cbn in E.
  apply bind_Ok_inv in E as ([h1 st1] & E1 & E). apply bind_Ok_inv in E as (h2 & E2 & E). apply bind_Ok_inv in E as (sts1 & E3 & [= <-]).
  cbn in Hrun. apply bind_Some in Hrun as (r1 & Hst & Hrun).
  destruct (round_run _ _ _ _ _ _ _ _ Hb Hr Hg1 Ht E1 E2 Hst) as [Hst' Hnext]. cbn. rewrite Hst'. cbn.
  destruct r1 as [rho1 w1|w1 v jk]; [|done]. destruct (Hnext rho1 w1 eq_refl) as [Hb1 Hr1].
  eapply IH; try done. by eapply run_stmt_typed.
Qed.
End Runs.

Lemma redundant_get_removal_BB_run {V W} `{!@MachineLaws V W M} sb out w r :
  redundant_get_removal_BB sb = Ok out -> forallb (in_guest (tyenv sb)) (stmts sb) = true ->
  run_block sb w = Some r -> run_block out w = Some r.
Proof.
  unfold redundant_get_removal_BB. intros (sts & E & [= <-])%bind_Ok_inv Hg Hr. unfold run_block in *. cbn.
  apply bind_Some in Hr as (r1 & Hr1 & Hr). erewrite get_removal_run; [exact Hr|exact E|apply bindings_new|apply roomy_new|done| |exact Hr1].
  apply typed_empty.
Qed.

Lemma redundant_get_removal_BB_returns sb : forallb (in_guest (tyenv sb)) (stmts sb) = true ->
  exists out, redundant_get_removal_BB sb = Ok out /\ tyenv out = tyenv sb /\ next out = next sb /\ jumpkind out = jumpkind sb
    /\ sb_offsIP out = sb_offsIP sb /\ Forall2 (replaced (tyenv sb)) (stmts sb) (stmts out).
Proof.
  intros Hg. destruct (get_removal_returns (tyenv sb) (stmts sb) newHHW) as (out & E & HF); [apply bindings_new|apply roomy_new|done|].
  unfold redundant_get_removal_BB. rewrite E. by eexists.
Qed.

(** ** Types *)

Lemma in_guest_typed env st : well_typed_stmt env st = true -> isFlatIRStmt st = Ok true -> in_guest env st = true.
Proof.
  intros [Hd Ho]%andb_true_iff Hf. destruct st; try done; cbn [in_guest operands_typed isFlatIRStmt] in *.
  - apply andb_true_iff in Ho as [-> ->]. by injection Hf as ->.
  - by apply andb_true_iff in Ho as [_ ->].
  - destruct data; try done. apply andb_true_iff in Ho as [Hw _]. apply well_typed_parts in Hw. rewrite Hw.
    cbn [defs forallb] in Hd. by apply andb_true_iff in Hd as [-> _].
Qed.

Lemma replaced_typed env st st' : replaced env st st' -> well_typed_stmt env st = true -> isFlatIRStmt st = Ok true ->
  well_typed_stmt env st' = true /\ isFlatIRStmt st' = Ok true /\ defs st' = defs st.
Proof.
  intros [->|(t & o & ty & e & -> & -> & Ha & Hw & Hty)] Hst Hf; [done|]. split_and!; [|by destruct e|done].
  unfold well_typed_stmt in *. cbn [defs operands_typed] in *. apply andb_true_iff in Hst as [-> [_ Ht]%andb_true_iff]. rewrite Hw. cbn [andb].
  destruct (typeOfIRTemp env t) as [ty'|]; [|done]. apply has_type_iff in Ht. injection Ht as ->. by apply has_type_iff.
Qed.

Lemma redundant_get_removal_BB_flat sb : flat_block sb ->
  exists out, redundant_get_removal_BB sb = Ok out /\ flat_block out /\ tyenv out = tyenv sb /\ jumpkind out = jumpkind sb
    /\ sb_offsIP out = sb_offsIP sb
    /\ forall V W (M : Machine V W), MachineLaws M -> forall w r, run_block sb w = Some r -> run_block out w = Some r.
Proof.
  intros (Hs & Hd & Hn & Ha).
  assert (Hg : forallb (in_guest (tyenv sb)) (stmts sb) = true).
  { apply forallb_forall. intros st Hin. rewrite List.Forall_forall in Hs. destruct (Hs st Hin). by apply in_guest_typed. }
  destruct (redundant_get_removal_BB_returns sb Hg) as (out & E & Ety & En & Ej & Eo & HF). exists out.
  split_and!; try done; [|intros V W M HM w r; by apply redundant_get_removal_BB_run].
  unfold flat_block. rewrite Ety, En.
  assert (Hall : Forall (flat_stmt (tyenv sb)) (stmts out) /\ all_defs (stmts out) = all_defs (stmts sb)).
  { clear -Hs HF. induction HF as [|st st' l l' Hr _ IH]; [done|]. inversion_clear Hs as [|? ? [Hw Hf] Hl].
    destruct (replaced_typed _ _ _ Hr Hw Hf) as (Hw' & Hf' & Hdf). destruct (IH Hl) as [IH1 IH2]. split; [by constructor|].
    change (defs st' ++ all_defs l' = defs st ++ all_defs l). by rewrite Hdf, IH2. }
  destruct Hall as [? ->]. done.
Qed.
