(* ===== verification/PutTheory.v ===== *)
(** * Removal of redundant writes keeps what a block does

    The set holds ranges of the guest state that are written before they are read.
    A run of the new block is one of the old, in worlds that differ in these
    ranges only; and what has to be up to date where memory is accessed is. *)

From stdpp Require Import gmap.
From S2P Require Import Prelude Primop IR Sanity IRSem IRRun IRTyping IRConcrete GetPut GetTheory.

(** ** The set *)

Section Set_.
Implicit Types (h : HashHW Z) (Q : Z -> Prop).

(** The offsets in the ranges. *)
Definition dead h (i : Z) : Prop := Exists (fun s => inuse s = true /\ key_lo (key s) <= i <= key_hi (key s)) (slots h).

Definition is_range (k : Z) : Prop := exists o n, k = range_key o n /\ in_state o n.
Definition ranges h : Prop := bindings (fun k _ => is_range k) h.

Lemma is_range_ends k : is_range k -> key_lo k <= key_hi k.
Proof. intros (o & n & -> & Ho & Hn & Hs). destruct (range_key_ends o n); lia. Qed.

Lemma dead_in Q h : (forall i, dead h i -> Q i) <-> bindings (fun k _ => forall i, key_lo k <= i <= key_hi k -> Q i) h.
Proof.
  unfold dead, bindings. rewrite Forall_forall. split.
  - intros H s Hs Hu i Hi. apply H, Exists_exists. by exists s.
  - intros H i (s & Hs & Hu & Hi)%Exists_exists. by eapply H.
Qed.

Lemma dead_self h : bindings (fun k _ => forall i, key_lo k <= i <= key_hi k -> dead h i) h.
Proof. by apply dead_in. Qed.

Lemma bindings_and {A} P P' (h : HashHW A) : bindings P h -> bindings P' h -> bindings (fun k v => P k v /\ P' k v) h.
Proof. unfold bindings. rewrite !Forall_forall. auto. Qed.

Lemma forget_all_dead h i : ~ dead (forget_all h) i.
Proof. exact (proj2 (dead_in (fun _ => False) (forget_all h)) (forget_all_bindings _ _) i). Qed.

(** A range that is found. *)
Lemma lookup_dead h k v i : lookupHHW h k = Some v -> key_lo k <= i <= key_hi k -> dead h i.
Proof. intros Hl. by apply (lookup_bindings _ _ _ _ (dead_self h) Hl). Qed.

(** One more range. *)
Lemma add_dead h k : ranges h -> roomy h -> is_range k ->
  exists h', addToHHW h k 0 = Ok h' /\ ranges h' /\ roomy h' /\ forall i, dead h' i -> dead h i \/ key_lo k <= i <= key_hi k.
Proof.
  intros Hb Hr Hk.
  destruct (add_bindings (fun k' _ => is_range k' /\ forall i, key_lo k' <= i <= key_hi k' -> dead h i \/ key_lo k <= i <= key_hi k) h k 0)
    as (h' & E & Hb' & Hr'); [|done|by split; [|right]|].
  { eapply bindings_impl; [|apply (bindings_and _ _ _ Hb (dead_self h))]. intros k' _ [H1 H2]. split; [done|]. intros i Hi. left. auto. }
  exists h'. split_and!; [done| |done|].
  - eapply bindings_impl; [|exact Hb']. by intros k' _ [? _].
  - apply dead_in. eapply bindings_impl; [|exact Hb']. by intros k' _ [_ ?].
Qed.

(** The ranges that are read are removed. *)
Lemma invalidate_dead h lo hi : ranges h -> roomy h -> lo <= hi ->
  exists h', invalidateOverlaps h lo hi = Ok h' /\ ranges h' /\ roomy h' /\ forall i, dead h' i -> dead h i /\ ~ (lo <= i <= hi).
Proof.
  intros Hb Hr Hle.
  destruct (invalidate_bindings (fun k _ => is_range k /\ forall i, key_lo k <= i <= key_hi k -> dead h i) h lo hi) as (h' & E & Hr' & Hb'); [done|done| |].
  { eapply bindings_impl; [|apply (bindings_and _ _ _ Hb (dead_self h))]. intros k _ [H1 H2]. split; [done|]. by apply is_range_ends. }
  exists h'. split_and!; [done| |done|].
  - eapply bindings_impl; [|exact Hb']. by intros k _ [[? _] _].
  - apply dead_in. eapply bindings_impl; [|exact Hb']. intros k _ ((_ & Hd) & _ & Hap) i Hi. split; [by apply Hd|lia].
Qed.

(** Entries that stay or are forgotten. *)
Lemma thin_bindings {A} P (f : slot A -> slot A) (h : HashHW A) : (forall s, f s = s \/ inuse (f s) = false) ->
  bindings P h -> bindings P (mk_HashHW (map f (slots h)) (size h)).
Proof.
  intros Hf Hb. unfold bindings in *. cbn. apply Forall_fmap. eapply Forall_impl; [exact Hb|]. intros s Hs. cbn. by destruct (Hf s) as [-> | ->].
Qed.

Lemma roomy_map {A} (f : slot A -> slot A) (h : HashHW A) : roomy h -> roomy (mk_HashHW (map f (slots h)) (size h)).
Proof. unfold roomy, used. cbn. by rewrite length_map. Qed.
End Set_.

Lemma range_key_dead o n i : in_state o n -> key_lo (range_key o n) <= i <= key_hi (range_key o n) <-> o <= i < o + n.
Proof. intros (Ho & Hn & Hs). destruct (range_key_ends o n) as [-> ->]; lia. Qed.

(** ** One statement *)

(** The offsets a statement writes for sure, and those it may read. *)
Definition slice_at (o : Z) (ty : IRType) (i : Z) : Prop := exists n, sizeofIRType ty = Ok n /\ o <= i < o + n.
Definition writes (env : IRTypeEnv) (st : IRStmt) (i : Z) : Prop :=
  match st with Ist_Put o data => exists ty, typeOfIRExpr env data = Ok ty /\ slice_at o ty i | _ => False end.
Definition reads (st : IRStmt) (i : Z) : Prop :=
  match st with
  | Ist_WrTmp _ (Iex_Get o ty) => slice_at o ty i
  | Ist_WrTmp _ (Iex_GetI d _ _) => exists n, sizeofIRType (elemTy d) = Ok n /\ ra_base d <= i < ra_base d + ra_nElems d * n
  | _ => False
  end.

(** It may read all of it, or leave the block. *)
Definition barrier (st : IRStmt) : bool :=
  match st with Ist_Exit _ _ _ _ | Ist_AbiHint _ _ _ | Ist_MBE _ | Ist_Dirty _ | Ist_CAS _ | Ist_LLSC _ _ _ _ => true | _ => false end.

(** It accesses memory. *)
Definition memRW (st : IRStmt) : bool :=
  match st with Ist_WrTmp _ (Iex_Load _ _ _) | Ist_Store _ _ _ | Ist_StoreG _ _ _ _ | Ist_LoadG _ _ _ _ _ _ => true | _ => false end.

(** An array that is read lies in the guest state. *)
Definition geti_ok (st : IRStmt) : bool := match st with Ist_WrTmp _ (Iex_GetI d _ _) => array_ok d | _ => true end.

Section Pass.
Context (preciseMemExnsFn : Z -> Z -> VexRegisterUpdates -> bool) (pxControl : VexRegisterUpdates).
Context (Hpx : pxControl <> VexRegUpd_INVALID) (Hpx2 : pxControl <> VexRegUpdAllregsAtEachInsn) (env : IRTypeEnv).

(** What the set before a statement is to the set after it. *)
Record frame (h : HashHW Z) (st : IRStmt) (h0 : HashHW Z) : Prop := {
  frame_sub i : dead h0 i -> dead h i \/ writes env st i;
  frame_reads i : dead h0 i -> ~ reads st i;
  frame_barrier i : barrier st = true -> ~ dead h0 i;
  frame_all i : memRW st = true -> pxControl = VexRegUpdAllregsAtMemAccess -> ~ dead h0 i;
  frame_precise : memRW st = true -> pxControl <> VexRegUpdAllregsAtMemAccess ->
    bindings (fun k _ => preciseMemExnsFn (key_lo k) (key_hi k) pxControl = false) h0
}.

(** The new statement: the same, or none for a write that is overwritten. *)
Definition kept (h : HashHW Z) (st st' : IRStmt) (h0 : HashHW Z) : Prop :=
  st' = st /\ frame h st h0
  \/ st' = Ist_NoOp /\ h0 = h /\ exists o data, st = Ist_Put o data /\ forall i, writes env st i -> dead h i.

Lemma flush_ok h : ranges h -> roomy h -> exists h0, flush_memRW preciseMemExnsFn pxControl h = Ok h0 /\ ranges h0 /\ roomy h0
  /\ (forall i, dead h0 i -> dead h i)
  /\ (pxControl = VexRegUpdAllregsAtMemAccess -> forall i, ~ dead h0 i)
  /\ (pxControl <> VexRegUpdAllregsAtMemAccess -> bindings (fun k _ => preciseMemExnsFn (key_lo k) (key_hi k) pxControl = false) h0).
Proof.
  intros Hb Hr.
  assert (Hflush : exists h0, Ok (mk_HashHW (map (flush_slot preciseMemExnsFn pxControl) (slots h)) (size h)) = Ok h0 /\ ranges h0 /\ roomy h0
    /\ (forall i, dead h0 i -> dead h i)
    /\ bindings (fun k _ => preciseMemExnsFn (key_lo k) (key_hi k) pxControl = false) h0).
  { assert (Hf : forall s, flush_slot preciseMemExnsFn pxControl s = s \/ inuse (flush_slot preciseMemExnsFn pxControl s) = false)
      by (intros s; unfold flush_slot; case_match; auto).
    eexists. split; [done|]. split_and!; [by apply thin_bindings|by apply roomy_map|apply dead_in, thin_bindings; [done|apply dead_self]|].
    unfold bindings. cbn. apply Forall_fmap, Forall_forall. intros s _. unfold flush_slot. cbn. destruct (inuse s) eqn:E; cbn; [|by rewrite E].
    case_match; [done|]. by rewrite E. }
  unfold flush_memRW. destruct pxControl; try done.
  1, 2: destruct Hflush as (h0 & E & H1 & H2 & H3 & H4); exists h0; by split_and!.
  eexists. split; [done|]. split_and!; [apply forget_all_bindings|by apply roomy_forget_all| |intros _ i; apply forget_all_dead|done].
  intros i Hi. by apply forget_all_dead in Hi.
Qed.

Ltac side := first [done | by intros i []].

Lemma put_round_ok h st : ranges h -> roomy h -> flat_stmt env st -> geti_ok st = true ->
  exists h0 st', put_round preciseMemExnsFn pxControl env h st = Ok (h0, st') /\ ranges h0 /\ roomy h0 /\ kept h st st' h0.
Proof.
  intros Hb Hr [[_ Ho]%andb_true_iff Hf] Hgeti.
  assert (Hsame : memRW st = false -> barrier st = false -> (forall i, ~ reads st i) ->
    exists h0 st', Ok (h, st) = Ok (h0, st') /\ ranges h0 /\ roomy h0 /\ kept h st st' h0).
  { intros Hm Hbar Hrd. exists h, st. split_and!; [done..|]. left. split; [done|]. split; [by left|auto|by rewrite Hbar|by rewrite Hm..]. }
  assert (Hforget : memRW st = false -> (forall i, ~ reads st i) ->
    exists h0 st', Ok (forget_all h, st) = Ok (h0, st') /\ ranges h0 /\ roomy h0 /\ kept h st st' h0).
  { intros Hm Hrd. exists (forget_all h), st. split_and!; [done|apply forget_all_bindings|by apply roomy_forget_all|]. left. split; [done|].
    split; [by intros i ?%forget_all_dead|auto|intros i _; apply forget_all_dead|by rewrite Hm..]. }
  assert (Hmem : barrier st = false -> (forall i, ~ reads st i) ->
    exists h0 st', (let* h0 := flush_memRW preciseMemExnsFn pxControl h in Ok (h0, st)) = Ok (h0, st') /\ ranges h0 /\ roomy h0 /\ kept h st st' h0).
  { intros Hbar Hrd. destruct (flush_ok h Hb Hr) as (h0 & -> & Hb0 & Hr0 & Hd & Hall & Hp). exists h0, st. split_and!; [done..|]. left. split; [done|].
    split; [by left; auto|auto|by rewrite Hbar|auto|auto]. }
  assert (Hread : forall o n, in_state o n -> memRW st = false -> barrier st = false -> (forall i, reads st i -> o <= i < o + n) ->
    exists h0 st', (let* h0 := invalidateOverlaps h (key_lo (range_key o n)) (key_hi (range_key o n)) in Ok (h0, st)) = Ok (h0, st')
      /\ ranges h0 /\ roomy h0 /\ kept h st st' h0).
  { intros o n Hs Hm Hbar Hrd.
    destruct (invalidate_dead h (key_lo (range_key o n)) (key_hi (range_key o n))) as (h0 & -> & Hb0 & Hr0 & Hd); [done|done|by apply is_range_ends; exists o, n|].
    exists h0, st. split_and!; [done..|]. left. split; [done|]. split; [intros i Hi; left; by apply Hd| |by rewrite Hbar|by rewrite Hm..].
    intros i [_ Hi]%Hd ?%Hrd. apply Hi. by apply range_key_dead. }
  destruct st; cbn [put_round handle_gets_Stmt operands_typed isFlatIRStmt geti_ok] in *;
    try (injection Hf as Hf; rewrite ?andb_true_iff in Hf; destruct_and?);
    repeat match goal with H : isIRAtom _ = true |- _ => rewrite H; clear H end; cbn [assert_that obind];
    try (apply Hsame; side); try (apply Hforget; side); try (apply Hmem; side).
  - apply andb_true_iff in Ho as [Hw Hsl]. destruct (typeOfIRExpr env data) as [ty|] eqn:Hty; [|done].
    apply slice_ok_inv in Hsl as (n & Hn & Hs). cbn [obind]. rewrite (mk_key_GetPut_ok _ _ _ Hn Hs). cbn [obind assert_that].
    assert (Hwr : forall i, writes env (Ist_Put offset data) i <-> key_lo (range_key offset n) <= i <= key_hi (range_key offset n)).
    { intros i. rewrite (range_key_dead _ _ _ Hs). split; [|by exists ty; split; [|exists n]].
      intros (ty' & Hty' & n' & Hn' & Hi). rewrite Hty in Hty'. injection Hty' as <-. rewrite Hn in Hn'. by injection Hn' as <-. }
    destruct (lookupHHW h (range_key offset n)) as [v|] eqn:El.
    + exists h, Ist_NoOp. split_and!; [done..|]. right. split_and!; [done..|]. exists offset, data. split; [done|]. intros i Hi%Hwr. by eapply lookup_dead.
    + destruct (add_dead h (range_key offset n)) as (h0 & -> & Hb0 & Hr0 & Hd); [done|done|by exists offset, n|]. cbn [obind].
      exists h0, (Ist_Put offset data). split_and!; [done..|]. left. split; [done|]. split; [|auto|done..]. intros i [?|?%Hwr]%Hd; auto.
  - destruct (array_ok_inv env descr ix bias data) as (n & Hn & Hs); [by apply andb_true_iff in Ho as [_ ?]|].
    rewrite (mk_key_GetIPutI_ok _ _ Hn Hs). cbn [obind assert_that]. apply Hsame; side.
  - apply andb_true_iff in Ho as [Hw _]. apply well_typed_parts in Hw. destruct data; try (apply Hsame; side); cbn [handle_gets_Stmt].
    + apply slice_ok_inv in Hw as (n & Hn & Hs). rewrite (mk_key_GetPut_ok _ _ _ Hn Hs). cbn [obind]. apply Hread; [done..|].
      intros i (n' & Hn' & Hi). rewrite Hn in Hn'. by injection Hn' as <-.
    + destruct (array_ok_inv env descr Iex_VECRET 0 Iex_VECRET) as (n & Hn & Hs); [exact Hgeti|]. rewrite (mk_key_GetIPutI_ok _ _ Hn Hs). cbn [obind]. apply Hread; [done..|].
      intros i (n' & Hn' & Hi). rewrite Hn in Hn'. by injection Hn' as <-.
    + apply Hmem; side.
Qed.

(** The scan of a list, from the set after it to the set before it. *)
Inductive scanned (hend : HashHW Z) : list IRStmt -> HashHW Z -> list IRStmt -> Prop :=
| scanned_nil : scanned hend [] hend []
| scanned_cons st sts h out st' h0 : scanned hend sts h out -> kept h st st' h0 -> scanned hend (st :: sts) h0 (st' :: out).

Lemma put_removal_ok hend sts : ranges hend -> roomy hend -> Forall (flat_stmt env) sts -> forallb geti_ok sts = true ->
  exists h out, put_removal_loop preciseMemExnsFn pxControl env hend sts = Ok (h, out) /\ ranges h /\ roomy h /\ scanned hend sts h out.
Proof.
  intros Hb Hr Hf. induction Hf as [|st sts Hst Hf IH]; intros Hg; [exists hend, []; by split_and!; [| | |constructor]|].
  cbn in Hg. apply andb_true_iff in Hg as [Hg1 Hg]. destruct (IH Hg) as (h & out & E & Hb' & Hr' & Hs).
  destruct (put_round_ok h st Hb' Hr' Hst Hg1) as (h0 & st' & E0 & Hb0 & Hr0 & Hk). exists h0, (st' :: out). cbn. rewrite E. cbn [obind]. rewrite E0.
  split_and!; [done..|]. by econstructor.
Qed.

(** A statement in the middle, with the set before it. *)
Lemma scanned_at hend sts h out k st : scanned hend sts h out -> sts !! k = Some st ->
  exists h1 h2 st', scanned h1 (take k sts) h (take k out) /\ kept h2 st st' h1.
Proof.
  intros Hs. revert k. induction Hs as [|st0 sts h out st' h0 Hs IH Hk]; intros [|k] H; try done; cbn in *.
  - injection H as ->. exists h0, h, st'. split; [constructor|done].
  - destruct (IH k H) as (h1 & h2 & st1 & H1 & H2). exists h1, h2, st1. split; [by econstructor|done].
Qed.

Lemma scanned_removed hend sts h out : scanned hend sts h out ->
  Forall2 (fun st st' => st' = st \/ st' = Ist_NoOp /\ exists o data, st = Ist_Put o data) sts out.
Proof. induction 1 as [|st sts h out st' h0 _ IH Hk]; constructor; [|done]. destruct Hk as [[? _]|(? & _ & o & data & ? & _)]; [auto|right]. split; [done|]. by exists o, data. Qed.

(** The slices that have to be up to date where memory is accessed. *)
Definition precise (o n : Z) : Prop :=
  pxControl = VexRegUpdAllregsAtMemAccess
  \/ forall lo hi i, lo <= i <= hi -> o <= i < o + n -> preciseMemExnsFn lo hi pxControl = true.

Lemma precise_alive h2 st st' h1 o n i : kept h2 st st' h1 -> memRW st = true -> precise o n -> o <= i < o + n -> ~ dead h1 i.
Proof.
  intros [[_ Hfr]|(_ & _ & o' & data & -> & _)] Hm Hp Hi; [|done]. destruct (decide (pxControl = VexRegUpdAllregsAtMemAccess)) as [Hall|Hn].
  { by eapply frame_all. }
  destruct Hp as [?|Hp]; [done|]. intros Hd.
  assert (H : forall i, dead h1 i -> ~ (o <= i < o + n)); [|by eapply H].
  apply dead_in. eapply bindings_impl; [|eapply frame_precise; eassumption]. cbn. intros k _ Hk i' Hk' Hi'. by rewrite (Hp _ _ i' Hk' Hi') in Hk.
Qed.
End Pass.

(** ** Runs *)

Section Runs.
Context {V W} `{M : Machine V W} `{!MachineLaws M} `{!GuestFrame M} (env : IRTypeEnv).
Context (preciseMemExnsFn : Z -> Z -> VexRegisterUpdates -> bool) (pxControl : VexRegisterUpdates).
Implicit Types (rho : gmap Z V) (w : W) (D : Z -> Prop).

(** The runs go on alike, or leave alike. *)
Definition alike D (r r' : after (V := V) (W := W)) : Prop :=
  match r, r' with
  | Goes_on rho w, Goes_on rho' w' => rho' = rho /\ same_but D w w'
  | Leaves _ _ _, Leaves _ _ _ => r' = r
  | _, _ => False
  end.

Lemma alike_refl D r : alike D r r.
Proof. destruct r; [by split; [|apply same_refl]|done]. Qed.

Lemma eval_atoms rho w w' es : forallb isIRAtom es = true -> eval_all rho w es = eval_all rho w' es.
Proof.
  induction es as [|e es IH]; [done|]. cbn. intros [He Hes]%andb_true_iff. by rewrite (eval_atom rho w' w e He), (IH Hes).
Qed.

(** Outside the ranges that are read, worlds give one value. *)
Lemma eval_same D rho w w' t e : flat_rhs e -> well_typed env e = true -> geti_ok (Ist_WrTmp t e) = true ->
  (forall i, D i -> ~ reads (Ist_WrTmp t e) i) -> same_but D w w' -> eval rho w e = eval rho w' e.
Proof.
  intros Hf Hw%well_typed_parts Hg Hr Hs. unfold flat_rhs in Hf.
  destruct e; try done; cbn [isFlatIRStmt] in Hf; try injection Hf as Hf; rewrite ?andb_true_iff in Hf; destruct_and?;
    try (rewrite !eval_CCall; by rewrite (eval_atoms rho w w')); cbn [eval];
    repeat match goal with A : isIRAtom ?a = true |- _ => rewrite (eval_atom rho w w' a A); clear A end; try done.
  - apply slice_ok_inv in Hw as (n & Hn & _). by erewrite (same_get D w w' _ _ n Hn); [|intros i Hi HD; apply (Hr i HD); exists n|].
  - destruct (array_ok_inv env descr Iex_VECRET 0 Iex_VECRET Hg) as (n & Hn & _ & Hp & _). apply size_of_pos in Hn as Hn'. destruct Hn' as [_ Hpos].
    destruct (eval rho w e) as [v|]; [|done]. cbn. f_equal. eapply (same_geti D w w' descr v _ n Hn); [nia| |done].
    intros i Hi HD. apply (Hr i HD). by exists n.
  - destruct (eval rho w e0) as [v|]; [|done]. cbn. f_equal. by eapply same_load.
Qed.

(** A statement that is kept, in worlds that differ in [D0]. *)
Lemma acts_same D0 st rho w w' new w1 jump : flat_stmt env st -> geti_ok st = true -> typed env rho -> barrier st = false ->
  (forall i, D0 i -> ~ reads st i) -> same_but D0 w w' -> acts env rho w st = Some (new, w1, jump) ->
  jump = None /\ exists w1', acts env rho w' st = Some (new, w1', None) /\ same_but (fun i => D0 i /\ ~ writes env st i) w1 w1'.
Proof.
  intros [[_ Ho]%andb_true_iff Hf] Hg Ht Hb Hrd Hs Hact.
  assert (Hmore : (forall i, ~ writes env st i) -> forall w2 w2', same_but D0 w2 w2' -> same_but (fun i => D0 i /\ ~ writes env st i) w2 w2').
  { intros Hn w2 w2'. apply same_more. intros i Hi. by split. }
  destruct st; try discriminate Hb; cbn [operands_typed isFlatIRStmt] in *; try injection Hf as Hf; rewrite ?andb_true_iff in Hf; destruct_and?;
    cbn [acts] in *; try (destruct (typeOfIRLoadGOp cvt) as [[res arg]|]; [|done]);
    try match goal with A : flat_rhs _ |- _ => idtac | _ =>
      repeat match goal with A : isIRAtom ?a = true |- _ => rewrite (eval_atom rho w w' a A) end end.
  - injection Hact as <- <- <-. split; [done|]. eexists. split; [done|]. by apply Hmore; [intros i []|].
  - injection Hact as <- <- <-. split; [done|]. eexists. split; [done|]. apply Hmore; [by intros i []|]. by apply same_mark.
  - destruct (eval rho w data) as [v|] eqn:Hv; [|done]. cbn in Hact |- *. injection Hact as <- <- <-. split; [done|]. eexists. split; [done|].
    apply andb_true_iff in Ho as [_ Ho]. destruct (typeOfIRExpr env data) as [ty|] eqn:Hty; [|done]. apply slice_ok_inv in Ho as (n & Hn & _).
    pose proof (eval_type env rho w data v ty Ht Hv Hty) as Hvt. eapply same_more; [|apply same_put; [rewrite Hvt; exact Hn|exact Hs]].
    intros i [Hi Hni]. split; [done|]. intros (ty' & Hty' & n' & Hn' & Hin). injection Hty' as <-. rewrite Hn in Hn'. by injection Hn' as <-.
  - destruct (eval rho w ix) as [x|]; [|done]. destruct (eval rho w data) as [v|]; [|done]. cbn in Hact |- *. case_decide; [|done].
    injection Hact as <- <- <-. split; [done|]. eexists. split; [done|]. apply Hmore; [by intros i []|]. by apply same_puti.
  - apply andb_true_iff in Ho as [Hw _]. rewrite <-(eval_same D0 rho w w' tmp data Hf Hw Hg Hrd Hs).
    destruct (eval rho w data) as [v|]; [|done]. cbn in Hact |- *. injection Hact as <- <- <-. split; [done|]. eexists. split; [done|].
    by apply Hmore; [intros i []|].
  - destruct (eval rho w addr) as [a|]; [|done]. destruct (eval rho w data) as [v|]; [|done]. cbn in Hact |- *.
    injection Hact as <- <- <-. split; [done|]. eexists. split; [done|]. apply Hmore; [by intros i []|]. by apply same_store.
  - destruct (eval rho w addr) as [a|]; [|done]. destruct (eval rho w alt) as [d|]; [|done]. destruct (eval rho w guard) as [g|]; [|done]. cbn in Hact |- *.
    injection Hact as <- <- <-. split; [done|]. eexists. split; [by rewrite (same_load D0 w w')|]. by apply Hmore; [intros i []|].
  - destruct (eval rho w addr) as [a|]; [|done]. destruct (eval rho w data) as [v|]; [|done]. destruct (eval rho w guard) as [g|]; [|done]. cbn in Hact |- *.
    injection Hact as <- <- <-. split; [done|]. eexists. split; [done|]. apply Hmore; [by intros i []|]. destruct (v_true g); [by apply same_store|done].
Qed.

Lemma step_kept D0 D st rho w w' r : flat_stmt env st -> geti_ok st = true -> typed env rho ->
  (forall i, D0 i -> D i \/ writes env st i) -> (forall i, D0 i -> ~ reads st i) -> (forall i, barrier st = true -> ~ D0 i) ->
  same_but D0 w w' -> run_stmt env rho w st = Some r -> exists r', run_stmt env rho w' st = Some r' /\ alike D r r'.
Proof.
  intros Hst Hg Ht Hsub Hrd Hbar Hs Hr.
  destruct (barrier st) eqn:Hb. { rewrite <-(same_all D0 w w'); [exists r; split; [done|apply alike_refl]|intros i; by apply Hbar|done]. }
  unfold run_stmt in *. apply bind_Some in Hr as ([[new w1] jump] & Hact & Hr).
  destruct (acts_same D0 st rho w w' new w1 jump Hst Hg Ht Hb Hrd Hs Hact) as (-> & w1' & -> & Hs1). cbn [mbind option_bind].
  apply bind_Some in Hr as (rho1 & Ha & [= <-]). rewrite Ha. cbn. eexists. split; [done|]. split; [done|].
  eapply same_more; [|exact Hs1]. intros i [HD Hn]. by destruct (Hsub i HD).
Qed.
Lemma put_round_run h st st' h0 rho w w' r : kept preciseMemExnsFn pxControl env h st st' h0 -> flat_stmt env st -> geti_ok st = true -> typed env rho ->
  same_but (dead h0) w w' -> run_stmt env rho w st = Some r -> exists r', run_stmt env rho w' st' = Some r' /\ alike (dead h) r r'.
Proof.
  intros [[-> []]|(-> & -> & o & data & -> & Hd)] Hst Hg Ht Hs Hr.
  { by eapply (step_kept (dead h0)); [..|exact Hs|exact Hr]. }
  destruct Hst as [[_ Ho]%andb_true_iff _]. cbn [operands_typed] in Ho. apply andb_true_iff in Ho as [_ Ho].
  destruct (typeOfIRExpr env data) as [ty|] eqn:Hty; [|done]. apply slice_ok_inv in Ho as (n & Hn & _).
  unfold run_stmt in *. cbn in Hr |- *. destruct (eval rho w data) as [v|] eqn:Hv; [|done]. cbn in Hr. injection Hr as <-. eexists. split; [done|]. split; [done|].
  pose proof (eval_type env rho w data v ty Ht Hv Hty) as Hvt. eapply same_put_one; [rewrite Hvt; exact Hn| |done].
  intros i Hi. apply Hd. exists ty. split; [done|]. by exists n.
Qed.

Lemma scanned_run hend sts h out : scanned preciseMemExnsFn pxControl env hend sts h out -> Forall (flat_stmt env) sts -> forallb geti_ok sts = true ->
  forall rho w w' r, typed env rho -> same_but (dead h) w w' -> run_stmts env rho w sts = Some r ->
  exists r', run_stmts env rho w' out = Some r' /\ alike (dead hend) r r'.
Proof.
  induction 1 as [|st sts h out st' h0 Hsc IH Hk]; intros Hf Hg rho w w' r Ht Hs Hr.
  { injection Hr as <-. by eexists. }
  inversion_clear Hf as [|? ? Hst Hl]. cbn in Hg. apply andb_true_iff in Hg as [Hg1 Hg]. cbn in Hr. apply bind_Some in Hr as (r1 & Hr1 & Hr).
  destruct (put_round_run _ _ _ _ _ _ _ _ Hk Hst Hg1 Ht Hs Hr1) as (r1' & Hr1' & Ha). cbn. rewrite Hr1'. cbn.
  destruct r1 as [rho1 w1|w1 v jk], r1' as [rho1' w1'|w1' v' jk']; try done.
  - destruct Ha as [-> Hs1]. eapply (IH Hl Hg); [by eapply run_stmt_typed|exact Hs1|exact Hr].
  - injection Ha as -> -> ->. injection Hr as <-. by eexists.
Qed.
End Runs.

(** ** The pass *)

(** The arrays that are read, and the instruction pointer, lie in the first 64 KB of
    the guest state. *)
Definition state_ok (bb : IRSB) : bool :=
  forallb geti_ok (stmts bb) && match typeOfIRExpr (tyenv bb) (next bb) with Ok ty => slice_ok (sb_offsIP bb) ty | Err _ => false end.

Section Block.
Context (preciseMemExnsFn : Z -> Z -> VexRegisterUpdates -> bool) (pxControl : VexRegisterUpdates).
Context (Hpx : pxControl <> VexRegUpd_INVALID) (Hpx2 : pxControl <> VexRegUpdAllregsAtEachInsn).
Context (bb : IRSB) (Hbb : flat_block bb) (Hok : state_ok bb = true).

(** At the end, the slice of the instruction pointer is about to be written. *)
Definition end_set (h : HashHW Z) : Prop :=
  ranges h /\ roomy h /\ forall i, dead h i -> exists ty, typeOfIRExpr (tyenv bb) (next bb) = Ok ty /\ slice_at (sb_offsIP bb) ty i.

Lemma redundant_put_removal_BB_scanned : exists hend h out, redundant_put_removal_BB bb preciseMemExnsFn pxControl = Ok (bb <| stmts := out |>)
  /\ end_set hend /\ scanned preciseMemExnsFn pxControl (tyenv bb) hend (stmts bb) h out.
Proof.
  destruct Hbb as (Hs & _). unfold state_ok in Hok. apply andb_true_iff in Hok as [Hg Hip]. unfold redundant_put_removal_BB.
  destruct (typeOfIRExpr (tyenv bb) (next bb)) as [ty|] eqn:Hty; [|done]. apply slice_ok_inv in Hip as (n & Hn & Hin).
  cbn [obind]. rewrite (mk_key_GetPut_ok _ _ _ Hn Hin). cbn [obind].
  destruct (add_dead newHHW (range_key (sb_offsIP bb) n)) as (hend & E & Hb & Hr & Hd); [apply bindings_new|apply roomy_new|by exists (sb_offsIP bb), n|].
  rewrite E. cbn [obind].
  destruct (put_removal_ok preciseMemExnsFn pxControl Hpx Hpx2 (tyenv bb) hend (stmts bb) Hb Hr Hs Hg) as (h & out & E' & _ & _ & Hsc). rewrite E'. cbn [obind].
  exists hend, h, out. split; [done|]. split; [|done]. split; [done|]. split; [done|]. rewrite Hty. intros i [Hi|Hi]%Hd; [by apply Exists_nil in Hi|].
  exists ty. split; [done|]. exists n. split; [done|]. by apply range_key_dead.
Qed.

Lemma removed_flat out : Forall2 (fun st st' => st' = st \/ st' = Ist_NoOp /\ exists o data, st = Ist_Put o data) (stmts bb) out ->
  flat_block (bb <| stmts := out |>).
Proof.
  destruct bb as [env sts nx jk off]. destruct Hbb as (Hs & Hd & Hn & Ha). unfold flat_block. cbn -[all_defs] in *. intros HF.
  assert (Hall : Forall (flat_stmt env) out /\ all_defs out = all_defs sts).
  { clear -Hs HF. induction HF as [|st st' l l' Hst _ IH]; [done|]. inversion_clear Hs as [|? ? Hw Hl]. destruct (IH Hl) as [IH1 IH2].
    destruct Hst as [->|(-> & o & data & ->)]; (split; [by constructor|]); [|exact IH2].
    change (defs st ++ all_defs l' = defs st ++ all_defs l). by rewrite IH2. }
  destruct Hall as [? ->]. done.
Qed.

Context {V W} `{M : Machine V W} `{!MachineLaws M} `{!GuestFrame M}.

Lemma put_removal_run hend h out w r : end_set hend -> scanned preciseMemExnsFn pxControl (tyenv bb) hend (stmts bb) h out ->
  run_block bb w = Some r -> run_block (bb <| stmts := out |>) w = Some r.
Proof.
  intros (_ & _ & Hend) Hsc Hr. destruct Hbb as (Hs & _ & _ & Ha). pose proof Hok as Hst. unfold state_ok in Hst. apply andb_true_iff in Hst as [Hg Hip].
  unfold run_block in *. apply bind_Some in Hr as (r1 & Hr1 & Hr).
  destruct (scanned_run _ _ _ _ _ _ _ Hsc Hs Hg ∅ w w r1 (typed_empty _) (same_refl _ _) Hr1) as (r1' & Hr1' & Hal).
  cbn. rewrite Hr1'. cbn. destruct r1 as [rho1 w1|w1 v jk], r1' as [rho1' w1'|]; try done; [|by rewrite Hal].
  destruct Hal as [-> Hs1]. cbn in Hr |- *. rewrite (eval_atom rho1 w1 w1' (next bb) Ha).
  destruct (eval rho1 w1 (next bb)) as [tgt|] eqn:Ht; [|done]. cbn in Hr |- *. injection Hr as <-. do 3 f_equal. symmetry.
  pose proof (run_stmts_typed _ _ _ _ _ _ (typed_empty _) Hr1) as Hty.
  destruct (typeOfIRExpr (tyenv bb) (next bb)) as [ty|] eqn:Hnx; [|done].
  pose proof (eval_type _ rho1 w1 (next bb) tgt ty Hty Ht Hnx) as Hvt.
  apply slice_ok_inv in Hip as (n & Hn & _).
  eapply same_all; [|apply same_put; [rewrite Hvt; exact Hn|exact Hs1]]. intros i [Hd Hni]. apply Hni.
  destruct (Hend i Hd) as (ty' & [= <-] & n' & Hn' & Hi). rewrite Hn in Hn'. by injection Hn' as <-.
Qed.

Lemma put_removal_precise hend h out k st w rho w1 o ty n : scanned preciseMemExnsFn pxControl (tyenv bb) hend (stmts bb) h out ->
  stmts bb !! k = Some st -> memRW st = true -> run_stmts (tyenv bb) ∅ w (take k (stmts bb)) = Some (Goes_on rho w1) ->
  sizeofIRType ty = Ok n -> precise preciseMemExnsFn pxControl o n ->
  exists w1', run_stmts (tyenv bb) ∅ w (take k out) = Some (Goes_on rho w1') /\ w_get w1' o ty = w_get w1 o ty.
Proof.
  intros Hsc Hk Hm Hr Hn Hp. destruct Hbb as (Hs & _). unfold state_ok in Hok. apply andb_true_iff in Hok as [Hg _].
  destruct (scanned_at _ _ _ _ _ _ _ _ _ Hsc Hk) as (h1 & h2 & st' & Hsc1 & Hkept).
  destruct (scanned_run _ _ _ _ _ _ _ Hsc1 (Forall_take _ _ _ Hs)) with (rho := ∅ : gmap Z V) (w := w) (w' := w) (r := Goes_on rho w1)
    as (r' & Hr' & Hal); [|apply typed_empty|apply same_refl|exact Hr|].
  { rewrite <-(take_drop k (stmts bb)), forallb_app in Hg. by apply andb_true_iff in Hg as [? _]. }
  destruct r' as [rho' w1'|]; [|done]. destruct Hal as [-> Hsame]. exists w1'. split; [done|]. symmetry. eapply same_get; [exact Hn| |exact Hsame].
  intros i Hi. by eapply precise_alive.
Qed.
End Block.

(** ** The theorem *)

(** On amd64 the stack pointer, and when registers for unwinding are asked for
    the frame pointer and the instruction pointer. *)
Lemma amd64_precise px o : px = VexRegUpdSpAtMemAccess /\ o = guest_RSP
  \/ px = VexRegUpdUnwindregsAtMemAccess /\ (o = guest_RSP \/ o = guest_RBP \/ o = guest_RIP) \/ px = VexRegUpdAllregsAtMemAccess ->
  precise guest_amd64_state_requires_precise_mem_exns px o 8.
Proof.
  intros [[-> ->]|[[-> Ho]| ->]]; [right|right|by left]; intros lo hi i Hi Ho'.
  all: unfold guest_amd64_state_requires_precise_mem_exns, guest_RSP, guest_RBP, guest_RIP in *; cbn [bool_decide].
  all: repeat match goal with |- context [(?a <? ?b)] => destruct (Z.ltb_spec a b); cbn [orb negb] end; try done; lia.
Qed.

(** C9: the removal of redundant writes to the guest state, for a flat block that
    is well typed and reads only arrays and an instruction pointer in the first
    64 KB of the guest state.  The pass returns when registers are to be up to
    date at memory accesses only; it keeps each statement, or makes a write a
    no-op.  On any machine that obeys the laws, a run of the block that ends in a
    world is one of the new block: a write is removed only if its slice is written
    again before it is read or the block is left.  And whenever a run is about to
    access memory, the new run is too, with the same temporaries, and every slice
    that has to be precise there (all of them, or those about which
    [preciseMemExnsFn] says so of every range that meets them; on amd64 the stack
    pointer, or also the frame and instruction pointers, [amd64_precise]) contains
    what it contained. *)
Theorem redundant_put_removal_BB_correct bb preciseMemExnsFn pxControl
    (Hw : well_typed_block bb = true) (Hf : isFlatIRSB bb = Ok true) (Hok : state_ok bb = true)
    (Hpx : pxControl <> VexRegUpd_INVALID /\ pxControl <> VexRegUpdAllregsAtEachInsn) :
  exists out, redundant_put_removal_BB bb preciseMemExnsFn pxControl = Ok out
    /\ isFlatIRSB out = Ok true /\ well_typed_block out = true
    /\ Forall2 (fun st st' => st' = st \/ st' = Ist_NoOp /\ exists o data, st = Ist_Put o data) (stmts bb) (stmts out)
    /\ forall V W (M : Machine V W), MachineLaws M -> GuestFrame M ->
         (forall w r, run_block bb w = Some r -> run_block out w = Some r)
         /\ forall k st w rho w1 o ty n, stmts bb !! k = Some st -> memRW st = true ->
              run_stmts (tyenv bb) ∅ w (take k (stmts bb)) = Some (Goes_on rho w1) ->
              sizeofIRType ty = Ok n -> precise preciseMemExnsFn pxControl o n ->
              exists w1', run_stmts (tyenv out) ∅ w (take k (stmts out)) = Some (Goes_on rho w1') /\ w_get w1' o ty = w_get w1 o ty.
Proof.
  assert (Hb : flat_block bb) by (by apply flat_block_iff). destruct Hpx as [H1 H2].
  destruct (redundant_put_removal_BB_scanned preciseMemExnsFn pxControl H1 H2 bb Hb Hok) as (hend & h & out & E & Hend & Hsc).
  eexists. split; [exact E|]. pose proof (scanned_removed _ _ _ _ _ _ _ Hsc) as HF. destruct (proj1 (flat_block_iff _) (removed_flat bb Hb Hok out HF)) as [? ?].
  split_and!; [done|done|exact HF|]. intros V W M HM HG. split.
  - intros w r. by eapply put_removal_run.
  - intros k st w rho w1 o ty n. cbn. by eapply put_removal_precise.
Qed.

(** The stack pointer is moved twice around a store, [RAX] is written twice, and
    the instruction pointer is written before the end. *)
Definition put_block : IRSB :=
  mk_IRSB [Ity_I64; Ity_I64]
    [Ist_IMark 4096 4 0;
     Ist_WrTmp 0 (Iex_Get 48 Ity_I64);
     Ist_Put 48 (Iex_Const (Ico_U64 800));
     Ist_Put 16 (Iex_RdTmp 0);
     Ist_Store Iend_LE (Iex_RdTmp 0) (Iex_Const (Ico_U64 7));
     Ist_Put 48 (Iex_RdTmp 0);
     Ist_Put 16 (Iex_Const (Ico_U64 1));
     Ist_WrTmp 1 (Iex_Get 24 Ity_I64);
     Ist_Put 184 (Iex_RdTmp 1)]
    (Iex_Const (Ico_U64 4096)) Ijk_Boring 184.

Definition put_world : W := mk_W ∅ ∅ [].

Lemma redundant_put_removal_BB_correct_witness :
  exists out, redundant_put_removal_BB put_block guest_amd64_state_requires_precise_mem_exns VexRegUpdSpAtMemAccess = Ok out
    /\ isFlatIRSB out = Ok true /\ well_typed_block out = true
    /\ (run_block put_block put_world <> None /\ forall r, run_block put_block put_world = Some r -> run_block out put_world = Some r)
    /\ forall rho w1, run_stmts (tyenv put_block) ∅ put_world (take 4 (stmts put_block)) = Some (Goes_on rho w1) ->
         exists w1', run_stmts (tyenv out) ∅ put_world (take 4 (stmts out)) = Some (Goes_on rho w1') /\ w_get w1' guest_RSP Ity_I64 = w_get w1 guest_RSP Ity_I64.
Proof.
  destruct (redundant_put_removal_BB_correct put_block guest_amd64_state_requires_precise_mem_exns VexRegUpdSpAtMemAccess)
    as (out & E & Hf & Hw & _ & H); [vm_compute; reflexivity..|done|].
  exists out. split; [exact E|]. split; [exact Hf|]. split; [exact Hw|]. destruct (H _ _ machine machine_laws machine_frame) as [Hr Hp]. split.
  - split; [vm_compute; discriminate|]. intros r. exact (Hr put_world r).
  - intros rho w1 Hrun. eapply (Hp 4%nat _ put_world rho w1 guest_RSP Ity_I64 8); [vm_compute; reflexivity|reflexivity|exact Hrun|reflexivity|].
    apply amd64_precise. left. done.
Defined.

(** The first write of the stack pointer stays, those of [RAX] and of the
    instruction pointer that are overwritten do not. *)
Example put_block_removed :
  (stmts <$> match redundant_put_removal_BB put_block guest_amd64_state_requires_precise_mem_exns VexRegUpdSpAtMemAccess with Ok out => Some out | Err _ => None end)
  = Some [Ist_IMark 4096 4 0;
          Ist_WrTmp 0 (Iex_Get 48 Ity_I64);
          Ist_Put 48 (Iex_Const (Ico_U64 800));
          Ist_NoOp;
          Ist_Store Iend_LE (Iex_RdTmp 0) (Iex_Const (Ico_U64 7));
          Ist_Put 48 (Iex_RdTmp 0);
          Ist_Put 16 (Iex_Const (Ico_U64 1));
          Ist_WrTmp 1 (Iex_Get 24 Ity_I64);
          Ist_NoOp].
Proof. vm_compute. reflexivity. Qed.
