(* ===== verification/GuestArrays.v ===== *)
(** * Circular arrays of guest registers: VEX/priv/ir_opt.c

    How two accesses to the guest state may overlap, the collapsing of chains of
    [Add32] and [Sub32], and the removal of redundant [GetI]s and [PutI]s.  Each
    loop that scans backwards is a recursion over the statements before a place,
    the last first; it reads statements that the pass has not changed yet. *)

From S2P Require Import Prelude Primop IR GetPut.

(** ** Aliasing *)

Inductive GSAliasing := ExactAlias | NoAlias | UnknownAlias.

#[export] Instance GSAliasing_eq_dec : EqDecision GSAliasing.
Proof. solve_decision. Defined.

(** An array against a register. *)
Definition getAliasingRelation_IC (descr1 : IRRegArray) (ix1 : IRExpr) (offset2 : Z) (ty2 : IRType) : outcome GSAliasing :=
  let* (minoff1, maxoff1) := getArrayBounds descr1 in
  let minoff2 := u32 offset2 in
  let* n := sizeofIRType ty2 in
  let maxoff2 := u32 (u32 (minoff2 + n) - 1) in
  Ok (if (maxoff1 <? minoff2) || (maxoff2 <? minoff1) then NoAlias else UnknownAlias).

Definition eqIRRegArray (descr1 descr2 : IRRegArray) : bool :=
  (ra_base descr1 =? ra_base descr2) && bool_decide (elemTy descr1 = elemTy descr2) && (ra_nElems descr1 =? ra_nElems descr2).

(** [while (bias1 < 0 || bias2 < 0)]: [room] more rounds before the panic. *)
Fixpoint bias_loop (room : nat) (nElems bias1 bias2 : Z) : outcome (Z * Z) :=
  if (bias1 <? 0) || (bias2 <? 0) then
    let* bias1 := int_add bias1 nElems in
    let* bias2 := int_add bias2 nElems in
    match room with O => Err Panic | S room => bias_loop room nElems bias1 bias2 end
  else Ok (bias1, bias2).

(** An array against an array. *)
Definition getAliasingRelation_II (descr1 : IRRegArray) (ix1 : IRExpr) (bias1 : Z) (descr2 : IRRegArray) (ix2 : IRExpr) (bias2 : Z)
    : outcome GSAliasing :=
  let* (minoff1, maxoff1) := getArrayBounds descr1 in
  let* (minoff2, maxoff2) := getArrayBounds descr2 in
  if (maxoff1 <? minoff2) || (maxoff2 <? minoff1) then Ok NoAlias
  else if negb (eqIRRegArray descr1 descr2) then Ok UnknownAlias
  else
    let* _ := assert_that (isIRAtom ix1) in
    let* _ := assert_that (isIRAtom ix2) in
    let* same := eqIRAtom ix1 ix2 in
    if negb same then Ok UnknownAlias
    else
      let* (bias1, bias2) := bias_loop 10 (ra_nElems descr1) bias1 bias2 in
      let* _ := assert_that ((0 <=? bias1) && (0 <=? bias2)) in
      let* _ := defined_when (negb (ra_nElems descr1 =? 0)) in
      let bias1 := Z.rem bias1 (ra_nElems descr1) in
      let bias2 := Z.rem bias2 (ra_nElems descr1) in
      let* _ := assert_that ((0 <=? bias1) && (bias1 <? ra_nElems descr1)) in
      let* _ := assert_that ((0 <=? bias2) && (bias2 <? ra_nElems descr1)) in
      Ok (if bias1 =? bias2 then ExactAlias else NoAlias).

(** ** Scans *)

(** [for (i = bb->stmts_used-1; i >= 0; i--)]: a round sees the statement and those
    before it.  Statements and result are in reverse. *)
Fixpoint backwards (round : list IRStmt -> IRStmt -> outcome IRStmt) (rsts : list IRStmt) : outcome (list IRStmt) :=
  match rsts with
  | [] => Ok []
  | st :: back =>
      let* st := round back st in
      let* out := backwards round back in
      Ok (st :: out)
  end.

(** ** Chains of additions *)

(** [-x] of an [int]. *)
Definition int_neg (x : Z) : outcome Z := int_add 0 (- x).

(** [Add32(tmp,const)] or [Sub32(tmp,const)]: the temporary, and the constant as
    it is added. *)
Definition isAdd32OrSub32 (e : IRExpr) : outcome (option (Z * Z)) :=
  match e with
  | Iex_Binop op (Iex_RdTmp tmp) (Iex_Const con) =>
      if negb (op =? Iop_Add32) && negb (op =? Iop_Sub32) then Ok None
      else
        let* i32 := match con with Ico_U32 v => Ok (s32 v) | _ => Err Undefined end in
        let* i32 := if op =? Iop_Sub32 then int_neg i32 else Ok i32 in
        Ok (Some (tmp, i32))
  | _ => Ok None
  end.

(** [(var, con)] is what [tmp] is known to be; [back] are the statements before. *)
Fixpoint chain_loop (back : list IRStmt) (var con : Z) : outcome (Z * Z) :=
  match back with
  | [] => Err Panic
  | st :: back =>
      match st with
      | Ist_WrTmp tmp e =>
          if negb (tmp =? var) then chain_loop back var con
          else
            let* r := isAdd32OrSub32 e in
            match r with
            | None => Ok (var, con)
            | Some (vv, ii) => let* con := int_add con ii in chain_loop back vv con
            end
      | _ => chain_loop back var con
      end
  end.
Definition collapseChain (back : list IRStmt) (tmp : Z) : outcome (option (Z * Z)) :=
  let* (var, con) := chain_loop back tmp 0 in
  Ok (if var =? tmp then None else Some (var, con)).

(** [var2 + con2] as an expression. *)
Definition add_const (var2 con2 : Z) : outcome IRExpr :=
  if 0 <=? con2 then Ok (Iex_Binop Iop_Add32 (Iex_RdTmp var2) (Iex_Const (Ico_U32 (u32 con2))))
  else let* n := int_neg con2 in Ok (Iex_Binop Iop_Sub32 (Iex_RdTmp var2) (Iex_Const (Ico_U32 (u32 n)))).

Definition collapse_Stmt (back : list IRStmt) (st : IRStmt) : outcome IRStmt :=
  match st with
  | Ist_WrTmp tmp data =>
      let* r := isAdd32OrSub32 data in
      match r with
      | Some (var, con) =>
          let* c := collapseChain back var in
          match c with
          | Some (var2, con2) =>
              let* con2 := int_add con2 con in
              let* e := add_const var2 con2 in
              Ok (Ist_WrTmp tmp e)
          | None => Ok st
          end
      | None =>
          match data with
          | Iex_GetI descr (Iex_RdTmp t) bias =>
              let* c := collapseChain back t in
              match c with
              | Some (var2, con2) =>
                  let* con2 := int_add con2 bias in Ok (Ist_WrTmp tmp (Iex_GetI descr (Iex_RdTmp var2) con2))
              | None => Ok st
              end
          | _ => Ok st
          end
      end
  | Ist_PutI descr (Iex_RdTmp t) bias data =>
      let* c := collapseChain back t in
      match c with
      | Some (var2, con2) => let* con2 := int_add con2 bias in Ok (Ist_PutI descr (Iex_RdTmp var2) con2 data)
      | None => Ok st
      end
  | _ => Ok st
  end.

Definition collapse_AddSub_chains_BB (bb : IRSB) : outcome IRSB :=
  let* out := backwards collapse_Stmt (rev (stmts bb)) in Ok (bb <| stmts := rev out |>).

(** ** Redundant reads *)

Section Elimination.
Context (tyenv : IRTypeEnv).

(** The expression of the [PutI] that wrote what [GetI] reads. *)
Fixpoint findPutI (back : list IRStmt) (descrG : IRRegArray) (ixG : IRExpr) (biasG : Z) : outcome (option IRExpr) :=
  match back with
  | [] => Ok None
  | st :: back =>
      match st with
      | Ist_Put offset data =>
          let* ty := typeOfIRExpr tyenv data in
          let* relation := getAliasingRelation_IC descrG ixG offset ty in
          match relation with
          | NoAlias => findPutI back descrG ixG biasG
          | ExactAlias => Err AssertFail
          | UnknownAlias => Ok None
          end
      | Ist_PutI descr ix bias data =>
          let* relation := getAliasingRelation_II descrG ixG biasG descr ix bias in
          match relation with
          | NoAlias => findPutI back descrG ixG biasG
          | UnknownAlias => Ok None
          | ExactAlias => Ok (Some data)
          end
      | Ist_Dirty d => if (0 <? length (fxState d))%nat then Ok None else findPutI back descrG ixG biasG
      | _ => findPutI back descrG ixG biasG
      end
  end.

Definition geti_Stmt (back : list IRStmt) (st : IRStmt) : outcome IRStmt :=
  match st with
  | Ist_WrTmp tmp (Iex_GetI descr (Iex_RdTmp t) bias) =>
      let* replacement := findPutI back descr (Iex_RdTmp t) bias in
      match replacement with
      | Some e =>
          if isIRAtom e then
            let* ty := typeOfIRExpr tyenv e in
            Ok (if bool_decide (ty = elemTy descr) then Ist_WrTmp tmp e else st)
          else Ok st
      | None => Ok st
      end
  | _ => Ok st
  end.
(** ** Redundant writes *)

Definition identicalPutIs (pi s2 : IRStmt) : outcome bool :=
  match pi with
  | Ist_PutI descr1 ix1 bias1 _ =>
      match s2 with
      | Ist_PutI descr2 ix2 bias2 _ =>
          let* relation := getAliasingRelation_II descr1 ix1 bias1 descr2 ix2 bias2 in
          Ok (bool_decide (relation = ExactAlias))
      | _ => Ok false
      end
  | _ => Err AssertFail
  end.

Definition guestAccessWhichMightOverlapPutI (pi s2 : IRStmt) : outcome bool :=
  match pi with
  | Ist_PutI descr1 ix1 bias1 _ =>
      let* _ := getArrayBounds descr1 in
      let have_relation relation := bool_decide (relation <> NoAlias) in
      match s2 with
      | Ist_NoOp | Ist_IMark _ _ _ => Ok false
      | Ist_MBE _ | Ist_AbiHint _ _ _ => Ok true
      | Ist_CAS _ => Ok true
      | Ist_Dirty d => Ok (0 <? length (fxState d))%nat
      | Ist_Put offset data =>
          let* _ := assert_that (isIRAtom data) in
          let* ty := typeOfIRExpr tyenv data in
          let* relation := getAliasingRelation_IC descr1 ix1 offset ty in Ok (have_relation relation)
      | Ist_PutI descr2 ix2 bias2 data =>
          let* _ := assert_that (isIRAtom ix2) in
          let* _ := assert_that (isIRAtom data) in
          let* relation := getAliasingRelation_II descr1 ix1 bias1 descr2 ix2 bias2 in Ok (have_relation relation)
      | Ist_WrTmp _ data =>
          match data with
          | Iex_GetI descr2 ix2 bias2 =>
              let* relation := getAliasingRelation_II descr1 ix1 bias1 descr2 ix2 bias2 in Ok (have_relation relation)
          | Iex_Get offset ty =>
              let* relation := getAliasingRelation_IC descr1 ix1 offset ty in Ok (have_relation relation)
          | _ => Ok false
          end
      | Ist_Store _ addr data =>
          let* _ := assert_that (isIRAtom addr) in
          let* _ := assert_that (isIRAtom data) in Ok false
      | Ist_StoreG _ _ _ _ | Ist_LoadG _ _ _ _ _ _ | Ist_LLSC _ _ _ _ | Ist_Exit _ _ _ _ => Err Panic
      end
  | _ => Err AssertFail
  end.

(** Is the [PutI] [st] deleted for a statement of the list after it? *)
Fixpoint delete_loop (st : IRStmt) (sts : list IRStmt) : outcome bool :=
  match sts with
  | [] => Ok false
  | Ist_NoOp :: sts => delete_loop st sts
  | stj :: sts =>
      let* same := identicalPutIs st stj in
      if same then Ok true
      else match stj, st with
      | Ist_Exit _ _ _ _, _ => Ok false
      | _, Ist_Dirty _ => Ok false
      | _, _ =>
          let* overlap := guestAccessWhichMightOverlapPutI st stj in
          if overlap then Ok false else delete_loop st sts
      end
  end.

Fixpoint puti_loop (sts : list IRStmt) : outcome (list IRStmt) :=
  match sts with
  | [] => Ok []
  | st :: sts =>
      let* st :=
        match st with
        | Ist_PutI _ _ _ _ => let* delete := delete_loop st sts in Ok (if delete then Ist_NoOp else st)
        | _ => Ok st
        end in
      let* out := puti_loop sts in
      Ok (st :: out)
  end.
End Elimination.

Definition do_redundant_GetI_elimination (bb : IRSB) : outcome IRSB :=
  let* out := backwards (geti_Stmt (tyenv bb)) (rev (stmts bb)) in Ok (bb <| stmts := rev out |>).

Definition do_redundant_PutI_elimination (bb : IRSB) (pxControl : VexRegisterUpdates) : outcome IRSB :=
  let* _ := assert_that (bool_decide (pxControl <> VexRegUpdAllregsAtEachInsn)) in
  let* sts := puti_loop (tyenv bb) (stmts bb) in Ok (bb <| stmts := sts |>).
