(* ===== verification/GuestArraysTheory.v ===== *)
(** * The passes on circular arrays keep what a block does

    What the alias relations mean for the elements two accesses denote, and that
    collapsing chains of additions and removing redundant [GetI]s and [PutI]s keep
    the runs of a block. *)

From stdpp Require Import gmap.
From S2P Require Import Prelude Primop IR Sanity IRSem IRRun IRTyping OpSem IRConcrete GetPut GetTheory PutTheory GuestArrays.

(** ** Aliasing *)

(** A bias that ten times the length of the array makes positive. *)
Definition bias_ok (d : IRRegArray) (b : Z) : bool := (- 10 * ra_nElems d <=? b) && (b + 10 * ra_nElems d <? 2 ^ 31).

Lemma array_ok_size d : array_ok d = true ->
  exists n, sizeofIRType (elemTy d) = Ok n /\ 0 < n /\ 0 < ra_nElems d /\ 0 <= ra_base d /\ ra_base d + ra_nElems d * n <= 65536.
Proof.
  unfold array_ok. destruct (sizeofIRType (elemTy d)) as [n|] eqn:E; [|done]. intros H. zbool. exists n.
  apply size_of_pos in E as [_ E]. by split_and!.
Qed.

Lemma getArrayBounds_ok d n : array_ok d = true -> sizeofIRType (elemTy d) = Ok n ->
  getArrayBounds d = Ok (ra_base d, ra_base d + ra_nElems d * n - 1).
Proof.
  intros (n' & Hn' & Hp & Hk & Hb & Hs)%array_ok_size Hn. rewrite Hn in Hn'. injection Hn' as <-. unfold getArrayBounds. rewrite Hn. cbn [obind].
  destruct (Z.leb_spec (- 2 ^ 31) (ra_nElems d * n)), (Z.ltb_spec (ra_nElems d * n) (2 ^ 31)); try nia. cbn [andb defined_when obind].
  rewrite (u32_small (ra_base d)), (u32_small (ra_nElems d * n)), (u32_small (ra_base d + _)), u32_small by nia.
  rewrite !fits16_small by nia. cbn [assert_that obind]. destruct (Z.leb_spec (ra_base d) (ra_base d + ra_nElems d * n - 1)); [done|nia].
Qed.

(** An element lies in its array. *)
Lemma element_range d x b n : 0 < ra_nElems d -> 0 < n -> ra_base d <= element d x b n /\ element d x b n + n <= ra_base d + ra_nElems d * n.
Proof. intros Hk Hn. unfold element. pose proof (Z.mod_pos_bound (x + b) (ra_nElems d) Hk). nia. Qed.

Lemma element_congr d x b y c n : (x + b) mod ra_nElems d = (y + c) mod ra_nElems d -> element d x b n = element d y c n.
Proof. unfold element. by intros ->. Qed.

Lemma element_apart d x b c n : 0 < ra_nElems d -> 0 < n -> b mod ra_nElems d <> c mod ra_nElems d -> apart (element d x b n) n (element d x c n) n.
Proof.
  intros Hk Hn Hne. unfold element, apart.
  assert ((x + b) mod ra_nElems d <> (x + c) mod ra_nElems d); [|nia].
  intros E. apply Hne. replace b with (x + b - x) by lia. replace c with (x + c - x) by lia.
  rewrite (Zminus_mod (x + b)), (Zminus_mod (x + c)). by rewrite E.
Qed.

Lemma IC_sound d ix o ty n m rel : getAliasingRelation_IC d ix o ty = Ok rel -> array_ok d = true -> sizeofIRType (elemTy d) = Ok n ->
  sizeofIRType ty = Ok m -> in_state o m ->
  rel <> ExactAlias /\ (rel = NoAlias -> forall x b, apart (element d x b n) n o m).
Proof.
  intros H Ha Hn Hm (Ho & Hp & Hs). unfold getAliasingRelation_IC in H. rewrite (getArrayBounds_ok d n Ha Hn), Hm in H. cbn [obind] in H. injection H as <-.
  apply array_ok_size in Ha as (n' & Hn' & Hpn & Hk & Hb & Hsz). rewrite Hn in Hn'. injection Hn' as <-.
  rewrite (u32_small o), (u32_small (o + m)), u32_small by lia. split; [by case_match|]. intros Hno x b. pose proof (element_range d x b n Hk Hpn).
  unfold apart. destruct (Z.ltb_spec (ra_base d + ra_nElems d * n - 1) o), (Z.ltb_spec (o + m - 1) (ra_base d)); cbn in Hno; try lia; done.
Qed.

Lemma IC_returns d ix o ty n m : array_ok d = true -> sizeofIRType (elemTy d) = Ok n -> sizeofIRType ty = Ok m ->
  exists rel, getAliasingRelation_IC d ix o ty = Ok rel /\ rel <> ExactAlias.
Proof.
  intros Ha Hn Hm. unfold getAliasingRelation_IC. rewrite (getArrayBounds_ok d n Ha Hn), Hm. eexists. split; [done|]. by case_match.
Qed.

Lemma bias_loop_inv room : forall k b1 b2 c1 c2, bias_loop room k b1 b2 = Ok (c1, c2) ->
  0 <= c1 /\ 0 <= c2 /\ exists i, c1 = b1 + i * k /\ c2 = b2 + i * k.
Proof.
  induction room as [|room IH]; intros k b1 b2 c1 c2 H; cbn in H; (destruct (Z.ltb_spec b1 0); cbn in H; [|destruct (Z.ltb_spec b2 0); cbn in H]).
  all: try (injection H as <- <-; split_and!; [lia|lia|exists 0; lia]).
  all: apply bind_Ok_inv in H as (b1' & E1 & H); apply bind_Ok_inv in H as (b2' & E2 & H); try done.
  all: unfold int_add in E1, E2; case_match; try done; case_match; try done; injection E1 as <-; injection E2 as <-.
  all: destruct (IH _ _ _ _ _ H) as (? & ? & i & -> & ->); split_and!; [done|done|exists (i + 1); lia].
Qed.

Lemma bias_loop_returns k : 0 < k -> forall room b1 b2, - Z.of_nat room * k <= b1 -> - Z.of_nat room * k <= b2 ->
  - 2 ^ 31 <= b1 -> - 2 ^ 31 <= b2 -> b1 + Z.of_nat room * k < 2 ^ 31 -> b2 + Z.of_nat room * k < 2 ^ 31 ->
  exists c1 c2, bias_loop room k b1 b2 = Ok (c1, c2).
Proof.
  intros Hk. induction room as [|room IH]; intros b1 b2 H1 H2 L1 L2 U1 U2; cbn [bias_loop];
    destruct (Z.ltb_spec b1 0), (Z.ltb_spec b2 0); cbn [orb]; try lia; try (by eexists _, _).
  all: rewrite !int_add_ok by nia; cbn [obind]; apply IH; nia.
Qed.

Lemma eqIRRegArray_eq d d' : eqIRRegArray d d' = true <-> d = d'.
Proof.
  unfold eqIRRegArray. rewrite !andb_true_iff, bool_decide_eq_true, !Z.eqb_eq. destruct d, d'. cbn. naive_solver.
Qed.

Lemma eqIRAtom_I32 env a b : eqIRAtom a b = Ok true -> has_type env a Ity_I32 = true -> a = b.
Proof.
  rewrite has_type_iff. unfold eqIRAtom. intros H Ht. destruct a; try done; destruct b; try done; cbn in H.
  - injection H as H. by apply Z.eqb_eq in H as ->.
  - injection H as H. destruct con; try discriminate Ht. destruct con0; try done. cbn in H. by apply Z.eqb_eq in H as ->.
Qed.

Lemma II_sound env d1 i1 b1 d2 i2 b2 n1 n2 rel : getAliasingRelation_II d1 i1 b1 d2 i2 b2 = Ok rel ->
  array_ok d1 = true -> array_ok d2 = true -> sizeofIRType (elemTy d1) = Ok n1 -> sizeofIRType (elemTy d2) = Ok n2 ->
  has_type env i1 Ity_I32 = true ->
  match rel with
  | NoAlias => forall x1 x2, (i1 = i2 -> x1 = x2) -> apart (element d1 x1 b1 n1) n1 (element d2 x2 b2 n2) n2
  | ExactAlias => d1 = d2 /\ i1 = i2 /\ forall x, element d1 x b1 n1 = element d2 x b2 n2
  | UnknownAlias => True
  end.
Proof.
  intros H A1 A2 N1 N2 Hi. unfold getAliasingRelation_II in H. rewrite (getArrayBounds_ok d1 n1 A1 N1), (getArrayBounds_ok d2 n2 A2 N2) in H.
  cbn [obind] in H. pose proof (array_ok_size d1 A1) as (n & Hn & Hp1 & Hk1 & Hb1 & Hs1). rewrite N1 in Hn. injection Hn as <-.
  pose proof (array_ok_size d2 A2) as (n & Hn & Hp2 & Hk2 & Hb2 & Hs2). rewrite N2 in Hn. injection Hn as <-.
  destruct ((_ <? _) || (_ <? _)) eqn:Hout.
  { injection H as <-. intros x1 x2 _. pose proof (element_range d1 x1 b1 n1 Hk1 Hp1). pose proof (element_range d2 x2 b2 n2 Hk2 Hp2).
    apply orb_true_iff in Hout as [?%Z.ltb_lt|?%Z.ltb_lt]; unfold apart; lia. }
  destruct (eqIRRegArray d1 d2) eqn:Hd; cbn [negb] in H; [|by injection H as <-]. apply eqIRRegArray_eq in Hd as <-.
  rewrite N1 in N2. injection N2 as <-.
  apply bind_Ok_inv in H as (_ & _ & H). apply bind_Ok_inv in H as (_ & _ & H). apply bind_Ok_inv in H as (same & Hs & H).
  destruct same; cbn [negb] in H; [|by injection H as <-]. pose proof (eqIRAtom_I32 env _ _ Hs Hi) as <-.
  apply bind_Ok_inv in H as ([c1 c2] & Hl & H). destruct (bias_loop_inv _ _ _ _ _ _ Hl) as (Hc1 & Hc2 & k & -> & ->). clear Hl.
  do 4 (apply bind_Ok_inv in H as ([] & _ & H)). injection H as <-. rewrite !Z.rem_mod_nonneg by lia. rewrite !Z.mod_add by lia.
  destruct (Z.eqb_spec (b1 mod ra_nElems d1) (b2 mod ra_nElems d1)) as [E|E].
  - split_and!; [done..|]. intros z. apply element_congr. by rewrite (Zplus_mod z b1), E, <-Zplus_mod.
  - intros x1 x2 Hx. rewrite (Hx eq_refl). by apply element_apart.
Qed.

Lemma II_returns d1 i1 b1 d2 i2 b2 : array_ok d1 = true -> array_ok d2 = true -> isIRAtom i1 = true -> isIRAtom i2 = true ->
  bias_ok d1 b1 = true -> bias_ok d2 b2 = true -> exists rel, getAliasingRelation_II d1 i1 b1 d2 i2 b2 = Ok rel.
Proof.
  intros A1 A2 I1 I2 B1 B2. destruct (array_ok_size d1 A1) as (n1 & N1 & Hp1 & Hk1 & Hb1 & Hs1). destruct (array_ok_size d2 A2) as (n2 & N2 & _).
  unfold getAliasingRelation_II. rewrite (getArrayBounds_ok d1 n1 A1 N1), (getArrayBounds_ok d2 n2 A2 N2). cbn [obind].
  destruct (_ || _); [by eexists|]. destruct (eqIRRegArray d1 d2) eqn:Hd; cbn [negb]; [|by eexists]. apply eqIRRegArray_eq in Hd as <-.
  assert (Hs : exists same, eqIRAtom i1 i2 = Ok same) by (unfold eqIRAtom; rewrite I1, I2; destruct i1, i2; try done; by eexists).
  rewrite I1, I2. cbn [assert_that obind]. destruct Hs as (same & ->). cbn [obind]. destruct same; cbn [negb]; [|by eexists].
  unfold bias_ok in B1, B2. zbool. destruct (bias_loop_returns (ra_nElems d1) Hk1 10 b1 b2) as (c1 & c2 & E); try nia. rewrite E.
  destruct (bias_loop_inv _ _ _ _ _ _ E) as (Hc1 & Hc2 & _). cbn [obind]. rewrite !Z.rem_mod_nonneg by lia.
  pose proof (Z.mod_pos_bound c1 (ra_nElems d1) Hk1). pose proof (Z.mod_pos_bound c2 (ra_nElems d1) Hk1).
  assert (Ha : forall x, (0 <=? x mod ra_nElems d1) && (x mod ra_nElems d1 <? ra_nElems d1) = true).
  { intros x. pose proof (Z.mod_pos_bound x (ra_nElems d1) Hk1). apply andb_true_iff. split; [apply Z.leb_le|apply Z.ltb_lt]; lia. }
  rewrite !Ha. rewrite (proj2 (Z.leb_le 0 c1) Hc1), (proj2 (Z.leb_le 0 c2) Hc2), (proj2 (Z.eqb_neq (ra_nElems d1) 0)) by lia. cbn. by eexists.
Qed.

(** ** Scans *)

Section Scans.
Context (round : list IRStmt -> IRStmt -> outcome IRStmt).

Lemma backwards_Forall2 sts : forall out, backwards round (rev sts) = Ok out ->
  Forall2 (fun st st' => exists l l', sts = l ++ st :: l' /\ round (rev l) st = Ok st') sts (rev out).
Proof.
  induction sts as [|st sts IH] using rev_ind; intros out H; [injection H as <-; constructor|].
  rewrite rev_app_distr in H. cbn in H. apply bind_Ok_inv in H as (st' & E & H). apply bind_Ok_inv in H as (out' & E' & [= <-]).
  cbn. apply Forall2_app; [|constructor; [by exists sts, []|constructor]].
  eapply Forall2_impl; [by apply IH|]. intros a a' (l & l' & -> & Hr). exists l, (l' ++ [st]). by rewrite <-app_assoc.
Qed.

Lemma backwards_returns sts : (forall l st l', sts = l ++ st :: l' -> exists st', round (rev l) st = Ok st') ->
  exists out, backwards round (rev sts) = Ok out.
Proof.
  induction sts as [|st sts IH] using rev_ind; intros H; [by eexists|]. rewrite rev_app_distr. cbn.
  destruct (H sts st [] eq_refl) as (st' & ->). destruct IH as (out & ->); [|by eexists].
  intros l st0 l' ->. apply (H l st0 (l' ++ [st])). by rewrite <-app_assoc.
Qed.

Lemma backwards_run {V W} `{M : Machine V W} env rho w sts : forall out r, backwards round (rev sts) = Ok out ->
  (forall l st l' st' rho1 w1 r1, sts = l ++ st :: l' -> round (rev l) st = Ok st' -> run_stmts env rho w l = Some (Goes_on rho1 w1) ->
     run_stmt env rho1 w1 st = Some r1 -> run_stmt env rho1 w1 st' = Some r1) ->
  run_stmts env rho w sts = Some r -> run_stmts env rho w (rev out) = Some r.
Proof.
  induction sts as [|st sts IH] using rev_ind; intros out r H Hround Hr; [by injection H as <-|].
  rewrite rev_app_distr in H. cbn in H. apply bind_Ok_inv in H as (st' & E & H). apply bind_Ok_inv in H as (out' & E' & [= <-]).
  cbn. rewrite run_stmts_app in Hr |- *. apply bind_Some in Hr as (r1 & Hr1 & Hr). rewrite (IH out' r1 E'); [|..|exact Hr1].
  - cbn [mbind option_bind]. destruct r1 as [rho1 w1|]; [|done]. cbn in Hr |- *. apply bind_Some in Hr as (r2 & Hr2 & Hr).
    by rewrite (Hround sts st [] st' rho1 w1 r2).
  - intros l st0 l' st0' rho1 w1 r2 ->. apply (Hround l st0 (l' ++ [st])). by rewrite <-app_assoc.
Qed.
End Scans.

(** Statements of the same temporaries make a flat block again. *)
Lemma flat_block_other bb out : flat_block bb -> Forall2 (fun st st' => flat_stmt (tyenv bb) st' /\ defs st' = defs st) (stmts bb) out ->
  flat_block (bb <| stmts := out |>).
Proof.
  destruct bb as [env sts nx jk off]. intros (_ & Hd & Hn & Ha). unfold flat_block. cbn -[all_defs] in *. intros HF.
  assert (Hall : Forall (flat_stmt env) out /\ all_defs out = all_defs sts); [|by destruct Hall as [? ->]].
  clear -HF. induction HF as [|st st' l l' [Hst Hs] _ [IH1 IH2]]; [done|]. split; [by constructor|].
  change (defs st' ++ all_defs l' = defs st ++ all_defs l). by rewrite IH2, Hs.
Qed.

(** ** Chains of additions *)

(** The index of an array in the guest state is a number of 32 bits. *)
Definition index_ok (env : IRTypeEnv) (st : IRStmt) : bool :=
  match st with
  | Ist_WrTmp _ (Iex_GetI d ix _) => array_ok d && has_type env ix Ity_I32
  | Ist_PutI d ix _ _ => array_ok d && has_type env ix Ity_I32
  | _ => true
  end.

Lemma isAdd32OrSub32_inv e tmp ii : isAdd32OrSub32 e = Ok (Some (tmp, ii)) ->
  exists op v, e = Iex_Binop op (Iex_RdTmp tmp) (Iex_Const (Ico_U32 v)) /\ (op = Iop_Add32 /\ ii = s32 v \/ op = Iop_Sub32 /\ ii = - s32 v).
Proof.
  destruct e as [| | | | | |op a1 a2| | | | | | |]; try done. destruct a1; try done. destruct a2; try done. cbn [isAdd32OrSub32].
  destruct (Z.eqb_spec op Iop_Add32) as [->|Ha]; cbn [negb andb].
  - destruct con; try done. cbn. intros [= <- <-]. eexists _, _. split; [done|]. by left.
  - destruct (Z.eqb_spec op Iop_Sub32) as [->|Hs]; cbn [negb]; [|done]. destruct con; try done. cbn [obind]. unfold int_neg, int_add.
    case_match; [|done]. cbn. intros [= <- <-]. eexists _, _. split; [done|]. by right.
Qed.

Lemma s32_mod v : s32 v mod 2 ^ 32 = v mod 2 ^ 32.
Proof. unfold s32. rewrite Zminus_mod, Z.mod_mod, <-Zminus_mod by done. f_equal. lia. Qed.

Section Chains.
Context {V W} `{M : Machine V W} `{!MachineLaws M} `{!IntegerLaws M} (env : IRTypeEnv).
Implicit Types (rho : gmap Z V) (w : W).

(** A number of 32 bits that is [y + c]. *)
Definition plus (x y : V) (c : Z) : Prop := v_type x = Ity_I32 /\ v_type y = Ity_I32 /\ v_bits x = (v_bits y + c) mod 2 ^ 32.

Lemma plus_trans x y z c d : plus x y c -> plus y z d -> plus x z (c + d).
Proof.
  intros (Hx & _ & E) (_ & Hz & E'). split_and!; [done..|]. rewrite E, E', Zplus_mod_idemp_l. f_equal. lia.
Qed.

Lemma plus_refl x : v_type x = Ity_I32 -> plus x x 0.
Proof.
  intros Hx. split_and!; [done..|]. rewrite Z.add_0_r, Z.mod_small; [done|]. apply bits_range. by rewrite Hx.
Qed.

Lemma plus_fun x x' y c : plus x y c -> plus x' y c -> x = x'.
Proof. intros (Hx & _ & E) (Hx' & _ & E'). apply bits_inj; [congruence|by rewrite Hx|congruence]. Qed.

(** What the operators compute. *)
Lemma op_value op v c : op = Iop_Add32 /\ c = s32 v \/ op = Iop_Sub32 /\ c = - s32 v -> constant_ok (Ico_U32 v) = true ->
  forall y : V, v_type y = Ity_I32 -> plus (v_op op [y; v_const (Ico_U32 v)]) y c.
Proof.
  intros Hop Hc y Hy. pose proof (bits_const (Ico_U32 v) v Hc eq_refl) as Hv. pose proof (type_of_const (Ico_U32 v)) as Hct. cbn in Hct.
  assert (Ht : exists t, typeOfPrimop op = Ok t /\ operand_types t = [Ity_I32; Ity_I32] /\ t_dst t = Ity_I32)
    by (destruct Hop as [[-> _]|[-> _]]; by eexists).
  destruct Ht as (t & Ht & Hops & Hdst). split_and!; [by rewrite (type_of_op _ _ _ Ht)|done|].
  apply (bits_op op t); [done|by rewrite Hops; cbn; rewrite Hy, Hct|]. cbn [map]. rewrite Hv.
  destruct Hop as [[-> ->]|[-> ->]]; unfold ref_op; cbn [meaning].
  - change (Some ((v_bits y + v) mod 2 ^ 32) = Some ((v_bits y + s32 v) mod 2 ^ 32)). f_equal.
    by rewrite <-(Zplus_mod_idemp_r (s32 v)), s32_mod, Zplus_mod_idemp_r.
  - change (Some ((v_bits y - v) mod 2 ^ 32) = Some ((v_bits y - s32 v) mod 2 ^ 32)). f_equal.
    by rewrite (Zminus_mod _ (s32 v)), s32_mod, <-Zminus_mod.
Qed.

(** Its operand, and its value. *)
Lemma isAdd_operand t e tmp ii : flat_stmt env (Ist_WrTmp t e) -> isAdd32OrSub32 e = Ok (Some (tmp, ii)) ->
  typeOfIRTemp env tmp = Ok Ity_I32
  /\ forall rho w x, typed env rho -> eval rho w e = Some x -> exists y, rho !! tmp = Some y /\ plus x y ii.
Proof.
  intros [[_ Ho]%andb_true_iff _] (op & v & -> & Hop)%isAdd32OrSub32_inv. cbn [operands_typed] in Ho. apply andb_true_iff in Ho as [Hw _].
  apply well_typed_parts in Hw as (_ & Hc%well_typed_parts & Ht).
  assert (Hty : typeOfIRTemp env tmp = Ok Ity_I32).
  { change (typeOfIRExpr env (Iex_RdTmp tmp) = Ok Ity_I32). apply has_type_iff. destruct Hop as [[-> _]|[-> _]]; cbn in Ht; by apply andb_true_iff in Ht as [? _]. }
  split; [done|]. intros rho w x Hr Hx. cbn [eval] in Hx. destruct (rho !! tmp) as [y|] eqn:Hy; [|done]. cbn in Hx. injection Hx as <-.
  exists y. split; [done|]. apply op_value; [done|done|]. apply Hr in Hy. congruence.
Qed.

(** What a chain leads to. *)
Lemma chain_type sts : Forall (flat_stmt env) sts -> forall var con var' con', chain_loop (rev sts) var con = Ok (var', con') ->
  typeOfIRTemp env var = Ok Ity_I32 -> typeOfIRTemp env var' = Ok Ity_I32.
Proof.
  induction sts as [|st sts IH] using rev_ind; intros Hf var con var' con' H Ht; [done|]. apply Forall_app in Hf as [Hf [Hst _]%Forall_cons_1].
  rewrite rev_app_distr in H. cbn in H. destruct st; try (by eapply IH). destruct (Z.eqb_spec tmp var) as [->|]; cbn [negb] in H; [|by eapply IH].
  apply bind_Ok_inv in H as ([[vv ii]|] & E & H); [|by injection H as <- <-]. apply bind_Ok_inv in H as (c & _ & H).
  eapply (IH Hf); [exact H|]. by apply (isAdd_operand _ _ _ _ Hst E).
Qed.

Lemma chain_run rho0 w0 sts : Forall (flat_stmt env) sts -> typed env rho0 -> forall rho w rho' var con var' con' x,
  run_stmts env rho0 w0 sts = Some (Goes_on rho w) -> rho ⊆ rho' -> rho' !! var = Some x -> v_type x = Ity_I32 ->
  chain_loop (rev sts) var con = Ok (var', con') -> exists y, rho !! var' = Some y /\ plus x y (con' - con).
Proof.
  intros Hall Ht0. induction sts as [|st sts IH] using rev_ind; intros rho w rho' var con var' con' x Hr Hs Hx Hxt H; [done|].
  apply Forall_app in Hall as [Hf [Hst _]%Forall_cons_1]. specialize (IH Hf).
  rewrite run_stmts_app in Hr. apply bind_Some in Hr as ([rho1 w1|w1 tg jk] & Hr1 & Hr); [|done]. cbn in Hr.
  apply bind_Some in Hr as (r2 & Hr2 & Hr). pose proof (run_stmts_typed _ _ _ _ _ _ Ht0 Hr1) as Ht1.
  assert (r2 = Goes_on rho w) as -> by (destruct r2; congruence). clear Hr.
  pose proof Hr2 as Hst2. unfold run_stmt in Hst2. apply bind_Some in Hst2 as ([[new w2] jump] & Hact & Hst2). apply bind_Some in Hst2 as (rho2 & Ha & Hst2).
  destruct jump as [[]|]; [done|]. injection Hst2 as -> ->. pose proof (assign_all_sub _ _ _ _ Ha) as Hsub.
  assert (Hskip : chain_loop (rev sts) var con = Ok (var', con') -> exists y, rho !! var' = Some y /\ plus x y (con' - con)).
  { intros Hc. destruct (IH rho1 w1 rho' var con var' con' x) as (y & Hy & Hp); try done; [by etrans|]. exists y. split; [by eapply lookup_weaken|done]. }
  rewrite rev_app_distr in H. cbn in H. destruct st; try (by apply Hskip).
  destruct (Z.eqb_spec tmp var) as [->|]; cbn [negb] in H; [|by apply Hskip]. cbn in Hact. destruct (eval rho1 w1 data) as [v|] eqn:Hv; [|done].
  cbn in Hact. injection Hact as <- <-. cbn in Ha. destruct (assign env rho1 var v) as [rho2|] eqn:Has; [|done]. cbn in Ha. injection Ha as ->.
  apply assign_inv in Has as (-> & Hnone & Hty). pose proof (lookup_weaken _ _ var v (lookup_insert_eq _ _ _) Hs) as Hxv. rewrite Hx in Hxv. injection Hxv as <-.
  apply bind_Ok_inv in H as ([[vv ii]|] & E & H).
  - apply bind_Ok_inv in H as (c & Ec & H). unfold int_add in Ec. case_match; [|done]. injection Ec as <-.
    destruct (isAdd_operand _ _ _ _ Hst E) as [Htv Hval]. destruct (Hval rho1 w1 x Ht1 Hv) as (y & Hy & Hp).
    destruct (IH rho1 w1 rho1 vv (con + ii) var' con' y) as (z & Hz & Hp'); try done; [apply Hp|]. exists z. split; [by eapply lookup_weaken|].
    replace (con' - con) with (ii + (con' - (con + ii))) by lia. by eapply plus_trans.
  - injection H as <- <-. exists x. rewrite lookup_insert_eq. split; [done|]. rewrite Z.sub_diag. by apply plus_refl.
Qed.

Lemma add_const_value var2 con2 e rho w y : add_const var2 con2 = Ok e -> - 2 ^ 31 <= con2 < 2 ^ 31 -> rho !! var2 = Some y -> v_type y = Ity_I32 ->
  exists x, eval rho w e = Some x /\ plus x y con2.
Proof.
  unfold add_const. intros H Hr Hy Hty.
  assert (Hfits : forall k, constant_ok (Ico_U32 (u32 k)) = true).
  { intros k. change ((0 <=? u32 k) && (u32 k <? 2 ^ 32) = true). rewrite andb_true_iff, Z.leb_le, Z.ltb_lt. apply u32_range. }
  assert (Hs : forall k, - 2 ^ 31 <= k < 2 ^ 31 -> s32 (u32 k) = k).
  { intros k Hk. unfold s32, u32. rewrite Zplus_mod_idemp_l, Z.mod_small; lia. }
  destruct (Z.leb_spec 0 con2).
  - injection H as <-. eexists. split; [cbn; rewrite Hy; cbn; reflexivity|]. apply op_value; [left; split; [done|by rewrite Hs by lia]|apply Hfits|done].
  - apply bind_Ok_inv in H as (k & Hk & [= <-]). unfold int_neg, int_add in Hk. case_match eqn:Hb; [|done]. injection Hk as <-. zbool.
    eexists. split; [cbn; rewrite Hy; cbn; reflexivity|]. apply op_value; [right; split; [done|rewrite Hs by lia; lia]|apply Hfits|done].
Qed.

(** What becomes of a statement. *)
Inductive collapsed (back : list IRStmt) : IRStmt -> IRStmt -> Prop :=
| collapsed_same st : collapsed back st st
| collapsed_add tmp e var con var2 c2 e2 : isAdd32OrSub32 e = Ok (Some (var, con)) -> chain_loop back var 0 = Ok (var2, c2) ->
    - 2 ^ 31 <= c2 + con < 2 ^ 31 -> add_const var2 (c2 + con) = Ok e2 -> collapsed back (Ist_WrTmp tmp e) (Ist_WrTmp tmp e2)
| collapsed_geti tmp d t b var2 c2 : chain_loop back t 0 = Ok (var2, c2) ->
    collapsed back (Ist_WrTmp tmp (Iex_GetI d (Iex_RdTmp t) b)) (Ist_WrTmp tmp (Iex_GetI d (Iex_RdTmp var2) (c2 + b)))
| collapsed_puti d t b data var2 c2 : chain_loop back t 0 = Ok (var2, c2) ->
    collapsed back (Ist_PutI d (Iex_RdTmp t) b data) (Ist_PutI d (Iex_RdTmp var2) (c2 + b) data).

Lemma int_add_inv x y z : int_add x y = Ok z -> z = x + y /\ - 2 ^ 31 <= x + y < 2 ^ 31.
Proof. unfold int_add. case_match eqn:H; [|done]. intros [= <-]. zbool. lia. Qed.

Lemma collapseChain_inv back t var2 c2 : collapseChain back t = Ok (Some (var2, c2)) -> chain_loop back t 0 = Ok (var2, c2).
Proof. unfold collapseChain. intros ([v c] & E & H)%bind_Ok_inv. case_match; [done|]. by injection H as <- <-. Qed.

Lemma collapse_Stmt_inv back st st' : collapse_Stmt back st = Ok st' -> collapsed back st st'.
Proof.
  intros H. destruct st; try (injection H as <-; constructor); cbn in H.
  - destruct ix; try (injection H as <-; constructor). apply bind_Ok_inv in H as ([[var2 c2]|] & E & H); [apply collapseChain_inv in E|injection H as <-; constructor].
    apply bind_Ok_inv in H as (b & [-> _]%int_add_inv & [= <-]). by constructor.
  - apply bind_Ok_inv in H as ([[var con]|] & Er & H).
    + apply bind_Ok_inv in H as ([[var2 c2]|] & E & H); [apply collapseChain_inv in E|injection H as <-; constructor].
      apply bind_Ok_inv in H as (c & [-> Hc]%int_add_inv & H). apply bind_Ok_inv in H as (e & Ee & [= <-]). by econstructor.
    + destruct data; try (injection H as <-; constructor). destruct data; try (injection H as <-; constructor).
      apply bind_Ok_inv in H as ([[var2 c2]|] & E & H); [apply collapseChain_inv in E|injection H as <-; constructor].
      apply bind_Ok_inv in H as (b & [-> _]%int_add_inv & [= <-]). by constructor.
Qed.

(** The number of elements divides the numbers of 32 bits. *)
Definition ring_ok (st : IRStmt) : bool :=
  match st with Ist_WrTmp _ (Iex_GetI d _ _) | Ist_PutI d _ _ _ => 2 ^ 32 mod ra_nElems d =? 0 | _ => true end.

Lemma element_plus d x y c b n : 0 < ra_nElems d -> 2 ^ 32 mod ra_nElems d = 0 -> plus x y c ->
  element d (v_bits x) b n = element d (v_bits y) (c + b) n.
Proof.
  intros Hk Hd (_ & _ & ->). apply element_congr. apply Z.mod_divide in Hd; [|lia].
  rewrite <-Zplus_mod_idemp_l, Z.mod_mod_divide by done. rewrite Zplus_mod_idemp_l. f_equal. lia.
Qed.

Context `{!ArrayLaws M}.

Lemma collapsed_run l st st' w rho1 w1 r : Forall (flat_stmt env) (l ++ [st]) -> index_ok env st = true -> ring_ok st = true ->
  collapsed (rev l) st st' -> run_stmts env ∅ w l = Some (Goes_on rho1 w1) -> run_stmt env rho1 w1 st = Some r -> run_stmt env rho1 w1 st' = Some r.
Proof.
  intros [Hl [Hst _]%Forall_cons_1]%Forall_app Hi Hring Hc Hr Hrun. pose proof (run_stmts_typed _ _ _ _ _ _ (typed_empty env) Hr) as Ht.
  assert (Hchain : forall t var2 c2 x, chain_loop (rev l) t 0 = Ok (var2, c2) -> rho1 !! t = Some x -> v_type x = Ity_I32 -> exists y, rho1 !! var2 = Some y /\ plus x y c2).
  { intros t var2 c2 x Hch Hx Hxt. destruct (chain_run ∅ w l Hl (typed_empty env) rho1 w1 rho1 t 0 var2 c2 x) as (y & Hy & Hp); try done.
    exists y. split; [done|]. by rewrite Z.sub_0_r in Hp. }
  assert (Htype : forall t x, rho1 !! t = Some x -> has_type env (Iex_RdTmp t) Ity_I32 = true -> v_type x = Ity_I32).
  { intros t x Hx%Ht H%has_type_iff. cbn in H. congruence. }
  unfold run_stmt in *. destruct Hc as [|tmp e var con var2 c2 e2 Ee Hch Hrange He2|tmp d t b var2 c2 Hch|d t b data var2 c2 Hch]; [done|..]; cbn in Hrun, Hi, Hring |- *.
  - destruct (eval rho1 w1 e) as [v|] eqn:Hv; [|done]. destruct (isAdd_operand _ _ _ _ Hst Ee) as [_ Hval].
    destruct (Hval rho1 w1 v Ht Hv) as (x & Hx & Hp). destruct (Hchain var var2 c2 x) as (y & Hy & Hp'); try done; [apply Hp|].
    destruct (add_const_value var2 (c2 + con) e2 rho1 w1 y He2) as (v' & -> & Hp2); [done|done|apply Hp'|].
    rewrite (plus_fun v' v y (c2 + con)); [done|done|]. rewrite Z.add_comm. by eapply plus_trans.
  - apply andb_true_iff in Hi as [Ha Hix]. apply array_ok_size in Ha as (n & Hn & Hpn & Hk & _). apply Z.eqb_eq in Hring.
    destruct (rho1 !! t) as [x|] eqn:Hx; [|done]. pose proof (Htype t x Hx Hix) as Hxt. destruct (Hchain t var2 c2 x Hch Hx Hxt) as (y & Hy & Hp).
    rewrite Hy. cbn in Hrun |- *. rewrite (geti_element w1 d y _ n) by (try done; apply Hp).
    rewrite (geti_element w1 d x b n) in Hrun by done. by rewrite <-(element_plus d x y c2 b n).
  - apply andb_true_iff in Hi as [Ha Hix]. apply array_ok_size in Ha as (n & Hn & Hpn & Hk & _). apply Z.eqb_eq in Hring.
    destruct (rho1 !! t) as [x|] eqn:Hx; [|done]. pose proof (Htype t x Hx Hix) as Hxt. destruct (Hchain t var2 c2 x Hch Hx Hxt) as (y & Hy & Hp).
    rewrite Hy. cbn in Hrun |- *. destruct (eval rho1 w1 data) as [v|]; [|done]. cbn in Hrun |- *. destruct (decide (v_type v = elemTy d)) as [Hv|]; [|done].
    rewrite (puti_element w1 d y _ v n) by (try done; apply Hp). rewrite (puti_element w1 d x b v n) in Hrun by done. by rewrite <-(element_plus d x y c2 b n).
Qed.

Lemma collapse_run sts out w r : backwards collapse_Stmt (rev sts) = Ok out -> Forall (flat_stmt env) sts -> forallb (index_ok env) sts = true ->
  forallb ring_ok sts = true -> run_stmts env ∅ w sts = Some r -> run_stmts env ∅ w (rev out) = Some r.
Proof.
  intros H Hf Hi Hring. apply (backwards_run _ _ _ _ _ _ _ H). intros l st l' st' rho1 w1 r1 -> E. rewrite forallb_app in Hi, Hring. cbn in Hi, Hring.
  rewrite !andb_true_iff in Hi, Hring. destruct_and?. apply collapsed_run; try done; [|by apply collapse_Stmt_inv].
  rewrite cons_middle, app_assoc in Hf. by apply Forall_app in Hf as [? _].
Qed.
End Chains.

(** *** Types *)

Lemma add_typed env op v k : op = Iop_Add32 \/ op = Iop_Sub32 -> typeOfIRTemp env v = Ok Ity_I32 -> constant_ok (Ico_U32 k) = true ->
  let e := Iex_Binop op (Iex_RdTmp v) (Iex_Const (Ico_U32 k)) in well_typed env e = true /\ typeOfIRExpr env e = Ok Ity_I32.
Proof.
  intros Hop Hv Hk e. assert (Hty : typeOfIRExpr env e = Ok Ity_I32) by (by destruct Hop as [-> | ->]). split; [|done].
  unfold e in *. cbn [well_typed]. rewrite Hty. cbn [typeOfIRExpr] in *. rewrite Hv. cbn -[constant_ok takes]. rewrite Hk. cbn -[takes].
  unfold takes. destruct Hop as [-> | ->]; cbn; unfold has_type; cbn; by rewrite Hv.
Qed.

Lemma add_const_typed env var2 con2 e : add_const var2 con2 = Ok e -> typeOfIRTemp env var2 = Ok Ity_I32 ->
  well_typed env e = true /\ typeOfIRExpr env e = Ok Ity_I32 /\ exists op a1 a2, e = Iex_Binop op a1 a2 /\ isIRAtom a1 && isIRAtom a2 = true.
Proof.
  unfold add_const. intros H Hv.
  assert (Hfits : forall k, constant_ok (Ico_U32 (u32 k)) = true).
  { intros k. change ((0 <=? u32 k) && (u32 k <? 2 ^ 32) = true). rewrite andb_true_iff, Z.leb_le, Z.ltb_lt. apply u32_range. }
  case_match; [injection H as <-|apply bind_Ok_inv in H as (n & _ & [= <-])].
  - destruct (add_typed env Iop_Add32 var2 (u32 con2)) as [? ?]; auto. split_and!; try done. by eexists _, _, _.
  - destruct (add_typed env Iop_Sub32 var2 (u32 n)) as [? ?]; auto. split_and!; try done. by eexists _, _, _.
Qed.

Lemma collapsed_flat env l st st' : Forall (flat_stmt env) (l ++ [st]) -> index_ok env st = true -> collapsed (rev l) st st' ->
  flat_stmt env st' /\ defs st' = defs st /\ index_ok env st' = true.
Proof.
  intros [Hl [Hst _]%Forall_cons_1]%Forall_app Hi Hc.
  assert (Htemp : forall t, typeOfIRTemp env t = Ok Ity_I32 -> well_typed env (Iex_RdTmp t) = true /\ has_type env (Iex_RdTmp t) Ity_I32 = true).
  { intros t Ht. split; [cbn; by rewrite Ht|by apply has_type_iff]. }
  destruct Hc as [|tmp e var con var2 c2 e2 Ee Hch Hrange He2|tmp d t b var2 c2 Hch|d t b data var2 c2 Hch]; [done|..].
  - destruct (isAdd_operand env _ _ _ _ Hst Ee) as [Htv _]. destruct (add_const_typed env _ _ _ He2 (chain_type env l Hl _ _ _ _ Hch Htv)) as (Hw & Ht & op2 & a1 & a2 & -> & Hat).
    destruct Hst as [[Hd Ho]%andb_true_iff _]. split; [|done].
    split; [|cbn; by rewrite Hat]. unfold well_typed_stmt. apply andb_true_iff. split; [done|]. cbn [operands_typed] in Ho |- *.
    apply andb_true_iff in Ho as [_ Ho]. rewrite Hw. cbn [andb]. destruct (typeOfIRTemp env tmp) as [ty|]; [|done].
    apply has_type_iff in Ho. apply has_type_iff. apply isAdd32OrSub32_inv in Ee as (op & v & -> & [[-> _]|[-> _]]); cbn in Ho; rewrite Ht; exact Ho.
  - cbn in Hi. apply andb_true_iff in Hi as [Ha Hix]. destruct (Htemp var2) as [Hw2 Ht2].
    { apply (chain_type env l Hl _ _ _ _ Hch). by apply has_type_iff in Hix. }
    split; [|split; [done|cbn; by rewrite Ha, Ht2]]. destruct Hst as [[Hd Ho]%andb_true_iff _]. split; [|done]. unfold well_typed_stmt. apply andb_true_iff.
    split; [done|]. cbn [operands_typed] in Ho |- *. apply andb_true_iff in Ho as [_ Ho]. apply andb_true_iff. by split.
  - cbn in Hi. apply andb_true_iff in Hi as [Ha Hix]. destruct (Htemp var2) as [Hw2 Ht2].
    { apply (chain_type env l Hl _ _ _ _ Hch). by apply has_type_iff in Hix. }
    split; [|split; [done|cbn; by rewrite Ha, Ht2]]. destruct Hst as [[Hd Ho]%andb_true_iff Hf]. split; [|done]. unfold well_typed_stmt. apply andb_true_iff.
    split; [done|]. cbn [operands_typed] in Ho |- *. rewrite !andb_true_iff in *. destruct_and?. by split_and!.
Qed.

(** *** The pass returns *)

(** The temporary whose chain is followed, and the constant of the statement. *)
Definition chain_var (st : IRStmt) : option Z :=
  match st with
  | Ist_WrTmp _ (Iex_Binop op (Iex_RdTmp v) (Iex_Const _)) => if (op =? Iop_Add32) || (op =? Iop_Sub32) then Some v else None
  | Ist_WrTmp _ (Iex_GetI _ (Iex_RdTmp v) _) | Ist_PutI _ (Iex_RdTmp v) _ _ => Some v
  | _ => None
  end.
Definition weight (st : IRStmt) : Z :=
  match st with
  | Ist_WrTmp _ (Iex_Binop op (Iex_RdTmp _) (Iex_Const (Ico_U32 v))) => Z.abs (s32 v)
  | Ist_WrTmp _ (Iex_GetI _ _ b) | Ist_PutI _ _ b _ => Z.abs b
  | _ => 0
  end.
Definition weights (sts : list IRStmt) : Z := foldr Z.add 0 (map weight sts).

(** The temporaries of chains are assigned by earlier [WrTmp]s. *)
Fixpoint chains_bound (seen : list Z) (sts : list IRStmt) : bool :=
  match sts with
  | [] => true
  | st :: sts =>
      match chain_var st with Some v => bool_decide (v ∈ seen) | None => true end
      && chains_bound (match st with Ist_WrTmp t _ => t :: seen | _ => seen end) sts
  end.

Definition wr_temps (sts : list IRStmt) : list Z := omap (fun st => match st with Ist_WrTmp t _ => Some t | _ => None end) sts.

Lemma chains_bound_at seen l st l' v : chains_bound seen (l ++ st :: l') = true -> chain_var st = Some v -> v ∈ seen \/ v ∈ wr_temps l.
Proof.
  revert seen. induction l as [|st0 l IH]; intros seen; cbn; intros [H1 H2]%andb_true_iff Hv.
  - rewrite Hv in H1. left. by apply bool_decide_eq_true in H1.
  - destruct (IH _ H2 Hv) as [Hi|Hi]; destruct st0; try (by auto); cbn; set_solver.
Qed.

Lemma weight_nonneg st : 0 <= weight st.
Proof. unfold weight. repeat case_match; lia. Qed.

Lemma weights_app l1 l2 : weights (l1 ++ l2) = weights l1 + weights l2.
Proof. unfold weights. induction l1 as [|st l1 IH]; [done|]. cbn in *. lia. Qed.

Lemma weights_nonneg l : 0 <= weights l.
Proof. unfold weights. induction l as [|st l IH]; cbn; [lia|]. pose proof (weight_nonneg st). lia. Qed.

Section Returns.
Context (env : IRTypeEnv).

Lemma isAdd32OrSub32_returns t e : flat_stmt env (Ist_WrTmp t e) -> weight (Ist_WrTmp t e) < 2 ^ 31 ->
  isAdd32OrSub32 e = Ok None
  \/ exists v ii, isAdd32OrSub32 e = Ok (Some (v, ii)) /\ chain_var (Ist_WrTmp t e) = Some v /\ Z.abs ii <= weight (Ist_WrTmp t e).
Proof.
  intros [[_ Ho]%andb_true_iff _] Hwt. cbn [operands_typed] in Ho. apply andb_true_iff in Ho as [Hw _].
  destruct e as [| | | | | |op a1 a2| | | | | | |]; try (by left). destruct a1; try (by left). destruct a2; try (by left).
  apply well_typed_parts in Hw as (_ & _ & Ht). cbn [isAdd32OrSub32 chain_var].
  destruct (Z.eqb_spec op Iop_Add32) as [->|]; cbn [negb andb orb].
  2: destruct (Z.eqb_spec op Iop_Sub32) as [->|]; cbn [negb]; [|by left].
  all: right; assert (Hc : typeOfIRConst con = Ity_I32) by (change (has_type env (Iex_RdTmp tmp) Ity_I32 && (has_type env (Iex_Const con) Ity_I32 && true) = true) in Ht; rewrite !andb_true_iff in Ht; destruct Ht as (_ & Ht & _); apply has_type_iff in Ht; by injection Ht).
  all: destruct con; try discriminate Hc; cbn [weight] in *; cbn -[s32].
  - by eexists _, _.
  - unfold int_neg. rewrite int_add_ok by lia. cbn -[s32]. eexists _, _. split; [done|]. split; [done|lia].
Qed.

Lemma chain_returns sts : Forall (flat_stmt env) sts -> chains_bound [] sts = true -> forall var con, var ∈ wr_temps sts ->
  Z.abs con + weights sts < 2 ^ 31 -> exists var' con', chain_loop (rev sts) var con = Ok (var', con') /\ Z.abs con' <= Z.abs con + weights sts.
Proof.
  induction sts as [|st sts IH] using rev_ind; intros Hf Hb var con Hin Hsum; [by apply elem_of_nil in Hin|].
  apply Forall_app in Hf as [Hf [Hst _]%Forall_cons_1].
  assert (Hb' : chains_bound [] sts = true).
  { revert Hb. generalize (@nil Z). clear. induction sts as [|st0 sts IH]; intros seen; [done|]. cbn. rewrite !andb_true_iff. intros [? ?]. auto. }
  rewrite weights_app in Hsum. unfold weights at 2 in Hsum. cbn in Hsum. pose proof (weight_nonneg st). pose proof (weights_nonneg sts).
  rewrite weights_app. unfold weights at 2. cbn [map foldr].
  assert (Hskip : var ∈ wr_temps sts -> exists var' con', chain_loop (rev sts) var con = Ok (var', con') /\ Z.abs con' <= Z.abs con + (weights sts + (weight st + 0))).
  { intros Hv. destruct (IH Hf Hb' var con Hv) as (v' & c' & E & Hc); [lia|]. exists v', c'. split; [done|lia]. }
  unfold wr_temps in Hin. rewrite omap_app in Hin. apply elem_of_app in Hin. fold (wr_temps sts) in Hin.
  rewrite rev_app_distr. cbn [rev app chain_loop].
  destruct st; try (by apply Hskip; destruct Hin as [|Hin]; [|by apply elem_of_nil in Hin]).
  destruct (Z.eqb_spec tmp var) as [->|Hne]; cbn [negb]; [|apply Hskip; destruct Hin as [|Hin]; [done|cbn in Hin; set_solver]].
  destruct (isAdd32OrSub32_returns _ _ Hst) as [->|(v & ii & -> & Hcv & Hii)]; [lia|..]; cbn [obind].
  - exists var, con. split; [done|lia].
  - rewrite int_add_ok by lia. cbn [obind]. destruct (IH Hf Hb' v (con + ii)) as (v' & c' & E & Hc); [|lia|exists v', c'; split; [done|lia]].
    destruct (chains_bound_at [] sts _ [] v Hb Hcv) as [Hv|Hv]; [by apply elem_of_nil in Hv|done].
Qed.

Lemma collapse_returns sts : Forall (flat_stmt env) sts -> chains_bound [] sts = true -> weights sts < 2 ^ 31 ->
  exists out, backwards collapse_Stmt (rev sts) = Ok out.
Proof.
  intros Hf Hb Hw. apply backwards_returns. intros l st l' ->. apply Forall_app in Hf as [Hl [Hst _]%Forall_cons_1].
  assert (Hbl : chains_bound [] l = true).
  { revert Hb. generalize (@nil Z). clear. induction l as [|st0 l IH]; intros seen; [done|]. cbn. rewrite !andb_true_iff. intros [? ?]. auto. }
  rewrite cons_middle, !weights_app in Hw. unfold weights at 2 in Hw. cbn in Hw. pose proof (weight_nonneg st). pose proof (weights_nonneg l). pose proof (weights_nonneg l').
  assert (Hchain : forall v, chain_var st = Some v -> exists c, collapseChain (rev l) v = Ok c /\ forall v2 c2, c = Some (v2, c2) -> Z.abs c2 <= weights l).
  { intros v Hv. destruct (chain_returns l Hl Hbl v 0) as (v' & c' & E & Hc); [|lia|].
    - destruct (chains_bound_at [] l st l' v Hb Hv) as [Hi|Hi]; [by apply elem_of_nil in Hi|done].
    - unfold collapseChain. rewrite E. cbn [obind]. eexists. split; [done|]. intros v2 c2. case_match; [done|]. intros [= <- <-]. lia. }
  assert (Hindex : forall v b (f : Z -> Z -> IRStmt), chain_var st = Some v -> weight st = Z.abs b -> exists st', (let* c := collapseChain (rev l) v in
    match c with Some (var2, con2) => let* con2 := int_add con2 b in Ok (f var2 con2) | None => Ok st end) = Ok st').
  { intros v b f Hv Hb'. destruct (Hchain v Hv) as ([[v2 c2]|] & -> & Hc); cbn [obind]; [|by eexists]. specialize (Hc v2 c2 eq_refl).
    rewrite int_add_ok by lia. by eexists. }
  destruct st; try (by eexists); cbn [collapse_Stmt].
  - destruct ix; try (by eexists). by apply Hindex.
  - destruct (isAdd32OrSub32_returns _ _ Hst) as [->|(v & ii & -> & Hcv & Hii)]; [lia|..]; cbn [obind].
    + destruct data; try (by eexists). destruct data; try (by eexists). by apply Hindex.
    + destruct (Hchain v Hcv) as ([[v2 c2]|] & -> & Hc); cbn [obind]; [|by eexists]. specialize (Hc v2 c2 eq_refl). rewrite int_add_ok by lia. cbn [obind].
      unfold add_const. case_match; [by eexists|]. unfold int_neg. rewrite int_add_ok by lia. by eexists.
Qed.
End Returns.

(** ** Redundant reads *)

Definition arrays_ok (bb : IRSB) : bool := forallb (index_ok (tyenv bb)) (stmts bb).

(** The biases of a block. *)
Definition biases_ok (st : IRStmt) : bool :=
  match st with Ist_WrTmp _ (Iex_GetI d _ b) | Ist_PutI d _ b _ => bias_ok d b | _ => true end.

Section Find.
Context {V W} `{M : Machine V W} `{!MachineLaws M} `{!IntegerLaws M} `{!ArrayLaws M} (env : IRTypeEnv).
Implicit Types (rho : gmap Z V) (w : W).
Context (d : IRRegArray) (ix : IRExpr) (b n : Z) (Hd : array_ok d = true) (Hn : sizeofIRType (elemTy d) = Ok n).
Context (Hix : has_type env ix Ity_I32 = true).

(** A statement that does not write the element keeps it. *)
Lemma findPutI_run rho0 w0 sts : Forall (flat_stmt env) sts -> forallb (index_ok env) sts = true -> typed env rho0 -> forall rho w rho' x e,
  run_stmts env rho0 w0 sts = Some (Goes_on rho w) -> rho ⊆ rho' -> eval rho' w ix = Some x -> isIRAtom ix = true ->
  findPutI env (rev sts) d ix b = Ok (Some e) -> isIRAtom e = true ->
  exists v, eval rho w e = Some v /\ w_get w (element d (v_bits x) b n) (elemTy d) = v.
Proof.
  intros Hall Hidx Ht0. induction sts as [|st sts IH] using rev_ind; intros rho w rho' x e Hr Hs Hx Hat H He; [done|].
  apply Forall_app in Hall as [Hf [Hst _]%Forall_cons_1]. rewrite forallb_app in Hidx. apply andb_true_iff in Hidx as [Hidx Hist].
  cbn in Hist. rewrite andb_true_r in Hist. specialize (IH Hf Hidx).
  rewrite run_stmts_app in Hr. apply bind_Some in Hr as ([rho1 w1|w1 tg jk] & Hr1 & Hr); [|done]. cbn in Hr.
  apply bind_Some in Hr as (r2 & Hr2 & Hr). pose proof (run_stmts_typed _ _ _ _ _ _ Ht0 Hr1) as Ht1.
  assert (r2 = Goes_on rho w) as -> by (destruct r2; congruence). clear Hr.
  unfold run_stmt in Hr2. apply bind_Some in Hr2 as ([[new w2] jump] & Hact & Hr2). apply bind_Some in Hr2 as (rho2 & Ha & Hr2).
  destruct jump as [[]|]; [done|]. injection Hr2 as -> ->. pose proof (assign_all_sub _ _ _ _ Ha) as Hsub.
  assert (Hx1 : eval rho' w1 ix = Some x) by (by rewrite (eval_atom rho' w w1 ix Hat)).
  assert (Hskip : findPutI env (rev sts) d ix b = Ok (Some e) ->
    w_get w (element d (v_bits x) b n) (elemTy d) = w_get w1 (element d (v_bits x) b n) (elemTy d) ->
    exists v, eval rho w e = Some v /\ w_get w (element d (v_bits x) b n) (elemTy d) = v).
  { intros Hfind ->. destruct (IH rho1 w1 rho' x e) as (v & Hv & Hg); try done; [by etrans|]. exists v. split; [|done].
    rewrite (eval_atom rho w1 w e He). by eapply eval_mono. }
  pose proof (fun o ty => acts_get env _ _ _ _ _ _ o ty Hact eq_refl) as Hget.
  rewrite rev_app_distr in H. cbn in H. destruct st; try (by apply Hskip).
  - apply bind_Ok_inv in H as (ty & Hty & H). apply bind_Ok_inv in H as (rel & Hrel & H).
    destruct Hst as [[_ Ho]%andb_true_iff _]. cbn [operands_typed] in Ho. apply andb_true_iff in Ho as [_ Ho]. rewrite Hty in Ho.
    apply slice_ok_inv in Ho as (m & Hm & Hin). destruct (IC_sound _ _ _ _ _ _ _ Hrel Hd Hn Hm Hin) as [_ Hno].
    destruct rel; try done. apply Hskip; [done|]. cbn in Hact. destruct (eval rho1 w1 data) as [v|] eqn:Hv; [|done]. cbn in Hact. injection Hact as <- <-.
    pose proof (eval_type env rho1 w1 data v ty Ht1 Hv Hty) as Hvt. eapply get_put_apart; [rewrite Hvt; exact Hm|exact Hn|].
    destruct (Hno eq_refl (v_bits x) b); [by right|by left].
  - apply bind_Ok_inv in H as (rel & Hrel & H). cbn in Hist. apply andb_true_iff in Hist as [Ha2 Hi2].
    destruct (array_ok_size _ Ha2) as (m & Hm & Hpm & Hkm & _). pose proof (II_sound env _ _ _ _ _ _ _ _ _ Hrel Hd Ha2 Hn Hm Hix) as Hsound.
    cbn in Hact. destruct (eval rho1 w1 ix0) as [y|] eqn:Hy; [|done]. cbn in Hact. destruct (eval rho1 w1 data) as [v|] eqn:Hv; [|done]. cbn in Hact.
    destruct (decide (v_type v = elemTy descr)) as [Hvt|]; [|done]. injection Hact as <- <-.
    assert (Hyt : v_type y = Ity_I32) by (apply has_type_iff in Hi2; by eapply eval_type).
    rewrite (puti_element w1 descr y bias v m) in Hskip |- * by done. destruct rel; [|apply Hskip; [done|]|done].
    + injection H as <-. destruct Hsound as (<- & <- & Hel). rewrite Hn in Hm. injection Hm as <-.
      assert (y = x) as ->. { apply (eval_mono _ rho' w1 ix) in Hy; [congruence|by etrans]. }
      exists v. split; [rewrite (eval_atom rho w1) by done; by eapply eval_mono|]. rewrite (Hel (v_bits x)), <-Hvt. eapply get_put. by rewrite Hvt.
    + eapply get_put_apart; [by rewrite Hvt|exact Hn|]. destruct (Hsound (v_bits x) (v_bits y)) as [Hap|Hap]; [|by right|by left].
      intros <-. apply (eval_mono _ rho' w1 ix) in Hy; [congruence|by etrans].
  - destruct (fxState details) as [|f fxs] eqn:Hfx; cbn in H; [|done]. apply Hskip; [done|]. apply Hget. unfold writes_fx. by rewrite Hfx.
Qed.
End Find.

Lemma geti_Stmt_inv env back st st' : geti_Stmt env back st = Ok st' ->
  st' = st \/ exists tmp d t b e, st = Ist_WrTmp tmp (Iex_GetI d (Iex_RdTmp t) b) /\ st' = Ist_WrTmp tmp e
    /\ findPutI env back d (Iex_RdTmp t) b = Ok (Some e) /\ isIRAtom e = true /\ typeOfIRExpr env e = Ok (elemTy d).
Proof.
  intros H. destruct st; try (left; by injection H). destruct data; try (left; by injection H). destruct data; try (left; by injection H).
  cbn in H. apply bind_Ok_inv in H as ([e|] & Hf & H); [|left; by injection H]. destruct (isIRAtom e) eqn:Ha; [|left; by injection H].
  apply bind_Ok_inv in H as (ty & Hty & H). case_bool_decide as Heq; [|left; by injection H]. injection H as <-. right. subst. by eexists _, _, _, _, _.
Qed.

Lemma findPutI_in env back d ix b e : findPutI env back d ix b = Ok (Some e) -> exists d' ix' b', Ist_PutI d' ix' b' e ∈ back.
Proof.
  induction back as [|st back IH]; [done|]. cbn. intros H.
  assert (Hskip : findPutI env back d ix b = Ok (Some e) -> exists d' ix' b', Ist_PutI d' ix' b' e ∈ st :: back).
  { intros (d' & ix' & b' & Hin)%IH. exists d', ix', b'. by right. }
  destruct st; try (by apply Hskip).
  - inv_ok H. inv_ok H. case_match; try done. by apply Hskip.
  - inv_ok H. case_match; try done; [|by apply Hskip]. injection H as ->. eexists _, _, _. left.
  - case_match; [done|]. by apply Hskip.
Qed.

Lemma findPutI_returns env d ix b back : array_ok d = true -> isIRAtom ix = true -> bias_ok d b = true -> Forall (flat_stmt env) back ->
  forallb (index_ok env) back = true -> forallb biases_ok back = true -> exists o, findPutI env back d ix b = Ok o.
Proof.
  intros Hd Hix Hb. destruct (array_ok_size d Hd) as (n & Hn & _). induction 1 as [|st back [Hw Hf] _ IH]; [by eexists|]. cbn [forallb].
  rewrite !andb_true_iff. intros [Hi Hil] [Hbi Hbl]. specialize (IH Hil Hbl). destruct st; try done; cbn [findPutI].
  - apply andb_true_iff in Hw as [_ Ho]. cbn [operands_typed] in Ho. apply andb_true_iff in Ho as [_ Ho].
    destruct (typeOfIRExpr env data) as [ty|]; [|done]. apply slice_ok_inv in Ho as (m & Hm & _). cbn [obind].
    destruct (IC_returns d ix offset ty n m) as ([] & -> & ?); try done. by eexists.
  - cbn in Hi. apply andb_true_iff in Hi as [Ha _]. cbn in Hf. injection Hf as [Hi2 _]%andb_true_iff.
    destruct (II_returns d ix b descr ix0 bias) as ([] & ->); try done; by eexists.
  - case_match; [by eexists|done].
Qed.

Lemma geti_flat env l st st' : Forall (flat_stmt env) (l ++ [st]) -> index_ok env st = true -> biases_ok st = true -> geti_Stmt env (rev l) st = Ok st' ->
  flat_stmt env st' /\ defs st' = defs st /\ index_ok env st' = true /\ biases_ok st' = true.
Proof.
  intros [Hl [Hst _]%Forall_cons_1]%Forall_app Hi Hbi [->|(tmp & d & t & b & e & -> & -> & Hfind & Ha & Hty)]%geti_Stmt_inv; [done|].
  apply findPutI_in in Hfind as (d' & ix' & b' & Hin).
  pose proof (proj1 (Forall_forall _ _) (List.Forall_rev Hl) _ Hin) as [[_ Ho]%andb_true_iff _]. cbn [operands_typed] in Ho. rewrite !andb_true_iff in Ho. destruct Ho as [[_ He] _].
  split; [|split; [done|by destruct e]]. destruct Hst as [[Hdef Hop]%andb_true_iff _]. split; [|cbn; by destruct e].
  unfold well_typed_stmt. apply andb_true_iff. split; [done|]. cbn [operands_typed] in Hop |- *. apply andb_true_iff in Hop as [_ Hop]. rewrite He. cbn [andb].
  destruct (typeOfIRTemp env tmp) as [ty|]; [|done]. apply has_type_iff in Hop. apply has_type_iff. cbn in Hop. by injection Hop as <-.
Qed.

Lemma geti_run {V W} `{M : Machine V W} `{!MachineLaws M} `{!IntegerLaws M} `{!ArrayLaws M} env sts out w r :
  backwards (geti_Stmt env) (rev sts) = Ok out -> Forall (flat_stmt env) sts -> forallb (index_ok env) sts = true ->
  run_stmts env ∅ w sts = Some r -> run_stmts env ∅ w (rev out) = Some r.
Proof.
  intros H Hf Hi. apply (backwards_run _ _ _ _ _ _ _ H).
  intros l st l' st' rho1 w1 r1 -> [->|(tmp & d & t & b & e & -> & -> & Hfind & Ha & Hty)]%geti_Stmt_inv Hr Hrun; [done|].
  rewrite forallb_app in Hi. cbn in Hi. rewrite !andb_true_iff in Hi. destruct Hi as (Hil & [Hd Hix] & _). apply Forall_app in Hf as [Hl _].
  destruct (array_ok_size d Hd) as (n & Hn & _ & Hk & _). pose proof (run_stmts_typed _ _ _ _ _ _ (typed_empty env) Hr) as Ht.
  unfold run_stmt in *. cbn in Hrun |- *. destruct (rho1 !! t) as [x|] eqn:Hx; [|done]. cbn in Hrun.
  destruct (findPutI_run env d (Iex_RdTmp t) b n Hd Hn Hix ∅ w l Hl Hil (typed_empty env) rho1 w1 rho1 x e) as (v & Hv & Hg); try done.
  rewrite Hv. cbn. rewrite <-Hg, <-(geti_element w1 d x b n); [done|..|done|done]. apply Ht in Hx. apply has_type_iff in Hix. cbn in Hix. congruence.
Qed.

(** ** Redundant writes *)

Section Delete.
Context {V W} `{M : Machine V W} `{!MachineLaws M} `{!IntegerLaws M} `{!ArrayLaws M} `{!GuestFrame M} (env : IRTypeEnv).
Implicit Types (rho : gmap Z V) (w : W).
Context (d : IRRegArray) (ix : IRExpr) (b n : Z) (data : IRExpr) (Hd : array_ok d = true) (Hn : sizeofIRType (elemTy d) = Ok n).
Context (Hix : has_type env ix Ity_I32 = true) (Hat : isIRAtom ix = true) (x : V).

(** The offsets of the element. *)
Let o : Z := element d (v_bits x) b n.
Definition in_element (i : Z) : Prop := o <= i < o + n.

Lemma eval_args_atoms rho w w' es : forallb isIRAtom_or_VECRET_or_GSPTR es = true -> eval_args rho w' es = eval_args rho w es.
Proof.
  induction es as [|e es IH]; [done|]. cbn [forallb eval_args]. intros [He Hes]%andb_true_iff. rewrite (IH Hes). by destruct e.
Qed.

(** A call that declares no access to the guest state. *)
Lemma dirty_same D c rho w w' new w1 jump : isFlatIRStmt (Ist_Dirty c) = Ok true -> fxState c = [] -> same_but D w w' ->
  acts env rho w (Ist_Dirty c) = Some (new, w1, jump) ->
  jump = None /\ exists w1', acts env rho w' (Ist_Dirty c) = Some (new, w1', None) /\ same_but D w1 w1'.
Proof.
  intros Hf Hfx Hs Hact. cbn [acts isFlatIRStmt] in *. injection Hf as Hf. rewrite !andb_true_iff in Hf. destruct Hf as [[Hg Ha] Hm].
  rewrite (eval_args_atoms rho w w' _ Ha), (eval_atom rho w w' _ Hg). destruct (eval_args rho w (args c)) as [vs|]; [|done]. cbn in Hact |- *.
  assert (Hma : (if decide (mFx c = Ifx_None) then Some None else e ← mAddr c; v ← eval rho w' e; Some (Some v))
    = (if decide (mFx c = Ifx_None) then Some None else e ← mAddr c; v ← eval rho w e; Some (Some v))).
  { case_decide; [done|]. destruct (mAddr c) as [e|]; [|done]. cbn. by rewrite (eval_atom rho w w' e). }
  rewrite Hma. destruct (if decide _ then _ else _) as [a|]; [|done]. cbn in Hact |- *. destruct (eval rho w (guard c)) as [g|]; [|done]. cbn in Hact |- *.
  destruct (result_type env (tmp c)) as [ty|]; [|done]. cbn in Hact |- *. destruct (v_true g).
  - rewrite Hfx in *. destruct (same_call D w w' (cee c) vs (mFx c) a (mSize c) ty Hs) as [H1 H2].
    destruct (w_call w _ _ _ _ _ _ _) as [w2 v], (w_call w' _ _ _ _ _ _ _) as [w2' v']. cbn in H1, H2. subst v'. injection Hact as <- <- <-. by eauto.
  - injection Hact as <- <- <-. by eauto.
Qed.

(** A statement that does not touch the element. *)
Lemma apart_same st rho w w' new w1 jump : guestAccessWhichMightOverlapPutI env (Ist_PutI d ix b data) st = Ok false ->
  flat_stmt env st -> index_ok env st = true -> typed env rho -> eval rho w ix = Some x -> same_but in_element w w' ->
  acts env rho w st = Some (new, w1, jump) ->
  jump = None /\ exists w1', acts env rho w' st = Some (new, w1', None) /\ same_but in_element w1 w1'.
Proof.
  intros H Hst Hi Ht Hx Hs Hact. cbn in H. apply bind_Ok_inv in H as (bnds & _ & H).
  pose proof (array_ok_size d Hd) as (n0 & Hn0 & Hp & Hk & _). rewrite Hn in Hn0. injection Hn0 as <-.
  assert (Hsame : geti_ok st = true -> barrier st = false -> (forall i, in_element i -> ~ reads st i) ->
    jump = None /\ exists w1', acts env rho w' st = Some (new, w1', None) /\ same_but in_element w1 w1').
  { intros Hg Hb Hr. destruct (acts_same env in_element st rho w w' new w1 jump Hst Hg Ht Hb Hr Hs Hact) as (-> & w1' & E & Hs1). split; [done|].
    exists w1'. split; [done|]. eapply same_more; [|exact Hs1]. by intros i [? _]. }
  destruct st; try discriminate H; try (apply Hsame; [done|done|by intros i _ []]).
  - destruct data0; try (apply Hsame; [done|done|by intros i _ []]).
    + apply bind_Ok_inv in H as (rel & Hrel & H). injection H as H. apply bool_decide_eq_false in H. apply Hsame; [done|done|].
      intros i Hin (m & Hm & Hi'). destruct Hst as [[_ Ho]%andb_true_iff _]. cbn [operands_typed] in Ho. apply andb_true_iff in Ho as [Ho _].
      apply well_typed_parts in Ho. apply slice_ok_inv in Ho as (m' & Hm' & Hsl). rewrite Hm in Hm'. injection Hm' as <-.
      destruct (IC_sound _ _ _ _ _ _ _ Hrel Hd Hn Hm Hsl) as [Hne Hno]. assert (rel = NoAlias) as -> by (by apply dec_stable).
      pose proof (Hno eq_refl (v_bits x) b) as Hap. unfold in_element, o, apart in *. lia.
    + apply bind_Ok_inv in H as (rel & Hrel & H). injection H as H. apply bool_decide_eq_false in H.
      assert (rel = NoAlias) as -> by (by apply dec_stable).
      cbn in Hi. apply andb_true_iff in Hi as [Ha2 Hi2]. destruct (array_ok_size _ Ha2) as (m & Hm & Hpm & Hkm & _).
      pose proof (II_sound env _ _ _ _ _ _ _ _ _ Hrel Hd Ha2 Hn Hm Hix) as Hsound. cbn in Hact |- *.
      assert (Hat2 : isIRAtom data0 = true) by (destruct Hst as [_ Hf]; cbn in Hf; by injection Hf).
      rewrite (eval_atom rho w w' data0 Hat2). destruct (eval rho w data0) as [y|] eqn:Hy; [|done]. cbn in Hact |- *.
      assert (Hyt : v_type y = Ity_I32) by (apply has_type_iff in Hi2; by eapply eval_type).
      rewrite (geti_element w' descr y bias m) by done. rewrite (geti_element w descr y bias m) in Hact by done.
      rewrite <-(same_get in_element w w' _ _ m Hm); [|intros i Hi3 Hin|done].
      * cbn in Hact. injection Hact as <- <- <-. by eauto.
      * assert (Hap : apart o n (element descr (v_bits y) bias m) m); [|unfold in_element, apart in *; lia].
        apply Hsound. intros <-. rewrite Hx in Hy. by injection Hy as <-.
  - destruct (fxState details) eqn:Hfx; [|done]. eapply dirty_same; try done. by apply Hst.
Qed.

Lemma delete_loop_cons st sts : index_ok env st = true -> delete_loop env (Ist_PutI d ix b data) (st :: sts) = Ok true ->
  st = Ist_NoOp /\ delete_loop env (Ist_PutI d ix b data) sts = Ok true
  \/ (exists b2 data2, st = Ist_PutI d ix b2 data2 /\ forall y, element d y b n = element d y b2 n)
  \/ guestAccessWhichMightOverlapPutI env (Ist_PutI d ix b data) st = Ok false /\ delete_loop env (Ist_PutI d ix b data) sts = Ok true.
Proof.
  intros Hi H. assert (Hno : st = Ist_NoOp \/ st <> Ist_NoOp) by (destruct st; auto). destruct Hno as [->|Hno]; [by left|right].
  assert (H' : (let* same := identicalPutIs (Ist_PutI d ix b data) st in if (same : bool) then Ok true
    else match st with Ist_Exit _ _ _ _ => Ok false | _ => let* overlap := guestAccessWhichMightOverlapPutI env (Ist_PutI d ix b data) st in
      if (overlap : bool) then Ok false else delete_loop env (Ist_PutI d ix b data) sts end) = Ok true) by (by destruct st).
  clear H. apply bind_Ok_inv in H' as ([] & Hid & H).
  - left. destruct st; try discriminate Hid. cbn in Hid. apply bind_Ok_inv in Hid as (rel & Hrel & Hid). injection Hid as Hid.
    apply bool_decide_eq_true in Hid as ->. cbn in Hi. apply andb_true_iff in Hi as [Ha2 _]. destruct (array_ok_size _ Ha2) as (m & Hm & _).
    destruct (II_sound env _ _ _ _ _ _ _ _ _ Hrel Hd Ha2 Hn Hm Hix) as (<- & <- & Hel). rewrite Hn in Hm. injection Hm as <-. by eexists _, _.
  - right. destruct st; try discriminate H; apply bind_Ok_inv in H as ([] & ? & ?); done.
Qed.

(** Worlds that differ in the element only run alike: it is written again before it
    is read. *)
Lemma delete_run sts : Forall (flat_stmt env) sts -> forallb (index_ok env) sts = true -> delete_loop env (Ist_PutI d ix b data) sts = Ok true ->
  forall rho w w' r, typed env rho -> eval rho w ix = Some x -> same_but in_element w w' ->
  run_stmts env rho w sts = Some r -> run_stmts env rho w' sts = Some r.
Proof.
  induction 1 as [|st sts Hst Hf IH]; intros Hi H rho w w' r Ht Hx Hs Hr; [done|]. cbn in Hi. apply andb_true_iff in Hi as [Hi1 Hi].
  cbn in Hr |- *. apply bind_Some in Hr as (r1 & Hr1 & Hr).
  destruct (delete_loop_cons _ _ Hi1 H) as [[-> H2]|[(b2 & data2 & -> & Hel)|[Hap H2]]].
  - injection Hr1 as <-. cbn in Hr |- *. by eapply (IH Hi H2 rho w w').
  - unfold run_stmt in *. cbn in Hr1 |- *. rewrite (eval_atom rho w w' ix Hat). rewrite Hx in Hr1 |- *. cbn in Hr1 |- *.
    assert (Hat2 : isIRAtom data2 = true) by (destruct Hst as [_ Hfl]; cbn in Hfl; injection Hfl as Hfl; by apply andb_true_iff in Hfl as [_ ?]).
    rewrite (eval_atom rho w w' data2 Hat2). destruct (eval rho w data2) as [v|]; [|done]. cbn in Hr1 |- *. destruct (decide (v_type v = elemTy d)) as [Hv|]; [|done].
    cbn in Hr1 |- *. injection Hr1 as <-. replace (w_puti w' d x b2 v) with (w_puti w d x b2 v); [exact Hr|].
    pose proof (array_ok_size d Hd) as (n0 & Hn0 & Hp & Hk & _). rewrite Hn in Hn0. injection Hn0 as <-.
    assert (Hxt : v_type x = Ity_I32) by (apply has_type_iff in Hix; by eapply eval_type).
    rewrite !(puti_element _ d x b2 v n) by done. eapply same_all; [|apply same_put; [rewrite Hv; exact Hn|exact Hs]].
    intros i [Hin Hout]. apply Hout. rewrite <-(Hel (v_bits x)). exact Hin.
  - unfold run_stmt in *. apply bind_Some in Hr1 as ([[new w1] jump] & Hact & Hr1). apply bind_Some in Hr1 as (rho1 & Ha & Hr1).
    destruct (apart_same st rho w w' new w1 jump Hap Hst Hi1 Ht Hx Hs Hact) as (-> & w1' & -> & Hs1). injection Hr1 as <-. cbn [mbind option_bind].
    rewrite Ha. cbn. eapply (IH Hi H2 rho1 w1 w1'); [by eapply assign_all_typed| |done|done].
    rewrite (eval_atom rho1 w w1 ix Hat). eapply eval_mono; [by eapply assign_all_sub|done].
Qed.
End Delete.

Lemma puti_run {V W} `{M : Machine V W} `{!MachineLaws M} `{!IntegerLaws M} `{!ArrayLaws M} `{!GuestFrame M} env sts :
  forall out, puti_loop env sts = Ok out -> Forall (flat_stmt env) sts -> forallb (index_ok env) sts = true ->
  forall rho w r, typed env rho -> run_stmts env rho w sts = Some r -> run_stmts env rho w out = Some r.
Proof.
  induction sts as [|st sts IH]; intros out H Hf Hi rho w r Ht Hr; [by injection H as <-|]. inversion_clear Hf as [|? ? Hst Hl].
  cbn in Hi. apply andb_true_iff in Hi as [Hi1 Hi]. cbn in H. apply bind_Ok_inv in H as (st' & E & H). apply bind_Ok_inv in H as (out' & E' & [= <-]).
  cbn in Hr |- *. apply bind_Some in Hr as (r1 & Hr1 & Hr).
  assert (Hkeep : run_stmt env rho w st = Some r1 -> (r2 ← run_stmt env rho w st; match r2 with Goes_on rho w => run_stmts env rho w out' | Leaves _ _ _ => Some r2 end) = Some r).
  { intros ->. cbn. destruct r1 as [rho1 w1|]; [|done]. eapply (IH out' E' Hl Hi); [by eapply run_stmt_typed|done]. }
  destruct st; try (injection E as <-; by apply Hkeep). apply bind_Ok_inv in E as (del & Hdel & [= <-]). destruct del; [|by apply Hkeep]. clear Hkeep.
  cbn in Hi1. apply andb_true_iff in Hi1 as [Hd Hix]. destruct (array_ok_size _ Hd) as (n & Hn & Hp & Hk & _).
  assert (Hat : isIRAtom ix = true) by (destruct Hst as [_ Hfl]; cbn in Hfl; injection Hfl as Hfl; by apply andb_true_iff in Hfl as [? _]).
  unfold run_stmt in Hr1. cbn in Hr1 |- *. destruct (eval rho w ix) as [x|] eqn:Hx; [|done]. cbn in Hr1. destruct (eval rho w data) as [v|]; [|done]. cbn in Hr1.
  destruct (decide (v_type v = elemTy descr)) as [Hv|]; [|done]. injection Hr1 as <-. cbn in Hr.
  eapply (IH out' E' Hl Hi); [done|]. assert (Hxt : v_type x = Ity_I32) by (apply has_type_iff in Hix; by eapply eval_type).
  eapply (delete_run env descr ix bias n data Hd Hn Hix Hat x sts Hl Hi Hdel); [done| | |exact Hr]; [by rewrite (eval_atom rho w _ ix Hat)|].
  rewrite (puti_element _ descr x bias v n) by done. eapply same_put_one; [rewrite Hv; exact Hn|by intros i|apply same_refl].
Qed.

(** The statements the scan for another write knows. *)
Definition scannable (st : IRStmt) : bool :=
  match st with Ist_StoreG _ _ _ _ | Ist_LoadG _ _ _ _ _ _ | Ist_LLSC _ _ _ _ => false | _ => true end.

Lemma delete_returns env d ix b data sts : array_ok d = true -> isIRAtom ix = true -> bias_ok d b = true -> Forall (flat_stmt env) sts ->
  forallb (index_ok env) sts = true -> forallb biases_ok sts = true -> forallb scannable sts = true ->
  exists del, delete_loop env (Ist_PutI d ix b data) sts = Ok del.
Proof.
  intros Hd Hix Hb. destruct (array_ok_size d Hd) as (n & Hn & _). induction 1 as [|st sts [Hw Hf] _ IH]; [by eexists|]. cbn [forallb].
  rewrite !andb_true_iff. intros [Hi Hil] [Hbi Hbl] [Hsc Hscl]. specialize (IH Hil Hbl Hscl). destruct IH as (del & IH).
  pose proof (getArrayBounds_ok d n Hd Hn) as Hbounds. apply andb_true_iff in Hw as [_ Ho].
  assert (Hrel : forall rel : GSAliasing, exists del, (if bool_decide (rel <> NoAlias) then Ok false else delete_loop env (Ist_PutI d ix b data) sts) = Ok del)
    by (intros rel; case_bool_decide; by eexists).
  destruct st; try done; cbn [delete_loop identicalPutIs guestAccessWhichMightOverlapPutI obind]; rewrite ?Hbounds; cbn [obind]; try (by eexists).
  - cbn [operands_typed] in Ho. apply andb_true_iff in Ho as [_ Ho]. cbn in Hf. injection Hf as ->. cbn [assert_that obind].
    destruct (typeOfIRExpr env data0) as [ty|]; [|done]. apply slice_ok_inv in Ho as (m & Hm & _). cbn [obind].
    destruct (IC_returns d ix offset ty n m) as (rel & -> & _); try done. cbn [obind]. apply Hrel.
  - cbn in Hi. apply andb_true_iff in Hi as [Ha _]. cbn in Hf. injection Hf as [Hi2 Hi3]%andb_true_iff.
    destruct (II_returns d ix b descr ix0 bias) as (rel & ->); try done. rewrite Hi2, Hi3. cbn [obind assert_that]. case_bool_decide; [by eexists|apply Hrel].
  - apply andb_true_iff in Ho as [Ho _]. destruct data0; try (by eexists).
    + apply well_typed_parts in Ho. apply slice_ok_inv in Ho as (m & Hm & _). destruct (IC_returns d ix offset ty n m) as (rel & -> & _); try done. cbn [obind]. apply Hrel.
    + cbn in Hi. apply andb_true_iff in Hi as [Ha _]. cbn in Hf. injection Hf as Hi2.
      destruct (II_returns d ix b descr data0 bias) as (rel & ->); try done. cbn [obind]. apply Hrel.
  - cbn in Hf. injection Hf as [-> ->]%andb_true_iff. by eexists.
  - case_match; by eexists.
Qed.

Lemma puti_returns env sts : Forall (flat_stmt env) sts -> forallb (index_ok env) sts = true -> forallb biases_ok sts = true -> forallb scannable sts = true ->
  exists out, puti_loop env sts = Ok out /\ Forall2 (fun st st' => st' = st \/ st' = Ist_NoOp /\ exists d ix b data, st = Ist_PutI d ix b data) sts out.
Proof.
  induction 1 as [|st sts [Hw Hf] Hl IH]; [by exists []|]. cbn [forallb]. rewrite !andb_true_iff. intros [Hi Hil] [Hb Hbl] [Hs Hsl].
  destruct (IH Hil Hbl Hsl) as (out & E & HF).
  assert (Hst : exists st', (match st with Ist_PutI _ _ _ _ => let* delete := delete_loop env st sts in Ok (if delete then Ist_NoOp else st) | _ => Ok st end) = Ok st'
    /\ (st' = st \/ st' = Ist_NoOp /\ exists d ix b data, st = Ist_PutI d ix b data)).
  { destruct st; try (eexists; by split; [|left]). cbn in Hi. apply andb_true_iff in Hi as [Hd _]. cbn in Hf. injection Hf as [Hat _]%andb_true_iff.
    destruct (delete_returns env descr ix bias data sts) as (del & ->); try done. cbn. eexists. split; [done|]. destruct del; [right|by left]. split; [done|]. by eexists _, _, _, _. }
  destruct Hst as (st' & E1 & Hst'). cbn [puti_loop]. rewrite E1. cbn [obind]. rewrite E. cbn [obind]. eexists. split; [done|]. by constructor.
Qed.

(** ** The passes *)

Lemma Forall2_forallb {A B} (f : B -> bool) (l : list A) (k : list B) : Forall2 (fun _ y => f y = true) l k -> forallb f k = true.
Proof. induction 1 as [|x y l k Hy _ IH]; [done|]. cbn. by rewrite Hy. Qed.

Lemma forallb_back {A} (f : A -> bool) l : forallb f l = true -> forallb f (rev l) = true.
Proof. intros H. apply List.forallb_forall. intros x Hx%List.in_rev. by eapply List.forallb_forall in H. Qed.

Section Blocks.
Context (bb : IRSB) (Hbb : flat_block bb) (Ha : arrays_ok bb = true).

(** What a statement of the block with those before it satisfies. *)
Lemma at_place (f : IRStmt -> bool) l st l' : stmts bb = l ++ st :: l' -> forallb f (stmts bb) = true ->
  Forall (flat_stmt (tyenv bb)) (l ++ [st]) /\ index_ok (tyenv bb) st = true /\ f st = true.
Proof.
  intros E Hf. destruct Hbb as (Hs & _). unfold arrays_ok in Ha. rewrite E in *. rewrite cons_middle, app_assoc in Hs. apply Forall_app in Hs as [Hs _].
  rewrite forallb_app in Ha, Hf. cbn in Ha, Hf. rewrite !andb_true_iff in Ha, Hf. by destruct_and?.
Qed.

Lemma collapse_block out : collapse_AddSub_chains_BB bb = Ok out ->
  flat_block out /\ arrays_ok out = true /\ tyenv out = tyenv bb
  /\ (forallb ring_ok (stmts bb) = true -> forall V W (M : Machine V W) (HI : IntegerLaws M), MachineLaws M -> ArrayLaws M ->
        forall w r, run_block bb w = Some r -> run_block out w = Some r).
Proof.
  intros (rout & E & [= <-])%bind_Ok_inv. pose proof (backwards_Forall2 _ _ _ E) as HF.
  assert (HF' : Forall2 (fun st st' => (flat_stmt (tyenv bb) st' /\ defs st' = defs st) /\ index_ok (tyenv bb) st' = true) (stmts bb) (rev rout)).
  { eapply Forall2_impl; [exact HF|]. intros st st' (l & l' & Hl & Hst). destruct (at_place _ l st l' Hl Ha) as (Hs & Hi & _).
    destruct (collapsed_flat (tyenv bb) l st st') as (? & ? & ?); try done. by apply collapse_Stmt_inv. }
  split; [|split; [|split; [done|]]].
  - apply flat_block_other; [done|]. eapply Forall2_impl; [exact HF'|]. by intros st st' [? _].
  - eapply Forall2_forallb, Forall2_impl; [exact HF'|]. by intros st st' [_ ?].
  - intros Hring V W M HI HM HA w r Hr. unfold run_block in *. cbn. apply bind_Some in Hr as (r1 & Hr1 & Hr).
    by rewrite (collapse_run (tyenv bb) (stmts bb) rout w r1 E (proj1 Hbb) Ha Hring Hr1).
Qed.

Lemma geti_block out : forallb biases_ok (stmts bb) = true -> do_redundant_GetI_elimination bb = Ok out ->
  flat_block out /\ arrays_ok out = true /\ forallb biases_ok (stmts out) = true /\ tyenv out = tyenv bb
  /\ (forallb scannable (stmts bb) = true -> forallb scannable (stmts out) = true)
  /\ (forall V W (M : Machine V W) (HI : IntegerLaws M), MachineLaws M -> ArrayLaws M ->
        forall w r, run_block bb w = Some r -> run_block out w = Some r).
Proof.
  intros Hb (rout & E & [= <-])%bind_Ok_inv. pose proof (backwards_Forall2 _ _ _ E) as HF.
  assert (HF' : Forall2 (fun st st' => (flat_stmt (tyenv bb) st' /\ defs st' = defs st) /\ index_ok (tyenv bb) st' = true /\ biases_ok st' = true) (stmts bb) (rev rout)).
  { eapply Forall2_impl; [exact HF|]. intros st st' (l & l' & Hl & Hst). destruct (at_place _ l st l' Hl Hb) as (Hs & Hi & Hbi).
    by destruct (geti_flat (tyenv bb) l st st') as (? & ? & ? & ?). }
  split; [|split; [|split; [|split; [done|split]]]].
  - apply flat_block_other; [done|]. eapply Forall2_impl; [exact HF'|]. by intros st st' [? _].
  - eapply Forall2_forallb, Forall2_impl; [exact HF'|]. by intros st st' (_ & ? & _).
  - eapply Forall2_forallb, Forall2_impl; [exact HF'|]. by intros st st' (_ & _ & ?).
  - intros Hsc. eapply Forall2_forallb, Forall2_impl; [exact HF|]. intros st st' (l & l' & Hl & Hst). destruct (at_place _ l st l' Hl Hsc) as (_ & _ & Hs).
    by apply geti_Stmt_inv in Hst as [->|(? & ? & ? & ? & ? & -> & -> & _)].
  - intros V W M HI HM HA w r Hr. unfold run_block in *. cbn. apply bind_Some in Hr as (r1 & Hr1 & Hr).
    by rewrite (geti_run (tyenv bb) (stmts bb) rout w r1 E (proj1 Hbb) Ha Hr1).
Qed.

Lemma geti_block_returns : forallb biases_ok (stmts bb) = true -> exists out, do_redundant_GetI_elimination bb = Ok out.
Proof.
  intros Hb. unfold do_redundant_GetI_elimination. destruct (backwards_returns (geti_Stmt (tyenv bb)) (stmts bb)) as (out & ->); [|by eexists].
  intros l st l' Hl. destruct (at_place _ l st l' Hl Hb) as ([Hs [[_ Hf] _]%Forall_cons_1]%Forall_app & Hi & Hbi).
  unfold arrays_ok in Ha. rewrite Hl, forallb_app in Ha, Hb. apply andb_true_iff in Ha as [Hil _], Hb as [Hbl _].
  destruct st; try (by eexists). destruct data; try (by eexists). destruct data; try (by eexists). cbn [geti_Stmt].
  cbn in Hi. apply andb_true_iff in Hi as [Hd _]. destruct (findPutI_returns (tyenv bb) descr (Iex_RdTmp tmp0) bias (rev l)) as ([e|] & Hfind); try done; try (by apply forallb_back); [by apply List.Forall_rev|..].
  - rewrite Hfind. cbn [obind]. destruct (isIRAtom e); [|by eexists]. apply findPutI_in in Hfind as (d' & ix' & b' & Hin).
    pose proof (proj1 (Forall_forall _ _) (List.Forall_rev Hs) _ Hin) as [[_ Ho]%andb_true_iff _]. cbn [operands_typed] in Ho. rewrite !andb_true_iff in Ho.
    destruct Ho as [[_ He] _]. destruct (well_typed_type _ _ He) as [ty ->]. by eexists.
  - rewrite Hfind. by eexists.
Qed.

Lemma puti_block px out : do_redundant_PutI_elimination bb px = Ok out ->
  (Forall2 (fun st st' => st' = st \/ st' = Ist_NoOp /\ exists d ix b data, st = Ist_PutI d ix b data) (stmts bb) (stmts out) -> flat_block out) /\ tyenv out = tyenv bb
  /\ (forall V W (M : Machine V W) (HI : IntegerLaws M), MachineLaws M -> ArrayLaws M -> GuestFrame M ->
        forall w r, run_block bb w = Some r -> run_block out w = Some r).
Proof.
  intros (_ & _ & (sts & E & [= <-])%bind_Ok_inv)%bind_Ok_inv. split; [|split; [done|]].
  - intros HF. apply flat_block_other; [done|]. destruct Hbb as (Hs & _). cbn in HF. clear -Hs HF. induction HF as [|st st' l l' Hst _ IH]; [constructor|].
    inversion_clear Hs as [|? ? Hst0 Hl]. constructor; [|by apply IH]. by destruct Hst as [->|(-> & d & ix & b & data & ->)].
  - intros V W M HI HM HA HG w r Hr. unfold run_block in *. cbn. apply bind_Some in Hr as (r1 & Hr1 & Hr).
    by rewrite (puti_run (tyenv bb) (stmts bb) sts E (proj1 Hbb) Ha ∅ w r1 (typed_empty _) Hr1).
Qed.

Lemma puti_block_returns px : px <> VexRegUpdAllregsAtEachInsn -> forallb biases_ok (stmts bb) = true -> forallb scannable (stmts bb) = true ->
  exists out, do_redundant_PutI_elimination bb px = Ok out
    /\ Forall2 (fun st st' => st' = st \/ st' = Ist_NoOp /\ exists d ix b data, st = Ist_PutI d ix b data) (stmts bb) (stmts out).
Proof.
  intros Hpx Hb Hs. unfold do_redundant_PutI_elimination. rewrite bool_decide_eq_true_2 by done. cbn [assert_that obind].
  destruct (puti_returns (tyenv bb) (stmts bb) (proj1 Hbb) Ha Hb Hs) as (out & -> & HF). by eexists.
Qed.
End Blocks.

(** ** The theorems *)

(** C12: the collapsing of chains of [Add32] and [Sub32] with constants, for a flat
    block that is well typed, with arrays in the guest state indexed by numbers of
    32 bits.  The pass returns when the temporaries a chain goes through are
    assigned by earlier [WrTmp]s and the constants of the block add up to less than
    [2^31] (else it panics, or an [int] overflows), and the new block is flat and
    well typed.  Whenever it returns, and the lengths of the arrays divide [2^32],
    on any machine that obeys the laws every run of the block that ends in a world
    is one of the new block: a temporary that chains to [t + c] is [t + c] modulo
    [2^32], so indices denote the same elements. *)
Theorem collapse_AddSub_chains_BB_correct bb (Hw : well_typed_block bb = true) (Hf : isFlatIRSB bb = Ok true) (Ha : arrays_ok bb = true) :
  (chains_bound [] (stmts bb) = true -> weights (stmts bb) < 2 ^ 31 -> exists out, collapse_AddSub_chains_BB bb = Ok out)
  /\ forall out, collapse_AddSub_chains_BB bb = Ok out ->
       isFlatIRSB out = Ok true /\ well_typed_block out = true /\ arrays_ok out = true
       /\ (forallb ring_ok (stmts bb) = true -> forall V W (M : Machine V W) (HI : IntegerLaws M), MachineLaws M -> ArrayLaws M ->
             forall w r, run_block bb w = Some r -> run_block out w = Some r).
Proof.
  assert (Hbb : flat_block bb) by (by apply flat_block_iff). split.
  - intros Hb Hs. unfold collapse_AddSub_chains_BB. destruct (collapse_returns (tyenv bb) (stmts bb) (proj1 Hbb) Hb Hs) as (out & ->). by eexists.
  - intros out E. destruct (collapse_block bb Hbb Ha out E) as (Hout & Ha' & _ & Hrun). by apply flat_block_iff in Hout as [? ?].
Qed.

(** C11: the removal of redundant accesses to arrays of guest registers: a [GetI]
    becomes the atom that a [PutI] before it has written, and a [PutI] that
    another writes over is deleted.  For a flat block that is well typed, with
    arrays in the guest state indexed by numbers of 32 bits, biases that ten
    times the length of the array make positive (else it panics) and keep below
    2^31, and none of the
    statements the scan of [PutI]s panics for, both passes return, with blocks that
    are flat and well typed again, when [pxControl] is not
    [VexRegUpdAllregsAtEachInsn], for which the second pass fails its assertion
    (see [putis_asserted_at_each_insn]).  On any machine that obeys the laws every run of the
    block that ends in a world is one of the new block. *)
Theorem redundant_GetI_PutI_correct bb pxControl (Hw : well_typed_block bb = true) (Hf : isFlatIRSB bb = Ok true) (Ha : arrays_ok bb = true)
    (Hb : forallb biases_ok (stmts bb) = true) (Hs : forallb scannable (stmts bb) = true) (Hpx : pxControl <> VexRegUpdAllregsAtEachInsn) :
  exists mid out, do_redundant_GetI_elimination bb = Ok mid /\ do_redundant_PutI_elimination mid pxControl = Ok out
    /\ isFlatIRSB out = Ok true /\ well_typed_block out = true
    /\ Forall2 (fun st st' => st' = st \/ st' = Ist_NoOp /\ exists d ix b data, st = Ist_PutI d ix b data) (stmts mid) (stmts out)
    /\ forall V W (M : Machine V W) (HI : IntegerLaws M), MachineLaws M -> ArrayLaws M -> GuestFrame M ->
         forall w r, run_block bb w = Some r -> run_block mid w = Some r /\ run_block out w = Some r.
Proof.
  assert (Hbb : flat_block bb) by (by apply flat_block_iff).
  destruct (geti_block_returns bb Hbb Ha Hb) as (mid & E1). destruct (geti_block bb Hbb Ha mid Hb E1) as (Hm & Ham & Hbm & _ & Hsm & Hr1).
  destruct (puti_block_returns mid Hm Ham pxControl Hpx Hbm (Hsm Hs)) as (out & E2 & HF).
  destruct (puti_block mid Hm Ham pxControl out E2) as (Hout & _ & Hr2). specialize (Hout HF). exists mid, out.
  apply flat_block_iff in Hout as [? ?]. split_and!; [done..|]. intros V W M HI HM HA HG w r Hr. specialize (Hr1 V W M HI HM HA w r Hr). split; [done|exact (Hr2 V W M HI HM HA HG w r Hr1)].
Qed.

(** The floating point registers of amd64: an access by a top of stack that is moved
    twice, and a read of the register that was written. *)
Definition fpregs : IRRegArray := mk_IRRegArray 768 Ity_F64 8.
Definition chain_block : IRSB :=
  mk_IRSB [Ity_I32; Ity_I32; Ity_I32; Ity_F64]
    [Ist_WrTmp 0 (Iex_Get 896 Ity_I32);
     Ist_WrTmp 1 (Iex_Binop Iop_Add32 (Iex_RdTmp 0) (Iex_Const (Ico_U32 1)));
     Ist_WrTmp 2 (Iex_Binop Iop_Sub32 (Iex_RdTmp 1) (Iex_Const (Ico_U32 3)));
     Ist_PutI fpregs (Iex_RdTmp 2) 0 (Iex_Const (Ico_F64i 5));
     Ist_WrTmp 3 (Iex_GetI fpregs (Iex_RdTmp 1) (-3));
     Ist_Put 16 (Iex_RdTmp 3);
     Ist_PutI fpregs (Iex_RdTmp 2) 8 (Iex_Const (Ico_F64i 6))]
    (Iex_Const (Ico_U64 4096)) Ijk_Boring 184.

Lemma collapse_AddSub_chains_BB_correct_witness :
  exists out, collapse_AddSub_chains_BB chain_block = Ok out
    /\ (run_block chain_block put_world <> None /\ forall r, run_block chain_block put_world = Some r -> run_block out put_world = Some r).
Proof.
  destruct (collapse_AddSub_chains_BB_correct chain_block) as [Hret Hall]; [vm_compute; reflexivity..|].
  destruct Hret as (out & E); [vm_compute; reflexivity..|]. exists out. split; [exact E|]. split; [vm_compute; discriminate|].
  destruct (Hall out E) as (_ & _ & _ & H). intros r. apply (H ltac:(vm_compute; reflexivity) _ _ machine machine_integers machine_laws machine_arrays).
Defined.

(** All accesses are indexed by the register that was read. *)
Definition collapsed_block : IRSB :=
  chain_block <| stmts :=
    [Ist_WrTmp 0 (Iex_Get 896 Ity_I32);
     Ist_WrTmp 1 (Iex_Binop Iop_Add32 (Iex_RdTmp 0) (Iex_Const (Ico_U32 1)));
     Ist_WrTmp 2 (Iex_Binop Iop_Sub32 (Iex_RdTmp 0) (Iex_Const (Ico_U32 2)));
     Ist_PutI fpregs (Iex_RdTmp 0) (-2) (Iex_Const (Ico_F64i 5));
     Ist_WrTmp 3 (Iex_GetI fpregs (Iex_RdTmp 0) (-2));
     Ist_Put 16 (Iex_RdTmp 3);
     Ist_PutI fpregs (Iex_RdTmp 0) 6 (Iex_Const (Ico_F64i 6))] |>.

Example putis_asserted_at_each_insn : forall bb, do_redundant_PutI_elimination bb VexRegUpdAllregsAtEachInsn = Err AssertFail.
Proof. reflexivity. Qed.

Example chains_collapsed : collapse_AddSub_chains_BB chain_block = Ok collapsed_block.
Proof. vm_compute. reflexivity. Qed.

Lemma redundant_GetI_PutI_correct_witness :
  exists mid out, do_redundant_GetI_elimination collapsed_block = Ok mid /\ do_redundant_PutI_elimination mid VexRegUpdSpAtMemAccess = Ok out
    /\ (run_block collapsed_block put_world <> None /\ forall r, run_block collapsed_block put_world = Some r -> run_block out put_world = Some r).
Proof.
  destruct (redundant_GetI_PutI_correct collapsed_block VexRegUpdSpAtMemAccess) as (mid & out & E1 & E2 & _ & _ & _ & H);
    [vm_compute; reflexivity..|discriminate|].
  exists mid, out. split; [exact E1|]. split; [exact E2|]. split; [vm_compute; discriminate|]. intros r Hr.
  apply (H _ _ machine machine_integers machine_laws machine_arrays machine_frame put_world r Hr).
Defined.

(** The read is the number that was written; the write is gone. *)
Example array_accesses_removed :
  (let* mid := do_redundant_GetI_elimination collapsed_block in let* out := do_redundant_PutI_elimination mid VexRegUpdSpAtMemAccess in Ok (drop 3 (stmts out)))
  = Ok [Ist_NoOp; Ist_WrTmp 3 (Iex_Const (Ico_F64i 5)); Ist_Put 16 (Iex_RdTmp 3); Ist_PutI fpregs (Iex_RdTmp 0) 6 (Iex_Const (Ico_F64i 6))].
Proof. vm_compute. reflexivity. Qed.

(** ** Where the passes stop, or go wrong *)

(** A sum with a temporary that a dirty call or a guarded load assigns is well
    formed, but the scan finds no [WrTmp] and panics. *)
Definition guarded_block : IRSB :=
  mk_IRSB [Ity_I32; Ity_I32]
    [Ist_LoadG Iend_LE ILGop_Ident32 0 (Iex_Const (Ico_U64 64)) (Iex_Const (Ico_U32 0)) (Iex_Const (Ico_U1 1));
     Ist_WrTmp 1 (Iex_Binop Iop_Add32 (Iex_RdTmp 0) (Iex_Const (Ico_U32 1)))]
    (Iex_Const (Ico_U64 4096)) Ijk_Boring 184.

Example chain_from_load_panics :
  well_typed_block guarded_block = true /\ isFlatIRSB guarded_block = Ok true /\ collapse_AddSub_chains_BB guarded_block = Err Panic.
Proof. vm_compute. auto. Qed.

(** [0x7FFFFFFF + 1] is computed in an [int]. *)
Example chain_constants_overflow :
  collapse_AddSub_chains_BB (chain_block <| stmts :=
    [Ist_WrTmp 0 (Iex_Get 896 Ity_I32);
     Ist_WrTmp 1 (Iex_Binop Iop_Add32 (Iex_RdTmp 0) (Iex_Const (Ico_U32 1)));
     Ist_WrTmp 2 (Iex_Binop Iop_Add32 (Iex_RdTmp 1) (Iex_Const (Ico_U32 0x7FFFFFFF)))] |>) = Err Undefined.
Proof. vm_compute. reflexivity. Qed.

(** With an array of 3 registers the new index is another one when the sum wraps
    around: [(0xFFFFFFFF + 1) mod 2^32 = 0], but [(0xFFFFFFFF + 1) mod 3 = 1]. *)
Definition three_block : IRSB :=
  mk_IRSB [Ity_I32; Ity_I32; Ity_I64]
    [Ist_Put 768 (Iex_Const (Ico_U64 7));
     Ist_WrTmp 0 (Iex_Const (Ico_U32 0xFFFFFFFF));
     Ist_WrTmp 1 (Iex_Binop Iop_Add32 (Iex_RdTmp 0) (Iex_Const (Ico_U32 1)));
     Ist_WrTmp 2 (Iex_GetI (mk_IRRegArray 768 Ity_I64 3) (Iex_RdTmp 1) 0);
     Ist_Store Iend_LE (Iex_Const (Ico_U64 0)) (Iex_RdTmp 2)]
    (Iex_Const (Ico_U64 4096)) Ijk_Boring 184.

Example array_of_three :
  let stored bb := (fun r => mem r.1.1 !! 0) <$> run_block bb put_world in
  stored three_block = Some (Some 7)
  /\ (stored <$> match collapse_AddSub_chains_BB three_block with Ok out => Some out | Err _ => None end) = Some (Some (Some 0)).
Proof. vm_compute. auto. Qed.

(** A bias further below 0 than ten times the length panics. *)
Example far_bias_panics : getAliasingRelation_II fpregs (Iex_RdTmp 0) (-81) fpregs (Iex_RdTmp 0) 0 = Err Panic.
Proof. vm_compute. reflexivity. Qed.

(** The scan of a [PutI] panics at a guarded load. *)
Example puti_then_guarded_load_panics :
  do_redundant_PutI_elimination (guarded_block <| stmts := [Ist_PutI fpregs (Iex_Const (Ico_U32 0)) 0 (Iex_Const (Ico_F64i 5));
    Ist_LoadG Iend_LE ILGop_Ident32 0 (Iex_Const (Ico_U64 64)) (Iex_Const (Ico_U32 0)) (Iex_Const (Ico_U1 1))] |>) VexRegUpdSpAtMemAccess = Err Panic.
Proof. vm_compute. reflexivity. Qed.

(** When all registers are to be up to date at memory accesses, a [PutI] before a
    store is removed nevertheless. *)
Example puti_before_store_removed :
  (stmts <$> match do_redundant_PutI_elimination (guarded_block <| stmts :=
    [Ist_PutI fpregs (Iex_Const (Ico_U32 0)) 0 (Iex_Const (Ico_F64i 5));
     Ist_Store Iend_LE (Iex_Const (Ico_U64 64)) (Iex_Const (Ico_U64 0));
     Ist_PutI fpregs (Iex_Const (Ico_U32 0)) 0 (Iex_Const (Ico_F64i 6))] |>) VexRegUpdAllregsAtMemAccess with Ok out => Some out | Err _ => None end)
  = Some [Ist_NoOp;
          Ist_Store Iend_LE (Iex_Const (Ico_U64 64)) (Iex_Const (Ico_U64 0));
          Ist_PutI fpregs (Iex_Const (Ico_U32 0)) 0 (Iex_Const (Ico_F64i 6))].
Proof. vm_compute. reflexivity. Qed.
