(* ===== verification/Cse.v ===== *)
(** * Common subexpressions: VEX/priv/ir_opt.c

    [do_cse_BB] with the available expressions it keeps.  The keys of the map of
    available expressions are pointers to new [AvailExpr]s, for which the number
    of the statement stands; the expression itself is kept with the temporary. *)

From S2P Require Import Prelude Primop IR GetPut GuestArrays.

(** ** Available expressions *)

#[export] Instance IREndness_eq_dec : EqDecision IREndness.
Proof. solve_decision. Defined.

Inductive TmpOrConst := TCc (con : IRConst) | TCt (tmp : Z).

Definition eqTmpOrConst (tc1 tc2 : TmpOrConst) : bool :=
  match tc1, tc2 with
  | TCc c1, TCc c2 => eqIRConst c1 c2
  | TCt t1, TCt t2 => t1 =? t2
  | _, _ => false
  end.

Definition eqIRCallee (cee1 cee2 : IRCallee) : outcome bool :=
  let eq := bool_decide (addr cee1 = addr cee2) in
  let* _ := if eq then
      let* _ := assert_that (regparms cee1 =? regparms cee2) in assert_that (mcx_mask cee1 =? mcx_mask cee2)
    else Ok tt in
  Ok eq.

Definition irExpr_to_TmpOrConst (e : IRExpr) : outcome TmpOrConst :=
  match e with
  | Iex_RdTmp t => Ok (TCt t)
  | Iex_Const c => Ok (TCc c)
  | _ => Err Panic
  end.

Definition tmpOrConst_to_IRExpr (tc : TmpOrConst) : IRExpr :=
  match tc with TCc c => Iex_Const c | TCt t => Iex_RdTmp t end.

Fixpoint irExprVec_to_TmpOrConsts (ins : list IRExpr) : outcome (list TmpOrConst) :=
  match ins with
  | [] => Ok []
  | arg :: ins =>
      let* dst := irExpr_to_TmpOrConst arg in
      let* outs := irExprVec_to_TmpOrConsts ins in
      Ok (dst :: outs)
  end.

Inductive AvailExpr :=
| Ut (op : Z) (arg : Z)
| Btt (op : Z) (arg1 arg2 : Z)
| Btc (op : Z) (arg1 : Z) (con2 : IRConst)
| Bct (op : Z) (con1 : IRConst) (arg2 : Z)
| Cf64i (f64i : Z)
| Ittt (co e1 e0 : Z)
| Ittc (co e1 : Z) (con0 : IRConst)
| Itct (co : Z) (con1 : IRConst) (e0 : Z)
| Itcc (co : Z) (con1 con0 : IRConst)
| GetIt (descr : IRRegArray) (ix : Z) (bias : Z)
| CCall (cee : IRCallee) (args : list TmpOrConst) (retty : IRType)
| LoadE (end_ : IREndness) (ty : IRType) (addr : TmpOrConst).

(** The loop over the arguments of two calls with as many. *)
Fixpoint eq_args (args1 args2 : list TmpOrConst) : bool :=
  match args1, args2 with
  | [], [] => true
  | x :: args1, y :: args2 => if eqTmpOrConst x y then eq_args args1 args2 else false
  | _, _ => false
  end.

Definition eq_AvailExpr (a1 a2 : AvailExpr) : outcome bool :=
  match a1, a2 with
  | Ut op arg, Ut op' arg' => Ok ((op =? op') && (arg =? arg'))
  | Btt op x y, Btt op' x' y' => Ok ((op =? op') && (x =? x') && (y =? y'))
  | Btc op x c, Btc op' x' c' => Ok ((op =? op') && (x =? x') && eqIRConst c c')
  | Bct op c y, Bct op' c' y' => Ok ((op =? op') && (y =? y') && eqIRConst c c')
  | Cf64i f, Cf64i f' => Ok (f =? f')
  | Ittt co e1 e0, Ittt co' e1' e0' => Ok ((co =? co') && (e1 =? e1') && (e0 =? e0'))
  | Ittc co e1 c0, Ittc co' e1' c0' => Ok ((co =? co') && (e1 =? e1') && eqIRConst c0 c0')
  | Itct co c1 e0, Itct co' c1' e0' => Ok ((co =? co') && eqIRConst c1 c1' && (e0 =? e0'))
  | Itcc co c1 c0, Itcc co' c1' c0' => Ok ((co =? co') && eqIRConst c1 c1' && eqIRConst c0 c0')
  | GetIt d ix b, GetIt d' ix' b' => Ok (eqIRRegArray d d' && (ix =? ix') && (b =? b'))
  | CCall cee args retty, CCall cee' args' retty' =>
      if (length args =? length args')%nat then
        let* eq := eqIRCallee cee cee' in
        let eq := if eq then eq_args args args' else false in
        let* _ := if eq then assert_that (bool_decide (retty = retty')) else Ok tt in
        Ok eq
      else Ok false
  | LoadE en ty a, LoadE en' ty' a' => Ok (bool_decide (en = en') && bool_decide (ty = ty') && eqTmpOrConst a a')
  | _, _ => Ok false
  end.

Definition availExpr_to_IRExpr (ae : AvailExpr) : IRExpr :=
  match ae with
  | Ut op arg => Iex_Unop op (Iex_RdTmp arg)
  | Btt op x y => Iex_Binop op (Iex_RdTmp x) (Iex_RdTmp y)
  | Btc op x c => Iex_Binop op (Iex_RdTmp x) (Iex_Const c)
  | Bct op c y => Iex_Binop op (Iex_Const c) (Iex_RdTmp y)
  | Cf64i f => Iex_Const (Ico_F64i f)
  | Ittt co e1 e0 => Iex_ITE (Iex_RdTmp co) (Iex_RdTmp e1) (Iex_RdTmp e0)
  | Ittc co e1 c0 => Iex_ITE (Iex_RdTmp co) (Iex_RdTmp e1) (Iex_Const c0)
  | Itct co c1 e0 => Iex_ITE (Iex_RdTmp co) (Iex_Const c1) (Iex_RdTmp e0)
  | Itcc co c1 c0 => Iex_ITE (Iex_RdTmp co) (Iex_Const c1) (Iex_Const c0)
  | GetIt d ix b => Iex_GetI d (Iex_RdTmp ix) b
  | CCall cee args retty => Iex_CCall cee retty (map tmpOrConst_to_IRExpr args)
  | LoadE en ty a => Iex_Load en ty (tmpOrConst_to_IRExpr a)
  end.

Definition subst_AvailExpr_Temp (env : HashHW Z) (tmp : Z) : Z :=
  match lookupHHW env tmp with Some res => res | None => tmp end.

Definition subst_AvailExpr_TmpOrConst (tc : TmpOrConst) (env : HashHW Z) : TmpOrConst :=
  match tc with TCt t => TCt (subst_AvailExpr_Temp env t) | TCc c => TCc c end.

Definition subst_AvailExpr (env : HashHW Z) (ae : AvailExpr) : AvailExpr :=
  let f := subst_AvailExpr_Temp env in
  match ae with
  | Ut op arg => Ut op (f arg)
  | Btt op x y => Btt op (f x) (f y)
  | Btc op x c => Btc op (f x) c
  | Bct op c y => Bct op c (f y)
  | Cf64i k => Cf64i k
  | Ittt co e1 e0 => Ittt (f co) (f e1) (f e0)
  | Ittc co e1 c0 => Ittc (f co) (f e1) c0
  | Itct co c1 e0 => Itct (f co) c1 (f e0)
  | Itcc co c1 c0 => Itcc (f co) c1 c0
  | GetIt d ix b => GetIt d (f ix) b
  | CCall cee args retty => CCall cee (map (fun tc => subst_AvailExpr_TmpOrConst tc env) args) retty
  | LoadE en ty a => LoadE en ty (subst_AvailExpr_TmpOrConst a env)
  end.

Definition irExpr_to_AvailExpr (e : IRExpr) (allowLoadsToBeCSEd : bool) : outcome (option AvailExpr) :=
  match e with
  | Iex_Unop op (Iex_RdTmp t) => Ok (Some (Ut op t))
  | Iex_Binop op (Iex_RdTmp x) (Iex_RdTmp y) => Ok (Some (Btt op x y))
  | Iex_Binop op (Iex_RdTmp x) (Iex_Const c) => Ok (Some (Btc op x c))
  | Iex_Binop op (Iex_Const c) (Iex_RdTmp y) => Ok (Some (Bct op c y))
  | Iex_Const (Ico_F64i f) => Ok (Some (Cf64i f))
  | Iex_ITE (Iex_RdTmp co) (Iex_RdTmp e1) (Iex_RdTmp e0) => Ok (Some (Ittt co e1 e0))
  | Iex_ITE (Iex_RdTmp co) (Iex_Const c1) (Iex_RdTmp e0) => Ok (Some (Itct co c1 e0))
  | Iex_ITE (Iex_RdTmp co) (Iex_RdTmp e1) (Iex_Const c0) => Ok (Some (Ittc co e1 c0))
  | Iex_ITE (Iex_RdTmp co) (Iex_Const c1) (Iex_Const c0) => Ok (Some (Itcc co c1 c0))
  | Iex_GetI d (Iex_RdTmp ix) b => Ok (Some (GetIt d ix b))
  | Iex_CCall cee retty args =>
      let* args := irExprVec_to_TmpOrConsts args in Ok (Some (CCall cee args retty))
  | Iex_Load en ty a =>
      if allowLoadsToBeCSEd then let* a := irExpr_to_TmpOrConst a in Ok (Some (LoadE en ty a)) else Ok None
  | _ => Ok None
  end.

(** ** The pass *)

Section Pass.
Context (tyenv : IRTypeEnv) (allowLoadsToBeCSEd : bool).

(** How much a statement may invalidate. *)
Definition paranoia (st : IRStmt) : Z :=
  match st with
  | Ist_Dirty _ | Ist_Store _ _ _ | Ist_MBE _ | Ist_CAS _ | Ist_LLSC _ _ _ _ | Ist_StoreG _ _ _ _ => 2
  | Ist_Put _ _ | Ist_PutI _ _ _ _ => 1
  | Ist_NoOp | Ist_IMark _ _ _ | Ist_AbiHint _ _ _ | Ist_WrTmp _ _ | Ist_Exit _ _ _ _ | Ist_LoadG _ _ _ _ _ _ => 0
  end.

Definition invalidates (st : IRStmt) (ae : AvailExpr) : outcome bool :=
  match ae with
  | GetIt d ix b =>
      if 2 <=? paranoia st then Ok true
      else match st with
      | Ist_Put offset data =>
          let* ty := typeOfIRExpr tyenv data in
          let* relation := getAliasingRelation_IC d (Iex_RdTmp ix) offset ty in
          Ok (bool_decide (relation <> NoAlias))
      | Ist_PutI descr ix2 bias2 _ =>
          let* relation := getAliasingRelation_II d (Iex_RdTmp ix) b descr ix2 bias2 in
          Ok (bool_decide (relation <> NoAlias))
      | _ => Err Panic
      end
  | LoadE _ _ _ => Ok (2 <=? paranoia st)
  | _ => Ok false
  end.

Fixpoint invalidate_slots (st : IRStmt) (l : list (slot (AvailExpr * Z))) : outcome (list (slot (AvailExpr * Z))) :=
  match l with
  | [] => Ok []
  | s :: l =>
      let* s :=
        if negb (inuse s) then Ok s
        else
          let* invalidate := invalidates st (val s).1 in
          Ok (if invalidate then mk_slot false 0 (val s) else s) in
      let* l := invalidate_slots st l in
      Ok (s :: l)
  end.
Definition invalidate_aenv (st : IRStmt) (aenv : HashHW (AvailExpr * Z)) : outcome (HashHW (AvailExpr * Z)) :=
  if 0 <? paranoia st then let* l := invalidate_slots st (slots aenv) in Ok (mk_HashHW l (size aenv)) else Ok aenv.

(** The temporary that has the value of an expression. *)
Fixpoint search_aenv (eprime : AvailExpr) (l : list (slot (AvailExpr * Z))) : outcome (option Z) :=
  match l with
  | [] => Ok None
  | s :: l =>
      let* eq := if inuse s then eq_AvailExpr eprime (val s).1 else Ok false in
      if eq then Ok (Some (val s).2) else search_aenv eprime l
  end.

Record cse_state := mk_cse { tenv : HashHW Z; aenv : HashHW (AvailExpr * Z); anyDone : bool }.

(** Statement number [i]. *)
Definition cse_round (i : Z) (s : cse_state) (st : IRStmt) : outcome (cse_state * IRStmt) :=
  let* aenv := invalidate_aenv st (aenv s) in
  match st with
  | Ist_WrTmp t data =>
      let* eprime := irExpr_to_AvailExpr data allowLoadsToBeCSEd in
      match eprime with
      | None => Ok (mk_cse (tenv s) aenv (anyDone s), st)
      | Some eprime =>
          let eprime := subst_AvailExpr (tenv s) eprime in
          let* found := search_aenv eprime (slots aenv) in
          match found with
          | Some q =>
              let* tenv := addToHHW (tenv s) t q in
              Ok (mk_cse tenv aenv true, Ist_WrTmp t (Iex_RdTmp q))
          | None =>
              let* aenv := addToHHW aenv i (eprime, t) in
              Ok (mk_cse (tenv s) aenv (anyDone s), Ist_WrTmp t (availExpr_to_IRExpr eprime))
          end
      end
  | _ => Ok (mk_cse (tenv s) aenv (anyDone s), st)
  end.

Fixpoint cse_loop (i : Z) (s : cse_state) (sts : list IRStmt) : outcome (cse_state * list IRStmt) :=
  match sts with
  | [] => Ok (s, [])
  | st :: sts =>
      let* (s, st) := cse_round i s st in
      let* (s, sts) := cse_loop (i + 1) s sts in
      Ok (s, st :: sts)
  end.
End Pass.

Definition do_cse_BB (bb : IRSB) (allowLoadsToBeCSEd : bool) : outcome (IRSB * bool) :=
  let* (s, sts) := cse_loop (tyenv bb) allowLoadsToBeCSEd 0 (mk_cse newHHW newHHW false) (stmts bb) in
  Ok (bb <| stmts := sts |>, anyDone s).
