(* ===== verification/CseTheory.v ===== *)
(** * Elimination of common subexpressions keeps what a block does

    The temporaries of the map of copies have one value, and the available
    expressions have the value of their temporary. *)

From stdpp Require Import gmap.
From S2P Require Import Prelude Primop IR Sanity IRSem IRRun IRTyping OpSem IRConcrete GetPut GetTheory PutTheory GuestArrays GuestArraysTheory Cse.

(** ** Expressions *)

(** The atoms of a flat expression replaced. *)
Definition sub (f : Z -> Z) (e : IRExpr) : IRExpr := match e with Iex_RdTmp t => Iex_RdTmp (f t) | _ => e end.
Definition shallow (f : Z -> Z) (e : IRExpr) : IRExpr :=
  match e with
  | Iex_Unop op a => Iex_Unop op (sub f a)
  | Iex_Binop op a b => Iex_Binop op (sub f a) (sub f b)
  | Iex_ITE c a b => Iex_ITE (sub f c) (sub f a) (sub f b)
  | Iex_GetI d ix b => Iex_GetI d (sub f ix) b
  | Iex_CCall cee ty args => Iex_CCall cee ty (map (sub f) args)
  | Iex_Load en ty a => Iex_Load en ty (sub f a)
  | _ => e
  end.

Lemma TmpOrConst_round e tc : irExpr_to_TmpOrConst e = Ok tc -> tmpOrConst_to_IRExpr tc = e.
Proof. destruct e; cbn; try done; by intros [= <-]. Qed.

Lemma TmpOrConsts_round ins : forall outs, irExprVec_to_TmpOrConsts ins = Ok outs -> map tmpOrConst_to_IRExpr outs = ins.
Proof.
  induction ins as [|e ins IH]; intros outs H; [by injection H as <-|]. cbn in H. apply bind_Ok_inv in H as (tc & E & H).
  apply bind_Ok_inv in H as (outs' & E' & [= <-]). cbn. by rewrite (TmpOrConst_round _ _ E), (IH _ E').
Qed.

Lemma AvailExpr_round e allow ae : irExpr_to_AvailExpr e allow = Ok (Some ae) -> availExpr_to_IRExpr ae = e.
Proof.
  destruct e; cbn; try done; intros H;
    repeat match type of H with context [match ?a with _ => _ end] => destruct a; try done end; try (by injection H as <-).
  - by apply bind_Ok_inv in H as (tc & E%TmpOrConst_round & [= <-]); cbn; rewrite E.
  - by apply bind_Ok_inv in H as (tcs & E%TmpOrConsts_round & [= <-]); cbn; rewrite E.
Qed.

Lemma subst_shallow env ae : availExpr_to_IRExpr (subst_AvailExpr env ae) = shallow (subst_AvailExpr_Temp env) (availExpr_to_IRExpr ae).
Proof.
  destruct ae; try done; cbn.
  - f_equal. rewrite !map_map. apply map_ext. by intros [].
  - f_equal. by destruct addr.
Qed.

(** *** Constants that are compared by their bits *)

Definition exact_const (c : IRConst) : bool := match c with Ico_F32 _ | Ico_F64 _ => false | _ => true end.
Definition exact_atom (e : IRExpr) : bool := match e with Iex_Const c => exact_const c | _ => true end.
Definition operands (e : IRExpr) : list IRExpr :=
  match e with
  | Iex_Unop _ a | Iex_Load _ _ a => [a]
  | Iex_Binop _ a b => [a; b]
  | Iex_ITE c a b => [c; a; b]
  | Iex_CCall _ _ args => args
  | _ => []
  end.
Definition exact_consts (st : IRStmt) : bool := match st with Ist_WrTmp _ e => forallb exact_atom (operands e) | _ => true end.

Lemma eqIRConst_exact c1 c2 : eqIRConst c1 c2 = true -> constant_ok c1 = true -> constant_ok c2 = true -> exact_const c1 = true -> c1 = c2.
Proof.
  destruct c1, c2; try done; cbn [eqIRConst]; intros H H1 H2 _; try (apply Z.eqb_eq in H; congruence).
  unfold constant_ok in H1, H2. cbn in H1, H2. rewrite andb_true_r in H1, H2. apply orb_true_iff in H1, H2. f_equal.
  destruct H1 as [H1|H1], H2 as [H2|H2]; apply Z.eqb_eq in H1, H2; by subst.
Qed.

(** Expressions that are equal are one, up to the name of a helper. *)
Lemma eq_AvailExpr_same env a b : eq_AvailExpr a b = Ok true -> well_typed env (availExpr_to_IRExpr a) = true ->
  well_typed env (availExpr_to_IRExpr b) = true -> forallb exact_atom (operands (availExpr_to_IRExpr a)) = true ->
  a = b \/ exists cee cee' args ty, a = CCall cee args ty /\ b = CCall cee' args ty /\ addr cee = addr cee'.
Proof.
  assert (Hc : forall c c', eqIRConst c c' = true -> well_typed env (Iex_Const c) = true -> well_typed env (Iex_Const c') = true -> exact_const c = true -> c = c')
    by (intros; by apply eqIRConst_exact).
  assert (Htc : forall x y, eqTmpOrConst x y = true -> well_typed env (tmpOrConst_to_IRExpr x) = true -> well_typed env (tmpOrConst_to_IRExpr y) = true ->
    exact_atom (tmpOrConst_to_IRExpr x) = true -> x = y).
  { intros [c|t] [c'|t']; cbn [eqTmpOrConst tmpOrConst_to_IRExpr]; try done; [intros; f_equal; by apply Hc|by intros ->%Z.eqb_eq]. }
  intros H Ha Hb He. apply well_typed_parts in Ha. apply well_typed_parts in Hb.
  destruct a, b; cbn [eq_AvailExpr availExpr_to_IRExpr operands forallb] in *; try discriminate H;
    try (left; injection H as H; rewrite ?andb_true_iff in H; rewrite ?andb_true_iff in He; destruct_and?; rewrite ?bool_decide_eq_true in *;
      repeat match goal with E : (_ =? _) = true |- _ => apply Z.eqb_eq in E; subst end).
  all: try (repeat match goal with E : eqIRConst _ _ = true |- _ => apply Hc in E; [subst|done..] end; done).
  - match goal with E : eqIRRegArray _ _ = true |- _ => apply eqIRRegArray_eq in E as -> end. done.
  - right. destruct (Nat.eqb_spec (length args) (length args0)) as [Hlen|]; [|done]. apply bind_Ok_inv in H as (eq & Hcee & H).
    apply bind_Ok_inv in H as (u & Hret & H). injection H as H. destruct eq; [|done]. rewrite H in Hret. destruct (bool_decide (retty = retty0)) eqn:Hrt; [|done].
    apply bool_decide_eq_true in Hrt as ->. unfold eqIRCallee in Hcee. apply bind_Ok_inv in Hcee as (_ & _ & [= Haddr]). apply bool_decide_eq_true in Haddr.
    exists cee, cee0, args, retty0. split; [done|]. split; [|done]. f_equal. symmetry.
    clear -H Ha Hb He Htc. revert args0 H Hb. induction args as [|x args IH]; intros [|y args0] H Hb; try done. cbn in H, Ha, Hb, He.
    destruct (eqTmpOrConst x y) eqn:E; [|done]. inversion_clear Ha. inversion_clear Hb. apply andb_true_iff in He as [He1 He].
    rewrite (Htc x y); [|done..]. f_equal. by apply IH.
  - subst. match goal with E : eqTmpOrConst _ _ = true |- _ => apply Htc in E; [by subst|done..] end.
Qed.

Section Eval.
Context {V W} `{M : Machine V W}.
Implicit Types (rho : gmap Z V) (w : W).

Lemma eval_sub rho w f e : (forall t, rho !! f t = rho !! t) -> eval rho w (sub f e) = eval rho w e.
Proof. intros H. destruct e; try done. cbn. apply H. Qed.

Lemma eval_shallow rho w f e : (forall t, rho !! f t = rho !! t) -> eval rho w (shallow f e) = eval rho w e.
Proof.
  intros H. pose proof (fun e => eval_sub rho w f e H) as Hs. destruct e; try done; cbn [shallow]; try (by cbn; rewrite ?Hs).
  rewrite !eval_CCall. f_equal. induction args as [|e args IH]; [done|]. cbn. by rewrite Hs, IH.
Qed.

End Eval.

(** *** Types *)

Section Types.
Context (env : IRTypeEnv) (f : Z -> Z).
Context (Hf : forall t ty, typeOfIRTemp env t = Ok ty -> typeOfIRTemp env (f t) = Ok ty).

Lemma sub_retyped e : well_typed env e = true -> retyped env env e (sub f e).
Proof.
  intros Hw. destruct e; try done; try (split; [done|by intros ? ?]). cbn [sub].
  assert (Ht : forall ty, typeOfIRTemp env tmp = Ok ty -> typeOfIRTemp env (f tmp) = Ok ty) by apply Hf. split; [|exact Ht].
  cbn in Hw |- *. destruct (typeOfIRTemp env tmp) as [ty|]; [|done]. by rewrite (Ht ty).
Qed.

Lemma sub_atom e : isIRAtom e = true -> isIRAtom (sub f e) = true.
Proof. by destruct e. Qed.

Lemma shallow_retyped e : well_typed env e = true -> retyped env env e (shallow f e).
Proof.
  intros Hw. pose proof sub_retyped as Hs. pose proof (well_typed_parts _ _ Hw) as Hp. destruct (well_typed_type _ _ Hw) as [ty Hty].
  assert (Hk : keeps_type env env e (shallow f e)).
  { destruct e; try done; cbn [shallow] in *; intros ty' Hty'; try done. cbn [typeOfIRExpr] in *. destruct_and?; by apply (proj2 (Hs e3 ltac:(done))). }
  split; [|done]. destruct e; cbn [shallow] in *; try done; specialize (Hk _ Hty); cbn [well_typed]; rewrite Hk; destruct_and?; rewrite ?andb_true_iff.
  - by apply Hs.
  - split_and!; try (by apply Hs). eapply keeps_takes; [|done]. constructor; [by apply Hs|constructor; [by apply Hs|constructor]].
  - split; [by apply Hs|]. eapply keeps_takes; [|done]. constructor; [by apply Hs|constructor].
  - by apply Hs.
  - clear -Hp Hs. induction args as [|e args IH]; [done|]. inversion_clear Hp. cbn. apply andb_true_iff. split; [by apply Hs|by apply IH].
  - split_and!; try (by apply Hs). eapply keeps_arms; [by apply Hs..|done].
Qed.

Lemma shallow_flat e : flat_rhs e -> flat_rhs (shallow f e).
Proof.
  unfold flat_rhs. destruct e; try done; cbn [shallow isFlatIRStmt]; intros H; injection H as H; f_equal; rewrite ?andb_true_iff in *; destruct_and?; split_and?;
    try (by apply sub_atom). induction args as [|e args IH]; [done|]. cbn in *. rewrite andb_true_iff in *. destruct_and?. split; [by apply sub_atom|by apply IH].
Qed.

Lemma shallow_exact e : forallb exact_atom (operands (shallow f e)) = forallb exact_atom (operands e).
Proof.
  assert (Hs : forall e, exact_atom (sub f e) = exact_atom e) by (by intros []).
  destruct e; try done; cbn; rewrite ?Hs; try done. induction args as [|e args IH]; [done|]. cbn. by rewrite Hs, IH.
Qed.
End Types.

(** ** The maps *)

Section Pass.
Context (env : IRTypeEnv) (allow : bool).

(** What the pass needs of a statement. *)
Definition cse_ok (st : IRStmt) : bool := index_ok env st && biases_ok st && exact_consts st.

(** A copy has the type of the original; an available expression could be assigned to
    its temporary. *)
Definition copies (t q : Z) : Prop := exists ty, typeOfIRTemp env t = Ok ty /\ typeOfIRTemp env q = Ok ty.
Definition stored (p : AvailExpr * Z) : Prop :=
  flat_stmt env (Ist_WrTmp p.2 (availExpr_to_IRExpr p.1)) /\ cse_ok (Ist_WrTmp p.2 (availExpr_to_IRExpr p.1)) = true.

Record cse_inv (s : cse_state) : Prop := {
  inv_copies : bindings copies (tenv s);
  inv_stored : bindings (fun _ p => stored p) (aenv s);
  inv_roomy_t : roomy (tenv s);
  inv_roomy_a : roomy (aenv s)
}.

Lemma subst_Temp_typed h : bindings copies h -> forall t ty, typeOfIRTemp env t = Ok ty -> typeOfIRTemp env (subst_AvailExpr_Temp h t) = Ok ty.
Proof.
  intros Hb t ty Ht. unfold subst_AvailExpr_Temp. destruct (lookupHHW h t) as [q|] eqn:E; [|done].
  destruct (lookup_bindings _ _ _ _ Hb E) as (ty' & H1 & H2). congruence.
Qed.

Lemma shallow_stmt f t e : (forall t ty, typeOfIRTemp env t = Ok ty -> typeOfIRTemp env (f t) = Ok ty) ->
  flat_stmt env (Ist_WrTmp t e) -> cse_ok (Ist_WrTmp t e) = true ->
  flat_stmt env (Ist_WrTmp t (shallow f e)) /\ cse_ok (Ist_WrTmp t (shallow f e)) = true.
Proof.
  intros Hf [[Hd Ho]%andb_true_iff Hfl] Hc. cbn [operands_typed] in Ho. apply andb_true_iff in Ho as [Hw Hty].
  destruct (shallow_retyped env f Hf e Hw) as [Hw' Hk]. split.
  - split; [|by apply shallow_flat]. unfold well_typed_stmt. apply andb_true_iff. split; [done|]. cbn [operands_typed]. rewrite Hw'. cbn [andb].
    destruct (typeOfIRTemp env t) as [ty|]; [|done]. apply has_type_iff. apply has_type_iff in Hty. by apply Hk.
  - unfold cse_ok in *. rewrite !andb_true_iff in *. destruct Hc as [[H1 H2] H3]. split; [|by cbn; rewrite shallow_exact].
    destruct e; try done. cbn in H1, H2 |- *. apply andb_true_iff in H1 as [-> H1]. split; [|done]. apply has_type_iff. apply has_type_iff in H1.
    pose proof (well_typed_parts _ _ Hw) as Hp. by apply (sub_retyped env f Hf e Hp).
Qed.

Lemma invalidate_inv (P Q : AvailExpr * Z -> Prop) st h h' : invalidate_aenv env st h = Ok h' -> bindings (fun _ p => P p) h ->
  (forall p, P p -> paranoia st <= 0 \/ invalidates env st p.1 = Ok false -> Q p) -> bindings (fun _ p => Q p) h' /\ (roomy h -> roomy h').
Proof.
  unfold invalidate_aenv. intros H Hb HQ. destruct (Z.ltb_spec 0 (paranoia st)) as [Hp|Hp].
  - apply bind_Ok_inv in H as (l & E & [= <-]). unfold bindings, roomy, used in *. cbn.
    assert (Hl : Forall (fun s => inuse s = true -> Q (val s)) l /\ length l = length (slots h)).
    { revert l E. induction Hb as [|s l0 Hs _ IH]; intros l E; [by injection E as <-|]. cbn in E. apply bind_Ok_inv in E as (s' & Es & E).
      apply bind_Ok_inv in E as (l' & El & [= <-]). destruct (IH l' El) as [H1 H2]. split; [|cbn; by rewrite H2]. constructor; [|done].
      destruct (inuse s) eqn:Hi; cbn in Es; [|injection Es as <-; by rewrite Hi]. apply bind_Ok_inv in Es as ([] & Hinv & [= <-]); [done|].
      intros _. apply HQ; [by apply Hs|by right]. }
    destruct Hl as [Hl ->]. done.
  - injection H as <-. split; [|done]. eapply bindings_impl; [|exact Hb]. intros k p Hpp. apply HQ; [done|by left].
Qed.

Lemma search_inv (P : AvailExpr * Z -> Prop) e h q : search_aenv e (slots h) = Ok (Some q) -> bindings (fun _ p => P p) h ->
  exists ae, P (ae, q) /\ eq_AvailExpr e ae = Ok true.
Proof.
  unfold bindings. intros H Hb. revert H. induction Hb as [|s l Hs _ IH]; intros H; [done|]. cbn in H. apply bind_Ok_inv in H as (eq & He & H).
  destruct eq; [|by apply IH]. destruct (inuse s); [|done]. injection H as <-. exists (val s).1. split; [|done]. specialize (Hs eq_refl). by destruct (val s).
Qed.

(** An expression and its temporary have one type. *)
Lemma flat_WrTmp_type t e : flat_stmt env (Ist_WrTmp t e) ->
  well_typed env e = true /\ exists ty, typeOfIRTemp env t = Ok ty /\ typeOfIRExpr env e = Ok ty.
Proof.
  intros [[_ Ho]%andb_true_iff _]. cbn [operands_typed] in Ho. apply andb_true_iff in Ho as [Hw Ho]. split; [done|].
  destruct (typeOfIRTemp env t) as [ty|]; [|done]. exists ty. split; [done|]. by apply has_type_iff.
Qed.

Lemma cse_ok_exact t e : cse_ok (Ist_WrTmp t e) = true -> forallb exact_atom (operands e) = true.
Proof. unfold cse_ok. rewrite !andb_true_iff. by intros [_ ?]. Qed.

Lemma same_type e ae t q : stored (e, t) -> stored (ae, q) -> eq_AvailExpr e ae = Ok true -> copies t q.
Proof.
  intros [He Hc] [Ha _] H. cbn in *. destruct (flat_WrTmp_type _ _ He) as (Hw1 & ty1 & Ht1 & Hty1). destruct (flat_WrTmp_type _ _ Ha) as (Hw2 & ty2 & Ht2 & Hty2).
  exists ty1. split; [done|]. rewrite Ht2. f_equal.
  destruct (eq_AvailExpr_same env e ae H Hw1 Hw2 (cse_ok_exact _ _ Hc)) as [<-|(cee & cee' & args & ty & -> & -> & _)]; [congruence|].
  cbn in Hty1, Hty2. congruence.
Qed.

Lemma stored_subst h t data ae : bindings copies h -> flat_stmt env (Ist_WrTmp t data) -> cse_ok (Ist_WrTmp t data) = true ->
  irExpr_to_AvailExpr data allow = Ok (Some ae) -> stored (subst_AvailExpr h ae, t).
Proof.
  intros Hb Hst Hc E%AvailExpr_round. unfold stored. cbn. rewrite subst_shallow, E. apply shallow_stmt; [by apply subst_Temp_typed|done..].
Qed.

Lemma copy_stmt t q : copies t q -> flat_stmt env (Ist_WrTmp t (Iex_RdTmp q)) /\ cse_ok (Ist_WrTmp t (Iex_RdTmp q)) = true.
Proof.
  intros (ty & Ht & Hq). split; [|done]. split; [|done]. unfold well_typed_stmt. cbn [defs forallb operands_typed].
  assert (Hw : forall x, typeOfIRTemp env x = Ok ty -> well_typed env (Iex_RdTmp x) = true) by (intros x Hx; cbn; by rewrite Hx).
  rewrite (Hw t Ht), (Hw q Hq). cbn [andb]. rewrite Ht. by apply has_type_iff.
Qed.

(** What a round does to the statement. *)
Definition rewritten (st st' : IRStmt) : Prop := st' = st \/ exists t e e', st = Ist_WrTmp t e /\ st' = Ist_WrTmp t e'.

Lemma cse_round_static i s st s' st' : cse_round env allow i s st = Ok (s', st') -> cse_inv s -> flat_stmt env st -> cse_ok st = true ->
  cse_inv s' /\ flat_stmt env st' /\ cse_ok st' = true /\ rewritten st st'.
Proof.
  intros H [I1 I2 I3 I4] Hst Hc. unfold cse_round in H. apply bind_Ok_inv in H as (h & Eh & H).
  destruct (invalidate_inv stored stored _ _ _ Eh I2) as [Hb Hr]; [by intros|]. specialize (Hr I4).
  assert (Hkeep : forall s', s' = mk_cse (tenv s) h (anyDone s) -> cse_inv s' /\ flat_stmt env st /\ cse_ok st = true /\ rewritten st st).
  { intros ? ->. split; [by split|]. split_and!; try done. by left. }
  destruct st; try (injection H as <- <-; by apply Hkeep).
  apply bind_Ok_inv in H as ([ae|] & Ea & H); [|injection H as <- <-; by apply Hkeep].
  pose proof (stored_subst (tenv s) tmp data ae I1 Hst Hc Ea) as Hnew. apply bind_Ok_inv in H as ([q|] & Hq & H).
  - destruct (search_inv stored _ _ _ Hq Hb) as (ae' & Hae & Heq). pose proof (same_type _ _ _ _ Hnew Hae Heq) as Hcp.
    apply bind_Ok_inv in H as (h2 & E2 & [= <- <-]). destruct (add_bindings copies (tenv s) tmp q) as (h2' & E2' & Hb2 & Hr2); [done..|].
    rewrite E2 in E2'. injection E2' as <-. split; [by split|]. destruct (copy_stmt _ _ Hcp). split_and!; try done. right. by eexists _, _, _.
  - apply bind_Ok_inv in H as (h2 & E2 & [= <- <-]). destruct (add_bindings (fun _ p => stored p) h i (subst_AvailExpr (tenv s) ae, tmp)) as (h2' & E2' & Hb2 & Hr2); [done..|].
    rewrite E2 in E2'. injection E2' as <-. split; [by split|]. destruct Hnew. split_and!; try done. right. by eexists _, _, _.
Qed.

Lemma cse_loop_static sts : forall i s s' out, cse_loop env allow i s sts = Ok (s', out) -> cse_inv s -> Forall (flat_stmt env) sts ->
  forallb cse_ok sts = true -> Forall (flat_stmt env) out /\ forallb cse_ok out = true /\ Forall2 rewritten sts out.
Proof.
  induction sts as [|st sts IH]; intros i s s' out H Hi Hf Hc; [by injection H as <- <-|]. inversion_clear Hf as [|? ? Hst Hl].
  cbn in Hc. apply andb_true_iff in Hc as [Hc1 Hc]. cbn in H. apply bind_Ok_inv in H as ([s1 st1] & E1 & H). apply bind_Ok_inv in H as ([s2 out1] & E2 & [= <- <-]).
  destruct (cse_round_static _ _ _ _ _ E1 Hi Hst Hc1) as (Hi1 & Hst1 & Hc1' & Hr). destruct (IH _ _ _ _ E2 Hi1 Hl Hc) as (H1 & H2 & H3).
  split_and!; [by constructor|cbn; by rewrite Hc1', H2|by constructor].
Qed.
End Pass.

(** ** Runs *)

Section Runs.
Context {V W} `{M : Machine V W} `{!MachineLaws M} `{!IntegerLaws M} `{!ArrayLaws M} `{!LoadLaws M} (env : IRTypeEnv) (allow : bool).
Implicit Types (rho : gmap Z V) (w : W).

(** Two temporaries have one value; an expression has that of its temporary. *)
Definition same rho (t q : Z) : Prop := exists v, rho !! t = Some v /\ rho !! q = Some v.
Definition avail rho w (p : AvailExpr * Z) : Prop := exists v, rho !! p.2 = Some v /\ eval rho w (availExpr_to_IRExpr p.1) = Some v.

Lemma eval_all_world rho w w' es : forallb isIRAtom es = true -> eval_all rho w' es = eval_all rho w es.
Proof. intros H. symmetry. by apply eval_atoms. Qed.

(** A statement that leaves an indexed read alone. *)
Lemma geti_kept d ix b x n st rho w new w' : array_ok d = true -> sizeofIRType (elemTy d) = Ok n -> has_type env (Iex_RdTmp ix) Ity_I32 = true ->
  flat_stmt env st -> index_ok env st = true -> typed env rho -> acts env rho w st = Some (new, w', None) ->
  paranoia st <= 0 \/ invalidates env st (GetIt d ix b) = Ok false -> (forall y, rho !! ix = Some y -> y = x) ->
  w_get w' (element d (v_bits x) b n) (elemTy d) = w_get w (element d (v_bits x) b n) (elemTy d).
Proof.
  intros Hd Hn Hix [[_ Ho]%andb_true_iff _] Hi Ht Hact Hinv Hx. pose proof (fun o ty => acts_get env _ _ _ _ _ _ o ty Hact eq_refl) as Hget.
  destruct st; cbn [paranoia] in Hinv; try (by apply Hget); (destruct Hinv as [?|Hinv]; [lia|]); try discriminate Hinv.
  - cbn in Hinv. apply bind_Ok_inv in Hinv as (ty & Hty & Hinv). apply bind_Ok_inv in Hinv as (rel & Hrel & Hinv). injection Hinv as Hinv.
    apply bool_decide_eq_false in Hinv. assert (rel = NoAlias) as -> by (by apply dec_stable).
    cbn [operands_typed] in Ho. apply andb_true_iff in Ho as [_ Ho]. rewrite Hty in Ho. apply slice_ok_inv in Ho as (m & Hm & Hin).
    destruct (IC_sound _ _ _ _ _ _ _ Hrel Hd Hn Hm Hin) as [_ Hno]. cbn in Hact. destruct (eval rho w data) as [v|] eqn:Hv; [|done]. cbn in Hact. injection Hact as <- <-.
    pose proof (eval_type env rho w data v ty Ht Hv Hty) as Hvt. eapply get_put_apart; [by rewrite Hvt|exact Hn|]. destruct (Hno eq_refl (v_bits x) b); [by right|by left].
  - cbn in Hinv. apply bind_Ok_inv in Hinv as (rel & Hrel & Hinv). injection Hinv as Hinv. apply bool_decide_eq_false in Hinv.
    assert (rel = NoAlias) as -> by (by apply dec_stable). cbn in Hi. apply andb_true_iff in Hi as [Ha2 Hi2].
    destruct (array_ok_size _ Ha2) as (m & Hm & Hpm & Hkm & _). pose proof (II_sound env _ _ _ _ _ _ _ _ _ Hrel Hd Ha2 Hn Hm Hix) as Hsound.
    cbn in Hact. destruct (eval rho w ix0) as [y|] eqn:Hy; [|done]. cbn in Hact. destruct (eval rho w data) as [v|] eqn:Hv; [|done]. cbn in Hact.
    destruct (decide (v_type v = elemTy descr)) as [Hvt|]; [|done]. injection Hact as <- <-.
    assert (Hyt : v_type y = Ity_I32) by (apply has_type_iff in Hi2; by eapply eval_type).
    rewrite (puti_element w descr y bias v m) by done. eapply get_put_apart; [by rewrite Hvt|exact Hn|].
    destruct (Hsound (v_bits x) (v_bits y)) as [Hap|Hap]; [|by right|by left]. intros <-. by rewrite (Hx y).
Qed.

Lemma load_kept en ty a st rho w new w' v : acts env rho w st = Some (new, w', None) ->
  paranoia st <= 0 \/ invalidates env st (LoadE en ty a) = Ok false -> w_load w' en ty v = w_load w en ty v.
Proof.
  intros Hact Hinv. assert (Hp : paranoia st < 2).
  { destruct Hinv as [?|Hinv]; [lia|]. cbn in Hinv. injection Hinv as Hinv. by apply Z.leb_gt in Hinv. }
  clear Hinv. destruct st; cbn [paranoia] in Hp; try lia; cbn in Hact;
    try (destruct (typeOfIRLoadGOp cvt) as [[]|]; [|done]); inv_run; simplify_eq; try done.
  - apply load_mark.
  - apply load_hint.
  - apply load_put.
  - apply load_puti.
  - by case_match.
Qed.

Lemma avail_kept p st rho w new w' rho' : stored env p -> avail rho w p -> flat_stmt env st -> index_ok env st = true -> typed env rho ->
  acts env rho w st = Some (new, w', None) -> assign_all env rho new = Some rho' -> paranoia st <= 0 \/ invalidates env st p.1 = Ok false -> avail rho' w' p.
Proof.
  intros [[_ Hfl] Hok] (v & Hq & Hv) Hst Hi Ht Hact Ha Hinv. pose proof (assign_all_sub _ _ _ _ Ha) as Hsub. exists v. split; [by eapply lookup_weaken|].
  apply (eval_mono rho rho') in Hv; [|done]. destruct p as [ae q]. cbn [fst snd] in *. rewrite <-Hv. destruct ae; try done.
  - cbn [availExpr_to_IRExpr eval] in *. destruct (rho' !! ix) as [x|] eqn:Hx; [|done]. cbn. unfold cse_ok in Hok. rewrite !andb_true_iff in Hok.
    destruct Hok as [[[Hd Hix]%andb_true_iff _] _]. destruct (array_ok_size _ Hd) as (n & Hn & _ & Hk & _).
    assert (Hxt : v_type x = Ity_I32).
    { pose proof (assign_all_typed _ _ _ _ Ht Ha _ _ Hx) as Hxt. apply has_type_iff in Hix. cbn in Hix. congruence. }
    f_equal. rewrite !(geti_element _ descr x bias n) by done. eapply geti_kept; try done. intros y Hy. eapply lookup_weaken in Hy; [|done]. congruence.
  - cbn [availExpr_to_IRExpr] in *. cbn in Hfl. injection Hfl as Hfl. rewrite !eval_CCall. by rewrite (eval_all_world rho' w).
  - cbn [availExpr_to_IRExpr eval] in *. rewrite (eval_atom rho' w w') by (by destruct addr). destruct (eval rho' w (tmpOrConst_to_IRExpr addr)) as [x|]; [|done].
    cbn. f_equal. by eapply load_kept.
Qed.

(** Expressions that are equal have one value. *)
Lemma eq_AvailExpr_eval rho w a b : eq_AvailExpr a b = Ok true -> well_typed env (availExpr_to_IRExpr a) = true ->
  well_typed env (availExpr_to_IRExpr b) = true -> forallb exact_atom (operands (availExpr_to_IRExpr a)) = true ->
  eval rho w (availExpr_to_IRExpr a) = eval rho w (availExpr_to_IRExpr b).
Proof.
  intros H Ha Hb He. destruct (eq_AvailExpr_same env a b H Ha Hb He) as [<-|(cee & cee' & args & ty & -> & -> & Hc)]; [done|]. cbn [availExpr_to_IRExpr].
  rewrite !eval_CCall. destruct (eval_all _ _ _); [|done]. cbn. f_equal. by apply call_by_addr.
Qed.

Record cse_run (s : cse_state) rho w : Prop := {
  run_same : bindings (same rho) (tenv s);
  run_avail : bindings (fun _ p => stored env p /\ avail rho w p) (aenv s)
}.

Lemma subst_AvailExpr_Temp_value h rho : bindings (same rho) h -> forall t, rho !! subst_AvailExpr_Temp h t = rho !! t.
Proof.
  intros Hb t. unfold subst_AvailExpr_Temp. destruct (lookupHHW h t) as [q|] eqn:E; [|done]. destruct (lookup_bindings _ _ _ _ Hb E) as (v & H1 & H2). congruence.
Qed.

Lemma same_more rho rho' h : rho ⊆ rho' -> bindings (same rho) h -> bindings (same rho') h.
Proof. intros Hs. apply bindings_impl. intros t q (v & H1 & H2). exists v. split; by eapply lookup_weaken. Qed.

Lemma cse_round_run i s st s' st' rho w r : cse_round env allow i s st = Ok (s', st') -> cse_inv env s -> cse_run s rho w ->
  flat_stmt env st -> cse_ok env st = true -> typed env rho -> run_stmt env rho w st = Some r ->
  run_stmt env rho w st' = Some r /\ forall rho' w', r = Goes_on rho' w' -> cse_run s' rho' w'.
Proof.
  intros H [I1 I2 I3 I4] [R1 R2] Hst Hc Ht Hr. unfold cse_round in H. apply bind_Ok_inv in H as (h & Eh & H).
  assert (Hi : index_ok env st = true) by (unfold cse_ok in Hc; rewrite !andb_true_iff in Hc; apply Hc).
  pose proof Hr as Hr0. unfold run_stmt in Hr0. apply bind_Some in Hr0 as ([[new w1] jump] & Hact & Hr0). apply bind_Some in Hr0 as (rho1 & Ha & Hr0). injection Hr0 as <-.
  assert (Hkeep : forall s', s' = mk_cse (tenv s) h (anyDone s) -> run_stmt env rho w st = Some (match jump with Some (t, jk) => Leaves w1 t jk | None => Goes_on rho1 w1 end)
    /\ forall rho' w', match jump with Some (t, jk) => Leaves w1 t jk | None => Goes_on rho1 w1 end = Goes_on rho' w' -> cse_run s' rho' w').
  { intros ? ->. split; [done|]. intros rho' w' Hg. destruct jump as [[]|]; [done|]. injection Hg as <- <-. split.
    - cbn. eapply same_more; [|done]. by eapply assign_all_sub.
    - eapply invalidate_inv; [exact Eh|exact R2|]. intros p [Hp Hav] Hinv. split; [done|]. by eapply avail_kept. }
  destruct st; try (injection H as <- <-; by apply Hkeep).
  apply bind_Ok_inv in H as ([ae|] & Ea & H); [|injection H as <- <-; by apply Hkeep]. clear Hkeep.
  injection Eh as <-. cbn in Hact. destruct (eval rho w data) as [v|] eqn:Hv; [|done]. cbn in Hact. injection Hact as <- <- <-.
  cbn in Ha. destruct (assign env rho tmp v) as [rho2|] eqn:Has; [|done]. cbn in Ha. injection Ha as ->. pose proof (assign_inv _ _ _ _ _ Has) as (Hrho & Hnone & _).
  assert (Hsub : rho ⊆ rho1) by (rewrite Hrho; by apply insert_subseteq).
  pose proof (stored_subst env allow (tenv s) tmp data ae I1 Hst Hc Ea) as Hnew.
  assert (Heval : eval rho w (availExpr_to_IRExpr (subst_AvailExpr (tenv s) ae)) = Some v).
  { rewrite subst_shallow, (AvailExpr_round _ _ _ Ea), eval_shallow; [done|]. by apply subst_AvailExpr_Temp_value. }
  assert (Hgo : forall e, eval rho w e = Some v -> run_stmt env rho w (Ist_WrTmp tmp e) = Some (Goes_on rho1 w))
    by (intros e He; unfold run_stmt; cbn; rewrite He; cbn; by rewrite Has).
  assert (Hold : bindings (fun _ p => stored env p /\ avail rho1 w p) (aenv s)).
  { eapply bindings_impl; [|exact R2]. intros k p [Hp (u & Hu & Hev)]. split; [done|]. exists u. split; [by eapply lookup_weaken|by eapply eval_mono]. }
  apply bind_Ok_inv in H as ([q|] & Hq & H).
  - destruct (search_inv _ _ _ _ Hq R2) as (ae' & (Hst' & u & Hu & Hev) & Heq). apply bind_Ok_inv in H as (h2 & E2 & [= <- <-]). cbn in Hu, Hev.
    assert (u = v) as ->.
    { destruct (flat_WrTmp_type env _ _ (proj1 Hnew)) as [Hw1 _], (flat_WrTmp_type env _ _ (proj1 Hst')) as [Hw2 _].
      rewrite <-(eq_AvailExpr_eval rho w _ _ Heq Hw1 Hw2 (cse_ok_exact env _ _ (proj2 Hnew))), Heval in Hev. congruence. }
    split; [by apply Hgo|]. intros rho' w' [= <- <-]. destruct (add_bindings (same rho1) (tenv s) tmp q) as (h2' & E2' & Hb2 & _); [by eapply same_more|done| |].
    { exists v. rewrite Hrho at 1. split; [apply lookup_insert_eq|by eapply lookup_weaken]. }
    rewrite E2 in E2'. injection E2' as <-. by split.
  - apply bind_Ok_inv in H as (h2 & E2 & [= <- <-]). split; [by apply Hgo|]. intros rho' w' [= <- <-].
    destruct (add_bindings (fun _ p => stored env p /\ avail rho1 w p) (aenv s) i (subst_AvailExpr (tenv s) ae, tmp)) as (h2' & E2' & Hb2 & _); [done|done| |].
    { split; [done|]. exists v. split; [rewrite Hrho; apply lookup_insert_eq|by eapply eval_mono]. }
    rewrite E2 in E2'. injection E2' as <-. split; [by eapply same_more|done].
Qed.

Lemma cse_loop_run sts : forall i s s' out, cse_loop env allow i s sts = Ok (s', out) -> cse_inv env s -> Forall (flat_stmt env) sts ->
  forallb (cse_ok env) sts = true -> forall rho w r, cse_run s rho w -> typed env rho -> run_stmts env rho w sts = Some r -> run_stmts env rho w out = Some r.
Proof.
  induction sts as [|st sts IH]; intros i s s' out H Hi Hf Hc rho w r Hs Ht Hr; [by injection H as <- <-|]. inversion_clear Hf as [|? ? Hst Hl].
  cbn in Hc. apply andb_true_iff in Hc as [Hc1 Hc]. cbn in H. apply bind_Ok_inv in H as ([s1 st1] & E1 & H). apply bind_Ok_inv in H as ([s2 out1] & E2 & [= <- <-]).
  destruct (cse_round_static env allow _ _ _ _ _ E1 Hi Hst Hc1) as (Hi1 & _). cbn in Hr |- *. apply bind_Some in Hr as (r1 & Hr1 & Hr).
  destruct (cse_round_run _ _ _ _ _ _ _ _ E1 Hi Hs Hst Hc1 Ht Hr1) as [-> Hnext]. cbn. destruct r1 as [rho1 w1|]; [|done].
  eapply (IH _ _ _ _ E2 Hi1 Hl Hc); [by apply Hnext|by eapply run_stmt_typed|done].
Qed.
End Runs.

(** ** The pass returns *)

Section Returns.
Context (env : IRTypeEnv) (allow : bool) (K : IRCallee -> IRType -> Prop).
Context (HK : forall c ty c' ty', K c ty -> K c' ty' -> addr c = addr c' -> regparms c = regparms c' /\ mcx_mask c = mcx_mask c' /\ ty = ty').

(** Calls are among those of the block. *)
Definition called (p : AvailExpr * Z) : Prop := match p.1 with CCall cee _ ty => K cee ty | _ => True end.
Definition calls_in (st : IRStmt) : Prop := match st with Ist_WrTmp _ (Iex_CCall cee ty _) => K cee ty | _ => True end.

Lemma eq_AvailExpr_returns a b t q : called (a, t) -> called (b, q) -> exists eq, eq_AvailExpr a b = Ok eq.
Proof.
  intros Ha Hb. destruct a, b; try (by eexists). cbn [eq_AvailExpr]. destruct (_ =? _)%nat; [|by eexists].
  unfold called in Ha, Hb. cbn in Ha, Hb. unfold eqIRCallee. case_bool_decide as Hc; cbn [obind]; [|by eexists].
  destruct (HK _ _ _ _ Ha Hb Hc) as (-> & -> & ->). rewrite !Z.eqb_refl. cbn [assert_that obind]. destruct (eq_args args args0); [|by eexists].
  rewrite bool_decide_eq_true_2 by done. by eexists.
Qed.

Lemma search_returns e t h : called (e, t) -> bindings (fun _ p => called p) h -> exists o, search_aenv e (slots h) = Ok o.
Proof.
  intros He. unfold bindings. induction 1 as [|s l Hs _ (o & IH)]; [by eexists|]. cbn. destruct (inuse s); cbn [obind]; [|rewrite IH; by eexists].
  destruct (eq_AvailExpr_returns e (val s).1 t (val s).2 He) as ([] & ->); [by destruct (val s); apply Hs|by eexists|]. cbn. rewrite IH. by eexists.
Qed.

Lemma invalidates_returns st p : stored env p -> flat_stmt env st -> cse_ok env st = true -> 0 < paranoia st -> exists inv, invalidates env st p.1 = Ok inv.
Proof.
  intros [_ Hok] [[_ Ho]%andb_true_iff Hf] Hc Hp. destruct p as [ae q]. cbn [fst snd] in *. destruct ae; try (by eexists). cbn [invalidates].
  unfold cse_ok in Hok, Hc. rewrite !andb_true_iff in Hok, Hc. destruct Hok as [[[Hd Hix]%andb_true_iff Hbi] _], Hc as [[Hi Hb] _].
  destruct (array_ok_size _ Hd) as (n & Hn & _). destruct st; cbn [paranoia] in Hp; try lia; try (by eexists); cbn [paranoia Z.leb Z.compare Pos.compare Pos.compare_cont].
  - cbn [operands_typed] in Ho. apply andb_true_iff in Ho as [_ Ho]. destruct (typeOfIRExpr env data) as [ty|]; [|done]. apply slice_ok_inv in Ho as (m & Hm & _).
    cbn [obind]. destruct (IC_returns descr (Iex_RdTmp ix) offset ty n m) as (rel & -> & _); try done. by eexists.
  - cbn in Hi. apply andb_true_iff in Hi as [Ha _]. cbn in Hf. injection Hf as [Hi2 _]%andb_true_iff.
    destruct (II_returns descr (Iex_RdTmp ix) bias descr0 ix0 bias0) as (rel & ->); try done. by eexists.
Qed.

Lemma invalidate_returns st h : bindings (fun _ p => stored env p) h -> flat_stmt env st -> cse_ok env st = true -> exists h', invalidate_aenv env st h = Ok h'.
Proof.
  intros Hb Hst Hc. unfold invalidate_aenv. destruct (Z.ltb_spec 0 (paranoia st)) as [Hp|]; [|by eexists].
  assert (Hl : exists l, invalidate_slots env st (slots h) = Ok l); [|destruct Hl as (l & ->); by eexists].
  unfold bindings in Hb. induction Hb as [|s l Hs _ (l' & IH)]; [by eexists|]. cbn. destruct (inuse s) eqn:Hi; cbn [negb obind].
  - destruct (invalidates_returns st (val s)) as (inv & ->); [by apply Hs|done..|]. cbn. rewrite IH. by eexists.
  - rewrite IH. by eexists.
Qed.

Lemma TmpOrConsts_returns args : forallb isIRAtom args = true -> exists tcs, irExprVec_to_TmpOrConsts args = Ok tcs.
Proof.
  induction args as [|e args IH]; [by eexists|]. cbn. intros [He Hargs]%andb_true_iff. destruct (IH Hargs) as (tcs & ->). destruct e; try done; by eexists.
Qed.

Lemma AvailExpr_returns t e : flat_stmt env (Ist_WrTmp t e) -> calls_in (Ist_WrTmp t e) ->
  exists o, irExpr_to_AvailExpr e allow = Ok o /\ forall ae, o = Some ae -> called (ae, t).
Proof.
  intros [_ Hf] Hc. cbn in Hf, Hc. destruct e; try (eexists; split; [done|intros ? [=]]); cbn [irExpr_to_AvailExpr].
  all: try solve [repeat match goal with |- context [match ?a with _ => _ end] => destruct a end; eexists; (split; [reflexivity|]); intros ? [=]; subst; exact I].
  - destruct allow; [|eexists; split; [done|intros ? [=]]]. injection Hf as Hf. destruct e0; try done; cbn; eexists; (split; [done|intros ? [=]; by subst]).
  - injection Hf as Hf. destruct (TmpOrConsts_returns args Hf) as (tcs & ->). cbn. eexists. split; [done|]. intros ? [=]; by subst.
Qed.

Lemma subst_called h ae t : called (ae, t) -> called (subst_AvailExpr h ae, t).
Proof. by destruct ae. Qed.

Lemma cse_round_returns i s st : cse_inv env s -> bindings (fun _ p => called p) (aenv s) -> flat_stmt env st -> cse_ok env st = true -> calls_in st ->
  exists s' st', cse_round env allow i s st = Ok (s', st') /\ bindings (fun _ p => called p) (aenv s').
Proof.
  intros [I1 I2 I3 I4] Hcl Hst Hc Hin. unfold cse_round. destruct (invalidate_returns st (aenv s) I2 Hst Hc) as (h & Eh). rewrite Eh. cbn [obind].
  destruct (invalidate_inv env called called _ _ _ Eh Hcl) as [Hb Hr]; [by intros|]. specialize (Hr I4).
  destruct st; try (by eexists _, _). destruct (AvailExpr_returns tmp data Hst Hin) as ([ae|] & -> & Hae); cbn [obind]; [|by eexists _, _].
  specialize (Hae ae eq_refl). apply (subst_called (tenv s)) in Hae. destruct (search_returns _ _ _ Hae Hb) as ([q|] & ->); cbn [obind].
  - destruct (add_bindings (fun _ _ => True) (tenv s) tmp q) as (h2 & -> & _); [by eapply bindings_impl; [|exact I1]|done..|]. by eexists _, _.
  - destruct (add_bindings (fun _ p => called p) h i (subst_AvailExpr (tenv s) ae, tmp)) as (h2 & -> & Hb2 & _); [done..|]. by eexists _, _.
Qed.

Lemma cse_loop_returns sts : forall i s, cse_inv env s -> bindings (fun _ p => called p) (aenv s) -> Forall (flat_stmt env) sts ->
  forallb (cse_ok env) sts = true -> Forall calls_in sts -> exists s' out, cse_loop env allow i s sts = Ok (s', out).
Proof.
  induction sts as [|st sts IH]; intros i s Hi Hb Hf Hc Hin; [by eexists _, _|]. inversion_clear Hf as [|? ? Hst Hl]. inversion_clear Hin as [|? ? Hin1 Hin'].
  cbn in Hc. apply andb_true_iff in Hc as [Hc1 Hc]. destruct (cse_round_returns i s st Hi Hb Hst Hc1 Hin1) as (s1 & st1 & E1 & Hb1). cbn. rewrite E1. cbn [obind].
  destruct (cse_round_static env allow _ _ _ _ _ E1 Hi Hst Hc1) as (Hi1 & _). destruct (IH (i + 1) s1 Hi1 Hb1 Hl Hc Hin') as (s2 & out & ->). by eexists _, _.
Qed.
End Returns.

(** ** The theorem *)

(** Calls of one helper agree in what is known about it. *)
Definition calls (sts : list IRStmt) : list (IRCallee * IRType) :=
  omap (fun st => match st with Ist_WrTmp _ (Iex_CCall cee ty _) => Some (cee, ty) | _ => None end) sts.
Definition agree (x y : IRCallee * IRType) : bool :=
  bool_decide (addr x.1 = addr y.1 -> regparms x.1 = regparms y.1 /\ mcx_mask x.1 = mcx_mask y.1 /\ x.2 = y.2).
Definition calls_agree (sts : list IRStmt) : bool := forallb (fun x => forallb (agree x) (calls sts)) (calls sts).

Lemma cse_inv_new env : cse_inv env (mk_cse newHHW newHHW false).
Proof. split; try apply bindings_new; done. Qed.

Lemma do_cse_BB_returns bb allow : flat_block bb -> forallb (cse_ok (tyenv bb)) (stmts bb) = true -> calls_agree (stmts bb) = true ->
  exists out any, do_cse_BB bb allow = Ok (out, any).
Proof.
  intros (Hs & _) Hc Hcalls. unfold do_cse_BB.
  destruct (cse_loop_returns (tyenv bb) allow (fun c ty => (c, ty) ∈ calls (stmts bb))) with (sts := stmts bb) (i := 0) (s := mk_cse newHHW newHHW false)
    as (s & out & ->); [|apply cse_inv_new|apply bindings_new|done|done| |by eexists _, _].
  - intros c ty c' ty' H H' Ha. unfold calls_agree in Hcalls. pose proof (proj1 (List.forallb_forall _ _) Hcalls (c, ty)) as H1. rewrite <-list_elem_of_In in H1.
    specialize (H1 H). pose proof (proj1 (List.forallb_forall _ _) H1 (c', ty')) as H2. rewrite <-list_elem_of_In in H2. specialize (H2 H').
    by apply bool_decide_eq_true in H2; apply H2.
  - clear. unfold calls. apply Forall_forall. intros st Hin. unfold calls_in. destruct st; try done. destruct data; try done. apply list_elem_of_omap. by eexists.
Qed.

Lemma do_cse_BB_keeps bb allow out any : do_cse_BB bb allow = Ok (out, any) -> flat_block bb -> forallb (cse_ok (tyenv bb)) (stmts bb) = true ->
  flat_block out /\ forallb (cse_ok (tyenv out)) (stmts out) = true /\ tyenv out = tyenv bb /\ Forall2 rewritten (stmts bb) (stmts out)
  /\ forall V W (M : Machine V W) (HI : IntegerLaws M), MachineLaws M -> ArrayLaws M -> LoadLaws M ->
       forall w r, run_block bb w = Some r -> run_block out w = Some r.
Proof.
  intros ([s sts] & E & [= <- <-])%bind_Ok_inv Hbb Hc. pose proof Hbb as (Hs & _).
  destruct (cse_loop_static _ _ _ _ _ _ _ E (cse_inv_new _) Hs Hc) as (H1 & H2 & H3). split; [|split_and!; [done|done|done|]].
  - apply flat_block_other; [done|]. clear -H1 H3. cbn in *. induction H3 as [|st st' l l' Hst _ IH]; [constructor|]. inversion_clear H1.
    constructor; [|by apply IH]. split; [done|]. by destruct Hst as [->|(t & e & e' & -> & ->)].
  - intros V W M HI HM HA HL w r Hr. unfold run_block in *. cbn. apply bind_Some in Hr as (r1 & Hr1 & Hr).
    rewrite (cse_loop_run (tyenv bb) allow (stmts bb) _ _ _ _ E (cse_inv_new _) Hs Hc ∅ w r1); [done| |apply typed_empty|done].
    split; apply bindings_new.
Qed.

(** C10: the elimination of common subexpressions, for a flat block that is well typed,
    with arrays in the guest state indexed by numbers of 32 bits, biases that ten
    times the length of the array make positive and keep below 2^31, and no [F32] or [F64] constants as
    operands.  The pass returns when calls of one helper agree in its type, its
    number of register parameters and its mask (else an assertion fails); the new
    block is flat and well typed, and differs in the right-hand sides of
    assignments only.  On any machine that obeys the laws, every run of the block
    that ends in a world is one of the new block: an expression is replaced by a
    temporary only if no statement between writes what it reads. *)
Theorem do_cse_BB_correct bb allowLoadsToBeCSEd (Hw : well_typed_block bb = true) (Hf : isFlatIRSB bb = Ok true)
    (Hc : forallb (cse_ok (tyenv bb)) (stmts bb) = true) :
  (calls_agree (stmts bb) = true -> exists out any, do_cse_BB bb allowLoadsToBeCSEd = Ok (out, any))
  /\ forall out any, do_cse_BB bb allowLoadsToBeCSEd = Ok (out, any) ->
       isFlatIRSB out = Ok true /\ well_typed_block out = true /\ Forall2 rewritten (stmts bb) (stmts out)
       /\ forall V W (M : Machine V W) (HI : IntegerLaws M), MachineLaws M -> ArrayLaws M -> LoadLaws M ->
            forall w r, run_block bb w = Some r -> run_block out w = Some r.
Proof.
  assert (Hbb : flat_block bb) by (by apply flat_block_iff). split; [by apply do_cse_BB_returns|].
  intros out any E. destruct (do_cse_BB_keeps bb _ out any E Hbb Hc) as (Hout & _ & _ & H1 & H2). by apply flat_block_iff in Hout as [? ?].
Qed.

(** Two loads of one address, sums of the results, and reads of a register of an
    array around a write of another. *)
Definition cse_block : IRSB :=
  mk_IRSB [Ity_I64; Ity_I64; Ity_I64; Ity_I64; Ity_I32; Ity_F64; Ity_F64; Ity_I64]
    [Ist_WrTmp 0 (Iex_Load Iend_LE Ity_I64 (Iex_Const (Ico_U64 64)));
     Ist_WrTmp 1 (Iex_Load Iend_LE Ity_I64 (Iex_Const (Ico_U64 64)));
     Ist_WrTmp 2 (Iex_Binop Iop_Add64 (Iex_RdTmp 0) (Iex_Const (Ico_U64 1)));
     Ist_WrTmp 3 (Iex_Binop Iop_Add64 (Iex_RdTmp 1) (Iex_Const (Ico_U64 1)));
     Ist_WrTmp 4 (Iex_Get 896 Ity_I32);
     Ist_WrTmp 5 (Iex_GetI fpregs (Iex_RdTmp 4) 0);
     Ist_PutI fpregs (Iex_RdTmp 4) 1 (Iex_RdTmp 5);
     Ist_WrTmp 6 (Iex_GetI fpregs (Iex_RdTmp 4) 0);
     Ist_Store Iend_LE (Iex_Const (Ico_U64 64)) (Iex_RdTmp 3);
     Ist_WrTmp 7 (Iex_Load Iend_LE Ity_I64 (Iex_Const (Ico_U64 64)))]
    (Iex_RdTmp 7) Ijk_Boring 184.

Lemma do_cse_BB_correct_witness :
  exists out any, do_cse_BB cse_block true = Ok (out, any)
    /\ (run_block cse_block put_world <> None /\ forall r, run_block cse_block put_world = Some r -> run_block out put_world = Some r).
Proof.
  destruct (do_cse_BB_correct cse_block true) as [Hret Hall]; [vm_compute; reflexivity..|].
  destruct Hret as (out & any & E); [vm_compute; reflexivity|]. exists out, any. split; [exact E|]. split; [vm_compute; discriminate|].
  destruct (Hall out any E) as (_ & _ & _ & H). intros r. apply (H _ _ machine machine_integers machine_laws machine_arrays machine_loads).
Defined.

(** The second load and the second sum are copies, and so is the second read; the load
    after the store is not. *)
Example cse_block_rewritten :
  (let* (out, any) := do_cse_BB cse_block true in Ok (stmts out, any))
  = Ok ([Ist_WrTmp 0 (Iex_Load Iend_LE Ity_I64 (Iex_Const (Ico_U64 64)));
         Ist_WrTmp 1 (Iex_RdTmp 0);
         Ist_WrTmp 2 (Iex_Binop Iop_Add64 (Iex_RdTmp 0) (Iex_Const (Ico_U64 1)));
         Ist_WrTmp 3 (Iex_RdTmp 2);
         Ist_WrTmp 4 (Iex_Get 896 Ity_I32);
         Ist_WrTmp 5 (Iex_GetI fpregs (Iex_RdTmp 4) 0);
         Ist_PutI fpregs (Iex_RdTmp 4) 1 (Iex_RdTmp 5);
         Ist_WrTmp 6 (Iex_RdTmp 5);
         Ist_Store Iend_LE (Iex_Const (Ico_U64 64)) (Iex_RdTmp 3);
         Ist_WrTmp 7 (Iex_Load Iend_LE Ity_I64 (Iex_Const (Ico_U64 64)))], true).
Proof. vm_compute. reflexivity. Qed.

(** Constants of type [F64] are compared as numbers, so a choice of 0.0 and one of
    -0.0 are taken to be one expression. *)
Example zeros_are_merged :
  (let* (out, any) := do_cse_BB (mk_IRSB [Ity_I1; Ity_F64; Ity_F64; Ity_F64]
    [Ist_WrTmp 0 (Iex_Get 896 Ity_I1); Ist_WrTmp 1 (Iex_Get 768 Ity_F64);
     Ist_WrTmp 2 (Iex_ITE (Iex_RdTmp 0) (Iex_RdTmp 1) (Iex_Const (Ico_F64 (SpecFloat.S754_zero false))));
     Ist_WrTmp 3 (Iex_ITE (Iex_RdTmp 0) (Iex_RdTmp 1) (Iex_Const (Ico_F64 (SpecFloat.S754_zero true))))]
    (Iex_Const (Ico_U64 4096)) Ijk_Boring 184) false in Ok (drop 3 (stmts out)))
  = Ok [Ist_WrTmp 3 (Iex_RdTmp 2)].
Proof. vm_compute. reflexivity. Qed.
