(* ===== verification/FoldTheory.v ===== *)
(** * Folding keeps values

    On a machine whose operators compute what they mean ([IntegerLaws]), an
    expression that is folded has the value it had, when what the temporaries are
    bound to has their values. *)

From stdpp Require Import gmap.
From S2P Require Import Prelude Primop IR Sanity IRSem IRRun IRTyping OpSem Fold FoldArith FoldConst.

(** An expression that always has the same value: of operators and atoms. *)
Definition pure (e : IRExpr) : bool :=
  match e with
  | Iex_RdTmp _ | Iex_Const _ | Iex_Unop _ _ | Iex_Binop _ _ _ | Iex_Triop _ _ _ _ | Iex_ITE _ _ _ => true
  | _ => false
  end.

(** ** Rules *)

(** What a rule makes of an expression. *)
Definition gives (r : rule) (Q : IRExpr -> Prop) : Prop := forall e, r = Ok (Some e) -> Q e.

Lemma gives_none Q : gives no_match Q.
Proof. by intros e. Qed.

Lemma gives_orelse r1 r2 Q : gives r1 Q -> gives r2 Q -> gives (orelse r1 r2) Q.
Proof. intros H1 H2 e (x & Hx & H)%bind_Ok_inv. destruct x; [injection H as ->; auto|auto]. Qed.

Lemma gives_when b e Q : (b = Ok true -> forall e', e = Ok e' -> Q e') -> gives (when b e) Q.
Proof. intros H e' (c & Hc & He)%bind_Ok_inv. destruct c; [|done]. apply bind_Ok_inv in He as (e1 & He & [= <-]). auto. Qed.

Lemma gives_if (b : bool) r1 r2 Q : (b = true -> gives r1 Q) -> (b = false -> gives r2 Q) -> gives (if b then r1 else r2) Q.
Proof. destruct b; auto. Qed.

Lemma either_true b1 b2 : either b1 b2 = Ok true -> b1 = Ok true \/ b2 = Ok true.
Proof. unfold either. intros (b & Hb & H)%bind_Ok_inv. destruct b; auto. Qed.

Section Values.
Context {V W} `{M : Machine V W} `{!MachineLaws M} `{!IntegerLaws M} (tyenv : IRTypeEnv).
Context (env : bindings) (rho : gmap Z V) (w : W) (Hrho : typed tyenv rho).

(** The bindings have the values of the temporaries. *)
Definition bound : Prop := forall t e v, rd env t = Ok (Some e) -> pure e = true -> rho !! t = Some v -> eval rho w e = Some v.
Context (Hbound : bound).

(** And their types. *)
Context (Henv : forall t e, rd env t = Ok (Some e) -> retyped tyenv tyenv (Iex_RdTmp t) e).

Lemma sameIRExprs_pure fuel : forall e1 e2 n n', sameIRExprs_aux env fuel e1 e2 n = Ok (true, n') -> pure e1 = true /\ pure e2 = true.
Proof. destruct fuel as [|fuel]; intros e1 e2 n n' H; [done|]. by destruct e1, e2. Qed.

(** The values of the parts of two expressions that are the same. *)
Ltac same_parts IH := cbn in *; inv_run; repeat match goal with
  | H : sameIRExprs_aux _ _ ?a ?b _ = Ok (true, _), H1 : eval _ _ ?a = Some ?x, H2 : eval _ _ ?b = Some ?y |- _ =>
      pose proof (IH _ _ _ _ _ _ H H1 H2); clear H
  end; by subst.
Lemma sameIRExprs_value fuel : forall e1 e2 n n' v1 v2, sameIRExprs_aux env fuel e1 e2 n = Ok (true, n') ->
  eval rho w e1 = Some v1 -> eval rho w e2 = Some v2 -> v1 = v2.
Proof.
  induction fuel as [|fuel IH]; intros e1 e2 n n' v1 v2 H H1 H2; [done|]. cbn [sameIRExprs_aux] in H.
  assert (Hboth : forall a1 a2 k m, (let* (b, n) := sameIRExprs_aux env fuel a1 a2 m in if (b : bool) then k n else Ok (false, n)) = Ok (true, n') ->
    (exists m', sameIRExprs_aux env fuel a1 a2 m = Ok (true, m') /\ k m' = Ok (true, n'))).
  { intros a1 a2 k m ([[] m'] & Ha & Hk)%bind_Ok_inv; [by exists m'|done]. }
  destruct e1, e2; try done; destruct (NODE_LIMIT <? n); try done.
  - destruct (Z.eqb_spec tmp tmp0) as [->|_]; [congruence|]. apply bind_Ok_inv in H as (b1 & Hb1 & H). destruct b1 as [d1|]; [|done].
    apply bind_Ok_inv in H as (b2 & Hb2 & H). destruct b2 as [d2|]; [|done].
    destruct (sameIRExprs_pure _ _ _ _ _ H) as [P1 P2]. eapply IH; [exact H|by eapply Hbound|by eapply Hbound].
  - destruct (Z.eqb_spec op op0) as [->|_]; [|done]. apply Hboth in H as (m1 & Ha & H). apply Hboth in H as (m2 & Hb & H). same_parts IH.
  - destruct (Z.eqb_spec op op0) as [->|_]; [|done]. apply Hboth in H as (m1 & Ha & H). same_parts IH.
  - destruct (Z.eqb_spec op op0) as [->|_]; [|done]. same_parts IH.
  - assert (con = con0) as ->; [|cbn in *; congruence].
    destruct con, con0; try done; injection H as Heq _; apply Z.eqb_eq in Heq; by subst.
  - apply Hboth in H as (m1 & Ha & H). apply Hboth in H as (m2 & Hb & H). same_parts IH.
Qed.

Lemma same_result a1 a2 v1 v2 : sameIRExprs env a1 a2 = Ok true -> eval rho w a1 = Some v1 -> eval rho w a2 = Some v2 -> v1 = v2.
Proof. intros ([b n] & H & [= ->])%bind_Ok_inv. by eapply sameIRExprs_value. Qed.

Lemma chase_value fuel : forall e e' v, chase_loop env fuel e = Ok (Some e') -> pure e' = true -> eval rho w e = Some v -> eval rho w e' = Some v.
Proof.
  induction fuel as [|fuel IH]; intros e e' v H Hp Hv; (destruct e; try (injection H as <-; exact Hv)); [done|].
  apply bind_Ok_inv in H as ([d|] & Hd & H); [|done]. eapply IH; [exact H|done|].
  eapply Hbound; [exact Hd| |exact Hv]. destruct d; try done; destruct fuel; by injection H as <-.
Qed.

Lemma chase_type fuel : forall e e', chase_loop env fuel e = Ok (Some e') -> well_typed tyenv e = true -> retyped tyenv tyenv e e'.
Proof.
  induction fuel as [|fuel IH]; intros e e' H Hw; (destruct e; try (injection H as <-; by split; [|intros ?])); [done|].
  apply bind_Ok_inv in H as ([d|] & Hd & H); [|done]. destruct (Henv _ _ Hd) as [Wd Td]. destruct (IH _ _ H Wd) as [W' T'].
  split; [done|]. intros ty Hty. by apply T', Td.
Qed.

(** ** Constant operands *)

Lemma const_bits c n v : well_typed tyenv (Iex_Const c) = true -> const_value c = Some n -> eval rho w (Iex_Const c) = Some v -> v_bits v = n.
Proof. intros Hw%well_typed_parts Hn [= <-]. by apply bits_const. Qed.

Lemma isZeroU_bits a v : isZeroU a = Ok true -> well_typed tyenv a = true -> eval rho w a = Some v -> v_bits v = 0.
Proof.
  intros H Hw Hv. destruct a; try done. destruct con; try done; injection H as ->%Z.eqb_eq; by eapply const_bits in Hv; [|done|vm_compute].
Qed.

Lemma isOnesU_bits a v n : isOnesU a = Ok true -> well_typed tyenv a = true -> eval rho w a = Some v -> width (v_type v) = Some n -> v_bits v = all_ones n.
Proof.
  intros H Hw Hv Hn. destruct a; try done. destruct con; try done; injection H as ->%Z.eqb_eq;
    (eapply const_bits in Hw as ->; [|done|exact Hv]); injection Hv as <-; rewrite type_of_const in Hn; by injection Hn as <-.
Qed.

Lemma isZeroV_bits a v : isZeroV128 a || isZeroV256 a = true -> well_typed tyenv a = true -> eval rho w a = Some v -> v_bits v = 0.
Proof.
  intros H Hw Hv. destruct a; try done. destruct con; try done; cbn in H; rewrite ?orb_false_r in H; apply Z.eqb_eq in H as ->; by eapply const_bits in Hv; [|done|vm_compute].
Qed.

Lemma isOnesV128_bits a v : isOnesV128 a = true -> well_typed tyenv a = true -> eval rho w a = Some v -> v_bits v = all_ones 128.
Proof.
  intros H Hw Hv. destruct a; try done. destruct con; try done; cbn in H; apply Z.eqb_eq in H as ->; by eapply const_bits in Hv; [|done|vm_compute].
Qed.

Lemma isZeroU32_bits a v : isZeroU32 a = true -> well_typed tyenv a = true -> eval rho w a = Some v -> v_bits v = 0.
Proof.
  intros H Hw Hv. destruct a; try done. destruct con; try done; cbn in H; apply Z.eqb_eq in H as ->; by eapply const_bits in Hv; [|done|vm_compute].
Qed.

(** ** Results *)

(** [v] is what the operator means. *)
Lemma result_is op t vs v : typeOfPrimop op = Ok t -> map v_type vs = operand_types t -> v_type v = t_dst t -> width (t_dst t) <> None ->
  ref_op op (map v_bits vs) = Some (v_bits v) -> v_op op vs = v.
Proof.
  intros Ht Hvs Hv Hw Hr. apply bits_inj; [by rewrite (type_of_op _ _ _ Ht)|by rewrite (type_of_op _ _ _ Ht)|]. by eapply bits_op.
Qed.

(** Constants are folded to what they mean. *)
Lemma means_value op cs c : operands_ok op cs -> means op cs c -> v_op op (map v_const cs) = v_const c.
Proof.
  intros (t & Ht & Hty & Hok) (Hc & t' & vs & n & Ht' & Htc & Hvs & Hn & Hr). rewrite Ht in Ht'. injection Ht' as <-.
  eapply result_is; [exact Ht| |by rewrite type_of_const| |].
  - rewrite <-Hty, map_map. apply map_ext. intros ?. by rewrite type_of_const.
  - rewrite <-Htc. by destruct c.
  - rewrite (bits_const _ _ Hc Hn), <-Hr. f_equal. apply mapM_Some in Hvs. clear -Hvs Hok IntegerLaws0.
    induction Hvs as [|c0 n0 cs vs Hc0 _ IH]; [done|]. inversion_clear Hok. cbn. rewrite IH by done. f_equal. by apply bits_const.
Qed.

Definition case_sound (op : Z) (f : Z -> IRExpr -> IRExpr -> rule) : Prop :=
  forall a1 a2 v1 v2 t, typeOfPrimop op = Ok t -> [v_type v1; v_type v2] = operand_types t ->
  well_typed tyenv a1 = true -> well_typed tyenv a2 = true -> eval rho w a1 = Some v1 -> eval rho w a2 = Some v2 ->
  gives (f op a1 a2) (fun e => eval rho w e = Some (v_op op [v1; v2])).

(** The operands of an operator that is known, with their widths. *)
Ltac sized := repeat match goal with H : v_type ?v = ?ty |- _ =>
    lazymatch goal with _ : fits _ (v_bits v) |- _ => fail | _ => idtac end;
    let o := eval compute in (width ty) in
    lazymatch o with Some ?n => assert (fits n (v_bits v)) by (apply bits_range; rewrite H; reflexivity) end
  end.
Ltac operands :=
  intros a1 a2 v1 v2 t Ht Hty W1 W2 E1 E2; vm_compute in Ht; injection Ht as <-; cbn in Hty; injection Hty as T1 T2; sized.

Ltac types := cbn [map]; rewrite ?type_of_const;
  repeat match goal with
  | |- context [v_type (v_op ?op ?vs)] => rewrite (type_of_op op vs _ ltac:(vm_compute; reflexivity))
  | T : v_type ?v = _ |- context [v_type ?v] => rewrite T
  end; reflexivity.
Ltac result := eapply result_is; [vm_compute; reflexivity|types|types|done|cbn [map]].

(** The number an operator that is known computes. *)
Ltac bits := eapply bits_op; [vm_compute; reflexivity|types|cbn [map]; reference].

(** The result is an operand, with what is known of the other: the meaning is
    computed, and arithmetic remains. *)
Ltac meant := result; repeat match goal with Hz : v_bits ?v = _ |- context [v_bits ?v] => rewrite Hz end; reference.
Ltac an_operand := match goal with E : eval rho w ?a = Some _ |- eval rho w ?a = _ => rewrite E; f_equal; symmetry; meant end.
Ltac rules := repeat (apply gives_orelse); apply gives_when; intros Hb e'; try intros [= <-].

(** What is known of a constant operand. *)
Ltac zero W E := match goal with Hb : isZeroU _ = Ok true |- _ => pose proof (isZeroU_bits _ _ Hb W E) end.
Ltac ones W E := match goal with Hb : isOnesU _ = Ok true, T : v_type ?v = _ |- _ =>
  pose proof (isOnesU_bits _ v _ Hb W E ltac:(rewrite T; reflexivity)) end.

(** Identities of arithmetic. *)
Ltac arithmetic := f_equal; rewrite ?Z.mul_1_r, ?Z.div_1_r, ?Z.add_0_r, ?Z.add_0_l, ?Z.sub_0_r, ?Z.lor_0_r, ?Z.lor_0_l, ?Z.land_0_r, ?Z.land_0_l,
    ?Z.lxor_0_r, ?Z.lxor_0_l, ?Z.lor_diag, ?Z.land_diag, ?Z.lxor_nilpotent, ?sub_self, ?Z.max_id by lia;
  first [done | by apply fits_mod | by apply signed_mod | by apply land_ones_id | by rewrite Z.land_comm; apply land_ones_id
    | by apply lor_ones | by rewrite Z.lor_comm; apply lor_ones | unfold fits in *; lia].

Lemma case_shifts op (f := fun (_ : Z) a1 a2 => orelse (when (isZeroU a2) (Ok a1)) (when (isZeroU a1) (Ok a1))) :
  In op [Iop_Shl32; Iop_Shl64; Iop_Shr64; Iop_Sar64] -> case_sound op f.
Proof.
  intros [<-|[<-|[<-|[<-|[]]]]]; operands; rules.
  all: first [zero W2 E2; an_operand; arithmetic|zero W1 E1; an_operand].
  all: destruct (_ <? _); [|done]; f_equal; by rewrite ?Z.mul_0_l, ?Z.div_0_l by lia.
Qed.

Ltac cases_of H := repeat (destruct H as [<-|H]); [..|destruct H].
Ltac same := match goal with Hb : sameIRExprs env ?a ?b = Ok true, E1 : eval rho w ?a = Some _, E2 : eval rho w ?b = Some _ |- _ =>
  pose proof (same_result _ _ _ _ Hb E1 E2); subst end.
Ltac a_constant := cbn [eval]; f_equal; symmetry; result; erewrite !bits_const by (vm_compute; reflexivity);
  repeat match goal with Hz : v_bits ?v = _ |- context [v_bits ?v] => rewrite Hz end; reference.

Lemma case_shr_sar op : In op [Iop_Sar32; Iop_Shr32] -> case_sound op (fun _ a1 a2 => when (isZeroU a2) (Ok a1)).
Proof. intros H. cases_of H; operands; rules; zero W2 E2; an_operand; arithmetic. Qed.

Lemma case_or op : In op [Iop_Or8; Iop_Or16; Iop_Or32; Iop_Or64; Iop_Max32U] -> case_sound op (fun op a1 a2 =>
  orelse (when (isZeroU a2) (Ok a1)) (orelse (when (isZeroU a1) (Ok a2))
    (orelse (when (either (isOnesU a1) (isOnesU a2)) (mkOnesOfPrimopResultType op)) (when (sameIRExprs env a1 a2) (Ok a1))))).
Proof.
  intros H. cases_of H; operands; rules.
  all: try match goal with Hb : either _ _ = Ok true |- _ => apply either_true in Hb as [Hb|Hb] end.
  all: first [zero W2 E2; an_operand; arithmetic|zero W1 E1; an_operand; arithmetic|same; an_operand; arithmetic
    |ones W1 E1; a_constant; arithmetic|ones W2 E2; a_constant; arithmetic].
Qed.

Lemma case_and op : In op [Iop_And8; Iop_And16; Iop_And32; Iop_And64] -> case_sound op (fun _ a1 a2 =>
  orelse (when (isOnesU a2) (Ok a1)) (orelse (when (isOnesU a1) (Ok a2))
    (orelse (when (isZeroU a2) (Ok a2)) (orelse (when (isZeroU a1) (Ok a1)) (when (sameIRExprs env a1 a2) (Ok a1)))))).
Proof.
  intros H. cases_of H; operands; rules.
  all: first [zero W2 E2; an_operand; arithmetic|zero W1 E1; an_operand; arithmetic|same; an_operand; arithmetic
    |ones W2 E2; an_operand; arithmetic|ones W1 E1; an_operand; arithmetic].
Qed.

(** Adding a value to itself is shifting it by 1. *)
Lemma add_self_is_shl add sh t t' n v : typeOfPrimop add = Ok t -> typeOfPrimop sh = Ok t' ->
  operand_types t = [v_type v; v_type v] -> operand_types t' = [v_type v; Ity_I8] -> t_dst t = v_type v -> t_dst t' = v_type v ->
  width (v_type v) = Some n -> (forall x, ref_op add [x; x] = Some ((x + x) mod 2 ^ n)) -> (forall x, ref_op sh [x; 1] = Some ((x * 2 ^ 1) mod 2 ^ n)) ->
  v_op sh [v; v_const (Ico_U8 1)] = v_op add [v; v].
Proof.
  intros Ht Ht' Ho Ho' Hd Hd' Hn Ha Hs. symmetry. eapply (result_is add t); [exact Ht|by rewrite Ho|by rewrite (type_of_op _ _ _ Ht'), Hd|by rewrite Hd, Hn|].
  cbn [map]. rewrite Ha. f_equal. symmetry. eapply bits_op; [exact Ht'|by rewrite Ho'; cbn; rewrite type_of_const|]. cbn [map].
  rewrite (bits_const (Ico_U8 1) 1), Hs by done. do 2 f_equal. lia.
Qed.

Ltac shifted := match goal with T : v_type ?v = _ |- _ => same; cbn [eval];
    match goal with E : eval rho w ?a = Some _ |- context [eval rho w ?a] => rewrite E end; cbn [mbind option_bind]; f_equal;
    eapply add_self_is_shl; rewrite ?T; [vm_compute; reflexivity|vm_compute; reflexivity|reflexivity..|intros; reference; reflexivity|intros; reference; reflexivity]
  end.

Lemma case_add8 op : In op [Iop_Add8] -> case_sound op (fun _ a1 a2 =>
  when (sameIRExprs env a1 a2) (Ok (Iex_Binop Iop_Shl8 a1 (Iex_Const (Ico_U8 1))))).
Proof. intros H. cases_of H; operands; rules. shifted. Qed.

Lemma case_add op : In op [Iop_Add32; Iop_Add64] -> case_sound op (fun op a1 a2 =>
  orelse (when (isZeroU a2) (Ok a1)) (orelse (when (isZeroU a1) (Ok a2))
    (when (sameIRExprs env a1 a2) (Ok (Iex_Binop (if op =? Iop_Add32 then Iop_Shl32 else Iop_Shl64) a1 (Iex_Const (Ico_U8 1))))))).
Proof.
  intros H. cases_of H; operands; rules.
  all: first [zero W2 E2; an_operand; arithmetic|zero W1 E1; an_operand; arithmetic|shifted].
Qed.

Lemma case_sub op : In op [Iop_Sub32; Iop_Sub64] -> case_sound op (fun op a1 a2 =>
  orelse (when (isZeroU a2) (Ok a1)) (when (sameIRExprs env a1 a2) (mkZeroOfPrimopResultType op))).
Proof.
  intros H. cases_of H; operands; rules.
  all: first [zero W2 E2; an_operand; arithmetic|same; a_constant; arithmetic].
Qed.

(** Vectors. *)
Ltac zero_vector W E := match goal with Hb : _ = true |- _ =>
    let H := fresh in assert (H : _ = 0) by (eapply isZeroV_bits; [rewrite Hb; rewrite ?orb_true_r; reflexivity|exact W|exact E]) end.

(** Tests of an operator that is known. *)
Ltac known := repeat match goal with
  | H : context [?a =? ?b] |- _ =>
      let v := eval vm_compute in (a =? b) in
      lazymatch v with true => change (a =? b) with true in H | false => change (a =? b) with false in H end
  end; cbn [andb orb] in *.
Ltac vector_rules := repeat lazymatch goal with
    | |- gives (orelse _ _) _ => apply gives_orelse
    | |- gives (if _ then _ else _) _ => apply gives_if; intros Hc
    | |- gives no_match _ => apply gives_none
    | |- gives (when _ _) _ => apply gives_when; intros Hb e'; try intros [= <-]
    end;
  repeat match goal with H : Ok _ = Ok true |- _ => injection H as H end; known;
  try discriminate; repeat match goal with H : _ || _ = true |- _ => apply orb_true_iff in H as [H|H] end; try discriminate.

Lemma case_sub8x16 op : In op [Iop_Sub8x16] -> case_sound op (fun _ a1 a2 => when (Ok (isZeroV128 a2)) (Ok a1)).
Proof. intros H. cases_of H; operands; vector_rules. zero_vector W2 E2. an_operand. f_equal. by apply (lanes_sub_0 16). Qed.

Lemma case_andV op : In op [Iop_AndV128; Iop_AndV256] -> case_sound op (fun op a1 a2 =>
  orelse (when (sameIRExprs env a1 a2) (Ok a1))
    (if (op =? Iop_AndV256) && (isZeroV256 a1 || isZeroV256 a2) || (op =? Iop_AndV128) && (isZeroV128 a1 || isZeroV128 a2)
     then when (Ok true) (mkZeroOfPrimopResultType op)
     else when (Ok ((op =? Iop_AndV128) && isOnesV128 a2)) (Ok a1))).
Proof.
  intros H. cases_of H; operands; vector_rules.
  all: first [same; an_operand; arithmetic|zero_vector W1 E1; a_constant; arithmetic|zero_vector W2 E2; a_constant; arithmetic
    |pose proof (isOnesV128_bits _ _ Hb W2 E2); an_operand; arithmetic].
Qed.

Lemma case_orV op : In op [Iop_OrV128; Iop_OrV256] -> case_sound op (fun op a1 a2 =>
  orelse (when (sameIRExprs env a1 a2) (Ok a1))
    (orelse (when (Ok ((op =? Iop_OrV128) && isZeroV128 a2)) (Ok a1))
      (orelse (when (Ok ((op =? Iop_OrV128) && isZeroV128 a1)) (Ok a2)) (when (Ok ((op =? Iop_OrV256) && isZeroV256 a2)) (Ok a1))))).
Proof.
  intros H. cases_of H; operands; vector_rules.
  all: first [same; an_operand; arithmetic|zero_vector W2 E2; an_operand; arithmetic|zero_vector W1 E1; an_operand; arithmetic].
Qed.

Lemma case_xor op : In op [Iop_Xor8; Iop_Xor16; Iop_Xor32; Iop_Xor64; Iop_XorV128; Iop_XorV256] -> case_sound op (fun op a1 a2 =>
  orelse (when (sameIRExprs env a1 a2) (mkZeroOfPrimopResultType op))
    (if op =? Iop_XorV128 then when (Ok (isZeroV128 a2)) (Ok a1)
     else orelse (when (isZeroU a1) (Ok a2)) (when (isZeroU a2) (Ok a1)))).
Proof.
  intros H. cases_of H; operands; vector_rules.
  all: first [same; a_constant; arithmetic|zero_vector W2 E2; an_operand; arithmetic|zero W1 E1; an_operand; arithmetic|zero W2 E2; an_operand; arithmetic].
Qed.

Lemma case_cmpEQ op : In op [Iop_CmpEQ32; Iop_CmpEQ64; Iop_CmpEQ8x8; Iop_CmpEQ8x16; Iop_CmpEQ16x8; Iop_CmpEQ32x4; Iop_CmpEQ32x8] ->
  case_sound op (fun op a1 a2 => when (sameIRExprs env a1 a2) (mkOnesOfPrimopResultType op)).
Proof.
  intros H. cases_of H; operands; vector_rules; same; a_constant; f_equal.
  1, 2: by rewrite Z.eqb_refl.
  all: by apply lanes_same.
Qed.

(** Operands have the types the operator takes. *)
Lemma values_typed op t es vs : takes tyenv op es = true -> typeOfPrimop op = Ok t -> Forall2 (fun e v => eval rho w e = Some v) es vs ->
  map v_type vs = operand_types t.
Proof.
  unfold takes. intros H Ht Hv. rewrite Ht in H. revert H. generalize (operand_types t). induction Hv as [|e v es vs He _ IH]; intros [|ty tys]; cbn; try done.
  intros [Hty%has_type_iff H]%andb_true_iff. f_equal; [by eapply eval_type|by apply IH].
Qed.

Lemma unop_value op t a v : typeOfPrimop op = Ok t -> well_typed tyenv (Iex_Unop op a) = true -> eval rho w (Iex_Unop op a) = Some v ->
  exists x, eval rho w a = Some x /\ v = v_op op [x] /\ [v_type x] = operand_types t /\ well_typed tyenv a = true.
Proof.
  intros Ht [Hw Hk]%well_typed_parts Hv. cbn in Hv. inv_run. eexists. split_and!; [done|done| |done].
  by apply (values_typed op t [a] [x]); [|done|constructor].
Qed.

Lemma binop_value op t a b v : typeOfPrimop op = Ok t -> well_typed tyenv (Iex_Binop op a b) = true -> eval rho w (Iex_Binop op a b) = Some v ->
  exists x y, eval rho w a = Some x /\ eval rho w b = Some y /\ v = v_op op [x; y] /\ [v_type x; v_type y] = operand_types t
    /\ well_typed tyenv a = true /\ well_typed tyenv b = true.
Proof.
  intros Ht (Hw1 & Hw2 & Hk)%well_typed_parts Hv. cbn in Hv. inv_run. eexists _, _. split_and!; [done..| |done|done].
  apply (values_typed op t [a; b] [x; x0]); [done|done|]. by repeat constructor.
Qed.

Lemma case_cmpNE op : In op [Iop_CmpNE32] -> case_sound op (fun op a1 a2 =>
  orelse (when (sameIRExprs env a1 a2) (mkZeroOfPrimopResultType op))
    (if isZeroU32 a2
     then let* a := chase env a1 in
          match a with Some (Iex_Unop op1 b) => when (Ok (op1 =? Iop_1Uto32)) (Ok b) | _ => no_match end
     else no_match)).
Proof.
  intros H. cases_of H; operands; vector_rules; [same; a_constant; by rewrite Z.eqb_refl|].
  intros e' (a & Ha & He)%bind_Ok_inv. destruct a as [[]|]; try done. revert e' He. apply gives_when. intros [= ->%Z.eqb_eq] e' [= <-].
  destruct (chase_type _ _ _ Ha W1) as [Wa _]. apply (chase_value _ _ _ _ Ha) in E1; [|done].
  epose proof (unop_value Iop_1Uto32 _ _ _ ltac:(vm_compute; reflexivity) Wa E1) as (x & Ex & -> & Tx & _). cbn in Tx. injection Tx as Tx.
  rewrite Ex. f_equal. symmetry. sized. result. rewrite (isZeroU32_bits _ _ Hc W2 E2).
  assert (Hb : v_bits (v_op Iop_1Uto32 [x]) = v_bits x) by (by bits).
  rewrite Hb. reference. f_equal.
  assert (Hx : v_bits x = 0 \/ v_bits x = 1) by (unfold fits in *; lia). by destruct Hx as [-> | ->].
Qed.

Lemma identity_cases_sound : every case_sound (identity_cases env).
Proof.
  repeat (apply every_row; [first [exact case_shifts|exact case_shr_sar|exact case_or|exact case_add8|exact case_add
    |exact case_sub|exact case_sub8x16|exact case_and|exact case_andV|exact case_orV|exact case_xor|exact case_cmpNE|exact case_cmpEQ]|]).
  constructor.
Qed.

(** ** Expressions *)

Lemma eqIRAtom_I64 a b : eqIRAtom a b = Ok true -> typeOfIRExpr tyenv a = Ok Ity_I64 -> a = b.
Proof.
  unfold eqIRAtom. intros H Ht. destruct a; try done; destruct b; try done; cbn in H.
  - by injection H as ->%Z.eqb_eq.
  - destruct con, con0; try done. by injection H as ->%Z.eqb_eq.
Qed.

Lemma popcount_value arg v : typeOfIRExpr tyenv arg = Ok Ity_I64 -> well_typed tyenv arg = true -> eval rho w arg = Some v ->
  gives (popcount_rule env arg) (fun e => eval rho w e = Some (v_op Iop_PopCount64 [v])).
Proof.
  intros Ht Hw Hv. unfold popcount_rule. intros e' (a1 & H1 & He)%bind_Ok_inv. destruct a1 as [[| | | | | |op1 b1 b2| | | | | | |]|]; try done.
  destruct (Z.eqb_spec op1 Iop_And64) as [->|]; [|done]. apply bind_Ok_inv in He as (a11 & H11 & He). destruct a11 as [[| | | | | |op11 a111 c| | | | | | |]|]; try done.
  destruct (Z.eqb_spec op11 Iop_Add64) as [->|]; [|done]. apply bind_Ok_inv in He as (a12 & H12 & He). destruct a12 as [[| | | | | | |op12 a121| | | | | |]|]; try done.
  destruct (Z.eqb_spec op12 Iop_Not64) as [->|]; [|done]. apply bind_Ok_inv in He as (a112 & H112 & He). destruct a112 as [a112|]; [|done].
  apply bind_Ok_inv in He as (s & Hs & He). destruct s; [|done]. cbn [negb] in He. revert e' He. apply gives_when. intros Hones e' [= <-].
  destruct (chase_type _ _ _ H1 Hw) as [W1 _]. apply (chase_value _ _ _ _ H1) in Hv; [|done].
  epose proof (binop_value Iop_And64 _ _ _ _ ltac:(vm_compute; reflexivity) W1 Hv) as (x & y & Ex & Ey & -> & Txy & Wb1 & Wb2).
  destruct (chase_type _ _ _ H11 Wb1) as [W11 _]. apply (chase_value _ _ _ _ H11) in Ex; [|done].
  epose proof (binop_value Iop_Add64 _ _ _ _ ltac:(vm_compute; reflexivity) W11 Ex) as (z & k & Ez & Ek & -> & Tzk & Wz & Wc).
  destruct (chase_type _ _ _ H12 Wb2) as [W12 _]. apply (chase_value _ _ _ _ H12) in Ey; [|done].
  epose proof (unop_value Iop_Not64 _ _ _ ltac:(vm_compute; reflexivity) W12 Ey) as (z' & Ez' & -> & Tz' & _).
  destruct (chase_type _ _ _ H112 Wc) as [Wk _]. apply (chase_value _ _ _ _ H112) in Ek; [|by destruct a112].
  cbn in Tzk, Tz'. injection Tzk as Tz Tk. injection Tz' as Tz'. clear Txy.
  destruct (well_typed_type _ _ Wz) as [ty Hty]. pose proof (eval_type _ _ _ _ _ _ Hrho Ez Hty) as Ety. rewrite Tz in Ety. subst ty.
  pose proof (eqIRAtom_I64 _ _ Hs Hty) as <-. rewrite Ez in Ez'. injection Ez' as <-. cbn [eval]. rewrite Ez. cbn [mbind option_bind]. f_equal.
  pose proof (isOnesU_bits _ _ 64 Hones Wk Ek ltac:(by rewrite Tk)) as Hk. sized.
  assert (Ba : v_bits (v_op Iop_Add64 [z; k]) = (v_bits z + all_ones 64) mod 2 ^ 64) by (bits; by rewrite Hk).
  assert (Bn : v_bits (v_op Iop_Not64 [z]) = all_ones 64 - v_bits z) by (by bits).
  assert (Bd : v_bits (v_op Iop_And64 [v_op Iop_Add64 [z; k]; v_op Iop_Not64 [z]])
    = Z.land ((v_bits z + all_ones 64) mod 2 ^ 64) (all_ones 64 - v_bits z)) by (bits; by rewrite Ba, Bn).
  symmetry. result. rewrite Bd. reference. rewrite (popcount_ctz 64) by done. symmetry. f_equal. by bits.
Qed.

Lemma constants_ok op cs t : typeOfPrimop op = Ok t -> Forall (fun c => well_typed tyenv (Iex_Const c) = true) cs ->
  takes tyenv op (map Iex_Const cs) = true -> operands_ok op cs.
Proof.
  intros Ht Hw Hk. exists t. split; [done|]. split.
  - unfold takes in Hk. rewrite Ht in Hk. revert Hk. generalize (operand_types t). clear Hw.
    induction cs as [|c cs IH]; intros [|ty tys]; cbn; try done. intros [->%bool_decide_eq_true H]%andb_true_iff. f_equal. by apply IH.
  - eapply Forall_impl; [exact Hw|]. intros c. apply well_typed_parts.
Qed.

Lemma takes_type op es : takes tyenv op es = true -> exists t, typeOfPrimop op = Ok t.
Proof. unfold takes. destruct (typeOfPrimop op) as [t|]; [by exists t|done]. Qed.

Lemma folded_value op cs r v : operands_ok op cs -> folds op cs r -> v = v_op op (map v_const cs) ->
  gives (let* c := r in Ok (Iex_Const <$> c)) (fun e => eval rho w e = Some v).
Proof.
  intros Hok Hf -> e (c & -> & [= He])%bind_Ok_inv. destruct c as [c|]; [|done]. injection He as <-. cbn. f_equal. symmetry. by apply means_value.
Qed.

Lemma fold_unop_value op arg v : well_typed tyenv (Iex_Unop op arg) = true -> eval rho w (Iex_Unop op arg) = Some v ->
  gives (fold_unop env op arg) (fun e => eval rho w e = Some v).
Proof.
  intros Hw Hv. pose proof (well_typed_parts _ _ Hw) as [Ha Hk]. destruct (takes_type _ _ Hk) as [t Ht].
  destruct (unop_value _ _ _ _ Ht Hw Hv) as (x & Ex & -> & Tx & _).
  assert (Hpop : gives (if op =? Iop_PopCount64 then popcount_rule env arg else no_match) (fun e => eval rho w e = Some (v_op op [x]))).
  { apply gives_if; intros Hop; [|apply gives_none]. apply Z.eqb_eq in Hop as ->. apply popcount_value; [|done|done].
    unfold takes in Hk. vm_compute in Ht. injection Ht as <-. cbn in Hk. by apply andb_true_iff in Hk as [?%has_type_iff _]. }
  destruct arg; try exact Hpop. cbn [fold_unop]. eapply (folded_value op [con]); [|apply fold_unop_const_sound|by injection Ex as <-];
    by eapply (constants_ok op [con]); [exact Ht|constructor; [|constructor]|].
Qed.

Lemma fold_binop_value op a b v : well_typed tyenv (Iex_Binop op a b) = true -> eval rho w (Iex_Binop op a b) = Some v ->
  gives (fold_binop env op a b) (fun e => eval rho w e = Some v).
Proof.
  intros Hw Hv. pose proof (well_typed_parts _ _ Hw) as (Ha & Hb & Hk). destruct (takes_type _ _ Hk) as [t Ht].
  destruct (binop_value _ _ _ _ _ Ht Hw Hv) as (x & y & Ex & Ey & -> & Txy & _).
  assert (Hid : gives (match case (identity_cases env) op with Some f => f op a b | None => no_match end) (fun e => eval rho w e = Some (v_op op [x; y]))).
  { destruct (case (identity_cases env) op) as [f|] eqn:E; [|apply gives_none]. by eapply (every_case case_sound _ _ _ identity_cases_sound E). }
  destruct a; try exact Hid. destruct b; try exact Hid. cbn [fold_binop].
  eapply (folded_value op [con; con0]); [|apply fold_binop_const_sound|by injection Ex as <-; injection Ey as <-];
    by eapply (constants_ok op [con; con0]); [exact Ht|constructor; [|constructor; [|constructor]]|].
Qed.

Lemma fold_ITE_value c t f v : well_typed tyenv (Iex_ITE c t f) = true -> eval rho w (Iex_ITE c t f) = Some v ->
  gives (fold_ITE env c t f) (fun e => eval rho w e = Some v).
Proof.
  intros Hw Hv. pose proof (well_typed_parts _ _ Hw) as (Hc & _). cbn in Hv. inv_run.
  assert (Hsame : gives (when (sameIRExprs env t f) (Ok f)) (fun e => eval rho w e = Some (if v_true x then x0 else x1))).
  { apply gives_when. intros Hs e' [= <-]. match goal with H1 : eval _ _ t = Some _, H2 : eval _ _ f = Some _ |- _ => rewrite (same_result _ _ _ _ Hs H1 H2), H2 end.
    by destruct (v_true x). }
  destruct c; try exact Hsame. apply well_typed_parts in Hc. destruct con; try done. cbn [fold_ITE]. intros e' [= <-].
  match goal with H : eval _ _ (Iex_Const _) = Some _ |- _ => injection H as <- end. rewrite true_const.
  apply constant_fits in Hc as [-> | ->]; done.
Qed.

Lemma fold_Expr_WRK_value e e' v : well_typed tyenv e = true -> fold_Expr_WRK env e = Ok e' -> eval rho w e = Some v -> eval rho w e' = Some v.
Proof.
  intros Hw (r & Hr & [= <-])%bind_Ok_inv Hv. destruct r as [e'|]; [|done]. cbn. revert e' Hr.
  change (gives (fold_rule env e) (fun e => eval rho w e = Some v)).
  destruct e; try apply gives_none; [by apply fold_binop_value|by apply fold_unop_value|by apply fold_ITE_value].
Qed.
End Values.
