(* ===== verification/FoldTypes.v ===== *)
(** * Folding returns, and keeps types and flatness

    What makes the folding of an expression fail is an operator that overflows on
    a constant ([Left32] and [Left64] of the least number), one for which the
    constant of ones is missing ([Max32U]), and constants of one floating-point
    type written in two ways, which the comparison of expressions does not expect;
    and temporaries bound to one another in a circle would keep it from ending. *)

From S2P Require Import Prelude Primop IR Sanity IRSem IRRun IRTyping OpSem Fold FoldArith FoldConst FoldTheory.

(** ** Expressions that are folded without a failure *)

(** Floating-point constants are all written as bits, or all as numbers. *)
Definition written (as_bits : bool) (c : IRConst) : bool :=
  match c with Ico_F32 _ | Ico_F64 _ => negb as_bits | Ico_F32i _ | Ico_F64i _ => as_bits | _ => true end.

Fixpoint harmless (as_bits : bool) (e : IRExpr) : bool :=
  match e with
  | Iex_Const c => written as_bits c
  | Iex_Unop op a => negb ((op =? Iop_Left32) || (op =? Iop_Left64)) && harmless as_bits a
  | Iex_Binop op a b => negb (op =? Iop_Max32U) && harmless as_bits a && harmless as_bits b
  | Iex_Triop _ a b c | Iex_ITE a b c => harmless as_bits a && harmless as_bits b && harmless as_bits c
  | Iex_Qop _ a b c d => harmless as_bits a && harmless as_bits b && harmless as_bits c && harmless as_bits d
  | Iex_GetI _ a _ | Iex_Load _ _ a => harmless as_bits a
  | Iex_CCall _ _ args => forallb (harmless as_bits) args
  | _ => true
  end.

(** The temporaries an expression reads. *)
Fixpoint temps_of (e : IRExpr) : list Z :=
  match e with
  | Iex_RdTmp t => [t]
  | Iex_Unop _ a | Iex_GetI _ a _ | Iex_Load _ _ a => temps_of a
  | Iex_Binop _ a b => temps_of a ++ temps_of b
  | Iex_Triop _ a b c | Iex_ITE a b c => temps_of a ++ temps_of b ++ temps_of c
  | Iex_Qop _ a b c d => temps_of a ++ temps_of b ++ temps_of c ++ temps_of d
  | Iex_CCall _ _ args => concat (map temps_of args)
  | _ => []
  end.

(** ** Rules that return *)

Definition returns_rule (r : rule) : Prop := exists x, r = Ok x.

Lemma returns_orelse r1 r2 : returns_rule r1 -> returns_rule r2 -> returns_rule (orelse r1 r2).
Proof. intros [x1 ->] [x2 H2]. cbn. destruct x1 as [e|]; [by exists (Some e)|by exists x2]. Qed.

Lemma returns_when b e : (exists c, b = Ok c) -> (exists e', e = Ok e') -> returns_rule (when b e).
Proof. intros [c ->] [e' ->]. unfold when. cbn. destruct c; by eexists. Qed.

Lemma returns_no_match : returns_rule no_match.
Proof. by eexists. Qed.

Lemma either_ok b1 b2 : (exists c, b1 = Ok c) -> (exists c, b2 = Ok c) -> exists c, either b1 b2 = Ok c.
Proof. intros [c1 ->] [c2 ->]. cbn. destruct c1; by eexists. Qed.

Section Types.
Context (tyenv : IRTypeEnv) (env : bindings) (Hlen : length env = length tyenv).
Context (Henv : forall t e, rd env t = Ok (Some e) -> retyped tyenv tyenv (Iex_RdTmp t) e /\ flat_rhs e).

Abbreviation typed_as e ty := (well_typed tyenv e = true /\ typeOfIRExpr tyenv e = Ok ty /\ flat_rhs e).

(** ** Types *)

Lemma atom_flat a : isIRAtom a = true -> flat_rhs a.
Proof. by destruct a. Qed.

Definition case_typed (op : Z) (f : Z -> IRExpr -> IRExpr -> rule) : Prop :=
  forall a1 a2 t ty1 ty2, typeOfPrimop op = Ok t -> [ty1; ty2] = operand_types t -> isIRAtom a1 = true -> isIRAtom a2 = true ->
  well_typed tyenv a1 = true -> well_typed tyenv a2 = true -> typeOfIRExpr tyenv a1 = Ok ty1 -> typeOfIRExpr tyenv a2 = Ok ty2 ->
  gives (f op a1 a2) (fun e => typed_as e (t_dst t)).

Lemma chase_typed fuel : forall e e' ty, chase_loop env fuel e = Ok (Some e') -> typed_as e ty -> typed_as e' ty.
Proof.
  induction fuel as [|fuel IH]; intros e e' ty H He; (destruct e; try (injection H as <-; exact He)); [done|].
  apply bind_Ok_inv in H as ([d|] & Hd & H); [|done]. destruct (Henv _ _ Hd) as [[Wd Td] Fd]. eapply IH; [exact H|].
  split_and!; [done|apply Td, He|done].
Qed.

Lemma binop_typed op a b ty : typed_as (Iex_Binop op a b) ty ->
  exists t, typeOfPrimop op = Ok t /\ ty = t_dst t /\ isIRAtom a = true /\ isIRAtom b = true /\ well_typed tyenv a = true /\ well_typed tyenv b = true
    /\ takes tyenv op [a; b] = true.
Proof.
  intros (Hw & Ht & Hf). apply well_typed_parts in Hw as (Wa & Wb & Hk). destruct (takes_type _ _ _ Hk) as [t E]. exists t.
  cbn in Ht. rewrite E in Ht. injection Ht as <-. unfold flat_rhs in Hf. injection Hf as [? ?]%andb_true_iff. done.
Qed.

Lemma unop_typed op a ty : typed_as (Iex_Unop op a) ty ->
  exists t, typeOfPrimop op = Ok t /\ ty = t_dst t /\ isIRAtom a = true /\ well_typed tyenv a = true /\ takes tyenv op [a] = true.
Proof.
  intros (Hw & Ht & Hf). apply well_typed_parts in Hw as (Wa & Hk). destruct (takes_type _ _ _ Hk) as [t E]. exists t.
  cbn in Ht. rewrite E in Ht. injection Ht as <-. unfold flat_rhs in Hf. injection Hf as Hf. done.
Qed.

Lemma takes2 op t a b : typeOfPrimop op = Ok t -> takes tyenv op [a; b] = true ->
  exists ty1 ty2, [ty1; ty2] = operand_types t /\ typeOfIRExpr tyenv a = Ok ty1 /\ typeOfIRExpr tyenv b = Ok ty2.
Proof.
  unfold takes. intros ->. destruct (operand_types t) as [|ty1 [|ty2 [|]]]; cbn [have_types]; rewrite ?andb_false_r; try done.
  rewrite andb_true_r. intros [?%has_type_iff ?%has_type_iff]%andb_true_iff. by exists ty1, ty2.
Qed.

Lemma takes1 op t a : typeOfPrimop op = Ok t -> takes tyenv op [a] = true -> exists ty, [ty] = operand_types t /\ typeOfIRExpr tyenv a = Ok ty.
Proof.
  unfold takes. intros ->. destruct (operand_types t) as [|ty1 [|]]; cbn [have_types]; rewrite ?andb_false_r; try done.
  rewrite andb_true_r. intros ?%has_type_iff. by exists ty1.
Qed.

Ltac cases_of H := repeat (destruct H as [<-|H]); [..|destruct H].
Ltac operands := intros a1 a2 t ty1 ty2 Ht Hty A1 A2 W1 W2 T1 T2; vm_compute in Ht; injection Ht as <-; cbn in Hty; injection Hty as -> ->.
Ltac rules := repeat lazymatch goal with
    | |- gives (orelse _ _) _ => apply gives_orelse
    | |- gives (if _ then _ else _) _ => apply gives_if; intros Hc
    | |- gives no_match _ => apply gives_none
    | |- gives (when _ _) _ => apply gives_when; intros Hb e' He'
    end.
(** A shift by 1 has the type of its operand. *)
Lemma shl_typed sh t a ty : typeOfPrimop sh = Ok t -> operand_types t = [ty; Ity_I8] -> t_dst t = ty -> isIRAtom a = true ->
  well_typed tyenv a = true -> typeOfIRExpr tyenv a = Ok ty -> typed_as (Iex_Binop sh a (Iex_Const (Ico_U8 1))) ty.
Proof.
  intros Ht Ho Hd Ha Hw Hty. split_and!.
  - cbn [well_typed typeOfIRExpr]. rewrite Ht. cbn [obind]. rewrite Hw. cbn. unfold takes. rewrite Ht, Ho. cbn [have_types].
    by rewrite (proj2 (has_type_iff _ _ _) Hty).
  - cbn. rewrite Ht. cbn. by rewrite Hd.
  - unfold flat_rhs. cbn. by rewrite Ha.
Qed.

Lemma case_cmpNE_typed a1 : typeOfIRExpr tyenv a1 = Ok Ity_I32 -> well_typed tyenv a1 = true -> isIRAtom a1 = true ->
  gives (let* a := chase env a1 in match a with Some (Iex_Unop op1 b) => when (Ok (op1 =? Iop_1Uto32)) (Ok b) | _ => no_match end)
    (fun e => typed_as e Ity_I1).
Proof.
  intros T1 W1 A1 e' (a & Ha & He)%bind_Ok_inv. destruct a as [a|]; [|done].
  apply (chase_typed _ _ _ Ity_I32) in Ha; [|split_and!; [done|done|by apply atom_flat]].
  destruct a; try done. revert e' He. apply gives_when. intros [= ->%Z.eqb_eq] e' [= <-].
  apply unop_typed in Ha as (t & Ht & _ & Aa & Wa & Hk). destruct (takes1 _ _ _ Ht Hk) as (ty & Hty & Ta).
  vm_compute in Ht. injection Ht as <-. cbn in Hty. injection Hty as ->. split_and!; [done|done|by apply atom_flat].
Qed.

Ltac typed_result :=
  match goal with He' : _ = Ok ?e |- _ => first [injection He' as <- | vm_compute in He'; first [discriminate He' | injection He' as <-]] end;
  lazymatch goal with
  | |- typed_as (Iex_Const _) _ => split_and!; [vm_compute; reflexivity|vm_compute; reflexivity|done]
  | |- typed_as (Iex_Binop _ _ _) _ => eapply shl_typed; [vm_compute; reflexivity|reflexivity|reflexivity|assumption..]
  | |- _ => split_and!; [assumption|assumption|by apply atom_flat]
  end.

Lemma identity_cases_typed : every case_typed (identity_cases env).
Proof.
  repeat (apply every_row; [intros op H; cases_of H; operands; rules|]); [..|constructor].
  all: lazymatch goal with |- gives _ _ => idtac | |- _ => typed_result end.
  by apply case_cmpNE_typed.
Qed.

Lemma popcount_typed arg : typed_as arg Ity_I64 -> gives (popcount_rule env arg) (fun e => typed_as e Ity_I64).
Proof.
  intros Harg. unfold popcount_rule. intros e' (a1 & H1 & He)%bind_Ok_inv. destruct a1 as [[| | | | | |op1 b1 b2| | | | | | |]|]; try done.
  destruct (Z.eqb_spec op1 Iop_And64) as [->|]; [|done]. apply bind_Ok_inv in He as (a11 & H11 & He). destruct a11 as [[| | | | | |op11 a111 c| | | | | | |]|]; try done.
  destruct (Z.eqb_spec op11 Iop_Add64) as [->|]; [|done]. apply bind_Ok_inv in He as (a12 & H12 & He). destruct a12 as [[| | | | | | |op12 a121| | | | | |]|]; try done.
  destruct (Z.eqb_spec op12 Iop_Not64) as [->|]; [|done]. apply bind_Ok_inv in He as (a112 & H112 & He). destruct a112 as [a112|]; [|done].
  apply bind_Ok_inv in He as (s & Hs & He). destruct s; [|done]. cbn [negb] in He. revert e' He. apply gives_when. intros Hones e' [= <-].
  apply (chase_typed _ _ _ _ H1) in Harg. apply binop_typed in Harg as (t & Ht & _ & A1 & _ & W1 & _ & Hk).
  destruct (takes2 _ _ _ _ Ht Hk) as (ty1 & ty2 & Hty & T1 & _). vm_compute in Ht. injection Ht as <-. injection Hty as -> _.
  assert (H11' : typed_as b1 Ity_I64) by (split_and!; [done|done|by apply atom_flat]). apply (chase_typed _ _ _ _ H11) in H11'.
  apply binop_typed in H11' as (t & Ht & _ & A11 & _ & W11 & _ & Hk'). destruct (takes2 _ _ _ _ Ht Hk') as (ty1 & ty3 & Hty & T11 & _).
  vm_compute in Ht. injection Ht as <-. injection Hty as -> _. split_and!.
  - cbn [well_typed typeOfIRExpr]. replace (typeOfPrimop Iop_CtzNat64) with (Ok (mk_primop_type Ity_I64 Ity_I64 Ity_INVALID Ity_INVALID Ity_INVALID)) by (vm_compute; reflexivity).
    cbn [obind t_dst]. rewrite W11. cbn [andb]. unfold takes.
    replace (typeOfPrimop Iop_CtzNat64) with (Ok (mk_primop_type Ity_I64 Ity_I64 Ity_INVALID Ity_INVALID Ity_INVALID)) by (vm_compute; reflexivity).
    change (operand_types _) with [Ity_I64]. cbn [have_types]. by rewrite (proj2 (has_type_iff _ _ _) T11).
  - vm_compute. reflexivity.
  - unfold flat_rhs. cbn. by rewrite A11.
Qed.

Lemma means_typed op cs c t : typeOfPrimop op = Ok t -> means op cs c -> typed_as (Iex_Const c) (t_dst t).
Proof. intros Ht (Hc & t' & _ & _ & Ht' & Hty & _). rewrite Ht in Ht'. injection Ht' as <-. split_and!; [done|by cbn; rewrite Hty|done]. Qed.

Lemma fold_rule_typed e ty : typed_as e ty -> gives (fold_rule env e) (fun e' => typed_as e' ty).
Proof.
  intros He. destruct e; try apply gives_none; cbn [fold_rule].
  - destruct (binop_typed _ _ _ _ He) as (t & Ht & -> & A1 & A2 & W1 & W2 & Hk). destruct (takes2 _ _ _ _ Ht Hk) as (ty1 & ty2 & Hty & T1 & T2).
    assert (Hid : gives (match case (identity_cases env) op with Some f => f op e1 e2 | None => no_match end) (fun e => typed_as e (t_dst t))).
    { destruct (case (identity_cases env) op) as [f|] eqn:E; [|apply gives_none].
      by eapply (every_case case_typed _ _ _ identity_cases_typed E). }
    destruct e1; try exact Hid. destruct e2; try exact Hid. cbn [fold_binop]. intros e' (r & Hr & [= He'])%bind_Ok_inv.
    destruct r as [c|]; [|done]. injection He' as <-. eapply means_typed; [exact Ht|].
    pose proof (fold_binop_const_sound op con con0) as Hf. rewrite Hr in Hf. apply Hf. eapply (constants_ok _ _ [con; con0]); [exact Ht| |exact Hk]. by repeat constructor.
  - destruct (unop_typed _ _ _ He) as (t & Ht & -> & A1 & W1 & Hk). destruct (takes1 _ _ _ Ht Hk) as (ty1 & Hty & T1).
    assert (Hpop : gives (if op =? Iop_PopCount64 then popcount_rule env e else no_match) (fun e => typed_as e (t_dst t))).
    { apply gives_if; intros Hop; [|apply gives_none]. apply Z.eqb_eq in Hop as ->. vm_compute in Ht. injection Ht as <-. injection Hty as ->.
      apply popcount_typed. split_and!; [done|done|by apply atom_flat]. }
    destruct e; try exact Hpop. cbn [fold_unop]. intros e' (r & Hr & [= He'])%bind_Ok_inv.
    destruct r as [c|]; [|done]. injection He' as <-. eapply means_typed; [exact Ht|].
    pose proof (fold_unop_const_sound op con) as Hf. rewrite Hr in Hf. apply Hf. eapply (constants_ok _ _ [con]); [exact Ht| |exact Hk]. by repeat constructor.
  - destruct He as (Hw & Ht & Hf). apply well_typed_parts in Hw as (W1 & W2 & W3 & Harms). cbn in Ht. unfold flat_rhs in Hf. injection Hf as Hf.
    apply andb_true_iff in Hf as [Hf A3]. apply andb_true_iff in Hf as [A1 A2]. apply andb_true_iff in Harms as [_ Harms].
    destruct (typeOfIRExpr tyenv e2) as [ty2|] eqn:T2; [|done]. apply has_type_iff in Harms. rewrite Ht in Harms. injection Harms as <-.
    assert (Hsame : gives (when (sameIRExprs env e2 e3) (Ok e3)) (fun e => typed_as e ty)).
    { apply gives_when. intros _ e' [= <-]. split_and!; [done|done|by apply atom_flat]. }
    destruct e1; try exact Hsame. destruct con; try done. intros e' [= <-]. destruct (b =? 0); (split_and!; [done|done|by apply atom_flat]).
Qed.

Lemma fold_Expr_WRK_typed e e' : flat_rhs e -> well_typed tyenv e = true -> fold_Expr_WRK env e = Ok e' -> flat_rhs e' /\ retyped tyenv tyenv e e'.
Proof.
  intros Hf Hw (r & Hr & [= <-])%bind_Ok_inv. destruct r as [e'|]; [|by split; [|split; [|intros ?]]]. cbn.
  destruct (well_typed_type _ _ Hw) as [ty Hty]. destruct (fold_rule_typed e ty (conj Hw (conj Hty Hf)) _ Hr) as (Hw' & Hty' & Hf').
  split; [done|]. split; [done|]. intros ty0. rewrite Hty. by intros [= <-].
Qed.

(** ** Folding returns *)

Section Returns.
Context (as_bits : bool) (stable : Z -> Prop).

(** Nothing in it makes folding fail. *)
Definition tidy (e : IRExpr) : Prop := harmless as_bits e = true /\ Forall stable (temps_of e).

(** Stable temporaries are not bound to temporaries. *)
Context (Hstable : forall t e, stable t -> rd env t = Ok (Some e) -> match e with Iex_RdTmp _ => False | _ => True end).
Context (Htidy : forall t e, rd env t = Ok (Some e) -> tidy e).

Lemma rd_bound t : well_typed tyenv (Iex_RdTmp t) = true -> exists b, rd env t = Ok b.
Proof. intros Hr%well_typed_temp. destruct (rd_is_ok env t) as (b & _ & E); [lia|]. by exists b. Qed.

Lemma chase_ok e : well_typed tyenv e = true -> tidy e -> exists r, chase env e = Ok r.
Proof.
  intros Hw [_ Ht]. unfold chase. destruct e; try by eexists. cbn [chase_loop]. destruct (rd_bound _ Hw) as [b E]. rewrite E. cbn [obind].
  destruct b as [d|]; [|by eexists]. inversion_clear Ht as [|? ? Hs _]. specialize (Hstable _ _ Hs E). destruct d; try done; destruct (length env); by eexists.
Qed.

Lemma chase_tidy fuel : forall e e', chase_loop env fuel e = Ok (Some e') -> tidy e -> tidy e'.
Proof.
  induction fuel as [|fuel IH]; intros e e' H He; (destruct e; try (injection H as <-; exact He)); [done|].
  apply bind_Ok_inv in H as ([d|] & Hd & H); [|done]. eapply IH; [exact H|]. by eapply Htidy.
Qed.

Lemma same_tag c1 c2 : written as_bits c1 = true -> written as_bits c2 = true -> typeOfIRConst c1 = typeOfIRConst c2 ->
  forall n : Z, exists b : bool, match c1, c2 return outcome (bool * Z) with
    | Ico_U1 x, Ico_U1 y | Ico_U8 x, Ico_U8 y | Ico_U16 x, Ico_U16 y | Ico_U32 x, Ico_U32 y | Ico_U64 x, Ico_U64 y => Ok (x =? y, n)
    | Ico_F32 _, Ico_F32 _ | Ico_F32i _, Ico_F32i _ | Ico_F64 _, Ico_F64 _ | Ico_F64i _, Ico_F64i _
    | Ico_V128 _, Ico_V128 _ | Ico_V256 _, Ico_V256 _ => Ok (false, n)
    | _, _ => Err AssertFail
    end = Ok (b, n).
Proof. intros H1 H2 Ht n. destruct c1, c2; try discriminate Ht; try by eexists. all: cbn in *; destruct as_bits; discriminate. Qed.

(** The comparison ends: it gives up after [NODE_LIMIT] nodes. *)
Abbreviation typed_like e ty := (well_typed tyenv e = true /\ typeOfIRExpr tyenv e = Ok ty /\ harmless as_bits e = true).

Definition compares (fuel : nat) : Prop := forall e1 e2 ty n, typed_like e1 ty -> typed_like e2 ty -> 32 <= Z.of_nat fuel + n -> (0 < fuel)%nat ->
  exists b n', sameIRExprs_aux env fuel e1 e2 n = Ok (b, n') /\ n <= n'.

Lemma takes_like op es1 es2 : takes tyenv op es1 = true -> takes tyenv op es2 = true ->
  Forall2 (fun e1 e2 => exists ty, typeOfIRExpr tyenv e1 = Ok ty /\ typeOfIRExpr tyenv e2 = Ok ty) es1 es2.
Proof.
  unfold takes. destruct (typeOfPrimop op) as [t|]; [|done]. generalize (operand_types t). intros tys. revert tys es2.
  induction es1 as [|e1 es1 IH]; intros [|ty tys] [|e2 es2]; cbn [have_types]; try done.
  intros [?%has_type_iff ?]%andb_true_iff [?%has_type_iff ?]%andb_true_iff. constructor; [by exists ty|by eapply IH].
Qed.

Lemma arms_like c1 t1 f1 c2 t2 f2 ty : arms_ok tyenv c1 t1 f1 = true -> arms_ok tyenv c2 t2 f2 = true ->
  typeOfIRExpr tyenv f1 = Ok ty -> typeOfIRExpr tyenv f2 = Ok ty ->
  Forall2 (fun e1 e2 => exists ty, typeOfIRExpr tyenv e1 = Ok ty /\ typeOfIRExpr tyenv e2 = Ok ty) [c1; t1; f1] [c2; t2; f2].
Proof.
  unfold arms_ok. intros [C1%has_type_iff H1]%andb_true_iff [C2%has_type_iff H2]%andb_true_iff F1 F2.
  destruct (typeOfIRExpr tyenv t1) as [ty1|] eqn:E1, (typeOfIRExpr tyenv t2) as [ty2|] eqn:E2; try done.
  apply has_type_iff in H1, H2. rewrite F1 in H1. rewrite F2 in H2. injection H1 as <-. injection H2 as <-.
  repeat constructor; [by exists Ity_I1|by exists ty|by exists ty].
Qed.

(** The operands of two expressions of the same operator. *)
Ltac parts := destruct_and?;
  repeat match goal with
  | H : harmless _ _ = true |- _ => progress cbn [harmless] in H; rewrite ?andb_true_iff in H; destruct_and?
  end;
  try match goal with H1 : arms_ok _ _ _ _ = true, H2 : arms_ok _ _ _ _ = true, T1 : typeOfIRExpr _ _ = Ok _, T2 : typeOfIRExpr _ _ = Ok _ |- _ =>
    pose proof (arms_like _ _ _ _ _ _ _ H1 H2 T1 T2) end;
  try match goal with H1 : takes _ ?op _ = true, H2 : takes _ ?op _ = true |- _ => pose proof (takes_like _ _ _ H1 H2) end;
  repeat match goal with H : Forall2 _ (_ :: _) (_ :: _) |- _ => inversion_clear H end.

Lemma sameIRExprs_compares fuel : compares fuel.
Proof.
  induction fuel as [|fuel IH]; intros e1 e2 ty n (W1 & T1 & S1) (W2 & T2 & S2) Hn Hf; [lia|]. cbn [sameIRExprs_aux].
  assert (Hno : forall b m, n <= m -> exists b' n', @Ok (bool * Z) (b, m) = Ok (b', n') /\ n <= n') by (intros; by eexists _, _).
  assert (Hboth : forall a1 a2 k m, n < m -> n <= 30 -> well_typed tyenv a1 = true -> well_typed tyenv a2 = true ->
    (exists ty, typeOfIRExpr tyenv a1 = Ok ty /\ typeOfIRExpr tyenv a2 = Ok ty) -> harmless as_bits a1 = true -> harmless as_bits a2 = true ->
    (forall m', n < m' -> exists b n', k m' = Ok (b, n') /\ n <= n') ->
    exists b n', (let* (b, n) := sameIRExprs_aux env fuel a1 a2 m in if (b : bool) then k n else Ok (false, n)) = Ok (b, n') /\ n <= n').
  { intros a1 a2 k m Hm Hl Wa1 Wa2 (ty' & Ta1 & Ta2) Sa1 Sa2 Hk. destruct (IH a1 a2 ty' m) as (b & m' & -> & Hm'); [done..|lia|lia|].
    cbn [obind]. destruct b; [apply Hk; lia|apply Hno; lia]. }
  assert (Hlast : forall a1 a2 m, n < m -> n <= 30 -> well_typed tyenv a1 = true -> well_typed tyenv a2 = true ->
    (exists ty, typeOfIRExpr tyenv a1 = Ok ty /\ typeOfIRExpr tyenv a2 = Ok ty) -> harmless as_bits a1 = true -> harmless as_bits a2 = true ->
    exists b n', sameIRExprs_aux env fuel a1 a2 m = Ok (b, n') /\ n <= n').
  { intros a1 a2 m Hm Hl Wa1 Wa2 (ty' & Ta1 & Ta2) Sa1 Sa2. destruct (IH a1 a2 ty' m) as (b & m' & -> & Hm'); [done..|lia|lia|]. apply Hno. lia. }
  destruct e1, e2; try (apply Hno; lia); unfold NODE_LIMIT; (destruct (Z.ltb_spec 30 n); [apply Hno; lia|]).
  - destruct (tmp =? tmp0); [apply Hno; lia|]. destruct (rd_bound _ W1) as [b1 E1], (rd_bound _ W2) as [b2 E2]. rewrite E1. cbn [obind].
    destruct b1 as [d1|]; [|apply Hno; lia]. rewrite E2. cbn [obind]. destruct b2 as [d2|]; [|apply Hno; lia].
    destruct (Henv _ _ E1) as [[Wd1 Td1] _], (Henv _ _ E2) as [[Wd2 Td2] _], (Htidy _ _ E1) as [Hd1 _], (Htidy _ _ E2) as [Hd2 _].
    apply Hlast; [lia|lia|done|done|exists ty; split; [by apply Td1|by apply Td2]|done|done].
  - destruct (Z.eqb_spec op op0) as [->|_]; [|apply Hno; lia]. apply well_typed_parts in W1, W2; parts.
    apply Hboth; [lia|done..|]. intros m Hm. apply Hboth; [lia|done..|]. intros m' Hm'. by apply Hlast.
  - destruct (Z.eqb_spec op op0) as [->|_]; [|apply Hno; lia]. apply well_typed_parts in W1, W2; parts. apply Hboth; [lia|done..|]. intros m Hm. by apply Hlast.
  - destruct (Z.eqb_spec op op0) as [->|_]; [|apply Hno; lia]. apply well_typed_parts in W1, W2; parts. apply Hlast; [lia|done..].
  - destruct (same_tag con con0 S1 S2 ltac:(cbn in T1, T2; congruence) (n + 1)) as [b E]. rewrite E. apply Hno. lia.
  - apply well_typed_parts in W1, W2; parts. apply Hboth; [lia|done..|]. intros m Hm. apply Hboth; [lia|done..|]. intros m' Hm'. by apply Hlast.
Qed.

Lemma sameIRExprs_ok a1 a2 ty : typed_like a1 ty -> typed_like a2 ty -> exists b, sameIRExprs env a1 a2 = Ok b.
Proof.
  intros H1 H2. unfold sameIRExprs. destruct (sameIRExprs_compares same_fuel a1 a2 ty 0 H1 H2) as (b & n & -> & _); [done|unfold same_fuel, NODE_LIMIT; lia|].
  by exists b.
Qed.

Definition whole (ty : IRType) : bool := match ty with Ity_I8 | Ity_I16 | Ity_I32 | Ity_I64 => true | _ => false end.

Lemma isZeroU_ok a ty : typeOfIRExpr tyenv a = Ok ty -> whole ty || bool_decide (ty = Ity_V256) = true -> exists c, isZeroU a = Ok c.
Proof. intros Ht Hw. destruct a; try by eexists. destruct con; cbn in *; injection Ht as <-; first [discriminate Hw|by eexists]. Qed.

Lemma isOnesU_ok a ty : typeOfIRExpr tyenv a = Ok ty -> whole ty = true -> exists c, isOnesU a = Ok c.
Proof. intros Ht Hw. destruct a; try by eexists. destruct con; cbn in *; injection Ht as <-; first [discriminate Hw|by eexists]. Qed.

Definition case_returns (op : Z) (f : Z -> IRExpr -> IRExpr -> rule) : Prop :=
  forall a1 a2 t ty1 ty2, typeOfPrimop op = Ok t -> [ty1; ty2] = operand_types t -> op <> Iop_Max32U ->
  well_typed tyenv a1 = true -> well_typed tyenv a2 = true -> typeOfIRExpr tyenv a1 = Ok ty1 -> typeOfIRExpr tyenv a2 = Ok ty2 ->
  tidy a1 -> tidy a2 -> returns_rule (f op a1 a2).

Ltac returns := repeat lazymatch goal with
  | |- returns_rule (orelse _ _) => apply returns_orelse
  | |- returns_rule (when _ _) => apply returns_when
  | |- returns_rule (if ?b then _ else _) =>
      let v := eval vm_compute in b in
      lazymatch v with true => change b with true; cbv iota | false => change b with false; cbv iota | _ => destruct b end
  | |- returns_rule no_match => apply returns_no_match
  | |- exists c, either _ _ = Ok c => apply either_ok
  | |- exists c, Ok _ = Ok c => by eexists
  | |- exists c, isZeroU _ = Ok c => eapply isZeroU_ok; [eassumption|reflexivity]
  | |- exists c, isOnesU _ = Ok c => eapply isOnesU_ok; [eassumption|reflexivity]
  | |- exists c, sameIRExprs _ _ _ = Ok c => eapply sameIRExprs_ok; (split_and!; [assumption|eassumption|assumption])
  | |- exists e, mkZeroOfPrimopResultType _ = Ok e => eexists; vm_compute; reflexivity
  | |- exists e, mkOnesOfPrimopResultType _ = Ok e => eexists; vm_compute; reflexivity
  end.

Lemma identity_cases_return : every case_returns (identity_cases env).
Proof.
  repeat (apply every_row; [intros op H; cases_of H; intros a1 a2 t ty1 ty2 Ht Hty Hm W1 W2 T1 T2 Y1 Y2|]); [..|constructor].
  all: try done; vm_compute in Ht; injection Ht as <-; cbn in Hty; injection Hty as -> ->; destruct (Y1) as [S1 _], (Y2) as [S2 _]; returns.
  destruct (chase_ok _ W1 Y1) as [a E]. unfold chase in *. rewrite E. cbn [obind]. destruct a as [[]|]; try apply returns_no_match. returns.
Qed.

(** ** Folding keeps expressions harmless *)

Definition case_tidy (op : Z) (f : Z -> IRExpr -> IRExpr -> rule) : Prop :=
  forall a1 a2, tidy a1 -> tidy a2 -> gives (f op a1 a2) tidy.

Lemma tidy_const c : written as_bits c = true -> tidy (Iex_Const c).
Proof. intros H. split; [done|constructor]. Qed.

Lemma tidy_binop op a b : op <> Iop_Max32U -> tidy a -> tidy b -> tidy (Iex_Binop op a b).
Proof.
  intros Hop [Ha Sa] [Hb Sb]. split; [cbn; rewrite Ha, Hb; destruct (Z.eqb_spec op Iop_Max32U); done|]. cbn. by apply Forall_app.
Qed.

Lemma tidy_binop_inv op a b : tidy (Iex_Binop op a b) -> op <> Iop_Max32U /\ tidy a /\ tidy b.
Proof.
  intros [H S]. cbn in H, S. rewrite !andb_true_iff, negb_true_iff in H. destruct H as [[Hop ?] ?]. apply Z.eqb_neq in Hop. by apply Forall_app in S as [? ?].
Qed.

Lemma tidy_unop_inv op a : tidy (Iex_Unop op a) -> op <> Iop_Left32 /\ op <> Iop_Left64 /\ tidy a.
Proof.
  intros [H S]. cbn in H, S. rewrite andb_true_iff, negb_true_iff, orb_false_iff, !Z.eqb_neq in H. tauto || (destruct H as [[? ?] ?]; by split_and!).
Qed.

Lemma identity_cases_tidy : every case_tidy (identity_cases env).
Proof.
  repeat (apply every_row; [intros op H; cases_of H; intros a1 a2 Y1 Y2; rules|]); [..|constructor].
  all: try (match goal with He' : _ = Ok ?e |- tidy ?e => first [injection He' as <- | vm_compute in He'; first [discriminate He' | injection He' as <-]] end;
    first [assumption | by apply tidy_const | apply tidy_binop; [done|assumption|by apply tidy_const]]).
  intros e' (a & Ha & He)%bind_Ok_inv. destruct a as [a|]; [|done]. apply chase_tidy in Ha; [|done]. destruct a; try done. revert e' He.
  apply gives_when. intros _ e' [= <-]. by apply tidy_unop_inv in Ha as (_ & _ & ?).
Qed.

Lemma eqIRAtom_ok a b : isIRAtom a = true -> isIRAtom b = true -> exists c, eqIRAtom a b = Ok c.
Proof. intros Ha Hb. unfold eqIRAtom. rewrite Ha, Hb. cbn. destruct a, b; try done; by eexists. Qed.

Lemma popcount_returns arg : typed_as arg Ity_I64 -> tidy arg -> returns_rule (popcount_rule env arg) /\ gives (popcount_rule env arg) tidy.
Proof.
  intros Harg Yarg. unfold popcount_rule.
  assert (Hno : returns_rule no_match /\ gives no_match tidy) by (split; [apply returns_no_match|apply gives_none]).
  destruct (chase_ok arg (proj1 Harg) Yarg) as [a1 H1]. rewrite H1. cbn [obind]. destruct a1 as [[| | | | | |op1 b1 b2| | | | | | |]|]; try exact Hno.
  destruct (Z.eqb_spec op1 Iop_And64) as [->|]; [cbn [negb]|exact Hno]. apply (chase_typed _ _ _ _ H1) in Harg as Hb. apply (chase_tidy _ _ _ H1) in Yarg as (_ & Y1 & Y2)%tidy_binop_inv.
  apply binop_typed in Hb as (t & Ht & _ & A1 & A2 & W1 & W2 & Hk). destruct (takes2 _ _ _ _ Ht Hk) as (ty1 & ty2 & Hty & T1 & T2). vm_compute in Ht. injection Ht as <-. injection Hty as -> ->.
  destruct (chase_ok b1 W1 Y1) as [a11 H11]. rewrite H11. cbn [obind]. destruct a11 as [[| | | | | |op11 a111 c| | | | | | |]|]; try exact Hno.
  destruct (Z.eqb_spec op11 Iop_Add64) as [->|]; [cbn [negb]|exact Hno].
  assert (Hb1 : typed_as b1 Ity_I64) by (split_and!; [done|done|by apply atom_flat]). apply (chase_typed _ _ _ _ H11) in Hb1.
  apply (chase_tidy _ _ _ H11) in Y1 as (_ & Y11 & Yc)%tidy_binop_inv.
  apply binop_typed in Hb1 as (t & Ht & _ & A11 & Ac & W11 & Wc & Hk'). destruct (takes2 _ _ _ _ Ht Hk') as (ty1 & ty2 & Hty & T11 & Tc). vm_compute in Ht. injection Ht as <-. injection Hty as -> ->.
  destruct (chase_ok b2 W2 Y2) as [a12 H12]. rewrite H12. cbn [obind]. destruct a12 as [[| | | | | | |op12 a121| | | | | |]|]; try exact Hno.
  destruct (Z.eqb_spec op12 Iop_Not64) as [->|]; [cbn [negb]|exact Hno].
  assert (Hb2 : typed_as b2 Ity_I64) by (split_and!; [done|done|by apply atom_flat]). apply (chase_typed _ _ _ _ H12) in Hb2.
  apply unop_typed in Hb2 as (t & Ht & _ & A12 & _).
  destruct (chase_ok c Wc Yc) as [a112 H112]. rewrite H112. cbn [obind]. destruct a112 as [a112|]; [|exact Hno].
  assert (Hc : typed_as c Ity_I64) by (split_and!; [done|done|by apply atom_flat]). apply (chase_typed _ _ _ _ H112) in Hc as (_ & Tk & _).
  destruct (eqIRAtom_ok a111 a121 A11 A12) as [s ->]. cbn [obind]. destruct s; [cbn [negb]|exact Hno]. split.
  - apply returns_when; [by eapply isOnesU_ok|by eexists].
  - apply gives_when. intros _ e' [= <-]. split; [exact (proj1 Y11)|exact (proj2 Y11)].
Qed.

Lemma means_tidy op cs c : means op cs c -> tidy (Iex_Const c).
Proof. intros (_ & t & vs & n & _ & _ & _ & Hn & _). apply tidy_const. by destruct c. Qed.

(** The result of folding constants, when none overflows. *)
Lemma constants_folded op cs r : folds op cs r -> op <> Iop_Left32 -> op <> Iop_Left64 ->
  returns_rule (let* c := r in Ok (Iex_Const <$> c)) /\ gives (let* c := r in Ok (Iex_Const <$> c)) tidy.
Proof.
  intros Hf H1 H2. destruct r as [[c|]|e]; cbn in *.
  - split; [by eexists|]. intros e [= <-]. by eapply means_tidy.
  - split; [by eexists|]. by intros e.
  - destruct Hf as [_ [[? _]|[? _]]]; done.
Qed.

Lemma fold_rule_returns e ty : typed_as e ty -> tidy e -> returns_rule (fold_rule env e) /\ gives (fold_rule env e) tidy.
Proof.
  intros He Ye. assert (Hno : returns_rule no_match /\ gives no_match tidy) by (split; [apply returns_no_match|apply gives_none]).
  destruct e; try exact Hno; cbn [fold_rule].
  - destruct (binop_typed _ _ _ _ He) as (t & Ht & -> & A1 & A2 & W1 & W2 & Hk). destruct (takes2 _ _ _ _ Ht Hk) as (ty1 & ty2 & Hty & T1 & T2).
    apply tidy_binop_inv in Ye as (Hop & Y1 & Y2).
    assert (Hid : returns_rule (match case (identity_cases env) op with Some f => f op e1 e2 | None => no_match end)
      /\ gives (match case (identity_cases env) op with Some f => f op e1 e2 | None => no_match end) tidy).
    { destruct (case (identity_cases env) op) as [f|] eqn:E; [|exact Hno]. split.
      - by eapply (every_case case_returns _ _ _ identity_cases_return E).
      - by eapply (every_case case_tidy _ _ _ identity_cases_tidy E). }
    destruct e1; try exact Hid. destruct e2; try exact Hid. cbn [fold_binop].
    assert (Hf : folds op [con; con0] (fold_binop_const op con con0)).
    { apply fold_binop_const_sound. eapply (constants_ok _ _ [con; con0]); [exact Ht| |exact Hk]. by repeat constructor. }
    destruct (fold_binop_const op con con0) as [[c|]|e] eqn:E; cbn in *; [split; [by eexists|]; intros e [= <-]; by eapply means_tidy|by split; [eexists|intros e]|].
    destruct Hf as [_ [[_ ?]|[_ ?]]]; done.
  - destruct (unop_typed _ _ _ He) as (t & Ht & -> & A1 & W1 & Hk). destruct (takes1 _ _ _ Ht Hk) as (ty1 & Hty & T1).
    apply tidy_unop_inv in Ye as (Hl & Hl' & Y1).
    assert (Hpop : returns_rule (if op =? Iop_PopCount64 then popcount_rule env e else no_match)
      /\ gives (if op =? Iop_PopCount64 then popcount_rule env e else no_match) tidy).
    { destruct (Z.eqb_spec op Iop_PopCount64) as [->|]; [|exact Hno]. vm_compute in Ht. injection Ht as <-. injection Hty as ->.
      apply popcount_returns; [|done]. split_and!; [done|done|by apply atom_flat]. }
    destruct e; try exact Hpop. cbn [fold_unop]. eapply constants_folded; [|exact Hl|exact Hl'].
    apply fold_unop_const_sound. eapply (constants_ok _ _ [con]); [exact Ht| |exact Hk]. by repeat constructor.
  - destruct He as (Hw & Ht & Hf). apply well_typed_parts in Hw as (W1 & W2 & W3 & Harms). cbn in Ht. unfold arms_ok in Harms.
    apply andb_true_iff in Harms as [Tc Harms]. destruct (typeOfIRExpr tyenv e2) as [ty2|] eqn:T2; [|done]. apply has_type_iff in Harms. rewrite Ht in Harms. injection Harms as <-.
    destruct Ye as [Hh Hs]. cbn in Hh, Hs. rewrite !andb_true_iff in Hh. destruct Hh as [[S1 S2] S3]. rewrite !Forall_app in Hs. destruct Hs as (Q1 & Q2 & Q3).
    assert (Hsame : returns_rule (when (sameIRExprs env e2 e3) (Ok e3)) /\ gives (when (sameIRExprs env e2 e3) (Ok e3)) tidy).
    { split; [apply returns_when; [by eapply sameIRExprs_ok|by eexists]|]. apply gives_when. intros _ e' [= <-]. by split. }
    destruct e1; try exact Hsame. destruct con; try (by apply has_type_iff in Tc). split; [by eexists|]. intros e' [= <-]. by destruct (b =? 0).
Qed.

Lemma fold_Expr_WRK_ok e : flat_rhs e -> well_typed tyenv e = true -> tidy e -> exists e', fold_Expr_WRK env e = Ok e' /\ tidy e'.
Proof.
  intros Hf Hw Ye. destruct (well_typed_type _ _ Hw) as [ty Hty]. destruct (fold_rule_returns e ty (conj Hw (conj Hty Hf)) Ye) as [[r Hr] Hg].
  unfold fold_Expr_WRK. rewrite Hr. cbn [obind]. eexists. split; [done|]. destruct r as [e'|]; [by apply Hg|done].
Qed.
End Returns.
End Types.

(** ** Where it fails *)

(** There are no 1s of the result type of [Max32U]. *)
Example max_of_ones : fold_Expr_WRK [None] (Iex_Binop Iop_Max32U (Iex_RdTmp 0) (Iex_Const (Ico_U32 0xFFFFFFFF))) = Err Panic.
Proof. reflexivity. Qed.

(** Two constants of one type that are written in two ways. *)
Example arms_of_two_forms x : fold_Expr_WRK [None] (Iex_ITE (Iex_RdTmp 0) (Iex_Const (Ico_F64 x)) (Iex_Const (Ico_F64i 0))) = Err AssertFail.
Proof. reflexivity. Qed.
