(* ===== verification/CProp.v ===== *)
(** * Propagation of constants and copies: VEX/priv/ir_opt.c

    [cprop_BB], and [cprop_BB_WRK], which [do_minimal_initial_iropt_BB] calls
    without folding: the [f_env] of [subst_and_maybe_fold_Stmt] is then [NULL],
    for which [fold_Expr] returns its argument.  The substitution is an array of
    pointers to expressions. *)

From S2P Require Import Prelude Primop IR IRSem Fold Flatten.

(** [vassert(isIRAtom(e)); subst_Expr(env, e)]. *)
Definition is_atom_opt (e : option IRExpr) : bool := match e with Some e => isIRAtom e | None => true end.

Section Subst.
Context (env : bindings).

Definition subst_Temp (tmp : Z) : outcome IRExpr :=
  let* rhs := rd env tmp in
  match rhs with
  | Some (Iex_RdTmp t) => Ok (Iex_RdTmp t)
  | Some (Iex_Const con) => if negb (isF64i con) then Ok (Iex_Const con) else Ok (Iex_RdTmp tmp)
  | _ => Ok (Iex_RdTmp tmp)
  end.

Fixpoint subst_Expr (ex : IRExpr) : outcome IRExpr :=
  let subst_atom e := let* _ := assert_that (isIRAtom e) in subst_Expr e in
  match ex with
  | Iex_RdTmp tmp => subst_Temp tmp
  | Iex_Const _ | Iex_Get _ _ => Ok ex
  | Iex_GetI descr ix bias => let* ix := subst_atom ix in Ok (Iex_GetI descr ix bias)
  | Iex_Qop op arg1 arg2 arg3 arg4 =>
      let* _ := assert_that (isIRAtom arg1) in
      let* _ := assert_that (isIRAtom arg2) in
      let* _ := assert_that (isIRAtom arg3) in
      let* _ := assert_that (isIRAtom arg4) in
      let* arg1 := subst_Expr arg1 in
      let* arg2 := subst_Expr arg2 in
      let* arg3 := subst_Expr arg3 in
      let* arg4 := subst_Expr arg4 in
      Ok (Iex_Qop op arg1 arg2 arg3 arg4)
  | Iex_Triop op arg1 arg2 arg3 =>
      let* _ := assert_that (isIRAtom arg1) in
      let* _ := assert_that (isIRAtom arg2) in
      let* _ := assert_that (isIRAtom arg3) in
      let* arg1 := subst_Expr arg1 in
      let* arg2 := subst_Expr arg2 in
      let* arg3 := subst_Expr arg3 in
      Ok (Iex_Triop op arg1 arg2 arg3)
  | Iex_Binop op arg1 arg2 =>
      let* _ := assert_that (isIRAtom arg1) in
      let* _ := assert_that (isIRAtom arg2) in
      let* arg1 := subst_Expr arg1 in
      let* arg2 := subst_Expr arg2 in
      Ok (Iex_Binop op arg1 arg2)
  | Iex_Unop op arg => let* arg := subst_atom arg in Ok (Iex_Unop op arg)
  | Iex_Load e ty addr => let* addr := subst_atom addr in Ok (Iex_Load e ty addr)
  | Iex_CCall cee retty args =>
      let* args2 :=
        (fix loop args :=
           match args with
           | [] => Ok []
           | a :: args => let* a := subst_atom a in let* args := loop args in Ok (a :: args)
           end) args in
      Ok (Iex_CCall cee retty args2)
  | Iex_ITE cond iftrue iffalse =>
      let* _ := assert_that (isIRAtom cond) in
      let* _ := assert_that (isIRAtom iftrue) in
      let* _ := assert_that (isIRAtom iffalse) in
      let* cond := subst_Expr cond in
      let* iftrue := subst_Expr iftrue in
      let* iffalse := subst_Expr iffalse in
      Ok (Iex_ITE cond iftrue iffalse)
  | Iex_Binder _ | Iex_VECRET | Iex_GSPTR => Err Panic
  end.
End Subst.

Section SubstStmt.
Context (doFolding : bool) (env : bindings).

Definition f_env : option bindings := if doFolding then Some env else None.

(** An operand, which must be an atom. *)
Definition subst_atom (e : IRExpr) : outcome IRExpr :=
  let* _ := assert_that (isIRAtom e) in let* e := subst_Expr env e in fold_Expr f_env e.
Definition subst_opt (e : option IRExpr) : outcome (option IRExpr) :=
  match e with Some e => let* e := subst_atom e in Ok (Some e) | None => Ok None end.

(** An operand of a dirty call. *)
Definition subst_arg (arg : IRExpr) : outcome IRExpr :=
  if is_IRExpr_VECRET_or_GSPTR arg then Ok arg else subst_atom arg.
Fixpoint subst_args (args : list IRExpr) : outcome (list IRExpr) :=
  match args with
  | [] => Ok []
  | a :: args => let* a := subst_arg a in let* args := subst_args args in Ok (a :: args)
  end.

Definition subst_mAddr (d : IRDirty) : outcome (option IRExpr) :=
  if bool_decide (mFx d <> Ifx_None) then
    match mAddr d with Some e => let* e := subst_atom e in Ok (Some e) | None => Err Undefined end
  else Ok (mAddr d).

(** The value of a guard that is a constant, which is False or True then. *)
Definition constant_guard (e : IRExpr) : outcome (option bool) :=
  match e with
  | Iex_Const con =>
      match con with
      | Ico_U1 b => if b =? 0 then Ok (Some false) else let* _ := assert_that (b =? 1) in Ok (Some true)
      | _ => Err AssertFail
      end
  | _ => Ok None
  end.

Definition subst_and_maybe_fold_Stmt (st : IRStmt) : outcome IRStmt :=
  match st with
  | Ist_AbiHint base len nia =>
      let* base := subst_atom base in let* nia := subst_atom nia in Ok (Ist_AbiHint base len nia)
  | Ist_Put offset data => let* data := subst_atom data in Ok (Ist_Put offset data)
  | Ist_PutI descr ix bias data =>
      let* ix := subst_atom ix in let* data := subst_atom data in Ok (Ist_PutI descr ix bias data)
  | Ist_WrTmp tmp data => let* data := subst_Expr env data in let* data := fold_Expr f_env data in Ok (Ist_WrTmp tmp data)
  | Ist_Store e addr data =>
      let* addr := subst_atom addr in let* data := subst_atom data in Ok (Ist_Store e addr data)
  | Ist_StoreG e addr data guard =>
      let* faddr := subst_atom addr in
      let* fdata := subst_atom data in
      let* fguard := subst_atom guard in
      let* c := constant_guard fguard in
      Ok (match c with
          | Some false => Ist_NoOp
          | Some true => Ist_Store e faddr fdata
          | None => Ist_StoreG e faddr fdata fguard
          end)
  | Ist_LoadG e cvt dst addr alt guard =>
      let* faddr := subst_atom addr in
      let* falt := subst_atom alt in
      let* fguard := subst_atom guard in
      let* c := constant_guard fguard in
      Ok (match c with
          | Some false => Ist_WrTmp dst falt
          | _ => Ist_LoadG e cvt dst faddr falt fguard
          end)
  | Ist_CAS cas =>
      let* addr := subst_atom (cas_addr cas) in
      let* eh := subst_opt (expdHi cas) in
      let* el := subst_atom (expdLo cas) in
      let* dh := subst_opt (dataHi cas) in
      let* dl := subst_atom (dataLo cas) in
      Ok (Ist_CAS (mk_IRCAS (oldHi cas) (oldLo cas) (cas_end cas) addr eh el dh dl))
  | Ist_LLSC e result addr storedata =>
      let* addr := subst_atom addr in let* storedata := subst_opt storedata in Ok (Ist_LLSC e result addr storedata)
  | Ist_Dirty d =>
      let* a := subst_mAddr d in
      let* g := subst_atom (guard d) in
      let* l := subst_args (args d) in
      Ok (Ist_Dirty (mk_IRDirty (cee d) g l (tmp d) (mFx d) a (mSize d) (fxState d)))
  | Ist_IMark _ _ _ | Ist_NoOp | Ist_MBE _ => Ok st
  | Ist_Exit guard jk dst offsIP =>
      let* fcond := subst_atom guard in
      let* c := constant_guard fcond in
      Ok (match c with Some false => Ist_NoOp | _ => Ist_Exit fcond jk dst offsIP end)
  end.
End SubstStmt.

(** ** The pass *)

Definition N_FIXUPS : Z := 16.

(** The substitution, the block being built, and the indices in it of the
    placeholders for unconditional loads. *)
Record cprop_state := mk_cprop { cp_env : bindings; cp_out : list IRStmt; fixups : list Z }.

#[export] Instance cprop_eta : RecordEta cprop_state := fun s => mk_cprop (cp_env s) (cp_out s) (fixups s).

(** A temporary that the substitution replaces everywhere, so that its
    assignment is not needed. *)
Definition propagated (data : IRExpr) : bool :=
  match data with Iex_RdTmp _ => true | Iex_Const con => negb (isF64i con) | _ => false end.

Definition add_stmt (st : IRStmt) (s : cprop_state) : cprop_state := s <| cp_out := cp_out s ++ [st] |>.

(** A conditional load whose guard is constant: it must be True. *)
Definition note_fixup (guard : IRExpr) (s : cprop_state) : outcome cprop_state :=
  match guard with
  | Iex_Const con =>
      let* c := constant_guard guard in
      let* _ := assert_that (bool_decide (c = Some true)) in
      let* _ := assert_that (Z.of_nat (length (fixups s)) <=? N_FIXUPS) in
      Ok (if Z.of_nat (length (fixups s)) <? N_FIXUPS
          then add_stmt Ist_NoOp (s <| fixups := fixups s ++ [Z.of_nat (length (cp_out s))] |>) else s)
  | _ => Ok s
  end.

Definition cprop_round (mustRetainNoOps doFolding : bool) (s : cprop_state) (st : IRStmt) : outcome cprop_state :=
  if match st with Ist_NoOp => negb mustRetainNoOps | _ => false end then Ok s
  else
    let* st2 := subst_and_maybe_fold_Stmt doFolding (cp_env s) st in
    match st2 with
    | Ist_NoOp => if mustRetainNoOps then Ok (add_stmt st2 s) else Ok s
    | Ist_WrTmp tmp data =>
        let* old := rd (cp_env s) tmp in
        let* _ := assert_that (match old with None => true | Some _ => false end) in
        let* env := wr (cp_env s) tmp (Some data) in
        let s := s <| cp_env := env |> in
        if propagated data then Ok s else Ok (add_stmt st2 s)
    | Ist_LoadG _ _ _ _ _ guard => let* s := note_fixup guard s in Ok (add_stmt st2 s)
    | _ => Ok (add_stmt st2 s)
    end.

Fixpoint cprop_loop (mustRetainNoOps doFolding : bool) (s : cprop_state) (sts : list IRStmt) : outcome cprop_state :=
  match sts with
  | [] => Ok s
  | st :: sts => let* s := cprop_round mustRetainNoOps doFolding s st in cprop_loop mustRetainNoOps doFolding s sts
  end.

(** The conversion a conditional load implies; [Iop_INVALID] for none. *)
Definition cvt_op (cvt : IRLoadGOp) : outcome Z :=
  match cvt with
  | ILGop_IdentV128 | ILGop_Ident64 | ILGop_Ident32 => Ok Iop_INVALID
  | ILGop_8Uto32 => Ok Iop_8Uto32
  | ILGop_8Sto32 => Ok Iop_8Sto32
  | ILGop_16Uto32 => Ok Iop_16Uto32
  | ILGop_16Sto32 => Ok Iop_16Sto32
  | ILGop_INVALID => Err Panic
  end.

(** One of the leftover unconditional loads: a load and a conversion. *)
Definition fix_load (out : IRSB) (ix : Z) : outcome IRSB :=
  let* _ := assert_that ((0 <=? ix) && (ix + 1 <? Z.of_nat (length (stmts out)))) in
  let* nop := rd (stmts out) ix in
  let* lgu := rd (stmts out) (ix + 1) in
  let* _ := assert_that (match nop with Ist_NoOp => true | _ => false end) in
  match lgu with
  | Ist_LoadG e cvt dst addr _ guard =>
      let* c := match guard with Iex_Const _ => constant_guard guard | _ => Err Undefined end in
      let* _ := assert_that (bool_decide (c = Some true)) in
      let* (cvtRes, cvtArg) := typeOfIRLoadGOp cvt in
      let* cvtOp := cvt_op cvt in
      let '(tLoaded, env) := newIRTemp (tyenv out) cvtArg in
      let* sts := wr (stmts out) ix (Ist_WrTmp tLoaded (Iex_Load e cvtArg addr)) in
      let* sts := wr sts (ix + 1) (Ist_WrTmp dst
        (if cvtOp =? Iop_INVALID then Iex_RdTmp tLoaded else Iex_Unop cvtOp (Iex_RdTmp tLoaded))) in
      Ok (out <| tyenv := env |> <| stmts := sts |>)
  | _ => Err AssertFail
  end.
Fixpoint fix_loads (out : IRSB) (ixs : list Z) : outcome IRSB :=
  match ixs with [] => Ok out | ix :: ixs => let* out := fix_load out ix in fix_loads out ixs end.

Definition cprop_BB_WRK (bb : IRSB) (mustRetainNoOps doFolding : bool) : outcome IRSB :=
  let* s := cprop_loop mustRetainNoOps doFolding (mk_cprop (replicate (length (tyenv bb)) None) [] []) (stmts bb) in
  let* e := subst_Expr (cp_env s) (next bb) in
  let* _ := assert_that (Z.of_nat (length (fixups s)) <=? N_FIXUPS) in
  fix_loads (mk_IRSB (tyenv bb) (cp_out s) e (jumpkind bb) (sb_offsIP bb)) (fixups s).

Definition cprop_BB (bb : IRSB) : outcome IRSB := cprop_BB_WRK bb false true.
