(* ===== verification/CPropTheory.v ===== *)
(** * Propagation of constants and copies keeps what a block does *)

From stdpp Require Import gmap.
From S2P Require Import Prelude Primop IR Sanity IRSem IRRun IRTyping Fold FoldTheory Flatten CProp.

(** Operands are atoms, which are not folded. *)
Lemma subst_atom_eq doFolding env e : subst_atom doFolding env e = let* _ := assert_that (isIRAtom e) in subst_Expr env e.
Proof.
  unfold subst_atom. destruct (isIRAtom e) eqn:Ha; [|done]. cbn [assert_that obind].
  assert (Hf : forall e', isIRAtom e' = true -> fold_Expr (f_env doFolding env) e' = Ok e') by (intros e' He'; destruct doFolding; [by destruct e'|done]).
  destruct e; try done; cbn [subst_Expr]; [|by apply Hf]. unfold subst_Temp. destruct (rd env tmp) as [b|]; [|done]. cbn [obind].
  destruct b as [b|]; [|by apply Hf]. destruct b; try by apply Hf. by destruct (isF64i con); apply Hf.
Qed.

Section Runs.
Context {V W} `{M : Machine V W} `{!MachineLaws M} (tyenv : IRTypeEnv).
Implicit Types (rho : gmap Z V) (w : W).

(** The new run lacks the temporaries that are propagated; the substitution has
    their values, and those of the others that are bound to operators. *)
Definition substituted (env : bindings) rho rho' : Prop :=
  (rho' ⊆ rho /\ forall t, rho !! t = None -> rho' !! t = None /\ forall b, rd env t = Ok b -> b = None) /\
  (forall t v, rho !! t = Some v ->
     match rd env t with
     | Ok (Some e) => (propagated e = false -> rho' !! t = Some v) /\ (pure e = true -> forall w, eval rho' w e = Some v)
     | _ => rho' !! t = Some v
     end).

(** Folding the new right-hand side keeps its value. *)
Definition folds_well (doFolding : bool) (env : bindings) rho' (st : IRStmt) : Prop :=
  match st with
  | Ist_WrTmp _ data =>
      forall w e e', subst_Expr env data = Ok e -> fold_Expr (f_env doFolding env) e = Ok e' -> same_value rho' rho' w e e'
  | _ => True
  end.

Lemma substituted_bound env rho rho' w : substituted env rho rho' -> bound env rho' w.
Proof.
  intros [[Hi _] Hs] t e v He Hp Hv. pose proof (lookup_weaken _ _ _ _ Hv Hi) as H. specialize (Hs t v H). rewrite He in Hs. by apply Hs.
Qed.

Section Values.
Context (doFolding : bool) (env : bindings) (rho rho' : gmap Z V) (Hsub : substituted env rho rho').

Lemma subst_Temp_value w t e : subst_Temp env t = Ok e -> same_value rho rho' w (Iex_RdTmp t) e.
Proof.
  unfold subst_Temp. intros H v Hv. cbn in Hv. pose proof (proj2 Hsub t v Hv) as Ht.
  destruct (rd env t) as [[rhs|]|]; cbn in H; [destruct Ht as [Ht Hp]|by injection H as <-|done].
  destruct rhs; cbn in Ht, Hp, H; try (injection H as <-; by apply Ht); [injection H as <-; by apply Hp|].
  destruct (isF64i con); cbn in Ht, H; injection H as <-; [by apply Ht|by apply Hp].
Qed.

Ltac sub_values := repeat match goal with
  | H : obind _ _ = Ok _ |- _ => let H1 := fresh "H" in apply bind_Ok_inv in H as (? & H1 & H)
  | H : Ok _ = Ok _ |- _ => injection H as H; try subst
  end.

Lemma subst_Expr_value w e : forall e', subst_Expr env e = Ok e' -> same_value rho rho' w e e'.
Proof.
  induction e as [| | | | | | | | | |cee ty args IH| | |] using IRExpr_nested_ind; intros e' H.
  11: { cbn [subst_Expr] in H. sub_values. intros v Hv. rewrite eval_CCall in Hv |- *. inv_run.
    erewrite eval_all_like; [done| |eassumption].
    match goal with H : _ args = Ok ?l |- _ => clear -IH H; rename l into args2; revert args2 H end.
    induction IH as [|a args Ha _ IHl]; intros l H; [by injection H as <-|]. sub_values. constructor; [by apply Ha|by apply IHl]. }
  all: cbn [subst_Expr] in H; sub_values; try discriminate; try (by eapply subst_Temp_value); try (intros v Hv; exact Hv).
  all: intros v Hv; cbn in Hv |- *; inv_run; repeat match goal with
    | IH : forall e', subst_Expr env ?e = Ok e' -> same_value _ _ _ ?e e', H : subst_Expr env ?e = Ok _, Hv : eval _ _ ?e = Some _ |- _ =>
        rewrite (IH _ H _ Hv); clear IH; cbn
    end; try done.
  by rewrite decide_True.
Qed.

Lemma subst_atom_value w e e' : subst_atom doFolding env e = Ok e' -> same_value rho rho' w e e'.
Proof. rewrite subst_atom_eq. intros H. sub_values. by apply subst_Expr_value. Qed.

Lemma subst_opt_value w e e' : subst_opt doFolding env e = Ok e' -> like_opt (same_value rho rho' w) e e'.
Proof. destruct e as [e|]; cbn; intros H; sub_values; [by apply subst_atom_value|done]. Qed.

Lemma subst_args_value w l : forall l', subst_args doFolding env l = Ok l' -> Forall2 (like_arg (same_value rho rho' w)) l l'.
Proof.
  induction l as [|e l IH]; intros l' H; cbn in H; sub_values; constructor; [|by apply IH].
  unfold subst_arg, like_arg in *. destruct (is_IRExpr_VECRET_or_GSPTR e) eqn:E; [by sub_values|].
  split; [|by apply subst_atom_value]. rewrite subst_atom_eq in *. sub_values.
  destruct e; try discriminate; cbn in *; try (by sub_values). unfold subst_Temp in *. sub_values.
  repeat case_match; by sub_values.
Qed.

(** A guard that has become constant. *)
Lemma constant_guard_value w e c v : constant_guard e = Ok (Some c) -> eval rho' w e = Some v -> v_true v = c.
Proof.
  destruct e; cbn; try done. destruct con; cbn; try done.
  destruct (Z.eqb_spec b 0) as [->|]; [intros [= <-] [= <-]; by rewrite true_const|].
  destruct (Z.eqb_spec b 1) as [->|]; [intros [= <-] [= <-]; by rewrite true_const|done].
Qed.

(** The new statement acts like the old one. *)
Lemma subst_Stmt_acts w st st2 x : subst_and_maybe_fold_Stmt doFolding env st = Ok st2 -> folds_well doFolding env rho' st ->
  acts tyenv rho w st = Some x -> acts tyenv rho' w st2 = Some x.
Proof.
  intros H Hfold Hx.
  assert (Hlike : forall st', like (same_value rho rho' w) st st' -> acts tyenv rho' w st' = Some x).
  { intros st' Hl. apply (acts_like tyenv [] _ _ _ _ _ _ Hl) in Hx. by rewrite app_nil_r in Hx. }
  pose proof (subst_atom_value w) as Ha. pose proof (subst_opt_value w) as Ho. pose proof (subst_args_value w) as Hl.
  pose proof (subst_Expr_value w) as He.
  destruct st; cbn [subst_and_maybe_fold_Stmt] in H; sub_values; try (apply Hlike; constructor; by auto).
  - cbn in Hfold. apply Hlike. constructor. intros v Hv. eapply Hfold; [eassumption..|]. by eapply He.
  - match goal with H : constant_guard _ = Ok ?c |- _ => rename H into Hg; destruct c as [[]|] end;
      try (apply Hlike; constructor; by auto).
    cbn in Hx. destruct (typeOfIRLoadGOp cvt) as [[]|]; [|done]. inv_run. cbn.
    erewrite Ha by eassumption. cbn. by erewrite (constant_guard_value _ _ _ _ Hg) by (eapply Ha; eassumption).
  - match goal with H : constant_guard _ = Ok ?c |- _ => rename H into Hg; destruct c as [[]|] end;
      try (apply Hlike; constructor; by auto); cbn in Hx; inv_run; cbn.
    + do 2 (erewrite Ha by eassumption; cbn). by erewrite (constant_guard_value _ _ _ _ Hg) by (eapply Ha; eassumption).
    + by erewrite (constant_guard_value _ _ _ _ Hg) by (eapply Ha; eassumption).
  - destruct details. apply Hlike. constructor; auto.
  - destruct details as [c g l t f a n fxs]. apply Hlike. clear Hx Hlike. unfold subst_mAddr in *. cbn [mFx mAddr args guard] in *.
    constructor; auto.
    intros Hf. rewrite bool_decide_true in * by done. destruct a; sub_values; [cbn; by auto|discriminate].
  - match goal with H : constant_guard _ = Ok ?c |- _ => rename H into Hg; destruct c as [[]|] end;
      try (apply Hlike; constructor; by auto).
    cbn in Hx. inv_run. cbn. by erewrite (constant_guard_value _ _ _ _ Hg) by (eapply Ha; eassumption).
Qed.
End Values.

(** ** Statements *)

Lemma eval_pure rho w w' e : flat_rhs e -> pure e = true -> eval rho w e = eval rho w' e.
Proof.
  unfold flat_rhs. intros Hf Hp.
  assert (Ha : forall a, isIRAtom a = true -> eval rho w a = eval rho w' a) by (by intros []).
  destruct e; try done; injection Hf as Hf; rewrite ?andb_true_iff in Hf; destruct_and?; cbn [eval];
    repeat match goal with A : isIRAtom ?a = true |- context [eval rho w ?a] => rewrite (Ha a A) end; done.
Qed.

(** The value of a temporary, with one more assigned. *)
Lemma insert_still env rho' t0 v0 t v : rho' !! t = None ->
  match rd env t0 with
  | Ok (Some e) => (propagated e = false -> rho' !! t0 = Some v0) /\ (pure e = true -> forall w, eval rho' w e = Some v0)
  | _ => rho' !! t0 = Some v0
  end ->
  match rd env t0 with
  | Ok (Some e) => (propagated e = false -> rho' !! t0 = Some v0) /\ (pure e = true -> forall w, eval (<[t := v]> rho') w e = Some v0)
  | _ => rho' !! t0 = Some v0
  end.
Proof.
  intros Hn H. destruct (rd env t0) as [[e|]|]; [|done..]. destruct H as [H1 H2]. split; [done|]. intros Hp w.
  eapply eval_mono; [|by apply H2]. by apply insert_subseteq.
Qed.

Lemma substituted_assign env rho rho' t v rho1 : substituted env rho rho' -> assign tyenv rho t v = Some rho1 ->
  exists rho1', assign tyenv rho' t v = Some rho1' /\ substituted env rho1 rho1'.
Proof.
  intros [[Hi Hn] Hs] (-> & Ht & Hty)%assign_inv. destruct (Hn t Ht) as [Ht' Hb]. exists (<[t := v]> rho').
  rewrite assign_new by done. split; [done|]. split; [split; [by apply insert_mono|]|].
  - intros t0. rewrite !lookup_insert_None. intros [H0 Hne]. destruct (Hn t0 H0). done.
  - intros t0 v0 [[-> ->]|[Hne H0]]%lookup_insert_Some.
    + rewrite lookup_insert_eq. destruct (rd env t0) as [[e|]|] eqn:E; try done. by specialize (Hb _ eq_refl).
    + rewrite lookup_insert_ne by done. apply insert_still; [done|by apply Hs].
Qed.

Lemma substituted_assign_all env new : forall rho rho' rho1, substituted env rho rho' ->
  assign_all tyenv rho new = Some rho1 -> exists rho1', assign_all tyenv rho' new = Some rho1' /\ substituted env rho1 rho1'.
Proof.
  induction new as [|[t v] new IH]; intros rho rho' rho1 Hs H; cbn in H; [inv_run; by exists rho'|].
  apply bind_Some in H as (rho2 & Ha & H). destruct (substituted_assign _ _ _ _ _ _ Hs Ha) as (rho2' & Ha' & Hs').
  cbn. rewrite Ha'. cbn. by eapply IH.
Qed.

(** The runs end alike, with the substitution [env]. *)
Definition agrees env (r r' : after (V := V) (W := W)) : Prop :=
  match r, r' with
  | Goes_on rho w, Goes_on rho' w' => w' = w /\ substituted env rho rho'
  | Leaves w v jk, Leaves w' v' jk' => w' = w /\ v' = v /\ jk' = jk
  | _, _ => False
  end.

Lemma subst_Stmt_run doFolding env rho rho' w st st2 r : substituted env rho rho' -> folds_well doFolding env rho' st ->
  subst_and_maybe_fold_Stmt doFolding env st = Ok st2 ->
  run_stmt tyenv rho w st = Some r -> exists r', run_stmts tyenv rho' w [st2] = Some r' /\ agrees env r r'.
Proof.
  intros Hs Hf H Hr. unfold run_stmt in Hr. apply bind_Some in Hr as ([[new w1] jump] & Hact & Hr).
  apply bind_Some in Hr as (rho1 & Ha & [= <-]). destruct (substituted_assign_all _ _ _ _ _ Hs Ha) as (rho1' & Ha' & Hs').
  cbn. unfold run_stmt. rewrite (subst_Stmt_acts _ _ _ _ Hs _ _ _ _ H Hf Hact). cbn. rewrite Ha'. cbn.
  destruct jump as [[v jk]|]; by eexists.
Qed.

(** An assignment, with its place in the substitution. *)
Lemma bound_run doFolding env env' rho rho' w t st data r : substituted env rho rho' -> folds_well doFolding env rho' st ->
  subst_and_maybe_fold_Stmt doFolding env st = Ok (Ist_WrTmp t data) -> flat_rhs data -> rd env t = Ok None -> wr env t (Some data) = Ok env' ->
  run_stmt tyenv rho w st = Some r ->
  exists r', run_stmts tyenv rho' w (if propagated data then [] else [Ist_WrTmp t data]) = Some r' /\ agrees env' r r'.
Proof.
  intros Hs Hf H Hflat Hrd Hwr Hr. unfold run_stmt in Hr. apply bind_Some in Hr as ([[new w1] jump] & Hact & Hr).
  apply bind_Some in Hr as (rho1 & Ha & [= <-]). apply (subst_Stmt_acts _ _ _ _ Hs _ _ _ _ H Hf) in Hact. pose proof Hact as Hact'.
  cbn in Hact. inv_run. cbn in Ha. inv_run.
  match goal with H : assign _ _ _ _ = Some _ |- _ => rename H into Has end.
  match goal with H : eval _ _ _ = Some _ |- _ => rename H into Hv end.
  pose proof Has as (-> & Hnone & Hty)%assign_inv. destruct Hs as [[Hi Hn] Hs]. destruct (Hn t Hnone) as [Hnone' _].
  assert (Hnew : forall t0, <[t := x]> rho !! t0 = None -> rho' !! t0 = None /\ t <> t0 /\ forall b, rd env' t0 = Ok b -> b = None).
  { intros t0. rewrite lookup_insert_None. intros [H0 Hne]. destruct (Hn t0 H0) as [? Hb]. split_and!; [done|done|].
    intros b. rewrite (rd_wr_ne _ _ _ _ _ Hwr) by done. apply Hb. }
  assert (Hval : forall rho2, rho' ⊆ rho2 -> pure data = true -> forall w0, eval rho2 w0 data = Some x).
  { intros rho2 Hsub Hp w0. eapply eval_mono; [exact Hsub|]. by rewrite (eval_pure _ w0 w1). }
  destruct (propagated data) eqn:Hp.
  - eexists. split; [done|]. split; [done|]. split; [split; [by etrans; [exact Hi|apply insert_subseteq]|intros t0 H0; destruct (Hnew t0 H0) as (? & _ & ?); done]|].
    intros t0 v0 [[-> ->]|[Hne H0]]%lookup_insert_Some.
    + rewrite (rd_wr_eq _ _ _ _ Hwr). split; [congruence|]. by apply Hval.
    + rewrite (rd_wr_ne _ _ _ _ _ Hwr) by done. by apply Hs.
  - cbn [run_stmts]. unfold run_stmt. rewrite Hact'. cbn. rewrite assign_new by done. cbn. eexists. split; [done|]. split; [done|]. split; [split; [by apply insert_mono|]|].
    + intros t0 H0. destruct (Hnew t0 H0) as (? & ? & ?). by rewrite lookup_insert_None.
    + intros t0 v0 [[-> ->]|[Hne H0]]%lookup_insert_Some.
      * rewrite (rd_wr_eq _ _ _ _ Hwr), lookup_insert_eq. split; [done|]. apply Hval. by apply insert_subseteq.
      * rewrite (rd_wr_ne _ _ _ _ _ Hwr), lookup_insert_ne by done. apply insert_still; [done|by apply Hs].
Qed.

(** ** The pass *)

Lemma note_fixup_inv g (s s' : cprop_state) : note_fixup g s = Ok s' ->
  cp_env s' = cp_env s /\ (s' = s \/ (exists b, g = Iex_Const (Ico_U1 b) /\ constant_guard g = Ok (Some true)) /\
    s' = add_stmt Ist_NoOp (s <| fixups := fixups s ++ [Z.of_nat (length (cp_out s))] |>)).
Proof.
  unfold note_fixup. destruct g; intros H; try (injection H as <-; split; [done|by left]).
  apply bind_Ok_inv in H as (c & Hc & H). apply assert_that_inv in H as [->%bool_decide_eq_true H].
  apply assert_that_inv in H as [_ H]. destruct (_ <? _); injection H as <-; (split; [done|]); [right|by left]. destruct con; try done. by split; [eexists|].
Qed.

Lemma cprop_loop_grows b f sts : forall s s', cprop_loop b f s sts = Ok s' -> exists out, cp_out s' = cp_out s ++ out.
Proof.
  assert (Hround : forall s st s', cprop_round b f s st = Ok s' -> exists out, cp_out s' = cp_out s ++ out).
  { intros s st s' H. unfold cprop_round in H. destruct (match st with Ist_NoOp => negb b | _ => false end).
    { injection H as <-. exists []. by rewrite app_nil_r. }
    apply bind_Ok_inv in H as (st2 & H2 & H). destruct st2; try (injection H as <-; by eexists).
    - destruct b; injection H as <-; [by eexists|exists []; by rewrite app_nil_r].
    - inv_ok H. inv_ok H. inv_ok H. destruct (propagated data); injection H as <-; [exists []; by rewrite app_nil_r|by eexists].
    - apply bind_Ok_inv in H as (s1 & (_ & [->|[_ ->]])%note_fixup_inv & [= <-]); [by eexists|].
      exists [Ist_NoOp; Ist_LoadG e cvt dst addr alt guard]. cbn. by rewrite <-app_assoc. }
  induction sts as [|st sts IH]; intros s s' H; cbn in H.
  - injection H as <-. exists []. by rewrite app_nil_r.
  - apply bind_Ok_inv in H as (s1 & H1 & H). destruct (Hround _ _ _ H1) as [out1 Ho1]. destruct (IH _ _ H) as [out Ho].
    exists (out1 ++ out). by rewrite Ho, Ho1, app_assoc.
Qed.

Lemma cprop_round_run b f s st s' rho rho' w r : cprop_round b f s st = Ok s' -> substituted (cp_env s) rho rho' ->
  folds_well f (cp_env s) rho' st -> (forall st2, subst_and_maybe_fold_Stmt f (cp_env s) st = Ok st2 -> isFlatIRStmt st2 = Ok true) ->
  run_stmt tyenv rho w st = Some r ->
  exists sts r', cp_out s' = cp_out s ++ sts /\ run_stmts tyenv rho' w sts = Some r' /\ agrees (cp_env s') r r'.
Proof.
  intros H Hs Hf Hflat Hr. unfold cprop_round in H. destruct (match st with Ist_NoOp => negb b | _ => false end) eqn:Hnop.
  { injection H as <-. destruct st; try done. injection Hr as <-. exists [], (Goes_on rho' w). by rewrite app_nil_r. }
  apply bind_Ok_inv in H as (st2 & H2 & H). destruct (subst_Stmt_run _ _ _ _ _ _ _ _ Hs Hf H2 Hr) as (r' & Hr' & Ha). specialize (Hflat _ H2).
  assert (Hsame : forall s1, Ok (add_stmt st2 s) = Ok s1 ->
    exists sts r', cp_out s1 = cp_out s ++ sts /\ run_stmts tyenv rho' w sts = Some r' /\ agrees (cp_env s1) r r').
  { intros s1 [= <-]. by exists [st2], r'. }
  destruct st2; try (by apply Hsame).
  - destruct b; [by apply Hsame|]. injection H as <-. exists [], r'. by rewrite app_nil_r.
  - apply bind_Ok_inv in H as (old & Hold & H). apply assert_that_inv in H as [Hnone H]. destruct old; [done|]. apply bind_Ok_inv in H as (env & Henv & H).
    destruct (bound_run _ _ _ _ _ _ _ _ _ _ Hs Hf H2 Hflat Hold Henv Hr) as (r1 & Hr1 & Ha1).
    destruct (propagated data); injection H as <-; eexists _, r1; [split; [by rewrite app_nil_r|done]|done].
  - apply bind_Ok_inv in H as (s1 & (He & [->|[_ ->]])%note_fixup_inv & H); [by apply Hsame|]. injection H as <-.
    exists [Ist_NoOp; Ist_LoadG e cvt dst addr alt guard], r'. cbn. by rewrite <-app_assoc.
Qed.

End Runs.

(** ** Leftover unconditional loads *)

Lemma two_at {A} (l l1 l2 : list A) i x y x' y' : l !! Z.to_nat i = Some x -> l !! Z.to_nat (i + 1) = Some y -> 0 <= i ->
  wr l i x' = Ok l1 -> wr l1 (i + 1) y' = Ok l2 ->
  exists pre post, length pre = Z.to_nat i /\ l = pre ++ [x; y] ++ post /\ l2 = pre ++ [x'; y'] ++ post.
Proof.
  intros Hx Hy Hi (_ & ->)%wr_inv (_ & ->)%wr_inv. replace (Z.to_nat (i + 1)) with (S (Z.to_nat i)) in * by lia.
  set (n := Z.to_nat i) in *. clearbody n. apply take_drop_middle in Hx as E. pose proof (lookup_lt_Some _ _ _ Hx).
  rewrite <-E in Hy. rewrite lookup_app_r in Hy by (rewrite length_take; lia).
  rewrite length_take in Hy. replace (S n - n `min` length l)%nat with 1%nat in Hy by lia. cbn in Hy.
  destruct (drop (S n) l) as [|y0 post] eqn:Ed; [done|]. injection Hy as ->. exists (take n l), post.
  assert (Hlen : length (take n l) = n) by (rewrite length_take; lia). split; [done|]. assert (El : l = take n l ++ [x; y] ++ post) by done. set (pre := take n l) in *. clearbody pre. rewrite El.
  replace (S n) with (length pre + 1)%nat by lia. replace n with (length pre + 0)%nat by lia.
  by rewrite !insert_app_r.
Qed.

Definition fixed_load (e : IREndness) (cvtArg : IRType) (addr : IRExpr) (t : Z) : IRStmt := Ist_WrTmp t (Iex_Load e cvtArg addr).
Definition fixed_cvt (op t dst : Z) : IRStmt :=
  Ist_WrTmp dst (if op =? Iop_INVALID then Iex_RdTmp t else Iex_Unop op (Iex_RdTmp t)).

(** What the pass does to a placeholder and the load behind it. *)
Lemma fix_load_inv out ix out' : fix_load out ix = Ok out' ->
  exists pre post e cvt dst addr alt b res cvtArg op,
    length pre = Z.to_nat ix /\ 0 <= ix
    /\ stmts out = pre ++ [Ist_NoOp; Ist_LoadG e cvt dst addr alt (Iex_Const (Ico_U1 b))] ++ post
    /\ constant_guard (Iex_Const (Ico_U1 b)) = Ok (Some true)
    /\ typeOfIRLoadGOp cvt = Ok (res, cvtArg) /\ cvt_op cvt = Ok op
    /\ out' = out <| tyenv := tyenv out ++ [cvtArg] |>
        <| stmts := pre ++ [fixed_load e cvtArg addr (Z.of_nat (length (tyenv out))); fixed_cvt op (Z.of_nat (length (tyenv out))) dst] ++ post |>.
Proof.
  unfold fix_load. intros [Hix H]%assert_that_inv. apply bind_Ok_inv in H as (nop & [_ Hn]%rd_inv & H).
  apply bind_Ok_inv in H as (lgu & [_ Hl]%rd_inv & H). apply assert_that_inv in H as [Hnop H]. destruct nop; try done.
  destruct lgu; try done. apply bind_Ok_inv in H as (c & Hc & H). apply assert_that_inv in H as [->%bool_decide_eq_true H].
  destruct guard; try done. apply bind_Ok_inv in H as ([res cvtArg] & Hty & H). apply bind_Ok_inv in H as (op & Hop & H).
  unfold newIRTemp in H. apply bind_Ok_inv in H as (l1 & H1 & H). apply bind_Ok_inv in H as (l2 & H2 & [= <-]).
  destruct con; try done. apply andb_true_iff in Hix as [Hix _].
  destruct (two_at _ _ _ _ _ _ _ _ Hn Hl ltac:(lia) H1 H2) as (pre & post & Hlen & E1 & ->).
  eexists pre, post, _, _, _, _, _, _, _, _, _. split_and!; [exact Hlen|lia|exact E1|exact Hc|exact Hty|exact Hop|done].
Qed.

Section Fixups.
Context {V W} `{M : Machine V W} `{!MachineLaws M}.
Implicit Types (rho : gmap Z V) (w : W) (env : IRTypeEnv).

Lemma assign_all_more env ext new : forall rho rho', assign_all env rho new = Some rho' ->
  assign_all (env ++ ext) rho new = Some rho'.
Proof.
  induction new as [|[t v] new IH]; intros rho rho' H; [done|]. cbn in *. apply bind_Some in H as (rho1 & Ha & H).
  pose proof Ha as (-> & Hn & Hty)%assign_inv. rewrite assign_new by (done || by apply typeOfIRTemp_still). cbn. by apply IH.
Qed.

Lemma run_stmts_more env ext sts : forall rho w r, run_stmts env rho w sts = Some r -> run_stmts (env ++ ext) rho w sts = Some r.
Proof.
  induction sts as [|st sts IH]; intros rho w r H; [done|]. cbn in *. apply bind_Some in H as (r1 & Hst & H).
  assert (Hst' : run_stmt (env ++ ext) rho w st = Some r1).
  { unfold run_stmt in *. apply bind_Some in Hst as ([[new w1] jump] & Hact & Hst). apply bind_Some in Hst as (rho1 & Ha & Hst).
    erewrite (acts_like env ext); [|apply like_refl; intros e; by apply eval_mono|exact Hact]. cbn.
    by erewrite assign_all_more by exact Ha. }
  rewrite Hst'. cbn. destruct r1 as [rho1 w1|]; [by apply IH|done].
Qed.

Lemma fixed_cvt_run env cvt op t dst v rho rho' w : cvt_op cvt = Ok op -> rho !! t = Some v ->
  assign env rho dst (widen cvt v) = Some rho' -> run_stmt env rho w (fixed_cvt op t dst) = Some (Goes_on rho' w).
Proof.
  intros Hop Ht Ha.
  assert (Hv : eval rho w (if op =? Iop_INVALID then Iex_RdTmp t else Iex_Unop op (Iex_RdTmp t)) = Some (widen cvt v)).
  { destruct cvt; try discriminate; injection Hop as <-; cbn; by rewrite Ht. }
  unfold run_stmt. cbn [acts fixed_cvt]. rewrite Hv. cbn. by rewrite Ha.
Qed.

Lemma fixed_load_run env cvtArg e a0 addr rho w : typed env rho -> eval rho w addr = Some a0 ->
  run_stmt (env ++ [cvtArg]) rho w (fixed_load e cvtArg addr (Z.of_nat (length env)))
    = Some (Goes_on (<[Z.of_nat (length env) := w_load w e cvtArg a0]> rho) w).
Proof.
  intros Ht Ha. unfold run_stmt. cbn [acts fixed_load eval]. rewrite Ha. cbn. rewrite assign_new; [done| |].
  - destruct (rho !! Z.of_nat (length env)) as [v|] eqn:E; [|done]. pose proof (typed_lt _ _ _ _ Ht E). lia.
  - rewrite type_of_load. apply new_temp_type.
Qed.

Lemma fix_load_run out ix out' w r : fix_load out ix = Ok out' -> run_block out w = Some r -> run_block out' w = Some r.
Proof.
  intros (pre & post & e & cvt & dst & addr & alt & b & res & cvtArg & op & _ & _ & E & Hg & Hty & Hop & ->)%fix_load_inv Hr.
  destruct out as [env sts nx jk off]. cbn in E, Hr |- *. subst sts. unfold run_block in *. cbn [IR.tyenv IR.stmts] in *.
  rewrite run_stmts_app in Hr |- *.
  destruct (run_stmts env ∅ w pre) as [rp|] eqn:Hp; [|done]. rewrite (run_stmts_more _ [cvtArg] _ _ _ _ Hp).
  cbn [mbind option_bind] in Hr |- *. destruct rp as [rho1 w1|w1 v jk1]; [|exact Hr].
  pose proof (run_stmts_typed env _ _ _ _ _ (typed_empty env) Hp) as Hrho1.
  apply bind_Some in Hr as (r1 & Hr1 & Hr). cbn [app run_stmts] in Hr1 |- *.
  change (run_stmt env rho1 w1 Ist_NoOp) with (Some (@Goes_on V W rho1 w1)) in Hr1. cbn [mbind option_bind] in Hr1.
  apply bind_Some in Hr1 as (r2 & Hload & Hpost). unfold run_stmt in Hload. cbn [acts] in Hload. rewrite Hty in Hload. cbn in Hload.
  destruct (eval rho1 w1 addr) as [a0|] eqn:Ha0; [|done]. cbn in Hload.
  destruct (eval rho1 w1 alt) as [d0|]; [|done]. cbn in Hload.
  rewrite (constant_guard_value rho1 w1 (Iex_Const (Ico_U1 b)) true _ Hg eq_refl) in Hload. cbn in Hload.
  destruct (assign env rho1 dst (widen cvt (w_load w1 e cvtArg a0))) as [rho2|] eqn:Ha; [|done]. injection Hload as <-.
  rewrite (fixed_load_run _ _ _ _ _ _ _ Hrho1 Ha0). cbn [mbind option_bind].
  pose proof Ha as (Hrho2 & Hn & Hdst)%assign_inv. pose proof (temp_range _ _ _ Hdst) as Hlt.
  erewrite fixed_cvt_run; [|exact Hop|apply lookup_insert_eq|apply assign_new; [by rewrite lookup_insert_ne by lia|by apply typeOfIRTemp_still]].
  cbn [mbind option_bind].
  assert (He : extends (Z.of_nat (length env)) rho2
    (<[dst := widen cvt (w_load w1 e cvtArg a0)]> (<[Z.of_nat (length env) := w_load w1 e cvtArg a0]> rho1))).
  { rewrite Hrho2. apply extends_insert; [|done|lia]. split; [|intros t0 Ht0; by rewrite lookup_insert_ne by lia].
    apply insert_subseteq. destruct (rho1 !! Z.of_nat (length env)) as [v0|] eqn:E0; [|done]. pose proof (typed_lt _ _ _ _ Hrho1 E0). lia. }
  destruct (run_stmts_extends env [cvtArg] _ _ _ _ _ He Hpost) as (r1' & -> & Hag). cbn [mbind option_bind].
  destruct r1 as [rho3 w3|w3 v3 jk3], r1' as [rho3' w3'|w3' v3' jk3']; try done.
  - destruct Hag as [-> [Hsub _]]. cbn in Hr |- *. apply bind_Some in Hr as (tgt & Htgt & Hr). by rewrite (eval_mono _ _ _ _ Hsub _ Htgt).
  - destruct Hag as (-> & -> & ->). exact Hr.
Qed.

Lemma fix_loads_run ixs : forall out out' w r, fix_loads out ixs = Ok out' -> run_block out w = Some r -> run_block out' w = Some r.
Proof.
  induction ixs as [|ix ixs IH]; intros out out' w r H Hr; cbn in H; [by injection H as <-|].
  apply bind_Ok_inv in H as (out1 & H1 & H). eapply IH; [exact H|]. by eapply fix_load_run.
Qed.

Lemma substituted_none n : substituted (V := V) (W := W) (M := M) (replicate n None) (∅ : gmap Z V) ∅.
Proof.
  split; [split; [done|]|]; intros t; [|intros v; by rewrite lookup_empty]. intros _. split; [by rewrite lookup_empty|].
  intros b [_ H]%rd_inv. by apply lookup_replicate in H as [-> _].
Qed.

End Fixups.
