(* ===== verification/CPropTypes.v ===== *)
(** * Propagation of constants and copies returns, and keeps types and flatness *)

From S2P Require Import Prelude Primop IR Sanity IRSem IRRun IRTyping Fold FoldTheory FoldTypes Flatten CProp CPropTheory.

(** ** Substitution *)

Section Subst.
Context (doFolding : bool) (tyenv : IRTypeEnv).

(** The substitution replaces the temporaries in [seen] by flat expressions of
    their types. *)
Definition sub_ok (seen : list Z) (env : bindings) : Prop :=
  length env = length tyenv /\
  forall t e, rd env t = Ok (Some e) -> t ∈ seen /\ retyped tyenv tyenv (Iex_RdTmp t) e /\ flat_rhs e.

Context (seen : list Z) (env : bindings) (Hsub : sub_ok seen env).
Abbreviation same e e' := (retyped tyenv tyenv e e').

Lemma retyped_refl e : well_typed tyenv e = true -> same e e.
Proof. by split; [|intros ty]. Qed.

Lemma same_ok e : isIRAtom e = true -> well_typed tyenv e = true -> exists e', Ok e = Ok e' /\ isIRAtom e' = true /\ same e e'.
Proof. intros Ha Hw. exists e. split_and!; [done..|by apply retyped_refl]. Qed.

Lemma subst_Temp_ok t : well_typed tyenv (Iex_RdTmp t) = true ->
  exists e, subst_Temp env t = Ok e /\ isIRAtom e = true /\ same (Iex_RdTmp t) e.
Proof.
  intros Hw. destruct Hsub as [Hl He]. pose proof Hw as Hr%well_typed_temp. unfold subst_Temp.
  destruct (rd_is_ok env t) as (b & _ & E); [lia|]. rewrite E. cbn [obind]. specialize (He t).
  destruct b as [b|]; [|by apply same_ok]. destruct (He b E) as (_ & Hb & _).
  destruct b; try (by apply same_ok); [by eexists|]. destruct (isF64i con); [by apply same_ok|by eexists].
Qed.

Lemma subst_atom_ok e : isIRAtom e = true -> well_typed tyenv e = true ->
  exists e', subst_Expr env e = Ok e' /\ isIRAtom e' = true /\ same e e'.
Proof. intros Ha Hw. destruct e; try discriminate; [by apply subst_Temp_ok|by apply same_ok]. Qed.

Lemma subst_args_ok args : forallb isIRAtom args = true -> Forall (fun e => well_typed tyenv e = true) args ->
  exists args',
    (fix loop args := match args with
       | [] => Ok []
       | a :: args => let* a := (let* _ := assert_that (isIRAtom a) in subst_Expr env a) in let* args := loop args in Ok (a :: args)
       end) args = Ok args' /\ forallb isIRAtom args' = true /\ forallb (well_typed tyenv) args' = true.
Proof.
  induction args as [|e args IH]; intros Ha Hw; [by exists []|]. cbn in Ha. apply andb_true_iff in Ha as [Ha Hl]. inversion_clear Hw as [|? ? Hwe Hwl].
  destruct (subst_atom_ok e Ha Hwe) as (e' & E & A & R & _), (IH Hl Hwl) as (args' & E' & A' & R').
  rewrite Ha. cbn [assert_that obind]. rewrite E. cbn [obind]. rewrite E'. cbn [obind]. eexists. split; [done|]. cbn. by rewrite A, R, A', R'.
Qed.

Lemma subst_Expr_ok e : flat_rhs e -> well_typed tyenv e = true ->
  exists e', subst_Expr env e = Ok e' /\ flat_rhs e' /\ same e e'.
Proof.
  intros Hf Hw. unfold flat_rhs in *. pose proof (well_typed_parts _ _ Hw) as Hp. destruct (well_typed_type _ _ Hw) as [ty Hty].
  destruct e; try discriminate; try done; cbn [isFlatIRStmt] in Hf.
  1, 9: eexists; split; [done|]; split; [done|by apply retyped_refl].
  2: { destruct (subst_Temp_ok tmp Hw) as (e' & E & Ha & He). exists e'. by destruct e'. }
  7: { injection Hf as Hf. destruct (subst_args_ok args Hf Hp) as (args' & E & Hf' & Hw'). cbn [subst_Expr]. rewrite E. cbn [obind].
    eexists. split; [done|]. split; [cbn; by rewrite Hf'|]. split; [|by intros ty2]. cbn [well_typed]. exact Hw'. }
  all: injection Hf as Hf; rewrite ?andb_true_iff in Hf; destruct_and?.
  all: cbn [subst_Expr]; repeat match goal with Ha : isIRAtom _ = true |- _ => rewrite Ha end; cbn [assert_that obind].
  all: repeat match goal with
    | Ha : isIRAtom ?e = true, Hw : well_typed tyenv ?e = true |- context [subst_Expr env ?e] =>
        let e' := fresh "e'" in let E := fresh "E" in let A := fresh "A" in let R := fresh "R" in let T := fresh "T" in
        destruct (subst_atom_ok e Ha Hw) as (e' & E & A & R & T); rewrite E; cbn [obind]; clear E
    end.
  all: match goal with Hty : _ = Ok ?ty |- exists e', Ok ?x = Ok e' /\ _ =>
      assert (Hty' : typeOfIRExpr tyenv x = Ok ty) by (cbn in *; auto);
      exists x; split; [done|]; split; [cbn; by repeat match goal with H : isIRAtom _ = true |- _ => rewrite H end|];
      split; [|intros ty'; rewrite Hty; by intros [= <-]];
      cbn [well_typed]; rewrite Hty'; rewrite ?andb_true_iff; split_and?; try done;
      first [eapply keeps_takes; [|eassumption]; by repeat constructor|by eapply keeps_arms] end.
Qed.

(** ** Statements *)

Lemma operand_ok e : isIRAtom e = true -> well_typed tyenv e = true ->
  exists e', subst_atom doFolding env e = Ok e' /\ isIRAtom e' = true /\ same e e'.
Proof. intros Ha Hw. destruct (subst_atom_ok e Ha Hw) as (e' & E & ?). exists e'. rewrite subst_atom_eq. by rewrite Ha. Qed.

Lemma opt_ok e : atom_or_null e = true -> well_typed_opt tyenv e = true ->
  exists e', subst_opt doFolding env e = Ok e' /\ atom_or_null e' = true /\ like_opt (retyped tyenv tyenv) e e'.
Proof.
  destruct e as [e|]; [|by exists None]. intros Ha Hw. destruct (operand_ok e Ha Hw) as (e' & E & A & R). exists (Some e').
  cbn. by rewrite E.
Qed.

Lemma args_ok l : forallb isIRAtom_or_VECRET_or_GSPTR l = true -> forallb (well_typed_arg tyenv) l = true ->
  exists l', subst_args doFolding env l = Ok l' /\ forallb isIRAtom_or_VECRET_or_GSPTR l' = true /\ Forall2 (like_arg (retyped tyenv tyenv)) l l'.
Proof.
  induction l as [|e l IH]; [by exists []|]. cbn. intros [Ha Hl]%andb_true_iff [Hw Hwl]%andb_true_iff.
  destruct (IH Hl Hwl) as (l' & -> & F & R). unfold subst_arg, well_typed_arg in *.
  destruct (is_IRExpr_VECRET_or_GSPTR e) eqn:E; cbn [obind].
  - exists (e :: l'). split; [done|]. cbn. rewrite Ha. split; [done|]. constructor; [|done]. unfold like_arg. by rewrite E.
  - assert (Hat : isIRAtom e = true) by (by destruct e).
    destruct (operand_ok e Hat Hw) as (e' & -> & A & Re). exists (e' :: l'). split; [done|]. cbn. rewrite F.
    split; [by destruct e'|]. constructor; [|done]. unfold like_arg. rewrite E. by destruct e'.
Qed.

Lemma mAddr_ok d : atom_or_null (mAddr d) = true ->
  match mAddr d with Some e => bool_decide (mFx d <> Ifx_None) && well_typed tyenv e | None => bool_decide (mFx d = Ifx_None) end = true ->
  exists a', subst_mAddr doFolding env d = Ok a' /\ atom_or_null a' = true
    /\ (mFx d <> Ifx_None -> like_opt (retyped tyenv tyenv) (mAddr d) a') /\ (mFx d = Ifx_None -> a' = None).
Proof.
  unfold subst_mAddr. destruct (mAddr d) as [e|]; cbn [atom_or_null].
  - intros Ha [Hfx Hwe]%andb_true_iff. rewrite Hfx. destruct (operand_ok e Ha Hwe) as (e1 & -> & A1 & R1).
    apply bool_decide_eq_true in Hfx. by exists (Some e1).
  - intros _ ->%bool_decide_eq_true. by exists None.
Qed.

(** Statements alike are typed alike. *)
Lemma like_ok st st' : like (retyped tyenv tyenv) st st' ->
  (forall d d', st = Ist_Dirty d -> st' = Ist_Dirty d' -> mFx d = Ifx_None -> mAddr d' = None) ->
  well_typed_stmt tyenv st = true -> isFlatIRStmt st' = Ok true -> flat_stmt tyenv st' /\ defs st' = defs st.
Proof.
  intros Hl Hn Hw Hf. pose proof (like_typed tyenv [] st st') as H. rewrite app_nil_r in H. destruct (H Hl Hn Hw) as [? ?]. by split; [split|].
Qed.

Lemma guard_ok e : well_typed tyenv e = true -> typeOfIRExpr tyenv e = Ok Ity_I1 -> exists c, constant_guard e = Ok c.
Proof.
  intros Hw Ht. apply well_typed_parts in Hw. destruct e; try (by eexists). destruct con; try discriminate.
  apply andb_true_iff in Hw as [Hw _]. cbn in *.
  destruct (Z.eqb_spec b 0); [by eexists|]. destruct (Z.eqb_spec b 1); [by eexists|done].
Qed.

Lemma guard_same e e' : same e e' -> has_type tyenv e Ity_I1 = true -> exists c, constant_guard e' = Ok c.
Proof. intros [Hw Ht] Hty%has_type_iff. apply guard_ok; auto. Qed.

Lemma constant_guard_none e : constant_guard e = Ok None -> match e with Iex_Const _ => False | _ => True end.
Proof. destruct e; try done. destruct con; cbn; try done. by destruct (b =? 0), (b =? 1). Qed.

(** A load whose guard is constant is unconditional. *)
Definition load_ok (st : IRStmt) : Prop :=
  match st with
  | Ist_LoadG _ _ _ _ _ g => match g with Iex_Const _ => constant_guard g = Ok (Some true) | _ => True end
  | _ => True
  end.

(** Folding the new right-hand side returns. *)
Definition foldable (st : IRStmt) : Prop :=
  match st with
  | Ist_WrTmp _ data => forall e, subst_Expr env data = Ok e -> exists e', fold_Expr (f_env doFolding env) e = Ok e'
  | _ => True
  end.

Lemma subst_foldable st st2 : subst_and_maybe_fold_Stmt doFolding env st = Ok st2 -> foldable st.
Proof. destruct st; try done. cbn. intros H e He. rewrite He in H. cbn in H. apply bind_Ok_inv in H as (e' & H & _). by exists e'. Qed.

Lemma fold_same e e' : flat_rhs e -> well_typed tyenv e = true -> fold_Expr (f_env doFolding env) e = Ok e' -> flat_rhs e' /\ same e e'.
Proof.
  intros Hf Hw. unfold f_env. destruct doFolding; [|by intros [= <-]; split; [|apply retyped_refl]].
  apply fold_Expr_WRK_typed; [|done|done]. intros t e0 H0. by destruct Hsub as [_ He]; destruct (He _ _ H0) as (_ & ? & ?).
Qed.

Lemma same_trans e e1 e2 : same e e1 -> same e1 e2 -> same e e2.
Proof. intros [_ T1] [W2 T2]. split; [done|]. intros ty H. by apply T2, T1. Qed.

Lemma subst_Stmt_ok st : flat_stmt tyenv st -> foldable st ->
  exists st2, subst_and_maybe_fold_Stmt doFolding env st = Ok st2 /\ flat_stmt tyenv st2 /\ defs st2 = defs st /\ load_ok st2.
Proof.
  intros [Hw Hf] Hfold. pose proof Hw as [Hd Ho]%andb_true_iff.
  assert (Hdone : forall st2, subst_and_maybe_fold_Stmt doFolding env st = Ok st2 -> like (retyped tyenv tyenv) st st2 ->
    (forall d d', st = Ist_Dirty d -> st2 = Ist_Dirty d' -> mFx d = Ifx_None -> mAddr d' = None) -> isFlatIRStmt st2 = Ok true -> load_ok st2 ->
    exists st2, subst_and_maybe_fold_Stmt doFolding env st = Ok st2 /\ flat_stmt tyenv st2 /\ defs st2 = defs st /\ load_ok st2).
  { intros st2 E Hl Hn Hf2 Hlg. exists st2. destruct (like_ok _ _ Hl Hn Hw Hf2). done. }
  destruct st; cbn [operands_typed isFlatIRStmt] in Ho, Hf; try (by apply (Hdone _ eq_refl); [constructor|..]).
  4: { apply andb_true_iff in Ho as [Ho _]. destruct (subst_Expr_ok data Hf Ho) as (e' & E & F & R).
    destruct (Hfold _ E) as [e2 E2]. destruct (fold_same _ _ F (proj1 R) E2) as [F2 R2].
    apply (Hdone (Ist_WrTmp tmp e2)); [cbn [subst_and_maybe_fold_Stmt]; rewrite E; cbn [obind]; by rewrite E2|constructor; by eapply same_trans|done|exact F2|done]. }
  all: clear Hfold.
  all: unfold well_typed_guard in *; rewrite ?andb_true_iff in Ho; injection Hf as Hf; rewrite ?andb_true_iff in Hf; destruct_and?.
  all: cbn [subst_and_maybe_fold_Stmt] in *.
  all: repeat match goal with
    | Ha : isIRAtom ?e = true, Hw : well_typed tyenv ?e = true |- _ =>
        let e' := fresh "e'" in let E := fresh "E" in let A := fresh "A" in let R := fresh "R" in
        destruct (operand_ok e Ha Hw) as (e' & E & A & R); rewrite E in *; cbn [obind] in *; clear E Ha Hw
    | Ha : atom_or_null ?e = true, Hw : well_typed_opt tyenv ?e = true |- _ =>
        let e' := fresh "e'" in let E := fresh "E" in let A := fresh "A" in let R := fresh "R" in
        destruct (opt_ok e Ha Hw) as (e' & E & A & R); rewrite E in *; cbn [obind] in *; clear E Ha Hw
    end.
  all: try (match goal with |- exists st2, Ok ?x = Ok st2 /\ _ => apply (Hdone x eq_refl) end;
    [try (by constructor); by destruct details; constructor|done|cbn; rewrite ?andb_true_iff; f_equal; by rewrite ?andb_true_iff|done]).
  - match goal with H : same guard _ |- _ => destruct (guard_same _ _ H) as [c Hc]; [done|] end. rewrite Hc in *. cbn [obind] in *.
    assert (Hflat : isFlatIRStmt (Ist_LoadG e cvt dst e'1 e'0 e') = Ok true) by (cbn; by repeat match goal with H : isIRAtom _ = true |- _ => rewrite H; clear H end).
    destruct c as [[]|]; [apply (Hdone _ eq_refl); [by constructor|done|exact Hflat|cbn; by destruct e']| |
      apply (Hdone _ eq_refl); [by constructor|done|exact Hflat|apply constant_guard_none in Hc; by destruct e']].
    eexists. split; [done|]. split; [|done]. split; [|by destruct e'0].
    unfold well_typed_stmt. cbn [defs operands_typed] in *. rewrite Hd. match goal with H : same alt _ |- _ => rewrite (retyped_wt _ _ _ _ H) end. cbn [andb].
    destruct (typeOfIRTemp tyenv dst); [|done]. by eapply retyped_has.
  - match goal with H : same guard _ |- _ => destruct (guard_same _ _ H) as [c Hc]; [done|] end. rewrite Hc in *. cbn [obind] in *.
    assert (Hflat : isIRAtom e'1 && isIRAtom e'0 && isIRAtom e' = true) by (by rewrite !andb_true_iff).
    destruct c as [[]|]; [|by eexists|apply (Hdone _ eq_refl); [by constructor|done|cbn; by rewrite Hflat|done]].
    eexists. split; [done|]. split; [|done]. split; [|cbn; by rewrite andb_true_iff in Hflat; destruct Hflat as [-> _]].
    unfold well_typed_stmt. cbn [defs operands_typed forallb andb].
    match goal with H : same addr _, H' : same data _ |- _ => by rewrite (retyped_wt _ _ _ _ H), (retyped_wt _ _ _ _ H') end.
  - match goal with H : forallb _ (args details) = true, H' : forallb (well_typed_arg tyenv) _ = true |- _ => destruct (args_ok _ H H') as (l' & El & Al & Rl) end.
    match goal with H : atom_or_null (mAddr details) = true, H' : match mAddr details with _ => _ end = true |- _ =>
      destruct (mAddr_ok _ H H') as (a' & Ea & Aa & Ra & Na) end.
    rewrite Ea in *. cbn [obind] in *. rewrite El in *. cbn [obind] in *.
    apply (Hdone _ eq_refl).
    + destruct details. by constructor.
    + intros d d' [= <-] [= <-]. exact Na.
    + cbn. by rewrite Al, Aa, A.
    + done.
  - match goal with H : same guard _ |- _ => destruct (guard_same _ _ H) as [c Hc]; [done|] end. rewrite Hc in *. cbn [obind] in *.
    destruct c as [[]|]; [|by eexists|]; apply (Hdone _ eq_refl); by first [constructor|done|cbn; f_equal].
Qed.
End Subst.

(** ** The loop *)

Section Loop.
Context (mustRetainNoOps doFolding : bool) (tyenv : IRTypeEnv).

(** A placeholder and the unconditional load behind it. *)
Definition pending (out : list IRStmt) (i : Z) : Prop :=
  0 <= i /\ out !! Z.to_nat i = Some Ist_NoOp /\
  exists en cvt dst addr alt g, out !! S (Z.to_nat i) = Some (Ist_LoadG en cvt dst addr alt g) /\ constant_guard g = Ok (Some true).

Record loop_inv (seen : list Z) (s : cprop_state) : Prop := {
  inv_sub : sub_ok tyenv seen (cp_env s);
  inv_out : Forall (flat_stmt tyenv) (cp_out s);
  inv_defs : sublist (all_defs (cp_out s)) seen;
  inv_room : Z.of_nat (length (fixups s)) <= N_FIXUPS;
  inv_pending : Forall (pending (cp_out s)) (fixups s);
  inv_fixups : NoDup (fixups s)
}.

Lemma pending_app out st i : pending out i -> pending (out ++ [st]) i.
Proof.
  intros (Hi & Hn & en & cvt & dst & addr & alt & g & Hl & Hg). split; [done|]. split; [by apply lookup_app_l_Some|].
  eexists _, _, _, _, _, _. split; [by apply lookup_app_l_Some|done].
Qed.

Lemma sub_ok_more seen seen' env : sub_ok tyenv seen env -> sub_ok tyenv (seen ++ seen') env.
Proof. intros [Hl He]. split; [done|]. intros t e [Ht ?]%He. split; [|done]. set_solver. Qed.

Lemma inv_more seen seen' s : loop_inv seen s -> loop_inv (seen ++ seen') s.
Proof. intros []. split; auto using sub_ok_more. by apply sublist_inserts_r. Qed.

Lemma inv_add seen s st : loop_inv seen s -> flat_stmt tyenv st -> loop_inv (seen ++ defs st) (add_stmt st s).
Proof.
  intros [] Hst. split; cbn -[all_defs]; auto using sub_ok_more.
  - by apply Forall_app; split; [|constructor].
  - rewrite all_defs_app. apply sublist_app; [done|]. cbn. by rewrite app_nil_r.
  - eapply Forall_impl; [eassumption|]. intros i. apply pending_app.
Qed.

Lemma flat_NoOp : flat_stmt tyenv Ist_NoOp.
Proof. done. Qed.

(** A load, with a placeholder when its guard is constant and there is room. *)
Lemma inv_load seen s st en cvt dst addr alt g : loop_inv seen s -> st = Ist_LoadG en cvt dst addr alt g -> flat_stmt tyenv st -> load_ok st ->
  exists s', note_fixup g s = Ok s' /\ loop_inv (seen ++ defs st) (add_stmt st s').
Proof.
  intros Hs -> Hst Hg. unfold note_fixup. cbn in Hg. pose proof Hs as []. pose proof (inv_add _ _ _ Hs Hst) as Hadd.
  destruct g; try by exists s. rewrite Hg. cbn [obind assert_that]. rewrite bool_decide_true by done. cbn [obind assert_that].
  destruct (Z.leb_spec (Z.of_nat (length (fixups s))) N_FIXUPS); [|lia]. cbn [obind assert_that].
  eexists. split; [done|]. destruct (Z.ltb_spec (Z.of_nat (length (fixups s))) N_FIXUPS); [|done].
  pose proof (inv_add _ _ _ (inv_add _ _ _ Hs flat_NoOp) Hst) as [S1 S2 S3 S4 S5 S6]. cbn [defs] in *. rewrite app_nil_r in *.
  split; try done; cbn -[all_defs].
  - rewrite length_app. cbn. lia.
  - apply Forall_app. split; [exact S5|]. constructor; [|constructor]. split; [lia|]. rewrite Nat2Z.id, <-app_assoc. cbn.
    split; [by rewrite lookup_app_r, Nat.sub_diag by lia|].
    eexists en, cvt, dst, addr, alt, _. split; [|exact Hg]. rewrite lookup_app_r by lia. by replace (S _ - _)%nat with 1%nat by lia.
  - apply NoDup_app. split; [done|]. split; [|apply NoDup_singleton]. intros i Hi ->%list_elem_of_singleton.
    rewrite Forall_forall in inv_pending0. destruct (inv_pending0 _ Hi) as (_ & Hn%lookup_lt_Some & _). lia.
Qed.

Lemma rd_unseen seen env t : sub_ok tyenv seen env -> well_typed tyenv (Iex_RdTmp t) = true -> t ∉ seen -> rd env t = Ok None.
Proof.
  intros [Hl He] Hr%well_typed_temp Hn. destruct (rd_is_ok env t) as (b & _ & E); [lia|]. rewrite E.
  destruct b as [e|]; [|done]. by destruct (He _ _ E).
Qed.

Lemma inv_bind seen s t data : loop_inv seen s -> flat_stmt tyenv (Ist_WrTmp t data) -> t ∉ seen ->
  exists env, wr (cp_env s) t (Some data) = Ok env
    /\ loop_inv (seen ++ [t]) (s <| cp_env := env |>)
    /\ loop_inv (seen ++ [t]) (add_stmt (Ist_WrTmp t data) (s <| cp_env := env |>)).
Proof.
  intros Hs Hst Hn. pose proof Hst as [[Ht Ho]%andb_true_iff Hf]. cbn [defs forallb] in Ht. rewrite andb_true_r in Ht. pose proof Ht as Hr%well_typed_temp.
  pose proof (inv_sub _ _ Hs) as [Hl He]. destruct (wr (cp_env s) t (Some data)) as [env|] eqn:E; [|rewrite wr_in in E by lia; discriminate].
  exists env. split; [done|].
  assert (Hsub : sub_ok tyenv (seen ++ [t]) env).
  { split; [by apply wr_inv in E as [_ ->]; etrans; [apply length_insert|]|]. intros t0 e0 H0. destruct (decide (t = t0)) as [<-|Hne].
    - rewrite (rd_wr_eq _ _ _ _ E) in H0. injection H0 as <-. split; [set_solver|].
      cbn [operands_typed] in Ho. apply andb_true_iff in Ho as [Hw Hty]. split; [|exact Hf]. split; [done|]. intros ty Hty'. cbn in Hty'. rewrite Hty' in Hty.
      by apply has_type_iff.
    - rewrite (rd_wr_ne _ _ _ _ _ E) in H0 by done. destruct (He _ _ H0). split; [set_solver|done]. }
  pose proof (inv_more _ [t] _ Hs) as []. pose proof (inv_add _ _ _ Hs Hst) as []. by split.
Qed.

Abbreviation round := (cprop_round mustRetainNoOps doFolding).
Abbreviation loop := (cprop_loop mustRetainNoOps doFolding).

Lemma cprop_round_ok seen s st : loop_inv seen s -> flat_stmt tyenv st -> NoDup (seen ++ defs st) -> foldable doFolding (cp_env s) st ->
  exists s', round s st = Ok s' /\ loop_inv (seen ++ defs st) s'.
Proof.
  intros Hs Hst Hd Hfold. unfold cprop_round. destruct (match st with Ist_NoOp => negb mustRetainNoOps | _ => false end) eqn:Hnop.
  { exists s. split; [done|]. by apply inv_more. }
  destruct (subst_Stmt_ok doFolding tyenv seen (cp_env s) (inv_sub _ _ Hs) st Hst Hfold) as (st2 & -> & Hst2 & Hdefs & Hlg). cbn [obind]. rewrite <-Hdefs in *.
  assert (Hsame : exists s', Ok (add_stmt st2 s) = Ok s' /\ loop_inv (seen ++ defs st2) s').
  { eexists. split; [done|]. by apply inv_add. }
  destruct st2; try exact Hsame.
  - destruct mustRetainNoOps; [exact Hsame|]. exists s. split; [done|]. by apply inv_more.
  - cbn [defs] in *. assert (Hn : tmp ∉ seen) by (apply NoDup_app in Hd as (_ & Hd & _); intros Hin; apply (Hd _ Hin); set_solver).
    pose proof Hst2 as [[Ht _]%andb_true_iff _]. cbn [defs forallb] in Ht. rewrite andb_true_r in Ht.
    rewrite (rd_unseen _ _ _ (inv_sub _ _ Hs) Ht Hn). cbn [obind assert_that].
    destruct (inv_bind _ _ _ _ Hs Hst2 Hn) as (env & -> & H1 & H2). cbn [obind]. destruct (propagated data); by eexists.
  - destruct (inv_load _ _ _ _ _ _ _ _ _ Hs eq_refl Hst2 Hlg) as (s' & -> & Hs'). cbn [obind]. by eexists.
Qed.

Lemma round_foldable s st s' : round s st = Ok s' -> foldable doFolding (cp_env s) st.
Proof.
  unfold cprop_round. destruct (match st with Ist_NoOp => negb mustRetainNoOps | _ => false end) eqn:Hnop; [by destruct st|].
  intros (st2 & H & _)%bind_Ok_inv. by eapply subst_foldable.
Qed.

Lemma cprop_round_typed seen s st s' : loop_inv seen s -> flat_stmt tyenv st -> NoDup (seen ++ defs st) -> round s st = Ok s' ->
  loop_inv (seen ++ defs st) s'.
Proof.
  intros Hs Hst Hd E. destruct (cprop_round_ok _ _ _ Hs Hst Hd (round_foldable _ _ _ E)) as (s1 & E1 & H1). rewrite E in E1. by injection E1 as <-.
Qed.

Lemma cprop_loop_typed sts : forall seen s s', loop_inv seen s -> Forall (flat_stmt tyenv) sts -> NoDup (seen ++ all_defs sts) ->
  loop s sts = Ok s' -> loop_inv (seen ++ all_defs sts) s'.
Proof.
  induction sts as [|st sts IH]; intros seen s s' Hs Hf Hd E; [injection E as <-; by rewrite app_nil_r|]. inversion_clear Hf as [|? ? Hst Hl].
  change (all_defs (st :: sts)) with (defs st ++ all_defs sts) in *. rewrite app_assoc in *.
  cbn in E. apply bind_Ok_inv in E as (s1 & E1 & E). eapply IH; [|done|done|exact E].
  eapply cprop_round_typed; [done|done|by apply NoDup_app in Hd as [? _]|done].
Qed.
End Loop.

(** ** Leftover unconditional loads *)

Lemma two_ne {A} (pre post : list A) x y x' y' k : k <> length pre -> k <> S (length pre) ->
  (pre ++ [x'; y'] ++ post) !! k = (pre ++ [x; y] ++ post) !! k.
Proof.
  intros H1 H2. destruct (decide (k < length pre)%nat); [by rewrite !lookup_app_l by lia|].
  by rewrite !lookup_app_r by (cbn; lia).
Qed.

Lemma constant_guard_some g c : constant_guard g = Ok (Some c) -> exists b, g = Iex_Const (Ico_U1 b).
Proof. destruct g; try done. destruct con; try done. by eexists. Qed.

Lemma cvt_op_ok cvt res arg : typeOfIRLoadGOp cvt = Ok (res, arg) ->
  exists op, cvt_op cvt = Ok op /\ if op =? Iop_INVALID then res = arg else exists t, typeOfPrimop op = Ok t /\ t_dst t = res /\ operand_types t = [arg].
Proof.
  destruct cvt; intros [= <- <-]; eexists; (split; [done|]);
    lazymatch goal with |- if ?b then _ else _ => let v := eval vm_compute in b in change b with v; cbv iota end;
    first [done | eexists; split; [vm_compute; reflexivity|by split]].
Qed.

Lemma fix_load_returns out ix : flat_block out -> pending (stmts out) ix -> exists out', fix_load out ix = Ok out'.
Proof.
  intros (Hs & _) (Hi & Hn & en & cvt & dst & addr & alt & g & Hl & Hg). pose proof (lookup_lt_Some _ _ _ Hl) as Hlt.
  unfold fix_load. destruct (Z.leb_spec 0 ix), (Z.ltb_spec (ix + 1) (Z.of_nat (length (stmts out)))); try lia. cbn [andb assert_that obind].
  rewrite (rd_Some _ _ _ Hi Hn). cbn [obind]. replace (S (Z.to_nat ix)) with (Z.to_nat (ix + 1)) in Hl by lia.
  rewrite (rd_Some _ (ix + 1) _ ltac:(lia) Hl). cbn [obind assert_that]. destruct (constant_guard_some _ _ Hg) as [b ->]. rewrite Hg. cbn [obind].
  rewrite bool_decide_true by done. cbn [assert_that obind].
  pose proof (Forall_lookup_1 _ _ _ _ Hs Hl) as [[_ Ho]%andb_true_iff _]. cbn [operands_typed] in Ho. apply andb_true_iff in Ho as [_ Ho].
  destruct (typeOfIRLoadGOp cvt) as [[res arg]|] eqn:Hty; [|done]. destruct (cvt_op_ok _ _ _ Hty) as (op & -> & _). cbn [obind newIRTemp].
  rewrite wr_in by lia. cbn [obind]. rewrite wr_in by (rewrite length_insert; lia). by eexists.
Qed.

Lemma flat_WrTmp env t e ty : typeOfIRTemp env t = Ok ty -> well_typed env e = true -> typeOfIRExpr env e = Ok ty ->
  flat_rhs e -> flat_stmt env (Ist_WrTmp t e).
Proof.
  intros Ht Hw Hty Hf. split; [|done]. unfold well_typed_stmt. cbn [defs forallb operands_typed]. rewrite Hw, Ht. cbn [well_typed typeOfIRExpr].
  rewrite Ht. cbn. by apply has_type_iff.
Qed.

Lemma fixed_flat env en cvt dst addr alt g res arg op : flat_stmt env (Ist_LoadG en cvt dst addr alt g) ->
  typeOfIRLoadGOp cvt = Ok (res, arg) -> cvt_op cvt = Ok op ->
  flat_stmt (env ++ [arg]) (fixed_load en arg addr (Z.of_nat (length env))) /\ flat_stmt (env ++ [arg]) (fixed_cvt op (Z.of_nat (length env)) dst).
Proof.
  intros [[_ Ho]%andb_true_iff Hf] Hty Hop. cbn [operands_typed] in Ho. rewrite Hty in Ho. injection Hf as Hf. rewrite ?andb_true_iff in *. destruct_and?.
  pose proof (new_temp_type env arg) as Hnew.
  assert (Hwn : well_typed (env ++ [arg]) (Iex_RdTmp (Z.of_nat (length env))) = true) by (cbn; by rewrite Hnew).
  destruct (cvt_op_ok _ _ _ Hty) as (op' & Hop' & Hres). rewrite Hop in Hop'. injection Hop' as <-.
  match goal with H : has_type env (Iex_RdTmp dst) res = true |- _ => apply has_type_iff in H; cbn in H; apply (typed_temp_more _ [arg]) in H end.
  split.
  - eapply flat_WrTmp; [exact Hnew| |done|unfold flat_rhs; cbn; by f_equal]. cbn [well_typed typeOfIRExpr]. by apply well_typed_more.
  - unfold fixed_cvt. eapply flat_WrTmp; [eassumption|..]; destruct (op =? Iop_INVALID); subst; try done.
    + destruct Hres as (t & Ht & _ & Ha). cbn [well_typed typeOfIRExpr]. rewrite Ht. cbn [obind].
      unfold takes. rewrite Ht, Ha. cbn [have_types typeOfIRExpr]. rewrite !andb_true_iff. split_and!; [by rewrite Hnew|by apply has_type_iff|done].
    + destruct Hres as (t & Ht & <- & _). cbn [typeOfIRExpr]. by rewrite Ht.
Qed.

Lemma defs_below env st t : flat_stmt env st -> t ∈ defs st -> t < Z.of_nat (length env).
Proof.
  intros [[Hd _]%andb_true_iff _] Ht. rewrite forallb_forall in Hd. specialize (Hd t (proj1 (list_elem_of_In _ _) Ht)).
  apply well_typed_temp in Hd. lia.
Qed.

Lemma all_defs_below env sts t : Forall (flat_stmt env) sts -> t ∈ all_defs sts -> t < Z.of_nat (length env).
Proof.
  induction 1 as [|st sts Hst _ IH]; [by intros ?%not_elem_of_nil|]. change (all_defs (st :: sts)) with (defs st ++ all_defs sts).
  intros [Ht|Ht]%elem_of_app; [by eapply defs_below|by apply IH].
Qed.

(** One placeholder is filled in; the others stay. *)
Lemma fix_load_ok out ix : flat_block out -> pending (stmts out) ix ->
  exists out', fix_load out ix = Ok out' /\ flat_block out' /\ jumpkind out' = jumpkind out /\ sb_offsIP out' = sb_offsIP out
    /\ tyenv out `prefix_of` tyenv out' /\ forall i, pending (stmts out) i -> i <> ix -> pending (stmts out') i.
Proof.
  intros Hb Hp. destruct (fix_load_returns _ _ Hb Hp) as (out' & E). exists out'. split; [done|].
  apply fix_load_inv in E as (pre & post & e & cvt & dst & addr & alt & b & res & arg & op & Hlen & Hix & Es & Hg & Hty & Hop & ->).
  destruct out as [env sts nx jk off]. cbn in Es. subst sts. destruct Hb as (Hs & Hd & Hn & Ha). cbn [IR.tyenv IR.stmts IR.next] in *.
  unfold flat_block. cbn -[all_defs app]. apply Forall_app in Hs as [Hpre Hs]. inversion_clear Hs as [|? ? _ Hs']. inversion_clear Hs' as [|? ? Hlg Hpost].
  destruct (fixed_flat _ _ _ _ _ _ _ _ _ _ Hlg Hty Hop) as [Hf1 Hf2].
  assert (Hmore : forall l, Forall (flat_stmt env) l -> Forall (flat_stmt (env ++ [arg])) l).
  { intros l Hl. eapply Forall_impl; [exact Hl|]. intros st [Hw Hf]. split; [by apply well_typed_stmt_more|done]. }
  split; [|split; [done|split; [done|split; [by eexists|]]]].
  - split; [|split; [|split; [by apply well_typed_more|done]]].
    + apply Forall_app. split; [by apply Hmore|]. constructor; [done|]. constructor; [done|]. by apply Hmore.
    + assert (Hall : forall t, t ∈ all_defs (pre ++ [Ist_NoOp; Ist_LoadG e cvt dst addr alt (Iex_Const (Ico_U1 b))] ++ post) -> t < Z.of_nat (length env)).
      { intros t. apply all_defs_below. apply Forall_app. split; [done|]. constructor; [done|]. by constructor. }
      rewrite !all_defs_app in *. cbn -[all_defs] in *.
      assert (Hperm : all_defs pre ++ Z.of_nat (length env) :: dst :: all_defs post ≡ₚ Z.of_nat (length env) :: all_defs pre ++ dst :: all_defs post)
        by (symmetry; apply Permutation_middle).
      change (NoDup (all_defs pre ++ Z.of_nat (length env) :: dst :: all_defs post)). rewrite Hperm. constructor; [|exact Hd].
      intros Hin%Hall. lia.
  - intros i (Hi & Hni & en & cvt' & dst' & addr' & alt' & g & Hli & Hgi) Hne.
    assert (Hat : forall x y, (pre ++ [x; y] ++ post) !! length pre = Some x /\ (pre ++ [x; y] ++ post) !! S (length pre) = Some y).
    { intros x y. split; [by rewrite lookup_app_r, Nat.sub_diag by lia|].
      rewrite lookup_app_r by lia. by replace (S (length pre) - length pre)%nat with 1%nat by lia. }
    destruct (Hat Ist_NoOp (Ist_LoadG e cvt dst addr alt (Iex_Const (Ico_U1 b)))) as [H0 H1].
    assert (Z.to_nat i <> length pre) by lia. assert (Z.to_nat i <> S (length pre)) by (intros Heq; rewrite Heq in Hni; discriminate (eq_trans (eq_sym Hni) H1)).
    assert (S (Z.to_nat i) <> length pre) by (intros Heq; rewrite Heq in Hli; discriminate (eq_trans (eq_sym H0) Hli)).
    split; [done|]. split; [by rewrite (two_ne _ _ Ist_NoOp (Ist_LoadG e cvt dst addr alt (Iex_Const (Ico_U1 b))))|].
    eexists _, _, _, _, _, _. split; [|exact Hgi].
    rewrite (two_ne _ _ Ist_NoOp (Ist_LoadG e cvt dst addr alt (Iex_Const (Ico_U1 b)))) by lia. exact Hli.
Qed.

Lemma fix_loads_ok ixs : forall out, flat_block out -> Forall (pending (stmts out)) ixs -> NoDup ixs ->
  exists out', fix_loads out ixs = Ok out' /\ flat_block out' /\ jumpkind out' = jumpkind out /\ sb_offsIP out' = sb_offsIP out
    /\ tyenv out `prefix_of` tyenv out'.
Proof.
  induction ixs as [|ix ixs IH]; intros out Hb Hp Hd; [by exists out|]. inversion_clear Hp as [|? ? Hix Hl]. apply NoDup_cons in Hd as [Hn Hd].
  destruct (fix_load_ok _ _ Hb Hix) as (out1 & E & Hb1 & Hj & Ho & Hpre & Hkeep). cbn. rewrite E. cbn [obind].
  destruct (IH out1 Hb1) as (out' & -> & Hb' & Hj' & Ho' & Hpre'); [|done|].
  - rewrite Forall_forall in *. intros i Hi. apply Hkeep; [by apply Hl|]. by intros ->.
  - exists out'. split_and!; [done|done|congruence|congruence|by etrans].
Qed.
