(* ===== verification/CPropRun.v ===== *)
(** * Propagation and folding of constants: VEX/priv/ir_opt.c

    The pass as a whole, with and without folding: its result is flat, has types
    and does the same as the block; and when it returns. *)

From stdpp Require Import gmap.
From S2P Require Import Prelude Primop IR Sanity IRSem IRRun IRTyping OpSem Fold IRConcrete FoldTheory FoldTypes Flatten CProp CPropTheory CPropTypes.

(** ** When folding returns *)

(** The expressions that a statement assigns. *)
Definition sources (st : IRStmt) : list IRExpr :=
  match st with Ist_WrTmp _ e | Ist_LoadG _ _ _ _ e _ => [e] | _ => [] end.

(** They are folded without a failure, and read temporaries assigned before. *)
Definition stmt_foldable (as_bits : bool) (seen : list Z) (st : IRStmt) : bool :=
  forallb (fun e => harmless as_bits e && forallb (fun t => bool_decide (t ∈ seen)) (temps_of e)) (sources st).
Fixpoint stmts_foldable (as_bits : bool) (seen : list Z) (sts : list IRStmt) : bool :=
  match sts with [] => true | st :: sts => stmt_foldable as_bits seen st && stmts_foldable as_bits (seen ++ defs st) sts end.

Section Folding.
Context (mustRetainNoOps : bool) (tyenv : IRTypeEnv) (as_bits : bool).

(** Assigned before, and not bound to a temporary. *)
Definition stable (seen : list Z) (env : bindings) (t : Z) : Prop :=
  t ∈ seen /\ forall e, rd env t = Ok (Some e) -> match e with Iex_RdTmp _ => False | _ => True end.
Definition tidy_env (seen : list Z) (env : bindings) : Prop :=
  forall t e, rd env t = Ok (Some e) -> tidy as_bits (stable seen env) e.

Section Substituted.
Context (seen : list Z) (env : bindings) (Hsub : sub_ok tyenv seen env) (Htidy : tidy_env seen env).
Abbreviation neat := (tidy as_bits (stable seen env)).

Lemma subst_Temp_tidy t e : t ∈ seen -> subst_Temp env t = Ok e -> neat e.
Proof.
  unfold subst_Temp. intros Ht (b & Hb & H)%bind_Ok_inv. specialize (Htidy t).
  assert (Hself : match b with Some (Iex_RdTmp _) => False | _ => True end -> neat (Iex_RdTmp t)).
  { intros Hn. split; [done|]. constructor; [|constructor]. split; [done|]. intros e0 He0. rewrite Hb in He0. injection He0 as ->. by destruct e0. }
  destruct b as [b|]; [|injection H as <-; by apply Hself]. specialize (Htidy b Hb).
  destruct b; try (injection H as <-; by apply Hself); [by injection H as <-|]. destruct (isF64i con); injection H as <-; [by apply Hself|done].
Qed.

Lemma subst_Expr_tidy e : harmless as_bits e = true -> Forall (fun t => t ∈ seen) (temps_of e) ->
  forall e', subst_Expr env e = Ok e' -> neat e'.
Proof.
  induction e as [| | | | | | | | | |cee ty args IH| | |] using IRExpr_nested_ind; intros Hh Ht e' H; cbn [subst_Expr] in H; cbn [harmless temps_of] in Hh, Ht;
    repeat match goal with
    | H : obind (assert_that _) _ = Ok _ |- _ => apply assert_that_inv in H as [_ H]
    | H : obind _ _ = Ok _ |- _ => let H1 := fresh "H" in apply bind_Ok_inv in H as (? & H1 & H)
    | H : Ok _ = Ok _ |- _ => injection H as <-
    end; try discriminate; rewrite ?andb_true_iff in Hh; rewrite ?Forall_app in Ht; destruct_and?;
    repeat match goal with IH : _ -> _ -> forall e', subst_Expr env ?e = Ok e' -> _, E : subst_Expr env ?e = Ok _ |- _ => destruct (IH ltac:(assumption) ltac:(assumption) _ E); clear IH end;
    try (split; cbn [harmless temps_of]; [rewrite ?andb_true_iff; split_and?; assumption|rewrite ?Forall_app; split_and?; (assumption || constructor)]).
  - inversion_clear Ht. by eapply subst_Temp_tidy.
  - rename x into args2. match goal with H : _ args = Ok args2 |- _ => rename H into E end.
    assert (forallb (harmless as_bits) args2 = true /\ Forall (stable seen env) (concat (map temps_of args2))) as [? ?]; [|by split].
    revert args2 E. induction IH as [|a args Ha _ IHl]; intros l E; [by injection E as <-|].
    cbn in Hh, Ht. apply andb_true_iff in Hh as [Hh1 Hh2]. apply Forall_app in Ht as [Ht1 Ht2].
    apply bind_Ok_inv in E as (a' & E1 & E). apply assert_that_inv in E1 as [_ E1]. apply bind_Ok_inv in E as (l' & E2 & [= <-]).
    destruct (Ha Hh1 Ht1 _ E1) as [? ?]. destruct (IHl Hh2 Ht2 _ E2) as [? ?]. cbn. rewrite andb_true_iff, Forall_app. done.
Qed.

Lemma env_flat t e : rd env t = Ok (Some e) -> retyped tyenv tyenv (Iex_RdTmp t) e /\ flat_rhs e.
Proof. intros H. by destruct Hsub as [_ He]; destruct (He _ _ H) as (_ & ? & ?). Qed.

Lemma sources_inv st : stmt_foldable as_bits seen st = true ->
  Forall (fun e => harmless as_bits e = true /\ Forall (fun t => t ∈ seen) (temps_of e)) (sources st).
Proof.
  unfold stmt_foldable. rewrite forallb_forall, <-List.Forall_forall. intros H. eapply Forall_impl; [exact H|]. intros e [Hh Ht]%andb_true_iff.
  split; [done|]. rewrite forallb_forall, <-List.Forall_forall in Ht. eapply Forall_impl; [exact Ht|]. by intros t ?%bool_decide_eq_true.
Qed.

(** The new right-hand side. *)
Lemma fold_tidy data : flat_rhs data -> well_typed tyenv data = true -> harmless as_bits data = true -> Forall (fun t => t ∈ seen) (temps_of data) ->
  exists e e', subst_Expr env data = Ok e /\ fold_Expr (f_env true env) e = Ok e' /\ neat e'.
Proof.
  intros Hf Hw Hh Ht. destruct (subst_Expr_ok tyenv seen env Hsub data Hf Hw) as (e & E & Fe & We & _). exists e.
  destruct (fold_Expr_WRK_ok tyenv env (proj1 Hsub) env_flat as_bits (stable seen env)) with (e := e) as (e' & E' & N); try done.
  - intros t d [_ Hs]. apply Hs.
  - by eapply subst_Expr_tidy.
  - by exists e'.
Qed.

Lemma stmt_tidy st : flat_stmt tyenv st -> stmt_foldable as_bits seen st = true ->
  foldable true env st /\ forall t data, subst_and_maybe_fold_Stmt true env st = Ok (Ist_WrTmp t data) -> neat data.
Proof.
  intros [[_ Hw]%andb_true_iff Hf] Hs%sources_inv. destruct st; try (split; [done|]; intros t d H; cbn in H;
    repeat match type of H with obind _ _ = _ => apply bind_Ok_inv in H as (? & _ & H) end; by repeat case_match).
  - inversion_clear Hs as [|? ? [Hh Ht] _]. cbn [operands_typed] in Hw. apply andb_true_iff in Hw as [Hw _].
    destruct (fold_tidy data Hf Hw Hh Ht) as (e & e' & E & E' & N). cbn [subst_and_maybe_fold_Stmt foldable]. rewrite E. cbn [obind]. rewrite E'. split.
    + intros e0 [= <-]. by exists e'.
    + by intros t d [= _ <-].
  - inversion_clear Hs as [|? ? [Hh Ht] _]. split; [done|]. intros t d H. cbn in H. apply bind_Ok_inv in H as (a & _ & H).
    apply bind_Ok_inv in H as (falt & E & H). apply bind_Ok_inv in H as (g & _ & H). apply bind_Ok_inv in H as (c & _ & [= H]).
    rewrite subst_atom_eq in E. apply assert_that_inv in E as [_ E]. destruct c as [[]|]; try done. injection H as _ <-. by eapply subst_Expr_tidy.
Qed.
End Substituted.

(** More is assigned. *)
Lemma stable_more seen seen' env env' t : stable seen env t -> (forall t, t ∈ seen -> rd env' t = rd env t) -> stable (seen ++ seen') env' t.
Proof. intros [Ht Hs] He. split; [set_solver|]. intros e. rewrite He by done. apply Hs. Qed.

Lemma tidy_more seen seen' env env' e : tidy as_bits (stable seen env) e -> (forall t, t ∈ seen -> rd env' t = rd env t) ->
  tidy as_bits (stable (seen ++ seen') env') e.
Proof. intros [Hh Ht] He. split; [done|]. eapply Forall_impl; [exact Ht|]. intros t. by intros Hs%(stable_more _ seen' _ env'). Qed.

Lemma cprop_round_tidy seen s st : loop_inv tyenv seen s -> tidy_env seen (cp_env s) -> flat_stmt tyenv st -> NoDup (seen ++ defs st) ->
  stmt_foldable as_bits seen st = true ->
  exists s', cprop_round mustRetainNoOps true s st = Ok s' /\ loop_inv tyenv (seen ++ defs st) s' /\ tidy_env (seen ++ defs st) (cp_env s').
Proof.
  intros Hs Ht Hst Hd Hf. destruct (stmt_tidy seen (cp_env s) (inv_sub _ _ _ Hs) Ht st Hst Hf) as [Hfold Hneat].
  destruct (cprop_round_ok mustRetainNoOps true tyenv seen s st Hs Hst Hd Hfold) as (s' & E & Hs'). exists s'. split_and!; [done|done|].
  assert (Hkeep : tidy_env (seen ++ defs st) (cp_env s)) by (intros t e He; by eapply tidy_more; [by apply Ht in He|]).
  unfold cprop_round in E. destruct (match st with Ist_NoOp => negb mustRetainNoOps | _ => false end); [by injection E as <-|].
  apply bind_Ok_inv in E as (st2 & E2 & E). destruct (subst_Stmt_ok true tyenv seen _ (inv_sub _ _ _ Hs) st Hst Hfold) as (st2' & E2' & _ & Hdefs & _).
  rewrite E2 in E2'. injection E2' as <-. destruct st2; try (injection E as <-; exact Hkeep); [destruct mustRetainNoOps; by injection E as <-| |].
  - apply bind_Ok_inv in E as (old & _ & E). apply assert_that_inv in E as [_ E]. apply bind_Ok_inv in E as (env & Hwr & E).
    rewrite <-Hdefs in *. cbn [defs] in *.
    assert (Hne : forall t, t ∈ seen -> rd env t = rd (cp_env s) t).
    { intros t Hin. apply (rd_wr_ne _ _ _ _ _ Hwr). intros ->. apply NoDup_app in Hd as (_ & Hd & _). apply (Hd _ Hin). set_solver. }
    assert (Henv : tidy_env (seen ++ [tmp]) env).
    { intros t e He. destruct (decide (tmp = t)) as [<-|Hn].
      - rewrite (rd_wr_eq _ _ _ _ Hwr) in He. injection He as <-. eapply tidy_more; [by eapply Hneat|done].
      - rewrite (rd_wr_ne _ _ _ _ _ Hwr) in He by done. eapply tidy_more; [by eapply Ht|done]. }
    destruct (propagated data); by injection E as <-.
  - apply bind_Ok_inv in E as (s1 & (He & _)%note_fixup_inv & [= <-]). cbn. by rewrite He.
Qed.

Lemma cprop_loop_tidy sts : forall seen s, loop_inv tyenv seen s -> tidy_env seen (cp_env s) -> Forall (flat_stmt tyenv) sts ->
  NoDup (seen ++ all_defs sts) -> stmts_foldable as_bits seen sts = true -> exists s', cprop_loop mustRetainNoOps true s sts = Ok s'.
Proof.
  induction sts as [|st sts IH]; intros seen s Hs Ht Hf Hd H; [by exists s|]. inversion_clear Hf as [|? ? Hst Hl]. cbn in H. apply andb_true_iff in H as [H1 H].
  change (all_defs (st :: sts)) with (defs st ++ all_defs sts) in *. rewrite app_assoc in *.
  destruct (cprop_round_tidy seen s st Hs Ht Hst) as (s1 & E & Hs1 & Ht1); [by apply NoDup_app in Hd as [? _]|done|].
  cbn. rewrite E. cbn [obind]. by eapply IH.
Qed.
End Folding.

Lemma cprop_loop_plain b tyenv sts : forall seen s, loop_inv tyenv seen s -> Forall (flat_stmt tyenv) sts -> NoDup (seen ++ all_defs sts) ->
  exists s', cprop_loop b false s sts = Ok s'.
Proof.
  induction sts as [|st sts IH]; intros seen s Hs Hf Hd; [by exists s|]. inversion_clear Hf as [|? ? Hst Hl].
  change (all_defs (st :: sts)) with (defs st ++ all_defs sts) in *. rewrite app_assoc in *.
  destruct (cprop_round_ok b false tyenv seen s st Hs Hst) as (s1 & E & Hs1); [by apply NoDup_app in Hd as [? _]|destruct st; try done; intros e _; by exists e|].
  cbn. rewrite E. cbn [obind]. by eapply IH.
Qed.

(** ** The result *)

Section Pass.
Context (bb : IRSB) (b f : bool) (Hbb : flat_block bb).

Definition cprop_start : cprop_state := mk_cprop (replicate (length (tyenv bb)) None) [] [].

Lemma start_none t e : rd (cp_env cprop_start) t <> Ok (Some e).
Proof. intros [_ H]%rd_inv. by apply lookup_replicate in H as [? _]. Qed.

Lemma start_inv : loop_inv (tyenv bb) [] cprop_start.
Proof.
  split; cbn; try done; try (by constructor). split; [by rewrite length_replicate|]. by intros t e []%start_none.
Qed.

(** What the rest of the pass makes of the state after the loop. *)
Lemma cprop_finish_ok s : cprop_loop b f cprop_start (stmts bb) = Ok s ->
  exists out, cprop_BB_WRK bb b f = Ok out /\ flat_block out /\ jumpkind out = jumpkind bb /\ sb_offsIP out = sb_offsIP bb
    /\ tyenv bb `prefix_of` tyenv out.
Proof.
  intros E. destruct Hbb as (Hs & Hd & Hn & Ha). unfold cprop_BB_WRK. fold cprop_start. rewrite E. cbn [obind].
  destruct (cprop_loop_typed b f (tyenv bb) (stmts bb) [] _ _ start_inv Hs Hd E). cbn [app] in *.
  destruct (subst_atom_ok (tyenv bb) _ _ inv_sub (next bb) Ha Hn) as (e & -> & Ae & We & _). cbn [obind].
  destruct (Z.leb_spec (Z.of_nat (length (fixups s))) N_FIXUPS); [|lia]. cbn [assert_that obind].
  apply (fix_loads_ok (fixups s) (mk_IRSB (tyenv bb) (cp_out s) e (jumpkind bb) (sb_offsIP bb))); [|done|done].
  split; [exact inv_out|]. split; [|done]. eapply sublist_NoDup; [exact Hd|exact inv_defs].
Qed.

Lemma cprop_BB_WRK_typed out : cprop_BB_WRK bb b f = Ok out ->
  flat_block out /\ jumpkind out = jumpkind bb /\ sb_offsIP out = sb_offsIP bb /\ tyenv bb `prefix_of` tyenv out.
Proof.
  intros H. pose proof H as H0. unfold cprop_BB_WRK in H0. apply bind_Ok_inv in H0 as (s & Hs & _).
  destruct (cprop_finish_ok s Hs) as (out' & E & Hout). rewrite H in E. by injection E as <-.
Qed.
End Pass.

Lemma cprop_BB_WRK_plain bb b : flat_block bb ->
  exists out, cprop_BB_WRK bb b false = Ok out /\ flat_block out /\ jumpkind out = jumpkind bb /\ sb_offsIP out = sb_offsIP bb
    /\ tyenv bb `prefix_of` tyenv out.
Proof.
  intros Hbb. destruct (cprop_loop_plain b (tyenv bb) (stmts bb) [] (cprop_start bb) (start_inv bb)) as [s Hs]; [apply Hbb..|].
  by eapply cprop_finish_ok.
Qed.

Lemma cprop_BB_WRK_folds bb b as_bits : flat_block bb -> stmts_foldable as_bits [] (stmts bb) = true -> exists out, cprop_BB_WRK bb b true = Ok out.
Proof.
  intros Hbb Hf. destruct (cprop_loop_tidy b (tyenv bb) as_bits (stmts bb) [] (cprop_start bb) (start_inv bb)) as [s Hs];
    [by intros t e []%start_none|apply Hbb|apply Hbb|done|].
  destruct (cprop_finish_ok bb b true Hbb s Hs) as (out & E & _). by exists out.
Qed.

(** ** Runs *)

Section Runs.
Context {V W} `{M : Machine V W} `{!MachineLaws M} (f : bool) (Hlaws : f = true -> IntegerLaws M) (b : bool).
Implicit Types (rho : gmap Z V) (w : W).

Lemma typed_sub tyenv rho rho' : typed tyenv rho -> rho' ⊆ rho -> typed tyenv rho'.
Proof. intros Ht Hi t v Hv. apply Ht. by eapply lookup_weaken. Qed.

(** Folding keeps values in the new run. *)
Lemma folding_well tyenv seen env rho rho' st : sub_ok tyenv seen env -> typed tyenv rho -> substituted env rho rho' -> flat_stmt tyenv st ->
  folds_well f env rho' st.
Proof.
  intros Hok Ht Hs [[_ Hw]%andb_true_iff Hf]. destruct st; try done. intros w e e' He Hfold. unfold f_env in Hfold. destruct f; [|injection Hfold as <-; by intros v].
  pose proof (Hlaws eq_refl) as HI. cbn [operands_typed] in Hw. apply andb_true_iff in Hw as [Hw _].
  destruct (subst_Expr_ok tyenv seen env Hok data Hf Hw) as (e1 & E1 & _ & [We _]). rewrite He in E1. injection E1 as <-.
  intros v. eapply fold_Expr_WRK_value; [|by eapply substituted_bound| |exact We|exact Hfold].
  - eapply typed_sub; [exact Ht|by destruct Hs as [[? _] _]].
  - intros t d Hd. by destruct Hok as [_ H]; destruct (H _ _ Hd) as (_ & ? & _).
Qed.

Lemma cprop_loop_run tyenv sts : forall seen s s' rho rho' w r, loop_inv tyenv seen s -> Forall (flat_stmt tyenv) sts -> NoDup (seen ++ all_defs sts) ->
  typed tyenv rho -> cprop_loop b f s sts = Ok s' -> substituted (cp_env s) rho rho' -> run_stmts tyenv rho w sts = Some r ->
  exists out r', cp_out s' = cp_out s ++ out /\ run_stmts tyenv rho' w out = Some r' /\
    match r with Goes_on _ _ => agrees (cp_env s') r r' | Leaves _ _ _ => r' = r end.
Proof.
  induction sts as [|st sts IH]; intros seen s s' rho rho' w r Hi Hf Hd Ht H Hs Hr; cbn in H, Hr.
  { injection H as <-. injection Hr as <-. exists [], (Goes_on rho' w). by rewrite app_nil_r. }
  change (all_defs (st :: sts)) with (defs st ++ all_defs sts) in *. rewrite app_assoc in Hd. inversion_clear Hf as [|? ? Hst Hl].
  apply bind_Ok_inv in H as (s1 & H1 & H). apply bind_Some in Hr as (r1 & Hr1 & Hr).
  assert (Hd1 : NoDup (seen ++ defs st)) by (by apply NoDup_app in Hd as [? _]).
  assert (Hflat : forall st2, subst_and_maybe_fold_Stmt f (cp_env s) st = Ok st2 -> isFlatIRStmt st2 = Ok true).
  { intros st2 H2. destruct (subst_Stmt_ok f tyenv seen _ (inv_sub _ _ _ Hi) st Hst (subst_foldable _ _ _ _ H2)) as (st2' & E & [_ ?] & _).
    rewrite H2 in E. by injection E as ->. }
  destruct (cprop_round_run tyenv _ _ _ _ _ _ _ _ _ H1 Hs (folding_well _ _ _ _ _ _ (inv_sub _ _ _ Hi) Ht Hs Hst) Hflat Hr1) as (out1 & r1' & Ho1 & Hr1' & Ha).
  pose proof (cprop_round_typed b f tyenv seen s st s1 Hi Hst Hd1 H1) as Hi1.
  destruct r1 as [rho1 w1|w1 v jk], r1' as [rho1' w1'|w1' v' jk']; cbn in Ha; try done.
  - destruct Ha as [-> Hs1]. pose proof (run_stmt_typed tyenv _ _ _ _ _ Ht Hr1) as Ht1.
    destruct (IH _ _ _ _ rho1' w1 r Hi1 Hl Hd Ht1 H Hs1 Hr) as (out & r' & Ho & Hr' & Ha).
    exists (out1 ++ out), r'. rewrite Ho, Ho1, app_assoc, run_stmts_app, Hr1'. done.
  - destruct Ha as (-> & -> & ->). injection Hr as <-.
    destruct (cprop_loop_grows _ _ _ _ _ H) as [out Ho]. exists (out1 ++ out), (Leaves w1 v jk).
    rewrite Ho, Ho1, app_assoc, run_stmts_app, Hr1'. done.
Qed.

Lemma cprop_BB_WRK_run bb out w r : flat_block bb -> cprop_BB_WRK bb b f = Ok out -> run_block bb w = Some r -> run_block out w = Some r.
Proof.
  intros (Hst & Hd & _) H Hr. unfold cprop_BB_WRK in H. fold (cprop_start bb) in H. apply bind_Ok_inv in H as (s & Hs & H). apply bind_Ok_inv in H as (nx & Hnx & H).
  apply assert_that_inv in H as [_ H]. eapply fix_loads_run; [exact H|]. unfold run_block in *. cbn [IR.tyenv IR.stmts].
  apply bind_Some in Hr as (r1 & Hr1 & Hr).
  destruct (cprop_loop_run (tyenv bb) _ [] _ _ _ _ _ _ (start_inv bb) Hst Hd (typed_empty _) Hs (substituted_none _) Hr1) as (sts & r1' & -> & Hr1' & Hag). cbn [cprop_start cp_out app].
  rewrite Hr1'. cbn [mbind option_bind]. destruct r1 as [rho1 w1|w1 v jk]; [|by rewrite Hag].
  destruct r1' as [rho1' w1'|]; [|done]. destruct Hag as [-> Hsub]. cbn in Hr |- *.
  apply bind_Some in Hr as (tgt & Htgt & Hr). by rewrite (subst_Expr_value _ _ _ Hsub _ _ _ Hnx _ Htgt).
Qed.
End Runs.

(** ** The theorem *)

(** C8: the propagation and folding of constants, for a flat block that is well
    typed.  Whatever block the pass returns is flat and well typed, ends with the
    same kind of jump, and does the same: on any machine that obeys the laws and
    whose integer operators compute what they mean, a run of the block that ends
    in a world with a target and a kind of jump is one of the new block.  And the
    pass returns when folding cannot fail: floating-point constants are all
    written in one way, the operators whose folding overflows or is missing
    ([Left32], [Left64], [Max32U]) are absent, and temporaries are read after
    they are assigned. *)
Theorem cprop_BB_correct bb (Hw : well_typed_block bb = true) (Hf : isFlatIRSB bb = Ok true) :
  (forall out, cprop_BB bb = Ok out ->
     isFlatIRSB out = Ok true /\ well_typed_block out = true /\ jumpkind out = jumpkind bb
     /\ forall V W (M : Machine V W), MachineLaws M -> IntegerLaws M -> forall w r, run_block bb w = Some r -> run_block out w = Some r)
  /\ (forall as_bits, stmts_foldable as_bits [] (stmts bb) = true -> exists out, cprop_BB bb = Ok out).
Proof.
  assert (Hb : flat_block bb) by (by apply flat_block_iff). split; [|intros as_bits; by apply cprop_BB_WRK_folds].
  intros out E. destruct (cprop_BB_WRK_typed _ _ _ Hb _ E) as (Fo & Hj & _). apply flat_block_iff in Fo as [Ho1 Ho2]. split_and!; [done..|].
  intros V W M HM HI w r. by apply (cprop_BB_WRK_run true (fun _ => HI) false).
Qed.

(** A sum of constants, an exclusive or of a value with itself, a comparison that
    becomes constant, an exit that is never taken, and a byte that is widened. *)
Definition foldable_block : IRSB :=
  mk_IRSB [Ity_I64; Ity_I64; Ity_I64; Ity_I64; Ity_I1; Ity_I8; Ity_I32]
    [Ist_WrTmp 0 (Iex_Get 16 Ity_I64);
     Ist_WrTmp 1 (Iex_Binop Iop_Add64 (Iex_Const (Ico_U64 0xFFFFFFFFFFFFFFFF)) (Iex_Const (Ico_U64 0x11)));
     Ist_WrTmp 2 (Iex_Binop Iop_Xor64 (Iex_RdTmp 0) (Iex_RdTmp 0));
     Ist_WrTmp 3 (Iex_Binop Iop_Or64 (Iex_RdTmp 1) (Iex_RdTmp 2));
     Ist_WrTmp 4 (Iex_Binop Iop_CmpEQ64 (Iex_RdTmp 3) (Iex_RdTmp 2));
     Ist_Exit (Iex_RdTmp 4) Ijk_Boring (Ico_U64 4096) 184;
     Ist_WrTmp 5 (Iex_Load Iend_LE Ity_I8 (Iex_RdTmp 3));
     Ist_WrTmp 6 (Iex_Unop Iop_8Sto32 (Iex_RdTmp 5));
     Ist_Put 32 (Iex_RdTmp 3);
     Ist_Put 40 (Iex_RdTmp 6)]
    (Iex_RdTmp 3) Ijk_Ret 184.

Definition folding_world : W := mk_W ∅ {[16 := 200]} [].

Lemma cprop_BB_correct_witness :
  well_typed_block foldable_block = true /\ isFlatIRSB foldable_block = Ok true
  /\ exists out, cprop_BB foldable_block = Ok out
    /\ isFlatIRSB out = Ok true /\ well_typed_block out = true
    /\ run_block foldable_block folding_world <> None
    /\ forall r, run_block foldable_block folding_world = Some r -> run_block out folding_world = Some r.
Proof.
  split; [vm_compute; reflexivity|]. split; [vm_compute; reflexivity|].
  destruct (cprop_BB_correct foldable_block ltac:(vm_compute; reflexivity) ltac:(vm_compute; reflexivity)) as [Hout Hret].
  destruct (Hret true ltac:(vm_compute; reflexivity)) as [out E]. exists out. split; [exact E|].
  destruct (Hout out E) as (Hf & Hw & _ & Hr). split; [exact Hf|]. split; [exact Hw|]. split; [vm_compute; discriminate|].
  intros r. exact (Hr _ _ machine machine_laws machine_integers folding_world r).
Defined.

(** The constants are folded, and the exit is gone. *)
Example foldable_block_folded :
  (stmts <$> match cprop_BB foldable_block with Ok out => Some out | Err _ => None end)
  = Some [Ist_WrTmp 0 (Iex_Get 16 Ity_I64);
          Ist_WrTmp 5 (Iex_Load Iend_LE Ity_I8 (Iex_Const (Ico_U64 16)));
          Ist_WrTmp 6 (Iex_Unop Iop_8Sto32 (Iex_RdTmp 5));
          Ist_Put 32 (Iex_Const (Ico_U64 16));
          Ist_Put 40 (Iex_RdTmp 6)].
Proof. vm_compute. reflexivity. Qed.
