(* ===== verification/IrOpt.v ===== *)
(** * The initial clean-up of a block: VEX/priv/ir_opt.c

    [do_minimal_initial_iropt_BB]: the passes in the order in which the code
    calls them, and the removal of a redundant write of the instruction pointer
    at the end of the block. *)

From stdpp Require Import gmap.
From S2P Require Import Prelude Primop IR Sanity IRSem IRRun IRTyping IRConcrete Flatten FlattenTheory FlattenTypes GetPut GetTheory CProp CPropTheory CPropTypes CPropRun.

(** The last statement writes what the end of the block writes. *)
Definition drop_last_put (bb : IRSB) : outcome IRSB :=
  match last (stmts bb) with
  | Some (Ist_Put offset data) =>
      if offset =? sb_offsIP bb
      then let* eq := eqIRAtom data (next bb) in
           Ok (if eq then bb <| stmts := take (length (stmts bb) - 1) (stmts bb) |> else bb)
      else Ok bb
  | _ => Ok bb
  end.

Definition do_minimal_initial_iropt_BB (order : IRSB -> nat -> nat) (bb0 : IRSB) : outcome IRSB :=
  let* bb := flatten_BB order bb0 in
  let* bb := redundant_get_removal_BB bb in
  let* bb := cprop_BB_WRK bb true false in
  drop_last_put bb.

(** ** Lemmas *)

(** Atoms that the code takes for equal have one type. *)
Lemma eqIRAtom_type env a b : eqIRAtom a b = Ok true -> typeOfIRExpr env a = typeOfIRExpr env b.
Proof.
  unfold eqIRAtom. intros H. destruct a, b; try done; cbn in H.
  - injection H as ->%Z.eqb_eq. done.
  - destruct con, con0; cbn in H; try done.
Qed.

Lemma drop_last_put_inv bb out : drop_last_put bb = Ok out ->
  out = bb \/ exists l data, stmts bb = l ++ [Ist_Put (sb_offsIP bb) data] /\ eqIRAtom data (next bb) = Ok true
    /\ out = bb <| stmts := l |>.
Proof.
  unfold drop_last_put. destruct (last (stmts bb)) as [st|] eqn:E; [|by intros [= <-]; left].
  apply last_Some in E as [l E]. destruct st; try (by intros [= <-]; left).
  destruct (Z.eqb_spec offset (sb_offsIP bb)) as [->|]; [|by intros [= <-]; left].
  intros (eq & Heq & [= <-])%bind_Ok_inv. destruct eq; [|by left]. right. exists l, data. split_and!; [done|done|].
  rewrite E, length_app. cbn. rewrite Nat.add_sub, take_app_length. done.
Qed.

Lemma drop_last_put_ok bb : flat_block bb -> exists out, drop_last_put bb = Ok out /\ flat_block out.
Proof.
  intros Hb. pose proof Hb as (Hs & Hd & Hn & Ha).
  assert (E : exists out, drop_last_put bb = Ok out).
  { unfold drop_last_put. destruct (last (stmts bb)) as [st|] eqn:E; [|by eexists]. apply last_Some in E as [l E].
    destruct st; try by eexists. destruct (offset =? sb_offsIP bb); [|by eexists].
    rewrite E in Hs. apply Forall_app in Hs as [_ Hs]. inversion_clear Hs as [|? ? [_ Hf] _]. injection Hf as Hf.
    unfold eqIRAtom. rewrite Hf, Ha. cbn. destruct data, (next bb); try done; by eexists. }
  destruct E as [out E]. exists out. split; [done|]. apply drop_last_put_inv in E as [->|(l & data & El & _ & ->)]; [done|].
  destruct bb as [env sts nx jk off]. cbn [IR.tyenv IR.stmts IR.next sb_offsIP] in *. subst sts. unfold flat_block. cbn -[all_defs].
  apply Forall_app in Hs as [Hs _]. rewrite all_defs_app in Hd. by apply NoDup_app in Hd as [Hd _].
Qed.

Lemma drop_last_put_run {V W} `{!@MachineLaws V W M} bb out w r : flat_block bb -> drop_last_put bb = Ok out ->
  run_block bb w = Some r -> run_block out w = Some r.
Proof.
  intros (Hs & _) [->|(l & data & El & Heq & ->)]%drop_last_put_inv Hr; [done|].
  destruct bb as [env sts nx jk off]. cbn [IR.tyenv IR.stmts IR.next sb_offsIP] in *. subst sts.
  unfold run_block in *. cbn -[run_end] in *. rewrite run_stmts_app in Hr. destruct (run_stmts env ∅ w l) as [r1|] eqn:Hl; [|done].
  cbn [mbind option_bind] in *. destruct r1 as [rho1 w1|w1 v jk1]; [|exact Hr].
  pose proof (run_stmts_typed env _ _ _ _ _ (typed_empty env) Hl) as Ht. cbn in Hr |- *.
  destruct (eval rho1 w1 data) as [v|] eqn:Hv; [|done]. cbn in Hr. unfold run_stmt in Hr. cbn in Hr.
  apply Forall_app in Hs as [_ Hs]. inversion_clear Hs as [|? ? [[_ Ho]%andb_true_iff _] _]. cbn [operands_typed] in Ho.
  apply andb_true_iff in Ho as [_ Ho]. destruct (typeOfIRExpr env data) as [ty|] eqn:Hty; [|done]. apply slice_ok_inv in Ho as (n & Hn & _).
  rewrite (eqIRAtom_type env _ _ Heq) in Hty. pose proof Hty as Hnx.
  apply bind_Some in Hr as (tgt & Htgt & [= <-]).
  assert (Ha : isIRAtom nx = true) by (unfold eqIRAtom in Heq; destruct data; try done; destruct nx; done).
  rewrite (eval_atom rho1 (w_put w1 off v) w1) by done. rewrite Htgt. cbn.
  rewrite (put_put w1 off v tgt n); [done|..].
  - rewrite (eval_type env rho1 w1 data v ty); [done..|]. by rewrite (eqIRAtom_type env _ _ Heq).
  - by rewrite (eval_type env rho1 _ nx tgt ty Ht Htgt).
Qed.

(** ** The theorem *)

(** C7: the initial clean-up of a block returns for every block that is well
    typed (operators are applied to operands of their types, constants are
    numbers of their widths, accesses to the guest state lie in its first 64 KB,
    each temporary is assigned once), in whichever order the C compiler evaluates the arguments of each call: flattening,
    removal of redundant reads, propagation of constants and copies with the
    loads it leaves to be fixed, and the removal of a last write of the
    instruction pointer.  The block it returns is flat and well typed too, and does the same: on any machine that obeys the laws, a
    run from a world that ends in a world with a target and a kind of jump ends
    so after the clean-up too. *)
Theorem do_minimal_initial_iropt_BB_correct order sb (Hw : well_typed_block sb = true) :
  exists out, do_minimal_initial_iropt_BB order sb = Ok out
    /\ isFlatIRSB out = Ok true /\ well_typed_block out = true
    /\ forall V W (M : Machine V W), MachineLaws M -> forall w r, run_block sb w = Some r -> run_block out w = Some r.
Proof.
  unfold do_minimal_initial_iropt_BB.
  destruct (flatten_BB_returns order sb Hw) as (b1 & E1). rewrite E1. cbn [obind].
  assert (F1 : flat_block b1) by (apply flat_block_iff; split; [by eapply flatten_BB_typed|by eapply flatten_BB_flat]).
  destruct (redundant_get_removal_BB_flat b1 F1) as (b2 & E2 & F2 & _ & _ & _ & R2). rewrite E2. cbn [obind].
  destruct (cprop_BB_WRK_plain b2 true F2) as (b3 & E3 & F3 & _). rewrite E3. cbn [obind].
  destruct (drop_last_put_ok b3 F3) as (out & E4 & F4). exists out. apply flat_block_iff in F4 as [? ?]. split_and!; [done..|].
  intros V W M HM w r Hr. eapply drop_last_put_run; [exact F3|exact E4|]. eapply (cprop_BB_WRK_run false); [done|exact F2|exact E3|]. apply R2; [done|].
  by eapply flatten_BB_run.
Qed.

(** A register read twice, a load and a store whose guards are constants, a copy,
    and the instruction pointer written before the end. *)
Definition clean_block : IRSB :=
  mk_IRSB [Ity_I64; Ity_I64; Ity_I32; Ity_I32]
    [Ist_IMark 4096 4 0;
     Ist_WrTmp 0 (Iex_Get 16 Ity_I64);
     Ist_WrTmp 1 (Iex_Get 16 Ity_I64);
     Ist_LoadG Iend_LE ILGop_8Uto32 2 (Iex_RdTmp 1) (Iex_Const (Ico_U32 0)) (Iex_Const (Ico_U1 1));
     Ist_StoreG Iend_LE (Iex_RdTmp 0) (Iex_Load Iend_LE Ity_I32 (Iex_RdTmp 1)) (Iex_Const (Ico_U1 0));
     Ist_WrTmp 3 (Iex_RdTmp 2);
     Ist_Put 32 (Iex_RdTmp 3);
     Ist_Put 184 (Iex_Const (Ico_U64 4096))]
    (Iex_Const (Ico_U64 4096)) Ijk_Boring 184.

Definition clean_world : W := mk_W ∅ {[5 := 7]} [].

Lemma do_minimal_initial_iropt_BB_correct_witness :
  well_typed_block clean_block = true
  /\ exists out, do_minimal_initial_iropt_BB last_arg clean_block = Ok out
    /\ isFlatIRSB out = Ok true /\ well_typed_block out = true
    /\ run_block clean_block clean_world <> None
    /\ forall r, run_block clean_block clean_world = Some r -> run_block out clean_world = Some r.
Proof.
  split; [vm_compute; reflexivity|].
  destruct (do_minimal_initial_iropt_BB_correct last_arg clean_block ltac:(vm_compute; reflexivity)) as (out & E & Hf & Hw & Hr).
  exists out. split; [exact E|]. split; [exact Hf|]. split; [exact Hw|]. split; [vm_compute; discriminate|].
  intros r. exact (Hr _ _ machine machine_laws clean_world r).
Defined.

(** The second read, the copy, the store and the last write are gone, and the
    load is one without a guard. *)
Example clean_block_cleaned :
  (stmts <$> match do_minimal_initial_iropt_BB last_arg clean_block with Ok out => Some out | Err _ => None end)
  = Some [Ist_IMark 4096 4 0;
          Ist_WrTmp 0 (Iex_Get 16 Ity_I64);
          Ist_WrTmp 5 (Iex_Load Iend_LE Ity_I8 (Iex_RdTmp 0));
          Ist_WrTmp 2 (Iex_Unop Iop_8Uto32 (Iex_RdTmp 5));
          Ist_WrTmp 4 (Iex_Load Iend_LE Ity_I32 (Iex_RdTmp 0));
          Ist_NoOp;
          Ist_Put 32 (Iex_RdTmp 2)].
Proof. vm_compute. reflexivity. Qed.
