(* ===== verification/SanityTheory.v ===== *)
(** * Instrumented code passes the sanity check

    The statements of a block that pass [sanityCheckIRSB] one by one, and their
    weakening to more temporaries; then the invariant of [cg_instrument]: the
    code added so far passes, and the operands of the events in the queue are
    temporaries in scope of types a helper may take. *)

From S2P Require Import Prelude LibcBase CacheSim SimTheory OSet Primop IR CgMain Instrument.
From S2P Require Import LineTable InstrTheory InstrRefine Sanity.

Lemma still_all_ok {A} (f1 f2 : Z -> A -> outcome unit) l :
  Forall (fun x => forall i, still (f1 i x) (f2 i x)) l ->
  forall i, still (all_ok f1 i l) (all_ok f2 i l).
Proof.
  induction 1 as [|x l Hx _ IH]; intros i; [done|]. cbn. by apply still_bind.
Qed.

Lemma all_ok_iff {A} (f : Z -> A -> outcome unit) (P : A -> Prop) l :
  (forall i x, f i x = Ok tt <-> P x) -> forall i, all_ok f i l = Ok tt <-> Forall P l.
Proof.
  intros Hf. induction l as [|x l IH]; intros i; cbn; [done|].
  rewrite Forall_cons, <-(Hf i x), <-(IH (i + 1)).
  destruct (f i x) as [[]|]; cbn; [tauto|]. split; [done|by intros []].
Qed.

Lemma all_ok_intro {A} (f : Z -> A -> outcome unit) (P : A -> Prop) l :
  (forall i x, P x -> f i x = Ok tt) -> Forall P l -> forall i, all_ok f i l = Ok tt.
Proof.
  intros Hf. induction 1 as [|x l Hx _ IH]; intros i; [done|]. cbn. rewrite Hf by done. apply IH.
Qed.

Lemma fail_when_Ok b : fail_when b = Ok tt <-> b = false.
Proof. by destruct b. Qed.

Lemma neq_type_false a b : neq_type a b = false <-> a = b.
Proof. unfold neq_type. rewrite negb_false_iff, bool_decide_eq_true. done. Qed.

(** The checks that make a check that passes. *)
Ltac inv_checks H :=
  lazymatch type of H with
  | obind _ _ = Ok _ =>
      let t := fresh "t" in let H1 := fresh "Hchk" in
      apply bind_Ok_inv in H as (t & H1 & H); lazymatch type of t with unit => destruct t | _ => idtac end;
      inv_checks H1; inv_checks H
  | fail_when _ = Ok _ => apply fail_when_Ok in H; inv_checks H
  | (_ || _) = false => let H1 := fresh "Hchk" in apply orb_false_iff in H as [H1 H]; inv_checks H1; inv_checks H
  | neq_type _ _ = false => apply neq_type_false in H; try subst
  | bool_decide _ = false => apply bool_decide_eq_false in H
  | _ => idtac
  end.

Create HintDb still.

(** ** More temporaries *)

Section Weakening.
Context (env ext : IRTypeEnv) (counts more : list Z) (ty : IRType).

Lemma useBeforeDef_Temp_still t :
  still (useBeforeDef_Temp env t counts) (useBeforeDef_Temp (env ++ ext) t (counts ++ more)).
Proof.
  unfold useBeforeDef_Temp. apply still_bind; [|intros _; apply still_bind; [apply rd_app_still|done]].
  intros []. rewrite !fail_when_Ok, !orb_false_iff, !Z.leb_gt, length_app. lia.
Qed.

#[local] Hint Resolve typeOfIRTemp_still typeOfIRExpr_still useBeforeDef_Temp_still : still.

(** Two checks of the same shape. *)
Ltac still := repeat first
  [ reflexivity
  | by auto with still
  | match goal with
    | |- still (obind _ _) _ => apply still_bind; [|intros]
    | |- still (all_ok _ _ _) _ => apply still_all_ok
    | H : Forall _ ?l |- Forall _ ?l => apply (Forall_impl _ _ _ H); intros
    | |- Forall _ _ => apply Forall_forall; intros
    | |- forall _ : Z, _ => intros
    | |- still (match ?x with _ => _ end) _ => destruct x
    end ].

Lemma useBeforeDef_Expr_still e :
  still (useBeforeDef_Expr env e counts) (useBeforeDef_Expr (env ++ ext) e (counts ++ more)).
Proof. induction e using IRExpr_nested_ind; cbn; still.  Qed.
#[local] Hint Resolve useBeforeDef_Expr_still : still.

Lemma useBeforeDef_Stmt_still st :
  still (useBeforeDef_Stmt env st counts) (useBeforeDef_Stmt (env ++ ext) st (counts ++ more)).
Proof. destruct st; cbn; unfold useBeforeDef_opt; still. Qed.

Lemma tcExpr_still e : still (tcExpr env ty e) (tcExpr (env ++ ext) ty e).
Proof. induction e using IRExpr_nested_ind; cbn; still. Qed.
#[local] Hint Resolve tcExpr_still : still.

Lemma dirty_args_still retTy l : forall i v g,
  still (dirty_args env retTy i v g l) (dirty_args (env ++ ext) retTy i v g l).
Proof. induction l as [|e l IH]; intros i v g; cbn; still. Qed.
#[local] Hint Resolve dirty_args_still : still.

Lemma tcStmt_still st : still (tcStmt env ty st) (tcStmt (env ++ ext) ty st).
Proof. destruct st; cbn; unfold tc_CAS, tc_CAS_half, tc_LLSC, tc_Dirty; still. Qed.
End Weakening.

(** ** Assignments *)

(** The counts a check that passes leaves. *)
Lemma assignedOnce_Temp_inv t counts n counts' :
  assignedOnce_Temp t counts n = Ok counts' ->
  0 <= t < n /\ exists v, rd counts t = Ok v /\ v <= 0 /\ - 2 ^ 31 <= v + 1
    /\ counts' = <[Z.to_nat t := v + 1]> counts.
Proof.
  unfold assignedOnce_Temp. destruct ((t <? 0) || (n <=? t)) eqn:Ht; [done|]. cbn.
  intros (v & Hv & (w & Hw & H)%bind_Ok_inv)%bind_Ok_inv. zbool. split; [lia|]. exists v.
  revert Hw. unfold int_add. destruct (_ && _) eqn:Hadd; [|done]. intros [= <-]. zbool.
  destruct (rd_inv _ _ _ Hv) as [Hin _]. rewrite wr_in in H by done. cbn in H.
  destruct (Z.ltb_spec 1 (v + 1)); [done|]. cbn in H. injection H as <-. split_and!; (done || lia).
Qed.

Lemma assignedOnce_Temp_intro t counts n v :
  0 <= t < n -> rd counts t = Ok v -> v <= 0 -> - 2 ^ 31 <= v + 1 ->
  assignedOnce_Temp t counts n = Ok (<[Z.to_nat t := v + 1]> counts).
Proof.
  intros Ht Hv H0 Hlo. unfold assignedOnce_Temp.
  destruct (Z.ltb_spec t 0), (Z.leb_spec n t); try lia. cbn. rewrite Hv. cbn.
  rewrite int_add_ok by lia. cbn. destruct (rd_inv _ _ _ Hv). rewrite wr_in by done. cbn.
  by destruct (Z.ltb_spec 1 (v + 1)); [lia|].
Qed.

Lemma assignedOnce_Temp_more t counts more n n' counts' :
  n <= n' -> assignedOnce_Temp t counts n = Ok counts' ->
  assignedOnce_Temp t (counts ++ more) n' = Ok (counts' ++ more).
Proof.
  intros Hn (Ht & v & Hv & H0 & Hlo & ->)%assignedOnce_Temp_inv.
  rewrite (assignedOnce_Temp_intro _ _ _ v) by first [lia | by apply rd_app_still].
  apply rd_inv in Hv as [Hin _]. by rewrite insert_app_l by lia.
Qed.

Lemma assignedOnce_Stmt_more st counts more n n' counts' :
  n <= n' -> assignedOnce_Stmt st counts n = Ok counts' ->
  assignedOnce_Stmt st (counts ++ more) n' = Ok (counts' ++ more).
Proof.
  intros Hn. destruct st as [| | | | | | | | |cas| |d| |]; cbn; try congruence;
    try by apply assignedOnce_Temp_more.
  - destruct (oldHi cas =? IRTemp_INVALID); cbn; [by apply assignedOnce_Temp_more|].
    intros (c1 & H1 & H2)%bind_Ok_inv. rewrite (assignedOnce_Temp_more _ _ _ _ _ _ Hn H1). cbn.
    by apply (assignedOnce_Temp_more _ _ _ _ _ _ Hn).
  - destruct (tmp d =? IRTemp_INVALID); cbn; [congruence|]. by apply assignedOnce_Temp_more.
Qed.

(** What has been assigned stays assigned. *)
Definition grows (counts counts' : list Z) : Prop :=
  forall t v, rd counts t = Ok v -> exists v', rd counts' t = Ok v' /\ v <= v'.

#[export] Instance grows_preorder : PreOrder grows.
Proof.
  split; [by intros c t v Hv; exists v|]. intros c1 c2 c3 H1 H2 t v Hv.
  destruct (H1 _ _ Hv) as (v2 & Hv2 & ?). destruct (H2 _ _ Hv2) as (v3 & Hv3 & ?).
  exists v3. split; [done|lia].
Qed.

Lemma grows_app counts more : grows counts (counts ++ more).
Proof. intros t v Hv. exists v. split; [by apply rd_app_still|done]. Qed.

Lemma assignedOnce_Temp_grows t counts n counts' :
  assignedOnce_Temp t counts n = Ok counts' -> grows counts counts' /\ length counts' = length counts.
Proof.
  intros (Ht & v & Hv & _ & _ & ->)%assignedOnce_Temp_inv. split; [|by rewrite length_insert].
  intros u w [Hu Hw]%rd_inv. apply rd_inv in Hv as [_ Hv]. destruct (decide (u = t)) as [->|Hne].
  - exists (v + 1). rewrite Hv in Hw. injection Hw as <-. split; [|lia].
    apply rd_Some; [lia|]. apply list_lookup_insert_eq. lia.
  - exists w. split; [|done]. apply rd_Some; [lia|]. rewrite list_lookup_insert_ne by lia. done.
Qed.

Lemma assignedOnce_Stmt_grows st counts n counts' :
  assignedOnce_Stmt st counts n = Ok counts' -> grows counts counts' /\ length counts' = length counts.
Proof.
  destruct st as [| | | | | | | | |cas| |d| |]; cbn; try (by intros [= <-]);
    try by apply assignedOnce_Temp_grows.
  - intros (c1 & H1 & [Hg2 Hl2]%assignedOnce_Temp_grows)%bind_Ok_inv.
    assert (grows counts c1 /\ length c1 = length counts) as [Hg1 Hl1].
    { destruct (oldHi cas =? IRTemp_INVALID); cbn in H1; [by injection H1 as <-|].
      by apply assignedOnce_Temp_grows in H1. }
    split; [by etrans|congruence].
  - destruct (tmp d =? IRTemp_INVALID); cbn; [by intros [= <-]|]. apply assignedOnce_Temp_grows.
Qed.

(** ** Statement by statement *)

(** [st] passes every check where [counts] tells what is assigned, and leaves
    [counts']. *)
Record sane_stmt (ty : IRType) (env : IRTypeEnv) (counts : list Z) (st : IRStmt) (counts' : list Z)
  : Prop := mk_sane_stmt {
  sane_flat : isFlatIRStmt st = Ok true;
  sane_uses : useBeforeDef_Stmt env st counts = Ok tt;
  sane_sets : assignedOnce_Stmt st counts (Z.of_nat (length env)) = Ok counts';
  sane_types : tcStmt env ty st = Ok tt
}.

Inductive sane_stmts (ty : IRType) (env : IRTypeEnv) : list Z -> list IRStmt -> list Z -> Prop :=
| sane_nil counts : sane_stmts ty env counts [] counts
| sane_cons counts st counts1 sts counts' :
    sane_stmt ty env counts st counts1 -> sane_stmts ty env counts1 sts counts' ->
    sane_stmts ty env counts (st :: sts) counts'.

Lemma sane_app ty env counts l1 counts1 l2 counts' :
  sane_stmts ty env counts l1 counts1 -> sane_stmts ty env counts1 l2 counts' ->
  sane_stmts ty env counts (l1 ++ l2) counts'.
Proof. induction 1; [done|]. intros H2. econstructor; eauto. Qed.

Lemma sane_one ty env counts st counts' :
  sane_stmt ty env counts st counts' -> sane_stmts ty env counts [st] counts'.
Proof. intros H. econstructor; [exact H|constructor]. Qed.

Lemma sane_split ty env counts l1 l2 counts' :
  sane_stmts ty env counts (l1 ++ l2) counts' ->
  exists counts1, sane_stmts ty env counts l1 counts1 /\ sane_stmts ty env counts1 l2 counts'.
Proof.
  revert counts. induction l1 as [|st l1 IH]; intros counts; cbn.
  - exists counts. split; [constructor|done].
  - inversion_clear 1 as [|? ? ? ? ? Hst Hsts]. destruct (IH _ Hsts) as (c & H1 & H2).
    exists c. split; [by econstructor|done].
Qed.

Lemma sane_stmt_more ty env ext counts more st counts' :
  sane_stmt ty env counts st counts' ->
  sane_stmt ty (env ++ ext) (counts ++ more) st (counts' ++ more).
Proof.
  intros [Hf Hu Hs Ht]. split; [done|by apply useBeforeDef_Stmt_still| |by apply tcStmt_still].
  eapply assignedOnce_Stmt_more; [|exact Hs]. rewrite length_app. lia.
Qed.

Lemma sane_stmts_more ty env ext counts more sts counts' :
  sane_stmts ty env counts sts counts' ->
  sane_stmts ty (env ++ ext) (counts ++ more) sts (counts' ++ more).
Proof. induction 1; [constructor|]. econstructor; [by apply sane_stmt_more|done]. Qed.

Lemma sane_stmts_grows ty env counts sts counts' :
  sane_stmts ty env counts sts counts' -> grows counts counts' /\ length counts' = length counts.
Proof.
  induction 1 as [|counts st counts1 sts counts' Hst _ [Hg Hl]]; [done|].
  destruct (assignedOnce_Stmt_grows _ _ _ _ (sane_sets _ _ _ _ _ Hst)). split; [by etrans|congruence].
Qed.

Lemma sane_stmts_iff ty env sts : forall counts counts',
  sane_stmts ty env counts sts counts' <->
  Forall (fun st => isFlatIRStmt st = Ok true) sts
  /\ check_temps env sts counts (Z.of_nat (length env)) = Ok counts'
  /\ Forall (fun st => tcStmt env ty st = Ok tt) sts.
Proof.
  induction sts as [|st sts IH]; intros counts counts'.
  { split; [inversion 1; subst; done|]. intros (_ & [= <-] & _). constructor. }
  split.
  - inversion_clear 1 as [|? ? ? ? ? [Hf Hu Hs Ht] Hsts]. apply IH in Hsts as (Hfs & Hc & Hts).
    split_and!; [by constructor| |by constructor]. cbn. rewrite Hu. cbn. rewrite Hs. exact Hc.
  - cbn. intros (Hf & Hc & Ht). apply Forall_cons in Hf as [Hf Hfs], Ht as [Ht Hts].
    destruct (useBeforeDef_Stmt env st counts) as [[]|] eqn:Hu; [|done]. cbn in Hc.
    apply bind_Ok_inv in Hc as (counts1 & Hs & Hc). apply (sane_cons _ _ _ _ counts1); [done|].
    apply IH. done.
Qed.

(** No value of the model is outside the enumeration of types. *)
Lemma plausible_ok env :
  all_ok (fun _ i => let* ty := typeOfIRTemp env i in fail_when (negb (isPlausibleIRType ty))) 0
    (seqZ 0 (Z.of_nat (length env))) = Ok tt.
Proof.
  apply (all_ok_iff _ (fun i => 0 <= i < Z.of_nat (length env))).
  - intros _ i. unfold typeOfIRTemp.
    destruct (Z.leb_spec 0 i); cbn; [|split; [done|lia]].
    destruct (Z.ltb_spec i (Z.of_nat (length env))); cbn; [|split; [done|lia]].
    destruct (rd_is_ok env i) as (ty & _ & ->); [done|]. cbn. by destruct ty.
  - apply Forall_forall. intros i Hi. by apply elem_of_seqZ in Hi.
Qed.

(** The check of a block, as facts. *)
Definition sane (ty : IRType) (bb : IRSB) (counts : list Z) : Prop :=
  sane_stmts ty (tyenv bb) (replicate (length (tyenv bb)) 0) (stmts bb) counts
  /\ isIRAtom (IR.next bb) = true /\ typeOfIRExpr (tyenv bb) (IR.next bb) = Ok ty /\ 16 <= sb_offsIP bb.

Lemma sanityCheckIRSB_iff ty bb : ty = Ity_I32 \/ ty = Ity_I64 ->
  sanityCheckIRSB bb true ty = Ok tt <-> exists counts, sane ty bb counts.
Proof.
  intros Hty. unfold sanityCheckIRSB, sane.
  rewrite assert_that_true by (destruct Hty as [-> | ->]; done). cbn [obind]. rewrite plausible_ok. cbn [obind].
  setoid_rewrite sane_stmts_iff. set (env := tyenv bb). set (n := Z.of_nat (length env)).
  assert (Hflat : all_ok (fun _ stmt => let* flat := isFlatIRStmt stmt in fail_when (negb flat)) 0 (stmts bb) = Ok tt
    <-> Forall (fun st => isFlatIRStmt st = Ok true) (stmts bb)).
  { apply all_ok_iff. intros _ st. by destruct (isFlatIRStmt st) as [[]|]. }
  assert (Htc : all_ok (fun _ stmt => tcStmt env ty stmt) 0 (stmts bb) = Ok tt
    <-> Forall (fun st => tcStmt env ty st = Ok tt) (stmts bb)) by (by apply all_ok_iff).
  setoid_rewrite <-Hflat. setoid_rewrite <-Htc. destruct (all_ok _ 0 (stmts bb)) as [[]|]; cbn; [|naive_solver].
  destruct (isIRAtom (IR.next bb)); cbn; [|naive_solver].
  destruct (check_temps env (stmts bb) _ n) as [counts|]; cbn; [|naive_solver].
  destruct (all_ok _ 0 (stmts bb)) as [[]|]; cbn; [|naive_solver].
  destruct (typeOfIRExpr env (IR.next bb)) as [ty'|]; cbn; [|naive_solver].
  unfold neq_type. destruct (decide (ty' = ty)) as [->|Hne].
  - rewrite bool_decide_true by done. cbn. rewrite fail_when_Ok, Z.ltb_ge. naive_solver.
  - rewrite bool_decide_false by done. cbn. naive_solver.
Qed.

(** ** Operands of helper calls *)

(** An atom in scope that may be an argument: its type is not that of bits. *)
Record usable (env : IRTypeEnv) (counts : list Z) (e : IRExpr) : Prop := mk_usable {
  usable_atom : isIRAtom e = true;
  usable_def : useBeforeDef_Expr env e counts = Ok tt;
  usable_type : exists t, typeOfIRExpr env e = Ok t /\ t <> Ity_I1
}.

Lemma atom_def_grows env counts counts' e : isIRAtom e = true -> grows counts counts' ->
  useBeforeDef_Expr env e counts = Ok tt -> useBeforeDef_Expr env e counts' = Ok tt.
Proof.
  intros Ha Hg. destruct e as [| | |t| | | | | | | | | |]; try done. cbn. unfold useBeforeDef_Temp.
  destruct (fail_when _) as [[]|]; [|done]. cbn. intros (v & Hv & Hw)%bind_Ok_inv.
  destruct (Hg _ _ Hv) as (v' & -> & Hle). cbn. rewrite fail_when_Ok, Z.ltb_ge in *. lia.
Qed.

Lemma usable_grows env ext counts counts' e :
  grows counts counts' -> usable env counts e -> usable (env ++ ext) counts' e.
Proof.
  intros Hg [Ha Hd (t & Ht & Hne)]. split; [done| |exists t; split; [by apply typeOfIRExpr_still|done]].
  apply (atom_def_grows _ counts); [done|done|].
  rewrite <-(app_nil_r counts). by apply useBeforeDef_Expr_still.
Qed.

Lemma usable_HWord env counts x : usable env counts (mkIRExpr_HWord x).
Proof. split; [done|done|]. by exists Ity_I64. Qed.

Definition event_operand (ev : Event) : option IRExpr :=
  match tag ev with
  | Ev_IrNoX | Ev_IrGen => None
  | Ev_Dr ea _ | Ev_Dw ea _ | Ev_Dm ea _ => Some ea
  | Ev_Bc e | Ev_Bi e => Some e
  end.

Definition event_sane (env : IRTypeEnv) (counts : list Z) (ev : Event) : Prop :=
  forall e, event_operand ev = Some e -> usable env counts e.

Lemma event_sane_grows env ext counts counts' ev :
  grows counts counts' -> event_sane env counts ev -> event_sane (env ++ ext) counts' ev.
Proof. intros Hg Hev e He. eapply usable_grows; eauto. Qed.

(** ** Helper calls *)

Lemma dirty_args_ok env counts l : Forall (usable env counts) l ->
  forall i, i + Z.of_nat (length l) <= 32 -> dirty_args env Ity_INVALID i 0 0 l = Ok 0.
Proof.
  induction 1 as [|e l [Ha _ (t & Ht & Hne)] _ IH]; intros i Hi; [done|]. cbn [length] in Hi. cbn [dirty_args].
  destruct (Z.leb_spec 32 i); [lia|]. cbn [fail_when obind].
  assert (E : typeOfIRExpr env e = Ok t -> forall A (k : IRType -> outcome A), obind (typeOfIRExpr env e) k = k t)
    by (by intros ->).
  destruct e; try done; rewrite (E Ht), bool_decide_false by done; cbn; apply IH; lia.
Qed.

Definition helper_stmt (k : Z) (h : string) (g : IRExpr) (l : list IRExpr) : IRStmt :=
  Ist_Dirty (mk_IRDirty (mk_IRCallee k h h 0) g l IRTemp_INVALID Ifx_None None 0 []).

Lemma sane_call ty env counts k h g l :
  0 <= k <= 3 -> k <= Z.of_nat (length l) <= 32 -> Forall (usable env counts) l ->
  isIRAtom g = true -> tcExpr env ty g = Ok tt -> typeOfIRExpr env g = Ok Ity_I1 ->
  sane_stmt ty env counts (helper_stmt k h g l) counts.
Proof.
  intros Hk Hlen Hl Hatom Htc Hg. split; [| |done|].
  - cbn. rewrite Hatom, !andb_true_r. cbn. f_equal. apply forallb_forall. intros e He.
    rewrite Forall_forall in Hl. destruct (Hl e) as [Ha _ _]; [by apply list_elem_of_In|].
    unfold isIRAtom_or_VECRET_or_GSPTR. by rewrite Ha.
  - cbn. rewrite (all_ok_intro _ (usable env counts)); [done| |done].
    intros _ e [Ha Hd _]. by destruct e.
  - cbn [tcStmt helper_stmt]. unfold tc_Dirty, saneIRCallee, countArgs. cbn [cee regparms args mFx mAddr mSize
      fxState guard tmp]. destruct (Z.ltb_spec k 0), (Z.ltb_spec 3 k); try lia. cbn.
    destruct (Z.ltb_spec (Z.of_nat (length l)) k); [lia|]. cbn. rewrite Htc. cbn. rewrite Hg. cbn.
    rewrite (dirty_args_ok _ counts) by (done || lia). done.
Qed.

Lemma unsafeIRDirty_ok k h l : 0 <= k <= 3 ->
  unsafeIRDirty_0_N k h h l
  = Ok (mk_IRDirty (mk_IRCallee k h h 0) (Iex_Const (Ico_U1 1)) l IRTemp_INVALID Ifx_None None 0 []).
Proof.
  intros Hk. unfold unsafeIRDirty_0_N, mkIRCallee.
  destruct (Z.leb_spec 0 k), (Z.leb_spec k 3); try lia. done.
Qed.

(** An operand that may be written to a new temporary. *)
Lemma sane_new_temp ty env counts t data : length counts = length env ->
  isFlatIRStmt (Ist_WrTmp 0 data) = Ok true -> useBeforeDef_Expr env data counts = Ok tt ->
  tcExpr env ty data = Ok tt -> typeOfIRExpr env data = Ok t ->
  sane_stmt ty (env ++ [t]) (counts ++ [0]) (Ist_WrTmp (Z.of_nat (length env)) data) (counts ++ [1]).
Proof.
  intros Hl Hf Hu Htc Ht. split; [done|by apply useBeforeDef_Expr_still| |].
  - cbn [assignedOnce_Stmt]. rewrite (assignedOnce_Temp_intro _ _ _ 0); try lia.
    + f_equal. rewrite Nat2Z.id, <-Hl, insert_app_r_alt by lia. by rewrite Nat.sub_diag.
    + rewrite length_app. cbn. lia.
    + rewrite rd_lookup, <-Hl, lookup_app_r by lia. by rewrite Nat.sub_diag.
  - cbn. rewrite (tcExpr_still _ [t] ty data tt Htc). cbn. rewrite (typeOfIRExpr_still _ [t] data t Ht).
    unfold typeOfIRTemp. rewrite assert_that_true by (apply Z.leb_le; lia). cbn.
    rewrite assert_that_true by (apply Z.ltb_lt; rewrite length_app; cbn; lia). cbn.
    rewrite rd_lookup, lookup_app_r, Nat.sub_diag by lia. cbn. unfold neq_type. by rewrite bool_decide_true.
Qed.

(** The operands of a call, one by one. *)
Ltac operands := repeat (apply Forall_cons; split); try apply Forall_nil; try apply usable_HWord; eauto.

Section Flush.
Context (conf : options) (ty : IRType) (env : IRTypeEnv) (counts : list Z).

Definition call_sane (k : Z) (argv : list IRExpr) (rest : list Event) : Prop :=
  0 <= k <= 3 /\ k <= Z.of_nat (length argv) <= 32
  /\ Forall (usable env counts) argv /\ Forall (event_sane env counts) rest.

Lemma flush_call_sane ev rest k h argv rest' :
  flush_call conf ev rest = Ok (k, h, argv, rest') ->
  event_sane env counts ev -> Forall (event_sane env counts) rest -> call_sane k argv rest'.
Proof.
  intros Hc Hev Hrest. pose proof (fun e => Hev e) as Hop.
  destruct ev as [[] n]; cbn in Hc, Hop;
    try (injection Hc as <- <- <- <-; split_and!; cbn; try lia; operands; fail).
  destruct rest as [|ev2 rest]; [injection Hc as <- <- <- <-; split_and!; cbn; try lia; operands|].
  pose proof Hrest as [Hev2 Hrest2]%Forall_cons. pose proof (fun e => Hev2 e) as Hop2.
  destruct ev2 as [[] n2]; cbn in Hc, Hop2; try (destruct (n2 =? n) in Hc; [|discriminate Hc]);
    try (injection Hc as <- <- <- <-; split_and!; cbn; try lia; operands; fail).
  destruct rest as [|ev3 rest]; [injection Hc as <- <- <- <-; split_and!; cbn; try lia; operands|].
  pose proof Hrest2 as [Hev3 Hrest3]%Forall_cons.
  destruct ev3 as [[] n3]; injection Hc as <- <- <- <-; split_and!; cbn; try lia; operands.
Qed.

Lemma flush_loop_sane fuel evs out out' :
  flush_loop conf fuel evs out = Ok out' -> Forall (event_sane env counts) evs ->
  exists calls, out' = out <| stmts := stmts out ++ calls |> /\ sane_stmts ty env counts calls counts.
Proof.
  revert evs out. induction fuel as [|fuel IH]; intros [|ev rest] out; cbn [flush_loop]; try done.
  1, 2: intros [= <-] _; exists []; split; [destruct out; unfold set_field; cbn; by rewrite app_nil_r|constructor].
  intros ([[[k h] argv] rest'] & Hc & H)%bind_Ok_inv [Hev Hrest]%Forall_cons.
  destruct (flush_call_sane _ _ _ _ _ _ Hc Hev Hrest) as (Hk & Hlen & Hargs & Hrest').
  rewrite unsafeIRDirty_ok in H by done. cbn [obind] in H.
  destruct (IH _ _ H Hrest') as (calls & -> & Hcalls). exists (helper_stmt k h (Iex_Const (Ico_U1 1)) argv :: calls).
  split; [destruct out; unfold addStmtToIRSB, set_field; cbn; by rewrite <-app_assoc|].
  apply sane_cons with counts; [|done]. by apply sane_call.
Qed.
End Flush.

(** ** The invariant of instrumentation *)

Section Instrumented.
Context (conf : options) (sb : IRSB) (ty : IRType).

(** Every temporary that has been added is assigned. *)
Definition with_new (counts : list Z) (ext : IRTypeEnv) : list Z := counts ++ replicate (length ext) 1.

Lemma with_new_snoc counts ext t : with_new counts (ext ++ [t]) = with_new counts ext ++ [1].
Proof. unfold with_new. by rewrite length_app, replicate_add, app_assoc. Qed.

Lemma with_new_length counts ext : length counts = length (tyenv sb) ->
  length (with_new counts ext) = length (tyenv sb ++ ext).
Proof. unfold with_new. rewrite !length_app, length_replicate. lia. Qed.

(** The code added passes the check, and leaves [counts] for the temporaries of
    the block; the operands of the events are in scope. *)
Record passes_with (ext : IRTypeEnv) (counts : list Z) (c : CgState) : Prop := mk_passes {
  pw_env : tyenv (sbOut c) = tyenv sb ++ ext;
  pw_length : length counts = length (tyenv sb);
  pw_code : sane_stmts ty (tyenv sb ++ ext) (replicate (length (tyenv sb ++ ext)) 0) (stmts (sbOut c))
              (with_new counts ext);
  pw_queue : Forall (event_sane (tyenv sb ++ ext) (with_new counts ext)) (events c);
  pw_next : IR.next (sbOut c) = IR.next sb;
  pw_offsIP : sb_offsIP (sbOut c) = sb_offsIP sb
}.

Definition passes (counts : list Z) (c : CgState) : Prop := exists ext, passes_with ext counts c.

(** An operand of a statement of the block. *)
Lemma operand_usable ext counts e :
  usable (tyenv sb) counts e -> usable (tyenv sb ++ ext) (with_new counts ext) e.
Proof. apply usable_grows, grows_app. Qed.

Lemma passes_stmts ext counts c calls :
  passes_with ext counts c -> sane_stmts ty (tyenv sb ++ ext) (with_new counts ext) calls (with_new counts ext) ->
  passes_with ext counts (c <| sbOut := (sbOut c) <| stmts := stmts (sbOut c) ++ calls |> |>).
Proof. intros [He Hl Hc Hq Hn Ho] Hcalls. split; try done. by eapply sane_app. Qed.

Lemma passes_events ext counts c evs :
  passes_with ext counts c -> Forall (event_sane (tyenv sb ++ ext) (with_new counts ext)) evs ->
  passes_with ext counts (c <| events := evs |>).
Proof. intros [He Hl Hc Hq Hn Ho] Hevs. by split. Qed.

Lemma flushEvents_passes ext counts c c' :
  passes_with ext counts c -> flushEvents conf c = Ok c' ->
  passes_with ext counts c' /\ events c' = [].
Proof.
  intros Hp (out & Hout & [= <-])%bind_Ok_inv. split; [|done].
  destruct (flush_loop_sane conf ty _ _ _ _ _ _ Hout (pw_queue _ _ _ Hp)) as (calls & -> & Hcalls).
  apply (passes_events _ _ (c <| sbOut := (sbOut c) <| stmts := stmts (sbOut c) ++ calls |> |>)); [|done].
  by apply passes_stmts.
Qed.

Lemma make_room_passes ext counts c c' :
  passes_with ext counts c -> make_room conf c = Ok c' -> passes_with ext counts c'.
Proof.
  intros Hp (c1 & H1 & H2)%bind_Ok_inv.
  assert (passes_with ext counts c1).
  { destruct (_ =? _) in H1; [by eapply flushEvents_passes|by injection H1 as <-]. }
  destruct (_ && _) in H2; [by injection H2 as <-|done].
Qed.

Lemma push_event_passes ext counts c ev :
  passes_with ext counts c -> event_sane (tyenv sb ++ ext) (with_new counts ext) ev ->
  passes_with ext counts (push_event c ev).
Proof.
  intros Hp Hev. apply passes_events; [done|]. apply Forall_app. split; [apply (pw_queue _ _ _ Hp)|by constructor].
Qed.

Lemma append_event_passes ext counts c ev c' :
  passes_with ext counts c -> event_sane (tyenv sb ++ ext) (with_new counts ext) ev ->
  append_event conf c ev = Ok c' -> passes_with ext counts c'.
Proof.
  intros Hp Hev (c1 & H1 & [= <-])%bind_Ok_inv. apply push_event_passes; [|done]. by eapply make_room_passes.
Qed.

(** ** Adding events *)

Lemma addEvent_Dr_passes counts c n szB ea c' :
  passes counts c -> usable (tyenv sb) counts ea -> addEvent_Dr conf c n szB ea = Ok c' -> passes counts c'.
Proof.
  intros [ext Hp] He. unfold addEvent_Dr. destruct (isIRAtom ea), (size_ok conf szB); cbn; try done.
  destruct (clo_cache_sim conf); cbn; intros H; [|injection H as <-; by exists ext].
  exists ext. apply (append_event_passes _ _ _ _ _ Hp) in H; [done|]. intros e [= <-]. by apply operand_usable.
Qed.

Lemma Forall_removelast {A} (P : A -> Prop) l : Forall P l -> Forall P (removelast l).
Proof. induction 1 as [|x [|y l] Hx Hl IH]; cbn; [done|done|]. by constructor. Qed.

Lemma addEvent_Dw_passes counts c n szB ea c' :
  passes counts c -> usable (tyenv sb) counts ea -> addEvent_Dw conf c n szB ea = Ok c' -> passes counts c'.
Proof.
  intros [ext Hp] He. unfold addEvent_Dw. destruct (isIRAtom ea), (size_ok conf szB); cbn; try done.
  destruct (clo_cache_sim conf); cbn; intros H; [|injection H as <-; by exists ext]. exists ext.
  assert (Happend : append_event conf c (mk_Event (Ev_Dw ea szB) n) = Ok c' -> passes_with ext counts c').
  { apply append_event_passes; [done|]. intros e [= <-]. by apply operand_usable. }
  apply bind_Ok_inv in H as (merge & _ & H).
  destruct (last (events c)) as [[[] n']|] eqn:Hlast, merge; try by apply Happend.
  injection H as <-. apply passes_events; [done|].
  pose proof (pw_queue _ _ _ Hp) as Hq. apply Forall_app. split; [by apply Forall_removelast|].
  constructor; [|constructor]. rewrite Forall_forall in Hq. intros e [= <-].
  eapply (Hq _ (last_Some_elem_of _ _ Hlast)). done.
Qed.

Lemma addEvent_D_guarded_passes counts c n szB ea g isWrite c' :
  passes counts c -> usable (tyenv sb) counts ea ->
  tcExpr (tyenv sb) ty g = Ok tt -> typeOfIRExpr (tyenv sb) g = Ok Ity_I1 ->
  addEvent_D_guarded conf c n szB ea g isWrite = Ok c' -> passes counts c'.
Proof.
  intros [ext Hp] He Htc Hg. unfold addEvent_D_guarded.
  destruct (isIRAtom ea), (isIRAtom g) eqn:Hatom, (size_ok conf szB); cbn; try done.
  destruct (clo_cache_sim conf); cbn; intros H; [|injection H as <-; by exists ext]. exists ext.
  apply bind_Ok_inv in H as (c1 & H1 & H). destruct (flushEvents_passes _ _ _ _ Hp H1) as [Hp1 Hnil].
  unfold events_used in H. rewrite Hnil in H. cbn in H. injection H as <-.
  apply (passes_stmts _ _ _ [helper_stmt 3 _ g _] Hp1), sane_one, sane_call;
    [lia|cbn; lia| |done|by apply tcExpr_still|by apply typeOfIRExpr_still].
  operands. by apply operand_usable.
Qed.

(** The events of branches differ in their tags only. *)
Lemma branch_event_passes (mk : IRExpr -> EventTag) ext counts c n e c' :
  event_operand (mk_Event (mk e) n) = Some e ->
  passes_with ext counts c -> useBeforeDef_Expr (tyenv sb ++ ext) e (with_new counts ext) = Ok tt ->
  (let* _ := assert_that (isIRAtom e) in
   let* t := typeOfIRExpr (tyenv (sbOut c)) e in
   let* _ := assert_that (bool_decide (t = word_type)) in
   if negb (clo_branch_sim conf) then Ok c else append_event conf c (mk_Event (mk e) n)) = Ok c' ->
  passes_with ext counts c'.
Proof.
  intros Hmk Hp Hd. rewrite (pw_env _ _ _ Hp).
  destruct (isIRAtom e) eqn:Ha; [|done]. cbn. intros (t & Ht & H)%bind_Ok_inv.
  destruct (decide (t = word_type)) as [->|]; [|by rewrite bool_decide_false in H].
  rewrite bool_decide_true in H by done. destruct (clo_branch_sim conf); cbn in H; [|by injection H as <-].
  apply (append_event_passes _ _ _ _ _ Hp) in H; [done|].
  intros e' He'. rewrite Hmk in He'. injection He' as <-. split; [done|done|]. by exists word_type.
Qed.

(** ** The guard of a side exit *)

Lemma passes_new_temp ext counts c t data :
  passes_with ext counts c -> isFlatIRStmt (Ist_WrTmp 0 data) = Ok true ->
  useBeforeDef_Expr (tyenv sb ++ ext) data (with_new counts ext) = Ok tt ->
  tcExpr (tyenv sb ++ ext) ty data = Ok tt -> typeOfIRExpr (tyenv sb ++ ext) data = Ok t ->
  passes_with (ext ++ [t]) counts
    (c <| sbOut := addStmtToIRSB ((sbOut c) <| tyenv := tyenv (sbOut c) ++ [t] |>)
                     (Ist_WrTmp (Z.of_nat (length (tyenv (sbOut c)))) data) |>).
Proof.
  intros [He Hl Hc Hq Hn Ho] Hf Hu Htc Ht.
  pose proof (with_new_snoc counts ext t) as Hnew. split; try done.
  - cbn. by rewrite He, app_assoc.
  - rewrite Hnew, app_assoc, (length_app (_ ++ ext)), replicate_add. cbn [sbOut set_field].
    eapply sane_app; [by apply sane_stmts_more|]. apply sane_one. rewrite He. apply sane_new_temp; try done.
    by apply with_new_length.
  - rewrite Hnew, app_assoc. apply (Forall_impl _ _ _ Hq). intros ev. apply event_sane_grows, grows_app.
Qed.

(** The operators of the guard of a side exit. *)
Lemma widen_type : typeOfPrimop Iop_1Uto64
  = Ok (mk_primop_type Ity_I64 Ity_I1 Ity_INVALID Ity_INVALID Ity_INVALID).
Proof. vm_compute. reflexivity. Qed.
Lemma xor_type : typeOfPrimop Iop_Xor64
  = Ok (mk_primop_type Ity_I64 Ity_I64 Ity_I64 Ity_INVALID Ity_INVALID).
Proof. vm_compute. reflexivity. Qed.

(** The last temporary added. *)
Lemma added_temp_type ext t :
  typeOfIRTemp (tyenv sb ++ ext ++ [t]) (Z.of_nat (length (tyenv sb ++ ext))) = Ok t.
Proof. rewrite app_assoc. apply new_temp_type. Qed.

Lemma new_temp_defined counts ext t : length counts = length (tyenv sb) ->
  useBeforeDef_Temp (tyenv sb ++ ext ++ [t]) (Z.of_nat (length (tyenv sb ++ ext)))
    (with_new counts (ext ++ [t])) = Ok tt.
Proof.
  intros Hl. unfold useBeforeDef_Temp. rewrite app_assoc, (length_app (_ ++ _)), with_new_snoc.
  rewrite (proj2 (fail_when_Ok _)) by (apply orb_false_iff; split; [apply Z.ltb_ge|apply Z.leb_gt]; cbn; lia).
  cbn. rewrite rd_lookup, lookup_app_r; rewrite with_new_length by done; [|done]. by rewrite Nat.sub_diag.
Qed.

(** The guard, widened: with [data] for the last of the three temporaries. *)
Definition with_temp (c : CgState) (t : IRType) (data : IRExpr) : CgState :=
  c <| sbOut := addStmtToIRSB ((sbOut c) <| tyenv := tyenv (sbOut c) ++ [t] |>)
                  (Ist_WrTmp (Z.of_nat (length (tyenv (sbOut c)))) data) |>.

Lemma instrument_branch_passes counts w g dst c' :
  passes counts (cgs w) -> isIRAtom g = true -> useBeforeDef_Expr (tyenv sb) g counts = Ok tt ->
  tcExpr (tyenv sb) ty g = Ok tt -> typeOfIRExpr (tyenv sb) g = Ok Ity_I1 ->
  instrument_branch conf Ity_I64 w g dst = Ok c' -> passes counts c'.
Proof.
  intros [ext Hp] Ha Hu Htc Hg H. pose proof (pw_length _ _ _ Hp) as Hl.
  assert (H1 : passes_with (ext ++ [Ity_I1]) counts (with_temp (cgs w) Ity_I1 g)).
  { apply passes_new_temp; [done|by destruct g|by apply useBeforeDef_Expr_still|by apply tcExpr_still
                           |by apply typeOfIRExpr_still]. }
  set (c1 := with_temp (cgs w) Ity_I1 g) in *. set (n1 := Z.of_nat (length (tyenv (sbOut (cgs w))))).
  assert (H2 : passes_with ((ext ++ [Ity_I1]) ++ [Ity_I64]) counts
                 (with_temp c1 Ity_I64 (Iex_Unop Iop_1Uto64 (Iex_RdTmp n1)))).
  { unfold n1. rewrite (pw_env _ _ _ Hp). apply passes_new_temp; [done|done|by apply new_temp_defined| |];
      cbn; rewrite widen_type; cbn; [by rewrite added_temp_type|done]. }
  set (c2 := with_temp c1 Ity_I64 (Iex_Unop Iop_1Uto64 (Iex_RdTmp n1))) in *.
  set (n2 := Z.of_nat (length (tyenv (sbOut c1)))).
  assert (H3 : forall inverted : bool, passes_with (((ext ++ [Ity_I1]) ++ [Ity_I64]) ++ [Ity_I64]) counts
    (with_temp c2 Ity_I64 (if inverted then Iex_Binop Iop_Xor64 (Iex_RdTmp n2) (Iex_Const (Ico_U64 1))
                           else Iex_RdTmp n2))).
  { unfold n2. rewrite (pw_env _ _ _ H1). intros inverted. apply passes_new_temp; [done|by destruct inverted| | |];
      destruct inverted; cbn; rewrite ?xor_type; cbn; rewrite ?new_temp_defined, ?added_temp_type by done; done. }
  unfold instrument_branch in H. change (bool_decide (Ity_I64 = Ity_I32)) with false in H. cbn [newIRTemp] in H.
  apply bind_Ok_inv in H as (sea & _ & H).
  specialize (H3 (u64 (cia w + isize w) =? sea)). set (c3 := with_temp c2 _ _) in H3.
  exists (((ext ++ [Ity_I1]) ++ [Ity_I64]) ++ [Ity_I64]).
  refine (branch_event_passes Ev_Bc _ _ c3 _ _ _ eq_refl H3 _ H).
  pose proof (pw_env _ _ _ H2) as E. cbn in E |- *. rewrite E. by apply new_temp_defined.
Qed.
End Instrumented.

(** ** The traversal *)

Lemma lift_inv {S A} (m : outcome A) (s : S) a s' : lift m s = Ok (a, s') -> m = Ok a /\ s' = s.
Proof. unfold lift. destruct m; [by intros [= <- <-]|done]. Qed.

(** Take a sequence apart. *)
Ltac sequence H :=
  lazymatch type of H with
  | (_ ≫= _) _ = Ok _ =>
      let a := fresh "a" in let s := fresh "s" in let H1 := fresh "Hm" in
      apply SE_bind_inv in H as (a & s & H1 & H); sequence H1; sequence H
  | lift _ _ = Ok _ => let E := fresh "E" in apply lift_inv in H as [H E]; try subst; sequence H
  | mret _ _ = Ok _ => injection H as H; try subst
  | obind _ _ = Ok _ =>
      let a := fresh "a" in let H1 := fresh "Hm" in
      apply bind_Ok_inv in H as (a & H1 & H); sequence H1; cbn beta iota zeta in H; sequence H
  | Ok _ = Ok _ => injection H as H; try subst
  | _ => idtac
  end.

(** A call that accesses memory takes an address. *)
Definition address_ok (env : IRTypeEnv) (st : IRStmt) : bool :=
  match st with
  | Ist_Dirty d =>
      match mAddr d with
      | Some e => match typeOfIRExpr env e with Ok t => neq_type t Ity_I1 | Err _ => false end
      | None => true
      end
  | _ => true
  end.

Section Traversal.
Context (conf : options) (filename_linenum : Z -> option (string * string * Z)) (fnname : Z -> option string).
Context (sb : IRSB).
#[local] Abbreviation passes := (passes sb Ity_I64).
#[local] Abbreviation T := (tyenv sb).

Lemma word_usable counts e : isIRAtom e = true -> useBeforeDef_Expr T e counts = Ok tt ->
  typeOfIRExpr T e = Ok Ity_I64 -> usable T counts e.
Proof. intros Ha Hu Ht. split; [done|done|]. by exists Ity_I64. Qed.

Lemma addEvent_Ir_passes counts c n s c' s' :
  passes counts c -> addEvent_Ir conf c n s = Ok (c', s') -> passes counts c'.
Proof.
  intros [ext Hp] H. exists ext. unfold addEvent_Ir in H.
  apply SE_bind_inv in H as (c1 & s1 & [H1 ->]%lift_inv & H).
  apply (make_room_passes _ _ _ _ _ _ _ Hp) in H1.
  apply SE_bind_inv in H as (i & s2 & _ & H). apply SE_bind_inv in H as (noX & s3 & _ & H).
  apply SE_bind_inv in H as (s4 & s5 & _ & H).
  destruct noX; apply SE_bind_inv in H as (m & s6 & _ & H); injection H as <- _;
    by apply push_event_passes.
Qed.

(** The address a statement accesses, and its guard. *)
Definition address_of (st : IRStmt) : option IRExpr :=
  match st with
  | Ist_WrTmp _ (Iex_Load _ _ e) | Ist_Store _ e _ | Ist_StoreG _ e _ _ | Ist_LoadG _ _ _ e _ _
  | Ist_LLSC _ _ e _ => Some e
  | Ist_CAS cas => Some (cas_addr cas)
  | Ist_Dirty d => if bool_decide (mFx d = Ifx_None) then None else mAddr d
  | _ => None
  end.

Definition guard_of (st : IRStmt) : option IRExpr :=
  match st with
  | Ist_StoreG _ _ _ g | Ist_LoadG _ _ _ _ _ g | Ist_Exit g _ _ _ => Some g
  | _ => None
  end.

Lemma address_usable counts counts' st e :
  sane_stmt Ity_I64 T counts st counts' -> address_ok T st = true -> address_of st = Some e ->
  usable T counts e.
Proof.
  intros [Hf Hu _ Ht] Ha He. destruct st as [| | | | |t data| | | |cas| |d| |]; try done; cbn in *;
    [destruct data; try done| | | | | |]; cbn in *.
  7: { destruct (bool_decide (mFx d = Ifx_None)); [done|]. rewrite He in *. injection Hf as Hf.
       apply andb_true_iff in Hf as [_ Hf]. apply bind_Ok_inv in Hu as ([] & _ & Hu). split; [done|done|].
       destruct (typeOfIRExpr T e) as [t|]; [|done]. exists t. split; [done|].
       by apply negb_true_iff, bool_decide_eq_false in Ha. }
  all: injection He as <-; injection Hf as Hf; try (unfold tc_CAS, tc_LLSC in Ht).
  all: inv_checks Hu; inv_checks Ht; rewrite ?andb_true_iff in Hf; apply word_usable; tauto.
Qed.

Lemma guard_sane counts counts' st g :
  sane_stmt Ity_I64 T counts st counts' -> guard_of st = Some g ->
  isIRAtom g = true /\ useBeforeDef_Expr T g counts = Ok tt
  /\ tcExpr T Ity_I64 g = Ok tt /\ typeOfIRExpr T g = Ok Ity_I1.
Proof.
  intros [Hf Hu _ Ht] Hg. destruct st; try done; injection Hg as ->; cbn in Hf, Hu, Ht; injection Hf as Hf;
    inv_checks Hu; inv_checks Ht; rewrite ?andb_true_iff in Hf; tauto.
Qed.

Lemma setup_InstrInfo_passes counts c a len s n c' s' :
  passes counts c -> setup_InstrInfo filename_linenum fnname c a len s = Ok ((n, c'), s') -> passes counts c'.
Proof.
  intros [ext [He Hl Hc Hq Hn Ho]] H. unfold setup_InstrInfo in H.
  apply SE_bind_inv in H as ([] & s1 & _ & H). apply SE_bind_inv in H as ([] & s2 & _ & H).
  apply SE_bind_inv in H as (p & s3 & _ & H). apply SE_bind_inv in H as ([] & s4 & _ & H).
  injection H as _ <- _. exists ext. by split.
Qed.

Lemma flush_passes counts c c' : passes counts c -> flushEvents conf c = Ok c' -> passes counts c'.
Proof. intros [ext Hp] H. exists ext. by eapply flushEvents_passes. Qed.

Lemma instrument_Dirty_passes counts w d w' :
  passes counts (cgs w) -> (forall e, address_of (Ist_Dirty d) = Some e -> usable T counts e) ->
  instrument_Dirty conf w d = Ok w' -> passes counts (cgs w').
Proof.
  intros Hp He H. unfold instrument_Dirty in H. cbn in He.
  destruct (bool_decide (mFx d = Ifx_None)); cbn in H.
  { sequence H. done. }
  destruct (mAddr d) as [e|]; [|done]. specialize (He e eq_refl). sequence H. cbn.
  assert (Hp1 : passes counts a0).
  { destruct (_ || _) in Hm0; [by eapply addEvent_Dr_passes|by injection Hm0 as <-]. }
  destruct (_ || _) in Hm1; [by eapply addEvent_Dw_passes|by injection Hm1 as <-].
Qed.

Create HintDb passes.
#[local] Hint Resolve addEvent_Dr_passes addEvent_Dw_passes flush_passes addEvent_Ir_passes
  setup_InstrInfo_passes : passes.

Lemma instrument_stmt_passes counts counts' w st s w' s' :
  passes counts (cgs w) -> sane_stmt Ity_I64 T counts st counts' -> address_ok T st = true ->
  instrument_stmt conf filename_linenum fnname T Ity_I64 w st s = Ok (w', s') -> passes counts (cgs w').
Proof.
  intros Hp Hs Ha H. pose proof (fun e => address_usable _ _ _ e Hs Ha) as He.
  pose proof (fun g => guard_sane _ _ _ g Hs) as Hg.
  destruct st as [|addr len delta|base len nia|o data|d ix b data|t data|e addr data|e cvt dst addr alt g
    |e addr data g|cas|e res addr [sd|]|d|ev|g jk dst o]; cbn [instrument_stmt] in H;
    try (by injection H as <- <-); cbn [address_of guard_of] in He, Hg.
  - sequence H. destruct a0 as [n c]. sequence H. cbn. eauto with passes.
  - destruct data; try by injection H as <- <-. sequence H. cbn. eauto with passes.
  - sequence H. cbn. eauto with passes.
  - destruct (Hg _ eq_refl) as (_ & _ & Htc & Hty). sequence H. destruct a as [ty1 ty2]. sequence H. cbn.
    eauto using addEvent_D_guarded_passes.
  - destruct (Hg _ eq_refl) as (_ & _ & Htc & Hty). sequence H. cbn. eauto using addEvent_D_guarded_passes.
  - unfold instrument_CAS in H. sequence H. cbn. eauto with passes.
  - sequence H. cbn. eauto with passes.
  - sequence H. cbn. eauto with passes.
  - sequence H. eauto using instrument_Dirty_passes.
  - destruct (Hg _ eq_refl) as (Hatom & Hu & Htc & Hty). sequence H. cbn.
    destruct (_ || _) in Hm; sequence Hm; eauto using instrument_branch_passes with passes.
Qed.

(** The statement itself, after what has been added for it. *)
Lemma copy_passes counts counts' c st :
  passes counts c -> sane_stmt Ity_I64 T counts st counts' ->
  passes counts' (c <| sbOut := addStmtToIRSB (sbOut c) st |>).
Proof.
  intros [ext [He Hl Hc Hq Hn Ho]] Hst. exists ext.
  pose proof (sane_stmt_more _ _ ext _ (replicate (length ext) 1) _ _ Hst) as Hst'.
  destruct (sane_stmts_grows _ _ _ _ _ (sane_one _ _ _ _ _ Hst')) as [Hg _].
  destruct (sane_stmts_grows _ _ _ _ _ (sane_one _ _ _ _ _ Hst)) as [_ Hl'].
  split; try done; [congruence| |].
  - eapply sane_app; [exact Hc|]. by apply sane_one.
  - apply (Forall_impl _ _ _ Hq). intros ev Hev. rewrite <-(app_nil_r (T ++ ext)).
    by apply (event_sane_grows _ [] (with_new counts ext)).
Qed.

Lemma instrument_stmts_passes counts sts counts' : sane_stmts Ity_I64 T counts sts counts' ->
  forall w s w' s', Forall (fun st => address_ok T st = true) sts -> passes counts (cgs w) ->
  instrument_stmts conf filename_linenum fnname T Ity_I64 w sts s = Ok (w', s') -> passes counts' (cgs w').
Proof.
  induction 1 as [|counts st counts1 sts counts' Hst _ IH]; intros w s w' s' Ha Hp H; cbn [instrument_stmts] in H.
  { by injection H as <- <-. }
  apply Forall_cons in Ha as [Hst_a Ha]. sequence H. apply (IH _ _ _ _ Ha) in H; [done|]. cbn.
  apply copy_passes with counts; [|done]. by eapply instrument_stmt_passes.
Qed.

(** The preamble is copied to a block with the same temporaries. *)
Lemma preamble_passes sts : forall b counts,
  tyenv b = T -> IR.next b = IR.next sb -> sb_offsIP b = sb_offsIP sb ->
  sane_stmts Ity_I64 T (replicate (length T) 0) (stmts b ++ sts) counts ->
  forall info i, passes counts (mk_CgState [] info i (foldl addStmtToIRSB b sts)).
Proof.
  induction sts as [|st sts IH]; intros b counts He Hn Ho Hs info i.
  - rewrite app_nil_r in Hs. exists []. split; cbn; unfold with_new; cbn; rewrite ?app_nil_r; try done.
    by apply sane_stmts_grows in Hs as [_ ->]; rewrite length_replicate.
  - apply IH; try done. cbn. by rewrite <-app_assoc.
Qed.

Lemma split_preamble_app sts : fst (split_preamble sts) ++ snd (split_preamble sts) = sts.
Proof.
  induction sts as [|st sts IH]; [done|]. cbn. destruct (is_IMark st); [done|].
  destruct (split_preamble sts). cbn in *. by f_equal.
Qed.
(** The code when the block has been traversed. *)
Lemma passes_sane counts c :
  passes counts c -> isIRAtom (IR.next sb) = true -> typeOfIRExpr T (IR.next sb) = Ok Ity_I64 ->
  16 <= sb_offsIP sb -> sanityCheckIRSB (sbOut c) true Ity_I64 = Ok tt.
Proof.
  intros [ext [He Hl Hc Hq Hn Ho]] Ha Hty Hoffs. apply sanityCheckIRSB_iff; [by right|].
  exists (with_new counts ext). unfold sane. rewrite He, Hn, Ho. split_and!; try done.
  by apply typeOfIRExpr_still.
Qed.

Lemma addEvent_Bi_passes counts c n e c' :
  passes counts c -> useBeforeDef_Expr T e counts = Ok tt -> addEvent_Bi conf c n e = Ok c' -> passes counts c'.
Proof.
  intros [ext Hp] Hu H. exists ext. refine (branch_event_passes conf sb Ity_I64 Ev_Bi _ _ _ _ _ _ eq_refl Hp _ H).
  by apply useBeforeDef_Expr_still.
Qed.
End Traversal.

(** The destination of a jump is assigned when the block ends. *)
Definition next_defined (bb : IRSB) : bool :=
  match (let* counts := check_temps (tyenv bb) (stmts bb) (replicate (length (tyenv bb)) 0)
                          (Z.of_nat (length (tyenv bb))) in
         useBeforeDef_Expr (tyenv bb) (IR.next bb) counts) with
  | Ok _ => true
  | Err _ => false
  end.

(** C6: [cg_instrument] turns a block that passes Vex's sanity check (flat,
    every temporary assigned once and before its uses, every expression and
    statement well typed) into one that passes it, provided the destination of
    the jump is assigned in the block and no call accesses memory at a bit,
    which the check does not look at: every helper call takes temporaries that
    are in scope at the place where it is flushed. *)
Theorem cg_instrument_stays_sane conf filename_linenum fnname readdr base0 sbIn s out s'
  (Hsane : sanityCheckIRSB sbIn true Ity_I64 = Ok tt)
  (Haddr : forallb (address_ok (tyenv sbIn)) (stmts sbIn) = true)
  (Hnext : next_defined sbIn = true)
  (Hrun : cg_instrument conf filename_linenum fnname readdr base0 sbIn Ity_I64 Ity_I64 s = Ok (out, s')) :
  sanityCheckIRSB out true Ity_I64 = Ok tt.
Proof.
  apply sanityCheckIRSB_iff in Hsane as (counts & Hs & Hatom & Hty & Hoffs); [|by right].
  unfold next_defined in Hnext.
  rewrite (proj1 (proj2 (proj1 (sane_stmts_iff _ _ _ _ _) Hs))) in Hnext. cbn in Hnext.
  destruct (useBeforeDef_Expr _ _ counts) as [[]|] eqn:Hu in Hnext; [|done].
  unfold cg_instrument in Hrun. cbn in Hrun. pose proof (split_preamble_app (stmts sbIn)) as Hsplit.
  destruct (split_preamble (stmts sbIn)) as [pre rest]. cbn [fst snd] in Hsplit.
  rewrite <-Hsplit in Hs, Haddr. apply sane_split in Hs as (counts1 & Hpre & Hrest).
  rewrite forallb_app in Haddr. apply andb_true_iff in Haddr as [_ Haddr].
  change (negb (bool_decide (Ity_I64 = Ity_I64))) with false in Hrun. cbn iota in Hrun.
  apply SE_bind_inv in Hrun as ([] & s0 & _ & Hrun).
  destruct rest as [|[|a len dl| | | | | | | | | | | |] rest]; try (by apply lift_inv in Hrun as [? _]).
  sequence Hrun.
  assert (Hw : passes sbIn Ity_I64 counts (cgs a2)).
  { eapply instrument_stmts_passes; [exact Hrest| | |exact Hm1].
    - apply Forall_forall. intros st Hst. rewrite forallb_forall in Haddr. by apply Haddr, list_elem_of_In.
    - by apply preamble_passes. }
  assert (Hc : passes sbIn Ity_I64 counts a3).
  { destruct (_ || _) in Hm2; [|by injection Hm2 as <- <-].
    destruct (IR.next sbIn) eqn:Hn in Hm2; try done; sequence Hm2; [|done].
    rewrite <-Hn in Hm2. by eapply addEvent_Bi_passes. }
  eapply passes_sane; [|done..]. by eapply flush_passes.
Qed.

(** ** Examples *)

(** [x += 1], a jump back while the result is not 0, then a jump to [x]. *)
Definition sane_block (last : IRExpr) : IRSB :=
  mk_IRSB [Ity_I64; Ity_I64; Ity_I1; Ity_I64]
    [Ist_IMark 64 4 0;
     Ist_WrTmp 0 (Iex_Load Iend_LE Ity_I64 (Iex_Const (Ico_U64 4096)));
     Ist_WrTmp 1 (Iex_Binop 0x1404 (Iex_RdTmp 0) (Iex_Const (Ico_U64 1)));
     Ist_Store Iend_LE (Iex_Const (Ico_U64 4096)) (Iex_RdTmp 1);
     Ist_IMark 68 2 0;
     Ist_WrTmp 2 (Iex_Binop 0x1428 (Iex_RdTmp 1) (Iex_Const (Ico_U64 0)));
     Ist_Exit (Iex_RdTmp 2) Ijk_Boring (Ico_U64 64) 184]
    last Ijk_Boring 184.

Definition demo_tool : tool := tool_init (tiny_sim lru_globals).

Definition demo_out (b : IRSB) : outcome IRSB :=
  let* (out, _) := cg_instrument demo_conf demo_lines demo_fns 64 64 b Ity_I64 Ity_I64 demo_tool in Ok out.

(** The block above is instrumented, and what comes out passes. *)
Lemma cg_instrument_stays_sane_witness :
  match demo_out (sane_block (Iex_RdTmp 0)) with Ok _ => true | Err _ => false end = true
  /\ forall out s',
    cg_instrument demo_conf demo_lines demo_fns 64 64 (sane_block (Iex_RdTmp 0)) Ity_I64 Ity_I64 demo_tool
      = Ok (out, s') -> sanityCheckIRSB out true Ity_I64 = Ok tt.
Proof.
  split; [vm_compute; reflexivity|]. intros out s'. apply cg_instrument_stays_sane.
  - vm_compute. reflexivity.
  - reflexivity.
  - vm_compute. reflexivity.
Defined.

(** The operators of the block above and of the guard of a side exit. *)
Example operators_named :
  map op_name [0x1404; 0x1428; Iop_Xor32; Iop_Xor64; Iop_1Uto32; Iop_1Uto64]
  = map Some ["Add64"; "CmpEQ64"; "Xor32"; "Xor64"; "1Uto32"; "1Uto64"]%string.
Proof. vm_compute. reflexivity. Qed.

(** The check does not look whether the destination of the jump is assigned:
    such a block passes, and what it is instrumented to does not. *)
Lemma next_is_not_checked (b := sane_block (Iex_RdTmp 3)) :
  sanityCheckIRSB b true Ity_I64 = Ok tt /\ next_defined b = false
  /\ (let* out := demo_out b in sanityCheckIRSB out true Ity_I64) = Err Panic.
Proof. split_and!; vm_compute; reflexivity. Qed.

(** Nor whether the guard of a call is. *)
Lemma guard_is_not_checked :
  sanityCheckIRSB (mk_IRSB [Ity_I1] [helper_stmt 0 "f" (Iex_RdTmp 0) []] (Iex_Const (Ico_U64 0)) Ijk_Boring 184)
    true Ity_I64 = Ok tt.
Proof. vm_compute. reflexivity. Qed.
