(* ===== verification/CgOutput.v ===== *)
(** * Results: the end of cachegrind/cg_main.c

    The report of the policies, [print_stats] of cg_sim.c; the output file with
    the counters of every line, their totals and that report; the widths and
    messages of the summary.  The text of the messages is in Report.v. *)

From Stdlib Require Import SpecFloat.
From S2P Require Import Prelude Float LibcBase Printf Vprintf BranchPred SetRef CacheSim OSet CgMain.

(** ** The report of the policies *)

(** [(float)x * 100 / (float)y]. *)
Definition float_percentage (x y : Z) : double :=
  float_div (float_mul (float_of_Z x) (float_of_Z 100)) (float_of_Z y).

(** A table with a row for each policy. *)
Definition policy_table (title : string) (all : Z) (ps : list policy) (field : policy -> Z) : outcome string :=
  let* p0 := rd ps 0 in let* p1 := rd ps 1 in let* p2 := rd ps 2 in let* p3 := rd ps 3 in
  let row (p : policy) := [AStr (Some (policy_name p)); A64 (field p); ADouble (float_percentage (field p) all)] in
  sprintf (newline +:+ newline +:+ title +:+ newline +:+ " %s %llu - %f " +:+ newline +:+ " %s %llu - %f " +:+ newline +:+ " %s %llu - %f " +:+ newline
             +:+ " %s %llu - %f " +:+ newline +:+ " " +:+ newline)%string
    (A64 all :: row p0 ++ row p1 ++ row p2 ++ row p3).

Definition print_stats (s : sim) : outcome string :=
  let g := globals s in
  let current (l : list Z) := existsb (Z.eqb (current_cache_replacement_policy g)) l in
  let throttle := sprintf ("BIP Throttle parameter %f" +:+ newline)%string [ADouble (bip_throttle_parameter g)] in
  let title (text : string) := sprintf (newline +:+ text +:+ newline)%string [] in
  let only (l : list Z) (m : outcome string) := if current l then m else Ok EmptyString in
  if negb (current [FIXED_WINDOW; SLIDING_WINDOW; ONLINE; CACHE_DUELING; ADAPTATIVE; NAIVE]) then throttle
  else
    let* t1 := only [FIXED_WINDOW] (title "...Fixed-window approach..."%string) in
    (* window_counter is an int *)
    let* t2 := only [FIXED_WINDOW] (sprintf (newline +:+ "...Block size: %llu..." +:+ newline)%string [A32 (window_counter g)]) in
    let* t3 := only [SLIDING_WINDOW] (title "...Sliding-window approach..."%string) in
    let* t4 := only [ONLINE] (title "...Online approach..."%string) in
    let* t5 := only [ADAPTATIVE] (title "...HIL approach..."%string) in
    let* t6 := only [NAIVE] (title "...Naive approach..."%string) in
    let* t7 := only [CACHE_DUELING] (title "...Cache dueling approach..."%string) in
    let* t8 := throttle in
    let* t9 := policy_table "Summary policy used times [Total uses %llu]:" (data_blocks s) (policies s) uses in
    let misses := [SLIDING_WINDOW; ONLINE; CACHE_DUELING] in
    let* t10 := only misses
      (policy_table "Summary misses with DL [Total accesses %llu]:" (access_counter s) (policies s) misses_DL) in
    let* t11 := only misses
      (policy_table "Summary misses considering only D1 [Total accesses %llu]:" (access_counter s) (policies s) misses_D1) in
    Ok (t1 +:+ t2 +:+ t3 +:+ t4 +:+ t5 +:+ t6 +:+ t7 +:+ t8 +:+ t9 +:+ t10 +:+ t11)%string.

(** ** The output file *)

(** A line of the file is a string without its newline; [out_report] is what
    [print_stats] has added after the lines. *)
Record output := mk_output {
  out_lines : list string;
  out_report : string;
  currFile : option Z;
  currFn : option Z;
  totals : gmap counter_field Z;
  distinct_files : Z;
  distinct_fns : Z;
  distinct_lines : Z
}.

#[export] Instance output_eta : RecordEta output := fun o =>
  mk_output (out_lines o) (out_report o) (currFile o) (currFn o) (totals o) (distinct_files o) (distinct_fns o)
    (distinct_lines o).

(** The static totals, zero at the start. *)
Definition total (o : output) (f : counter_field) : Z := default 0 (totals o !! f).

Definition fprint_line (o : output) (l : string) : output := o <| out_lines := out_lines o ++ [l] |>.

Section Output.
Context (conf : options).

(** The counters printed: all of them, those of the caches, those of the
    branches, or the instructions alone. *)
Definition data_fields : list counter_field :=
  match clo_cache_sim conf, clo_branch_sim conf with
  | true, true => [Ir_a; Ir_m1; Ir_mL; Dr_a; Dr_m1; Dr_mL; Dw_a; Dw_m1; Dw_mL; Bc_b; Bc_mp; Bi_b; Bi_mp]
  | true, false => [Ir_a; Ir_m1; Ir_mL; Dr_a; Dr_m1; Dr_mL; Dw_a; Dw_m1; Dw_mL]
  | false, true => [Ir_a; Bc_b; Bc_mp; Bi_b; Bi_mp]
  | false, false => [Ir_a]
  end.

Definition events_line : string :=
  (match clo_cache_sim conf, clo_branch_sim conf with
   | true, true => "events: Ir I1mr ILmr Dr D1mr DLmr Dw D1mw DLmw Bc Bcm Bi Bim"
   | true, false => "events: Ir I1mr ILmr Dr D1mr DLmr Dw D1mw DLmw "
   | false, true => "events: Ir Bc Bcm Bi Bim"
   | false, false => "events: Ir"
   end)%string.

(** [" %llu"] for each value. *)
Fixpoint fprint_llus (prefix : string) (vs : list Z) : outcome string :=
  match vs with
  | [] => Ok prefix
  | v :: vs => let* t := fmt_llu v in fprint_llus (prefix +:+ " " +:+ t)%string vs
  end.

(** [lineCC->f]. *)
Definition read_counter (m : gmap counter_ptr Z) (p : Z) (f : counter_field) : outcome Z :=
  match m !! (p, f) with Some v => Ok v | None => Err Undefined end.

Fixpoint read_counters (m : gmap counter_ptr Z) (p : Z) (fs : list counter_field) : outcome (list Z) :=
  match fs with
  | [] => Ok []
  | f :: fs => let* v := read_counter m p f in let* vs := read_counters m p fs in Ok (v :: vs)
  end.

(** "Update summary stats." *)
Fixpoint add_totals (m : gmap counter_ptr Z) (p : Z) (fs : list counter_field) (o : output) : outcome output :=
  match fs with
  | [] => Ok o
  | f :: fs =>
      let* v := read_counter m p f in
      add_totals m p fs (o <| totals := <[f := u64 (total o f + v)]> (totals o) |>)
  end.

(** The body of the loop.  Names are compared as pointers. *)
Definition fprint_LineCC (m : gmap counter_ptr Z) (cc : LineCC) (o : output) : outcome output :=
  let just_hit_a_new_file := negb (bool_decide (currFile o = Some (str_at (file (loc cc))))) in
  let* o :=
    if just_hit_a_new_file then
      let o := fprint_line (o <| currFile := Some (str_at (file (loc cc))) |>) ("fl=" +:+ chars (file (loc cc)))%string in
      let* n := int_add (distinct_files o) 1 in Ok (o <| distinct_files := n |>)
    else Ok o in
  let* o :=
    if just_hit_a_new_file || negb (bool_decide (currFn o = Some (str_at (fn (loc cc))))) then
      let o := fprint_line (o <| currFn := Some (str_at (fn (loc cc))) |>) ("fn=" +:+ chars (fn (loc cc)))%string in
      let* n := int_add (distinct_fns o) 1 in Ok (o <| distinct_fns := n |>)
    else Ok o in
  let* num := fmt_d (line (loc cc)) in
  let* vs := read_counters m (lcc cc) data_fields in
  let* text := fprint_llus num vs in
  let* o := add_totals m (lcc cc) counter_fields (fprint_line o text) in
  let* n := int_add (distinct_lines o) 1 in
  Ok (o <| distinct_lines := n |>).

(** The traversal of the table; one round per node. *)
Fixpoint fprint_nodes (fuel : nat) (t : oset LineCC) (m : gmap counter_ptr Z) (o : output) : outcome output :=
  match fuel with
  | O => Err OutOfFuel
  | S fuel =>
      let* (cc, t) := VG_OSetGen_Next t in
      match cc with
      | None => Ok o
      | Some cc => let* o := fprint_LineCC m cc o in fprint_nodes fuel t m o
      end
  end.

(** [opened] tells whether the file could be opened, [exe] and [args] are the
    client's command.  The summary line and the report come last. *)
Definition fprint_CC_table_and_calc_totals (opened : bool) (exe : string) (args : list string) (s : tool)
  : outcome output :=
  let o := mk_output [] EmptyString None None ∅ 0 0 0 in
  if negb opened then Ok o
  else
    let c := cache_sim s in
    let o := fprint_line o ("desc: I1 cache:         " +:+ c_desc_line (I1 c))%string in
    let o := fprint_line o ("desc: D1 cache:         " +:+ c_desc_line (D1 c))%string in
    let o := fprint_line o ("desc: LL cache:         " +:+ c_desc_line (LL c))%string in
    let o := fprint_line o (foldl (fun l arg => (l +:+ " " +:+ arg)%string) ("cmd: " +:+ exe)%string args) in
    let o := fprint_line o events_line in
    let* t := VG_OSetGen_ResetIter (CC_table s) in
    let* o := fprint_nodes (Z.to_nat (VG_OSetGen_Size t) + 1) t (line_counters c) o in
    let* text := fprint_llus "summary:"%string (map (total o) data_fields) in
    let o := fprint_line o text in
    let* report := print_stats c in
    Ok (o <| out_report := report |>).

(** All that the file holds. *)
Definition output_text (o : output) : string :=
  foldr (fun l text => (l +:+ newline +:+ text)%string) (out_report o) (out_lines o).

(** ** The summary *)

(** [while (n > 0) { n = n / 10; w++; }]: a [ULong] has at most 20 digits. *)
Fixpoint width_loop (fuel : nat) (n w : Z) : outcome Z :=
  if 0 <? n then
    match fuel with O => Err OutOfFuel | S fuel => width_loop fuel (n / 10) (w + 1) end
  else Ok w.

Definition ULong_width (n : Z) : outcome Z :=
  let* w := width_loop 20 n 0 in
  let w := if w =? 0 then 1 else w in
  Ok (w + (w - 1) / 3).

(** The columns of a message: one, or those of data and branches. *)
Inductive columns := C_all | C_rd_wr | C_cond_ind.

(** A message of the summary: counts with the width of their columns, or
    percentages, each the quotient of two counts, or an empty line. *)
Inductive message :=
| M_counts (cols : columns) (label : string) (counts : list (Z * Z))
| M_rates (cols : columns) (label : string) (rates : list (Z * (Z * Z)))
| M_blank.

(** [0 == x] is replaced by 1 before a division. *)
Definition nonzero (x : Z) : Z := if 0 =? x then 1 else x.

(** The messages of [cg_fini] for the totals [t], without the statistics of
    [--stats=yes] ([cg_fini_stats] of Report.v); no message when the verbosity is 0. *)
Definition cg_fini (verbosity : Z) (t : counter_field -> Z) : outcome (list message) :=
  if verbosity =? 0 then Ok []
  else
    let* l1 := ULong_width (t Ir_a) in
    let* l2 := ULong_width (if t Bc_b <=? t Dr_a then t Dr_a else t Bc_b) in
    let* l3 := ULong_width (if t Bi_b <=? t Dw_a then t Dw_a else t Bi_b) in
    let refs := [M_counts C_all "I   refs:     " [(l1, t Ir_a)]] in
    let cache :=
      if clo_cache_sim conf then
        let Ir := nonzero (t Ir_a) in
        let D_a := u64 (t Dr_a + t Dw_a) in
        let D_m1 := u64 (t Dr_m1 + t Dw_m1) in
        let D_mL := u64 (t Dr_mL + t Dw_mL) in
        let D := nonzero D_a in
        let Dr := nonzero (t Dr_a) in
        let Dw := nonzero (t Dw_a) in
        let LL_total := u64 (t Dr_m1 + t Dw_m1 + t Ir_m1) in
        let LL_total_r := u64 (t Dr_m1 + t Ir_m1) in
        let LL_total_w := t Dw_m1 in
        let LL_total_m := u64 (t Dr_mL + t Dw_mL + t Ir_mL) in
        let LL_total_mr := u64 (t Dr_mL + t Ir_mL) in
        let LL_total_mw := t Dw_mL in
        [M_counts C_all "I1  misses:   " [(l1, t Ir_m1)];
         M_counts C_all "LLi misses:   " [(l1, t Ir_mL)];
         M_rates C_all "I1  miss rate: " [(l1, (t Ir_m1, Ir))];
         M_rates C_all "LLi miss rate: " [(l1, (t Ir_mL, Ir))];
         M_blank;
         M_counts C_rd_wr "D   refs:     " [(l1, D_a); (l2, t Dr_a); (l3, t Dw_a)];
         M_counts C_rd_wr "D1  misses:   " [(l1, D_m1); (l2, t Dr_m1); (l3, t Dw_m1)];
         M_counts C_rd_wr "LLd misses:   " [(l1, D_mL); (l2, t Dr_mL); (l3, t Dw_mL)];
         M_rates C_rd_wr "D1  miss rate: " [(l1, (D_m1, D)); (l2, (t Dr_m1, Dr)); (l3, (t Dw_m1, Dw))];
         M_rates C_rd_wr "LLd miss rate: " [(l1, (D_mL, D)); (l2, (t Dr_mL, Dr)); (l3, (t Dw_mL, Dw))];
         M_blank;
         M_counts C_rd_wr "LL refs:      " [(l1, LL_total); (l2, LL_total_r); (l3, LL_total_w)];
         M_counts C_rd_wr "LL misses:    " [(l1, LL_total_m); (l2, LL_total_mr); (l3, LL_total_mw)];
         M_rates C_rd_wr "LL miss rate:  "
           [(l1, (LL_total_m, LL_total)); (l2, (LL_total_mr, LL_total)); (l3, (LL_total_mw, LL_total))]]
      else [] in
    let branch :=
      if clo_branch_sim conf then
        let Bc := nonzero (t Bc_b) in
        let Bi := nonzero (t Bi_b) in
        let B := u64 (Bc + Bi) in
        let B_mp := u64 (t Bc_mp + t Bi_mp) in
        [M_blank;
         M_counts C_cond_ind "Branches:     " [(l1, B); (l2, Bc); (l3, Bi)];
         M_counts C_cond_ind "Mispredicts:  " [(l1, B_mp); (l2, t Bc_mp); (l3, t Bi_mp)];
         M_rates C_cond_ind "Mispred rate:  " [(l1, (B_mp, B)); (l2, (t Bc_mp, Bc)); (l3, (t Bi_mp, Bi))]]
      else [] in
    Ok (refs ++ cache ++ branch).

End Output.
