(* ===== verification/Report.v ===== *)
(** * What a run prints: formats of cachegrind/cg_main.c

    The formats of the output file and the text of the summary with the statistics
    of --stats=yes.  The prefix that [VG_(umsg)] and [VG_(dmsg)] put before a line
    is left out. *)

From Stdlib Require Import SpecFloat.
From S2P Require Import Prelude Float LibcBase Printf Vprintf BranchPred SetRef CacheSim OSet CgMain CgOutput.

(** ** The formats of the output file *)

Section Formats.
Context (conf : options).

Definition line_format : string :=
  (match clo_cache_sim conf, clo_branch_sim conf with
   | true, true => "%d %llu %llu %llu" +:+ " %llu %llu %llu" +:+ " %llu %llu %llu" +:+ " %llu %llu %llu %llu"
   | true, false => "%d %llu %llu %llu" +:+ " %llu %llu %llu" +:+ " %llu %llu %llu"
   | false, true => "%d %llu" +:+ " %llu %llu %llu %llu"
   | false, false => "%d %llu"
   end +:+ newline)%string.

Definition summary_format : string :=
  (match clo_cache_sim conf, clo_branch_sim conf with
   | true, true => "summary:" +:+ " %llu %llu %llu" +:+ " %llu %llu %llu" +:+ " %llu %llu %llu"
                     +:+ " %llu %llu %llu %llu"
   | true, false => "summary:" +:+ " %llu %llu %llu" +:+ " %llu %llu %llu" +:+ " %llu %llu %llu"
   | false, true => "summary:" +:+ " %llu" +:+ " %llu %llu %llu %llu"
   | false, false => "summary:" +:+ " %llu"
   end +:+ newline)%string.

End Formats.

(** ** The summary *)

(** [x * 100.0 / y] for integers. *)
Definition percentage (x y : Z) : double := double_div (double_mul (double_of_Z x) (double_of_Z 100)) (double_of_Z y).

(** [fmt], which [VG_(sprintf)] makes of the widths of the columns. *)
Definition counts_format (cols : columns) (widths : list Z) : outcome string :=
  sprintf ((match cols with
    | C_all => "%%s %%,%dllu"
    | C_rd_wr => "%%s %%,%dllu  (%%,%dllu rd   + %%,%dllu wr)"
    | C_cond_ind => "%%s %%,%dllu  (%%,%dllu cond + %%,%dllu ind)"
    end +:+ newline)%string) (map A32 widths).

Definition rates_format (cols : columns) (label : string) : string :=
  (label +:+ match cols with
    | C_all => "%*.2f%%"
    | C_rd_wr => "%*.1f%% (%*.1f%%     + %*.1f%%  )"
    | C_cond_ind => "%*.1f%% (%*.1f%%     + %*.1f%%   )"
    end +:+ newline)%string.

Definition show_message (m : message) : outcome string :=
  match m with
  | M_counts cols label counts =>
      let* fmt := counts_format cols (map fst counts) in
      sprintf fmt (AStr (Some label) :: map (fun c => A64 (snd c)) counts)
  | M_rates cols label rates =>
      sprintf (rates_format cols label)
        (flat_map (fun r => [A32 (fst r); ADouble (percentage (fst (snd r)) (snd (snd r)))]) rates)
  | M_blank => sprintf newline []
  end.

Fixpoint show_messages (ms : list message) : outcome string :=
  match ms with
  | [] => Ok EmptyString
  | m :: ms => let* t := show_message m in let* ts := show_messages ms in Ok (t +:+ ts)%string
  end.

(** A list of formats with their arguments. *)
Fixpoint print_all (calls : list (string * va_list)) : outcome string :=
  match calls with
  | [] => Ok EmptyString
  | (format, vargs) :: calls =>
      let* t := sprintf (format +:+ newline)%string vargs in let* ts := print_all calls in Ok (t +:+ ts)%string
  end.

(** "Various stats": the numbers of the tables, and how often debug information
    was found. *)
Definition cg_fini_stats (s : tool) (o : output) : outcome string :=
  let* n := int_add (full_debugs s) (fn_debugs s) in
  let* n := int_add n (file_line_debugs s) in
  let* debug_lookups := int_add n (no_debugs s) in
  let found (x : Z) := [ADouble (percentage x debug_lookups); A32 x] in
  print_all
    [(EmptyString, []);
     ("cachegrind: distinct files     : %d"%string, [A32 (distinct_files o)]);
     ("cachegrind: distinct functions : %d"%string, [A32 (distinct_fns o)]);
     ("cachegrind: distinct lines     : %d"%string, [A32 (distinct_lines o)]);
     ("cachegrind: distinct instrs NoX: %d"%string, [A32 (distinct_instrsNoX s)]);
     ("cachegrind: distinct instrs Gen: %d"%string, [A32 (distinct_instrsGen s)]);
     ("cachegrind: debug lookups      : %d"%string, [A32 debug_lookups]);
     ("cachegrind: with full      info:%6.1f%% (%d)"%string, found (full_debugs s));
     ("cachegrind: with file/line info:%6.1f%% (%d)"%string, found (file_line_debugs s));
     ("cachegrind: with fn name   info:%6.1f%% (%d)"%string, found (fn_debugs s));
     ("cachegrind: with zero      info:%6.1f%% (%d)"%string, found (no_debugs s));
     ("cachegrind: string table size: %u"%string, [A32 (VG_OSetGen_Size (stringTable s))]);
     ("cachegrind: CC table size: %u"%string, [A32 (VG_OSetGen_Size (CC_table s))]);
     ("cachegrind: InstrInfo table size: %u"%string, [A32 (VG_OSetGen_Size (instrInfoTable s))])].

(** The texts of [cg_fini], after the output file has been written. *)
Definition cg_fini_text (conf : options) (verbosity : Z) (stats : bool) (s : tool) (o : output) : outcome string :=
  let* ms := cg_fini conf verbosity (total o) in
  let* text := show_messages ms in
  let* more := if stats && negb (verbosity =? 0) then cg_fini_stats s o else Ok EmptyString in
  Ok (text +:+ more)%string.

(** ** Examples *)

Example summary_line : show_message (M_counts C_rd_wr "D   refs:     " [(9, 1234567); (7, 34567); (9, 1200000)])
  = Ok ("D   refs:      1,234,567  ( 34,567 rd   + 1,200,000 wr)" +:+ newline)%string.
Proof. vm_compute. reflexivity. Qed.

Example rate_line : show_message (M_rates C_rd_wr "D1  miss rate: " [(9, (1, 3)); (7, (2, 3)); (9, (0, 1))])
  = Ok ("D1  miss rate:      33.3% (   66.7%     +       0.0%  )" +:+ newline)%string.
Proof. vm_compute. reflexivity. Qed.
