(* ===== verification/CgTheory.v ===== *)
(** * Theorems on the results of cg_main.c *)

From Stdlib Require Import Sorted.
From S2P Require Import Prelude LibcBase Printf Vprintf VprintfTheory BranchPred SetRef CacheSim SimTheory OSet OSetTheory.
From S2P Require Import CgMain Instrument LineTable CgOutput.

(** ** Column widths *)

Lemma width_loop_digits fuel n w : 0 <= n < 10 ^ Z.of_nat fuel ->
  width_loop fuel n w = Ok (w + Z.of_nat (length (dec_list fuel n))).
Proof.
  revert n w. induction fuel as [|fuel IH]; intros n w Hn; cbn [width_loop dec_list].
  - change (10 ^ Z.of_nat 0) with 1 in Hn. destruct (Z.ltb_spec 0 n); [lia|]. cbn. by rewrite Z.add_0_r.
  - destruct (Z.ltb_spec 0 n); [|cbn; by rewrite Z.add_0_r].
    rewrite Nat2Z.inj_succ, Z.pow_succ_r in Hn by lia. rewrite IH.
    + rewrite length_app. cbn [length]. f_equal. lia.
    + split; [apply Z.div_pos; lia|]. apply Z.div_lt_upper_bound; lia.
Qed.

(** More fuel than digits makes no difference. *)
Lemma int64_digits_fuel f1 f2 size flags cap p nc buf : 0 <= p < 10 ^ Z.of_nat f1 -> (f1 <= f2)%nat ->
  int64_digits f2 size flags 10 cap p nc buf = int64_digits f1 size flags 10 cap p nc buf.
Proof.
  revert f2 p nc buf. induction f1 as [|f1 IH]; intros f2 p nc buf Hp Hf.
  - change (10 ^ Z.of_nat 0) with 1 in Hp. destruct f2; cbn [int64_digits];
      by destruct (Z.ltb_spec 0 p); [lia|].
  - destruct f2 as [|f2]; [lia|]. cbn [int64_digits]. destruct (Z.ltb_spec 0 p); [|done].
    rewrite Nat2Z.inj_succ, Z.pow_succ_r in Hp by lia.
    assert (Hq : 0 <= p / 10 < 10 ^ Z.of_nat f1)
      by (split; [apply Z.div_pos; lia|]; apply Z.div_lt_upper_bound; lia).
    match goal with |- obind ?m _ = obind ?m _ => destruct m as [[nc' buf']|]; cbn [obind]; [|done] end.
    destruct (put_char size buf' _) as [b|]; cbn [obind]; [|done]. by apply IH; [|lia].
Qed.

Lemma fmt_comma_length n : 0 <= n < 2 ^ 64 ->
  exists s, fmt_comma_llu n = Ok s
    /\ String.length s = (let k := Nat.max 1 (length (dec_list 20 n)) in k + commas k)%nat.
Proof.
  intros Hn. unfold fmt_comma_llu, myvprintf_int64. rewrite int_add_ok by lia. cbn [obind]. change (90 <? 0 + 1) with false. cbn iota.
  change ((10 <? 2) || (16 <? 10)) with false. cbn iota.
  change (has_flag VG_MSG_COMMA VG_MSG_SIGNED) with false. cbn [andb negb defined_when obind]. change (0 <? 0) with false. cbn [andb].
  destruct (Z.eqb_spec n 0) as [->|Hne]; [by eexists|].
  rewrite (int64_digits_fuel 20 64) by lia.
  destruct (int64_digits_comma_length 20 90 n 0 []) as (s & Hs & Hlen); [cbn; lia|done|cbn; lia|].
  change (Z.of_nat (commas 0)) with 0 in Hs. rewrite Hs. cbn [obind]. eexists. split; [reflexivity|].
  rewrite app_nil_r, length_string_of_list, Hlen. cbn [Nat.add].
  assert (Hpos : (1 <= length (dec_list 20 n))%nat).
  { cbn [dec_list]. destruct (Z.ltb_spec 0 n); [|lia]. rewrite length_app. cbn [length]. lia. }
  by replace (Nat.max 1 (length (dec_list 20 n))) with (length (dec_list 20 n)) by lia.
Qed.

(** The column width [ULong_width] computes is the length of the text that
    the ["%,llu"] of the summary prints, for every [ULong]; its loop ends. *)
Theorem ULong_width_is_printed_length n : 0 <= n < 2 ^ 64 ->
  exists s w, fmt_comma_llu n = Ok s /\ ULong_width n = Ok w /\ w = Z.of_nat (String.length s).
Proof.
  intros Hn. destruct (fmt_comma_length n Hn) as (s & Hs & Hlen). exists s. unfold ULong_width.
  rewrite width_loop_digits by (cbn; lia). cbn [obind]. eexists. split; [done|]. split; [reflexivity|].
  rewrite Hlen. generalize (length (dec_list 20 n)) as k. intros k. cbv zeta. unfold commas.
  rewrite Z.add_0_l. destruct (Z.eqb_spec (Z.of_nat k) 0) as [Hk|Hk].
  - by assert (k = 0)%nat as -> by lia.
  - replace (Nat.max 1 k) with k by lia. rewrite Nat2Z.inj_add, Nat2Z.inj_div, Nat2Z.inj_sub by lia. done.
Qed.

Lemma ULong_width_is_printed_length_witness :
  exists s w, fmt_comma_llu 1234567 = Ok s /\ ULong_width 1234567 = Ok w /\ w = Z.of_nat (String.length s).
Proof. apply (ULong_width_is_printed_length 1234567). lia. Defined.

(** ** The output file *)

(** The text after a prefix: a blank and a number, for every value. *)
Definition llus_text (prefix : string) (vs : list Z) : string :=
  foldl (fun l v => (l +:+ " " +:+ nat_text v)%string) prefix vs.

Lemma fprint_llus_ok vs prefix : Forall (fun v => 0 <= v < 2 ^ 64) vs ->
  fprint_llus prefix vs = Ok (llus_text prefix vs).
Proof.
  intros Hvs. revert prefix. induction Hvs as [|v vs Hv _ IH]; intros prefix; [done|].
  cbn [fprint_llus]. rewrite fmt_llu_spec by done. apply IH.
Qed.

(** The counters of a node. *)
Definition counted (m : gmap counter_ptr Z) (c : LineCC) (f : counter_field) : Z := default 0 (m !! (lcc c, f)).

Definition counted_ok (m : gmap counter_ptr Z) (c : LineCC) : Prop :=
  forall f, exists v, m !! (lcc c, f) = Some v /\ 0 <= v < 2 ^ 64.

Lemma read_counter_ok m c f : counted_ok m c -> read_counter m (lcc c) f = Ok (counted m c f).
Proof. intros Hm. unfold read_counter, counted. by destruct (Hm f) as (v & -> & _). Qed.

Lemma counted_range m c f : counted_ok m c -> 0 <= counted m c f < 2 ^ 64.
Proof. intros Hm. unfold counted. by destruct (Hm f) as (v & -> & Hv). Qed.

Lemma read_counters_ok m c fs : counted_ok m c -> read_counters m (lcc c) fs = Ok (map (counted m c) fs).
Proof.
  intros Hm. induction fs as [|f fs IH]; [done|]. cbn [read_counters map].
  rewrite read_counter_ok by done. cbn [obind]. by rewrite IH.
Qed.

Lemma add_totals_ok m c fs o : counted_ok m c -> NoDup fs ->
  exists T, add_totals m (lcc c) fs o = Ok (o <| totals := T |>)
    /\ forall f, default 0 (T !! f) = if bool_decide (f ∈ fs) then u64 (total o f + counted m c f) else total o f.
Proof.
  intros Hm Hfs. revert o. induction Hfs as [|f fs Hf _ IH]; intros o; cbn [add_totals].
  - exists (totals o). split; [by destruct o|]. intros f. by rewrite bool_decide_eq_false_2 by apply not_elem_of_nil.
  - rewrite read_counter_ok by done. cbn [obind].
    destruct (IH (o <| totals := <[f := u64 (total o f + counted m c f)]> (totals o) |>)) as (T & HT & Hval).
    exists T. split; [exact HT|]. intros g. rewrite Hval. unfold total, set_field. cbn [totals].
    destruct (decide (g = f)) as [->|Hne].
    + rewrite (bool_decide_eq_false_2 (f ∈ fs)), bool_decide_eq_true_2 by (done || apply list_elem_of_here).
      by rewrite lookup_insert_eq.
    + rewrite lookup_insert_ne by done.
      by rewrite (bool_decide_ext (g ∈ f :: fs) (g ∈ fs)) by (rewrite elem_of_cons; naive_solver).
Qed.

(** A node whose location differs from that of its predecessor in the part
    that [part] keeps is a head. *)
Definition only_file (l : CodeLoc) : CodeLoc := mk_CodeLoc (file l) (mk_cstr 0 EmptyString) 0.
Definition file_and_fn (l : CodeLoc) : CodeLoc := mk_CodeLoc (file l) (fn l) 0.

Definition is_head (part : CodeLoc -> CodeLoc) (prev : option LineCC) (c : LineCC) : bool :=
  match prev with
  | None => true
  | Some p => negb (cmp_CodeLoc (part (loc p)) (part (loc c)) =? 0)
  end.

Fixpoint heads (part : CodeLoc -> CodeLoc) (prev : option LineCC) (l : list LineCC) : list LineCC :=
  match l with
  | [] => []
  | c :: l => (if is_head part prev c then [c] else []) ++ heads part (Some c) l
  end.

Section Text.
Context (conf : options) (m : gmap counter_ptr Z).

Definition data_line (c : LineCC) : string :=
  llus_text (int_text (line (loc c))) (map (counted m c) (data_fields conf)).

(** The lines of the file for the nodes [l]. *)
Fixpoint body_lines (prev : option LineCC) (l : list LineCC) : list string :=
  match l with
  | [] => []
  | c :: l =>
      (if is_head only_file prev c then ["fl=" +:+ chars (file (loc c))]%string else [])
      ++ (if is_head file_and_fn prev c then ["fn=" +:+ chars (fn (loc c))]%string else [])
      ++ [data_line c] ++ body_lines (Some c) l
  end.

(** The sum of a counter over the nodes. *)
Definition column (l : list LineCC) (f : counter_field) : Z :=
  foldr (fun c n => counted m c f + n) 0 l.

(** The file's part that belongs to the nodes before. *)
Record at_node (s : tool) (prev : option LineCC) (o : output) : Prop := {
  an_file : currFile o = (fun p => str_at (file (loc p))) <$> prev;
  an_fn : currFn o = (fun p => str_at (fn (loc p))) <$> prev;
  an_in : forall p, prev = Some p -> p ∈ elements (root (CC_table s))
}.

Definition printable (c : LineCC) : Prop := counted_ok m c /\ - 2 ^ 31 <= line (loc c) < 2 ^ 31.

(** Comparing the pointers tells whether a node is a head. *)
Lemma head_pointers s prev o c : wf_tables s -> at_node s prev o -> c ∈ elements (root (CC_table s)) ->
  let new_file := negb (bool_decide (currFile o = Some (str_at (file (loc c))))) in
  new_file = is_head only_file prev c
  /\ (new_file || negb (bool_decide (currFn o = Some (str_at (fn (loc c)))))) = is_head file_and_fn prev c.
Proof.
  intros Hwf [Hfile Hfn Hin] Hc. rewrite Hfile, Hfn. destruct prev as [p|]; [|done]. cbn [fmap option_fmap option_map].
  specialize (Hin p eq_refl). destruct (wf_perm s Hwf c Hc) as [Hcf Hcn], (wf_perm s Hwf p Hin) as [Hpf Hpn].
  pose proof (string_unique s _ _ Hwf Hpf Hcf) as Hf. pose proof (string_unique s _ _ Hwf Hpn Hcn) as Hn.
  unfold is_head, cmp_CodeLoc, only_file, file_and_fn. cbn [file fn line chars].
  destruct (Z.eqb_spec (VG_strcmp (chars (file (loc p))) (chars (file (loc c)))) 0) as [Ef|Ef]; cbn [negb].
  - rewrite bool_decide_eq_true_2 by (f_equal; tauto). cbn [negb orb]. split; [done|].
    destruct (Z.eqb_spec (VG_strcmp (chars (fn (loc p))) (chars (fn (loc c)))) 0) as [En|En]; cbn [negb].
    + by rewrite bool_decide_eq_true_2 by (f_equal; tauto).
    + rewrite bool_decide_eq_false_2 by (intros [=]; tauto). by apply Z.eqb_neq in En as ->.
  - rewrite bool_decide_eq_false_2 by (intros [=]; tauto). cbn [negb orb]. by apply Z.eqb_neq in Ef as ->.
Qed.

(** What a node adds to the output. *)
Record node_post (prev : option LineCC) (c : LineCC) (o o' : output) : Prop := {
  np_lines : out_lines o' = out_lines o ++ body_lines prev [c];
  np_file : currFile o' = Some (str_at (file (loc c)));
  np_fn : currFn o' = Some (str_at (fn (loc c)));
  np_total : forall f, total o' f = u64 (total o f + counted m c f);
  np_files : distinct_files o' = distinct_files o + Z.of_nat (length (heads only_file prev [c]));
  np_fns : distinct_fns o' = distinct_fns o + Z.of_nat (length (heads file_and_fn prev [c]));
  np_count : distinct_lines o' = distinct_lines o + 1
}.

Definition counts_room (k : Z) (o : output) : Prop :=
  0 <= distinct_files o < 2 ^ 31 - k /\ 0 <= distinct_fns o < 2 ^ 31 - k /\ 0 <= distinct_lines o < 2 ^ 31 - k.

Lemma fprint_LineCC_ok s prev c o : wf_tables s -> at_node s prev o -> c ∈ elements (root (CC_table s)) ->
  printable c -> counts_room 1 o ->
  exists o', fprint_LineCC conf m c o = Ok o' /\ node_post prev c o o'.
Proof.
  intros Hwf Hat Hc [Hm Hline] (Hr1 & Hr2 & Hr3). destruct (head_pointers s prev o c Hwf Hat Hc) as [Hfile Hfn].
  cbn zeta in Hfile, Hfn. unfold fprint_LineCC. cbn zeta. rewrite Hfile.
  assert (Hsame : is_head only_file prev c = false -> currFile o = Some (str_at (file (loc c)))).
  { rewrite <-Hfile. intros H%negb_false_iff%bool_decide_eq_true. done. }
  assert (Hsame' : is_head file_and_fn prev c = false -> currFn o = Some (str_at (fn (loc c)))).
  { rewrite <-Hfn. intros [_ H%negb_false_iff%bool_decide_eq_true]%orb_false_iff. done. }
  rewrite Hfile in Hfn.
  set (first := if is_head only_file prev c then _ else _).
  assert (Hfirst : exists o1, first = Ok o1 /\ totals o1 = totals o /\ currFn o1 = currFn o
    /\ currFile o1 = Some (str_at (file (loc c))) /\ distinct_fns o1 = distinct_fns o
    /\ distinct_lines o1 = distinct_lines o
    /\ distinct_files o1 = distinct_files o + Z.of_nat (length (heads only_file prev [c]))
    /\ out_lines o1 = out_lines o ++ (if is_head only_file prev c then ["fl=" +:+ chars (file (loc c))]%string else [])).
  { unfold first, heads. destruct (is_head only_file prev c); cbn [distinct_files fprint_line set_field].
    - rewrite int_add_ok by (cbn; lia). cbn [obind]. by eexists.
    - exists o. rewrite !app_nil_r, Z.add_0_r. by rewrite <-Hsame. }
  destruct Hfirst as (o1 & -> & Ht1 & Hn1 & Hf1 & Hdn1 & Hdl1 & Hdf1 & Ho1). cbn [obind]. rewrite Hn1, Hfn.
  set (second := if is_head file_and_fn prev c then _ else _).
  assert (Hsecond : exists o2, second = Ok o2 /\ totals o2 = totals o /\ currFn o2 = Some (str_at (fn (loc c)))
    /\ currFile o2 = Some (str_at (file (loc c))) /\ distinct_files o2 = distinct_files o1
    /\ distinct_lines o2 = distinct_lines o
    /\ distinct_fns o2 = distinct_fns o + Z.of_nat (length (heads file_and_fn prev [c]))
    /\ out_lines o2 = out_lines o1 ++ (if is_head file_and_fn prev c then ["fn=" +:+ chars (fn (loc c))]%string else [])).
  { unfold second, heads. destruct (is_head file_and_fn prev c); cbn [distinct_fns fprint_line set_field].
    - rewrite int_add_ok by (cbn; lia). cbn [obind]. eexists. split; [reflexivity|]. cbn. by rewrite <-Hdn1.
    - exists o1. rewrite !app_nil_r, Z.add_0_r. by rewrite Hn1, <-Hsame'. }
  destruct Hsecond as (o2 & -> & Ht2 & Hn2 & Hf2 & Hdf2 & Hdl2 & Hdn2 & Ho2). cbn [obind].
  rewrite fmt_d_spec by lia. cbn [obind]. rewrite read_counters_ok by done. cbn [obind].
  rewrite fprint_llus_ok by (apply Forall_map, Forall_true; intros f; by apply counted_range). cbn [obind].
  destruct (add_totals_ok m c counter_fields
    (fprint_line o2 (llus_text (int_text (line (loc c))) (map (counted m c) (data_fields conf))))) as (T & HT & Hval); [done| |].
  { apply (bool_decide_unpack _). vm_compute. done. }
  unfold int_text, text_of in HT. rewrite HT. cbn [obind distinct_lines set_field fprint_line].
  rewrite Hdl2, int_add_ok by lia. cbn [obind]. eexists. split; [reflexivity|].
  split; unfold fprint_line, set_field;
    cbn [out_lines currFile currFn distinct_files distinct_fns distinct_lines]; try done.
  - rewrite Ho2, Ho1, <-!app_assoc. done.
  - intros f. etrans; [exact (Hval f)|]. rewrite bool_decide_eq_true_2.
    + unfold total, fprint_line, set_field. cbn [totals]. by rewrite Ht2.
    + destruct f; repeat constructor.
  - by rewrite Hdf2.
Qed.

Lemma column_step c l f t : u64 (u64 (t + counted m c f) + column l f) = u64 (t + column (c :: l) f).
Proof.
  change (column (c :: l) f) with (counted m c f + column l f).
  unfold u64. rewrite Zplus_mod_idemp_l, Z.add_assoc. done.
Qed.

(** What the nodes [l], in a row, add to the output. *)
Record nodes_post (prev : option LineCC) (l : list LineCC) (o o' : output) : Prop := {
  nsp_lines : out_lines o' = out_lines o ++ body_lines prev l;
  nsp_total : forall f, 0 <= total o f < 2 ^ 64 -> total o' f = u64 (total o f + column l f);
  nsp_files : distinct_files o' = distinct_files o + Z.of_nat (length (heads only_file prev l));
  nsp_fns : distinct_fns o' = distinct_fns o + Z.of_nat (length (heads file_and_fn prev l));
  nsp_count : distinct_lines o' = distinct_lines o + Z.of_nat (length l)
}.

Lemma nodes_post_cons prev c l o o1 o2 : node_post prev c o o1 -> nodes_post (Some c) l o1 o2 ->
  nodes_post prev (c :: l) o o2.
Proof.
  intros [] []. split.
  - rewrite nsp_lines0, np_lines0, <-app_assoc. cbn [body_lines]. by rewrite <-!app_assoc.
  - intros f Hf. rewrite nsp_total0, np_total0 by (rewrite np_total0; apply u64_range). apply column_step.
  - rewrite nsp_files0, np_files0. cbn [heads]. rewrite !length_app. cbn [length]. lia.
  - rewrite nsp_fns0, np_fns0. cbn [heads]. rewrite !length_app. cbn [length]. lia.
  - rewrite nsp_count0, np_count0. cbn [length]. lia.
Qed.

(** The traversal visits what the iterator has left. *)
Lemma fprint_nodes_ok s fuel t prev o : wf_tables s -> stack_ok (stack t) ->
  (length (remaining (stack t)) < fuel)%nat ->
  (forall c, c ∈ remaining (stack t) -> c ∈ elements (root (CC_table s)) /\ printable c) ->
  at_node s prev o -> counts_room (Z.of_nat (length (remaining (stack t)))) o ->
  exists o', fprint_nodes conf fuel t m o = Ok o' /\ nodes_post prev (remaining (stack t)) o o'.
Proof.
  intros Hwf. revert t prev o. induction fuel as [|fuel IH]; intros t prev o Hs Hfuel Hin Hat Hroom; [lia|].
  cbn [fprint_nodes]. unfold VG_OSetGen_Next.
  destruct (Nat.leb_spec (length (stack t)) STACK_MAX) as [_|Hlong];
    [|by pose proof (stack_ok_length _ Hs); lia].
  destruct (next_loop_ok (length (stack t) + 2) (stack t) Hs ltac:(lia)) as (s' & Heq & Hs' & Hrem).
  cbn [assert_that obind]. rewrite Heq. cbn [obind].
  destruct (remaining (stack t)) as [|c l] eqn:Hr; cbn [head].
  - exists o. split; [done|]. split; cbn [heads body_lines length]; rewrite ?app_nil_r, ?Z.add_0_r; try done.
    intros f Hf. cbn [column foldr]. rewrite Z.add_0_r. symmetry. by apply u64_small.
  - cbn [tail] in Hrem. destruct (Hin c) as [Hc Hp]; [by left|]. cbn [length] in *.
    destruct (fprint_LineCC_ok s prev c o Hwf Hat Hc Hp) as (o1 & -> & Hpost); [unfold counts_room in *; lia|].
    cbn [obind]. destruct (IH (mk_oset (nElems t) (root t) s') (Some c) o1) as (o2 & -> & Hpost2);
      cbn [stack]; rewrite ?Hrem.
    + done.
    + lia.
    + intros x Hx. apply Hin. by right.
    + destruct Hpost. split; [done..|]. by intros p [= <-].
    + destruct Hpost as [_ _ _ _ Hf1 Hf2 Hf3]. unfold counts_room in *. cbn [heads length] in *.
      repeat match goal with H : context [if ?b then _ else _] |- _ => destruct b end; cbn [length app] in *; lia.
    + exists o2. split; [done|]. cbn [stack] in Hpost2. rewrite Hrem in Hpost2. by eapply nodes_post_cons.
Qed.

(** The heads come in strictly increasing order, so no part of a location is
    the head of two groups of nodes. *)
Definition coarser (part : CodeLoc -> CodeLoc) : Prop :=
  forall a b, cmp_CodeLoc a b < 0 -> cmp_CodeLoc (part a) (part b) <= 0.

Definition part_before (part : CodeLoc -> CodeLoc) (c1 c2 : LineCC) : Prop :=
  cmp_CodeLoc (part (loc c1)) (part (loc c2)) < 0.

Lemma only_file_coarser : coarser only_file.
Proof.
  intros a b. unfold cmp_CodeLoc. cbn [only_file file fn line chars].
  destruct (Z.eqb_spec (VG_strcmp (chars (file a)) (chars (file b))) 0); cbn; lia.
Qed.

Lemma file_and_fn_coarser : coarser file_and_fn.
Proof.
  intros a b. unfold cmp_CodeLoc. cbn [file_and_fn file fn line chars].
  destruct (Z.eqb_spec (VG_strcmp (chars (file a)) (chars (file b))) 0); cbn [negb]; [|lia].
  destruct (Z.eqb_spec (VG_strcmp (chars (fn a)) (chars (fn b))) 0); cbn [negb]; lia.
Qed.

Lemma heads_after part p c l : coarser part -> StronglySorted before (c :: l) ->
  cmp_CodeLoc (part (loc p)) (part (loc c)) <= 0 -> Forall (part_before part p) (heads part (Some c) l).
Proof.
  intros Hpart. revert c. induction l as [|d l IH]; intros c Hs Hpc; [constructor|].
  inversion Hs as [|? ? Hs' Hall]; subst. inversion Hall as [|? ? Hcd _]; subst.
  pose proof (Hpart (loc c) (loc d) Hcd) as Hle.
  pose proof (cmp_CodeLoc_trans_facts (part (loc p)) (part (loc c)) (part (loc d))) as [Hlt Heq].
  pose proof (kcmp_lt_eq (E := LineCC) (part (loc p)) (part (loc c)) (part (loc d))) as Hlteq.
  pose proof (kcmp_eq_iff (E := LineCC) (part (loc p)) (part (loc c)) (part (loc d))) as Heqeq.
  change (@kcmp CodeLoc LineCC _ _) with cmp_CodeLoc in *. cbn [heads is_head].
  destruct (Z.eqb_spec (cmp_CodeLoc (part (loc c)) (part (loc d))) 0) as [E|E]; cbn [negb app].
  - apply IH; [done|]. destruct (Z.eq_dec (cmp_CodeLoc (part (loc p)) (part (loc c))) 0) as [Epc|]; [|lia].
    apply Heqeq in E; lia.
  - assert (Hpd : cmp_CodeLoc (part (loc p)) (part (loc d)) < 0)
      by (destruct (Z.eq_dec (cmp_CodeLoc (part (loc p)) (part (loc c))) 0); [apply Heq|apply Hlt]; lia).
    constructor; [exact Hpd|]. apply IH; [done|lia].
Qed.

Lemma heads_increasing part prev l : coarser part -> StronglySorted before l ->
  StronglySorted (part_before part) (heads part prev l).
Proof.
  intros Hpart Hs. revert prev. induction Hs as [|c l Hs IH Hall]; intros prev; cbn [heads]; [constructor|].
  destruct (is_head part prev c); cbn [app]; [|apply IH]. constructor; [apply IH|].
  apply heads_after; [done|by constructor|]. pose proof (kcmp_refl (E := LineCC) (part (loc c))) as Hr.
  change (cmp_CodeLoc (part (loc c)) (part (loc c)) = 0) in Hr. lia.
Qed.

(** The lines before those of the nodes. *)
Definition head_lines (exe : string) (args : list string) (c : sim) : list string :=
  [("desc: I1 cache:         " +:+ c_desc_line (I1 c))%string;
   ("desc: D1 cache:         " +:+ c_desc_line (D1 c))%string;
   ("desc: LL cache:         " +:+ c_desc_line (LL c))%string;
   foldl (fun l arg => (l +:+ " " +:+ arg)%string) ("cmd: " +:+ exe)%string args;
   events_line conf].

End Text.

(** What is written before the report of the policies, with the numbers [cg_fini]
    uses. *)
Lemma output_written conf exe args s (nodes := elements (root (CC_table s)))
    (m := line_counters (cache_sim s)) :
  wf_tables s -> Z.of_nat (length nodes) < 9227464 ->
  (forall c, c ∈ nodes -> printable m c) ->
  exists o, fprint_CC_table_and_calc_totals conf true exe args s
      = (let* report := print_stats (cache_sim s) in Ok (o <| out_report := report |>))
    /\ (forall f, total o f = u64 (column m nodes f))
    /\ out_lines o = head_lines conf exe args (cache_sim s) ++ body_lines conf m None nodes
         ++ [llus_text "summary:" (map (fun f => u64 (column m nodes f)) (data_fields conf))]
    /\ distinct_files o = Z.of_nat (length (heads only_file None nodes))
    /\ distinct_fns o = Z.of_nat (length (heads file_and_fn None nodes))
    /\ distinct_lines o = Z.of_nat (length nodes).
Proof.
  intros Hwf Hsize Hprint. pose proof (wf_CC s Hwf) as HCC.
  destruct (wf_small_depth (CC_table s) HCC Hsize) as [Hdepth Hcount].
  unfold fprint_CC_table_and_calc_totals. cbn [negb].
  destruct (ResetIter_ok (CC_table s) Hdepth) as (st & Hreset & Hst & Hrem). rewrite Hreset. cbn [obind].
  change (VG_OSetGen_Size (mk_oset (nElems (CC_table s)) (root (CC_table s)) st)) with (VG_OSetGen_Size (CC_table s)).
  rewrite Hcount. fold nodes.
  set (o0 := fprint_line _ (events_line conf)).
  destruct (fprint_nodes_ok conf m s (Z.to_nat (Z.of_nat (length nodes)) + 1)
    (mk_oset (nElems (CC_table s)) (root (CC_table s)) st) None o0) as (o & Ho & Hpost); cbn [stack]; rewrite ?Hrem.
  - done.
  - done.
  - fold nodes. lia.
  - intros c Hc. split; [done|by apply Hprint].
  - done.
  - unfold counts_room. fold nodes. cbn [o0 fprint_line set_field distinct_files distinct_fns distinct_lines]. lia.
  - cbn [stack] in Hpost. rewrite Hrem in Hpost. fold m. rewrite Ho. cbn [obind].
    destruct Hpost as [Hlines Htotal Hfiles Hfns Hlns]. fold nodes in Hlines, Htotal, Hfiles, Hfns, Hlns.
    assert (Htot : forall f, total o f = u64 (column m nodes f)).
    { intros f. assert (H0 : total o0 f = 0) by (unfold total; cbn [o0 totals set_field fprint_line]; by rewrite lookup_empty).
      by rewrite Htotal, H0 by lia. }
    rewrite (map_ext _ _ Htot), fprint_llus_ok by (apply Forall_map, Forall_true; intros f; apply u64_range).
    cbn [obind]. eexists. split; [reflexivity|].
    unfold fprint_line, set_field. cbn [out_lines distinct_files distinct_fns distinct_lines].
    split_and!.
    + exact Htot.
    + by rewrite Hlines, <-app_assoc.
    + done.
    + done.
    + done.
Qed.

(** C26: the output file, for tables of fewer than 9227464 lines.  After the header
    come the nodes in order, each with one
    line of its counters, with an ["fl="] or ["fn="] line exactly where the
    name of the file or function changes, and each name of a file (of a
    function, within a file) is announced once only; the summary shows for
    each counter the sum over all nodes modulo 2^64, which are the totals
    [cg_fini] uses.  The report of the policies follows the summary and ends the
    file.  All this is written without failure when [print_stats] can print the report;
    where that is undefined (as in the fixed-window mode) writing the file is. *)
Theorem output_lists_every_line_once conf exe args s (nodes := elements (root (CC_table s)))
    (m := line_counters (cache_sim s)) :
  wf_tables s -> Z.of_nat (length nodes) < 9227464 ->
  (forall c, c ∈ nodes -> printable m c) ->
  match print_stats (cache_sim s) with
  | Ok report => exists o, fprint_CC_table_and_calc_totals conf true exe args s = Ok o
    /\ (forall f, total o f = u64 (column m nodes f))
    /\ out_lines o = head_lines conf exe args (cache_sim s) ++ body_lines conf m None nodes
         ++ [llus_text "summary:" (map (fun f => u64 (column m nodes f)) (data_fields conf))]
    /\ out_report o = report
    /\ StronglySorted (part_before only_file) (heads only_file None nodes)
    /\ StronglySorted (part_before file_and_fn) (heads file_and_fn None nodes)
    /\ distinct_files o = Z.of_nat (length (heads only_file None nodes))
    /\ distinct_fns o = Z.of_nat (length (heads file_and_fn None nodes))
    /\ distinct_lines o = Z.of_nat (length nodes)
  | Err e => fprint_CC_table_and_calc_totals conf true exe args s = Err e
  end.
Proof.
  intros Hwf Hsize Hprint. pose proof (wf_sorted _ (wf_CC s Hwf)) as Hsorted.
  destruct (output_written conf exe args s Hwf Hsize Hprint) as (o & Ho & Ht & Hl & Hf & Hn & Hd).
  destruct (print_stats (cache_sim s)) as [report|e]; [|done]. exists (o <| out_report := report |>). split_and!; try done.
  - by apply heads_increasing; [apply only_file_coarser|].
  - by apply heads_increasing; [apply file_and_fn_coarser|].
Qed.

(** The lines of three instructions of the demonstration program. *)
Definition demo_tables : tool :=
  match (a ← get_lineCC demo_lines demo_fns 64; b ← get_lineCC demo_lines demo_fns 100;
         get_lineCC demo_lines demo_fns 200) (tool_init (sim_static lru_globals (fun _ => true))) with
  | Ok (_, s) => s
  | Err _ => tool_init (sim_static lru_globals (fun _ => true))
  end.

Lemma demo_tables_wf : wf_tables demo_tables.
Proof.
  set (s0 := tool_init (sim_static lru_globals (fun _ => true))).
  destruct (get_lineCC_ok demo_lines demo_fns 64 s0 3) as (c1 & s1 & E1 & H1); [apply tool_init_wf|unfold debug_room; cbn; lia|lia|].
  destruct (get_lineCC_ok demo_lines demo_fns 100 s1 2) as (c2 & s2 & E2 & H2); [apply H1|apply H1|lia|].
  destruct (get_lineCC_ok demo_lines demo_fns 200 s2 1) as (c3 & s3 & E3 & H3); [apply H2|apply H2|lia|].
  assert (E : demo_tables = s3).
  { unfold demo_tables, mbind, SE_bind. fold s0. rewrite E1. cbn [obind]. rewrite E2. cbn [obind]. by rewrite E3. }
  rewrite E. apply H3.
Qed.

Lemma demo_report : print_stats (cache_sim demo_tables) = Ok ("BIP Throttle parameter 0.000000" +:+ newline)%string.
Proof. vm_compute. reflexivity. Qed.

Lemma demo_tables_three : length (elements (root (CC_table demo_tables))) = 3%nat.
Proof. vm_compute. reflexivity. Qed.

Definition zeroed (m : gmap counter_ptr Z) (c : LineCC) : bool :=
  forallb (fun f => match m !! (lcc c, f) with Some v => v =? 0 | None => false end) counter_fields
  && (- 2 ^ 31 <=? line (loc c)) && (line (loc c) <? 2 ^ 31).

Lemma zeroed_printable m c : zeroed m c = true -> printable m c.
Proof.
  unfold zeroed. rewrite !andb_true_iff, List.forallb_forall, Z.leb_le, Z.ltb_lt. intros [[Hf Hl] Hl'].
  split; [|done]. intros f. exists 0. split; [|lia]. specialize (Hf f).
  destruct (m !! (lcc c, f)); [|by exfalso; discriminate Hf; destruct f; cbn; tauto].
  f_equal. apply Z.eqb_eq, Hf. destruct f; cbn; tauto.
Qed.

Lemma demo_tables_printable c : c ∈ elements (root (CC_table demo_tables)) ->
  printable (line_counters (cache_sim demo_tables)) c.
Proof.
  intros Hc. apply zeroed_printable.
  assert (H : forallb (zeroed (line_counters (cache_sim demo_tables))) (elements (root (CC_table demo_tables))) = true)
    by (vm_compute; reflexivity).
  rewrite List.forallb_forall in H. apply H. by apply list_elem_of_In.
Qed.

Lemma output_lists_every_line_once_witness (conf := mk_options true true EmptyString 16 VGA_amd64)
    (nodes := elements (root (CC_table demo_tables))) (m := line_counters (cache_sim demo_tables)) :
  (length nodes = 3%nat) /\
  exists o, fprint_CC_table_and_calc_totals conf true "prog" ["-x"%string] demo_tables = Ok o
    /\ (forall f, total o f = u64 (column m nodes f))
    /\ out_lines o = head_lines conf "prog" ["-x"%string] (cache_sim demo_tables) ++ body_lines conf m None nodes
         ++ [llus_text "summary:" (map (fun f => u64 (column m nodes f)) (data_fields conf))]
    /\ out_report o = ("BIP Throttle parameter 0.000000" +:+ newline)%string
    /\ StronglySorted (part_before only_file) (heads only_file None nodes)
    /\ StronglySorted (part_before file_and_fn) (heads file_and_fn None nodes)
    /\ distinct_files o = Z.of_nat (length (heads only_file None nodes))
    /\ distinct_fns o = Z.of_nat (length (heads file_and_fn None nodes))
    /\ distinct_lines o = Z.of_nat (length nodes).
Proof.
  split; [exact demo_tables_three|].
  pose proof (output_lists_every_line_once conf "prog" ["-x"%string] demo_tables demo_tables_wf
    ltac:(rewrite demo_tables_three; lia) demo_tables_printable) as H.
  rewrite demo_report in H. exact H.
Defined.

(** ** The summary *)

(** What a rate of the summary divides by. *)
Definition divisors (msg : message) : list Z :=
  match msg with M_rates _ _ rates => map (fun r => snd (snd r)) rates | _ => [] end.

Lemma ULong_width_ok n : 0 <= n < 2 ^ 64 -> exists w, ULong_width n = Ok w.
Proof.
  intros Hn. unfold ULong_width. rewrite width_loop_digits by (cbn; lia). cbn [obind]. by eexists.
Qed.

Lemma nonzero_pos x : 0 <= x < 2 ^ 63 -> 1 <= nonzero x < 2 ^ 63.
Proof. intros Hx. unfold nonzero. destruct (Z.eqb_spec 0 x); lia. Qed.

Definition LL_rates (msg : message) : Prop := exists rates, msg = M_rates C_rd_wr "LL miss rate:  " rates.

Definition guarded (T : Z) (msg : message) : Prop :=
  (LL_rates msg /\ Forall (fun d => d = T) (divisors msg))
  \/ (~ LL_rates msg /\ Forall (fun d => d <> 0) (divisors msg)).

Lemma guarded_counts T cols label counts : guarded T (M_counts cols label counts).
Proof. right. split; [by intros [? ?]|constructor]. Qed.

Lemma guarded_blank T : guarded T M_blank.
Proof. right. split; [by intros [? ?]|constructor]. Qed.

Lemma guarded_rates T cols label rates : label <> "LL miss rate:  "%string ->
  Forall (fun d => d <> 0) (divisors (M_rates cols label rates)) -> guarded T (M_rates cols label rates).
Proof. intros Hl Hd. right. split; [|done]. by intros [? [= ? ? ?]]. Qed.

Lemma guarded_LL T w1 w2 w3 n1 n2 n3 :
  guarded T (M_rates C_rd_wr "LL miss rate:  " [(w1, (n1, T)); (w2, (n2, T)); (w3, (n3, T))]).
Proof. left. split; [by eexists|]. repeat constructor. Qed.

Ltac non_zero := cbn [divisors map snd]; repeat (apply Forall_cons; split); try apply Forall_nil.

(** the summary is written for all totals, and no rate divides by zero but
    those of the LL cache, which all divide by the misses of the first level
    and are not guarded; and a run without branches is reported as two
    branches, one of each kind, since the guard against division by zero has
    changed the totals before they are printed. *)
Theorem summary_rates_guarded conf verbosity t :
  (forall f, 0 <= t f < 2 ^ 62) -> verbosity <> 0 ->
  exists ms, cg_fini conf verbosity t = Ok ms
    /\ (forall msg d, msg ∈ ms -> d ∈ divisors msg -> ~ LL_rates msg -> d <> 0)
    /\ (forall msg d, msg ∈ ms -> d ∈ divisors msg -> LL_rates msg -> d = t Dr_m1 + t Dw_m1 + t Ir_m1)
    /\ (clo_branch_sim conf = true -> t Bc_b = 0 -> t Bi_b = 0 ->
          exists l1 l2 l3, M_counts C_cond_ind "Branches:     " [(l1, 2); (l2, 1); (l3, 1)] ∈ ms).
Proof.
  intros Ht Hv. unfold cg_fini. apply Z.eqb_neq in Hv as ->.
  assert (Hmax : forall b x y, 0 <= (if b : bool then t x else t y) < 2 ^ 64)
    by (intros [] x y; pose proof (Ht x); pose proof (Ht y); lia).
  destruct (ULong_width_ok (t Ir_a)) as (l1 & ->); [specialize (Ht Ir_a); lia|]. cbn [obind].
  destruct (ULong_width_ok (if t Bc_b <=? t Dr_a then t Dr_a else t Bc_b)) as (l2 & ->); [apply Hmax|]. cbn [obind].
  destruct (ULong_width_ok (if t Bi_b <=? t Dw_a then t Dw_a else t Bi_b)) as (l3 & ->); [apply Hmax|]. cbn [obind].
  cbv zeta. eexists. split; [reflexivity|].
  assert (Hall : forall ms, Forall (guarded (t Dr_m1 + t Dw_m1 + t Ir_m1)) ms ->
    (forall msg d, msg ∈ ms -> d ∈ divisors msg -> ~ LL_rates msg -> d <> 0)
    /\ (forall msg d, msg ∈ ms -> d ∈ divisors msg -> LL_rates msg -> d = t Dr_m1 + t Dw_m1 + t Ir_m1)).
  { intros ms Hms. rewrite Forall_forall in Hms.
    split; intros msg d Hmsg Hd Hll; destruct (Hms msg Hmsg) as [[? Hf]|[? Hf]]; try done;
      rewrite Forall_forall in Hf; by apply Hf. }
  apply and_assoc. split.
  - apply Hall. rewrite !Forall_app. split_and!.
    + apply Forall_cons. split; [apply guarded_counts|constructor].
    + destruct (clo_cache_sim conf); [|constructor].
      rewrite (u64_small (t Dr_a + t Dw_a)), (u64_small (t Dr_m1 + t Dw_m1 + t Ir_m1))
        by (pose proof (Ht Dr_a); pose proof (Ht Dw_a); pose proof (Ht Dr_m1); pose proof (Ht Dw_m1); pose proof (Ht Ir_m1); lia).
      assert (Hnz : forall f, nonzero (t f) <> 0) by (intros f; pose proof (nonzero_pos (t f)); specialize (Ht f); lia).
      assert (HD : nonzero (t Dr_a + t Dw_a) <> 0)
        by (pose proof (nonzero_pos (t Dr_a + t Dw_a)); pose proof (Ht Dr_a); pose proof (Ht Dw_a); lia).
      repeat (apply Forall_cons; split;
        [first [apply guarded_counts | apply guarded_blank | apply guarded_LL | apply guarded_rates; [done|by non_zero]]|]).
      constructor.
    + destruct (clo_branch_sim conf); [|constructor].
      pose proof (nonzero_pos (t Bc_b)). pose proof (nonzero_pos (t Bi_b)). pose proof (Ht Bc_b). pose proof (Ht Bi_b).
      rewrite (u64_small (nonzero (t Bc_b) + nonzero (t Bi_b))) by lia.
      repeat (apply Forall_cons; split;
        [first [apply guarded_counts | apply guarded_blank | apply guarded_rates; [done|non_zero; lia]]|]).
      constructor.
  - intros -> -> ->. exists l1, l2, l3. rewrite !elem_of_app. right. right. right. left.
Qed.

Lemma summary_rates_guarded_witness (conf := mk_options true true EmptyString 16 VGA_amd64)
    (t := fun f => match f with Ir_a => 12345 | _ => 0 end) :
  exists ms, cg_fini conf 1 t = Ok ms
    /\ (forall msg d, msg ∈ ms -> d ∈ divisors msg -> ~ LL_rates msg -> d <> 0)
    /\ (forall msg d, msg ∈ ms -> d ∈ divisors msg -> LL_rates msg -> d = t Dr_m1 + t Dw_m1 + t Ir_m1)
    /\ (clo_branch_sim conf = true -> t Bc_b = 0 -> t Bi_b = 0 ->
          exists l1 l2 l3, M_counts C_cond_ind "Branches:     " [(l1, 2); (l2, 1); (l3, 1)] ∈ ms).
Proof. apply (summary_rates_guarded conf 1 t); [intros []; cbn; lia|lia]. Defined.

(** ** Discarding *)

Lemma free_instrs_lookup sb m k :
  free_instrs sb m !! k = if decide (instrs sb <= k < instrs sb + n_instrs sb) then None else m !! k.
Proof.
  unfold free_instrs.
  assert (H : forall l, foldr (fun k m => delete (instrs sb + k) m) m l !! k
    = if decide (k - instrs sb ∈ l) then None else m !! k).
  { intros l. induction l as [|x l IH]; cbn [foldr]; [by rewrite decide_False by apply not_elem_of_nil|].
    rewrite lookup_delete. destruct (decide (instrs sb + x = k)) as [E|E].
    - rewrite decide_True; [done|]. apply elem_of_cons. left. lia.
    - rewrite IH. apply decide_ext. rewrite elem_of_cons. intuition lia. }
  rewrite H. apply decide_ext. rewrite elem_of_seqZ. lia.
Qed.

(** discarding a translated superblock removes its node from the InstrInfo
    table and frees the instructions the node holds, and touches no other
    block, instruction, line or counter; the block may then be instrumented
    again.  For a block that is not in the table, or extents that are empty,
    the assertion fails. *)
Theorem discard_forgets_the_block n_used base0 s : wf_tables s ->
  match VG_OSetGen_Lookup (instrInfoTable s) base0 with
  | Some sb => 0 < n_used ->
      exists s', cg_discard_superblock_info n_used base0 s = Ok (tt, s')
      /\ wf_tables s'
      /\ (forall a, VG_OSetGen_Lookup (instrInfoTable s') a
            = if a =? base0 then None else VG_OSetGen_Lookup (instrInfoTable s) a)
      /\ (forall k, instr_infos s' !! k
            = if decide (instrs sb <= k < instrs sb + n_instrs sb) then None else instr_infos s !! k)
      /\ exists t m, s' = s <| instrInfoTable := t |> <| instr_infos := m |>
  | None => cg_discard_superblock_info n_used base0 s = Err AssertFail
  end /\ (n_used <= 0 -> cg_discard_superblock_info n_used base0 s = Err AssertFail).
Proof.
  intros Hwf. pose proof (wf_infos s Hwf) as Hi. destruct (Remove_ok (instrInfoTable s) base0 Hi) as (t' & Hrem & Hwf' & Hel).
  unfold cg_discard_superblock_info, gets, modify, lift, mbind, SE_bind. rewrite Lookup_ok by done.
  destruct (Z.ltb_spec 0 n_used) as [Hn|Hn]; cbn [assert_that obind].
  2: { split; [|done]. destruct (find_key base0 _); [lia|done]. }
  rewrite Hrem. cbn [obind]. split; [|lia].
  destruct (find_key base0 (elements (root (instrInfoTable s)))) as [sb|] eqn:Hsb; [|done].
  intros _. eexists. split; [reflexivity|]. unfold set_field. cbn [instrInfoTable instr_infos]. split_and!.
  - destruct Hwf. by split.
  - intros a. rewrite !Lookup_ok, Hel by done.
    rewrite find_delete_key. change (kcmp (E := SB_info) base0 a) with (fast_cmp base0 a).
    destruct (fast_cmp_spec base0 a) as (_ & Heq & _).
    destruct (Z.eqb_spec (fast_cmp base0 a) 0), (Z.eqb_spec a base0); try done; exfalso; lia.
  - intros k. apply free_instrs_lookup.
  - by eexists _, _.
Qed.

(** A state with one block, of two instructions. *)
Definition demo_node : SB_info := mk_SB_info 64 2 5.

Definition with_block (s : tool) : tool :=
  s <| instrInfoTable := match VG_OSetGen_Insert VG_OSetGen_Create demo_node with
                         | Ok t => t | Err _ => VG_OSetGen_Create end |>.

Lemma with_block_wf s : wf_tables s -> wf_tables (with_block s).
Proof.
  destruct (Insert_ok VG_OSetGen_Create demo_node create_wf eq_refl) as (t & Ht & Hwf & _).
  intros []. unfold with_block. rewrite Ht. by split.
Qed.

Lemma discard_forgets_the_block_witness :
  exists s', cg_discard_superblock_info 1 64 (with_block demo_tables) = Ok (tt, s')
    /\ wf_tables s' /\ VG_OSetGen_Lookup (instrInfoTable s') 64 = None.
Proof.
  pose proof (proj1 (discard_forgets_the_block 1 64 (with_block demo_tables) (with_block_wf _ demo_tables_wf))) as H.
  destruct (H eq_refl) as (s' & Hs' & Hwf & Hl & _). exists s'. split; [exact Hs'|].
  split; [exact Hwf|]. exact (Hl 64).
Defined.
