(* ===== verification/ReportTheory.v ===== *)
(** * Theorems on what a run prints

    The formats of the output file give the lines that the model of it has; the
    summary and the report of the policies are printed, or undefined for the
    inputs named here. *)

From Stdlib Require Import SpecFloat.
From S2P Require Import Prelude Float LibcBase Printf Vprintf VprintfTheory BranchPred SetRef CacheSim OSet CgMain.
From S2P Require Import CgOutput CgTheory Report.

(** ** The formats of the output file *)

(** [" %llu"] for each value. *)
Fixpoint llu_format (n : nat) (rest : string) : string :=
  match n with O => rest | S n => (" %llu" +:+ llu_format n rest)%string end.

Lemma llus_text_app prefix vs : llus_text prefix vs = (prefix +:+ llus_text EmptyString vs)%string.
Proof.
  unfold llus_text. revert prefix. induction vs as [|v vs IH]; intros prefix; cbn [foldl]; [by rewrite string_app_nil_r|].
  by rewrite IH, (IH (EmptyString +:+ _)%string), !string_app_assoc.
Qed.

Lemma prints_llus vs format vargs text : Forall (fun v => 0 <= v < 2 ^ 64) vs -> prints format vargs text ->
  prints (llu_format (length vs) format) (map A64 vs ++ vargs) (llus_text EmptyString vs +:+ text)%string.
Proof.
  intros Hvs H. induction Hvs as [|v vs Hv _ IH]; [exact H|]. cbn [length llu_format map app].
  replace (llus_text EmptyString (v :: vs) +:+ text)%string
    with (String (char_of 32) (nat_text v +:+ (llus_text EmptyString vs +:+ text)))%string.
  - apply prints_char; [done|]. by apply prints_llu.
  - change (llus_text EmptyString (v :: vs)) with (llus_text (EmptyString +:+ " " +:+ nat_text v) vs).
    by rewrite (llus_text_app (_ +:+ _)), !string_app_assoc.
Qed.

(** The literal formats of [fprint_CC_table_and_calc_totals], for each of the
    four combinations of simulations, print through [VG_(debugLog_vprintf)] the
    lines of the model: the line number, or "summary:", and after a blank each
    counter in decimal. *)
Theorem output_formats_print conf l vs :
  - 2 ^ 31 <= l < 2 ^ 31 -> length vs = length (data_fields conf) -> Forall (fun v => 0 <= v < 2 ^ 64) vs ->
  sprintf (line_format conf) (A32 l :: map A64 vs)
    = (let* num := fmt_d l in let* t := fprint_llus num vs in Ok (t +:+ newline)%string)
  /\ sprintf (summary_format conf) (map A64 vs)
    = (let* t := fprint_llus "summary:" vs in Ok (t +:+ newline)%string).
Proof.
  intros Hl Hn Hvs.
  assert (Hf : line_format conf = ("%d" +:+ llu_format (length vs) newline)%string
    /\ summary_format conf = ("summary:" +:+ llu_format (length vs) newline)%string).
  { rewrite Hn. unfold line_format, summary_format, data_fields.
    by destruct (clo_cache_sim conf), (clo_branch_sim conf). }
  destruct Hf as [-> ->]. rewrite fmt_d_spec by lia. cbn [obind]. rewrite !fprint_llus_ok by done. cbn [obind].
  fold (text_of ((if l <? 0 then [char_of 45] else []) ++ dec_string (Z.abs l))). fold (int_text l).
  rewrite (llus_text_app (int_text l)), (llus_text_app "summary:"), !string_app_assoc.
  rewrite <-(app_nil_r (map A64 vs)). split; apply prints_sprintf.
  - apply prints_d; [done|]. apply prints_llus; [done|]. apply prints_newline.
  - do 8 (apply prints_char; [done|]). apply prints_llus; [done|]. apply prints_newline.
Qed.

Lemma output_formats_print_witness (conf := mk_options true false EmptyString 16 VGA_amd64)
    (vs := [1; 2; 3; 4; 5; 6; 7; 8; 2 ^ 64 - 1]) :
  sprintf (line_format conf) (A32 (-1) :: map A64 vs)
    = (let* num := fmt_d (-1) in let* t := fprint_llus num vs in Ok (t +:+ newline)%string)
  /\ sprintf (summary_format conf) (map A64 vs)
    = (let* t := fprint_llus "summary:" vs in Ok (t +:+ newline)%string).
Proof. apply output_formats_print; [lia|reflexivity|]. repeat constructor; lia. Defined.

(** ** The summary *)

Lemma sprintf_ends format vargs : ends (sprintf format vargs) (fun _ => True).
Proof.
  unfold sprintf. eapply ends_bind; [|by intros [? ?] _].
  eapply ends_mono; [by apply vprintf_loop_ends|done].
Qed.

Lemma show_message_ends m : ends (show_message m) (fun _ => True).
Proof.
  destruct m as [cols label counts|cols label rates|]; cbn [show_message]; try apply sprintf_ends.
  eapply ends_bind; [apply sprintf_ends|]. intros fmt _. apply sprintf_ends.
Qed.

(** A message that cannot be printed makes the summary undefined. *)
Lemma show_messages_undefined ms m : m ∈ ms -> show_message m = Err Undefined -> show_messages ms = Err Undefined.
Proof.
  intros Hin Hm. induction ms as [|m' ms IH]; [by apply not_elem_of_nil in Hin|]. cbn [show_messages].
  pose proof (show_message_ends m') as He. destruct (show_message m') as [t|e] eqn:E; cbn [obind]; [|by rewrite He].
  apply elem_of_cons in Hin as [<-|Hin]; [congruence|]. by rewrite (IH Hin).
Qed.

(** A directive that fails. *)
Definition fails (format : string) (vargs : va_list) : Prop :=
  forall ret sent, vprintf_loop (String.length format) false format vargs ret sent = Err Undefined.

Lemma fails_char c format vargs : code c <> 37 -> fails format vargs -> fails (String c format) vargs.
Proof. intros Hc H ret sent. cbn [String.length]. rewrite vprintf_loop_step. apply Z.eqb_neq in Hc as ->. apply H. Qed.

Lemma fails_directive format vargs : hd0 format <> 0 -> hd0 format <> 37 ->
  one_directive false format vargs = Err Undefined -> fails (String (char_of 37) format) vargs.
Proof.
  intros H0 H37 Hd ret sent. cbn [String.length]. rewrite vprintf_loop_step.
  change (negb (code (char_of 37) =? 37)) with false. cbn iota. apply Z.eqb_neq in H0 as ->, H37 as ->.
  by rewrite Hd.
Qed.

Lemma fails_after format vargs n t format' vargs' :
  hd0 format <> 0 -> hd0 format <> 37 -> one_directive false format vargs = Ok (n, t, format', vargs') ->
  fails format' vargs' -> fails (String (char_of 37) format) vargs.
Proof.
  intros H0 H37 Hd H ret sent. cbn [String.length]. rewrite vprintf_loop_step.
  change (negb (code (char_of 37) =? 37)) with false. cbn iota. apply Z.eqb_neq in H0 as ->, H37 as ->.
  rewrite Hd. cbn [obind]. pose proof (one_directive_ends false format vargs) as He. rewrite Hd in He.
  destruct He as [[Hs%suffix_length _] _]. by rewrite (vprintf_loop_fuel _ (String.length format')) by lia.
Qed.

(** No number, as 0 divided by 0, cannot be printed with ["%f"]. *)
Lemma float_nan flags width precision : myvprintf_float flags width precision S754_nan = Err Undefined.
Proof. unfold myvprintf_float, float_digits. cbn [SFltb SFcompare]. repeat case_match; done. Qed.

Lemma percentage_nan : percentage 0 0 = S754_nan.
Proof. reflexivity. Qed.

Lemma LL_rates_undefined w rates : show_message (M_rates C_rd_wr "LL miss rate:  " ((w, (0, 0)) :: rates)) = Err Undefined.
Proof.
  assert (Hf : fails (rates_format C_rd_wr "LL miss rate:  ") (flat_map (fun r => [A32 (fst r);
      ADouble (percentage (fst (snd r)) (snd (snd r)))]) ((w, (0, 0)) :: rates))).
  { cbn [flat_map fst snd app]. rewrite percentage_nan.
    change (rates_format C_rd_wr "LL miss rate:  ")
      with ("LL miss rate:  " +:+ String (char_of 37) ("*.1f%% (%*.1f%%     + %*.1f%%  )" +:+ newline))%string.
    do 15 (apply fails_char; [done|]). apply fails_directive; [done|done|].
    rewrite (one_directive_eq _ _ (mk_directive 0 (s32 w) 1 false false) (char_of 102)
      ("%% (%*.1f%%     + %*.1f%%  )" +:+ newline)%string
      (ADouble S754_nan :: flat_map (fun r => [A32 (fst r); ADouble (percentage (fst (snd r)) (snd (snd r)))]) rates)) by done.
    transitivity (let* (ret, text) := myvprintf_float 0 (s32 w) 1 S754_nan in
      Ok (ret, text, ("%% (%*.1f%%     + %*.1f%%  )" +:+ newline)%string,
        flat_map (fun r => [A32 (fst r); ADouble (percentage (fst (snd r)) (snd (snd r)))]) rates)); [reflexivity|].
    by rewrite float_nan. }
  cbn [show_message]. unfold sprintf, VG_debugLog_vprintf. by rewrite Hf.
Qed.

Lemma print_all_ends calls : ends (print_all calls) (fun _ => True).
Proof.
  induction calls as [|[format vargs] calls IH]; [done|]. cbn [print_all].
  eapply ends_bind; [apply sprintf_ends|]. intros t _. by eapply ends_bind.
Qed.

(** The messages of the summary, the LL miss rates among them. *)
Lemma cg_fini_returns conf verbosity t : (forall f, 0 <= t f < 2 ^ 62) -> verbosity <> 0 ->
  exists ms l1 rates, cg_fini conf verbosity t = Ok ms
    /\ (clo_cache_sim conf = true ->
        M_rates C_rd_wr "LL miss rate:  "
          ((l1, (u64 (t Dr_mL + t Dw_mL + t Ir_mL), u64 (t Dr_m1 + t Dw_m1 + t Ir_m1))) :: rates) ∈ ms).
Proof.
  intros Ht Hv. unfold cg_fini. apply Z.eqb_neq in Hv as ->.
  assert (Hw : forall n, 0 <= n < 2 ^ 62 -> exists w, ULong_width n = Ok w) by (intros n Hn; apply ULong_width_ok; lia).
  assert (Hmax : forall (b : bool) x y, 0 <= (if b then t x else t y) < 2 ^ 62) by (intros [] x y; apply Ht).
  destruct (Hw _ (Ht Ir_a)) as (l1 & ->). cbn [obind].
  destruct (Hw _ (Hmax (t Bc_b <=? t Dr_a) Dr_a Bc_b)) as (l2 & ->). cbn [obind].
  destruct (Hw _ (Hmax (t Bi_b <=? t Dw_a) Dw_a Bi_b)) as (l3 & ->). cbn [obind]. cbv zeta.
  eexists _, l1, _. split; [reflexivity|]. intros ->. rewrite !elem_of_app. right. left.
  do 13 right. left.
Qed.

(** The whole summary is printed, or undefined: it is undefined whenever the
    caches are simulated and no reference has missed the first level, because
    the LL miss rate, 0 divided by 0, is then converted to an integer. *)
Theorem summary_undefined_without_misses conf verbosity stats s o :
  (forall f, 0 <= total o f < 2 ^ 62) -> verbosity <> 0 ->
  match cg_fini_text conf verbosity stats s o with Ok _ => True | Err e => e = Undefined end
  /\ (clo_cache_sim conf = true -> total o Ir_m1 = 0 -> total o Dr_m1 = 0 -> total o Dw_m1 = 0 ->
      total o Dr_mL = 0 -> total o Dw_mL = 0 -> total o Ir_mL = 0 ->
      cg_fini_text conf verbosity stats s o = Err Undefined).
Proof.
  intros Ht Hv. unfold cg_fini_text.
  assert (Hms : forall ms, ends (show_messages ms) (fun _ => True)).
  { intros ms. induction ms as [|m ms IH]; [done|]. cbn [show_messages]. eapply ends_bind; [apply show_message_ends|].
    intros t _. by eapply ends_bind. }
  destruct (cg_fini_returns conf verbosity (total o) Ht Hv) as (ms & l1 & rates & Hf & HLL). rewrite Hf. cbn [obind]. split.
  - apply (ends_bind _ _ _ (fun _ => True) (Hms ms)). intros text _.
    eapply ends_bind with (P := fun _ => True); [|done]. destruct (stats && negb (verbosity =? 0)); [|done].
    unfold cg_fini_stats, int_add. repeat (case_match; [|done]; cbn [obind]). apply print_all_ends.
  - intros Hc H1 H2 H3 H4 H5 H6. specialize (HLL Hc). rewrite H1, H2, H3, H4, H5, H6 in HLL.
    by rewrite (show_messages_undefined ms _ HLL (LL_rates_undefined l1 _)).
Qed.

Lemma summary_undefined_without_misses_witness (conf := mk_options true false EmptyString 16 VGA_amd64)
    (o := mk_output [] EmptyString None None {[Ir_a := 100]} 0 0 0) :
  match cg_fini_text conf 1 true demo_tables o with Ok _ => True | Err e => e = Undefined end
  /\ (clo_cache_sim conf = true -> total o Ir_m1 = 0 -> total o Dr_m1 = 0 -> total o Dw_m1 = 0 ->
      total o Dr_mL = 0 -> total o Dw_mL = 0 -> total o Ir_mL = 0 ->
      cg_fini_text conf 1 true demo_tables o = Err Undefined).
Proof.
  apply (summary_undefined_without_misses conf 1 true demo_tables o); [|lia].
  intros []; vm_compute; (split; [discriminate|reflexivity]).
Defined.

(** ** The report of the policies *)

Lemma vprintf_loop_prefix fuel format vargs ret sent r t :
  vprintf_loop fuel false format vargs ret sent = Ok (r, t) -> exists u, t = (sent +:+ u)%string.
Proof.
  revert format vargs ret sent. induction fuel as [|fuel IH]; intros [|c format] vargs ret sent; try done.
  - intros [= <- <-]. exists EmptyString. by rewrite string_app_nil_r.
  - intros [= <- <-]. exists EmptyString. by rewrite string_app_nil_r.
  - rewrite vprintf_loop_step.
    assert (Hmore : forall f v n x, vprintf_loop fuel false f v n (sent +:+ x) = Ok (r, t) -> exists u, t = (sent +:+ u)%string).
    { intros f v n x (u & ->)%IH. exists (x +:+ u)%string. by rewrite string_app_assoc. }
    case_match; [by apply Hmore|]. case_match.
    { intros [= <- <-]. exists EmptyString. by rewrite string_app_nil_r. }
    case_match; [by apply Hmore|].
    destruct (one_directive false format vargs) as [[[[n x] f] v]|]; [|done]. cbn [obind]. apply Hmore.
Qed.

Lemma sprintf_not_empty c format vargs t : code c <> 37 -> sprintf (String c format) vargs = Ok t -> t <> EmptyString.
Proof.
  unfold sprintf, VG_debugLog_vprintf. intros Hc H. cbn [String.length] in H. rewrite vprintf_loop_step in H.
  apply Z.eqb_neq in Hc. rewrite Hc in H. cbn [negb] in H.
  destruct (vprintf_loop _ _ _ _ _ _) as [[r x]|] eqn:E; [|done]. injection H as <-.
  by apply vprintf_loop_prefix in E as (u & ->).
Qed.

Lemma policy_table_ends title all ps field : ends (policy_table title all ps field) (fun _ => True).
Proof.
  unfold policy_table. do 4 (eapply ends_bind with (P := fun _ => True); [unfold rd; by repeat case_match|intros ? _]).
  apply sprintf_ends.
Qed.

Fixpoint plain_text (s : string) : bool :=
  match s with EmptyString => true | String c s => negb (code c =? 37) && plain_text s end.

Lemma fails_text text format vargs : plain_text text = true -> fails format vargs -> fails (text +:+ format)%string vargs.
Proof.
  intros Ht Hf. induction text as [|c text IH]; [done|]. cbn in Ht. apply andb_true_iff in Ht as [Hc Ht].
  rewrite string_cons_app. apply fails_char; [|by apply IH]. apply negb_true_iff, Z.eqb_neq in Hc. done.
Qed.

Lemma directive_nan format vargs : one_directive false ("f" +:+ format)%string (ADouble S754_nan :: vargs) = Err Undefined.
Proof.
  rewrite (one_directive_eq _ _ (mk_directive 0 0 (-1) false false) (char_of 102) format (ADouble S754_nan :: vargs)) by done.
  transitivity (let* (ret, text) := myvprintf_float 0 0 (-1) S754_nan in Ok (ret, text, format, vargs)); [reflexivity|].
  by rewrite float_nan.
Qed.

(** The first row divides 0 by 0. *)
Lemma table_nan ps field : (forall p, p ∈ ps -> field p = 0) ->
  policy_table "Summary policy used times [Total uses %llu]:" 0 ps field = Err Undefined.
Proof.
  intros Hz. unfold policy_table.
  assert (Hrd : forall i, rd ps i = Err Undefined \/ exists p, rd ps i = Ok p /\ field p = 0).
  { intros i. unfold rd. case_match; [|by left]. destruct (ps !! Z.to_nat i) as [p|] eqn:E; [|by left].
    right. exists p. split; [done|]. apply Hz. by apply list_elem_of_lookup_2 in E. }
  destruct (Hrd 0) as [->|(p0 & -> & H0)]; [done|]. cbn [obind]. destruct (Hrd 1) as [->|(p1 & -> & _)]; [done|]. cbn [obind].
  destruct (Hrd 2) as [->|(p2 & -> & _)]; [done|]. cbn [obind]. destruct (Hrd 3) as [->|(p3 & -> & _)]; [done|]. cbn [obind].
  rewrite H0. change (float_percentage 0 0) with S754_nan. cbn [app].
  match goal with |- sprintf ?f ?v = _ => assert (Hf : fails f v); [|unfold sprintf, VG_debugLog_vprintf; by rewrite Hf] end.
  do 2 (apply (fails_text newline); [done|]).
  match goal with |- fails (_ +:+ ?rest) ?v =>
    change (fails ("Summary policy used times [Total uses " +:+ String (char_of 37) ("llu" +:+ ("]:" +:+ rest))) v) end.
  apply fails_text; [done|]. eapply fails_after; [done|done|by apply directive_llu|]. apply fails_text; [done|].
  apply (fails_text newline); [done|].
  match goal with |- fails (_ +:+ ?rest) ?v =>
    change (fails (" " +:+ String (char_of 37) ("s" +:+ (" " +:+ String (char_of 37) ("llu" +:+ (" - " +:+ String (char_of 37) ("f" +:+ (" " +:+ rest))))))) v) end.
  apply fails_text; [done|]. eapply fails_after; [done|done|apply directive_s|].
  apply fails_text; [done|]. eapply fails_after; [done|done|by apply directive_llu|].
  apply fails_text; [done|]. apply fails_directive; [done|done|]. apply directive_nan.
Qed.

Definition combining : list Z := [FIXED_WINDOW; SLIDING_WINDOW; ONLINE; CACHE_DUELING; ADAPTATIVE; NAIVE].

Lemma only_ends (b : bool) (m : outcome string) : ends m (fun _ => True) ->
  ends (if b then m else Ok EmptyString) (fun _ => True).
Proof. by destruct b. Qed.

Lemma print_stats_report s :
  match print_stats s with Ok report => report <> EmptyString | Err e => e = Undefined end.
Proof.
  unfold print_stats. set (throttle := sprintf ("BIP Throttle parameter %f" +:+ newline)%string _).
  assert (Ht : ends throttle (fun t => t <> EmptyString)).
  { pose proof (sprintf_ends ("BIP Throttle parameter %f" +:+ newline)%string [ADouble (bip_throttle_parameter (globals s))]) as He.
    fold throttle in He. destruct throttle as [t|] eqn:E; [|done].
    by apply (sprintf_not_empty (char_of 66) ("IP Throttle parameter %f" +:+ newline)%string [ADouble (bip_throttle_parameter (globals s))]). }
  destruct (negb _); [destruct throttle; exact Ht|].
  match goal with |- match ?m with _ => _ end => change (ends m (fun r => r <> EmptyString)) end.
  do 7 (apply ends_bind with (P := fun _ => True); [apply only_ends, sprintf_ends|intros ? _]).
  apply ends_bind with (P := fun t => t <> EmptyString); [exact Ht|]. intros t8 H8.
  apply ends_bind with (P := fun _ => True); [apply policy_table_ends|]. intros t9 _.
  do 2 (apply ends_bind with (P := fun _ => True); [apply only_ends, policy_table_ends|intros ? _]).
  cbn [ends]. destruct t8 as [|c t8]; [done|]. intros H. apply (f_equal String.length) in H.
  rewrite !string_length_app in H. cbn [String.length] in H. lia.
Qed.

(** [print_stats] returns a report, never an empty one, or C leaves its
    behaviour undefined.  It is undefined in the fixed-window approach, which
    prints the [int] of the window as an [ULong], and in every approach that
    combines policies when no data was referenced, where the share of each
    policy is 0 divided by 0. *)
Theorem print_stats_cases (s : sim) :
  match print_stats s with Ok report => report <> EmptyString | Err e => e = Undefined end
  /\ (current_cache_replacement_policy (globals s) = FIXED_WINDOW -> print_stats s = Err Undefined)
  /\ (current_cache_replacement_policy (globals s) ∈ combining -> data_blocks s = 0 ->
      (forall p, p ∈ policies s -> uses p = 0) -> print_stats s = Err Undefined).
Proof.
  pose proof (print_stats_report s) as Hr. split; [exact Hr|]. split.
  - intros Hf. unfold print_stats. rewrite Hf.
    change (negb (existsb (Z.eqb FIXED_WINDOW) [FIXED_WINDOW; SLIDING_WINDOW; ONLINE; CACHE_DUELING; ADAPTATIVE; NAIVE])) with false.
    change (existsb (Z.eqb FIXED_WINDOW) [FIXED_WINDOW]) with true. cbn iota.
    destruct (sprintf (newline +:+ "...Fixed-window approach..." +:+ newline) []) as [t1|] eqn:E1; [|vm_compute in E1; done].
    cbn [obind]. replace (sprintf (newline +:+ "...Block size: %llu..." +:+ newline) [A32 (window_counter (globals s))])
      with (@Err string Undefined) by (vm_compute; reflexivity). done.
  - intros Hin Hd Hu. destruct (print_stats s) as [report|e] eqn:E; [exfalso|by rewrite Hr].
    unfold print_stats in E.
    assert (Hc : existsb (Z.eqb (current_cache_replacement_policy (globals s))) combining = true).
    { apply existsb_exists. eexists. split; [by apply list_elem_of_In|]. apply Z.eqb_refl. }
    unfold combining in Hc. rewrite Hc in E. cbn [negb] in E. rewrite Hd, (table_nan _ _ Hu) in E.
    repeat match type of E with (obind ?m _) = _ => destruct m; cbn [obind] in E; [|done] end. done.
Qed.
