(* ===== verification/Setup.v ===== *)
(** * Options and start-up: the end of cachegrind/cg_main.c

    The command-line options of the tool, the choice of the replacement policy
    in [cg_post_clo_init], and the register sizes of coregrind/m_machine.c it
    checks the line sizes against.  The messages are not modelled.  Setup,
    configuration of the caches and simulator together: what
    [cg_post_clo_init] accepts can be run. *)

From Stdlib Require Import SpecFloat.
From S2P Require Import Prelude Float LibcBase Printf BranchPred SetRef CacheSim DoRef SimTheory Safety Arch.
From S2P Require Import OSet CgMain LineTable.

(** ** Numbers with a fraction *)

(** The two loops of [VG_(strtod)]. *)
Fixpoint strtod_whole (s : string) (n : double) : double * string :=
  match is_dec_digit (hd0 s), s with
  | Some digit, String _ s' =>
      strtod_whole s' (double_add (double_mul (double_of_Z 10) n) (double_of_Z digit))
  | _, _ => (n, s)
  end.

Fixpoint strtod_frac (s : string) (frac x : double) : double * string :=
  match is_dec_digit (hd0 s), s with
  | Some digit, String _ s' =>
      strtod_frac s' (double_add frac (double_mul x (double_of_Z digit))) (double_div x (double_of_Z 10))
  | _, _ => (frac, s)
  end.

(** The literal 0.1 is the [double] nearest to a tenth. *)
Definition VG_strtod (str : string) : double * string :=
  let str := skip_spaces str in
  let '(neg, str) :=
    if hd0 str =? 45 then (true, tl0 str)
    else if hd0 str =? 43 then (false, tl0 str)
    else (false, str) in
  let '(n, str) := strtod_whole str (double_of_Z 0) in
  let '(frac, str) :=
    if hd0 str =? 46
    then strtod_frac (tl0 str) (double_of_Z 0) (double_div (double_of_Z 1) (double_of_Z 10))
    else (double_of_Z 0, str) in
  let n := double_add n frac in
  (if neg then SFopp n else n, str).

(** ** The options of the tool *)

Record clo := mk_clo {
  clo_I1_cache : cache_t;
  clo_D1_cache : cache_t;
  clo_LL_cache : cache_t;
  clo_cachegrind_out_file : string;
  opt_cache_sim : bool;
  opt_branch_sim : bool;
  clo_overhead : bool;
  clo_cache_policy : string;
  clo_cache_bip_throttle : double;
  clo_online_threshold : Z;
  opt_c_file : string;
  clo_counter : double;
  clo_cache_learning_start : Z;
  clo_cache_learning_end : Z
}.

#[export] Instance clo_eta : RecordEta clo := fun c =>
  mk_clo (clo_I1_cache c) (clo_D1_cache c) (clo_LL_cache c) (clo_cachegrind_out_file c)
    (opt_cache_sim c) (opt_branch_sim c) (clo_overhead c) (clo_cache_policy c)
    (clo_cache_bip_throttle c) (clo_online_threshold c) (opt_c_file c) (clo_counter c)
    (clo_cache_learning_start c) (clo_cache_learning_end c).

Definition clo_default : clo :=
  mk_clo UNDEFINED_CACHE UNDEFINED_CACHE UNDEFINED_CACHE "cachegrind.out.%p" true false false "lru"
    (float_of_Z (-1)) 8 "" (float_of_Z 1024) 0 0.

(** [None] when the argument is not this option; a bad value ends the process. *)
Definition VG_BOOL_CLO (arg opt : string) : outcome (option bool) :=
  match VG_STR_CLO arg opt with
  | None => Ok None
  | Some val =>
      if VG_strcmp val "yes" =? 0 then Ok (Some true)
      else if VG_strcmp val "no" =? 0 then Ok (Some false)
      else bad_option
  end.

(** [same n] is the outcome of comparing the variable, once [n] is stored in
    it, with [n]. *)
Definition VG_INT_CLO (arg opt : string) (same : Z -> bool) : outcome (option Z) :=
  match VG_STR_CLO arg opt with
  | None => Ok None
  | Some val =>
      let* (n, s) := VG_strtoll10 val in
      if negb (hd0 s =? 0) || negb (same n) then bad_option else Ok (Some n)
  end.

Definition VG_DBL_CLO (arg opt : string) : outcome (option double) :=
  match VG_STR_CLO arg opt with
  | None => Ok None
  | Some val =>
      let '(n, s) := VG_strtod val in
      if negb (hd0 s =? 0) then bad_option else Ok (Some n)
  end.

(** Is [arg] an option of the tool, and the options after it. *)
Definition cg_process_cmd_line_option (arg : string) (c : clo) : outcome (bool * clo) :=
  let* (known, I1c, D1c, LLc) := VG_str_clo_cache_opt arg (clo_I1_cache c) (clo_D1_cache c) (clo_LL_cache c) in
  if (known : bool) then Ok (true, c <| clo_I1_cache := I1c |> <| clo_D1_cache := D1c |> <| clo_LL_cache := LLc |>)
  else match VG_STR_CLO arg "--cachegrind-out-file" with
  | Some v => Ok (true, c <| clo_cachegrind_out_file := v |>)
  | None =>
  let* v := VG_BOOL_CLO arg "--cache-sim" in
  match v with Some v => Ok (true, c <| opt_cache_sim := v |>) | None =>
  let* v := VG_BOOL_CLO arg "--branch-sim" in
  match v with Some v => Ok (true, c <| opt_branch_sim := v |>) | None =>
  let* v := VG_BOOL_CLO arg "--overhead" in
  match v with Some v => Ok (true, c <| clo_overhead := v |>) | None =>
  match VG_STR_CLO arg "--cache-policy" with Some v => Ok (true, c <| clo_cache_policy := v |>) | None =>
  let* v := VG_DBL_CLO arg "--bip-throttle" in
  match v with Some v => Ok (true, c <| clo_cache_bip_throttle := to_float v |>) | None =>
  let* v := VG_DBL_CLO arg "--change-threshold" in
  match v with
  | Some v =>
      let* _ := defined_when ((- 2 ^ 31 <=? double_trunc v) && (double_trunc v <? 2 ^ 31)) in
      Ok (true, c <| clo_online_threshold := double_trunc v |>)
  | None =>
  match VG_STR_CLO arg "--c-file" with Some v => Ok (true, c <| opt_c_file := v |>) | None =>
  let* v := VG_INT_CLO arg "--window" (fun n => SFeqb (float_of_Z n) (float_of_Z n)) in
  match v with Some v => Ok (true, c <| clo_counter := float_of_Z v |>) | None =>
  let* v := VG_INT_CLO arg "--startlearning" (fun n => n =? n) in
  match v with Some v => Ok (true, c <| clo_cache_learning_start := v |>) | None =>
  let* v := VG_INT_CLO arg "--endlearning" (fun n => n =? n) in
  match v with Some v => Ok (true, c <| clo_cache_learning_end := v |>) | None =>
  Ok (false, c)
  end end end end end end end end end end end.

(** ** The size of the largest guest register (coregrind/m_machine.c) *)

Definition VEX_HWCAPS_AMD64_AVX : Z := Z.shiftl 1 8.
Definition VEX_HWCAPS_PPC32_V : Z := Z.shiftl 1 9.
Definition VEX_HWCAPS_PPC32_VX : Z := Z.shiftl 1 12.
Definition VEX_HWCAPS_PPC32_DFP : Z := Z.shiftl 1 17.
Definition VEX_HWCAPS_PPC64_V : Z := Z.shiftl 1 13.
Definition VEX_HWCAPS_PPC64_VX : Z := Z.shiftl 1 16.
Definition VEX_HWCAPS_PPC64_DFP : Z := Z.shiftl 1 18.

(** [hwcaps] is what was detected of the processor. *)
Definition VG_machine_get_size_of_largest_guest_register (arch : vga) (hwcaps : Z) : Z :=
  match arch with
  | VGA_x86 => 16
  | VGA_amd64 => if has_flag hwcaps VEX_HWCAPS_AMD64_AVX then 32 else 16
  | VGA_ppc32 =>
      if has_flag hwcaps VEX_HWCAPS_PPC32_V then 16
      else if has_flag hwcaps VEX_HWCAPS_PPC32_VX then 16
      else if has_flag hwcaps VEX_HWCAPS_PPC32_DFP then 16
      else 8
  | VGA_ppc64be | VGA_ppc64le =>
      if has_flag hwcaps VEX_HWCAPS_PPC64_V then 16
      else if has_flag hwcaps VEX_HWCAPS_PPC64_VX then 16
      else if has_flag hwcaps VEX_HWCAPS_PPC64_DFP then 16
      else 8
  | VGA_s390x => 8
  | VGA_arm => 16
  | VGA_arm64 => 16
  | VGA_mips32 | VGA_nanomips => 8
  | VGA_mips64 => 8
  end.

(** ** The choice of the policy *)

(** [VG_(exit)(1)]. *)
Definition VG_exit {A} : outcome A := Err (Exited 1).

(** The test of the throttle parameter each policy that uses it makes. *)
Definition set_throttle (c : clo) (g : cg_arch) : outcome cg_arch :=
  if SFleb (double_of_Z 0) (clo_cache_bip_throttle c) && SFleb (clo_cache_bip_throttle c) (double_of_Z 1)
  then Ok (g <| bip_throttle_parameter := clo_cache_bip_throttle c |>)
  else VG_exit.

Definition set_threshold (c : clo) (g : cg_arch) : outcome cg_arch :=
  if 1 <=? clo_online_threshold c
  then Ok (g <| switching_threshold_parameter := clo_online_threshold c |>)
  else VG_exit.

Definition set_overhead (c : clo) (g : cg_arch) : cg_arch :=
  if clo_overhead c then g <| overhead_allowed := true |> else g.

(** The chain of comparisons.  The learning bounds are stored to variables that
    nothing reads. *)
Definition choose_policy (c : clo) (g : cg_arch) : outcome cg_arch :=
  let chosen s := VG_strcmp (clo_cache_policy c) s =? 0 in
  let use p := g <| cache_replacement_policy := p |> in
  if chosen "lru"%string then Ok (use LRU_POLICY)
  else if chosen "lip"%string then Ok (use LIP_POLICY)
  else if chosen "random"%string then Ok (use RANDOM_POLICY)
  else if chosen "fifo"%string then Ok (use FIFO_POLICY)
  else if chosen "bip"%string then set_throttle c (use BIP_POLICY)
  else if chosen "dip"%string then set_throttle c (use DIP_POLICY)
  else if chosen "dip_3"%string then
    let* g := set_throttle c (use DIP3_POLICY) in Ok (set_overhead c g)
  else if chosen "dip_3a"%string then
    let* g := set_throttle c (use DIP3_AGEING_POLICY) in Ok (set_overhead c g)
  else if chosen "bip"%string then set_throttle c (use BIP_POLICY)
  else if chosen "fix"%string then set_throttle c (use FIXED_WINDOW)
  else if chosen "slide"%string then
    let* g := set_throttle c (use SLIDING_WINDOW) in set_threshold c g
  else if chosen "ada"%string then set_throttle c (use ADAPTATIVE)
  else if chosen "naive"%string then set_throttle c (use NAIVE)
  else if chosen "onl"%string then
    let* g := set_throttle c (use ONLINE) in set_threshold c g
  else if chosen "duel"%string then
    let* g := set_throttle c (use CACHE_DUELING) in set_threshold c g
  else if chosen "learn"%string then set_throttle c (use LEARNING)
  else VG_exit.

(** The globals before [main]. *)
Definition cg_arch_static : cg_arch := mk_cg_arch 0 (double_of_Z 0) 0 0 0 0 false.

(** [cg_set_cache_replacement_policy], called for a client request. *)
Definition cg_set_cache_replacement_policy (policy : Z) : SE sim unit :=
  g ← gets globals;
  let g := g <| current_adaptative_cache_replacement_policy := policy |> in
  modify (fun s => s <| globals := g |>).

Definition min_line_size_of (I1c D1c LLc : cache_t) : Z :=
  let m := if line_size_ I1c <? line_size_ D1c then line_size_ I1c else line_size_ D1c in
  if line_size_ LLc <? m then line_size_ LLc else m.

(** The options that stay and the state in which the client starts; [arch],
    [hwcaps] and [ci] describe the machine. *)
Definition cg_post_clo_init (arch : vga) (hwcaps : Z) (ci : VexCacheInfo) (c : clo) (can_open : string -> bool)
  : outcome (options * tool) :=
  let* (I1c, D1c, LLc) :=
    VG_post_clo_init_configure_caches arch ci (clo_I1_cache c) (clo_D1_cache c) (clo_LL_cache c) in
  let min_line_size := min_line_size_of I1c D1c LLc in
  if min_line_size <? VG_machine_get_size_of_largest_guest_register arch hwcaps then VG_exit
  else
    let* g := choose_policy c cg_arch_static in
    let* _ := defined_when ((- 2 ^ 31 <=? double_trunc (clo_counter c)) && (double_trunc (clo_counter c) <? 2 ^ 31)) in
    let g := g <| current_cache_replacement_policy := cache_replacement_policy g |>
               <| window_counter := double_trunc (clo_counter c) |> in
    let* (_, s) := cachesim_initcaches I1c D1c LLc (sim_static g can_open) in
    Ok (mk_options (opt_cache_sim c) (opt_branch_sim c) (opt_c_file c) min_line_size arch, tool_init s).

(** The start with no options at all. *)
Example default_start :
  match cg_post_clo_init VGA_amd64 256 no_cache_info clo_default (fun _ => true) with
  | Ok (conf, s) => (min_line_size conf, window_counter (globals (cache_sim s)), cachesim_setref_is_miss (cache_sim s))
  | Err _ => (0, 0, F_dueling)
  end = (64, 1024, F_lru).
Proof. vm_compute. reflexivity. Qed.

(** Options given on the command line. *)
Example options_read :
  match cg_process_cmd_line_option "--bip-throttle=0.5" clo_default with
  | Ok (true, c) => SFeqb (clo_cache_bip_throttle c) (double_div (double_of_Z 1) (double_of_Z 2))
  | _ => false
  end = true.
Proof. vm_compute. reflexivity. Qed.

(** The window is kept in a [float], so a large one is not the one asked for. *)
Example window_rounds :
  match cg_process_cmd_line_option "--window=16777217" clo_default with
  | Ok (_, c) => double_trunc (clo_counter c)
  | Err _ => 0
  end = 16777216.
Proof. vm_compute. reflexivity. Qed.

(** ** A started Cachegrind runs *)








