(* ===== verification/MergeCg.v ===== *)
(** * From Cachegrind to cg_merge

    In the output file of a run, as fprint_CC_table_and_calc_totals of cg_main.c
    writes it, the parser of cg_merge.c finds every counter of the table, when
    the report of the policies at its end is cut off; with it the file is rejected. *)

From Stdlib Require Import Sorted.
From S2P Require Import Prelude LibcBase Printf BranchPred SetRef CacheSim OSet OSetTheory CgMain LineTable.
From S2P Require Import CgOutput CgTheory Report ReportTheory WordFM WordTheory Merge MergeText MergeTheory MergeTrip.

(** ** Records that differ *)

Definition same_line (r : FileFn * Z * Counts) (f : FileFn) (l : Z) : Prop :=
  kCmp (fst (fst r)) f = 0 /\ snd (fst r) = l.

Lemma kCmp_line (l l' : Z) : kCmp l l' = 0 <-> l = l'.
Proof. apply (cmp_unboxed_UWord_spec l l'). Qed.

Lemma add_record_other r cnt f l : ~ same_line r f l -> add_record r cnt f l = cnt f l.
Proof.
  intros Hne. unfold add_record, add_count. destruct (Z.eqb_spec (kCmp (fst (fst r)) f) 0); [|done].
  destruct (Z.eqb_spec (kCmp (snd (fst r)) l) 0) as [E|]; [|done].
  exfalso. apply Hne. split; [done|]. by apply kCmp_line.
Qed.

Lemma add_records_other rs cnt f l : (forall r, r ∈ rs -> ~ same_line r f l) -> add_records rs cnt f l = cnt f l.
Proof.
  revert cnt. induction rs as [|r rs IH]; intros cnt Hne; [done|].
  change (add_records (r :: rs) cnt) with (add_records rs (add_record r cnt)).
  rewrite IH by (intros r' Hr'; apply Hne; by right). apply add_record_other, Hne. left.
Qed.

(** Every record of a list without repeated lines is the whole count of its line. *)
Lemma add_records_distinct rs r :
  StronglySorted (fun r r' => ~ same_line r (fst (fst r')) (snd (fst r'))) rs -> r ∈ rs ->
  add_records rs (fun _ _ => None) (fst (fst r)) (snd (fst r)) = Some (snd r).
Proof.
  assert (Hsym : forall r r', same_line r (fst (fst r')) (snd (fst r')) -> same_line r' (fst (fst r)) (snd (fst r))).
  { intros r1 r2 [Hk ->]. split; [|done]. by apply kCmp_sym0. }
  intros Hs Hr. apply list_elem_of_split in Hr as (rs1 & rs2 & ->).
  rewrite add_records_app. change (r :: rs2) with ([r] ++ rs2). rewrite add_records_app.
  rewrite add_records_other.
  - change (add_records [r] (add_records rs1 (fun _ _ => None)) (fst (fst r)) (snd (fst r)))
      with (add_record r (add_records rs1 (fun _ _ => None)) (fst (fst r)) (snd (fst r))).
    unfold add_record, add_count.
    assert (Hr1 : kCmp (fst (fst r)) (fst (fst r)) = 0)
      by (pose proof (kCmp_antisym (fst (fst r)) (fst (fst r))); destruct (kCmp _ _); cbn in *; lia).
    rewrite Hr1. assert (Hr2 : kCmp (snd (fst r)) (snd (fst r)) = 0) by (by apply kCmp_line).
    rewrite Hr2. cbn [Z.eqb andb]. rewrite add_records_other; [done|].
    intros r' Hr' Hsame. clear -Hs Hr' Hsame. induction rs1 as [|x rs1 IH]; [by apply not_elem_of_nil in Hr'|].
    inversion Hs as [|? ? Hs' Hall]; subst. apply elem_of_cons in Hr' as [->|Hr']; [|by apply IH].
    rewrite List.Forall_forall in Hall. apply (Hall r); [|done]. apply in_or_app. right. by left.
  - intros r' Hr' Hsame%Hsym. clear -Hs Hr' Hsame. induction rs1 as [|x rs1 IH].
    + inversion Hs as [|? ? _ Hall]; subst. rewrite List.Forall_forall in Hall. apply (Hall r'); [|done].
      by apply list_elem_of_In.
    + apply IH. by inversion Hs.
Qed.

(** ** The text of Cachegrind *)

Lemma llus_tok_text prefix vs : llus_text prefix vs = (prefix +:+ tok_text (map one_blank vs) 0)%string.
Proof.
  unfold llus_text. revert prefix. induction vs as [|v vs IH]; intros prefix; cbn [foldl map tok_text one_blank].
  { by rewrite string_app_nil_r. }
  by rewrite IH, !string_app_assoc.
Qed.

Lemma one_blank_ok vs : Forall (fun v => 0 <= v < 2 ^ 64) vs ->
  map snd (map one_blank vs) = vs /\ spaced (map one_blank vs) /\ Forall (fun x => 0 <= snd x < 2 ^ 64) (map one_blank vs).
Proof.
  intros Hvs. split_and!.
  - rewrite map_map. unfold one_blank. cbn [snd]. apply map_id.
  - apply Forall_map, Forall_true. intros x. cbn. lia.
  - by apply Forall_map.
Qed.

Section Nodes.
Context (conf : options) (m : gmap counter_ptr Z).

Definition n_fields : Z := Z.of_nat (length (data_fields conf)).

Definition node_counts (c : LineCC) : Counts := map (counted m c) (data_fields conf).
Definition node_fn (c : LineCC) : FileFn := mk_FileFn (chars (file (loc c))) (chars (fn (loc c))).
Definition node_record (c : LineCC) : FileFn * Z * Counts := (node_fn c, line (loc c), node_counts c).

(** A node that a line can show to cg_merge: names without newlines, a line
    number that is not negative. *)
Definition mergeable (c : LineCC) : Prop := printable m c /\ name_ok (node_fn c) /\ 0 <= line (loc c).

Fixpoint node_items (prev : option LineCC) (l : list LineCC) : list item :=
  match l with
  | [] => []
  | c :: l =>
      (if is_head only_file prev c then [Fl (chars (file (loc c)))] else [])
      ++ (if is_head file_and_fn prev c then [Fn (chars (fn (loc c)))] else [])
      ++ [Cnt (line (loc c)) (node_counts c)] ++ node_items (Some c) l
  end.

Lemma node_counts_ok c : printable m c -> counts_ok n_fields (node_counts c).
Proof.
  intros [Hc _]. split; [unfold n_counts, node_counts, n_fields; by rewrite length_map|].
  apply Forall_map, Forall_true. intros f. by apply counted_range.
Qed.

Lemma fields_pos : 1 <= n_fields.
Proof. unfold n_fields, data_fields. destruct (clo_cache_sim conf), (clo_branch_sim conf); cbn; lia. Qed.

Lemma data_line_item c : mergeable c -> item_line n_fields (Cnt (line (loc c)) (node_counts c)) (data_line conf m c).
Proof.
  intros (Hp & _ & Hl). pose proof (node_counts_ok c Hp) as Hok. pose proof Hok as [Hn Hr].
  assert (Hline : line_ok (line (loc c))) by (destruct Hp as [_ Hp]; unfold line_ok; lia).
  assert (Htext : data_line conf m c = tok_text ((0%nat, line (loc c)) :: map one_blank (node_counts c)) 0).
  { unfold data_line. rewrite llus_tok_text. unfold int_text. destruct (Z.ltb_spec (line (loc c)) 0); [lia|].
    rewrite Z.abs_eq by lia. done. }
  destruct (one_blank_ok _ Hr) as (Hsnd & Hsp & Hrange).
  pose proof fields_pos. destruct (node_counts c) as [|v vs] eqn:Hvs; [unfold n_counts in Hn; cbn in Hn; lia|].
  unfold item_line. rewrite Htext. split_and!; [apply clean_tok_text| | |done|done].
  - cbn [tok_text blanks]. rewrite string_nil_app. by apply hd0_nat_text.
  - cbn [map] in *. rewrite split_with_lnno; [by rewrite <-Hsnd|]. split; [done|]. by constructor.
Qed.

Lemma body_items prev l : Forall mergeable l -> Forall2 (item_line n_fields) (node_items prev l) (body_lines conf m prev l).
Proof.
  intros Hl. revert prev. induction Hl as [|c l Hc Hl IH]; intros prev; cbn [node_items body_lines]; [constructor|].
  pose proof Hc as (_ & [Hf Hn] & _).
  apply Forall2_app; [destruct (is_head only_file prev c); by repeat constructor|].
  apply Forall2_app; [destruct (is_head file_and_fn prev c); by repeat constructor|].
  constructor; [by apply data_line_item|apply IH].
Qed.

(** The names in force are those of the last node. *)
Definition names_of (prev : option LineCC) (fl fn : string) : Prop :=
  match prev with Some p => fl = fi_name (node_fn p) /\ fn = fn_name (node_fn p) /\ name_ok (node_fn p) | None => True end.

Lemma node_records prev l fl fn : Forall mergeable l -> names_of prev fl fn ->
  records fl fn (node_items prev l) = map node_record l.
Proof.
  intros Hl. revert prev fl fn. induction Hl as [|c l (Hp & Hnm & Hc) Hl IH]; intros prev fl fn Hprev; [done|].
  cbn [node_items map].
  assert (Hstep : forall fl' fn', fl' = fi_name (node_fn c) -> fn' = fn_name (node_fn c) ->
    records fl' fn' (Cnt (line (loc c)) (node_counts c) :: node_items (Some c) l) = node_record c :: map node_record l).
  { intros fl' fn' -> ->. cbn [records]. f_equal. by apply IH. }
  unfold is_head. destruct prev as [p|]; [|by apply Hstep].
  destruct Hprev as (-> & -> & [Hpf Hpn]), Hnm as [Hcf Hcn]. unfold cmp_CodeLoc, only_file, file_and_fn. cbn [file CgMain.fn line chars].
  destruct (Z.eqb_spec (VG_strcmp (chars (file (loc p))) (chars (file (loc c)))) 0) as [Ef|Ef]; cbn [negb app].
  - apply VG_strcmp_eq in Ef; [|by apply clean_nul_free..].
    destruct (Z.eqb_spec (VG_strcmp (chars (CgMain.fn (loc p))) (chars (CgMain.fn (loc c)))) 0) as [En|En]; cbn [negb app].
    + apply VG_strcmp_eq in En; [|by apply clean_nul_free..]. cbn. by apply Hstep.
    + apply Z.eqb_neq in En as Eb. rewrite Eb. cbn [negb app records]. by apply Hstep.
  - apply Z.eqb_neq in Ef as Eb. rewrite Eb. cbn [negb app records]. by apply Hstep.
Qed.

(** The nodes of the table have different lines. *)
Lemma records_distinct l : StronglySorted before l ->
  StronglySorted (fun r r' => ~ same_line r (fst (fst r')) (snd (fst r'))) (map node_record l).
Proof.
  induction 1 as [|c l Hs IH Hall]; cbn [map]; [constructor|]. constructor; [done|].
  rewrite List.Forall_forall in Hall |- *. intros r (d & <- & Hd)%in_map_iff. specialize (Hall d Hd).
  unfold before in Hall. cbn in Hall. intros [Hk Hline]. cbn in Hk, Hline. unfold kCmp, FileFn_cmp, cmp_FileFn in Hk.
  cbn in Hk. unfold cmp_CodeLoc in Hall. rewrite Hline in Hall.
  destruct (Z.eqb_spec (VG_strcmp (chars (file (loc c))) (chars (file (loc d)))) 0) as [Ef|]; [|lia].
  rewrite Ef, Hk in Hall. cbn in Hall. lia.
Qed.

Lemma node_totals l : Forall (printable m) l ->
  records_total (map node_record l) (new_Counts_Zeroed n_fields) = map (fun f => u64 (column m l f)) (data_fields conf).
Proof.
  intros Hl. destruct (zeroed_ok n_fields ltac:(pose proof fields_pos; lia)) as [Hz Hz0].
  assert (Hrs : Forall (fun r => counts_ok n_fields (snd r)) (map node_record l)).
  { apply Forall_map. eapply Forall_impl; [exact Hl|]. intros c Hc. by apply node_counts_ok. }
  destruct (records_total_ok n_fields _ _ Hrs Hz) as [Hok Hev]. apply (counts_ext n_fields); [done| |].
  - split; [unfold n_counts, n_fields; by rewrite length_map|]. apply Forall_map, Forall_true. intros f. apply u64_range.
  - intros j. rewrite Hev, Hz0. unfold event at 2. rewrite list_lookup_fmap.
    assert (Hsum : foldr (fun r s => event j (snd r) + s) 0 (map node_record l)
      = match data_fields conf !! j with Some f => column m l f | None => 0 end).
    { clear Hrs Hok Hev Hl. induction l as [|c l IH]; cbn [map foldr]; [by destruct (data_fields conf !! j)|].
      rewrite IH. cbn [node_record snd]. unfold event, node_counts. rewrite list_lookup_fmap.
      by destruct (data_fields conf !! j). }
    rewrite Hsum. destruct (data_fields conf !! j); cbn; [|done]. unfold u64. by rewrite Zmod_mod.
Qed.

End Nodes.

(** ** The composition *)

(** The parts of the head that come from outside: the descriptions of the caches
    and the client's command. *)
Definition clean_head (exe : string) (args : list string) (c : sim) : Prop :=
  Forall (fun s => clean s = true) (c_desc_line (I1 c) :: c_desc_line (D1 c) :: c_desc_line (LL c) :: exe :: args).

Lemma clean_cmd args s : clean s = true -> Forall (fun s => clean s = true) args ->
  clean (foldl (fun l arg => (l +:+ " " +:+ arg)%string) s args) = true.
Proof.
  intros Hs Hargs. revert s Hs. induction Hargs as [|a args Ha _ IH]; intros s Hs; [done|].
  cbn [foldl]. apply IH. rewrite !clean_app, Hs, Ha. done.
Qed.

Lemma foldl_prefix args s : exists t, foldl (fun l arg => (l +:+ " " +:+ arg)%string) s args = (s +:+ t)%string.
Proof.
  revert s. induction args as [|a args IH]; intros s; [by exists EmptyString; rewrite string_app_nil_r|].
  cbn [foldl]. destruct (IH (s +:+ " " +:+ a)%string) as (t & ->). eexists. by rewrite string_app_assoc.
Qed.

Lemma desc_line_of label text : clean text = true -> clean label = true ->
  line_of "desc: " ("desc: " +:+ label +:+ text)%string.
Proof. intros Ht Hl. split; [done|]. by rewrite !clean_app, Ht, Hl. Qed.

Lemma head_lines_ok conf exe args c : clean_head exe args c ->
  exists ds cmd, head_lines conf exe args c = ds ++ [cmd; events_line conf] /\ ds <> []
    /\ Forall (line_of "desc: ") ds /\ line_of "cmd: " cmd.
Proof.
  intros Hc. unfold clean_head in Hc. rewrite !Forall_cons in Hc. destruct Hc as (H1 & H2 & H3 & He & Ha).
  exists [("desc: I1 cache:         " +:+ c_desc_line (I1 c))%string;
          ("desc: D1 cache:         " +:+ c_desc_line (D1 c))%string;
          ("desc: LL cache:         " +:+ c_desc_line (LL c))%string], 
    (foldl (fun l arg => (l +:+ " " +:+ arg)%string) ("cmd: " +:+ exe)%string args).
  split; [done|]. split; [done|]. split; [|split].
  - repeat constructor; by rewrite clean_app, ?H1, ?H2, ?H3.
  - destruct (foldl_prefix args ("cmd: " +:+ exe)%string) as (t & ->). by rewrite string_app_assoc.
  - apply clean_cmd; [|done]. by rewrite clean_app, He.
Qed.

Lemma events_line_ok conf : line_of "events: " (events_line conf)
  /\ n_fields conf = count_events (skip_chars 6 (events_line conf)).
Proof.
  unfold events_line, n_fields, data_fields.
  destruct (clo_cache_sim conf), (clo_branch_sim conf); by repeat split.
Qed.

(** The lines of the output file, as the parser of cg_merge sees them. *)
Lemma output_file conf exe args s (nodes := elements (root (CC_table s))) (m := line_counters (cache_sim s)) :
  wf_tables s -> Z.of_nat (length nodes) < 9227464 -> clean_head exe args (cache_sim s) ->
  (forall c, c ∈ nodes -> mergeable m c) ->
  exists o ds cmd (sl := llus_text "summary:" (map (total o) (data_fields conf))),
    fprint_CC_table_and_calc_totals conf true exe args s
      = (let* report := print_stats (cache_sim s) in Ok (o <| out_report := report |>))
    /\ out_lines o = ds ++ [cmd; events_line conf] ++ body_lines conf m None nodes ++ [sl]
    /\ file_ok ds cmd (events_line conf) (node_items conf m None nodes) (body_lines conf m None nodes) sl (n_fields conf)
    /\ records "???" "???" (node_items conf m None nodes) = map (node_record conf m) nodes
    /\ records_total (map (node_record conf m) nodes) (new_Counts_Zeroed (n_fields conf)) = map (total o) (data_fields conf)
    /\ splitUpCountsLine false (skip_chars 8 sl) = Ok (0, map (total o) (data_fields conf)).
Proof.
  intros Hwf Hsize Hhead Hnodes. assert (Hall : Forall (mergeable m) nodes) by (by apply Forall_forall).
  destruct (output_written conf exe args s Hwf Hsize) as (o & Ho & Ht & Hl & _).
  { intros c Hc. by apply Hnodes. }
  destruct (head_lines_ok conf exe args (cache_sim s) Hhead) as (ds & cmd & Hhl & Hne & Hds & Hcmd).
  destruct (events_line_ok conf) as [Hev Hn]. fold nodes m in Hl, Ht.
  assert (Etot : map (total o) (data_fields conf) = map (fun f => u64 (column m nodes f)) (data_fields conf))
    by (by apply map_ext).
  exists o, ds, cmd. cbn zeta. rewrite Etot.
  set (tot := map (fun f => u64 (column m nodes f)) (data_fields conf)) in *.
  assert (Hr : Forall (fun v => 0 <= v < 2 ^ 64) tot) by (apply Forall_map, Forall_true; intros f; apply u64_range).
  destruct (one_blank_ok tot Hr) as (Hsnd & Hsp & Hrange).
  assert (Hlen : length tot = length (data_fields conf)) by (unfold tot; by rewrite length_map).
  pose proof (fields_pos conf) as Hpos.
  split_and!; [done|by rewrite Hl, Hhl, <-app_assoc| | |by apply node_totals; eapply Forall_impl; [exact Hall|]; intros c []|].
  - split; try done; [by apply body_items|]. rewrite llus_tok_text. split.
    + destruct tot as [|v vs]; [unfold n_fields in Hpos; cbn in Hlen; lia|done].
    + by rewrite clean_app, clean_tok_text.
  - by apply node_records.
  - rewrite llus_tok_text.
    change (skip_chars 8 ("summary:" +:+ tok_text (map one_blank tot) 0)) with (tok_text (map one_blank tot) 0).
    destruct tot as [|v vs]; [unfold n_fields in Hpos; cbn in Hlen; lia|].
    cbn [map] in *. rewrite split_counts; [by rewrite <-Hsnd|]. split; [by inversion Hsp|done].
Qed.

(** The text of the file is that of its lines and the report. *)
Lemma output_text_split o : output_text o = (unlines (out_lines o) +:+ out_report o)%string.
Proof.
  unfold output_text. induction (out_lines o) as [|l ls IH]; [done|]. cbn [foldr unlines]. rewrite IH. by rewrite !string_app_assoc.
Qed.

(** C30: the output file of Cachegrind and the parser of cg_merge, for tables of
    fewer than 9227464 lines
    whose names and whose command have no newline and whose line numbers are
    not negative, when the report of the policies can be printed.  The file up to
    its summary line, without that report, is accepted: the profile has
    exactly the counters of every line of the table, nothing for other lines,
    and the totals of the run as its summary.  The whole file is rejected with exit
    code 1, because the report is never empty and nothing may follow the summary. *)
Theorem cg_merge_reads_output conf exe args s report (nodes := elements (root (CC_table s)))
    (m := line_counters (cache_sim s)) :
  wf_tables s -> Z.of_nat (length nodes) < 9227464 -> clean_head exe args (cache_sim s) ->
  (forall c, c ∈ nodes -> mergeable m c) -> print_stats (cache_sim s) = Ok report ->
  exists o p, fprint_CC_table_and_calc_totals conf true exe args s = Ok o
    /\ output_text o = (unlines (out_lines o) +:+ report)%string
    /\ parse_CacheProfFile (unlines (out_lines o)) = Ok p /\ wf_profile p
    /\ (forall c, c ∈ nodes -> count p (node_fn c) (line (loc c)) = Some (node_counts conf m c))
    /\ (forall f l, (forall c, c ∈ nodes -> ~ same_line (node_record conf m c) f l) -> count p f l = None)
    /\ summary p = map (total o) (data_fields conf)
    /\ parse_CacheProfFile (output_text o) = Err (Exited 1).
Proof.
  intros Hwf Hsize Hhead Hnodes Hreport. pose proof (print_stats_report (cache_sim s)) as Hne. rewrite Hreport in Hne.
  destruct (output_file conf exe args s Hwf Hsize Hhead Hnodes) as (o & ds & cmd & Ho & Hl & Hfile & Hrs & Htot & Hsplit).
  fold nodes m in Hl, Hfile, Hrs, Htot. rewrite Hreport in Ho.
  destruct (parse_file ds cmd (events_line conf) (node_items conf m None nodes) (body_lines conf m None nodes)
    _ (n_fields conf) Hfile) as (p & Hp & Hwp & _ & _ & _ & Hcnt & Hsum); [by rewrite Hrs, Htot|].
  exists (o <| out_report := report |>), p. rewrite output_text_split. change (out_lines (o <| out_report := report |>)) with (out_lines o).
  rewrite Hl. rewrite Hrs in Hcnt, Hsum. split_and!; [done|done|exact Hp|done| | |by rewrite Hsum|by eapply parse_file_extra].
  - intros c Hc. rewrite Hcnt. apply (add_records_distinct (map (node_record conf m) nodes) (node_record conf m c)).
    + apply records_distinct. apply (wf_sorted _ (wf_CC s Hwf)).
    + apply list_elem_of_In, in_map. by apply list_elem_of_In.
  - intros f l Hno. rewrite Hcnt. apply add_records_other. intros r Hin%list_elem_of_In.
    apply in_map_iff in Hin as (c & <- & Hc%list_elem_of_In). by apply Hno.
Qed.

Definition mergeableb (m : gmap counter_ptr Z) (c : LineCC) : bool :=
  zeroed m c && clean (chars (file (loc c))) && clean (chars (fn (loc c))) && (0 <=? line (loc c)).

Lemma mergeableb_ok m c : mergeableb m c = true -> mergeable m c.
Proof.
  unfold mergeableb. rewrite !andb_true_iff, Z.leb_le. intros [[[Hz Hf] Hn] Hl].
  split; [by apply zeroed_printable|]. by repeat split.
Qed.

Lemma demo_mergeable c : c ∈ elements (root (CC_table demo_tables)) ->
  mergeable (line_counters (cache_sim demo_tables)) c.
Proof.
  intros Hc. apply mergeableb_ok.
  assert (H : forallb (mergeableb (line_counters (cache_sim demo_tables))) (elements (root (CC_table demo_tables))) = true)
    by (vm_compute; reflexivity).
  rewrite List.forallb_forall in H. apply H. by apply list_elem_of_In.
Qed.

Lemma demo_clean_head : clean_head "prog" ["-x"%string] (cache_sim demo_tables).
Proof. unfold clean_head. repeat constructor; vm_compute; reflexivity. Qed.

Lemma cg_merge_reads_output_witness (conf := mk_options true true EmptyString 16 VGA_amd64)
    (nodes := elements (root (CC_table demo_tables))) (m := line_counters (cache_sim demo_tables)) :
  (length nodes = 3%nat) /\
  exists o p, fprint_CC_table_and_calc_totals conf true "prog" ["-x"%string] demo_tables = Ok o
    /\ output_text o = (unlines (out_lines o) +:+ ("BIP Throttle parameter 0.000000" +:+ newline))%string
    /\ parse_CacheProfFile (unlines (out_lines o)) = Ok p /\ wf_profile p
    /\ (forall c, c ∈ nodes -> count p (node_fn c) (line (loc c)) = Some (node_counts conf m c))
    /\ (forall f l, (forall c, c ∈ nodes -> ~ same_line (node_record conf m c) f l) -> count p f l = None)
    /\ summary p = map (total o) (data_fields conf)
    /\ parse_CacheProfFile (output_text o) = Err (Exited 1).
Proof.
  split; [exact demo_tables_three|].
  apply (cg_merge_reads_output conf "prog" ["-x"%string] demo_tables _ demo_tables_wf);
    [|exact demo_clean_head|exact demo_mergeable|exact demo_report].
  rewrite demo_tables_three. lia.
Defined.
